(* ===== verification/_CoqProject ===== *)
-Q . S2P
Prelude.v
Number.v
Rounding.v
Regex.v
Json.v
IntText.v
Quota.v
BillingExpr.v
BillingRules.v
TierExpr.v
TierEstimate.v
TierEditor.v
PricingSheet.v
PricingTable.v
PricingFlow.v
UpstreamSync.v
StatusCodes.v
ModelMapping.v
NavConfig.v
NavModules.v
TableUrl.v
SettingsForm.v
Session.v
RouteServer.v
RoutePool.v
PoolBuild.v
ApiKeys.v
KeyDrawer.v
KeyList.v
Redemptions.v
EditDrawers.v
GroupRatios.v
GroupRules.v
GroupSettings.v
PaymentSettings.v
PaymentLists.v
PaymentServer.v
Recharge.v
WalletTransfer.v
BlindBoxPayment.v
BlindBoxPanel.v
ChannelUtils.v
ChannelForm.v
ChannelDrawer.v
FetchModels.v
Messages.v
Chat.v
ParamOverride.v
ParamPayload.v
ParamOverrideProofs.v
ParamEditor.v
ParamEditorProofs.v
