(* ===== verification/Prelude.v ===== *)
(** * Verification of the web console (web/default)

    This library models the core logic of the TypeScript front end of the repository,
    [src/web/default/src], and proves the properties that make it correct.  Where a page's
    correctness is a promise of the server, the handler that keeps it is modelled too, from
    the Go code under [src/internal]: the route pools ([marketplace/app], in
    [RouteServer]), the update of a key and what a request checks of it ([identity], in
    [ApiKeys]), the update of a redemption code ([adminops], in [Redemptions]), the settings
    of groups and what they grant and charge ([gateway], in [GroupRules]), the settings of
    payments and the discounts they charge ([platform] and [commerce], in
    [PaymentServer]), the text an option is stored as ([adminops] and [platform], in
    [SettingsForm]).  The other Go code and the Electron shell are outside.
    Paths below are relative to [web/default/src].

    ** The parts and how they interact

    - _Billing expressions._  A model's tiered price is one text: tiers
      ([tier("base", p * 3 + c * 15)], chosen by conditions on the length of the request)
      and, behind a marker, the multipliers of request rules.
      [features/pricing/lib/billing-expr.ts] parses and writes such texts ([BillingExpr],
      theorems in [BillingRules]); [features/pricing/lib/tier-expr.ts] converts them to the
      tiers of the visual editor and back ([TierExpr]) and estimates a price by running the
      text as JavaScript ([TierEstimate]).  The editor itself,
      [features/system-settings/models/tiered-pricing-editor.tsx], keeps the visual tiers,
      the raw text and its parent's expression in step by effects ([TierEditor]); its
      parent is [model-pricing-sheet.tsx] ([PricingSheet]), which holds the ratios and
      prices of one model, and hands what it saves to the table of
      [model-ratio-visual-editor.tsx] ([PricingTable]).  [PricingFlow] composes the four:
      opening, editing and saving a model, from the stored texts to the stored texts.
      [UpstreamSync] ([upstream-ratio-sync*.tsx]) writes the same stored texts from
      the prices of other sites.
    - _Channels._  [features/channels/lib/channel-utils.ts] ([ChannelUtils]),
      [channel-form.ts] ([ChannelForm]), [model-mapping-validation.ts] ([ModelMapping],
      used by the form), [status-code-risk-guard.ts] and [lib/http-status-code-rules.ts]
      ([StatusCodes]), and the editor of parameter overrides,
      [components/dialogs/param-override-editor-dialog.tsx]: its data, texts and validation
      ([ParamOverride], [ParamPayload], theorems in [ParamOverrideProofs]), the component
      with its handlers and what it saves ([ParamEditor], [ParamEditorProofs]).
      [ChannelDrawer] ([components/drawers/channel-mutate-drawer.tsx]) loads a channel into
      the form, asks the two questions of [ModelMapping] and [StatusCodes] and submits it;
      [FetchModels] is the dialog that adds the models an upstream lists.
    - _Keys and credit._  [lib/format.ts] and [lib/currency.ts] convert quota units to
      amounts and back with JavaScript's rounding ([Rounding], [Quota]).  They are used by
      the forms of [features/keys] ([ApiKeys], with the Go handlers that store and spend),
      its drawer ([KeyDrawer]) and its list, which asks for full keys ([KeyList]); by
      [features/redemption-codes] ([Redemptions], with the handler that stores) and by the
      drawers of codes and users ([EditDrawers]).
    - _Groups and payments._  In [features/system-settings/models], the visual editor of
      group ratios ([GroupRatios]), the editors of the rules of selectable groups and of
      subscription policies with the server's reading of their texts ([GroupRules]), and
      the card that checks and saves the texts ([GroupSettings]), so that what an editor
      writes is followed to the ratio the server charges.  [PaymentSettings] is the form of
      the payment providers with its seven saves, [PaymentLists] the visual editors of four
      of its texts, and [PaymentServer] what the server makes of what is sent.
    - _Wallet and blind boxes._  [features/wallet/wallet-transfer-intent.ts] submits a
      transfer under an identifier that is stored before the request is sent
      ([WalletTransfer]).  [BlindBoxPayment] is the hook and dialog that pay a box and poll
      for the result; [BlindBoxPanel] the panel, simulator and economics of the boxes.
      [Recharge] is the selection, quoting and ordering of a top-up
      ([hooks/use-wallet-workspace.ts], [hooks/use-payment.ts]) on the settings that
      [PaymentServer] keeps.
    - _Playground._  [features/playground/lib/message-utils.ts] and [payload-builder.ts]
      ([Messages]) are the messages and the pure updates; [hooks/use-stream-request.ts],
      [hooks/use-chat-handler.ts] and the handlers of [index.tsx] are the requests that
      make these updates ([Chat]).
    - _Route pools._  [features/dawn/market/pool-workbench.tsx], the pages that join a pool
      and the cache of [features/marketplace/hooks.ts] ([RoutePool]) against the server of
      [internal/marketplace/app] ([RouteServer]), through the class of its promises
      that [RouteServer] also discharges; the connectivity tests and proposed pools
      ([PoolBuild]).
    - _Settings, navigation, tables, session._  [NavConfig] reads and writes the
      configuration of the sidebar and header and [NavModules] uses it in the menus and
      route guards.  [SettingsForm] is the hook that sends the changed entries of
      a page, with what three pages send and the texts the server stores for it.
      [TableUrl] keeps the state of a table in the address, whose effect runs only
      when the address has changed.  [Session] is the API client
      ([lib/api.ts]) with its shared reads, the store of the user, the sign-in and the
      page kept for after it.

    ** Files

    - [Prelude]: strings of UTF-16 units with their literals, the [String.prototype]
      functions, the exception monad [exc], lemmas and tactics used everywhere.
    - [Number]: IEEE binary64 numbers (the standard library's executable [SpecFloat]),
      [Number(s)], [String(n)], the [Math] functions; [Rounding]: bounds on the error of
      its operations, from which the round trips of amounts follow; [IntText]: integers
      below 10^15 print as their digits and are read back.
    - [Regex]: regular expressions and the backtracking matcher with groups.
    - [Json]: JSON values, [JSON.parse], [JSON.stringify], conversions.
    - The other files are named in the list above, in the order of [_CoqProject].  Each
      opens with the source it models; the definitions keep the source's names.

    ** How the code is rendered

    A pure function is a Rocq function on the same data, executable throughout.  A function
    that may throw returns [exc A].  A React component is a record of its state and one
    definition per handler, from the state of the last render to the next one together with
    its effects; effects of [useEffect] that set state are commits, iterated until nothing
    is set.  What runs between two [await]s is one step of a transition system ([Chat],
    [WalletTransfer], [Session], [BlindBoxPayment], [BlindBoxPanel], [RoutePool],
    [ChannelDrawer], [KeyDrawer], [KeyList], [EditDrawers], [PaymentSettings], [Recharge]), so that every interleaving of
    answers and user actions is a list of steps; a step that cannot happen is [None].
    Objects used as maps are association lists in the order of the JavaScript properties,
    identical keys overwriting in place, or finite maps where the order is never seen.

    ** What the theorems show

    - _Round trips._  A configuration of visual tiers and an override with its two editing
      modes are read back from what is written, and so are the request rules, all of them
      exactly when none of their groups has a condition whose reading fails (a parameter that
      contains a text or is compared, [guarded_group]).  What the server holds after a key or
      a redemption code was opened and saved without a change, refusals included; every quota
      up to 9 * 10^14 units is read back from the amount it is shown as.
    - _Equivalence._  The streaming parser of [<think>] tags against a grammar; the event
      framing against the split of the whole text; the estimator against the direct
      computation of a configuration's price; the groups a user may select against the rules
      of the editor, in whatever order the server visits them.
    - _Invariants and safety._  The states of a chat, of the blind box panel, of the draft
      of a pool, of the override editor and of the full keys that were fetched; a stopped
      answer never changes again; a transfer stays pending until an answer with the receipt of its own request and
      nothing is sent before it is stored; a late answer never overwrites a session; no
      update of a key is made of another key's data; nothing is ordered but what was quoted; nothing is submitted unasked that the
      two questions of a channel cover; no price is lost by a synchronisation unasked.
    - _Refinement._  The value an override dialog saves, the effect of an edit on the
      parent's expression, the tables a saved price or a synchronisation changes, the
      texts that saving a settings page stores, a table against its address, the pool
      the server stores against the draft, the shared reads against one read each, the
      table of groups against a finite map, a typed override against the ratio charged, and
      edited discounts against the factor of every amount.
    - _Termination and liveness._  The effects of the editor settle; the export of a search
      ends unless codes go between the two queries of a page; every generation of the chat can end; a sign-in completes.
    - _Errors._  Which inputs are refused and with which message, how a creation of several
      keys ends, and the inputs that the code mishandles (a drawer that shows a stale
      channel, or a late reading of another row): these are recorded as findings of the
      manifest, most of them with their theorem.

    ** Fuel and bounds

    The recursion of the sources that is not structural runs on fuel, and each bound is
    proved to be enough where a result depends on it: [json_parse] takes [2 * length + 2]
    ([Json]); [think_loop] takes [S length] and [unwrap_loop], [drain] and the list and
    star loops of the regular expressions take the length of their input, each turn
    consuming a unit; [parse_expr] takes the number of tokens, proved enough for every
    written configuration ([TierEstimate]); five commits settle the price editor
    ([TierEditor]); [fetchAll] takes two more than the full pages of the most rows a page's query finds
    ([Redemptions]);
    the renders of a top-up end after two ([Recharge]); [shortest_go] tries the 17 digits
    that always identify a binary64 number, proved enough for integers ([IntText]).  Integers of
    the API are in [Z]; every other number is a binary64 value and rounds as JavaScript's.

    ** Parameters

    The clock and the drawn identifiers, [nanoid], the translation [t] and the texts it
    gives, the texts of engine exceptions, the engine on programs outside the modelled
    language, [toLowerCase] and the order of [localeCompare] on arbitrary texts, the byte
    decoder, the router, the marks that the form library puts on changed fields, the
    order of groups that the server lists without a rule, the server's
    answers, and what [fmt] prints for an array or an object are arguments of the definitions that use them.

    ** Not modelled

    The markup and styling of components; thin wrappers of HTTP calls and of the query
    cache; [routeTree.gen.ts] (generated); date and locale formatting (dayjs, [Intl]);
    the browser's session storage of the playground; [normalizeTierLabel] (Unicode case
    mapping); the pages that only show server data (dashboard, rankings, documentation,
    marketing, usage logs, profile); passkeys and the sign-in through providers (browser
    APIs); the remaining settings pages, which bind one input to one option; the remaining
    Go code.  Of the zod schemas, those of keys, redemption codes, users, groups and
    payments are modelled ([getApiKeyFormSchema], [getRedemptionFormSchema],
    [EditDrawers], [groupSchema], [PaymentSettings.schema]); the others are the
    types of their values.  The manifest lists each with its reason. *)

From Stdlib Require Export NArith ZArith Bool Lia Sorting.Sorted.
From Stdlib Require Import Strings.Byte.
From stdpp Require Export base list.
From stdpp Require Import options.

(** * JavaScript strings

    A JavaScript string is a finite sequence of UTF-16 code units.  We represent
    it as a [list N], so that the whole list library applies. *)

Abbreviation jstr := (list N).

Declare Scope js_scope.
Delimit Scope js_scope with js.

(** String literals in [js_scope]: the bytes of the Rocq literal are decoded
    from UTF-8 and re-encoded as UTF-16 code units. *)
Inductive js_lit := JsLitNil | JsLitCons (unit : N) (rest : js_lit).

Definition cont_byte (b : byte) : N := (Byte.to_N b - 128)%N.

Definition lit_scalar (cp : N) (rest : js_lit) : js_lit :=
  if (cp <? 65536)%N then JsLitCons cp rest
  else
    let v := (cp - 65536)%N in
    JsLitCons (55296 + v / 1024)%N (JsLitCons (56320 + v mod 1024)%N rest).

Fixpoint js_lit_parse (bs : list byte) : option js_lit :=
  match bs with
  | [] => Some JsLitNil
  | b0 :: bs1 =>
    let n := Byte.to_N b0 in
    if (n <? 128)%N then
      match js_lit_parse bs1 with
      | Some r => Some (JsLitCons n r)
      | None => None
      end
    else if (n <? 224)%N then
      match bs1 with
      | b1 :: bs2 =>
        match js_lit_parse bs2 with
        | Some r => Some (lit_scalar ((n - 192) * 64 + cont_byte b1)%N r)
        | None => None
        end
      | _ => None
      end
    else if (n <? 240)%N then
      match bs1 with
      | b1 :: b2 :: bs3 =>
        match js_lit_parse bs3 with
        | Some r =>
          Some (lit_scalar
                  ((n - 224) * 4096 + cont_byte b1 * 64 + cont_byte b2)%N r)
        | None => None
        end
      | _ => None
      end
    else
      match bs1 with
      | b1 :: b2 :: b3 :: bs4 =>
        match js_lit_parse bs4 with
        | Some r =>
          Some (lit_scalar
                  ((n - 240) * 262144 + cont_byte b1 * 4096
                   + cont_byte b2 * 64 + cont_byte b3)%N r)
        | None => None
        end
      | _ => None
      end
  end.

(** Only ASCII literals are printed back as literals. *)
Fixpoint js_lit_print (l : js_lit) : option (list byte) :=
  match l with
  | JsLitNil => Some []
  | JsLitCons n r =>
    if (n <? 128)%N then
      match Byte.of_N n, js_lit_print r with
      | Some b, Some bs => Some (b :: bs)
      | _, _ => None
      end
    else None
  end.

String Notation list js_lit_parse js_lit_print
  (via js_lit mapping [ [nil] => JsLitNil, [cons] => JsLitCons ]) : js_scope.

#[global] Open Scope js_scope.

(** ** Code units used by the sources *)
Abbreviation dquote := 34%N.
Abbreviation backslash := 92%N.
Abbreviation lf := 10%N.
Abbreviation lparen := 40%N.
Abbreviation rparen := 41%N.

(** Decide the comparisons of a goal one by one, dropping impossible cases. *)
Ltac ncases :=
  repeat match goal with
  | |- context [(?a <=? ?b)%N] => destruct (N.leb_spec a b); try (exfalso; lia)
  | |- context [(?a <? ?b)%N] => destruct (N.ltb_spec a b); try (exfalso; lia)
  | |- context [(?a =? ?b)%N] => destruct (N.eqb_spec a b); try (exfalso; lia)
  end; try reflexivity.

(** ** Boolean equality *)

Fixpoint seqb (a b : jstr) : bool :=
  match a, b with
  | [], [] => true
  | x :: a', y :: b' => (x =? y)%N && seqb a' b'
  | _, _ => false
  end.

Infix "=s" := seqb (at level 70, no associativity) : js_scope.

Lemma seqb_eq (a b : jstr) : (a =s b) = true <-> a = b.
Proof.
  revert b; induction a as [|x a IH]; intros [|y b]; cbn; try easy.
  rewrite andb_true_iff, N.eqb_eq, IH. split; [intros [-> ->]|intros [= -> ->]]; easy.
Qed.

Lemma seqb_refl (a : jstr) : (a =s a) = true.
Proof. now apply seqb_eq. Qed.

Lemma seqb_spec (a b : jstr) : reflect (a = b) (a =s b).
Proof. apply iff_reflect. symmetry. apply seqb_eq. Qed.

Lemma seqb_neq (a b : jstr) : (a =s b) = false <-> a <> b.
Proof. destruct (seqb_spec a b); split; congruence. Qed.

Lemma seqb_sym a b : (a =s b) = (b =s a).
Proof. destruct (seqb_spec a b), (seqb_spec b a); congruence. Qed.

(** Truthiness of a string: only the empty string is falsy. *)
Definition truthy (s : jstr) : bool := match s with [] => false | _ => true end.

(** [x || y] on strings. *)
Definition str_or (x y : jstr) : jstr := if truthy x then x else y.

Definition memb (x : jstr) (l : list jstr) : bool := existsb (seqb x) l.

Lemma memb_In x l : memb x l = true <-> In x l.
Proof.
  unfold memb. rewrite existsb_exists. split.
  - intros (y & Hy & Heq%seqb_eq). now subst.
  - intros H. exists x. split; [easy | apply seqb_refl].
Qed.

Lemma memb_not_In x l : memb x l = false <-> ~ In x l.
Proof. rewrite <- memb_In. destruct (memb x l); split; congruence. Qed.

(** ** Prefixes, substrings *)

Fixpoint strip_prefix (p s : jstr) : option jstr :=
  match p, s with
  | [], _ => Some s
  | a :: p', b :: s' => if (a =? b)%N then strip_prefix p' s' else None
  | _, _ => None
  end.

Definition startsWith (s p : jstr) : bool :=
  match strip_prefix p s with Some _ => true | None => false end.

Definition endsWith (s p : jstr) : bool := startsWith (rev s) (rev p).

Lemma strip_prefix_app p s : strip_prefix p (p ++ s) = Some s.
Proof. induction p as [|a p IH]; cbn; [easy|]. now rewrite N.eqb_refl. Qed.

Lemma strip_prefix_Some p s r : strip_prefix p s = Some r <-> s = p ++ r.
Proof.
  split; [|intros ->; apply strip_prefix_app].
  revert s; induction p as [|a p IH]; intros s H; cbn in *; [congruence|].
  destruct s as [|b s]; [discriminate|].
  destruct (N.eqb_spec a b) as [->|]; [|discriminate]. f_equal. now apply IH.
Qed.

Lemma startsWith_app p s : startsWith (p ++ s) p = true.
Proof. unfold startsWith. now rewrite strip_prefix_app. Qed.

Lemma startsWith_true s p : startsWith s p = true <-> exists r, s = p ++ r.
Proof.
  unfold startsWith. destruct (strip_prefix p s) as [r|] eqn:E.
  - apply strip_prefix_Some in E. split; eauto.
  - split; [easy|]. intros [r ->]. now rewrite strip_prefix_app in E.
Qed.

Lemma endsWith_true s p : endsWith s p = true <-> exists r, s = r ++ p.
Proof.
  unfold endsWith. rewrite startsWith_true. split; intros [r Hr].
  - exists (rev r). rewrite <- (rev_involutive s), Hr, rev_app_distr, rev_involutive. easy.
  - exists (rev r). now rewrite Hr, rev_app_distr.
Qed.

(** [s.indexOf(p)] from the start of [s]; [None] is the sources' [-1]. *)
Fixpoint indexOf (p s : jstr) : option nat :=
  if startsWith s p then Some 0
  else match s with
       | [] => None
       | _ :: s' => option_map S (indexOf p s')
       end.

Definition includes (s p : jstr) : bool :=
  match indexOf p s with Some _ => true | None => false end.

Lemma indexOf_nil p : p <> [] -> indexOf p [] = None.
Proof. destruct p; cbn; congruence. Qed.

(** [indexOf] finds an occurrence ... *)
Lemma indexOf_Some p s i :
  indexOf p s = Some i -> s = take i s ++ p ++ drop (i + length p) s.
Proof.
  revert i; induction s as [|c s IH]; intros i; cbn [indexOf].
  - destruct (startsWith [] p) eqn:E; [|discriminate].
    intros [= <-]. apply startsWith_true in E as [r Hr].
    symmetry in Hr. apply app_eq_nil in Hr as [-> ->]. easy.
  - destruct (startsWith (c :: s) p) eqn:E.
    + intros [= <-]. apply startsWith_true in E as [r Hr]. rewrite Hr.
      cbn. now rewrite drop_app_length.
    + destruct (indexOf p s) as [j|] eqn:Ej; [|discriminate].
      intros [= <-]. cbn. f_equal. now apply IH.
Qed.

Lemma indexOf_bound p s i : indexOf p s = Some i -> i + length p <= length s.
Proof.
  revert i; induction s as [|c s IH]; intros i; cbn [indexOf].
  - destruct (startsWith [] p) eqn:E; [|discriminate]. intros [= <-].
    apply startsWith_true in E as [r ->%(f_equal length)]. rewrite length_app. lia.
  - destruct (startsWith (c :: s) p) eqn:E.
    + intros [= <-]. apply startsWith_true in E as [r ->%(f_equal length)]. rewrite length_app. lia.
    + destruct (indexOf p s) as [j|] eqn:Ej; [|discriminate]. intros [= <-].
      specialize (IH j eq_refl). cbn. lia.
Qed.

(** ... and the first one. *)
Lemma indexOf_first p s i :
  indexOf p s = Some i -> forall j, j < i -> startsWith (drop j s) p = false.
Proof.
  revert i; induction s as [|c s IH]; intros i; cbn [indexOf].
  - destruct (startsWith [] p); [|discriminate]. intros [= <-] j Hj. lia.
  - destruct (startsWith (c :: s) p) eqn:E.
    + intros [= <-] j Hj. lia.
    + destruct (indexOf p s) as [k|] eqn:Ek; [|discriminate].
      intros [= <-] [|j] Hj; cbn; [easy|]. apply (IH k); [easy|lia].
Qed.

Lemma indexOf_None p s :
  indexOf p s = None -> forall j, startsWith (drop j s) p = false.
Proof.
  induction s as [|c s IH]; cbn [indexOf].
  - destruct (startsWith [] p) eqn:E; [discriminate|]. intros _ [|j]; easy.
  - destruct (startsWith (c :: s) p) eqn:E; [discriminate|].
    destruct (indexOf p s); [discriminate|]. intros _ [|j]; cbn; auto.
Qed.

(** ** White space and [trim] *)

(** The code units [String.prototype.trim] removes and the class [\s] matches. *)
Definition is_space (c : N) : bool :=
  (((9 <=? c) && (c <=? 13)) || (c =? 32) || (c =? 160) || (c =? 5760)
   || ((8192 <=? c) && (c <=? 8202)) || (c =? 8232) || (c =? 8233)
   || (c =? 8239) || (c =? 8287) || (c =? 12288) || (c =? 65279))%N.

Fixpoint trimStart (s : jstr) : jstr :=
  match s with
  | c :: s' => if is_space c then trimStart s' else s
  | [] => []
  end.

Definition trimEnd (s : jstr) : jstr := rev (trimStart (rev s)).
Definition trim (s : jstr) : jstr := trimEnd (trimStart s).

(** [s] has no white space at either end. *)
Definition edges_ok (s : jstr) : bool :=
  match s with
  | [] => true
  | c :: _ => negb (is_space c) && match rev s with d :: _ => negb (is_space d) | [] => true end
  end.

Definition trimmed (s : jstr) : Prop := trim s = s.

Lemma trimStart_suffix s : exists w, s = w ++ trimStart s /\ Forall (fun c => is_space c = true) w.
Proof.
  induction s as [|c s (w & Hw & Hf)]; cbn; [now exists []|].
  destruct (is_space c) eqn:E.
  - exists (c :: w). split; [cbn; congruence | now constructor].
  - now exists [].
Qed.

Lemma trimStart_head s c r : trimStart s = c :: r -> is_space c = false.
Proof.
  induction s as [|d s IH]; cbn; [discriminate|].
  destruct (is_space d) eqn:E; [easy|]. now intros [= -> ->].
Qed.

Lemma trimStart_id c s : is_space c = false -> trimStart (c :: s) = c :: s.
Proof. cbn. now intros ->. Qed.

Lemma trimStart_idem s : trimStart (trimStart s) = trimStart s.
Proof.
  destruct (trimStart s) as [|c r] eqn:E; [easy|].
  apply trimStart_id. eauto using trimStart_head.
Qed.

Lemma trimStart_nonspace s :
  match s with [] => True | c :: _ => is_space c = false end -> trimStart s = s.
Proof. destruct s; [easy|]. apply trimStart_id. Qed.

Lemma edges_trim s : edges_ok s = true -> trim s = s.
Proof.
  unfold edges_ok, trim, trimEnd. destruct s as [|c s]; [easy|].
  rewrite andb_true_iff, negb_true_iff. intros [Hc Hd].
  rewrite (trimStart_id c s Hc).
  rewrite (trimStart_nonspace (rev (c :: s))); [apply rev_involutive|].
  destruct (rev (c :: s)); [easy|]. now apply negb_true_iff in Hd.
Qed.

Lemma trim_edges s : edges_ok (trim s) = true.
Proof.
  unfold trim, trimEnd. set (t := trimStart s).
  destruct (trimStart_suffix (rev t)) as (w & Hw & _).
  assert (Ht : t = rev (trimStart (rev t)) ++ rev w).
  { rewrite <- rev_app_distr, <- Hw. now rewrite rev_involutive. }
  unfold edges_ok. destruct (rev (trimStart (rev t))) as [|c r] eqn:Er; [easy|].
  apply andb_true_iff; split.
  - apply negb_true_iff. apply (trimStart_head s _ (r ++ rev w)). exact Ht.
  - rewrite <- Er, rev_involutive.
    destruct (trimStart (rev t)) as [|d q] eqn:Ed; [easy|].
    apply negb_true_iff. eauto using trimStart_head.
Qed.

Lemma trim_idem s : trim (trim s) = trim s.
Proof. apply edges_trim, trim_edges. Qed.

Lemma edges_ok_app a m b :
  edges_ok a = true -> edges_ok b = true -> a <> [] -> b <> [] -> edges_ok (a ++ m ++ b) = true.
Proof.
  unfold edges_ok. intros Ha Hb Hna Hnb.
  destruct a as [|c a]; [easy|]. destruct b as [|d b]; [easy|]. cbn [app].
  apply andb_true_iff in Ha as [-> _]. apply andb_true_iff in Hb as [_ Hb].
  cbn [andb]. replace (rev (c :: a ++ m ++ d :: b)) with (rev (d :: b) ++ rev (c :: a ++ m)).
  - destruct (rev (d :: b)) eqn:E; [|easy].
    apply (f_equal (@length N)) in E. rewrite length_rev in E. discriminate.
  - rewrite <- rev_app_distr. cbn. now rewrite <- app_assoc.
Qed.

Lemma trim_units P s : Forall P s -> Forall P (trim s).
Proof.
  assert (H : forall t, Forall P t -> Forall P (trimStart t)).
  { intros t Ht. destruct (trimStart_suffix t) as (w & E & _). rewrite E in Ht.
    now apply Forall_app in Ht. }
  intros Hs. unfold trim, trimEnd. apply Forall_rev, H, Forall_rev, H, Hs.
Qed.

(** Only blanks trim to nothing. *)
Lemma trim_nil_iff s : trim s = [] <-> Forall (fun c => is_space c = true) s.
Proof.
  assert (H : forall t, trimStart t = [] <-> Forall (fun c => is_space c = true) t).
  { intros t. induction t as [|c t IH]; cbn; [split; [constructor|easy]|].
    destruct (is_space c) eqn:E.
    - rewrite IH. split; [now constructor|]. now intros [_ ?]%Forall_cons_1.
    - split; [easy|]. intros [Hc _]%Forall_cons_1. congruence. }
  unfold trim, trimEnd. split.
  - intros E. apply (f_equal (@rev N)) in E. rewrite rev_involutive in E. cbn in E.
    apply H, Forall_rev in E. rewrite rev_involutive in E.
    destruct (trimStart_suffix s) as (w & Es & Hw). rewrite Es. now apply Forall_app.
  - intros Hs. apply H in Hs as ->. easy.
Qed.

(** ** Case mapping of ASCII letters *)

Definition upper_unit (c : N) : N := if ((97 <=? c) && (c <=? 122))%N then (c - 32)%N else c.
Definition lower_unit (c : N) : N := if ((65 <=? c) && (c <=? 90))%N then (c + 32)%N else c.
Definition toUpper (s : jstr) : jstr := map upper_unit s.
Definition toLower (s : jstr) : jstr := map lower_unit s.

(** ** Splitting and joining *)

(** [s.split(sep)] for a one-unit separator. *)
Fixpoint splitc (sep : N) (s : jstr) : list jstr :=
  match s with
  | [] => [[]]
  | c :: s' =>
    if (c =? sep)%N then [] :: splitc sep s'
    else match splitc sep s' with
         | p :: ps => (c :: p) :: ps
         | [] => [[c]]
         end
  end.

(** [s.split(sep)] for a non-empty separator: [skip] units of the separator are
    still to be dropped and [cur] is the current piece, reversed. *)
Fixpoint split_go (sep : jstr) (skip : nat) (cur s : jstr) : list jstr :=
  match s with
  | [] => [rev cur]
  | c :: s' =>
    match skip with
    | S k => split_go sep k cur s'
    | 0 => if startsWith s sep then rev cur :: split_go sep (length sep - 1) [] s'
           else split_go sep 0 (c :: cur) s'
    end
  end.

Definition split (sep s : jstr) : list jstr := split_go sep 0 [] s.

(** [parts.join(sep)] *)
Fixpoint join (sep : jstr) (parts : list jstr) : jstr :=
  match parts with
  | [] => []
  | [p] => p
  | p :: ps => p ++ sep ++ join sep ps
  end.

Lemma join_cons sep p ps : ps <> [] -> join sep (p :: ps) = p ++ sep ++ join sep ps.
Proof. now destruct ps. Qed.

Lemma join_app_nonempty sep ps :
  ps <> [] -> Forall (fun p => p <> []) ps -> join sep ps <> [].
Proof.
  intros Hne H. destruct H as [|p ps Hp _]; [easy|]. destruct ps; [easy|].
  rewrite join_cons by easy. now destruct p.
Qed.

Lemma join_edges_ok sep ps :
  Forall (fun p => edges_ok p = true /\ p <> []) ps -> edges_ok (join sep ps) = true.
Proof.
  induction 1 as [|p ps [He Hne] Hps IH]; [easy|]. destruct ps as [|q ps]; [easy|].
  rewrite join_cons by easy. apply edges_ok_app; try easy.
  apply join_app_nonempty; [easy|]. apply (Forall_impl _ _ _ Hps). tauto.
Qed.

Lemma splitc_nonempty sep s : splitc sep s <> [].
Proof.
  induction s as [|c s IH]; cbn; [easy|].
  destruct (c =? sep)%N; [easy|]. now destruct (splitc sep s).
Qed.

Lemma splitc_piece sep p : Forall (fun c => c <> sep) p -> splitc sep p = [p].
Proof.
  induction 1 as [|c p Hc _ IH]; cbn; [easy|].
  apply N.eqb_neq in Hc. now rewrite Hc, IH.
Qed.

Lemma splitc_app sep p s :
  Forall (fun c => c <> sep) p -> splitc sep (p ++ sep :: s) = p :: splitc sep s.
Proof.
  induction 1 as [|c p Hc _ IH]; cbn.
  - now rewrite N.eqb_refl.
  - apply N.eqb_neq in Hc. now rewrite Hc, IH.
Qed.

(** Splitting a joined list gives the pieces back. *)
Lemma splitc_join sep ps :
  ps <> [] -> Forall (Forall (fun c => c <> sep)) ps -> splitc sep (join [sep] ps) = ps.
Proof.
  intros Hne H. induction H as [|p ps Hp Hps IH]; [easy|].
  destruct ps as [|q ps]; [now apply splitc_piece|].
  rewrite join_cons by easy. cbn [app]. rewrite splitc_app by easy.
  now rewrite IH.
Qed.

(** Conversely, joining what was split gives the string back. *)
Lemma join_splitc sep s : join [sep] (splitc sep s) = s.
Proof.
  induction s as [|c s IH]; cbn; [easy|].
  destruct (N.eqb_spec c sep) as [->|Hne].
  - rewrite join_cons by apply splitc_nonempty. cbn. now rewrite IH.
  - destruct (splitc sep s) as [|p [|q ps]] eqn:E; cbn in *; congruence.
Qed.

Lemma splitc_no_sep sep s : Forall (Forall (fun c => c <> sep)) (splitc sep s).
Proof.
  induction s as [|c s IH]; cbn; [repeat constructor|].
  destruct (N.eqb_spec c sep) as [->|Hne]; [now constructor|].
  destruct (splitc sep s) as [|p ps]; [repeat constructor; easy|].
  apply Forall_cons_1 in IH as [Hp Hps]. constructor; [now constructor | easy].
Qed.

(** ** Sets of strings

    [Array.from(new Set(l))] keeps the first occurrence of each element. *)
Fixpoint uniq_go (seen l : list jstr) : list jstr :=
  match l with
  | [] => []
  | x :: l' => if memb x seen then uniq_go seen l' else x :: uniq_go (x :: seen) l'
  end.

Definition uniq (l : list jstr) : list jstr := uniq_go [] l.

Lemma uniq_go_In seen l x : In x (uniq_go seen l) <-> In x l /\ ~ In x seen.
Proof.
  revert seen; induction l as [|y l IH]; intros seen; cbn; [tauto|].
  destruct (memb y seen) eqn:E.
  - apply memb_In in E. rewrite IH. split; intros []; [tauto|]. split; [|easy].
    destruct H; [now subst|easy].
  - apply memb_not_In in E. cbn. rewrite IH. cbn. split.
    + intros [->|[H1 H2]]; tauto.
    + intros [[->|H1] H2]; [now left|]. destruct (seqb_spec y x); [now left|tauto].
Qed.

Lemma uniq_In l x : In x (uniq l) <-> In x l.
Proof. unfold uniq. rewrite uniq_go_In. cbn. tauto. Qed.

Lemma uniq_go_NoDup seen l : List.NoDup (uniq_go seen l).
Proof.
  revert seen; induction l as [|y l IH]; intros seen; cbn; [constructor|].
  destruct (memb y seen); [apply IH|]. constructor; [|apply IH].
  rewrite uniq_go_In. cbn. tauto.
Qed.

Lemma uniq_NoDup l : List.NoDup (uniq l).
Proof. apply uniq_go_NoDup. Qed.

Lemma uniq_go_length seen l : length (uniq_go seen l) <= length l.
Proof.
  revert seen; induction l as [|x l IH]; intros seen; cbn; [lia|].
  destruct (memb x seen); cbn; [specialize (IH seen)|specialize (IH (x :: seen))]; lia.
Qed.

Lemma uniq_length l : length (uniq l) <= length l.
Proof. apply uniq_go_length. Qed.

Lemma uniq_go_id seen l :
  List.NoDup l -> (forall x, In x l -> ~ In x seen) -> uniq_go seen l = l.
Proof.
  intros Hnd; revert seen; induction Hnd as [|x l Hx Hnd IH]; intros seen Hs; cbn; [easy|].
  assert (E : memb x seen = false) by (apply memb_not_In, Hs; now left).
  rewrite E. f_equal. apply IH. intros y Hy [->|Hin]; [easy|]. eapply Hs; [right|]; eauto.
Qed.

Lemma uniq_id l : List.NoDup l -> uniq l = l.
Proof. intros H. apply uniq_go_id; auto. Qed.

Lemma uniq_idem l : uniq (uniq l) = uniq l.
Proof. apply uniq_id, uniq_NoDup. Qed.

(** ** Decimal digits *)

Definition is_digit (c : N) : bool := ((48 <=? c) && (c <=? 57))%N.

Lemma is_digit_iff c : is_digit c = true <-> (48 <= c <= 57)%N.
Proof. unfold is_digit. now rewrite andb_true_iff, !N.leb_le. Qed.

(** The decimal digits of [n], no leading zero; [fuel] bounds their number. *)
Fixpoint digits_go (fuel : nat) (n : N) (acc : jstr) : jstr :=
  match fuel with
  | 0 => acc
  | S f =>
    let acc' := (48 + n mod 10)%N :: acc in
    if (n <? 10)%N then acc' else digits_go f (n / 10)%N acc'
  end.

Definition digits (n : N) : jstr := digits_go (S (N.size_nat n)) n [].

(** The value of a digit string; also [Number.parseInt(s, 10)] on one. *)
Definition undigits (s : jstr) : N := fold_left (fun a c => a * 10 + (c - 48))%N s 0%N.

Lemma undigits_snoc s c : undigits (s ++ [c]) = (undigits s * 10 + (c - 48))%N.
Proof. unfold undigits. now rewrite fold_left_app. Qed.

Lemma size_nat_bound n : (n < 10 ^ N.of_nat (N.size_nat n))%N.
Proof.
  assert (Hsz : N.of_nat (N.size_nat n) = N.size n)
    by (destruct n as [|p]; [easy|]; cbn; induction p; cbn -[N.of_nat] in *; lia).
  rewrite Hsz. eapply N.lt_le_trans; [apply N.size_gt|].
  apply N.pow_le_mono_l. lia.
Qed.

Lemma digits_go_spec fuel n acc :
  (n < 10 ^ N.of_nat fuel)%N ->
  exists ds, digits_go (S fuel) n acc = ds ++ acc /\ undigits ds = n
             /\ Forall (fun c => is_digit c = true) ds /\ ds <> [].
Proof.
  revert n acc; induction fuel as [|f IH]; intros n acc Hn.
  - assert (n = 0)%N as -> by (cbn in Hn; lia). exists [48%N].
    repeat split; [repeat constructor | easy].
  - cbn [digits_go]. destruct (N.ltb_spec n 10) as [Hlt|Hge].
    + cbn zeta. exists [(48 + n mod 10)%N]. rewrite N.mod_small by easy.
      repeat split; [unfold undigits; cbn [fold_left]; lia| |easy].
      repeat constructor. apply is_digit_iff. lia.
    + destruct (IH (n / 10)%N ((48 + n mod 10)%N :: acc)) as (ds & Hd & Hv & Hf & Hne).
      { rewrite Nat2N.inj_succ, N.pow_succ_r' in Hn. apply N.Div0.div_lt_upper_bound. lia. }
      exists (ds ++ [(48 + n mod 10)%N]).
      assert (n mod 10 < 10)%N by (now apply N.mod_lt). repeat split.
      * change (digits_go (S f) (n / 10) ((48 + n mod 10)%N :: acc) = (ds ++ [(48 + n mod 10)%N]) ++ acc).
        now rewrite Hd, <- app_assoc.
      * rewrite undigits_snoc, Hv. pose proof (N.div_mod' n 10) as Hdm.
        revert H Hdm; generalize (n mod 10)%N (n / 10)%N; intros; lia.
      * apply Forall_app_2; [easy|]. repeat constructor. apply is_digit_iff.
        revert H; generalize (n mod 10)%N; intros; lia.
      * now destruct ds.
Qed.

Lemma digits_spec n :
  undigits (digits n) = n /\ Forall (fun c => is_digit c = true) (digits n) /\ digits n <> [].
Proof.
  unfold digits. destruct (digits_go_spec (N.size_nat n) n [] (size_nat_bound n))
    as (ds & Hd & Hv & Hf & Hne).
  rewrite Hd, app_nil_r. auto.
Qed.

Lemma undigits_digits n : undigits (digits n) = n.
Proof. apply digits_spec. Qed.

Lemma digits_all n : Forall (fun c => is_digit c = true) (digits n).
Proof. apply digits_spec. Qed.

Lemma digits_nonempty n : digits n <> [].
Proof. apply digits_spec. Qed.

Lemma digits_inj m n : digits m = digits n -> m = n.
Proof. intros H. now rewrite <- (undigits_digits m), H, undigits_digits. Qed.

Lemma rev_case {A} (l : list A) : l = [] \/ exists l' x, l = l' ++ [x].
Proof. destruct l as [|x l] using rev_ind; [now left|right; now exists l, x]. Qed.

(** The way an array index is written: no leading zero. *)
Definition canonical (s : jstr) : Prop :=
  Forall (fun c => is_digit c = true) s
  /\ match s with [] => False | c :: r => c <> 48%N \/ r = [] end.

Lemma undigits_ge s : forall a, (a <= fold_left (fun a c => a * 10 + (c - 48)) s a)%N.
Proof. induction s as [|c s IH]; cbn; intros a; [lia|]. specialize (IH (a * 10 + (c - 48))%N). lia. Qed.

Lemma canonical_pos c s : is_digit c = true -> c <> 48%N -> (0 < undigits (c :: s))%N.
Proof.
  intros Hc%is_digit_iff Hn. unfold undigits. cbn [fold_left].
  pose proof (undigits_ge s (0 * 10 + (c - 48))%N). lia.
Qed.

Lemma canonical_snoc s c :
  canonical (s ++ [c]) ->
  (48 <= c <= 57)%N /\ (s = [] \/ canonical s /\ (0 < undigits s)%N).
Proof.
  intros [H1 H2]. apply Forall_app in H1 as [Hs Hc]. apply Forall_cons_1 in Hc as [Hc%is_digit_iff _].
  split; [exact Hc|]. destruct s as [|d s]; [now left|right]. apply Forall_cons_1 in Hs as [Hd Hs].
  cbn in H2. assert (d <> 48%N) by (destruct H2 as [|H2]; [easy|now destruct s]).
  split; [split; [now constructor|now left]|]. now apply canonical_pos.
Qed.

Lemma undigits_inj s t : canonical s -> canonical t -> undigits s = undigits t -> s = t.
Proof.
  revert t; induction s as [|c s IH] using rev_ind; intros t Hs Ht E; [now destruct Hs|].
  destruct (rev_case t) as [-> | (t' & d & ->)]; [now destruct Ht|].
  apply canonical_snoc in Hs as [Hc Hs], Ht as [Hd Ht]. rewrite !undigits_snoc in E.
  destruct Hs as [-> | [Hs Ps]], Ht as [-> | [Ht Pt]]; change (undigits []) with 0%N in E.
  - do 2 f_equal. lia.
  - lia.
  - lia.
  - assert (undigits s = undigits t') by lia. assert (c = d) as -> by lia. f_equal. now apply IH.
Qed.

(** A digit is neither white space nor one of the sources' separators. *)
Lemma digit_range c : is_digit c = true -> (48 <= c <= 57)%N.
Proof. apply is_digit_iff. Qed.

Lemma digit_not_space c : is_digit c = true -> is_space c = false.
Proof. intros H%digit_range. unfold is_space. ncases. Qed.

Lemma digits_edges_ok n : edges_ok (digits n) = true.
Proof.
  unfold edges_ok. pose proof (digits_all n) as H.
  assert (H' : Forall (fun c => is_digit c = true) (rev (digits n))) by (now apply Forall_rev).
  destruct (digits n) as [|c s]; [easy|]. apply Forall_cons_1 in H as [Hc _].
  rewrite (digit_not_space _ Hc). cbn [negb andb].
  destruct (rev (c :: s)) as [|d r]; [easy|]. apply Forall_cons_1 in H' as [Hd _].
  now rewrite (digit_not_space _ Hd).
Qed.

Lemma truthy_iff s : truthy s = true <-> s <> [].
Proof. now destruct s. Qed.

Lemma join_units sep P ps :
  Forall P sep -> Forall (Forall P) ps -> Forall P (join sep ps).
Proof.
  intros Hs. induction 1 as [|p ps Hp Hps IH]; [constructor|]. destruct ps as [|q ps]; [easy|].
  rewrite join_cons by easy. rewrite !Forall_app. auto.
Qed.

Lemma omap_In {A B} (f : A -> option B) l y :
  In y (omap f l) <-> exists x, In x l /\ f x = Some y.
Proof.
  rewrite <- list_elem_of_In, list_elem_of_omap.
  split; intros (x & Hx & E); exists x; rewrite list_elem_of_In in *; auto.
Qed.

Lemma uniq_Forall P ms : Forall P ms -> Forall P (uniq ms).
Proof.
  intros H. apply List.Forall_forall. intros x Hx.
  exact (proj1 (List.Forall_forall _ _) H x (proj1 (uniq_In _ _) Hx)).
Qed.

(** ** Sorting

    [Array.prototype.sort] is stable: elements that compare equal keep their
    order.  [le x y] is [compare(x, y) <= 0]. *)
Section Sort.
Context {A : Type} (le : A -> A -> bool).

Fixpoint sort_insert (x : A) (l : list A) : list A :=
  match l with
  | [] => [x]
  | y :: l' => if le x y then x :: y :: l' else y :: sort_insert x l'
  end.

Definition stable_sort (l : list A) : list A := foldr sort_insert [] l.

Lemma sort_insert_Permutation x l : sort_insert x l ≡ₚ x :: l.
Proof.
  induction l as [|y l IH]; cbn; [easy|]. destruct (le x y); [easy|]. now rewrite IH, Permutation_swap.
Qed.

Lemma stable_sort_Permutation l : stable_sort l ≡ₚ l.
Proof. induction l as [|x l IH]; cbn; [easy|]. now rewrite sort_insert_Permutation, IH. Qed.

Lemma stable_sort_In x l : In x (stable_sort l) <-> In x l.
Proof. split; apply Permutation_in; [|symmetry]; apply stable_sort_Permutation. Qed.

Definition sorted_by (l : list A) : Prop := StronglySorted (fun x y => le x y = true) l.

Hypothesis le_total : forall x y, le x y = false -> le y x = true.
Hypothesis le_trans : forall x y z, le x y = true -> le y z = true -> le x z = true.

Lemma sort_insert_sorted x l : sorted_by l -> sorted_by (sort_insert x l).
Proof using le_total le_trans.
  unfold sorted_by. induction 1 as [|y l Hl IH Hy]; cbn; [repeat constructor|].
  destruct (le x y) eqn:E.
  - repeat constructor; try easy. apply (Forall_impl _ _ _ Hy). eauto.
  - constructor; [easy|]. rewrite sort_insert_Permutation. constructor; [auto|easy].
Qed.

Lemma stable_sort_sorted l : sorted_by (stable_sort l).
Proof using le_total le_trans. induction l; cbn; [constructor|auto using sort_insert_sorted]. Qed.

(** A sorted list is left as it is. *)
Lemma stable_sort_id l : sorted_by l -> stable_sort l = l.
Proof.
  unfold sorted_by, stable_sort. induction 1 as [|x l Hl IH Hx]; cbn; [easy|]. rewrite IH.
  destruct Hx as [|y l Hy _]; [easy|]. cbn. now rewrite Hy.
Qed.
End Sort.

(** The order of strings: code unit by code unit. *)
Fixpoint str_leb (a b : jstr) : bool :=
  match a, b with
  | [], _ => true
  | _ :: _, [] => false
  | x :: a', y :: b' => if (x <? y)%N then true else if (y <? x)%N then false else str_leb a' b'
  end.

Lemma str_leb_total a b : str_leb a b = false -> str_leb b a = true.
Proof.
  revert b; induction a as [|x a IH]; intros [|y b]; cbn; try easy.
  destruct (N.ltb_spec x y), (N.ltb_spec y x); try easy; auto; lia.
Qed.

Lemma str_leb_trans a b c : str_leb a b = true -> str_leb b c = true -> str_leb a c = true.
Proof.
  revert b c; induction a as [|x a IH]; intros [|y b] [|z c]; cbn; try easy.
  destruct (N.ltb_spec x y), (N.ltb_spec y x), (N.ltb_spec y z), (N.ltb_spec z y),
    (N.ltb_spec x z), (N.ltb_spec z x); try easy; try lia; eauto.
Qed.

(** ** The first name that is free

    [while (existingNames.has(name(i))) i += 1] *)
Section FirstFree.
Context (name : N -> jstr).

Fixpoint first_free (fuel : nat) (existing : list jstr) (i : N) : option N :=
  match fuel with
  | 0 => None
  | S fuel => if memb (name i) existing then first_free fuel existing (i + 1)%N else Some i
  end.

Lemma first_free_found fuel existing : forall i n, first_free fuel existing i = Some n ->
  (i <= n)%N /\ ~ In (name n) existing /\ forall k, (i <= k < n)%N -> In (name k) existing.
Proof.
  induction fuel as [|fuel IH]; intros i n H; [done|]. cbn [first_free] in H.
  destruct (memb (name i) existing) eqn:E.
  - destruct (IH _ _ H) as (A & B & C). split; [lia|]. split; [done|]. intros k Hk.
    destruct (decide (k = i)) as [->|]; [by apply memb_In | apply C; lia].
  - injection H as ->. split; [lia|]. split; [by apply memb_not_In|]. lia.
Qed.

Context (name_inj : forall i j, name i = name j -> i = j).

(** A loop that runs out of steps has seen as many names that are taken. *)
Lemma first_free_none fuel existing : forall i, first_free fuel existing i = None ->
  exists taken, length taken = fuel /\ NoDup taken /\
    forall x, In x taken -> In x existing /\ exists k, (i <= k)%N /\ x = name k.
Proof using name_inj.
  induction fuel as [|fuel IH]; intros i H; [exists []; by repeat constructor|]. cbn [first_free] in H.
  destruct (memb (name i) existing) eqn:E; [|done].
  destruct (IH _ H) as (taken & L & N & T). exists (name i :: taken). cbn [length]. split; [by rewrite L|]. split.
  - constructor; [|done]. intros Hin. apply list_elem_of_In, T in Hin as [_ (k & Hk & Hx)].
    apply name_inj in Hx. lia.
  - intros x [<-|Hx]; [split; [by apply memb_In | exists i; split; [lia | done]]|].
    destruct (T x Hx) as [A (k & B & C)]. split; [done|]. exists k. split; [lia | done].
Qed.

Lemma first_free_ends existing i : exists n, first_free (S (length existing)) existing i = Some n.
Proof using name_inj.
  destruct (first_free _ existing i) as [n|] eqn:F; [by exists n|].
  exfalso. destruct (first_free_none _ _ _ F) as (taken & L & N & T).
  cut (length taken <= length existing); [rewrite L; apply Nat.nle_succ_diag_l|].
  apply List.NoDup_incl_length; [by apply NoDup_ListNoDup|]. intros x Hx. by apply T.
Qed.

End FirstFree.

(** ** Exceptions

    A computation that may throw: the sources' [try]/[catch] and the
    [SyntaxError]s they let through. *)
Inductive exc (A : Type) :=
| Ret (a : A)
| Throw.
Arguments Ret {A} a.
Arguments Throw {A}.

Definition exc_bind {A B} (m : exc A) (f : A -> exc B) : exc B :=
  match m with Ret a => f a | Throw => Throw end.

Notation "x <-! m ; k" := (exc_bind m (fun x => k))
  (at level 100, m at next level, right associativity) : js_scope.

Definition exc_of_option {A} (o : option A) : exc A :=
  match o with Some a => Ret a | None => Throw end.

(** [try { m } catch { h }] *)
Definition exc_catch {A} (m : exc A) (h : A) : A :=
  match m with Ret a => a | Throw => h end.

(** ** First index and first occurrence *)

(** [l.findIndex(f)] *)
Fixpoint findIndex {A} (f : A -> bool) (l : list A) : option nat :=
  match l with
  | [] => None
  | x :: l' => if f x then Some 0 else option_map S (findIndex f l')
  end.

Lemma findIndex_spec {A} (f : A -> bool) l :
  match findIndex f l with
  | Some i => exists pre x post, l = pre ++ x :: post /\ length pre = i /\ f x = true
              /\ forallb (fun y => negb (f y)) pre = true
  | None => forallb (fun y => negb (f y)) l = true
  end.
Proof.
  induction l as [|x l IH]; cbn; [easy|]. destruct (f x) eqn:E.
  - now exists [], x, l.
  - destruct (findIndex f l) as [i|]; cbn; [|easy].
    destruct IH as (pre & y & post & -> & <- & Hy & Hp). exists (x :: pre), y, post. cbn.
    now rewrite E.
Qed.

(** A pattern whose first unit does not come back in it is first found where it is
    put, behind a text that does not contain it. *)
Lemma indexOf_app_first c p v s :
  ~ In c p -> indexOf (c :: p) v = None -> indexOf (c :: p) (v ++ (c :: p) ++ s) = Some (length v).
Proof.
  intros Hc. cbn [app]. induction v as [|x v IH]; cbn [app length indexOf]; intros Hv.
  - now rewrite (app_comm_cons p s c), startsWith_app.
  - destruct (startsWith (x :: v) (c :: p)) eqn:E; [easy|].
    destruct (indexOf (c :: p) v) eqn:Ev; [easy|].
    destruct (startsWith (x :: v ++ c :: p ++ s) (c :: p)) eqn:E2; [|now rewrite (IH eq_refl)].
    exfalso. apply startsWith_true in E2 as [r E2]. injection E2 as -> E2.
    apply app_eq_inv in E2 as [(k & -> & _)|(k & Hk & E2)].
    + now rewrite app_comm_cons, startsWith_app in E.
    + destruct k as [|y k].
      * rewrite app_nil_r in Hk. subst p. rewrite <- (app_nil_r (c :: v)) in E at 1.
        now rewrite startsWith_app in E.
      * injection E2 as <- _. apply Hc. rewrite Hk. apply in_app_iff. right. now left.
Qed.

(** ** Text formats

    What a printer promises to the components that store its texts: reading the text
    of a value that the format covers gives the value back. *)

Class Format {A} (print : A -> jstr) (read : jstr -> option A) (ok : A -> Prop) : Prop :=
  read_print a : ok a -> read (print a) = Some a.

(** ** Automation *)

Create HintDb js.
Create Rewrite HintDb js_rw.
#[export] Hint Resolve trim_edges edges_trim trim_idem digits_edges_ok digits_all
  digits_nonempty uniq_NoDup splitc_nonempty splitc_no_sep : js.
#[export] Hint Rewrite seqb_refl trim_idem strip_prefix_app startsWith_app
  undigits_digits uniq_idem join_splitc app_nil_r : js_rw.

(** Split boolean conjunctions in hypotheses and reflect the comparisons. *)
Ltac bool_hyps :=
  repeat match goal with
  | H : _ && _ = true |- _ => apply andb_true_iff in H as [? ?]
  | H : negb _ = true |- _ => apply negb_true_iff in H
  | H : negb _ = false |- _ => apply negb_false_iff in H
  | H : (_ =s _) = true |- _ => apply seqb_eq in H
  | H : (_ =s _) = false |- _ => apply seqb_neq in H
  | H : (_ =? _)%N = true |- _ => apply N.eqb_eq in H
  | H : (_ =? _)%Z = true |- _ => apply Z.eqb_eq in H
  end.

(** Case analysis on the scrutinee of a [match] or [if] of the goal. *)
Ltac case_goal :=
  match goal with |- context [match ?x with _ => _ end] => destruct x eqn:? end.

Ltac case_hyp H :=
  match type of H with context [match ?x with _ => _ end] => destruct x eqn:? end.
