(* ===== verification/Number.v ===== *)
(** JavaScript numbers: IEEE 754 binary64 values (the standard library's
    executable specification), their conversions from and to strings, and the
    [Number]/[Math] functions the sources call. *)

From Stdlib Require Export Floats.SpecFloat.
From S2P Require Import Prelude.
From stdpp Require Import options.

Abbreviation number := spec_float.

Declare Scope num_scope.
Delimit Scope num_scope with num.

(** ** Arithmetic and comparison *)

Definition nadd : number -> number -> number := SFadd 53 1024.
Definition nsub : number -> number -> number := SFsub 53 1024.
Definition nmul : number -> number -> number := SFmul 53 1024.
Definition ndiv : number -> number -> number := SFdiv 53 1024.

Infix "+" := nadd : num_scope.
Infix "-" := nsub : num_scope.
Infix "*" := nmul : num_scope.
Infix "/" := ndiv : num_scope.

(** [===], [<], [<=] on numbers: false as soon as one side is [NaN]. *)
Infix "=?" := SFeqb : num_scope.
Infix "<?" := SFltb : num_scope.
Infix "<=?" := SFleb : num_scope.
Notation "x >? y" := (SFltb y x) (only parsing) : num_scope.
Notation "x >=? y" := (SFleb y x) (only parsing) : num_scope.

(** The number a (possibly huge) integer rounds to. *)
Definition of_Z (z : Z) : number := binary_normalize 53 1024 z 0 false.

Definition NaN : number := S754_nan.
Definition zero : number := S754_zero false.

Definition isNaN (x : number) : bool :=
  match x with S754_nan => true | _ => false end.

(** [Number.isFinite] *)
Definition isFinite (x : number) : bool :=
  match x with S754_zero _ | S754_finite _ _ _ => true | _ => false end.

(** A number is falsy when it is zero or [NaN]. *)
Definition ntruthy (x : number) : bool :=
  match x with S754_zero _ | S754_nan => false | _ => true end.

(** [x || d] on numbers. *)
Definition num_or (x d : number) : number := if ntruthy x then x else d.

(** The integer a number is equal to, if it is one: [m * 2^e]. *)
Definition to_Z (x : number) : option Z :=
  match x with
  | S754_zero _ => Some 0%Z
  | S754_finite s m e =>
    let v := if (0 <=? e)%Z then Some (Z.pos m * 2 ^ e)%Z
             else if (Z.pos m mod 2 ^ (- e) =? 0)%Z then Some (Z.pos m / 2 ^ (- e))%Z
             else None in
    option_map (fun z => if s then (- z)%Z else z) v
  | _ => None
  end.

Definition isInteger (x : number) : bool :=
  match to_Z x with Some _ => true | None => false end.

Definition max_safe : Z := 9007199254740991.

Definition isSafeInteger (x : number) : bool :=
  match to_Z x with Some z => (Z.abs z <=? max_safe)%Z | None => false end.

(** ** [Math] *)

Definition signed_zero_Z (s : bool) (z : Z) : number :=
  binary_normalize 53 1024 z 0 s.

Definition nfloor (x : number) : number :=
  match x with
  | S754_finite s m e =>
    if (0 <=? e)%Z then x
    else signed_zero_Z s ((if s then - Z.pos m else Z.pos m) / 2 ^ (- e))
  | _ => x
  end.

Definition nopp : number -> number := SFopp.
Definition nceil (x : number) : number := nopp (nfloor (nopp x)).

(** [Math.round]: the nearest integer, halves towards [+Infinity]. *)
Definition nround (x : number) : number :=
  match x with
  | S754_finite s m e =>
    if (0 <=? e)%Z then x
    else let v := (if s then - Z.pos m else Z.pos m)%Z in
         signed_zero_Z s ((2 * v + 2 ^ (- e)) / 2 ^ (1 - e))
  | _ => x
  end.

(** [Math.max(x, y)] and [Math.min(x, y)] of two arguments. *)
Definition nmax (x y : number) : number :=
  match x, y with
  | S754_nan, _ | _, S754_nan => S754_nan
  | S754_zero sx, S754_zero sy => S754_zero (sx && sy)
  | _, _ => if SFltb x y then y else x
  end.

Definition nmin (x y : number) : number :=
  match x, y with
  | S754_nan, _ | _, S754_nan => S754_nan
  | S754_zero sx, S754_zero sy => S754_zero (sx || sy)
  | _, _ => if SFltb y x then y else x
  end.

(** ** From decimal text *)

Fixpoint strip_zeros (fuel : nat) (m : N) (e : Z) : N * Z :=
  match fuel with
  | 0 => (m, e)
  | S f => if (m mod 10 =? 0)%N then strip_zeros f (m / 10)%N (e + 1)%Z else (m, e)
  end.

Definition num_digits (m : N) : Z := Z.of_nat (length (digits m)).

(** [m * 10^e], correctly rounded.  The division of two exact integers by
    [SFdiv] is correctly rounded whatever their size; exponents far outside the
    range of binary64 are answered at once. *)
Definition of_decimal (neg : bool) (m : N) (e : Z) : number :=
  match strip_zeros (N.size_nat m) m e with
  | (0%N, _) => S754_zero neg
  | (N.pos p, e) =>
    if (310 <? e + num_digits (N.pos p))%Z then S754_infinity neg
    else if (e + num_digits (N.pos p) <? -330)%Z then S754_zero neg
    else if (0 <=? e)%Z then
      binary_round 53 1024 neg (p * Z.to_pos (10 ^ e)) 0
    else SFdiv 53 1024 (S754_finite neg p 0) (S754_finite false (Z.to_pos (10 ^ (- e))) 0)
  end.

Fixpoint span {A} (f : A -> bool) (l : list A) : list A * list A :=
  match l with
  | x :: l' => if f x then let '(a, b) := span f l' in (x :: a, b) else ([], l)
  | [] => ([], [])
  end.

Definition is_e (c : N) : bool := ((c =? 101) || (c =? 69))%N.

(** An optional sign: [true] for a minus. *)
Definition opt_sign (s : jstr) : bool * jstr :=
  match s with
  | 45%N :: r => (true, r)
  | 43%N :: r => (false, r)
  | _ => (false, s)
  end.

(** An optional exponent part ([e+12]), and what follows it. *)
Definition exponent_part (s : jstr) : Z * jstr :=
  match s with
  | c :: r =>
    if is_e c then
      let '(neg, r') := opt_sign r in
      match span is_digit r' with
      | ([], _) => (0%Z, s)
      | (ds, r'') => (let v := Z.of_N (undigits ds) in if neg then - v else v, r'')%Z
      end
    else (0%Z, s)
  | [] => (0%Z, s)
  end.

(** [StrUnsignedDecimalLiteral] with its sign, read as a whole. *)
Definition decimal_literal (neg : bool) (s : jstr) : option number :=
  let '(ip, r) := span is_digit s in
  let '(fp, r') := match r with
                   | 46%N :: q => span is_digit q
                   | _ => ([], r)
                   end in
  match ip ++ fp with
  | [] => None
  | ds =>
    let '(e, rest) := exponent_part r' in
    match rest with
    | [] => Some (of_decimal neg (undigits ds) (e - Z.of_nat (length fp)))
    | _ => None
    end
  end.

Definition radix_digit (c : N) : option N :=
  if is_digit c then Some (c - 48)%N
  else if ((97 <=? c) && (c <=? 102))%N then Some (c - 87)%N
  else if ((65 <=? c) && (c <=? 70))%N then Some (c - 55)%N
  else None.

Fixpoint radix_value (radix acc : N) (s : jstr) : option N :=
  match s with
  | [] => Some acc
  | c :: s' =>
    match radix_digit c with
    | Some d => if (d <? radix)%N then radix_value radix (acc * radix + d)%N s' else None
    | None => None
    end
  end.

Definition radix_literal (radix : N) (s : jstr) : option number :=
  match s with
  | [] => None
  | _ => option_map (fun n => of_Z (Z.of_N n)) (radix_value radix 0 s)
  end.

(** [Number(s)] of a string. *)
Definition Number_str (s : jstr) : number :=
  let t := trim s in
  let r :=
    match t with
    | [] => Some zero
    | 48%N :: c :: q =>
      if ((c =? 120) || (c =? 88))%N then radix_literal 16 q
      else if ((c =? 111) || (c =? 79))%N then radix_literal 8 q
      else if ((c =? 98) || (c =? 66))%N then radix_literal 2 q
      else decimal_literal false t
    | _ =>
      let '(neg, u) := opt_sign t in
      if u =s "Infinity" then Some (S754_infinity neg) else decimal_literal neg u
    end in
  match r with Some x => x | None => NaN end.

(** [Number.parseFloat(s)]: the longest prefix that is a decimal literal. *)
Definition parseFloat (s : jstr) : number :=
  let '(neg, u) := opt_sign (trimStart s) in
  if startsWith u "Infinity" then S754_infinity neg
  else
    let '(ip, r) := span is_digit u in
    let '(fp, r') := match r with
                     | 46%N :: q => span is_digit q
                     | _ => ([], r)
                     end in
    match ip ++ fp with
    | [] => NaN
    | ds => of_decimal neg (undigits ds) (fst (exponent_part r') - Z.of_nat (length fp))
    end.

(** ** To decimal text *)

(** [m * 2^e] as a fraction of integers. *)
Definition as_fraction (m : positive) (e : Z) : Z * Z :=
  if (0 <=? e)%Z then (Z.pos m * 2 ^ e, 1)%Z else (Z.pos m, 2 ^ (- e))%Z.

(** The nearest integer to [num/den * 10^k], halves up. *)
Definition scaled_round (num den k : Z) : Z :=
  let '(n, d) := if (0 <=? k)%Z then (num * 10 ^ k, den)%Z else (num, den * 10 ^ (- k))%Z in
  ((2 * n + d) / (2 * d))%Z.

(** The exponent [n] with [10^(n-1) <= num/den < 10^n], from an estimate. *)
Definition dec_exponent (num den : Z) (est : Z) : Z :=
  let below n := if (0 <=? n)%Z then (num <? den * 10 ^ n)%Z else (num * 10 ^ (- n) <? den)%Z in
  if below (est - 1)%Z then est - 1 else if below est then est else est + 1.

(** Shortest digits: the fewest [k] digits [n] such that [n * 10^(x-k)] reads
    back as the number. *)
Fixpoint shortest_go (fuel : nat) (k : Z) (f : number) (num den x : Z) : option (N * Z * Z) :=
  match fuel with
  | 0 => None
  | S fu =>
    let n := scaled_round num den (k - x) in
    let '(n, x') := if (10 ^ k <=? n)%Z then (n / 10, x + 1)%Z else (n, x) in
    if SFeqb (of_decimal false (Z.to_N n) (x' - k)) f
    then Some (Z.to_N n, k, x')
    else shortest_go fu (k + 1) f num den x
  end.

Definition zeros (n : Z) : jstr := repeat 48%N (Z.to_nat n).

(** The layout rules of [Number::toString] for digits [ds] ([k] of them) and
    decimal exponent [x]. *)
Definition layout (ds : jstr) (k x : Z) : jstr :=
  if ((k <=? x) && (x <=? 21))%Z then ds ++ zeros (x - k)
  else if ((0 <? x) && (x <=? 21))%Z then
    take (Z.to_nat x) ds ++ "." ++ drop (Z.to_nat x) ds
  else if ((-6 <? x) && (x <=? 0))%Z then "0." ++ zeros (- x) ++ ds
  else
    let ex := (x - 1)%Z in
    let mant := match ds with
                | [d] => [d]
                | d :: r => d :: "." ++ r
                | [] => []
                end in
    mant ++ (if (ex <? 0)%Z then "e-" else "e+") ++ digits (Z.to_N (Z.abs ex)).

(** [String(x)] of a number. *)
Definition num_to_string (x : number) : jstr :=
  match x with
  | S754_nan => "NaN"
  | S754_zero _ => "0"
  | S754_infinity false => "Infinity"
  | S754_infinity true => "-Infinity"
  | S754_finite s m e =>
    let '(num, den) := as_fraction m e in
    let bits := (Z.pos (digits2_pos m) + e)%Z in
    let ex := dec_exponent num den (bits * 30103 / 100000 + 1) in
    let body :=
      match shortest_go 17 1 (S754_finite false m e) num den ex with
      | Some (n, k, x') => layout (digits n) k x'
      | None => []
      end in
    if s then "-" ++ body else body
  end.

(** [x.toFixed(f)]: [|x| >= 10^21] is printed as by [String]. *)
Definition toFixed (f : nat) (x : number) : jstr :=
  match x with
  | S754_zero _ =>
    match f with 0 => "0" | _ => "0." ++ repeat 48%N f end
  | S754_finite s m e =>
    let '(num, den) := as_fraction m e in
    if (10 ^ 21 * den <=? num)%Z then num_to_string x
    else
      let n := scaled_round num den (Z.of_nat f) in
      let ds := digits (Z.to_N n) in
      let ds := repeat 48%N (S f - length ds) ++ ds in
      let body := match f with
                  | 0 => ds
                  | _ => take (length ds - f) ds ++ "." ++ drop (length ds - f) ds
                  end in
      if s then "-" ++ body else body
  | _ => num_to_string x
  end.
