(* ===== verification/Rounding.v ===== *)
(** * How far a rounded product or quotient is from the exact one

    The numbers of [Number.v] are the standard library's [SpecFloat]; this file gives their
    multiplication and division a meaning in the reals: on normal positive numbers the result
    is within half a unit of its last place, so within [2^-53] of the exact one. *)

From Stdlib Require Import Reals Lra Floats.SpecFloat.
From S2P Require Import Prelude Number.
From stdpp Require Import options.

#[local] Open Scope R_scope.

(** ** Powers of two *)

Definition pw (e : Z) : R := powerRZ 2 e.

Lemma pw_pos e : 0 < pw e.
Proof. apply powerRZ_lt. lra. Qed.

Lemma pw_add a b : pw (a + b) = pw a * pw b.
Proof. apply powerRZ_add. lra. Qed.

Lemma pw_succ e : pw (e + 1) = 2 * pw e.
Proof. rewrite pw_add. unfold pw at 2. rewrite powerRZ_1. lra. Qed.

Lemma pw_Z n : (0 <= n)%Z -> pw n = IZR (2 ^ n).
Proof.
  intros H. unfold pw. rewrite <- (Z2Nat.id n) by easy. rewrite <- pow_powerRZ, pow_IZR.
  now rewrite Z2Nat.id.
Qed.

Lemma pw_opp e : pw e * pw (- e) = 1.
Proof. rewrite <- pw_add, Z.add_opp_diag_r. easy. Qed.

Lemma pw_le a b : (a <= b)%Z -> pw a <= pw b.
Proof.
  intros H. replace b with (a + (b - a))%Z by lia. rewrite pw_add, (pw_Z (b - a)) by lia.
  pose proof (pw_pos a). assert (1 <= IZR (2 ^ (b - a))); [|nra].
  apply IZR_le. pose proof (Z.pow_pos_nonneg 2 (b - a)). lia.
Qed.

(** ** Shifting to the right *)

(** What the two bits behind a mantissa say of the part that was cut off. *)
Definition cut (r s : bool) (f : R) : Prop :=
  match r, s with
  | false, false => f = 0
  | false, true => 0 < f < 1 / 2
  | true, false => f = 1 / 2
  | true, true => 1 / 2 < f < 1
  end.

Definition stands_for (mrs : shr_record) (e : Z) (v : R) : Prop :=
  exists f, v = (IZR (shr_m mrs) + f) * pw e /\ cut (shr_r mrs) (shr_s mrs) f.

Lemma shr_1_ok mrs e v :
  (0 <= shr_m mrs)%Z -> stands_for mrs e v ->
  stands_for (shr_1 mrs) (e + 1) v /\ (shr_m (shr_1 mrs) = shr_m mrs / 2)%Z.
Proof.
  destruct mrs as [m r s]. cbn [shr_m shr_r shr_s]. intros Hm (f & -> & Hf). cbn in Hf.
  assert (H : forall m' b, (m = 2 * m' + Z.b2z b)%Z -> 
    stands_for {| shr_m := m'; shr_r := b; shr_s := r || s |} (e + 1) ((IZR m + f) * pw e)
    /\ (m' = m / 2)%Z).
  { intros m' b E. split.
    - exists ((IZR (Z.b2z b) + f) / 2). cbn. rewrite pw_succ, E, plus_IZR, mult_IZR. split; [lra|].
      destruct r, s, b; cbn in *; lra.
    - apply (Z.div_unique m 2 m' (Z.b2z b)); [left; destruct b; cbn; lia|easy]. }
  destruct m as [|[p|p|]|p]; cbn [shr_1 shr_m]; [| | | |lia].
  - now apply (H 0%Z false).
  - apply (H (Zpos p) true). cbn. lia.
  - apply (H (Zpos p) false). cbn. lia.
  - now apply (H 0%Z true).
Qed.

Lemma iter_shr_ok p mrs e v :
  (0 <= shr_m mrs)%Z -> stands_for mrs e v ->
  stands_for (iter_pos shr_1 p mrs) (e + Zpos p) v
  /\ (shr_m (iter_pos shr_1 p mrs) = shr_m mrs / 2 ^ Zpos p)%Z.
Proof.
  revert mrs e. induction p as [p IH|p IH|]; intros mrs e Hm H; cbn [iter_pos].
  - destruct (shr_1_ok mrs e v Hm H) as [H1 E1].
    assert (Hm1 : (0 <= shr_m (shr_1 mrs))%Z) by (rewrite E1; apply Z.div_pos; lia).
    destruct (IH _ _ Hm1 H1) as [H2 E2].
    assert (Hm2 : (0 <= shr_m (iter_pos shr_1 p (shr_1 mrs)))%Z)
      by (rewrite E2; apply Z.div_pos; [lia|now apply Z.pow_pos_nonneg]).
    destruct (IH _ _ Hm2 H2) as [H3 E3].
    split; [replace (e + Z.pos p~1)%Z with (e + 1 + Z.pos p + Z.pos p)%Z by lia; exact H3|].
    rewrite E3, E2, E1, !Z.div_div by (try apply Z.pow_nonzero; try apply Z.pow_pos_nonneg; lia).
    f_equal. replace (Z.pos p~1) with (1 + Z.pos p + Z.pos p)%Z by lia.
    rewrite !Z.pow_add_r by lia. lia.
  - destruct (IH _ _ Hm H) as [H2 E2].
    assert (Hm2 : (0 <= shr_m (iter_pos shr_1 p mrs))%Z)
      by (rewrite E2; apply Z.div_pos; [lia|now apply Z.pow_pos_nonneg]).
    destruct (IH _ _ Hm2 H2) as [H3 E3].
    split; [replace (e + Z.pos p~0)%Z with (e + Z.pos p + Z.pos p)%Z by lia; exact H3|].
    rewrite E3, E2, !Z.div_div by (try apply Z.pow_nonzero; try apply Z.pow_pos_nonneg; lia).
    f_equal. replace (Z.pos p~0) with (Z.pos p + Z.pos p)%Z by lia.
    rewrite Z.pow_add_r by lia. lia.
  - destruct (shr_1_ok mrs e v Hm H) as [H1 E1]. split; [exact H1|]. now rewrite E1.
Qed.

Lemma digits2_log2 p : Zpos (digits2_pos p) = (Z.log2 (Zpos p) + 1)%Z.
Proof.
  induction p as [p IH|p IH|]; cbn [digits2_pos]; [| |easy].
  - rewrite Pos2Z.inj_succ, IH, Pos2Z.inj_xI, Z.log2_succ_double by lia. lia.
  - rewrite Pos2Z.inj_succ, IH, Pos2Z.inj_xO, Z.log2_double by lia. lia.
Qed.

Lemma Zdigits2_log2 m : (0 < m)%Z -> Zdigits2 m = (Z.log2 m + 1)%Z.
Proof. destruct m as [|p|p]; [lia| |lia]. intros _. apply digits2_log2. Qed.

Lemma log2_between m d : (0 <= d)%Z -> (2 ^ d <= m < 2 ^ (d + 1))%Z -> Z.log2 m = d.
Proof. intros Hd H. apply Z.log2_unique; [easy|]. now rewrite <- Z.add_1_r. Qed.

(** ** Rounding to 53 bits *)

Lemma record_of_loc m l : shr_m (shr_record_of_loc m l) = m.
Proof. now destruct l as [|[]]. Qed.

Lemma fexp_normal x : (-1021 <= x)%Z -> fexp 53 1024 x = (x - 53)%Z.
Proof. intros H. unfold fexp, emin. lia. Qed.

(** Cutting a mantissa down to 53 bits. *)
Lemma shr_fexp_ok m e l v :
  (2 ^ 52 <= m)%Z -> stands_for (shr_record_of_loc m l) e v ->
  let d := (Z.log2 m + 1)%Z in
  (-1021 <= d + e)%Z ->
  exists mrs, shr_fexp 53 1024 m e l = (mrs, (d + e - 53)%Z)
    /\ stands_for mrs (d + e - 53) v /\ (2 ^ 52 <= shr_m mrs < 2 ^ 53)%Z.
Proof.
  intros Hm Hv d Hd. unfold shr_fexp. rewrite Zdigits2_log2 by lia. fold d. rewrite fexp_normal by easy.
  assert (Hl : (2 ^ (d - 1) <= m < 2 ^ d)%Z).
  { pose proof (Z.log2_spec m ltac:(lia)) as H. replace (d - 1)%Z with (Z.log2 m) by lia.
    now replace d with (Z.succ (Z.log2 m)) by lia. }
  assert (Hd53 : (53 <= d)%Z).
  { assert (52 <= Z.log2 m)%Z; [|lia]. apply Z.log2_le_pow2; lia. }
  replace (d + e - 53 - e)%Z with (d - 53)%Z by lia.
  destruct (d - 53)%Z as [|n|n] eqn:En; [| |lia]; cbn [shr].
  - exists (shr_record_of_loc m l). replace (d + e - 53)%Z with e by lia. rewrite record_of_loc.
    replace d with 53%Z in Hl by lia. easy.
  - destruct (iter_shr_ok n (shr_record_of_loc m l) e v) as [H1 H2]; [rewrite record_of_loc; lia|easy|].
    rewrite record_of_loc in H2. eexists. split; [f_equal; lia|].
    replace (d + e - 53)%Z with (e + Z.pos n)%Z by lia. split; [exact H1|]. rewrite H2.
    replace d with (53 + Z.pos n)%Z in Hl by lia.
    replace (53 + Z.pos n - 1)%Z with (52 + Z.pos n)%Z in Hl by lia.
    rewrite !Z.pow_add_r in Hl by lia.
    assert (0 < 2 ^ Z.pos n)%Z by now apply Z.pow_pos_nonneg. split.
    + apply Z.div_le_lower_bound; lia.
    + apply Z.div_lt_upper_bound; lia.
Qed.

Lemma round_nearest_ok mrs f :
  cut (shr_r mrs) (shr_s mrs) f ->
  let m := round_nearest_even (shr_m mrs) (loc_of_shr_record mrs) in
  (shr_m mrs <= m <= shr_m mrs + 1)%Z /\ Rabs (IZR m - (IZR (shr_m mrs) + f)) <= 1 / 2.
Proof.
  destruct mrs as [m [] []]; cbn [shr_m shr_r shr_s cut loc_of_shr_record round_nearest_even]; intros Hf;
    try (destruct (Z.even m)); (split; [lia|]); rewrite ?plus_IZR; apply Rabs_le; lra.
Qed.

(** The result is within half a unit of its last place. *)
Lemma round_aux_ok s m e l v :
  (2 ^ 52 <= m)%Z -> stands_for (shr_record_of_loc m l) e v ->
  let d := (Z.log2 m + 1)%Z in
  (-1021 <= d + e <= 1023)%Z ->
  exists m' e', binary_round_aux 53 1024 s m e l = S754_finite s m' e'
    /\ (2 ^ 52 <= Zpos m' < 2 ^ 53)%Z /\ (d + e - 53 <= e' <= d + e - 52)%Z
    /\ Rabs (IZR (Zpos m') * pw e' - v) <= pw (d + e - 53) / 2
    /\ IZR (2 ^ 52) * pw (d + e - 53) <= v.
Proof.
  intros Hm Hv d Hd. destruct (shr_fexp_ok m e l v Hm Hv) as (mrs & E & (f & Ev & Hf) & Hmrs);
    [fold d; lia|]. fold d in E, Ev. unfold binary_round_aux. rewrite E.
  destruct (round_nearest_ok mrs f Hf) as [Hm1 Hr].
  set (m1 := round_nearest_even _ _) in *. set (x := (d + e - 53)%Z) in *.
  pose proof (pw_pos x) as Hx.
  assert (Herr : Rabs (IZR m1 * pw x - v) <= pw x / 2).
  { rewrite Ev, <- Rmult_minus_distr_r, Rabs_mult, (Rabs_right (pw x)) by lra. nra. }
  assert (Hlow : IZR (2 ^ 52) * pw x <= v).
  { rewrite Ev. apply Rmult_le_compat_r; [lra|]. assert (IZR (2 ^ 52) <= IZR (shr_m mrs)) by (apply IZR_le; lia).
    destruct (shr_r mrs), (shr_s mrs); cbn in Hf; lra. }
  assert (Hcase : (m1 < 2 ^ 53 \/ m1 = 2 ^ 53)%Z) by lia. destruct Hcase as [Hlt|Heq].
  - assert (Hd1 : shr_fexp 53 1024 m1 x loc_Exact = (shr_record_of_loc m1 loc_Exact, x)).
    { unfold shr_fexp. rewrite Zdigits2_log2 by lia. rewrite (log2_between m1 52) by lia.
      rewrite fexp_normal by lia. now replace (52 + 1 + x - 53 - x)%Z with 0%Z by lia. }
    rewrite Hd1. cbn [shr_record_of_loc shr_m]. destruct m1 as [|p|p] eqn:Em; [lia| |lia].
    destruct (Z.leb_spec x (1024 - 53)); [|lia]. exists p, x. repeat split; try lia; easy.
  - assert (Hd1 : shr_fexp 53 1024 m1 x loc_Exact = ({| shr_m := 2 ^ 52; shr_r := false; shr_s := false |}, (x + 1)%Z)).
    { unfold shr_fexp. rewrite Zdigits2_log2 by lia. rewrite Heq.
      change (Z.log2 (2 ^ 53)) with 53%Z. rewrite fexp_normal by lia.
      now replace (53 + 1 + x - 53 - x)%Z with 1%Z by lia. }
    rewrite Hd1. cbn [shr_m]. change (2 ^ 52)%Z with (Zpos 4503599627370496).
    destruct (Z.leb_spec (x + 1) (1024 - 53)); [|lia]. eexists _, (x + 1)%Z. split; [reflexivity|].
    split; [lia|]. split; [lia|]. split; [|easy].
    replace (IZR (Zpos 4503599627370496) * pw (x + 1)) with (IZR m1 * pw x); [easy|].
    rewrite pw_succ, Heq. change (2 ^ 53)%Z with (2 * Zpos 4503599627370496)%Z. rewrite mult_IZR. ring.
Qed.

(** ** Normal positive numbers *)

(** [x] is normal, with the value [v] and an exponent of at most [b]. *)
Definition normal (b : Z) (x : number) (v : R) : Prop :=
  exists m e, x = S754_finite false m e /\ (2 ^ 52 <= Zpos m < 2 ^ 53)%Z /\ (Z.abs (e + 52) <= b)%Z
    /\ v = IZR (Zpos m) * pw e.

(** [x] is within [2^-53] of [v]. *)
Definition ulp : R := pw (-53).
Definition close (x v : R) : Prop := Rabs (x - v) <= ulp * v.

Lemma close_intro x v e :
  Rabs (x - v) <= pw e / 2 -> IZR (2 ^ 52) * pw e <= v -> close x v.
Proof.
  intros H1 H2. unfold close, ulp. rewrite <- pw_Z in H2 by lia.
  pose proof (pw_opp 53). change (- (53))%Z with (-53)%Z in H.
  replace 53%Z with (52 + 1)%Z in H by lia. rewrite pw_succ in H. change (52 + 1)%Z with 53%Z in H.
  pose proof (pw_pos (-53)). pose proof (pw_pos e). pose proof (pw_pos 52).
  apply (Rle_trans _ (pw (-53) * (pw 52 * pw e))); [nra|]. apply Rmult_le_compat_l; lra.
Qed.

Lemma normal_pos b x v : normal b x v -> 0 < v.
Proof.
  intros (m & e & _ & Hm & _ & ->). apply Rmult_lt_0_compat; [apply IZR_lt; lia|apply pw_pos].
Qed.

(** A rounded result of which the exact mantissa has 53 to 106 bits. *)
Lemma rounded_ok m e l v b :
  (2 ^ 52 <= m)%Z -> stands_for (shr_record_of_loc m l) e v ->
  let x := (Z.log2 m + 1 + e - 53)%Z in
  (Z.abs (x + 52) <= b)%Z -> (Z.abs (x + 53) <= b)%Z -> (b <= 900)%Z ->
  exists r, normal b (binary_round_aux 53 1024 false m e l) r /\ close r v.
Proof.
  intros Hm Hv x H1 H2 Hb.
  destruct (round_aux_ok false m e l v Hm Hv) as (m' & e' & -> & Hm' & He' & Herr & Hlow); [lia|].
  exists (IZR (Zpos m') * pw e'). split.
  - exists m', e'. repeat split; try lia; easy.
  - now apply (close_intro _ _ x).
Qed.

Lemma mul_ok a b x y v w :
  normal a x v -> normal b y w -> (a + b + 2 <= 900)%Z ->
  exists r, normal (a + b + 2) (nmul x y) r /\ close r (v * w).
Proof.
  intros (m1 & e1 & -> & Hm1 & He1 & ->) (m2 & e2 & -> & Hm2 & He2 & ->) Hb. cbn [nmul SFmul xorb].
  unfold nmul, SFmul. cbn [xorb].
  assert (Hm : (2 ^ 104 <= Zpos (m1 * m2) < 2 ^ 106)%Z).
  { rewrite Pos2Z.inj_mul. change (2 ^ 104)%Z with (2 ^ 52 * 2 ^ 52)%Z.
    change (2 ^ 106)%Z with (2 ^ 53 * 2 ^ 53)%Z. nia. }
  assert (Hl : (104 <= Z.log2 (Zpos (m1 * m2)) <= 105)%Z).
  { split; [apply Z.log2_le_pow2; lia|].
    assert (Z.log2 (Zpos (m1 * m2)) < 106)%Z; [|lia]. apply Z.log2_lt_pow2; lia. }
  apply rounded_ok; try lia.
  exists 0. cbn. rewrite pw_add, Pos2Z.inj_mul, mult_IZR. split; [ring|easy].
Qed.

(** The position of a remainder. *)
Lemma new_location_ok q m r :
  (0 < m)%Z -> (0 <= r < m)%Z ->
  let s := shr_record_of_loc q (new_location m r) in cut (shr_r s) (shr_s s) (IZR r / IZR m).
Proof.
  intros Hm Hr. assert (H0 : 0 < IZR m) by (apply IZR_lt; lia).
  assert (Hlt : IZR r / IZR m < 1).
  { apply (Rmult_lt_reg_r (IZR m)); [easy|]. unfold Rdiv. rewrite Rmult_assoc, Rinv_l, Rmult_1_l, Rmult_1_r by lra.
    apply IZR_lt. lia. }
  assert (Hpos : (0 < r)%Z -> 0 < IZR r / IZR m).
  { intros H. apply Rdiv_lt_0_compat; [apply IZR_lt; lia|easy]. }
  assert (Hhalf : forall P : R -> R -> Prop, P (2 * IZR r) (IZR m) ->
    (forall a b, P (a * IZR m) (b * IZR m) -> P a b) -> P (2 * (IZR r / IZR m)) 1).
  { intros P HP Hs. apply Hs. replace (2 * (IZR r / IZR m) * IZR m) with (2 * IZR r) by (field; lra).
    now rewrite Rmult_1_l. }
  assert (Hl : (2 * r < m)%Z -> IZR r / IZR m < 1 / 2).
  { intros H. assert (2 * (IZR r / IZR m) < 1); [|lra]. apply (Hhalf Rlt).
    - rewrite <- mult_IZR. now apply IZR_lt.
    - intros x y. now apply Rmult_lt_reg_r. }
  assert (Hg : (m < 2 * r)%Z -> 1 / 2 < IZR r / IZR m).
  { intros H. assert (1 < 2 * (IZR r / IZR m)); [|lra]. apply (Hhalf (fun a b => b < a)).
    - rewrite <- mult_IZR. now apply IZR_lt.
    - intros x y. now apply Rmult_lt_reg_r. }
  assert (He : (2 * r = m)%Z -> IZR r / IZR m = 1 / 2).
  { intros <-. rewrite mult_IZR. field. apply eq_IZR_contrapositive. lia. }
  cbv zeta. unfold new_location, new_location_even, new_location_odd.
  assert (Hz : r = 0%Z -> IZR r / IZR m = 0) by (intros ->; unfold Rdiv; lra).
  destruct (Z.even m) eqn:Ev; destruct (Z.eqb_spec r 0) as [Hr0|Hr0];
    try exact (Hz Hr0); specialize (Hpos ltac:(lia)).
  - destruct (Z.compare_spec (2 * r) m) as [H|H|H].
    + exact (He H).
    + exact (conj Hpos (Hl H)).
    + exact (conj (Hg H) Hlt).
  - destruct (Z.compare_spec (2 * r + 1) m) as [H|H|H].
    + exact (conj Hpos (Hl ltac:(lia))).
    + exact (conj Hpos (Hl ltac:(lia))).
    + refine (conj (Hg _) Hlt). assert (2 * r <> m)%Z; [|lia]. intros E. rewrite <- E in Ev.
      now rewrite Z.even_mul in Ev.
Qed.

Lemma div_ok a b x y v w :
  normal a x v -> normal b y w -> (a + b + 2 <= 900)%Z ->
  exists r, normal (a + b + 2) (ndiv x y) r /\ close r (v / w).
Proof.
  intros (m1 & e1 & -> & Hm1 & He1 & ->) (m2 & e2 & -> & Hm2 & He2 & ->) Hb.
  unfold ndiv, SFdiv, SFdiv_core_binary.
  rewrite !Zdigits2_log2, !(log2_between _ 52) by lia.
  rewrite fexp_normal by lia.
  replace (Z.min (52 + 1 + e1 - (52 + 1 + e2) - 53) (e1 - e2)) with (e1 - e2 - 53)%Z by lia.
  replace (e1 - e2 - (e1 - e2 - 53))%Z with 53%Z by lia. cbn [xorb].
  rewrite Z.shiftl_mul_pow2 by lia.
  pose proof (Z_div_mod (Z.pos m1 * 2 ^ 53) (Z.pos m2) ltac:(lia)) as Hdm.
  destruct (Z.div_eucl (Z.pos m1 * 2 ^ 53) (Z.pos m2)) as [q r]. destruct Hdm as [Hq Hr].
  assert (Hq1 : (2 ^ 52 <= q < 2 ^ 54)%Z).
  { change (2 ^ 54)%Z with (2 * 2 ^ 53)%Z in *. change (2 ^ 53)%Z with (2 * 2 ^ 52)%Z in *. nia. }
  assert (Hl : (52 <= Z.log2 q <= 53)%Z).
  { split; [apply Z.log2_le_pow2; lia|].
    assert (Z.log2 q < 54)%Z; [|lia]. apply Z.log2_lt_pow2; lia. }
  apply rounded_ok; try lia.
  exists (IZR r / IZR (Zpos m2)). rewrite record_of_loc. split; [|apply new_location_ok; lia].
  assert (H2 : IZR (Zpos m2) <> 0) by (apply eq_IZR_contrapositive; lia).
  assert (E : IZR q + IZR r / IZR (Zpos m2) = IZR (Zpos m1) * pw 53 / IZR (Zpos m2)).
  { rewrite (pw_Z 53) by lia. rewrite <- mult_IZR, Hq, plus_IZR, mult_IZR. field. easy. }
  rewrite E. replace (e1 - e2 - 53)%Z with (e1 + - e2 + - (53))%Z by lia. rewrite !pw_add.
  pose proof (pw_opp 53). pose proof (pw_opp e2). pose proof (pw_pos e2).
  assert (Ei : pw (- e2) = / pw e2) by (apply (Rmult_eq_reg_l (pw e2)); [rewrite H0, Rinv_r; lra|lra]).
  rewrite Ei. replace (IZR (Zpos m1) * pw 53 / IZR (Zpos m2) * (pw e1 * / pw e2 * pw (- (53))))
    with (IZR (Zpos m1) / IZR (Zpos m2) * (pw e1 * / pw e2) * (pw 53 * pw (- (53)))) by (field; lra).
  rewrite H. field. lra.
Qed.

(** ** Integers *)

Lemma round_aux_exact s m e :
  (2 ^ 52 <= Zpos m < 2 ^ 53)%Z -> (-1074 <= e <= 971)%Z ->
  binary_round_aux 53 1024 s (Zpos m) e loc_Exact = S754_finite s m e.
Proof.
  intros Hm He.
  assert (E : shr_fexp 53 1024 (Zpos m) e loc_Exact = (shr_record_of_loc (Zpos m) loc_Exact, e)).
  { unfold shr_fexp. rewrite Zdigits2_log2, (log2_between _ 52) by lia. rewrite fexp_normal by lia.
    now replace (52 + 1 + e - 53 - e)%Z with 0%Z by lia. }
  unfold binary_round_aux. rewrite E. cbn [shr_m loc_of_shr_record shr_record_of_loc round_nearest_even].
  rewrite E. cbn [shr_m shr_record_of_loc]. destruct (Z.leb_spec e (1024 - 53)); [easy|lia].
Qed.

Lemma iter_xO p k : Zpos (Pos.iter xO p k) = (Zpos p * 2 ^ Zpos k)%Z.
Proof.
  induction k as [|k IH] using Pos.peano_ind; [cbn; lia|].
  rewrite Pos.iter_succ, Pos2Z.inj_xO, IH, Pos2Z.inj_succ, Z.pow_succ_r by lia. lia.
Qed.

Lemma of_Z_normal q : (0 < q < 2 ^ 53)%Z -> normal 53 (of_Z q) (IZR q).
Proof.
  intros Hq. destruct q as [|p|p]; [lia| |lia]. unfold of_Z, binary_normalize, binary_round.
  rewrite digits2_log2. set (d := (Z.log2 (Zpos p) + 1)%Z).
  assert (Hd : (1 <= d <= 53)%Z).
  { pose proof (Z.log2_nonneg (Zpos p)). assert (Z.log2 (Zpos p) < 53)%Z; [|lia]. apply Z.log2_lt_pow2; lia. }
  rewrite Z.add_0_r, fexp_normal by lia. unfold shl_align. rewrite Z.sub_0_r.
  assert (Hl : (2 ^ (d - 1) <= Zpos p < 2 ^ d)%Z).
  { pose proof (Z.log2_spec (Zpos p) ltac:(lia)) as H. replace (d - 1)%Z with (Z.log2 (Zpos p)) by lia.
    now replace d with (Z.succ (Z.log2 (Zpos p))) by lia. }
  destruct (d - 53)%Z as [|k|k] eqn:Ed; [|lia|].
  - replace d with 53%Z in Hl by lia. rewrite round_aux_exact by (try exact Hl; lia).
    exists p, 0%Z. repeat split; try exact Hl; try lia. unfold pw. cbn. lra.
  - assert (Hm : (2 ^ 52 <= Zpos (Pos.iter xO p k) < 2 ^ 53)%Z).
    { rewrite iter_xO. replace 52%Z with (d - 1 + Zpos k)%Z by lia. replace 53%Z with (d + Zpos k)%Z by lia.
      rewrite !Z.pow_add_r by lia. assert (0 < 2 ^ Zpos k)%Z by now apply Z.pow_pos_nonneg. nia. }
    rewrite round_aux_exact by (try exact Hm; lia).
    exists (Pos.iter xO p k), (Zneg k). split; [easy|]. split; [exact Hm|]. split; [lia|].
    rewrite iter_xO, mult_IZR, <- pw_Z by lia. change (Zneg k) with (- Zpos k)%Z.
    rewrite Rmult_assoc, pw_opp. lra.
Qed.

(** [Math.round] of a number nearer than a half to a positive integer. *)
Lemma nround_near b x v q :
  normal b x v -> (0 < q < 2 ^ 52)%Z -> Rabs (v - IZR q) < 1 / 2 -> nround x = of_Z q.
Proof.
  intros (m & e & -> & Hm & _ & ->) Hq Hv. apply Rabs_def2 in Hv as [Hv1 Hv2].
  cbn [nround]. destruct (Z.leb_spec 0 e) as [He|He].
  - exfalso. pose proof (pw_le 0 e He) as Hp. change (pw 0) with 1 in Hp.
    assert (IZR (2 ^ 52) <= IZR (Zpos m)) by (apply IZR_le; lia).
    assert (IZR q + 1 <= IZR (2 ^ 52)) by (rewrite <- plus_IZR; apply IZR_le; lia).
    assert (IZR (Zpos m) <= IZR (Zpos m) * pw e); [|lra].
    rewrite <- (Rmult_1_r (IZR (Zpos m))) at 1. apply Rmult_le_compat_l; [apply IZR_le; lia|easy].
  - unfold signed_zero_Z, of_Z. f_equal. symmetry.
    assert (H2 : (2 ^ (1 - e) = 2 * 2 ^ (- e))%Z).
    { replace (1 - e)%Z with (Z.succ (- e)) by lia. now rewrite Z.pow_succ_r by lia. }
    assert (Hp : (0 < 2 ^ (- e))%Z) by (apply Z.pow_pos_nonneg; lia).
    assert (E : IZR (Zpos m) = IZR (Zpos m) * pw e * IZR (2 ^ (- e))).
    { rewrite <- pw_Z by lia. rewrite Rmult_assoc, pw_opp. lra. }
    assert (Hp' : 0 < IZR (2 ^ (- e))) by now apply IZR_lt.
    apply (Z.div_unique _ _ _ (2 * Zpos m + 2 ^ (- e) - 2 ^ (1 - e) * q)); [left|lia]. split.
    + assert (2 ^ (1 - e) * q <= 2 * Zpos m + 2 ^ (- e))%Z; [|lia]. apply le_IZR.
      rewrite H2, plus_IZR, !mult_IZR, E. nra.
    + assert (2 * Zpos m + 2 ^ (- e) < 2 ^ (1 - e) * (q + 1))%Z; [|lia]. apply lt_IZR.
      rewrite H2, plus_IZR, !mult_IZR, plus_IZR, E. nra.
Qed.

(** ** Relative errors add up *)

Lemma close_within x v : close x v -> 0 <= v -> v * (1 - ulp) <= x <= v * (1 + ulp).
Proof.
  unfold close, Rabs. destruct (Rcase_abs _); lra.
Qed.

Lemma ulp_small : 0 < ulp /\ ulp * 9007199254740992 = 1.
Proof.
  split; [apply pw_pos|]. unfold ulp. rewrite Rmult_comm. change 9007199254740992 with (IZR (2 ^ 53)).
  rewrite <- pw_Z by lia. apply (pw_opp 53).
Qed.

(** [x] is [v] with [k] rounding errors. *)
Definition within (k : nat) (x v : R) : Prop := v * (1 - ulp) ^ k <= x <= v * (1 + ulp) ^ k.

Lemma within_step k x y v w :
  0 < v -> 0 < w -> within k x v -> close y (x * w) -> within (S k) y (v * w).
Proof.
  intros Hv Hw [H1 H2] Hy. destruct ulp_small as [Hu1 Hu2].
  assert (Hk : 0 < (1 - ulp) ^ k) by (apply pow_lt; lra).
  assert (Hx : 0 < x) by nra. apply close_within in Hy; [|nra]. unfold within. cbn [pow]. split.
  - apply (Rle_trans _ (x * w * (1 - ulp))); [|easy].
    replace (v * w * ((1 - ulp) * (1 - ulp) ^ k)) with (v * (1 - ulp) ^ k * (w * (1 - ulp))) by ring.
    replace (x * w * (1 - ulp)) with (x * (w * (1 - ulp))) by ring. apply Rmult_le_compat_r; [nra|easy].
  - apply (Rle_trans _ (x * w * (1 + ulp))); [easy|].
    replace (v * w * ((1 + ulp) * (1 + ulp) ^ k)) with (v * (1 + ulp) ^ k * (w * (1 + ulp))) by ring.
    replace (x * w * (1 + ulp)) with (x * (w * (1 + ulp))) by ring. apply Rmult_le_compat_r; [nra|easy].
Qed.

(** Four errors are less than half a unit on integers up to nine hundred million millions. *)
Lemma within_four x q :
  0 < q <= 900000000000000 -> within 4 x q -> Rabs (x - q) < 1 / 2.
Proof.
  intros Hq [H1 H2]. destruct ulp_small as [Hu1 Hu2]. cbn [pow] in *.
  assert (Hu : ulp <= 1 / 1000) by lra.
  assert (Hhi : (1 + ulp) * ((1 + ulp) * ((1 + ulp) * ((1 + ulp) * 1))) <= 1 + 5 * ulp) by nra.
  assert (Hlo : 1 - 5 * ulp <= (1 - ulp) * ((1 - ulp) * ((1 - ulp) * ((1 - ulp) * 1)))) by nra.
  apply Rabs_def1; nra.
Qed.

(** A positive integer survives being divided, multiplied, divided and multiplied back. *)
Lemma scale_back q unit rate U r :
  (0 < q <= 900000000000000)%Z -> normal 100 unit U -> normal 100 rate r ->
  nround (nmul (ndiv (nmul (ndiv (of_Z q) unit) rate) rate) unit) = of_Z q.
Proof.
  intros Hq HU Hr. pose proof (normal_pos _ _ _ HU) as HU0. pose proof (normal_pos _ _ _ Hr) as Hr0.
  assert (Hq0 : 0 < IZR q) by (apply IZR_lt; lia).
  destruct (div_ok _ _ _ _ _ _ (of_Z_normal q ltac:(lia)) HU ltac:(lia)) as (x1 & N1 & C1).
  destruct (mul_ok _ _ _ _ _ _ N1 Hr ltac:(lia)) as (x2 & N2 & C2).
  destruct (div_ok _ _ _ _ _ _ N2 Hr ltac:(lia)) as (x3 & N3 & C3).
  destruct (mul_ok _ _ _ _ _ _ N3 HU ltac:(lia)) as (x4 & N4 & C4).
  apply (nround_near _ _ _ _ N4); [lia|]. apply within_four; [split; [easy|apply IZR_le; lia]|].
  assert (W0 : within 0 (IZR q) (IZR q)) by (unfold within; cbn; lra).
  pose proof (Rinv_0_lt_compat _ HU0) as HUi. pose proof (Rinv_0_lt_compat _ Hr0) as Hri.
  assert (P1 : 0 < IZR q * / U) by now apply Rmult_lt_0_compat.
  assert (P2 : 0 < IZR q * / U * r) by now apply Rmult_lt_0_compat.
  assert (P3 : 0 < IZR q * / U * r * / r) by now apply Rmult_lt_0_compat.
  apply (within_step _ _ _ _ _ Hq0 HUi W0) in C1 as W1.
  apply (within_step _ _ _ _ _ P1 Hr0 W1) in C2 as W2.
  apply (within_step _ _ _ _ _ P2 Hri W2) in C3 as W3.
  apply (within_step _ _ _ _ _ P3 HU0 W3) in C4 as W4.
  now replace (IZR q * / U * r * / r * U) with (IZR q) in W4 by (field; lra).
Qed.

(** The same without a rate. *)
Lemma scale_back_plain q unit U :
  (0 < q <= 900000000000000)%Z -> normal 100 unit U ->
  nround (nmul (ndiv (of_Z q) unit) unit) = of_Z q.
Proof.
  intros Hq HU. pose proof (normal_pos _ _ _ HU) as HU0.
  assert (Hq0 : 0 < IZR q) by (apply IZR_lt; lia).
  destruct (div_ok _ _ _ _ _ _ (of_Z_normal q ltac:(lia)) HU ltac:(lia)) as (x1 & N1 & C1).
  destruct (mul_ok _ _ _ _ _ _ N1 HU ltac:(lia)) as (x2 & N2 & C2).
  apply (nround_near _ _ _ _ N2); [lia|].
  assert (W0 : within 0 (IZR q) (IZR q)) by (unfold within; cbn; lra).
  pose proof (Rinv_0_lt_compat _ HU0) as HUi.
  assert (P1 : 0 < IZR q * / U) by now apply Rmult_lt_0_compat.
  apply (within_step _ _ _ _ _ Hq0 HUi W0) in C1 as W1.
  apply (within_step _ _ _ _ _ P1 HU0 W1) in C2 as W2.
  replace (IZR q * / U * U) with (IZR q) in W2 by (field; lra).
  destruct ulp_small as [Hu1 Hu2]. destruct W2 as [H1 H2]. cbn [pow] in *.
  assert (IZR q <= 900000000000000) by (apply IZR_le; lia). apply Rabs_def1; nra.
Qed.

(** A decidable condition for [normal]. *)
Definition is_normal (x : number) : bool :=
  match x with
  | S754_finite false m e =>
    ((2 ^ 52 <=? Zpos m) && (Zpos m <? 2 ^ 53) && (Z.abs (e + 52) <=? 100))%Z
  | _ => false
  end.

Lemma is_normal_ok x : is_normal x = true -> exists v, normal 100 x v.
Proof.
  destruct x as [| | |[] m e]; try discriminate. cbn [is_normal]. intros H.
  apply andb_true_iff in H as [[H1%Z.leb_le H2%Z.ltb_lt]%andb_true_iff H3%Z.leb_le].
  exists (IZR (Zpos m) * pw e). now exists m, e.
Qed.

(** An integer below [2^53] is exact. *)
Lemma to_Z_of_Z q : (0 <= q < 2 ^ 53)%Z -> to_Z (of_Z q) = Some q.
Proof.
  intros Hq. destruct (Z.eq_dec q 0%Z) as [->|H0]; [easy|].
  destruct (of_Z_normal q ltac:(lia)) as (m & e & -> & Hm & _ & Hv). cbn [to_Z].
  destruct (Z.leb_spec 0 e) as [He|He].
  - cbn [option_map]. f_equal. apply eq_IZR. now rewrite mult_IZR, <- pw_Z.
  - assert (E : Zpos m = (q * 2 ^ (- e))%Z).
    { apply eq_IZR. rewrite mult_IZR, <- pw_Z, Hv, Rmult_assoc, pw_opp by lia. ring. }
    assert (Hp : (0 < 2 ^ (- e))%Z) by (apply Z.pow_pos_nonneg; lia).
    rewrite E, Z.mod_mul, Z.div_mul by lia. easy.
Qed.
