(* ===== verification/Regex.v ===== *)
(** JavaScript regular expressions: the patterns the sources use as an inductive
    type, and the backtracking matcher of the language (continuations tried in
    priority order), with the lemmas that evaluate it on symbolic strings. *)

From S2P Require Import Prelude.
From stdpp Require Import options.

(** ** Patterns *)

Inductive re :=
| REmpty
| RChr (f : N -> bool)           (* one unit of a class *)
| RLit (s : jstr)                (* a literal string *)
| RSeq (a b : re)
| RAlt (a b : re)
| RStar (a : re)                 (* greedy, zero or more *)
| RGroup (n : nat) (a : re)      (* capturing group *)
| RBack (n : nat)                (* backreference *)
| RBol | REol                    (* ^ and $ without the m flag *)
| RWordB.                        (* \b *)

Definition RPlus (a : re) : re := RSeq a (RStar a).
Definition ROpt (a : re) : re := RAlt a REmpty.

Infix "@;" := RSeq (at level 58, right associativity) : js_scope.

Definition alts (l : list re) : re :=
  match rev l with
  | [] => RChr (fun _ => false)
  | r :: rs => fold_left (fun acc x => RAlt x acc) rs r
  end.

(** ** The matcher *)

Definition caps := list (nat * jstr).

Fixpoint cap (n : nat) (c : caps) : option jstr :=
  match c with
  | [] => None
  | (m, s) :: c' => if n =? m then Some s else cap n c'
  end.

Definition is_word (c : N) : bool :=
  is_digit c || ((65 <=? c) && (c <=? 90))%N || ((97 <=? c) && (c <=? 122))%N
  || (c =? 95)%N.

Definition at_word (c : option N) : bool :=
  match c with Some x => is_word x | None => false end.

Definition last_opt (p : option N) (s : jstr) : option N :=
  match rev s with c :: _ => Some c | [] => p end.

Section Matcher.
Context {A : Type}.

(** The unit before the position, the rest of the input, the captures. *)
Definition cont := option N -> jstr -> caps -> option A.

Definition or_else (x : option A) (y : unit -> option A) : option A :=
  match x with Some _ => x | None => y tt end.

(** Greedy iteration of [m]; an iteration that consumes nothing fails. *)
Fixpoint star_loop (m : option N -> jstr -> caps -> cont -> option A) (fuel : nat)
    (p : option N) (s : jstr) (c : caps) (k : cont) : option A :=
  match fuel with
  | 0 => k p s c
  | S f =>
    or_else
      (m p s c (fun p' s' c' =>
         if length s' <? length s then star_loop m f p' s' c' k else None))
      (fun _ => k p s c)
  end.

Fixpoint mt (r : re) (p : option N) (s : jstr) (c : caps) (k : cont) : option A :=
  match r with
  | REmpty => k p s c
  | RChr f =>
    match s with
    | x :: s' => if f x then k (Some x) s' c else None
    | [] => None
    end
  | RLit w =>
    match strip_prefix w s with
    | Some s' => k (last_opt p w) s' c
    | None => None
    end
  | RSeq a b => mt a p s c (fun p' s' c' => mt b p' s' c' k)
  | RAlt a b => or_else (mt a p s c k) (fun _ => mt b p s c k)
  | RStar a => star_loop (mt a) (length s) p s c k
  | RGroup n a =>
    mt a p s c (fun p' s' c' => k p' s' ((n, take (length s - length s') s) :: c'))
  | RBack n =>
    let w := match cap n c with Some w => w | None => [] end in
    match strip_prefix w s with
    | Some s' => k (last_opt p w) s' c
    | None => None
    end
  | RBol => match p with None => k p s c | Some _ => None end
  | REol => match s with [] => k p s c | _ => None end
  | RWordB =>
    if xorb (at_word p) (at_word (head s)) then k p s c else None
  end.
End Matcher.

(** ** Entry points *)

(** Match at the beginning of [s] (patterns that start with [^]). *)
Definition match_at (r : re) (p : option N) (s : jstr) : option (jstr * caps) :=
  mt r p s [] (fun _ s' c => Some (s', c)).

(** [s.match(r)] for an anchored [r]: its captures. *)
Definition match_caps (r : re) (s : jstr) : option caps :=
  mt r None s [] (fun _ _ c => Some c).

(** [r.test(s)] for an anchored [r]. *)
Definition re_test (r : re) (s : jstr) : bool :=
  match match_caps r s with Some _ => true | None => false end.

(** [r.exec(s)]: the first position where [r] matches, with the text before it,
    the matched text, the rest and the captures. *)
Record re_hit := ReHit { hit_before : jstr; hit_text : jstr; hit_rest : jstr; hit_caps : caps }.

Fixpoint exec_from (r : re) (p : option N) (before s : jstr) : option re_hit :=
  match match_at r p s with
  | Some (s', c) => Some (ReHit (rev before) (take (length s - length s') s) s' c)
  | None =>
    match s with
    | [] => None
    | x :: s' => exec_from r (Some x) (x :: before) s'
    end
  end.

Definition exec (r : re) (s : jstr) : option re_hit := exec_from r None [] s.

(** All successive matches of a global pattern that never matches the empty
    string (the [while ((m = re.exec(s)) !== null)] loops). *)
Fixpoint exec_all_go (fuel : nat) (r : re) (p : option N) (s : jstr) : list re_hit :=
  match fuel with
  | 0 => []
  | S f =>
    match exec_from r p [] s with
    | Some h => h :: exec_all_go f r (last_opt p (hit_before h ++ hit_text h)) (hit_rest h)
    | None => []
    end
  end.

Definition exec_all (r : re) (s : jstr) : list re_hit := exec_all_go (S (length s)) r None s.

(** [s.replace(r, v)] with the [g] flag and a constant replacement. *)
Fixpoint replace_hits (v : jstr) (hits : list re_hit) (s : jstr) : jstr :=
  match hits with
  | [] => s
  | h :: hs => hit_before h ++ v ++ replace_hits v hs (hit_rest h)
  end.

Definition re_replace_all (r : re) (v s : jstr) : jstr := replace_hits v (exec_all r s) s.

(** [s.split(r)] for a pattern without captures that never matches empty. *)
Fixpoint split_hits (hits : list re_hit) (s : jstr) : list jstr :=
  match hits with
  | [] => [s]
  | h :: hs => hit_before h :: split_hits hs (hit_rest h)
  end.

Definition re_split (r : re) (s : jstr) : list jstr := split_hits (exec_all r s) s.

(** ** Evaluating the matcher on symbolic strings *)

Lemma last_opt_nil p : last_opt p [] = p.
Proof. easy. Qed.

Lemma last_opt_app p u v : last_opt (last_opt p u) v = last_opt p (u ++ v).
Proof. unfold last_opt. rewrite rev_app_distr. now destruct (rev v). Qed.

Lemma last_opt_cons p x v : last_opt (Some x) v = last_opt p (x :: v).
Proof. apply (last_opt_app p [x] v). Qed.

Lemma take_consumed {B} (w s : list B) : take (length (w ++ s) - length s) (w ++ s) = w.
Proof. rewrite length_app, Nat.add_sub. apply take_app_length. Qed.

(** The input does not continue with a unit of the class [f]. *)
Definition stops (f : N -> bool) (s : jstr) : Prop :=
  match s with [] => True | x :: _ => f x = false end.

Section Eval.
Context {A : Type}.
Implicit Types (k : cont (A := A)) (f : N -> bool).

Lemma or_else_Some (x : A) y : or_else (Some x) y = Some x.
Proof. easy. Qed.

Lemma star_loop_S m fuel p s c k :
  star_loop m (S fuel) p s c k =
  or_else (m p s c (fun p' s' c' =>
             if length s' <? length s then star_loop m fuel p' s' c' k else None))
          (fun _ => k p s c).
Proof. easy. Qed.

Lemma mt_chr f p x s c k :
  mt (RChr f) p (x :: s) c k = if f x then k (Some x) s c else None.
Proof. easy. Qed.

Lemma mt_star r p s c k : mt (RStar r) p s c k = star_loop (mt r) (length s) p s c k.
Proof. easy. Qed.

Lemma mt_lit w p s c k : mt (RLit w) p (w ++ s) c k = k (last_opt p w) s c.
Proof. cbn. now rewrite strip_prefix_app. Qed.

(** [k] refuses every input that starts with a unit of [f]. *)
Definition rejects k f : Prop := forall p x s c, f x = true -> k p (x :: s) c = None.

Lemma rejects_lit a w r f k :
  f a = false -> rejects (fun p s c => mt (RLit (a :: w) @; r) p s c k) f.
Proof.
  intros Ha p x s c Hx. cbn. destruct (N.eqb_spec a x) as [->|]; [congruence|easy].
Qed.

Lemma rejects_lit_end a w f k :
  f a = false -> rejects (fun p s c => mt (RLit (a :: w)) p s c k) f.
Proof.
  intros Ha p x s c Hx. cbn. destruct (N.eqb_spec a x) as [->|]; [congruence|easy].
Qed.

Lemma rejects_eol f k : rejects (fun p s c => mt REol p s c k) f.
Proof. easy. Qed.

Lemma star_class_loop f w s fuel p c k :
  Forall (fun x => f x = true) w -> stops f s -> length w <= fuel ->
  ((exists x, k (last_opt p w) s c = Some x) \/ rejects k f) ->
  star_loop (mt (RChr f)) fuel p (w ++ s) c k = k (last_opt p w) s c.
Proof.
  intros Hw Hs; revert fuel p; induction Hw as [|x w Hx Hw IH]; intros fuel p Hf Hk.
  - destruct fuel; [easy|]. cbn. destruct s as [|y s]; [easy|]. cbn in Hs. now rewrite Hs.
  - destruct fuel as [|fuel]; [cbn in Hf; lia|].
    rewrite <- (last_opt_cons p x w) in *.
    rewrite star_loop_S. cbn [app]. rewrite mt_chr, Hx.
    assert (E : (length (w ++ s) <? length (x :: w ++ s)) = true) by (apply Nat.ltb_lt; cbn; lia).
    rewrite E, IH; [|cbn in Hf; lia|easy].
    destruct (k (last_opt (Some x) w) s c) as [y|] eqn:Ek; [easy|].
    destruct Hk as [[z Hz]|Hk]; [discriminate|]. cbn. now apply Hk.
Qed.

(** A greedy class takes the longest run when the continuation accepts what
    follows ... *)
Lemma star_class_first f w s p c k x :
  Forall (fun x => f x = true) w -> stops f s -> k (last_opt p w) s c = Some x ->
  mt (RStar (RChr f)) p (w ++ s) c k = Some x.
Proof.
  intros Hw Hs Hk. rewrite mt_star, star_class_loop; eauto. rewrite length_app. lia.
Qed.

(** ... and also when no shorter run could be continued. *)
Lemma star_class_exact f w s p c k :
  Forall (fun x => f x = true) w -> stops f s -> rejects k f ->
  mt (RStar (RChr f)) p (w ++ s) c k = k (last_opt p w) s c.
Proof.
  intros Hw Hs Hk. rewrite mt_star, star_class_loop; auto. rewrite length_app. lia.
Qed.

Lemma plus_class_first f w s p c k x :
  w <> [] -> Forall (fun x => f x = true) w -> stops f s ->
  k (last_opt p w) s c = Some x -> mt (RPlus (RChr f)) p (w ++ s) c k = Some x.
Proof.
  intros Hne Hw Hs Hk. destruct w as [|y w]; [easy|].
  apply Forall_cons_1 in Hw as [Hy Hw]. cbn [RPlus mt app]. rewrite Hy.
  apply (star_class_first f w s); [easy..|]. now rewrite (last_opt_cons p).
Qed.

Lemma plus_class_exact f w s p c k :
  w <> [] -> Forall (fun x => f x = true) w -> stops f s -> rejects k f ->
  mt (RPlus (RChr f)) p (w ++ s) c k = k (last_opt p w) s c.
Proof.
  intros Hne Hw Hs Hk. destruct w as [|y w]; [easy|].
  apply Forall_cons_1 in Hw as [Hy Hw]. cbn [RPlus mt app]. rewrite Hy.
  change (mt (RStar (RChr f)) (Some y) (w ++ s) c k = k (last_opt p (y :: w)) s c).
  rewrite star_class_exact by easy. now rewrite (last_opt_cons p).
Qed.

(** A class that meets none of its units cannot start. *)
Lemma plus_class_stop f s p c k : stops f s -> mt (RPlus (RChr f)) p s c k = None.
Proof. destruct s as [|x s]; cbn; [easy|]. now intros ->. Qed.

Lemma group_plus_first n f w s p c k x :
  w <> [] -> Forall (fun x => f x = true) w -> stops f s ->
  k (last_opt p w) s ((n, w) :: c) = Some x ->
  mt (RGroup n (RPlus (RChr f))) p (w ++ s) c k = Some x.
Proof.
  intros Hne Hw Hs Hk. cbn [mt].
  apply (plus_class_first f w s); [easy..|]. now rewrite take_consumed.
Qed.

Lemma group_plus_exact n f w s p c k :
  w <> [] -> Forall (fun x => f x = true) w -> stops f s -> rejects k f ->
  mt (RGroup n (RPlus (RChr f))) p (w ++ s) c k = k (last_opt p w) s ((n, w) :: c).
Proof.
  intros Hne Hw Hs Hk. cbn [mt].
  change (mt (RPlus (RChr f)) p (w ++ s) c
            (fun p' s' c' => k p' s' ((n, take (length (w ++ s) - length s') (w ++ s)) :: c'))
          = k (last_opt p w) s ((n, w) :: c)).
  rewrite plus_class_exact; [now rewrite take_consumed | easy..|].
  intros p' x s' c' Hx. now apply Hk.
Qed.
End Eval.

(** ** What a match can consume *)

(** Every unit a pattern without backreferences consumes satisfies [P]. *)
Fixpoint re_within (P : N -> Prop) (r : re) : Prop :=
  match r with
  | REmpty | RBol | REol | RWordB => True
  | RChr f => forall x, f x = true -> P x
  | RLit w => Forall P w
  | RSeq a b | RAlt a b => re_within P a /\ re_within P b
  | RStar a | RGroup _ a => re_within P a
  | RBack _ => False
  end.

Definition consumes {A} (P : N -> Prop) (s : jstr) (k : cont) (x : A) : Prop :=
  exists w s' p' c', s = w ++ s' /\ Forall P w /\ k p' s' c' = Some x.

Lemma mt_within {A} P r p s c (k : cont (A := A)) x :
  re_within P r -> mt r p s c k = Some x -> consumes P s k x.
Proof.
  unfold consumes. revert p s c k x.
  induction r as [|f|w|a IHa b IHb|a IHa b IHb|a IHa|n a IHa|n| | |];
    intros p s c k x Hr Hm; cbn in Hr, Hm.
  - now exists [], s, p, c.
  - destruct s as [|y s]; [discriminate|]. destruct (f y) eqn:E; [|discriminate].
    exists [y], s, (Some y), c. repeat split; auto.
  - destruct (strip_prefix w s) as [s'|] eqn:E; [|discriminate].
    apply strip_prefix_Some in E as ->. now exists w, s', (last_opt p w), c.
  - destruct Hr as [Ha Hb].
    destruct (IHa _ _ _ _ _ Ha Hm) as (w1 & s1 & p1 & c1 & -> & Hw1 & H1).
    destruct (IHb _ _ _ _ _ Hb H1) as (w2 & s2 & p2 & c2 & -> & Hw2 & H2).
    exists (w1 ++ w2), s2, p2, c2. rewrite app_assoc. repeat split; auto.
    now apply Forall_app_2.
  - destruct Hr as [Ha Hb]. destruct (mt a p s c k) eqn:E; cbn in Hm.
    + injection Hm as ->. eauto.
    + eauto.
  - remember (length s) as fuel eqn:Ef. clear Ef.
    revert p s c Hm; induction fuel as [|fuel IHf]; intros p s c Hm; cbn in Hm.
    { now exists [], s, p, c. }
    destruct (mt a p s c _) eqn:E; cbn in Hm.
    + injection Hm as ->.
      destruct (IHa _ _ _ _ _ Hr E) as (w1 & s1 & p1 & c1 & -> & Hw1 & H1).
      match type of H1 with (if ?b then _ else _) = _ => destruct b; [|discriminate H1] end.
      destruct (IHf _ _ _ H1) as (w2 & s2 & p2 & c2 & -> & Hw2 & H2).
      exists (w1 ++ w2), s2, p2, c2. rewrite app_assoc. repeat split; auto.
      now apply Forall_app_2.
    + now exists [], s, p, c.
  - destruct (IHa _ _ _ _ _ Hr Hm) as (w & s' & p' & c' & -> & Hw & H).
    now exists w, s', p', ((n, take (length (w ++ s') - length s') (w ++ s')) :: c').
  - easy.
  - destruct p; [discriminate|]. now exists [], s, None, c.
  - destruct s; [|discriminate]. now exists [], [], p, c.
  - destruct (xorb _ _); [|discriminate]. now exists [], s, p, c.
Qed.

(** A fully anchored pattern only accepts strings of its units. *)
Lemma re_test_within P r s :
  re_within P r -> re_test (RBol @; r @; REol) s = true -> Forall P s.
Proof.
  unfold re_test, match_caps. intros Hr H.
  destruct (mt _ _ _ _ _) as [x|] eqn:E; [|discriminate]. cbn [mt] in E.
  destruct (mt_within P r _ _ _ _ _ Hr E) as (w & s' & p' & c' & -> & Hw & Hk).
  destruct s'; [|discriminate]. now rewrite app_nil_r.
Qed.

(** ** More evaluation lemmas *)

Section Eval2.
Context {A : Type}.
Implicit Types (k : cont (A := A)) (f : N -> bool).

Lemma mt_seq a b p s c k :
  mt (a @; b) p s c k = mt a p s c (fun p' s' c' => mt b p' s' c' k).
Proof. easy. Qed.

Lemma mt_lit_app u v p s c k :
  mt (RLit (u ++ v)) p s c k
  = mt (RLit u) p s c (fun p' s' c' => mt (RLit v) p' s' c' k).
Proof.
  cbn. revert s. generalize (eq_refl (last_opt p (u ++ v))).
  rewrite <- (last_opt_app p u v) at 2. intros E.
  assert (H : forall s, match strip_prefix (u ++ v) s with
                        | Some s' => k (last_opt p (u ++ v)) s' c | None => None end
                 = match strip_prefix u s with
                   | Some s' => match strip_prefix v s' with
                                | Some s'' => k (last_opt p (u ++ v)) s'' c | None => None end
                   | None => None end).
  { clear E. generalize (last_opt p (u ++ v)). intros q.
    induction u as [|x u IH]; intros [|y s]; cbn; try easy. now destruct (x =? y)%N. }
  intros s. rewrite H. now rewrite <- E.
Qed.

(** A greedy class that swallows the rest of the input gives back units until
    the continuation succeeds. *)
Lemma star_class_back f w v p c k x :
  Forall (fun x => f x = true) w -> Forall (fun x => f x = true) v ->
  (forall q v1 v2 c, v = v1 ++ v2 -> v1 <> [] -> k q v2 c = None) ->
  k (last_opt p w) v c = Some x ->
  mt (RStar (RChr f)) p (w ++ v) c k = Some x.
Proof.
  intros Hw Hv Hk Hx. rewrite mt_star.
  assert (Hv' : forall fuel q, length v <= fuel ->
            star_loop (mt (RChr f)) fuel q v c k = k q v c).
  { clear Hx w Hw. induction Hv as [|y v Hy Hv IH]; intros fuel q Hf.
    - now destruct fuel.
    - destruct fuel as [|fuel]; [cbn in Hf; lia|].
      rewrite star_loop_S, mt_chr, Hy.
      assert (E : (length v <? length (y :: v)) = true) by (apply Nat.ltb_lt; cbn; lia).
      rewrite E. rewrite IH; [| |cbn in Hf; lia].
      + rewrite (Hk (Some y) [y] v) by easy. easy.
      + intros q' v1 v2 c' -> Hne. now apply (Hk q' (y :: v1)). }
  revert p Hx. assert (Hl : length (w ++ v) <= length (w ++ v)) by lia. revert Hl.
  generalize (length (w ++ v)) at 2 3. induction Hw as [|y w Hy Hw IH]; intros fuel Hf p Hx.
  - now rewrite Hv'.
  - destruct fuel as [|fuel]; [cbn in Hf; lia|]. cbn [app] in *.
    rewrite star_loop_S, mt_chr, Hy.
    assert (E : (length (w ++ v) <? length (y :: w ++ v)) = true) by (apply Nat.ltb_lt; cbn; lia).
    rewrite E, IH; [easy|cbn in Hf; lia|now rewrite (last_opt_cons p)].
Qed.

Lemma group_plus_back n f w v p c k x :
  w <> [] -> Forall (fun x => f x = true) w -> Forall (fun x => f x = true) v ->
  (forall q v1 v2 c, v = v1 ++ v2 -> v1 <> [] -> k q v2 c = None) ->
  k (last_opt p w) v ((n, w) :: c) = Some x ->
  mt (RGroup n (RPlus (RChr f))) p (w ++ v) c k = Some x.
Proof.
  intros Hne Hw Hv Hk Hx. destruct w as [|y w]; [easy|].
  apply Forall_cons_1 in Hw as [Hy Hw]. cbn [mt RPlus app]. rewrite Hy.
  apply (star_class_back f w v); [easy..| |].
  - intros q v1 v2 c' E Hv1. now apply (Hk _ v1).
  - rewrite (last_opt_cons p). change (y :: w ++ v) with ((y :: w) ++ v).
    now rewrite take_consumed.
Qed.
End Eval2.

(** Replace the text a group captured ([take] of what was consumed) by the
    literal prefix it is. *)
Ltac list_prefix l s :=
  lazymatch l with
  | s => constr:(@nil N)
  | ?x :: ?l' => let w := list_prefix l' s in constr:(x :: w)
  end.

Ltac simpl_caps :=
  repeat match goal with
  | |- context [take (length ?l - length ?s) ?l] =>
    let w := list_prefix l s in
    replace (take (length l - length s) l) with w by (symmetry; apply (take_consumed w s))
  end.

(** A star whose body first tries a class: it takes the run of that class when
    the body fails on what follows. *)
Lemma star_alt_first {A} f b w s p c (k : cont (A := A)) x :
  Forall (fun x => f x = true) w ->
  (forall q c k', mt (A := A) (RAlt (RChr f) b) q s c k' = None) ->
  k (last_opt p w) s c = Some x ->
  mt (RStar (RAlt (RChr f) b)) p (w ++ s) c k = Some x.
Proof.
  intros Hw Hs Hk. rewrite mt_star.
  assert (Hl : length w <= length (w ++ s)) by (rewrite length_app; lia). revert Hl.
  generalize (length (w ++ s)). revert p Hk.
  induction Hw as [|y w Hy Hw IH]; intros p Hk fuel Hf.
  - destruct fuel; [easy|]. now rewrite star_loop_S, Hs.
  - destruct fuel as [|fuel]; [cbn in Hf; lia|]. rewrite star_loop_S. cbn [app].
    change (mt (RAlt (RChr f) b)) with
      (fun p s c k => or_else (mt (A := A) (RChr f) p s c k) (fun _ => mt b p s c k)).
    cbv beta. rewrite mt_chr, Hy.
    assert (E : (length (w ++ s) <? length (y :: w ++ s)) = true) by (apply Nat.ltb_lt; cbn; lia).
    rewrite E, (IH (Some y)); [easy|now rewrite (last_opt_cons p)|cbn in Hf; lia].
Qed.

Lemma match_bol r s : match_caps (RBol @; r) s = mt r None s [] (fun _ _ c => Some c).
Proof. easy. Qed.

(** Discard the tried pattern that cannot match, by computation on the literal
    beginning of the input. *)
Ltac no_match r :=
  match goal with |- context [match_caps r ?s] =>
    replace (match_caps r s) with (@None caps) by (symmetry; reflexivity) end.

(** ** What a match can capture *)

Fixpoint groups (r : re) : list nat :=
  match r with
  | RSeq a b | RAlt a b => groups a ++ groups b
  | RStar a => groups a
  | RGroup n a => n :: groups a
  | _ => []
  end.

(** A match only adds captures of its own groups. *)
Definition extends {A} (r : re) (c : caps) (k : cont) (x : A) : Prop :=
  exists p' s' d, k p' s' (d ++ c) = Some x /\ Forall (fun g => In (fst g) (groups r)) d.

Lemma mt_extends {A} r p s c (k : cont (A := A)) x : mt r p s c k = Some x -> extends r c k x.
Proof.
  unfold extends. revert p s c k x.
  induction r as [|f|w|a IHa b IHb|a IHa b IHb|a IHa|n a IHa|n| | |];
    intros p s c k x Hm; cbn [mt groups] in *; try (exists p, s, []; easy).
  - destruct s as [|y s]; [discriminate|]. destruct (f y); [|discriminate]. now exists (Some y), s, [].
  - destruct (strip_prefix w s) as [s'|]; [|discriminate]. now exists (last_opt p w), s', [].
  - destruct (IHa _ _ _ _ _ Hm) as (p1 & s1 & d1 & H1 & Hd1).
    destruct (IHb _ _ _ _ _ H1) as (p2 & s2 & d2 & H2 & Hd2).
    exists p2, s2, (d2 ++ d1). rewrite <- app_assoc. split; [exact H2|].
    apply Forall_app_2; (eapply Forall_impl; [eassumption|]); cbn; intros; apply in_app_iff; auto.
  - destruct (mt a p s c k) eqn:E; cbn in Hm.
    + injection Hm as ->. destruct (IHa _ _ _ _ _ E) as (p1 & s1 & d & H & Hd).
      exists p1, s1, d. split; [exact H|]. eapply Forall_impl; [exact Hd|]. cbn; intros; apply in_app_iff; auto.
    + destruct (IHb _ _ _ _ _ Hm) as (p1 & s1 & d & H & Hd).
      exists p1, s1, d. split; [exact H|]. eapply Forall_impl; [exact Hd|]. cbn; intros; apply in_app_iff; auto.
  - revert Hm. generalize (length s) as fuel. intros fuel.
    revert p s c; induction fuel as [|fuel IHf]; intros p s c Hm; cbn in Hm; [now exists p, s, []|].
    destruct (mt a p s c _) eqn:E; cbn in Hm; [|now exists p, s, []]. injection Hm as ->.
    destruct (IHa _ _ _ _ _ E) as (p1 & s1 & d1 & H1 & Hd1).
    match type of H1 with (if ?b then _ else _) = _ => destruct b; [|discriminate H1] end.
    destruct (IHf _ _ _ H1) as (p2 & s2 & d2 & H2 & Hd2).
    exists p2, s2, (d2 ++ d1). rewrite <- app_assoc. split; [exact H2|]. now apply Forall_app_2.
  - destruct (IHa _ _ _ _ _ Hm) as (p1 & s1 & d & H & Hd). eexists p1, s1, ((n, _) :: d).
    split; [exact H|]. constructor; [now left|]. eapply Forall_impl; [exact Hd|]. cbn. auto.
  - destruct (strip_prefix _ s) as [s'|]; [|discriminate].
    eexists _, s', []. split; [exact Hm|constructor].
  - destruct p; [discriminate|]. now exists None, s, [].
  - destruct s; [|discriminate]. now exists p, [], [].
  - destruct (xorb _ _); [|discriminate]. now exists p, s, [].
Qed.

(** Captures of other groups do not hide one. *)
Lemma cap_extends n d c :
  Forall (fun g => fst g <> n) d -> cap n (d ++ c) = cap n c.
Proof.
  induction 1 as [|[m s] d Hm _ IH]; [easy|]. cbn in *.
  now replace (n =? m) with false by (symmetry; apply Nat.eqb_neq; congruence).
Qed.

Lemma mt_alt_inv {A} a b p s c (k : cont (A := A)) x :
  mt (RAlt a b) p s c k = Some x -> mt a p s c k = Some x \/ mt b p s c k = Some x.
Proof. cbn [mt]. destruct (mt a p s c k); cbn; auto. Qed.

Lemma mt_lit_inv {A} w p s c (k : cont (A := A)) x :
  mt (RLit w) p s c k = Some x -> exists s', s = w ++ s' /\ k (last_opt p w) s' c = Some x.
Proof.
  cbn [mt]. destruct (strip_prefix w s) as [s'|] eqn:E; [|discriminate].
  apply strip_prefix_Some in E. intros H. now exists s'.
Qed.
