(* ===== verification/Json.v ===== *)
(** JSON values as the sources see them after [JSON.parse]: the value type,
    property order, the parser, [JSON.stringify] and the conversions
    [String(v)], [Number(v)], truthiness; the round trip of parsing what was
    stringified. *)

From S2P Require Import Prelude Number.
From stdpp Require Import options.

(** ** Values *)

Unset Elimination Schemes.
Inductive json :=
| JNull
| JBool (b : bool)
| JNum (n : number)
| JStr (s : jstr)
| JArr (l : list json)
| JObj (o : list (jstr * json)).   (* own properties, in property order *)
Set Elimination Schemes.

Section JsonInd.
Variable P : json -> Prop.
Hypothesis Hnull : P JNull.
Hypothesis Hbool : forall b, P (JBool b).
Hypothesis Hnum : forall n, P (JNum n).
Hypothesis Hstr : forall s, P (JStr s).
Hypothesis Harr : forall l, Forall P l -> P (JArr l).
Hypothesis Hobj : forall o, Forall (fun kv => P (snd kv)) o -> P (JObj o).

Fixpoint json_ind (v : json) : P v :=
  match v with
  | JNull => Hnull
  | JBool b => Hbool b
  | JNum n => Hnum n
  | JStr s => Hstr s
  | JArr l =>
    Harr l ((fix go l := match l return Forall P l with
                         | [] => Forall_nil_2 _
                         | x :: l' => Forall_cons_2 _ _ _ (json_ind x) (go l')
                         end) l)
  | JObj o =>
    Hobj o ((fix go o := match o return Forall (fun kv => P (snd kv)) o with
                         | [] => Forall_nil_2 _
                         | x :: o' => Forall_cons_2 _ _ _ (json_ind (snd x)) (go o')
                         end) o)
  end.
End JsonInd.

(** ** Property order

    Own string keys are enumerated array indices first, in ascending order, then
    the others in creation order; a key given twice keeps its first place and
    its last value. *)

Definition array_index (k : jstr) : option N :=
  match k with
  | [] => None
  | c :: _ =>
    if forallb is_digit k
       && ((negb (c =? 48)%N) || (length k =? 1)) && (undigits k <? 4294967295)%N
    then Some (undigits k) else None
  end.

(** [a] is enumerated before a freshly created [b]?  Used to place [b]. *)
Definition key_before (a b : jstr) : bool :=
  match array_index a, array_index b with
  | Some i, Some j => (i <? j)%N
  | Some _, None => true
  | None, Some _ => false
  | None, None => true
  end.

Fixpoint obj_update {V} (k : jstr) (v : V) (o : list (jstr * V)) : option (list (jstr * V)) :=
  match o with
  | [] => None
  | (k', v') :: o' =>
    if k =s k' then Some ((k, v) :: o')
    else option_map (cons (k', v')) (obj_update k v o')
  end.

Fixpoint obj_insert {V} (k : jstr) (v : V) (o : list (jstr * V)) : list (jstr * V) :=
  match o with
  | [] => [(k, v)]
  | (k', v') :: o' =>
    if key_before k' k then (k', v') :: obj_insert k v o' else (k, v) :: (k', v') :: o'
  end.

(** [o[k] = v] *)
Definition obj_set {V} (k : jstr) (v : V) (o : list (jstr * V)) : list (jstr * V) :=
  match obj_update k v o with Some o' => o' | None => obj_insert k v o end.

(** [o[k]]; [None] is [undefined]. *)
Fixpoint obj_get {V} (k : jstr) (o : list (jstr * V)) : option V :=
  match o with
  | [] => None
  | (k', v) :: o' => if k =s k' then Some v else obj_get k o'
  end.

Definition obj_of {V} (l : list (jstr * V)) : list (jstr * V) :=
  fold_left (fun o kv => obj_set (fst kv) (snd kv) o) l [].

(** [delete o[k]] *)
Definition obj_delete {V} (k : jstr) (o : list (jstr * V)) : list (jstr * V) :=
  List.filter (fun kv => negb (fst kv =s k)) o.

(** [{ ...o, ...p }] *)
Definition obj_merge {V} (o p : list (jstr * V)) : list (jstr * V) :=
  fold_left (fun o kv => obj_set (fst kv) (snd kv) o) p o.

(** The keys of a list are in property order, without repetition. *)
Fixpoint keys_ordered (ks : list jstr) : bool :=
  match ks with
  | [] => true
  | k :: ks' => forallb (fun k' => negb (k =s k') && key_before k k') ks' && keys_ordered ks'
  end.

Lemma obj_update_fresh {V} k (v : V) o :
  ~ In k (map fst o) -> obj_update k v o = None.
Proof.
  induction o as [|[k' v'] o IH]; cbn; [easy|]. intros H.
  destruct (seqb_spec k k') as [->|]; [tauto|]. now rewrite IH by tauto.
Qed.

Lemma obj_insert_last {V} k (v : V) o :
  forallb (fun k' => key_before k' k) (map fst o) = true -> obj_insert k v o = o ++ [(k, v)].
Proof.
  induction o as [|[k' v'] o IH]; cbn; [easy|].
  intros [-> H]%andb_true_iff. now rewrite IH.
Qed.

Lemma keys_ordered_snoc ks k :
  keys_ordered (ks ++ [k]) = true ->
  ~ In k ks /\ forallb (fun k' => key_before k' k) ks = true /\ keys_ordered ks = true.
Proof.
  induction ks as [|k' ks IH]; cbn; [auto|].
  rewrite forallb_app. cbn. intros H. bool_hyps. destruct IH as (Hn & Hb & Ho); [easy|].
  repeat split; [|now apply andb_true_iff|now apply andb_true_iff]. intros [->|]; easy.
Qed.

Lemma obj_of_ordered {V} (l : list (jstr * V)) :
  keys_ordered (map fst l) = true -> obj_of l = l.
Proof.
  unfold obj_of. induction l as [|[k v] l IH] using rev_ind; [easy|].
  rewrite map_app, fold_left_app. cbn. intros (Hn & Hb & Ho)%keys_ordered_snoc.
  rewrite IH by easy. unfold obj_set. rewrite obj_update_fresh by easy.
  now apply obj_insert_last.
Qed.

Lemma obj_get_In {V} k (o : list (jstr * V)) v : obj_get k o = Some v -> In (k, v) o.
Proof.
  induction o as [|[k' v'] o IH]; cbn; [discriminate|].
  destruct (seqb_spec k k') as [->|]; [intros [= ->]; now left | auto].
Qed.

Lemma obj_get_update {V} k k' (v : V) o o' :
  obj_update k' v o = Some o' -> obj_get k o' = if k =s k' then Some v else obj_get k o.
Proof.
  revert o'; induction o as [|[k0 v0] o IH]; cbn; intros o' E; [discriminate|].
  destruct (seqb_spec k' k0) as [->|Hne].
  - injection E as <-. cbn. now destruct (k =s k0).
  - destruct (obj_update k' v o) as [o1|]; [|discriminate]. injection E as <-. cbn.
    rewrite (IH o1) by easy. destruct (seqb_spec k k0) as [->|]; [|easy].
    destruct (seqb_spec k0 k'); congruence.
Qed.

Lemma obj_get_insert {V} k k' (v : V) o :
  obj_get k' o = None ->
  obj_get k (obj_insert k' v o) = if k =s k' then Some v else obj_get k o.
Proof.
  induction o as [|[k0 v0] o IH]; cbn; [now destruct (k =s k')|].
  destruct (seqb_spec k' k0) as [->|Hne]; [discriminate|]. intros Hg.
  destruct (key_before k0 k'); cbn; [|easy]. rewrite IH by easy.
  destruct (seqb_spec k k0) as [->|]; [|easy]. destruct (seqb_spec k0 k'); congruence.
Qed.

Lemma obj_update_None {V} k (v : V) o : obj_update k v o = None -> obj_get k o = None.
Proof.
  induction o as [|[k0 v0] o IH]; cbn; [easy|].
  destruct (k =s k0); [discriminate|]. destruct (obj_update k v o); [discriminate|auto].
Qed.

(** Reading a property after a write. *)
Lemma obj_get_set {V} k k' (v : V) o :
  obj_get k (obj_set k' v o) = if k =s k' then Some v else obj_get k o.
Proof.
  unfold obj_set. destruct (obj_update k' v o) as [o'|] eqn:E.
  - now apply obj_get_update.
  - eauto using obj_get_insert, obj_update_None.
Qed.

(** Reading a property after a loop over the entries of an object, each turn of which sets
    at most the property of its key, from that property's value and the entry's. *)
Lemma obj_get_fold {V W} (g : list (jstr * W) -> jstr * V -> list (jstr * W)) (h : option W -> jstr -> V -> option W) :
  (forall r k v x, obj_get x (g r (k, v)) = if x =s k then h (obj_get k r) k v else obj_get x r) ->
  forall es r x, List.NoDup (map fst es) ->
  obj_get x (fold_left g es r) = match obj_get x es with Some v => h (obj_get x r) x v | None => obj_get x r end.
Proof.
  intros Hg es. induction es as [|[k v] es IH]; intros r x; [easy|]. cbn [map fst fold_left obj_get].
  intros [Hk Hnd]%List.NoDup_cons_iff. rewrite IH, Hg by exact Hnd. destruct (seqb_spec x k) as [->|]; [|easy].
  destruct (obj_get k es) eqn:E; [|easy]. apply obj_get_In in E. now apply (in_map fst) in E.
Qed.

(** Reading a property after a spread. *)
Lemma obj_get_merge {V} k (p o : list (jstr * V)) : List.NoDup (map fst p) ->
  obj_get k (obj_merge o p) = match obj_get k p with Some v => Some v | None => obj_get k o end.
Proof.
  unfold obj_merge. apply (obj_get_fold _ (fun _ _ v => Some v)). intros r k' v x. apply obj_get_set.
Qed.

(** Reading a property after its deletion. *)
Lemma obj_get_delete {V} k k' (o : list (jstr * V)) :
  obj_get k (obj_delete k' o) = if k =s k' then None else obj_get k o.
Proof.
  unfold obj_delete. induction o as [|[k0 v0] o IH]; cbn; [now destruct (k =s k')|].
  destruct (seqb_spec k0 k') as [->|Hn]; cbn; rewrite IH.
  - now destruct (k =s k').
  - destruct (seqb_spec k k0) as [->|]; [|easy]. now apply seqb_neq in Hn as ->.
Qed.

(** The order of the keys is kept by writes and deletions. *)
Lemma array_index_Some k i :
  array_index k = Some i ->
  canonical k /\ i = undigits k.
Proof.
  unfold array_index, canonical. destruct k as [|c k]; [discriminate|]. case_goal; [|discriminate].
  intros [= <-]. bool_hyps. repeat split; [apply List.Forall_forall; now apply forallb_forall|].
  destruct (N.eqb_spec c 48); [right|now left]. destruct k; [easy|]. cbn in *. easy.
Qed.

Lemma key_before_total a b : a <> b -> key_before a b = false -> key_before b a = true.
Proof.
  unfold key_before. destruct (array_index a) as [i|] eqn:Ea, (array_index b) as [j|] eqn:Eb; try easy.
  intros Hne Hle. apply array_index_Some in Ea as [Ca ->], Eb as [Cb ->].
  apply N.ltb_ge in Hle. apply N.ltb_lt. enough (undigits a <> undigits b) by lia.
  intros E. now apply Hne, undigits_inj.
Qed.

Lemma key_before_trans a b c : key_before a b = true -> key_before b c = true -> key_before a c = true.
Proof.
  unfold key_before. destruct (array_index a), (array_index b), (array_index c); try easy.
  rewrite !N.ltb_lt. lia.
Qed.

Lemma obj_update_keys {V} k (v : V) o o' : obj_update k v o = Some o' -> map fst o' = map fst o.
Proof.
  revert o'; induction o as [|[k0 v0] o IH]; cbn; intros o' E; [discriminate|].
  destruct (seqb_spec k k0) as [->|]; [now injection E as <-|].
  destruct (obj_update k v o); [|discriminate]. injection E as <-. cbn. f_equal. now apply IH.
Qed.

Lemma obj_insert_keys {V} k (v : V) o : map fst (obj_insert k v o) ≡ₚ k :: map fst o.
Proof.
  induction o as [|[k0 v0] o IH]; cbn; [easy|]. destruct (key_before k0 k); [|easy]. cbn.
  rewrite IH. apply Permutation_swap.
Qed.

Lemma obj_get_None {V} k (o : list (jstr * V)) : obj_get k o = None <-> ~ In k (map fst o).
Proof.
  induction o as [|[k0 v0] o IH]; cbn; [easy|]. destruct (seqb_spec k k0) as [->|]; [|intuition congruence].
  split; [easy|]. intros H. exfalso. apply H. now left.
Qed.

(** One key in front of the others. *)
Definition before_all (k : jstr) (ks : list jstr) : Prop :=
  Forall (fun k' => k <> k' /\ key_before k k' = true) ks.

Lemma keys_ordered_cons k ks :
  keys_ordered (k :: ks) = true <-> before_all k ks /\ keys_ordered ks = true.
Proof.
  cbn. rewrite andb_true_iff, forallb_forall. unfold before_all. rewrite List.Forall_forall.
  split; intros [H Ho]; (split; [|exact Ho]); intros x Hx; specialize (H x Hx).
  - apply andb_true_iff in H as [H1 H2]. now apply negb_true_iff, seqb_neq in H1.
  - destruct H as [H ->]. apply seqb_neq in H. now rewrite H.
Qed.

Lemma keys_ordered_NoDup ks : keys_ordered ks = true -> List.NoDup ks.
Proof.
  induction ks as [|k ks IH]; intros H; [constructor|]. apply keys_ordered_cons in H as [Hk H].
  constructor; [|now apply IH]. intros Hin. unfold before_all in Hk.
  apply (proj1 (List.Forall_forall _ _) Hk) in Hin as [Hne _]. easy.
Qed.

Lemma obj_get_map {V W} (f : V -> W) k (o : list (jstr * V)) :
  obj_get k (map (fun kv => (fst kv, f (snd kv))) o) = option_map f (obj_get k o).
Proof. induction o as [|[k' v] o IH]; [easy|]. cbn. now destruct (k =s k'). Qed.

Lemma keys_ordered_insert {V} k (v : V) o :
  ~ In k (map fst o) -> keys_ordered (map fst o) = true -> keys_ordered (map fst (obj_insert k v o)) = true.
Proof.
  induction o as [|[k0 v0] o IH]; [easy|]. cbn [map fst obj_insert].
  intros Hn [Hb Ho]%keys_ordered_cons. cbn [In] in Hn. destruct (key_before k0 k) eqn:E; cbn [map fst].
  - apply keys_ordered_cons. split; [|apply IH; tauto]. unfold before_all. rewrite obj_insert_keys.
    constructor; [|easy]. intuition congruence.
  - apply (key_before_total k0 k) in E; [|tauto]. apply keys_ordered_cons. split.
    + constructor; [intuition congruence|]. apply List.Forall_forall. intros x Hx.
      pose proof (proj1 (List.Forall_forall _ _) Hb x Hx) as [_ Hx'].
      split; [intuition congruence|now apply (key_before_trans k k0)].
    + now apply keys_ordered_cons.
Qed.

Lemma keys_ordered_set {V} k (v : V) o :
  keys_ordered (map fst o) = true -> keys_ordered (map fst (obj_set k v o)) = true.
Proof.
  intros Ho. unfold obj_set. destruct (obj_update k v o) as [o'|] eqn:E.
  - now rewrite (obj_update_keys _ _ _ _ E).
  - apply keys_ordered_insert; [|easy]. now apply obj_get_None, (obj_update_None k v).
Qed.

Lemma obj_delete_keys {V} k (o : list (jstr * V)) :
  map fst (obj_delete k o) = List.filter (fun k' => negb (k' =s k)) (map fst o).
Proof.
  unfold obj_delete. induction o as [|[k0 v0] o IH]; cbn; [easy|]. destruct (negb (k0 =s k)); cbn; now rewrite IH.
Qed.

Lemma keys_ordered_filter f ks : keys_ordered ks = true -> keys_ordered (List.filter f ks) = true.
Proof.
  induction ks as [|k ks IH]; [easy|]. intros [Hb Ho]%keys_ordered_cons. cbn.
  destruct (f k); [|now apply IH]. apply keys_ordered_cons. split; [|now apply IH].
  apply List.Forall_forall. intros x [Hx _]%filter_In. exact (proj1 (List.Forall_forall _ _) Hb x Hx).
Qed.

Lemma obj_set_In {V} k (v : V) o kv : In kv (obj_set k v o) -> kv = (k, v) \/ In kv o.
Proof.
  unfold obj_set. destruct (obj_update k v o) as [o'|] eqn:E.
  - revert o' E; induction o as [|[k0 v0] o IH]; cbn; intros o' E; [discriminate|].
    destruct (seqb_spec k k0) as [->|]; [injection E as <-; cbn; intuition|].
    destruct (obj_update k v o); [|discriminate]. injection E as <-. intros [<-|H]; [now right; left|].
    destruct (IH _ eq_refl H); tauto.
  - clear E. induction o as [|[k0 v0] o IH]; cbn; [intuition|].
    destruct (key_before k0 k); cbn; intuition.
Qed.

(** The keys after a write or a deletion. *)

Lemma obj_set_keys {V} k (v : V) o x : In x (map fst (obj_set k v o)) <-> x = k \/ In x (map fst o).
Proof.
  unfold obj_set. destruct (obj_update k v o) as [o'|] eqn:E.
  - rewrite (obj_update_keys _ _ _ _ E). split; [now right|]. intros [-> | H]; [|easy].
    destruct (obj_get k o) eqn:G; [apply obj_get_In in G; now apply (in_map fst) in G|].
    exfalso. clear - E G. revert o' E; induction o as [|[k0 v0] o IH]; cbn in *; [easy|].
    destruct (k =s k0); [easy|]. destruct (obj_update k v o); [|easy]. intros o' _. now eapply IH.
  - split; intros H.
    + apply (Permutation_in _ (obj_insert_keys k v o)) in H. destruct H as [->|H]; auto.
    + apply (Permutation_in _ (symmetry (obj_insert_keys k v o))). destruct H as [->|H]; [now left|now right].
Qed.

Lemma obj_set_NoDup {V} k (v : V) o : List.NoDup (map fst o) -> List.NoDup (map fst (obj_set k v o)).
Proof.
  intros H. unfold obj_set. destruct (obj_update k v o) as [o'|] eqn:E; [now rewrite (obj_update_keys _ _ _ _ E)|].
  apply (Permutation_NoDup (symmetry (obj_insert_keys k v o))). constructor; [|easy].
  now apply obj_get_None, (obj_update_None k v).
Qed.

Lemma obj_delete_NoDup {V} k (o : list (jstr * V)) : List.NoDup (map fst o) -> List.NoDup (map fst (obj_delete k o)).
Proof. intros H. rewrite obj_delete_keys. now apply List.NoDup_filter. Qed.

Lemma obj_get_keys {V} k (o : list (jstr * V)) : obj_get k o <> None <-> In k (map fst o).
Proof.
  split; intros H.
  - destruct (memb k (map fst o)) eqn:E; [now apply memb_In|]. apply memb_not_In, obj_get_None in E. easy.
  - intros E. now apply obj_get_None in E.
Qed.

Lemma obj_filter_NoDup {V} (f : jstr * V -> bool) o :
  List.NoDup (map fst o) -> List.NoDup (map fst (List.filter f o)).
Proof.
  induction o as [|[k v] o IH]; [easy|]. cbn [map fst List.filter]. intros [Hk Hnd]%List.NoDup_cons_iff.
  destruct (f (k, v)); [|now apply IH]. cbn [map fst]. constructor; [|now apply IH].
  intros ([k' v'] & E & Hin)%in_map_iff. cbn in E. subst k'. apply filter_In in Hin as [Hin _].
  now apply (in_map fst) in Hin.
Qed.

Lemma obj_get_NoDup {V} k (v : V) o : List.NoDup (map fst o) -> In (k, v) o -> obj_get k o = Some v.
Proof.
  induction o as [|[k' v'] o IH]; [easy|]. cbn [map fst obj_get]. intros [Hk Hnd]%List.NoDup_cons_iff [[= -> ->]|Hin].
  - now rewrite seqb_refl.
  - destruct (seqb_spec k k') as [->|]; [|now apply IH]. now apply (in_map fst) in Hin.
Qed.

Lemma obj_set_Forall {V} (P : jstr * V -> Prop) k v o : P (k, v) -> Forall P o -> Forall P (obj_set k v o).
Proof.
  intros Hp Ho. apply List.Forall_forall. intros x [-> | H]%obj_set_In; [easy|].
  now apply (proj1 (List.Forall_forall _ _) Ho).
Qed.

Lemma obj_delete_Forall {V} (P : jstr * V -> Prop) k o : Forall P o -> Forall P (obj_delete k o).
Proof.
  intros Ho. apply List.Forall_forall. intros x [H _]%filter_In. now apply (proj1 (List.Forall_forall _ _) Ho).
Qed.

(** ** Conversions *)

(** Truthiness of a value; [None] is [undefined]. *)
Definition jtruthy (v : json) : bool :=
  match v with
  | JNull => false
  | JBool b => b
  | JNum n => ntruthy n
  | JStr s => truthy s
  | JArr _ | JObj _ => true
  end.

(** [String(v)]; inside an array [null] prints as the empty string. *)
Fixpoint js_String (v : json) : jstr :=
  match v with
  | JNull => "null"
  | JBool b => if b then "true" else "false"
  | JNum n => num_to_string n
  | JStr s => s
  | JArr l => join "," (map (fun x => match x with JNull => [] | _ => js_String x end) l)
  | JObj _ => "[object Object]"
  end.

(** [Number(v)] *)
Definition js_Number (v : json) : number :=
  match v with
  | JNull => zero
  | JBool b => if b then of_Z 1 else zero
  | JNum n => n
  | JStr s => Number_str s
  | JArr _ => Number_str (js_String v)
  | JObj _ => NaN
  end.

(** [v.k] and [v?.k]: [None] is [undefined]. *)
Definition jget (k : jstr) (v : json) : option json :=
  match v with JObj o => obj_get k o | _ => None end.

Definition jget_opt (k : jstr) (v : option json) : option json :=
  match v with Some v => jget k v | None => None end.

(** [===]; two objects read from different texts are never the same. *)
Definition strict_eq (a b : option json) : bool :=
  match a, b with
  | None, None => true
  | Some JNull, Some JNull => true
  | Some (JBool x), Some (JBool y) => Bool.eqb x y
  | Some (JNum x), Some (JNum y) => SFeqb x y
  | Some (JStr x), Some (JStr y) => x =s y
  | _, _ => false
  end.

Definition is_str (v : option json) (s : jstr) : bool := strict_eq v (Some (JStr s)).
Definition is_bool (v : option json) (b : bool) : bool := strict_eq v (Some (JBool b)).

(** [typeof v === 'string'] and [typeof v === 'object'] *)
Definition typeof_string (v : option json) : bool :=
  match v with Some (JStr _) => true | _ => false end.
Definition typeof_object (v : json) : bool :=
  match v with JNull | JArr _ | JObj _ => true | _ => false end.

(** ** [JSON.stringify] *)

Definition hex_digit (d : N) : N := if (d <? 10)%N then (48 + d)%N else (87 + d)%N.

Definition u_escape (c : N) : jstr :=
  [backslash; 117; hex_digit (c / 4096); hex_digit (c / 256 mod 16);
   hex_digit (c / 16 mod 16); hex_digit (c mod 16)]%N.

Definition is_high (c : N) : bool := ((55296 <=? c) && (c <=? 56319))%N.
Definition is_low (c : N) : bool := ((56320 <=? c) && (c <=? 57343))%N.

(** The characters of a quoted string; a surrogate that is not part of a pair is
    escaped. *)
Fixpoint quote_body (s : jstr) : jstr :=
  match s with
  | [] => []
  | c :: s' =>
    if (c =? dquote)%N then backslash :: dquote :: quote_body s'
    else if (c =? backslash)%N then backslash :: backslash :: quote_body s'
    else if (c =? 8)%N then backslash :: 98%N :: quote_body s'
    else if (c =? 9)%N then backslash :: 116%N :: quote_body s'
    else if (c =? 10)%N then backslash :: 110%N :: quote_body s'
    else if (c =? 12)%N then backslash :: 102%N :: quote_body s'
    else if (c =? 13)%N then backslash :: 114%N :: quote_body s'
    else if (c <? 32)%N then u_escape c ++ quote_body s'
    else if is_high c then
      match s' with
      | d :: s'' =>
        if is_low d then c :: d :: quote_body s'' else u_escape c ++ quote_body s'
      | [] => u_escape c
      end
    else if is_low c then u_escape c ++ quote_body s'
    else c :: quote_body s'
  end.

Definition quote (s : jstr) : jstr := dquote :: quote_body s ++ [dquote].

Definition num_json (n : number) : jstr := if isFinite n then num_to_string n else "null".

Fixpoint stringify (v : json) : jstr :=
  match v with
  | JNull => "null"
  | JBool b => if b then "true" else "false"
  | JNum n => num_json n
  | JStr s => quote s
  | JArr l => "[" ++ join "," (map stringify l) ++ "]"
  | JObj o =>
    "{" ++ join "," (map (fun kv => quote (fst kv) ++ ":" ++ stringify (snd kv)) o) ++ "}"
  end.

(** [JSON.stringify(v, null, n)]: [ind] is the current indentation. *)
Fixpoint stringify_indent (n : nat) (ind : jstr) (v : json) : jstr :=
  let ind' := ind ++ repeat 32%N n in
  let block (l r : jstr) (parts : list jstr) :=
    match parts with
    | [] => l ++ r
    | _ => l ++ [lf] ++ ind' ++ join ("," ++ [lf] ++ ind') parts ++ [lf] ++ ind ++ r
    end in
  match v with
  | JArr l => block "[" "]" (map (stringify_indent n ind') l)
  | JObj o =>
    block "{" "}"
      (map (fun kv => quote (fst kv) ++ ": " ++ stringify_indent n ind' (snd kv)) o)
  | _ => stringify v
  end.

(** ** [JSON.parse] *)

Definition json_ws (c : N) : bool := ((c =? 32) || (c =? 10) || (c =? 13) || (c =? 9))%N.

Fixpoint skip_ws (s : jstr) : jstr :=
  match s with
  | c :: s' => if json_ws c then skip_ws s' else s
  | [] => []
  end.

Definition hex4 (a b c d : N) : option N :=
  match radix_digit a, radix_digit b, radix_digit c, radix_digit d with
  | Some x, Some y, Some z, Some w => Some (x * 4096 + y * 256 + z * 16 + w)%N
  | _, _, _, _ => None
  end.

Definition simple_escape (e : N) : option N :=
  if (e =? dquote)%N then Some dquote
  else if (e =? backslash)%N then Some backslash
  else if (e =? 47)%N then Some 47%N
  else if (e =? 98)%N then Some 8%N
  else if (e =? 102)%N then Some 12%N
  else if (e =? 110)%N then Some 10%N
  else if (e =? 114)%N then Some 13%N
  else if (e =? 116)%N then Some 9%N
  else None.

Definition push_unit (c : N) (r : option (jstr * jstr)) : option (jstr * jstr) :=
  match r with Some (t, rest) => Some (c :: t, rest) | None => None end.

(** The rest of a string literal, after its opening quote. *)
Fixpoint parse_string (s : jstr) : option (jstr * jstr) :=
  match s with
  | [] => None
  | c :: s' =>
    if (c =? dquote)%N then Some ([], s')
    else if (c =? backslash)%N then
      match s' with
      | e :: s1 =>
        if (e =? 117)%N then
          match s1 with
          | a :: b :: x :: d :: s2 =>
            match hex4 a b x d with
            | Some u => push_unit u (parse_string s2)
            | None => None
            end
          | _ => None
          end
        else match simple_escape e with
             | Some u => push_unit u (parse_string s1)
             | None => None
             end
      | [] => None
      end
    else if (c <? 32)%N then None
    else push_unit c (parse_string s')
  end.

Definition is_num_char (c : N) : bool :=
  is_digit c || (c =? 43)%N || (c =? 45)%N || (c =? 46)%N || is_e c.

(** The JSON grammar of a number: no leading zero, digits around the point. *)
Definition json_number_ok (tok : jstr) : bool :=
  let u := match tok with 45%N :: r => r | _ => tok end in
  let '(ip, r) := span is_digit u in
  let int_ok := match ip with
                | [] => false
                | [_] => true
                | c :: _ => negb (c =? 48)%N
                end in
  let '(frac_ok, r') := match r with
                        | 46%N :: q => let '(fp, q') := span is_digit q in
                                       (negb (length fp =? 0), q')
                        | _ => (true, r)
                        end in
  let exp_ok := match r' with
                | [] => true
                | c :: q =>
                  is_e c &&
                  let '(_, q') := opt_sign q in
                  let '(ds, q'') := span is_digit q' in
                  negb (length ds =? 0) && (length q'' =? 0)
                end in
  int_ok && frac_ok && exp_ok.

Definition json_number (tok : jstr) : option number :=
  if json_number_ok tok then
    match tok with
    | 45%N :: r => decimal_literal true r
    | _ => decimal_literal false tok
    end
  else None.

(** A number token runs up to the first unit no number contains; what the
    grammar allows after a number never is such a unit. *)
Definition parse_number (s : jstr) : option (json * jstr) :=
  let '(tok, rest) := span is_num_char s in
  match json_number tok with
  | Some n => Some (JNum n, rest)
  | None => None
  end.

Definition parse_atom (s : jstr) : option (json * jstr) :=
  match strip_prefix "null" s with
  | Some r => Some (JNull, r)
  | None =>
    match strip_prefix "true" s with
    | Some r => Some (JBool true, r)
    | None =>
      match strip_prefix "false" s with
      | Some r => Some (JBool false, r)
      | None => parse_number s
      end
    end
  end.

(** Skip white space and the unit [c]. *)
Definition expect (c : N) (s : jstr) : option jstr :=
  match skip_ws s with
  | d :: r => if (d =? c)%N then Some r else None
  | [] => None
  end.

(** [fuel] bounds the nesting and the number of elements read; twice the length of
    the text is always enough ([json_parse_fuel]).  [acc] holds the elements read so far, reversed. *)
Fixpoint parse_value (fuel : nat) (s : jstr) : option (json * jstr) :=
  match fuel with
  | 0 => None
  | S f =>
    match skip_ws s with
    | [] => None
    | c :: r =>
      if (c =? dquote)%N then
        match parse_string r with
        | Some (t, rest) => Some (JStr t, rest)
        | None => None
        end
      else if (c =? 91)%N then
        match expect 93 r with
        | Some rest => Some (JArr [], rest)
        | None => parse_elems f [] r
        end
      else if (c =? 123)%N then
        match expect 125 r with
        | Some rest => Some (JObj [], rest)
        | None => parse_members f [] r
        end
      else parse_atom (c :: r)
    end
  end
with parse_elems (fuel : nat) (acc : list json) (s : jstr) : option (json * jstr) :=
  match fuel with
  | 0 => None
  | S f =>
    match parse_value f s with
    | None => None
    | Some (v, r) =>
      match expect 44 r, expect 93 r with
      | Some r', _ => parse_elems f (v :: acc) r'
      | None, Some r' => Some (JArr (rev (v :: acc)), r')
      | None, None => None
      end
    end
  end
with parse_members (fuel : nat) (acc : list (jstr * json)) (s : jstr) : option (json * jstr) :=
  match fuel with
  | 0 => None
  | S f =>
    match expect dquote s with
    | None => None
    | Some r0 =>
      match parse_string r0 with
      | None => None
      | Some (k, r1) =>
        match expect 58 r1 with
        | None => None
        | Some r2 =>
          match parse_value f r2 with
          | None => None
          | Some (v, r3) =>
            match expect 44 r3, expect 125 r3 with
            | Some r4, _ => parse_members f ((k, v) :: acc) r4
            | None, Some r4 => Some (JObj (obj_of (rev ((k, v) :: acc))), r4)
            | None, None => None
            end
          end
        end
      end
    end
  end.

(** [JSON.parse(s)]; [None] is the thrown [SyntaxError]. *)
Definition json_parse (s : jstr) : option json :=
  match parse_value (2 * length s + 2) s with
  | Some (v, rest) => match skip_ws rest with [] => Some v | _ => None end
  | None => None
  end.

(** ** The fuel of the parser *)

Lemma skip_ws_length s : length (skip_ws s) <= length s.
Proof. induction s as [|c s IH]; cbn; [lia|]. destruct (json_ws c); cbn; lia. Qed.

Lemma expect_length c s r : expect c s = Some r -> length r < length s.
Proof.
  unfold expect. pose proof (skip_ws_length s) as H. destruct (skip_ws s) as [|d t]; [easy|].
  destruct (d =? c)%N; [|easy]. intros [= ->]. cbn in H. lia.
Qed.

Lemma push_unit_Some c r t rest :
  push_unit c r = Some (t, rest) -> exists t', r = Some (t', rest).
Proof. destruct r as [[t' rest']|]; [|easy]. intros [= _ ->]. now eexists. Qed.

Lemma parse_string_length s t rest : parse_string s = Some (t, rest) -> length rest < length s.
Proof.
  assert (H : forall n x u r, length x <= n -> parse_string x = Some (u, r) -> length r < length x).
  2: { now apply (H (length s)). }
  clear s t rest. induction n as [|n IH]; intros s t rest Hn.
  { destruct s; [easy|cbn in Hn; lia]. }
  assert (Hrec : forall x u r, length x < length s -> parse_string x = Some (u, r) -> length r < length x)
    by (intros x u r Hx Hr; apply (IH x u r); [lia|easy]).
  destruct s as [|c s]; [easy|]. cbn [parse_string]. cbn [length] in *.
  destruct (c =? dquote)%N; [intros [= _ <-]; lia|]. destruct (c =? backslash)%N.
  - destruct s as [|e s1]; [easy|]. cbn [length] in *. destruct (e =? 117)%N.
    + destruct s1 as [|a [|b [|x [|d s2]]]]; try easy. cbn [length] in *.
      destruct (hex4 a b x d); [|easy]. intros [t' H]%push_unit_Some.
      apply Hrec in H; lia.
    + destruct (simple_escape e); [|easy]. intros [t' H]%push_unit_Some.
      apply Hrec in H; lia.
  - destruct (c <? 32)%N; [easy|]. intros [t' H]%push_unit_Some.
    apply Hrec in H; lia.
Qed.

Lemma span_length {A} (f : A -> bool) l a b : span f l = (a, b) -> length l = length a + length b.
Proof.
  revert a b; induction l as [|x l IH]; cbn; intros a b; [now intros [= <- <-]|].
  destruct (f x); [|now intros [= <- <-]]. destruct (span f l) as [a' b'].
  intros [= <- <-]. cbn. now rewrite (IH a' b').
Qed.

Lemma parse_atom_length s v rest : parse_atom s = Some (v, rest) -> length rest < length s.
Proof.
  assert (Hp : forall p r, p <> [] -> strip_prefix p s = Some r -> length r < length s).
  { intros p r Hp ->%strip_prefix_Some. rewrite length_app. destruct p; [easy|]. cbn. lia. }
  unfold parse_atom.
  destruct (strip_prefix "null" s) eqn:E1; [intros [= _ <-]; now apply (Hp "null")|].
  destruct (strip_prefix "true" s) eqn:E2; [intros [= _ <-]; now apply (Hp "true")|].
  destruct (strip_prefix "false" s) eqn:E3; [intros [= _ <-]; now apply (Hp "false")|].
  unfold parse_number. destruct (span is_num_char s) as [tok r] eqn:E.
  destruct (json_number tok) as [n|] eqn:En; [|easy]. intros [= _ <-].
  apply span_length in E. destruct tok; [easy|]. cbn in E. lia.
Qed.

(** What is read is shorter than the text. *)
Lemma parse_length f :
  (forall s v r, parse_value f s = Some (v, r) -> length r < length s)
  /\ (forall acc s v r, parse_elems f acc s = Some (v, r) -> length r < length s)
  /\ (forall acc s v r, parse_members f acc s = Some (v, r) -> length r < length s).
Proof.
  induction f as [|f (IHv & IHe & IHm)]; [easy|]. split; [|split].
  - intros s v r. cbn [parse_value]. pose proof (skip_ws_length s) as Hs.
    destruct (skip_ws s) as [|c t]; [easy|]. cbn [length] in Hs. destruct (c =? dquote)%N.
    { destruct (parse_string t) as [[u rest]|] eqn:E; [|easy]. intros [= _ <-].
      apply parse_string_length in E. lia. }
    destruct (c =? 91)%N.
    { destruct (expect 93 t) eqn:E; [intros [= _ <-]; apply expect_length in E; lia|].
      intros H%IHe. lia. }
    destruct (c =? 123)%N.
    { destruct (expect 125 t) eqn:E; [intros [= _ <-]; apply expect_length in E; lia|].
      intros H%IHm. lia. }
    intros H%parse_atom_length. cbn in H. lia.
  - intros acc s v r. cbn [parse_elems]. destruct (parse_value f s) as [[x r1]|] eqn:E; [|easy].
    apply IHv in E. destruct (expect 44 r1) as [r2|] eqn:E1.
    + intros H%IHe. apply expect_length in E1. lia.
    + destruct (expect 93 r1) eqn:E2; [|easy]. intros [= _ <-]. apply expect_length in E2. lia.
  - intros acc s v r. cbn [parse_members]. destruct (expect dquote s) as [r0|] eqn:E0; [|easy].
    apply expect_length in E0. destruct (parse_string r0) as [[k r1]|] eqn:E1; [|easy].
    apply parse_string_length in E1. destruct (expect 58 r1) as [r2|] eqn:E2; [|easy].
    apply expect_length in E2. destruct (parse_value f r2) as [[x r3]|] eqn:E3; [|easy].
    apply IHv in E3. destruct (expect 44 r3) as [r4|] eqn:E4.
    + intros H%IHm. apply expect_length in E4. lia.
    + destruct (expect 125 r3) eqn:E5; [|easy]. intros [= _ <-]. apply expect_length in E5. lia.
Qed.

(** More fuel than twice the length of the text changes nothing. *)
Lemma parse_fuel f :
  (forall s g, 2 * length s < f -> f <= g -> parse_value g s = parse_value f s)
  /\ (forall acc s g, 2 * length s + 1 < f -> f <= g -> parse_elems g acc s = parse_elems f acc s)
  /\ (forall acc s g, 2 * length s + 1 < f -> f <= g -> parse_members g acc s = parse_members f acc s).
Proof.
  induction f as [|f (IHv & IHe & IHm)]; [repeat split; lia|]. split; [|split].
  - intros s [|g] Hs Hg; [lia|]. cbn [parse_value]. pose proof (skip_ws_length s) as Hw.
    destruct (skip_ws s) as [|c t]; [easy|]. cbn [length] in Hw.
    destruct (c =? dquote)%N; [easy|]. destruct (c =? 91)%N.
    { destruct (expect 93 t); [easy|]. apply IHe; lia. }
    destruct (c =? 123)%N; [|easy]. destruct (expect 125 t); [easy|]. apply IHm; lia.
  - intros acc s [|g] Hs Hg; [lia|]. cbn [parse_elems]. rewrite (IHv s g) by lia.
    destruct (parse_value f s) as [[x r1]|] eqn:E; [|easy]. apply (proj1 (parse_length f)) in E.
    destruct (expect 44 r1) as [r2|] eqn:E1; [|easy]. apply expect_length in E1. apply IHe; lia.
  - intros acc s [|g] Hs Hg; [lia|]. cbn [parse_members].
    destruct (expect dquote s) as [r0|] eqn:E0; [|easy]. apply expect_length in E0.
    destruct (parse_string r0) as [[k r1]|] eqn:E1; [|easy]. apply parse_string_length in E1.
    destruct (expect 58 r1) as [r2|] eqn:E2; [|easy]. apply expect_length in E2.
    rewrite (IHv r2 g) by lia. destruct (parse_value f r2) as [[x r3]|] eqn:E3; [|easy].
    apply (proj1 (parse_length f)) in E3. destruct (expect 44 r3) as [r4|] eqn:E4; [|easy].
    apply expect_length in E4. apply IHm; lia.
Qed.

(** The fuel of [json_parse] is enough: any larger one reads the same, so that [None]
    is always a syntax error. *)
Lemma json_parse_fuel s g :
  2 * length s + 2 <= g -> parse_value g s = parse_value (2 * length s + 2) s.
Proof. intros H. apply (parse_fuel (2 * length s + 2)); lia. Qed.

(** ** Round trip *)

(** The code units are 16-bit. *)
Definition wf_str (s : jstr) : Prop := Forall (fun c => (c < 65536)%N) s.

Lemma radix_hex d : (d < 16)%N -> radix_digit (hex_digit d) = Some d.
Proof.
  intros H. unfold hex_digit, radix_digit, is_digit.
  destruct (N.ltb_spec d 10); ncases; f_equal; lia.
Qed.

Lemma hex4_escape c :
  (c < 65536)%N ->
  hex4 (hex_digit (c / 4096)) (hex_digit (c / 256 mod 16))
       (hex_digit (c / 16 mod 16)) (hex_digit (c mod 16)) = Some c.
Proof.
  intros H. unfold hex4. rewrite !radix_hex; try now apply N.mod_lt.
  2: { apply N.Div0.div_lt_upper_bound. lia. }
  f_equal. replace 4096%N with (16 * (16 * 16))%N by easy. replace 256%N with (16 * 16)%N by easy.
  rewrite <- !N.Div0.div_div.
  pose proof (N.div_mod' c 16). pose proof (N.div_mod' (c / 16) 16).
  pose proof (N.div_mod' (c / 16 / 16) 16). lia.
Qed.

Lemma parse_u_escape c s :
  (c < 65536)%N -> parse_string (u_escape c ++ s) = push_unit c (parse_string s).
Proof. intros H. cbn -[hex4 N.div N.modulo]. now rewrite hex4_escape. Qed.

Lemma parse_plain c s :
  (c =? dquote)%N = false -> (c =? backslash)%N = false -> (c <? 32)%N = false ->
  parse_string (c :: s) = push_unit c (parse_string s).
Proof. cbn. now intros -> -> ->. Qed.

Lemma parse_quote_body s rest :
  wf_str s -> parse_string (quote_body s ++ dquote :: rest) = Some (s, rest).
Proof.
  remember (length s) as n eqn:En. assert (Hn : length s <= n) by lia. clear En.
  revert s Hn; induction n as [|n IH]; intros s Hn Hs.
  { destruct s; [easy | cbn in Hn; lia]. }
  destruct s as [|c s]; [easy|]. cbn in Hn. apply Forall_cons_1 in Hs as [Hc Hs].
  assert (Hrec : forall t, length t <= n -> wf_str t ->
            parse_string (quote_body t ++ dquote :: rest) = Some (t, rest)) by auto.
  cbn [quote_body].
  destruct (N.eqb_spec c dquote) as [->|N1]; [cbn; now rewrite Hrec by (easy || lia)|].
  destruct (N.eqb_spec c backslash) as [->|N2]; [cbn; now rewrite Hrec by (easy || lia)|].
  destruct (N.eqb_spec c 8) as [->|N3]; [cbn; now rewrite Hrec by (easy || lia)|].
  destruct (N.eqb_spec c 9) as [->|N4]; [cbn; now rewrite Hrec by (easy || lia)|].
  destruct (N.eqb_spec c 10) as [->|N5]; [cbn; now rewrite Hrec by (easy || lia)|].
  destruct (N.eqb_spec c 12) as [->|N6]; [cbn; now rewrite Hrec by (easy || lia)|].
  destruct (N.eqb_spec c 13) as [->|N7]; [cbn; now rewrite Hrec by (easy || lia)|].
  assert (Hesc : parse_string ((u_escape c ++ quote_body s) ++ dquote :: rest) = Some (c :: s, rest)).
  { rewrite <- app_assoc, parse_u_escape by easy. now rewrite Hrec by (easy || lia). }
  assert (Hplain : (c <? 32)%N = false -> forall t u, parse_string (t ++ dquote :: rest) = Some (u, rest) ->
            parse_string ((c :: t) ++ dquote :: rest) = Some (c :: u, rest)).
  { intros H32 t u Ht. cbn [app]. rewrite parse_plain; [now rewrite Ht| | |easy];
      now apply N.eqb_neq. }
  destruct (c <? 32)%N eqn:E32; [easy|].
  destruct (is_high c) eqn:Eh.
  - destruct s as [|d s]; [rewrite app_nil_r in Hesc; exact Hesc|].
    destruct (is_low d) eqn:El; [|exact Hesc].
    apply Forall_cons_1 in Hs as [Hd Hs]. cbn in Hn.
    change (c :: d :: quote_body s) with (c :: (d :: quote_body s)).
    apply Hplain; [easy|]. cbn [app]. unfold is_low in El. apply andb_true_iff in El as [El%N.leb_le _].
    rewrite parse_plain; [now rewrite Hrec by (easy || lia)|..].
    + apply N.eqb_neq. lia.
    + apply N.eqb_neq. lia.
    + apply N.ltb_ge. lia.
  - destruct (is_low c); [exact Hesc|]. apply Hplain; [easy|]. apply Hrec; [lia|easy].
Qed.

(** Numbers whose printed form reads back as themselves ([-0] does not: it is
    printed as [0]). *)
Definition num_ok (n : number) : Prop :=
  isFinite n = true /\ json_number (num_to_string n) = Some n
  /\ Forall (fun c => is_num_char c = true) (num_to_string n) /\ num_to_string n <> [].

Fixpoint wf_json (v : json) : Prop :=
  match v with
  | JNull | JBool _ => True
  | JNum n => num_ok n
  | JStr s => wf_str s
  | JArr l => fold_right (fun x acc => wf_json x /\ acc) True l
  | JObj o =>
    keys_ordered (map fst o) = true
    /\ fold_right (fun kv acc => (wf_str (fst kv) /\ wf_json (snd kv)) /\ acc) True o
  end.

(** What may follow a value in a document. *)
Definition num_stop (s : jstr) : Prop :=
  match s with [] => True | c :: _ => is_num_char c = false end.

Lemma span_app {B} (f : B -> bool) w s :
  Forall (fun x => f x = true) w -> match s with [] => True | x :: _ => f x = false end ->
  span f (w ++ s) = (w, s).
Proof.
  intros Hw Hs. induction Hw as [|x w Hx _ IH]; cbn.
  - destruct s; cbn; [easy|]. now rewrite Hs.
  - now rewrite Hx, IH.
Qed.

Lemma num_char_range c : is_num_char c = true -> (43 <= c <= 101)%N /\ c <> 91%N /\ c <> 93%N.
Proof.
  unfold is_num_char, is_digit, is_e. repeat (rewrite orb_true_iff || rewrite andb_true_iff).
  rewrite !N.leb_le, !N.eqb_eq. lia.
Qed.

Lemma parse_number_ok n rest :
  num_ok n -> num_stop rest -> parse_number (num_to_string n ++ rest) = Some (JNum n, rest).
Proof.
  intros (_ & Hj & Hc & _) Hr. unfold parse_number.
  rewrite span_app by (auto; now destruct rest). now rewrite Hj.
Qed.

(** White space between the tokens. *)
Definition blank (w : jstr) : Prop := Forall (fun c => json_ws c = true) w.

Lemma skip_blank w s : blank w -> skip_ws (w ++ s) = skip_ws s.
Proof. induction 1 as [|c w Hc _ IH]; [easy|]. cbn. now rewrite Hc. Qed.

Lemma expect_blank w c s : blank w -> expect c (w ++ s) = expect c s.
Proof. intros H. unfold expect. now rewrite skip_blank. Qed.

Lemma parse_value_blank w fuel s : blank w -> parse_value fuel (w ++ s) = parse_value fuel s.
Proof. intros H. destruct fuel as [|f]; [easy|]. cbn [parse_value]. now rewrite skip_blank. Qed.

Lemma parse_elems_blank w fuel acc s : blank w -> parse_elems fuel acc (w ++ s) = parse_elems fuel acc s.
Proof. intros H. destruct fuel as [|f]; [easy|]. cbn [parse_elems]. now rewrite parse_value_blank. Qed.

Lemma parse_members_blank w fuel acc s :
  blank w -> parse_members fuel acc (w ++ s) = parse_members fuel acc s.
Proof. intros H. destruct fuel as [|f]; [easy|]. cbn [parse_members]. now rewrite expect_blank. Qed.

Lemma expect_here c s : json_ws c = false -> expect c (c :: s) = Some s.
Proof. intros H. unfold expect. cbn. now rewrite H, N.eqb_refl. Qed.

Lemma expect_other c d s : json_ws d = false -> d <> c -> expect c (d :: s) = None.
Proof.
  intros H Hne. unfold expect. cbn. rewrite H. now apply N.eqb_neq in Hne as ->.
Qed.

Lemma num_stop_blank w c s : blank w -> is_num_char c = false -> num_stop (w ++ c :: s).
Proof.
  intros [|d w' Hd _] Hc; [easy|]. cbn. unfold json_ws, is_num_char, is_digit, is_e in *.
  revert Hd. ncases; easy.
Qed.

(** The text [t] is read as the value [v], whatever follows. *)
Definition reads_as (t : jstr) (v : json) : Prop :=
  forall fuel rest, 2 * length t < fuel -> num_stop rest ->
    parse_value fuel (t ++ rest) = Some (v, rest).

(** How the text of a value starts. *)
Definition head_ok (t : jstr) : Prop :=
  exists c r, t = c :: r /\ json_ws c = false /\ c <> 93%N.

Lemma reads_num n : num_ok n -> reads_as (num_json n) (JNum n) /\ head_ok (num_json n).
Proof.
  intros Hok. pose proof Hok as (Hfin & _ & Hc & Hne). unfold num_json. rewrite Hfin.
  assert (Hp : forall rest, num_stop rest ->
            parse_number (num_to_string n ++ rest) = Some (JNum n, rest))
    by (intros; now apply parse_number_ok).
  destruct (num_to_string n) as [|c t]; [easy|]. cbn [app] in *.
  apply Forall_cons_1 in Hc as [[Hc Hc']%num_char_range _].
  assert (Hws : json_ws c = false) by (unfold json_ws; ncases).
  split; [|now exists c, t]. intros [|f] rest Hf Hr; [lia|].
  cbn [app parse_value skip_ws]. rewrite Hws.
  assert (E1 : (c =? dquote)%N = false) by (apply N.eqb_neq; lia).
  assert (E2 : (c =? 91)%N = false) by (apply N.eqb_neq; lia).
  assert (E3 : (c =? 123)%N = false) by (apply N.eqb_neq; lia).
  rewrite E1, E2, E3. unfold parse_atom. cbn [strip_prefix].
  assert (E4 : (110 =? c)%N = false) by (apply N.eqb_neq; lia).
  assert (E5 : (116 =? c)%N = false) by (apply N.eqb_neq; lia).
  assert (E6 : (102 =? c)%N = false) by (apply N.eqb_neq; lia).
  rewrite E4, E5, E6. now apply Hp.
Qed.

Lemma reads_str s : wf_str s -> reads_as (quote s) (JStr s) /\ head_ok (quote s).
Proof.
  intros H. split; [|now eexists _, _]. intros [|f] rest Hf _; [lia|]. unfold quote.
  cbn [app parse_value skip_ws json_ws]. rewrite <- app_assoc. cbn -[parse_string].
  now rewrite parse_quote_body.
Qed.

Lemma parse_elems_ok w w2 ts l :
  blank w -> blank w2 -> Forall2 reads_as ts l -> l <> [] ->
  forall fuel acc rest, 2 * length (join (44%N :: w) ts) + 2 <= fuel ->
    parse_elems fuel acc (join (44%N :: w) ts ++ w2 ++ 93%N :: rest)
    = Some (JArr (rev acc ++ l), rest).
Proof.
  intros Hw Hw2. induction 1 as [|t x ts l Ht Hts IH]; intros Hne fuel acc rest Hf; [easy|].
  destruct fuel as [|f]; [lia|]. destruct Hts as [|t' x' ts l Ht' Hts].
  - cbn [join parse_elems] in *. rewrite Ht by (lia || now apply num_stop_blank).
    rewrite !expect_blank by easy. now rewrite expect_other, expect_here by easy.
  - rewrite join_cons in * by easy. rewrite !length_app in Hf. cbn [length] in Hf.
    rewrite <- app_assoc. cbn [app parse_elems]. rewrite Ht by (easy || lia).
    rewrite expect_here by easy. rewrite <- app_assoc, parse_elems_blank by easy.
    rewrite IH by (easy || lia). cbn [rev]. now rewrite <- app_assoc.
Qed.

Lemma reads_arr w w2 ts l :
  blank w -> blank w2 -> Forall2 reads_as ts l -> Forall head_ok ts -> l <> [] ->
  reads_as (91%N :: w ++ join (44%N :: w) ts ++ w2 ++ "]") (JArr l).
Proof.
  intros Hw Hw2 Ht Hh Hne [|f] rest Hf Hr; [lia|].
  cbn [app parse_value skip_ws json_ws]. cbn -[parse_elems expect].
  rewrite <- !app_assoc. rewrite expect_blank, parse_elems_blank by easy.
  assert (He : expect 93 (join (44%N :: w) ts ++ w2 ++ "]" ++ rest) = None).
  { destruct Hh as [|t ts (c & r & -> & Hws & H93) _]; [now inversion Ht; subst|].
    destruct ts; [now apply expect_other|]. rewrite join_cons by easy. now apply expect_other. }
  rewrite He. apply (parse_elems_ok w w2 ts l Hw Hw2 Ht Hne f []).
  cbn [length] in Hf. rewrite !length_app in Hf. cbn [length] in Hf. lia.
Qed.

Definition member_text (w : jstr) (kt : jstr * jstr) : jstr :=
  quote (fst kt) ++ 58%N :: w ++ snd kt.

Lemma parse_quoted k rest : wf_str k -> expect dquote (quote k ++ rest) = Some (quote_body k ++ dquote :: rest).
Proof.
  intros H. unfold quote. cbn [app]. rewrite <- app_assoc. now apply expect_here.
Qed.

(** A member as printed and as read. *)
Definition member_reads (kt : jstr * jstr) (kv : jstr * json) : Prop :=
  fst kt = fst kv /\ wf_str (fst kv) /\ reads_as (snd kt) (snd kv).

Lemma parse_members_ok w w2 w3 kts o :
  blank w -> blank w2 -> blank w3 -> Forall2 member_reads kts o -> o <> [] ->
  forall fuel acc rest, 2 * length (join (44%N :: w) (map (member_text w3) kts)) + 2 <= fuel ->
    parse_members fuel acc (join (44%N :: w) (map (member_text w3) kts) ++ w2 ++ 125%N :: rest)
    = Some (JObj (obj_of (rev acc ++ o)), rest).
Proof.
  intros Hw Hw2 Hw3. induction 1 as [|[k t] [k' v] kts o (Ek & Hk & Hv) Ho IH];
    intros Hne fuel acc rest Hf; [easy|].
  cbn [fst snd] in *. subst k'. destruct fuel as [|f]; [lia|].
  assert (Hm : forall tail, num_stop tail -> 2 * length t < f ->
    parse_members (S f) acc (member_text w3 (k, t) ++ tail)
    = match expect 44 tail, expect 125 tail with
      | Some r4, _ => parse_members f ((k, v) :: acc) r4
      | None, Some r4 => Some (JObj (obj_of (rev ((k, v) :: acc))), r4)
      | None, None => None
      end).
  { intros tail Hs Hl. unfold member_text. cbn [fst snd parse_members]. rewrite <- app_assoc.
    rewrite parse_quoted, parse_quote_body by easy. cbn [app].
    rewrite expect_here, <- app_assoc, parse_value_blank, Hv by easy. easy. }
  destruct Ho as [|[k1 t1] [k2 v2] kts o Hkv Ho].
  - cbn [map join] in *. unfold member_text in Hf. cbn [fst snd] in Hf.
    rewrite !length_app in Hf. cbn [length] in Hf. rewrite length_app in Hf.
    rewrite Hm by (lia || now apply num_stop_blank).
    rewrite !expect_blank by easy. now rewrite expect_other, expect_here by easy.
  - change (map (member_text w3) ((k, t) :: (k1, t1) :: kts))
      with (member_text w3 (k, t) :: map (member_text w3) ((k1, t1) :: kts)) in *.
    rewrite join_cons in * by easy. rewrite !length_app in Hf.
    unfold member_text at 1 in Hf. cbn [fst snd] in Hf. rewrite length_app in Hf.
    cbn [length] in Hf. rewrite length_app in Hf.
    rewrite <- app_assoc. cbn [app]. rewrite Hm by (easy || lia).
    rewrite expect_here, <- app_assoc, parse_members_blank by easy.
    rewrite IH by (easy || lia). cbn [rev]. now rewrite <- app_assoc.
Qed.

Lemma reads_obj w w2 w3 kts o :
  blank w -> blank w2 -> blank w3 -> Forall2 member_reads kts o -> o <> [] ->
  keys_ordered (map fst o) = true ->
  reads_as (123%N :: w ++ join (44%N :: w) (map (member_text w3) kts) ++ w2 ++ "}") (JObj o).
Proof.
  intros Hw Hw2 Hw3 Ht Hne Ho [|f] rest Hf Hr; [lia|].
  cbn [app parse_value skip_ws json_ws]. cbn -[parse_members expect].
  rewrite <- !app_assoc. rewrite expect_blank, parse_members_blank by easy.
  assert (He : expect 125 (join (44%N :: w) (map (member_text w3) kts) ++ w2 ++ "}" ++ rest) = None).
  { destruct Ht as [|[k t] kv kts o _ _]; [easy|]. cbn [map].
    destruct kts; [now apply expect_other|]. cbn [map]. rewrite join_cons by easy. now apply expect_other. }
  rewrite He. rewrite <- (obj_of_ordered o Ho).
  apply (parse_members_ok w w2 w3 kts o Hw Hw2 Hw3 Ht Hne f []).
  cbn [length] in Hf. rewrite !length_app in Hf. cbn [length] in Hf. lia.
Qed.

Lemma fold_wf_Forall {B} (P : B -> Prop) l :
  fold_right (fun x acc => P x /\ acc) True l <-> Forall P l.
Proof.
  induction l as [|x l IH]; cbn; [easy|]. rewrite IH, Forall_cons_iff. easy.
Qed.

(** A printer whose texts are read back, on the parts of a value. *)
Lemma parts_read (pr : json -> jstr) (P : json -> Prop) l :
  Forall (fun v => P v -> reads_as (pr v) v /\ head_ok (pr v)) l -> Forall P l ->
  Forall2 reads_as (map pr l) l /\ Forall head_ok (map pr l).
Proof.
  induction 1 as [|v l Hv _ IH]; [split; constructor|].
  intros [HP [IH1 IH2]%IH]%Forall_cons_1. destruct (Hv HP). split; constructor; easy.
Qed.

Lemma members_read (pr : json -> jstr) o :
  Forall (fun kv => wf_json (snd kv) -> reads_as (pr (snd kv)) (snd kv) /\ head_ok (pr (snd kv))) o ->
  Forall (fun kv => wf_str (fst kv) /\ wf_json (snd kv)) o ->
  Forall2 member_reads (map (fun kv => (fst kv, pr (snd kv))) o) o.
Proof.
  induction 1 as [|kv o Hv _ IH]; [constructor|].
  intros [[Hk Hw] Ho%IH]%Forall_cons_1. constructor; [|easy]. split; [easy|]. split; [easy|].
  now apply Hv.
Qed.

Lemma stringify_reads v : wf_json v -> reads_as (stringify v) v /\ head_ok (stringify v).
Proof.
  induction v as [|b|n|s|l IH|o IH] using json_ind; intros Hwf.
  - split; [intros [|f] rest Hf _; [lia|easy]|now eexists _, _].
  - split; [|destruct b; now eexists _, _]. intros [|f] rest Hf _; [lia|]. now destruct b.
  - now apply reads_num.
  - now apply reads_str.
  - split; [|now eexists _, _]. apply fold_wf_Forall in Hwf. cbn [stringify].
    destruct (parts_read stringify wf_json l IH Hwf) as [H1 H2].
    destruct l as [|x l]; [intros [|f] rest Hf _; [lia|easy]|].
    apply (reads_arr [] []); easy || constructor.
  - split; [|now eexists _, _]. destruct Hwf as [Hk Hwf%fold_wf_Forall]. cbn [stringify].
    pose proof (members_read stringify o IH Hwf) as H.
    destruct o as [|kv o]; [intros [|f] rest Hf _; [lia|easy]|].
    pose proof (reads_obj [] [] [] _ _ ltac:(constructor) ltac:(constructor) ltac:(constructor) H
                  ltac:(easy) Hk) as R.
    rewrite map_map in R. exact R.
Qed.

Lemma blank_indent ind n : blank ind -> blank (lf :: ind ++ repeat 32%N n).
Proof.
  intros H. constructor; [easy|]. apply Forall_app. split; [easy|].
  now induction n; constructor.
Qed.

(** The indented printer is read back too. *)
Lemma stringify_indent_reads n v : wf_json v -> forall ind, blank ind ->
  reads_as (stringify_indent n ind v) v /\ head_ok (stringify_indent n ind v).
Proof.
  induction v as [|b|m|s|l IH|o IH] using json_ind; intros Hwf ind Hind;
    try (now apply stringify_reads).
  - apply fold_wf_Forall in Hwf. cbn [stringify_indent].
    assert (Hind' : blank (ind ++ repeat 32%N n)) by now apply (blank_indent ind n) in Hind; inversion Hind.
    destruct (parts_read (stringify_indent n (ind ++ repeat 32%N n)) wf_json l) as [H1 H2];
      [|easy|]; [apply (Forall_impl _ _ _ IH); auto|].
    destruct l as [|x l]; [split; [intros [|f] rest Hf _; [lia|easy]|now eexists _, _]|].
    split; [|now eexists _, _].
    pose proof (reads_arr (lf :: ind ++ repeat 32%N n) (lf :: ind) _ _ ltac:(now apply blank_indent)
                  ltac:(now constructor) H1 H2 ltac:(easy)) as R.
    cbn [map app] in *. rewrite <- !app_assoc in *. exact R.
  - destruct Hwf as [Hk Hwf%fold_wf_Forall]. cbn [stringify_indent].
    assert (Hind' : blank (ind ++ repeat 32%N n)) by now apply (blank_indent ind n) in Hind; inversion Hind.
    pose proof (members_read (stringify_indent n (ind ++ repeat 32%N n)) o) as H.
    assert (H' := H ltac:(apply (Forall_impl _ _ _ IH); auto) Hwf). clear H.
    destruct o as [|kv o]; [split; [intros [|f] rest Hf _; [lia|easy]|now eexists _, _]|].
    split; [|now eexists _, _].
    pose proof (reads_obj (lf :: ind ++ repeat 32%N n) (lf :: ind) " " _ _ ltac:(now apply blank_indent)
                  ltac:(now constructor) ltac:(now repeat constructor) H' ltac:(easy) Hk) as R.
    rewrite map_map in R. cbn [map app] in *. rewrite <- !app_assoc in *. exact R.
Qed.

Lemma parse_read t v : reads_as t v -> json_parse t = Some v.
Proof.
  intros H. unfold json_parse. rewrite <- (app_nil_r t) at 2.
  rewrite H; cbn; [easy|lia|easy].
Qed.

(** Parsing what was stringified gives the value back. *)
Lemma json_parse_stringify v : wf_json v -> json_parse (stringify v) = Some v.
Proof. intros H. now apply parse_read, stringify_reads. Qed.

Lemma json_parse_indent n v : wf_json v -> json_parse (stringify_indent n [] v) = Some v.
Proof. intros H. apply parse_read, stringify_indent_reads; [easy|constructor]. Qed.

(** The two layouts of [JSON.stringify] are formats of the same reader. *)
(** The objects among the well-formed values. *)
Definition wf_obj (o : list (jstr * json)) : Prop :=
  keys_ordered (map fst o) = true /\ Forall (fun kv => wf_str (fst kv) /\ wf_json (snd kv)) o.

Lemma wf_json_obj o : wf_json (JObj o) <-> wf_obj o.
Proof. unfold wf_obj. cbn. now rewrite (fold_wf_Forall (fun kv => wf_str (fst kv) /\ wf_json (snd kv))). Qed.

Lemma wf_obj_set k v o : wf_obj o -> wf_str k -> wf_json v -> wf_obj (obj_set k v o).
Proof.
  intros [Ho Hf] Hk Hv. split; [now apply keys_ordered_set|]. apply List.Forall_forall. intros kv H.
  apply obj_set_In in H as [-> | H]; [easy|]. now apply (proj1 (List.Forall_forall _ _) Hf).
Qed.

Lemma wf_obj_delete k o : wf_obj o -> wf_obj (obj_delete k o).
Proof.
  intros [Ho Hf]. split; [rewrite obj_delete_keys; now apply keys_ordered_filter|].
  apply List.Forall_forall. intros kv [H _]%filter_In. now apply (proj1 (List.Forall_forall _ _) Hf).
Qed.

#[export] Instance stringify_format : Format stringify json_parse wf_json.
Proof. exact json_parse_stringify. Qed.

#[export] Instance indent_format n : Format (stringify_indent n []) json_parse wf_json.
Proof. exact (json_parse_indent n). Qed.

#[export] Hint Resolve json_parse_stringify parse_quote_body : js.
#[export] Hint Rewrite @obj_get_set : js_rw.
