(* ===== verification/IntText.v ===== *)
(** * Integers as decimal text

    [String(n)] of an integer below [10^15] is its decimal digits, and [parseInt(s, 10)] and
    the readings of JSON and of [Number] give it back: the keys of amounts, the numbers of a
    query key and the counts of a text are what they stand for. *)

From Stdlib Require Import Reals Lra.
From S2P Require Import Prelude Number Rounding Json.
From stdpp Require Import options.
Local Open Scope Z_scope.

(** [parseInt(s, 10)] *)
Definition parseInt (s : jstr) : number :=
  let '(neg, u) := opt_sign (trimStart s) in
  match fst (span is_digit u) with [] => NaN | ds => of_decimal neg (undigits ds) 0 end.

(** ** Digits *)

Lemma canonical_app_digit ds c : canonical ds -> (0 < undigits ds)%N -> is_digit c = true -> canonical (ds ++ [c]).
Proof.
  intros [H1 H2] Hp Hc. split; [apply Forall_app; split; [easy|by constructor]|]. destruct ds as [|d r]; [easy|].
  cbn. left. destruct H2 as [|H2]; [easy|]. subst r. intros ->. by vm_compute in Hp.
Qed.

Lemma digits_go_canonical f : forall n acc, (n < 10 ^ N.of_nat f)%N ->
  exists ds, digits_go (S f) n acc = ds ++ acc /\ undigits ds = n /\ canonical ds.
Proof.
  induction f as [|f IH]; intros n acc Hn.
  - assert (n = 0)%N as -> by (cbn in Hn; lia). exists [48%N]. split; [easy|]. split; [easy|]. split; [by repeat constructor|by right].
  - remember (S f) as f1. cbn [digits_go]. assert (is_digit (48 + n mod 10)%N = true) as Hd.
    { apply is_digit_iff. assert (n mod 10 < 10)%N as H by (by apply N.mod_lt). revert H. generalize (n mod 10)%N. lia. }
    destruct (N.ltb_spec n 10) as [Hlt|Hge].
    + exists [(48 + n mod 10)%N]. rewrite N.mod_small in * by easy. split; [easy|].
      split; [unfold undigits; cbn [fold_left]; lia|]. split; [by constructor|by right].
    + subst f1. rewrite Nat2N.inj_succ, N.pow_succ_r' in Hn.
      destruct (IH (n / 10)%N ((48 + n mod 10)%N :: acc)) as (ds & E & Ev & Hc); [apply N.Div0.div_lt_upper_bound; lia|].
      exists (ds ++ [(48 + n mod 10)%N]). rewrite E, <- app_assoc. split; [easy|]. split.
      * rewrite undigits_snoc, Ev. pose proof (N.div_mod' n 10) as H. revert H. generalize (n mod 10)%N (n / 10)%N. lia.
      * apply canonical_app_digit; [easy| |easy]. rewrite Ev. apply N.div_str_pos. lia.
Qed.

Lemma digits_canonical n : canonical (digits n).
Proof.
  unfold digits. destruct (digits_go_canonical (N.size_nat n) n [] (size_nat_bound n)) as (ds & E & _ & H).
  by rewrite E, app_nil_r.
Qed.

Lemma digits_unique s n : canonical s -> undigits s = n -> digits n = s.
Proof. intros Hs E. apply undigits_inj; [apply digits_canonical|easy|]. by rewrite undigits_digits. Qed.

Lemma undigits_bounds ds : canonical ds -> (0 < undigits ds)%N ->
  10 ^ (Z.of_nat (length ds) - 1) <= Z.of_N (undigits ds) < 10 ^ Z.of_nat (length ds).
Proof.
  induction ds as [|c ds IH] using rev_ind; intros Hs Hp; [easy|]. apply canonical_snoc in Hs as [Hc Hs].
  rewrite undigits_snoc in *. rewrite length_app. cbn [length]. destruct Hs as [->|[Hs Hd]].
  - change (undigits []) with 0%N in *. cbn. lia.
  - destruct (IH Hs Hd) as [A B]. replace (Z.of_nat (length ds + 1) - 1) with (Z.succ (Z.of_nat (length ds) - 1)) by lia.
    replace (Z.of_nat (length ds + 1)) with (Z.succ (Z.of_nat (length ds))) by lia.
    assert (0 < Z.of_nat (length ds)) by (destruct ds; [by destruct Hs|cbn; lia]). rewrite !Z.pow_succ_r by lia. lia.
Qed.

Lemma digits_length n k : 0 < k -> 10 ^ (k - 1) <= Z.of_N n < 10 ^ k -> Z.of_nat (length (digits n)) = k.
Proof.
  intros Hk Hn. assert (0 < 10 ^ (k - 1)) by (apply Z.pow_pos_nonneg; lia).
  destruct (undigits_bounds (digits n) (digits_canonical n)) as [A B]; rewrite undigits_digits in *; [lia|].
  assert (0 < Z.of_nat (length (digits n))) as Hl by (destruct (digits n) eqn:E; [by apply digits_nonempty in E|cbn; lia]).
  apply Z.le_antisymm; apply Z.lt_succ_r, (Z.pow_lt_mono_r_iff 10); try lia.
  - replace (Z.succ k) with (Z.succ (Z.succ (k - 1))) by lia. apply (Z.le_lt_trans _ (10 * 10 ^ (Z.of_nat (length (digits n)) - 1))).
    + rewrite <- Z.pow_succ_r by lia. replace (Z.succ (Z.of_nat (length (digits n)) - 1)) with (Z.of_nat (length (digits n))) by lia. lia.
    + rewrite !Z.pow_succ_r by lia. replace k with (Z.succ (k - 1)) in Hn by lia. rewrite Z.pow_succ_r in Hn by lia. lia.
  - replace (Z.succ (Z.of_nat (length (digits n)))) with (1 + Z.of_nat (length (digits n))) by lia. rewrite Z.pow_add_r by lia.
    replace k with (1 + (k - 1)) by lia. rewrite Z.pow_add_r by lia. lia.
Qed.

Lemma undigits_zeros ds j : undigits (ds ++ repeat 48%N j) = (undigits ds * 10 ^ N.of_nat j)%N.
Proof.
  induction j as [|j IH]; [cbn; rewrite app_nil_r; lia|]. cbn [repeat]. rewrite repeat_cons, app_assoc, undigits_snoc, IH.
  rewrite Nat2N.inj_succ, N.pow_succ_r'. lia.
Qed.

Lemma digits_scaled n j : (0 < n)%N -> digits (n * 10 ^ N.of_nat j) = digits n ++ repeat 48%N j.
Proof.
  intros Hn. apply digits_unique; [|by rewrite undigits_zeros, undigits_digits].
  destruct (digits_canonical n) as [A B]. split.
  - apply Forall_app. split; [easy|]. apply Forall_forall. intros x Hx%list_elem_of_In%repeat_spec. by subst.
  - pose proof (undigits_digits n) as E. destruct (digits n) as [|d r]; [easy|]. cbn. left. destruct B as [|B]; [easy|].
    subst r. intros ->. vm_compute in E. lia.
Qed.

(** ** Decimals that are integers *)

Lemma strip_zeros_value f : forall m e, 0 <= e -> (0 < m)%N ->
  let '(m', e') := strip_zeros f m e in (0 < m')%N /\ e <= e' /\ Z.of_N m' * 10 ^ e' = Z.of_N m * 10 ^ e.
Proof.
  induction f as [|f IH]; intros m e He Hm; cbn [strip_zeros]; [lia|].
  destruct (N.eqb_spec (m mod 10) 0) as [Hz|]; [|lia]. pose proof (N.div_mod' m 10) as D. rewrite Hz in D.
  specialize (IH (m / 10)%N (e + 1)). destruct (strip_zeros f (m / 10) (e + 1)) as [m' e'].
  destruct IH as (A & B & C); [lia| |].
  - revert D. generalize (m / 10)%N. lia.
  - split; [easy|]. split; [lia|]. rewrite C. replace (e + 1) with (1 + e) by lia. rewrite Z.pow_add_r by lia.
    assert (Z.of_N m = 10 * Z.of_N (m / 10)) as -> by lia. lia.
Qed.

Lemma strip_zeros_0 f : forall e, fst (strip_zeros f 0 e) = 0%N.
Proof. induction f as [|f IH]; intros e; [easy|]. apply IH. Qed.

Lemma of_decimal_int n j : 0 <= j -> Z.of_N n * 10 ^ j < 10 ^ 300 -> of_decimal false n j = of_Z (Z.of_N n * 10 ^ j).
Proof.
  intros Hj Hb. unfold of_decimal. destruct (N.eq_0_gt_0_cases n) as [->|Hn].
  - pose proof (strip_zeros_0 (N.size_nat 0) j) as E. destruct (strip_zeros _ _ _) as [m' e']. cbn in E. by subst.
  - pose proof (strip_zeros_value (N.size_nat n) n j Hj Hn) as H. destruct (strip_zeros _ _ _) as [m' e']. destruct H as (A & B & C).
    rewrite <- C in Hb |- *. destruct m' as [|p]; [lia|]. cbn [Z.of_N] in *.
    assert (0 < 10 ^ e') as He by (apply Z.pow_pos_nonneg; lia).
    assert (0 <= e' + num_digits (N.pos p) < 302) as Hd.
    { unfold num_digits. destruct (undigits_bounds (digits (N.pos p)) (digits_canonical _)) as [D _]; [by rewrite undigits_digits|].
      rewrite undigits_digits in D. cbn [Z.of_N] in D. set (k := Z.of_nat (length (digits (N.pos p)))) in *. split; [lia|].
      destruct (Z.lt_ge_cases (e' + k) 302) as [|Hk]; [easy|exfalso].
      assert (10 ^ 300 <= 10 ^ (k - 1) * 10 ^ e'); [|nia].
      destruct (Z.le_gt_cases 1 k) as [Hk1|Hk1].
      - rewrite <- Z.pow_add_r by lia. apply Z.pow_le_mono_r; lia.
      - assert (length (digits (N.pos p)) = 0)%nat as E0 by lia. destruct (digits (N.pos p)) eqn:Ed; [by apply digits_nonempty in Ed|easy]. }
    destruct (Z.ltb_spec 310 (e' + num_digits (N.pos p))); [lia|]. destruct (Z.ltb_spec (e' + num_digits (N.pos p)) (-330)); [lia|].
    destruct (Z.leb_spec 0 e'); [|lia]. unfold of_Z, binary_normalize.
    assert (Z.pos p * 10 ^ e' = Z.pos (p * Z.to_pos (10 ^ e'))) as -> by (rewrite Pos2Z.inj_mul, Z2Pos.id by lia; easy). easy.
Qed.

Lemma parse_digits z : 0 <= z < 10 ^ 15 -> of_decimal false (Z.to_N z) 0 = of_Z z.
Proof.
  intros Hz. rewrite of_decimal_int; [|lia|]; rewrite Z2N.id, Z.mul_1_r by lia; [easy|].
  apply (Z.lt_trans _ (10 ^ 15)); [easy|]. by apply Z.ltb_lt.
Qed.

(** ** [String] of an integer *)

Lemma of_Z_parts z : 0 < z < 10 ^ 15 ->
  exists m e num den, of_Z z = S754_finite false m e /\ as_fraction m e = (num, den) /\ 0 < den /\ num = z * den
    /\ let bits := Z.pos (digits2_pos m) + e in 1 <= bits <= 50 /\ 2 ^ (bits - 1) <= z < 2 ^ bits.
Proof.
  intros Hz. assert (10 ^ 15 < 2 ^ 50) as H50 by (by apply Z.ltb_lt).
  assert (2 ^ 50 < 2 ^ 53) by (by apply Z.ltb_lt).
  destruct (of_Z_normal z ltac:(lia)) as (m & e & E & Hm & _ & Hv). exists m, e.
  assert (digits2_pos m = 53%positive) as Ed.
  { pose proof (digits2_log2 m) as D. rewrite (log2_between _ 52) in D by lia. lia. }
  rewrite Ed. unfold as_fraction. destruct (Z.leb_spec 0 e) as [He|He].
  - exfalso. assert (z = Z.pos m * 2 ^ e) by (apply eq_IZR; by rewrite mult_IZR, <- pw_Z).
    assert (0 < 2 ^ e) by (by apply Z.pow_pos_nonneg). assert (2 ^ 50 < 2 ^ 52) by (by apply Z.ltb_lt). nia.
  - exists (Z.pos m), (2 ^ (- e)). assert (0 < 2 ^ (- e)) as Hp by (apply Z.pow_pos_nonneg; lia).
    assert (Z.pos m = z * 2 ^ (- e)) as Em.
    { apply eq_IZR. rewrite mult_IZR, <- pw_Z, Hv, Rmult_assoc, pw_opp by lia. ring. }
    assert (- e <= 52) as He52.
    { destruct (Z.le_gt_cases (- e) 52) as [|Hg]; [easy|]. assert (2 ^ 53 <= 2 ^ (- e)) by (apply Z.pow_le_mono_r; lia). nia. }
    assert (2 ^ 52 = 2 ^ (52 + e) * 2 ^ (- e)) as P1 by (rewrite <- Z.pow_add_r by lia; f_equal; lia).
    assert (2 ^ 53 = 2 ^ (53 + e) * 2 ^ (- e)) as P2 by (rewrite <- Z.pow_add_r by lia; f_equal; lia).
    replace (53 + e - 1) with (52 + e) by lia.
    assert (2 ^ (52 + e) <= z < 2 ^ (53 + e)) by nia. do 4 (split; [easy|]). split; [|easy]. split; [lia|].
    destruct (Z.le_gt_cases (53 + e) 50) as [|Hg]; [easy|]. assert (2 ^ 50 <= 2 ^ (52 + e)) by (apply Z.pow_le_mono_r; lia). lia.
Qed.

Definition estimate_ok (b : nat) : bool :=
  let bits := Z.of_nat b in
  let est := bits * 30103 / 100000 + 1 in
  (1 <=? est) && ((est =? 1) || (10 ^ (est - 2) <=? 2 ^ (bits - 1))) && (2 ^ bits <=? 10 ^ (est + 1)).

Lemma estimates_ok : forallb estimate_ok (seq 1 50) = true.
Proof. by vm_compute. Qed.

Lemma dec_exponent_int z num den bits : 0 < den -> num = z * den -> 0 < z -> 1 <= bits <= 50 -> 2 ^ (bits - 1) <= z < 2 ^ bits ->
  let x := dec_exponent num den (bits * 30103 / 100000 + 1) in 1 <= x /\ 10 ^ (x - 1) <= z < 10 ^ x.
Proof.
  intros Hd -> Hz0 Hb Hz. pose proof estimates_ok as Hf. rewrite forallb_forall in Hf.
  specialize (Hf (Z.to_nat bits) ltac:(apply in_seq; lia)). unfold estimate_ok in Hf. rewrite Z2Nat.id in Hf by lia.
  set (est := bits * 30103 / 100000 + 1) in *. bool_hyps. apply Z.leb_le in H, H0. rewrite orb_true_iff, Z.eqb_eq, Z.leb_le in H1.
  assert (forall n, 0 <= n -> (if 0 <=? n then z * den <? den * 10 ^ n else z * den * 10 ^ (- n) <? den) = (z <? 10 ^ n)) as Hbelow.
  { intros n Hn. destruct (Z.leb_spec 0 n); [|lia]. rewrite (Z.mul_comm z). apply eq_true_iff_eq. rewrite !Z.ltb_lt. nia. }
  unfold dec_exponent. rewrite !Hbelow by lia.
  destruct (Z.ltb_spec z (10 ^ (est - 1))) as [A|A]; [|destruct (Z.ltb_spec z (10 ^ est)) as [B|B]].
  - destruct (Z.eq_dec est 1) as [E1|E1]; [rewrite E1 in A; cbn in A; lia|]. destruct H1 as [?|H1]; [easy|].
    replace (est - 1 - 1) with (est - 2) by lia. lia.
  - lia.
  - replace (est + 1 - 1) with est by lia. lia.
Qed.

Lemma scaled_round_int z den k x : 0 < den -> 0 < z -> 1 <= k <= x ->
  scaled_round (z * den) den (k - x) = (2 * z + 10 ^ (x - k)) / (2 * 10 ^ (x - k)).
Proof.
  intros Hd Hz Hk. unfold scaled_round. destruct (Z.leb_spec 0 (k - x)).
  - replace k with x by lia. rewrite Z.sub_diag, !Z.mul_1_r. change (10 ^ 0) with 1.
    replace (2 * (z * den) + den) with ((2 * z + 1) * den) by ring. by rewrite Z.div_mul_cancel_r by lia.
  - replace (- (k - x)) with (x - k) by lia. set (P := 10 ^ (x - k)). assert (0 < P) by (apply Z.pow_pos_nonneg; lia).
    replace (2 * (z * den) + den * P) with ((2 * z + P) * den) by ring. replace (2 * (den * P)) with (2 * P * den) by ring.
    by rewrite Z.div_mul_cancel_r by lia.
Qed.

Lemma of_Z_eqb a b : 0 < a < 2 ^ 53 -> 0 < b < 2 ^ 53 -> SFeqb (of_Z a) (of_Z b) = true -> a = b.
Proof.
  intros Ha Hb H. pose proof (to_Z_of_Z a ltac:(lia)) as A. pose proof (to_Z_of_Z b ltac:(lia)) as B.
  destruct (of_Z_normal a Ha) as (m1 & e1 & E1 & _), (of_Z_normal b Hb) as (m2 & e2 & E2 & _). rewrite E1, E2 in *.
  unfold SFeqb, SFcompare in H. destruct (Z.compare_spec e1 e2) as [->| |]; [|easy..].
  change (Pos.compare_cont Eq m1 m2) with (Pos.compare m1 m2) in H. destruct (Pos.compare_spec m1 m2) as [->| |]; [|easy..].
  congruence.
Qed.

(** The first [k] digits of an integer, rounded, are an integer again. *)
Lemma rounded_digits z k x : 0 < z < 10 ^ 15 -> 1 <= k <= x -> x <= 15 -> 10 ^ (x - 1) <= z < 10 ^ x ->
  let n := (2 * z + 10 ^ (x - k)) / (2 * 10 ^ (x - k)) in
  exists n' x', (if 10 ^ k <=? n then (n / 10, x + 1) else (n, x)) = (n', x') /\ 0 < n' /\ k <= x' <= 16
    /\ 0 < n' * 10 ^ (x' - k) < 2 ^ 53 /\ (k = x -> n' * 10 ^ (x' - k) = z).
Proof.
  intros Hz Hk Hx Hzx. cbv zeta. set (P := 10 ^ (x - k)). assert (0 < P) as HP by (apply Z.pow_pos_nonneg; lia).
  assert (10 ^ x = 10 ^ k * P) as Ex by (unfold P; rewrite <- Z.pow_add_r by lia; f_equal; lia).
  assert (10 ^ (x - 1) = 10 ^ (k - 1) * P) as Ex1 by (unfold P; rewrite <- Z.pow_add_r by lia; f_equal; lia).
  assert (0 < 10 ^ (k - 1)) as Hk1 by (apply Z.pow_pos_nonneg; lia).
  set (n := (2 * z + P) / (2 * P)).
  assert (2 * P * n <= 2 * z + P < 2 * P * n + 2 * P) as Hn
    by (unfold n; pose proof (Z.div_mod (2 * z + P) (2 * P) ltac:(lia)); pose proof (Z.mod_pos_bound (2 * z + P) (2 * P) ltac:(lia)); lia).
  assert (0 < n <= 10 ^ k) as Hn1 by nia.
  assert (0 < n * P < 2 ^ 53) as HN by (assert (2 * 10 ^ 15 < 2 ^ 53) by (by apply Z.ltb_lt); nia).
  assert (k = x -> n * P = z) as Hlast.
  { intros <-. assert (P = 1) as E1 by (unfold P; by rewrite Z.sub_diag). nia. }
  destruct (Z.leb_spec (10 ^ k) n) as [Hg|Hg].
  - assert (n = 10 * 10 ^ (k - 1)) as E by (replace k with (Z.succ (k - 1)) in Hn1, Hg by lia; rewrite Z.pow_succ_r in Hn1, Hg by lia; lia).
    exists (10 ^ (k - 1)), (x + 1). rewrite E at 1. rewrite Z.mul_comm, Z.div_mul by lia.
    replace (10 ^ (k - 1) * 10 ^ (x + 1 - k)) with (n * P); [by repeat split; lia|].
    replace (x + 1 - k) with (Z.succ (x - k)) by lia. rewrite Z.pow_succ_r by lia. fold P. lia.
  - exists n, x. fold P. by repeat split; lia.
Qed.

Lemma shortest_int z den x : 0 < den -> 0 < z < 10 ^ 15 -> 1 <= x <= 15 -> 10 ^ (x - 1) <= z < 10 ^ x ->
  forall i k fuel, k + Z.of_nat i = x -> 1 <= k -> (i < fuel)%nat ->
  exists n k' x', shortest_go fuel k (of_Z z) (z * den) den x = Some (n, k', x')
    /\ k' <= x' <= 21 /\ Z.of_N n * 10 ^ (x' - k') = z.
Proof.
  intros Hd Hz Hx Hzx. assert (10 ^ 15 < 2 ^ 53) as H15 by (by apply Z.ltb_lt). assert (2 ^ 53 < 10 ^ 300) as H300 by (by apply Z.ltb_lt).
  induction i as [|i IH]; intros k fuel Hk H1 Hf; (destruct fuel as [|fuel]; [lia|]); cbn [shortest_go];
    rewrite scaled_round_int by lia;
    destruct (rounded_digits z k x Hz ltac:(lia) ltac:(lia) Hzx) as (n' & x' & -> & Hn' & Hx' & HN & Hlast);
    rewrite of_decimal_int by (rewrite ?Z2N.id by lia; lia); rewrite Z2N.id by lia;
    destruct (SFeqb _ _) eqn:E.
  1, 3: apply of_Z_eqb in E; [|lia|lia]; exists (Z.to_N n'), k, x'; split; [easy|]; split; [lia|]; by rewrite Z2N.id by lia.
  - exfalso. rewrite Hlast in E by lia. destruct (of_Z_normal z ltac:(lia)) as (m & e & Em & _). rewrite Em in E.
    unfold SFeqb, SFcompare in E. rewrite Z.compare_refl in E. change (Pos.compare_cont Eq m m) with (Pos.compare m m) in E.
    by rewrite Pos.compare_refl in E.
  - apply (IH (k + 1) fuel); lia.
Qed.

(** An integer is printed as its digits. *)
Lemma num_to_string_int z : 0 <= z < 10 ^ 15 -> num_to_string (of_Z z) = digits (Z.to_N z).
Proof.
  intros Hz. destruct (Z.eq_dec z 0) as [->|Hz0]; [easy|].
  destruct (of_Z_parts z ltac:(lia)) as (m & e & num & den & E & Ef & Hd & -> & Hb & Hzb).
  cbv zeta in *. set (bits := Z.pos (digits2_pos m) + e) in *.
  destruct (dec_exponent_int z (z * den) den bits Hd eq_refl ltac:(lia) Hb Hzb) as [Hx1 Hx]. cbv zeta in Hx1, Hx.
  rewrite E. cbn [num_to_string]. rewrite Ef. fold bits. set (x := dec_exponent _ _ _) in *.
  assert (x <= 15) as Hx15.
  { destruct (Z.le_gt_cases x 15) as [|Hg]; [easy|]. assert (10 ^ 15 <= 10 ^ (x - 1)) by (apply Z.pow_le_mono_r; lia). lia. }
  rewrite <- E. destruct (shortest_int z den x Hd ltac:(lia) ltac:(lia) Hx (Z.to_nat (x - 1)) 1 17%nat) as (n & k & x' & -> & Hk & <-); [lia..|].
  unfold layout. destruct (Z.leb_spec k x'), (Z.leb_spec x' 21); try lia. cbn [andb]. unfold zeros.
  assert (0 < n)%N as Hn by (destruct n; lia).
  rewrite <- digits_scaled by easy. f_equal.
  apply N2Z.inj. rewrite N2Z.inj_mul, N2Z.inj_pow, Z2N.id by lia. rewrite nat_N_Z, Z2Nat.id by lia. easy.
Qed.

(** ** Read back *)

Section Read.
Context (z : Z) (Hz : 0 <= z < 10 ^ 15).
Let ds := digits (Z.to_N z).

Lemma span_all (f : N -> bool) s : Forall (fun c => f c = true) s -> span f s = (s, []).
Proof. induction 1 as [|c s Hc _ IH]; [easy|]. cbn. by rewrite Hc, IH. Qed.

Lemma digits_head : exists c r, ds = c :: r /\ is_digit c = true /\ Forall (fun c => is_digit c = true) r /\ (c <> 48%N \/ r = []).
Proof using.
  destruct (digits_canonical (Z.to_N z)) as [A B]. fold ds in A, B. destruct ds as [|c r]; [easy|].
  apply Forall_cons_1 in A as [A1 A2]. by exists c, r.
Qed.

Lemma opt_sign_digits : opt_sign ds = (false, ds).
Proof using.
  destruct digits_head as (c & r & -> & Hc & _). apply is_digit_iff in Hc. unfold opt_sign.
  destruct c as [|p]; [lia|]. do 6 (destruct p; try easy; try lia).
Qed.

Lemma decimal_digits neg : decimal_literal neg ds = Some (of_decimal neg (Z.to_N z) 0).
Proof using.
  unfold decimal_literal. rewrite span_all by apply digits_all. rewrite app_nil_r.
  unfold ds. destruct (digits (Z.to_N z)) eqn:E; [by apply digits_nonempty in E|]. rewrite <- E. cbn [exponent_part length].
  by rewrite undigits_digits.
Qed.

Lemma parseInt_digits : parseInt ds = of_Z z.
Proof using Hz.
  unfold parseInt. assert (trimStart ds = ds) as ->.
  { destruct digits_head as (c & r & -> & Hc & _). cbn. by rewrite digit_not_space. }
  rewrite opt_sign_digits, span_all by apply digits_all. cbn [fst]. unfold ds.
  destruct (digits (Z.to_N z)) eqn:E; [by apply digits_nonempty in E|]. rewrite <- E, undigits_digits. by apply parse_digits.
Qed.

Lemma Number_digits : Number_str ds = of_Z z.
Proof using Hz.
  unfold Number_str. rewrite edges_trim by apply digits_edges_ok.
  assert (decimal_literal false ds = Some (of_Z z)) as D by (by rewrite decimal_digits, parse_digits).
  assert ((ds =s "Infinity") = false) as I.
  { destruct (seqb_spec ds "Infinity") as [E|]; [|easy]. destruct digits_head as (c & r & Ec & Hc & _).
    rewrite Ec in E. injection E as -> _. by vm_compute in Hc. }
  assert ((let '(neg, u) := opt_sign ds in if u =s "Infinity" then Some (S754_infinity neg) else decimal_literal neg u)
          = Some (of_Z z)) as G by (by rewrite opt_sign_digits, I).
  destruct digits_head as (c & r & E & Hc & Hr & H0). rewrite E in G, D |- *.
  destruct (N.eq_dec c 48%N) as [->|Hn].
  - destruct H0 as [H0 | ->]; [easy|]. by rewrite G.
  - assert (forall {A} (a : N -> jstr -> A) (b : A), match c :: r with 48%N :: c :: q => a c q | _ => b end = b) as M.
    { intros A a b. destruct c as [|p]; [easy|]. do 6 (destruct p; try easy). }
    rewrite M. by rewrite G.
Qed.

Lemma num_ok_int : num_ok (of_Z z).
Proof using Hz.
  assert (isFinite (of_Z z) = true) as F.
  { destruct (Z.eq_dec z 0) as [->|]; [easy|]. destruct (of_Z_parts z ltac:(lia)) as (m & e & num & den & -> & _). easy. }
  unfold num_ok. rewrite num_to_string_int by easy. fold ds. split; [easy|]. split; [|split; [|apply digits_nonempty]].
  - unfold json_number. destruct digits_head as (c & r & E & Hc & Hr & H0).
    assert (forall {A} (a : jstr -> A) (b : A), match ds with 45%N :: r => a r | _ => b end = b) as M.
    { intros A a b. rewrite E. apply is_digit_iff in Hc. destruct c as [|p]; [easy|]. do 6 (destruct p; try easy; try lia). }
    assert (json_number_ok ds = true) as ->.
    { unfold json_number_ok. rewrite M, span_all by apply digits_all. rewrite E. destruct r as [|d r]; [easy|].
      destruct H0 as [H0|]; [|easy]. by rewrite (proj2 (N.eqb_neq _ _) H0). }
    rewrite M. by rewrite decimal_digits, parse_digits.
  - eapply Forall_impl; [apply digits_all|]. intros c Hc. unfold is_num_char. cbn in Hc. by rewrite Hc.
Qed.

End Read.

(** ** Checked texts and numbers *)

#[export] Instance number_eq_dec : EqDecision spec_float.
Proof. solve_decision. Defined.

(** Numbers and texts that [JSON.stringify] writes and [JSON.parse] gives back, as checks. *)
Definition num_okb (n : number) : bool :=
  isFinite n && bool_decide (json_number (num_to_string n) = Some n)
  && forallb is_num_char (num_to_string n) && truthy (num_to_string n).
Definition str_ok (s : jstr) : bool := forallb (fun c => (c <? 65536)%N) s.

Lemma num_okb_ok n : num_okb n = true -> num_ok n.
Proof.
  unfold num_okb, num_ok. intros H. bool_hyps. rewrite forallb_forall in *. split; [easy|].
  split; [by apply bool_decide_eq_true in H2|]. split; [by apply List.Forall_forall|]. by apply truthy_iff.
Qed.

Lemma str_ok_wf s : str_ok s = true -> wf_str s.
Proof.
  unfold str_ok, wf_str. rewrite forallb_forall. intros H. apply List.Forall_forall. intros c Hc.
  by apply N.ltb_lt, H.
Qed.
