(* ===== verification/Quota.v ===== *)
(** * Quotas and the amounts that are shown for them

    The conversions of [lib/format.ts] and [features/subscriptions/lib/display.ts] with the
    configuration they read ([lib/currency.ts], [stores/system-config-store.ts]).

    A quota is an integer count of units, a form shows an amount of money: what is loaded and
    saved without a change must come back exactly, whatever the rates.  This is proved with
    the error bounds of [Rounding.v].  Formatting for the reader (locales) is not modelled. *)

From Stdlib Require Import Floats.SpecFloat Reals Lra.
From S2P Require Import Prelude Number Rounding.
From stdpp Require Import options.

(** * The currency *)

Inductive CurrencyDisplayType := USD | CNY | TOKENS | CUSTOM.

Record CurrencyConfig := {
  displayInCurrency : bool;
  quotaDisplayType : CurrencyDisplayType;
  quotaPerUnit : number;
  usdExchangeRate : number;
  customCurrencySymbol : jstr;
  customCurrencyExchangeRate : number;
}.

Definition DEFAULT_CURRENCY_CONFIG : CurrencyConfig :=
  {| displayInCurrency := true; quotaDisplayType := USD; quotaPerUnit := of_Z 500000;
     usdExchangeRate := of_Z 1; customCurrencySymbol := [164%N]; customCurrencyExchangeRate := of_Z 1 |}.

(** [v && v > 0 ? v : d] *)
Definition positive_or (v d : number) : number :=
  if ntruthy v && (zero <? v)%num then v else d.

(** [None]: the store holds no currency. *)
Definition getConfig (stored : option CurrencyConfig) : CurrencyConfig :=
  let c := match stored with Some c => c | None => DEFAULT_CURRENCY_CONFIG end in
  {| displayInCurrency := displayInCurrency c;
     quotaDisplayType := quotaDisplayType c;
     quotaPerUnit := positive_or (quotaPerUnit c) (quotaPerUnit DEFAULT_CURRENCY_CONFIG);
     usdExchangeRate := positive_or (usdExchangeRate c) (usdExchangeRate DEFAULT_CURRENCY_CONFIG);
     customCurrencySymbol :=
       str_or (trim (customCurrencySymbol c)) (customCurrencySymbol DEFAULT_CURRENCY_CONFIG);
     customCurrencyExchangeRate :=
       positive_or (customCurrencyExchangeRate c) (customCurrencyExchangeRate DEFAULT_CURRENCY_CONFIG) |}.

Inductive DisplayMeta :=
| MCurrency (symbol currencyCode : jstr) (exchangeRate : number)
| MCustom (symbol : jstr) (exchangeRate : number)
| MTokens (perUnit : number).

Definition yen : jstr := [165%N].

Definition getDisplayMeta (config : CurrencyConfig) : DisplayMeta :=
  match quotaDisplayType config with
  | CNY => MCurrency yen "CNY" (usdExchangeRate config)
  | CUSTOM => MCustom (customCurrencySymbol config) (customCurrencyExchangeRate config)
  | TOKENS => MTokens (quotaPerUnit config)
  | USD => MCurrency "credits " "USD" (of_Z 1)
  end.

Definition getBillingDisplayMeta (config : CurrencyConfig) : DisplayMeta :=
  match getDisplayMeta config with
  | MTokens _ => MCurrency "credits " "USD" (of_Z 1)
  | meta => meta
  end.

Definition getCurrencyDisplay (stored : option CurrencyConfig) : CurrencyConfig * DisplayMeta :=
  let config := getConfig stored in (config, getDisplayMeta config).

(** * The conversions *)

Definition parseQuotaFromDollars (stored : option CurrencyConfig) (amount : number) : number :=
  if negb (isFinite amount) then zero
  else
    let '(config, meta) := getCurrencyDisplay stored in
    match meta with
    | MTokens _ => nround amount
    | MCurrency _ _ exchangeRate | MCustom _ exchangeRate =>
      let usdAmount := if (zero <? exchangeRate)%num then (amount / exchangeRate)%num else amount in
      nround (usdAmount * quotaPerUnit config)%num
    end.

Definition quotaUnitsToDollars (stored : option CurrencyConfig) (units : number) : number :=
  let '(config, meta) := getCurrencyDisplay stored in
  match meta with
  | MTokens _ => units
  | MCurrency _ _ exchangeRate | MCustom _ exchangeRate =>
    (units / quotaPerUnit config * exchangeRate)%num
  end.

Definition quotaUnitsToUsd (stored : option CurrencyConfig) (units : number) : number :=
  (units / quotaPerUnit (fst (getCurrencyDisplay stored)))%num.

(** ** Those of subscriptions, always in dollars *)

Definition DEFAULT_QUOTA_PER_UNIT : number := of_Z 500000.

Definition getSubscriptionQuotaPerUnit (stored : option CurrencyConfig) : number :=
  let quotaPerUnit := num_or (quotaPerUnit (fst (getCurrencyDisplay stored))) zero in
  if (zero <? quotaPerUnit)%num then quotaPerUnit else DEFAULT_QUOTA_PER_UNIT.

Definition subscriptionQuotaUnitsToUSD (stored : option CurrencyConfig) (amount : option number) : number :=
  (match amount with Some a => num_or a zero | None => zero end / getSubscriptionQuotaPerUnit stored)%num.

Definition parseSubscriptionQuotaUSDToUnits (stored : option CurrencyConfig) (amount : number) : number :=
  let numericAmount := num_or amount zero in
  if negb (isFinite numericAmount) then zero
  else nround (numericAmount * getSubscriptionQuotaPerUnit stored)%num.

(** * What is loaded and saved comes back *)

(** The rate that the display uses. *)
Definition display_rate (stored : option CurrencyConfig) : option number :=
  match getDisplayMeta (getConfig stored) with
  | MTokens _ => None
  | MCurrency _ _ r | MCustom _ r => Some r
  end.

(** The rates are ordinary positive numbers, between [2^-100] and [2^100]. *)
Definition rates_ok (stored : option CurrencyConfig) : bool :=
  is_normal (quotaPerUnit (getConfig stored))
  && match display_rate stored with Some r => is_normal r | None => true end.

Lemma normal_finite b x v : normal b x v -> isFinite x = true.
Proof. now intros (m & e & -> & _). Qed.

Lemma normal_positive b x v : normal b x v -> (zero <? x)%num = true.
Proof. now intros (m & e & -> & _). Qed.

Lemma round_of_Z q : (0 < q < 2 ^ 52)%Z -> nround (of_Z q) = of_Z q.
Proof.
  intros Hq. apply (nround_near 53 _ (Rdefinitions.IZR q)); [apply of_Z_normal; lia|easy|].
  rewrite RIneq.Rminus_diag, Rbasic_fun.Rabs_R0. lra.
Qed.

Lemma of_Z_zero_cases q : (0 <= q)%Z -> (q = 0)%Z \/ (0 < q)%Z.
Proof. lia. Qed.

Lemma normal_mul_zero b x v : normal b x v -> (zero * x)%num = zero.
Proof. now intros (m & e & -> & _). Qed.

Lemma normal_div_zero b x v : normal b x v -> (zero / x)%num = zero.
Proof. now intros (m & e & -> & _). Qed.

Lemma rates_normal stored :
  rates_ok stored = true ->
  (exists U, normal 100 (quotaPerUnit (getConfig stored)) U)
  /\ match display_rate stored with Some r => exists v, normal 100 r v | None => True end.
Proof.
  unfold rates_ok. intros [H1 H2]%andb_true_iff. split; [now apply is_normal_ok|].
  destruct (display_rate stored); [now apply is_normal_ok|easy].
Qed.

(** The conversions, by the rate that is shown. *)
Lemma parse_rate stored a r :
  isFinite a = true -> display_rate stored = Some r -> (zero <? r)%num = true ->
  parseQuotaFromDollars stored a = nround (a / r * quotaPerUnit (getConfig stored))%num.
Proof.
  unfold display_rate, parseQuotaFromDollars, getCurrencyDisplay. intros -> E Hr. cbn [negb].
  destruct (getDisplayMeta (getConfig stored)); simplify_eq; now rewrite Hr.
Qed.

Lemma display_of_rate stored u r :
  display_rate stored = Some r ->
  quotaUnitsToDollars stored u = (u / quotaPerUnit (getConfig stored) * r)%num.
Proof.
  unfold display_rate, quotaUnitsToDollars, getCurrencyDisplay.
  destruct (getDisplayMeta (getConfig stored)); intros; now simplify_eq.
Qed.

Lemma conversions_tokens stored u :
  isFinite u = true -> display_rate stored = None ->
  parseQuotaFromDollars stored u = nround u /\ quotaUnitsToDollars stored u = u.
Proof.
  unfold display_rate, parseQuotaFromDollars, quotaUnitsToDollars, getCurrencyDisplay. intros -> E.
  now destruct (getDisplayMeta (getConfig stored)).
Qed.

(** The round trip, as a lemma for the forms. *)
Lemma units_back stored q :
  rates_ok stored = true -> (0 <= q <= 900000000000000)%Z ->
  parseQuotaFromDollars stored (quotaUnitsToDollars stored (of_Z q)) = of_Z q.
Proof.
  intros [(U & HU) Hr]%rates_normal Hq.
  destruct (of_Z_zero_cases q) as [->|Hq0]; [lia| |].
  - destruct (display_rate stored) as [r|] eqn:Er.
    + destruct Hr as (v & Hv). rewrite (display_of_rate _ _ r Er). change (of_Z 0) with zero.
      rewrite (normal_div_zero _ _ _ HU), (normal_mul_zero _ _ _ Hv).
      rewrite (parse_rate _ _ r) by (easy || apply (normal_positive _ _ _ Hv)).
      now rewrite (normal_div_zero _ _ _ Hv), (normal_mul_zero _ _ _ HU).
    + now destruct (conversions_tokens stored (of_Z 0) eq_refl Er) as [H ->].
  - pose proof (of_Z_normal q ltac:(lia)) as Hz.
    destruct (display_rate stored) as [r|] eqn:Er.
    + destruct Hr as (v & Hv). rewrite (display_of_rate _ _ r Er).
      destruct (div_ok _ _ _ _ _ _ Hz HU ltac:(lia)) as (x1 & N1 & _).
      destruct (mul_ok _ _ _ _ _ _ N1 Hv ltac:(lia)) as (x2 & N2 & _).
      rewrite (parse_rate _ _ r).
      * now apply (scale_back q _ _ U v).
      * apply (normal_finite _ _ _ N2).
      * easy.
      * apply (normal_positive _ _ _ Hv).
    + destruct (conversions_tokens stored (of_Z q) (normal_finite _ _ _ Hz) Er) as [H ->].
      rewrite H. apply round_of_Z. lia.
Qed.

(** What is shown of a quota is finite, not negative, and no negative zero. *)
Lemma shown_ok stored q :
  rates_ok stored = true -> (0 <= q <= 900000000000000)%Z ->
  let x := quotaUnitsToDollars stored (of_Z q) in
  isFinite x = true /\ (x <? zero)%num = false /\ num_or x zero = x.
Proof.
  intros [(U & HU) Hr]%rates_normal Hq. cbn zeta.
  assert (N : forall b x v, normal b x v -> isFinite x = true /\ (x <? zero)%num = false /\ num_or x zero = x)
    by now intros ? ? ? (? & ? & -> & _).
  destruct (of_Z_zero_cases q) as [->|Hq0]; [lia| |].
  - destruct (display_rate stored) as [r|] eqn:Er.
    + destruct Hr as (v & Hv). rewrite (display_of_rate _ _ r Er). change (of_Z 0) with zero.
      now rewrite (normal_div_zero _ _ _ HU), (normal_mul_zero _ _ _ Hv).
    + now destruct (conversions_tokens stored (of_Z 0) eq_refl Er) as [_ ->].
  - pose proof (of_Z_normal q ltac:(lia)) as Hz. destruct (display_rate stored) as [r|] eqn:Er.
    + destruct Hr as (v & Hv). rewrite (display_of_rate _ _ r Er).
      destruct (div_ok _ _ _ _ _ _ Hz HU ltac:(lia)) as (x1 & N1 & _).
      destruct (mul_ok _ _ _ _ _ _ N1 Hv ltac:(lia)) as (x2 & N2 & _). now apply (N _ _ _ N2).
    + destruct (conversions_tokens stored (of_Z q) (normal_finite _ _ _ Hz) Er) as [_ ->]. now apply (N _ _ _ Hz).
Qed.

(** A quota that is there is shown as more than nothing. *)
Lemma shown_positive stored q :
  rates_ok stored = true -> (0 < q <= 900000000000000)%Z ->
  (zero <? quotaUnitsToDollars stored (of_Z q))%num = true.
Proof.
  intros [(U & HU) Hr]%rates_normal Hq. pose proof (of_Z_normal q ltac:(lia)) as Hz.
  destruct (display_rate stored) as [r|] eqn:Er.
  - destruct Hr as (v & Hv). rewrite (display_of_rate _ _ r Er).
    destruct (div_ok _ _ _ _ _ _ Hz HU ltac:(lia)) as (x1 & N1 & _).
    destruct (mul_ok _ _ _ _ _ _ N1 Hv ltac:(lia)) as (x2 & N2 & _). apply (normal_positive _ _ _ N2).
  - destruct (conversions_tokens stored (of_Z q) (normal_finite _ _ _ Hz) Er) as [_ ->].
    apply (normal_positive _ _ _ Hz).
Qed.

(** The same for subscriptions. *)
Lemma subscription_unit stored U :
  normal 100 (quotaPerUnit (getConfig stored)) U ->
  getSubscriptionQuotaPerUnit stored = quotaPerUnit (getConfig stored).
Proof.
  intros HU. unfold getSubscriptionQuotaPerUnit, num_or. cbn [fst getCurrencyDisplay].
  pose proof (normal_positive _ _ _ HU) as Hp. destruct HU as (m & e & -> & _). cbn in *. easy.
Qed.

Lemma subscription_back (stored : option CurrencyConfig) (q : Z) :
  rates_ok stored = true -> (0 <= q <= 900000000000000)%Z ->
  parseSubscriptionQuotaUSDToUnits stored (subscriptionQuotaUnitsToUSD stored (Some (of_Z q))) = of_Z q.
Proof.
  intros [(U & HU) _]%rates_normal Hq. unfold parseSubscriptionQuotaUSDToUnits, subscriptionQuotaUnitsToUSD.
  rewrite (subscription_unit _ _ HU).
  destruct (of_Z_zero_cases q) as [->|Hq0]; [lia| |].
  - change (num_or (of_Z 0) zero) with zero. rewrite (normal_div_zero _ _ _ HU).
    change (num_or zero zero) with zero. cbn [isFinite negb zero]. now rewrite (normal_mul_zero _ _ _ HU).
  - pose proof (of_Z_normal q ltac:(lia)) as Hz.
    assert (E : forall b x v, normal b x v -> num_or x zero = x) by now intros ? ? ? (? & ? & -> & _).
    rewrite (E _ _ _ Hz). destruct (div_ok _ _ _ _ _ _ Hz HU ltac:(lia)) as (x1 & N1 & _).
    rewrite (E _ _ _ N1), (normal_finite _ _ _ N1). cbn [negb]. now apply (scale_back_plain q _ U).
Qed.

(** C8: A quota that is shown as an amount of money and read back is the same quota, whatever
    the display and its rates, and so is one of a subscription: for every count of units up to nine hundred million millions,
    rounding errors of the two divisions and two multiplications never add up to a unit. *)
Theorem quota_roundtrip (stored : option CurrencyConfig) (q : Z) :
  rates_ok stored = true -> (0 <= q <= 900000000000000)%Z ->
  parseQuotaFromDollars stored (quotaUnitsToDollars stored (of_Z q)) = of_Z q
  /\ parseSubscriptionQuotaUSDToUnits stored (subscriptionQuotaUnitsToUSD stored (Some (of_Z q))) = of_Z q.
Proof. auto using units_back, subscription_back. Qed.

Definition cny_config : CurrencyConfig :=
  {| displayInCurrency := true; quotaDisplayType := CNY; quotaPerUnit := of_Z 500000;
     usdExchangeRate := Number_str "7.3"; customCurrencySymbol := []; customCurrencyExchangeRate := zero |}.

Lemma quota_roundtrip_witness :
  parseQuotaFromDollars (Some cny_config) (quotaUnitsToDollars (Some cny_config) (of_Z 499999999999999))
  = of_Z 499999999999999.
Proof. apply (quota_roundtrip (Some cny_config) 499999999999999); [reflexivity|lia]. Defined.

