(* ===== verification/BillingExpr.v ===== *)
(** Model of [web/default/src/features/pricing/lib/billing-expr.ts]: the parser and
    the builder of billing expressions (tiers and request rules), with their
    round trips. *)

From S2P Require Import Prelude Number Regex Json.
From stdpp Require Import options.

(** * Variable registry *)

Inductive side := SideInput | SideOutput | SideCondition.

Record BillingVar := {
  bv_key : jstr;
  bv_field : option jstr;
  bv_tierField : option jstr;
  bv_side : side;
  bv_isBase : bool;
  bv_isConditionOnly : bool;
  bv_group : option jstr
}.

Definition price_var (k f tf : jstr) (s : side) (base : bool) (g : option jstr) : BillingVar :=
  {| bv_key := k; bv_field := Some f; bv_tierField := Some tf; bv_side := s;
     bv_isBase := base; bv_isConditionOnly := false; bv_group := g |}.

Definition BILLING_VARS : list BillingVar :=
  [ price_var "p" "inputPrice" "input_unit_cost" SideInput true None;
    price_var "c" "outputPrice" "output_unit_cost" SideOutput true None;
    {| bv_key := "len"; bv_field := None; bv_tierField := None; bv_side := SideCondition;
       bv_isBase := false; bv_isConditionOnly := true; bv_group := None |};
    price_var "cr" "cacheReadPrice" "cache_read_unit_cost" SideInput false (Some "cache");
    price_var "cc" "cacheCreatePrice" "cache_create_unit_cost" SideInput false (Some "cache");
    price_var "cc1h" "cacheCreate1hPrice" "cache_create_1h_unit_cost" SideInput false
      (Some "cache");
    price_var "img" "imagePrice" "image_unit_cost" SideInput false (Some "media");
    price_var "img_o" "imageOutputPrice" "image_output_unit_cost" SideOutput false
      (Some "media");
    price_var "ai" "audioInputPrice" "audio_input_unit_cost" SideInput false (Some "media");
    price_var "ao" "audioOutputPrice" "audio_output_unit_cost" SideOutput false
      (Some "media") ].

Definition from_field (o : option jstr) : jstr := match o with Some f => f | None => [] end.

Definition BILLING_PRICING_VARS : list BillingVar :=
  List.filter (fun v => negb (bv_isConditionOnly v)) BILLING_VARS.

Definition BILLING_CONDITION_VARS : list jstr :=
  map bv_key (List.filter (fun v => bv_isBase v || bv_isConditionOnly v) BILLING_VARS).

Definition BILLING_VAR_KEY_TO_FIELD : list (jstr * jstr) :=
  map (fun v => (bv_key v, from_field (bv_field v))) BILLING_PRICING_VARS.

Definition BILLING_EXTRA_VARS : list BillingVar :=
  List.filter (fun v => negb (bv_isBase v) && negb (bv_isConditionOnly v)) BILLING_VARS.

(** Pairs of tier field and expression variable. *)
Definition BILLING_CACHE_VAR_MAP : list (jstr * jstr) :=
  map (fun v => (from_field (bv_tierField v), bv_key v)) BILLING_EXTRA_VARS.

(** * Pattern pieces *)

(** [\d.eE+-] and [\d.eE+] *)
Definition cls_num (c : N) : bool :=
  is_digit c || (c =? 46)%N || (c =? 101)%N || (c =? 69)%N || (c =? 43)%N || (c =? 45)%N.
Definition cls_num_pos (c : N) : bool :=
  is_digit c || (c =? 46)%N || (c =? 101)%N || (c =? 69)%N || (c =? 43)%N.
(** Anything but a double quote; anything but a right parenthesis. *)
Definition cls_not_dq (c : N) : bool := negb (c =? dquote)%N.
Definition cls_not_rp (c : N) : bool := negb (c =? rparen)%N.
(** [.] without and with the [s] flag *)
Definition cls_dot (c : N) : bool :=
  negb ((c =? 10)%N || (c =? 13)%N || (c =? 8232)%N || (c =? 8233)%N).
Definition cls_any (c : N) : bool := true.

Definition spaces : re := RStar (RChr is_space).
Definition num_group (n : nat) : re := RGroup n (RPlus (RChr cls_num)).
Definition quoted_group (n : nat) : re := RGroup n (RPlus (RChr cls_not_dq)).

(** A parenthesis and a double quote, in either order. *)
Definition lp_q : jstr := [lparen; dquote].
Definition q_rp : jstr := [dquote; rparen].

Definition BILLING_VAR_REGEX : re :=
  RWordB @; RGroup 1 (alts (map (fun v => RLit (bv_key v)) BILLING_PRICING_VARS)) @;
  spaces @; RLit "*" @; spaces @; num_group 2.

Definition digits_re : re := RPlus (RChr is_digit).

(** [/^-?(?:\d+\.?\d*|\.\d+)(?:[eE][+-]?\d+)?$/] *)
Definition NUMERIC_LITERAL_BODY : re :=
  ROpt (RLit "-") @;
  (RAlt (digits_re @; ROpt (RLit ".") @; RStar (RChr is_digit)) (RLit "." @; digits_re)) @;
  ROpt (RChr is_e @; ROpt (RAlt (RLit "+") (RLit "-")) @; digits_re).

Definition NUMERIC_LITERAL_REGEX : re := RBol @; NUMERIC_LITERAL_BODY @; REol.

Definition is_numeric (s : jstr) : bool := re_test NUMERIC_LITERAL_REGEX s.

Definition group (n : nat) (c : caps) : jstr := match cap n c with Some s => s | None => [] end.

(** * Request rule constants and data *)

Definition MATCH_EQ : jstr := "eq".
Definition MATCH_CONTAINS : jstr := "contains".
Definition MATCH_GT : jstr := "gt".
Definition MATCH_GTE : jstr := "gte".
Definition MATCH_LT : jstr := "lt".
Definition MATCH_LTE : jstr := "lte".
Definition MATCH_EXISTS : jstr := "exists".
Definition MATCH_RANGE : jstr := "range".

Definition TIME_FUNCS : list jstr := ["hour"; "minute"; "weekday"; "month"; "day"].

Inductive PhSource := SOURCE_PARAM | SOURCE_HEADER.

Record ParamHeaderCondition := {
  ph_source : PhSource;
  ph_path : jstr;
  ph_mode : jstr;
  ph_value : jstr
}.

Record TimeCondition := {
  tc_timeFunc : jstr;
  tc_timezone : jstr;
  tc_mode : jstr;
  tc_value : jstr;
  tc_rangeStart : jstr;
  tc_rangeEnd : jstr
}.

Inductive RequestCondition :=
| CTime (c : TimeCondition)
| CPh (c : ParamHeaderCondition).

Record RequestRuleGroup := {
  rg_conditions : list RequestCondition;
  rg_multiplier : jstr
}.

Inductive TierOp := OpLt | OpLe | OpGt | OpGe.

Record TierCondition := {
  tcond_var : jstr;
  tcond_op : TierOp;
  tcond_value : number
}.

Record ParsedTier := {
  pt_label : jstr;
  pt_conditions : list TierCondition;
  pt_prices : list (jstr * number)       (* the [field -> price] entries *)
}.

(** * Tier parser *)

Definition cls_any_star : re := RStar (RChr cls_any).

Definition stripExprVersion (exprStr : jstr) : number * jstr :=
  match exprStr with
  | [] => (of_Z 1, [])
  | _ =>
    match match_caps (RBol @; RLit "v" @; RGroup 1 digits_re @; RLit ":" @;
                      RGroup 2 cls_any_star @; REol) exprStr with
    | Some m => (Number_str (group 1 m), group 2 m)
    | None => (of_Z 1, exprStr)
    end
  end.

Definition parseTierBody (bodyStr : jstr) : list (jstr * number) :=
  let coeffs :=
    fold_left (fun o h =>
                 let k := group 1 (hit_caps h) in
                 match obj_get k o with
                 | Some _ => o
                 | None => obj_set k (Number_str (group 2 (hit_caps h))) o
                 end) (exec_all BILLING_VAR_REGEX bodyStr) [] in
  map (fun kf => (snd kf, match obj_get (fst kf) coeffs with
                          | Some x => num_or x zero
                          | None => zero
                          end)) BILLING_VAR_KEY_TO_FIELD.

Definition cond_var : re := alts (map RLit ["p"; "c"; "len"]).
Definition cond_op : re := alts (map RLit ["<"; "<="; ">"; ">="]).

Definition one_cond (g : re -> nat -> re) : re :=
  g cond_var 1 @; spaces @; g cond_op 2 @; spaces @; g (RPlus (RChr cls_num_pos)) 3.

Definition plain (r : re) (_ : nat) : re := r.
Definition captured (r : re) (n : nat) : re := RGroup n r.

Definition condGroup : re :=
  RGroup 1 (one_cond plain @; RStar (spaces @; RLit "&&" @; spaces @; one_cond plain)).

Definition tier_prefix : re := ROpt (condGroup @; spaces @; RLit "?" @; spaces).

Definition tierRe : re :=
  tier_prefix @; RLit ("tier" ++ lp_q) @; RGroup 2 (RStar (RChr cls_not_dq)) @;
  RLit [dquote; 44%N] @; spaces @; RGroup 3 (RPlus (RChr cls_not_rp)) @; RLit ")".

Definition op_of_string (s : jstr) : TierOp :=
  if s =s "<=" then OpLe else if s =s ">" then OpGt else if s =s ">=" then OpGe else OpLt.

(** The conditions of one tier: [condStr.split(/\s*&&\s*/)] read one by one. *)
Definition parse_conditions (condStr : jstr) : list TierCondition :=
  match condStr with
  | [] => []
  | _ =>
    flat_map (fun cp =>
      match match_caps (RBol @; one_cond captured @; REol) (trim cp) with
      | Some cm => [ {| tcond_var := group 1 cm; tcond_op := op_of_string (group 2 cm);
                        tcond_value := Number_str (group 3 cm) |} ]
      | None => []
      end) (re_split (spaces @; RLit "&&" @; spaces) condStr)
  end.

Definition parseTiersFromExpr (exprStr : jstr) : list ParsedTier :=
  match exprStr with
  | [] => []
  | _ =>
    let body := snd (stripExprVersion exprStr) in
    map (fun h => let m := hit_caps h in
                  {| pt_label := group 2 m;
                     pt_conditions := parse_conditions (group 1 m);
                     pt_prices := parseTierBody (group 3 m) |})
        (exec_all tierRe body)
  end.

(** * Request rule parser *)

(** The loop shared by [splitTopLevelMultiply] and [splitTopLevelAnd]: [skip]
    units of a separator are still to be skipped ([index += 2]), [cur] is
    [expr.slice(start, index)] reversed. *)
Fixpoint splitTop_go (sep : jstr) (depth : Z) (skip : nat) (cur s : jstr) : list jstr :=
  match s with
  | [] => [trim (rev cur)]
  | c :: s' =>
    match skip with
    | S k => splitTop_go sep depth k cur s'
    | 0 =>
      let depth := if (c =? lparen)%N then (depth + 1)%Z else depth in
      let depth := if (c =? rparen)%N then (depth - 1)%Z else depth in
      if (depth =? 0)%Z && startsWith s sep
      then trim (rev cur) :: splitTop_go sep depth (length sep - 1) [] s'
      else splitTop_go sep depth 0 (c :: cur) s'
    end
  end.

Definition splitTopLevel (sep expr : jstr) : list jstr :=
  List.filter truthy (splitTop_go sep 0 0 [] expr).

Definition splitTopLevelMultiply (expr : jstr) : list jstr := splitTopLevel " * " expr.
Definition splitTopLevelAnd (expr : jstr) : list jstr := splitTopLevel " && " expr.

(** [None] is [null]; a literal that is the JSON [null] also gives [null]. *)
Definition parseExprLiteral (raw : jstr) : option json :=
  let text := trim raw in
  if (text =s "true") || (text =s "false") then Some (JStr text)
  else if is_numeric text then Some (JStr text)
  else match json_parse text with
       | Some JNull | None => None
       | Some v => Some v
       end.

Definition time_func : re := RGroup 1 (alts (map RLit TIME_FUNCS)).

(** [f("tz") >= a || f("tz") < b], the second call by backreferences. *)
Definition range_body : re :=
  time_func @; RLit lp_q @; quoted_group 2 @; RLit (q_rp ++ " >= ") @; num_group 3 @;
  RLit " || " @; RBack 1 @; RLit lp_q @; RBack 2 @; RLit (q_rp ++ " < ") @; num_group 4.

Definition time_range_re : re := RBol @; range_body @; REol.
Definition time_range_paren_re : re := RBol @; RLit "(" @; range_body @; RLit ")" @; REol.

Definition time_cmp_re : re :=
  RBol @; time_func @; RLit lp_q @; quoted_group 2 @; RLit (q_rp ++ " ") @;
  RGroup 3 (alts (map RLit ["=="; ">="; "<"])) @; RLit " " @; num_group 4 @; REol.

Definition time_range_cond (m : caps) : RequestCondition :=
  CTime {| tc_timeFunc := group 1 m; tc_timezone := group 2 m; tc_mode := MATCH_RANGE;
           tc_value := []; tc_rangeStart := group 3 m; tc_rangeEnd := group 4 m |}.

Definition time_op_mode (op : jstr) : jstr :=
  if op =s ">=" then MATCH_GTE else if op =s "<" then MATCH_LT else MATCH_EQ.

Definition tryParseTimeCondition (expr : jstr) : option RequestCondition :=
  match match_caps time_range_re expr with
  | Some m => Some (time_range_cond m)
  | None =>
    match match_caps time_range_paren_re expr with
    | Some m => Some (time_range_cond m)
    | None =>
      match match_caps time_cmp_re expr with
      | Some m =>
        Some (CTime {| tc_timeFunc := group 1 m; tc_timezone := group 2 m;
                       tc_mode := time_op_mode (group 3 m); tc_value := group 4 m;
                       tc_rangeStart := []; tc_rangeEnd := [] |})
      | None => None
      end
    end
  end.

(** A double-quoted string literal with backslash escapes. *)
Definition str_lit : re :=
  RLit [dquote] @;
  RStar (RAlt (RChr (fun c => cls_not_dq c && negb (c =? backslash)%N))
              (RLit [backslash] @; RChr cls_dot)) @; RLit [dquote].

Definition header_exists_re : re :=
  RBol @; RLit ("header" ++ lp_q) @; quoted_group 1 @; RLit (q_rp ++ " != " ++ [dquote; dquote])
  @; REol.
Definition param_exists_re : re :=
  RBol @; RLit ("param" ++ lp_q) @; quoted_group 1 @; RLit (q_rp ++ " != nil") @; REol.
Definition header_contains_re : re :=
  RBol @; RLit ("has(header" ++ lp_q) @; quoted_group 1 @; RLit (q_rp ++ ", ") @;
  RGroup 2 str_lit @; RLit ")" @; REol.
Definition param_contains_re : re :=
  RBol @; RLit ("param" ++ lp_q) @; quoted_group 1 @;
  RLit (q_rp ++ " != nil && has(param" ++ lp_q) @; quoted_group 2 @; RLit (q_rp ++ ", ") @;
  RGroup 3 str_lit @; RLit ")" @; REol.
Definition param_cmp_re : re :=
  RBol @; RLit ("param" ++ lp_q) @; quoted_group 1 @;
  RLit (q_rp ++ " != nil && param" ++ lp_q) @; quoted_group 2 @; RLit (q_rp ++ " ") @;
  RGroup 3 (alts (map RLit [">"; ">="; "<"; "<="])) @; RLit " " @; num_group 4 @; REol.
Definition eq_re : re :=
  RBol @; RGroup 1 (RAlt (RLit "param") (RLit "header")) @; RLit lp_q @; quoted_group 2 @;
  RLit (q_rp ++ " == ") @; RGroup 3 (RPlus (RChr cls_dot)) @; REol.

Definition cmp_op_mode (op : jstr) : jstr :=
  if op =s ">" then MATCH_GT
  else if op =s ">=" then MATCH_GTE
  else if op =s "<" then MATCH_LT
  else MATCH_LTE.

Definition ph (src : PhSource) (path mode value : jstr) : RequestCondition :=
  CPh {| ph_source := src; ph_path := path; ph_mode := mode; ph_value := value |}.

(** [m && m[1] === m[2]] *)
Definition same_groups (o : option caps) : option caps :=
  match o with
  | Some m => if group 1 m =s group 2 m then Some m else None
  | None => None
  end.

Definition source_of (s : jstr) : PhSource := if s =s "param" then SOURCE_PARAM else SOURCE_HEADER.

(** [JSON.parse(m[i]) as string] throws on a literal JSON does not accept. *)
Definition contains_cond (src : PhSource) (path lit : jstr) : exc (option RequestCondition) :=
  v <-! exc_of_option (json_parse lit);
  Ret (Some (ph src path MATCH_CONTAINS (js_String v))).

Definition tryParseEqCondition (expr : jstr) : option RequestCondition :=
  match match_caps eq_re expr with
  | Some m =>
    match parseExprLiteral (group 3 m) with
    | Some v => Some (ph (source_of (group 1 m)) (group 2 m) MATCH_EQ (js_String v))
    | None => None
    end
  | None => None
  end.

Definition tryParseRequestCondition (expr : jstr) : exc (option RequestCondition) :=
  match tryParseTimeCondition expr with
  | Some tc => Ret (Some tc)
  | None =>
    match match_caps header_exists_re expr with
    | Some m => Ret (Some (ph SOURCE_HEADER (group 1 m) MATCH_EXISTS []))
    | None =>
      match match_caps param_exists_re expr with
      | Some m => Ret (Some (ph SOURCE_PARAM (group 1 m) MATCH_EXISTS []))
      | None =>
        match match_caps header_contains_re expr with
        | Some m => contains_cond SOURCE_HEADER (group 1 m) (group 2 m)
        | None =>
          match same_groups (match_caps param_contains_re expr) with
          | Some m => contains_cond SOURCE_PARAM (group 1 m) (group 3 m)
          | None =>
            match same_groups (match_caps param_cmp_re expr) with
            | Some m =>
              Ret (Some (ph SOURCE_PARAM (group 1 m) (cmp_op_mode (group 3 m)) (group 4 m)))
            | None => Ret (tryParseEqCondition expr)
            end
          end
        end
      end
    end
  end.

Definition factor_re : re :=
  RBol @; RLit "(" @; RGroup 1 (RPlus (RChr cls_any)) @; RLit " ? " @; num_group 2 @;
  RLit " : 1)" @; REol.

(** The [for (const ap of andParts)] loop: stops at the first part that is not a
    condition. *)
Fixpoint parse_and_parts (parts : list jstr) : exc (option (list RequestCondition)) :=
  match parts with
  | [] => Ret (Some [])
  | ap :: rest =>
    cond <-! tryParseRequestCondition (trim ap);
    match cond with
    | None => Ret None
    | Some c =>
      cs <-! parse_and_parts rest;
      Ret (option_map (cons c) cs)
    end
  end.

Definition tryParseRuleGroupFactor (part : jstr) : exc (option RequestRuleGroup) :=
  match match_caps factor_re part with
  | None => Ret None
  | Some m =>
    conditions <-! parse_and_parts (splitTopLevelAnd (group 1 m));
    match conditions with
    | Some (c :: cs) =>
      Ret (Some {| rg_conditions := c :: cs; rg_multiplier := group 2 m |})
    | _ => Ret None
    end
  end.

(** The [for (const part of parts)] loop. *)
Fixpoint parse_factors (parts : list jstr) : exc (option (list RequestRuleGroup)) :=
  match parts with
  | [] => Ret (Some [])
  | part :: rest =>
    g <-! tryParseRuleGroupFactor part;
    match g with
    | None => Ret None
    | Some g =>
      gs <-! parse_factors rest;
      Ret (option_map (cons g) gs)
    end
  end.

Definition tryParseRequestRuleExpr (expr : jstr) : exc (option (list RequestRuleGroup)) :=
  match trim expr with
  | [] => Ret (Some [])
  | trimmed => parse_factors (splitTopLevelMultiply trimmed)
  end.

(** * Combining and splitting *)

(** The depth loop: [None] as soon as the depth is 0 before the last unit. *)
Fixpoint outer_depth (depth : Z) (s : jstr) : option Z :=
  match s with
  | [] => Some depth
  | c :: s' =>
    let depth := if (c =? lparen)%N then (depth + 1)%Z else depth in
    let depth := if (c =? rparen)%N then (depth - 1)%Z else depth in
    if (depth =? 0)%Z && truthy s' then None else outer_depth depth s'
  end.

Definition hasFullOuterParens (expr : jstr) : bool :=
  if negb (startsWith expr "(") || negb (endsWith expr ")") then false
  else match outer_depth 0 expr with Some d => (d =? 0)%Z | None => false end.

(** [s.slice(1, -1)] *)
Definition slice_1_m1 (s : jstr) : jstr := removelast (tl s).

(** The [while] loop; each round drops at least two units. *)
Fixpoint unwrap_loop (fuel : nat) (current : jstr) : jstr :=
  match fuel with
  | 0 => current
  | S f => if hasFullOuterParens current then unwrap_loop f (trim (slice_1_m1 current))
           else current
  end.

Definition unwrapOuterParens (expr : jstr) : jstr :=
  unwrap_loop (length expr) (trim expr).

(** Is a part a request rule? ([parsed && parsed.length > 0]) *)
Definition is_rule_part (part : jstr) : exc bool :=
  parsed <-! tryParseRequestRuleExpr part;
  Ret (match parsed with Some (_ :: _) => true | _ => false end).

Fixpoint partition_parts (parts : list jstr) : exc (list jstr * list jstr) :=
  match parts with
  | [] => Ret ([], [])
  | part :: rest =>
    b <-! is_rule_part part;
    rb <-! partition_parts rest;
    Ret (if b : bool then (part :: fst rb, snd rb) else (fst rb, part :: snd rb))
  end.

Definition splitBillingExprAndRequestRules (expr : jstr) : exc (jstr * jstr) :=
  let trimmed := trim expr in
  match trimmed with
  | [] => Ret ([], [])
  | _ =>
    let parts := splitTopLevelMultiply trimmed in
    if length parts <=? 1 then Ret (trimmed, [])
    else
      rb <-! partition_parts parts;
      match rb with
      | (r :: rs, [base]) => Ret (unwrapOuterParens base, join " * " (r :: rs))
      | _ => Ret (trimmed, [])
      end
  end.

Definition combineBillingExpr (baseExpr requestRuleExpr : jstr) : jstr :=
  let base := trim baseExpr in
  let rules := trim requestRuleExpr in
  if negb (truthy base) then []
  else if negb (truthy rules) then base
  else "(" ++ base ++ ") * " ++ rules.

(** * Editor *)

Definition createEmptyCondition : ParamHeaderCondition :=
  {| ph_source := SOURCE_PARAM; ph_path := []; ph_mode := MATCH_EQ; ph_value := [] |}.

Definition createEmptyTimeCondition : TimeCondition :=
  {| tc_timeFunc := "hour"; tc_timezone := "Asia/Shanghai"; tc_mode := MATCH_GTE;
     tc_value := []; tc_rangeStart := []; tc_rangeEnd := [] |}.

Definition createEmptyRuleGroup : RequestRuleGroup :=
  {| rg_conditions := [CPh createEmptyCondition]; rg_multiplier := [] |}.

Definition createEmptyTimeRuleGroup : RequestRuleGroup :=
  {| rg_conditions := [CTime createEmptyTimeCondition]; rg_multiplier := [] |}.

Inductive any_source := AnyTime | AnyPh (s : PhSource).

Record MatchOption := { mo_value : jstr; mo_labelKey : jstr }.

Definition opt (v l : jstr) : MatchOption := {| mo_value := v; mo_labelKey := l |}.

Definition getRequestRuleMatchOptions (source : any_source) : list MatchOption :=
  match source with
  | AnyTime =>
    [ opt MATCH_EQ "Equals"; opt MATCH_GTE "Greater than or equal"; opt MATCH_LT "Less than";
      opt MATCH_RANGE "Overnight range" ]
  | AnyPh src =>
    let base := [ opt MATCH_EQ "Equals"; opt MATCH_CONTAINS "Contains";
                  opt MATCH_EXISTS "Exists" ] in
    match src with
    | SOURCE_HEADER => base
    | SOURCE_PARAM =>
      base ++ [ opt MATCH_GT "Greater than"; opt MATCH_GTE "Greater than or equal";
                opt MATCH_LT "Less than"; opt MATCH_LTE "Less than or equal" ]
    end
  end.

Definition isTimeFunc (value : jstr) : bool := memb value TIME_FUNCS.

(** [Partial<RequestCondition>]: [None] is a missing (or null) field.  The source
    is [None] when it is neither [time] nor [header] nor [param]. *)
Record PartialCondition := {
  pc_source : option any_source;
  pc_timeFunc : option jstr;
  pc_timezone : option jstr;
  pc_path : option jstr;
  pc_mode : option jstr;
  pc_value : option jstr;
  pc_rangeStart : option jstr;
  pc_rangeEnd : option jstr
}.

Definition or_default (o : option jstr) (d : jstr) : jstr :=
  match o with Some s => str_or s d | None => d end.
Definition or_empty (o : option jstr) : jstr := match o with Some s => s | None => [] end.

Definition mode_or (source : any_source) (mode : option jstr) (d : jstr) : jstr :=
  match mode with
  | Some m => if existsb (fun item => mo_value item =s m) (getRequestRuleMatchOptions source)
              then m else d
  | None => d
  end.

Definition normalizeCondition (cond : PartialCondition) : RequestCondition :=
  match pc_source cond with
  | Some AnyTime =>
    CTime {| tc_timeFunc := match pc_timeFunc cond with
                            | Some f => if isTimeFunc f then f else "hour"
                            | None => "hour"
                            end;
             tc_timezone := or_default (pc_timezone cond) "Asia/Shanghai";
             tc_mode := mode_or AnyTime (pc_mode cond) MATCH_GTE;
             tc_value := or_empty (pc_value cond);
             tc_rangeStart := or_empty (pc_rangeStart cond);
             tc_rangeEnd := or_empty (pc_rangeEnd cond) |}
  | other =>
    let source := match other with Some (AnyPh SOURCE_HEADER) => SOURCE_HEADER
                                 | _ => SOURCE_PARAM end in
    CPh {| ph_source := source;
           ph_path := or_default (pc_path cond) [];
           ph_mode := mode_or (AnyPh source) (pc_mode cond) MATCH_EQ;
           ph_value := or_empty (pc_value cond) |}
  end.

(** A full condition seen as a partial one. *)
Definition partial_of (c : RequestCondition) : PartialCondition :=
  match c with
  | CTime t =>
    {| pc_source := Some AnyTime; pc_timeFunc := Some (tc_timeFunc t);
       pc_timezone := Some (tc_timezone t); pc_path := None; pc_mode := Some (tc_mode t);
       pc_value := Some (tc_value t); pc_rangeStart := Some (tc_rangeStart t);
       pc_rangeEnd := Some (tc_rangeEnd t) |}
  | CPh p =>
    {| pc_source := Some (AnyPh (ph_source p)); pc_timeFunc := None; pc_timezone := None;
       pc_path := Some (ph_path p); pc_mode := Some (ph_mode p);
       pc_value := Some (ph_value p); pc_rangeStart := None; pc_rangeEnd := None |}
  end.

(** * Building expression strings *)

Definition buildExprLiteral (mode value : jstr) : jstr :=
  let text := trim value in
  if mode =s MATCH_CONTAINS then quote text
  else if (text =s "true") || (text =s "false") then text
  else if is_numeric text then text
  else quote text.

Definition time_mode_op (mode : jstr) : jstr :=
  if mode =s MATCH_GTE then ">=" else if mode =s MATCH_LT then "<" else "==".

Definition buildTimeConditionExpr (cond : TimeCondition) : jstr :=
  match normalizeCondition (partial_of (CTime cond)) with
  | CPh _ => []
  | CTime normalized =>
    let fn := tc_timeFunc normalized ++ "(" ++ quote (tc_timezone normalized) ++ ")" in
    if tc_mode normalized =s MATCH_RANGE then
      let s := trim (tc_rangeStart normalized) in
      let e := trim (tc_rangeEnd normalized) in
      if negb (is_numeric s) || negb (is_numeric e) then []
      else fn ++ " >= " ++ s ++ " || " ++ fn ++ " < " ++ e
    else
      let v := trim (tc_value normalized) in
      if negb (is_numeric v) then []
      else fn ++ " " ++ time_mode_op (tc_mode normalized) ++ " " ++ v
  end.

Definition cmp_mode_op (mode : jstr) : option jstr :=
  if mode =s MATCH_GT then Some ">"
  else if mode =s MATCH_GTE then Some ">="
  else if mode =s MATCH_LT then Some "<"
  else if mode =s MATCH_LTE then Some "<="
  else None.

Definition source_expr (src : PhSource) (path : jstr) : jstr :=
  match src with
  | SOURCE_HEADER => "header(" ++ quote path ++ ")"
  | SOURCE_PARAM => "param(" ++ quote path ++ ")"
  end.

(** The [switch] on the normalized mode. *)
Definition build_ph_mode (src : PhSource) (path mode value : jstr) : jstr :=
  let sourceExpr := source_expr src path in
  if mode =s MATCH_EXISTS then
    match src with
    | SOURCE_HEADER => sourceExpr ++ " != " ++ [dquote; dquote]
    | SOURCE_PARAM => sourceExpr ++ " != nil"
    end
  else if mode =s MATCH_CONTAINS then
    let call := "has(" ++ sourceExpr ++ ", " ++ buildExprLiteral mode value ++ ")" in
    match src with
    | SOURCE_HEADER => call
    | SOURCE_PARAM => sourceExpr ++ " != nil && " ++ call
    end
  else
    match cmp_mode_op mode with
    | Some op =>
      let numText := trim value in
      if negb (is_numeric numText) then []
      else sourceExpr ++ " != nil && " ++ sourceExpr ++ " " ++ op ++ " " ++ numText
    | None => sourceExpr ++ " == " ++ buildExprLiteral mode value
    end.

Definition buildRequestConditionExpr (cond : RequestCondition) : jstr :=
  match cond with
  | CTime t => buildTimeConditionExpr t
  | CPh _ =>
    match normalizeCondition (partial_of cond) with
    | CTime _ => []
    | CPh normalized =>
      let path := trim (ph_path normalized) in
      if negb (truthy path) then []
      else build_ph_mode (ph_source normalized) path (ph_mode normalized) (ph_value normalized)
    end
  end.

Definition paren_or (e : jstr) : jstr := if includes e " || " then "(" ++ e ++ ")" else e.

Definition buildRuleGroupFactor (group : RequestRuleGroup) : jstr :=
  let multiplier := trim (rg_multiplier group) in
  if negb (is_numeric multiplier) then []
  else
    let condExprs := List.filter truthy (map buildRequestConditionExpr (rg_conditions group)) in
    match condExprs with
    | [] => []
    | _ =>
      let combined := match condExprs with
                      | [e] => e
                      | _ => join " && " (map paren_or condExprs)
                      end in
      "(" ++ combined ++ " ? " ++ multiplier ++ " : 1)"
    end.

Definition buildRequestRuleExpr (groups : list RequestRuleGroup) : jstr :=
  join " * " (List.filter truthy (map buildRuleGroupFactor groups)).
