(* ===== verification/BillingRules.v ===== *)
(** Theorems on the request rules of [BillingExpr]: parsing what the editor builds
    gives the rules back, for the conditions that can be read back; the two kinds
    of conditions that cannot; splitting a combined expression. *)

From S2P Require Import Prelude Number Regex Json BillingExpr.
From stdpp Require Import options.

(** * Top-level splitting *)

Definition step_depth (d : Z) (c : N) : Z :=
  let d := if (c =? lparen)%N then (d + 1)%Z else d in
  if (c =? rparen)%N then (d - 1)%Z else d.

(** One of the two strings is a prefix of the other. *)
Definition compat (a b : jstr) : bool := startsWith a b || startsWith b a.

(** Reading [t] from depth [d] never meets a separator at depth 0, whatever
    follows; the final depth. *)
Fixpoint sealed (sep : jstr) (d : Z) (t : jstr) : option Z :=
  match t with
  | [] => Some d
  | c :: t' =>
    let d' := step_depth d c in
    if (d' =? 0)%Z && compat sep t then None else sealed sep d' t'
  end.

Lemma splitTop_go_cons sep d cur c s :
  splitTop_go sep d 0 cur (c :: s) =
  if (step_depth d c =? 0)%Z && startsWith (c :: s) sep
  then trim (rev cur) :: splitTop_go sep (step_depth d c) (length sep - 1) [] s
  else splitTop_go sep (step_depth d c) 0 (c :: cur) s.
Proof. easy. Qed.

Lemma strip_prefix_app_cases sep t r x :
  strip_prefix sep (t ++ r) = Some x -> compat sep t = true.
Proof.
  unfold compat, startsWith. revert t; induction sep as [|a sep IH]; intros [|b t]; cbn; try easy.
  rewrite N.eqb_sym. destruct (b =? a)%N; [|easy]. apply IH.
Qed.

Lemma compat_app sep a b : compat sep (a ++ b) = true -> compat sep a = true.
Proof.
  unfold compat. intros [H|H]%orb_true_iff.
  - apply startsWith_true in H as [r ->]. now rewrite <- app_assoc, startsWith_app.
  - unfold startsWith in H. destruct (strip_prefix sep (a ++ b)) eqn:E; [|easy].
    exact (strip_prefix_app_cases _ _ _ _ E).
Qed.

Lemma sealed_go sep t d d' cur rest :
  sealed sep d t = Some d' ->
  splitTop_go sep d 0 cur (t ++ rest) = splitTop_go sep d' 0 (rev t ++ cur) rest.
Proof.
  revert d cur; induction t as [|c t IH]; intros d cur H; cbn [sealed] in H.
  - injection H as ->. easy.
  - destruct ((step_depth d c =? 0)%Z && compat sep (c :: t)) eqn:E; [discriminate|].
    cbn [app]. rewrite splitTop_go_cons.
    assert (E' : (step_depth d c =? 0)%Z && startsWith (c :: t ++ rest) sep = false).
    { destruct (step_depth d c =? 0)%Z; [|easy]. cbn [andb] in *. unfold startsWith.
      destruct (strip_prefix sep (c :: t ++ rest)) eqn:Es; [|easy].
      change (c :: t ++ rest) with ((c :: t) ++ rest) in Es.
      apply strip_prefix_app_cases in Es. congruence. }
    rewrite E', IH by easy. cbn [rev]. now rewrite <- app_assoc.
Qed.

Lemma sealed_app sep a b d d1 :
  sealed sep d a = Some d1 -> sealed sep d (a ++ b) = sealed sep d1 b.
Proof.
  revert d; induction a as [|c a IH]; intros d H; cbn [sealed app] in *; [now injection H as ->|].
  destruct ((step_depth d c =? 0)%Z && compat sep (c :: a)) eqn:E; [discriminate|].
  destruct ((step_depth d c =? 0)%Z && compat sep (c :: a ++ b)) eqn:E'; [|auto].
  apply andb_true_iff in E' as [E1 E2]. rewrite E1 in E. cbn [andb] in E.
  change (c :: a ++ b) with ((c :: a) ++ b) in E2. apply compat_app in E2. congruence.
Qed.

(** Balanced parentheses: the nesting level after [t], never below 0. *)
Fixpoint nest (n : nat) (t : jstr) : option nat :=
  match t with
  | [] => Some n
  | c :: t' =>
    if (c =? lparen)%N then nest (S n) t'
    else if (c =? rparen)%N then match n with 0 => None | S m => nest m t' end
    else nest n t'
  end.

Lemma nest_app n a b m : nest n a = Some m -> nest n (a ++ b) = nest m b.
Proof.
  revert n; induction a as [|c a IH]; intros n H; cbn in *; [now injection H as ->|].
  destruct (c =? lparen)%N; [auto|]. destruct (c =? rparen)%N; [|auto].
  destruct n; [discriminate|auto].
Qed.

(** Inside parentheses nothing is split. *)
Lemma nest_sealed sep t n m d :
  nest n t = Some m -> (0 < d)%Z -> sealed sep (d + Z.of_nat n) t = Some (d + Z.of_nat m)%Z.
Proof.
  intros H Hd; revert n H; induction t as [|c t IH]; intros n H; cbn [nest sealed] in *.
  - now injection H as ->.
  - assert (Hgen : forall k, nest k t = Some m -> step_depth (d + Z.of_nat n) c = (d + Z.of_nat k)%Z ->
              (if (step_depth (d + Z.of_nat n) c =? 0)%Z && compat sep (c :: t) then None
               else sealed sep (step_depth (d + Z.of_nat n) c) t) = Some (d + Z.of_nat m)%Z).
    { intros k Hk ->. assert (E : (d + Z.of_nat k =? 0)%Z = false) by (apply Z.eqb_neq; lia).
      rewrite E. cbn [andb]. auto. }
    unfold step_depth in *. destruct (N.eqb_spec c lparen) as [->|].
    + apply (Hgen (S n)); [easy|]. cbn. lia.
    + destruct (c =? rparen)%N; [|now apply (Hgen n)]. destruct n as [|n]; [discriminate|].
      apply (Hgen n); [easy|]. lia.
Qed.

Lemma splitTop_go_skip sep d w cur s :
  splitTop_go sep d (length w) cur (w ++ s) = splitTop_go sep d 0 cur s.
Proof. induction w; cbn; auto. Qed.

(** The separators of the sources: a blank first, no parenthesis. *)
Lemma splitTop_go_sep w cur rest :
  splitTop_go (32%N :: w) 0 0 cur ((32%N :: w) ++ rest)
  = trim (rev cur) :: splitTop_go (32%N :: w) 0 0 [] rest.
Proof.
  cbn [app]. rewrite splitTop_go_cons. cbn [step_depth Z.eqb andb N.eqb Pos.eqb].
  change (32%N :: w ++ rest) with ((32%N :: w) ++ rest). rewrite startsWith_app.
  cbn [length]. rewrite Nat.sub_succ, Nat.sub_0_r. f_equal. apply splitTop_go_skip.
Qed.

Definition part_ok (sep t : jstr) : Prop :=
  sealed sep 0 t = Some 0%Z /\ edges_ok t = true /\ t <> [].

(** Splitting joined parts gives the parts back. *)
Lemma splitTopLevel_join w ps :
  ps <> [] -> Forall (part_ok (32%N :: w)) ps ->
  splitTopLevel (32%N :: w) (join (32%N :: w) ps) = ps.
Proof.
  intros Hne H. unfold splitTopLevel.
  assert (E : splitTop_go (32%N :: w) 0 0 [] (join (32%N :: w) ps) = ps).
  { induction H as [|p ps (Hs & He & Hn) Hps IH]; [easy|]. destruct ps as [|q ps].
    - cbn [join]. rewrite <- (app_nil_r p) at 1. rewrite (sealed_go _ _ _ _ _ _ Hs).
      rewrite app_nil_r. cbn. now rewrite rev_involutive, edges_trim.
    - rewrite join_cons by easy. rewrite (sealed_go _ _ _ _ _ _ Hs), app_nil_r.
      rewrite splitTop_go_sep, rev_involutive, edges_trim by easy. now rewrite IH. }
  rewrite E. clear E Hne. induction H as [|p ps (_ & _ & Hn) _ IH]; [easy|].
  cbn. destruct p; [easy|]. cbn. now rewrite IH.
Qed.

(** * Texts and numbers the conditions hold *)

(** A unit that is printed as itself between double quotes and that [.] matches. *)
Definition plain_unit (c : N) : bool :=
  negb (c =? dquote)%N && negb (c =? backslash)%N && negb (c <? 32)%N
  && negb (is_high c) && negb (is_low c) && cls_dot c && (c <? 65536)%N.

Definition plain_text (s : jstr) : Prop :=
  Forall (fun c => plain_unit c = true) s /\ nest 0 s = Some 0.

(** A path or a time zone. *)
Definition name_ok (s : jstr) : Prop := plain_text s /\ edges_ok s = true /\ s <> [].

Lemma plain_quote_body s : Forall (fun c => plain_unit c = true) s -> quote_body s = s.
Proof.
  induction 1 as [|c s Hc Hs IH]; [easy|]. unfold plain_unit in Hc. bool_hyps.
  cbn [quote_body].
  repeat match goal with H : (c =? _)%N = false |- _ => rewrite H; clear H end.
  match goal with H : (c <? 32)%N = false |- _ => rename H into H32 end.
  apply N.ltb_ge in H32.
  assert (E : forall k, (k < 32)%N -> (c =? k)%N = false) by (intros; apply N.eqb_neq; lia).
  rewrite !E by lia. destruct (N.ltb_spec c 32); [lia|].
  repeat match goal with H : _ = false |- _ => rewrite H end. now rewrite IH.
Qed.

Lemma plain_quote s : Forall (fun c => plain_unit c = true) s -> quote s = dquote :: s ++ [dquote].
Proof. intros H. unfold quote. now rewrite plain_quote_body. Qed.

Lemma plain_not_dq s :
  Forall (fun c => plain_unit c = true) s -> Forall (fun c => cls_not_dq c = true) s.
Proof.
  intros Hs. apply (Forall_impl _ _ _ Hs). intros c H. unfold plain_unit in H. bool_hyps.
  unfold cls_not_dq. now apply negb_true_iff.
Qed.

Lemma plain_dot s :
  Forall (fun c => plain_unit c = true) s -> Forall (fun c => cls_dot c = true) s.
Proof. intros Hs. apply (Forall_impl _ _ _ Hs). intros c H. unfold plain_unit in H. now bool_hyps. Qed.

Lemma plain_wf s : Forall (fun c => plain_unit c = true) s -> wf_str s.
Proof.
  intros Hs. apply (Forall_impl _ _ _ Hs). intros c H. unfold plain_unit in H. bool_hyps. now apply N.ltb_lt.
Qed.

Lemma quote_nest s : plain_text s -> nest 0 (quote s) = Some 0.
Proof.
  intros [Hp Hn]. rewrite plain_quote by easy. cbn. now rewrite (nest_app 0 s _ 0).
Qed.

(** A numeric literal only has units of [cls_num]. *)
Lemma numeric_units s : is_numeric s = true -> Forall (fun c => cls_num c = true) s.
Proof.
  unfold is_numeric, NUMERIC_LITERAL_REGEX. apply re_test_within.
  unfold NUMERIC_LITERAL_BODY, ROpt, digits_re, RPlus. cbn [re_within].
  repeat split; repeat constructor; intros x Hx; unfold cls_num, is_e in *.
  all: rewrite ?orb_true_iff in *; tauto.
Qed.

Lemma num_unit_range c : cls_num c = true -> (43 <= c <= 101)%N /\ (c < 58 \/ c = 69 \/ c = 101)%N.
Proof.
  unfold cls_num. rewrite !orb_true_iff, !N.eqb_eq, is_digit_iff. lia.
Qed.

Lemma numeric_nonempty s : is_numeric s = true -> s <> [].
Proof. now intros H ->. Qed.

Lemma num_unit_facts c :
  cls_num c = true ->
  is_space c = false /\ (c =? lparen)%N = false /\ (c =? rparen)%N = false
  /\ (32 =? c)%N = false /\ cls_dot c = true /\ (63 =? c)%N = false /\ (dquote =? c)%N = false.
Proof.
  intros [H H']%num_unit_range. unfold is_space, cls_dot. repeat split; ncases.
Qed.

Lemma num_edges s : Forall (fun c => cls_num c = true) s -> edges_ok s = true.
Proof.
  intros H. unfold edges_ok. destruct s as [|c s]; [easy|].
  pose proof (Forall_rev H) as Hr.
  apply Forall_cons_1 in H as [Hc _]. destruct (num_unit_facts c Hc) as [-> _].
  destruct (rev (c :: s)) as [|d r]; [easy|].
  apply Forall_cons_1 in Hr as [Hd _]. now destruct (num_unit_facts d Hd) as [-> _].
Qed.

Lemma numeric_trim s : is_numeric s = true -> trim s = s.
Proof. intros H. now apply edges_trim, num_edges, numeric_units. Qed.

Lemma num_nest n s : Forall (fun c => cls_num c = true) s -> nest n s = Some n.
Proof.
  induction 1 as [|c s Hc _ IH]; [easy|]. destruct (num_unit_facts c Hc) as (_ & Hl & Hr & _).
  cbn. now rewrite Hl, Hr.
Qed.

Lemma num_sealed w d s :
  Forall (fun c => cls_num c = true) s -> sealed (32%N :: w) d s = Some d.
Proof.
  induction 1 as [|c s Hc _ IH]; [easy|].
  destruct (num_unit_facts c Hc) as (_ & Hl & Hr & H32 & _).
  cbn [sealed]. unfold step_depth. rewrite Hl, Hr.
  assert (E : compat (32%N :: w) (c :: s) = false).
  { unfold compat, startsWith. cbn [strip_prefix]. now rewrite (N.eqb_sym c 32), H32. }
  now rewrite E, andb_false_r.
Qed.

(** * Matching the common shapes *)

(** [name + lp_q + w + q_rp + tail] against a call pattern. *)
Lemma mt_call {A} name n lit r p w tail c (k : cont (A := A)) :
  w <> [] -> Forall (fun x => cls_not_dq x = true) w ->
  mt (RLit (name ++ lp_q) @; quoted_group n @; RLit (q_rp ++ lit) @; r) p
     (name ++ lp_q ++ w ++ q_rp ++ tail) c k
  = mt (RLit lit @; r) (Some rparen) tail ((n, w) :: c) k.
Proof.
  intros Hne Hw. rewrite mt_seq, app_assoc, mt_lit. cbv beta. rewrite mt_seq.
  unfold quoted_group. rewrite group_plus_exact; [|easy|easy|easy|now apply rejects_lit].
  cbv beta. rewrite mt_seq, mt_lit_app, mt_lit. easy.
Qed.

Lemma mt_num_end {A} n w p c (k : cont (A := A)) :
  w <> [] -> Forall (fun x => cls_num x = true) w ->
  forall x, k (last_opt p w) [] ((n, w) :: c) = Some x ->
  mt (num_group n @; REol) p w c k = Some x.
Proof.
  intros Hne Hw x Hx. rewrite mt_seq. unfold num_group. rewrite <- (app_nil_r w) at 1.
  now apply group_plus_first.
Qed.

Lemma quoted_shape s : Forall (fun c => plain_unit c = true) s ->
  forall rest, "(" ++ quote s ++ ")" ++ rest = lp_q ++ s ++ q_rp ++ rest.
Proof. intros H rest. rewrite plain_quote by easy. cbn. now rewrite <- app_assoc. Qed.

Definition src_name (src : PhSource) : jstr :=
  match src with SOURCE_PARAM => "param" | SOURCE_HEADER => "header" end.

Lemma source_expr_shape src path rest :
  Forall (fun c => plain_unit c = true) path ->
  source_expr src path ++ rest = src_name src ++ lp_q ++ path ++ q_rp ++ rest.
Proof.
  intros H. rewrite <- (quoted_shape path H rest).
  destruct src; cbn [source_expr src_name]; now rewrite <- !app_assoc.
Qed.

(** No time pattern matches an expression on a parameter or a header. *)
Lemma time_not_ph src rest : tryParseTimeCondition (src_name src ++ lp_q ++ rest) = None.
Proof. now destruct src. Qed.

Lemma time_not_has rest : tryParseTimeCondition ("has(" ++ rest) = None.
Proof. easy. Qed.

(** * Conditions that can be read back *)

(** What the parser of one condition must do with a text [e]. *)
Definition reads (e : jstr) (c : RequestCondition) : Prop :=
  tryParseRequestCondition e = Ret (Some c).

(** A text usable as one part of a conjunction. *)
Definition conj_part (e : jstr) : Prop := part_ok " && " e /\ nest 0 e = Some 0.

Definition eq_value_ok (v : jstr) : Prop :=
  trim v = v /\
  (v = "true" \/ v = "false" \/ is_numeric v = true
   \/ (is_numeric v = false /\ v <> "true" /\ v <> "false" /\ plain_text v
       /\ sealed " && " 0 (quote v) = Some 0%Z)).

Definition ph_ok (c : ParamHeaderCondition) : Prop :=
  name_ok (ph_path c) /\
  ((ph_mode c = MATCH_EXISTS /\ ph_value c = [])
   \/ (ph_mode c = MATCH_CONTAINS /\ ph_source c = SOURCE_HEADER
       /\ trim (ph_value c) = ph_value c /\ plain_text (ph_value c))
   \/ (ph_mode c = MATCH_EQ /\ eq_value_ok (ph_value c))).

Definition tc_ok (t : TimeCondition) : Prop :=
  In (tc_timeFunc t) TIME_FUNCS /\ name_ok (tc_timezone t) /\
  ((tc_mode t = MATCH_RANGE /\ tc_value t = []
    /\ is_numeric (tc_rangeStart t) = true /\ is_numeric (tc_rangeEnd t) = true)
   \/ ((tc_mode t = MATCH_EQ \/ tc_mode t = MATCH_GTE \/ tc_mode t = MATCH_LT)
       /\ is_numeric (tc_value t) = true /\ tc_rangeStart t = [] /\ tc_rangeEnd t = [])).

(** The texts must not contain the disjunction the builder looks for, the
    overnight range apart: the builder would put parentheses around them. *)
Definition ok_cond (c : RequestCondition) : Prop :=
  match c with
  | CTime t => tc_ok t /\ (tc_mode t = MATCH_RANGE
                           \/ includes (buildRequestConditionExpr c) " || " = false)
  | CPh p => ph_ok p /\ includes (buildRequestConditionExpr c) " || " = false
  end.

Lemma name_parts s :
  name_ok s -> Forall (fun c => plain_unit c = true) s /\ nest 0 s = Some 0
               /\ trim s = s /\ s <> [] /\ Forall (fun c => cls_not_dq c = true) s.
Proof.
  intros ([Hp Hn] & He & Hne). repeat split; auto using edges_trim, plain_not_dq.
Qed.

(** ** Shapes of the built texts *)

Lemma nest_shift n t m : nest n t = Some m -> nest (S n) t = Some (S m).
Proof.
  revert n; induction t as [|c t IH]; cbn; intros n H; [now injection H as ->|].
  destruct (c =? lparen)%N; [now apply IH|]. destruct (c =? rparen)%N; [|now apply IH].
  destruct n; [discriminate|]. now apply IH.
Qed.

Lemma nest_level k t : nest 0 t = Some 0 -> nest k t = Some k.
Proof. intros H. induction k; [easy|]. now apply nest_shift. Qed.

(** A call around a name: what precedes it opens [k] parentheses that [rest]
    closes. *)
Lemma conj_call k nm name rest :
  name_ok name ->
  nest 0 nm = Some k -> sealed " && " 0 nm = Some (Z.of_nat k) -> edges_ok (nm ++ lp_q) = true ->
  nest k rest = Some 0 -> sealed " && " (Z.of_nat k) rest = Some 0%Z ->
  edges_ok (q_rp ++ rest) = true ->
  conj_part (nm ++ lp_q ++ name ++ q_rp ++ rest).
Proof.
  intros (Hp & Hn & _)%name_parts Hnm Hsm Hem Hr Hsr Her. repeat split.
  - rewrite (sealed_app _ nm _ _ _ Hsm).
    assert (E : sealed " && " (Z.of_nat k) lp_q = Some (Z.of_nat k + 1)%Z).
    { cbn [sealed lp_q]. unfold step_depth. cbn [N.eqb Pos.eqb].
      replace (compat " && " [lparen; dquote]) with false by easy.
      replace (compat " && " [dquote]) with false by easy. now rewrite !andb_false_r. }
    rewrite (sealed_app _ lp_q _ _ _ E).
    pose proof (nest_sealed " && " name k k 1 (nest_level k _ Hn) ltac:(lia)) as Hs1.
    rewrite Z.add_comm in Hs1. rewrite (sealed_app _ name _ _ _ Hs1).
    assert (E' : sealed " && " (Z.of_nat k + 1) q_rp = Some (Z.of_nat k)).
    { cbn [sealed q_rp]. unfold step_depth. cbn [N.eqb Pos.eqb].
      replace (compat " && " [dquote; rparen]) with false by easy.
      replace (compat " && " [rparen]) with false by easy. rewrite !andb_false_r.
      f_equal. lia. }
    now rewrite (sealed_app _ q_rp _ _ _ E').
  - rewrite app_assoc. apply edges_ok_app; [easy|easy|now destruct nm|now destruct rest].
  - now destruct nm.
  - rewrite (nest_app _ nm _ _ Hnm), (nest_app _ lp_q _ (S k)) by easy.
    rewrite (nest_app _ name _ (S k)) by now apply nest_level.
    now rewrite (nest_app _ q_rp _ k).
Qed.

Lemma conj_src src name rest :
  name_ok name -> nest 0 rest = Some 0 -> sealed " && " 0 rest = Some 0%Z ->
  edges_ok (q_rp ++ rest) = true ->
  conj_part (src_name src ++ lp_q ++ name ++ q_rp ++ rest).
Proof. intros. apply (conj_call 0); auto; now destruct src. Qed.

Lemma edges_q_rp m b : edges_ok b = true -> b <> [] -> edges_ok (q_rp ++ m ++ b) = true.
Proof. intros. now apply edges_ok_app. Qed.

(** The mode is one of those the source offers. *)
Definition mode_valid (src : PhSource) (m : jstr) : bool :=
  existsb (fun item => mo_value item =s m) (getRequestRuleMatchOptions (AnyPh src)).

Lemma build_ph src path mode value :
  name_ok path -> mode_valid src mode = true ->
  buildRequestConditionExpr (ph src path mode value) = build_ph_mode src path mode value.
Proof.
  intros (Hp & Hn & Ht & Hne & _)%name_parts Hm.
  unfold buildRequestConditionExpr, ph, normalizeCondition, partial_of.
  cbn [pc_source pc_path pc_mode pc_value ph_source ph_path ph_mode ph_value or_default or_empty].
  unfold mode_or. unfold mode_valid in Hm.
  replace (match src with SOURCE_PARAM => SOURCE_PARAM | SOURCE_HEADER => SOURCE_HEADER end)
    with src by now destruct src.
  rewrite Hm. unfold str_or. destruct path as [|a path]; [easy|]. cbn [truthy]. now rewrite Ht.
Qed.

(** ** Existence *)

Definition exists_tail (src : PhSource) : jstr :=
  match src with SOURCE_HEADER => " != " ++ [dquote; dquote] | SOURCE_PARAM => " != nil" end.

Lemma build_exists src path :
  name_ok path ->
  buildRequestConditionExpr (ph src path MATCH_EXISTS [])
  = src_name src ++ lp_q ++ path ++ q_rp ++ exists_tail src.
Proof.
  intros H. rewrite build_ph by (easy || now destruct src).
  apply name_parts in H as (Hp & _). rewrite <- source_expr_shape by easy. now destruct src.
Qed.

Lemma reads_exists src path :
  name_ok path ->
  reads (src_name src ++ lp_q ++ path ++ q_rp ++ exists_tail src) (ph src path MATCH_EXISTS []).
Proof.
  intros (Hp & Hn & Ht & Hne & Hq)%name_parts. unfold reads, tryParseRequestCondition.
  rewrite time_not_ph. destruct src; cbn [src_name exists_tail].
  - no_match header_exists_re. unfold param_exists_re. rewrite match_bol.
    now rewrite (mt_call "param" 1 " != nil" REol).
  - unfold header_exists_re. rewrite match_bol.
    now rewrite (mt_call "header" 1 (" != " ++ [dquote; dquote]) REol).
Qed.

Lemma conj_exists src path :
  name_ok path -> conj_part (src_name src ++ lp_q ++ path ++ q_rp ++ exists_tail src).
Proof. intros H. apply conj_src; [easy|now destruct src..]. Qed.

(** ** Containment in a header *)

Lemma mt_str_lit {A} p v rest c (k : cont (A := A)) x :
  Forall (fun c => plain_unit c = true) v ->
  k (Some dquote) rest c = Some x ->
  mt str_lit p (dquote :: v ++ dquote :: rest) c k = Some x.
Proof.
  intros Hv Hk. unfold str_lit. rewrite mt_seq.
  change (dquote :: v ++ dquote :: rest) with ([dquote] ++ v ++ dquote :: rest).
  rewrite mt_lit. cbv beta. rewrite mt_seq. apply star_alt_first; [|easy|exact Hk].
  apply (Forall_impl _ _ _ Hv). intros y Hy. unfold plain_unit in Hy. bool_hyps.
  apply andb_true_iff; split; [|now apply negb_true_iff].
  unfold cls_not_dq. now apply negb_true_iff.
Qed.

Lemma parse_plain_literal v :
  Forall (fun c => plain_unit c = true) v -> json_parse (dquote :: v ++ [dquote]) = Some (JStr v).
Proof.
  intros H. rewrite <- plain_quote by easy. apply (json_parse_stringify (JStr v)).
  now apply plain_wf.
Qed.

Definition contains_text (path v : jstr) : jstr :=
  "has(header" ++ lp_q ++ path ++ q_rp ++ ", " ++ dquote :: v ++ dquote :: ")".

Lemma build_contains path v :
  name_ok path -> trim v = v -> Forall (fun c => plain_unit c = true) v ->
  buildRequestConditionExpr (ph SOURCE_HEADER path MATCH_CONTAINS v) = contains_text path v.
Proof.
  intros H Ht Hv. rewrite build_ph by easy. apply name_parts in H as (Hp & _).
  unfold build_ph_mode. cbn [seqb MATCH_EXISTS MATCH_CONTAINS N.eqb Pos.eqb andb].
  unfold buildExprLiteral. rewrite Ht.
  change (MATCH_CONTAINS =s MATCH_CONTAINS) with true. cbv iota.
  rewrite plain_quote by easy. cbn [MATCH_CONTAINS]. rewrite source_expr_shape by easy.
  unfold contains_text. cbn [src_name app]. now rewrite <- app_assoc.
Qed.

Lemma reads_contains path v :
  name_ok path -> Forall (fun c => plain_unit c = true) v ->
  reads (contains_text path v) (ph SOURCE_HEADER path MATCH_CONTAINS v).
Proof.
  intros (Hp & Hn & Ht & Hne & Hq)%name_parts Hv.
  unfold reads, tryParseRequestCondition, contains_text.
  change (tryParseTimeCondition _) with (@None RequestCondition).
  no_match header_exists_re. no_match param_exists_re.
  unfold header_contains_re. rewrite match_bol, (mt_call "has(header" 1 ", ") by easy.
  rewrite mt_seq, mt_lit. cbv beta. rewrite mt_seq.
  assert (E : forall k c x, k (Some dquote) ")" ((2, dquote :: v ++ [dquote]) :: c) = Some x ->
    mt (A := caps) (RGroup 2 str_lit) (last_opt (Some rparen) ", ") (dquote :: v ++ dquote :: ")") c k
    = Some x).
  { intros k c x Hk. cbn [mt]. fold (@mt caps). apply (mt_str_lit _ v); [easy|].
    change (dquote :: v ++ dquote :: ")") with (dquote :: v ++ [dquote] ++ ")").
    rewrite app_assoc. change (dquote :: (v ++ [dquote]) ++ ")") with ((dquote :: v ++ [dquote]) ++ ")").
    now rewrite take_consumed. }
  erewrite E by reflexivity. cbn [group cap Nat.eqb]. unfold contains_cond.
  now rewrite parse_plain_literal.
Qed.

(** What follows a call with one name and a quoted text. *)
Lemma quoted_tail k v : plain_text v ->
  nest (S k) (", " ++ dquote :: v ++ dquote :: ")") = Some k
  /\ sealed " && " 1 (", " ++ dquote :: v ++ dquote :: ")") = Some 0%Z
  /\ edges_ok (q_rp ++ ", " ++ dquote :: v ++ dquote :: ")") = true.
Proof.
  intros [Hv Hn]. split; [|split].
  - cbn. rewrite (nest_app _ v _ (S k)) by now apply nest_level. easy.
  - change (", " ++ dquote :: v ++ dquote :: ")") with ((", " ++ [dquote]) ++ v ++ [dquote; rparen]).
    rewrite (sealed_app _ (", " ++ [dquote]) _ 1 1) by easy.
    rewrite (sealed_app _ v _ 1 1) by (apply (nest_sealed " && " v 0 0 1); easy). easy.
  - change (", " ++ dquote :: v ++ dquote :: ")") with ((", " ++ [dquote]) ++ v ++ [dquote; rparen]).
    rewrite (app_assoc (", " ++ [dquote])). now apply edges_q_rp.
Qed.

Lemma conj_contains path v : name_ok path -> plain_text v -> conj_part (contains_text path v).
Proof.
  intros H Hv. destruct (quoted_tail 0 v Hv) as (? & ? & ?). now apply (conj_call 1).
Qed.


(** A blank that no ampersand follows is not the start of a separator. *)
Definition no_amp (s : jstr) : bool := match s with c :: _ => negb (38 =? c)%N | [] => false end.

Lemma sealed_space s : no_amp s = true -> sealed " && " 0 (32%N :: s) = sealed " && " 0 s.
Proof.
  destruct s as [|c s]; [easy|]. intros H%negb_true_iff. cbn [sealed].
  assert (E : compat " && " (32%N :: c :: s) = false).
  { destruct (compat _ _) eqn:E; [|easy].
    apply orb_true_iff in E as [[r Hr]%startsWith_true|[r Hr]%startsWith_true];
      injection Hr; intros; now subst c. }
  now rewrite E, andb_false_r.
Qed.

Lemma num_no_amp s rest : is_numeric s = true -> no_amp (s ++ rest) = true.
Proof.
  intros H. pose proof (numeric_units s H) as Hu. destruct s as [|c s]; [easy|].
  apply Forall_cons_1 in Hu as [Hc%num_unit_range _].
  apply negb_true_iff, N.eqb_neq. lia.
Qed.

(** ** Equality *)

Definition eq_text (src : PhSource) (path v : jstr) : jstr :=
  src_name src ++ lp_q ++ path ++ q_rp ++ " == " ++ buildExprLiteral MATCH_EQ v.

Lemma build_eq src path v :
  name_ok path -> buildRequestConditionExpr (ph src path MATCH_EQ v) = eq_text src path v.
Proof.
  intros H. rewrite build_ph by (easy || now destruct src).
  apply name_parts in H as (Hp & _). unfold eq_text. now rewrite <- source_expr_shape by easy.
Qed.

(** A literal of the builder: its units, and what the parser reads. *)
Record literal_ok (l v : jstr) : Prop := {
  lit_dots : Forall (fun c => cls_dot c = true) l;
  lit_reads : parseExprLiteral l = Some (JStr v);
  lit_edges : edges_ok l = true;
  lit_nonempty : l <> [];
  lit_nest : nest 0 l = Some 0;
  lit_no_amp : no_amp l = true;
  lit_sealed : sealed " && " 0 l = Some 0%Z
}.

Lemma quote_edges v : edges_ok (quote v) = true.
Proof. unfold quote. now apply (edges_ok_app [dquote] _ [dquote]). Qed.

Lemma literal_eq v : eq_value_ok v -> literal_ok (buildExprLiteral MATCH_EQ v) v.
Proof.
  intros [Ht [->|[->|[Hn|(Hn & Htr & Hfa & [Hp Hv] & Hs)]]]].
  - now split; repeat constructor.
  - now split; repeat constructor.
  - pose proof (numeric_units v Hn) as Hu.
    assert (E : buildExprLiteral MATCH_EQ v = v).
    { unfold buildExprLiteral. rewrite Ht, Hn. now destruct (_ || _). }
    rewrite E. split; auto using num_edges, numeric_nonempty, num_nest.
    + apply (Forall_impl _ _ _ Hu). intros c Hc. now apply num_unit_facts in Hc as (_&_&_&_&?&_).
    + unfold parseExprLiteral. rewrite Ht, Hn. now destruct (_ || _).
    + rewrite <- (app_nil_r v). now apply num_no_amp.
    + now apply num_sealed.
  - apply seqb_neq in Htr, Hfa.
    assert (E : buildExprLiteral MATCH_EQ v = quote v).
    { unfold buildExprLiteral. rewrite Ht, Htr, Hfa, Hn. easy. }
    rewrite E. split; auto using quote_edges.
    + rewrite plain_quote by easy. constructor; [easy|]. apply Forall_app. split; [|now repeat constructor].
      now apply plain_dot.
    + unfold parseExprLiteral. rewrite edges_trim by apply quote_edges.
      rewrite plain_quote by easy. rewrite parse_plain_literal by easy. easy.
    + now apply quote_nest.
Qed.

Lemma dots_eol {A} n w p c (k : cont (A := A)) x :
  w <> [] -> Forall (fun x => cls_dot x = true) w ->
  k (last_opt p w) [] ((n, w) :: c) = Some x ->
  mt (RGroup n (RPlus (RChr cls_dot)) @; REol) p w c k = Some x.
Proof.
  intros Hne Hw Hx. rewrite mt_seq. rewrite <- (app_nil_r w) at 1.
  now apply group_plus_first.
Qed.

Lemma mt_src_group {A} src rest (k : cont (A := A)) p :
  mt (RGroup 1 (RAlt (RLit "param") (RLit "header"))) p (src_name src ++ rest) [] k
  = k (last_opt p (src_name src)) rest [(1, src_name src)].
Proof.
  destruct src; cbn [src_name mt app strip_prefix N.eqb Pos.eqb or_else last_opt rev].
  - simpl_caps. cbn. now destruct (k _ _ _).
  - simpl_caps. cbn. easy.
Qed.

Lemma reads_eq src path v :
  name_ok path -> eq_value_ok v -> reads (eq_text src path v) (ph src path MATCH_EQ v).
Proof.
  intros (Hp & Hn & Ht & Hne & Hq)%name_parts Hv%literal_eq.
  unfold reads, tryParseRequestCondition, eq_text. rewrite time_not_ph.
  set (l := buildExprLiteral MATCH_EQ v) in *.
  replace (match_caps header_exists_re _) with (@None caps).
  2:{ destruct src; [reflexivity|]. unfold header_exists_re. rewrite match_bol. symmetry.
      cbn [src_name]. rewrite (mt_call "header" 1 (" != " ++ [dquote; dquote]) REol) by easy. reflexivity. }
  replace (match_caps param_exists_re _) with (@None caps).
  2:{ destruct src; [|reflexivity]. unfold param_exists_re. rewrite match_bol. symmetry.
      cbn [src_name]. rewrite (mt_call "param" 1 " != nil" REol) by easy. reflexivity. }
  replace (match_caps header_contains_re _) with (@None caps) by now destruct src.
  replace (match_caps param_contains_re _) with (@None caps).
  2:{ destruct src; [|reflexivity]. unfold param_contains_re. rewrite match_bol. symmetry.
      cbn [src_name]. rewrite (mt_call "param" 1 (" != nil && has(param" ++ lp_q)) by easy. reflexivity. }
  replace (match_caps param_cmp_re _) with (@None caps).
  2:{ destruct src; [|reflexivity]. unfold param_cmp_re. rewrite match_bol. symmetry.
      cbn [src_name]. rewrite (mt_call "param" 1 (" != nil && param" ++ lp_q)) by easy. reflexivity. }
  cbn [same_groups]. unfold tryParseEqCondition, eq_re.
  rewrite match_bol, mt_seq, mt_src_group. cbv beta.
  pose proof (fun p c k => mt_call (A := caps) [] 2 " == " (RGroup 3 (RPlus (RChr cls_dot)) @; REol)
                p path (" == " ++ l) c k Hne Hq) as E.
  rewrite !app_nil_l in E. rewrite E.
  rewrite mt_seq, mt_lit. cbv beta.
  erewrite dots_eol; [|now destruct Hv|now destruct Hv|reflexivity].
  unfold group. cbn [cap Nat.eqb]. rewrite (lit_reads _ _ Hv). now destruct src.
Qed.

Lemma conj_eq src path v : name_ok path -> eq_value_ok v -> conj_part (eq_text src path v).
Proof.
  intros H Hv%literal_eq. unfold eq_text. destruct Hv as [Hd _ He Hne Hn Ha Hs].
  apply conj_src; [easy|..].
  - now rewrite (nest_app _ " == " _ 0).
  - change (sealed " && " 0 (" ==" ++ 32%N :: buildExprLiteral MATCH_EQ v) = Some 0%Z).
    rewrite (sealed_app _ " ==" _ _ 0) by easy. now rewrite sealed_space.
  - now apply edges_q_rp.
Qed.

(** ** Times *)

Lemma mt_time_func {A} fn rest (k : cont (A := A)) p :
  In fn TIME_FUNCS ->
  mt time_func p (fn ++ rest) [] k = k (last_opt p fn) rest [(1, fn)].
Proof.
  intros H. unfold time_func.
  let r := eval cbv in (alts (map RLit TIME_FUNCS)) in
  change (alts (map RLit TIME_FUNCS)) with r.
  repeat (destruct H as [<-|H];
    [cbn [mt app strip_prefix N.eqb Pos.eqb or_else]; simpl_caps; cbn; now destruct (k _ _ _)|]).
  easy.
Qed.

(** A time function called on a zone, against a call pattern. *)
Lemma mt_time_call {A} fn tz lit r tail (k : cont (A := A)) p :
  In fn TIME_FUNCS -> name_ok tz ->
  mt (time_func @; RLit lp_q @; quoted_group 2 @; RLit (q_rp ++ lit) @; r) p
     (fn ++ lp_q ++ tz ++ q_rp ++ tail) [] k
  = mt (RLit lit @; r) (Some rparen) tail [(2, tz); (1, fn)] k.
Proof.
  intros Hf (Hp & Hn & Ht & Hne & Hq)%name_parts. rewrite mt_seq, mt_time_func by easy. cbv beta.
  pose proof (fun p c => mt_call (A := A) [] 2 lit r p tz tail c k Hne Hq) as E.
  rewrite !app_nil_l in E. now rewrite E.
Qed.

Definition cmp_text (fn tz op v : jstr) : jstr :=
  fn ++ lp_q ++ tz ++ q_rp ++ " " ++ op ++ " " ++ v.
Definition range_text (fn tz a b : jstr) : jstr :=
  fn ++ lp_q ++ tz ++ q_rp ++ " >= " ++ a ++ " || " ++ fn ++ lp_q ++ tz ++ q_rp ++ " < " ++ b.

Definition time_cond (fn tz mode v a b : jstr) : RequestCondition :=
  CTime {| tc_timeFunc := fn; tc_timezone := tz; tc_mode := mode; tc_value := v;
           tc_rangeStart := a; tc_rangeEnd := b |}.

Lemma normalize_time fn tz mode v a b :
  In fn TIME_FUNCS -> tz <> [] -> In mode [MATCH_EQ; MATCH_GTE; MATCH_LT; MATCH_RANGE] ->
  normalizeCondition (partial_of (time_cond fn tz mode v a b)) = time_cond fn tz mode v a b.
Proof.
  intros Hf Htz Hm. unfold normalizeCondition, partial_of, time_cond.
  cbn [pc_source pc_timeFunc pc_timezone pc_mode pc_value pc_rangeStart pc_rangeEnd tc_timeFunc
       tc_timezone tc_mode tc_value tc_rangeStart tc_rangeEnd or_default or_empty].
  unfold isTimeFunc. rewrite (proj2 (memb_In fn TIME_FUNCS) Hf).
  replace (str_or tz "Asia/Shanghai") with tz by now destruct tz.
  replace (mode_or AnyTime (Some mode) MATCH_GTE) with mode; [easy|].
  repeat (destruct Hm as [<-|Hm]; [easy|]). easy.
Qed.

Lemma build_cmp fn tz mode v :
  In fn TIME_FUNCS -> name_ok tz -> In mode [MATCH_EQ; MATCH_GTE; MATCH_LT] ->
  is_numeric v = true ->
  buildRequestConditionExpr (time_cond fn tz mode v [] []) = cmp_text fn tz (time_mode_op mode) v.
Proof.
  intros Hf (Hp & Hn & Ht & Hne & Hq)%name_parts Hm Hv.
  unfold buildRequestConditionExpr, time_cond, buildTimeConditionExpr.
  change (CTime _) with (time_cond fn tz mode v [] []).
  rewrite normalize_time by (easy || cbn; cbn in Hm; tauto). unfold time_cond.
  cbn [tc_mode tc_timeFunc tc_timezone tc_value].
  rewrite (numeric_trim v), Hv by easy.
  replace (mode =s MATCH_RANGE) with false by (repeat (destruct Hm as [<-|Hm]; [easy|]); easy).
  cbn [negb]. rewrite <- !app_assoc. now rewrite (quoted_shape tz).
Qed.

Lemma build_range fn tz a b :
  In fn TIME_FUNCS -> name_ok tz -> is_numeric a = true -> is_numeric b = true ->
  buildRequestConditionExpr (time_cond fn tz MATCH_RANGE [] a b) = range_text fn tz a b.
Proof.
  intros Hf (Hp & Hn & Ht & Hne & Hq)%name_parts Ha Hb.
  unfold buildRequestConditionExpr, time_cond, buildTimeConditionExpr.
  change (CTime _) with (time_cond fn tz MATCH_RANGE [] a b).
  rewrite normalize_time by (easy || cbn; tauto). unfold time_cond.
  cbn [tc_mode tc_timeFunc tc_timezone tc_rangeStart tc_rangeEnd].
  rewrite (numeric_trim a), (numeric_trim b), Ha, Hb by easy.
  change (MATCH_RANGE =s MATCH_RANGE) with true. cbn [negb orb].
  rewrite <- !app_assoc. now rewrite !(quoted_shape tz).
Qed.

Lemma mt_num_lit {A} n a w r p v rest c (k : cont (A := A)) :
  is_numeric v = true -> cls_num a = false ->
  mt (num_group n @; RLit (a :: w) @; r) p (v ++ a :: rest) c k
  = mt (RLit (a :: w) @; r) (last_opt p v) (a :: rest) ((n, v) :: c) k.
Proof.
  intros Hv Ha. rewrite mt_seq. unfold num_group.
  rewrite group_plus_exact; auto using numeric_nonempty, numeric_units, rejects_lit.
Qed.

(** What follows the comparison of the first call in a range. *)
Definition range_tail : re :=
  RBack 1 @; RLit lp_q @; RBack 2 @; RLit (q_rp ++ " < ") @; num_group 4.

Lemma mt_range {A} fn tz a rest p (k : cont (A := A)) :
  In fn TIME_FUNCS -> name_ok tz -> is_numeric a = true ->
  mt range_body p (fn ++ lp_q ++ tz ++ q_rp ++ " >= " ++ a ++ " || " ++ rest) [] k
  = mt range_tail (Some 32%N) rest [(3, a); (2, tz); (1, fn)] k.
Proof.
  intros Hf Htz Ha. unfold range_body.
  rewrite (mt_time_call fn tz " >= ") by easy. rewrite mt_seq, mt_lit. cbv beta.
  change (" || " ++ rest) with (32%N :: "|| " ++ rest).
  rewrite (mt_num_lit 3 32%N "|| ") by easy.
  change (32%N :: "|| " ++ rest) with (" || " ++ rest). now rewrite mt_seq, mt_lit.
Qed.

Lemma mt_range_tail {A} fn tz a b e p (k : cont (A := A)) x :
  is_numeric b = true -> stops cls_num e ->
  k (last_opt (Some 32%N) b) e [(4, b); (3, a); (2, tz); (1, fn)] = Some x ->
  mt range_tail p (fn ++ lp_q ++ tz ++ q_rp ++ " < " ++ b ++ e) [(3, a); (2, tz); (1, fn)] k
  = Some x.
Proof.
  intros Hb He Hk. unfold range_tail. cbn [mt cap Nat.eqb]. fold (@mt A).
  rewrite !strip_prefix_app. change (q_rp ++ " < " ++ b ++ e) with ((q_rp ++ " < ") ++ b ++ e).
  rewrite strip_prefix_app.
  apply (group_plus_first 4 cls_num b e); auto using numeric_nonempty, numeric_units.
Qed.

Lemma reads_range fn tz a b :
  In fn TIME_FUNCS -> name_ok tz -> is_numeric a = true -> is_numeric b = true ->
  reads (range_text fn tz a b) (time_cond fn tz MATCH_RANGE [] a b).
Proof.
  intros Hf Htz Ha Hb. unfold reads, tryParseRequestCondition, tryParseTimeCondition, range_text.
  unfold time_range_re. rewrite match_bol, mt_seq, mt_range by easy.
  rewrite <- (app_nil_r b). erewrite mt_range_tail; [|easy|easy|reflexivity].
  now rewrite app_nil_r.
Qed.

Lemma time_head fn : In fn TIME_FUNCS ->
  exists c r, fn = c :: r /\ (c =? lparen)%N = false.
Proof. intros H. repeat (destruct H as [<-|H]; [eauto|]). easy. Qed.

Lemma reads_range_paren fn tz a b :
  In fn TIME_FUNCS -> name_ok tz -> is_numeric a = true -> is_numeric b = true ->
  reads ("(" ++ range_text fn tz a b ++ ")") (time_cond fn tz MATCH_RANGE [] a b).
Proof.
  intros Hf Htz Ha Hb. unfold reads, tryParseRequestCondition, tryParseTimeCondition, range_text.
  no_match time_range_re. unfold time_range_paren_re. rewrite match_bol, mt_seq, mt_lit.
  cbv beta. rewrite mt_seq.
  replace ((fn ++ _) ++ ")")
    with (fn ++ lp_q ++ tz ++ q_rp ++ " >= " ++ a ++ " || " ++ fn ++ lp_q ++ tz ++ q_rp ++ " < "
          ++ b ++ ")") by now rewrite <- !app_assoc.
  rewrite mt_range by easy. erewrite mt_range_tail; [|easy|easy|reflexivity]. easy.
Qed.

Lemma or_else_None {A} (o : option A) : or_else o (fun _ => None) = o.
Proof. now destruct o. Qed.

Definition cmp_mode_ok (mode : jstr) : Prop := In mode [MATCH_EQ; MATCH_GTE; MATCH_LT].

Lemma mt_cmp_op {A} mode rest p c (k : cont (A := A)) :
  cmp_mode_ok mode ->
  mt (RGroup 3 (alts (map RLit ["=="; ">="; "<"])) @; RLit " " @; num_group 4 @; REol) p
     (time_mode_op mode ++ " " ++ rest) c k
  = mt (num_group 4 @; REol) (Some 32%N) rest ((3, time_mode_op mode) :: c) k.
Proof.
  intros H. rewrite mt_seq.
  let r := eval cbv in (alts (map RLit ["=="; ">="; "<"])) in
  change (alts (map RLit ["=="; ">="; "<"])) with r.
  destruct H as [<-|[<-|[<-|[]]]];
    match goal with |- context [time_mode_op ?m] =>
      let r := eval cbv in (time_mode_op m) in change (time_mode_op m) with r end;
    cbn [mt app strip_prefix N.eqb Pos.eqb or_else]; simpl_caps; cbn; try easy;
    apply or_else_None.
Qed.

Lemma reads_cmp fn tz mode v :
  In fn TIME_FUNCS -> name_ok tz -> cmp_mode_ok mode -> is_numeric v = true ->
  reads (cmp_text fn tz (time_mode_op mode) v) (time_cond fn tz mode v [] []).
Proof.
  intros Hf Htz Hm Hv. unfold reads, tryParseRequestCondition, tryParseTimeCondition, cmp_text.
  replace (match_caps time_range_re _) with (@None caps).
  2:{ unfold time_range_re. rewrite match_bol, mt_seq. unfold range_body.
      rewrite (mt_time_call fn tz " >= ") by easy. symmetry.
      destruct Hm as [<-|[<-|[<-|[]]]]; try reflexivity.
      change (" " ++ time_mode_op MATCH_GTE ++ " " ++ v) with (" >= " ++ v).
      rewrite mt_seq, mt_lit. cbv beta. rewrite mt_seq. unfold num_group.
      rewrite <- (app_nil_r v), group_plus_exact;
        [easy|now apply numeric_nonempty|now apply numeric_units|easy|now apply rejects_lit]. }
  replace (match_caps time_range_paren_re _) with (@None caps).
  2:{ symmetry. repeat (destruct Hf as [<-|Hf]; [reflexivity|]). easy. }
  unfold time_cmp_re. rewrite match_bol, (mt_time_call fn tz " ") by easy.
  rewrite mt_seq, mt_lit. cbv beta. rewrite mt_cmp_op by easy.
  erewrite mt_num_end; [|now apply numeric_nonempty|now apply numeric_units|reflexivity].
  unfold group. cbn [cap Nat.eqb]. now destruct Hm as [<-|[<-|[<-|[]]]].
Qed.

(** ** As parts of a conjunction *)

Lemma sealed_word w rest :
  sealed " && " 0 w = Some 0%Z -> no_amp rest = true ->
  sealed " && " 0 (w ++ 32%N :: rest) = sealed " && " 0 rest.
Proof. intros Hw Hr. rewrite (sealed_app _ w _ _ 0) by easy. now apply sealed_space. Qed.

Lemma conj_time fn tz rest :
  In fn TIME_FUNCS -> name_ok tz -> nest 0 rest = Some 0 -> sealed " && " 0 rest = Some 0%Z ->
  edges_ok (q_rp ++ rest) = true -> conj_part (fn ++ lp_q ++ tz ++ q_rp ++ rest).
Proof.
  intros Hf Htz Hn Hs He.
  repeat (destruct Hf as [<-|Hf]; [now apply (conj_call 0)|]). easy.
Qed.

Lemma num_facts v : is_numeric v = true ->
  nest 0 v = Some 0 /\ sealed " && " 0 v = Some 0%Z /\ edges_ok v = true /\ v <> []
  /\ no_amp v = true.
Proof.
  intros H. pose proof (numeric_units v H).
  repeat split; auto using num_nest, num_sealed, num_edges, numeric_nonempty.
  rewrite <- (app_nil_r v). now apply num_no_amp.
Qed.

Lemma conj_cmp fn tz mode v :
  In fn TIME_FUNCS -> name_ok tz -> cmp_mode_ok mode -> is_numeric v = true ->
  conj_part (cmp_text fn tz (time_mode_op mode) v).
Proof.
  intros Hf Htz Hm (Hn & Hs & He & Hne & Ha)%num_facts. unfold cmp_text.
  apply conj_time; auto.
  - destruct Hm as [<-|[<-|[<-|[]]]]; cbn; now rewrite Hn.
  - destruct Hm as [<-|[<-|[<-|[]]]].
    + change (sealed " && " 0 (" ==" ++ 32%N :: v) = Some 0%Z). now rewrite sealed_word.
    + change (sealed " && " 0 (" >=" ++ 32%N :: v) = Some 0%Z). now rewrite sealed_word.
    + change (sealed " && " 0 (" <" ++ 32%N :: v) = Some 0%Z). now rewrite sealed_word.
  - rewrite (app_assoc " "), (app_assoc (" " ++ _)). now apply edges_q_rp.
Qed.

Lemma conj_range fn tz a b :
  In fn TIME_FUNCS -> name_ok tz -> is_numeric a = true -> is_numeric b = true ->
  conj_part (range_text fn tz a b).
Proof.
  intros Hf Htz Ha (Hn & Hs & He & Hne & Hb)%num_facts. unfold range_text.
  assert (Hlast : conj_part (fn ++ lp_q ++ tz ++ q_rp ++ " < " ++ b)).
  { apply conj_time; auto.
    - change (sealed " && " 0 (" <" ++ 32%N :: b) = Some 0%Z). now rewrite sealed_word.
    - now apply edges_q_rp. }
  destruct Hlast as [(Hs' & He' & Hne') Hn']. set (e := fn ++ lp_q ++ tz ++ q_rp ++ " < " ++ b) in *.
  assert (Hae : no_amp e = true).
  { unfold e. repeat (destruct Hf as [<-|Hf]; [easy|]). easy. }
  pose proof (num_no_amp a (" || " ++ e) Ha) as Haa.
  destruct (num_facts a Ha) as (Hna & Hsa & Hea & _ & _).
  apply conj_time; auto.
  - cbn. now rewrite (nest_app 0 a _ 0).
  - change (sealed " && " 0 (" >=" ++ 32%N :: a ++ " ||" ++ 32%N :: e) = Some 0%Z).
    rewrite sealed_word by easy. rewrite (sealed_app _ a _ _ 0) by easy.
    now rewrite sealed_word.
  - rewrite (app_assoc " >= "), (app_assoc (" >= " ++ a)). now apply edges_q_rp.
Qed.

Lemma conj_paren e : conj_part e -> conj_part ("(" ++ e ++ ")").
Proof.
  intros [(Hs & He & Hne) Hn]. repeat split.
  - rewrite (sealed_app _ "(" _ _ 1) by easy.
    pose proof (nest_sealed " && " e 0 0 1 Hn ltac:(lia)) as H.
    cbn [Z.of_nat] in H. rewrite Z.add_0_r in H. now rewrite (sealed_app _ e _ _ 1).
  - now apply (edges_ok_app "(" e ")").
  - easy.
  - cbn. now rewrite (nest_app 1 e _ 1) by now apply nest_level.
Qed.

(** Every condition that can be read back: its text, alone or as a part. *)
Record cond_reads (c : RequestCondition) : Prop := {
  cr_reads : reads (buildRequestConditionExpr c) c;
  cr_part_reads : reads (paren_or (buildRequestConditionExpr c)) c;
  cr_conj : conj_part (buildRequestConditionExpr c)
}.

Lemma cond_reads_plain c :
  includes (buildRequestConditionExpr c) " || " = false ->
  reads (buildRequestConditionExpr c) c -> conj_part (buildRequestConditionExpr c) ->
  cond_reads c.
Proof. intros Hi Hr Hc. split; [easy| |easy]. unfold paren_or. now rewrite Hi. Qed.

Lemma ok_cond_reads c : ok_cond c -> cond_reads c.
Proof.
  destruct c as [[fn tz mode v a b]|[src path mode v]]; cbn [ok_cond]; intros [H Hi].
  - change (CTime _) with (time_cond fn tz mode v a b) in Hi |- *.
    unfold tc_ok in H.
    cbn [tc_mode tc_timeFunc tc_timezone tc_value tc_rangeStart tc_rangeEnd] in *.
    destruct H as (Hf & Htz & [(-> & -> & Ha & Hb)|(Hm & Hv & -> & ->)]).
    + clear Hi. split; rewrite build_range by easy; auto using reads_range, conj_range.
      unfold paren_or. destruct (includes _ _); auto using reads_range, reads_range_paren.
    + assert (Hm' : cmp_mode_ok mode) by (unfold cmp_mode_ok; cbn; intuition).
      destruct Hi as [->|Hi]; [now destruct Hm as [|[]]|].
      apply cond_reads_plain; [easy|..]; rewrite build_cmp by easy;
        auto using reads_cmp, conj_cmp.
  - destruct H as [Hn Hm]. cbn [ph_path ph_mode ph_value ph_source] in *.
    change (CPh _) with (ph src path mode v) in Hi |- *.
    apply cond_reads_plain; [easy|..];
    destruct Hm as [(-> & ->)|[(-> & -> & Ht & Hp & Hv)|(-> & Hv)]];
    rewrite ?build_exists, ?build_contains, ?build_eq by easy;
    auto using reads_exists, conj_exists, reads_contains, reads_eq, conj_eq.
    now apply conj_contains.
Qed.

(** * Groups *)

Record group_ok (g : RequestRuleGroup) : Prop := {
  gok_conditions : Forall ok_cond (rg_conditions g);
  gok_nonempty : rg_conditions g <> [];
  gok_multiplier : is_numeric (rg_multiplier g) = true
}.

Lemma filter_truthy l : Forall (fun e : jstr => e <> []) l -> List.filter truthy l = l.
Proof. induction 1 as [|e l He _ IH]; [easy|]. cbn. destruct e; [easy|]. cbn. now rewrite IH. Qed.

(** The parts of the conjunction of a group. *)
Definition cond_texts (cs : list RequestCondition) : list jstr :=
  match cs with
  | [c] => [buildRequestConditionExpr c]
  | _ => map (fun c => paren_or (buildRequestConditionExpr c)) cs
  end.

Lemma conj_nonempty e : conj_part e -> e <> [].
Proof. now intros [(_ & _ & H) _]. Qed.

Lemma build_group g :
  group_ok g ->
  buildRuleGroupFactor g
  = "(" ++ join " && " (cond_texts (rg_conditions g)) ++ " ? " ++ rg_multiplier g ++ " : 1)".
Proof.
  intros [Hc Hne Hm]. unfold buildRuleGroupFactor. rewrite numeric_trim, Hm by easy. cbn [negb].
  rewrite filter_truthy.
  2:{ apply Forall_map. apply (Forall_impl _ _ _ Hc). intros c H%ok_cond_reads.
      apply conj_nonempty, H. }
  destruct (rg_conditions g) as [|c [|c' cs]]; [easy|easy|]. unfold cond_texts.
  cbn [map]. now rewrite map_map.
Qed.

Lemma paren_or_conj e : conj_part e -> conj_part (paren_or e).
Proof. intros H. unfold paren_or. destruct (includes _ _); auto using conj_paren. Qed.

Lemma cond_texts_ok cs :
  Forall ok_cond cs ->
  Forall2 reads (cond_texts cs) cs /\ Forall conj_part (cond_texts cs).
Proof.
  intros H. apply (Forall_impl _ cond_reads) in H; [|exact ok_cond_reads].
  assert (Hm : Forall2 reads (map (fun c => paren_or (buildRequestConditionExpr c)) cs) cs
               /\ Forall conj_part (map (fun c => paren_or (buildRequestConditionExpr c)) cs)).
  { split; [|apply Forall_map]; induction H as [|c cs Hc _ IH]; cbn; constructor; auto;
      try apply Hc. apply paren_or_conj, Hc. }
  destruct cs as [|c [|c' cs]]; [easy| |easy].
  apply Forall_cons_1 in H as [Hc _]. split; constructor; auto; apply Hc.
Qed.

Lemma parse_parts ts cs :
  Forall2 reads ts cs -> Forall conj_part ts -> parse_and_parts ts = Ret (Some cs).
Proof.
  induction 1 as [|t c ts cs Ht _ IH]; [easy|]. intros [[(_ & He & _) _] Hts]%Forall_cons_1.
  cbn [parse_and_parts]. rewrite edges_trim, Ht by easy. cbn. now rewrite IH.
Qed.

Lemma join_nest k ts : Forall conj_part ts -> nest k (join " && " ts) = Some k.
Proof.
  induction 1 as [|t ts [_ Hn] _ IH]; [easy|]. destruct ts as [|t' ts]; [now apply nest_level|].
  rewrite join_cons by easy. rewrite (nest_app _ t _ k) by now apply nest_level.
  now rewrite (nest_app _ " && " _ k).
Qed.

Lemma join_nonempty ts : ts <> [] -> Forall conj_part ts -> join " && " ts <> [].
Proof.
  intros Hne H. destruct H as [|t ts Ht%conj_nonempty _]; [easy|].
  destruct ts; [easy|]. rewrite join_cons by easy. now destruct t.
Qed.

Definition factor_tail (m : jstr) : jstr := " ? " ++ m ++ " : 1)".

Lemma factor_tail_once m q v1 v2 c (k : cont (A := caps)) r :
  is_numeric m = true -> factor_tail m = v1 ++ v2 -> v1 <> [] ->
  mt (RLit " ? " @; r) q v2 c k = None.
Proof.
  intros Hm E Hv1. cbn [mt]. destruct (strip_prefix " ? " v2) as [r'|] eqn:Es; [|easy].
  apply strip_prefix_Some in Es as ->. exfalso.
  assert (Hn : Forall (fun c => c <> 63%N) (32%N :: m ++ " : 1)")).
  { constructor; [easy|]. apply Forall_app. split; [|now repeat constructor].
    apply (Forall_impl _ _ _ (numeric_units m Hm)). intros x Hx%num_unit_range. lia. }
  unfold factor_tail in E. destruct v1 as [|a [|b v1]]; [easy|now injection E|].
  injection E; intros E' _ _. cbn in E'.
  assert (Hin : In 63%N (32%N :: m ++ " : 1)")).
  { rewrite E'. apply in_or_app. right. cbn. tauto. }
  rewrite List.Forall_forall in Hn. now apply (Hn 63%N).
Qed.

Lemma any_unit (s : jstr) : Forall (fun c => cls_any c = true) s.
Proof. now apply Forall_true. Qed.

Lemma match_factor b m :
  b <> [] -> is_numeric m = true ->
  match_caps factor_re ("(" ++ b ++ factor_tail m) = Some [(2, m); (1, b)].
Proof.
  intros Hb Hm. unfold factor_re. rewrite match_bol, mt_seq, mt_lit. cbv beta. rewrite mt_seq.
  apply group_plus_back; auto using any_unit.
  - intros q v1 v2 c E Hv. now apply (factor_tail_once m q v1).
  - unfold factor_tail. rewrite mt_seq, mt_lit. cbv beta. rewrite mt_seq.
    apply (group_plus_first 2 cls_num m); auto using numeric_nonempty, numeric_units. easy.
Qed.

Lemma parse_group g :
  group_ok g -> tryParseRuleGroupFactor (buildRuleGroupFactor g) = Ret (Some g).
Proof.
  intros Hg. rewrite build_group by easy. destruct Hg as [Hc Hne Hm].
  apply cond_texts_ok in Hc as [Hr Hp]. set (ts := cond_texts (rg_conditions g)) in *.
  assert (Hts : ts <> []).
  { intros E. rewrite E in Hr. inversion Hr. now destruct (rg_conditions g). }
  unfold tryParseRuleGroupFactor.
  change (" ? " ++ rg_multiplier g ++ " : 1)") with (factor_tail (rg_multiplier g)).
  rewrite match_factor by auto using join_nonempty.
  unfold group. cbn [cap Nat.eqb]. unfold splitTopLevelAnd. rewrite splitTopLevel_join; [|easy|].
  2:{ apply (Forall_impl _ _ _ Hp). intros t Ht. apply Ht. }
  rewrite (parse_parts _ _ Hr Hp). cbn. destruct g as [[|c cs] m]; [easy|]. easy.
Qed.

(** A conditional expression in parentheses is one factor. *)
Lemma factor_shape b m :
  nest 0 b = Some 0 -> is_numeric m = true -> part_ok " * " ("(" ++ b ++ factor_tail m).
Proof.
  intros Hb Hm.
  assert (Hn : nest 0 (b ++ " ? " ++ m ++ " : 1") = Some 0).
  { rewrite (nest_app _ b _ 0), (nest_app _ " ? " _ 0) by easy.
    now rewrite (nest_app _ m _ 0) by now apply num_nest, numeric_units. }
  unfold factor_tail. replace (_ ++ _ ++ _ ++ _ ++ _)
    with ("(" ++ (b ++ " ? " ++ m ++ " : 1") ++ ")") by now rewrite <- !app_assoc.
  repeat split; [|now apply (edges_ok_app "(" _ ")")|easy].
  rewrite (sealed_app _ "(" _ _ 1) by easy.
  pose proof (nest_sealed " * " _ 0 0 1 Hn ltac:(lia)) as H. cbn [Z.of_nat] in H.
  rewrite Z.add_0_r in H. now rewrite (sealed_app _ (b ++ _) _ _ 1).
Qed.

Lemma factor_part g : group_ok g -> part_ok " * " (buildRuleGroupFactor g).
Proof.
  intros Hg. rewrite build_group by easy. destruct Hg as [Hc Hne Hm].
  apply cond_texts_ok in Hc as [_ Hp]. apply factor_shape; [now apply join_nest|easy].
Qed.

(** One factor alone. *)
Lemma parse_one_factor f :
  part_ok " * " f -> tryParseRequestRuleExpr f
  = (g <-! tryParseRuleGroupFactor f; Ret (option_map (fun g => [g]) g)).
Proof.
  intros Hf. destruct Hf as (Hs & He & Hne) eqn:E. clear E.
  unfold tryParseRequestRuleExpr. rewrite edges_trim by easy. destruct f as [|c f]; [easy|].
  unfold splitTopLevelMultiply. change (splitTopLevel " * " (c :: f))
    with (splitTopLevel " * " (join " * " [c :: f])).
  rewrite splitTopLevel_join by (easy || now repeat constructor).
  cbn [parse_factors]. now destruct (tryParseRuleGroupFactor (c :: f)) as [[g|]|].
Qed.

Lemma parse_groups gs :
  Forall group_ok gs -> parse_factors (map buildRuleGroupFactor gs) = Ret (Some gs).
Proof.
  induction 1 as [|g gs Hg _ IH]; [easy|]. cbn [map parse_factors].
  rewrite parse_group by easy. cbn. now rewrite IH.
Qed.

Lemma factors_nonempty gs :
  Forall group_ok gs -> List.filter truthy (map buildRuleGroupFactor gs) = map buildRuleGroupFactor gs.
Proof.
  intros H. apply filter_truthy, Forall_map. apply (Forall_impl _ _ _ H).
  intros g Hg%factor_part. apply Hg.
Qed.

Lemma factors_parts gs :
  Forall group_ok gs -> Forall (part_ok " * ") (map buildRuleGroupFactor gs).
Proof. intros H. apply Forall_map, (Forall_impl _ _ _ H), factor_part. Qed.

Lemma join_edges w ps : Forall (part_ok (32%N :: w)) ps -> edges_ok (join (32%N :: w) ps) = true.
Proof.
  induction 1 as [|p ps (_ & He & Hne) Hps IH]; [easy|]. destruct ps as [|q ps]; [easy|].
  rewrite join_cons by easy. apply edges_ok_app; try easy.
  apply Forall_cons_1 in Hps as [(_ & _ & Hq) _]. cbn. destruct ps; [easy|now destruct q].
Qed.

Lemma parse_build gs :
  Forall group_ok gs -> tryParseRequestRuleExpr (buildRequestRuleExpr gs) = Ret (Some gs).
Proof.
  intros H. unfold tryParseRequestRuleExpr, buildRequestRuleExpr.
  rewrite factors_nonempty by easy. pose proof (factors_parts gs H) as Hp.
  rewrite edges_trim by now apply join_edges.
  destruct gs as [|g gs]; [easy|]. unfold splitTopLevelMultiply.
  destruct (join " * " (map buildRuleGroupFactor (g :: gs))) as [|c s] eqn:E.
  - exfalso. cbn [map] in E. apply Forall_cons_1 in Hp as [(_ & _ & Hne) _].
    destruct gs; cbn in E; [easy|]. now destruct (buildRuleGroupFactor g).
  - rewrite <- E, splitTopLevel_join by easy. now apply parse_groups.
Qed.

(** * Conditions that are never read back *)

Definition guard_text (path : jstr) : jstr := src_name SOURCE_PARAM ++ lp_q ++ path ++ q_rp ++ " != nil".

Lemma guard_reads path :
  name_ok path -> reads (guard_text path) (ph SOURCE_PARAM path MATCH_EXISTS []).
Proof. apply (reads_exists SOURCE_PARAM). Qed.

Lemma guard_conj path : name_ok path -> conj_part (guard_text path).
Proof. apply (conj_exists SOURCE_PARAM). Qed.

Definition pcmp_text (path op v : jstr) : jstr :=
  src_name SOURCE_PARAM ++ lp_q ++ path ++ q_rp ++ " " ++ op ++ " " ++ v.

Definition phas_text (path v : jstr) : jstr :=
  "has(param" ++ lp_q ++ path ++ q_rp ++ ", " ++ dquote :: v ++ dquote :: ")".

(** A comparison or a containment on its own is not a condition ... *)
Lemma pcmp_unread path op v :
  name_ok path -> In op [">"; ">="; "<"; "<="] ->
  tryParseRequestCondition (pcmp_text path op v) = Ret None.
Proof.
  intros (Hp & Hn & Ht & Hne & Hq)%name_parts Hop. unfold tryParseRequestCondition, pcmp_text.
  rewrite time_not_ph. cbn [src_name].
  no_match header_exists_re. no_match header_contains_re.
  unfold param_exists_re, param_contains_re, param_cmp_re, tryParseEqCondition, eq_re.
  rewrite !match_bol, (mt_call "param" 1 " != nil" REol),
    (mt_call "param" 1 (" != nil && has(param" ++ lp_q)),
    (mt_call "param" 1 (" != nil && param" ++ lp_q)) by easy.
  rewrite (mt_seq (RGroup 1 (RAlt (RLit "param") (RLit "header")))).
  pose proof (fun rest => mt_src_group (A := caps) SOURCE_PARAM rest) as Es.
  cbn [src_name] in Es. rewrite Es. cbv beta.
  pose proof (fun p c k => mt_call (A := caps) [] 2 " == " (RGroup 3 (RPlus (RChr cls_dot)) @; REol)
                p path (" " ++ op ++ " " ++ v) c k Hne Hq) as E.
  rewrite !app_nil_l in E. rewrite E.
  repeat (destruct Hop as [<-|Hop]; [reflexivity|]). easy.
Qed.

Lemma phas_unread path v : tryParseRequestCondition (phas_text path v) = Ret None.
Proof. reflexivity. Qed.

Lemma pcmp_conj path op v :
  name_ok path -> In op [">"; ">="; "<"; "<="] -> is_numeric v = true ->
  conj_part (pcmp_text path op v).
Proof.
  intros H Hop (Hn & Hs & He & Hne & Ha)%num_facts. unfold pcmp_text. apply conj_src; [easy|..].
  - repeat (destruct Hop as [<-|Hop]; [cbn; now rewrite Hn|]). easy.
  - assert (E : sealed " && " 0 (" " ++ op) = Some 0%Z).
    { repeat (destruct Hop as [<-|Hop]; [easy|]). easy. }
    rewrite (app_assoc " "). change (" " ++ v) with (32%N :: v). now rewrite sealed_word.
  - rewrite (app_assoc " "), (app_assoc (" " ++ _)). now apply edges_q_rp.
Qed.

Lemma phas_conj path v : name_ok path -> plain_text v -> conj_part (phas_text path v).
Proof.
  intros H Hv. unfold phas_text. destruct (quoted_tail 0 v Hv) as (? & ? & ?).
  now apply (conj_call 1).
Qed.

(** ... and the parser cuts the built text between the guard and it. *)
Lemma guarded_unread path b m :
  name_ok path -> conj_part b -> tryParseRequestCondition b = Ret None -> is_numeric m = true ->
  tryParseRuleGroupFactor ("(" ++ (guard_text path ++ " && " ++ b) ++ factor_tail m) = Ret None.
Proof.
  intros Hpath Hb Hu Hm. pose proof (guard_conj path Hpath) as Hg.
  unfold tryParseRuleGroupFactor. rewrite match_factor by easy.
  unfold group. cbn [cap Nat.eqb]. unfold splitTopLevelAnd.
  change (guard_text path ++ " && " ++ b) with (join " && " [guard_text path; b]).
  rewrite splitTopLevel_join; [|easy|repeat constructor; (apply Hg || apply Hb)].
  destruct Hg as [(_ & Heg & _) _], Hb as [(_ & Heb & _) _].
  cbn [parse_and_parts]. rewrite !edges_trim by easy.
  rewrite (guard_reads path Hpath). cbn. now rewrite Hu.
Qed.

Lemma guarded_unread_expr path b m :
  name_ok path -> conj_part b -> tryParseRequestCondition b = Ret None -> is_numeric m = true ->
  tryParseRequestRuleExpr ("(" ++ (guard_text path ++ " && " ++ b) ++ factor_tail m) = Ret None.
Proof.
  intros Hpath Hb Hu Hm. rewrite parse_one_factor; [now rewrite guarded_unread|].
  apply factor_shape; [|easy]. apply (join_nest 0 [guard_text path; b]).
  auto using guard_conj.
Qed.

Lemma build_single c m :
  is_numeric m = true -> buildRequestConditionExpr c <> [] ->
  buildRequestRuleExpr [{| rg_conditions := [c]; rg_multiplier := m |}]
  = "(" ++ buildRequestConditionExpr c ++ factor_tail m.
Proof.
  intros Hm Hc. unfold buildRequestRuleExpr, buildRuleGroupFactor. cbn [map rg_multiplier rg_conditions].
  rewrite numeric_trim, Hm by easy. cbn [negb List.filter].
  destruct (buildRequestConditionExpr c) as [|x e]; [easy|]. easy.
Qed.

(** Conditions on a parameter that the builder writes as a guarded test. *)
Definition guarded_ok (mode v : jstr) : Prop :=
  (In mode [MATCH_GT; MATCH_GTE; MATCH_LT; MATCH_LTE] /\ is_numeric v = true)
  \/ (mode = MATCH_CONTAINS /\ trim v = v /\ plain_text v).

Lemma build_guarded path mode v :
  name_ok path -> guarded_ok mode v ->
  exists b, buildRequestConditionExpr (ph SOURCE_PARAM path mode v) = guard_text path ++ " && " ++ b
            /\ conj_part b /\ tryParseRequestCondition b = Ret None.
Proof.
  intros H Hm. destruct (name_parts path H) as (Hp & _).
  assert (Hs : forall rest, source_expr SOURCE_PARAM path ++ rest
                            = src_name SOURCE_PARAM ++ lp_q ++ path ++ q_rp ++ rest)
    by (intros; now apply source_expr_shape).
  assert (Hg : forall rest, guard_text path ++ rest = source_expr SOURCE_PARAM path ++ " != nil" ++ rest).
  { intros rest. unfold guard_text. now rewrite Hs, <- !app_assoc. }
  destruct Hm as [[Hm Hv]|(-> & Ht & Hv)].
  - exists (pcmp_text path (match cmp_mode_op mode with Some op => op | None => [] end) v).
    split; [|split].
    + rewrite Hg, build_ph by (easy || now repeat (destruct Hm as [<-|Hm]; [easy|])).
      unfold build_ph_mode, pcmp_text. rewrite numeric_trim, Hv, <- Hs by easy.
      repeat (destruct Hm as [<-|Hm]; [easy|]). easy.
    + apply pcmp_conj; [easy| |easy].
      repeat (destruct Hm as [<-|Hm]; [cbn; tauto|]). easy.
    + apply pcmp_unread; [easy|]. repeat (destruct Hm as [<-|Hm]; [cbn; tauto|]). easy.
  - exists (phas_text path v). split; [|split; [now apply phas_conj|apply phas_unread]].
    rewrite Hg, build_ph by easy. unfold build_ph_mode, phas_text.
    change (MATCH_CONTAINS =s MATCH_EXISTS) with false.
    change (MATCH_CONTAINS =s MATCH_CONTAINS) with true. cbv iota.
    unfold buildExprLiteral. change (MATCH_CONTAINS =s MATCH_CONTAINS) with true. cbv iota.
    rewrite Ht, (plain_quote v (proj1 Hv)). rewrite (Hs (", " ++ _)). cbn [src_name].
    change ((dquote :: v ++ [dquote]) ++ ")") with (dquote :: (v ++ [dquote]) ++ ")").
    now rewrite <- (app_assoc v).
Qed.

(** * Splitting a combined expression *)

Lemma trim_length s : length (trim s) <= length s.
Proof.
  assert (H : forall s, length (trimStart s) <= length s).
  { intros t. induction t as [|c t IH]; cbn; [lia|]. case_goal; cbn; lia. }
  unfold trim, trimEnd. rewrite length_rev. etransitivity; [apply H|]. rewrite length_rev. apply H.
Qed.

Lemma slice_length s : hasFullOuterParens s = true -> length (slice_1_m1 s) < length s.
Proof.
  intros H. unfold slice_1_m1. destruct s as [|c s]; [easy|]. cbn [tl].
  destruct s as [|d s] using rev_ind; [cbn; lia|].
  rewrite removelast_last. cbn. rewrite length_app. cbn. lia.
Qed.

Lemma unwrap_loop_done n s :
  length s <= n -> hasFullOuterParens (unwrap_loop n s) = false.
Proof.
  revert s; induction n as [|n IH]; intros s Hn; cbn.
  - destruct s; [easy|cbn in Hn; lia].
  - destruct (hasFullOuterParens s) eqn:E; [|easy]. apply IH.
    pose proof (slice_length s E). pose proof (trim_length (slice_1_m1 s)). lia.
Qed.

Lemma unwrap_loop_fuel n m s :
  length s <= n -> length s <= m -> unwrap_loop n s = unwrap_loop m s.
Proof.
  revert m s; induction n as [|n IH]; intros m s Hn Hm.
  - destruct s; [|cbn in Hn; lia]. now destruct m.
  - destruct m as [|m]; [destruct s; [easy|cbn in Hm; lia]|]. cbn.
    destruct (hasFullOuterParens s) eqn:E; [|easy].
    pose proof (slice_length s E). pose proof (trim_length (slice_1_m1 s)). apply IH; lia.
Qed.

Lemma outer_depth_nest n s rest m :
  nest n s = Some m -> rest <> [] ->
  outer_depth (1 + Z.of_nat n) (s ++ rest) = outer_depth (1 + Z.of_nat m) rest.
Proof.
  intros H Hr. revert n H; induction s as [|c s IH]; intros n H; cbn [nest app outer_depth] in *.
  - now injection H as ->.
  - assert (Ht : truthy (s ++ rest) = true) by (destruct s; [now destruct rest|easy]).
    rewrite Ht. destruct (N.eqb_spec c lparen) as [->|].
    + cbn [N.eqb Pos.eqb]. destruct (Z.eqb_spec (1 + Z.of_nat n + 1) 0); [lia|]. cbn [andb].
      replace (1 + Z.of_nat n + 1)%Z with (1 + Z.of_nat (S n))%Z by lia. auto.
    + destruct (c =? rparen)%N.
      * destruct n as [|n]; [discriminate|].
        replace (1 + Z.of_nat (S n) - 1)%Z with (1 + Z.of_nat n)%Z by lia.
        destruct (Z.eqb_spec (1 + Z.of_nat n) 0); [lia|]. cbn [andb]. auto.
      * destruct (Z.eqb_spec (1 + Z.of_nat n) 0); [lia|]. cbn [andb]. auto.
Qed.

Lemma full_parens b : nest 0 b = Some 0 -> hasFullOuterParens ("(" ++ b ++ ")") = true.
Proof.
  intros H. unfold hasFullOuterParens.
  assert (E : endsWith ("(" ++ b ++ ")") ")" = true)
    by (apply endsWith_true; exists ("(" ++ b); now rewrite <- app_assoc).
  rewrite E. cbn [app startsWith negb orb]. unfold startsWith. cbn [strip_prefix N.eqb Pos.eqb negb orb].
  cbn [outer_depth N.eqb Pos.eqb].
  replace (truthy (b ++ ")")) with true by now destruct b.
  cbn [Z.add Z.eqb andb].
  pose proof (outer_depth_nest 0 b ")" 0 H ltac:(easy)) as E'. change (1 + Z.of_nat 0)%Z with 1%Z in E'.
  change (match outer_depth 1 (b ++ ")") with Some d => (d =? 0)%Z | None => false end = true).
  now rewrite E'.
Qed.

Lemma unwrap_paren b :
  nest 0 b = Some 0 -> unwrapOuterParens ("(" ++ b ++ ")") = unwrapOuterParens b.
Proof.
  intros H. unfold unwrapOuterParens. rewrite (edges_trim ("(" ++ b ++ ")")) by now apply (edges_ok_app "(" b ")").
  replace (length ("(" ++ b ++ ")")) with (S (S (length b))) by (cbn; rewrite length_app; cbn; lia).
  cbn [unwrap_loop]. rewrite full_parens by easy.
  replace (slice_1_m1 ("(" ++ b ++ ")")) with b by (unfold slice_1_m1; cbn; now rewrite removelast_last).
  pose proof (trim_length b). apply (unwrap_loop_fuel (S (length b))); lia.
Qed.

Lemma partition_rules ps :
  Forall (fun p => is_rule_part p = Ret true) ps -> partition_parts ps = Ret (ps, []).
Proof. induction 1 as [|p ps Hp _ IH]; [easy|]. cbn. rewrite Hp, IH. easy. Qed.

Lemma factor_is_rule g : group_ok g -> is_rule_part (buildRuleGroupFactor g) = Ret true.
Proof.
  intros Hg. unfold is_rule_part.
  now rewrite (parse_one_factor _ (factor_part g Hg)), (parse_group g Hg).
Qed.

Lemma paren_part b : nest 0 b = Some 0 -> part_ok " * " ("(" ++ b ++ ")").
Proof.
  intros H. repeat split; [|now apply (edges_ok_app "(" b ")")|easy].
  rewrite (sealed_app _ "(" _ _ 1) by easy.
  pose proof (nest_sealed " * " b 0 0 1 H ltac:(lia)) as E.
  cbn [Z.of_nat] in E. rewrite Z.add_0_r in E. now rewrite (sealed_app _ b _ _ 1).
Qed.

Lemma split_parts b gs :
  nest 0 b = Some 0 -> tryParseRuleGroupFactor ("(" ++ b ++ ")") = Ret None ->
  Forall group_ok gs -> gs <> [] ->
  splitBillingExprAndRequestRules (join " * " (("(" ++ b ++ ")") :: map buildRuleGroupFactor gs))
  = Ret (unwrapOuterParens b, join " * " (map buildRuleGroupFactor gs)).
Proof.
  intros Hb Hno Hgs Hne. set (ps := ("(" ++ b ++ ")") :: map buildRuleGroupFactor gs).
  assert (Hps : Forall (part_ok " * ") ps) by (constructor; auto using paren_part, factors_parts).
  unfold splitBillingExprAndRequestRules. rewrite edges_trim by now apply join_edges.
  destruct (join " * " ps) as [|x r] eqn:E.
  { exfalso. unfold ps in E. destruct (map buildRuleGroupFactor gs); easy. }
  rewrite <- E. unfold splitTopLevelMultiply. rewrite splitTopLevel_join by easy.
  replace (length ps <=? 1) with false by (unfold ps; destruct gs; easy).
  unfold ps. cbn [partition_parts]. unfold is_rule_part at 1.
  rewrite (parse_one_factor _ (paren_part b Hb)), Hno. cbn [exc_bind option_map].
  rewrite partition_rules.
  2:{ apply Forall_map, (Forall_impl _ _ _ Hgs). intros g Hg. now apply factor_is_rule. }
  rewrite <- (unwrap_paren b Hb). now destruct gs.
Qed.

Lemma mode_or_idem s m d : mode_or s (Some (mode_or s m d)) d = mode_or s m d.
Proof.
  unfold mode_or. destruct m as [m|]; [|now destruct (existsb _ _)].
  destruct (existsb (fun item => mo_value item =s m) _) eqn:E; [now rewrite E|].
  clear E. now destruct (existsb _ _).
Qed.

Lemma mode_or_valid s m d :
  In d (map mo_value (getRequestRuleMatchOptions s)) ->
  In (mode_or s m d) (map mo_value (getRequestRuleMatchOptions s)).
Proof.
  intros Hd. unfold mode_or. destruct m as [m|]; [|easy].
  destruct (existsb _ _) eqn:E; [|easy]. apply existsb_exists in E as (o & Ho & Em).
  apply seqb_eq in Em as <-. now apply in_map.
Qed.

Lemma or_default_idem o d : or_default (Some (or_default o d)) d = or_default o d.
Proof. unfold or_default, str_or. destruct o as [[|c s]|], d; reflexivity. Qed.

(** What the editor relies on after normalisation. *)
Definition normalized (c : RequestCondition) : Prop :=
  match c with
  | CTime t => In (tc_timeFunc t) TIME_FUNCS /\ tc_timezone t <> []
               /\ In (tc_mode t) (map mo_value (getRequestRuleMatchOptions AnyTime))
  | CPh p => In (ph_mode p) (map mo_value (getRequestRuleMatchOptions (AnyPh (ph_source p))))
  end.

(** A text that is not one parenthesised text. *)
Definition unparenthesised (e : jstr) : Prop := hasFullOuterParens e = false.

(** * The rules the editor writes, read back or not *)

(** A test of a request parameter that the builder guards: [contains] and the four orders. *)
Definition guarded_cond (c : RequestCondition) : bool :=
  match c with
  | CPh {| ph_source := SOURCE_PARAM; ph_mode := mode |} =>
    existsb (fun m => mode =s m) [MATCH_CONTAINS; MATCH_GT; MATCH_GTE; MATCH_LT; MATCH_LTE]
  | _ => false
  end.

Definition guarded_group (g : RequestRuleGroup) : bool := existsb guarded_cond (rg_conditions g).

(** A condition with every mode its source offers. *)
Definition writable (c : RequestCondition) : Prop :=
  ok_cond c
  \/ exists path mode v, c = ph SOURCE_PARAM path mode v /\ name_ok path /\ guarded_ok mode v
     /\ includes (buildRequestConditionExpr c) " || " = false.

Record group_writable (g : RequestRuleGroup) : Prop := {
  gw_conditions : Forall writable (rg_conditions g);
  gw_nonempty : rg_conditions g <> [];
  gw_multiplier : is_numeric (rg_multiplier g) = true
}.

(** The text [t] of conditions is the conjunction of [ps], which reads as [r]. *)
Record parts_of (r : option (list RequestCondition)) (t : jstr) (ps : list jstr) : Prop := {
  po_text : t = join " && " ps;
  po_nonempty : ps <> [];
  po_parts : Forall conj_part ps;
  po_read : forall rest, parse_and_parts (ps ++ rest)
            = match r with
              | Some cs => cs' <-! parse_and_parts rest; Ret (option_map (app cs) cs')
              | None => Ret None
              end
}.

Lemma part_of_read c t : reads t c -> conj_part t -> parts_of (Some [c]) t [t].
Proof.
  intros Hr Hc. split; [easy|easy|now constructor|]. intros rest. cbn [app parse_and_parts].
  destruct Hc as [(_ & He & _) _]. now rewrite edges_trim, Hr by easy.
Qed.

Lemma parts_of_guarded path b :
  name_ok path -> conj_part b -> tryParseRequestCondition b = Ret None ->
  parts_of None (guard_text path ++ " && " ++ b) [guard_text path; b].
Proof.
  intros Hp Hb Hu. pose proof (guard_conj path Hp) as Hg. split; [easy|easy|auto|].
  intros rest. destruct Hg as [(_ & Heg & _) _], Hb as [(_ & Heb & _) _].
  cbn [app parse_and_parts]. rewrite !edges_trim, (guard_reads path Hp) by easy. cbn. now rewrite Hu.
Qed.

Lemma ok_unguarded c : ok_cond c -> guarded_cond c = false.
Proof.
  destruct c as [t|[[|] path mode v]]; [easy| |easy]. cbn [ok_cond]. intros [[_ H] _].
  cbn [ph_mode ph_source] in H. destruct H as [(-> & _)|[(_ & E & _)|(-> & _)]]; easy.
Qed.

Definition read_of (c : RequestCondition) : option (list RequestCondition) :=
  if guarded_cond c then None else Some [c].

Lemma writable_parts c :
  writable c ->
  (exists ps, parts_of (read_of c) (buildRequestConditionExpr c) ps)
  /\ (exists ps, parts_of (read_of c) (paren_or (buildRequestConditionExpr c)) ps).
Proof.
  intros [H|(path & mode & v & E & Hp & Hg & Hi)].
  - unfold read_of. rewrite ok_unguarded by easy. apply ok_cond_reads in H as [H1 H2 H3].
    split; eexists; apply part_of_read; auto using paren_or_conj.
  - assert (paren_or (buildRequestConditionExpr c) = buildRequestConditionExpr c) as ->
      by (unfold paren_or; now rewrite Hi).
    assert (read_of c = None) as ->.
    { unfold read_of. subst c. destruct Hg as [[Hm _]|(-> & _)]; [|easy].
      now repeat (destruct Hm as [<-|Hm]; [easy|]). }
    destruct (build_guarded path mode v Hp Hg) as (b & Eb & Hb & Hu). rewrite <- E in Eb. rewrite Eb.
    split; eexists; now apply parts_of_guarded.
Qed.

Lemma join_app w ps qs : ps <> [] -> qs <> [] -> join w (ps ++ qs) = join w ps ++ w ++ join w qs.
Proof.
  intros Hp Hq. induction ps as [|p ps IH]; [easy|]. destruct ps as [|p' ps].
  - cbn [app]. now rewrite join_cons.
  - change ((p :: p' :: ps) ++ qs) with (p :: (p' :: ps) ++ qs).
    rewrite (join_cons w p ((p' :: ps) ++ qs)), (join_cons w p (p' :: ps)), IH by easy. now rewrite !app_assoc.
Qed.

(** What a conjunction reads as. *)
Definition conditions_read (cs : list RequestCondition) : option (list RequestCondition) :=
  if existsb guarded_cond cs then None else Some cs.

Lemma parts_cons r cs t ts ps qs :
  ts <> [] -> parts_of r t ps -> parts_of cs (join " && " ts) qs ->
  parts_of (match r, cs with Some x, Some y => Some (x ++ y) | _, _ => None end)
    (join " && " (t :: ts)) (ps ++ qs).
Proof.
  intros Hne [Et Hp Hps Hr] [Eq Hq Hqs Hrq]. split.
  - now rewrite join_cons, Et, Eq, join_app.
  - now destruct ps.
  - now apply Forall_app.
  - intros rest. rewrite <- app_assoc, Hr. destruct r as [x|]; [|easy]. rewrite Hrq.
    destruct cs as [y|]; [|easy]. destruct (parse_and_parts rest) as [[z|]|]; cbn; try easy.
    now rewrite app_assoc.
Qed.

Lemma writable_list cs ts :
  Forall2 (fun c t => exists ps, parts_of (read_of c) t ps) cs ts -> cs <> [] ->
  exists ps, parts_of (conditions_read cs) (join " && " ts) ps.
Proof.
  induction 1 as [|c t cs ts (ps & Hc) Hcs IH]; [easy|]. intros _.
  destruct cs as [|c' cs]; inversion Hcs as [|? t' ? ts' ? ?]; subst.
  - exists ps. unfold conditions_read, read_of in *. cbn [existsb]. now rewrite orb_false_r.
  - destruct (IH ltac:(easy)) as (qs & Hq). exists (ps ++ qs).
    replace (conditions_read (c :: c' :: cs)) with
      (match read_of c, conditions_read (c' :: cs) with Some x, Some y => Some (x ++ y) | _, _ => None end);
      [now apply parts_cons|].
    unfold conditions_read, read_of. change (existsb guarded_cond (c :: c' :: cs)) with
      (guarded_cond c || existsb guarded_cond (c' :: cs)).
    now destruct (guarded_cond c), (existsb guarded_cond (c' :: cs)).
Qed.

Lemma writable_group g :
  group_writable g ->
  exists ps, parts_of (conditions_read (rg_conditions g)) (join " && " (cond_texts (rg_conditions g))) ps
    /\ buildRuleGroupFactor g = "(" ++ join " && " ps ++ factor_tail (rg_multiplier g).
Proof.
  intros [Hc Hne Hm].
  assert (Forall2 (fun c t => exists ps, parts_of (read_of c) t ps) (rg_conditions g)
            (cond_texts (rg_conditions g))) as Hf.
  { assert (forall l, Forall writable l -> Forall2 (fun c t => exists ps, parts_of (read_of c) t ps) l
              (map (fun c => paren_or (buildRequestConditionExpr c)) l)) as Hl
      by (induction 1 as [|x l [_ Hx]%writable_parts _ IH]; cbn [map]; constructor; auto).
    destruct (rg_conditions g) as [|c [|c' cs]]; [easy| |now apply Hl].
    apply Forall_cons_1 in Hc as [[H _]%writable_parts _]. now repeat constructor. }
  destruct (writable_list _ _ Hf Hne) as (ps & Hps). exists ps. split; [easy|].
  rewrite <- (po_text _ _ _ Hps). unfold buildRuleGroupFactor. rewrite numeric_trim, Hm by easy. cbn [negb].
  rewrite filter_truthy.
  2:{ apply Forall_map. apply (Forall_impl _ _ _ Hc). intros c [(qs & [-> Hq Hqs _]) _]%writable_parts.
      now apply join_nonempty. }
  destruct (rg_conditions g) as [|c [|c' cs]]; [easy|easy|]. unfold cond_texts.
  cbn [map]. now rewrite map_map.
Qed.

Lemma writable_factor g :
  group_writable g ->
  part_ok " * " (buildRuleGroupFactor g)
  /\ tryParseRuleGroupFactor (buildRuleGroupFactor g) = Ret (if guarded_group g then None else Some g).
Proof.
  intros Hg. destruct (writable_group g Hg) as (ps & [_ Hne Hps Hr] & ->). destruct Hg as [_ Hc Hm].
  split; [apply factor_shape; [now apply join_nest|easy]|]. unfold tryParseRuleGroupFactor.
  rewrite match_factor by auto using join_nonempty.
  unfold group. cbn [cap Nat.eqb]. unfold splitTopLevelAnd. rewrite splitTopLevel_join; [|easy|].
  2:{ apply (Forall_impl _ _ _ Hps). intros t Ht. apply Ht. }
  rewrite <- (app_nil_r ps), Hr. unfold conditions_read, guarded_group.
  destruct (existsb guarded_cond (rg_conditions g)); [easy|]. cbn. rewrite app_nil_r.
  destruct g as [[|c cs] m]; easy.
Qed.

Lemma writable_groups gs :
  Forall group_writable gs ->
  parse_factors (map buildRuleGroupFactor gs) = Ret (if existsb guarded_group gs then None else Some gs).
Proof.
  induction 1 as [|g gs Hg _ IH]; [easy|]. cbn [map parse_factors existsb].
  rewrite (proj2 (writable_factor g Hg)). destruct (guarded_group g); [easy|]. cbn. rewrite IH.
  now destruct (existsb guarded_group gs).
Qed.

Lemma writable_parts_ok gs :
  Forall group_writable gs -> Forall (part_ok " * ") (map buildRuleGroupFactor gs).
Proof. intros H. apply Forall_map, (Forall_impl _ _ _ H). intros g Hg. now apply writable_factor. Qed.

Lemma writable_text gs :
  Forall group_writable gs -> buildRequestRuleExpr gs = join " * " (map buildRuleGroupFactor gs).
Proof.
  intros H%writable_parts_ok. unfold buildRequestRuleExpr.
  rewrite filter_truthy by (apply (Forall_impl _ _ _ H); intros f Hf; apply Hf). reflexivity.
Qed.

Lemma writable_unguarded g : group_writable g -> guarded_group g = false -> group_ok g.
Proof.
  intros [Hc Hn Hm] Hg. split; [|easy|easy]. unfold guarded_group in Hg.
  induction Hc as [|c cs [Hok|(path & mode & v & -> & _ & Hv & _)] _ IH]; cbn [existsb] in Hg; [constructor| |].
  - apply orb_false_iff in Hg as [_ Hg]. constructor; [easy|]. destruct cs; [constructor|]. now apply IH.
  - exfalso. destruct Hv as [[Hm' _]|(-> & _)]; [|easy]. now repeat (destruct Hm' as [<-|Hm']; [easy|]).
Qed.

(** With a guarded test the rules are no rules for the splitting either: the whole text is
    the expression. *)
Lemma partition_writable gs :
  Forall group_writable gs ->
  exists rs, partition_parts (map buildRuleGroupFactor gs)
             = Ret (rs, map buildRuleGroupFactor (List.filter guarded_group gs)).
Proof.
  induction 1 as [|g gs Hg _ (rs & IH)]; [now exists []|]. cbn [map partition_parts List.filter].
  destruct (writable_factor g Hg) as [Hp Hr]. unfold is_rule_part.
  rewrite (parse_one_factor _ Hp), Hr, IH. destruct (guarded_group g); cbn; now eexists.
Qed.

Lemma split_guarded base gs :
  edges_ok base = true -> base <> [] -> nest 0 base = Some 0 ->
  tryParseRuleGroupFactor ("(" ++ base ++ ")") = Ret None ->
  Forall group_writable gs -> existsb guarded_group gs = true ->
  let full := combineBillingExpr base (buildRequestRuleExpr gs) in
  (exists t, full = "(" ++ t) /\ trim full = full /\ splitBillingExprAndRequestRules full = Ret (full, []).
Proof.
  intros He Hne Hb Hno Hgs Hex. cbv zeta. set (ps := ("(" ++ base ++ ")") :: map buildRuleGroupFactor gs).
  pose proof (writable_parts_ok gs Hgs) as Hf.
  assert (Hps : Forall (part_ok " * ") ps) by (constructor; auto using paren_part).
  assert (Hm : map buildRuleGroupFactor gs <> []) by now destruct gs.
  assert (combineBillingExpr base (buildRequestRuleExpr gs) = join " * " ps) as ->.
  { unfold combineBillingExpr. rewrite writable_text by easy. rewrite !edges_trim by (easy || now apply join_edges).
    destruct base as [|c base]; [easy|]. cbn [truthy negb].
    assert (join " * " (map buildRuleGroupFactor gs) <> []) as Hj
      by (apply join_app_nonempty; [easy|]; apply (Forall_impl _ _ _ Hf); intros f Hx; apply Hx).
    unfold ps. rewrite join_cons by easy. apply truthy_iff in Hj as ->. cbn [negb].
    now rewrite <- !app_assoc. }
  split; [unfold ps; rewrite join_cons by easy; rewrite <- app_assoc; now eexists|].
  rewrite edges_trim by now apply join_edges. split; [easy|].
  unfold splitBillingExprAndRequestRules. rewrite edges_trim by now apply join_edges.
  destruct (join " * " ps) as [|x r] eqn:E.
  { exfalso. unfold ps in E. destruct (map buildRuleGroupFactor gs); easy. }
  rewrite <- E. unfold splitTopLevelMultiply. rewrite splitTopLevel_join by easy.
  replace (length ps <=? 1) with false by (unfold ps; destruct gs; easy).
  unfold ps. cbn [partition_parts]. unfold is_rule_part at 1.
  rewrite (parse_one_factor _ (paren_part base Hb)), Hno. cbn [exc_bind option_map].
  destruct (partition_writable gs Hgs) as (rs & ->). cbn [exc_bind fst snd].
  assert (map buildRuleGroupFactor (List.filter guarded_group gs) <> []) as Hg.
  { apply existsb_exists in Hex as (g & Hin & Hx).
    assert (In g (List.filter guarded_group gs)) as Hin' by now apply filter_In.
    now destruct (List.filter guarded_group gs). }
  now destruct rs, (map buildRuleGroupFactor (List.filter guarded_group gs)).
Qed.

(** * Properties *)

(** C36: what the parser makes of the request rules that the editor builds, for every list of
    groups with a numeric multiplier and conditions of every mode: if no condition tests a
    request parameter with [contains], [>], [>=], [<] or [<=], exactly the rules, in order;
    if one does, [null], for all the rules.  The texts: paths, time zones and values that are
    compared or contained have no quote, backslash, control character or surrogate and
    balanced parentheses, paths and zones have no space at their ends and are not empty, the
    values are trimmed and are numbers where an order or a time is tested, an [exists] has no
    value, and no text contains the connectives that the builder and the parser look for (a
    disjunction, or the conjunction outside of parentheses). *)
Theorem rules_roundtrip (gs : list RequestRuleGroup) :
  Forall group_writable gs ->
  tryParseRequestRuleExpr (buildRequestRuleExpr gs)
  = Ret (if existsb guarded_group gs then None else Some gs).
Proof.
  intros H. assert (Hp : Forall (part_ok " * ") (map buildRuleGroupFactor gs))
    by (apply Forall_map, (Forall_impl _ _ _ H); intros g Hg; now apply writable_factor).
  unfold tryParseRequestRuleExpr, buildRequestRuleExpr.
  rewrite filter_truthy by (apply (Forall_impl _ _ _ Hp); intros f Hf; apply Hf).
  rewrite edges_trim by now apply join_edges.
  destruct gs as [|g gs]; [easy|]. unfold splitTopLevelMultiply.
  destruct (join " * " (map buildRuleGroupFactor (g :: gs))) as [|c s] eqn:E.
  - exfalso. cbn [map] in E. apply Forall_cons_1 in Hp as [(_ & _ & Hne) _].
    destruct gs; cbn in E; [easy|]. now destruct (buildRuleGroupFactor g).
  - rewrite <- E, splitTopLevel_join by easy. now apply writable_groups.
Qed.

Definition sample_groups : list RequestRuleGroup :=
  [ {| rg_conditions := [ph SOURCE_HEADER "x-tier" MATCH_EQ "gold";
                         time_cond "hour" "Asia/Shanghai" MATCH_RANGE [] "22" "6"];
       rg_multiplier := "0.5" |};
    {| rg_conditions := [ph SOURCE_PARAM "stream" MATCH_EXISTS []]; rg_multiplier := "2" |} ].

Lemma sample_ok : Forall group_ok sample_groups.
Proof.
  assert (Hn : forall n, In n ["x-tier"; "Asia/Shanghai"; "stream"] -> name_ok n).
  { intros n [<-|[<-|[<-|[]]]]; repeat split; try easy; repeat constructor. }
  constructor; [|constructor; [|constructor]]; split; try easy.
  - constructor; [|constructor; [|constructor]].
    + split; [|easy]. split; [apply Hn; cbn; tauto|]. right. right. split; [easy|].
      split; [easy|]. right. right. right. repeat split; try easy. repeat constructor.
    + split; [|now left]. split; [cbn; tauto|]. split; [apply Hn; cbn; tauto|]. now left.
  - constructor; [|constructor]. split; [|easy]. split; [apply Hn; cbn; tauto|]. now left.
Qed.

Lemma sample_writable : Forall group_writable sample_groups.
Proof.
  apply (Forall_impl _ _ _ sample_ok). intros g [Hc Hn Hm]. split; [|easy|easy].
  apply (Forall_impl _ _ _ Hc). now left.
Qed.

(** The same with a test of a parameter. *)
Definition guarded_groups : list RequestRuleGroup :=
  sample_groups ++ [{| rg_conditions := [ph SOURCE_PARAM "n" MATCH_GT "3"; ph SOURCE_PARAM "stream" MATCH_EXISTS []];
                       rg_multiplier := "2" |}].

Lemma guarded_writable : Forall group_writable guarded_groups.
Proof.
  assert (Hn : forall n, In n ["n"; "stream"] -> name_ok n).
  { intros n [<-|[<-|[]]]; repeat split; try easy; repeat constructor. }
  apply Forall_app. split; [exact sample_writable|]. constructor; [|constructor]. split; [|easy|easy].
  constructor; [|constructor; [|constructor]].
  - right. exists "n", MATCH_GT, "3". split; [easy|]. split; [apply Hn; cbn; tauto|]. split; [|easy].
    left. split; [cbn; tauto|easy].
  - left. split; [|easy]. split; [apply Hn; cbn; tauto|]. now left.
Qed.

Lemma rules_roundtrip_witness :
  tryParseRequestRuleExpr (buildRequestRuleExpr sample_groups) = Ret (Some sample_groups)
  /\ tryParseRequestRuleExpr (buildRequestRuleExpr guarded_groups) = Ret None.
Proof.
  split; [exact (rules_roundtrip sample_groups sample_writable)
         |exact (rules_roundtrip guarded_groups guarded_writable)].
Defined.

Lemma split_combined (base : jstr) (gs : list RequestRuleGroup) :
  edges_ok base = true -> base <> [] -> nest 0 base = Some 0 ->
  tryParseRuleGroupFactor ("(" ++ base ++ ")") = Ret None ->
  Forall group_ok gs -> gs <> [] ->
  splitBillingExprAndRequestRules (combineBillingExpr base (buildRequestRuleExpr gs))
  = Ret (unwrapOuterParens base, buildRequestRuleExpr gs).
Proof.
  intros He Hne Hb Hno Hgs Hgne. unfold combineBillingExpr, buildRequestRuleExpr.
  rewrite factors_nonempty by easy. pose proof (factors_parts gs Hgs) as Hp.
  rewrite !edges_trim by auto using join_edges. destruct base as [|c base]; [easy|].
  cbn [truthy negb]. destruct (join " * " (map buildRuleGroupFactor gs)) as [|x r] eqn:E.
  { exfalso. destruct gs as [|g gs]; [easy|]. cbn [map] in *.
    apply Forall_cons_1 in Hp as [(_ & _ & Hf) _].
    destruct gs; cbn in E; [easy|]. now destruct (buildRuleGroupFactor g). }
  rewrite <- E. cbn [truthy negb].
  replace ("(" ++ (c :: base) ++ ") * " ++ join " * " (map buildRuleGroupFactor gs))
    with (join " * " (("(" ++ (c :: base) ++ ")") :: map buildRuleGroupFactor gs)).
  - rewrite E at 1. cbn [truthy negb]. now apply split_parts.
  - destruct gs; [easy|]. rewrite join_cons by easy. now rewrite <- !app_assoc.
Qed.

(** splitting the combination of a base expression and built request rules
    gives back the base (without outer parentheses) and the same rule text, for
    every base with balanced parentheses that is not itself a rule. *)
Theorem split_combine (base : jstr) (gs : list RequestRuleGroup) :
  edges_ok base = true -> base <> [] -> nest 0 base = Some 0 ->
  tryParseRuleGroupFactor ("(" ++ base ++ ")") = Ret None ->
  Forall group_ok gs -> gs <> [] ->
  splitBillingExprAndRequestRules (combineBillingExpr base (buildRequestRuleExpr gs))
  = Ret (unwrapOuterParens base, buildRequestRuleExpr gs).
Proof. exact (split_combined base gs). Qed.

Lemma split_combine_witness :
  splitBillingExprAndRequestRules
    (combineBillingExpr "p * 2 + c * 8" (buildRequestRuleExpr sample_groups))
  = Ret ("p * 2 + c * 8", buildRequestRuleExpr sample_groups).
Proof.
  change "p * 2 + c * 8" with (unwrapOuterParens "p * 2 + c * 8") at 2.
  apply split_combine; easy || apply sample_ok.
Defined.

(** a comparison or a containment test on a request parameter is written by
    the builder but never read back: the parser separates the null guard from
    the test at the conjunction, and gives up on the expression. *)
Theorem guarded_param_unread (path mode v m : jstr) :
  name_ok path -> guarded_ok mode v -> is_numeric m = true ->
  let e := buildRequestRuleExpr [{| rg_conditions := [ph SOURCE_PARAM path mode v];
                                    rg_multiplier := m |}] in
  e <> [] /\ tryParseRequestRuleExpr e = Ret None.
Proof.
  intros Hp Hg Hm e. subst e. destruct (build_guarded path mode v Hp Hg) as (b & E & Hb & Hu).
  rewrite build_single; [|easy|rewrite E; now destruct b]. rewrite E.
  split; [easy|now apply guarded_unread_expr].
Qed.

Lemma guarded_param_unread_witness :
  let e := buildRequestRuleExpr [{| rg_conditions := [ph SOURCE_PARAM "n" MATCH_GT "3"];
                                    rg_multiplier := "2" |}] in
  e <> [] /\ tryParseRequestRuleExpr e = Ret None.
Proof.
  apply guarded_param_unread; [repeat constructor; easy| |easy].
  left. split; [cbn; tauto|easy].
Defined.

(** unwrapping removes all the outer parentheses: the result is never a
    fully parenthesised text, for every input. *)
Theorem unwrap_complete (e : jstr) : unparenthesised (unwrapOuterParens e).
Proof. apply unwrap_loop_done, trim_length. Qed.

(** a normalised condition has a mode its source offers, a known time
    function and a time zone, and normalising it again changes nothing. *)
Theorem normalize_stable (c : PartialCondition) :
  normalized (normalizeCondition c)
  /\ normalizeCondition (partial_of (normalizeCondition c)) = normalizeCondition c.
Proof.
  destruct c as [[[|s]|] fn tz path mode v a b].
  - split; cbn -[mode_or isTimeFunc].
    + repeat split; [|destruct tz as [[]|]; easy|apply (mode_or_valid AnyTime); cbn; tauto].
      destruct fn as [f|]; [|cbn; tauto]. destruct (isTimeFunc f) eqn:E; [|cbn; tauto].
      exact (proj1 (memb_In f TIME_FUNCS) E).
    + rewrite mode_or_idem. f_equal. f_equal.
      * destruct fn as [f|]; [|easy]. destruct (isTimeFunc f) eqn:E; [now rewrite E|easy].
      * apply (or_default_idem tz).
  - split; [destruct s; [apply (mode_or_valid (AnyPh SOURCE_PARAM))
                       |apply (mode_or_valid (AnyPh SOURCE_HEADER))]; cbn; tauto|].
    destruct s; cbn -[mode_or isTimeFunc or_default]; now rewrite mode_or_idem, (or_default_idem path []).
  - split; [apply (mode_or_valid (AnyPh SOURCE_PARAM)); cbn; tauto|].
    cbn -[mode_or isTimeFunc or_default]; now rewrite mode_or_idem, (or_default_idem path []).
Qed.
