(* ===== verification/TierExpr.v ===== *)
(** Model of [web/default/src/features/pricing/lib/tier-expr.ts]: the tiers of the
    visual pricing editor, the expression they are written as and the parser that reads
    such an expression back.  The estimator of the same source is in [TierEstimate]. *)

From S2P Require Import Prelude Number Regex Json BillingExpr.
From stdpp Require Import options.

(** * Tiers *)

Inductive CacheMode := CACHE_MODE_TIMED | CACHE_MODE_GENERIC.

#[export] Instance cache_mode_eq_dec : EqDecision CacheMode.
Proof. solve_decision. Defined.

Inductive InputValue := InNum (n : number) | InText (s : jstr).

Record TierConditionInput := { ti_var : jstr; ti_op : TierOp; ti_value : InputValue }.

(** The seven optional costs are listed by field, in the order of
    [BILLING_CACHE_VAR_MAP]. *)
Record VisualTier := {
  vt_label : jstr;
  vt_conditions : list TierConditionInput;
  vt_input : number;
  vt_output : number;
  vt_cache_mode : CacheMode;
  vt_extra : list (jstr * number)
}.

(** [Partial<VisualTier>] *)
Record PartialTier := {
  pa_label : option jstr;
  pa_conditions : option (list TierConditionInput);
  pa_input : option number;
  pa_output : option number;
  pa_cache_mode : option CacheMode;
  pa_extra : list (jstr * number)
}.

Definition partial (t : VisualTier) : PartialTier :=
  {| pa_label := Some (vt_label t); pa_conditions := Some (vt_conditions t);
     pa_input := Some (vt_input t); pa_output := Some (vt_output t);
     pa_cache_mode := Some (vt_cache_mode t); pa_extra := vt_extra t |}.

Record VisualConfig := { vc_tiers : list VisualTier }.

(** [Number(o[field]) || 0] *)
Definition cost_or_zero (field : jstr) (o : list (jstr * number)) : number :=
  match obj_get field o with Some x => num_or x zero | None => zero end.

Definition getTierCacheMode (mode : option CacheMode) (extra : list (jstr * number)) : CacheMode :=
  match mode with
  | Some m => m
  | None =>
    match obj_get "cache_create_1h_unit_cost" extra with
    | Some x => if (x >? zero)%num then CACHE_MODE_TIMED else CACHE_MODE_GENERIC
    | None => CACHE_MODE_GENERIC
    end
  end.

(** A field that is present is put back by [...tier] as it is; only the seven optional
    costs are coerced for good. *)
Definition normalizeVisualTier (tier : PartialTier) : VisualTier :=
  let or {A} (o : option A) (d : A) := match o with Some x => x | None => d end in
  {| vt_label := or (pa_label tier) [];
     vt_conditions := or (pa_conditions tier) [];
     vt_input := or (pa_input tier) zero;
     vt_output := or (pa_output tier) zero;
     vt_cache_mode := getTierCacheMode (pa_cache_mode tier) (pa_extra tier);
     vt_extra := map (fun fv => (fst fv, cost_or_zero (fst fv) (pa_extra tier)))
                   BILLING_CACHE_VAR_MAP |}.

Definition createDefaultVisualConfig : VisualConfig :=
  {| vc_tiers := [ normalizeVisualTier
       {| pa_label := Some "base"; pa_conditions := Some []; pa_input := Some zero;
          pa_output := Some zero; pa_cache_mode := Some CACHE_MODE_GENERIC; pa_extra := [] |} ] |}.

Definition normalizeVisualConfig (config : option VisualConfig) : VisualConfig :=
  match config with
  | Some {| vc_tiers := t :: ts |} =>
    {| vc_tiers := map (fun t => normalizeVisualTier (partial t)) (t :: ts) |}
  | _ => createDefaultVisualConfig
  end.

(** * Writing *)

Definition op_text (op : TierOp) : jstr :=
  match op with OpLt => "<" | OpLe => "<=" | OpGt => ">" | OpGe => ">=" end.

Definition value_text (v : InputValue) : jstr :=
  match v with InNum n => num_to_string n | InText s => s end.

(** [c.var && c.op && c.value != null && c.value !== ''] *)
Definition condition_given (c : TierConditionInput) : bool :=
  truthy (ti_var c) && match ti_value c with InText [] => false | _ => true end.

Definition condition_text (c : TierConditionInput) : jstr :=
  ti_var c ++ " " ++ op_text (ti_op c) ++ " " ++ value_text (ti_value c).

Definition buildConditionStr (conditions : list TierConditionInput) : jstr :=
  join " && " (map condition_text (List.filter condition_given conditions)).

Definition cost_text (var : jstr) (v : number) : jstr := var ++ " * " ++ num_to_string v.

Definition buildTierBodyExpr (tier : VisualTier) : jstr :=
  join " + "
    ([ cost_text "p" (num_or (vt_input tier) zero); cost_text "c" (num_or (vt_output tier) zero) ]
     ++ flat_map (fun fv => let v := cost_or_zero (fst fv) (vt_extra tier) in
                            if ntruthy v then [cost_text (snd fv) v] else [])
          BILLING_CACHE_VAR_MAP).

Definition tier_text (label : jstr) (tier : VisualTier) : jstr :=
  "tier" ++ lp_q ++ label ++ [dquote; 44%N; 32%N] ++ buildTierBodyExpr tier ++ ")".

Definition no_price : jstr := "p * 0 + c * 0".

(** The parts of two tiers or more: tier [i] of [n]. *)
Fixpoint tier_parts (i n : nat) (tiers : list VisualTier) : list jstr :=
  match tiers with
  | [] => []
  | tier :: rest =>
    let label := str_or (vt_label tier) ("tier_" ++ digits (N.of_nat (i + 1))) in
    let body := tier_text label tier in
    let cond := buildConditionStr (vt_conditions tier) in
    (if (i <? n - 1) && truthy cond then cond ++ " ? " ++ body else body)
    :: tier_parts (S i) n rest
  end.

Definition generateExprFromVisualConfig (config : option VisualConfig) : jstr :=
  match config with
  | None => no_price
  | Some c =>
    match vc_tiers c with
    | [] => no_price
    | [tier] =>
      let body := tier_text (str_or (vt_label tier) "default") tier in
      let cond := buildConditionStr (vt_conditions tier) in
      if truthy cond then cond ++ " ? " ++ body ++ " : " ++ no_price else body
    | tiers => join " : " (tier_parts 0 (length tiers) tiers)
    end
  end.

(** * Reading *)

(** [(?:\s*\+\s*v\s*\*\s*([\d.eE+-]+))?] *)
Definition opt_cost (n : nat) (v : jstr) : re :=
  ROpt (spaces @; RLit "+" @; spaces @; RLit v @; spaces @; RLit "*" @; spaces @; num_group n).

Fixpoint opt_costs (n : nat) (vars : list jstr) (r : re) : re :=
  match vars with
  | [] => r
  | v :: vs => opt_cost n v @; opt_costs (S n) vs r
  end.

(** [bodyPat], its groups numbered from [n], followed by [r]. *)
Definition body_pat (n : nat) (r : re) : re :=
  RLit "p" @; spaces @; RLit "*" @; spaces @; num_group n @; spaces @; RLit "+" @; spaces @;
  RLit "c" @; spaces @; RLit "*" @; spaces @; num_group (S n) @;
  opt_costs (S (S n)) (map snd BILLING_CACHE_VAR_MAP) r.

Definition label_pat (n : nat) (r : re) : re :=
  RLit ("tier" ++ lp_q) @; RGroup n (RStar (RChr cls_not_dq)) @; RLit [dquote; 44%N] @; spaces @; r.

Definition singleRe : re := RBol @; label_pat 1 (body_pat 2 (RLit ")" @; REol)).

Definition visualTierRe : re := tier_prefix @; label_pat 2 (body_pat 3 (RLit ")")).

(** The optional costs that matched: group [n + i] for the [i]-th variable. *)
Fixpoint matched_from (n : nat) (vars : list (jstr * jstr)) (m : caps) : list (jstr * number) :=
  match vars with
  | [] => []
  | (field, _) :: rest =>
    match cap n m with
    | Some s => (field, Number_str s) :: matched_from (S n) rest m
    | None => matched_from (S n) rest m
    end
  end.

Definition matched_costs (n : nat) (m : caps) : list (jstr * number) :=
  matched_from n BILLING_CACHE_VAR_MAP m.

Definition read_tier (label : jstr) (conditions : list TierConditionInput) (input output : jstr)
    (extra : list (jstr * number)) : VisualTier :=
  normalizeVisualTier
    {| pa_label := Some label; pa_conditions := Some conditions;
       pa_input := Some (Number_str input); pa_output := Some (Number_str output);
       pa_cache_mode := None; pa_extra := extra |}.

(** The conditions of one tier are split and read as in [billing-expr.ts]. *)
Definition tier_conditions (condStr : jstr) : list TierConditionInput :=
  map (fun c => {| ti_var := tcond_var c; ti_op := tcond_op c; ti_value := InNum (tcond_value c) |})
    (parse_conditions condStr).

Definition read_hit (h : re_hit) : VisualTier :=
  let m := hit_caps h in
  read_tier (group 2 m) (tier_conditions (group 1 m)) (group 3 m) (group 4 m) (matched_costs 5 m).

(** [s.replace(/\s+/g, '')] *)
Definition unspaced (s : jstr) : jstr := List.filter (fun c => negb (is_space c)) s.

Definition tryParseVisualConfig (exprStr : jstr) : option VisualConfig :=
  match exprStr with
  | [] => None
  | _ =>
    let body := snd (stripExprVersion exprStr) in
    match match_caps singleRe body with
    | Some m =>
      Some (normalizeVisualConfig (Some {| vc_tiers :=
        [ read_tier (group 1 m) [] (group 2 m) (group 3 m) (matched_costs 4 m) ] |}))
    | None =>
      match map read_hit (exec_all visualTierRe body) with
      | [] => None
      | tiers =>
        let cfg := normalizeVisualConfig (Some {| vc_tiers := tiers |}) in
        if unspaced (generateExprFromVisualConfig (Some cfg)) =s unspaced body
        then Some cfg else None
      end
    end
  end.

Example read_sonnet :
  option_map (fun c => (map vt_label (vc_tiers c),
    generateExprFromVisualConfig (Some c) =s
      ("len <= 200000 ? tier" ++ lp_q ++ "standard" ++ [dquote] ++ ", p * 3 + c * 15 + cr * 0.3 + cc1h * 6) : tier"
       ++ lp_q ++ "long" ++ [dquote] ++ ", p * 6 + c * 22.5)")))
    (tryParseVisualConfig
      ("len <= 200000 ? tier" ++ lp_q ++ "standard" ++ [dquote] ++ ", p * 3 + c * 15 + cr * 0.3 + cc1h * 6) : tier"
       ++ lp_q ++ "long" ++ [dquote] ++ ", p * 6 + c * 22.5)")) =
  Some (["standard"; "long"], true).
Proof. vm_compute. reflexivity. Qed.

(** * Round trip *)

(** ** What can be written and read back *)

(** A cost whose text the patterns accept and read as the same number. *)
Definition cost_ok (n : number) : Prop :=
  Number_str (num_to_string n) = n /\ Forall (fun c => cls_num c = true) (num_to_string n)
  /\ num_to_string n <> [] /\ num_or n zero = n.

Definition condition_ok (c : TierConditionInput) : Prop :=
  In (ti_var c) ["p"; "c"; "len"%js] /\
  exists n, ti_value c = InNum n /\ Number_str (num_to_string n) = n
    /\ Forall (fun c => cls_num_pos c = true) (num_to_string n) /\ num_to_string n <> [].

Record tier_ok (t : VisualTier) : Prop := {
  to_label : vt_label t <> [] /\ Forall (fun c => cls_not_dq c = true) (vt_label t);
  to_conditions : Forall condition_ok (vt_conditions t);
  to_input : cost_ok (vt_input t);
  to_output : cost_ok (vt_output t);
  to_fields : map fst (vt_extra t) = map fst BILLING_CACHE_VAR_MAP;
  to_extra : Forall (fun fv => cost_ok (snd fv)) (vt_extra t)
}.

(** Every tier but the last has a condition, and the last of several has none. *)
Fixpoint chained (tiers : list VisualTier) : Prop :=
  match tiers with
  | [] => True
  | [t] => vt_conditions t = []
  | t :: rest => vt_conditions t <> [] /\ chained rest
  end.

Definition config_ok (c : VisualConfig) : Prop :=
  match vc_tiers c with
  | [] => False
  | [t] => tier_ok t
  | tiers => Forall tier_ok tiers /\ chained tiers
  end.

(** The text does not hold the cache mode of the editor: it is derived again. *)
Definition reread_tier (t : VisualTier) : VisualTier :=
  {| vt_label := vt_label t; vt_conditions := vt_conditions t; vt_input := vt_input t;
     vt_output := vt_output t; vt_cache_mode := getTierCacheMode None (vt_extra t);
     vt_extra := vt_extra t |}.

(** ** The costs *)

Section Matching.
Context {A : Type}.
Implicit Types (k : cont (A := A)).

Lemma mt_alt a b p s c k : mt (RAlt a b) p s c k = or_else (mt a p s c k) (fun _ => mt b p s c k).
Proof. easy. Qed.

Lemma num_no_space x : cls_num x = true -> is_space x = false.
Proof.
  unfold cls_num, is_digit. repeat rewrite orb_true_iff. rewrite andb_true_iff, !N.leb_le, !N.eqb_eq.
  intros H. assert (Hx : (43 <= x <= 101)%N) by lia. unfold is_space. 
  repeat rewrite orb_false_iff. rewrite ?andb_false_iff, ?N.leb_gt, ?N.eqb_neq. lia.
Qed.

(** The spaces between two pieces of a text. *)
Lemma mt_space r s p c k x :
  stops is_space s -> (forall q, mt r q s c k = Some x) ->
  mt (spaces @; r) p (32%N :: s) c k = Some x.
Proof.
  intros Hs H. rewrite mt_seq. apply (star_class_first is_space [32%N] s); [now constructor|easy|apply H].
Qed.

Lemma mt_tight r s p c k x :
  stops is_space s -> (forall q, mt r q s c k = Some x) -> mt (spaces @; r) p s c k = Some x.
Proof.
  intros Hs H. rewrite mt_seq. apply (star_class_first is_space [] s); [constructor|easy|apply H].
Qed.

Lemma mt_word w r s p c k x :
  (forall q, mt r q s c k = Some x) -> mt (RLit w @; r) p (w ++ s) c k = Some x.
Proof. intros H. rewrite mt_seq, mt_lit. apply H. Qed.

Lemma cost_stops n s : cost_ok n -> stops is_space (num_to_string n ++ s).
Proof.
  intros (_ & Hc & Hne & _). destruct (num_to_string n) as [|y w]; [easy|].
  apply Forall_cons_1 in Hc as [Hy _]. now apply num_no_space.
Qed.

Lemma mt_cost g n s p c k x :
  cost_ok n -> stops cls_num s -> (forall q, k q s ((g, num_to_string n) :: c) = Some x) ->
  mt (num_group g) p (num_to_string n ++ s) c k = Some x.
Proof. intros (_ & Hc & Hne & _) Hs Hk. now apply group_plus_first. Qed.

(** [v * n] in a pattern with free spaces. *)
Lemma mt_product v g n s p c k x :
  cost_ok n -> stops cls_num s -> (forall q, k q s ((g, num_to_string n) :: c) = Some x) ->
  mt (RLit v @; spaces @; RLit "*" @; spaces @; num_group g) p (cost_text v n ++ s) c k = Some x.
Proof.
  intros Hn Hs Hk. unfold cost_text. rewrite <- !app_assoc. apply mt_word. intros q.
  apply mt_space; [easy|]. intros q1. apply (mt_word "*"). intros q2.
  apply mt_space; [now apply cost_stops|]. intros q3. now apply mt_cost.
Qed.

Definition extra_vars : list jstr := map snd BILLING_CACHE_VAR_MAP.

Lemma mt_opt_hit g v n s p c k x :
  cost_ok n -> stops cls_num s -> stops is_space v -> v <> [] ->
  (forall q, k q s ((g, num_to_string n) :: c) = Some x) ->
  mt (opt_cost g v) p (" + " ++ cost_text v n ++ s) c k = Some x.
Proof.
  intros Hn Hs Hv Hne Hk. unfold opt_cost, ROpt. rewrite mt_alt.
  assert (H : mt (spaces @; RLit "+" @; spaces @; RLit v @; spaces @; RLit "*" @; spaces @; num_group g)
                p (" + " ++ cost_text v n ++ s) c k = Some x).
  { apply mt_space; [easy|]. intros q. apply (mt_word "+"). intros q1.
    apply mt_space; [now destruct v|]. intros q2. now apply mt_product. }
  now rewrite H.
Qed.

(** An optional cost is passed over when another variable, or the end, comes. *)
Lemma mt_opt_end g v s p c k :
  mt (opt_cost g v) p (rparen :: s) c k = k p (rparen :: s) c.
Proof. reflexivity. Qed.

(** A star of spaces that meets none. *)
Lemma mt_tight_eq r s p c k :
  stops is_space s -> mt (spaces @; r) p s c k = mt r p s c k.
Proof.
  intros Hs. rewrite mt_seq. unfold spaces. rewrite mt_star. destruct s as [|y s]; [easy|].
  cbn in Hs. cbn [length]. rewrite star_loop_S, mt_chr, Hs. reflexivity.
Qed.

(** A star of spaces in front of one: the rest of the pattern is tried behind it, then
    in front of it. *)
Lemma mt_space_eq r s p c k :
  stops is_space s ->
  mt (spaces @; r) p (32%N :: s) c k =
    or_else (mt r (Some 32%N) s c k) (fun _ => mt r p (32%N :: s) c k).
Proof.
  intros Hs. rewrite mt_seq. unfold spaces. rewrite mt_star. cbn [length].
  rewrite star_loop_S, mt_chr. change (is_space 32%N) with true. cbv iota.
  replace (length s <? length (32%N :: s)) with true by (symmetry; apply Nat.ltb_lt; cbn; lia).
  f_equal. exact (mt_tight_eq r s (Some 32%N) c k Hs).
Qed.

Lemma var_other g v v' s p c k :
  In v extra_vars -> In v' extra_vars -> v <> v' ->
  mt (RLit v @; spaces @; RLit "*" @; spaces @; num_group g) p (v' ++ " * " ++ s) c k = None.
Proof.
  intros Hv Hv' Hne. unfold extra_vars in Hv, Hv'. cbn in Hv, Hv'.
  repeat destruct Hv as [<-|Hv]; try easy; repeat destruct Hv' as [<-|Hv']; try easy;
    first [reflexivity|rewrite mt_seq; cbn [mt strip_prefix app N.eqb Pos.eqb];
                       now rewrite mt_tight_eq].
Qed.

Lemma mt_opt_other g v v' s p c k :
  In v extra_vars -> In v' extra_vars -> v <> v' ->
  mt (opt_cost g v) p (" + " ++ v' ++ " * " ++ s) c k = k p (" + " ++ v' ++ " * " ++ s) c.
Proof.
  intros Hv Hv' Hne. unfold opt_cost, ROpt. rewrite mt_alt.
  pose proof (fun q => var_other g v v' s q c k Hv Hv' Hne) as H1.
  assert (Hs' : stops is_space (v' ++ " * " ++ s))
    by (unfold extra_vars in Hv'; cbn in Hv'; repeat destruct Hv' as [<-|Hv']; easy).
  assert (H2 : forall q t, mt (RLit v @; spaces @; RLit "*" @; spaces @; num_group g) q (32%N :: t) c k = None)
    by (intros; unfold extra_vars in Hv; cbn in Hv; repeat destruct Hv as [<-|Hv]; easy).
  set (r := RLit v @; _) in *.
  change (" + " ++ v' ++ " * " ++ s) with (32%N :: "+" ++ 32%N :: v' ++ " * " ++ s).
  rewrite mt_space_eq by easy. rewrite (mt_seq (RLit "+")), mt_lit, mt_space_eq by exact Hs'.
  now rewrite H1, H2.
Qed.

(** The optional costs as they are written, and the captures they leave. *)
Fixpoint extra_text (vs : list (jstr * number)) : jstr :=
  match vs with
  | [] => []
  | (v, n) :: rest => (if ntruthy n then " + " ++ cost_text v n else []) ++ extra_text rest
  end.

Fixpoint extra_caps (g : nat) (vs : list (jstr * number)) (c : caps) : caps :=
  match vs with
  | [] => c
  | (_, n) :: rest => extra_caps (S g) rest (if ntruthy n then (g, num_to_string n) :: c else c)
  end.

Lemma extra_head vs s :
  (exists v t, In v (map fst vs) /\ extra_text vs ++ rparen :: s = " + " ++ v ++ " * " ++ t)
  \/ extra_text vs ++ rparen :: s = rparen :: s.
Proof.
  induction vs as [|[v n] vs IH]; [now right|]. cbn [extra_text map fst].
  destruct (ntruthy n).
  - left. exists v. eexists. split; [now left|]. unfold cost_text. now rewrite <- !app_assoc.
  - destruct IH as [(v' & t & Hin & E)|E]; [left|now right]. exists v', t. split; [now right|exact E].
Qed.

Lemma extra_stops vs s : stops cls_num (extra_text vs ++ rparen :: s).
Proof. destruct (extra_head vs s) as [(v & t & _ & ->)| ->]; easy. Qed.

Lemma mt_extra g vs r s p c k x :
  (forall v, In v (map fst vs) -> In v extra_vars) -> List.NoDup (map fst vs) ->
  Forall (fun vn => cost_ok (snd vn)) vs ->
  (forall q, mt r q (rparen :: s) (extra_caps g vs c) k = Some x) ->
  mt (opt_costs g (map fst vs) r) p (extra_text vs ++ rparen :: s) c k = Some x.
Proof.
  intros Hin Hnd Hok; revert g p c Hin; induction Hok as [|[v n] vs Hn _ IH]; intros g p c Hin Hr.
  - apply Hr.
  - cbn [map fst] in *. apply List.NoDup_cons_iff in Hnd as [Hv Hnd].
    cbn [opt_costs extra_text]. rewrite mt_seq. cbn [extra_caps] in Hr.
    assert (Hvv : In v extra_vars) by (apply Hin; now left).
    destruct (ntruthy n).
    + rewrite <- !app_assoc. apply mt_opt_hit; [easy|apply extra_stops| | |].
      * unfold extra_vars in Hvv. cbn in Hvv. repeat destruct Hvv as [<-|Hvv]; easy.
      * unfold extra_vars in Hvv. cbn in Hvv. repeat destruct Hvv as [<-|Hvv]; easy.
      * intros q. apply IH; [easy| |exact Hr]. intros v' H'. apply Hin. now right.
    + cbn [app]. destruct (extra_head vs s) as [(v' & t & Hv' & E)|E].
      * rewrite E, mt_opt_other; [rewrite <- E|easy| |].
        -- apply IH; [easy| |exact Hr]. intros v'' H'. apply Hin. now right.
        -- apply Hin. now right.
        -- intros ->. contradiction.
      * rewrite E, mt_opt_end. rewrite <- E. apply IH; [easy| |exact Hr].
        intros v' H'. apply Hin. now right.
Qed.
End Matching.

(** ** One tier *)

(** The optional costs of a tier by variable. *)
Definition tier_extra (t : VisualTier) : list (jstr * number) :=
  map (fun fv => (snd fv, cost_or_zero (fst fv) (vt_extra t))) BILLING_CACHE_VAR_MAP.

Lemma tier_extra_vars t : map fst (tier_extra t) = extra_vars.
Proof. reflexivity. Qed.

Lemma join_terms a l :
  join " + " (a :: l) = a ++ List.concat (map (fun x => " + " ++ x) l).
Proof.
  revert a; induction l as [|x l IH]; intros a; [cbn; now rewrite app_nil_r|].
  rewrite join_cons, IH by easy. cbn [map List.concat]. now rewrite <- !app_assoc.
Qed.

Lemma extra_terms t :
  List.concat (map (fun x => " + " ++ x)
    (flat_map (fun fv => let v := cost_or_zero (fst fv) (vt_extra t) in
                         if ntruthy v then [cost_text (snd fv) v] else []) BILLING_CACHE_VAR_MAP))
  = extra_text (tier_extra t).
Proof.
  unfold tier_extra. induction BILLING_CACHE_VAR_MAP as [|fv l IH]; [easy|].
  cbn [flat_map map extra_text fst snd]. rewrite map_app, concat_app, IH. f_equal. cbv zeta.
  destruct (ntruthy _); [|easy]. cbn [map List.concat]. now rewrite app_nil_r.
Qed.

Lemma body_text t :
  tier_ok t ->
  buildTierBodyExpr t =
    cost_text "p" (vt_input t) ++ " + " ++ cost_text "c" (vt_output t) ++ extra_text (tier_extra t).
Proof.
  intros [_ _ (_ & _ & _ & Hi) (_ & _ & _ & Ho) _ _]. unfold buildTierBodyExpr.
  rewrite Hi, Ho. cbn [app]. rewrite join_terms. cbn [map List.concat].
  now rewrite <- extra_terms, <- !app_assoc.
Qed.

Lemma cost_lookup t f :
  Forall (fun fv => cost_ok (snd fv)) (vt_extra t) -> cost_ok (cost_or_zero f (vt_extra t)).
Proof.
  intros H. unfold cost_or_zero. destruct (obj_get f (vt_extra t)) as [y|] eqn:E.
  - apply obj_get_In in E. rewrite List.Forall_forall in H. specialize (H _ E) as (H1 & H2 & H3 & H4).
    cbn in *. rewrite H4. now repeat split.
  - split; [reflexivity|]. split; [now repeat constructor|]. now split.
Qed.

Lemma tier_extra_ok t : tier_ok t -> Forall (fun vn => cost_ok (snd vn)) (tier_extra t).
Proof.
  intros [_ _ _ _ _ He]. unfold tier_extra. apply Forall_map. apply Forall_forall. intros fv _. cbn.
  now apply cost_lookup.
Qed.

Definition body_caps (g : nat) (t : VisualTier) (c : caps) : caps :=
  extra_caps (S (S g)) (tier_extra t)
    ((S g, num_to_string (vt_output t)) :: (g, num_to_string (vt_input t)) :: c).

Lemma extra_vars_NoDup : List.NoDup extra_vars.
Proof. repeat constructor; cbn; intuition congruence. Qed.

Section Tier.
Context {A : Type}.
Implicit Types (k : cont (A := A)).

Lemma mt_body g t r s p c k x :
  tier_ok t ->
  (forall q, mt r q (rparen :: s) (body_caps g t c) k = Some x) ->
  mt (body_pat g r) p (buildTierBodyExpr t ++ rparen :: s) c k = Some x.
Proof.
  intros Ht Hr. rewrite body_text by exact Ht. unfold body_pat, cost_text. rewrite <- !app_assoc.
  pose proof Ht as [_ _ Hi Ho _ _]. apply mt_word. intros q.
  apply mt_space; [easy|]. intros q1. apply (mt_word "*"). intros q2.
  apply mt_space; [now apply cost_stops|]. intros q3. rewrite mt_seq. apply mt_cost; [easy|easy|].
  intros q4. apply mt_space; [easy|]. intros q5. apply (mt_word "+"). intros q6.
  apply mt_space; [easy|]. intros q7. apply (mt_word "c"). intros q8.
  apply mt_space; [easy|]. intros q9. apply (mt_word "*"). intros q10.
  apply mt_space; [now apply cost_stops|]. intros q11. rewrite mt_seq.
  apply mt_cost; [easy|apply extra_stops|]. intros q12.
  change (map snd BILLING_CACHE_VAR_MAP) with (map fst (tier_extra t)).
  apply mt_extra; [easy|exact extra_vars_NoDup|now apply tier_extra_ok|exact Hr].
Qed.

Lemma mt_label g label r s p c k x :
  Forall (fun c => cls_not_dq c = true) label -> stops is_space s ->
  (forall q, mt r q s ((g, label) :: c) k = Some x) ->
  mt (label_pat g r) p ("tier" ++ lp_q ++ label ++ [dquote; 44%N; 32%N] ++ s) c k = Some x.
Proof.
  intros Hl Hs Hr. unfold label_pat. rewrite (app_assoc "tier"). apply mt_word. intros q. rewrite mt_seq.
  cbn [mt]. apply (star_class_first cls_not_dq label); [easy|easy|]. rewrite take_consumed.
  change ([dquote; 44%N; 32%N] ++ s) with ([dquote; 44%N] ++ 32%N :: s).
  rewrite strip_prefix_app. now apply mt_space.
Qed.

Lemma mt_tier g label t r s p c k x :
  tier_ok t -> Forall (fun c => cls_not_dq c = true) label ->
  (forall q, mt r q (rparen :: s) (body_caps (S g) t ((g, label) :: c)) k = Some x) ->
  mt (label_pat g (body_pat (S g) r)) p (tier_text label t ++ s) c k = Some x.
Proof.
  intros Ht Hl Hr. unfold tier_text. rewrite <- !app_assoc. apply mt_label; [easy| |].
  - rewrite body_text by easy. easy.
  - intros q. now apply mt_body.
Qed.
End Tier.

(** ** Reading the captures *)

Lemma cap_below m g vs c : m < g -> cap m (extra_caps g vs c) = cap m c.
Proof.
  revert g c; induction vs as [|[v n] vs IH]; intros g c Hm; [easy|]. cbn [extra_caps].
  rewrite IH by lia. destruct (ntruthy n); [|easy]. cbn.
  now replace (m =? g) with false by (symmetry; apply Nat.eqb_neq; lia).
Qed.

Definition fresh_from (g : nat) (c : caps) : Prop := forall i, g <= i -> cap i c = None.

Lemma fresh_cons g s c : fresh_from g c -> fresh_from (S g) ((g, s) :: c).
Proof.
  intros H i Hi. cbn. replace (i =? g) with false by (symmetry; apply Nat.eqb_neq; lia). apply H. lia.
Qed.

Lemma fresh_weaken g h c : g <= h -> fresh_from g c -> fresh_from h c.
Proof. intros Hl H i Hi. apply H. lia. Qed.

Lemma matched_extra (val : jstr -> number) g l c :
  fresh_from g c -> (forall f, cost_ok (val f)) ->
  matched_from g l (extra_caps g (map (fun fv => (snd fv, val (fst fv))) l) c) =
  flat_map (fun fv => if ntruthy (val (fst fv)) then [(fst fv, val (fst fv))] else []) l.
Proof.
  intros Hc Hv; revert g c Hc; induction l as [|[f v] l IH]; intros g c Hc; [easy|].
  cbn [matched_from map extra_caps fst snd flat_map]. rewrite cap_below by lia.
  destruct (ntruthy (val f)).
  - cbn [cap app]. rewrite Nat.eqb_refl. destruct (Hv f) as [-> _]. f_equal.
    apply IH. now apply fresh_cons.
  - rewrite Hc by lia. apply IH. apply (fresh_weaken g); [lia|easy].
Qed.

Lemma falsy_zero n : num_or n zero = n -> ntruthy n = false -> n = zero.
Proof. unfold num_or. intros H E. now rewrite E in H. Qed.

Lemma kept_costs (val : jstr -> number) l f :
  List.NoDup (map fst l) -> (forall f, cost_ok (val f)) -> In f (map fst l) ->
  cost_or_zero f
    (flat_map (fun fv : jstr * jstr =>
       if ntruthy (val (fst fv)) then [(fst fv, val (fst fv))] else []) l) = val f.
Proof.
  intros Hnd Hv. induction l as [|[g v] l IH]; [easy|]. cbn [map fst] in *.
  apply List.NoDup_cons_iff in Hnd as [Hg Hnd]. destruct (Hv f) as (_ & _ & _ & Hf).
  cbn [flat_map fst]. intros Hin. destruct (ntruthy (val g)) eqn:E.
  - unfold cost_or_zero. cbn [app obj_get]. destruct (seqb_spec f g) as [->|Hne]; [exact Hf|].
    destruct Hin as [->|Hin]; [easy|]. now apply IH.
  - cbn [app]. destruct Hin as [->|Hin]; [|now apply IH]. clear IH.
    rewrite (falsy_zero _ Hf E). unfold cost_or_zero.
    destruct (obj_get f _) as [y|] eqn:Eg; [|easy]. exfalso. apply obj_get_In in Eg.
    apply in_flat_map in Eg as ([h w] & Hin & Hy). cbn in Hy.
    destruct (ntruthy (val h)); [|easy]. destruct Hy as [[= <- <-]|[]]. apply Hg.
    apply in_map_iff. now exists (h, w).
Qed.

Lemma fields_NoDup : List.NoDup (map fst BILLING_CACHE_VAR_MAP).
Proof. repeat constructor; cbn; intuition congruence. Qed.

Lemma extra_again (e : list (jstr * number)) :
  map fst e = map fst BILLING_CACHE_VAR_MAP -> Forall (fun fv => cost_ok (snd fv)) e ->
  map (fun fv => (fst fv, cost_or_zero (fst fv) e)) BILLING_CACHE_VAR_MAP = e.
Proof.
  intros Hf He. rewrite <- (map_map fst (fun f => (f, cost_or_zero f e))), <- Hf, map_map.
  pose proof fields_NoDup as Hnd. rewrite <- Hf in Hnd.
  assert (H : forall fv, In fv e -> cost_or_zero (fst fv) e = snd fv).
  { intros fv Hin. unfold cost_or_zero. 
    assert (E : obj_get (fst fv) e = Some (snd fv)).
    { destruct fv. now apply obj_get_NoDup. }
    rewrite E. rewrite List.Forall_forall in He. now destruct (He fv Hin) as (_ & _ & _ & H). }
  rewrite <- (map_id e) at 2. apply map_ext_in. intros [f y] Hin. specialize (H _ Hin). cbn in *. congruence.
Qed.

Lemma mode_of_cost e :
  getTierCacheMode None e =
    if (cost_or_zero "cache_create_1h_unit_cost" e >? zero)%num
    then CACHE_MODE_TIMED else CACHE_MODE_GENERIC.
Proof.
  unfold getTierCacheMode, cost_or_zero. destruct (obj_get _ e) as [[s|s| |s m x]|]; try easy.
Qed.

(** The captures of a tier read as the tier. *)
Lemma read_captures g t conditions c :
  tier_ok t -> fresh_from g c ->
  let m := body_caps g t c in
  read_tier (vt_label t) conditions (group g m) (group (S g) m) (matched_costs (S (S g)) m) =
    {| vt_label := vt_label t; vt_conditions := conditions; vt_input := vt_input t;
       vt_output := vt_output t; vt_cache_mode := getTierCacheMode None (vt_extra t);
       vt_extra := vt_extra t |}.
Proof.
  intros [_ _ (Hi & _) (Ho & _) Hf He] Hc m.
  assert (Hm : matched_costs (S (S g)) m =
    flat_map (fun fv => if ntruthy (cost_or_zero (fst fv) (vt_extra t))
                        then [(fst fv, cost_or_zero (fst fv) (vt_extra t))] else []) BILLING_CACHE_VAR_MAP).
  { apply (matched_extra (fun f => cost_or_zero f (vt_extra t))).
    - apply fresh_cons, fresh_cons, Hc.
    - intros f. now apply cost_lookup. }
  assert (Hg : group g m = num_to_string (vt_input t)).
  { unfold group, m, body_caps. rewrite cap_below by lia. cbn.
    replace (g =? S g) with false by (symmetry; apply Nat.eqb_neq; lia). now rewrite Nat.eqb_refl. }
  assert (Hsg : group (S g) m = num_to_string (vt_output t)).
  { unfold group, m, body_caps. rewrite cap_below by lia. cbn. now rewrite Nat.eqb_refl. }
  assert (Hx : forall f, In f (map fst BILLING_CACHE_VAR_MAP) ->
            cost_or_zero f (matched_costs (S (S g)) m) = cost_or_zero f (vt_extra t)).
  { intros f Hin. rewrite Hm. apply (kept_costs (fun f => cost_or_zero f (vt_extra t)));
      [exact fields_NoDup|intros; now apply cost_lookup|exact Hin]. }
  unfold read_tier, normalizeVisualTier. cbn [pa_label pa_conditions pa_input pa_output pa_cache_mode pa_extra].
  rewrite Hg, Hsg, Hi, Ho. f_equal.
  - rewrite !mode_of_cost. now rewrite Hx by (cbn; tauto).
  - etransitivity; [|exact (extra_again (vt_extra t) Hf He)]. apply map_ext_in. intros fv Hin.
    f_equal. apply Hx. now apply in_map.
Qed.

(** ** Conditions *)

Definition cond_vars : list jstr := ["p"; "c"; "len"%js].

Section Conditions.
Context {A : Type}.
Implicit Types (k : cont (A := A)).

Lemma mt_var v s p c k :
  In v cond_vars -> mt cond_var p (v ++ 32%N :: s) c k = k (last_opt p v) (32%N :: s) c.
Proof.
  unfold cond_vars. intros Hv. repeat destruct Hv as [<-|Hv]; try easy; cbn;
    unfold or_else; now destruct (k _ _ _).
Qed.

Lemma mt_op op s p c k :
  (forall q c', k q (61%N :: 32%N :: s) c' = None) ->
  mt cond_op p (op_text op ++ 32%N :: s) c k = k (last_opt p (op_text op)) (32%N :: s) c.
Proof.
  intros Hk. destruct op; cbn; rewrite ?Hk; unfold or_else; now destruct (k _ _ _).
Qed.

Lemma op_stops op s : stops is_space (op_text op ++ s).
Proof. now destruct op. Qed.

Lemma pos_stops w s :
  w <> [] -> Forall (fun c => cls_num_pos c = true) w -> stops is_space (w ++ s).
Proof.
  intros Hne Hw. destruct w as [|y w]; [easy|]. apply Forall_cons_1 in Hw as [Hy _].
  apply num_no_space. unfold cls_num, cls_num_pos in *. now rewrite Hy.
Qed.

Lemma mt_one_plain v op w s p c k x :
  In v cond_vars -> w <> [] -> Forall (fun c => cls_num_pos c = true) w -> stops cls_num_pos s ->
  (forall q, k q s c = Some x) ->
  mt (one_cond plain) p (v ++ " " ++ op_text op ++ " " ++ w ++ s) c k = Some x.
Proof.
  intros Hv Hne Hw Hs Hk. unfold one_cond, plain. cbn [app]. rewrite mt_seq, mt_var by easy.
  apply mt_space; [apply op_stops|]. intros q. rewrite mt_seq. rewrite mt_op by easy.
  apply mt_space; [now apply pos_stops|]. intros q1. now apply plus_class_first.
Qed.

Lemma mt_one_captured v op w s p k x :
  In v cond_vars -> w <> [] -> Forall (fun c => cls_num_pos c = true) w -> stops cls_num_pos s ->
  (forall q, k q s [(3, w); (2, op_text op); (1, v)] = Some x) ->
  mt (one_cond captured) p (v ++ " " ++ op_text op ++ " " ++ w ++ s) [] k = Some x.
Proof.
  intros Hv Hne Hw Hs Hk. unfold one_cond, captured. cbn [app]. rewrite mt_seq.
  change (mt (RGroup 1 cond_var)) with (fun p s c (k : cont (A := A)) =>
    mt cond_var p s c (fun p' s' c' => k p' s' ((1, take (length s - length s') s) :: c'))).
  cbv beta. rewrite mt_var, take_consumed by easy.
  apply mt_space; [apply op_stops|]. intros q. rewrite mt_seq.
  change (mt (RGroup 2 cond_op)) with (fun p s c (k : cont (A := A)) =>
    mt cond_op p s c (fun p' s' c' => k p' s' ((2, take (length s - length s') s) :: c'))).
  cbv beta. rewrite mt_op by easy. rewrite take_consumed.
  apply mt_space; [now apply pos_stops|]. intros q1. now apply group_plus_first.
Qed.
End Conditions.

(** ** Splitting at conjunctions *)

Definition sep_re : re := spaces @; RLit "&&" @; spaces.

(** A piece between two separators: no ampersand, no space at its ends. *)
Definition piece (w : jstr) : Prop :=
  Forall (fun c => c <> 38%N) w /\ edges_ok w = true /\ w <> [].

Lemma sep_head {A} p y s c (k : cont (A := A)) :
  y <> 38%N -> is_space y = false -> mt sep_re p (y :: s) c k = None.
Proof.
  intros Hy Hs. unfold sep_re. rewrite mt_tight_eq by exact Hs. cbn [mt strip_prefix].
  destruct (N.eqb_spec 38 y); [congruence|easy].
Qed.

(** The pattern does not match inside a piece. *)
Lemma sep_inside {A} u y t p c (k : cont (A := A)) :
  Forall (fun x => is_space x = true) u -> y <> 38%N -> is_space y = false ->
  mt sep_re p (u ++ y :: t) c k = None.
Proof.
  intros Hu Hy Hs. unfold sep_re. rewrite mt_seq. unfold spaces.
  rewrite (star_class_exact is_space u (y :: t)); [|easy|easy|].
  - cbn [mt strip_prefix]. destruct (N.eqb_spec 38 y); [congruence|easy].
  - apply (rejects_lit 38%N [38%N]). reflexivity.
Qed.

Lemma leading_spaces w :
  last_opt None w <> None -> (forall x, last_opt None w = Some x -> is_space x = false) ->
  exists u y t, w = u ++ y :: t /\ Forall (fun x => is_space x = true) u /\ is_space y = false.
Proof.
  induction w as [|x w IH]; intros Hn Hl; [easy|].
  destruct (is_space x) eqn:E; [|now exists [], x, w].
  destruct w as [|z w].
  - exfalso. specialize (Hl x eq_refl). congruence.
  - destruct IH as (u & y & t & -> & Hu & Hy).
    + unfold last_opt in *. cbn in *. now destruct (rev w).
    + intros q Hq. apply Hl. rewrite <- Hq. unfold last_opt. cbn. now destruct (rev w).
    + exists (x :: u), y, t. split; [easy|]. split; [now constructor|easy].
Qed.

Lemma last_opt_tail y w x : last_opt None w = Some x -> last_opt None (y :: w) = Some x.
Proof. unfold last_opt. cbn. now destruct (rev w). Qed.

Lemma exec_sep w rest p before :
  Forall (fun c => c <> 38%N) w ->
  (forall x, last_opt None w = Some x -> is_space x = false) -> stops is_space rest ->
  exec_from sep_re p before (w ++ " && " ++ rest) = Some (ReHit (rev before ++ w) " && " rest []).
Proof.
  intros Hw Hl Hr. revert p before Hl; induction Hw as [|y w Hy Hw IH]; intros p before Hl.
  - cbn [app]. unfold match_at.
    assert (H : forall q, mt sep_re q (" && " ++ rest) [] (fun _ s' c => Some (s', c)) = Some (rest, [])).
    { intros q. unfold sep_re. apply mt_space; [easy|]. intros q1. apply (mt_word "&&"). intros q2.
      apply (star_class_first is_space [32%N] rest); [now constructor|easy|reflexivity]. }
    cbn [exec_from app]. unfold match_at. rewrite H. rewrite app_nil_r.
    f_equal. f_equal. exact (take_consumed " && " rest).
  - destruct (leading_spaces (y :: w)) as (u & z & t & E & Hu & Hz).
    + unfold last_opt. cbn. now destruct (rev w).
    + exact Hl.
    + cbn [app exec_from]. unfold match_at.
      replace (mt sep_re p (y :: w ++ " && " ++ rest) [] _) with (@None (jstr * caps)).
      2:{ symmetry. rewrite app_comm_cons, E, <- app_assoc. cbn [app]. apply sep_inside; [easy| |easy].
          assert (Hin : In z (y :: w)) by (rewrite E; apply in_app_iff; right; now left).
          destruct Hin as [<-|Hin]; [easy|]. rewrite List.Forall_forall in Hw. now apply Hw. }
      rewrite IH.
      * cbn [rev]. now rewrite <- app_assoc.
      * intros x Hx. apply Hl. now apply last_opt_tail.
Qed.

Lemma exec_sep_none w p before :
  Forall (fun c => c <> 38%N) w ->
  (forall x, last_opt None w = Some x -> is_space x = false) ->
  exec_from sep_re p before w = None.
Proof.
  intros Hw. revert p before; induction Hw as [|y w Hy Hw IH]; intros p before Hl; [easy|].
  destruct (leading_spaces (y :: w)) as (u & z & t & E & Hu & Hz); [|exact Hl|].
  - unfold last_opt. cbn. now destruct (rev w).
  - cbn [exec_from]. unfold match_at.
    replace (mt sep_re p (y :: w) [] _) with (@None (jstr * caps)).
    2:{ symmetry. rewrite E. apply sep_inside; [easy| |easy].
        assert (Hin : In z (y :: w)) by (rewrite E; apply in_app_iff; right; now left).
        destruct Hin as [<-|Hin]; [easy|]. rewrite List.Forall_forall in Hw. now apply Hw. }
    apply IH. intros x Hx. apply Hl. now apply last_opt_tail.
Qed.

Lemma piece_last w : piece w -> forall x, last_opt None w = Some x -> is_space x = false.
Proof.
  intros (_ & He & Hne) x Hx. unfold edges_ok in He. unfold last_opt in Hx.
  destruct w as [|y w]; [easy|]. apply andb_true_iff in He as [_ He].
  destruct (rev (y :: w)) as [|z l]; [easy|]. injection Hx as <-. now apply negb_true_iff in He.
Qed.

Lemma piece_stops w s : piece w -> stops is_space (w ++ s).
Proof.
  intros (_ & He & Hne). destruct w as [|y w]; [easy|]. unfold edges_ok in He.
  apply andb_true_iff in He as [He _]. now apply negb_true_iff in He.
Qed.

Lemma split_pieces ws : Forall piece ws -> ws <> [] -> re_split sep_re (join " && " ws) = ws.
Proof.
  intros Hws Hne. unfold re_split, exec_all.
  assert (Hf : length ws <= S (length (join " && " ws))).
  { clear Hne. induction Hws as [|w ws Hw Hws IH]; cbn [length]; [lia|].
    destruct ws as [|w' ws]; [cbn; lia|]. rewrite join_cons by easy. rewrite !length_app.
    cbn [length] in *. lia. }
  revert Hf. generalize (S (length (join " && " ws))) (None : option N).
  intros f. induction Hws as [|w ws Hw Hws IH] in f, Hne |- *; [easy|]. intros p Hf.
  destruct f as [|f]; [cbn in Hf; lia|]. cbn [exec_all_go].
  destruct ws as [|w' ws].
  - cbn [join]. rewrite exec_sep_none; [easy|apply Hw|now apply piece_last].
  - rewrite join_cons by easy.
    assert (Hj : stops is_space (join " && " (w' :: ws))).
    { apply Forall_cons_1 in Hws as [Hw' _]. destruct ws as [|w2 ws].
      - cbn. rewrite <- (app_nil_r w'). now apply piece_stops.
      - rewrite join_cons by easy. now apply piece_stops. }
    rewrite exec_sep; [|apply Hw|now apply piece_last|exact Hj]. cbn [rev app hit_rest split_hits hit_before].
    f_equal. apply IH; [easy|]. cbn [length] in *. lia.
Qed.

Lemma pos_no_amp x : cls_num_pos x = true -> x <> 38%N.
Proof. intros H ->. now vm_compute in H. Qed.

Lemma pos_cls x : cls_num_pos x = true -> cls_num x = true.
Proof. unfold cls_num, cls_num_pos. now intros ->. Qed.

Lemma last_edges a w :
  w <> [] -> Forall (fun c => cls_num_pos c = true) w ->
  match a with [] => True | y :: _ => is_space y = false end ->
  edges_ok (a ++ w) = true.
Proof.
  intros Hne Hw Ha. unfold edges_ok.
  assert (Hl : match rev (a ++ w) with d :: _ => negb (is_space d) | [] => true end = true).
  { rewrite rev_app_distr. destruct (rev w) as [|z l] eqn:E; [now apply (f_equal (@rev N)) in E; rewrite rev_involutive in E|].
    assert (Hz : In z w) by (apply in_rev; rewrite E; now left).
    rewrite List.Forall_forall in Hw. cbn. now rewrite (num_no_space z) by now apply pos_cls, Hw. }
  destruct (a ++ w) as [|y l] eqn:E; [easy|]. rewrite Hl, andb_true_r.
  destruct a as [|y' a]; cbn in E; injection E as <- <- || subst.
  - apply Forall_cons_1 in Hw as [Hy _]. now rewrite (num_no_space y) by now apply pos_cls.
  - now rewrite Ha.
Qed.

Lemma condition_piece c : condition_ok c -> piece (condition_text c).
Proof.
  intros (Hv & n & Hn & _ & Hw & Hne). unfold condition_text. rewrite Hn. cbn [value_text].
  repeat split.
  - apply Forall_app. split; [unfold cond_vars in *; repeat destruct Hv as [<-|Hv]; try easy; repeat constructor; easy|].
    apply Forall_app. split; [repeat constructor; easy|]. apply Forall_app.
    split; [destruct (ti_op c); repeat constructor; easy|]. apply Forall_app. split; [repeat constructor; easy|].
    eapply Forall_impl; [exact Hw|]. exact pos_no_amp.
  - rewrite !app_assoc. apply last_edges; [easy|easy|]. rewrite <- !app_assoc.
    repeat destruct Hv as [<-|Hv]; easy.
  - now repeat destruct Hv as [<-|Hv].
Qed.

Lemma conditions_given cs : Forall condition_ok cs -> List.filter condition_given cs = cs.
Proof.
  induction 1 as [|c cs (Hv & n & Hn & _) _ IH]; [easy|]. cbn [List.filter]. rewrite IH.
  unfold condition_given. rewrite Hn. now repeat destruct Hv as [<-|Hv].
Qed.

Lemma conditions_text cs :
  Forall condition_ok cs -> buildConditionStr cs = join " && " (map condition_text cs).
Proof. intros H. unfold buildConditionStr. now rewrite conditions_given. Qed.

(** The conditions that are written are read. *)
Lemma read_conditions cs :
  Forall condition_ok cs -> tier_conditions (buildConditionStr cs) = cs.
Proof.
  intros H. destruct (decide (length cs = 0)) as [H0|Hne]; [now destruct cs|].
  rewrite conditions_text by easy. unfold tier_conditions, parse_conditions.
  destruct (join " && " (map condition_text cs)) as [|y l] eqn:E.
  { exfalso. destruct cs as [|c cs]; [easy|]. apply Forall_cons_1 in H as [Hc _].
    apply condition_piece in Hc as (_ & _ & Hc). cbn [map] in E. destruct cs as [|c' cs].
    - cbn [map join] in E; congruence.
    - cbn [map] in E. rewrite join_cons in E by easy. now destruct (condition_text c). }
  rewrite <- E. clear y l E.
  change (spaces @; RLit "&&" @; spaces) with sep_re. rewrite split_pieces.
  - clear Hne. induction H as [|c cs Hc _ IH]; [easy|]. cbn [map flat_map].
    rewrite map_app. rewrite IH. rewrite edges_trim by now apply condition_piece.
    destruct Hc as (Hv & n & Hn & Hr & Hw & Hne).
    assert (Hm : match_caps (RBol @; one_cond captured @; REol) (condition_text c) =
      Some [(3, num_to_string n); (2, op_text (ti_op c)); (1, ti_var c)]).
    { rewrite match_bol. unfold condition_text. rewrite Hn. cbn [value_text].
      rewrite <- (app_nil_r (num_to_string n)). rewrite mt_seq. apply mt_one_captured; try easy.
      rewrite app_nil_r. easy. }
    rewrite Hm. cbn [map app group cap tcond_var tcond_op tcond_value]. unfold group. cbn.
    rewrite Hr. destruct c as [v op val]. cbn in *. subst val. now destruct op.
  - apply Forall_map. eapply Forall_impl; [exact H|]. exact condition_piece.
  - now destruct cs.
Qed.

(** ** The condition in front of a tier *)

Definition conj_text (cs : list TierConditionInput) : jstr :=
  List.concat (map (fun c => " && " ++ condition_text c) cs).

Lemma conj_join c cs :
  join " && " (map condition_text (c :: cs)) = condition_text c ++ conj_text cs.
Proof.
  unfold conj_text. revert c; induction cs as [|c' cs IH]; intros c; [cbn; now rewrite app_nil_r|].
  cbn [map]. rewrite join_cons by easy. cbn [map] in IH. rewrite IH. cbn [List.concat].
  now rewrite <- !app_assoc.
Qed.

Definition another_cond : re := spaces @; RLit "&&" @; spaces @; one_cond plain.

Section Prefix.
Context {A : Type}.
Implicit Types (k : cont (A := A)).

Lemma mt_condition cd s p c k x :
  condition_ok cd -> stops cls_num_pos s -> (forall q, k q s c = Some x) ->
  mt (one_cond plain) p (condition_text cd ++ s) c k = Some x.
Proof.
  intros (Hv & n & Hn & _ & Hw & Hne) Hs Hk. unfold condition_text. rewrite Hn. cbn [value_text].
  rewrite <- !app_assoc. now apply mt_one_plain.
Qed.

Lemma condition_stops cd s : condition_ok cd -> stops is_space (condition_text cd ++ s).
Proof. intros H. now apply piece_stops, condition_piece. Qed.

Lemma conj_stops cs s : stops cls_num_pos (conj_text cs ++ 32%N :: s).
Proof. now destruct cs. Qed.

Lemma mt_conj cs s f p c k x :
  Forall condition_ok cs -> length cs <= f ->
  (forall q, k q (" ? " ++ s) c = Some x) ->
  star_loop (mt another_cond) f p (conj_text cs ++ " ? " ++ s) c k = Some x.
Proof.
  intros Hcs; revert f p; induction Hcs as [|cd cs Hcd Hcs IH]; intros f p Hf Hk.
  - destruct f as [|f]; [apply Hk|]. rewrite star_loop_S. cbn [conj_text map List.concat app].
    replace (mt another_cond _ _ _ _) with (@None A); [apply Hk|].
    symmetry. unfold another_cond. now rewrite mt_space_eq.
  - destruct f as [|f]; [cbn in Hf; lia|]. rewrite star_loop_S.
    unfold conj_text. cbn [map List.concat]. fold (conj_text cs). rewrite <- !app_assoc.
    replace (mt another_cond _ _ _ _) with (Some x); [easy|]. symmetry. unfold another_cond.
    apply mt_space; [easy|]. intros q. apply (mt_word "&&"). intros q1.
    apply mt_space; [now apply condition_stops|]. intros q2.
    apply mt_condition; [easy|apply conj_stops|]. intros q3.
    replace (length (conj_text cs ++ " ? " ++ s) <? _) with true
      by (symmetry; apply Nat.ltb_lt; rewrite !length_app; cbn; lia).
    apply IH; [cbn in Hf; lia|exact Hk].
Qed.

Lemma conj_length cs : length cs <= length (conj_text cs).
Proof.
  induction cs as [|c cs IH]; [cbn; lia|]. unfold conj_text in *. cbn [map List.concat].
  rewrite !length_app. cbn [length]. lia.
Qed.

Lemma mt_condGroup cs s p k x :
  Forall condition_ok cs -> cs <> [] ->
  (forall q, k q (" ? " ++ s) [(1, buildConditionStr cs)] = Some x) ->
  mt condGroup p (buildConditionStr cs ++ " ? " ++ s) [] k = Some x.
Proof.
  intros Hcs Hne Hk. rewrite conditions_text in * by easy. unfold condGroup. cbn [mt].
  destruct cs as [|cd cs]; [easy|]. rewrite conj_join in *. apply Forall_cons_1 in Hcs as [Hcd Hcs].
  rewrite <- app_assoc. change (mt (one_cond plain @; RStar another_cond) p
    (condition_text cd ++ conj_text cs ++ " ? " ++ s) []
    (fun p' s' c' => k p' s' ((1, take (length (condition_text cd ++ conj_text cs ++ " ? " ++ s) - length s')
                                  (condition_text cd ++ conj_text cs ++ " ? " ++ s)) :: c')) = Some x).
  rewrite mt_seq. apply mt_condition; [easy|apply conj_stops|]. intros q. rewrite mt_star.
  apply mt_conj; [easy| |].
  - pose proof (conj_length cs). rewrite !length_app. lia.
  - intros q1. rewrite (app_assoc (condition_text cd)), take_consumed. apply Hk.
Qed.

Lemma mt_prefix_hit cs s p r k x :
  Forall condition_ok cs -> cs <> [] -> stops is_space s ->
  (forall q, mt r q s [(1, buildConditionStr cs)] k = Some x) ->
  mt (tier_prefix @; r) p (buildConditionStr cs ++ " ? " ++ s) [] k = Some x.
Proof.
  intros Hcs Hne Hs Hk. rewrite mt_seq. unfold tier_prefix, ROpt. rewrite mt_alt.
  replace (mt (condGroup @; _) _ _ _ _) with (Some x); [easy|]. symmetry.
  rewrite mt_seq. apply mt_condGroup; [easy..|]. intros q. apply mt_space; [easy|]. intros q1.
  apply (mt_word "?"). intros q2. apply (star_class_first is_space [32%N] s); [now constructor|easy|].
  apply Hk.
Qed.
End Prefix.

(** ** The parts of the text *)

(** A tier as it is written inside a chain. *)
Definition part_text (t : VisualTier) : jstr :=
  match vt_conditions t with
  | [] => tier_text (vt_label t) t
  | cs => buildConditionStr cs ++ " ? " ++ tier_text (vt_label t) t
  end.

Definition part_caps (t : VisualTier) : caps :=
  match vt_conditions t with
  | [] => body_caps 3 t [(2, vt_label t)]
  | cs => body_caps 3 t [(2, vt_label t); (1, buildConditionStr cs)]
  end.

Lemma part_match t s p :
  tier_ok t -> match_at visualTierRe p (part_text t ++ s) = Some (s, part_caps t).
Proof.
  intros Ht. pose proof Ht as [[_ Hl] Hc _ _ _ _].
  assert (Hend : forall c q, mt (A := jstr * caps) (RLit ")") q (rparen :: s) c (fun _ s' c => Some (s', c)) = Some (s, c)) by easy.
  unfold match_at, visualTierRe, part_text, part_caps.
  destruct (vt_conditions t) as [|cd cs] eqn:E.
  - change (mt (tier_prefix @; label_pat 2 (body_pat 3 (RLit ")"))) p (tier_text (vt_label t) t ++ s) []
              (fun _ s' c => Some (s', c))) with
      (mt (label_pat 2 (body_pat 3 (RLit ")"))) p (tier_text (vt_label t) t ++ s) [] (fun _ s' c => Some (s', c))).
    apply mt_tier; [easy..|]. intros q. apply Hend.
  - rewrite <- !app_assoc. apply mt_prefix_hit; [easy..|]. intros q.
    apply mt_tier; [easy..|]. intros q1. apply Hend.
Qed.

Lemma build_nonempty cs : Forall condition_ok cs -> cs <> [] -> truthy (buildConditionStr cs) = true.
Proof.
  intros H Hne. rewrite conditions_text by easy. destruct cs as [|c cs]; [easy|].
  rewrite conj_join. apply Forall_cons_1 in H as [H _]. apply condition_piece in H as (_ & _ & H).
  now destruct (condition_text c).
Qed.

Lemma read_part t before text rest :
  tier_ok t -> read_hit (ReHit before text rest (part_caps t)) = reread_tier t.
Proof.
  intros Ht. pose proof Ht as [_ Hc _ _ _ _]. unfold read_hit, part_caps, reread_tier. cbn [hit_caps].
  assert (Hf : forall cond, (forall i, 3 <= i -> cap i cond = None) -> fresh_from 3 cond) by easy.
  destruct (vt_conditions t) as [|cd cs] eqn:E.
  - set (c := [(2, vt_label t)]).
    replace (group 2 _) with (vt_label t)
      by (unfold group, body_caps; now rewrite cap_below by lia).
    replace (group 1 _) with (@nil N)
      by (unfold group, body_caps; now rewrite cap_below by lia).
    rewrite read_captures; [easy|easy|]. intros i Hi. now destruct i as [|[|[|i]]]; try lia.
  - set (c := [(2, vt_label t); _]).
    replace (group 2 _) with (vt_label t)
      by (unfold group, body_caps; now rewrite cap_below by lia).
    replace (group 1 _) with (buildConditionStr (cd :: cs))
      by (unfold group, body_caps; now rewrite cap_below by lia).
    rewrite read_captures, read_conditions; [easy|easy|easy|].
    intros i Hi. now destruct i as [|[|[|i]]]; try lia.
Qed.

(** ** The whole text *)

(** The text of a configuration as its parts, and the price of a single
    conditional tier that does not apply. *)
Definition config_text (c : VisualConfig) : jstr :=
  match vc_tiers c with
  | [t] => part_text t ++ (if decide (vt_conditions t = []) then [] else " : " ++ no_price)
  | ts => join " : " (map part_text ts)
  end.

Lemma label_kept l : l <> [] -> forall d, str_or l d = l.
Proof. now destruct l. Qed.

Lemma parts_text i n ts :
  i + length ts = n -> Forall tier_ok ts -> chained ts -> ts <> [] ->
  tier_parts i n ts = map part_text ts.
Proof.
  intros Hn Hts; revert i Hn; induction Hts as [|t ts Ht Hts IH]; intros i Hn Hc Hne; [easy|].
  cbn [tier_parts map length] in *. cbv zeta. pose proof Ht as [[Hl _] Hcs _ _ _ _].
  rewrite label_kept by easy. unfold part_text at 1. destruct ts as [|t' ts].
  - cbn in Hc. rewrite Hc. cbn [length] in Hn. cbn [buildConditionStr List.filter map join truthy].
    now rewrite andb_false_r.
  - destruct Hc as [Hcd Hc]. replace (i <? n - 1) with true
      by (symmetry; apply Nat.ltb_lt; cbn [length] in Hn; lia).
    rewrite build_nonempty by easy. cbn [andb]. rewrite IH; [|lia|easy|easy].
    f_equal. now destruct (vt_conditions t).
Qed.

Lemma generated_text c : config_ok c -> generateExprFromVisualConfig (Some c) = config_text c.
Proof.
  unfold config_ok, generateExprFromVisualConfig, config_text. destruct c as [ts]. cbn [vc_tiers].
  destruct ts as [|t [|t' ts]]; [easy| |].
  - intros [[Hl _] Hcs _ _ _ _]. rewrite label_kept by easy. unfold part_text.
    destruct (vt_conditions t) as [|cd cs] eqn:E.
    + cbn [buildConditionStr List.filter map join truthy]. now rewrite decide_True, app_nil_r by easy.
    + rewrite build_nonempty, decide_False by easy. now rewrite <- !app_assoc.
  - intros [Hts Hc]. rewrite (parts_text 0 _ (t :: t' :: ts)); easy.
Qed.

Lemma reread_generated c :
  generateExprFromVisualConfig (Some {| vc_tiers := map reread_tier (vc_tiers c) |}) =
  generateExprFromVisualConfig (Some c).
Proof.
  destruct c as [ts]. cbn [vc_tiers].
  assert (H : forall ts i n, tier_parts i n (map reread_tier ts) = tier_parts i n ts).
  { clear ts. intros ts. induction ts as [|t ts IH]; intros i n; [easy|]. cbn [map tier_parts]. now rewrite IH. }
  unfold generateExprFromVisualConfig. cbn [vc_tiers].
  destruct ts as [|t [|t' ts]]; [easy|easy|]. cbn [map].
  change (reread_tier t :: reread_tier t' :: map reread_tier ts) with (map reread_tier (t :: t' :: ts)).
  now rewrite H, length_map.
Qed.

Lemma normalize_reread t : tier_ok t -> normalizeVisualTier (partial (reread_tier t)) = reread_tier t.
Proof.
  intros [_ _ _ _ Hf He]. unfold normalizeVisualTier, partial, reread_tier. cbn. f_equal.
  now apply extra_again.
Qed.

Lemma normalize_config ts :
  ts <> [] -> Forall tier_ok ts ->
  normalizeVisualConfig (Some {| vc_tiers := map reread_tier ts |}) = {| vc_tiers := map reread_tier ts |}.
Proof.
  intros Hne Hts.
  assert (H : map (fun t => normalizeVisualTier (partial t)) (map reread_tier ts) = map reread_tier ts).
  { rewrite map_map. apply map_ext_in. intros t Hin. apply normalize_reread.
    rewrite List.Forall_forall in Hts. now apply Hts. }
  destruct ts as [|t ts]; [easy|]. cbn [map normalizeVisualConfig] in *. f_equal. exact H.
Qed.

(** ** Reading the parts *)

Lemma exec_here r p s s' c :
  match_at r p s = Some (s', c) -> exec_from r p [] s = Some (ReHit [] (take (length s - length s') s) s' c).
Proof. intros H. now destruct s; cbn [exec_from]; rewrite H. Qed.

Lemma exec_separated p s :
  exec_from visualTierRe p [] (" : " ++ s) =
  match exec_from visualTierRe (Some 32%N) (rev " : ") s with
  | Some h => Some h | None => None end.
Proof. cbn [app exec_from]. now destruct (exec_from _ _ _ _). Qed.

Lemma exec_sep_part t s p :
  tier_ok t ->
  exec_from visualTierRe p [] (" : " ++ part_text t ++ s) =
    Some (ReHit " : " (part_text t) s (part_caps t)).
Proof.
  intros Ht. rewrite exec_separated.
  pose proof (part_match t s (Some 32%N) Ht) as H.
  destruct (part_text t ++ s) as [|y l] eqn:E; cbn [exec_from]; rewrite H; rewrite <- E; now rewrite take_consumed.
Qed.

Lemma read_parts ts f p :
  Forall tier_ok ts -> length ts < f ->
  map read_hit (exec_all_go f visualTierRe p (List.concat (map (fun t => " : " ++ part_text t) ts)))
    = map reread_tier ts.
Proof.
  intros Hts; revert f p; induction Hts as [|t ts Ht Hts IH]; intros f p Hf.
  - destruct f as [|f]; [lia|]. reflexivity.
  - destruct f as [|f]; [cbn in Hf; lia|]. cbn [map List.concat exec_all_go]. rewrite <- app_assoc.
    rewrite exec_sep_part by easy. cbn [map hit_rest]. rewrite read_part by easy. f_equal.
    apply IH. cbn in Hf. lia.
Qed.

Lemma join_parts t ts :
  join " : " (map part_text (t :: ts)) = part_text t ++ List.concat (map (fun t => " : " ++ part_text t) ts).
Proof.
  revert t; induction ts as [|t' ts IH]; intros t; [cbn [map join List.concat]; now rewrite app_nil_r|].
  cbn [map]. rewrite join_cons by easy. cbn [map] in IH. rewrite IH. cbn [List.concat].
  now rewrite <- !app_assoc.
Qed.

Lemma parts_length ts : length ts <= length (List.concat (map (fun t => " : " ++ part_text t) ts)).
Proof.
  induction ts as [|t ts IH]; [cbn; lia|]. cbn [map List.concat]. rewrite !length_app. cbn [length]. lia.
Qed.

Lemma read_chain t ts :
  Forall tier_ok (t :: ts) ->
  map read_hit (exec_all visualTierRe (join " : " (map part_text (t :: ts)))) = map reread_tier (t :: ts).
Proof.
  intros Hts. apply Forall_cons_1 in Hts as [Ht Hts]. unfold exec_all. rewrite join_parts.
  cbn [exec_all_go]. rewrite (exec_here _ _ _ _ _ (part_match t _ None Ht)). cbn [map hit_rest].
  rewrite read_part by easy. f_equal.
  assert (Hp : part_text t <> []).
  { unfold part_text. destruct (vt_conditions t); [easy|]. now destruct (buildConditionStr _). }
  apply read_parts; [easy|]. rewrite length_app. pose proof (parts_length ts).
  destruct (part_text t); [easy|]. cbn [length]. lia.
Qed.

Lemma read_one_conditional t :
  tier_ok t ->
  map read_hit (exec_all visualTierRe (part_text t ++ " : " ++ no_price)) = [reread_tier t].
Proof.
  intros Ht. unfold exec_all. cbn [exec_all_go].
  rewrite (exec_here _ _ _ _ _ (part_match t _ None Ht)). cbn [map hit_rest].
  rewrite read_part by easy. f_equal. rewrite length_app. cbn [length app]. 
  replace (length (part_text t) + _) with (S (length (part_text t) + 15)) by (cbn; lia). reflexivity.
Qed.

(** ** Reading the whole text *)

Lemma strip_other s : stops (fun c => (c =? 118)%N) s -> s <> [] -> snd (stripExprVersion s) = s.
Proof.
  intros Hs Hne. destruct s as [|y s]; [easy|]. unfold stripExprVersion.
  replace (match_caps _ _) with (@None caps); [easy|]. symmetry. rewrite match_bol, mt_seq. cbn [mt strip_prefix].
  cbn in Hs. rewrite N.eqb_sym in Hs. now rewrite Hs.
Qed.

Lemma condition_start cd s :
  condition_ok cd ->
  exists y l, condition_text cd ++ s = y :: l /\ In y [112%N; 99%N; 108%N].
Proof.
  intros (Hv & _). unfold condition_text.
  repeat destruct Hv as [<-|Hv]; try easy; eexists _, _; (split; [reflexivity|cbn; tauto]).
Qed.

Lemma part_start t s :
  tier_ok t -> vt_conditions t <> [] ->
  exists y l, part_text t ++ s = y :: l /\ In y [112%N; 99%N; 108%N].
Proof.
  intros [_ Hc _ _ _ _] Hne. unfold part_text. destruct (vt_conditions t) as [|cd cs]; [easy|].
  rewrite conditions_text, conj_join by easy. rewrite <- !app_assoc. apply condition_start.
  now apply Forall_cons_1 in Hc.
Qed.

Lemma single_other y l : In y [112%N; 99%N; 108%N] -> match_caps singleRe (y :: l) = None.
Proof. intros H. now repeat destruct H as [<-|H]. Qed.

Lemma single_match t :
  tier_ok t -> match_caps singleRe (tier_text (vt_label t) t) = Some (body_caps 2 t [(1, vt_label t)]).
Proof.
  intros Ht. pose proof Ht as [[_ Hl] _ _ _ _ _]. unfold singleRe. rewrite match_bol.
  rewrite <- (app_nil_r (tier_text _ _)). now apply mt_tier.
Qed.

Lemma read_single t :
  tier_ok t -> vt_conditions t = [] ->
  let m := body_caps 2 t [(1, vt_label t)] in
  read_tier (group 1 m) [] (group 2 m) (group 3 m) (matched_costs 4 m) = reread_tier t.
Proof.
  intros Ht Hc m.
  replace (group 1 m) with (vt_label t) by (unfold group, m, body_caps; now rewrite cap_below by lia).
  unfold m. rewrite read_captures; [unfold reread_tier; now rewrite Hc|easy|].
  intros i Hi. now destruct i as [|[|i]]; try lia.
Qed.

(** A text that starts with a condition is read part by part. *)
Lemma read_conditional c y l :
  config_ok c -> config_text c = y :: l -> In y [112%N; 99%N; 108%N] ->
  map read_hit (exec_all visualTierRe (config_text c)) = map reread_tier (vc_tiers c) ->
  vc_tiers c <> [] -> Forall tier_ok (vc_tiers c) ->
  tryParseVisualConfig (generateExprFromVisualConfig (Some c)) =
    Some {| vc_tiers := map reread_tier (vc_tiers c) |}.
Proof.
  intros Hc E Hy Hr Hne Hts. rewrite generated_text by easy. rewrite E in *. unfold tryParseVisualConfig.
  rewrite strip_other; [|cbn; now repeat destruct Hy as [<-|Hy]|easy].
  rewrite single_other by easy. rewrite Hr.
  destruct (map reread_tier (vc_tiers c)) as [|t' ts] eqn:Em.
  { destruct (vc_tiers c); [easy|discriminate Em]. }
  rewrite <- Em. rewrite normalize_config by easy. rewrite reread_generated, generated_text by easy.
  rewrite E, seqb_refl. reflexivity.
Qed.

Lemma config_reads c :
  config_ok c ->
  tryParseVisualConfig (generateExprFromVisualConfig (Some c)) =
    Some {| vc_tiers := map reread_tier (vc_tiers c) |}.
Proof.
  intros Hc. pose proof Hc as Ho. unfold config_ok in Ho. destruct c as [ts]. cbn [vc_tiers] in *.
  destruct ts as [|t [|t' ts]]; [easy| |].
  - destruct (decide (vt_conditions t = [])) as [E|E].
    + rewrite generated_text by easy. unfold config_text. cbn [vc_tiers].
      rewrite decide_True, app_nil_r by easy. unfold part_text. rewrite E.
      unfold tryParseVisualConfig. destruct (tier_text (vt_label t) t) as [|y l] eqn:Et; [easy|].
      rewrite strip_other; [|now injection Et as <- _|easy]. rewrite <- Et, single_match by easy.
      rewrite read_single by easy. f_equal. now apply (normalize_config [t]); [|constructor].
    + destruct (part_start t (" : " ++ no_price) Ho E) as (y & l & Ey & Hy).
      apply (read_conditional {| vc_tiers := [t] |} y l); try easy; unfold config_text; cbn [vc_tiers];
        rewrite ?decide_False by easy; [exact Ey|now apply read_one_conditional|now constructor].
  - destruct Ho as [Hts Hch]. pose proof Hts as Ht. apply Forall_cons_1 in Ht as [Ht _].
    destruct (part_start t (List.concat (map (fun t => " : " ++ part_text t) (t' :: ts))) Ht)
      as (y & l & Ey & Hy); [now destruct Hch|].
    apply (read_conditional {| vc_tiers := t :: t' :: ts |} y l); try easy; unfold config_text; cbn [vc_tiers].
    + now rewrite join_parts.
    + now apply read_chain.
Qed.

(** C34: a configuration of the visual editor - every label set and without double
    quotes, every cost and bound a number whose text reads back, every tier but the last
    under a condition (a single tier may have one too) - is written as an expression that
    [tryParseVisualConfig] reads as the same tiers; only the cache mode, which is not
    written, is derived again. *)
Theorem config_roundtrip c :
  config_ok c ->
  tryParseVisualConfig (generateExprFromVisualConfig (Some c)) =
    Some {| vc_tiers := map reread_tier (vc_tiers c) |}.
Proof. exact (config_reads c). Qed.

Ltac number_text := repeat split; vm_compute; first [reflexivity|discriminate|repeat constructor].

(** Two tiers, the first under two conditions, with caching and audio prices. *)
Definition sample_tier (label : jstr) (conditions : list TierConditionInput) (input output cache : number)
    : VisualTier :=
  normalizeVisualTier
    {| pa_label := Some label; pa_conditions := Some conditions; pa_input := Some input;
       pa_output := Some output; pa_cache_mode := None;
       pa_extra := [("cache_read_unit_cost", cache); ("cache_create_1h_unit_cost", of_Z 6)] |}.

Definition sample_config : VisualConfig :=
  {| vc_tiers :=
       [ sample_tier "standard"
           [ {| ti_var := "len"; ti_op := OpLe; ti_value := InNum (of_Z 200000) |};
             {| ti_var := "c"; ti_op := OpLt; ti_value := InNum (of_Z 8000) |} ]
           (of_Z 3) (of_Z 15) (Number_str "0.3");
         sample_tier "long" [] (of_Z 6) (Number_str "22.5") (Number_str "0.6") ] |}.

Lemma sample_config_ok : config_ok sample_config.
Proof.
  split; [|easy]. repeat apply List.Forall_cons; [| |apply List.Forall_nil].
  - split; [split; [easy|repeat constructor]| |now number_text|now number_text|reflexivity|].
    + repeat apply List.Forall_cons; [| |apply List.Forall_nil]; (split; [cbn; tauto|]);
        eexists; (split; [reflexivity|]); number_text.
    + repeat apply List.Forall_cons; try apply List.Forall_nil; number_text.
  - split; [split; [easy|repeat constructor]|constructor|now number_text|now number_text|reflexivity|].
    repeat apply List.Forall_cons; try apply List.Forall_nil; number_text.
Qed.

Lemma config_roundtrip_witness :
  tryParseVisualConfig (generateExprFromVisualConfig (Some sample_config)) =
    Some {| vc_tiers := map reread_tier (vc_tiers sample_config) |}.
Proof. apply (config_roundtrip sample_config). exact sample_config_ok. Defined.

(** * What reading can return *)

Record tier_typed (t : VisualTier) : Prop := {
  tt_fields : map fst (vt_extra t) = map fst BILLING_CACHE_VAR_MAP;
  tt_costs : Forall (fun fv => isNaN (snd fv) = false) (vt_extra t);
  tt_mode : vt_cache_mode t = getTierCacheMode None (vt_extra t);
  tt_conditions : Forall (fun c => In (ti_var c) ["p"; "c"; "len"%js] /\
                                   exists n, ti_value c = InNum n) (vt_conditions t)
}.

Lemma cost_not_nan f e : isNaN (cost_or_zero f e) = false.
Proof. unfold cost_or_zero, num_or. destruct (obj_get f e) as [[| | |]|]; easy. Qed.

Lemma cost_again f e : num_or (cost_or_zero f e) zero = cost_or_zero f e.
Proof. unfold cost_or_zero, num_or. destruct (obj_get f e) as [[| | |]|]; easy. Qed.

Lemma cost_normalized f e :
  In f (map fst BILLING_CACHE_VAR_MAP) ->
  cost_or_zero f (map (fun fv => (fst fv, cost_or_zero (fst fv) e)) BILLING_CACHE_VAR_MAP) =
    cost_or_zero f e.
Proof.
  intros Hf. unfold cost_or_zero at 1. cbn [map BILLING_CACHE_VAR_MAP fst] in Hf.
  repeat destruct Hf as [<-|Hf]; try easy; exact (cost_again _ e).
Qed.

(** Normalising is idempotent, and a tier without a mode of its own gets the one its costs
    imply. *)
Lemma normalize_typed t :
  let n := normalizeVisualTier t in
  map fst (vt_extra n) = map fst BILLING_CACHE_VAR_MAP
  /\ Forall (fun fv => isNaN (snd fv) = false) (vt_extra n)
  /\ (pa_cache_mode t = None -> vt_cache_mode n = getTierCacheMode None (vt_extra n))
  /\ normalizeVisualTier (partial n) = n.
Proof.
  intros n. unfold n, normalizeVisualTier. cbn [vt_extra vt_cache_mode]. rewrite map_map. repeat split.
  - apply Forall_map, Forall_forall. intros fv _. apply cost_not_nan.
  - intros ->. rewrite !mode_of_cost, cost_normalized; [easy|cbn; tauto].
  - unfold partial. cbn [pa_label pa_conditions pa_input pa_output pa_cache_mode pa_extra vt_label
      vt_conditions vt_input vt_output vt_cache_mode vt_extra]. f_equal.
    apply map_ext_in. intros fv Hin. f_equal. apply cost_normalized. now apply in_map.
Qed.

Lemma cond_var_captured {A} r p s (k : cont (A := A)) x :
  mt (RGroup 1 cond_var @; r) p s [] k = Some x ->
  exists v p' s', In v ["p"; "c"; "len"%js] /\ mt r p' s' [(1, v)] k = Some x.
Proof.
  rewrite mt_seq. change (mt (RGroup 1 cond_var) p s [] ?k') with
    (mt (RAlt (RLit "p") (RAlt (RLit "c") (RLit "len"))) p s []
       (fun p' s' c' => k' p' s' ((1, take (length s - length s') s) :: c'))).
  intros H. apply mt_alt_inv in H as [H|H]; [|apply mt_alt_inv in H as [H|H]];
    apply mt_lit_inv in H as (s' & -> & H); cbv beta in H; rewrite take_consumed in H;
    eexists _, _, s'; (split; [|exact H]); cbn; tauto.
Qed.

Lemma conditions_typed text :
  Forall (fun c => In (ti_var c) ["p"; "c"; "len"%js] /\ exists n, ti_value c = InNum n)
    (tier_conditions text).
Proof.
  unfold tier_conditions. apply Forall_map, List.Forall_forall. intros c Hc. cbn [ti_var ti_value].
  split; [|now eexists]. unfold parse_conditions in Hc. destruct text; [easy|].
  apply in_flat_map in Hc as (piece & _ & Hc).
  destruct (match_caps _ (trim piece)) as [cm|] eqn:E; [|easy]. destruct Hc as [<-|[]]. cbn [tcond_var].
  rewrite match_bol in E. unfold one_cond, captured in E. rewrite mt_seq in E.
  apply (cond_var_captured (spaces @; RGroup 2 cond_op @; spaces @; RGroup 3 (RPlus (RChr cls_num_pos)) @; REol)) in E
    as (v & p' & s' & Hv & E).
  apply mt_extends in E as (p2 & s2 & d & [= <-] & Hd). unfold group. rewrite cap_extends; [exact Hv|].
  eapply Forall_impl; [exact Hd|]. cbn. intros g Hg. intuition congruence.
Qed.

Lemma some_inj {B} (a b : B) : Some a = Some b -> a = b.
Proof. congruence. Qed.

Lemma parsed_is_typed s cfg :
  tryParseVisualConfig s = Some cfg -> vc_tiers cfg <> [] /\ Forall tier_typed (vc_tiers cfg).
Proof.
  assert (Hn : forall ts, ts <> [] ->
    Forall (fun t => exists l cs i o e, t = read_tier l cs i o e /\
                Forall (fun c => In (ti_var c) ["p"; "c"; "len"%js] /\ exists n, ti_value c = InNum n) cs) ts ->
    vc_tiers (normalizeVisualConfig (Some {| vc_tiers := ts |})) <> []
    /\ Forall tier_typed (vc_tiers (normalizeVisualConfig (Some {| vc_tiers := ts |})))).
  { intros ts Hne Hts. destruct ts as [|t ts]; [easy|]. split; [easy|].
    cbn [normalizeVisualConfig vc_tiers]. apply Forall_map. eapply Forall_impl; [exact Hts|].
    intros t' (l & cs & i & o & e & -> & Hcs). cbv beta. unfold read_tier.
    destruct (normalize_typed {| pa_label := Some l; pa_conditions := Some cs; pa_input := Some (Number_str i);
                pa_output := Some (Number_str o); pa_cache_mode := None; pa_extra := e |}) as (H1 & H2 & H3 & ->).
    split; [exact H1|exact H2|now apply H3|exact Hcs]. }
  unfold tryParseVisualConfig. destruct s as [|y s]; [easy|].
  destruct (match_caps singleRe _) as [m|].
  - intros E. apply some_inj in E as <-. apply Hn; [easy|]. constructor; [|constructor].
    repeat eexists. constructor.
  - destruct (map read_hit _) as [|t ts] eqn:E; [easy|]. destruct (unspaced _ =s _); [|easy].
    intros Ec. apply some_inj in Ec as <-. rewrite <- E. apply Hn; [now rewrite E|]. apply Forall_map, List.Forall_forall.
    intros h _. unfold read_hit. repeat eexists. apply conditions_typed.
Qed.

(** C40: whatever [tryParseVisualConfig] accepts is a configuration in normal form: at least
    one tier, every tier with its seven optional costs, in order and none of them [NaN], the
    cache mode these costs imply, and conditions on [p], [c] or [len] with a number. *)
Theorem parsed_typed s cfg :
  tryParseVisualConfig s = Some cfg -> vc_tiers cfg <> [] /\ Forall tier_typed (vc_tiers cfg).
Proof. apply parsed_is_typed. Qed.

Lemma parsed_typed_witness :
  let cfg := {| vc_tiers := map reread_tier (vc_tiers sample_config) |} in
  vc_tiers cfg <> [] /\ Forall tier_typed (vc_tiers cfg).
Proof.
  apply (parsed_typed (generateExprFromVisualConfig (Some sample_config))). vm_compute. reflexivity.
Defined.
