(* ===== verification/TierEstimate.v ===== *)
(** Model of the estimator of [web/default/src/features/pricing/lib/tier-expr.ts]:
    [evalExprLocally] and [exprUsesExtraVars].

    The estimator hands the expression to the engine ([new Function]).  The part of the
    language that billing expressions are written in - numbers, double-quoted strings,
    names, calls of the functions it is given, [+ - * /], comparisons, [&&], [||], [!] and
    the conditional - is modelled by a lexer, a recursive-descent parser and an evaluator.
    What the engine does with any other text is a parameter. *)

From S2P Require Import Prelude Number Regex Json BillingExpr TierExpr.
From stdpp Require Import options.

(** * Tokens *)

Inductive punct :=
| PPlus | PMinus | PStar | PSlash | PLt | PLe | PGt | PGe | PEq | PNe | PEqq | PNee
| PAnd | POr | PNot | PQuestion | PColon | PComma | POpen | PClose.

Inductive token :=
| TNum (n : number)
| TStr (s : jstr)
| TName (s : jstr)
| TPunct (p : punct).

Definition punct_text (p : punct) : jstr :=
  match p with
  | PPlus => "+" | PMinus => "-" | PStar => "*" | PSlash => "/" | PLt => "<" | PLe => "<="
  | PGt => ">" | PGe => ">=" | PEq => "==" | PNe => "!=" | PEqq => "===" | PNee => "!=="
  | PAnd => "&&" | POr => "||" | PNot => "!" | PQuestion => "?" | PColon => ":"
  | PComma => "," | POpen => "(" | PClose => ")"
  end.

(** The longest first; the texts in [other_puncts] are other operators of the language. *)
Definition puncts : list punct :=
  [PEqq; PNee; PEq; PNe; PLe; PGe; PAnd; POr; PPlus; PMinus; PStar; PSlash; PLt; PGt; PNot;
   PQuestion; PColon; PComma; POpen; PClose].

Definition other_puncts : list jstr :=
  ["++"; "--"; "**"; "//"; "/*"; "??"; "?."; "<<"; ">>"; "+="; "-="; "*="; "/="; "&&="; "||="].

Fixpoint first_punct (l : list punct) (s : jstr) : option (punct * jstr) :=
  match l with
  | [] => None
  | p :: l' =>
    match strip_prefix (punct_text p) s with
    | Some rest => Some (p, rest)
    | None => first_punct l' s
    end
  end.

Definition starts_with (w s : jstr) : bool :=
  match strip_prefix w s with Some _ => true | None => false end.

Definition lex_punct (s : jstr) : option (punct * jstr) :=
  if existsb (fun w => starts_with w s) other_puncts then None else first_punct puncts s.

Definition name_start (c : N) : bool :=
  ((65 <=? c) && (c <=? 90))%N || ((97 <=? c) && (c <=? 122))%N || (c =? 95)%N || (c =? 36)%N.

Definition name_part (c : N) : bool := name_start c || is_digit c.

(** A unit that may not follow a numeric literal. *)
Definition num_stop (c : N) : bool := name_part c || (c =? 46)%N || (c =? backslash)%N.

(** The integer digits of a literal: no leading zero in front of other digits. *)
Definition plain_int (ip : jstr) : bool :=
  match ip with 48%N :: _ :: _ => false | _ => true end.

Definition next_is (c : N) (s : jstr) : bool := match s with x :: _ => (x =? c)%N | [] => false end.

(** [DecimalLiteral]; the unit behind it may not be a digit or start a name. *)
Definition lex_number (s : jstr) : option (number * jstr) :=
  let '(ip, r) := span is_digit s in
  let '(fp, r') := if next_is 46%N r then span is_digit (drop 1 r) else ([], r) in
  match ip ++ fp with
  | [] => None
  | ds =>
    let '(e, rest) := exponent_part r' in
    if plain_int ip && negb (match rest with c :: _ => num_stop c | [] => false end)
    then Some (of_decimal false (undigits ds) (e - Z.of_nat (length fp)), rest)
    else None
  end.

(** A string literal without escapes. *)
Definition lex_string (s : jstr) : option (jstr * jstr) :=
  match span (fun c => negb ((c =? dquote) || (c =? backslash) || (c =? lf) || (c =? 13))%N) s with
  | (w, q :: rest) => if (q =? dquote)%N then Some (w, rest) else None
  | _ => None
  end.

Fixpoint lex (fuel : nat) (s : jstr) : option (list token) :=
  match fuel, s with
  | _, [] => Some []
  | 0, _ => None
  | S f, c :: s' =>
    let more (t : token) (rest : jstr) := option_map (cons t) (lex f rest) in
    if is_space c then lex f s'
    else if name_start c then
      let '(w, rest) := span name_part s in
      if next_is backslash rest then None else more (TName w) rest
    else if is_digit c || ((c =? 46)%N && match s' with d :: _ => is_digit d | [] => false end) then
      match lex_number s with Some (n, rest) => more (TNum n) rest | None => None end
    else if (c =? dquote)%N then
      match lex_string s' with Some (w, rest) => more (TStr w) rest | None => None end
    else
      match lex_punct s with Some (p, rest) => more (TPunct p) rest | None => None end
  end.

Definition tokens (s : jstr) : option (list token) := lex (length s) s.

(** * Expressions *)

#[warnings="-register-all"] Inductive jexpr :=
| JNum (n : number)
| JStr (s : jstr)
| JVar (x : jstr)
| JCall (f : jstr) (args : list jexpr)
| JUn (o : punct) (e : jexpr)
| JBin (o : punct) (a b : jexpr)
| JCond (a b c : jexpr).

Definition parser (A : Type) : Type := list token -> option (A * list token).

(** [next (op next)*], to the left. *)
Fixpoint binary_loop (ops : punct -> bool) (next : parser jexpr) (fuel : nat) (acc : jexpr)
    (ts : list token) : option (jexpr * list token) :=
  match fuel, ts with
  | S f, TPunct o :: ts' =>
    if ops o then
      match next ts' with
      | Some (b, rest) => binary_loop ops next f (JBin o acc b) rest
      | None => None
      end
    else Some (acc, ts)
  | _, _ => Some (acc, ts)
  end.

Definition binary (ops : punct -> bool) (next : parser jexpr) : parser jexpr := fun ts =>
  match next ts with
  | Some (a, rest) => binary_loop ops next (length rest) a rest
  | None => None
  end.

Definition mul_op (o : punct) : bool := match o with PStar | PSlash => true | _ => false end.
Definition add_op (o : punct) : bool := match o with PPlus | PMinus => true | _ => false end.
Definition rel_op (o : punct) : bool := match o with PLt | PLe | PGt | PGe => true | _ => false end.
Definition eq_op (o : punct) : bool := match o with PEq | PNe | PEqq | PNee => true | _ => false end.
Definition and_op (o : punct) : bool := match o with PAnd => true | _ => false end.
Definition or_op (o : punct) : bool := match o with POr => true | _ => false end.
Definition un_op (o : punct) : bool := match o with PPlus | PMinus | PNot => true | _ => false end.

Section Levels.
(** The expression inside parentheses, in an argument, in a branch. *)
Variable expr : parser jexpr.

(** The arguments of a call and its closing parenthesis; the last may be followed by a
    comma. *)
Fixpoint arguments (fuel : nat) (ts : list token) : option (list jexpr * list token) :=
  match fuel, ts with
  | _, TPunct PClose :: rest => Some ([], rest)
  | 0, _ => None
  | S f, _ =>
    match expr ts with
    | Some (a, TPunct PComma :: rest) =>
      option_map (fun r => (a :: fst r, snd r)) (arguments f rest)
    | Some (a, TPunct PClose :: rest) => Some ([a], rest)
    | _ => None
    end
  end.

Definition primary (ts : list token) : option (jexpr * list token) :=
  match ts with
  | TNum n :: rest => Some (JNum n, rest)
  | TStr s :: rest => Some (JStr s, rest)
  | TName f :: TPunct POpen :: rest =>
    option_map (fun r => (JCall f (fst r), snd r)) (arguments (length rest) rest)
  | TName x :: rest => Some (JVar x, rest)
  | TPunct POpen :: rest =>
    match expr rest with
    | Some (e, TPunct PClose :: rest') => Some (e, rest')
    | _ => None
    end
  | _ => None
  end.

Fixpoint unary (ts : list token) : option (jexpr * list token) :=
  match ts with
  | TPunct o :: rest =>
    if un_op o then option_map (fun r => (JUn o (fst r), snd r)) (unary rest) else primary ts
  | _ => primary ts
  end.

Definition product : parser jexpr := binary mul_op unary.
Definition sum : parser jexpr := binary add_op product.
Definition relation : parser jexpr := binary rel_op sum.
Definition equality : parser jexpr := binary eq_op relation.
Definition conjunction : parser jexpr := binary and_op equality.
Definition disjunction : parser jexpr := binary or_op conjunction.

Definition conditional (ts : list token) : option (jexpr * list token) :=
  match disjunction ts with
  | Some (a, TPunct PQuestion :: rest) =>
    match expr rest with
    | Some (b, TPunct PColon :: rest') =>
      option_map (fun r => (JCond a b (fst r), snd r)) (expr rest')
    | _ => None
    end
  | r => r
  end.
End Levels.

Fixpoint parse_expr (fuel : nat) : parser jexpr :=
  match fuel with
  | 0 => fun _ => None
  | S f => conditional (parse_expr f)
  end.

(** The text between the parentheses of [return (...)]. *)
Definition parse_text (s : jstr) : option jexpr :=
  match tokens s with
  | Some ts =>
    match parse_expr (length ts) ts with
    | Some (e, []) => Some e
    | _ => None
    end
  | None => None
  end.

(** * Values *)

Inductive jsval := VNum (n : number) | VStr (s : jstr) | VBool (b : bool) | VUndef.

Definition to_num (v : jsval) : number :=
  match v with
  | VNum n => n
  | VStr s => Number_str s
  | VBool b => of_Z (if b then 1 else 0)
  | VUndef => NaN
  end.

Definition to_str (v : jsval) : jstr :=
  match v with
  | VNum n => num_to_string n
  | VStr s => s
  | VBool b => if b then "true" else "false"
  | VUndef => "undefined"
  end.

Definition to_bool (v : jsval) : bool :=
  match v with VNum n => ntruthy n | VStr s => truthy s | VBool b => b | VUndef => false end.

(** [<] on strings, by units. *)
Fixpoint str_ltb (a b : jstr) : bool :=
  match a, b with
  | _, [] => false
  | [], _ :: _ => true
  | x :: a', y :: b' => (x <? y)%N || ((x =? y)%N && str_ltb a' b')
  end.

(** [x < y], [x <= y]: [x <= y] on strings is the negation of [y < x], on numbers it is
    false when one is [NaN]. *)
Definition lt_vals (x y : jsval) : bool :=
  match x, y with VStr a, VStr b => str_ltb a b | _, _ => (to_num x <? to_num y)%num end.

Definition le_vals (x y : jsval) : bool :=
  match x, y with VStr a, VStr b => negb (str_ltb b a) | _, _ => (to_num x <=? to_num y)%num end.

(** [===] *)
Definition strict_eq (x y : jsval) : bool :=
  match x, y with
  | VNum a, VNum b => (a =? b)%num
  | VStr a, VStr b => a =s b
  | VBool a, VBool b => Bool.eqb a b
  | VUndef, VUndef => true
  | _, _ => false
  end.

(** [==]: values of two types are compared as numbers, [undefined] equals itself only. *)
Definition loose_eq (x y : jsval) : bool :=
  match x, y with
  | VNum _, VNum _ | VStr _, VStr _ | VBool _, VBool _ => strict_eq x y
  | VUndef, VUndef => true
  | VUndef, _ | _, VUndef => false
  | _, _ => (to_num x =? to_num y)%num
  end.

Definition binop (o : punct) (x y : jsval) : option jsval :=
  match o with
  | PPlus =>
    Some match x, y with
         | VStr _, _ | _, VStr _ => VStr (to_str x ++ to_str y)
         | _, _ => VNum (to_num x + to_num y)%num
         end
  | PMinus => Some (VNum (to_num x - to_num y)%num)
  | PStar => Some (VNum (to_num x * to_num y)%num)
  | PSlash => Some (VNum (to_num x / to_num y)%num)
  | PLt => Some (VBool (lt_vals x y))
  | PGt => Some (VBool (lt_vals y x))
  | PLe => Some (VBool (le_vals x y))
  | PGe => Some (VBool (le_vals y x))
  | PEqq => Some (VBool (strict_eq x y))
  | PNee => Some (VBool (negb (strict_eq x y)))
  | PEq => Some (VBool (loose_eq x y))
  | PNe => Some (VBool (negb (loose_eq x y)))
  | _ => None
  end.

Definition unop (o : punct) (x : jsval) : option jsval :=
  match o with
  | PPlus => Some (VNum (to_num x))
  | PMinus => Some (VNum (nopp (to_num x)))
  | PNot => Some (VBool (negb (to_bool x)))
  | _ => None
  end.

(** * The estimator *)

Record ExtraTokenValues := {
  cacheReadTokens : number;
  cacheCreateTokens : number;
  cacheCreate1hTokens : number;
  imageTokens : number;
  imageOutputTokens : number;
  audioInputTokens : number;
  audioOutputTokens : number
}.

Definition ESTIMATOR_VARS : list (jstr * (ExtraTokenValues -> number)) :=
  [ ("cr"%js, cacheReadTokens); ("cc"%js, cacheCreateTokens); ("cc1h"%js, cacheCreate1hTokens);
    ("img"%js, imageTokens); ("img_o"%js, imageOutputTokens); ("ai"%js, audioInputTokens);
    ("ao"%js, audioOutputTokens) ].

(** The variables of [env]. *)
Definition estimator_env (promptTokens completionTokens : number) (x : ExtraTokenValues)
    : list (jstr * number) :=
  let len := (promptTokens + num_or (cacheReadTokens x) zero + num_or (cacheCreateTokens x) zero
              + num_or (cacheCreate1hTokens x) zero)%num in
  [ ("p"%js, promptTokens); ("c"%js, completionTokens); ("len"%js, len) ]
  ++ map (fun vf => (fst vf, num_or (snd vf x) zero)) ESTIMATOR_VARS.

Definition arg0 (args : list jsval) : jsval := match args with v :: _ => v | [] => VUndef end.
Definition arg1 (args : list jsval) : jsval := match args with _ :: v :: _ => v | _ => VUndef end.

Definition nabs (x : number) : number := SFabs x.

(** A call of one of the functions of [env]: its value, and the tier it notes. *)
Definition call (f : jstr) (args : list jsval) (tier : jsval) : option (jsval * jsval) :=
  if f =s "tier" then Some (arg1 args, arg0 args)
  else if f =s "max" then Some (VNum (fold_left nmax (map to_num args) (S754_infinity true)), tier)
  else if f =s "min" then Some (VNum (fold_left nmin (map to_num args) (S754_infinity false)), tier)
  else if f =s "abs" then Some (VNum (nabs (to_num (arg0 args))), tier)
  else if f =s "ceil" then Some (VNum (nceil (to_num (arg0 args))), tier)
  else if f =s "floor" then Some (VNum (nfloor (to_num (arg0 args))), tier)
  else None.

(** Evaluation from left to right; [tier] is [matchedTier]. *)
Fixpoint eval (env : list (jstr * number)) (e : jexpr) (tier : jsval) : option (jsval * jsval) :=
  match e with
  | JNum n => Some (VNum n, tier)
  | JStr s => Some (VStr s, tier)
  | JVar x => option_map (fun n => (VNum n, tier)) (obj_get x env)
  | JCall f args =>
    let fix evals (l : list jexpr) (t : jsval) : option (list jsval * jsval) :=
      match l with
      | [] => Some ([], t)
      | a :: l' =>
        match eval env a t with
        | Some (v, t1) => option_map (fun r => (v :: fst r, snd r)) (evals l' t1)
        | None => None
        end
      end in
    match evals args tier with
    | Some (vs, t1) => call f vs t1
    | None => None
    end
  | JUn o a =>
    match eval env a tier with
    | Some (v, t1) => option_map (fun r => (r, t1)) (unop o v)
    | None => None
    end
  | JBin PAnd a b =>
    match eval env a tier with
    | Some (v, t1) => if to_bool v then eval env b t1 else Some (v, t1)
    | None => None
    end
  | JBin POr a b =>
    match eval env a tier with
    | Some (v, t1) => if to_bool v then Some (v, t1) else eval env b t1
    | None => None
    end
  | JBin o a b =>
    match eval env a tier with
    | Some (v, t1) =>
      match eval env b t1 with
      | Some (w, t2) => option_map (fun r => (r, t2)) (binop o v w)
      | None => None
      end
    | None => None
    end
  | JCond a b c =>
    match eval env a tier with
    | Some (v, t1) => eval env (if to_bool v then b else c) t1
    | None => None
    end
  end.

Record EvalResult := { er_cost : number; er_matchedTier : jsval; er_error : option jstr }.

Section Estimator.
(** What the engine does with a text outside the modelled language: the value and the tier
    noted, or the message of what it throws. *)
Variable engine : jstr -> list (jstr * number) -> jsval * jsval + jstr.

Definition run_text (s : jstr) (env : list (jstr * number)) : jsval * jsval + jstr :=
  match parse_text s with
  | Some e =>
    match eval env e (VStr []) with
    | Some r => inl r
    | None => engine s env
    end
  | None => engine s env
  end.

Definition evalExprLocally (exprStr : jstr) (promptTokens completionTokens : number)
    (extra : ExtraTokenValues) : EvalResult :=
  if negb (truthy exprStr) || negb (truthy (trim exprStr)) then
    {| er_cost := zero; er_matchedTier := VStr []; er_error := None |}
  else
    match run_text exprStr (estimator_env promptTokens completionTokens extra) with
    | inl (v, tier) =>
      {| er_cost := num_or (to_num v) zero; er_matchedTier := tier; er_error := None |}
    | inr message => {| er_cost := zero; er_matchedTier := VStr []; er_error := Some message |}
    end.
End Estimator.

(** [\b(cr|cc|cc1h|img|img_o|ai|ao)\b] *)
Definition extra_vars_re : re :=
  RWordB @; RGroup 1 (alts (map (fun v => RLit (fst v)) ESTIMATOR_VARS)) @; RWordB.

Definition exprUsesExtraVars (exprStr : jstr) : bool :=
  match exprStr with
  | [] => false
  | _ => match exec extra_vars_re exprStr with Some _ => true | None => false end
  end.

(** * What a configuration costs *)

Definition env_num (x : jstr) (env : list (jstr * number)) : number :=
  match obj_get x env with Some n => n | None => NaN end.

Definition input_num (v : InputValue) : number :=
  match v with InNum n => n | InText s => Number_str s end.

Definition condition_holds (env : list (jstr * number)) (c : TierConditionInput) : bool :=
  let x := env_num (ti_var c) env in
  let n := input_num (ti_value c) in
  match ti_op c with
  | OpLt => (x <? n)%num | OpLe => (x <=? n)%num | OpGt => (n <? x)%num | OpGe => (n <=? x)%num
  end.

(** The optional costs that are written, by variable. *)
Definition written_extra (t : VisualTier) : list (jstr * number) :=
  List.filter (fun vn => ntruthy (snd vn)) (tier_extra t).

(** [p] times the input cost, plus [c] times the output cost, plus the optional costs, added
    from the left. *)
Definition tier_price (env : list (jstr * number)) (t : VisualTier) : number :=
  fold_left (fun acc vn => (acc + env_num (fst vn) env * snd vn)%num) (written_extra t)
    (env_num "p" env * vt_input t + env_num "c" env * vt_output t)%num.

(** The first tier whose conditions all hold; its price, and its label. *)
Definition config_price (env : list (jstr * number)) (tiers : list VisualTier) : number * jstr :=
  match List.find (fun t => forallb (condition_holds env) (vt_conditions t)) tiers with
  | Some t => (tier_price env t, vt_label t)
  | None => ((env_num "p" env * zero + env_num "c" env * zero)%num, [])
  end.

(** ** What the engine reads back *)

Definition js_literal (n : number) : Prop :=
  lex_number (num_to_string n) = Some (n, [])
  /\ exists d l, num_to_string n = d :: l /\ is_digit d = true.

Definition plain_label (s : jstr) : Prop :=
  Forall (fun c => negb ((c =? dquote) || (c =? backslash) || (c =? lf) || (c =? 13))%N = true) s.

Record tier_runs (t : VisualTier) : Prop := {
  tr_label : plain_label (vt_label t);
  tr_conditions : Forall (fun c => exists n, ti_value c = InNum n /\ js_literal n) (vt_conditions t);
  tr_input : js_literal (vt_input t);
  tr_output : js_literal (vt_output t);
  tr_extra : Forall (fun vn => js_literal (snd vn)) (tier_extra t)
}.

(** * Lexing *)

Definition lexes (s : jstr) (ts : list token) : Prop := forall f, length s <= f -> lex f s = Some ts.

Lemma lexes_nil : lexes [] [].
Proof. now intros [|f]. Qed.

Lemma lexes_space s ts : lexes s ts -> lexes (32%N :: s) ts.
Proof. intros H [|f] Hf; cbn in Hf; [lia|]. apply H. lia. Qed.

Lemma span_run f w s :
  Forall (fun c => f c = true) w -> stops f s -> span f (w ++ s) = (w, s).
Proof.
  induction 1 as [|c w Hc _ IH]; intros Hs.
  - destruct s as [|c s]; [easy|]. cbn in Hs. cbn. now rewrite Hs.
  - cbn [app span]. rewrite Hc, IH by easy. easy.
Qed.

Lemma span_extend f w s a b :
  span f w = (a, b) -> stops f s -> span f (w ++ s) = (a, b ++ s).
Proof.
  revert a b; induction w as [|c w IH]; intros a b E Hs.
  - injection E as <- <-. now apply (span_run f []).
  - cbn [span app] in *. destruct (f c); [|injection E as <- <-; easy].
    destruct (span f w) as [a' b'] eqn:Ew. injection E as <- <-. now rewrite (IH _ _ eq_refl).
Qed.

Lemma name_no_space c : name_start c = true -> is_space c = false.
Proof.
  unfold name_start. repeat rewrite orb_true_iff. rewrite !andb_true_iff, !N.leb_le, !N.eqb_eq.
  intros H. assert (Hc : (36 <= c <= 122)%N) by lia. unfold is_space.
  repeat rewrite orb_false_iff. rewrite ?andb_false_iff, ?N.leb_gt, ?N.eqb_neq. lia.
Qed.

Lemma lexes_name c w s ts :
  name_start c = true -> Forall (fun x => name_part x = true) w ->
  stops (fun x => name_part x || (x =? 92)%N) s ->
  lexes s ts -> lexes (c :: w ++ s) (TName (c :: w) :: ts).
Proof.
  intros Hc Hw Hs H [|f] Hf; cbn in Hf; [lia|]. cbn [lex].
  rewrite name_no_space, Hc by easy.
  change (c :: w ++ s) with ((c :: w) ++ s). rewrite span_run.
  - replace (next_is backslash s) with false.
    + rewrite H; [easy|]. rewrite length_app in Hf. lia.
    + destruct s as [|y s]; [easy|]. cbn in *. now apply orb_false_iff in Hs as [_ ->].
  - constructor; [unfold name_part; now rewrite Hc|exact Hw].
  - destruct s as [|y s]; [easy|]. cbn in *. now apply orb_false_iff in Hs as [Hs _].
Qed.

Lemma opt_sign_app q s :
  q <> [] -> opt_sign (q ++ s) = (fst (opt_sign q), snd (opt_sign q) ++ s).
Proof.
  destruct q as [|y q]; [easy|]. intros _. unfold opt_sign. cbn [app].
  destruct y as [|y]; [easy|]. do 6 (destruct y as [y|y|]; try easy).
Qed.

Lemma exponent_app r e s :
  exponent_part r = (e, []) -> stops num_stop s -> exponent_part (r ++ s) = (e, s).
Proof.
  intros E Hs. destruct r as [|c q].
  - injection E as <-. destruct s as [|y s]; [easy|]. cbn in *.
    replace (is_e y) with false; [easy|]. symmetry. unfold is_e. apply orb_false_iff.
    unfold num_stop in Hs. split; apply N.eqb_neq; intros ->; now vm_compute in Hs.
  - cbn [app exponent_part] in *. destruct (is_e c) eqn:Ec; [|easy].
    destruct q as [|y q]; [now cbn in E|]. rewrite opt_sign_app by easy.
    destruct (opt_sign (y :: q)) as [neg q'] eqn:Eq. cbn [fst snd].
    destruct (span is_digit q') as [ds r''] eqn:Es.
    destruct ds as [|d ds]; [easy|]. injection E as <- ->.
    rewrite (span_extend _ _ s _ _ Es); [easy|]. destruct s as [|z s]; [easy|]. cbn in *.
    unfold num_stop, name_part in Hs. now destruct (is_digit z); rewrite ?orb_true_r in Hs.
Qed.

Lemma digit_stops s : stops num_stop s -> stops is_digit s.
Proof.
  destruct s as [|y s]; [easy|]. cbn. unfold num_stop, name_part.
  now destruct (is_digit y); rewrite ?orb_true_r.
Qed.

Lemma lex_number_app w n s :
  lex_number w = Some (n, []) -> stops num_stop s -> lex_number (w ++ s) = Some (n, s).
Proof.
  intros E Hs. unfold lex_number in *. pose proof (digit_stops s Hs) as Hd.
  destruct (span is_digit w) as [ip r] eqn:Ew. rewrite (span_extend _ _ s _ _ Ew Hd).
  assert (Hr : forall fp r', (if next_is 46%N r then span is_digit (drop 1 r) else ([], r)) = (fp, r') ->
            (if next_is 46%N (r ++ s) then span is_digit (drop 1 (r ++ s)) else ([], r ++ s)) = (fp, r' ++ s)).
  { intros fp r' H. destruct r as [|y r].
    - injection H as <- <-. destruct s as [|z s]; [easy|]. cbn in *. unfold num_stop in Hs.
      now destruct (z =? 46)%N; rewrite ?orb_true_r in Hs.
    - cbn [app next_is drop] in *. destruct (y =? 46)%N; [now apply span_extend|].
      now injection H as <- <-. }
  destruct (if next_is 46%N r then span is_digit (drop 1 r) else ([], r)) as [fp r'] eqn:Er.
  rewrite (Hr _ _ eq_refl). destruct (ip ++ fp) as [|d ds]; [easy|].
  destruct (exponent_part r') as [e rest] eqn:Ee. destruct (plain_int ip); [|easy]. cbn [andb] in *.
  destruct rest as [|y rest]; [|destruct (num_stop y); cbn in E; congruence].
  rewrite (exponent_app _ _ s Ee Hs). injection E as <-. destruct s as [|z s]; [easy|].
  cbn in Hs. now rewrite Hs.
Qed.

Lemma digit_chars c : is_digit c = true -> is_space c = false /\ name_start c = false.
Proof.
  unfold is_digit. rewrite andb_true_iff, !N.leb_le. intros H. unfold is_space, name_start.
  split; repeat rewrite orb_false_iff; rewrite ?andb_false_iff, ?N.leb_gt, ?N.eqb_neq; lia.
Qed.

Lemma lexes_num n s ts :
  js_literal n -> stops num_stop s -> lexes s ts -> lexes (num_to_string n ++ s) (TNum n :: ts).
Proof.
  intros [Hl (d & l & E & Hd)] Hs H [|f] Hf; [rewrite E in Hf; cbn in Hf; lia|].
  pose proof (lex_number_app _ _ s Hl Hs) as Hn. rewrite E in *. cbn [app lex] in *.
  destruct (digit_chars d Hd) as [-> ->]. rewrite Hd. cbn [orb]. rewrite Hn, H; [easy|].
  rewrite length_cons, length_app in Hf. lia.
Qed.

Lemma lexes_str w s ts :
  plain_label w -> lexes s ts -> lexes (dquote :: w ++ dquote :: s) (TStr w :: ts).
Proof.
  intros Hw H [|f] Hf; cbn in Hf; [lia|]. cbn [lex].
  change (is_space dquote) with false. change (name_start dquote) with false. cbn [is_digit].
  change (is_digit dquote || _) with false. change (dquote =? dquote)%N with true. cbv iota.
  unfold lex_string. rewrite (span_run _ w (dquote :: s)) by easy. 
  change (dquote =? dquote)%N with true. cbv iota. rewrite H; [easy|].
  rewrite length_app in Hf. cbn in Hf. lia.
Qed.

Lemma lexes_punct p s ts :
  lex_punct (punct_text p ++ s) = Some (p, s) -> lexes s ts ->
  lexes (punct_text p ++ s) (TPunct p :: ts).
Proof.
  intros Hp H [|f] Hf; [destruct p; cbn in Hf; lia|].
  assert (Hl : length s <= f) by (rewrite length_app in Hf; destruct p; cbn in Hf; lia).
  destruct p; cbn [punct_text app] in *; cbn [lex];
    match goal with |- context [is_space ?c] => change (is_space c) with false;
      change (name_start c) with false; change (is_digit c) with false;
      change (c =? 46)%N with false; change (c =? dquote)%N with false end;
    cbn [orb andb]; now rewrite Hp, H.
Qed.

(** ** The tokens of a configuration *)

Definition cost_tokens (v : jstr) (n : number) : list token := [TName v; TPunct PStar; TNum n].

Definition extra_tokens (vs : list (jstr * number)) : list token :=
  flat_map (fun vn => TPunct PPlus :: cost_tokens (fst vn) (snd vn)) vs.

Definition tier_tokens (label : jstr) (t : VisualTier) : list token :=
  TName "tier" :: TPunct POpen :: TStr label :: TPunct PComma
  :: cost_tokens "p" (vt_input t) ++ TPunct PPlus :: cost_tokens "c" (vt_output t)
  ++ extra_tokens (written_extra t) ++ [TPunct PClose].

Definition op_punct (o : TierOp) : punct :=
  match o with OpLt => PLt | OpLe => PLe | OpGt => PGt | OpGe => PGe end.

Definition condition_tokens (c : TierConditionInput) : list token :=
  [TName (ti_var c); TPunct (op_punct (ti_op c)); TNum (input_num (ti_value c))].

Definition conj_tokens (cs : list TierConditionInput) : list token :=
  flat_map (fun c => TPunct PAnd :: condition_tokens c) cs.

Definition part_tokens (t : VisualTier) : list token :=
  match vt_conditions t with
  | [] => tier_tokens (vt_label t) t
  | c :: cs => condition_tokens c ++ conj_tokens cs ++ TPunct PQuestion :: tier_tokens (vt_label t) t
  end.

Definition chain_tokens (ts : list VisualTier) : list token :=
  flat_map (fun t => TPunct PColon :: part_tokens t) ts.

Definition no_price_tokens : list token :=
  cost_tokens "p" zero ++ TPunct PPlus :: cost_tokens "c" zero.

Definition config_tokens (c : VisualConfig) : list token :=
  match vc_tiers c with
  | [] => []
  | [t] => part_tokens t ++ (if decide (vt_conditions t = []) then [] else TPunct PColon :: no_price_tokens)
  | t :: ts => part_tokens t ++ chain_tokens ts
  end.

Lemma lexes_spaced p s ts :
  match p with POpen | PClose => False | _ => True end -> lexes s ts ->
  lexes (32%N :: punct_text p ++ 32%N :: s) (TPunct p :: ts).
Proof.
  intros Hp H. apply lexes_space, lexes_punct; [|now apply lexes_space]. now destruct p.
Qed.

Definition est_vars : list jstr := "p"%js :: "c"%js :: "len"%js :: extra_vars.

Lemma lexes_var v s ts :
  In v est_vars -> stops (fun x => name_part x || (x =? 92)%N) s -> lexes s ts ->
  lexes (v ++ s) (TName v :: ts).
Proof.
  intros Hv Hs H. unfold est_vars, extra_vars in Hv. cbn [map BILLING_CACHE_VAR_MAP snd In] in Hv.
  repeat destruct Hv as [<-|Hv]; try easy; now apply lexes_name; [|repeat constructor|..].
Qed.

Lemma lexes_cost v n s ts :
  In v est_vars -> js_literal n -> stops num_stop s -> lexes s ts ->
  lexes (cost_text v n ++ s) (cost_tokens v n ++ ts).
Proof.
  intros Hv Hn Hs H. unfold cost_text, cost_tokens. rewrite <- !app_assoc. cbn [app].
  apply lexes_var; [easy|easy|]. apply (lexes_spaced PStar); [easy|]. now apply lexes_num.
Qed.

Lemma written_text t : extra_text (tier_extra t) = extra_text (written_extra t).
Proof.
  unfold written_extra. induction (tier_extra t) as [|[v n] vs IH]; [easy|].
  cbn [extra_text List.filter snd]. destruct (ntruthy n) eqn:E; cbn [extra_text]; now rewrite ?E, ?IH.
Qed.

Lemma written_from t vn : In vn (written_extra t) -> In vn (tier_extra t) /\ ntruthy (snd vn) = true.
Proof. unfold written_extra. now rewrite filter_In. Qed.

Lemma lexes_extra vs s ts :
  (forall vn, In vn vs -> In (fst vn) extra_vars /\ js_literal (snd vn) /\ ntruthy (snd vn) = true) ->
  stops num_stop s -> lexes s ts ->
  lexes (extra_text vs ++ s) (extra_tokens vs ++ ts) /\ stops num_stop (extra_text vs ++ s).
Proof.
  intros Hvs Hs H. induction vs as [|[v n] vs IH]; [easy|].
  destruct (Hvs (v, n)) as (Hv & Hn & Ht); [now left|]. cbn [fst snd] in *. cbn [extra_text]. rewrite Ht.
  destruct IH as [IH Hst]; [intros; apply Hvs; now right|]. rewrite <- !app_assoc. split; [|easy].
  change (extra_tokens ((v, n) :: vs) ++ ts)
    with (TPunct PPlus :: cost_tokens v n ++ extra_tokens vs ++ ts).
  apply (lexes_spaced PPlus); [easy|]. apply lexes_cost; [now do 3 right|easy|easy|easy].
Qed.

Lemma lexes_tier t s ts :
  tier_ok t -> tier_runs t -> stops (fun c => negb (c =? 32)%N) s -> lexes s ts ->
  lexes (tier_text (vt_label t) t ++ s) (tier_tokens (vt_label t) t ++ ts).
Proof.
  intros Ht [Hl _ Hi Ho He] Hs H.
  assert (Hc : lexes (rparen :: s) (TPunct PClose :: ts)).
  { apply (lexes_punct PClose); [|easy]. destruct s as [|y s]; [easy|]. cbn in Hs.
    apply negb_false_iff, N.eqb_eq in Hs as ->. reflexivity. }
  assert (Hx : forall vn, In vn (written_extra t) ->
            In (fst vn) extra_vars /\ js_literal (snd vn) /\ ntruthy (snd vn) = true).
  { intros vn Hin. apply written_from in Hin as [Hin Hn]. split; [|split; [|easy]].
    - rewrite <- (tier_extra_vars t). now apply in_map.
    - rewrite List.Forall_forall in He. now apply He. }
  destruct (lexes_extra (written_extra t) (rparen :: s) (TPunct PClose :: ts) Hx) as [Hx1 Hx2]; [easy|easy|].
  unfold tier_text, tier_tokens. rewrite body_text, written_text by easy. rewrite <- !app_assoc.
  apply (lexes_name 116 "ier"); [easy|repeat constructor|easy|].
  change (lp_q ++ vt_label t ++ ?r) with (punct_text POpen ++ dquote :: vt_label t ++ r).
  apply (lexes_punct POpen); [easy|]. cbn [app]. apply lexes_str; [easy|].
  apply (lexes_punct PComma (32%N :: _)); [easy|]. apply lexes_space.
  change (TNum (vt_input t) :: ?r) with ([TNum (vt_input t)] ++ r).
  apply (lexes_cost "p" (vt_input t) (32%N :: 43%N :: 32%N :: _)); [now left|easy|easy|].
  apply (lexes_spaced PPlus); [easy|].
  apply (lexes_cost "c" (vt_output t)); [now right; left|easy|exact Hx2|].
  change (lexes (extra_text (written_extra t) ++ rparen :: s)
            ((extra_tokens (written_extra t) ++ [TPunct PClose]) ++ ts)).
  rewrite <- app_assoc. exact Hx1.
Qed.

Lemma lexes_op o s ts :
  lexes s ts -> lexes (32%N :: op_text o ++ 32%N :: s) (TPunct (op_punct o) :: ts).
Proof.
  intros H. replace (op_text o) with (punct_text (op_punct o)) by now destruct o.
  apply lexes_spaced; [now destruct o|exact H].
Qed.

Definition bound_runs (c : TierConditionInput) : Prop :=
  exists n, ti_value c = InNum n /\ js_literal n.

Lemma lexes_condition c s ts :
  condition_ok c -> bound_runs c -> stops num_stop s -> lexes s ts ->
  lexes (condition_text c ++ s) (condition_tokens c ++ ts).
Proof.
  intros (Hv & _) (n & Hn & Hl) Hs H. unfold condition_text, condition_tokens. rewrite Hn.
  cbn [value_text input_num]. rewrite <- !app_assoc. cbn [app].
  apply lexes_var; [|easy|].
  - unfold est_vars. cbn [In] in *. tauto.
  - apply lexes_op. now apply lexes_num.
Qed.

Lemma lexes_conj cs s ts :
  Forall condition_ok cs -> Forall bound_runs cs -> stops num_stop s -> lexes s ts ->
  lexes (conj_text cs ++ s) (conj_tokens cs ++ ts) /\ stops num_stop (conj_text cs ++ s).
Proof.
  intros Hcs Hrs Hs H. induction cs as [|c cs IH]; [easy|].
  apply Forall_cons_1 in Hcs as [Hc Hcs], Hrs as [Hr Hrs]. destruct (IH Hcs Hrs) as [IH1 IH2].
  unfold conj_text. cbn [map List.concat]. fold (conj_text cs). rewrite <- !app_assoc. split; [|easy].
  change (conj_tokens (c :: cs) ++ ts) with (TPunct PAnd :: condition_tokens c ++ conj_tokens cs ++ ts).
  apply (lexes_spaced PAnd); [easy|]. now apply lexes_condition.
Qed.

Lemma lexes_part t s ts :
  tier_ok t -> tier_runs t -> stops (fun c => negb (c =? 32)%N) s -> lexes s ts ->
  lexes (part_text t ++ s) (part_tokens t ++ ts).
Proof.
  intros Ht Hr Hs H. pose proof (lexes_tier t s ts Ht Hr Hs H) as Hl.
  pose proof Ht as [_ Hc _ _ _ _]. pose proof Hr as [_ Hb _ _ _]. unfold part_text, part_tokens.
  destruct (vt_conditions t) as [|c cs]; [exact Hl|].
  rewrite conditions_text, conj_join by easy. rewrite <- !app_assoc.
  apply Forall_cons_1 in Hc as [Hc Hcs], Hb as [Hb Hbs].
  destruct (lexes_conj cs (" ? " ++ tier_text (vt_label t) t ++ s)
              (TPunct PQuestion :: tier_tokens (vt_label t) t ++ ts) Hcs Hbs) as [H1 H2]; [easy| |].
  - now apply (lexes_spaced PQuestion).
  - now apply lexes_condition.
Qed.

Lemma lexes_chain tiers :
  Forall tier_ok tiers -> Forall tier_runs tiers ->
  lexes (List.concat (map (fun t => " : " ++ part_text t) tiers)) (chain_tokens tiers)
  /\ stops (fun c => negb (c =? 32)%N) (List.concat (map (fun t => " : " ++ part_text t) tiers)).
Proof.
  intros Ht Hr. induction tiers as [|t ts IH]; [split; [apply lexes_nil|easy]|].
  apply Forall_cons_1 in Ht as [Ht Hts], Hr as [Hr Hrs]. destruct (IH Hts Hrs) as [IH1 IH2].
  cbn [map List.concat]. rewrite <- !app_assoc. split; [|easy].
  apply (lexes_spaced PColon); [easy|]. now apply lexes_part.
Qed.

Lemma lexes_no_price : lexes no_price no_price_tokens.
Proof.
  intros f Hf. unfold no_price in *. do 13 (destruct f as [|f]; [cbn in Hf; lia|]). now destruct f.
Qed.

Lemma lexes_config c :
  config_ok c -> Forall tier_runs (vc_tiers c) -> lexes (config_text c) (config_tokens c).
Proof.
  unfold config_ok, config_text, config_tokens. destruct (vc_tiers c) as [|t [|t' ts]]; [easy| |].
  - intros Ht Hr. apply Forall_cons_1 in Hr as [Hr _]. apply lexes_part; [easy|easy| |].
    + now destruct (decide _).
    + destruct (decide _); [apply lexes_nil|]. apply (lexes_spaced PColon); [easy|apply lexes_no_price].
  - intros [Hts _] Hr. rewrite join_parts. apply Forall_cons_1 in Hts as [Ht Hts], Hr as [Hr Hrs].
    destruct (lexes_chain (t' :: ts) Hts Hrs) as [H1 H2]. now apply lexes_part.
Qed.

(** * Parsing *)

Definition cost_expr (v : jstr) (n : number) : jexpr := JBin PStar (JVar v) (JNum n).

Definition sum_expr (acc : jexpr) (vs : list (jstr * number)) : jexpr :=
  fold_left (fun a vn => JBin PPlus a (cost_expr (fst vn) (snd vn))) vs acc.

Definition body_expr (t : VisualTier) : jexpr :=
  sum_expr (cost_expr "p" (vt_input t)) (("c"%js, vt_output t) :: written_extra t).

Definition tier_expr (t : VisualTier) : jexpr := JCall "tier" [JStr (vt_label t); body_expr t].

Definition condition_expr (c : TierConditionInput) : jexpr :=
  JBin (op_punct (ti_op c)) (JVar (ti_var c)) (JNum (input_num (ti_value c))).

Definition conj_expr (c : TierConditionInput) (cs : list TierConditionInput) : jexpr :=
  fold_left (fun a c => JBin PAnd a (condition_expr c)) cs (condition_expr c).

Definition no_price_expr : jexpr := sum_expr (cost_expr "p" zero) [("c"%js, zero)].

Fixpoint chain_expr (t : VisualTier) (ts : list VisualTier) : jexpr :=
  match vt_conditions t with
  | [] => tier_expr t
  | c :: cs =>
    JCond (conj_expr c cs) (tier_expr t)
      match ts with [] => no_price_expr | t' :: ts' => chain_expr t' ts' end
  end.

(** The next token is not an operator of [ops]. *)
Definition no_op (ops : punct -> bool) (ts : list token) : Prop :=
  match ts with TPunct o :: _ => ops o = false | _ => True end.

Lemma loop_stops ops next f acc ts : no_op ops ts -> binary_loop ops next f acc ts = Some (acc, ts).
Proof. destruct f as [|f], ts as [|[| | |o] ts]; try easy. cbn. now intros ->. Qed.

Lemma binary_pass ops next ts e rest :
  next ts = Some (e, rest) -> no_op ops rest -> binary ops next ts = Some (e, rest).
Proof. intros H Ho. unfold binary. rewrite H. now apply loop_stops. Qed.

Lemma binary_two ops next ts a o ts' b rest :
  next ts = Some (a, TPunct o :: ts') -> next ts' = Some (b, rest) ->
  ops o = true -> no_op ops rest ->
  binary ops next ts = Some (JBin o a b, rest).
Proof.
  intros Ha Hb Ho Hr. unfold binary. rewrite Ha. cbn [length binary_loop]. rewrite Ho, Hb.
  now apply loop_stops.
Qed.

(** A list of operands behind an operator. *)
Lemma binary_list {A} ops next o (f : A -> list token) (g : A -> jexpr) (mk : jexpr -> A -> jexpr)
    (l : list A) rest :
  (forall a x, mk a x = JBin o a (g x)) -> ops o = true -> no_op ops rest ->
  (forall x ts, In x l -> (ts = rest \/ exists ts', ts = TPunct o :: ts') ->
     next (f x ++ ts) = Some (g x, ts)) ->
  forall fuel acc, length l <= fuel ->
  binary_loop ops next fuel acc (flat_map (fun x => TPunct o :: f x) l ++ rest) =
    Some (fold_left mk l acc, rest).
Proof.
  intros Hmk Ho Hr Hn. induction l as [|x l IH]; intros fuel acc Hf.
  - now apply loop_stops.
  - destruct fuel as [|fuel]; [cbn in Hf; lia|]. cbn [flat_map app binary_loop fold_left]. rewrite Ho.
    rewrite <- app_assoc. rewrite Hn.
    + rewrite IH; [now rewrite Hmk| |cbn in Hf; lia]. intros y ts Hy. apply Hn. now right.
    + now left.
    + destruct l as [|y l]; [now left|]. right. now eexists.
Qed.

Lemma list_fuel {A} o (f : A -> list token) (l : list A) rest :
  length l <= length (flat_map (fun x => TPunct o :: f x) l ++ rest).
Proof.
  induction l as [|x l IH]; cbn [flat_map app length]; [lia|]. rewrite !length_app in *. lia.
Qed.

Section Parsing.
Variable expr : parser jexpr.

Lemma product_cost v n rest :
  no_op mul_op rest -> product expr (cost_tokens v n ++ rest) = Some (cost_expr v n, rest).
Proof.
  intros H. change (binary_loop mul_op (unary expr) (S (length rest)) (cost_expr v n) rest
    = Some (cost_expr v n, rest)). now apply loop_stops.
Qed.

Lemma product_name v o rest :
  mul_op o = false -> o <> POpen -> product expr (TName v :: TPunct o :: rest) = Some (JVar v, TPunct o :: rest).
Proof. intros H Ho. apply binary_pass; [|exact H]. now destruct o. Qed.

Lemma product_num n rest : no_op mul_op rest -> product expr (TNum n :: rest) = Some (JNum n, rest).
Proof. intros H. now apply binary_pass. Qed.

Lemma sum_costs v n vs rest :
  no_op mul_op rest -> no_op add_op rest ->
  sum expr (cost_tokens v n ++ extra_tokens vs ++ rest) = Some (sum_expr (cost_expr v n) vs, rest).
Proof.
  intros Hm Ha. unfold sum, binary. rewrite product_cost.
  - apply binary_list with (g := fun vn => cost_expr (fst vn) (snd vn)); try easy.
    + intros x ts _ Hts. apply product_cost. now destruct Hts as [->|[ts' ->]].
    + apply list_fuel.
  - now destruct vs.
Qed.

Lemma relation_condition c rest :
  no_op mul_op rest -> no_op add_op rest -> no_op rel_op rest ->
  relation expr (condition_tokens c ++ rest) = Some (condition_expr c, rest).
Proof.
  intros Hm Ha Hr. unfold condition_expr.
  apply binary_two with (ts' := TNum (input_num (ti_value c)) :: rest);
    [| |now destruct (ti_op c)|easy]; apply binary_pass; try easy.
  - apply product_name; now destruct (ti_op c).
  - now destruct (ti_op c).
  - now apply product_num.
Qed.

Definition outermost (rest : list token) : Prop :=
  no_op mul_op rest /\ no_op add_op rest /\ no_op rel_op rest /\ no_op eq_op rest
  /\ no_op and_op rest /\ no_op or_op rest.

Lemma conjunction_conditions c cs rest :
  outermost rest ->
  disjunction expr (condition_tokens c ++ conj_tokens cs ++ rest) = Some (conj_expr c cs, rest).
Proof.
  intros (Hm & Ha & Hr & He & Hand & Hor). apply binary_pass; [|exact Hor].
  assert (Hn : forall x ts, no_op mul_op ts -> no_op add_op ts -> no_op rel_op ts -> no_op eq_op ts ->
            equality expr (condition_tokens x ++ ts) = Some (condition_expr x, ts)).
  { intros x ts H1 H2 H3 H4. apply binary_pass; [now apply relation_condition|easy]. }
  unfold conjunction, binary. rewrite Hn.
  - apply binary_list with (g := condition_expr); try easy.
    + intros x ts _ [->|[ts' ->]]; now apply Hn.
    + apply list_fuel.
  - now destruct cs.
  - now destruct cs.
  - now destruct cs.
  - now destruct cs.
Qed.

Lemma disjunction_sum ts e rest : sum expr ts = Some (e, rest) -> outermost rest -> disjunction expr ts = Some (e, rest).
Proof.
  intros H (Hm & Ha & Hr & He & Hand & Hor). now do 4 (apply binary_pass; [|easy]).
Qed.

Lemma disjunction_unary ts e rest : unary expr ts = Some (e, rest) -> outermost rest -> disjunction expr ts = Some (e, rest).
Proof.
  intros H Hl. pose proof Hl as (Hm & Ha & _). apply disjunction_sum; [|easy].
  now do 2 (apply binary_pass; [|easy]).
Qed.

Lemma conditional_plain ts e rest :
  disjunction expr ts = Some (e, rest) -> no_op (fun o => match o with PQuestion => true | _ => false end) rest ->
  conditional expr ts = Some (e, rest).
Proof. intros H Hq. unfold conditional. rewrite H. destruct rest as [|[| | |[]] rest]; easy. Qed.
End Parsing.

Definition question (o : punct) : bool := match o with PQuestion => true | _ => false end.

Lemma parse_string f s rest :
  parse_expr (S f) (TStr s :: TPunct PComma :: rest) = Some (JStr s, TPunct PComma :: rest).
Proof. apply conditional_plain; [|easy]. now apply disjunction_unary. Qed.

Lemma parse_body f t rest :
  parse_expr (S f)
    (cost_tokens "p" (vt_input t) ++ TPunct PPlus :: cost_tokens "c" (vt_output t)
     ++ extra_tokens (written_extra t) ++ TPunct PClose :: rest) =
  Some (body_expr t, TPunct PClose :: rest).
Proof.
  apply conditional_plain; [|easy]. apply disjunction_sum; [|easy].
  change (TPunct PPlus :: cost_tokens "c" (vt_output t) ++ extra_tokens (written_extra t) ++ ?r)
    with (extra_tokens (("c"%js, vt_output t) :: written_extra t) ++ r).
  now apply sum_costs.
Qed.

Lemma tier_tokens_app label t rest :
  tier_tokens label t ++ rest =
    TName "tier" :: TPunct POpen :: TStr label :: TPunct PComma
    :: cost_tokens "p" (vt_input t) ++ TPunct PPlus :: cost_tokens "c" (vt_output t)
    ++ extra_tokens (written_extra t) ++ TPunct PClose :: rest.
Proof. unfold tier_tokens. cbn [app cost_tokens]. now rewrite <- app_assoc. Qed.

Lemma two_arguments expr s body e rest a l :
  expr (TStr s :: TPunct PComma :: body) = Some (JStr s, TPunct PComma :: body) ->
  expr body = Some (e, TPunct PClose :: rest) -> body = TName a :: l ->
  arguments expr (length (TStr s :: TPunct PComma :: body)) (TStr s :: TPunct PComma :: body) =
    Some ([JStr s; e], rest).
Proof. intros Hs Hb E. cbn [length arguments]. rewrite Hs, E. cbn [length arguments]. now rewrite <- E, Hb. Qed.

Lemma unary_tier f t rest :
  unary (parse_expr (S f)) (tier_tokens (vt_label t) t ++ rest) = Some (tier_expr t, rest).
Proof.
  rewrite tier_tokens_app. cbn [unary primary].
  erewrite two_arguments; [reflexivity|apply parse_string|apply parse_body|reflexivity].
Qed.

Lemma parse_tier f t rest :
  outermost rest -> no_op question rest ->
  parse_expr (S (S f)) (tier_tokens (vt_label t) t ++ rest) = Some (tier_expr t, rest).
Proof.
  intros Hl Hq. apply conditional_plain; [|exact Hq]. apply disjunction_unary; [|exact Hl].
  apply unary_tier.
Qed.

Lemma parse_no_price f : parse_expr (S f) no_price_tokens = Some (no_price_expr, []).
Proof. reflexivity. Qed.

(** A tier under conditions, and what applies when they fail. *)
Lemma parse_part f t c cs rest e rest' :
  vt_conditions t = c :: cs -> parse_expr (S (S f)) rest = Some (e, rest') ->
  parse_expr (S (S (S f))) (part_tokens t ++ TPunct PColon :: rest) =
    Some (JCond (conj_expr c cs) (tier_expr t) e, rest').
Proof.
  intros Hc He. unfold part_tokens. rewrite Hc. rewrite <- !app_assoc. cbn [app].
  change (parse_expr (S (S (S f)))) with (conditional (parse_expr (S (S f)))). unfold conditional.
  rewrite conjunction_conditions by easy. rewrite parse_tier by easy. now rewrite He.
Qed.

Lemma parse_chain ts : forall t f,
  chained (t :: ts) -> length ts + 2 <= f ->
  parse_expr f (part_tokens t ++ chain_tokens ts) = Some (chain_expr t ts, []).
Proof.
  induction ts as [|t' ts IH]; intros t f Hc Hf.
  - destruct f as [|[|f]]; cbn in Hf; try lia. cbn [chain_tokens flat_map].
    unfold part_tokens, chain_expr. cbn in Hc. rewrite Hc. now apply parse_tier.
  - destruct Hc as [Hc Hch]. destruct f as [|[|[|f]]]; cbn in Hf; try lia.
    destruct (vt_conditions t) as [|c cs] eqn:E; [easy|].
    cbn [chain_tokens flat_map]. rewrite <- app_comm_cons.
    rewrite (parse_part f t c cs _ (chain_expr t' ts) []); [cbn [chain_expr]; now rewrite E|easy|].
    apply IH; [exact Hch|lia].
Qed.

(** The expression of a configuration. *)
Definition config_expr (c : VisualConfig) : jexpr :=
  match vc_tiers c with [] => no_price_expr | t :: ts => chain_expr t ts end.

Lemma part_fuel t : 2 <= length (part_tokens t).
Proof.
  unfold part_tokens. destruct (vt_conditions t); cbn [tier_tokens condition_tokens app length]; lia.
Qed.

Lemma chain_fuel ts : length ts <= length (chain_tokens ts).
Proof.
  unfold chain_tokens. induction ts as [|t ts IH]; cbn [flat_map length app]; [lia|].
  rewrite length_app. lia.
Qed.

Lemma parse_config c :
  config_ok c -> parse_expr (length (config_tokens c)) (config_tokens c) = Some (config_expr c, []).
Proof.
  unfold config_ok, config_tokens, config_expr. destruct (vc_tiers c) as [|t [|t' ts]]; [easy| |].
  - intros Ht. pose proof (part_fuel t) as Hf. destruct (decide (vt_conditions t = [])) as [E|E].
    + rewrite app_nil_r. unfold part_tokens, chain_expr in *. rewrite E in *.
      destruct (length _) as [|[|f]]; try lia. rewrite <- (app_nil_r (tier_tokens _ _)). now apply parse_tier.
    + destruct (vt_conditions t) as [|c1 cs] eqn:Ec; [easy|].
      replace (length _) with (S (S (S (length (part_tokens t) + 5))))
        by (rewrite length_app; cbn; lia).
      rewrite (parse_part _ t c1 cs no_price_tokens no_price_expr []); [cbn [chain_expr]; now rewrite Ec|easy|].
      apply parse_no_price.
  - intros [_ Hc]. apply parse_chain; [exact Hc|]. rewrite length_app.
    pose proof (part_fuel t). pose proof (chain_fuel (t' :: ts)). lia.
Qed.

(** A tier without conditions ends the expression, whatever follows. *)
Lemma parse_cut pre : forall t ts f,
  Forall (fun u => vt_conditions u <> []) pre -> vt_conditions t = [] -> length pre + 2 <= f ->
  exists e, parse_expr f (flat_map (fun u => part_tokens u ++ [TPunct PColon]) pre ++ part_tokens t ++ chain_tokens ts)
    = Some (e, chain_tokens ts).
Proof.
  induction pre as [|u pre IH]; intros t ts f Hpre Ht Hf.
  - destruct f as [|[|f]]; cbn in Hf; try lia. exists (tier_expr t). cbn [flat_map app]. unfold part_tokens.
    rewrite Ht. apply parse_tier; now destruct ts.
  - apply Forall_cons_1 in Hpre as [Hu Hpre]. destruct f as [|[|[|f]]]; cbn in Hf; try lia.
    destruct (vt_conditions u) as [|c cs] eqn:E; [easy|].
    destruct (IH t ts (S (S f)) Hpre Ht) as [e He]; [lia|].
    exists (JCond (conj_expr c cs) (tier_expr u) e). cbn [flat_map]. rewrite <- !app_assoc. cbn [app].
    now apply parse_part.
Qed.

(** * Evaluation *)

Section Evaluation.
Context (pt ct : number) (x : ExtraTokenValues).
Abbreviation env := (estimator_env pt ct x).

Lemma env_var v : In v est_vars -> obj_get v env = Some (env_num v env).
Proof.
  unfold est_vars, extra_vars. cbn [map BILLING_CACHE_VAR_MAP snd In]. intros Hv.
  now repeat destruct Hv as [<-|Hv].
Qed.

Lemma eval_var v t : In v est_vars -> eval env (JVar v) t = Some (VNum (env_num v env), t).
Proof. intros Hv. cbn [eval]. now rewrite env_var. Qed.

Lemma eval_cost v n t :
  In v est_vars -> eval env (cost_expr v n) t = Some (VNum (env_num v env * n)%num, t).
Proof. intros Hv. unfold cost_expr. cbn [eval]. now rewrite env_var. Qed.

Lemma eval_plus a b t v t1 w t2 :
  eval env a t = Some (v, t1) -> eval env b t1 = Some (w, t2) ->
  eval env (JBin PPlus a b) t = option_map (fun r => (r, t2)) (binop PPlus v w).
Proof. intros Ha Hb. cbn [eval]. now rewrite Ha, Hb. Qed.

Lemma eval_sum vs : forall acc a t,
  eval env acc t = Some (VNum a, t) -> (forall vn, In vn vs -> In (fst vn) est_vars) ->
  eval env (sum_expr acc vs) t =
    Some (VNum (fold_left (fun acc vn => (acc + env_num (fst vn) env * snd vn)%num) vs a), t).
Proof.
  induction vs as [|[v n] vs IH]; intros acc a t Ha Hvs; [exact Ha|].
  apply (IH (JBin PPlus acc (cost_expr v n))).
  - rewrite (eval_plus _ _ t (VNum a) t (VNum (env_num v env * n)%num) t); [easy|exact Ha|].
    apply eval_cost. apply (Hvs (v, n)). now left.
  - intros vn Hin. apply Hvs. now right.
Qed.

Lemma written_vars t vn : In vn (written_extra t) -> In (fst vn) est_vars.
Proof.
  intros Hin. apply written_from in Hin as [Hin _]. do 3 right.
  rewrite <- (tier_extra_vars t). now apply in_map.
Qed.

Lemma eval_tier t v : eval env (tier_expr t) v = Some (VNum (tier_price env t), VStr (vt_label t)).
Proof.
  unfold tier_expr. cbn [eval]. unfold body_expr, tier_price.
  rewrite (eval_sum _ _ (env_num "p" env * vt_input t)%num).
  - reflexivity.
  - apply eval_cost. now left.
  - intros vn [<-|Hin]; [right; now left|]. now apply (written_vars t).
Qed.

Lemma eval_condition c t :
  condition_ok c -> eval env (condition_expr c) t = Some (VBool (condition_holds env c), t).
Proof.
  intros (Hv & n & Hn & _). unfold condition_expr, condition_holds. rewrite Hn. cbn [input_num].
  assert (Hin : In (ti_var c) est_vars) by (unfold est_vars; cbn [In] in *; tauto).
  destruct (ti_op c); cbn [op_punct eval]; now rewrite env_var.
Qed.

Lemma eval_conj cs : forall acc b t,
  eval env acc t = Some (VBool b, t) -> Forall condition_ok cs ->
  eval env (fold_left (fun a c => JBin PAnd a (condition_expr c)) cs acc) t =
    Some (VBool (b && forallb (condition_holds env) cs), t).
Proof.
  induction cs as [|c cs IH]; intros acc b t Ha Hcs; [now rewrite andb_true_r|].
  apply Forall_cons_1 in Hcs as [Hc Hcs]. cbn [fold_left forallb].
  rewrite (IH _ (b && condition_holds env c)); [now rewrite andb_assoc| |easy].
  cbn [eval]. rewrite Ha. destruct b; [|easy]. cbn [to_bool andb]. now apply eval_condition.
Qed.

Lemma eval_no_price t :
  eval env no_price_expr t = Some (VNum (env_num "p" env * zero + env_num "c" env * zero)%num, t).
Proof. reflexivity. Qed.

Lemma eval_chain ts : forall t,
  Forall (fun t => Forall condition_ok (vt_conditions t)) (t :: ts) ->
  eval env (chain_expr t ts) (VStr []) =
    let r := config_price env (t :: ts) in Some (VNum (fst r), VStr (snd r)).
Proof.
  induction ts as [|t' ts IH]; intros t Hts; apply Forall_cons_1 in Hts as [Ht Hts];
    unfold config_price; cbn [chain_expr List.find]; destruct (vt_conditions t) as [|c cs];
    try apply eval_tier; apply Forall_cons_1 in Ht as [Hc Hcs]; cbn [eval]; unfold conj_expr;
    rewrite (eval_conj cs _ (condition_holds env c)) by (try apply eval_condition; easy);
    cbn [to_bool forallb]; destruct (condition_holds env c && _); try apply eval_tier.
  - apply eval_no_price.
  - now apply IH.
Qed.
End Evaluation.

Lemma nonblank y l : is_space y = false -> truthy (trim (y :: l)) = true.
Proof.
  intros Hy. unfold trim, trimEnd. rewrite trimStart_id by easy.
  destruct (trimStart (rev (y :: l))) as [|z r] eqn:E; [|cbn; now destruct (rev r)].
  exfalso. destruct (trimStart_suffix (rev (y :: l))) as (w & Hw & Hf).
  rewrite E, app_nil_r in Hw. rewrite <- Hw in Hf. rewrite List.Forall_forall in Hf.
  specialize (Hf y). rewrite Hf in Hy; [easy|]. apply in_rev. rewrite rev_involutive. now left.
Qed.

Lemma config_start c : config_ok c -> exists y l, config_text c = y :: l /\ is_space y = false.
Proof.
  assert (Hp : forall t s, tier_ok t -> exists y l, part_text t ++ s = y :: l /\ is_space y = false).
  { intros t s Ht. destruct (decide (vt_conditions t = [])) as [E|E].
    - unfold part_text. rewrite E. now exists 116%N; eexists.
    - destruct (part_start t s Ht E) as (y & l & -> & Hy). exists y, l. split; [easy|].
      now repeat destruct Hy as [<-|Hy]. }
  unfold config_ok, config_text. destruct (vc_tiers c) as [|t [|t' ts]]; [easy| |].
  - intros Ht. now apply Hp.
  - intros [Hts _]. rewrite join_parts. apply Hp. now apply Forall_cons_1 in Hts.
Qed.

Lemma config_costs engine c pt ct x :
  config_ok c -> Forall tier_runs (vc_tiers c) ->
  evalExprLocally engine (generateExprFromVisualConfig (Some c)) pt ct x =
    let r := config_price (estimator_env pt ct x) (vc_tiers c) in
    {| er_cost := num_or (fst r) zero; er_matchedTier := VStr (snd r); er_error := None |}.
Proof.
  intros Hc Hr. rewrite generated_text by easy. unfold evalExprLocally.
  destruct (config_start c Hc) as (y & l & E & Hy). rewrite E at 1 2. rewrite nonblank by easy.
  cbn [truthy negb orb]. unfold run_text, parse_text, tokens.
  rewrite (lexes_config c Hc Hr) by lia. rewrite parse_config by easy.
  assert (Ht : Forall (fun t => Forall condition_ok (vt_conditions t)) (vc_tiers c)).
  { unfold config_ok in Hc. destruct (vc_tiers c) as [|t [|t' ts]]; [easy| |].
    - constructor; [apply Hc|constructor].
    - eapply Forall_impl; [exact (proj1 Hc)|]. now intros t0 []. }
  unfold config_expr. destruct (vc_tiers c) as [|t ts] eqn:Ev; [now unfold config_ok in Hc; rewrite Ev in Hc|].
  now rewrite eval_chain.
Qed.

(** C35: the expression that the visual editor writes costs what its tiers say - evaluated
    by the estimator it is the price of the first tier whose conditions all hold, computed
    in floating point term by term, and that tier is the one reported; when a single
    conditional tier does not apply the price is that of no tokens and no tier is
    reported.  The engine is never asked for anything outside the modelled language. *)
Theorem estimate_config engine c pt ct x :
  config_ok c -> Forall tier_runs (vc_tiers c) ->
  evalExprLocally engine (generateExprFromVisualConfig (Some c)) pt ct x =
    let r := config_price (estimator_env pt ct x) (vc_tiers c) in
    {| er_cost := num_or (fst r) zero; er_matchedTier := VStr (snd r); er_error := None |}.
Proof. exact (config_costs engine c pt ct x). Qed.

Ltac literal_text := split; [vm_compute; reflexivity|vm_compute; eexists _, _; split; reflexivity].

Lemma sample_runs : Forall tier_runs (vc_tiers sample_config).
Proof.
  repeat apply List.Forall_cons; [| |apply List.Forall_nil].
  - split; [repeat constructor| |literal_text|literal_text|].
    + repeat apply List.Forall_cons; [| |apply List.Forall_nil];
        (eexists; split; [reflexivity|literal_text]).
    + repeat apply List.Forall_cons; try apply List.Forall_nil; literal_text.
  - split; [repeat constructor|constructor|literal_text|literal_text|].
    repeat apply List.Forall_cons; try apply List.Forall_nil; literal_text.
Qed.

Definition sample_extra (cacheRead : Z) : ExtraTokenValues :=
  {| cacheReadTokens := of_Z cacheRead; cacheCreateTokens := zero; cacheCreate1hTokens := NaN;
     imageTokens := zero; imageOutputTokens := zero; audioInputTokens := zero;
     audioOutputTokens := zero |}.

(** 100000 prompt tokens and as many read from the cache: the limit of 200000 is reached but
    not passed. *)
Lemma estimate_config_witness :
  evalExprLocally (fun _ _ => inr "unexpected"%js) (generateExprFromVisualConfig (Some sample_config)) (of_Z 100000) (of_Z 2000)
    (sample_extra 100000) =
  {| er_cost := of_Z 360000; er_matchedTier := VStr "standard"; er_error := None |}.
Proof.
  etransitivity; [apply (estimate_config _ sample_config); [exact sample_config_ok|exact sample_runs]|].
  vm_compute. reflexivity.
Defined.

(** * Which inputs the estimator offers *)

Definition occurs (w s : jstr) : Prop := exists a b, s = a ++ w ++ b.

Lemma occurs_left w s u : occurs w s -> occurs w (u ++ s).
Proof. intros (a & b & ->). exists (u ++ a), b. now rewrite <- app_assoc. Qed.

Lemma occurs_right w s u : occurs w s -> occurs w (s ++ u).
Proof. intros (a & b & ->). exists a, (b ++ u). now rewrite <- !app_assoc. Qed.

Lemma occurs_join w sep l x : In x l -> occurs w x -> occurs w (join sep l).
Proof.
  induction l as [|y l IH]; intros Hin Hw; [easy|]. destruct l as [|z l].
  - destruct Hin as [->|[]]; exact Hw.
  - rewrite join_cons by easy. destruct Hin as [->|Hin]; [now apply occurs_right|].
    now apply occurs_left, occurs_left, IH.
Qed.

Lemma occurs_extra v n vs :
  In (v, n) vs -> ntruthy n = true -> occurs (" + " ++ v ++ " * ") (extra_text vs).
Proof.
  intros Hin Hn. induction vs as [|[u m] vs IH]; [easy|]. cbn [extra_text].
  destruct Hin as [[= -> ->]|Hin]; [|now apply occurs_left, IH].
  rewrite Hn. exists [], (num_to_string n ++ extra_text vs). unfold cost_text. now rewrite <- !app_assoc.
Qed.

Lemma occurs_tier v n t label :
  tier_ok t -> In (v, n) (written_extra t) -> occurs (" + " ++ v ++ " * ") (tier_text label t).
Proof.
  intros Ht Hin. unfold tier_text. do 3 apply occurs_left. apply occurs_left, occurs_right.
  rewrite body_text by easy. do 3 apply occurs_left. apply written_from in Hin as [Hin Hn].
  now apply (occurs_extra v n).
Qed.

(** A match at some position is found, there or earlier. *)
Lemma exec_finds r : forall a p before b x,
  match_at r (last_opt p a) b = Some x -> exec_from r p before (a ++ b) <> None.
Proof.
  induction a as [|y a IH]; intros p before b x H.
  - cbn [app]. unfold last_opt in H. cbn in H. destruct b as [|z b]; cbn [exec_from]; now rewrite H; destruct x.
  - cbn [app exec_from]. destruct (match_at r p (y :: a ++ b)) as [[]|]; [easy|].
    apply (IH (Some y) _ b x). now rewrite (last_opt_cons p).
Qed.

Lemma uses_extra v s : In v extra_vars -> occurs (" + " ++ v ++ " * ") s -> exprUsesExtraVars s = true.
Proof.
  intros Hv (a & b & ->). unfold exprUsesExtraVars.
  destruct (a ++ (" + " ++ v ++ " * ") ++ b) as [|y l] eqn:E; [now destruct a|]. rewrite <- E.
  unfold exec. destruct (exec_from _ _ _ _) eqn:Ex; [easy|]. exfalso. revert Ex.
  replace (a ++ (" + " ++ v ++ " * ") ++ b) with ((a ++ " + ") ++ v ++ " * " ++ b)
    by now rewrite <- !app_assoc.
  assert (Hm : exists x, match_at extra_vars_re (Some 32%N) (v ++ " * " ++ b) = Some x).
  { unfold extra_vars in Hv. cbn [map BILLING_CACHE_VAR_MAP snd In] in Hv.
    repeat destruct Hv as [<-|Hv]; try easy; now eexists. }
  destruct Hm as [x Hm]. apply (exec_finds _ _ _ _ _ x).
  now rewrite <- (last_opt_app None a " + ").
Qed.

(** The estimator offers the inputs for cached, image and audio tokens whenever a tier
    of the configuration has a price for them. *)
Theorem extra_inputs_offered c t v n :
  config_ok c -> In t (vc_tiers c) -> In (v, n) (written_extra t) ->
  exprUsesExtraVars (generateExprFromVisualConfig (Some c)) = true.
Proof.
  intros Hc Hin Hv. rewrite generated_text by easy. apply (uses_extra v).
  { rewrite <- (tier_extra_vars t). apply written_from in Hv as [Hv _]. now apply (in_map fst _ (v, n)). }
  assert (Hp : forall t', tier_ok t' -> t' = t -> occurs (" + " ++ v ++ " * ") (part_text t')).
  { intros t' Ht ->. unfold part_text. pose proof (occurs_tier v n t (vt_label t) Ht Hv).
    destruct (vt_conditions t); [easy|]. now do 2 apply occurs_left. }
  unfold config_ok, config_text in *. destruct (vc_tiers c) as [|t1 [|t2 ts]]; [easy| |].
  - apply occurs_right, Hp; [easy|]. now destruct Hin.
  - apply (occurs_join _ _ _ (part_text t)); [now apply in_map|]. apply Hp; [|easy].
    destruct Hc as [Hc _]. rewrite List.Forall_forall in Hc. now apply Hc.
Qed.

Lemma extra_inputs_offered_witness :
  exprUsesExtraVars (generateExprFromVisualConfig (Some sample_config)) = true.
Proof.
  apply (extra_inputs_offered sample_config (List.nth 1 (vc_tiers sample_config) (sample_tier [] [] zero zero zero))
           "cr" (Number_str "0.6")); [exact sample_config_ok|now right; left|vm_compute; tauto].
Defined.

(** * A single tier is not compared with its text *)

(** [tier("base", p * 3+1 + c * 2)] *)
Definition constant_term : jstr := "tier" ++ lp_q ++ "base" ++ [dquote] ++ ", p * 3+1 + c * 2)".

(** The text of a single tier is accepted without the comparison that several tiers get:
    [3+1] is taken as one number, which it is not, and the expression - 1000 prompt and 1000
    completion tokens cost 5001 - becomes a tier without input price, whose expression costs
    2000. *)
Theorem single_tier_misread engine :
  let cost s := evalExprLocally engine s (of_Z 1000) (of_Z 1000) (sample_extra 0) in
  er_cost (cost constant_term) = of_Z 5001
  /\ exists cfg, tryParseVisualConfig constant_term = Some cfg
       /\ map vt_input (vc_tiers cfg) = [NaN]
       /\ er_cost (cost (generateExprFromVisualConfig (Some cfg))) = of_Z 2000.
Proof.
  split; [vm_compute; reflexivity|]. eexists. split; [vm_compute; reflexivity|].
  split; [reflexivity|vm_compute; reflexivity].
Qed.
