(* ===== verification/TierEditor.v ===== *)
(** Model of [web/default/src/features/system-settings/models/tiered-pricing-editor.tsx]:
    the number inputs, the tier cards and the list of tiers, the request-rule cards, and the
    editor that keeps the visual tiers, the raw text and the expression of its parent
    ([model-pricing-sheet.tsx]) in step by effects.

    A commit is one render followed by its effects, in the order of the source; an effect
    sees the values of that render, and what it sets is there at the next one.  The state
    setters of the parent and of the editor are batched. *)

From S2P Require Import Prelude Number Regex Json BillingExpr BillingRules TierExpr TierEstimate.
From stdpp Require Import options.

(** * Number inputs *)

Definition formatNumberDraft (value : InputValue) : jstr :=
  match value with
  | InText s => s
  | InNum n => if isFinite n then num_to_string n else "0"
  end.

Definition parseNumberDraft (value : jstr) : number :=
  if negb (truthy (trim value)) then zero
  else let next := Number_str value in if isFinite next then next else zero.

Definition isZeroDraft (value : jstr) : bool :=
  truthy (trim value) && (parseNumberDraft value =? zero)%num.

(** The state of [DraftNumberInput]. *)
Record DraftState := { draft : jstr; focused : bool }.

Definition draft_mount (value : InputValue) : DraftState :=
  {| draft := formatNumberDraft value; focused := false |}.

(** The effect on [focused] and [value]. *)
Definition draft_sync (value : InputValue) (s : DraftState) : DraftState :=
  if focused s then s else {| draft := formatNumberDraft value; focused := focused s |}.

Definition draft_change (text : jstr) (s : DraftState) : DraftState * number :=
  ({| draft := text; focused := focused s |}, parseNumberDraft text).

(** Focusing selects the text of a zero: the second component. *)
Definition draft_focus (selectZero : bool) (s : DraftState) : DraftState * bool :=
  ({| draft := draft s; focused := true |}, selectZero && isZeroDraft (draft s)).

Definition draft_blur (text : jstr) (s : DraftState) : DraftState * number :=
  let normalized := parseNumberDraft text in
  ({| draft := num_to_string normalized; focused := false |}, normalized).

(** The field of a price: [Number.isFinite(value) ? value : 0]. *)
Definition price_field (value : number) : InputValue := InNum (if isFinite value then value else zero).

(** An input and the number its parent keeps for it: the parent stores what is emitted, and
    the effect runs after every change. *)
Inductive DraftEvent := EFocus | EType (text : jstr) | EBlur.

Definition draft_step (sv : DraftState * number) (e : DraftEvent) : DraftState * number :=
  let '(s, v) := sv in
  let '(s1, v1) :=
    match e with
    | EFocus => (fst (draft_focus true s), v)
    | EType text => draft_change text s
    | EBlur => draft_blur (draft s) s
    end in
  (draft_sync (price_field v1) s1, v1).

Definition draft_run (v : number) (es : list DraftEvent) : DraftState * number :=
  fold_left draft_step es (draft_mount (price_field v), v).


(** * A tier card *)

Definition unitCostToPrice (uc : number) : number := num_or uc zero.
Definition priceToUnitCost (price : number) : number := num_or price zero.

Definition in_group (g : jstr) (v : BillingVar) : bool :=
  match bv_group v with Some g' => g =s g' | None => false end.

Definition CACHE_PRICE_VARS : list BillingVar := List.filter (in_group "cache") BILLING_EXTRA_VARS.
Definition MEDIA_PRICE_VARS : list BillingVar := List.filter (in_group "media") BILLING_EXTRA_VARS.

Definition OPS : list TierOp := [OpLt; OpLe; OpGt; OpGe].
Definition CONDITION_INPUT_OPTIONS : list jstr := ["len"; "p"; "c"].

(** The edits of one condition row. *)
Inductive ConditionEdit := CVar (v : jstr) | COp (o : TierOp) | CValue (n : number).

Definition edit_condition (e : ConditionEdit) (c : TierConditionInput) : TierConditionInput :=
  match e with
  | CVar v => {| ti_var := v; ti_op := ti_op c; ti_value := ti_value c |}
  | COp o => {| ti_var := ti_var c; ti_op := o; ti_value := ti_value c |}
  | CValue n => {| ti_var := ti_var c; ti_op := ti_op c; ti_value := InNum n |}
  end.

Definition with_conditions (cs : list TierConditionInput) (t : VisualTier) : VisualTier :=
  {| vt_label := vt_label t; vt_conditions := cs; vt_input := vt_input t; vt_output := vt_output t;
     vt_cache_mode := vt_cache_mode t; vt_extra := vt_extra t |}.

Definition with_label (l : jstr) (t : VisualTier) : VisualTier :=
  {| vt_label := l; vt_conditions := vt_conditions t; vt_input := vt_input t; vt_output := vt_output t;
     vt_cache_mode := vt_cache_mode t; vt_extra := vt_extra t |}.

Definition filter_index {A} (i : nat) (l : list A) : list A := take i l ++ drop (S i) l.

Definition handleConditionChange (j : nat) (next : TierConditionInput) (t : VisualTier) : VisualTier :=
  with_conditions (<[j := next]> (vt_conditions t)) t.

Definition handleConditionRemove (j : nat) (t : VisualTier) : VisualTier :=
  with_conditions (filter_index j (vt_conditions t)) t.

(** [onChange({ ...tier, [field]: value })] *)
Definition handlePriceChange (field : jstr) (value : number) (t : VisualTier) : VisualTier :=
  if field =s "input_unit_cost" then
    {| vt_label := vt_label t; vt_conditions := vt_conditions t; vt_input := value;
       vt_output := vt_output t; vt_cache_mode := vt_cache_mode t; vt_extra := vt_extra t |}
  else if field =s "output_unit_cost" then
    {| vt_label := vt_label t; vt_conditions := vt_conditions t; vt_input := vt_input t;
       vt_output := value; vt_cache_mode := vt_cache_mode t; vt_extra := vt_extra t |}
  else
    {| vt_label := vt_label t; vt_conditions := vt_conditions t; vt_input := vt_input t;
       vt_output := vt_output t; vt_cache_mode := vt_cache_mode t;
       vt_extra := obj_set field value (vt_extra t) |}.

Definition handleCacheModeChange (mode : CacheMode) (t : VisualTier) : VisualTier :=
  let cost := match mode with
              | CACHE_MODE_TIMED =>
                match obj_get "cache_create_1h_unit_cost" (vt_extra t) with Some x => x | None => zero end
              | CACHE_MODE_GENERIC => zero
              end in
  {| vt_label := vt_label t; vt_conditions := vt_conditions t; vt_input := vt_input t;
     vt_output := vt_output t; vt_cache_mode := mode;
     vt_extra := obj_set "cache_create_1h_unit_cost" cost (vt_extra t) |}.

Definition hasMediaPricing (t : VisualTier) : bool :=
  existsb (fun v =>
    (unitCostToPrice match obj_get (from_field (bv_tierField v)) (vt_extra t) with Some x => x | None => zero end
     >? zero)%num) MEDIA_PRICE_VARS.

(** The cache prices that are shown. *)
Definition shown_cache_vars (t : VisualTier) : list BillingVar :=
  List.filter (fun v => negb ((bv_key v =s "cc1h") && negb (bool_decide (vt_cache_mode t = CACHE_MODE_TIMED))))
    CACHE_PRICE_VARS.

(** * The list of tiers *)

Inductive TierAction :=
| TLabel (i : nat) (label : jstr)
| TCondition (i j : nat) (e : ConditionEdit)
| TRemoveCondition (i j : nat)
| TAddCondition (i : nat)
| TPrice (i : nat) (field : jstr) (value : number)
| TCacheMode (i : nat) (mode : CacheMode)
| TAddTier
| TRemoveTier (i : nat).

(** [tiers[index] = normalizeVisualTier(next)]: cards exist for the tiers only. *)
Definition handleTierChange (index : nat) (next : VisualTier) (config : VisualConfig) : VisualConfig :=
  {| vc_tiers := <[index := normalizeVisualTier (partial next)]> (vc_tiers config) |}.

Definition default_bound (var : jstr) : TierConditionInput :=
  {| ti_var := var; ti_op := OpLt; ti_value := InNum (of_Z 200000) |}.

(** The last tier, when it has no condition, gets an upper bound. *)
Fixpoint bound_last (tiers : list VisualTier) : list VisualTier :=
  match tiers with
  | [] => []
  | [t] =>
    match vt_conditions t with
    | [] => [normalizeVisualTier (partial (with_conditions [default_bound "len"] t))]
    | _ => [t]
    end
  | t :: rest => t :: bound_last rest
  end.

Definition new_tier (n : nat) : VisualTier :=
  normalizeVisualTier
    {| pa_label := Some ("tier_" ++ digits (N.of_nat (n + 1))); pa_conditions := Some [];
       pa_input := Some zero; pa_output := Some zero; pa_cache_mode := None; pa_extra := [] |}.

Definition handleAddTier (config : VisualConfig) : VisualConfig :=
  let tiers := bound_last (vc_tiers config) in
  {| vc_tiers := tiers ++ [new_tier (length tiers)] |}.

Definition handleRemoveTier (index : nat) (config : VisualConfig) : VisualConfig :=
  match filter_index index (vc_tiers config) with
  | [] => config
  | tiers => {| vc_tiers := tiers |}
  end.

Definition handleAddCondition (index : nat) (config : VisualConfig) : option VisualConfig :=
  match vc_tiers config !! index with
  | None => None
  | Some tier =>
    if 2 <=? length (vt_conditions tier) then None
    else
      let nextVar := if memb "len" (map ti_var (vt_conditions tier)) then "c"%js else "len"%js in
      Some {| vc_tiers := <[index := with_conditions (vt_conditions tier ++ [default_bound nextVar]) tier]>
                            (vc_tiers config) |}
  end.

(** One action on the visual editor: the configuration it hands to [onChange], if it does;
    the button that removes a tier is disabled on the only one. *)
Definition visual_edit (visualConfig : option VisualConfig) (a : TierAction) : option VisualConfig :=
  let config := normalizeVisualConfig visualConfig in
  let on_tier i f := option_map (fun t => handleTierChange i (f t) config) (vc_tiers config !! i) in
  match a with
  | TLabel i label => on_tier i (with_label label)
  | TCondition i j e =>
    match vc_tiers config !! i with
    | Some t =>
      option_map (fun c => handleTierChange i (handleConditionChange j (edit_condition e c) t) config)
        (vt_conditions t !! j)
    | None => None
    end
  | TRemoveCondition i j =>
    match vc_tiers config !! i with
    | Some t => if j <? length (vt_conditions t)
                then Some (handleTierChange i (handleConditionRemove j t) config) else None
    | None => None
    end
  | TAddCondition i => handleAddCondition i config
  | TPrice i field value => on_tier i (handlePriceChange field (priceToUnitCost value))
  | TCacheMode i mode => on_tier i (handleCacheModeChange mode)
  | TAddTier => Some (handleAddTier config)
  | TRemoveTier i =>
    if (length (vc_tiers config) <=? 1) || negb (i <? length (vc_tiers config)) then None
    else Some (handleRemoveTier i config)
  end.

(** * Request-rule cards *)

(** The edits of one condition row; the number inputs hand over a number, kept as text. *)
Inductive RuleConditionEdit :=
| RcSource (s : any_source)
| RcMode (mode : jstr)
| RcTimeFunc (fn : jstr)
| RcTimezone (tz : jstr)
| RcNumber (n : number)
| RcStart (n : number)
| RcEnd (n : number)
| RcPath (path : jstr)
| RcText (value : jstr).

Definition handleSourceChange (s : any_source) : RequestCondition :=
  match s with
  | AnyTime => CTime createEmptyTimeCondition
  | AnyPh src => CPh {| ph_source := src; ph_path := ph_path createEmptyCondition;
                        ph_mode := ph_mode createEmptyCondition; ph_value := ph_value createEmptyCondition |}
  end.

Definition edit_time (e : RuleConditionEdit) (t : TimeCondition) : TimeCondition :=
  let mk fn tz mode v a b :=
    {| tc_timeFunc := fn; tc_timezone := tz; tc_mode := mode; tc_value := v;
       tc_rangeStart := a; tc_rangeEnd := b |} in
  let '(fn, tz, mode, v, a, b) :=
    (tc_timeFunc t, tc_timezone t, tc_mode t, tc_value t, tc_rangeStart t, tc_rangeEnd t) in
  match e with
  | RcMode m => mk fn tz m v a b
  | RcTimeFunc f => mk f tz mode v a b
  | RcTimezone z => mk fn z mode v a b
  | RcNumber n => mk fn tz mode (num_to_string n) a b
  | RcStart n => mk fn tz mode v (num_to_string n) b
  | RcEnd n => mk fn tz mode v a (num_to_string n)
  | _ => t
  end.

Definition edit_ph (e : RuleConditionEdit) (c : ParamHeaderCondition) : ParamHeaderCondition :=
  let mk path mode v := {| ph_source := ph_source c; ph_path := path; ph_mode := mode; ph_value := v |} in
  match e with
  | RcMode m => mk (ph_path c) m (ph_value c)
  | RcPath p => mk p (ph_mode c) (ph_value c)
  | RcText v => mk (ph_path c) (ph_mode c) v
  | _ => c
  end.

Definition edit_rule_condition (e : RuleConditionEdit) (c : RequestCondition) : RequestCondition :=
  match e, c with
  | RcSource s, _ => handleSourceChange s
  | _, CTime t => CTime (edit_time e t)
  | _, CPh p => CPh (edit_ph e p)
  end.

Inductive GroupEdit :=
| GCondition (j : nat) (e : RuleConditionEdit)
| GRemoveCondition (j : nat)
| GAddCondition (timeMode : bool)
| GMultiplier (value : number).

Definition edit_group (e : GroupEdit) (g : RequestRuleGroup) : RequestRuleGroup :=
  let with_cs cs := {| rg_conditions := cs; rg_multiplier := rg_multiplier g |} in
  match e with
  | GCondition j ce => with_cs (alter (edit_rule_condition ce) j (rg_conditions g))
  | GRemoveCondition j => with_cs (filter_index j (rg_conditions g))
  | GAddCondition timeMode =>
    with_cs (rg_conditions g ++
             [if timeMode then CTime createEmptyTimeCondition else CPh createEmptyCondition])
  | GMultiplier v => {| rg_conditions := rg_conditions g; rg_multiplier := num_to_string v |}
  end.

Inductive RulesAction := RAddGroup | RRemoveGroup (i : nat) | REditGroup (i : nat) (e : GroupEdit).

Definition edit_rules (a : RulesAction) (groups : list RequestRuleGroup) : list RequestRuleGroup :=
  match a with
  | RAddGroup => groups ++ [createEmptyRuleGroup]
  | RRemoveGroup i => filter_index i groups
  | REditGroup i e => alter (edit_group e) i groups
  end.

(** * The editor *)

Inductive EditorMode := Visual | Raw.

#[export] Instance editor_mode_eq_dec : EqDecision EditorMode.
Proof. solve_decision. Defined.

Record World := {
  w_modelName : option jstr;          (* the props: the parent's state *)
  w_expr : jstr;
  w_rules : jstr;
  w_mode : EditorMode;                (* the editor's own state *)
  w_config : option VisualConfig;
  w_raw : jstr;
  w_groups : list RequestRuleGroup;
  w_init : bool;                      (* [initRef.current] *)
  w_seen : option (option jstr * jstr * jstr)  (* the props of the last commit *)
}.

(** [tryParseRequestRuleExpr(rules) || []] *)
Definition parse_groups (rules : jstr) : exc (list RequestRuleGroup) :=
  g <-! tryParseRequestRuleExpr rules; Ret (match g with Some gs => gs | None => [] end).

(** Mounting: the initial values of the states. *)
Definition mount_editor (modelName : option jstr) (expr rules : jstr) : exc World :=
  groups <-! parse_groups rules;
  Ret {| w_modelName := modelName; w_expr := expr; w_rules := rules; w_mode := Visual;
         w_config := tryParseVisualConfig expr; w_raw := combineBillingExpr expr rules;
         w_groups := groups; w_init := false; w_seen := None |}.

Definition canUseVisualRules (rules : jstr) : exc bool :=
  if negb (truthy rules) then Ret true
  else g <-! tryParseRequestRuleExpr rules; Ret (match g with Some _ => true | None => false end).

Definition effectiveExpr (w : World) : exc jstr :=
  match w_mode w with
  | Visual => Ret (generateExprFromVisualConfig (w_config w))
  | Raw => br <-! splitBillingExprAndRequestRules (w_raw w); Ret (fst br)
  end.

(** The first effect: the states it sets, from the props of the render. *)
Definition init_effect (expr rules : jstr) (groups : list RequestRuleGroup) (w : World) : World :=
  let parsed := tryParseVisualConfig expr in
  {| w_modelName := w_modelName w; w_expr := w_expr w; w_rules := w_rules w;
     w_mode := match parsed with
               | Some _ => Visual
               | None => if truthy expr then Raw else w_mode w
               end;
     w_config := match parsed with
                 | Some c => Some c
                 | None => if truthy expr then None else Some createDefaultVisualConfig
                 end;
     w_raw := combineBillingExpr expr rules; w_groups := groups;
     w_init := w_init w; w_seen := w_seen w |}.

Definition option_seqb (a b : option jstr) : bool :=
  match a, b with Some x, Some y => x =s y | None, None => true | _, _ => false end.

Definition deps_changed (w : World) : bool :=
  match w_seen w with Some (_, e, r) => negb ((e =s w_expr w) && (r =s w_rules w)) | None => true end.

Definition model_changed (w : World) : bool :=
  match w_seen w with Some (m, _, _) => negb (option_seqb m (w_modelName w)) | None => true end.

(** One commit: the render, then the effects - initialising from the props when they have
    changed and [initRef] is clear, clearing [initRef] when the model has changed, handing
    the expression to the parent, and in visual mode the rules. *)
Definition commit (w : World) : exc World :=
  _ <-! canUseVisualRules (w_rules w);
  effective <-! effectiveExpr w;
  let changed := deps_changed w in
  let emitted :=
    {| w_modelName := w_modelName w; w_expr := effective;
       w_rules := match w_mode w with Visual => buildRequestRuleExpr (w_groups w) | Raw => w_rules w end;
       w_mode := w_mode w; w_config := w_config w; w_raw := w_raw w; w_groups := w_groups w;
       w_init := if model_changed w then false else if changed then true else w_init w;
       w_seen := Some (w_modelName w, w_expr w, w_rules w) |} in
  if changed && negb (w_init w) then
    groups <-! parse_groups (w_rules w);
    Ret (init_effect (w_expr w) (w_rules w) groups emitted)
  else Ret emitted.

Fixpoint commits (n : nat) (w : World) : exc World :=
  match n with 0 => Ret w | S n' => w' <-! commit w; commits n' w' end.

(** ** Handlers *)

Definition set_config (c : VisualConfig) (w : World) : World :=
  {| w_modelName := w_modelName w; w_expr := w_expr w; w_rules := w_rules w; w_mode := w_mode w;
     w_config := Some c; w_raw := w_raw w; w_groups := w_groups w; w_init := w_init w; w_seen := w_seen w |}.

Definition set_groups (gs : list RequestRuleGroup) (w : World) : World :=
  {| w_modelName := w_modelName w; w_expr := w_expr w; w_rules := w_rules w; w_mode := w_mode w;
     w_config := w_config w; w_raw := w_raw w; w_groups := gs; w_init := w_init w; w_seen := w_seen w |}.

Definition handleRawChange (value : jstr) (w : World) : exc World :=
  br <-! splitBillingExprAndRequestRules value;
  Ret {| w_modelName := w_modelName w; w_expr := w_expr w; w_rules := snd br; w_mode := w_mode w;
         w_config := w_config w; w_raw := value; w_groups := w_groups w; w_init := w_init w;
         w_seen := w_seen w |}.

Definition handleModeChange (next : EditorMode) (w : World) : exc World :=
  match next with
  | Visual =>
    br <-! splitBillingExprAndRequestRules (w_raw w);
    groups <-! parse_groups (snd br);
    Ret {| w_modelName := w_modelName w; w_expr := w_expr w; w_rules := snd br; w_mode := Visual;
           w_config := Some (match tryParseVisualConfig (fst br) with
                             | Some c => c | None => createDefaultVisualConfig end);
           w_raw := w_raw w; w_groups := groups; w_init := w_init w; w_seen := w_seen w |}
  | Raw =>
    let expr := generateExprFromVisualConfig (w_config w) in
    Ret {| w_modelName := w_modelName w; w_expr := w_expr w; w_rules := w_rules w; w_mode := Raw;
           w_config := w_config w;
           w_raw := str_or (combineBillingExpr expr (buildRequestRuleExpr (w_groups w))) expr;
           w_groups := w_groups w; w_init := w_init w; w_seen := w_seen w |}
  end.

Record Preset := { ps_key : jstr; ps_expr : jstr; ps_requestRules : list RequestRuleGroup }.

Definition applyPreset (preset : Preset) (w : World) : World :=
  let ruleExpr := buildRequestRuleExpr (ps_requestRules preset) in
  let parsed := tryParseVisualConfig (ps_expr preset) in
  {| w_modelName := w_modelName w; w_expr := w_expr w; w_rules := ruleExpr;
     w_mode := match parsed with Some _ => Visual | None => Raw end;
     w_config := parsed;
     w_raw := str_or (combineBillingExpr (ps_expr preset) ruleExpr) (ps_expr preset);
     w_groups := ps_requestRules preset; w_init := w_init w; w_seen := w_seen w |}.

(** What the user does: the controls that are shown. *)
Inductive Action :=
| ATier (a : TierAction)
| ARules (a : RulesAction)
| ARaw (value : jstr)
| AMode (next : EditorMode)
| APreset (p : Preset).

Definition act (a : Action) (w : World) : exc World :=
  match a with
  | ATier ta =>
    match w_mode w, visual_edit (w_config w) ta with
    | Visual, Some c => Ret (set_config c w)
    | _, _ => Ret w
    end
  | ARules ra =>
    can <-! canUseVisualRules (w_rules w);
    match w_mode w, can with
    | Visual, true => Ret (set_groups (edit_rules ra (w_groups w)) w)
    | _, _ => Ret w
    end
  | ARaw value => match w_mode w with Raw => handleRawChange value w | Visual => Ret w end
  | AMode next => handleModeChange next w
  | APreset p => Ret (applyPreset p w)
  end.

(** ** Presets *)

(** A text of the source, with its double quotes written as single ones. *)
Definition src (s : jstr) : jstr := map (fun c => if (c =? 39)%N then dquote else c) s.

Definition preset (key expr : jstr) (rules : list RequestRuleGroup) : Preset :=
  {| ps_key := key; ps_expr := src expr; ps_requestRules := rules |}.

Definition rule (c : RequestCondition) (multiplier : jstr) : RequestRuleGroup :=
  {| rg_conditions := [c]; rg_multiplier := multiplier |}.

Definition fixed_price_presets : list Preset :=
  [ preset "flat" "tier('base', p * 2 + c * 4)" [];
    preset "claude-opus" "tier('base', p * 5 + c * 25 + cr * 0.5 + cc * 6.25 + cc1h * 10)" [];
    preset "gpt-5.4"
      "len <= 272000 ? tier('standard', p * 2.5 + c * 15 + cr * 0.25) : tier('long_context', p * 5 + c * 22.5 + cr * 0.5)"
      [] ].

Definition tiered_presets : list Preset :=
  [ preset "claude-sonnet"
      "len <= 200000 ? tier('standard', p * 3 + c * 15 + cr * 0.3 + cc * 3.75 + cc1h * 6) : tier('long_context', p * 6 + c * 22.5 + cr * 0.6 + cc * 7.5 + cc1h * 12)"
      [];
    preset "qwen3-max"
      "len <= 32000 ? tier('short', p * 1.2 + c * 6 + cr * 0.24 + cc * 1.5) : len <= 128000 ? tier('mid', p * 2.4 + c * 12 + cr * 0.48 + cc * 3) : tier('long', p * 3 + c * 15 + cr * 0.6 + cc * 3.75)"
      [];
    preset "glm-4.5-air"
      "len < 32000 && c < 200 ? tier('short_output', p * 0.8 + c * 2 + cr * 0.16) : len < 32000 && c >= 200 ? tier('long_output', p * 0.8 + c * 6 + cr * 0.16) : tier('mid_context', p * 1.2 + c * 8 + cr * 0.24)"
      [];
    preset "doubao-seed-1.8"
      "len <= 32000 && c <= 200 ? tier('discount', p * 0.8 + c * 2 + cr * 0.16 + cc * 0.17) : len <= 32000 ? tier('short', p * 0.8 + c * 8 + cr * 0.16 + cc * 0.17) : len <= 128000 ? tier('mid', p * 1.2 + c * 16 + cr * 0.16 + cc * 0.17) : tier('long', p * 2.4 + c * 24 + cr * 0.16 + cc * 0.17)"
      [] ].

Definition multimodal_presets : list Preset :=
  [ preset "gpt-image-1-mini" "tier('base', p * 2 + c * 8 + img * 2.5)" [];
    preset "gemini-2.5-flash" "tier('base', p * 0.3 + c * 2.5 + cr * 0.03 + ai * 1.0)" [];
    preset "gemini-3-pro-image" "tier('base', p * 2 + c * 12 + img_o * 120)" [];
    preset "qwen3-omni-flash"
      "tier('base', p * 0.43 + c * 3.06 + img * 0.78 + ai * 3.81 + ao * 15.11)" [] ].

Definition request_rule_presets : list Preset :=
  [ preset "claude-opus-fast" "tier('base', p * 5 + c * 25 + cr * 0.5 + cc * 6.25 + cc1h * 10)"
      [ rule (ph SOURCE_HEADER "anthropic-beta" MATCH_CONTAINS "fast-mode-2026-02-01") "6" ];
    preset "gpt-5.4-tiers"
      "len <= 272000 ? tier('standard', p * 2.5 + c * 15 + cr * 0.25) : tier('long_context', p * 5 + c * 22.5 + cr * 0.5)"
      [ rule (ph SOURCE_PARAM "service_tier" MATCH_EQ "priority") "2";
        rule (ph SOURCE_PARAM "service_tier" MATCH_EQ "flex") "0.5" ] ].

Definition time_based_presets : list Preset :=
  [ preset "night-discount" "tier('base', p * 3 + c * 15)"
      [ rule (time_cond "hour" "Asia/Shanghai" MATCH_RANGE [] "21" "6") "0.5" ];
    preset "weekend-discount" "tier('base', p * 3 + c * 15)"
      [ rule (time_cond "weekday" "Asia/Shanghai" MATCH_EQ "0" [] []) "0.8";
        rule (time_cond "weekday" "Asia/Shanghai" MATCH_EQ "6" [] []) "0.8" ] ].

Definition PRESET_GROUPS : list (jstr * list Preset) :=
  [ ("Fixed price"%js, fixed_price_presets); ("Tiered"%js, tiered_presets);
    ("Multimodal"%js, multimodal_presets); ("Request rule"%js, request_rule_presets);
    ("Time-based"%js, time_based_presets) ].

(** * The effects settle *)

Lemma exc_bind_inv {A B} (m : exc A) (f : A -> exc B) b :
  exc_bind m f = Ret b -> exists a, m = Ret a /\ f a = Ret b.
Proof. destruct m as [a|]; [|discriminate]. now exists a. Qed.

(** The states a commit leaves alone. *)
Definition same_state (w w' : World) : Prop :=
  w_mode w' = w_mode w /\ w_config w' = w_config w /\ w_raw w' = w_raw w /\ w_groups w' = w_groups w.

Definition props (w : World) : option jstr * jstr * jstr := (w_modelName w, w_expr w, w_rules w).

Definition emitted_rules (w : World) : jstr :=
  match w_mode w with Visual => buildRequestRuleExpr (w_groups w) | Raw => w_rules w end.

Definition next_init (w : World) : bool :=
  if model_changed w then false else if deps_changed w then true else w_init w.

Lemma commit_inv w w' :
  commit w = Ret w' ->
  effectiveExpr w = Ret (w_expr w') /\ w_modelName w' = w_modelName w
  /\ w_rules w' = emitted_rules w /\ w_seen w' = Some (props w) /\ w_init w' = next_init w
  /\ (deps_changed w && negb (w_init w) = false -> same_state w w').
Proof.
  unfold commit. intros H. apply exc_bind_inv in H as (can & _ & H). apply exc_bind_inv in H as (eff & He & H).
  rewrite He. destruct (deps_changed w && negb (w_init w)) eqn:E.
  - apply exc_bind_inv in H as (gs & _ & [= <-]). now unfold next_init.
  - injection H as <-. now unfold next_init.
Qed.

Lemma option_seqb_refl a : option_seqb a a = true.
Proof. destruct a; [apply seqb_refl|easy]. Qed.

Lemma model_settled w w' : commit w = Ret w' -> model_changed w' = false.
Proof.
  intros H. apply commit_inv in H as (_ & Hm & _ & Hs & _). unfold model_changed. rewrite Hs.
  unfold props. now rewrite Hm, option_seqb_refl.
Qed.

Lemma deps_same w w' :
  commit w = Ret w' -> deps_changed w' = false <-> (w_expr w' = w_expr w /\ w_rules w' = w_rules w).
Proof.
  intros H. apply commit_inv in H as (_ & _ & _ & Hs & _). unfold deps_changed. rewrite Hs.
  unfold props. rewrite negb_false_iff, andb_true_iff, !seqb_eq. intuition congruence.
Qed.

Lemma effective_same w w' : same_state w w' -> effectiveExpr w' = effectiveExpr w.
Proof. intros (Hm & Hc & Hr & _). unfold effectiveExpr. now rewrite Hm, Hc, Hr. Qed.

Lemma emitted_same w w' : same_state w w' -> w_rules w' = emitted_rules w -> emitted_rules w' = emitted_rules w.
Proof.
  intros (Hm & _ & _ & Hg) Hr. unfold emitted_rules in *. rewrite Hm, Hg. now destruct (w_mode w).
Qed.

Lemma world_eq w w' :
  same_state w w' -> props w' = props w -> w_init w' = w_init w -> w_seen w' = w_seen w -> w' = w.
Proof. destruct w, w'. unfold same_state, props. cbn. intros (-> & -> & -> & ->) [= -> -> ->] -> ->. easy. Qed.

(** A commit without initialisation that hands over nothing new is the last one. *)
Lemma settled w w' :
  commit w = Ret w' -> deps_changed w && negb (w_init w) = false -> w_seen w = Some (props w) ->
  model_changed w = false -> w_expr w' = w_expr w -> w_rules w' = w_rules w -> w' = w.
Proof.
  intros H Hd Hs Hm He Hr. pose proof (commit_inv w w' H) as (_ & Hn & _ & Hs' & Hi & Hst).
  assert (Hdc : deps_changed w = false) by (unfold deps_changed; rewrite Hs; cbn; now rewrite !seqb_refl).
  apply world_eq; [now apply Hst| |unfold next_init in Hi; now rewrite Hm, Hdc in Hi|congruence].
  unfold props. now rewrite Hn, He, Hr.
Qed.

(** Once the initialisation is over, two commits settle the rest. *)
Lemma settle_done w w1 w2 :
  w_init w = true -> model_changed w = false -> commit w = Ret w1 -> commit w1 = Ret w2 ->
  forall w3, commit w2 = Ret w3 -> w3 = w2.
Proof.
  intros Hi Hm H1 H2 w3 H3.
  pose proof (commit_inv _ _ H1) as (E1 & _ & R1 & _ & I1 & S1).
  pose proof (commit_inv _ _ H2) as (E2 & M2 & R2 & D2 & I2 & S2).
  pose proof (commit_inv _ _ H3) as (E3 & _ & R3 & _ & I3 & S3).
  assert (Hi1 : w_init w1 = true).
  { rewrite I1. unfold next_init. rewrite Hm. now destruct (deps_changed w). }
  assert (Hi2 : w_init w2 = true).
  { rewrite I2. unfold next_init. rewrite (model_settled _ _ H1). now destruct (deps_changed w1). }
  rewrite Hi, Hi1, Hi2, andb_false_r in *. specialize (S1 eq_refl). specialize (S2 eq_refl).
  assert (He : w_expr w2 = w_expr w1) by (rewrite (effective_same _ _ S1), E1 in E2; congruence).
  assert (Hr : w_rules w2 = w_rules w1) by (rewrite R2, R1; now apply emitted_same).
  apply settled; [exact H3|now rewrite Hi2, andb_false_r| |apply (model_settled _ _ H2)| |].
  - rewrite D2. unfold props. now rewrite M2, He, Hr.
  - rewrite (effective_same _ _ S2), E2 in E3. congruence.
  - rewrite R3. rewrite (emitted_same _ _ S2 R2). now rewrite R2.
Qed.

Definition fixed (w : World) : Prop := forall w', commit w = Ret w' -> w' = w.

Lemma fixed_commits n w w' : fixed w -> commits n w = Ret w' -> w' = w.
Proof.
  revert w; induction n as [|n IH]; intros w Hf H; [now injection H|].
  cbn [commits] in H. apply exc_bind_inv in H as (w1 & H1 & H). apply Hf in H1. subst. now apply IH.
Qed.

Lemma init_after w w' : commit w = Ret w' -> model_changed w = false -> deps_changed w = true -> w_init w' = true.
Proof. intros H Hm Hd. apply commit_inv in H as (_ & _ & _ & _ & Hi & _). unfold next_init in Hi. now rewrite Hm, Hd in Hi. Qed.

Lemma commits_S n w w' : commits (S n) w = Ret w' -> exists w1, commit w = Ret w1 /\ commits n w1 = Ret w'.
Proof. apply exc_bind_inv. Qed.

(** From a commit whose [initRef] is set. *)
Lemma settle_init n w w' :
  w_init w = true -> model_changed w = false -> commits (2 + n) w = Ret w' -> fixed w'.
Proof.
  intros Hi Hm H. apply commits_S in H as (w1 & H1 & H). apply commits_S in H as (w2 & H2 & H).
  pose proof (settle_done w w1 w2 Hi Hm H1 H2) as Hf. now apply (fixed_commits n w2 w' Hf) in H as ->.
Qed.

Lemma five_commits w w' : commits 5 w = Ret w' -> fixed w'.
Proof.
  intros H. apply commits_S in H as (w1 & H1 & H). pose proof (model_settled _ _ H1) as M1.
  destruct (w_init w1) eqn:I1; [now apply (settle_init 2) in H|].
  pose proof H as H0. apply commits_S in H as (w2 & H2 & H). pose proof (model_settled _ _ H2) as M2.
  destruct (deps_changed w1) eqn:D1.
  { apply (settle_init 1 w2 w'); [now apply (init_after w1)|easy|exact H]. }
  pose proof (commit_inv _ _ H2) as (_ & _ & _ & _ & I2 & _).
  apply commits_S in H as (w3 & H3 & H). pose proof (model_settled _ _ H3) as M3.
  destruct (deps_changed w2) eqn:D2.
  { apply (settle_init 0 w3 w'); [now apply (init_after w2)|easy|exact H]. }
  assert (Hw : w2 = w1).
  { apply (deps_same _ _ H2) in D2 as [He Hr]. apply settled; try easy.
    - now rewrite D1.
    - apply (deps_same _ _ H1) in D1 as [He1 Hr1]. apply commit_inv in H1 as (_ & Hm & _ & Hs & _).
      rewrite Hs. unfold props. now rewrite Hm, He1, Hr1. }
  subst w2. assert (Hf : fixed w1) by (intros w2 E; congruence).
  now apply (fixed_commits _ _ _ Hf) in H0 as ->.
Qed.

(** C33: the effects do not chase each other: from any state of the editor and of its
    parent, five commits reach a state that further commits leave as it is, in which the
    parent holds the expression of the editor and, in visual mode, the text of its rules. *)
Theorem effects_settle w w5 w6 :
  commits 5 w = Ret w5 -> commit w5 = Ret w6 ->
  w6 = w5 /\ effectiveExpr w5 = Ret (w_expr w5)
  /\ (w_mode w5 = Visual -> w_rules w5 = buildRequestRuleExpr (w_groups w5)).
Proof.
  intros H5 H6. pose proof (five_commits w w5 H5 w6 H6) as ->. split; [easy|].
  apply commit_inv in H6 as (He & _ & Hr & _). split; [exact He|].
  intros Hm. unfold emitted_rules in Hr. now rewrite Hm in Hr.
Qed.

(** * Opening *)

(** What the editor opens and keeps: tiers and rules it can write and read. *)
Definition kept_expr (c : VisualConfig) : jstr := generateExprFromVisualConfig (Some c).

Definition reread (c : VisualConfig) : VisualConfig := {| vc_tiers := map reread_tier (vc_tiers c) |}.

Lemma read_kept c : config_ok c -> tryParseVisualConfig (kept_expr c) = Some (reread c).
Proof. exact (config_reads c). Qed.

Lemma parse_built gs : Forall group_ok gs -> parse_groups (buildRequestRuleExpr gs) = Ret gs.
Proof. intros H. unfold parse_groups. now rewrite parse_build. Qed.

Lemma can_use_built gs : Forall group_ok gs -> canUseVisualRules (buildRequestRuleExpr gs) = Ret true.
Proof. intros H. unfold canUseVisualRules. rewrite parse_build by easy. now destruct (negb _). Qed.

(** The world in which editor and parent agree on tiers and rules. *)
Record agreed (c : VisualConfig) (gs : list RequestRuleGroup) (w : World) : Prop := {
  ag_mode : w_mode w = Visual;
  ag_config : w_config w = Some c \/ w_config w = Some (reread c);
  ag_groups : w_groups w = gs;
  ag_expr : w_expr w = kept_expr c;
  ag_rules : w_rules w = buildRequestRuleExpr gs
}.

Lemma commit_emits w can :
  canUseVisualRules (w_rules w) = Ret can -> w_mode w = Visual ->
  deps_changed w && negb (w_init w) = false ->
  exists w', commit w = Ret w' /\ same_state w w'
    /\ w_expr w' = generateExprFromVisualConfig (w_config w) /\ w_rules w' = buildRequestRuleExpr (w_groups w).
Proof. intros Hc Hm Hd. unfold commit, effectiveExpr. rewrite Hc, Hm, Hd. cbn. now eexists. Qed.

Lemma agreed_commit c gs w :
  config_ok c -> Forall group_ok gs -> agreed c gs w -> exists w', commit w = Ret w' /\ agreed c gs w'.
Proof.
  intros Hc Hgs [Hm Hcfg Hg He Hr].
  assert (Hgen : generateExprFromVisualConfig (w_config w) = kept_expr c)
    by (destruct Hcfg as [-> | ->]; [easy|apply reread_generated]).
  destruct (deps_changed w && negb (w_init w)) eqn:Hd.
  - unfold commit, effectiveExpr. rewrite Hr, can_use_built by easy. rewrite Hm, Hd. cbn [exc_bind].
    rewrite parse_built by easy. cbn [exc_bind]. eexists. split; [reflexivity|].
    rewrite He. unfold init_effect. rewrite read_kept by easy. rewrite Hg.
    split; [easy|now right|easy|exact Hgen|easy].
  - destruct (commit_emits w true) as (w' & H & (Sm & Sc & _ & Sg) & E & R);
      [rewrite Hr; now apply can_use_built|easy|easy|].
    exists w'. split; [exact H|].
    split; [congruence|now rewrite Sc|congruence|congruence|rewrite R; congruence].
Qed.

Lemma agreed_commits c gs n : forall w,
  config_ok c -> Forall group_ok gs -> agreed c gs w -> exists w', commits n w = Ret w' /\ agreed c gs w'.
Proof.
  induction n as [|n IH]; intros w Hc Hgs Ha; [now exists w|].
  destruct (agreed_commit c gs w Hc Hgs Ha) as (w1 & H1 & Ha1). cbn [commits]. rewrite H1. now apply IH.
Qed.

Lemma tier_ok_reread t : tier_ok t -> tier_ok (reread_tier t).
Proof. now intros [H1 H2 H3 H4 H5 H6]. Qed.

Lemma chained_reread ts : chained ts -> chained (map reread_tier ts).
Proof.
  induction ts as [|t [|t' ts] IH]; [easy|easy|]. intros [H Hc]. cbn [map chained]. split; [exact H|].
  now apply IH.
Qed.

Lemma config_ok_reread c : config_ok c -> config_ok (reread c).
Proof.
  unfold config_ok, reread. cbn [vc_tiers]. destruct (vc_tiers c) as [|t [|t' ts]]; [easy|apply tier_ok_reread|].
  intros [Hts Hc]. cbn [map]. change (reread_tier t :: reread_tier t' :: map reread_tier ts)
    with (map reread_tier (t :: t' :: ts)).
  split; [|now apply chained_reread]. apply Forall_map. eapply Forall_impl; [exact Hts|]. exact tier_ok_reread.
Qed.

Lemma reread_twice c : reread (reread c) = reread c.
Proof. unfold reread. cbn [vc_tiers]. now rewrite map_map. Qed.

Lemma kept_reread c : kept_expr (reread c) = kept_expr c.
Proof. apply reread_generated. Qed.

Lemma opened_kept model c gs n :
  config_ok c -> Forall group_ok gs ->
  exists w0 w, mount_editor model (kept_expr c) (buildRequestRuleExpr gs) = Ret w0
    /\ commits n w0 = Ret w /\ w_expr w = kept_expr c /\ w_rules w = buildRequestRuleExpr gs
    /\ w_mode w = Visual /\ w_config w = Some (reread c) /\ w_groups w = gs.
Proof.
  intros Hc Hgs. unfold mount_editor. rewrite parse_built by easy. cbn [exc_bind].
  set (w0 := {| w_modelName := model |}).
  destruct (agreed_commits (reread c) gs n w0) as (w & Hw & [Hm Hcfg Hg He Hr]).
  - now apply config_ok_reread.
  - easy.
  - split; [easy|left; now apply read_kept|easy|symmetry; apply kept_reread|easy].
  - exists w0, w. rewrite reread_twice in Hcfg. rewrite kept_reread in He. repeat split; try easy. now destruct Hcfg.
Qed.

(** opening the tiers and rules the editor has written changes nothing: at every commit
    the parent still holds the same expression and the same rules, and the editor shows the
    same tiers and the same rules in visual mode. *)
Theorem open_unchanged model c gs n :
  config_ok c -> Forall group_ok gs ->
  exists w0 w, mount_editor model (kept_expr c) (buildRequestRuleExpr gs) = Ret w0
    /\ commits n w0 = Ret w /\ w_expr w = kept_expr c /\ w_rules w = buildRequestRuleExpr gs
    /\ w_mode w = Visual /\ w_config w = Some (reread c) /\ w_groups w = gs.
Proof. exact (opened_kept model c gs n). Qed.

(** A text the editor's rules are never built as, used for a fresh row. *)
Lemma agreed_after c gs w can :
  config_ok c -> Forall group_ok gs -> w_mode w = Visual -> w_config w = Some c -> w_groups w = gs ->
  deps_changed w = false -> canUseVisualRules (w_rules w) = Ret can ->
  exists w', commit w = Ret w' /\ agreed c gs w'.
Proof.
  intros Hc Hgs Hm Hcfg Hg Hd Hcan.
  destruct (commit_emits w can Hcan Hm) as (w' & H & (Sm & Sc & _ & Sg) & E & R); [now rewrite Hd|].
  exists w'. split; [exact H|]. split; try congruence.
  - left. congruence.
  - now rewrite E, Hcfg.
Qed.

(** an edit of the tiers or of the rules reaches the parent: after an action in visual
    mode on a settled editor whose tiers and rules can then be written and read, five commits
    later - and ever after - the parent holds exactly the expression of the edited tiers and
    the text of the edited rules, and the editor is still in visual mode with these tiers and
    rules. *)
Theorem edit_reaches_parent a w w1 can c gs n :
  w_mode w = Visual -> deps_changed w = false -> canUseVisualRules (w_rules w) = Ret can ->
  match a with ATier _ | ARules _ => True | _ => False end -> act a w = Ret w1 ->
  w_config w1 = Some c -> w_groups w1 = gs -> config_ok c -> Forall group_ok gs ->
  exists w', commits (S n) w1 = Ret w' /\ w_expr w' = kept_expr c /\ w_rules w' = buildRequestRuleExpr gs
    /\ w_mode w' = Visual /\ (w_config w' = Some c \/ w_config w' = Some (reread c)) /\ w_groups w' = gs.
Proof.
  intros Hm Hd Hcan Ha Hact Hcfg Hg Hc Hgs.
  assert (Hsame : w_mode w1 = Visual /\ deps_changed w1 = false /\ w_rules w1 = w_rules w).
  { destruct a; try easy; cbn [act] in Hact; rewrite ?Hcan, Hm in Hact; cbn [exc_bind] in Hact.
    - destruct (visual_edit _ _); injection Hact as <-; easy.
    - destruct can; injection Hact as <-; easy. }
  destruct Hsame as (Hm1 & Hd1 & Hr1). rewrite <- Hr1 in Hcan.
  destruct (agreed_after c gs w1 can Hc Hgs Hm1 Hcfg Hg Hd1 Hcan) as (w2 & H2 & Ha2).
  destruct (agreed_commits c gs n w2 Hc Hgs Ha2) as (w' & Hw & [Am Ac Ag Ae Ar]).
  exists w'. cbn [commits]. rewrite H2. easy.
Qed.

(** * Texts the visual editor cannot read *)

Lemma combine_plain e : combineBillingExpr e [] = trim e.
Proof. unfold combineBillingExpr. now destruct (trim e). Qed.

(** The world after a commit whose render and effects do not throw. *)
Definition after (w : World) (effective : jstr) (groups : list RequestRuleGroup) : World :=
  let emitted :=
    {| w_modelName := w_modelName w; w_expr := effective; w_rules := emitted_rules w;
       w_mode := w_mode w; w_config := w_config w; w_raw := w_raw w; w_groups := w_groups w;
       w_init := next_init w; w_seen := Some (props w) |} in
  if deps_changed w && negb (w_init w) then init_effect (w_expr w) (w_rules w) groups emitted else emitted.

Lemma commit_after w can effective groups :
  canUseVisualRules (w_rules w) = Ret can -> effectiveExpr w = Ret effective ->
  parse_groups (w_rules w) = Ret groups -> commit w = Ret (after w effective groups).
Proof.
  intros Hc He Hg. unfold commit, after. rewrite Hc, He. cbn [exc_bind].
  destruct (deps_changed w && negb (w_init w)); [|easy]. now rewrite Hg.
Qed.

(** The raw mode without rules. *)
Definition raw_world (model : option jstr) (expr raw : jstr) (init : bool) (seen : jstr) : World :=
  {| w_modelName := model; w_expr := expr; w_rules := []; w_mode := Raw; w_config := None; w_raw := raw;
     w_groups := []; w_init := init; w_seen := Some (model, seen, []) |}.

Lemma raw_commit model expr raw init seen br :
  splitBillingExprAndRequestRules raw = Ret br -> init = true \/ expr = seen ->
  commit (raw_world model expr raw init seen) = Ret (raw_world model (fst br) raw init expr).
Proof.
  intros Hs Hi. rewrite (commit_after _ true (fst br) []); [|easy| |easy].
  - unfold after, next_init, deps_changed, model_changed, raw_world, emitted_rules, props. cbn.
    rewrite option_seqb_refl, andb_true_r. destruct Hi as [-> | ->]; [now destruct (seen =s expr)|].
    now rewrite seqb_refl.
  - unfold effectiveExpr, raw_world. cbn [w_mode w_raw]. now rewrite Hs.
Qed.

(** The first change of the props takes the raw text from them. *)
Lemma raw_reinit model expr raw seen br :
  splitBillingExprAndRequestRules raw = Ret br -> (seen =s expr) = false -> truthy expr = true ->
  tryParseVisualConfig expr = None ->
  commit (raw_world model expr raw false seen) = Ret (raw_world model (fst br) (trim expr) true expr).
Proof.
  intros Hs Hne Ht Hp. rewrite (commit_after _ true (fst br) []); [|easy| |easy].
  - unfold after, next_init, deps_changed, model_changed, raw_world, emitted_rules, props, init_effect. cbn.
    rewrite option_seqb_refl, Hne. cbn. now rewrite Hp, Ht, combine_plain.
  - unfold effectiveExpr, raw_world. cbn [w_mode w_raw]. now rewrite Hs.
Qed.

Lemma complex_mounted model e :
  truthy e = true -> tryParseVisualConfig e = None ->
  exists w0, mount_editor model e [] = Ret w0 /\ commit w0 = Ret (raw_world model no_price (trim e) false e).
Proof.
  intros Ht Hp. eexists. split; [reflexivity|]. rewrite (commit_after _ true no_price []); [|easy| |easy].
  - unfold after, init_effect, raw_world. cbn. now rewrite Hp, Ht, combine_plain.
  - unfold effectiveExpr. cbn [w_mode w_config]. now rewrite Hp.
Qed.

(** opening an expression the visual editor cannot read - nested conditionals, say, which
    the prompt template of the same editor recommends - destroys it: before the editor turns
    to the raw mode it hands the price of no configuration to the parent, then takes its raw
    text from the parent, and ends with [p * 0 + c * 0] in both. *)
Theorem complex_expression_lost model e br :
  e <> [] -> e <> no_price -> tryParseVisualConfig e = None ->
  splitBillingExprAndRequestRules (trim e) = Ret br ->
  exists w0 w, mount_editor model e [] = Ret w0 /\ commits 5 w0 = Ret w /\ fixed w
    /\ w_expr w = no_price /\ w_rules w = [] /\ w_raw w = no_price /\ w_mode w = Raw.
Proof.
  intros Hne Hnp Hp Hs.
  assert (Hn : splitBillingExprAndRequestRules no_price = Ret (no_price, [])) by reflexivity.
  destruct (complex_mounted model e) as (w0 & H0 & H1); [now destruct e|easy|].
  exists w0, (raw_world model no_price no_price true no_price). split; [exact H0|].
  cbn [commits]. rewrite H1. cbn [exc_bind].
  rewrite (raw_reinit _ _ _ _ br) by (try easy; now apply seqb_neq). cbn [exc_bind].
  change (trim no_price) with no_price.
  do 3 (rewrite (raw_commit _ _ _ _ _ _ Hn) by (now left); cbn [exc_bind fst]).
  split; [reflexivity|]. split; [|easy]. intros w' H. rewrite (raw_commit _ _ _ _ _ _ Hn) in H by now left.
  now injection H as <-.
Qed.

(** * Rules the visual editor cannot read *)

(** opening readable tiers with request rules the visual editor cannot read deletes the
    rules: the first commit hands the text of no rules to the parent, so that the notice that
    such rules are edited in expression mode has nothing left to protect. *)
Theorem complex_rules_lost model c rules n :
  config_ok c -> tryParseRequestRuleExpr rules = Ret None ->
  exists w0 w, mount_editor model (kept_expr c) rules = Ret w0 /\ commits (S n) w0 = Ret w
    /\ w_rules w = [] /\ w_groups w = [] /\ w_expr w = kept_expr c /\ w_mode w = Visual.
Proof.
  intros Hc Hr. assert (Hp : parse_groups rules = Ret []) by (unfold parse_groups; now rewrite Hr).
  unfold mount_editor. rewrite Hp. cbn [exc_bind]. set (w0 := {| w_modelName := model |}).
  assert (Hcan : exists can, canUseVisualRules rules = Ret can).
  { unfold canUseVisualRules. rewrite Hr. destruct (negb _); now eexists. }
  destruct Hcan as [can Hcan].
  destruct (agreed_commits c [] n (after w0 (kept_expr c) [])) as (w & Hw & [Hm _ Hg He Hru]); [easy|easy| |].
  - unfold after, w0, init_effect. cbn [deps_changed w_seen w_init negb andb w_expr w_rules].
    rewrite read_kept by easy. split; [easy|now right|easy|easy|easy].
  - exists w0, w. split; [easy|]. cbn [commits].
    rewrite (commit_after w0 can (kept_expr c) []); [easy|exact Hcan| |exact Hp].
    unfold effectiveExpr, w0. cbn [w_mode w_config]. rewrite read_kept by easy. f_equal. apply reread_generated.
Qed.

(** * Another model in the same editor *)

(** The parent's effect on [editData]: another model, its expression and its rules. *)
Definition switch_model (modelName : option jstr) (expr rules : jstr) (w : World) : World :=
  {| w_modelName := modelName; w_expr := expr; w_rules := rules; w_mode := w_mode w;
     w_config := w_config w; w_raw := w_raw w; w_groups := w_groups w; w_init := w_init w;
     w_seen := w_seen w |}.

(** The tiers and rules in the editor, whatever the parent holds. *)
Record shows (c : VisualConfig) (gs : list RequestRuleGroup) (w : World) : Prop := {
  sh_mode : w_mode w = Visual;
  sh_config : w_config w = Some c \/ w_config w = Some (reread c);
  sh_groups : w_groups w = gs
}.

Lemma shows_emits c gs w can :
  config_ok c -> shows c gs w -> canUseVisualRules (w_rules w) = Ret can ->
  deps_changed w && negb (w_init w) = false ->
  exists w', commit w = Ret w' /\ agreed c gs w'.
Proof.
  intros Hc [Hm Hcfg Hg] Hcan Hd.
  destruct (commit_emits w can Hcan Hm Hd) as (w' & H & (Sm & Sc & _ & Sg) & E & R).
  exists w'. split; [exact H|]. split; [congruence|now rewrite Sc|congruence| |congruence].
  rewrite E. destruct Hcfg as [-> | ->]; [easy|apply reread_generated].
Qed.

Lemma commits_model n : forall w w', commits n w = Ret w' -> w_modelName w' = w_modelName w.
Proof.
  induction n as [|n IH]; intros w w' H; [now injection H as <-|]. apply commits_S in H as (w1 & H1 & H).
  apply commit_inv in H1 as (_ & Hm & _). apply IH in H. congruence.
Qed.

Lemma commits_add n m w w1 : commits n w = Ret w1 -> commits (n + m) w = commits m w1.
Proof.
  revert w; induction n as [|n IH]; intros w H; [now injection H as <-|].
  apply commits_S in H as (w' & H1 & H). cbn [commits Nat.add]. rewrite H1. now apply IH.
Qed.

(** The initialisation from the props the old model was handed back. *)
Lemma reinit_shows c gs gs' w br :
  config_ok c -> Forall group_ok gs -> Forall group_ok gs' ->
  w_expr w = kept_expr c -> w_rules w = buildRequestRuleExpr gs -> w_groups w = gs' ->
  splitBillingExprAndRequestRules (w_raw w) = Ret br ->
  deps_changed w = true -> w_init w = false -> model_changed w = false ->
  exists w' can, commit w = Ret w' /\ shows c gs w' /\ w_init w' = true /\ canUseVisualRules (w_rules w') = Ret can.
Proof.
  intros Hc Hgs Hgs' He Hr Hg Hs Hd Hi Hm.
  assert (Heff : exists eff, effectiveExpr w = Ret eff).
  { unfold effectiveExpr. rewrite Hs. destruct (w_mode w); now eexists. }
  destruct Heff as [eff Heff]. exists (after w eff gs), true.
  rewrite (commit_after w true eff gs); [| |exact Heff|];
    [|rewrite Hr; now apply can_use_built|rewrite Hr; now apply parse_built].
  unfold after, init_effect. rewrite Hd, Hi, He, read_kept by easy. cbn [andb negb]. split; [easy|].
  split; [split; [easy|now right|easy]|]. cbn [w_init w_rules]. split.
  - unfold next_init. now rewrite Hm, Hd.
  - unfold emitted_rules. rewrite Hg, Hr. destruct (w_mode w); now apply can_use_built.
Qed.

(** when the panel goes over to another model while the editor shows the tiers of one,
    the new model's expression and rules are overwritten with those of the old model: the
    effect that hands the editor's expression to the parent runs before the editor has taken
    the new one over. *)
Theorem switch_overwritten w c gs model expr rules gs' br n :
  config_ok c -> Forall group_ok gs -> agreed c gs w ->
  w_seen w = Some (props w) -> option_seqb (w_modelName w) model = false ->
  tryParseRequestRuleExpr rules = Ret (Some gs') -> Forall group_ok gs' ->
  splitBillingExprAndRequestRules (combineBillingExpr expr rules) = Ret br ->
  exists w', commits (3 + n) (switch_model model expr rules w) = Ret w'
    /\ w_modelName w' = model /\ w_expr w' = kept_expr c /\ w_rules w' = buildRequestRuleExpr gs.
Proof.
  intros Hc Hgs [Hm Hcfg Hg He Hr] Hseen Hmod Hrules Hgs' Hsplit. set (s0 := switch_model model expr rules w).
  assert (Hcan : exists can, canUseVisualRules rules = Ret can).
  { unfold canUseVisualRules. rewrite Hrules. destruct (negb _); now eexists. }
  destruct Hcan as [can Hcan].
  enough (H : exists w', commits (3 + n) s0 = Ret w' /\ agreed c gs w').
  { destruct H as (w' & H & [_ _ _ He' Hr']). exists w'. now rewrite (commits_model _ _ _ H). }
  assert (Hsh : shows c gs s0) by now split.
  destruct (deps_changed s0 && negb (w_init s0)) eqn:Hd.
  - apply andb_true_iff in Hd as [Hd Hi]. apply negb_true_iff in Hi.
    assert (Hmc : model_changed s0 = true).
    { unfold model_changed, s0, switch_model. cbn. rewrite Hseen. cbn. now rewrite Hmod. }
    set (w1 := after s0 (kept_expr c) gs').
    assert (H1 : commit s0 = Ret w1).
    { apply (commit_after s0 can); [exact Hcan| |unfold parse_groups; cbn; now rewrite Hrules].
      unfold effectiveExpr, s0, switch_model. cbn [w_mode w_config]. rewrite Hm.
      destruct Hcfg as [-> | ->]; [easy|f_equal; apply reread_generated]. }
    assert (Hw1 : w1 = init_effect expr rules gs'
      {| w_modelName := model; w_expr := kept_expr c; w_rules := buildRequestRuleExpr gs; w_mode := w_mode w;
         w_config := w_config w; w_raw := w_raw w; w_groups := w_groups w; w_init := false;
         w_seen := Some (model, expr, rules) |}).
    { unfold w1, after, next_init. rewrite Hd, Hi, Hmc. cbn [andb negb]. unfold emitted_rules, s0. cbn.
      now rewrite Hm, Hg. }
    assert (Hd1 : deps_changed w1 = true).
    { revert Hd. unfold deps_changed. rewrite Hw1. unfold s0, switch_model. cbn. rewrite Hseen. cbn.
      now rewrite He, Hr, (seqb_sym expr), (seqb_sym rules). }
    destruct (reinit_shows c gs gs' w1 br) as (w2 & can2 & H2 & Hs2 & Hi2 & Hc2);
      [easy|easy|easy|now rewrite Hw1..|exact Hd1|now rewrite Hw1|now apply (model_settled s0)|].
    destruct (shows_emits c gs w2 can2 Hc Hs2 Hc2) as (w3 & H3 & Ha3); [now rewrite Hi2, andb_false_r|].
    destruct (agreed_commits c gs n w3 Hc Hgs Ha3) as (w' & Hw & Ha). exists w'. split; [|exact Ha].
    cbn [Nat.add commits]. rewrite H1. cbn [exc_bind]. rewrite H2. cbn [exc_bind]. now rewrite H3.
  - destruct (shows_emits c gs s0 can Hc Hsh Hcan Hd) as (w1 & H1 & Ha1).
    destruct (agreed_commits c gs (2 + n) w1 Hc Hgs Ha1) as (w' & Hw & Ha). exists w'. split; [|exact Ha].
    change (3 + n) with (S (2 + n)). cbn [commits]. now rewrite H1.
Qed.

(** * The raw editor *)

(** The editor opened on [expr], then in raw mode, then with [text] typed, each settled. *)
Definition raw_session (expr text : jstr) : exc World :=
  w <-! mount_editor (Some "m") expr [];
  w <-! commits 5 w;
  w <-! act (AMode Raw) w;
  w <-! commits 5 w;
  w <-! act (ARaw text) w;
  commits 5 w.

(** The first readable text typed in expression mode throws the user back to the visual
    editor: the initialisation that opening left armed runs at the first change of the
    parent's expression. *)
Theorem raw_edit_leaves_raw :
  exists w, raw_session (src "tier('base', p * 2 + c * 4)") (src "tier('base', p * 2 + c * 45)") = Ret w
    /\ w_mode w = Visual /\ w_expr w = src "tier('base', p * 2 + c * 45)".
Proof. eexists. split; [vm_compute; reflexivity|]. split; vm_compute; reflexivity. Qed.

(** * Presets *)

Definition all_presets : list Preset := List.concat (map snd PRESET_GROUPS).

Definition preset_engine (_ : jstr) (_ : list (jstr * number)) : jsval * jsval + jstr := inr "unexpected"%js.

(** Some of every kind of token, above and below the bounds of the presets. *)
Definition preset_tokens : list (number * number * ExtraTokenValues) :=
  let extra n := {| cacheReadTokens := of_Z n; cacheCreateTokens := of_Z (2 * n); cacheCreate1hTokens := of_Z n;
                    imageTokens := of_Z n; imageOutputTokens := of_Z 7; audioInputTokens := of_Z n;
                    audioOutputTokens := of_Z 11 |} in
  [ (of_Z 1000, of_Z 100, extra 10%Z); (of_Z 20000, of_Z 5000, extra 4000%Z);
    (of_Z 90000, of_Z 300, extra 5000%Z); (of_Z 250000, of_Z 100, extra 100%Z);
    (of_Z 300000, of_Z 8000, extra 30000%Z) ].

Definition same_cost (a b : jstr) : bool :=
  forallb (fun '(p, c, x) =>
    let ra := evalExprLocally preset_engine a p c x in
    let rb := evalExprLocally preset_engine b p c x in
    (er_cost ra =? er_cost rb)%num && strict_eq (er_matchedTier ra) (er_matchedTier rb)
    && match er_error ra, er_error rb with None, None => true | _, _ => false end) preset_tokens.

Definition preset_settles (p : Preset) : bool :=
  match (w <-! mount_editor (Some "m") [] []; w <-! commits 5 w; w <-! act (APreset p) w; commits 5 w) with
  | Ret w =>
    bool_decide (w_mode w = Visual) && (w_rules w =s buildRequestRuleExpr (ps_requestRules p))
    && (buildRequestRuleExpr (w_groups w) =s w_rules w) && (length (w_groups w) =? length (ps_requestRules p))
    && same_cost (w_expr w) (ps_expr p)
  | Throw => false
  end.

(** every preset opens in the visual editor: once the effects have settled the parent
    holds the text of its rules and an expression that costs, for tokens on both sides of
    every bound, what the text of the preset costs. *)
Theorem presets_open_visually : Forall (fun p => preset_settles p = true) all_presets.
Proof.
  apply List.Forall_forall, (List.forallb_forall preset_settles). vm_compute. reflexivity.
Qed.

(** * Well-formed tiers *)

Definition condition_shape (c : TierConditionInput) : Prop :=
  In (ti_var c) CONDITION_INPUT_OPTIONS /\ exists n, ti_value c = InNum n.

Record tier_shape (t : VisualTier) : Prop := {
  ts_fields : map fst (vt_extra t) = map fst BILLING_CACHE_VAR_MAP;
  ts_costs : Forall (fun fv => isNaN (snd fv) = false) (vt_extra t);
  ts_conditions : Forall condition_shape (vt_conditions t)
}.

Definition config_shape (c : VisualConfig) : Prop := vc_tiers c <> [] /\ Forall tier_shape (vc_tiers c).

(** What the controls can send: the select of a condition offers three variables. *)
Definition action_ok (a : TierAction) : Prop :=
  match a with TCondition _ _ (CVar v) => In v CONDITION_INPUT_OPTIONS | _ => True end.

Lemma normalized_shape t :
  Forall condition_shape (vt_conditions t) -> tier_shape (normalizeVisualTier (partial t)).
Proof.
  intros H. destruct (normalize_typed (partial t)) as (H1 & H2 & _ & _). now split.
Qed.

Lemma filter_index_Forall {A} (P : A -> Prop) i l : Forall P l -> Forall P (filter_index i l).
Proof. intros H. unfold filter_index. apply Forall_app. split; [now apply Forall_take|now apply Forall_drop]. Qed.

Lemma edit_shape e c :
  (forall v, e = CVar v -> In v CONDITION_INPUT_OPTIONS) -> condition_shape c ->
  condition_shape (edit_condition e c).
Proof. intros He [Hv [n Hn]]. destruct e; (split; [auto|cbn; eauto]). Qed.

Lemma bound_last_shape ts : Forall tier_shape ts -> Forall tier_shape (bound_last ts).
Proof.
  induction 1 as [|t ts Ht Hts IH]; [easy|]. destruct ts as [|t' ts].
  - cbn [bound_last]. destruct (vt_conditions t); (constructor; [|constructor]); [|exact Ht].
    apply normalized_shape, List.Forall_cons; [|constructor]. split; [now left|now eexists].
  - now constructor.
Qed.

Lemma tier_change_shape i t c :
  config_shape c -> Forall condition_shape (vt_conditions t) -> config_shape (handleTierChange i t c).
Proof.
  intros [Hne H] Ht. unfold handleTierChange, config_shape. cbn [vc_tiers]. split.
  - intros E. apply (f_equal length) in E. rewrite length_insert in E. now destruct (vc_tiers c).
  - apply Forall_insert; [easy|]. now apply normalized_shape.
Qed.

Lemma config_normalized_shape o :
  match o with Some c => config_shape c | None => True end -> config_shape (normalizeVisualConfig o).
Proof.
  intros H. unfold normalizeVisualConfig. destruct o as [[[|t ts]]|].
  - now destruct H.
  - destruct H as [_ H]. split; [easy|]. cbn [vc_tiers]. apply Forall_map.
    eapply Forall_impl; [exact H|]. intros t' [_ _ Hc]. now apply normalized_shape.
  - split; [easy|]. repeat constructor.
Qed.

(** every edit of the visual editor keeps the tiers well formed: at least one tier, each
    with its seven optional costs in order and none of them [NaN], and conditions on [p], [c]
    or [len] that hold a number. *)
Theorem visual_edit_shape o a c :
  match o with Some c0 => config_shape c0 | None => True end -> action_ok a ->
  visual_edit o a = Some c -> config_shape c.
Proof.
  intros Ho Ha. apply config_normalized_shape in Ho. unfold visual_edit.
  set (config := normalizeVisualConfig o) in *. pose proof Ho as [Hne Hts].
  assert (Hget : forall i t, vc_tiers config !! i = Some t -> Forall condition_shape (vt_conditions t)).
  { intros i t E. exact (ts_conditions _ (Forall_lookup_1 _ _ _ _ Hts E)). }
  assert (Hsame : forall i t t', vc_tiers config !! i = Some t -> vt_conditions t' = vt_conditions t ->
            config_shape (handleTierChange i t' config)).
  { intros i t t' E Et. apply tier_change_shape; [easy|]. rewrite Et. eauto. }
  destruct a as [i l|i j e|i j|i|i f v|i m| |i].
  - destruct (vc_tiers config !! i) as [t|] eqn:E; [|easy]. intros [= <-]. now apply (Hsame i t).
  - destruct (vc_tiers config !! i) as [t|] eqn:E; [|easy]. destruct (vt_conditions t !! j) as [cd|] eqn:Ej; [|easy].
    intros [= <-]. apply tier_change_shape; [easy|]. apply Forall_insert; [eauto|].
    apply edit_shape; [intros v' ->; exact Ha|]. exact (Forall_lookup_1 _ _ _ _ (Hget _ _ E) Ej).
  - destruct (vc_tiers config !! i) as [t|] eqn:E; [|easy]. destruct (j <? _); [|easy].
    intros [= <-]. apply tier_change_shape; [easy|]. apply filter_index_Forall. eauto.
  - unfold handleAddCondition. destruct (vc_tiers config !! i) as [t|] eqn:E; [|easy].
    destruct (2 <=? _); [easy|]. intros [= <-]. split.
    + intros E'. apply (f_equal length) in E'. cbn [vc_tiers] in E'. rewrite length_insert in E'.
      now destruct (vc_tiers config).
    + cbn [vc_tiers]. apply Forall_insert; [easy|]. pose proof (Forall_lookup_1 _ _ _ _ Hts E) as [H1 H2 H3].
      split; [easy|easy|]. apply Forall_app. split; [easy|]. apply List.Forall_cons; [|constructor].
      split; [destruct (memb _ _); cbn; tauto|now eexists].
  - destruct (vc_tiers config !! i) as [t|] eqn:E; [|easy]. intros [= <-]. apply (Hsame i t); [easy|].
    unfold handlePriceChange. now destruct (_ =s _); [|destruct (_ =s _)].
  - destruct (vc_tiers config !! i) as [t|] eqn:E; [|easy]. intros [= <-]. now apply (Hsame i t).
  - intros [= <-]. unfold handleAddTier. split; [cbn [vc_tiers]; now destruct (bound_last _)|]. cbn [vc_tiers].
    apply Forall_app. split; [now apply bound_last_shape|]. constructor; [|constructor].
    split; [easy| |constructor]. repeat constructor.
  - destruct ((_ <=? 1) || _); [easy|]. intros [= <-]. unfold handleRemoveTier.
    destruct (filter_index i (vc_tiers config)) as [|t ts] eqn:E; [easy|]. split; [easy|].
    cbn [vc_tiers]. rewrite <- E. now apply filter_index_Forall.
Qed.

(** * Adding a tier *)

Lemma not_dq_digit c : is_digit c = true -> cls_not_dq c = true.
Proof.
  unfold is_digit, cls_not_dq. rewrite andb_true_iff, !N.leb_le. intros H. apply negb_true_iff, N.eqb_neq. lia.
Qed.

Lemma new_tier_ok n : tier_ok (new_tier n).
Proof.
  split; [|constructor|number_text|number_text|reflexivity|].
  - cbn [new_tier normalizeVisualTier vt_label pa_label]. split; [easy|]. apply Forall_app.
    split; [repeat constructor|]. eapply Forall_impl; [apply digits_all|]. exact not_dq_digit.
  - repeat apply List.Forall_cons; try apply List.Forall_nil; number_text.
Qed.

Lemma bounded_ok t :
  tier_ok t -> tier_ok (normalizeVisualTier (partial (with_conditions [default_bound "len"] t))).
Proof.
  intros [Hl Hc Hi Ho Hf He]. unfold normalizeVisualTier, partial, with_conditions.
  cbn [pa_label pa_conditions pa_input pa_output pa_cache_mode pa_extra vt_label vt_conditions vt_input
       vt_output vt_cache_mode vt_extra].
  rewrite extra_again by easy. split; try easy. apply List.Forall_cons; [|constructor].
  split; [cbn; tauto|]. eexists. split; [reflexivity|]. number_text.
Qed.

Lemma bound_last_ok ts :
  Forall tier_ok ts -> chained ts -> ts <> [] ->
  Forall tier_ok (bound_last ts) /\ Forall (fun t => vt_conditions t <> []) (bound_last ts) /\ bound_last ts <> [].
Proof.
  induction 1 as [|t ts Ht Hts IH]; [easy|]. destruct ts as [|t' ts]; intros Hc _.
  - cbn in Hc. cbn [bound_last]. rewrite Hc. repeat split; try easy; (constructor; [|constructor]); [|easy].
    now apply bounded_ok.
  - destruct Hc as [Hc Hch]. destruct (IH Hch) as (H1 & H2 & H3); [easy|]. repeat split; try easy; now constructor.
Qed.

Lemma chained_snoc ts t :
  Forall (fun t => vt_conditions t <> []) ts -> vt_conditions t = [] -> chained (ts ++ [t]).
Proof.
  intros H Ht. induction H as [|u ts Hu Hts IH]; [exact Ht|]. cbn [app]. destruct ts as [|u' ts]; now split.
Qed.

(** Below the new bound the old fallback still applies, at the same price. *)
Lemma bounded_price env t :
  tier_ok t ->
  tier_price env (normalizeVisualTier (partial (with_conditions [default_bound "len"] t))) = tier_price env t.
Proof.
  intros [_ _ _ _ Hf He]. unfold tier_price, written_extra, tier_extra, normalizeVisualTier, partial, with_conditions.
  cbn [pa_label pa_conditions pa_input pa_output pa_cache_mode pa_extra vt_label vt_conditions vt_input
       vt_output vt_cache_mode vt_extra].
  now rewrite extra_again.
Qed.

Lemma find_bounded env new ts :
  (env_num "len" env <? of_Z 200000)%num = true -> Forall tier_ok ts -> chained ts -> ts <> [] ->
  config_price env (bound_last ts ++ new) = config_price env ts.
Proof.
  intros Hlen Hts. unfold config_price. induction Hts as [|t ts Ht Hts IH]; [easy|].
  intros Hc _. destruct ts as [|t' ts].
  - cbn in Hc. cbn [bound_last]. rewrite Hc. cbn [app List.find].
    set (t1 := normalizeVisualTier _).
    assert (Hh : forallb (condition_holds env) (vt_conditions t1) = true).
    { change (vt_conditions t1) with [default_bound "len"]. cbn [forallb condition_holds default_bound ti_var ti_op
        ti_value input_num]. now rewrite Hlen. }
    rewrite Hh, Hc. cbn [forallb]. f_equal. now apply bounded_price.
  - change (bound_last (t :: t' :: ts)) with (t :: bound_last (t' :: ts)). rewrite <- app_comm_cons.
    change (List.find ?f (t :: ?l)) with (if f t then Some t else List.find f l).
    cbv beta. destruct (forallb _ (vt_conditions t)); [easy|]. now apply IH; [destruct Hc|].
Qed.

Lemma add_tier_writable c : config_ok c -> config_ok (handleAddTier c).
Proof.
  unfold config_ok, handleAddTier. destruct c as [ts]. cbn [vc_tiers].
  assert (H : forall ts', ts' <> [] -> Forall tier_ok ts' -> Forall (fun t => vt_conditions t <> []) ts' ->
            match ts' ++ [new_tier (length ts')] with
            | [] => False | [t] => tier_ok t
            | tiers => Forall tier_ok tiers /\ chained tiers end).
  { intros ts' Hne H1 H2. pose proof (chained_snoc ts' (new_tier (length ts')) H2 eq_refl) as Hch.
    assert (Hall : Forall tier_ok (ts' ++ [new_tier (length ts')])).
    { apply Forall_app. split; [easy|]. constructor; [apply new_tier_ok|constructor]. }
    destruct (ts' ++ _) as [|t [|t' l]] eqn:E; [now destruct ts'| |now split].
    now apply Forall_cons_1 in Hall as [Hall _]. }
  destruct ts as [|t [|t' ts]]; [easy| |].
  - intros Ht. cbn [bound_last]. destruct (vt_conditions t) eqn:E.
    + apply H; [easy| |]; (constructor; [|constructor]); [now apply bounded_ok|easy].
    + apply H; [easy| |]; (constructor; [|constructor]); [easy|congruence].
  - intros [Hts Hc]. destruct (bound_last_ok _ Hts Hc) as (H1 & H2 & H3); [easy|]. now apply H.
Qed.

(** adding a tier keeps a configuration writable: the last tier, when it was the
    fallback, gets an upper bound and the new tier becomes the fallback; as long as the
    context is below that bound, the price and the tier that is reported stay the same. *)
Theorem add_tier_ok c :
  config_ok c ->
  config_ok (handleAddTier c)
  /\ (chained (vc_tiers c) -> forall env, (env_num "len" env <? of_Z 200000)%num = true ->
      config_price env (vc_tiers (handleAddTier c)) = config_price env (vc_tiers c)).
Proof.
  intros Hc. split; [now apply add_tier_writable|]. intros Hch env Hlen. unfold handleAddTier. cbn [vc_tiers].
  unfold config_ok in Hc. destruct (vc_tiers c) as [|t [|t' ts]]; [easy| |].
  - apply find_bounded; try easy. now constructor.
  - now apply find_bounded.
Qed.

(** * What the cards allow and the expression does not say *)

(** The conditions of the last of several tiers can be edited but are not written: the
    expression does not depend on them. *)
Theorem last_conditions_unwritten ts t cs :
  ts <> [] ->
  kept_expr {| vc_tiers := ts ++ [with_conditions cs t] |} = kept_expr {| vc_tiers := ts ++ [t] |}.
Proof.
  intros Hne.
  assert (H : forall ts i n, i + length ts + 1 = n ->
            tier_parts i n (ts ++ [with_conditions cs t]) = tier_parts i n (ts ++ [t])).
  { clear. intros ts. induction ts as [|u ts IH]; intros i n Hn.
    - cbn [app tier_parts length] in *. replace (i <? n - 1) with false by (symmetry; apply Nat.ltb_ge; lia). easy.
    - cbn [app tier_parts length] in *. rewrite IH by lia. easy. }
  unfold kept_expr, generateExprFromVisualConfig. cbn [vc_tiers].
  destruct ts as [|u [|u' ts]]; [easy| |].
  - specialize (H [u] 0 2 eq_refl). cbn [app length] in *. now rewrite H.
  - specialize (H (u :: u' :: ts) 0 (length ((u :: u' :: ts) ++ [t]))). cbn [app] in *.
    rewrite !length_cons, !length_app in *. cbn [length] in *. rewrite H; [easy|lia].
Qed.

Lemma parts_any i n ts :
  i + length ts = n -> Forall tier_ok ts -> List.last (map vt_conditions ts) [] = [] ->
  tier_parts i n ts = map part_text ts.
Proof.
  intros Hn Hts; revert i Hn; induction Hts as [|t ts Ht Hts IH]; intros i Hn Hl; [easy|].
  cbn [tier_parts map length] in *. cbv zeta. pose proof Ht as [[Hlb _] Hcs _ _ _ _].
  rewrite label_kept by easy. unfold part_text at 1. destruct ts as [|t' ts].
  - cbn in Hl. rewrite Hl. cbn [length] in Hn. cbn [buildConditionStr List.filter map join truthy].
    now rewrite andb_false_r.
  - rewrite IH by (cbn [length] in *; first [lia|exact Hl]). f_equal.
    replace (i <? n - 1) with true by (symmetry; apply Nat.ltb_lt; cbn [length] in Hn; lia).
    destruct (vt_conditions t) as [|c cs]; [easy|]. now rewrite build_nonempty by easy.
Qed.

Lemma last_tail {A} (l : list A) x r d : List.last (l ++ x :: r) d = List.last (x :: r) d.
Proof. induction l as [|y l IH]; [easy|]. cbn [app]. rewrite <- IH. now destruct l. Qed.

Lemma tokens_split pre t ts :
  part_tokens (List.hd t pre) ++ chain_tokens (List.tl (pre ++ t :: ts)) =
  flat_map (fun u => part_tokens u ++ [TPunct PColon]) pre ++ part_tokens t ++ chain_tokens ts.
Proof.
  destruct pre as [|u pre]; [easy|]. cbn [List.hd List.tl app flat_map]. revert u.
  induction pre as [|u' pre IH]; intros u.
  - cbn [app flat_map]. now rewrite <- !app_assoc.
  - cbn [app flat_map] in *. change (chain_tokens (u' :: pre ++ t :: ts))
      with (TPunct PColon :: part_tokens u' ++ chain_tokens (pre ++ t :: ts)).
    rewrite IH. now rewrite <- !app_assoc.
Qed.

(** a tier without conditions in front of others makes the expression no expression at
    all: its text goes on behind a complete one, and the estimator has nothing but an error
    of the engine to show. *)
Theorem middle_fallback_invalid pre t ts :
  ts <> [] -> Forall tier_ok (pre ++ t :: ts) -> Forall tier_runs (pre ++ t :: ts) ->
  Forall (fun u => vt_conditions u <> []) pre -> vt_conditions t = [] ->
  List.last (map vt_conditions ts) [] = [] ->
  parse_text (kept_expr {| vc_tiers := pre ++ t :: ts |}) = None.
Proof.
  intros Hne Hok Hruns Hpre Ht Hlast. set (all := pre ++ t :: ts) in *.
  assert (Hall : all = List.hd t pre :: List.tl all) by (unfold all; now destruct pre).
  assert (Hlen : 2 <= length all) by (unfold all; rewrite length_app; destruct ts; cbn [length]; [easy|lia]).
  assert (Hl : List.last (map vt_conditions all) [] = []).
  { unfold all. rewrite map_app. cbn [map]. destruct ts as [|t' ts]; [easy|].
    cbn [map]. rewrite last_tail. exact Hlast. }
  assert (Htext : kept_expr {| vc_tiers := all |} = join " : " (map part_text all)).
  { unfold kept_expr, generateExprFromVisualConfig. cbn [vc_tiers].
    destruct all as [|u [|u' l]] eqn:E; [easy|cbn in Hlen; lia|]. now rewrite (parts_any 0 _ (u :: u' :: l)). }
  assert (Hj : join " : " (map part_text all) =
            part_text (List.hd t pre) ++ List.concat (map (fun t => " : " ++ part_text t) (List.tl all))).
  { rewrite <- join_parts. f_equal. f_equal. exact Hall. }
  rewrite Hj in Htext.
  unfold parse_text, tokens. rewrite Htext. rewrite Hall in Hok, Hruns. apply Forall_cons_1 in Hok as [Hu Hus], Hruns as [Hr Hrs].
  destruct (lexes_chain (List.tl all) Hus Hrs) as [Hc Hs].
  rewrite (lexes_part _ _ _ Hu Hr Hs Hc) by easy. unfold all. rewrite tokens_split.
  destruct (parse_cut pre t ts (length (flat_map (fun u => part_tokens u ++ [TPunct PColon]) pre
              ++ part_tokens t ++ chain_tokens ts))) as [e He]; [easy|easy| |].
  - rewrite !length_app. pose proof (part_fuel t).
    assert (Hp : length pre <= length (flat_map (fun u => part_tokens u ++ [TPunct PColon]) pre)).
    { clear. induction pre as [|u pre IH]; cbn [flat_map length]; [lia|]. rewrite !length_app. cbn [length]. lia. }
    lia.
  - rewrite He. now destruct ts.
Qed.

(** * Number inputs show what they hand over *)

Lemma parsed_finite s : isFinite (parseNumberDraft s) = true.
Proof.
  unfold parseNumberDraft. destruct (negb _); [easy|]. now destruct (isFinite (Number_str s)) eqn:E.
Qed.

(** The number the parent keeps is finite, and an input without focus shows it. *)
Lemma draft_shows v es :
  isFinite v = true ->
  let '(s, v') := draft_run v es in
  isFinite v' = true /\ (focused s = false -> draft s = num_to_string v').
Proof.
  intros Hv. unfold draft_run.
  assert (H : forall sv, isFinite (snd sv) = true ->
            (focused (fst sv) = false -> draft (fst sv) = num_to_string (snd sv)) ->
            let '(s, v') := fold_left draft_step es sv in
            isFinite v' = true /\ (focused s = false -> draft s = num_to_string v')).
  { induction es as [|e es IH]; intros [s x] Hx Hs; [easy|]. cbn [fold_left]. apply IH; cbn [fst snd] in *.
    - destruct e; cbn; try exact Hx; apply parsed_finite.
    - destruct e as [|t|]; cbn [draft_step draft_focus draft_change draft_blur fst snd];
        unfold draft_sync, price_field; cbn [focused draft].
      + easy.
      + destruct (focused s) eqn:Ef; [easy|]. intros _. cbn [draft formatNumberDraft].
        now rewrite parsed_finite, parsed_finite.
      + intros _. cbn [draft formatNumberDraft]. now rewrite parsed_finite, parsed_finite. }
  apply H; [exact Hv|]. intros _. cbn. now rewrite Hv, Hv.
Qed.

(** * Witnesses *)

Definition nested_text : jstr :=
  src "len <= 128000 ? tier('standard', p * 1.1 + c * 4.4) : (len <= 1000000 ? tier('medium', p * 2.2 + c * 8.8) : tier('long', p * 4.4 + c * 17.6))".

Definition sample_world : World :=
  {| w_modelName := Some "a"%js; w_expr := kept_expr (reread sample_config);
     w_rules := buildRequestRuleExpr sample_groups; w_mode := Visual; w_config := Some (reread sample_config);
     w_raw := []; w_groups := sample_groups; w_init := false;
     w_seen := Some (Some "a"%js, kept_expr (reread sample_config), buildRequestRuleExpr sample_groups) |}.

Lemma effects_settle_witness :
  exists w w5 w6, commits 5 w = Ret w5 /\ commit w5 = Ret w6 /\ w6 = w5
    /\ effectiveExpr w5 = Ret (w_expr w5)
    /\ (w_mode w5 = Visual -> w_rules w5 = buildRequestRuleExpr (w_groups w5)).
Proof.
  exists sample_world. eexists _, _. split; [vm_compute; reflexivity|]. split; [vm_compute; reflexivity|].
  eapply (effects_settle sample_world); vm_compute; reflexivity.
Defined.

Lemma open_unchanged_witness :
  exists w0 w, mount_editor None (kept_expr sample_config) (buildRequestRuleExpr sample_groups) = Ret w0
    /\ commits 3 w0 = Ret w /\ w_expr w = kept_expr sample_config
    /\ w_rules w = buildRequestRuleExpr sample_groups
    /\ w_mode w = Visual /\ w_config w = Some (reread sample_config) /\ w_groups w = sample_groups.
Proof.
  apply (open_unchanged None sample_config sample_groups 3); [exact sample_config_ok|exact sample_ok].
Defined.

Lemma edit_reaches_parent_witness :
  let c := handleAddTier (normalizeVisualConfig (Some (reread sample_config))) in
  exists w', commits 2 (set_config c sample_world) = Ret w' /\ w_expr w' = kept_expr c
    /\ w_rules w' = buildRequestRuleExpr sample_groups /\ w_mode w' = Visual
    /\ (w_config w' = Some c \/ w_config w' = Some (reread c)) /\ w_groups w' = sample_groups.
Proof.
  intros c. apply (edit_reaches_parent (ATier TAddTier) sample_world (set_config c sample_world) true c sample_groups 1).
  - reflexivity.
  - vm_compute. reflexivity.
  - apply can_use_built, sample_ok.
  - exact I.
  - reflexivity.
  - reflexivity.
  - reflexivity.
  - apply add_tier_writable. change (config_ok (normalizeVisualConfig (Some {| vc_tiers := map reread_tier (vc_tiers sample_config) |}))).
    rewrite normalize_config; [exact (config_ok_reread sample_config sample_config_ok)|easy|].
    exact (proj1 sample_config_ok).
  - exact sample_ok.
Defined.

Lemma complex_expression_lost_witness :
  exists w0 w, mount_editor None nested_text [] = Ret w0 /\ commits 5 w0 = Ret w /\ fixed w
    /\ w_expr w = no_price /\ w_rules w = [] /\ w_raw w = no_price /\ w_mode w = Raw.
Proof.
  eapply (complex_expression_lost None nested_text); [easy|easy|vm_compute; reflexivity|vm_compute; reflexivity].
Defined.

Lemma complex_rules_lost_witness :
  exists w0 w, mount_editor None (kept_expr sample_config) (src "max(1, param('n') * 2)") = Ret w0
    /\ commits 5 w0 = Ret w /\ w_rules w = [] /\ w_groups w = [] /\ w_expr w = kept_expr sample_config
    /\ w_mode w = Visual.
Proof.
  apply (complex_rules_lost None sample_config (src "max(1, param('n') * 2)") 4);
    [exact sample_config_ok|vm_compute; reflexivity].
Defined.

Lemma switch_overwritten_witness :
  exists w', commits 5 (switch_model (Some "b"%js) (src "tier('base', p * 1 + c * 2)") [] sample_world) = Ret w'
    /\ w_modelName w' = Some "b"%js /\ w_expr w' = kept_expr (reread sample_config)
    /\ w_rules w' = buildRequestRuleExpr sample_groups.
Proof.
  eapply (switch_overwritten sample_world (reread sample_config) sample_groups (Some "b"%js)
            (src "tier('base', p * 1 + c * 2)") [] [] _ 2).
  - exact (config_ok_reread sample_config sample_config_ok).
  - exact sample_ok.
  - split; try reflexivity. now left.
  - reflexivity.
  - reflexivity.
  - reflexivity.
  - constructor.
  - vm_compute. reflexivity.
Defined.

Lemma visual_edit_shape_witness : config_shape (handleAddTier createDefaultVisualConfig).
Proof. apply (visual_edit_shape None TAddTier); [exact I|exact I|vm_compute; reflexivity]. Defined.

Lemma add_tier_ok_witness :
  config_ok (handleAddTier sample_config)
  /\ (chained (vc_tiers sample_config) -> forall env, (env_num "len" env <? of_Z 200000)%num = true ->
      config_price env (vc_tiers (handleAddTier sample_config)) = config_price env (vc_tiers sample_config)).
Proof. apply (add_tier_ok sample_config). exact sample_config_ok. Defined.

Lemma last_conditions_unwritten_witness :
  kept_expr {| vc_tiers := [new_tier 1] ++ [with_conditions [default_bound "len"] (new_tier 2)] |} =
  kept_expr {| vc_tiers := [new_tier 1] ++ [new_tier 2] |}.
Proof. apply (last_conditions_unwritten [new_tier 1] (new_tier 2) [default_bound "len"]). easy. Defined.

Lemma new_tier_runs n : tier_runs (new_tier n).
Proof.
  split; [|constructor|literal_text|literal_text|].
  - apply Forall_app. split; [repeat constructor|]. eapply Forall_impl; [apply digits_all|].
    intros c Hc. unfold is_digit in Hc. apply andb_true_iff in Hc as [H1 H2]. apply N.leb_le in H1, H2.
    repeat rewrite negb_orb. repeat (apply andb_true_iff; split); apply negb_true_iff, N.eqb_neq; lia.
  - repeat apply List.Forall_cons; try apply List.Forall_nil; literal_text.
Qed.

Lemma middle_fallback_invalid_witness :
  parse_text (kept_expr {| vc_tiers := [] ++ new_tier 0 :: [new_tier 1] |}) = None.
Proof.
  apply (middle_fallback_invalid [] (new_tier 0) [new_tier 1]); [easy| | |constructor|reflexivity|reflexivity].
  - apply List.Forall_cons, List.Forall_cons, List.Forall_nil; apply new_tier_ok.
  - apply List.Forall_cons, List.Forall_cons, List.Forall_nil; apply new_tier_runs.
Defined.
