(* ===== verification/PricingSheet.v ===== *)
(** Model of the sheet of one model's prices,
    [web/default/src/features/system-settings/models/model-pricing-sheet.tsx]: the prices
    of the lanes and the ratios that are saved for them, the handlers of
    [ModelPricingEditorPanel], its warnings and what it submits.

    The panel keeps prices for the reader and ratios for the server; a handler sets both.
    Every producer of a [ModelRatioData] sets its eight price fields to strings, so they
    are strings here.  Translation is the parameter [t]; the folding of the preview and the
    error texts shown beside the fields are not modelled. *)

From S2P Require Import Prelude Number Regex Json BillingExpr TierExpr.
From stdpp Require Import options.

(** * Data *)

Inductive PricingMode := PerToken | PerRequest | TieredExpr.
Inductive LaneKey := Completion | Cache | CreateCache | Image | AudioInput | AudioOutput.
Inductive PriceField :=
| FPrice | FRatio | FCacheRatio | FCreateCacheRatio | FCompletionRatio | FImageRatio
| FAudioRatio | FAudioCompletionRatio.

#[export] Instance pricing_mode_eq_dec : EqDecision PricingMode.
Proof. solve_decision. Defined.
#[export] Instance lane_key_eq_dec : EqDecision LaneKey.
Proof. solve_decision. Defined.
#[export] Instance price_field_eq_dec : EqDecision PriceField.
Proof. solve_decision. Defined.

(** [Record<LaneKey, A>] *)
Record Lanes (A : Type) := {
  l_completion : A; l_cache : A; l_createCache : A; l_image : A; l_audioInput : A; l_audioOutput : A
}.
Arguments l_completion {A}. Arguments l_cache {A}. Arguments l_createCache {A}.
Arguments l_image {A}. Arguments l_audioInput {A}. Arguments l_audioOutput {A}.
Arguments Build_Lanes {A}.

Definition lane {A} (k : LaneKey) (l : Lanes A) : A :=
  match k with
  | Completion => l_completion l | Cache => l_cache l | CreateCache => l_createCache l
  | Image => l_image l | AudioInput => l_audioInput l | AudioOutput => l_audioOutput l
  end.

Definition lanes_of {A} (f : LaneKey -> A) : Lanes A :=
  {| l_completion := f Completion; l_cache := f Cache; l_createCache := f CreateCache;
     l_image := f Image; l_audioInput := f AudioInput; l_audioOutput := f AudioOutput |}.

(** [{ ...l, [k]: x }] *)
Definition set_lane {A} (k : LaneKey) (x : A) (l : Lanes A) : Lanes A :=
  lanes_of (fun j => if decide (j = k) then x else lane j l).

(** The eight values a model has besides its name and its expression. *)
Record Prices (A : Type) := {
  p_price : A; p_ratio : A; p_cacheRatio : A; p_createCacheRatio : A; p_completionRatio : A;
  p_imageRatio : A; p_audioRatio : A; p_audioCompletionRatio : A
}.
Arguments p_price {A}. Arguments p_ratio {A}. Arguments p_cacheRatio {A}.
Arguments p_createCacheRatio {A}. Arguments p_completionRatio {A}. Arguments p_imageRatio {A}.
Arguments p_audioRatio {A}. Arguments p_audioCompletionRatio {A}. Arguments Build_Prices {A}.

Definition field {A} (f : PriceField) (p : Prices A) : A :=
  match f with
  | FPrice => p_price p | FRatio => p_ratio p | FCacheRatio => p_cacheRatio p
  | FCreateCacheRatio => p_createCacheRatio p | FCompletionRatio => p_completionRatio p
  | FImageRatio => p_imageRatio p | FAudioRatio => p_audioRatio p
  | FAudioCompletionRatio => p_audioCompletionRatio p
  end.

Definition prices_of {A} (f : PriceField -> A) : Prices A :=
  {| p_price := f FPrice; p_ratio := f FRatio; p_cacheRatio := f FCacheRatio;
     p_createCacheRatio := f FCreateCacheRatio; p_completionRatio := f FCompletionRatio;
     p_imageRatio := f FImageRatio; p_audioRatio := f FAudioRatio;
     p_audioCompletionRatio := f FAudioCompletionRatio |}.

Definition set_field {A} (f : PriceField) (x : A) (p : Prices A) : Prices A :=
  prices_of (fun g => if decide (g = f) then x else field g p).

Record ModelRatioData := {
  d_name : jstr;
  d_prices : Prices jstr;
  d_billingMode : option PricingMode;
  d_billingExpr : option jstr;
  d_requestRuleExpr : option jstr
}.

Record FormValues := { v_name : jstr; v_prices : Prices jstr }.

Definition numericDraftRegex : re :=
  RBol @;
  ROpt (RAlt (RPlus (RChr is_digit) @; ROpt (RLit "." @; RStar (RChr is_digit)))
             (RLit "." @; RStar (RChr is_digit))) @;
  REol.

Definition EMPTY_LANE_PRICES : Lanes jstr := lanes_of (fun _ => []).
Definition EMPTY_LANE_ENABLED : Lanes bool := lanes_of (fun _ => false).

Definition ratioFieldByLane (k : LaneKey) : PriceField :=
  match k with
  | Completion => FCompletionRatio | Cache => FCacheRatio | CreateCache => FCreateCacheRatio
  | Image => FImageRatio | AudioInput => FAudioRatio | AudioOutput => FAudioCompletionRatio
  end.

(** The lanes in the order of [laneConfigs]. *)
Definition laneConfigs : list LaneKey := [Completion; Cache; CreateCache; Image; AudioInput; AudioOutput].

(** * Conversions *)

Definition hasValue (value : jstr) : bool := truthy value.

(** The argument is a string or a number; every number has a value. *)
Definition toNumberOrNull (value : InputValue) : option number :=
  match value with
  | InText s =>
    if negb (hasValue s) then None
    else let num := Number_str s in if isFinite num then Some num else None
  | InNum n => if isFinite n then Some n else None
  end.

Definition formatNumber (value : InputValue) : jstr :=
  match toNumberOrNull value with
  | None => []
  | Some num => num_to_string (parseFloat (toFixed 12 num))
  end.

Definition two : number := of_Z 2.

Definition ratioToBasePrice (ratio : jstr) : jstr :=
  match toNumberOrNull (InText ratio) with
  | None => []
  | Some num => formatNumber (InNum (num * two)%num)
  end.

Definition deriveLanePrice (ratio denominator : jstr) : jstr :=
  match toNumberOrNull (InText ratio), toNumberOrNull (InText denominator) with
  | Some r, Some d => formatNumber (InNum (r * d)%num)
  | _, _ => []
  end.

(** The prompt price, the prices and the switches of the lanes. *)
Definition createInitialLaneState (data : option ModelRatioData) : jstr * Lanes jstr * Lanes bool :=
  match data with
  | None => ([], EMPTY_LANE_PRICES, EMPTY_LANE_ENABLED)
  | Some d =>
    let p := d_prices d in
    let promptPrice := ratioToBasePrice (p_ratio p) in
    let audioInputPrice := deriveLanePrice (p_audioRatio p) promptPrice in
    (promptPrice,
     {| l_completion := deriveLanePrice (p_completionRatio p) promptPrice;
        l_cache := deriveLanePrice (p_cacheRatio p) promptPrice;
        l_createCache := deriveLanePrice (p_createCacheRatio p) promptPrice;
        l_image := deriveLanePrice (p_imageRatio p) promptPrice;
        l_audioInput := audioInputPrice;
        l_audioOutput := deriveLanePrice (p_audioCompletionRatio p) audioInputPrice |},
     {| l_completion := hasValue (p_completionRatio p);
        l_cache := hasValue (p_cacheRatio p);
        l_createCache := hasValue (p_createCacheRatio p);
        l_image := hasValue (p_imageRatio p);
        l_audioInput := hasValue (p_audioRatio p);
        l_audioOutput := hasValue (p_audioCompletionRatio p) |})
  end.

Definition getModeLabel (mode : PricingMode) : jstr :=
  match mode with PerRequest => "Per-request" | TieredExpr => "Expression" | PerToken => "Per-token" end.

Definition getModeBadgeVariant (mode : PricingMode) : jstr :=
  match mode with PerRequest => "secondary" | TieredExpr => "default" | PerToken => "outline" end.

(** * The preview *)

Record PreviewRow := { pr_key : jstr; pr_label : jstr; pr_value : jstr; pr_multiline : bool }.

Section Translated.
Context (t : jstr -> jstr).

Definition row (key label value : jstr) : PreviewRow :=
  {| pr_key := key; pr_label := label; pr_value := value; pr_multiline := false |}.

Definition dollars (shown : bool) (price : jstr) : jstr :=
  if shown && truthy price then "$" ++ price else t "Empty".

Definition buildPreviewRows (values : Prices jstr) (mode : PricingMode) (billingExpr requestRuleExpr promptPrice : jstr)
  (lanePrices : Lanes jstr) (laneEnabled : Lanes bool) : list PreviewRow :=
  let lane_row key label k := row key (t label) (dollars (lane k laneEnabled) (lane k lanePrices)) in
  match mode with
  | TieredExpr =>
    let effectiveExpr := combineBillingExpr billingExpr requestRuleExpr in
    [ row "mode" "BillingMode" "tiered_expr";
      {| pr_key := "expr"; pr_label := t "Expression"; pr_value := str_or effectiveExpr (t "Empty");
         pr_multiline := true |} ]
  | PerRequest => [ row "price" "ModelPrice" (str_or (p_price values) (t "Empty")) ]
  | PerToken =>
    [ row "inputPrice" (t "Input price") (dollars true promptPrice);
      lane_row "completion" "Completion price" Completion;
      lane_row "cache" "Cache read price" Cache;
      lane_row "createCache" "Cache write price" CreateCache;
      lane_row "image" "Image input price" Image;
      lane_row "audio" "Audio input price" AudioInput;
      lane_row "audioCompletion" "Audio output price" AudioOutput ]
  end.

End Translated.

(** * The panel *)

Record Sheet := {
  ps_mode : PricingMode;
  ps_prompt : jstr;
  ps_lanes : Lanes jstr;
  ps_enabled : Lanes bool;
  ps_expr : jstr;
  ps_rules : jstr;
  ps_form : FormValues;
  ps_defaults : FormValues           (* what [form.reset()] goes back to *)
}.

Definition empty_form : FormValues := {| v_name := []; v_prices := prices_of (fun _ => []) |}.

(** The effect on [editData]: it sets the whole state. *)
Definition load (editData : option ModelRatioData) : Sheet :=
  let '(promptPrice, prices, enabled) := createInitialLaneState editData in
  match editData with
  | Some d =>
    let values := {| v_name := d_name d; v_prices := d_prices d |} in
    {| ps_mode := if decide (d_billingMode d = Some TieredExpr) then TieredExpr
                  else if truthy (p_price (d_prices d)) then PerRequest else PerToken;
       ps_prompt := promptPrice; ps_lanes := prices; ps_enabled := enabled;
       ps_expr := or_empty (d_billingExpr d); ps_rules := or_empty (d_requestRuleExpr d);
       ps_form := values; ps_defaults := values |}
  | None =>
    {| ps_mode := PerToken; ps_prompt := promptPrice; ps_lanes := prices; ps_enabled := enabled;
       ps_expr := []; ps_rules := []; ps_form := empty_form; ps_defaults := empty_form |}
  end.

Definition setFormValue (f : PriceField) (value : jstr) (form : FormValues) : FormValues :=
  {| v_name := v_name form; v_prices := set_field f value (v_prices form) |}.

(** The ratio of a price to the price it is relative to. *)
Definition deriveLaneRatio (k : LaneKey) (price nextPromptPrice : jstr) (nextLanePrices : Lanes jstr) : jstr :=
  match toNumberOrNull (InText price) with
  | None => []
  | Some priceNumber =>
    let base := match k with AudioOutput => l_audioInput nextLanePrices | _ => nextPromptPrice end in
    match toNumberOrNull (InText base) with
    | None => []
    | Some b => if (b =? zero)%num then [] else formatNumber (InNum (priceNumber / b)%num)
    end
  end.

Definition promptRatio (promptPrice : jstr) : jstr :=
  match toNumberOrNull (InText promptPrice) with
  | None => []
  | Some n => formatNumber (InNum (n / two)%num)
  end.

(** The ratio a lane is saved with. *)
Definition laneRatio (prompt : jstr) (prices : Lanes jstr) (enabled : Lanes bool) (k : LaneKey) : jstr :=
  if lane k enabled then deriveLaneRatio k (lane k prices) prompt prices else [].

Definition syncLaneRatios (nextPromptPrice : jstr) (nextLanePrices : Lanes jstr) (nextLaneEnabled : Lanes bool)
  (form : FormValues) : FormValues :=
  fold_left (fun f k => setFormValue (ratioFieldByLane k)
                          (laneRatio nextPromptPrice nextLanePrices nextLaneEnabled k) f)
    laneConfigs (setFormValue FRatio (promptRatio nextPromptPrice) form).

Definition with_lanes (prices : Lanes jstr) (enabled : Lanes bool) (form : FormValues) (s : Sheet) : Sheet :=
  {| ps_mode := ps_mode s; ps_prompt := ps_prompt s; ps_lanes := prices; ps_enabled := enabled;
     ps_expr := ps_expr s; ps_rules := ps_rules s; ps_form := form; ps_defaults := ps_defaults s |}.

Definition handlePromptPriceChange (value : jstr) (s : Sheet) : Sheet :=
  if negb (re_test numericDraftRegex value) then s
  else
    {| ps_mode := ps_mode s; ps_prompt := value; ps_lanes := ps_lanes s; ps_enabled := ps_enabled s;
       ps_expr := ps_expr s; ps_rules := ps_rules s;
       ps_form := syncLaneRatios value (ps_lanes s) (ps_enabled s) (ps_form s);
       ps_defaults := ps_defaults s |}.

Definition handleLanePriceChange (k : LaneKey) (value : jstr) (s : Sheet) : Sheet :=
  if negb (re_test numericDraftRegex value) then s
  else
    let nextLanePrices := set_lane k value (ps_lanes s) in
    let form := if lane k (ps_enabled s) then
                  setFormValue (ratioFieldByLane k) (deriveLaneRatio k value (ps_prompt s) nextLanePrices) (ps_form s)
                else ps_form s in
    let form := if bool_decide (k = AudioInput) && l_audioOutput (ps_enabled s) then
                  setFormValue FAudioCompletionRatio
                    (deriveLaneRatio AudioOutput (l_audioOutput nextLanePrices) (ps_prompt s) nextLanePrices) form
                else form in
    with_lanes nextLanePrices (ps_enabled s) form s.

Definition handleLaneToggle (k : LaneKey) (checked : bool) (s : Sheet) : Sheet :=
  let nextEnabled := set_lane k checked (ps_enabled s) in
  if checked then
    with_lanes (ps_lanes s) nextEnabled
      (setFormValue (ratioFieldByLane k)
         (deriveLaneRatio k (lane k (ps_lanes s)) (ps_prompt s) (ps_lanes s)) (ps_form s)) s
  else
    let nextPrices := set_lane k [] (ps_lanes s) in
    let form := setFormValue (ratioFieldByLane k) [] (ps_form s) in
    if decide (k = AudioInput) then
      with_lanes (set_lane AudioOutput [] nextPrices) (set_lane AudioOutput false nextEnabled)
        (setFormValue FAudioCompletionRatio [] form) s
    else with_lanes nextPrices nextEnabled form s.

Definition with_tiers (mode : PricingMode) (expr rules : jstr) (s : Sheet) : Sheet :=
  {| ps_mode := mode; ps_prompt := ps_prompt s; ps_lanes := ps_lanes s; ps_enabled := ps_enabled s;
     ps_expr := expr; ps_rules := rules; ps_form := ps_form s; ps_defaults := ps_defaults s |}.

Definition handleModeChange (nextMode : PricingMode) (s : Sheet) : Sheet :=
  let expr := if bool_decide (nextMode = TieredExpr) && negb (truthy (ps_expr s))
              then map (fun c => if (c =? 39)%N then dquote else c) "tier('base', p * 0 + c * 0)"
              else ps_expr s in
  with_tiers nextMode expr (ps_rules s) s.

(** The field of the fixed price. *)
Definition handleFixedPrice (value : jstr) (s : Sheet) : Sheet :=
  if re_test numericDraftRegex value then
    with_lanes (ps_lanes s) (ps_enabled s) (setFormValue FPrice value (ps_form s)) s
  else s.

Definition handleName (value : jstr) (s : Sheet) : Sheet :=
  with_lanes (ps_lanes s) (ps_enabled s) {| v_name := value; v_prices := v_prices (ps_form s) |} s.

(** * Warnings and submission *)

Definition dependent_prices (s : Sheet) : bool :=
  existsb (fun k => lane k (ps_enabled s) && hasValue (lane k (ps_lanes s))) laneConfigs.

Definition prompt_missing (s : Sheet) : bool :=
  bool_decide (ps_mode s = PerToken)
  && bool_decide (toNumberOrNull (InText (ps_prompt s)) = None) && dependent_prices s.

Definition audio_missing (s : Sheet) : bool :=
  bool_decide (ps_mode s = PerToken)
  && l_audioOutput (ps_enabled s) && negb (hasValue (l_audioInput (ps_lanes s))).

Definition hasConflict (editData : option ModelRatioData) : bool :=
  match editData with
  | None => false
  | Some d =>
    let p := d_prices d in
    truthy (p_price p)
    && existsb hasValue [p_ratio p; p_completionRatio p; p_cacheRatio p; p_createCacheRatio p;
                         p_imageRatio p; p_audioRatio p; p_audioCompletionRatio p]
  end.

Section Messages.
Context (t : jstr -> jstr).

Definition MISSING_INPUT : jstr := t "Input price is required before saving dependent prices.".
Definition MISSING_AUDIO : jstr := t "Audio output price requires an audio input price.".

Definition warnings (editData : option ModelRatioData) (s : Sheet) : list jstr :=
  (if hasConflict editData
   then [t ("This model has both fixed-price and token-price settings. Saving the current mode will "
            ++ "rewrite the conflicting fields.")] else [])
  ++ (if prompt_missing s then [MISSING_INPUT] else [])
  ++ (if audio_missing s then [MISSING_AUDIO] else []).

(** The error that is set, if any: its field and message. *)
Definition validatePricingValues (s : Sheet) : option (PriceField * jstr) :=
  if prompt_missing s then Some (FRatio, MISSING_INPUT)
  else if audio_missing s then Some (FAudioRatio, MISSING_AUDIO)
  else None.

Definition buildSubmitData (s : Sheet) (values : FormValues) : ModelRatioData :=
  let tiered := bool_decide (ps_mode s = TieredExpr) in
  {| d_name := trim (v_name values); d_prices := v_prices values; d_billingMode := Some (ps_mode s);
     d_billingExpr := if tiered then Some (ps_expr s) else None;
     d_requestRuleExpr := if tiered then Some (ps_rules s) else None |}.

(** The schema: a name of at least one unit. *)
Definition form_valid (values : FormValues) : bool := truthy (v_name values).

Definition commitDraft (s : Sheet) : option ModelRatioData :=
  if negb (form_valid (ps_form s)) then None
  else match validatePricingValues s with
       | Some _ => None
       | None => Some (buildSubmitData s (ps_form s))
       end.

(** Submitting: what [onSave] gets, and the state with the form reset; [onCancel] follows. *)
Definition handleSubmit (s : Sheet) : option (ModelRatioData * Sheet) :=
  match commitDraft s with
  | None => None
  | Some data =>
    Some (data, {| ps_mode := ps_mode s; ps_prompt := ps_prompt s; ps_lanes := ps_lanes s;
                   ps_enabled := ps_enabled s; ps_expr := ps_expr s; ps_rules := ps_rules s;
                   ps_form := ps_defaults s; ps_defaults := ps_defaults s |})
  end.

End Messages.

(** * Actions *)

(** Can the reader use the switch and the input of a lane? *)
Definition lane_disabled (k : LaneKey) (s : Sheet) : bool :=
  bool_decide (k = AudioOutput)
  && (negb (l_audioInput (ps_enabled s)) || negb (hasValue (l_audioInput (ps_lanes s)))).

Inductive SheetAction :=
| SPrompt (value : jstr)
| SLanePrice (k : LaneKey) (value : jstr)
| SLaneToggle (k : LaneKey) (checked : bool)
| SMode (mode : PricingMode)
| SFixedPrice (value : jstr)
| SName (value : jstr)
| STiers (expr rules : jstr).   (* what the tiered editor hands back *)

Definition sheet_step (s : Sheet) (a : SheetAction) : Sheet :=
  match a with
  | SPrompt v => handlePromptPriceChange v s
  | SLanePrice k v =>
    if lane_disabled k s || negb (lane k (ps_enabled s)) then s else handleLanePriceChange k v s
  | SLaneToggle k b => if lane_disabled k s then s else handleLaneToggle k b s
  | SMode m => handleModeChange m s
  | SFixedPrice v => handleFixedPrice v s
  | SName v => handleName v s
  | STiers e r => with_tiers (ps_mode s) e r s
  end.

(** The name input is disabled for a model that is edited. *)
Definition step (editing : bool) (s : Sheet) (a : SheetAction) : Sheet :=
  match a with SName _ => if editing then s else sheet_step s a | _ => sheet_step s a end.

Definition run (editing : bool) (acts : list SheetAction) (s : Sheet) : Sheet := fold_left (step editing) acts s.

(** * Records by key *)

Lemma lane_lanes_of {A} (f : LaneKey -> A) k : lane k (lanes_of f) = f k.
Proof. now destruct k. Qed.

Lemma lane_set {A} k j (x : A) l : lane j (set_lane k x l) = if decide (j = k) then x else lane j l.
Proof. apply lane_lanes_of. Qed.

Lemma field_prices_of {A} (f : PriceField -> A) g : field g (prices_of f) = f g.
Proof. now destruct g. Qed.

Lemma field_set {A} f g (x : A) p : field g (set_field f x p) = if decide (g = f) then x else field g p.
Proof. apply field_prices_of. Qed.

Lemma prices_ext {A} (p q : Prices A) : (forall f, field f p = field f q) -> p = q.
Proof.
  intros H. destruct p, q. pose proof (H FPrice); pose proof (H FRatio); pose proof (H FCacheRatio);
  pose proof (H FCreateCacheRatio); pose proof (H FCompletionRatio); pose proof (H FImageRatio);
  pose proof (H FAudioRatio); pose proof (H FAudioCompletionRatio). cbn in *. now subst.
Qed.

#[export] Hint Rewrite @lane_set @field_set @field_prices_of @lane_lanes_of : js_rw.

Lemma ratio_field_inj j k : ratioFieldByLane j = ratioFieldByLane k -> j = k.
Proof. now destruct j, k. Qed.

Lemma ratio_field_ratio k : ratioFieldByLane k <> FRatio.
Proof. now destruct k. Qed.

Lemma ratio_field_price k : ratioFieldByLane k <> FPrice.
Proof. now destruct k. Qed.

(** The value a field of the form has. *)
Definition form_field (f : PriceField) (s : Sheet) : jstr := field f (v_prices (ps_form s)).

(** * Ratios follow prices *)

(** The ratios in the form are those of the prices that are shown. *)
Definition consistent (s : Sheet) : Prop :=
  form_field FRatio s = promptRatio (ps_prompt s)
  /\ forall k, form_field (ratioFieldByLane k) s = laneRatio (ps_prompt s) (ps_lanes s) (ps_enabled s) k.

Lemma synced prompt prices enabled form f :
  field f (v_prices (syncLaneRatios prompt prices enabled form))
  = match f with
    | FPrice => p_price (v_prices form)
    | FRatio => promptRatio prompt
    | FCacheRatio => laneRatio prompt prices enabled Cache
    | FCreateCacheRatio => laneRatio prompt prices enabled CreateCache
    | FCompletionRatio => laneRatio prompt prices enabled Completion
    | FImageRatio => laneRatio prompt prices enabled Image
    | FAudioRatio => laneRatio prompt prices enabled AudioInput
    | FAudioCompletionRatio => laneRatio prompt prices enabled AudioOutput
    end.
Proof. now destruct f. Qed.

Lemma prompt_consistent v s :
  re_test numericDraftRegex v = true -> consistent (handlePromptPriceChange v s).
Proof.
  intros Hv. unfold handlePromptPriceChange. rewrite Hv. cbn [negb]. split; unfold form_field; cbn [ps_form].
  - apply synced.
  - intros k. rewrite synced. now destruct k.
Qed.

(** A lane's ratio depends on its own price and switch, and on what it is relative to. *)
Lemma laneRatio_local prompt prices prices' enabled enabled' k :
  lane k enabled = lane k enabled' -> lane k prices = lane k prices' ->
  (k = AudioOutput -> l_audioOutput enabled' = true -> l_audioInput prices = l_audioInput prices') ->
  laneRatio prompt prices enabled k = laneRatio prompt prices' enabled' k.
Proof.
  intros He Hp Ha. unfold laneRatio. rewrite He, Hp. destruct (lane k enabled') eqn:E; [|easy].
  unfold deriveLaneRatio. destruct k; try easy. now rewrite Ha.
Qed.

(** A write to one lane's field, seen from a lane or from the input ratio. *)
Lemma set_ratio_field j k x (form : FormValues) :
  field (ratioFieldByLane j) (v_prices (setFormValue (ratioFieldByLane k) x form))
  = if decide (j = k) then x else field (ratioFieldByLane j) (v_prices form).
Proof.
  cbn [setFormValue v_prices]. rewrite field_set. destruct (decide (j = k)) as [->|H]; [now rewrite decide_True|].
  rewrite decide_False; [easy|]. intros E. now apply ratio_field_inj in E.
Qed.

Lemma set_ratio_other k x (form : FormValues) :
  field FRatio (v_prices (setFormValue (ratioFieldByLane k) x form)) = field FRatio (v_prices form).
Proof. now destruct k. Qed.

(** Consistency from the fields a handler leaves. *)
Lemma consistent_by s s' :
  consistent s -> ps_prompt s' = ps_prompt s -> form_field FRatio s' = form_field FRatio s ->
  (forall k, form_field (ratioFieldByLane k) s' = laneRatio (ps_prompt s) (ps_lanes s') (ps_enabled s') k
             \/ form_field (ratioFieldByLane k) s' = form_field (ratioFieldByLane k) s
                /\ lane k (ps_enabled s') = lane k (ps_enabled s) /\ lane k (ps_lanes s') = lane k (ps_lanes s)
                /\ (k = AudioOutput -> l_audioOutput (ps_enabled s) = true ->
                    l_audioInput (ps_lanes s') = l_audioInput (ps_lanes s))) ->
  consistent s'.
Proof.
  intros [Hr Hl] Hp Hr' H. split; [congruence|]. intros k. rewrite Hp.
  destruct (H k) as [E | (E & He & Hpr & Ha)]; [exact E|]. rewrite E, Hl. symmetry. now apply laneRatio_local.
Qed.

Lemma lane_price_consistent k v s :
  consistent s -> lane k (ps_enabled s) = true -> consistent (handleLanePriceChange k v s).
Proof.
  intros Hc He. unfold handleLanePriceChange. destruct (re_test _ v); [|easy]. cbn [negb]. rewrite He.
  set (prices := set_lane k v (ps_lanes s)). set (audio := _ && _).
  apply (consistent_by s); [exact Hc|easy| |]; unfold form_field; cbn [with_lanes ps_form ps_lanes ps_enabled].
  - now destruct audio, k.
  - intros j. destruct (decide (audio = true /\ j = AudioOutput)) as [[Ha ->]|Hno].
    { left. rewrite Ha. change FAudioCompletionRatio with (ratioFieldByLane AudioOutput).
      rewrite set_ratio_field, decide_True by easy. unfold laneRatio.
      subst audio. apply andb_true_iff in Ha as [_ Ha]. now rewrite (Ha : lane AudioOutput (ps_enabled s) = true). }
    replace (field (ratioFieldByLane j) _) with
      (field (ratioFieldByLane j)
         (v_prices (setFormValue (ratioFieldByLane k) (deriveLaneRatio k v (ps_prompt s) prices) (ps_form s)))).
    2:{ destruct audio; [|easy]. change FAudioCompletionRatio with (ratioFieldByLane AudioOutput).
        rewrite (set_ratio_field j AudioOutput), decide_False; [easy|]. intros ->. now apply Hno. }
    rewrite set_ratio_field. destruct (decide (j = k)) as [->|Hjk].
    + left. unfold laneRatio. rewrite He. subst prices. now rewrite lane_set, decide_True.
    + right. subst prices. rewrite lane_set, decide_False by easy. repeat split; [easy..|]. intros -> Hout.
      change (lane AudioInput (set_lane k v (ps_lanes s)) = lane AudioInput (ps_lanes s)). rewrite lane_set.
      apply decide_False. intros <-. apply Hno. subst audio. now rewrite Hout.
Qed.

Lemma lane_on_consistent k s : consistent s -> consistent (handleLaneToggle k true s).
Proof.
  intros Hc. apply (consistent_by s); [exact Hc|easy|unfold form_field; cbn -[setFormValue]; apply set_ratio_other|].
  intros j. unfold form_field, handleLaneToggle. cbn [with_lanes ps_form ps_lanes ps_enabled].
  rewrite set_ratio_field. destruct (decide (j = k)) as [->|H].
  - left. unfold laneRatio. now rewrite lane_set, decide_True.
  - right. now rewrite lane_set, decide_False.
Qed.

Lemma lane_off_consistent k s : consistent s -> consistent (handleLaneToggle k false s).
Proof.
  intros Hc. unfold handleLaneToggle.
  destruct (decide (k = AudioInput)) as [->|Hk];
    (apply (consistent_by s); [exact Hc|easy|first [easy|now destruct k]|]; intros j); unfold form_field;
    cbn [with_lanes ps_form ps_lanes ps_enabled].
  - change FAudioCompletionRatio with (ratioFieldByLane AudioOutput). rewrite !set_ratio_field. unfold laneRatio.
    rewrite !lane_set. destruct (decide (j = AudioOutput)) as [->|Ho]; [now left|].
    destruct (decide (j = AudioInput)) as [->|Hi]; [now left|]. right. repeat split; [easy..|]. now intros ->.
  - rewrite set_ratio_field. unfold laneRatio. rewrite !lane_set. destruct (decide (j = k)) as [->|Hj]; [now left|].
    right. repeat split; [easy..|]. intros _ _.
    change (lane AudioInput (set_lane k [] (ps_lanes s)) = lane AudioInput (ps_lanes s)).
    rewrite lane_set. apply decide_False. now intros <-.
Qed.

Lemma lane_toggle_consistent k b s : consistent s -> consistent (handleLaneToggle k b s).
Proof. destruct b; auto using lane_on_consistent, lane_off_consistent. Qed.

Lemma step_consistent editing s a : consistent s -> consistent (step editing s a).
Proof.
  intros H. destruct a; cbn [step sheet_step].
  - destruct (re_test numericDraftRegex value) eqn:E; [now apply prompt_consistent|].
    unfold handlePromptPriceChange. now rewrite E.
  - destruct (lane k (ps_enabled s)) eqn:E; [|now rewrite orb_true_r].
    destruct (lane_disabled k s); [easy|]. now apply lane_price_consistent.
  - destruct (lane_disabled k s); [easy|]. now apply lane_toggle_consistent.
  - exact H.
  - unfold handleFixedPrice. destruct (re_test _ value); [|easy]. destruct H as [Hr Hl].
    split; [exact Hr|]. intros k. specialize (Hl k). now destruct k.
  - now destruct editing.
  - exact H.
Qed.

Lemma run_consistent editing acts : forall s, consistent s -> consistent (run editing acts s).
Proof. unfold run. induction acts as [|a acts IH]; [easy|]. intros s H. apply IH. now apply step_consistent. Qed.

Lemma run_prompt editing v acts s :
  re_test numericDraftRegex v = true -> In (SPrompt v) acts -> consistent (run editing acts s).
Proof.
  intros Hv Hin. apply in_split in Hin as (l1 & l2 & ->). unfold run. rewrite fold_left_app. cbn [fold_left].
  apply run_consistent. cbn [step sheet_step]. now apply prompt_consistent.
Qed.

Lemma empty_consistent : consistent (load None).
Proof. split; [reflexivity|]. intros k. now destruct k. Qed.

(** the ratios that will be saved are those of the prices that are shown: in a sheet for
    a new model always, and in a sheet of any model as soon as an input price has been typed,
    whatever else is done before or after. *)
Theorem ratios_follow_prices editing data acts v :
  data = None \/ In (SPrompt v) acts /\ re_test numericDraftRegex v = true ->
  consistent (run editing acts (load data)).
Proof.
  intros [-> | [Hin Hv]]; [apply run_consistent, empty_consistent|now apply (run_prompt _ v)].
Qed.

Definition sample_prices : Prices jstr :=
  {| p_price := []; p_ratio := "1.5"; p_cacheRatio := "0.1"; p_createCacheRatio := []; p_completionRatio := "5";
     p_imageRatio := []; p_audioRatio := []; p_audioCompletionRatio := [] |}.

Definition sample_data : ModelRatioData :=
  {| d_name := "m"; d_prices := sample_prices; d_billingMode := Some PerToken; d_billingExpr := None;
     d_requestRuleExpr := None |}.

Lemma ratios_follow_prices_witness :
  consistent (run true [SLanePrice Completion "12"; SPrompt "4"; SLaneToggle Cache false] (load (Some sample_data))).
Proof.
  apply (ratios_follow_prices true (Some sample_data) _ "4"). right. split; [cbn; tauto|reflexivity].
Defined.

(** * Opening and saving *)

Lemma no_base r b : toNumberOrNull (InText b) = None -> deriveLanePrice r b = [].
Proof. intros H. unfold deriveLanePrice. rewrite H. now destruct (toNumberOrNull (InText r)). Qed.

Lemma opened_prompt d : prompt_missing (load (Some d)) = false.
Proof.
  unfold prompt_missing. destruct (bool_decide (toNumberOrNull (InText (ps_prompt (load (Some d)))) = None)) eqn:E;
    [|now rewrite andb_false_r].
  apply bool_decide_eq_true in E. rewrite andb_true_r. apply andb_false_iff. right.
  unfold dependent_prices. cbn -[deriveLanePrice hasValue] in *.
  rewrite (no_base (p_audioRatio (d_prices d)) _ E), !(no_base _ _ E), (no_base _ []) by easy.
  now rewrite !andb_false_r.
Qed.

(** opening a model and saving it without an edit submits exactly what was opened, every
    ratio to the letter, in all three modes; only a model whose audio output has a ratio while
    no audio input price can be shown is refused. *)
Theorem unedited_submission t d :
  d_name d <> [] -> trim (d_name d) = d_name d ->
  match d_billingMode d with
  | Some TieredExpr => d_billingExpr d <> None /\ d_requestRuleExpr d <> None
  | m => m = Some (if truthy (p_price (d_prices d)) then PerRequest else PerToken)
         /\ d_billingExpr d = None /\ d_requestRuleExpr d = None
  end ->
  commitDraft t (load (Some d)) = if audio_missing (load (Some d)) then None else Some d.
Proof.
  intros Hn Ht Hm. unfold commitDraft, validatePricingValues. rewrite opened_prompt.
  replace (form_valid _) with true by (symmetry; now apply truthy_iff). cbn [negb].
  destruct (audio_missing _); [easy|]. f_equal. unfold buildSubmitData. cbn -[trim]. rewrite Ht.
  destruct d as [name prices mode expr rules]; cbn in *.
  destruct mode as [[]|]; cbn in *; try (destruct Hm as (Hm & -> & ->); destruct (truthy _); now inversion Hm).
  destruct Hm as [He Hr], expr, rules; easy.
Qed.

Lemma unedited_submission_witness :
  commitDraft (fun m => m) (load (Some sample_data)) = Some sample_data.
Proof. apply (unedited_submission (fun m => m) sample_data); easy. Defined.

(** Once saved, a price may come back changed: the ratio is rounded to twelve decimals. *)
Lemma price_drifts :
  let s := run false [SName "m"; SPrompt "3"; SLaneToggle Completion true; SLanePrice Completion "10"] (load None) in
  lane Completion (ps_lanes s) = "10"
  /\ option_map (fun d => lane Completion (ps_lanes (load (Some d)))) (commitDraft (fun m => m) s)
     = Some "9.999999999999"%js.
Proof. split; vm_compute; reflexivity. Qed.

(** with an input price of zero the panel raises no objection, and saves no ratio for any
    lane but audio output, whatever their prices. *)
Theorem free_input_loses_lanes t s k price :
  consistent s -> ps_mode s = PerToken -> toNumberOrNull (InText (ps_prompt s)) = Some price ->
  (price =? zero)%num = true -> k <> AudioOutput -> v_name (ps_form s) <> [] -> audio_missing s = false ->
  exists d, commitDraft t s = Some d /\ field (ratioFieldByLane k) (d_prices d) = []
            /\ field FRatio (d_prices d) = promptRatio (ps_prompt s).
Proof.
  intros [Hr Hl] Hmode Hp Hz Hk Hn Ha. unfold commitDraft, validatePricingValues. rewrite Ha.
  replace (prompt_missing s) with false.
  2:{ symmetry. unfold prompt_missing. rewrite Hp. now rewrite andb_false_r. }
  replace (form_valid _) with true by (symmetry; now apply truthy_iff). eexists. split; [reflexivity|].
  cbn [buildSubmitData d_prices]. split; [|exact Hr]. unfold form_field in Hl. rewrite Hl. unfold laneRatio.
  destruct (lane k (ps_enabled s)); [|easy]. unfold deriveLaneRatio. destruct (toNumberOrNull (InText (lane k _))); [|easy].
  destruct k; try easy; now rewrite Hp, Hz.
Qed.

Definition free_sheet : Sheet :=
  run false [SName "m"; SPrompt "0"; SLaneToggle Completion true; SLanePrice Completion "10"] (load None).

Lemma free_input_loses_lanes_witness :
  exists d, commitDraft (fun m => m) free_sheet = Some d /\ field (ratioFieldByLane Completion) (d_prices d) = []
            /\ field FRatio (d_prices d) = promptRatio (ps_prompt free_sheet).
Proof.
  apply (free_input_loses_lanes _ _ _ zero); try reflexivity; try easy.
  apply (ratios_follow_prices false None _ []). now left.
Defined.

(** typing an input price into the sheet of a model that has ratios but no input ratio
    deletes all these ratios: their prices could not be shown, and the ratios are recomputed
    from the prices. *)
Theorem unshown_ratios_lost d v k :
  p_ratio (d_prices d) = [] -> re_test numericDraftRegex v = true ->
  form_field (ratioFieldByLane k) (handlePromptPriceChange v (load (Some d))) = [].
Proof.
  intros Hr Hv. destruct (prompt_consistent v (load (Some d)) Hv) as [_ Hl]. rewrite Hl.
  unfold handlePromptPriceChange. rewrite Hv. cbn [negb ps_prompt ps_lanes ps_enabled load createInitialLaneState].
  rewrite Hr. unfold laneRatio. destruct (lane k _); [|easy].
  replace (lane k _) with (@nil N); [easy|].
  change (ratioToBasePrice []) with (@nil N). rewrite (no_base (p_audioRatio (d_prices d)) []) by easy.
  rewrite !no_base by easy. now destruct k.
Qed.

Definition unshown_data : ModelRatioData :=
  {| d_name := "m"; d_prices := set_field FRatio [] sample_prices; d_billingMode := Some PerToken;
     d_billingExpr := None; d_requestRuleExpr := None |}.

Lemma unshown_ratios_lost_witness :
  form_field (ratioFieldByLane Completion) (handlePromptPriceChange "3" (load (Some unshown_data))) = [].
Proof. apply (unshown_ratios_lost unshown_data "3" Completion); reflexivity. Defined.
