(* ===== verification/PricingTable.v ===== *)
(** Model of the table of model prices,
    [web/default/src/features/system-settings/models/model-ratio-visual-editor.tsx]: the
    ten JSON texts of the settings as rows, the summaries of a row, and the operations that
    write the texts again - saving a model, deleting one, copying prices to others - with
    the open editor ([PricingSheet]).

    The settings are objects from model names to values; texts that hold another JSON value
    are outside (the operations give [None]).  No model is named like a property of
    [Object.prototype].  The order of names is the parameter [locale_le]
    ([localeCompare]); the columns kept in the browser's storage, the toasts and the table's
    own sorting and paging are not modelled. *)

From S2P Require Import Prelude Number Regex Json BillingExpr BillingRules TierExpr PricingSheet.
From stdpp Require Import options.

(** * The settings *)

Abbreviation table := (list (jstr * json)).

(** The props: the eight texts of prices, the modes and the expressions. *)
Record Settings := { st_prices : Prices jstr; st_billingMode : jstr; st_billingExpr : jstr }.

Record Tables := { tb_prices : Prices table; tb_billingMode : table; tb_billingExpr : table }.

Definition safeJsonParse (value : jstr) (fallback : json) : json :=
  if negb (truthy value) || negb (truthy (trim value)) then fallback
  else match json_parse (trim value) with Some v => v | None => fallback end.

Definition parse_map (text : jstr) : option table :=
  match safeJsonParse text (JObj []) with JObj o => Some o | _ => None end.

(** The value of every field, when all have one. *)
Definition all_fields {A} (p : Prices (option A)) : option (Prices A) :=
  match p with
  | Build_Prices (Some a) (Some b) (Some c) (Some d) (Some e) (Some f) (Some g) (Some h) =>
    Some (Build_Prices a b c d e f g h)
  | _ => None
  end.

Definition parse_tables (s : Settings) : option Tables :=
  match all_fields (prices_of (fun f => parse_map (field f (st_prices s)))),
        parse_map (st_billingMode s), parse_map (st_billingExpr s) with
  | Some p, Some m, Some e => Some {| tb_prices := p; tb_billingMode := m; tb_billingExpr := e |}
  | _, _, _ => None
  end.

Definition print_map (o : table) : jstr := stringify_indent 2 [] (JObj o).

Definition print_tables (tb : Tables) : Settings :=
  {| st_prices := prices_of (fun f => print_map (field f (tb_prices tb)));
     st_billingMode := print_map (tb_billingMode tb); st_billingExpr := print_map (tb_billingExpr tb) |}.

(** * Rows *)

Record ModelRow := {
  r_name : jstr;
  r_prices : Prices jstr;
  r_billingMode : PricingMode;
  r_billingExpr : option jstr;
  r_requestRuleExpr : option jstr;
  r_hasConflict : bool
}.

(** [map[name]?.toString() || ''] *)
Definition cell (name : jstr) (o : table) : jstr :=
  match obj_get name o with None | Some JNull => [] | Some v => js_String v end.

(** [billingExprMap[name] || '']; only a string can be split. *)
Definition full_expr (name : jstr) (o : table) : exc jstr :=
  match obj_get name o with
  | None => Ret []
  | Some (JStr s) => Ret s
  | Some v => if jtruthy v then Throw else Ret []
  end.

Definition other_fields : list PriceField :=
  [FRatio; FCompletionRatio; FCacheRatio; FCreateCacheRatio; FImageRatio; FAudioRatio; FAudioCompletionRatio].

Definition model_row (tb : Tables) (name : jstr) : exc ModelRow :=
  let prices := prices_of (fun f => cell name (field f (tb_prices tb))) in
  if is_str (obj_get name (tb_billingMode tb)) "tiered_expr" then
    fullExpr <-! full_expr name (tb_billingExpr tb);
    split <-! splitBillingExprAndRequestRules fullExpr;
    Ret {| r_name := name; r_prices := prices; r_billingMode := TieredExpr;
           r_billingExpr := Some (fst split); r_requestRuleExpr := Some (snd split); r_hasConflict := false |}
  else
    let priced := negb (p_price prices =s []) in
    Ret {| r_name := name; r_prices := prices; r_billingMode := if priced then PerRequest else PerToken;
           r_billingExpr := None; r_requestRuleExpr := None;
           r_hasConflict := priced && existsb (fun f => negb (field f prices =s [])) other_fields |}.

Definition modelNames (tb : Tables) : list jstr :=
  let keys (o : table) := map fst o in
  let p := tb_prices tb in
  uniq (keys (p_price p) ++ keys (p_ratio p) ++ keys (p_cacheRatio p) ++ keys (p_createCacheRatio p)
        ++ keys (p_completionRatio p) ++ keys (p_imageRatio p) ++ keys (p_audioRatio p)
        ++ keys (p_audioCompletionRatio p) ++ keys (tb_billingMode tb) ++ keys (tb_billingExpr tb)).

Fixpoint model_rows (tb : Tables) (names : list jstr) : exc (list ModelRow) :=
  match names with
  | [] => Ret []
  | n :: ns => r <-! model_row tb n; rs <-! model_rows tb ns; Ret (r :: rs)
  end.

Definition models (locale_le : jstr -> jstr -> bool) (tb : Tables) : exc (list ModelRow) :=
  rows <-! model_rows tb (modelNames tb);
  Ret (stable_sort (fun a b => locale_le (r_name a) (r_name b)) rows).

Definition modeCounts (rows : list ModelRow) (mode : PricingMode) : nat :=
  length (List.filter (fun r => bool_decide (r_billingMode r = mode)) rows).

(** ** Summaries *)

Definition formatPrice (value : number) : jstr := num_to_string (parseFloat (toFixed 12 value)).

Definition ratioToPrice (ratio denominator : jstr) : jstr :=
  let d := if truthy denominator then toNumberOrNull (InText denominator) else Some two in
  match toNumberOrNull (InText ratio), d with
  | Some r, Some d => formatPrice (r * d)%num
  | _, _ => []
  end.

Definition filterBySelectedValues (rowValue : jstr) (filterValue : option (list jstr)) : bool :=
  match filterValue with None | Some [] => true | Some vs => memb rowValue vs end.

Definition getModeVariant (mode : PricingMode) : jstr :=
  match mode with PerRequest => "warning" | TieredExpr => "info" | PerToken => "success" end.

Section Summaries.
Context (t : jstr -> jstr).

Definition getExpressionSummary (r : ModelRow) : jstr :=
  let tierCount := match r_billingExpr r with Some e => length (split "tier(" e) - 1 | None => 0 end in
  if 0 <? tierCount then t "Tiered pricing" ++ " · " ++ digits (N.of_nat tierCount) ++ " " ++ t "tiers"
  else t "Expression pricing".

Definition extra_fields : list PriceField :=
  [FCompletionRatio; FCacheRatio; FCreateCacheRatio; FImageRatio; FAudioRatio; FAudioCompletionRatio].

Definition getPriceSummary (r : ModelRow) : jstr :=
  match r_billingMode r with
  | TieredExpr => getExpressionSummary r
  | PerRequest =>
    let price := p_price (r_prices r) in
    if truthy price then "$" ++ price ++ " / " ++ t "request" else t "Unset price"
  | PerToken =>
    let inputPrice := ratioToPrice (p_ratio (r_prices r)) [] in
    if negb (truthy inputPrice) then t "Unset price"
    else
      let extraCount := length (List.filter (fun f => hasValue (field f (r_prices r))) extra_fields) in
      if 0 <? extraCount then
        t "Input" ++ " $" ++ inputPrice ++ " · " ++ digits (N.of_nat extraCount) ++ " " ++ t "extras"
      else t "Input" ++ " $" ++ inputPrice
  end.

Definition getPriceDetail (r : ModelRow) : jstr :=
  match r_billingMode r with
  | TieredExpr => if truthy (or_empty (r_requestRuleExpr r)) then t "Includes request rules" else t "Expression based"
  | PerRequest => t "Fixed request price"
  | PerToken =>
    let p := r_prices r in
    let inputPrice := ratioToPrice (p_ratio p) [] in
    if negb (truthy inputPrice) then t "No base input price"
    else
      let detail label ratio := if truthy ratio then t label ++ " $" ++ ratioToPrice ratio inputPrice else [] in
      let details := List.filter truthy
        [detail "Output" (p_completionRatio p); detail "Cache" (p_cacheRatio p);
         detail "Cache write" (p_createCacheRatio p)] in
      if 0 <? length details then join " · " details else t "Base input price only"
  end.

End Summaries.

(** * Writing the settings *)

Definition delete_model (name : jstr) (tb : Tables) : Tables :=
  {| tb_prices := prices_of (fun f => obj_delete name (field f (tb_prices tb)));
     tb_billingMode := obj_delete name (tb_billingMode tb);
     tb_billingExpr := obj_delete name (tb_billingExpr tb) |}.

Definition handleDelete (name : jstr) (s : Settings) : option Settings :=
  option_map (fun tb => print_tables (delete_model name tb)) (parse_tables s).

Definition setIfPresent (target : table) (name value : jstr) : table :=
  if negb (truthy value) then target
  else
    let parsed := parseFloat value in
    if isFinite parsed then obj_set name (JNum parsed) target else target.

(** The fields that are written: all of a tiered model, else the price or the ratios. *)
Definition written (data : ModelRatioData) (f : PriceField) : bool :=
  if decide (d_billingMode data = Some TieredExpr) then true
  else if truthy (p_price (d_prices data)) then bool_decide (f = FPrice)
  else negb (bool_decide (f = FPrice)).

Definition combined (data : ModelRatioData) : jstr :=
  if decide (d_billingMode data = Some TieredExpr) then
    combineBillingExpr (or_empty (d_billingExpr data)) (or_empty (d_requestRuleExpr data))
  else [].

Definition set_text (name value : jstr) (o : table) : table := obj_set name (JStr value) o.

Definition persist_one (data : ModelRatioData) (tb : Tables) (name : jstr) : Tables :=
  let tb := delete_model name tb in
  let tiered := truthy (combined data) in
  {| tb_prices := prices_of (fun f =>
       let o := field f (tb_prices tb) in
       if written data f then setIfPresent o name (field f (d_prices data)) else o);
     tb_billingMode := if tiered then set_text name "tiered_expr" (tb_billingMode tb) else tb_billingMode tb;
     tb_billingExpr := if tiered then set_text name (combined data) (tb_billingExpr tb) else tb_billingExpr tb |}.

(** The texts handed to [onChange]. *)
Definition persistPricingData (data : ModelRatioData) (targetNames : list jstr) (s : Settings) : option Settings :=
  option_map (fun tb => print_tables (fold_left (persist_one data) targetNames tb)) (parse_tables s).

(** * The open editor *)

Record Editor := {
  ve_settings : Settings;
  ve_editData : option ModelRatioData;
  ve_open : bool;
  ve_sheetOpen : bool;
  ve_globalFilter : jstr;
  ve_selection : list jstr        (* the selected rows that pass the filter *)
}.

Definition with_editor (data : option ModelRatioData) (opened sheetOpen : bool) (e : Editor) : Editor :=
  {| ve_settings := ve_settings e; ve_editData := data; ve_open := opened; ve_sheetOpen := sheetOpen;
     ve_globalFilter := ve_globalFilter e; ve_selection := ve_selection e |}.

Definition with_settings (s : Settings) (e : Editor) : Editor :=
  {| ve_settings := s; ve_editData := ve_editData e; ve_open := ve_open e; ve_sheetOpen := ve_sheetOpen e;
     ve_globalFilter := ve_globalFilter e; ve_selection := ve_selection e |}.

(** What the editor is opened with. *)
Definition edit_data (model : ModelRow) : ModelRatioData :=
  {| d_name := r_name model; d_prices := r_prices model;
     d_billingMode := Some (if decide (r_billingMode model = TieredExpr) then TieredExpr
                            else if truthy (p_price (r_prices model)) then PerRequest else PerToken);
     d_billingExpr := r_billingExpr model; d_requestRuleExpr := r_requestRuleExpr model |}.

Definition handleEdit (isMobile : bool) (model : ModelRow) (e : Editor) : Editor :=
  with_editor (Some (edit_data model)) true (isMobile || ve_sheetOpen e) e.

Definition handleAdd (isMobile : bool) (e : Editor) : Editor :=
  with_editor None true (isMobile || ve_sheetOpen e) e.

Definition handleCancel (e : Editor) : Editor := with_editor None false false e.

Definition handleGlobalFilterChange (next : jstr) (e : Editor) : Editor :=
  let e' := if next =s ve_globalFilter e then e else handleCancel e in
  {| ve_settings := ve_settings e'; ve_editData := ve_editData e'; ve_open := ve_open e';
     ve_sheetOpen := ve_sheetOpen e'; ve_globalFilter := next; ve_selection := ve_selection e' |}.

Definition delete_row (name : jstr) (e : Editor) : option Editor :=
  option_map (fun s => with_settings s e) (handleDelete name (ve_settings e)).

Definition handleSave (data : ModelRatioData) (e : Editor) : option Editor :=
  option_map (fun s => with_editor (Some data) true (ve_sheetOpen e) (with_settings s e))
    (persistPricingData data [d_name data] (ve_settings e)).

Inductive CopyResult := CopyError (message : jstr) | Copied (e : Editor) | CopyUnmodelled.

Definition handleBatchCopy (t : jstr -> jstr) (e : Editor) : CopyResult :=
  match ve_editData e with
  | None => CopyError (t "Open a source model first")
  | Some data =>
    match ve_selection e with
    | [] => CopyError (t "Select at least one target model")
    | targetNames =>
      match persistPricingData data targetNames (ve_settings e) with
      | None => CopyUnmodelled
      | Some s =>
        Copied {| ve_settings := s; ve_editData := ve_editData e; ve_open := ve_open e;
                  ve_sheetOpen := ve_sheetOpen e; ve_globalFilter := ve_globalFilter e; ve_selection := [] |}
      end
    end
  end.

(** The parent saves: the draft of the open editor is persisted first; [false] keeps the
    parent from going on. *)
Definition commitOpenEditor (t : jstr -> jstr) (panel : Sheet) (e : Editor) : option (bool * Editor) :=
  if negb (ve_open e) then Some (true, e)
  else
    match commitDraft t panel with
    | None => Some (false, e)
    | Some data =>
      option_map (fun s => (true, with_editor (Some data) (ve_open e) (ve_sheetOpen e) (with_settings s e)))
        (persistPricingData data [d_name data] (ve_settings e))
    end.

(** The submit button of the panel: [onSave], then [onCancel]; [None] when nothing is saved. *)
Definition submit_panel (t : jstr -> jstr) (panel : Sheet) (e : Editor) : option Editor :=
  match handleSubmit t panel with
  | None => None
  | Some (data, _) => option_map handleCancel (handleSave data e)
  end.

(** * The entry of a model *)

Record Entry := { en_prices : Prices (option json); en_mode : option json; en_expr : option json }.

Definition entry (tb : Tables) (name : jstr) : Entry :=
  {| en_prices := prices_of (fun f => obj_get name (field f (tb_prices tb)));
     en_mode := obj_get name (tb_billingMode tb); en_expr := obj_get name (tb_billingExpr tb) |}.

Definition no_entry : Entry :=
  {| en_prices := prices_of (fun _ => None); en_mode := None; en_expr := None |}.

Definition stored_value (value : jstr) : option json :=
  if truthy value && isFinite (parseFloat value) then Some (JNum (parseFloat value)) else None.

(** What saving a model's data leaves in the settings. *)
Definition stored (data : ModelRatioData) : Entry :=
  {| en_prices := prices_of (fun f => if written data f then stored_value (field f (d_prices data)) else None);
     en_mode := if truthy (combined data) then Some (JStr "tiered_expr") else None;
     en_expr := if truthy (combined data) then Some (JStr (combined data)) else None |}.

Lemma setIfPresent_get o name value n :
  obj_get name o = None ->
  obj_get n (setIfPresent o name value) = if n =s name then stored_value value else obj_get n o.
Proof.
  intros Hn. unfold setIfPresent, stored_value. destruct (truthy value); cbn [negb andb];
    [destruct (isFinite _); [apply obj_get_set|]|]; destruct (seqb_spec n name) as [->|]; easy.
Qed.

Lemma deleted_get name (o : table) : obj_get name (obj_delete name o) = None.
Proof. now rewrite obj_get_delete, seqb_refl. Qed.

Lemma rewritten_price (b : bool) o name value n :
  obj_get n (if b then setIfPresent (obj_delete name o) name value else obj_delete name o)
  = if n =s name then if b then stored_value value else None else obj_get n o.
Proof.
  destruct b; [rewrite setIfPresent_get by apply deleted_get|]; rewrite obj_get_delete; now destruct (n =s name).
Qed.

Lemma rewritten_text (b : bool) o name value n :
  obj_get n (if b then set_text name value (obj_delete name o) else obj_delete name o)
  = if n =s name then if b then Some (JStr value) else None else obj_get n o.
Proof.
  destruct b; unfold set_text; [rewrite obj_get_set|]; rewrite obj_get_delete; now destruct (n =s name).
Qed.

(** Two entries are equal when their values are. *)
Lemma entry_ext a b :
  (forall f, field f (en_prices a) = field f (en_prices b)) -> en_mode a = en_mode b -> en_expr a = en_expr b ->
  a = b.
Proof. destruct a, b. cbn. intros H -> ->. f_equal. now apply prices_ext. Qed.

Lemma persist_one_entry data tb name n :
  entry (persist_one data tb name) n = if n =s name then stored data else entry tb n.
Proof.
  apply entry_ext; unfold persist_one;
    cbn [entry stored en_prices en_mode en_expr tb_prices tb_billingMode tb_billingExpr delete_model].
  - intros f. rewrite !field_prices_of, rewritten_price.
    destruct (n =s name); cbn [entry stored en_prices]; now rewrite field_prices_of.
  - rewrite rewritten_text. now destruct (n =s name).
  - rewrite rewritten_text. now destruct (n =s name).
Qed.

Lemma persist_entries data names n : forall tb,
  entry (fold_left (persist_one data) names tb) n = if memb n names then stored data else entry tb n.
Proof.
  induction names as [|m names IH]; intros tb; [easy|]. cbn [fold_left memb existsb]. rewrite IH, persist_one_entry.
  fold (memb n names). now destruct (n =s m), (memb n names).
Qed.

Lemma delete_entry tb name n :
  entry (delete_model name tb) n = if n =s name then no_entry else entry tb n.
Proof.
  apply entry_ext; cbn [entry delete_model en_prices en_mode en_expr tb_prices tb_billingMode tb_billingExpr].
  - intros f. rewrite !field_prices_of, obj_get_delete.
    destruct (n =s name); cbn [entry no_entry en_prices]; now rewrite field_prices_of.
  - rewrite obj_get_delete. now destruct (n =s name).
  - rewrite obj_get_delete. now destruct (n =s name).
Qed.

(** A row is shown for the models that have an entry. *)
Lemma unlisted tb name : entry tb name = no_entry <-> ~ In name (modelNames tb).
Proof.
  unfold modelNames. rewrite uniq_In, !in_app_iff. unfold entry, no_entry. destruct tb as [[] m e]. cbn. split.
  - intros [= H1 H2 H3 H4 H5 H6 H7 H8 H9 H10]. rewrite obj_get_None in *. tauto.
  - intros H. unfold prices_of. cbn. now repeat rewrite (proj2 (obj_get_None name _)) by tauto.
Qed.

(** * Texts and tables *)

(** Tables whose texts read back: names and texts of 16-bit units, numbers that print and
    read as themselves. *)
Definition wf_tables (tb : Tables) : Prop :=
  (forall f, wf_obj (field f (tb_prices tb))) /\ wf_obj (tb_billingMode tb) /\ wf_obj (tb_billingExpr tb).

Lemma print_edges o : trim (print_map o) = print_map o.
Proof.
  apply edges_trim. unfold print_map. cbn [stringify_indent app].
  destruct (map _ o) as [|x l]; [reflexivity|].
  match goal with |- edges_ok (_ :: _ :: ?a ++ ?b ++ _) = _ =>
    change (edges_ok ("{" ++ [lf] ++ a ++ b ++ [lf] ++ "}") = true);
    replace ("{" ++ [lf] ++ a ++ b ++ [lf] ++ "}") with ("{" ++ ([lf] ++ a ++ b ++ [lf]) ++ "}")
      by now rewrite <- !app_assoc
  end.
  now apply edges_ok_app.
Qed.

Lemma parse_print o : wf_obj o -> parse_map (print_map o) = Some o.
Proof.
  intros Ho. unfold parse_map, safeJsonParse. rewrite print_edges.
  replace (truthy (print_map o)) with true.
  - cbn [negb orb]. unfold print_map. rewrite json_parse_indent; [easy|]. now apply wf_json_obj.
  - symmetry. apply truthy_iff. unfold print_map. cbn [stringify_indent app]. now destruct (map _ o).
Qed.

Lemma tables_roundtrip tb : wf_tables tb -> parse_tables (print_tables tb) = Some tb.
Proof.
  intros (Hp & Hm & He). unfold parse_tables, print_tables. cbn [st_prices st_billingMode st_billingExpr].
  rewrite !parse_print by easy. cbn [all_fields prices_of].
  pose proof (Hp FPrice); pose proof (Hp FRatio); pose proof (Hp FCacheRatio); pose proof (Hp FCreateCacheRatio);
  pose proof (Hp FCompletionRatio); pose proof (Hp FImageRatio); pose proof (Hp FAudioRatio);
  pose proof (Hp FAudioCompletionRatio). cbn [field prices_of p_price p_ratio p_cacheRatio p_createCacheRatio
    p_completionRatio p_imageRatio p_audioRatio p_audioCompletionRatio] in *.
  rewrite !parse_print by easy. now destruct tb as [[] ? ?].
Qed.

(** Data whose numbers print and read as themselves and whose expression is text. *)
Definition storable (data : ModelRatioData) : Prop :=
  (forall f, isFinite (parseFloat (field f (d_prices data))) = true -> num_ok (parseFloat (field f (d_prices data))))
  /\ wf_str (combined data).

Lemma setIfPresent_wf o name value :
  wf_obj o -> wf_str name -> (isFinite (parseFloat value) = true -> num_ok (parseFloat value)) ->
  wf_obj (setIfPresent o name value).
Proof.
  intros Ho Hn Hv. unfold setIfPresent. destruct (truthy value); [|easy]. cbn [negb].
  destruct (isFinite (parseFloat value)); [|easy]. apply wf_obj_set; [easy|easy|now apply Hv].
Qed.

Lemma persist_one_wf data tb name :
  storable data -> wf_str name -> wf_tables tb -> wf_tables (persist_one data tb name).
Proof.
  intros [Hd Hc] Hn (Hp & Hm & He). unfold persist_one, set_text.
  split; [|split]; cbn [tb_prices tb_billingMode tb_billingExpr delete_model].
  - intros f. rewrite !field_prices_of. case_goal; [apply setIfPresent_wf; [|easy|apply Hd]|];
      now apply wf_obj_delete.
  - destruct (truthy _); [|now apply wf_obj_delete]. apply wf_obj_set; [now apply wf_obj_delete|easy|].
    repeat constructor.
  - destruct (truthy _); [|now apply wf_obj_delete]. apply wf_obj_set; [now apply wf_obj_delete|easy|exact Hc].
Qed.

Lemma persist_wf data names : forall tb,
  storable data -> Forall wf_str names -> wf_tables tb -> wf_tables (fold_left (persist_one data) names tb).
Proof.
  induction names as [|n names IH]; intros tb Hd Hn Htb; [easy|]. apply Forall_cons_1 in Hn as [Hn Hns].
  apply IH; auto using persist_one_wf.
Qed.

Lemma delete_wf name tb : wf_tables tb -> wf_tables (delete_model name tb).
Proof.
  intros (Hp & Hm & He). split; [|split]; cbn [tb_prices tb_billingMode tb_billingExpr delete_model];
    [intros f; rewrite field_prices_of|..]; auto using wf_obj_delete.
Qed.

(** Saving, read back from the texts. *)
Lemma saved_tables data names s tb :
  parse_tables s = Some tb -> wf_tables tb -> storable data -> Forall wf_str names ->
  exists s' tb', persistPricingData data names s = Some s' /\ parse_tables s' = Some tb' /\ wf_tables tb'
    /\ forall n, entry tb' n = if memb n names then stored data else entry tb n.
Proof.
  intros Hs Htb Hd Hn. unfold persistPricingData. rewrite Hs. cbn [option_map].
  pose proof (persist_wf data names tb Hd Hn Htb) as Hw.
  eexists _, _. split; [reflexivity|]. split; [now apply tables_roundtrip|]. split; [exact Hw|].
  intros n. apply persist_entries.
Qed.

(** saving a model's prices, or copying them to other models, changes the settings of
    exactly the named models: when the ten new texts are read again, each target has what the
    data stores - all values and the combined expression of a tiered model, else the fixed
    price alone when there is one, else the ratios - and every other model has what it had. *)
Theorem save_writes_targets data targets s tb :
  parse_tables s = Some tb -> wf_tables tb -> storable data -> Forall wf_str targets ->
  exists s' tb', persistPricingData data targets s = Some s' /\ parse_tables s' = Some tb' /\ wf_tables tb'
    /\ forall n, entry tb' n = if memb n targets then stored data else entry tb n.
Proof. exact (saved_tables data targets s tb). Qed.

(** deleting a model removes it from the ten texts and leaves every other model as it was. *)
Theorem delete_removes name s tb :
  parse_tables s = Some tb -> wf_tables tb ->
  exists s' tb', handleDelete name s = Some s' /\ parse_tables s' = Some tb' /\ wf_tables tb'
    /\ (forall n, entry tb' n = if n =s name then no_entry else entry tb n)
    /\ ~ In name (modelNames tb').
Proof.
  intros Hs Htb. unfold handleDelete. rewrite Hs. cbn [option_map]. pose proof (delete_wf name tb Htb) as Hw.
  eexists _, _. split; [reflexivity|]. split; [now apply tables_roundtrip|]. split; [exact Hw|].
  split; [intros n; apply delete_entry|].
  apply unlisted. now rewrite delete_entry, seqb_refl.
Qed.

(** * Saving and opening again *)

(** A value that is stored as the text it is. *)
Definition clean_value (v : jstr) : Prop :=
  v = [] \/ isFinite (parseFloat v) = true /\ num_to_string (parseFloat v) = v.

(** Data that an opened row can be: one kind of price, stored as it is written. *)
Definition clean (data : ModelRatioData) : Prop :=
  (forall f, clean_value (field f (d_prices data)))
  /\ match d_billingMode data with
     | Some TieredExpr =>
       exists e r, d_billingExpr data = Some e /\ d_requestRuleExpr data = Some r
         /\ combineBillingExpr e r <> []
         /\ splitBillingExprAndRequestRules (combineBillingExpr e r) = Ret (e, r)
     | Some PerRequest =>
       p_price (d_prices data) <> [] /\ (forall f, f <> FPrice -> field f (d_prices data) = [])
       /\ d_billingExpr data = None /\ d_requestRuleExpr data = None
     | Some PerToken =>
       p_price (d_prices data) = [] /\ d_billingExpr data = None /\ d_requestRuleExpr data = None
     | None => False
     end.

Definition rename (name : jstr) (data : ModelRatioData) : ModelRatioData :=
  {| d_name := name; d_prices := d_prices data; d_billingMode := d_billingMode data;
     d_billingExpr := d_billingExpr data; d_requestRuleExpr := d_requestRuleExpr data |}.

Lemma cell_clean v o name : clean_value v -> obj_get name o = stored_value v -> cell name o = v.
Proof.
  intros [-> | [Hf Hp]] E; unfold cell; rewrite E; [easy|]. unfold stored_value. rewrite Hf, andb_true_r.
  destruct v; [easy|exact Hp].
Qed.

Lemma unwritten_empty data f : clean data -> written data f = false -> field f (d_prices data) = [].
Proof.
  intros [_ Hm]. unfold written. destruct (d_billingMode data) as [[]|]; [| |now rewrite decide_True|easy].
  - destruct Hm as (Hp & _ & _). rewrite decide_False, Hp by easy. cbn. rewrite negb_false_iff, bool_decide_eq_true.
    now intros ->.
  - destruct Hm as (Hp & Hf & _). rewrite decide_False by easy. apply truthy_iff in Hp as ->.
    rewrite bool_decide_eq_false. exact (Hf f).
Qed.

Lemma stored_cells data tb name f :
  clean data -> entry tb name = stored data ->
  cell name (field f (tb_prices tb)) = field f (d_prices data).
Proof.
  intros Hc H. assert (E : obj_get name (field f (tb_prices tb))
                           = if written data f then stored_value (field f (d_prices data)) else None).
  { apply (f_equal (fun e => field f (en_prices e))) in H. cbn in H. now rewrite !field_prices_of in H. }
  destruct (written data f) eqn:W; [now apply cell_clean; [apply Hc|]|].
  rewrite (unwritten_empty data f Hc W). unfold cell. now rewrite E.
Qed.

Lemma no_ratios (p : Prices jstr) :
  (forall f, f <> FPrice -> field f p = []) -> existsb (fun f => negb (field f p =s [])) other_fields = false.
Proof.
  intros Hf. apply not_true_is_false. intros (f & Hin & H)%existsb_exists.
  rewrite Hf in H; [easy|]. intros ->. cbn in Hin. intuition congruence.
Qed.

Lemma stored_row data tb name :
  clean data -> entry tb name = stored data ->
  exists r, model_row tb name = Ret r /\ edit_data r = rename name data /\ r_hasConflict r = false.
Proof.
  intros Hc H. unfold model_row.
  replace (prices_of (fun f => cell name (field f (tb_prices tb)))) with (d_prices data)
    by (apply prices_ext; intros f; rewrite field_prices_of; symmetry; now apply stored_cells).
  pose proof (f_equal en_mode H) as Hm. pose proof (f_equal en_expr H) as He. cbn [entry stored en_mode en_expr] in Hm, He.
  rewrite Hm. unfold full_expr. rewrite He. destruct Hc as [_ Hc]. unfold rename, edit_data. unfold combined in *.
  destruct (d_billingMode data) as [[]|]; [| | |easy].
  - destruct Hc as (Hp & -> & ->). rewrite decide_False by easy. cbn [truthy is_str strict_eq].
    rewrite Hp. cbn [seqb negb andb]. eexists. split; [reflexivity|]. cbn. now rewrite Hp.
  - destruct Hc as (Hp & Hf & -> & ->). rewrite decide_False by easy. cbn [truthy is_str strict_eq].
    destruct (seqb_spec (p_price (d_prices data)) []); [easy|]. cbn [negb andb]. eexists. split; [reflexivity|].
    split; [|exact (no_ratios _ Hf)]. apply truthy_iff in Hp. cbn. now rewrite Hp.
  - destruct Hc as (e & r & -> & -> & Hne & Hs). rewrite decide_True by easy. cbn [or_empty].
    apply truthy_iff in Hne. rewrite Hne. change (is_str _ _) with true. cbv iota. cbn [exc_bind].
    rewrite Hs. cbn [exc_bind fst snd]. eexists. split; [reflexivity|]. now cbn.
Qed.

(** what is saved is opened again: after data is saved for a list of models - one, or the
    targets of a copy - opening any of them gives the same data under that model's name, with
    the same text in every field, the same mode, expression and rules, and no conflict. *)
Theorem save_reopen data targets s tb :
  parse_tables s = Some tb -> wf_tables tb -> storable data -> clean data -> Forall wf_str targets ->
  exists s' tb', persistPricingData data targets s = Some s' /\ parse_tables s' = Some tb'
    /\ forall n, In n targets ->
       exists r, model_row tb' n = Ret r /\ edit_data r = rename n data /\ r_hasConflict r = false.
Proof.
  intros Hs Htb Hd Hc Hn. destruct (saved_tables data targets s tb Hs Htb Hd Hn) as (s' & tb' & H1 & H2 & _ & H3).
  exists s', tb'. split; [exact H1|]. split; [exact H2|]. intros n Hin%memb_In.
  apply stored_row; [exact Hc|]. now rewrite H3, Hin.
Qed.

(** * A fixed price that stays *)

Definition fixes_price (a : SheetAction) : bool := match a with SFixedPrice _ => true | _ => false end.

Lemma setFormValue_price f x form :
  f <> FPrice -> field FPrice (v_prices (setFormValue f x form)) = field FPrice (v_prices form).
Proof. intros H. cbn [setFormValue v_prices]. rewrite field_set. now rewrite decide_False. Qed.

Lemma step_price editing s a :
  fixes_price a = false -> form_field FPrice (step editing s a) = form_field FPrice s.
Proof.
  unfold form_field. destruct a; intros Ha; try discriminate; cbn [step sheet_step].
  - unfold handlePromptPriceChange. destruct (re_test _ value); [|easy]. apply synced.
  - case_goal; [easy|]. unfold handleLanePriceChange. destruct (re_test _ value); [|easy].
    cbn [negb with_lanes ps_form].
    destruct (_ && _), (lane k _); rewrite ?setFormValue_price by (easy || apply ratio_field_price); easy.
  - destruct (lane_disabled k s); [easy|]. unfold handleLaneToggle.
    destruct checked, (decide (k = AudioInput)); cbn [with_lanes ps_form];
      rewrite ?setFormValue_price by (easy || apply ratio_field_price); easy.
  - easy.
  - now destruct editing.
  - easy.
Qed.

Lemma run_price editing acts : forall s,
  forallb (fun a => negb (fixes_price a)) acts = true ->
  form_field FPrice (run editing acts s) = form_field FPrice s.
Proof.
  unfold run. induction acts as [|a acts IH]; intros s H; [easy|]. cbn [forallb fold_left] in *. bool_hyps.
  rewrite IH by easy. now apply step_price.
Qed.

(** a model with a fixed price cannot be changed over to prices per token: whatever is typed
    after opening it, short of the fixed price itself, what is saved from the per-token tab is
    the fixed price and no ratio at all. *)
Theorem fixed_price_stays t d acts data :
  p_price (d_prices d) <> [] -> forallb (fun a => negb (fixes_price a)) acts = true ->
  let s := run true acts (load (Some d)) in
  ps_mode s = PerToken -> commitDraft t s = Some data ->
  stored data = {| en_prices := set_field FPrice (stored_value (p_price (d_prices d))) (prices_of (fun _ => None));
                   en_mode := None; en_expr := None |}.
Proof.
  intros Hp Ha s Hm Hs. assert (E : form_field FPrice s = p_price (d_prices d)) by now apply run_price.
  unfold commitDraft in Hs. destruct (negb _); [easy|]. destruct (validatePricingValues t s); [easy|].
  injection Hs as <-. apply truthy_iff in Hp.
  assert (Hmode : d_billingMode (buildSubmitData s (ps_form s)) <> Some TieredExpr) by (cbn; congruence).
  apply entry_ext; unfold stored, combined, written; cbn [en_prices en_mode en_expr].
  - intros f. rewrite field_set, !field_prices_of, decide_False by easy.
    change (p_price (d_prices (buildSubmitData s (ps_form s)))) with (form_field FPrice s). rewrite E, Hp.
    destruct (decide (f = FPrice)) as [->|Hf]; [|now rewrite bool_decide_eq_false_2].
    change (field FPrice (d_prices (buildSubmitData s (ps_form s)))) with (form_field FPrice s). now rewrite E.
  - now rewrite decide_False.
  - now rewrite decide_False.
Qed.

(** * The rows *)

Lemma model_row_name tb n r : model_row tb n = Ret r -> r_name r = n.
Proof.
  unfold model_row. destruct (is_str _ _); [|now intros [= <-]].
  destruct (full_expr _ _); [|easy]. cbn [exc_bind]. destruct (splitBillingExprAndRequestRules _); [|easy].
  now intros [= <-].
Qed.

Lemma model_rows_names tb names : forall rs, model_rows tb names = Ret rs -> map r_name rs = names.
Proof.
  induction names as [|n names IH]; intros rs; cbn [model_rows]; [now intros [= <-]|].
  destruct (model_row tb n) as [r|] eqn:E; [|easy]. destruct (model_rows tb names) as [rs'|]; [|easy].
  intros [= <-]. cbn. f_equal; [now apply (model_row_name tb)|now apply IH].
Qed.

(** the table shows exactly one row for every model that has a value in one of the ten
    texts, and no other, whatever the order of names. *)
Theorem rows_complete locale_le tb rows :
  models locale_le tb = Ret rows ->
  List.NoDup (map r_name rows) /\ forall n, In n (map r_name rows) <-> entry tb n <> no_entry.
Proof.
  unfold models. destruct (model_rows tb (modelNames tb)) as [rs|] eqn:E; [|easy]. intros [= <-].
  pose proof (model_rows_names tb _ rs E) as Hn.
  assert (Hp : map r_name (stable_sort (fun a b => locale_le (r_name a) (r_name b)) rs) ≡ₚ modelNames tb)
    by (rewrite stable_sort_Permutation, Hn; easy).
  split.
  - apply (Permutation_NoDup (symmetry Hp)), uniq_NoDup.
  - intros n. rewrite unlisted. assert (Hi : In n (map r_name (stable_sort
      (fun a b => locale_le (r_name a) (r_name b)) rs)) <-> In n (modelNames tb))
      by (split; apply Permutation_in; easy).
    rewrite Hi. split; [tauto|]. destruct (memb n (modelNames tb)) eqn:Em;
      [apply memb_In in Em|apply memb_not_In in Em]; tauto.
Qed.

(** A name of blanks passes the form and is saved as the empty name. *)
Lemma blank_name_saved :
  option_map d_name (commitDraft (fun m => m) (run false [SName " "; SPrompt "3"] (load None))) = Some []%js.
Proof. reflexivity. Qed.

(** * Witnesses *)

Definition sample_tables : Tables :=
  {| tb_prices := prices_of (fun f =>
       match f with
       | FPrice => [("img"%js, JNum (parseFloat "0.04"))]
       | FRatio => [("a"%js, JNum (parseFloat "1.5")); ("b"%js, JNum (parseFloat "2"))]
       | FCompletionRatio => [("a"%js, JNum (parseFloat "5"))]
       | _ => []
       end);
     tb_billingMode := []; tb_billingExpr := [] |}.

Definition sample_settings : Settings := print_tables sample_tables.

Lemma sample_parsed : parse_tables sample_settings = Some sample_tables.
Proof. vm_compute. reflexivity. Qed.

Ltac number_ok := split; [|split; [|split]]; [vm_compute; reflexivity..|vm_compute; repeat constructor|vm_compute; easy].

Lemma sample_tables_wf : wf_tables sample_tables.
Proof.
  split; [|split; split; constructor].
  intros f. destruct f; (split; [vm_compute; reflexivity|]); cbn;
    repeat (constructor; [split; [repeat constructor|cbn [snd wf_json]; number_ok]|]); constructor.
Qed.

Lemma sample_storable : storable sample_data.
Proof.
  split; [|constructor]. intros f H. destruct f; cbn in *; try (vm_compute in H; discriminate H); number_ok.
Qed.

Lemma sample_clean : clean sample_data.
Proof.
  split; [|easy]. intros f. destruct f; try (left; reflexivity); right; split; vm_compute; reflexivity.
Qed.

Lemma save_writes_targets_witness :
  exists s' tb', persistPricingData sample_data ["b"%js; "c"%js] sample_settings = Some s'
    /\ parse_tables s' = Some tb' /\ wf_tables tb'
    /\ forall n, entry tb' n = if memb n ["b"%js; "c"%js] then stored sample_data else entry sample_tables n.
Proof.
  apply (save_writes_targets sample_data ["b"%js; "c"%js] sample_settings sample_tables sample_parsed sample_tables_wf
           sample_storable). repeat constructor.
Defined.

Lemma delete_removes_witness :
  exists s' tb', handleDelete "b" sample_settings = Some s' /\ parse_tables s' = Some tb' /\ wf_tables tb'
    /\ (forall n, entry tb' n = if n =s "b"%js then no_entry else entry sample_tables n)
    /\ ~ In "b"%js (modelNames tb').
Proof. exact (delete_removes "b" sample_settings sample_tables sample_parsed sample_tables_wf). Defined.

Lemma save_reopen_witness :
  exists s' tb', persistPricingData sample_data ["b"%js; "c"%js] sample_settings = Some s'
    /\ parse_tables s' = Some tb'
    /\ forall n, In n ["b"%js; "c"%js] ->
       exists r, model_row tb' n = Ret r /\ edit_data r = rename n sample_data /\ r_hasConflict r = false.
Proof.
  apply (save_reopen sample_data ["b"%js; "c"%js] sample_settings sample_tables sample_parsed sample_tables_wf
           sample_storable sample_clean). repeat constructor.
Defined.

Definition priced_data : ModelRatioData :=
  {| d_name := "m"; d_prices := set_field FPrice "0.04" (prices_of (fun _ => []));
     d_billingMode := Some PerRequest; d_billingExpr := None; d_requestRuleExpr := None |}.

Definition changed_over : list SheetAction := [SMode PerToken; SPrompt "3"; SLaneToggle Completion true].

Lemma fixed_price_stays_witness :
  exists data, commitDraft (fun m => m) (run true changed_over (load (Some priced_data))) = Some data
    /\ field FRatio (d_prices data) = "1.5"%js
    /\ stored data = {| en_prices := set_field FPrice (stored_value "0.04") (prices_of (fun _ => None));
                        en_mode := None; en_expr := None |}.
Proof.
  eexists. split; [vm_compute; reflexivity|]. split; [reflexivity|].
  apply (fixed_price_stays (fun m => m) priced_data changed_over); [easy..|vm_compute; reflexivity].
Defined.

Lemma rows_complete_witness :
  exists rows, models str_leb sample_tables = Ret rows /\ length rows = 3 /\ List.NoDup (map r_name rows)
    /\ forall n, In n (map r_name rows) <-> entry sample_tables n <> no_entry.
Proof.
  eexists. split; [vm_compute; reflexivity|]. split; [reflexivity|].
  apply (rows_complete str_leb sample_tables). vm_compute. reflexivity.
Defined.

