(* ===== verification/PricingFlow.v ===== *)
(** The composition of the parts that hold a tiered price: an expression written by the
    visual editor ([TierEditor]) is saved through the sheet ([PricingSheet]) into the texts of
    the settings ([PricingTable]), read back from them, split into expression and rules
    ([BillingExpr]), and opened again. *)

From S2P Require Import Prelude Number Regex Json BillingExpr BillingRules TierExpr TierEstimate TierEditor.
From S2P Require Import PricingSheet PricingTable.
From stdpp Require Import options.

(** * What is not a factor of a rule *)

(** A match ends where its continuation takes over. *)
Lemma mt_calls {A} r p s c (k : cont (A := A)) x :
  re_within (fun _ => True) r -> mt r p s c k = Some x ->
  exists w s' p' c', s = w ++ s' /\ k p' s' c' = Some x.
Proof. intros Hr H. destruct (mt_within _ r p s c k x Hr H) as (w & s' & p' & c' & E & _ & Hk). now exists w, s', p', c'. Qed.

(** The text of a factor ends with its other value. *)
Lemma factor_end s m : match_caps factor_re s = Some m -> exists w, s = w ++ " : 1)".
Proof.
  unfold factor_re. rewrite match_bol. intros H.
  do 4 (rewrite mt_seq in H; apply mt_calls in H as (? & ? & ? & ? & -> & H); [|repeat constructor; easy]).
  rewrite mt_seq in H. apply mt_lit_inv in H as (s' & -> & H). cbn [mt] in H. destruct s'; [|discriminate].
  rewrite app_nil_r, !app_assoc. now eexists.
Qed.

Lemma not_a_factor b : tryParseRuleGroupFactor ("(" ++ (b ++ ")") ++ ")") = Ret None.
Proof.
  unfold tryParseRuleGroupFactor. destruct (match_caps _ _) as [m|] eqn:E; [|easy]. exfalso.
  apply factor_end in E as [w E]. change " : 1)"%js with (" : 1" ++ ")")%js in E.
  rewrite !app_assoc in E. apply app_inj_tail in E as [E _].
  change " : 1"%js with (" : " ++ "1")%js in E. rewrite !app_assoc in E. now apply app_inj_tail in E as [_ E].
Qed.

(** * The text of a chain of tiers *)

(** Units that are no parenthesis, and those that are not the multiplication sign either. *)
Definition flat (c : N) : Prop := c <> lparen /\ c <> rparen.
Definition quiet (c : N) : Prop := flat c /\ c <> 42%N.

Lemma flat_nest n s : Forall flat s -> nest n s = Some n.
Proof.
  induction 1 as [|c s (Hl & Hr) _ IH]; [easy|]. cbn. apply N.eqb_neq in Hl as ->, Hr as ->. exact IH.
Qed.

Lemma quiet_flat s : Forall quiet s -> Forall flat s.
Proof. intros H. eapply Forall_impl; [exact H|]. now intros c [Hc _]. Qed.

Lemma num_quiet s : Forall (fun c => cls_num c = true) s -> Forall quiet s.
Proof.
  intros H. eapply Forall_impl; [exact H|]. cbn. intros c [Hc _]%num_unit_range. unfold quiet, flat. lia.
Qed.

Lemma quiet_sealed s c : Forall quiet (s ++ [c]) -> c <> 32%N -> sealed " * " 0 (s ++ [c]) = Some 0%Z.
Proof.
  intros H Hc. induction s as [|d s IH]; cbn [app] in *; apply Forall_cons_1 in H as [((Hl & Hr) & Hs) H].
  - cbn [sealed]. unfold step_depth. apply N.eqb_neq in Hl as ->, Hr as ->. cbn [Z.eqb andb].
    unfold compat, startsWith. cbn [strip_prefix]. rewrite (N.eqb_sym c 32).
    now replace (32 =? c)%N with false by (symmetry; apply N.eqb_neq; congruence).
  - cbn [sealed]. unfold step_depth. apply N.eqb_neq in Hl as ->, Hr as ->. cbn [Z.eqb andb].
    replace (compat " * " (d :: s ++ [c])) with false; [now apply IH|]. symmetry.
    unfold compat, startsWith. cbn [strip_prefix].
    destruct (s ++ [c]) as [|e r] eqn:E; [now destruct s|]. apply Forall_cons_1 in H as [(_ & He) _].
    cbn [strip_prefix]. replace (42 =? e)%N with false by (symmetry; apply N.eqb_neq; congruence).
    replace (e =? 42)%N with false by (symmetry; now apply N.eqb_neq).
    now destruct (32 =? d)%N, (d =? 32)%N.
Qed.

(** ** One tier *)

Definition head_text (t : VisualTier) : jstr :=
  match vt_conditions t with [] => [] | cs => buildConditionStr cs ++ " ? " end.

Definition inside (t : VisualTier) : jstr :=
  [dquote] ++ vt_label t ++ [dquote; 44%N; 32%N] ++ buildTierBodyExpr t.

Lemma part_shape t : part_text t = (head_text t ++ "tier") ++ ("(" ++ inside t ++ ")").
Proof.
  unfold part_text, head_text, inside, tier_text.
  destruct (vt_conditions t); rewrite <- ?app_assoc; cbn [app]; rewrite <- ?app_assoc; reflexivity.
Qed.

Ltac quiet_text := repeat constructor; easy.

Lemma condition_quiet c : condition_ok c -> Forall quiet (condition_text c).
Proof.
  intros (Hv & n & Hn & _ & Hw & _). unfold condition_text. rewrite Hn. cbn [value_text].
  apply Forall_app. split; [repeat destruct Hv as [<-|Hv]; quiet_text|].
  apply Forall_app. split; [quiet_text|]. apply Forall_app. split; [destruct (ti_op c); quiet_text|].
  apply Forall_app. split; [quiet_text|]. apply num_quiet. eapply Forall_impl; [exact Hw|]. exact pos_cls.
Qed.

Lemma head_quiet t : Forall condition_ok (vt_conditions t) -> Forall quiet (head_text t ++ "tier").
Proof.
  intros H. apply Forall_app. split; [|quiet_text]. unfold head_text. destruct (vt_conditions t) as [|c cs]; [easy|].
  apply Forall_app. split; [|quiet_text]. rewrite conditions_text by easy. apply join_units; [quiet_text|].
  apply Forall_map. eapply Forall_impl; [exact H|]. exact condition_quiet.
Qed.

Lemma cost_flat v n : Forall flat v -> cost_ok n -> Forall flat (cost_text v n).
Proof.
  intros Hv (_ & Hn & _). unfold cost_text. apply Forall_app. split; [exact Hv|].
  apply Forall_app. split; [quiet_text|]. now apply quiet_flat, num_quiet.
Qed.

Lemma body_flat t : tier_ok t -> Forall flat (buildTierBodyExpr t).
Proof.
  intros Ht. rewrite body_text by easy. pose proof Ht as [_ _ Hi Ho _ _].
  apply Forall_app. split; [apply cost_flat; [quiet_text|easy]|]. apply Forall_app. split; [quiet_text|].
  apply Forall_app. split; [apply cost_flat; [quiet_text|easy]|].
  assert (Hv : Forall (fun vn => Forall flat (fst vn)) (tier_extra t)) by quiet_text.
  pose proof (tier_extra_ok t Ht) as He. induction (tier_extra t) as [|[v n] l IH]; [constructor|].
  apply Forall_cons_1 in Hv as [Hv Hl], He as [He Hel]. cbn [extra_text fst snd] in *.
  apply Forall_app. split; [|now apply IH]. destruct (ntruthy n); [|constructor].
  apply Forall_app. split; [quiet_text|]. now apply cost_flat.
Qed.

Lemma inside_nest t : tier_ok t -> nest 0 (vt_label t) = Some 0 -> nest 0 (inside t) = Some 0.
Proof.
  intros Ht Hl. unfold inside. cbn [app nest]. rewrite (nest_app _ _ _ _ Hl). apply flat_nest.
  do 3 (constructor; [easy|]). now apply body_flat.
Qed.

(** ** The chain *)

Definition balanced (t : VisualTier) : Prop := nest 0 (vt_label t) = Some 0.

Definition chain_text (ts : list VisualTier) : jstr := List.concat (map (fun t => " : " ++ part_text t) ts).

Lemma chain_join t ts : join " : " (map part_text (t :: ts)) = part_text t ++ chain_text ts.
Proof.
  unfold chain_text. revert t; induction ts as [|t' ts IH]; intros t; [cbn; now rewrite app_nil_r|].
  cbn [map]. rewrite join_cons by easy. cbn [map] in IH. rewrite IH. cbn [List.concat]. now rewrite <- !app_assoc.
Qed.

(** A text that neither the splitting nor the nesting looks into. *)
Definition whole (s : jstr) : Prop := sealed " * " 0 s = Some 0%Z /\ nest 0 s = Some 0.

Lemma whole_app a b : whole a -> whole b -> whole (a ++ b).
Proof. intros [Sa Na] [Sb Nb]. split; [now rewrite (sealed_app _ _ _ _ _ Sa)|now rewrite (nest_app _ _ _ _ Na)]. Qed.

Lemma whole_part pre t :
  Forall quiet pre -> tier_ok t -> balanced t -> whole (pre ++ part_text t).
Proof.
  intros Hp Ht Hb. rewrite part_shape, app_assoc. pose proof Ht as [_ Hc _ _ _ _].
  pose proof (inside_nest t Ht Hb) as Hi. apply whole_app.
  - change "tier"%js with ("tie" ++ "r")%js. assert (H : Forall quiet (pre ++ head_text t ++ "tie" ++ "r")).
    { apply Forall_app. split; [exact Hp|]. now apply head_quiet. }
    split; [|now apply flat_nest, quiet_flat]. rewrite !app_assoc in *. now apply quiet_sealed.
  - destruct (paren_part _ Hi) as [Hs _]. split; [exact Hs|]. cbn [app nest]. change (nest 1 (inside t ++ ")") = Some 0).
    now rewrite (nest_app _ _ _ _ (nest_level 1 _ Hi)).
Qed.

Lemma whole_chain ts : Forall tier_ok ts -> Forall balanced ts -> whole (chain_text ts).
Proof.
  unfold chain_text. induction 1 as [|t ts Ht _ IH]; intros Hb; [easy|]. apply Forall_cons_1 in Hb as [Hb Hbs].
  cbn [map List.concat]. apply whole_app; [|now apply IH]. apply whole_part; [quiet_text|easy|easy].
Qed.

(** * The written expression *)

(** What the editor writes and the settings give back: a chain of tiers whose labels have
    balanced parentheses. *)
Definition savable (c : VisualConfig) : Prop :=
  config_ok c /\ chained (vc_tiers c) /\ Forall balanced (vc_tiers c).

Lemma kept_text c :
  savable c -> exists t ts, Forall tier_ok (t :: ts) /\ Forall balanced (t :: ts)
                            /\ kept_expr c = part_text t ++ chain_text ts.
Proof.
  intros (Hok & Hch & Hb). unfold kept_expr. rewrite generated_text by easy.
  unfold config_text, config_ok in *. destruct (vc_tiers c) as [|t [|t' ts]]; [easy| |].
  - exists t, []. rewrite decide_True by exact Hch. split; [now constructor|]. now split.
  - exists t, (t' :: ts). destruct Hok as [Hok _]. split; [easy|]. split; [easy|]. apply (chain_join t (t' :: ts)).
Qed.

Lemma part_head t : tier_ok t -> exists y l, part_text t = y :: l /\ is_space y = false /\ (40 =? y)%N = false.
Proof.
  intros [_ Hc _ _ _ _]. rewrite part_shape. unfold head_text. destruct (vt_conditions t) as [|cd cs].
  - cbn [app]. now eexists _, _.
  - rewrite conditions_text, conj_join by easy. apply Forall_cons_1 in Hc as [(Hv & n & Hn & _) _].
    unfold condition_text. repeat destruct Hv as [<-|Hv]; try easy; cbn [app]; now eexists _, _.
Qed.

Lemma chain_last t ts : exists b, part_text t ++ chain_text ts = b ++ ")".
Proof.
  revert t; induction ts as [|t' ts IH]; intros t.
  - exists ((head_text t ++ "tier") ++ "(" ++ inside t). unfold chain_text. cbn [map List.concat].
    now rewrite app_nil_r, part_shape, <- !app_assoc.
  - destruct (IH t') as [b Hb]. exists (part_text t ++ " : " ++ b). unfold chain_text in *. cbn [map List.concat].
    now rewrite <- !app_assoc, Hb.
Qed.

Record kept_facts (e : jstr) : Prop := {
  kf_whole : whole e;
  kf_edges : edges_ok e = true;
  kf_nonempty : e <> [];
  kf_unwrapped : unwrapOuterParens e = e;
  kf_no_rule : tryParseRuleGroupFactor ("(" ++ e ++ ")") = Ret None
}.

Lemma kept_ok c : savable c -> kept_facts (kept_expr c).
Proof.
  intros Hc. destruct (kept_text c Hc) as (t & ts & Hok & Hb & E). rewrite E.
  apply Forall_cons_1 in Hok as [Ht Hts], Hb as [Hbt Hbs].
  destruct (part_head t Ht) as (y & l & Ey & Hs & Hp). destruct (chain_last t ts) as [b Eb].
  assert (He : edges_ok (part_text t ++ chain_text ts) = true).
  { rewrite Eb. rewrite Ey in Eb. destruct b as [|y' b]; [|cbn [app] in Eb; injection Eb as <- _].
    - injection Eb as -> _. easy.
    - change ((y :: b) ++ ")") with ([y] ++ b ++ ")"). apply edges_ok_app; try easy. cbn. now rewrite Hs. }
  split.
  - apply whole_app; [now apply (whole_part [])|now apply whole_chain].
  - exact He.
  - now rewrite Ey.
  - unfold unwrapOuterParens. rewrite edges_trim by exact He. rewrite Ey. cbn [app length unwrap_loop].
    unfold hasFullOuterParens, startsWith. cbn [strip_prefix]. now rewrite Hp.
  - rewrite Eb. apply not_a_factor.
Qed.

Lemma combine_split c gs :
  savable c -> Forall group_ok gs ->
  let e := kept_expr c in let r := buildRequestRuleExpr gs in
  combineBillingExpr e r <> [] /\ splitBillingExprAndRequestRules (combineBillingExpr e r) = Ret (e, r).
Proof.
  intros Hc Hgs. destruct (kept_ok c Hc) as [[Hs Hn] He Hne Hu Hf]. cbv zeta.
  destruct gs as [|g gs].
  - change (buildRequestRuleExpr []) with (@nil N). rewrite combine_plain, edges_trim by exact He.
    split; [exact Hne|]. unfold splitBillingExprAndRequestRules, splitTopLevelMultiply. rewrite edges_trim by exact He.
    pose proof (splitTopLevel_join (src "* ") [kept_expr c] ltac:(easy)
                  ltac:(constructor; [now repeat split|constructor])) as Hsp.
    change (splitTopLevel " * " (kept_expr c) = [kept_expr c]) in Hsp. rewrite Hsp. now destruct (kept_expr c).
  - assert (Hb : buildRequestRuleExpr (g :: gs) <> []).
    { intros E. pose proof (parse_build _ Hgs) as H. rewrite E in H. discriminate. }
    split.
    + unfold combineBillingExpr. rewrite edges_trim by exact He. destruct (kept_expr c); [easy|]. cbn [truthy negb].
      now destruct (truthy (trim (buildRequestRuleExpr (g :: gs)))).
    + rewrite split_combined by easy. now rewrite Hu.
Qed.

(** * What the visual editor does not read *)

(** What is written for a configuration that was read does not begin with a parenthesis. *)
Definition plain_head (s : jstr) : Prop := exists y l, s = y :: l /\ is_space y = false /\ (y =? lparen)%N = false.

Lemma plain_head_app a b : plain_head a -> plain_head (a ++ b).
Proof. intros (y & l & -> & H). now exists y, (l ++ b). Qed.

Lemma condition_head cs :
  Forall (fun c => In (ti_var c) ["p"; "c"; "len"%js] /\ exists n, ti_value c = InNum n) cs ->
  buildConditionStr cs = [] \/ plain_head (buildConditionStr cs).
Proof.
  intros H. unfold buildConditionStr.
  assert (Forall (fun c => In (ti_var c) ["p"; "c"; "len"%js]) (List.filter condition_given cs)) as Hf.
  { apply List.Forall_forall. intros c [Hc _]%filter_In. exact (proj1 (proj1 (List.Forall_forall _ _) H c Hc)). }
  destruct Hf as [|c l Hv _]; [now left|]. right. cbn [map].
  assert (plain_head (condition_text c)) as Hc.
  { unfold condition_text. repeat destruct Hv as [<-|Hv]; try easy; cbn [app]; now eexists _, _. }
  destruct (map condition_text l) eqn:E; [exact Hc|]. rewrite join_cons by easy. now apply plain_head_app.
Qed.

Lemma tier_head label t : plain_head (tier_text label t).
Proof. unfold tier_text. cbn [app]. eexists _, _. split; [reflexivity|now split]. Qed.

Lemma typed_head cfg :
  vc_tiers cfg <> [] -> Forall tier_typed (vc_tiers cfg) -> plain_head (generateExprFromVisualConfig (Some cfg)).
Proof.
  intros Hne Ht. unfold generateExprFromVisualConfig. destruct (vc_tiers cfg) as [|t ts]; [easy|].
  apply Forall_cons_1 in Ht as [[_ _ _ Hc%condition_head] _]. destruct ts as [|t' ts].
  - destruct Hc as [-> | Hc]; [apply tier_head|]. destruct (truthy _); [now apply plain_head_app|apply tier_head].
  - cbn [length tier_parts]. rewrite join_cons by easy. apply plain_head_app.
    destruct Hc as [-> | Hc]; [rewrite andb_false_r; apply tier_head|].
    destruct (_ && _); [now apply plain_head_app|apply tier_head].
Qed.

(** A text in a parenthesis at its head is none of the visual editor's. *)
Lemma parenthesised_unread t : tryParseVisualConfig ("(" ++ t) = None.
Proof.
  destruct (tryParseVisualConfig ("(" ++ t)) as [cfg|] eqn:E; [|easy]. exfalso.
  destruct (parsed_is_typed _ _ E) as [Hne Ht]. destruct (typed_head cfg Hne Ht) as (y & l & Hy & Hs & Hp).
  unfold tryParseVisualConfig in E. cbn [app] in E.
  change (snd (stripExprVersion (40%N :: t))) with (40%N :: t) in E.
  replace (match_caps singleRe (40%N :: t)) with (@None caps) in E by reflexivity.
  destruct (map read_hit _); [easy|]. destruct (seqb_spec (unspaced (generateExprFromVisualConfig
    (Some (normalizeVisualConfig (Some {| vc_tiers := v :: l0 |}))))) (unspaced (40%N :: t))) as [Eu|]; [|easy].
  apply some_inj in E. subst cfg. rewrite Hy in Eu. unfold unspaced in Eu. cbn [List.filter] in Eu. rewrite Hs in Eu.
  cbn in Eu. injection Eu as -> _. now rewrite N.eqb_refl in Hp.
Qed.

(** * Saving and opening *)

Definition tiered_data (name : jstr) (c : VisualConfig) (gs : list RequestRuleGroup) (prices : Prices jstr)
  : ModelRatioData :=
  {| d_name := name; d_prices := prices; d_billingMode := Some TieredExpr;
     d_billingExpr := Some (kept_expr c); d_requestRuleExpr := Some (buildRequestRuleExpr gs) |}.

Lemma tiered_clean name c gs prices :
  savable c -> Forall group_ok gs -> (forall f, clean_value (field f prices)) ->
  clean (tiered_data name c gs prices).
Proof.
  intros Hc Hgs Hp. split; [exact Hp|]. destruct (combine_split c gs Hc Hgs) as [Hne Hs].
  now exists (kept_expr c), (buildRequestRuleExpr gs).
Qed.

(** With a guarded test among the rules the settings give back one text for both. *)
Lemma guarded_clean name c gs prices :
  savable c -> Forall group_writable gs -> existsb guarded_group gs = true ->
  (forall f, clean_value (field f prices)) ->
  let full := combineBillingExpr (kept_expr c) (buildRequestRuleExpr gs) in
  let lost := {| d_name := name; d_prices := prices; d_billingMode := Some TieredExpr;
                 d_billingExpr := Some full; d_requestRuleExpr := Some [] |} in
  (exists t, full = "(" ++ t) /\ splitBillingExprAndRequestRules (trim full) = Ret (full, [])
  /\ clean lost /\ stored lost = stored (tiered_data name c gs prices).
Proof.
  intros Hc Hgs Hex Hp. destruct (kept_ok c Hc) as [[_ Hn] He Hne _ Hf].
  destruct (split_guarded (kept_expr c) gs He Hne Hn Hf Hgs Hex) as ((t & Et) & Etr & Es). cbv zeta in *.
  assert (combineBillingExpr (combineBillingExpr (kept_expr c) (buildRequestRuleExpr gs)) []
          = combineBillingExpr (kept_expr c) (buildRequestRuleExpr gs)) as Ec by now rewrite combine_plain.
  split; [now exists t|]. rewrite Etr. split; [exact Es|]. split.
  - split; [exact Hp|]. cbn [d_billingMode d_billingExpr d_requestRuleExpr].
    eexists _, []. split; [reflexivity|]. split; [reflexivity|]. rewrite Ec. split; [now rewrite Et|exact Es].
  - unfold stored, tiered_data, combined. cbn [d_billingMode d_billingExpr d_requestRuleExpr d_prices or_empty].
    now rewrite Ec.
Qed.

(** C28: a tiered price through the settings.  The tiers and rules of the visual editor are
    saved for a model or copied to others, the ten texts are read again, the row is split and
    the sheet opened for any target: it shows the expression mode.  If no rule tests a request
    parameter with [contains], [>], [>=], [<] or [<=], the sheet has the saved expression and
    rules, and the editor mounted in it shows the same tiers and rules and leaves both texts as
    they are.  If one does, the sheet takes the whole text for the expression and has no rule,
    and the editor puts a price of zero in its place, after which nothing changes.
    The data: the tiers have labels that are not empty, hold no double quote and have balanced
    parentheses, every tier but the last has a condition and the last has none, and the
    numbers are ones whose texts read back ([savable]); the rules are those of [group_writable] (C36); a price of the sheet is
    empty or the text of its own number ([clean_value]); the settings are texts that parse
    ([parse_tables]), and all texts are of 16-bit units. *)
Theorem tiered_price_kept name c gs prices targets s tb n k :
  savable c -> Forall group_writable gs -> (forall f, clean_value (field f prices)) ->
  storable (tiered_data name c gs prices) -> parse_tables s = Some tb -> wf_tables tb ->
  Forall wf_str targets -> In n targets ->
  exists s' tb' r w0 w,
    persistPricingData (tiered_data name c gs prices) targets s = Some s' /\ parse_tables s' = Some tb'
    /\ model_row tb' n = Ret r
    /\ (let sheet := load (Some (edit_data r)) in
        ps_mode sheet = TieredExpr /\ mount_editor (Some n) (ps_expr sheet) (ps_rules sheet) = Ret w0)
    /\ if existsb guarded_group gs
       then commits 5 w0 = Ret w /\ fixed w /\ w_expr w = no_price /\ w_rules w = []
       else commits k w0 = Ret w /\ w_expr w = kept_expr c /\ w_rules w = buildRequestRuleExpr gs
            /\ w_mode w = Visual /\ w_config w = Some (reread c) /\ w_groups w = gs.
Proof.
  intros Hc Hgs Hp Hst Hs Htb Hts Hn.
  destruct (saved_tables _ targets s tb Hs Htb Hst Hts) as (s' & tb' & H1 & H2 & _ & H3).
  specialize (H3 n). apply memb_In in Hn. rewrite Hn in H3.
  destruct (existsb guarded_group gs) eqn:Hex.
  - destruct (guarded_clean name c gs prices Hc Hgs Hex Hp) as ((t & Et) & Es & Hcl & Hsd). cbv zeta in *.
    destruct (stored_row _ tb' n Hcl) as (r & Hr & He & _); [now rewrite H3|].
    destruct (complex_expression_lost (Some n) (combineBillingExpr (kept_expr c) (buildRequestRuleExpr gs))
      (combineBillingExpr (kept_expr c) (buildRequestRuleExpr gs), [])) as (w0 & w & Hw0 & Hw & Hfx & Hwe & Hwr & _);
      [now rewrite Et|now rewrite Et|rewrite Et; apply parenthesised_unread|exact Es|].
    exists s', tb', r, w0, w. repeat (split; [assumption|]). split; [|easy].
    rewrite He. split; [reflexivity|exact Hw0].
  - assert (Forall group_ok gs) as Hok.
    { apply List.Forall_forall. intros g Hin. apply writable_unguarded; [exact (proj1 (List.Forall_forall _ _) Hgs g Hin)|].
      destruct (guarded_group g) eqn:E; [|easy]. rewrite <- Hex. symmetry. apply existsb_exists. now exists g. }
    destruct (stored_row (tiered_data name c gs prices) tb' n) as (r & Hr & He & _); [now apply tiered_clean|easy|].
    destruct (opened_kept (Some n) c gs k (proj1 Hc) Hok) as (w0 & w & Hw0 & Hw).
    exists s', tb', r, w0, w. repeat (split; [assumption|]). split; [|exact Hw].
    rewrite He. split; [reflexivity|exact Hw0].
Qed.

Lemma sample_savable : savable sample_config.
Proof. split; [exact sample_config_ok|]. split; repeat constructor; easy. Qed.

Definition sample_tiered : ModelRatioData := tiered_data "m" sample_config sample_groups sample_prices.

Lemma sample_tiered_storable : storable sample_tiered.
Proof.
  split; [exact (proj1 sample_storable)|]. apply List.Forall_forall. intros c Hc. apply N.ltb_lt.
  revert c Hc. apply forallb_forall. vm_compute. reflexivity.
Qed.

(** The same with a rule that the parser does not read. *)
Definition guarded_tiered : ModelRatioData := tiered_data "m" sample_config guarded_groups sample_prices.

Lemma guarded_tiered_storable : storable guarded_tiered.
Proof.
  split; [exact (proj1 sample_storable)|]. apply List.Forall_forall. intros c Hc. apply N.ltb_lt.
  revert c Hc. apply forallb_forall. vm_compute. reflexivity.
Qed.

Lemma tiered_price_kept_witness :
  (exists s' tb' r w0 w,
    persistPricingData sample_tiered ["b"%js; "m"%js] sample_settings = Some s' /\ parse_tables s' = Some tb'
    /\ model_row tb' "m" = Ret r
    /\ (let sheet := load (Some (edit_data r)) in
        ps_mode sheet = TieredExpr /\ mount_editor (Some "m"%js) (ps_expr sheet) (ps_rules sheet) = Ret w0)
    /\ commits 5 w0 = Ret w /\ w_expr w = kept_expr sample_config /\ w_rules w = buildRequestRuleExpr sample_groups
    /\ w_mode w = Visual /\ w_config w = Some (reread sample_config) /\ w_groups w = sample_groups)
  /\ (exists s' tb' r w0 w,
    persistPricingData guarded_tiered ["b"%js; "m"%js] sample_settings = Some s' /\ parse_tables s' = Some tb'
    /\ model_row tb' "m" = Ret r
    /\ (let sheet := load (Some (edit_data r)) in
        ps_mode sheet = TieredExpr /\ mount_editor (Some "m"%js) (ps_expr sheet) (ps_rules sheet) = Ret w0)
    /\ commits 5 w0 = Ret w /\ fixed w /\ w_expr w = no_price /\ w_rules w = []).
Proof.
  split.
  - apply (tiered_price_kept "m" sample_config sample_groups sample_prices ["b"%js; "m"%js] sample_settings
             sample_tables "m" 5 sample_savable sample_writable (proj1 sample_clean) sample_tiered_storable sample_parsed
             sample_tables_wf); [repeat constructor|right; now left].
  - apply (tiered_price_kept "m" sample_config guarded_groups sample_prices ["b"%js; "m"%js] sample_settings
             sample_tables "m" 5 sample_savable guarded_writable (proj1 sample_clean) guarded_tiered_storable sample_parsed
             sample_tables_wf); [repeat constructor|right; now left].
Defined.
