(* ===== verification/UpstreamSync.v ===== *)
(** Model of the synchronisation of prices with upstream channels:
    [web/default/src/features/system-settings/models/upstream-ratio-sync.tsx] and
    [upstream-ratio-sync-helpers.ts], with the bulk selection of
    [upstream-ratio-sync-table.tsx] and the header of a source in
    [upstream-ratio-sync-columns.tsx].

    The server compares the settings with other sources and answers with the differences,
    by model and field; the reader selects values; applying writes the ten texts of the
    settings ([PricingTable.Settings]), after a confirmation when a model would go over
    between a fixed price and ratios.  Fields and models are keys of objects, so both are
    strings here; a value is a JSON number or string.  The toasts and the loading marks are
    not modelled. *)

From stdpp Require Import gmap.
From S2P Require Import Prelude Number Json PricingSheet PricingTable.
From stdpp Require Import options.

(** * Data *)

Record RatioDifference := {
  rd_current : json;
  rd_upstreams : list (jstr * json);
  rd_confidence : list (jstr * bool)
}.

Abbreviation RatioTypes := (list (jstr * RatioDifference)).
Abbreviation DifferencesMap := (list (jstr * RatioTypes)).
Abbreviation ModelResolution := (list (jstr * json)).
Abbreviation ResolutionsMap := (list (jstr * ModelResolution)).

Definition RATIO_SYNC_FIELDS : list jstr :=
  ["model_ratio"; "completion_ratio"; "cache_ratio"; "create_cache_ratio"; "image_ratio"; "audio_ratio";
   "audio_completion_ratio"].

Definition SYNC_FIELD_ORDER : list jstr := RATIO_SYNC_FIELDS ++ ["model_price"; "billing_mode"; "billing_expr"].

Definition NUMERIC_SYNC_FIELDS : list jstr := RATIO_SYNC_FIELDS ++ ["model_price"].

Definition RATIO_TYPE_OPTIONS : list (jstr * jstr) :=
  [("model_ratio", "Model ratio"); ("completion_ratio", "Completion ratio"); ("cache_ratio", "Cache ratio");
   ("create_cache_ratio", "Create cache ratio"); ("image_ratio", "Image ratio"); ("audio_ratio", "Audio ratio");
   ("audio_completion_ratio", "Audio completion ratio"); ("model_price", "Fixed price");
   ("billing_expr", "Expression billing")].

Definition getSyncFieldLabel (t : jstr -> jstr) (ratioType : jstr) : jstr :=
  match obj_get ratioType RATIO_TYPE_OPTIONS with Some label => t label | None => ratioType end.

Definition getOrderedRatioTypes (ratioTypes : RatioTypes) (filter : jstr) : list jstr :=
  let keys := map fst ratioTypes in
  let ordered := List.filter (fun f => memb f keys) SYNC_FIELD_ORDER
                 ++ List.filter (fun f => negb (memb f SYNC_FIELD_ORDER)) keys in
  if negb (truthy filter) || (filter =s "__all__") then ordered
  else List.filter (fun f => f =s filter) ordered.

(** [value !== null && value !== undefined && value !== 'same'] *)
Definition isSelectableUpstreamValue (value : option json) : bool :=
  match value with None | Some JNull => false | v => negb (is_str v "same") end.

(** [ratioTypes[field]?.upstreams?.[sourceName]] *)
Definition upstream_value (ratioTypes : RatioTypes) (field sourceName : jstr) : option json :=
  match obj_get field ratioTypes with Some d => obj_get sourceName (rd_upstreams d) | None => None end.

Definition getPreferredSyncField (ratioTypes : RatioTypes) (ratioType sourceName : jstr) : jstr :=
  if negb (ratioType =s "billing_expr")
     && isSelectableUpstreamValue (upstream_value ratioTypes "billing_expr" sourceName)
  then "billing_expr" else ratioType.

Definition OFFICIAL_CHANNEL_ID : Z := -100.
Definition MODELS_DEV_PRESET_ID : Z := -101.
Definition OPENROUTER_CHANNEL_TYPE : Z := 20.

Definition getDefaultEndpointForChannel (id : Z) (type : option Z) : jstr :=
  if (id =? MODELS_DEV_PRESET_ID)%Z then "https://models.dev/api.json"
  else if (id =? OFFICIAL_CHANNEL_ID)%Z then "/llm-metadata/api/newapi/ratio_config-v1-base.json"
  else if bool_decide (type = Some OPENROUTER_CHANNEL_TYPE) then "openrouter"
  else "/api/pricing".

(** ** The channels to compare with *)

Record UpstreamChannel := { uc_id : Z; uc_name : jstr; uc_base_url : jstr; uc_status : Z; uc_type : option Z }.

Record UpstreamConfig := { cf_id : Z; cf_name : jstr; cf_base_url : jstr; cf_endpoint : jstr }.

(** The endpoints chosen so far, by the number of the channel. *)
Abbreviation Endpoints := (gmap Z jstr).

Definition endpoint_of (endpoints : Endpoints) (id : Z) : jstr :=
  match endpoints !! id with Some e => e | None => [] end.

(** The channels arrived: each one without an endpoint has its default. *)
Definition fill_endpoints (channels : list UpstreamChannel) (endpoints : Endpoints) : Endpoints :=
  fold_left (fun next ch =>
    if truthy (endpoint_of next (uc_id ch)) then next
    else <[uc_id ch := getDefaultEndpointForChannel (uc_id ch) (uc_type ch)]> next) channels endpoints.

(** The request for the differences; [None] is the refusal of an empty choice. *)
Definition handleConfirmChannelSelection (channels : list UpstreamChannel) (endpoints : Endpoints)
  (selectedIds : list Z) : option (list UpstreamConfig) :=
  match List.filter (fun ch => bool_decide (uc_id ch ∈ selectedIds)) channels with
  | [] => None
  | selected =>
    Some (map (fun ch => {| cf_id := uc_id ch; cf_name := uc_name ch; cf_base_url := uc_base_url ch;
                            cf_endpoint := str_or (endpoint_of endpoints (uc_id ch)) "/api/pricing" |}) selected)
  end.

Inductive BillingCategory := CatPrice | CatRatio | CatTiered.

#[export] Instance billing_category_eq_dec : EqDecision BillingCategory.
Proof. solve_decision. Defined.

Definition getBillingCategory (ratioType : jstr) : BillingCategory :=
  if ratioType =s "model_price" then CatPrice
  else if (ratioType =s "billing_mode") || (ratioType =s "billing_expr") then CatTiered
  else CatRatio.

Definition capitalized (word : jstr) : jstr :=
  match word with c :: r => upper_unit c :: r | [] => [] end.

(** [split('_')], each word capitalised, joined. *)
Definition optionKeyBySyncField (ratioType : jstr) : jstr :=
  if ratioType =s "billing_mode" then "billing_setting.billing_mode"
  else if ratioType =s "billing_expr" then "billing_setting.billing_expr"
  else List.concat (map capitalized (splitc 95 ratioType)).

(** * Selecting *)

Definition resolution_of (res : ResolutionsMap) (model : jstr) : ModelResolution :=
  match obj_get model res with Some r => r | None => [] end.

Definition deleteResolutionField (res : ResolutionsMap) (model ratioType : jstr) : ResolutionsMap :=
  match obj_get model res with
  | None => res
  | Some r =>
    let r := obj_delete ratioType r in
    let r := if ratioType =s "billing_expr" then obj_delete "billing_mode" r else r in
    let r := if ratioType =s "billing_mode" then obj_delete "billing_expr" r else r in
    match r with [] => obj_delete model res | _ => obj_set model r res end
  end.

(** The fields that stay when one of [category] is selected. *)
Definition compatible (category : BillingCategory) (rt : jstr) : bool :=
  negb (negb (bool_decide (category = CatTiered)) && negb (bool_decide (getBillingCategory rt = CatTiered))
        && negb (bool_decide (getBillingCategory rt = category))).

(** A value when it can be selected. *)
Definition selectable_value (value : option json) : option json :=
  if isSelectableUpstreamValue value then value else None.

(** The tiered fields of one source are selected together. *)
Definition pair_tiered (diffs : RatioTypes) (selected sourceName : jstr) (r : ModelResolution) : ModelResolution :=
  let r := match selectable_value (upstream_value diffs "billing_mode" sourceName) with
           | Some v => obj_set "billing_mode" v r
           | None => if selected =s "billing_expr" then obj_set "billing_mode" (JStr "tiered_expr") r else r
           end in
  match selectable_value (upstream_value diffs "billing_expr" sourceName) with
  | Some v => obj_set "billing_expr" v r
  | None => r
  end.

Definition handleSelectValue (differences : DifferencesMap) (model ratioType : jstr) (value : json)
  (sourceName : jstr) (res : ResolutionsMap) : ResolutionsMap :=
  let modelDiffs := obj_get model differences in
  let diffs := match modelDiffs with Some d => d | None => [] end in
  let preferredType := if truthy sourceName then getPreferredSyncField diffs ratioType sourceName else ratioType in
  let finalValue :=
    if preferredType =s ratioType then value
    else match upstream_value diffs preferredType sourceName with
         | None | Some JNull => value
         | Some v => v
         end in
  let category := getBillingCategory preferredType in
  let r := List.filter (fun rv => compatible category (fst rv)) (resolution_of res model) in
  let r := obj_set preferredType finalValue r in
  let r :=
    if bool_decide (category = CatTiered) && truthy sourceName && bool_decide (modelDiffs <> None) then
      pair_tiered diffs preferredType sourceName r
    else r in
  obj_set model r res.

Definition handleUnselectValue (model ratioType : jstr) (res : ResolutionsMap) : ResolutionsMap :=
  deleteResolutionField res model ratioType.

(** ** The table *)

Record SyncRow := { sr_model : jstr; sr_ratioTypes : RatioTypes; sr_billingConflict : bool }.

Definition dataSource (differences : DifferencesMap) : list SyncRow :=
  map (fun md =>
         let has f := memb f (map fst (snd md)) in
         {| sr_model := fst md; sr_ratioTypes := snd md;
            sr_billingConflict := has "model_price" && existsb has RATIO_SYNC_FIELDS |}) differences.

Definition filteredData (lower : jstr -> jstr) (search ratioTypeFilter : jstr) (data : list SyncRow) : list SyncRow :=
  let data := if truthy (trim search) then List.filter (fun r => includes (lower (sr_model r)) (lower search)) data
              else data in
  if truthy ratioTypeFilter && negb (ratioTypeFilter =s "__all__") then
    List.filter (fun r => memb ratioTypeFilter (map fst (sr_ratioTypes r))) data
  else data.

Definition upstreamNames (ratioTypeFilter : jstr) (data : list SyncRow) : list jstr :=
  uniq (flat_map (fun r => flat_map (fun rt => match obj_get rt (sr_ratioTypes r) with
                                               | Some d => map fst (rd_upstreams d)
                                               | None => []
                                               end) (getOrderedRatioTypes (sr_ratioTypes r) ratioTypeFilter)) data).

(** The values of one source that a row offers. *)
Definition selectable (upstream filter : jstr) (r : SyncRow) : list (jstr * json) :=
  flat_map (fun rt =>
    match upstream_value (sr_ratioTypes r) rt upstream with
    | Some v => if (getPreferredSyncField (sr_ratioTypes r) rt upstream =s rt) && isSelectableUpstreamValue (Some v)
                then [(rt, v)] else []
    | None => []
    end) (getOrderedRatioTypes (sr_ratioTypes r) filter).

Definition handleBulkSelect (differences : DifferencesMap) (filter upstream : jstr) (rows : list SyncRow)
  (res : ResolutionsMap) : ResolutionsMap :=
  fold_left (fun res r =>
    fold_left (fun res rv => handleSelectValue differences (sr_model r) (fst rv) (snd rv) upstream res)
      (selectable upstream filter r) res) rows res.

Definition handleBulkUnselect (filter upstream : jstr) (rows : list SyncRow) (res : ResolutionsMap) : ResolutionsMap :=
  fold_left (fun res r =>
    fold_left (fun res rt =>
      match upstream_value (sr_ratioTypes r) rt upstream with
      | Some _ => handleUnselectValue (sr_model r) rt res
      | None => res
      end) (getOrderedRatioTypes (sr_ratioTypes r) filter) res) rows res.

(** The header's check box: how many values a source offers, and how many are selected. *)
Definition header_counts (filter upstream : jstr) (rows : list SyncRow) (res : ResolutionsMap) : nat * nat :=
  let offered := flat_map (fun r => map (fun rv => (sr_model r, rv)) (selectable upstream filter r)) rows in
  (length offered,
   length (List.filter (fun mrv => strict_eq (obj_get (fst (snd mrv)) (resolution_of res (fst mrv)))
                                             (Some (snd (snd mrv)))) offered)).

(** * Applying *)

(** The parsed settings, by option key. *)
Abbreviation Ratios := (list (jstr * table)).

Definition parseJsonRecord (raw : jstr) : option table :=
  match json_parse (str_or raw "{}") with
  | None => Some []
  | Some (JObj o) => Some o
  | Some _ => None
  end.

Definition option_texts (s : Settings) : list (jstr * jstr) :=
  let p := st_prices s in
  [("ModelRatio", p_ratio p); ("CompletionRatio", p_completionRatio p); ("CacheRatio", p_cacheRatio p);
   ("CreateCacheRatio", p_createCacheRatio p); ("ImageRatio", p_imageRatio p); ("AudioRatio", p_audioRatio p);
   ("AudioCompletionRatio", p_audioCompletionRatio p); ("ModelPrice", p_price p);
   ("billing_setting.billing_mode", st_billingMode s); ("billing_setting.billing_expr", st_billingExpr s)].

Fixpoint parse_records (texts : list (jstr * jstr)) : option Ratios :=
  match texts with
  | [] => Some []
  | (k, raw) :: rest =>
    match parseJsonRecord raw, parse_records rest with
    | Some o, Some rs => Some ((k, o) :: rs)
    | _, _ => None
    end
  end.

Definition parsedRatios (s : Settings) : option Ratios := parse_records (option_texts s).

(** [ratios[key][model]] *)
Definition local_value (rs : Ratios) (key model : jstr) : option json :=
  match obj_get key rs with Some o => obj_get model o | None => None end.

Definition RATIO_KEYS : list jstr := map optionKeyBySyncField RATIO_SYNC_FIELDS.

Definition getLocalBillingCategory (model : jstr) (currentRatios : Ratios) : option BillingCategory :=
  let has key := match local_value currentRatios key model with Some _ => true | None => false end in
  if has "ModelPrice" then Some CatPrice
  else if existsb has RATIO_KEYS then Some CatRatio
  else None.

Definition delete_in (model key : jstr) (rs : Ratios) : Ratios :=
  match obj_get key rs with Some o => obj_set key (obj_delete model o) rs | None => rs end.

Definition synced_value (ratioType : jstr) (v : json) : json :=
  if memb ratioType NUMERIC_SYNC_FIELDS then JNum (js_Number v) else v.

(** [finalRatios[optionKey][model] = ...]; an unknown key throws. *)
Fixpoint write_fields (model : jstr) (ratios : ModelResolution) (rs : Ratios) : exc Ratios :=
  match ratios with
  | [] => Ret rs
  | (ratioType, v) :: rest =>
    let key := optionKeyBySyncField ratioType in
    match obj_get key rs with
    | None => Throw
    | Some o => write_fields model rest (obj_set key (obj_set model (synced_value ratioType v) o) rs)
    end
  end.

Definition has_price (ratios : ModelResolution) : bool := memb "model_price" (map fst ratios).
Definition has_ratio (ratios : ModelResolution) : bool :=
  existsb (fun rt => memb rt RATIO_SYNC_FIELDS) (map fst ratios).

Definition sync_model (model : jstr) (ratios : ModelResolution) (rs : Ratios) : exc Ratios :=
  let rs := if has_price ratios then fold_left (fun rs k => delete_in model k rs) RATIO_KEYS rs else rs in
  let rs := if has_ratio ratios then delete_in model "ModelPrice" rs else rs in
  write_fields model ratios rs.

Fixpoint sync_models (res : ResolutionsMap) (rs : Ratios) : exc Ratios :=
  match res with
  | [] => Ret rs
  | (model, ratios) :: rest => rs <-! sync_model model ratios rs; sync_models rest rs
  end.

(** The updates that are sent, in this order. *)
Definition performSync (res : ResolutionsMap) (currentRatios : Ratios) : exc (list (jstr * jstr)) :=
  rs <-! sync_models res currentRatios;
  Ret (map (fun ko => (fst ko, print_map (snd ko))) rs).

(** The mutation: one call after the other, until one fails; [saves] are the server's
    answers.  The updates that were taken, and whether all were. *)
Fixpoint syncMutate (updates : list (jstr * jstr)) (saves : list bool) : list (jstr * jstr) * bool :=
  match updates, saves with
  | [], _ => ([], true)
  | u :: us, true :: ss => let '(taken, ok) := syncMutate us ss in (u :: taken, ok)
  | _ :: _, _ => ([], false)
  end.

(** After success: the resolved differences go. *)
Definition remove_difference (model ratioType : jstr) (diffs : DifferencesMap) : DifferencesMap :=
  match obj_get model diffs with
  | None => diffs
  | Some d =>
    match obj_get ratioType d with
    | None => diffs
    | Some _ => match obj_delete ratioType d with
                | [] => obj_delete model diffs
                | d' => obj_set model d' diffs
                end
    end
  end.

Definition resolved (res : ResolutionsMap) (diffs : DifferencesMap) : DifferencesMap :=
  fold_left (fun d mr => fold_left (fun d rt => remove_difference (fst mr) rt d) (map fst (snd mr)) d) res diffs.

(** ** Conflicts *)

Record ConflictItem := { ci_channel : jstr; ci_model : jstr; ci_current : jstr; ci_newVal : jstr }.

(** [`${v}`], and [v ?? '-'] in it *)
Definition template (v : option json) : jstr := match v with Some v => js_String v | None => "undefined" end.
Definition or_dash (v : option json) : jstr :=
  match v with None | Some JNull => "-" | Some v => js_String v end.

Definition findSourceChannel (differences : DifferencesMap) (model ratioType : jstr) (value : json) : jstr :=
  match obj_get model differences with
  | None => "Unknown"
  | Some d =>
    match obj_get ratioType d with
    | None => "Unknown"
    | Some rd =>
      match List.find (fun nv => strict_eq (Some (snd nv)) (Some value)) (rd_upstreams rd) with
      | Some nv => fst nv
      | None => "Unknown"
      end
    end
  end.

Definition newCategory (ratios : ModelResolution) : BillingCategory :=
  if has_price ratios then CatPrice else if has_ratio ratios then CatRatio else CatTiered.

(** Does applying take the model to another category? *)
Definition conflicting (currentRatios : Ratios) (mr : jstr * ModelResolution) : bool :=
  match getLocalBillingCategory (fst mr) currentRatios with
  | None => false
  | Some localCat =>
    let newCat := newCategory (snd mr) in
    negb (bool_decide (newCat = CatTiered)) && negb (bool_decide (localCat = newCat))
  end.

Section Labels.
Context (t : jstr -> jstr).

Definition conflict_item (differences : DifferencesMap) (rs : Ratios) (mr : jstr * ModelResolution) : ConflictItem :=
  let '(model, ratios) := mr in
  let pair ratio completion :=
    t "Model ratio" ++ ": " ++ or_dash ratio ++ [lf] ++ t "Completion ratio" ++ ": " ++ or_dash completion in
  {| ci_channel := join ", " (uniq (map (fun rv => findSourceChannel differences model (fst rv) (snd rv)) ratios));
     ci_model := model;
     ci_current := if bool_decide (getLocalBillingCategory model rs = Some CatPrice)
                   then t "Fixed price" ++ ": " ++ template (local_value rs "ModelPrice" model)
                   else pair (local_value rs "ModelRatio" model) (local_value rs "CompletionRatio" model);
     ci_newVal := if bool_decide (newCategory ratios = CatPrice)
                  then t "Fixed price" ++ ": " ++ template (obj_get "model_price" ratios)
                  else pair (obj_get "model_ratio" ratios) (obj_get "completion_ratio" ratios) |}.

Definition conflicts (differences : DifferencesMap) (res : ResolutionsMap) (rs : Ratios) : list ConflictItem :=
  map (conflict_item differences rs) (List.filter (conflicting rs) res).

(** ** The component *)

Record SyncState := {
  sy_settings : Settings;
  sy_differences : DifferencesMap;
  sy_resolutions : ResolutionsMap;
  sy_conflicts : list ConflictItem;
  sy_dialog : bool
}.

Definition with_resolutions (res : ResolutionsMap) (s : SyncState) : SyncState :=
  {| sy_settings := sy_settings s; sy_differences := sy_differences s; sy_resolutions := res;
     sy_conflicts := sy_conflicts s; sy_dialog := sy_dialog s |}.

(** The differences arrived. *)
Definition fetched (diffs : DifferencesMap) (s : SyncState) : SyncState :=
  {| sy_settings := sy_settings s; sy_differences := diffs; sy_resolutions := [];
     sy_conflicts := sy_conflicts s; sy_dialog := sy_dialog s |}.

(** What the reader asks for next: the confirmation, or the updates. *)
Inductive ApplyResult := AskConfirmation (s : SyncState) | Send (updates : list (jstr * jstr)) | ApplyThrows
                       | ApplyUnmodelled.

Definition send (s : SyncState) (rs : Ratios) : ApplyResult :=
  match performSync (sy_resolutions s) rs with Ret updates => Send updates | Throw => ApplyThrows end.

Definition handleApplySync (s : SyncState) : ApplyResult :=
  match parsedRatios (sy_settings s) with
  | None => ApplyUnmodelled
  | Some rs =>
    match conflicts (sy_differences s) (sy_resolutions s) rs with
    | [] => send s rs
    | items => AskConfirmation {| sy_settings := sy_settings s; sy_differences := sy_differences s;
                                  sy_resolutions := sy_resolutions s; sy_conflicts := items; sy_dialog := true |}
    end
  end.

Definition handleConfirmConflict (s : SyncState) : ApplyResult :=
  match parsedRatios (sy_settings s) with None => ApplyUnmodelled | Some rs => send s rs end.

(** A text the server has taken over. *)
Definition save_option (u : jstr * jstr) (s : Settings) : Settings :=
  let '(key, text) := u in
  let set f := {| st_prices := set_field f text (st_prices s); st_billingMode := st_billingMode s;
                  st_billingExpr := st_billingExpr s |} in
  if key =s "ModelPrice" then set FPrice
  else if key =s "ModelRatio" then set FRatio
  else if key =s "CompletionRatio" then set FCompletionRatio
  else if key =s "CacheRatio" then set FCacheRatio
  else if key =s "CreateCacheRatio" then set FCreateCacheRatio
  else if key =s "ImageRatio" then set FImageRatio
  else if key =s "AudioRatio" then set FAudioRatio
  else if key =s "AudioCompletionRatio" then set FAudioCompletionRatio
  else if key =s "billing_setting.billing_mode" then
    {| st_prices := st_prices s; st_billingMode := text; st_billingExpr := st_billingExpr s |}
  else if key =s "billing_setting.billing_expr" then
    {| st_prices := st_prices s; st_billingMode := st_billingMode s; st_billingExpr := text |}
  else s.

(** The answers of the server to the updates: what is stored, and the component.  The
    differences and selections change, and the settings are read again, only when all
    updates were taken. *)
Definition answered (updates : list (jstr * jstr)) (saves : list bool) (s : SyncState) : Settings * SyncState :=
  let '(taken, ok) := syncMutate updates saves in
  let stored := fold_left (fun st u => save_option u st) taken (sy_settings s) in
  if ok then
    (stored, {| sy_settings := stored; sy_differences := resolved (sy_resolutions s) (sy_differences s);
                sy_resolutions := []; sy_conflicts := sy_conflicts s; sy_dialog := false |})
  else (stored, s).

End Labels.

(** * Selections *)

Inductive SyncAction :=
| ASelect (model ratioType : jstr) (value : json) (sourceName : jstr)
| AUnselect (model ratioType : jstr)
| ABulkSelect (filter upstream : jstr) (rows : list SyncRow)
| ABulkUnselect (filter upstream : jstr) (rows : list SyncRow).

Definition sync_act (differences : DifferencesMap) (res : ResolutionsMap) (a : SyncAction) : ResolutionsMap :=
  match a with
  | ASelect m rt v src => handleSelectValue differences m rt v src res
  | AUnselect m rt => handleUnselectValue m rt res
  | ABulkSelect f u rows => handleBulkSelect differences f u rows res
  | ABulkUnselect f u rows => handleBulkUnselect f u rows res
  end.

(** What one model may have selected. *)
Record model_ok (r : ModelResolution) : Prop := {
  mo_keys : List.NoDup (map fst r);
  mo_known : Forall (fun rt => In rt SYNC_FIELD_ORDER) (map fst r);
  mo_exclusive : has_price r && has_ratio r = false;
  mo_paired : obj_get "billing_expr" r <> None -> obj_get "billing_mode" r <> None
}.

Definition selection_ok (res : ResolutionsMap) : Prop :=
  List.NoDup (map fst res) /\ Forall (fun mr => snd mr <> [] /\ model_ok (snd mr)) res.

(** A selection the table can make: a known field of a model it shows, from a named source. *)
Definition offered (differences : DifferencesMap) (model ratioType src : jstr) : Prop :=
  In ratioType SYNC_FIELD_ORDER /\ src <> [] /\ obj_get model differences <> None.

Definition action_offered (differences : DifferencesMap) (a : SyncAction) : Prop :=
  match a with
  | ASelect m rt _ src => offered differences m rt src
  | AUnselect _ _ | ABulkUnselect _ _ _ => True
  | ABulkSelect f u rows =>
    u <> [] /\ Forall (fun r => obj_get (sr_model r) differences <> None
                        /\ Forall (fun rt => In rt SYNC_FIELD_ORDER) (map fst (sr_ratioTypes r))) rows
  end.

(** ** One model *)

Lemma ratio_category f : In f RATIO_SYNC_FIELDS -> getBillingCategory f = CatRatio.
Proof. intros H. repeat destruct H as [<-|H]; easy. Qed.

Lemma has_price_iff r : has_price r = true <-> In "model_price"%js (map fst r).
Proof. apply memb_In. Qed.

Lemma has_ratio_iff r : has_ratio r = true <-> exists f, In f (map fst r) /\ In f RATIO_SYNC_FIELDS.
Proof.
  unfold has_ratio. rewrite existsb_exists. split; intros (f & H1 & H2); exists f; (split; [easy|]); now apply memb_In.
Qed.

(** No model has both a price and a ratio. *)
Definition exclusive (ks : list jstr) : Prop :=
  forall f, In "model_price"%js ks -> In f ks -> ~ In f RATIO_SYNC_FIELDS.

Lemma exclusive_iff r : has_price r && has_ratio r = false <-> exclusive (map fst r).
Proof.
  unfold exclusive. rewrite andb_false_iff, <- !not_true_iff_false, has_price_iff, has_ratio_iff. split.
  - intros [H|H] f Hp Hf Hr; [easy|]. apply H. now exists f.
  - intros H. destruct (memb "model_price" (map fst r)) eqn:E; [right|left; now apply memb_not_In].
    apply memb_In in E. intros (f & Hf & Hr). now apply (H f).
Qed.

Record model_core (r : ModelResolution) : Prop := {
  mc_keys : List.NoDup (map fst r);
  mc_known : forall x, In x (map fst r) -> In x SYNC_FIELD_ORDER;
  mc_exclusive : exclusive (map fst r)
}.

Lemma model_ok_core r : model_ok r <-> model_core r /\ (In "billing_expr"%js (map fst r) -> In "billing_mode"%js (map fst r)).
Proof.
  rewrite <- !obj_get_keys. split.
  - intros [H1 H2 H3 H4]. split; [|exact H4]. split; [easy| |now apply exclusive_iff].
    intros x. now apply (proj1 (List.Forall_forall _ _) H2).
  - intros [[H1 H2 H3] H4]. split; [easy|now apply List.Forall_forall|now apply exclusive_iff|exact H4].
Qed.

Lemma filter_keys (f : jstr -> bool) (r : ModelResolution) x :
  In x (map fst (List.filter (fun rv => f (fst rv)) r)) <-> In x (map fst r) /\ f x = true.
Proof.
  rewrite !in_map_iff. split.
  - intros ([k v] & <- & [Hin Hf]%filter_In). split; [now exists (k, v)|exact Hf].
  - intros (([k v] & <- & Hin) & Hf). exists (k, v). split; [easy|]. now apply filter_In.
Qed.

(** A field is selected, the fields of other categories dropped. *)
Lemma core_select rt v r :
  In rt SYNC_FIELD_ORDER -> model_core r ->
  model_core (obj_set rt v (List.filter (fun rv => compatible (getBillingCategory rt) (fst rv)) r)).
Proof.
  intros Hrt [Hk Hn He]. split.
  - now apply obj_set_NoDup, obj_filter_NoDup.
  - intros x [-> | [H _]%filter_keys]%obj_set_keys; auto.
  - intros f [Hp|[Hp Hcp]%filter_keys]%obj_set_keys [Hf|[Hf Hcf]%filter_keys]%obj_set_keys Hr.
    + subst. repeat destruct Hr as [Hr|Hr]; easy.
    + subst rt. unfold compatible in Hcf. rewrite (ratio_category f Hr) in Hcf. now cbn in Hcf.
    + subst rt. unfold compatible in Hcp. rewrite (ratio_category f Hr) in Hcp. now cbn in Hcp.
    + now apply (He f).
Qed.

Definition tiered_field (rt : jstr) : Prop := rt = "billing_mode"%js \/ rt = "billing_expr"%js.

Lemma core_tiered rt v r : tiered_field rt -> model_core r -> model_core (obj_set rt v r).
Proof.
  intros Ht [Hk Hn He]. split.
  - now apply obj_set_NoDup.
  - intros x [-> | H]%obj_set_keys; [|auto]. destruct Ht as [-> | ->]; cbn; tauto.
  - intros f [Hp|Hp]%obj_set_keys [Hf|Hf]%obj_set_keys Hr; [destruct Ht; now subst| destruct Ht; now subst| |now apply (He f)].
    destruct Ht; subst; repeat destruct Hr as [Hr|Hr]; easy.
Qed.

Lemma core_delete rt r : model_core r -> model_core (obj_delete rt r).
Proof.
  intros [Hk Hn He]. assert (Hin : forall x, In x (map fst (obj_delete rt r)) -> In x (map fst r)).
  { intros x. rewrite obj_delete_keys. now intros [H _]%filter_In. }
  split; [now apply obj_delete_NoDup|auto|]. intros f Hp Hf. apply He; auto.
Qed.

Lemma deleted_key {V} k x (o : list (jstr * V)) : In x (map fst (obj_delete k o)) <-> In x (map fst o) /\ x <> k.
Proof. rewrite obj_delete_keys, filter_In, negb_true_iff, seqb_neq. easy. Qed.

(** ** All models *)

Lemma resolution_core res m : selection_ok res -> model_core (resolution_of res m)
  /\ (In "billing_expr"%js (map fst (resolution_of res m)) -> In "billing_mode"%js (map fst (resolution_of res m))).
Proof.
  intros [_ H]. unfold resolution_of. destruct (obj_get m res) as [r|] eqn:E.
  - apply obj_get_In in E. apply model_ok_core. exact (proj2 (proj1 (List.Forall_forall _ _) H _ E)).
  - split; [|easy]. split; [constructor|easy|easy].
Qed.

Lemma selection_set res m r : r <> [] -> model_ok r -> selection_ok res -> selection_ok (obj_set m r res).
Proof. intros Hne Hr [Hk H]. split; [now apply obj_set_NoDup|]. now apply obj_set_Forall. Qed.

Lemma unselect_ok m rt res : selection_ok res -> selection_ok (handleUnselectValue m rt res).
Proof.
  intros H. unfold handleUnselectValue, deleteResolutionField. destruct (obj_get m res) as [r|] eqn:E; [|easy].
  pose proof (resolution_core res m H) as [Hc Hp]. unfold resolution_of in *. rewrite E in *.
  set (r' := if rt =s "billing_mode" then _ else _).
  assert (Hr' : model_ok r').
  { apply model_ok_core. subst r'. split.
    - destruct (rt =s "billing_mode"), (rt =s "billing_expr"); auto using core_delete.
    - destruct (seqb_spec rt "billing_mode") as [->|Hm].
      + cbn [seqb]. rewrite !deleted_key. now intros [_ H'].
      + destruct (seqb_spec rt "billing_expr") as [->|He]; rewrite !deleted_key; intuition congruence. }
  clearbody r'. destruct r' as [|kv r']; [|now apply selection_set].
  destruct H as [Hk H]. split; [now apply obj_delete_NoDup|now apply obj_delete_Forall].
Qed.

Lemma core_pair diffs selected src r : model_core r -> model_core (pair_tiered diffs selected src r).
Proof.
  intros H. unfold pair_tiered. assert (Hm : tiered_field "billing_mode") by now left.
  assert (He : tiered_field "billing_expr") by now right.
  repeat case_match; auto using core_tiered.
Qed.

(** Pairing leaves no expression without a mode. *)
Lemma pair_paired diffs selected src r :
  (In "billing_expr"%js (map fst r) -> selected = "billing_expr"%js \/ In "billing_mode"%js (map fst r)) ->
  (selectable_value (upstream_value diffs "billing_expr" src) <> None ->
   selected = "billing_expr"%js \/ In "billing_mode"%js (map fst r)) ->
  In "billing_expr"%js (map fst (pair_tiered diffs selected src r)) ->
  In "billing_mode"%js (map fst (pair_tiered diffs selected src r)).
Proof.
  unfold pair_tiered. set (mode := selectable_value (upstream_value diffs "billing_mode" src)).
  set (expr := selectable_value (upstream_value diffs "billing_expr" src)). intros Hr Hs.
  destruct mode as [w|], expr as [w'|]; rewrite ?obj_set_keys; try tauto;
    destruct (seqb_spec selected "billing_expr") as [->|Hne]; rewrite ?obj_set_keys; try tauto.
  intros _. right. destruct Hs as [E|H]; [easy|contradiction|exact H].
Qed.

Lemma pair_keeps diffs selected src r x :
  In x (map fst r) -> In x (map fst (pair_tiered diffs selected src r)).
Proof. unfold pair_tiered. intros H. repeat case_match; rewrite ?obj_set_keys; tauto. Qed.

Lemma in_keys_nonempty {V} x (o : list (jstr * V)) : In x (map fst o) -> o <> [].
Proof. intros H ->. easy. Qed.

Lemma preferred_known diffs rt src : In rt SYNC_FIELD_ORDER -> In (getPreferredSyncField diffs rt src) SYNC_FIELD_ORDER.
Proof. intros H. unfold getPreferredSyncField. destruct (_ && _); [cbn; tauto|exact H]. Qed.

Lemma select_ok differences m rt v src res :
  offered differences m rt src -> selection_ok res -> selection_ok (handleSelectValue differences m rt v src res).
Proof.
  intros (Hrt & Hsrc & Hm) H. unfold handleSelectValue. apply truthy_iff in Hsrc. rewrite Hsrc.
  destruct (obj_get m differences) as [diffs|] eqn:E; [|easy]. cbn [andb].
  set (p := getPreferredSyncField diffs rt src). set (v' := if p =s rt then v else _).
  pose proof (preferred_known diffs rt src Hrt : In p SYNC_FIELD_ORDER) as Hp.
  destruct (resolution_core res m H) as [Hc Hpair].
  pose proof (core_select p v' _ Hp Hc) as Hcore. set (r := obj_set p v' _) in *.
  assert (Hin : forall x, In x (map fst r) <-> x = p \/ In x (map fst (resolution_of res m))
                          /\ compatible (getBillingCategory p) x = true).
  { intros x. unfold r. now rewrite obj_set_keys, filter_keys. }
  assert (Hmode : In "billing_expr"%js (map fst r) -> p = "billing_expr"%js \/ In "billing_mode"%js (map fst r)).
  { rewrite !Hin. intros [->|[Hx _]]; [now left|right; right]. split; [now apply Hpair|].
    unfold compatible. cbn. now rewrite andb_false_r. }
  assert (Hexpr : selectable_value (upstream_value diffs "billing_expr" src) <> None -> p = "billing_expr"%js).
  { unfold selectable_value, p, getPreferredSyncField. destruct (isSelectableUpstreamValue _); [|easy].
    destruct (seqb_spec rt "billing_expr"); now cbn. }
  destruct (bool_decide _ && _ && _) eqn:Et; apply selection_set; try exact H.
  - apply (in_keys_nonempty p). apply pair_keeps, Hin. now left.
  - apply model_ok_core. split; [now apply core_pair|]. apply pair_paired; [exact Hmode|]. intros Hx. left. auto.
  - apply (in_keys_nonempty p), Hin. now left.
  - apply model_ok_core. split; [exact Hcore|]. intros [Ep|Hx]%Hmode; [|exact Hx]. rewrite Ep in Et. easy.
Qed.

Lemma bulk_unselect_ok f u rows res : selection_ok res -> selection_ok (handleBulkUnselect f u rows res).
Proof.
  unfold handleBulkUnselect. revert res. induction rows as [|r rows IH]; intros res H; [exact H|]. cbn [fold_left].
  apply IH. revert res H. induction (getOrderedRatioTypes (sr_ratioTypes r) f) as [|rt rts IHr]; intros res H; [easy|].
  cbn [fold_left]. apply IHr. destruct (upstream_value _ _ _); [now apply unselect_ok|exact H].
Qed.

Lemma ordered_known rts f :
  Forall (fun rt => In rt SYNC_FIELD_ORDER) (map fst rts) ->
  Forall (fun rt => In rt SYNC_FIELD_ORDER) (getOrderedRatioTypes rts f).
Proof.
  intros H. unfold getOrderedRatioTypes. set (l := _ ++ _).
  assert (Hl : Forall (fun rt => In rt SYNC_FIELD_ORDER) l).
  { apply List.Forall_forall. unfold l. intros x [[Hx _]%filter_In|[Hx _]%filter_In]%in_app_iff; [easy|].
    exact (proj1 (List.Forall_forall _ _) H x Hx). }
  destruct (_ || _); [exact Hl|]. apply List.Forall_forall. intros x [Hx _]%filter_In.
  exact (proj1 (List.Forall_forall _ _) Hl x Hx).
Qed.

Lemma bulk_select_ok differences f u rows : forall res,
  action_offered differences (ABulkSelect f u rows) -> selection_ok res ->
  selection_ok (handleBulkSelect differences f u rows res).
Proof.
  unfold handleBulkSelect. induction rows as [|r rows IH]; intros res [Hu Hrows] H; [exact H|].
  apply Forall_cons_1 in Hrows as [[Hm Hk] Hrows]. cbn [fold_left]. apply IH; [easy|].
  assert (Hs : Forall (fun rv => In (fst rv) SYNC_FIELD_ORDER) (selectable u f r)).
  { unfold selectable. apply List.Forall_forall. intros x (rt & Hrt & Hx)%in_flat_map.
    pose proof (proj1 (List.Forall_forall _ _) (ordered_known _ f Hk) rt Hrt) as Hin.
    destruct (upstream_value _ _ _); [|easy]. destruct (_ && _); [|easy]. now destruct Hx as [<-|[]]. }
  clear IH. revert res H. induction Hs as [|rv rvs Hrv _ IHs]; intros res H; [easy|]. cbn [fold_left].
  apply IHs. now apply select_ok.
Qed.

Lemma act_ok differences a res :
  action_offered differences a -> selection_ok res -> selection_ok (sync_act differences res a).
Proof.
  destruct a; cbn [sync_act]; intros Ha H;
    [now apply select_ok|now apply unselect_ok|now apply bulk_select_ok|now apply bulk_unselect_ok].
Qed.

Lemma acts_ok differences acts : forall res,
  selection_ok res -> Forall (action_offered differences) acts ->
  selection_ok (fold_left (sync_act differences) acts res).
Proof.
  induction acts as [|a acts IH]; intros res H Ha; [exact H|]. apply Forall_cons_1 in Ha as [Ha Has].
  cbn [fold_left]. apply IH; [now apply act_ok|exact Has].
Qed.

(** whatever is selected and unselected, one by one or in bulk, no model ever has a fixed
    price and ratios selected together, an expression is never selected without its billing
    mode, and no model is listed without a selection. *)
Theorem selection_invariant differences acts :
  Forall (action_offered differences) acts -> selection_ok (fold_left (sync_act differences) acts []).
Proof. apply acts_ok. split; constructor. Qed.

(** * Writing *)

Definition option_keys : list jstr := map fst (option_texts (print_tables
  {| tb_prices := prices_of (fun _ => []); tb_billingMode := []; tb_billingExpr := [] |})).

Abbreviation okey := optionKeyBySyncField (only parsing).

(** Every field has its own text, and these are the ten of the settings. *)
Lemma option_key_inj a b :
  In a SYNC_FIELD_ORDER -> In b SYNC_FIELD_ORDER -> (okey a =s okey b) = (a =s b).
Proof.
  assert (H : forallb (fun a => forallb (fun b => Bool.eqb (okey a =s okey b) (a =s b)) SYNC_FIELD_ORDER)
                SYNC_FIELD_ORDER = true) by (vm_compute; reflexivity).
  rewrite forallb_forall in H. intros Ha Hb. specialize (H a Ha). rewrite forallb_forall in H.
  now apply eqb_prop, H.
Qed.

Lemma option_key_known rt : In rt SYNC_FIELD_ORDER -> In (okey rt) option_keys.
Proof.
  intros H. apply memb_In. revert rt H.
  now assert (H : forallb (fun rt => memb (okey rt) option_keys) SYNC_FIELD_ORDER = true) by (vm_compute; reflexivity);
    rewrite forallb_forall in H.
Qed.

Lemma ratio_key rt : In rt SYNC_FIELD_ORDER -> memb (okey rt) RATIO_KEYS = memb rt RATIO_SYNC_FIELDS.
Proof.
  assert (H : forallb (fun rt => Bool.eqb (memb (okey rt) RATIO_KEYS) (memb rt RATIO_SYNC_FIELDS)) SYNC_FIELD_ORDER
              = true) by (vm_compute; reflexivity).
  rewrite forallb_forall in H. intros Hin. now apply eqb_prop, H.
Qed.

Lemma obj_set_same_keys {V} k (v : V) o : In k (map fst o) -> map fst (obj_set k v o) = map fst o.
Proof.
  intros H. unfold obj_set. destruct (obj_update k v o) as [o'|] eqn:E; [now apply (obj_update_keys k v)|].
  apply obj_update_None, obj_get_None in E. contradiction.
Qed.

(** Parsed settings: the ten keys in order. *)
Definition keyed (rs : Ratios) : Prop := map fst rs = option_keys.

Lemma keyed_get rs rt : keyed rs -> In rt SYNC_FIELD_ORDER -> exists o, obj_get (okey rt) rs = Some o.
Proof.
  intros Hk Hrt. destruct (obj_get (okey rt) rs) as [o|] eqn:E; [now exists o|].
  apply obj_get_None in E. rewrite Hk in E. now apply option_key_known in Hrt.
Qed.

Lemma keyed_set rs key o : keyed rs -> In key option_keys -> keyed (obj_set key o rs).
Proof. unfold keyed. intros Hk Hin. rewrite obj_set_same_keys; congruence. Qed.

Lemma local_set rs key key' o m :
  local_value (obj_set key' o rs) key m = if key =s key' then obj_get m o else local_value rs key m.
Proof. unfold local_value. rewrite obj_get_set. now destruct (key =s key'). Qed.

Lemma delete_in_local model k rs key m :
  local_value (delete_in model k rs) key m = if (key =s k) && (m =s model) then None else local_value rs key m.
Proof.
  unfold delete_in. destruct (obj_get k rs) as [o|] eqn:E.
  - rewrite local_set. destruct (seqb_spec key k) as [->|]; [|easy]. cbn [andb]. rewrite obj_get_delete.
    destruct (m =s model); [easy|]. unfold local_value. now rewrite E.
  - destruct (seqb_spec key k) as [->|]; [|easy]. unfold local_value. rewrite E. now destruct (m =s model).
Qed.

Lemma delete_in_keyed model k rs : keyed rs -> keyed (delete_in model k rs).
Proof.
  intros H. unfold delete_in. destruct (obj_get k rs) as [o|] eqn:E; [|easy]. apply keyed_set; [easy|].
  rewrite <- H. apply obj_get_keys. congruence.
Qed.

Lemma delete_all_local model ks key m : forall rs,
  local_value (fold_left (fun rs k => delete_in model k rs) ks rs) key m
  = if memb key ks && (m =s model) then None else local_value rs key m.
Proof.
  induction ks as [|k ks IH]; intros rs; [easy|]. cbn [fold_left memb existsb]. rewrite IH, delete_in_local.
  fold (memb key ks). now destruct (key =s k), (memb key ks), (m =s model).
Qed.

Lemma delete_all_keyed model ks : forall rs, keyed rs -> keyed (fold_left (fun rs k => delete_in model k rs) ks rs).
Proof. induction ks as [|k ks IH]; intros rs H; [easy|]. apply IH. now apply delete_in_keyed. Qed.

(** The fields of one model are written, nothing else. *)
Lemma write_fields_value model ratios : forall rs,
  keyed rs -> List.NoDup (map fst ratios) -> (forall x, In x (map fst ratios) -> In x SYNC_FIELD_ORDER) ->
  exists rs', write_fields model ratios rs = Ret rs' /\ keyed rs'
    /\ forall rt m, In rt SYNC_FIELD_ORDER ->
       local_value rs' (okey rt) m
       = match (if m =s model then obj_get rt ratios else None) with
         | Some v => Some (synced_value rt v)
         | None => local_value rs (okey rt) m
         end.
Proof.
  induction ratios as [|[f v] ratios IH]; intros rs Hk Hnd Hkn; cbn [write_fields].
  - exists rs. repeat split; [easy|]. intros rt m _. now destruct (m =s model).
  - cbn [map fst] in *. apply List.NoDup_cons_iff in Hnd as [Hf Hnd].
    destruct (keyed_get rs f Hk) as [o Ho]; [apply Hkn; now left|]. rewrite Ho.
    destruct (IH (obj_set (okey f) (obj_set model (synced_value f v) o) rs)) as (rs' & -> & Hk' & Hl);
      [apply keyed_set; [easy|apply option_key_known, Hkn; now left]|easy|intros x Hx; apply Hkn; now right|].
    exists rs'. split; [easy|]. split; [easy|]. intros rt m Hrt. rewrite Hl by easy. cbn [obj_get].
    rewrite local_set, (option_key_inj rt f) by (easy || apply Hkn; now left).
    destruct (m =s model) eqn:Em.
    + destruct (seqb_spec rt f) as [->|Hne]; [|easy]. rewrite (proj2 (obj_get_None f ratios) Hf).
      now rewrite obj_get_set, Em.
    + destruct (seqb_spec rt f) as [->|Hne]; [|easy]. rewrite obj_get_set, Em. unfold local_value. now rewrite Ho.
Qed.

(** The value a model has in a field after the synchronisation. *)
Definition synced_local (ratios : ModelResolution) (rt : jstr) (before : option json) : option json :=
  match obj_get rt ratios with
  | Some v => Some (synced_value rt v)
  | None =>
    if (has_price ratios && memb rt RATIO_SYNC_FIELDS) || (has_ratio ratios && (rt =s "model_price")) then None
    else before
  end.

Lemma sync_model_value model ratios rs :
  keyed rs -> model_ok ratios ->
  exists rs', sync_model model ratios rs = Ret rs' /\ keyed rs'
    /\ forall rt m, In rt SYNC_FIELD_ORDER ->
       local_value rs' (okey rt) m
       = if m =s model then synced_local ratios rt (local_value rs (okey rt) m) else local_value rs (okey rt) m.
Proof.
  intros Hk [[Hnd Hkn _] _]%model_ok_core. unfold sync_model.
  set (rs1 := if has_price ratios then _ else rs). set (rs2 := if has_ratio ratios then _ else rs1).
  assert (H1 : keyed rs1) by (subst rs1; destruct (has_price ratios); [now apply delete_all_keyed|easy]).
  assert (H2 : keyed rs2) by (subst rs2; destruct (has_ratio ratios); [now apply delete_in_keyed|easy]).
  destruct (write_fields_value model ratios rs2 H2 Hnd Hkn) as (rs' & -> & Hk' & Hl).
  exists rs'. split; [easy|]. split; [easy|]. intros rt m Hrt. rewrite Hl by easy. unfold synced_local.
  assert (Hp : (okey rt =s "ModelPrice") = (rt =s "model_price"))
    by (apply (option_key_inj rt "model_price"); [easy|cbn; tauto]).
  assert (E : local_value rs2 (okey rt) m
    = if (m =s model) && ((has_price ratios && memb rt RATIO_SYNC_FIELDS) || (has_ratio ratios && (rt =s "model_price")))
      then None else local_value rs (okey rt) m).
  { subst rs2 rs1. rewrite <- (ratio_key rt Hrt). 
    destruct (has_ratio ratios); rewrite ?delete_in_local, ?Hp;
      destruct (has_price ratios); rewrite ?delete_all_local;
      destruct (m =s model), (rt =s "model_price"), (memb (okey rt) RATIO_KEYS); easy. }
  rewrite E. destruct (m =s model); [|easy]. now destruct (obj_get rt ratios).
Qed.

Lemma sync_models_value res : forall rs,
  keyed rs -> selection_ok res ->
  exists rs', sync_models res rs = Ret rs' /\ keyed rs'
    /\ forall rt m, In rt SYNC_FIELD_ORDER ->
       local_value rs' (okey rt) m
       = match obj_get m res with
         | Some ratios => synced_local ratios rt (local_value rs (okey rt) m)
         | None => local_value rs (okey rt) m
         end.
Proof.
  induction res as [|[model ratios] res IH]; intros rs Hk [Hnd H]; cbn [sync_models]; [now exists rs|].
  cbn [map fst] in Hnd. apply List.NoDup_cons_iff in Hnd as [Hm Hnd]. apply Forall_cons_1 in H as [[_ Hok] H].
  destruct (sync_model_value model ratios rs Hk Hok) as (rs1 & -> & Hk1 & Hl1). cbn [exc_bind].
  destruct (IH rs1 Hk1 (conj Hnd H)) as (rs' & -> & Hk' & Hl). exists rs'. split; [easy|]. split; [easy|].
  intros rt m Hrt. rewrite Hl, Hl1 by easy. cbn [obj_get]. destruct (seqb_spec m model) as [->|]; [|easy].
  now rewrite (proj2 (obj_get_None model res) Hm).
Qed.

(** ** Well-formed settings stay so *)

Definition wf_ratios (rs : Ratios) : Prop := Forall (fun ko => wf_obj (snd ko)) rs.

(** Names and values that JSON can hold. *)
Definition wf_selection (res : ResolutionsMap) : Prop :=
  Forall (fun mr => wf_str (fst mr) /\ Forall (fun rv => wf_json (synced_value (fst rv) (snd rv))) (snd mr)) res.

Lemma wf_get rs key o : wf_ratios rs -> obj_get key rs = Some o -> wf_obj o.
Proof. intros H E. apply obj_get_In in E. exact (proj1 (List.Forall_forall _ _) H _ E). Qed.

Lemma delete_in_wf model k rs : wf_ratios rs -> wf_ratios (delete_in model k rs).
Proof.
  intros H. unfold delete_in. destruct (obj_get k rs) as [o|] eqn:E; [|easy].
  apply obj_set_Forall; [|easy]. cbn. apply wf_obj_delete. now apply (wf_get rs k).
Qed.

Lemma delete_all_wf model ks : forall rs, wf_ratios rs -> wf_ratios (fold_left (fun rs k => delete_in model k rs) ks rs).
Proof. induction ks as [|k ks IH]; intros rs H; [easy|]. apply IH. now apply delete_in_wf. Qed.

Lemma write_fields_wf model ratios : forall rs rs',
  wf_str model -> Forall (fun rv => wf_json (synced_value (fst rv) (snd rv))) ratios -> wf_ratios rs ->
  write_fields model ratios rs = Ret rs' -> wf_ratios rs'.
Proof.
  induction ratios as [|[f v] ratios IH]; intros rs rs' Hm Hv H; cbn [write_fields]; [now intros [= <-]|].
  apply Forall_cons_1 in Hv as [Hv Hvs]. destruct (obj_get _ rs) as [o|] eqn:E; [|easy].
  apply IH; [easy|easy|]. apply obj_set_Forall; [|easy]. cbn. apply wf_obj_set; [now apply (wf_get rs (okey f))|easy|easy].
Qed.

Lemma sync_models_wf res : forall rs rs',
  wf_selection res -> wf_ratios rs -> sync_models res rs = Ret rs' -> wf_ratios rs'.
Proof.
  induction res as [|[model ratios] res IH]; intros rs rs' Hw H; cbn [sync_models]; [now intros [= <-]|].
  apply Forall_cons_1 in Hw as [[Hm Hv] Hw]. destruct (sync_model model ratios rs) as [rs1|] eqn:E; [|easy].
  cbn [exc_bind]. apply IH; [easy|]. revert E. unfold sync_model. apply write_fields_wf; [easy|easy|].
  destruct (has_price ratios), (has_ratio ratios); auto using delete_all_wf, delete_in_wf.
Qed.

(** ** The texts that are sent and stored *)

Lemma record_printed o : wf_obj o -> parseJsonRecord (print_map o) = Some o.
Proof.
  intros Ho. unfold parseJsonRecord. replace (str_or (print_map o) "{}") with (print_map o).
  - unfold print_map. rewrite json_parse_indent; [easy|]. now apply wf_json_obj.
  - unfold str_or. replace (truthy (print_map o)) with true; [easy|]. symmetry. apply truthy_iff.
    unfold print_map. cbn [stringify_indent app]. now destruct (map _ o).
Qed.

Definition store_all (updates : list (jstr * jstr)) (s : Settings) : Settings :=
  fold_left (fun st u => save_option u st) updates s.

(** An object is given by its keys and lookups. *)
Lemma by_keys {V B} (f : V -> B) (d : B) (o : list (jstr * V)) :
  List.NoDup (map fst o) ->
  map (fun kv => (fst kv, f (snd kv))) o
  = map (fun k => (k, match obj_get k o with Some v => f v | None => d end)) (map fst o).
Proof.
  induction o as [|[k v] o IH]; [easy|]. cbn [map fst snd obj_get]. intros [Hk Hnd]%List.NoDup_cons_iff.
  rewrite seqb_refl. f_equal. rewrite IH by easy. apply map_ext_in. intros k' Hk'.
  destruct (seqb_spec k' k) as [->|]; [contradiction|easy].
Qed.

Lemma option_keys_NoDup : List.NoDup option_keys.
Proof.
  assert (H : uniq option_keys = option_keys) by (vm_compute; reflexivity). rewrite <- H. apply uniq_NoDup.
Qed.

Lemma stored_options (text : jstr -> jstr) s :
  option_texts (store_all (map (fun k => (k, text k)) option_keys) s) = map (fun k => (k, text k)) option_keys.
Proof. reflexivity. Qed.

Lemma records_printed rs :
  wf_ratios rs -> parse_records (map (fun ko => (fst ko, print_map (snd ko))) rs) = Some rs.
Proof.
  induction 1 as [|[k o] rs Ho _ IH]; [easy|]. cbn [map parse_records fst snd]. now rewrite record_printed, IH.
Qed.

Lemma stored_texts rs s :
  keyed rs -> wf_ratios rs -> parsedRatios (store_all (map (fun ko => (fst ko, print_map (snd ko))) rs) s) = Some rs.
Proof.
  intros Hk Hw. unfold parsedRatios.
  assert (E : map (fun ko => (fst ko, print_map (snd ko))) rs = map (fun k =>
                (k, match obj_get k rs with Some o => print_map o | None => [] end)) option_keys).
  { rewrite <- Hk. apply by_keys. rewrite Hk. apply option_keys_NoDup. }
  rewrite E, stored_options, <- E. now apply records_printed.
Qed.

Lemma parsed_keyed s rs : parsedRatios s = Some rs -> keyed rs.
Proof.
  assert (H : forall texts rs, parse_records texts = Some rs -> map fst rs = map fst texts).
  { intros texts. induction texts as [|[k raw] texts IH]; intros rs' E; cbn [parse_records] in E; [now injection E as <-|].
    destruct (parseJsonRecord raw), (parse_records texts) as [rs0|]; try easy. injection E as <-. cbn. f_equal. now apply IH. }
  intros E. apply (H (option_texts s)) in E. unfold keyed. rewrite E. reflexivity.
Qed.

Lemma all_saved updates : syncMutate updates (repeat true (length updates)) = (updates, true).
Proof. induction updates as [|u us IH]; [easy|]. cbn [length repeat syncMutate]. now rewrite IH. Qed.

(** The settings after a synchronisation that the server takes over. *)
Lemma synced_settings s rs :
  parsedRatios (sy_settings s) = Some rs -> wf_ratios rs ->
  selection_ok (sy_resolutions s) -> wf_selection (sy_resolutions s) ->
  exists updates rs', send s rs = Send updates /\ parsedRatios (store_all updates (sy_settings s)) = Some rs'
    /\ forall rt m, In rt SYNC_FIELD_ORDER ->
       local_value rs' (okey rt) m
       = match obj_get m (sy_resolutions s) with
         | Some ratios => synced_local ratios rt (local_value rs (okey rt) m)
         | None => local_value rs (okey rt) m
         end.
Proof.
  intros Hs Hw Hok Hsel. apply parsed_keyed in Hs as Hk.
  destruct (sync_models_value (sy_resolutions s) rs Hk Hok) as (rs' & E & Hk' & Hl).
  exists (map (fun ko => (fst ko, print_map (snd ko))) rs'), rs'. unfold send, performSync. rewrite E. cbn [exc_bind].
  split; [easy|]. split; [|exact Hl]. apply stored_texts; [easy|]. now apply (sync_models_wf (sy_resolutions s) rs).
Qed.

(** C29: applying the selections changes the settings to exactly what was selected: once the
    server has taken the ten texts, each selected field of a model has the selected value, as a
    number where the field is numeric; a selected price has removed the model's ratios and
    selected ratios its price; everything else is as before, and the selections are cleared. *)
Theorem sync_writes_selection s rs :
  parsedRatios (sy_settings s) = Some rs -> wf_ratios rs ->
  selection_ok (sy_resolutions s) -> wf_selection (sy_resolutions s) ->
  exists updates rs', handleConfirmConflict s = Send updates
    /\ let '(st, s') := answered updates (repeat true (length updates)) s in
       sy_settings s' = st /\ sy_resolutions s' = [] /\ parsedRatios st = Some rs'
    /\ forall rt m, In rt SYNC_FIELD_ORDER ->
       local_value rs' (optionKeyBySyncField rt) m
       = match obj_get m (sy_resolutions s) with
         | Some ratios => synced_local ratios rt (local_value rs (optionKeyBySyncField rt) m)
         | None => local_value rs (optionKeyBySyncField rt) m
         end.
Proof.
  intros Hs Hw Hok Hsel. destruct (synced_settings s rs Hs Hw Hok Hsel) as (updates & rs' & H1 & H2 & H3).
  exists updates, rs'. unfold handleConfirmConflict. rewrite Hs. split; [exact H1|].
  unfold answered. rewrite all_saved. now repeat split.
Qed.

(** A model that has a price and ratios at once. *)
Definition mixed (rs : Ratios) (m : jstr) : Prop :=
  local_value rs "ModelPrice" m <> None /\ exists rt, In rt RATIO_SYNC_FIELDS /\ local_value rs (okey rt) m <> None.

Lemma local_ratio rs m rt :
  In rt RATIO_SYNC_FIELDS -> local_value rs (okey rt) m <> None -> local_value rs "ModelPrice" m = None ->
  getLocalBillingCategory m rs = Some CatRatio.
Proof.
  intros Hrt Hv Hp. unfold getLocalBillingCategory. rewrite Hp.
  replace (existsb _ RATIO_KEYS) with true; [easy|]. symmetry. apply existsb_exists. exists (okey rt).
  split; [unfold RATIO_KEYS; now apply (in_map optionKeyBySyncField)|]. now destruct (local_value rs (okey rt) m).
Qed.

(** C30: without a confirmation nothing is lost: when applying goes ahead at once, every value a
    model had is still there or has been replaced by the selected one, unless the model had a
    fixed price and ratios at the same time. *)
Theorem no_silent_loss t s rs updates rs' :
  parsedRatios (sy_settings s) = Some rs -> wf_ratios rs ->
  selection_ok (sy_resolutions s) -> wf_selection (sy_resolutions s) ->
  handleApplySync t s = Send updates -> parsedRatios (store_all updates (sy_settings s)) = Some rs' ->
  forall rt m, In rt SYNC_FIELD_ORDER -> ~ mixed rs m ->
    local_value rs (optionKeyBySyncField rt) m <> None -> local_value rs' (optionKeyBySyncField rt) m <> None.
Proof.
  intros Hs Hw Hok Hsel Ha Hp rt m Hrt Hmix Hv.
  destruct (synced_settings s rs Hs Hw Hok Hsel) as (updates' & rs1 & H1 & H2 & H3).
  unfold handleApplySync in Ha. rewrite Hs in Ha. unfold conflicts in Ha.
  destruct (List.filter (conflicting rs) (sy_resolutions s)) as [|c cs] eqn:Ef; [|easy]. cbn [map] in Ha.
  rewrite H1 in Ha. injection Ha as <-. rewrite H2 in Hp. injection Hp as <-. rewrite H3 by easy.
  destruct (obj_get m (sy_resolutions s)) as [ratios|] eqn:Em; [|exact Hv]. unfold synced_local.
  destruct (obj_get rt ratios); [easy|]. apply obj_get_In in Em.
  assert (Hc : conflicting rs (m, ratios) = false).
  { destruct (conflicting rs (m, ratios)) eqn:E; [|easy]. exfalso.
    assert (Hin : In (m, ratios) (List.filter (conflicting rs) (sy_resolutions s))) by now apply filter_In.
    now rewrite Ef in Hin. }
  pose proof (proj1 (List.Forall_forall _ _) (proj2 Hok) _ Em) as [_ Hm]. cbn [snd] in Hm.
  destruct (has_price ratios && memb rt RATIO_SYNC_FIELDS) eqn:E1; cbn [orb].
  - exfalso. apply andb_true_iff in E1 as [Hpr Hr]. apply memb_In in Hr.
    destruct (local_value rs "ModelPrice" m) as [w|] eqn:Ep.
    + apply Hmix. split; [now rewrite Ep|now exists rt].
    + unfold conflicting in Hc. cbn [fst snd] in Hc. unfold newCategory in Hc.
      now rewrite (local_ratio rs m rt Hr Hv Ep), Hpr in Hc.
  - destruct (has_ratio ratios && (rt =s "model_price")) eqn:E2; [|exact Hv]. exfalso.
    apply andb_true_iff in E2 as [Hra Hr]. apply seqb_eq in Hr as ->.
    change (local_value rs "ModelPrice" m <> None) in Hv. pose proof (mo_exclusive _ Hm) as Hx. rewrite Hra, andb_true_r in Hx.
    unfold conflicting in Hc. cbn [fst snd] in Hc. unfold newCategory, getLocalBillingCategory in Hc.
    rewrite Hra, Hx in Hc. now destruct (local_value rs "ModelPrice" m).
Qed.

(** the ten texts are saved one after the other, and the first failure stops them: the
    texts before it are stored, the others are not sent, and the differences and the selections
    stay for another try. *)
Theorem failed_save_stops updates k rest s :
  k < length updates ->
  answered updates (repeat true k ++ false :: rest) s = (store_all (take k updates) (sy_settings s), s).
Proof.
  assert (H : forall us k, k < length us -> syncMutate us (repeat true k ++ false :: rest) = (take k us, false)).
  { intros us. induction us as [|u us IH]; intros j Hj; [cbn in Hj; lia|]. destruct j as [|j]; [easy|].
    cbn [repeat app syncMutate take]. rewrite IH; [easy|]. cbn in Hj. lia. }
  intros Hk. unfold answered. now rewrite H.
Qed.

(** ** Concrete settings and differences *)

Definition one_upstream (v : json) (src : jstr) : RatioDifference :=
  {| rd_current := JNull; rd_upstreams := [(src, v)]; rd_confidence := [] |}.

Definition sample_differences : DifferencesMap :=
  [("a", [("model_ratio", one_upstream (JNum (parseFloat "2.5")) "up");
          ("model_price", one_upstream (JNum (parseFloat "0.1")) "up")]);
   ("b", [("billing_expr", one_upstream (JStr "p * 2") "up"); ("model_ratio", one_upstream (JNum (parseFloat "4")) "up")])]%js.

(** A price, then a ratio in its place, then what a source offers for another model. *)
Definition sample_selections : list SyncAction :=
  [ASelect "a" "model_price" (JNum (parseFloat "0.1")) "up"; ASelect "a" "model_ratio" (JNum (parseFloat "2.5")) "up";
   ABulkSelect "" "up" (List.filter (fun r => sr_model r =s "b") (dataSource sample_differences))].

Definition sample_sync : SyncState :=
  {| sy_settings := sample_settings; sy_differences := sample_differences;
     sy_resolutions := fold_left (sync_act sample_differences) sample_selections [];
     sy_conflicts := []; sy_dialog := false |}.

Lemma sample_offered : Forall (action_offered sample_differences) sample_selections.
Proof.
  repeat (constructor; [split; [cbn; tauto|split; [easy|easy]]|]). constructor; [|constructor].
  split; [easy|]. repeat (constructor; [split; [easy|]|]); repeat (constructor; [cbn; tauto|]); constructor.
Qed.

(** The ratio has replaced the price, and the expression has come with its mode. *)
Lemma sample_selected :
  sy_resolutions sample_sync
  = [("a", [("model_ratio", JNum (parseFloat "2.5"))]);
     ("b", [("billing_expr", JStr "p * 2"); ("billing_mode", JStr "tiered_expr")])]%js.
Proof. vm_compute. reflexivity. Qed.

Definition sample_ratios : Ratios := match parsedRatios sample_settings with Some rs => rs | None => [] end.

Lemma sample_sync_parsed : parsedRatios (sy_settings sample_sync) = Some sample_ratios.
Proof. vm_compute. reflexivity. Qed.

Lemma sample_ratios_wf : wf_ratios sample_ratios.
Proof.
  repeat (constructor; [split; [vm_compute; reflexivity|]; cbn [snd];
    repeat (constructor; [split; [repeat constructor|cbn [snd wf_json]; number_ok]|]); constructor|]).
  constructor.
Qed.

Lemma sample_selection_ok : selection_ok (sy_resolutions sample_sync).
Proof. apply acts_ok; [split; constructor|exact sample_offered]. Qed.

Lemma sample_selection_wf : wf_selection (sy_resolutions sample_sync).
Proof.
  rewrite sample_selected. repeat constructor; vm_compute; easy.
Qed.

Lemma selection_invariant_witness :
  selection_ok (sy_resolutions sample_sync)
  /\ sy_resolutions sample_sync
     = [("a", [("model_ratio", JNum (parseFloat "2.5"))]);
        ("b", [("billing_expr", JStr "p * 2"); ("billing_mode", JStr "tiered_expr")])]%js.
Proof.
  split; [|exact sample_selected].
  exact (selection_invariant sample_differences sample_selections sample_offered).
Defined.

Lemma sync_writes_selection_witness :
  exists updates rs', handleConfirmConflict sample_sync = Send updates
    /\ let '(st, s') := answered updates (repeat true (length updates)) sample_sync in
       sy_settings s' = st /\ sy_resolutions s' = [] /\ parsedRatios st = Some rs'
    /\ forall rt m, In rt SYNC_FIELD_ORDER ->
       local_value rs' (optionKeyBySyncField rt) m
       = match obj_get m (sy_resolutions sample_sync) with
         | Some ratios => synced_local ratios rt (local_value sample_ratios (optionKeyBySyncField rt) m)
         | None => local_value sample_ratios (optionKeyBySyncField rt) m
         end.
Proof.
  exact (sync_writes_selection sample_sync sample_ratios sample_sync_parsed sample_ratios_wf sample_selection_ok
           sample_selection_wf).
Defined.

Lemma no_silent_loss_witness :
  exists updates rs', handleApplySync id sample_sync = Send updates
    /\ parsedRatios (store_all updates (sy_settings sample_sync)) = Some rs'
    /\ local_value rs' "CompletionRatio" "a" <> None /\ local_value rs' "ModelRatio" "b" <> None.
Proof.
  eexists _, _. split; [vm_compute; reflexivity|]. split; [vm_compute; reflexivity|].
  split.
  - apply (no_silent_loss id sample_sync sample_ratios _ _ sample_sync_parsed sample_ratios_wf sample_selection_ok
             sample_selection_wf ltac:(vm_compute; reflexivity) ltac:(vm_compute; reflexivity) "completion_ratio" "a");
      [cbn; tauto|intros [H _]; now apply H|vm_compute; easy].
  - apply (no_silent_loss id sample_sync sample_ratios _ _ sample_sync_parsed sample_ratios_wf sample_selection_ok
             sample_selection_wf ltac:(vm_compute; reflexivity) ltac:(vm_compute; reflexivity) "model_ratio" "b");
      [cbn; tauto|intros [H _]; now apply H|vm_compute; easy].
Defined.

Definition sample_updates : list (jstr * jstr) := [("ModelRatio", "{}"); ("CompletionRatio", "{}"); ("ModelPrice", "{}")].

(** The ratios are gone, and the price has not been stored. *)
Lemma failed_save_stops_witness :
  answered sample_updates [true; true; false] sample_sync
  = (store_all (take 2 sample_updates) (sy_settings sample_sync), sample_sync).
Proof. apply (failed_save_stops sample_updates 2 [] sample_sync). cbn. lia. Defined.
