(* ===== verification/StatusCodes.v ===== *)
(** Model of [web/default/src/lib/http-status-code-rules.ts] (lists of status code
    ranges) and of [web/default/src/features/channels/lib/status-code-risk-guard.ts]
    (the mappings from one status code to another). *)

From S2P Require Import Prelude Number Json.
From stdpp Require Import options.

(** * Range rules *)

(** The codes are the values of [Number.parseInt] on digit strings: the exact
    integer stands for the double, since the only codes kept are at most 599. *)
Record StatusCodeRange := { sc_start : N; sc_end : N }.

Record ParsedHttpStatusCodeRules := {
  p_ok : bool;
  p_ranges : list StatusCodeRange;
  p_tokens : list jstr;
  p_normalized : jstr;
  p_invalidTokens : list jstr
}.

Definition isNumber (s : jstr) : bool := truthy s && forallb is_digit s.

Definition isValidCode (code : N) : bool := ((100 <=? code) && (code <=? 599))%N.

(** [const [a, b] = cleaned.split('-')] drops the pieces after the second. *)
Definition parseToken (token : jstr) : option StatusCodeRange :=
  let cleaned := List.filter (fun c => negb (is_space c)) (trim token) in
  if negb (truthy cleaned) then None
  else if includes cleaned "-" then
    match splitc 45 cleaned with
    | a :: b :: _ =>
      if negb (isNumber a) || negb (isNumber b) then None
      else
        let start := undigits a in
        let end_ := undigits b in
        if negb (isValidCode start) || negb (isValidCode end_) || (end_ <? start)%N then None
        else Some {| sc_start := start; sc_end := end_ |}
    | _ => None
    end
  else if negb (isNumber cleaned) then None
  else
    let code := undigits cleaned in
    if negb (isValidCode code) then None else Some {| sc_start := code; sc_end := code |}.

(** [a.start !== b.start ? a.start - b.start : a.end - b.end] is at most 0. *)
Definition range_le (a b : StatusCodeRange) : bool :=
  if negb (sc_start a =? sc_start b)%N then (sc_start a <? sc_start b)%N
  else (sc_end a <=? sc_end b)%N.

(** The body of the [reduce]; [merged[merged.length - 1]] is a copy the loop
    owns, so its [end] is updated in place. *)
Definition merge_step (merged : list StatusCodeRange) (current : StatusCodeRange)
  : list StatusCodeRange :=
  match rev merged with
  | [] => merged ++ [current]
  | last :: before =>
    if (sc_end last + 1 <? sc_start current)%N then merged ++ [current]
    else rev before ++ [{| sc_start := sc_start last;
                           sc_end := N.max (sc_end last) (sc_end current) |}]
  end.

Definition mergeRanges (ranges : list StatusCodeRange) : list StatusCodeRange :=
  fold_left merge_step (stable_sort range_le ranges) [].

Definition range_token (r : StatusCodeRange) : jstr :=
  if (sc_start r =? sc_end r)%N then digits (sc_start r)
  else digits (sc_start r) ++ "-" ++ digits (sc_end r).

(** The loop over the segments: the parsed ranges and the invalid tokens. *)
Fixpoint parse_segments (segments : list jstr) : list StatusCodeRange * list jstr :=
  match segments with
  | [] => ([], [])
  | s :: rest =>
    let '(ranges, invalid) := parse_segments rest in
    match parseToken s with
    | Some r => (r :: ranges, invalid)
    | None => (ranges, s :: invalid)
    end
  end.

(** The full-width comma reads as a comma. *)
Definition ascii_comma (c : N) : N := if (c =? 65292)%N then 44%N else c.

Definition segments_of (raw : jstr) : list jstr :=
  List.filter truthy (map trim (splitc 44 (map ascii_comma raw))).

Definition parseHttpStatusCodeRules (input : jstr) : ParsedHttpStatusCodeRules :=
  let raw := trim input in
  match raw with
  | [] => {| p_ok := true; p_ranges := []; p_tokens := []; p_normalized := [];
             p_invalidTokens := [] |}
  | _ =>
    match parse_segments (segments_of raw) with
    | (ranges, []) =>
      let merged := mergeRanges ranges in
      let tokens := map range_token merged in
      {| p_ok := true; p_ranges := merged; p_tokens := tokens; p_normalized := join "," tokens;
         p_invalidTokens := [] |}
    | (_, invalidTokens) =>
      {| p_ok := false; p_ranges := []; p_tokens := []; p_normalized := raw;
         p_invalidTokens := invalidTokens |}
    end
  end.

(** * Status code mappings *)

Definition NON_REDIRECTABLE_STATUS_CODES : list N := [504; 524]%N.

(** [/^[1-5]\d{2}$/] *)
Definition three_digits (s : jstr) : bool :=
  match s with
  | [a; b; c] => ((49 <=? a) && (a <=? 53))%N && is_digit b && is_digit c
  | _ => false
  end.

Definition parseStatusCodeKey (rawKey : jstr) : option N :=
  let normalized := trim rawKey in
  if three_digits normalized then Some (undigits normalized) else None.

Definition parseStatusCodeMappingTarget (rawValue : json) : option N :=
  match rawValue with
  | JNum x =>
    match to_Z x with
    | Some z => if ((100 <=? z) && (z <=? 599))%Z then Some (Z.to_N z) else None
    | None => None
    end
  | JStr s =>
    let normalized := trim s in
    if three_digits normalized then
      let code := undigits normalized in
      if ((100 <=? code) && (code <=? 599))%N then Some code else None
    else None
  | _ => None
  end.

(** The guards of both collectors: the entries of the parsed object. *)
Definition mapping_entries (str : jstr) : list (jstr * json) :=
  if negb (truthy (trim str)) then []
  else match json_parse str with
       | Some (JObj o) => o
       | _ => []
       end.

Definition arrow_right : jstr := [32; 8594; 32]%N.

Definition invalid_entry (e : jstr * json) : option jstr :=
  match parseStatusCodeKey (fst e), parseStatusCodeMappingTarget (snd e) with
  | Some _, Some _ => None
  | _, _ => Some (fst e ++ arrow_right ++ js_String (snd e))
  end.

Definition collectInvalidStatusCodeEntries (statusCodeMappingStr : jstr) : list jstr :=
  omap invalid_entry (mapping_entries statusCodeMappingStr).

Definition risky_entry (e : jstr * json) : option jstr :=
  match parseStatusCodeKey (fst e), parseStatusCodeMappingTarget (snd e) with
  | Some fromCode, Some toCode =>
    if negb (existsb (N.eqb fromCode) NON_REDIRECTABLE_STATUS_CODES) then None
    else if (fromCode =? toCode)%N then None
    else Some (digits fromCode ++ " -> " ++ digits toCode)
  | _, _ => None
  end.

Definition collectDisallowedStatusCodeRedirects (statusCodeMappingStr : jstr) : list jstr :=
  stable_sort str_leb (uniq (omap risky_entry (mapping_entries statusCodeMappingStr))).

Definition collectNewDisallowedStatusCodeRedirects (originalStr currentStr : jstr) : list jstr :=
  let currentRisky := collectDisallowedStatusCodeRedirects currentStr in
  match currentRisky with
  | [] => []
  | _ =>
    let originalRiskySet := collectDisallowedStatusCodeRedirects originalStr in
    List.filter (fun mapping => negb (memb mapping originalRiskySet)) currentRisky
  end.

(** * Merging *)

Definition in_range (c : N) (r : StatusCodeRange) : Prop := (sc_start r <= c <= sc_end r)%N.
Definition covers (rs : list StatusCodeRange) (c : N) : Prop := Exists (in_range c) rs.

Definition range_ok (r : StatusCodeRange) : Prop :=
  (100 <= sc_start r)%N /\ (sc_start r <= sc_end r)%N /\ (sc_end r <= 599)%N.

(** A gap of at least one code between two ranges. *)
Definition gap (a b : StatusCodeRange) : Prop := (sc_end a + 1 < sc_start b)%N.

Definition canonical (rs : list StatusCodeRange) : Prop :=
  Forall range_ok rs /\ StronglySorted gap rs.

Lemma sorted_snoc {A} (R : A -> A -> Prop) l x :
  StronglySorted R (l ++ [x]) <-> StronglySorted R l /\ Forall (fun y => R y x) l.
Proof.
  induction l as [|y l IH]; cbn.
  - split; [intros _; split; constructor|repeat constructor].
  - split.
    + intros [H Hy]%StronglySorted_inv. apply IH in H as [H Hx].
      apply Forall_app in Hy as [Hy [Hyx _]%Forall_cons_1]. split; constructor; auto.
    + intros [[H Hy]%StronglySorted_inv [Hyx Hx]%Forall_cons_1]. constructor; [tauto|].
      apply Forall_app. auto.
Qed.

Lemma merge_step_nil cur : merge_step [] cur = [cur].
Proof. easy. Qed.

Lemma merge_step_snoc m l cur :
  merge_step (m ++ [l]) cur =
  if (sc_end l + 1 <? sc_start cur)%N then (m ++ [l]) ++ [cur]
  else m ++ [{| sc_start := sc_start l; sc_end := N.max (sc_end l) (sc_end cur) |}].
Proof. unfold merge_step. rewrite rev_app_distr. cbn. now rewrite rev_involutive. Qed.

Definition starts_before (m : list StatusCodeRange) (x : StatusCodeRange) : Prop :=
  Forall (fun y => sc_start y <= sc_start x)%N m.

Lemma merge_step_ok m cur :
  canonical m -> range_ok cur -> starts_before m cur ->
  canonical (merge_step m cur) /\ starts_before (merge_step m cur) cur
  /\ (forall c, covers (merge_step m cur) c <-> covers m c \/ in_range c cur).
Proof.
  unfold canonical, starts_before, covers. induction m as [|l m _] using rev_ind.
  - intros _ Hc _. rewrite merge_step_nil.
    split; [split|split];
      [now constructor; [|constructor]|repeat constructor|constructor; [lia|constructor]|].
    intros c. rewrite Exists_cons, Exists_nil. tauto.
  - rewrite merge_step_snoc, !Forall_app, !Forall_singleton, sorted_snoc.
    intros [[Hm Hl] [Hs Hg]] Hc [Hb Hbl]. destruct (N.ltb_spec (sc_end l + 1) (sc_start cur)).
    + rewrite !sorted_snoc, !Forall_app, !Forall_singleton.
      split; [split|split]; [tauto| | |].
      * split; [tauto|]. split; [|easy]. apply (Forall_impl _ _ _ Hg). unfold gap in *.
        destruct Hl. lia.
      * split; [tauto|lia].
      * intros c. rewrite !Exists_app, !Exists_cons, !Exists_nil. tauto.
    + rewrite sorted_snoc, !Forall_app, !Forall_singleton.
      destruct Hl as (? & ? & ?), Hc as (? & ? & ?).
      split; [split|split]; cbn; [|tauto|tauto|].
      * split; [easy|]. repeat split; cbn; lia.
      * intros c. rewrite !Exists_app, !Exists_cons, !Exists_nil. unfold in_range. cbn. split.
        -- intros [?|[?|[]]]; [tauto|]. destruct (N.le_gt_cases c (sc_end l)); [|right; lia].
           left. right. left. lia.
        -- intros [[?|[?|[]]]|?]; [tauto|right; left; lia..].
Qed.

Lemma range_le_start a b : range_le a b = true -> (sc_start a <= sc_start b)%N.
Proof. unfold range_le. ncases; cbn; intros; try easy; lia. Qed.

Lemma range_le_total a b : range_le a b = false -> range_le b a = true.
Proof. unfold range_le. cbn. ncases; cbn; intros; try easy; lia. Qed.

Lemma range_le_trans a b c : range_le a b = true -> range_le b c = true -> range_le a c = true.
Proof. unfold range_le. ncases; cbn; intros; try easy; lia. Qed.

Lemma merge_fold rs m :
  sorted_by range_le rs -> canonical m -> Forall range_ok rs -> Forall (starts_before m) rs ->
  canonical (fold_left merge_step rs m)
  /\ (forall c, covers (fold_left merge_step rs m) c <-> covers m c \/ covers rs c).
Proof.
  intros Hs; revert m; induction Hs as [|r rs _ IH Hr]; intros m Hm Hok Hb; cbn.
  - split; [easy|]. intros c. unfold covers. rewrite Exists_nil. tauto.
  - apply Forall_cons_1 in Hok as [Hrok Hok], Hb as [Hrb Hb].
    destruct (merge_step_ok m r Hm Hrok Hrb) as (Hm' & Hb' & Hc').
    destruct (IH (merge_step m r) Hm' Hok) as [Hcan Hcov].
    + apply (Forall_impl _ _ _ Hr). intros x Hx%range_le_start.
      apply (Forall_impl _ _ _ Hb'). cbn. lia.
    + split; [easy|]. intros c. rewrite Hcov, Hc'. unfold covers. rewrite Exists_cons. tauto.
Qed.

(** Merging gives separated ranges that cover the same codes. *)
Lemma mergeRanges_ok rs :
  Forall range_ok rs ->
  canonical (mergeRanges rs) /\ (forall c, covers (mergeRanges rs) c <-> covers rs c).
Proof.
  intros Hok. destruct (merge_fold (stable_sort range_le rs) []) as [Hcan Hcov].
  - apply stable_sort_sorted; eauto using range_le_total, range_le_trans.
  - repeat constructor.
  - now rewrite stable_sort_Permutation.
  - apply Forall_true. constructor.
  - split; [easy|]. intros c. unfold mergeRanges. rewrite Hcov. unfold covers.
    rewrite stable_sort_Permutation, Exists_nil. tauto.
Qed.

Lemma merge_fold_canonical rs m :
  canonical (m ++ rs) -> fold_left merge_step rs m = m ++ rs.
Proof.
  revert m; induction rs as [|r rs IH]; intros m H; cbn; [now rewrite app_nil_r|].
  assert (E : merge_step m r = m ++ [r]).
  { destruct m as [|l m _] using rev_ind; [easy|]. rewrite merge_step_snoc.
    destruct H as [_ H]. rewrite <- app_assoc in H. cbn in H.
    assert (Hg : gap l r).
    { clear IH. induction m as [|x m IH]; cbn in H.
      - now apply StronglySorted_inv in H as [_ [Hg _]%Forall_cons_1].
      - apply StronglySorted_inv in H. tauto. }
    unfold gap in Hg. ncases. }
  rewrite E, IH, <- app_assoc; [easy|]. now rewrite <- app_assoc.
Qed.

(** Separated ranges are left as they are. *)
Lemma mergeRanges_id rs : canonical rs -> mergeRanges rs = rs.
Proof.
  intros H. unfold mergeRanges. rewrite stable_sort_id; [now apply merge_fold_canonical|].
  destruct H as [Hok H]. induction H as [|r rs Hs IH Hr]; constructor.
  - apply Forall_cons_1 in Hok. now apply IH.
  - apply Forall_cons_1 in Hok as [[_ [Hr' _]] Hok]. apply (Forall_impl _ _ _ Hr).
    unfold gap, range_le. intros x Hx. ncases; lia.
Qed.

(** * Printing and reading ranges *)

Definition plain_code (c : N) : bool := is_digit c || (c =? 45)%N.

Lemma plain_code_facts c :
  plain_code c = true -> is_space c = false /\ c <> 44%N /\ ascii_comma c = c.
Proof.
  unfold plain_code. rewrite orb_true_iff, is_digit_iff, N.eqb_eq. unfold is_space, ascii_comma.
  intros H. repeat split; [ncases|lia|ncases].
Qed.

Lemma digits_plain n : Forall (fun c => plain_code c = true) (digits n).
Proof.
  apply (Forall_impl _ _ _ (digits_all n)). intros c H. unfold plain_code. now rewrite H.
Qed.

Lemma range_token_plain r : Forall (fun c => plain_code c = true) (range_token r).
Proof.
  unfold range_token. destruct (_ =? _)%N; rewrite ?Forall_app; repeat split;
    auto using digits_plain.
Qed.

Lemma plain_edges s : Forall (fun c => plain_code c = true) s -> edges_ok s = true.
Proof.
  intros H. unfold edges_ok. destruct s as [|c s]; [easy|]. pose proof (Forall_rev H) as Hr.
  apply Forall_cons_1 in H as [Hc _]. destruct (plain_code_facts c Hc) as [-> _].
  destruct (rev (c :: s)) as [|d r]; [easy|].
  apply Forall_cons_1 in Hr as [Hd _]. now destruct (plain_code_facts d Hd) as [-> _].
Qed.

Lemma range_token_nonempty r : range_token r <> [].
Proof.
  unfold range_token. pose proof (digits_nonempty (sc_start r)).
  destruct (_ =? _)%N; [easy|]. now destruct (digits (sc_start r)).
Qed.

Lemma filter_spaces s :
  Forall (fun c => plain_code c = true) s -> List.filter (fun c => negb (is_space c)) s = s.
Proof.
  induction 1 as [|c s Hc _ IH]; [easy|]. cbn.
  destruct (plain_code_facts c Hc) as [-> _]. cbn. now rewrite IH.
Qed.

Lemma isNumber_digits n : isNumber (digits n) = true.
Proof.
  unfold isNumber. apply andb_true_iff. split.
  - pose proof (digits_nonempty n). now destruct (digits n).
  - apply forallb_forall. intros c Hc.
    exact (proj1 (List.Forall_forall _ _) (digits_all n) c Hc).
Qed.

Lemma digits_no_dash n : Forall (fun c => c <> 45%N) (digits n).
Proof.
  apply (Forall_impl _ _ _ (digits_all n)). intros c H%digit_range. lia.
Qed.

Lemma no_dash_includes s : Forall (fun c => c <> 45%N) s -> includes s "-" = false.
Proof.
  intros H. unfold includes. destruct (indexOf "-" s) eqn:E; [|easy].
  apply indexOf_Some in E. rewrite E in H. apply Forall_app in H as [_ H].
  now apply Forall_cons_1 in H as [H _].
Qed.

Lemma dash_includes a b : includes (a ++ "-" ++ b) "-" = true.
Proof.
  unfold includes. destruct (indexOf "-" (a ++ "-" ++ b)) eqn:E; [easy|].
  pose proof (indexOf_None _ _ E (length a)) as H. rewrite drop_app_length in H.
  now rewrite startsWith_app in H.
Qed.

(** A token reads back as its range. *)
Lemma parse_range_token r : range_ok r -> parseToken (range_token r) = Some r.
Proof.
  intros (H1 & H2 & H3). unfold parseToken.
  rewrite edges_trim by apply plain_edges, range_token_plain.
  rewrite filter_spaces by apply range_token_plain.
  replace (truthy (range_token r)) with true
    by (pose proof (range_token_nonempty r); now destruct (range_token r)).
  assert (Hv : forall n, (100 <= n)%N -> (n <= 599)%N -> isValidCode n = true)
    by (intros; unfold isValidCode; ncases).
  destruct r as [a b]; cbn [sc_start sc_end] in *. unfold range_token. cbn [sc_start sc_end negb].
  destruct (N.eqb_spec a b) as [<-|Hne].
  - rewrite no_dash_includes by apply digits_no_dash.
    now rewrite isNumber_digits, undigits_digits, Hv.
  - rewrite dash_includes. change ("-" ++ digits b) with (45%N :: digits b).
    rewrite splitc_app by apply digits_no_dash. rewrite splitc_piece by apply digits_no_dash.
    rewrite !isNumber_digits, !undigits_digits, !Hv by lia. cbn.
    destruct (N.ltb_spec b a); [lia|easy].
Qed.

Lemma parseToken_ok t r : parseToken t = Some r -> range_ok r.
Proof.
  unfold parseToken. assert (Hv : forall n, isValidCode n = true -> (100 <= n <= 599)%N).
  { intros n. unfold isValidCode. ncases; easy. }
  intros H. repeat case_hyp H; try discriminate; injection H as <-;
    repeat match goal with
    | E : _ || _ = false |- _ => apply orb_false_iff in E as [? ?]
    | E : negb _ = false |- _ => apply negb_false_iff in E
    | E : (_ <? _)%N = false |- _ => apply N.ltb_ge in E
    end; repeat match goal with E : isValidCode _ = true |- _ => apply Hv in E end;
    unfold range_ok; cbn; lia.
Qed.

Lemma parse_segments_spec segs :
  parse_segments segs
  = (omap parseToken segs,
     List.filter (fun s => match parseToken s with Some _ => false | None => true end) segs).
Proof.
  induction segs as [|s segs IH]; [easy|]. cbn [parse_segments List.filter omap list_omap].
  rewrite IH. now destruct (parseToken s).
Qed.

Lemma omap_ok segs : Forall range_ok (omap parseToken segs).
Proof.
  induction segs as [|s segs IH]; [constructor|]. cbn. destruct (parseToken s) eqn:E; [|easy].
  constructor; [now apply parseToken_ok in E|easy].
Qed.

Lemma comma_id s : Forall (fun c => plain_code c = true \/ c = 44%N) s -> map ascii_comma s = s.
Proof.
  induction 1 as [|c s [Hc| ->] _ IH]; [easy|..]; cbn; rewrite IH; [|easy].
  now destruct (plain_code_facts c Hc) as (_ & _ & ->).
Qed.

Lemma tokens_plain rs : Forall (Forall (fun c => plain_code c = true)) (map range_token rs).
Proof. apply Forall_map, Forall_true. intros. apply range_token_plain. Qed.

(** The segments of printed ranges are the tokens. *)
Lemma segments_tokens rs :
  rs <> [] -> segments_of (join "," (map range_token rs)) = map range_token rs.
Proof.
  intros Hne. unfold segments_of. rewrite comma_id.
  2:{ apply join_units; [now repeat constructor; right|].
      apply (Forall_impl _ _ _ (tokens_plain rs)). intros t Ht.
      apply (Forall_impl _ _ _ Ht). tauto. }
  change "," with [44%N]. rewrite splitc_join.
  - induction rs as [|r rs IH]; [easy|]. cbn [map List.filter].
    rewrite edges_trim by apply plain_edges, range_token_plain.
    replace (truthy (range_token r)) with true
      by (pose proof (range_token_nonempty r); now destruct (range_token r)).
    destruct rs; [easy|]. now rewrite IH.
  - now destruct rs.
  - apply (Forall_impl _ _ _ (tokens_plain rs)). intros t Ht.
    apply (Forall_impl _ _ _ Ht). intros c Hc. now destruct (plain_code_facts c Hc) as (_ & ? & _).
Qed.

Lemma omap_tokens rs : Forall range_ok rs -> omap parseToken (map range_token rs) = rs.
Proof.
  induction 1 as [|r rs Hr _ IH]; [easy|]. cbn. rewrite parse_range_token by easy. now f_equal.
Qed.

Lemma parse_tokens rs :
  canonical rs ->
  parseHttpStatusCodeRules (join "," (map range_token rs))
  = {| p_ok := true; p_ranges := rs; p_tokens := map range_token rs;
       p_normalized := join "," (map range_token rs); p_invalidTokens := [] |}.
Proof.
  intros H. destruct rs as [|r rs]; [easy|]. unfold parseHttpStatusCodeRules.
  rewrite edges_trim.
  2:{ apply join_edges_ok, Forall_map, Forall_true. intros x.
      split; [apply plain_edges, range_token_plain|apply range_token_nonempty]. }
  destruct (join "," (map range_token (r :: rs))) as [|c s] eqn:E.
  { exfalso. apply (join_app_nonempty "," (map range_token (r :: rs))); [easy| |easy].
    apply Forall_map, Forall_true. intros. apply range_token_nonempty. }
  rewrite <- E, segments_tokens, parse_segments_spec, omap_tokens by (easy || apply H).
  replace (List.filter _ _) with (@nil jstr); [now rewrite mergeRanges_id, E|].
  destruct H as [Hok _]. clear E. induction Hok as [|x l Hx _ IH]; [easy|].
  cbn [map List.filter]. now rewrite parse_range_token, <- IH.
Qed.

(** * Properties *)

Definition covered_by_token (input : jstr) (c : N) : Prop :=
  exists t r, In t (segments_of (trim input)) /\ parseToken t = Some r /\ in_range c r.

Lemma covers_omap segs c :
  covers (omap parseToken segs) c
  <-> exists t r, In t segs /\ parseToken t = Some r /\ in_range c r.
Proof.
  unfold covers. rewrite List.Exists_exists. split.
  - intros (r & Hr & Hc). apply list_elem_of_In, list_elem_of_omap in Hr as (t & Ht & E).
    exists t, r. rewrite <- list_elem_of_In. auto.
  - intros (t & r & Ht & E & Hc). exists r. split; [|easy].
    apply list_elem_of_In, list_elem_of_omap. exists t. now rewrite list_elem_of_In.
Qed.

(** whatever the input, the ranges of the result are between 100 and 599,
    ascending and separated by at least one code; an accepted input covers
    exactly the codes of its tokens. *)
Theorem rules_canonical (input : jstr) :
  let r := parseHttpStatusCodeRules input in
  canonical (p_ranges r)
  /\ (p_ok r = true -> forall c, covers (p_ranges r) c <-> covered_by_token input c).
Proof.
  assert (Hnil : canonical []) by (split; constructor).
  unfold parseHttpStatusCodeRules, covered_by_token.
  destruct (trim input) as [|x raw] eqn:E.
  - split; [easy|]. intros _ c. unfold covers. cbn. rewrite Exists_nil.
    split; [easy|]. now intros (t & r & [] & _).
  - rewrite parse_segments_spec. destruct (List.filter _ _) as [|bad l]; [|easy].
    destruct (mergeRanges_ok _ (omap_ok (segments_of (x :: raw)))) as [Hcan Hcov].
    split; [easy|]. intros _ c. cbn [p_ranges]. now rewrite Hcov, covers_omap.
Qed.

(** the normalised text of an accepted input is a fixed point: it parses to
    the same ranges, tokens and text. *)
Theorem rules_normalized (input : jstr) :
  let r := parseHttpStatusCodeRules input in
  p_ok r = true -> parseHttpStatusCodeRules (p_normalized r) = r.
Proof.
  intros r Hok.
  assert (Hr : exists rs, canonical rs /\
    r = {| p_ok := true; p_ranges := rs; p_tokens := map range_token rs;
           p_normalized := join "," (map range_token rs); p_invalidTokens := [] |}).
  { subst r. revert Hok. unfold parseHttpStatusCodeRules.
    destruct (trim input) as [|x raw]; [exists []; repeat constructor|].
    rewrite parse_segments_spec. destruct (List.filter _ _); [|easy]. intros _.
    eexists. split; [apply mergeRanges_ok, omap_ok|easy]. }
  destruct Hr as (rs & Hrs & ->). now apply parse_tokens.
Qed.

Lemma rules_normalized_witness :
  parseHttpStatusCodeRules (p_normalized (parseHttpStatusCodeRules "500-510, 404,505 - 599"))
  = parseHttpStatusCodeRules "500-510, 404,505 - 599".
Proof. apply rules_normalized. vm_compute. reflexivity. Defined.

(** an input is refused exactly when it has a segment that is not a code or a
    range; then no range is returned, the text is kept, and the invalid tokens
    are those segments, in order. *)
Theorem rules_invalid (input : jstr) :
  let r := parseHttpStatusCodeRules input in
  p_invalidTokens r
  = List.filter (fun s => match parseToken s with Some _ => false | None => true end)
      (segments_of (trim input))
  /\ (p_ok r = false <-> p_invalidTokens r <> [])
  /\ (p_ok r = false -> p_ranges r = [] /\ p_normalized r = trim input).
Proof.
  unfold parseHttpStatusCodeRules. destruct (trim input) as [|x raw]; [easy|].
  rewrite parse_segments_spec. now destruct (List.filter _ _).
Qed.

(** saving a channel warns exactly about the risky redirects (a timeout code
    sent to another code) that the new mapping has and the old one had not, each
    once and in order; an unchanged mapping never warns. *)
Theorem new_redirects (original current m : jstr) :
  let out := collectNewDisallowedStatusCodeRedirects original current in
  (In m out <->
   (exists e, In e (mapping_entries current) /\ risky_entry e = Some m)
   /\ ~ (exists e, In e (mapping_entries original) /\ risky_entry e = Some m))
  /\ List.NoDup out /\ sorted_by str_leb out
  /\ collectNewDisallowedStatusCodeRedirects current current = [].
Proof.
  assert (Hin : forall s m, In m (collectDisallowedStatusCodeRedirects s)
                 <-> exists e, In e (mapping_entries s) /\ risky_entry e = Some m).
  { intros s x. unfold collectDisallowedStatusCodeRedirects.
    rewrite stable_sort_In, uniq_In, <- list_elem_of_In, list_elem_of_omap.
    split; intros (e & He & E); exists e; rewrite list_elem_of_In in *; auto. }
  assert (E : forall o c, collectNewDisallowedStatusCodeRedirects o c
    = List.filter (fun x => negb (memb x (collectDisallowedStatusCodeRedirects o)))
        (collectDisallowedStatusCodeRedirects c)).
  { intros o c. unfold collectNewDisallowedStatusCodeRedirects.
    now destruct (collectDisallowedStatusCodeRedirects c). }
  cbv zeta. rewrite !E. split; [split|split; [|split]].
  - intros [H1 H2]%filter_In. split; [now apply Hin|].
    intros H%Hin%memb_In. now rewrite H in H2.
  - intros [H1 H2]. apply filter_In. split; [now apply Hin|].
    apply negb_true_iff, memb_not_In. now rewrite Hin.
  - apply List.NoDup_filter. unfold collectDisallowedStatusCodeRedirects.
    apply NoDup_ListNoDup. rewrite stable_sort_Permutation. apply NoDup_ListNoDup, uniq_NoDup.
  - assert (Hs : sorted_by str_leb (collectDisallowedStatusCodeRedirects current))
      by (apply stable_sort_sorted; eauto using str_leb_total, str_leb_trans).
    revert Hs. generalize (collectDisallowedStatusCodeRedirects current).
    induction 1 as [|x l Hl IH Hx]; cbn; [constructor|].
    destruct (negb _); [|easy]. constructor; [easy|].
    apply List.Forall_forall. intros y [Hy _]%filter_In.
    exact (proj1 (List.Forall_forall _ _) Hx y Hy).
  - generalize (collectDisallowedStatusCodeRedirects current).
    assert (H : forall l l', (forall x, In x l' -> In x l) ->
                 List.filter (fun x => negb (memb x l)) l' = []).
    { intros l. induction l' as [|x l' IH]; [easy|]. intros Hl. cbn.
      rewrite (proj2 (memb_In x l)) by (apply Hl; now left). cbn. apply IH. intros y Hy.
      apply Hl. now right. }
    intros l. now apply H.
Qed.
