(* ===== verification/ModelMapping.v ===== *)
(** Model of [web/default/src/features/channels/lib/model-mapping-validation.ts]:
    the model list of a channel and its model mapping (a JSON object from requested
    to upstream model names). *)

From S2P Require Import Prelude Number Json.
From stdpp Require Import options.

(** * Model lists *)

Definition parseModelsString (modelsStr : jstr) : list jstr :=
  match modelsStr with
  | [] => []
  | _ => List.filter truthy (map trim (splitc 44 modelsStr))
  end.

Definition formatModelsArray (models : list jstr) : jstr := join "," (uniq models).

Definition normalizeModelName (model : jstr) : jstr := trim model.

(** * Mappings *)

(** [JSON.parse] and the guards on its result: the entries of the object, if the
    text is one. *)
Definition mapping_object (text : jstr) : option (list (jstr * json)) :=
  match json_parse text with
  | Some (JObj o) => Some o
  | _ => None
  end.

Definition extractMappingSourceModels (modelMapping : jstr) : list jstr :=
  let trimmed := trim modelMapping in
  if negb (truthy trimmed) then []
  else match mapping_object trimmed with
       | None => []
       | Some parsed => uniq (List.filter truthy (map trim (map fst parsed)))
       end.

Definition redirect_value (v : json) : option jstr :=
  match v with
  | JStr s => if truthy (trim s) then Some (trim s) else None
  | _ => None
  end.

Definition extractRedirectModels (modelMapping : jstr) : list jstr :=
  let trimmed := trim modelMapping in
  if negb (truthy trimmed) then []
  else match mapping_object trimmed with
       | None => []
       | Some parsed => uniq (omap redirect_value (map snd parsed))
       end.

(** The [for] loop over both arrays, which have the same length. *)
Fixpoint same_models (a b : list jstr) : bool :=
  match a, b with
  | x :: a', y :: b' => (x =s y) && same_models a' b'
  | _, _ => true
  end.

Definition hasModelConfigChanged (currentModels : list jstr) (currentModelMapping : jstr)
    (initialModels : list jstr) (initialModelMapping : jstr) : bool :=
  if (length initialModels =? 0) && negb (truthy initialModelMapping) then true
  else if negb (length currentModels =? length initialModels) then true
  else if negb (same_models currentModels initialModels) then true
  else negb (trim currentModelMapping =s trim initialModelMapping).

Definition findMissingModelsInMapping (modelMapping : jstr) (currentModels : list jstr)
  : list jstr :=
  if negb (truthy modelMapping) || (trim modelMapping =s []) then []
  else match mapping_object modelMapping with
       | None => []
       | Some parsedMapping =>
         let modelSet := map normalizeModelName currentModels in
         uniq (List.filter (fun key => truthy key && negb (memb key modelSet))
                 (map normalizeModelName (map fst parsedMapping)))
       end.

Inductive MappingValidation := MappingValid | MappingInvalid (error : jstr).

Definition validateModelMappingJson (modelMapping : jstr) : MappingValidation :=
  if negb (truthy modelMapping) || (trim modelMapping =s []) then MappingValid
  else match json_parse modelMapping with
       | None => MappingInvalid "Model mapping must be valid JSON format"
       | Some (JObj _) => MappingValid
       | Some _ => MappingInvalid "Model mapping must be a valid JSON object"
       end.

Definition findExposedTargetModels (modelMapping : jstr) (currentModels : list jstr)
  : list jstr :=
  let redirectModels := extractRedirectModels modelMapping in
  match redirectModels with
  | [] => []
  | _ =>
    let modelSet := map normalizeModelName currentModels in
    List.filter (fun model => memb (normalizeModelName model) modelSet) redirectModels
  end.

Record Categorized := {
  normalizedCurrentModels : list jstr;
  normalizedRedirectModels : list jstr;
  classificationSet : list jstr;
  redirectOnlySet : list jstr
}.

(** A [Set] is the list of its elements in insertion order. *)
Definition categorizeModelsWithRedirect (currentModels redirectModels : list jstr)
  : Categorized :=
  let current := uniq (List.filter truthy (map normalizeModelName currentModels)) in
  let redirect := uniq (List.filter truthy (map normalizeModelName redirectModels)) in
  {| normalizedCurrentModels := current;
     normalizedRedirectModels := redirect;
     classificationSet := uniq (current ++ redirect);
     redirectOnlySet := uniq (List.filter (fun m => negb (memb m current)) redirect) |}.

(** * Lemmas *)

(** A name as the list holds it. *)
Definition name_clean (m : jstr) : Prop :=
  edges_ok m = true /\ m <> [] /\ Forall (fun c => c <> 44%N) m.

Lemma parse_clean s : Forall name_clean (parseModelsString s).
Proof.
  unfold parseModelsString. destruct s as [|c s]; [constructor|].
  apply List.Forall_forall. intros m [(p & <- & Hp)%in_map_iff Ht]%filter_In.
  split; [apply trim_edges|]. split; [now apply truthy_iff|]. apply trim_units.
  exact (proj1 (List.Forall_forall _ _) (splitc_no_sep 44 (c :: s)) p Hp).
Qed.

Lemma filter_trim_clean ms :
  Forall name_clean ms -> List.filter truthy (map trim ms) = ms.
Proof.
  induction 1 as [|m ms (He & Hne & _) _ IH]; [easy|]. cbn. rewrite edges_trim by easy.
  apply truthy_iff in Hne as ->. now rewrite IH.
Qed.

Lemma parse_join ms : Forall name_clean ms -> parseModelsString (join "," ms) = ms.
Proof.
  intros H. destruct ms as [|m ms]; [easy|]. unfold parseModelsString.
  destruct (join "," (m :: ms)) as [|c s] eqn:E.
  - exfalso. apply (join_app_nonempty "," (m :: ms)); [easy| |easy].
    apply (Forall_impl _ _ _ H). now intros x (_ & Hx & _).
  - rewrite <- E. change "," with [44%N]. rewrite splitc_join; [now apply filter_trim_clean|easy|].
    apply (Forall_impl _ _ _ H). now intros x (_ & _ & Hx).
Qed.

Lemma same_models_eq a b : length a = length b -> same_models a b = true <-> a = b.
Proof.
  revert b; induction a as [|x a IH]; intros [|y b]; cbn; intros E; try easy.
  rewrite andb_true_iff, seqb_eq, IH by lia. split; [now intros [-> ->]|now intros [= -> ->]].
Qed.

(** * Properties *)

(** the text form of a model list is stable: reading any text, printing the
    names and reading again gives the names once each, in order; each name is
    trimmed, not empty and has no comma. *)
Theorem models_roundtrip (s : jstr) :
  Forall name_clean (parseModelsString s)
  /\ parseModelsString (formatModelsArray (parseModelsString s)) = uniq (parseModelsString s).
Proof.
  split; [apply parse_clean|]. apply parse_join, uniq_Forall, parse_clean.
Qed.

(** the models reported missing are exactly the non-empty names the mapping
    redirects from that the channel does not list, each once. *)
Theorem missing_models (text : jstr) (o : list (jstr * json)) (models : list jstr) :
  trim text <> [] -> json_parse text = Some (JObj o) ->
  List.NoDup (findMissingModelsInMapping text models)
  /\ forall m, In m (findMissingModelsInMapping text models)
       <-> m <> [] /\ (exists k v, In (k, v) o /\ m = trim k) /\ ~ In m (map trim models).
Proof.
  intros Ht E. unfold findMissingModelsInMapping, mapping_object. rewrite E.
  destruct text as [|c text]; [easy|]. cbn [truthy negb orb].
  destruct (seqb_spec (trim (c :: text)) []); [easy|]. split; [apply uniq_NoDup|].
  intros m. rewrite uniq_In, filter_In, andb_true_iff, negb_true_iff, memb_not_In, truthy_iff,
    in_map_iff. split.
  - intros [(k & <- & ((k' & v) & <- & Hk)%in_map_iff) [Hne Hm]]. repeat split; [easy| |easy].
    now exists k', v.
  - intros (Hne & (k & v & Hk & ->) & Hm). split; [|now split]. exists k. split; [easy|].
    now apply (in_map fst o (k, v)).
Qed.

Definition sample_mapping : jstr :=
  "{" ++ quote "gpt-4" ++ ":" ++ quote "gpt-4o " ++ "," ++ quote " o1 " ++ ":1}".

Lemma missing_models_witness :
  List.NoDup (findMissingModelsInMapping sample_mapping ["gpt-4"])
  /\ forall m, In m (findMissingModelsInMapping sample_mapping ["gpt-4"])
       <-> m <> [] /\ (exists k v, In (k, v) [("gpt-4", JStr "gpt-4o "); (" o1 ", JNum (of_Z 1))]
                                  /\ m = trim k) /\ ~ In m (map trim ["gpt-4"]).
Proof. apply missing_models; [easy|]. vm_compute. reflexivity. Defined.

(** the exposed targets are exactly the redirect targets the channel also
    lists, whatever the blanks around the names. *)
Theorem exposed_targets (text : jstr) (models : list jstr) (m : jstr) :
  In m (findExposedTargetModels text models)
  <-> In m (extractRedirectModels text) /\ In m (map trim models).
Proof.
  assert (Ht : forall x, In x (extractRedirectModels text) -> trim x = x).
  { unfold extractRedirectModels. destruct (negb _); [easy|].
    destruct (mapping_object _) as [o|]; [|easy]. intros x Hx.
    apply (proj1 (uniq_In _ _)), omap_In in Hx as (v & _ & E).
    destruct v; try discriminate. cbn in E. destruct (truthy _); [|discriminate].
    injection E as <-. apply trim_idem. }
  unfold findExposedTargetModels.
  assert (E : (match extractRedirectModels text with
     | [] => [] | _ => List.filter (fun model => memb (normalizeModelName model)
                         (map normalizeModelName models)) (extractRedirectModels text) end)
     = List.filter (fun model => memb (normalizeModelName model)
                         (map normalizeModelName models)) (extractRedirectModels text))
    by now destruct (extractRedirectModels text).
  rewrite E, filter_In. unfold normalizeModelName at 1. split.
  - intros [H Hm%memb_In]. now rewrite (Ht m H) in Hm.
  - intros [H Hm]. split; [easy|]. rewrite (Ht m H). now apply memb_In.
Qed.

(** An edit is reported as a change unless it is to an existing configuration
    whose models are the same list and whose mapping text is the same up to blanks
    at its ends. *)
Theorem config_unchanged (cm : list jstr) (cmap : jstr) (im : list jstr) (imap : jstr) :
  hasModelConfigChanged cm cmap im imap = false
  <-> (im <> [] \/ imap <> []) /\ cm = im /\ trim cmap = trim imap.
Proof.
  unfold hasModelConfigChanged.
  assert (E : (if negb (length cm =? length im) then true
               else if negb (same_models cm im) then true
               else negb (trim cmap =s trim imap)) = false <-> cm = im /\ trim cmap = trim imap).
  { destruct (Nat.eqb_spec (length cm) (length im)) as [El|El]; cbn [negb].
    - pose proof (same_models_eq cm im El) as Hs. destruct (same_models cm im); cbn [negb].
      + rewrite negb_false_iff, seqb_eq. tauto.
      + split; [easy|]. intros [H _]. now apply Hs in H.
    - split; [easy|]. now intros [-> _]. }
  destruct im as [|x im], imap as [|c imap]; cbn [length Nat.eqb truthy negb andb] in *;
    rewrite ?E; split; try tauto; try easy; intros [-> H]; (split; [|easy]).
  - now right.
  - now left.
  - now left.
Qed.

(** The classification is the union of the two sets, and the redirect-only
    names are those of the redirects that are not current models. *)
Theorem categorize_sets (current redirect : list jstr) (m : jstr) :
  let r := categorizeModelsWithRedirect current redirect in
  (In m (classificationSet r)
   <-> In m (normalizedCurrentModels r) \/ In m (normalizedRedirectModels r))
  /\ (In m (redirectOnlySet r)
      <-> In m (normalizedRedirectModels r) /\ ~ In m (normalizedCurrentModels r))
  /\ (In m (normalizedCurrentModels r) <-> m <> [] /\ In m (map trim current)).
Proof.
  cbn. rewrite !uniq_In, in_app_iff, !filter_In, !uniq_In, !filter_In, negb_true_iff, memb_not_In,
    uniq_In, filter_In, truthy_iff. unfold normalizeModelName. tauto.
Qed.
