(* ===== verification/NavConfig.v ===== *)
(** Model of [web/default/src/features/system-settings/maintenance/config.ts]: the settings of
    the header navigation and of the sidebar modules, read from and written to their texts,
    and what the two settings pages save ([header-navigation-section.tsx],
    [sidebar-modules-section.tsx]).

    A configuration is an object of switches in property order.  An absent text is the empty
    one.  The lower case of a text is compared with ["true"] and ["false"] only, and no unit
    outside ASCII has its lower case there. *)

From S2P Require Import Prelude Number Json.
From stdpp Require Import options.

(** * Data *)

Record HeaderNavAccessConfig := { ac_enabled : bool; ac_requireAuth : bool }.

Inductive HeaderNavValue := HBool (b : bool) | HAccess (a : HeaderNavAccessConfig).

Abbreviation HeaderNavModulesConfig := (list (jstr * HeaderNavValue)).
Abbreviation SidebarSectionConfig := (list (jstr * bool)).
Abbreviation SidebarModulesAdminConfig := (list (jstr * SidebarSectionConfig)).

Definition open_access : HeaderNavAccessConfig := {| ac_enabled := true; ac_requireAuth := false |}.

Definition HEADER_NAV_DEFAULT : HeaderNavModulesConfig :=
  [("home", HBool true); ("console", HBool true); ("pricing", HAccess open_access); ("rankings", HAccess open_access);
   ("docs", HBool true); ("about", HBool true)].

Definition section_on (modules : list jstr) : SidebarSectionConfig := ("enabled"%js, true) :: map (fun k => (k, true)) modules.

Definition SIDEBAR_MODULES_DEFAULT : SidebarModulesAdminConfig :=
  [("chat", section_on ["playground"; "images"; "chat"]);
   ("console", section_on ["detail"; "token"; "log"; "task"]);
   ("personal", section_on ["topup"; "rewards"; "community"; "personal"]);
   ("admin", section_on ["channel"; "models"; "redemption"; "user"; "setting"; "subscription"; "blind_box"])]%js.

(** * Reading *)

(** A JavaScript [undefined] is [None]. *)
Definition toBoolean (value : option json) (fallback : bool) : bool :=
  match value with
  | Some (JBool b) => b
  | Some (JNum n) => SFeqb n (of_Z 1)
  | Some (JStr s) =>
    let normalized := toLower (trim s) in
    if (normalized =s "true") || (normalized =s "1") then true
    else if (normalized =s "false") || (normalized =s "0") then false
    else fallback
  | _ => fallback
  end.

Definition parseAccessModule (raw : json) (fallback : HeaderNavAccessConfig) : HeaderNavAccessConfig :=
  match raw with
  | JBool _ | JStr _ | JNum _ =>
    {| ac_enabled := toBoolean (Some raw) (ac_enabled fallback); ac_requireAuth := ac_requireAuth fallback |}
  | JNull => fallback
  | _ => {| ac_enabled := toBoolean (jget "enabled" raw) (ac_enabled fallback);
            ac_requireAuth := toBoolean (jget "requireAuth" raw) (ac_requireAuth fallback) |}
  end.

(** [Object.entries] and the spread of a parsed value; [Object.entries(null)] throws. *)
Definition own_entries (v : json) : list (jstr * json) :=
  match v with
  | JObj o => o
  | JArr l => imap (fun i x => (digits (N.of_nat i), x)) l
  | JStr s => imap (fun i c => (digits (N.of_nat i), JStr [c])) s
  | _ => []
  end.

Definition entries (v : json) : exc (list (jstr * json)) :=
  match v with JNull => Throw | _ => Ret (own_entries v) end.

Definition access_of (c : HeaderNavModulesConfig) (key : jstr) : HeaderNavAccessConfig :=
  match obj_get key c with Some (HAccess a) => a | _ => open_access end.

(** [Boolean(base[key])] *)
Definition default_on (key : jstr) : bool :=
  match obj_get key HEADER_NAV_DEFAULT with Some (HBool b) => b | Some (HAccess _) => true | None => false end.

Definition read_header_entry (result : HeaderNavModulesConfig) (kr : jstr * json) : HeaderNavModulesConfig :=
  let '(key, raw) := kr in
  if (key =s "pricing") || (key =s "rankings")
  then obj_set key (HAccess (parseAccessModule raw (access_of HEADER_NAV_DEFAULT key))) result
  else match raw with
       | JBool b => obj_set key (HBool b) result
       | JStr _ | JNum _ => obj_set key (HBool (toBoolean (Some raw) (default_on key))) result
       | _ => result
       end.

Definition parseHeaderNavModules (value : jstr) : HeaderNavModulesConfig :=
  match json_parse value with
  | None => HEADER_NAV_DEFAULT
  | Some parsed =>
    match entries parsed with
    | Throw => HEADER_NAV_DEFAULT
    | Ret es => fold_left read_header_entry es HEADER_NAV_DEFAULT
    end
  end.

Definition header_json (v : HeaderNavValue) : json :=
  match v with
  | HBool b => JBool b
  | HAccess a => JObj [("enabled"%js, JBool (ac_enabled a)); ("requireAuth"%js, JBool (ac_requireAuth a))]
  end.

Definition serializeHeaderNavModules (config : HeaderNavModulesConfig) : jstr :=
  stringify (JObj (map (fun kv => (fst kv, header_json (snd kv))) config)).

(** [default[key] ?? true] *)
Definition or_on (b : option bool) : bool := match b with Some b => b | None => true end.

Definition defaultSection (sectionKey : jstr) : SidebarSectionConfig :=
  match obj_get sectionKey SIDEBAR_MODULES_DEFAULT with Some c => c | None => [("enabled"%js, true)] end.

Definition read_section (sectionKey : jstr) (raw : json) : SidebarSectionConfig :=
  let defaults := defaultSection sectionKey in
  fold_left (fun section mv =>
    let '(moduleKey, value) := mv in
    if moduleKey =s "enabled" then section
    else obj_set moduleKey (toBoolean (Some value) (or_on (obj_get moduleKey defaults))) section)
    (own_entries raw) [("enabled"%js, toBoolean (jget "enabled" raw) (or_on (obj_get "enabled" defaults)))].

Definition read_sections (es : list (jstr * json)) : SidebarModulesAdminConfig :=
  fold_left (fun result sr =>
    let '(sectionKey, raw) := sr in
    if jtruthy raw && typeof_object raw then obj_set sectionKey (read_section sectionKey raw) result else result) es [].

(** The sections and modules that a text lacks. *)
Definition add_default_section (result : SidebarModulesAdminConfig) (sc : jstr * SidebarSectionConfig) : SidebarModulesAdminConfig :=
  let '(sectionKey, config) := sc in
  match obj_get sectionKey result with
  | None => obj_set sectionKey config result
  | Some section =>
    obj_set sectionKey (fold_left (fun section mv =>
      match obj_get (fst mv) section with Some _ => section | None => obj_set (fst mv) (snd mv) section end)
      config section) result
  end.

Definition parseSidebarModulesAdmin (value : jstr) : SidebarModulesAdminConfig :=
  if negb (truthy (trim value)) then SIDEBAR_MODULES_DEFAULT
  else match json_parse value with
       | None => SIDEBAR_MODULES_DEFAULT
       | Some parsed =>
         match entries parsed with
         | Throw => SIDEBAR_MODULES_DEFAULT
         | Ret es => fold_left add_default_section SIDEBAR_MODULES_DEFAULT (read_sections es)
         end
       end.

Definition sidebar_json (c : SidebarModulesAdminConfig) : json :=
  JObj (map (fun sc => (fst sc, JObj (map (fun mb => (fst mb, JBool (snd mb))) (snd sc)))) c).

Definition serializeSidebarModulesAdmin (config : SidebarModulesAdminConfig) : jstr := stringify (sidebar_json config).

(** * The settings pages *)

(** What a page saves: nothing when the switches are as they were read. *)
Definition submit_sidebar (stored : jstr) (values : SidebarModulesAdminConfig) : option jstr :=
  let serialized := serializeSidebarModulesAdmin values in
  if serialized =s serializeSidebarModulesAdmin (parseSidebarModulesAdmin stored) then None else Some serialized.

Record HeaderNavFormValues := {
  hf_home : bool;
  hf_console : bool;
  hf_docs : bool;
  hf_about : bool;
  hf_pricing : HeaderNavAccessConfig;
  hf_rankings : HeaderNavAccessConfig
}.

Definition header_payload (config : HeaderNavModulesConfig) (v : HeaderNavFormValues) : HeaderNavModulesConfig :=
  obj_merge config
    [("home", HBool (hf_home v)); ("console", HBool (hf_console v)); ("docs", HBool (hf_docs v));
     ("about", HBool (hf_about v)); ("pricing", HAccess (hf_pricing v)); ("rankings", HAccess (hf_rankings v))]%js.

Definition submit_header (stored : jstr) (v : HeaderNavFormValues) : option jstr :=
  let config := parseHeaderNavModules stored in
  let serialized := serializeHeaderNavModules (header_payload config v) in
  if serialized =s serializeHeaderNavModules config then None else Some serialized.
