(* ===== verification/NavModules.v ===== *)
(** Model of the readers of the navigation settings that [NavConfig] writes:
    [web/default/src/hooks/use-sidebar-config.ts] (what the sidebar shows),
    [web/default/src/lib/nav-modules.ts] (what the header shows and the guards of routes
    allow) and [web/default/src/hooks/use-top-nav-links.ts].

    The server's status is an object, the copy kept in the browser a text; absent values are
    [None].  Icons and badges of navigation items play no part. *)

From S2P Require Import Prelude Number Json NavConfig.
From stdpp Require Import options.

(** * The sidebar *)

(** The sections of this reader differ from those of the settings page: it knows [invoice],
    the page [community]. *)
Definition DEFAULT_SIDEBAR_MODULES : list (jstr * json) :=
  let on modules := JObj (map (fun k => (k, JBool true)) ("enabled"%js :: modules)) in
  [("chat", on ["playground"; "images"; "chat"]); ("console", on ["detail"; "token"; "log"; "task"]);
   ("personal", on ["topup"; "invoice"; "rewards"; "personal"]);
   ("admin", on ["channel"; "models"; "redemption"; "user"; "setting"; "subscription"; "blind_box"])]%js.

(** A spread copies every property, so no module is [undefined] afterwards. *)
Definition merge_section (merged : list (jstr * json)) (sd : jstr * json) : list (jstr * json) :=
  let '(sectionKey, defaults) := sd in
  match obj_get sectionKey merged with
  | Some existing =>
    if jtruthy existing then obj_set sectionKey (JObj (obj_merge (own_entries defaults) (own_entries existing))) merged
    else obj_set sectionKey defaults merged
  | None => obj_set sectionKey defaults merged
  end.

Definition mergeWithDefaultSidebarModules (config : json) : list (jstr * json) :=
  fold_left merge_section DEFAULT_SIDEBAR_MODULES (own_entries config).

Definition in_section (section : jstr) (urls : list (jstr * jstr)) : list (jstr * (jstr * jstr)) :=
  map (fun um => (fst um, (section, snd um))) urls.

Definition URL_TO_CONFIG_MAP : list (jstr * (jstr * jstr)) :=
  in_section "chat" [("/playground", "playground"); ("/images", "images")]%js
  ++ in_section "console" [("/dashboard", "detail"); ("/dashboard/overview", "detail"); ("/dashboard/models", "detail");
       ("/dashboard/users", "detail"); ("/group-status", "detail"); ("/marketplace", "detail");
       ("/channel-workbench", "detail"); ("/keys", "token"); ("/usage-logs", "log"); ("/usage-logs/common", "log");
       ("/usage-logs/task", "task")]%js
  ++ in_section "personal" [("/wallet", "topup"); ("/packages", "topup"); ("/blind-box", "topup");
       ("/invite-rewards", "rewards"); ("/profile", "personal")]%js
  ++ in_section "admin" [("/channels", "channel"); ("/models", "models"); ("/models/metadata", "models");
       ("/models/deployments", "models"); ("/users", "user"); ("/redemption-codes", "redemption");
       ("/subscriptions", "subscription"); ("/blind-box-admin", "blind_box"); ("/system-settings", "setting");
       ("/system-settings/site", "setting"); ("/security-audit", "setting")]%js.

Definition parseSidebarConfig (value : option jstr) : list (jstr * json) :=
  match value with
  | Some text =>
    if negb (truthy (trim text)) then DEFAULT_SIDEBAR_MODULES
    else match json_parse text with
         | Some parsed => mergeWithDefaultSidebarModules parsed
         | None => DEFAULT_SIDEBAR_MODULES
         end
  | None => DEFAULT_SIDEBAR_MODULES
  end.

Definition parseUserSidebarConfig (value : option jstr) : option json :=
  match value with
  | Some text =>
    if negb (truthy (trim text)) then None
    else match json_parse text with
         | Some parsed => if jtruthy parsed && typeof_object parsed then Some parsed else None
         | None => None
         end
  | None => None
  end.

(** Does the settings' layer show a module?  And the user's? *)
Definition admin_allows (adminConfig : list (jstr * json)) (section module : jstr) : bool :=
  match obj_get section adminConfig with
  | Some s => jtruthy s && match jget "enabled" s with Some e => jtruthy e | None => false end
              && is_bool (jget module s) true
  | None => false
  end.

Definition user_allows (userConfig : option json) (section module : jstr) : bool :=
  match userConfig with
  | None => true
  | Some config =>
    match jget section config with
    | None => true
    | Some s => if negb (jtruthy s) then true
                else if is_bool (jget "enabled" s) false then false
                else negb (is_bool (jget module s) false)
    end
  end.

Definition isModuleEnabled (url : jstr) (adminConfig : list (jstr * json)) (userConfig : option json) : bool :=
  match obj_get url URL_TO_CONFIG_MAP with
  | None => true
  | Some (section, module) =>
    if admin_allows adminConfig section module then user_allows userConfig section module else false
  end.

Inductive NavItem :=
| NavLink (title url : jstr) (configUrls : option (list jstr))
| NavCollapsible (title : jstr) (items : list (jstr * jstr))     (* titles and addresses *)
| NavChatPresets (title : jstr).

Definition isNavItemVisible (adminConfig : list (jstr * json)) (userConfig : option json) (item : NavItem) : bool :=
  match item with
  | NavChatPresets _ => if admin_allows adminConfig "chat" "chat" then user_allows userConfig "chat" "chat" else false
  | NavLink _ url configUrls =>
    if truthy url then
      existsb (fun u => isModuleEnabled u adminConfig userConfig)
        (match configUrls with Some us => us | None => [url] end)
    else true
  | NavCollapsible _ items => existsb (fun s => isModuleEnabled (snd s) adminConfig userConfig) items
  end.

Definition filter_sub_items (adminConfig : list (jstr * json)) (userConfig : option json) (item : NavItem) : NavItem :=
  match item with
  | NavCollapsible title items =>
    NavCollapsible title (List.filter (fun s => isModuleEnabled (snd s) adminConfig userConfig) items)
  | _ => item
  end.

Definition filterNavItems (items : list NavItem) (adminConfig : list (jstr * json)) (userConfig : option json) : list NavItem :=
  List.filter (isNavItemVisible adminConfig userConfig) (map (filter_sub_items adminConfig userConfig) items).

Record NavGroup := { ng_title : jstr; ng_items : list NavItem }.

(** [sidebar_settings] is the permission of that name, [user_modules] the user's text. *)
Definition useSidebarConfig (navGroups : list NavGroup) (admin : option jstr) (sidebar_settings : option bool)
  (user_modules : option jstr) : list NavGroup :=
  let adminConfig := parseSidebarConfig admin in
  let userConfig := match sidebar_settings with Some false => None | _ => parseUserSidebarConfig user_modules end in
  List.filter (fun g => match ng_items g with [] => false | _ => true end)
    (map (fun g => {| ng_title := ng_title g; ng_items := filterNavItems (ng_items g) adminConfig userConfig |}) navGroups).

(** * The header *)

Definition parseHeaderNavBoolean (raw : option json) (fallback : bool) : bool :=
  match raw with
  | Some (JBool b) => b
  | Some (JNum n) => if SFeqb n (of_Z 1) then true else if SFeqb n zero then false else fallback
  | Some (JStr s) =>
    let normalized := toLower (trim s) in
    if (normalized =s "true") || (normalized =s "1") then true
    else if (normalized =s "false") || (normalized =s "0") then false
    else fallback
  | _ => fallback
  end.

Definition parseAccess (raw : json) (fallback : HeaderNavAccessConfig) : HeaderNavAccessConfig :=
  match raw with
  | JBool _ | JNum _ | JStr _ =>
    {| ac_enabled := parseHeaderNavBoolean (Some raw) (ac_enabled fallback); ac_requireAuth := ac_requireAuth fallback |}
  | JNull => fallback
  | _ => {| ac_enabled := parseHeaderNavBoolean (jget "enabled" raw) (ac_enabled fallback);
            ac_requireAuth := parseHeaderNavBoolean (jget "requireAuth" raw) (ac_requireAuth fallback) |}
  end.

Definition parseHeaderNavRecord (raw : option json) : option json :=
  match raw with
  | None => None
  | Some v => if negb (jtruthy v) || negb (truthy (trim (js_String v))) then None
              else if typeof_object v then Some v
              else json_parse (js_String v)
  end.

Definition read_nav_entry (result : HeaderNavModulesConfig) (kv : jstr * json) : HeaderNavModulesConfig :=
  let '(key, value) := kv in
  if (key =s "pricing") || (key =s "rankings") then obj_set key (HAccess (parseAccess value (access_of result key))) result
  else match obj_get key result, value with
       | Some (HBool fallback), _ => obj_set key (HBool (parseHeaderNavBoolean (Some value) fallback)) result
       | _, (JBool _ | JNum _ | JStr _) => obj_set key (HBool (parseHeaderNavBoolean (Some value) true)) result
       | _, _ => result
       end.

Definition parseHeaderNavModules (raw : option json) : HeaderNavModulesConfig :=
  match parseHeaderNavRecord raw with
  | Some parsed => if jtruthy parsed then fold_left read_nav_entry (own_entries parsed) HEADER_NAV_DEFAULT
                   else HEADER_NAV_DEFAULT
  | None => HEADER_NAV_DEFAULT
  end.

Definition parseHeaderNavModulesFromStatus (status : option json) : HeaderNavModulesConfig :=
  parseHeaderNavModules (jget_opt "HeaderNavModules" status).

(** The copy of the status in the browser. *)
Definition getCachedStatus (stored : option jstr) : option json :=
  match stored with
  | Some raw => if truthy raw then match json_parse raw with Some JNull | None => None | Some v => Some v end else None
  | None => None
  end.

Definition getModuleAccessFromStatus (status : option json) (module : jstr) : HeaderNavAccessConfig :=
  access_of (parseHeaderNavModulesFromStatus status) module.

Definition getModuleAccess (stored : option jstr) (module : jstr) : HeaderNavAccessConfig :=
  getModuleAccessFromStatus (getCachedStatus stored) module.

(** The guard of a route; what throws is caught. *)
Definition isSidebarModuleEnabled (stored : option jstr) (section module : jstr) : bool :=
  match getCachedStatus stored with
  | None => true
  | Some status =>
    if negb (jtruthy status) then true
    else match jget "SidebarModulesAdmin" status with
         | None => true
         | Some raw =>
           if negb (jtruthy raw) || negb (truthy (trim (js_String raw))) then true
           else match json_parse (js_String raw) with
                | None => true
                | Some parsed =>
                  match jget section parsed with
                  | None => true
                  | Some s => if negb (jtruthy s) then true
                              else if is_bool (jget "enabled" s) false then false
                              else negb (is_bool (jget module s) false)
                  end
                end
         end
  end.

(** ** The links of the header *)

Record TopNavLink := { tl_href : jstr; tl_requiresAuth : bool }.

Definition nav_flag (modules : HeaderNavModulesConfig) (key : jstr) : bool :=
  match obj_get key modules with Some (HBool b) => b | _ => true end.

Definition top_nav_link (modules : HeaderNavModulesConfig) (link : TopNavLink) : list TopNavLink :=
  let access key :=
    let a := access_of modules key in
    if ac_enabled a then [{| tl_href := tl_href link; tl_requiresAuth := ac_requireAuth a |}] else [] in
  if (tl_href link =s "/") && negb (nav_flag modules "home") then []
  else if (tl_href link =s "/dashboard/overview") && negb (nav_flag modules "console") then []
  else if (tl_href link =s "/docs") && negb (nav_flag modules "docs") then []
  else if (tl_href link =s "/about") && negb (nav_flag modules "about") then []
  else if tl_href link =s "/pricing" then access "pricing"%js
  else if tl_href link =s "/rankings" then access "rankings"%js
  else [link].

Definition useTopNavLinks (links : list TopNavLink) (status : option json) : list TopNavLink :=
  flat_map (top_nav_link (parseHeaderNavModulesFromStatus status)) links.

(** * The switches of the settings page *)

(** A switch of a configuration. *)
Definition switch (c : SidebarModulesAdminConfig) (section module : jstr) : option bool :=
  match obj_get section c with Some s => obj_get module s | None => None end.

Lemma nonblank_text o : truthy (trim (stringify (JObj o))) = true.
Proof.
  apply truthy_iff. intros H. apply trim_nil_iff in H. cbn in H. now apply Forall_inv in H.
Qed.

Lemma section_entries (s : SidebarSectionConfig) k :
  obj_get k (map (fun mb => (fst mb, JBool (snd mb))) s) = option_map JBool (obj_get k s).
Proof. apply (obj_get_map JBool). Qed.

Definition section_json (s : SidebarSectionConfig) : json := JObj (map (fun mb => (fst mb, JBool (snd mb))) s).

Lemma sidebar_entries (c : SidebarModulesAdminConfig) k :
  obj_get k (map (fun sc => (fst sc, section_json (snd sc))) c) = option_map section_json (obj_get k c).
Proof. apply (obj_get_map section_json). Qed.

Lemma wf_sections c : wf_json (sidebar_json c) ->
  List.NoDup (map fst (map (fun sc => (fst sc, section_json (snd sc))) c))
  /\ forall k s, obj_get k c = Some s -> List.NoDup (map fst (map (fun mb => (fst mb, JBool (snd mb))) s)).
Proof.
  intros [Hk Hf]%wf_json_obj. split; [now apply keys_ordered_NoDup|]. intros k s E.
  pose proof (sidebar_entries c k) as Es. rewrite E in Es. apply obj_get_In in Es.
  pose proof (proj1 (List.Forall_forall _ _) Hf _ Es) as [_ Hs]. apply wf_json_obj in Hs as [Hs _].
  now apply keys_ordered_NoDup.
Qed.

(** ** Read by the sidebar *)

Lemma get_merge_section m k d x :
  obj_get x (merge_section m (k, d))
  = if x =s k then Some (match obj_get k m with
                         | Some e => if jtruthy e then JObj (obj_merge (own_entries d) (own_entries e)) else d
                         | None => d
                         end)
    else obj_get x m.
Proof.
  unfold merge_section. destruct (obj_get k m) as [e|]; [destruct (jtruthy e)|]; rewrite obj_get_set;
    now destruct (x =s k).
Qed.

Lemma admin_reads c section module s e b :
  wf_json (sidebar_json c) -> obj_get section c = Some s -> obj_get "enabled" s = Some e -> obj_get module s = Some b ->
  admin_allows (mergeWithDefaultSidebarModules (sidebar_json c)) section module = e && b.
Proof.
  intros Hw Hs He Hb. destruct (wf_sections c Hw) as [_ Hnd]. specialize (Hnd section s Hs).
  assert (Hget : exists o, obj_get section (mergeWithDefaultSidebarModules (sidebar_json c)) = Some (JObj o)
                 /\ obj_get "enabled" o = Some (JBool e) /\ obj_get module o = Some (JBool b)).
  { unfold mergeWithDefaultSidebarModules.
    rewrite (obj_get_fold merge_section (fun cur _ d => Some (match cur with
        | Some x => if jtruthy x then JObj (obj_merge (own_entries d) (own_entries x)) else d | None => d end)))
      by (try apply get_merge_section; assert (H : uniq (map fst DEFAULT_SIDEBAR_MODULES) = map fst DEFAULT_SIDEBAR_MODULES)
          by (vm_compute; reflexivity); rewrite <- H; apply uniq_NoDup).
    cbn [own_entries sidebar_json]. change (obj_get section _) with
      (obj_get section (map (fun sc => (fst sc, section_json (snd sc))) c)) at 2 3.
    rewrite sidebar_entries, Hs. cbn [option_map section_json jtruthy own_entries].
    destruct (obj_get section DEFAULT_SIDEBAR_MODULES) as [d|]; eexists; (split; [reflexivity|]);
      rewrite ?obj_get_merge by exact Hnd; rewrite !section_entries, He, Hb; now split. }
  destruct Hget as (o & Ho & He' & Hb'). unfold admin_allows. rewrite Ho. cbn [jtruthy jget]. rewrite He', Hb'.
  cbn. now destruct b, e.
Qed.

(** ** Read by the guards *)

Lemma route_guard_reads c stored status section module s e b :
  wf_json (sidebar_json c) -> obj_get section c = Some s -> obj_get "enabled" s = Some e -> obj_get module s = Some b ->
  getCachedStatus stored = Some status ->
  jget "SidebarModulesAdmin" status = Some (JStr (serializeSidebarModulesAdmin c)) ->
  isSidebarModuleEnabled stored section module = e && b.
Proof.
  intros Hw Hs He Hb Hst Hraw. unfold isSidebarModuleEnabled. rewrite Hst, Hraw.
  destruct status; try easy. cbn [jtruthy negb js_String]. unfold serializeSidebarModulesAdmin.
  assert (Ht : truthy (trim (stringify (sidebar_json c))) = true) by apply nonblank_text.
  assert (Ht' : truthy (stringify (sidebar_json c)) = true) by now cbn.
  rewrite Ht, Ht', (json_parse_stringify _ Hw). cbn [negb orb].
  assert (E : jget section (sidebar_json c) = Some (section_json s)).
  { pose proof (sidebar_entries c section) as E. now rewrite Hs in E. }
  rewrite E. cbn [section_json jtruthy negb jget]. rewrite !section_entries, He, Hb. cbn. now destruct e, b.
Qed.

(** ** Read by the settings page *)

Lemma get_read_section sectionKey raw k :
  List.NoDup (map fst (own_entries raw)) ->
  obj_get k (read_section sectionKey raw)
  = if k =s "enabled" then Some (toBoolean (jget "enabled" raw) (or_on (obj_get "enabled" (defaultSection sectionKey))))
    else option_map (fun v => toBoolean (Some v) (or_on (obj_get k (defaultSection sectionKey)))) (obj_get k (own_entries raw)).
Proof.
  intros Hnd. unfold read_section.
  rewrite (obj_get_fold _ (fun cur k v => if k =s "enabled" then cur
             else Some (toBoolean (Some v) (or_on (obj_get k (defaultSection sectionKey)))))).
  - cbn [obj_get]. destruct (seqb_spec k "enabled") as [->|Hne]; [now destruct (obj_get _ (own_entries raw))|].
    now destruct (obj_get k (own_entries raw)).
  - intros r k' v x. destruct (seqb_spec k' "enabled") as [->|]; [now destruct (seqb_spec x "enabled") as [->|]|].
    apply obj_get_set.
  - exact Hnd.
Qed.

Lemma get_read_sections es k :
  List.NoDup (map fst es) ->
  obj_get k (read_sections es)
  = match obj_get k es with
    | Some raw => if jtruthy raw && typeof_object raw then Some (read_section k raw) else None
    | None => None
    end.
Proof.
  intros Hnd. unfold read_sections.
  rewrite (obj_get_fold _ (fun cur k raw => if jtruthy raw && typeof_object raw then Some (read_section k raw) else cur)).
  - now destruct (obj_get k es).
  - intros r k' v x. destruct (_ && _); [apply obj_get_set|]. now destruct (seqb_spec x k') as [->|].
  - exact Hnd.
Qed.

(** The defaults are added around what is there. *)
Lemma add_default_keeps ds : forall result section module b,
  switch result section module = Some b -> switch (fold_left add_default_section ds result) section module = Some b.
Proof.
  induction ds as [|[k config] ds IH]; intros result section module b H; [exact H|]. cbn [fold_left]. apply IH. clear IH.
  unfold switch in *. cbn [add_default_section]. destruct (obj_get section result) as [s|] eqn:Es; [|easy].
  destruct (obj_get k result) as [s'|] eqn:Ek; rewrite obj_get_set; destruct (seqb_spec section k) as [->|];
    rewrite ?Es; try easy; rewrite Es in Ek; [|easy].
  injection Ek as <-. clear Es. revert s H. induction config as [|[m d] config IH]; intros s H; [exact H|].
  cbn [fold_left fst snd]. apply IH. destruct (obj_get m s) eqn:Em; [exact H|]. rewrite obj_get_set.
  destruct (seqb_spec module m) as [->|]; [now rewrite Em in H|exact H].
Qed.

Lemma page_reads c section module b :
  wf_json (sidebar_json c) -> switch c section module = Some b ->
  switch (parseSidebarModulesAdmin (serializeSidebarModulesAdmin c)) section module = Some b.
Proof.
  intros Hw Hb. destruct (wf_sections c Hw) as [Hnd Hnds]. unfold switch in Hb.
  destruct (obj_get section c) as [s|] eqn:Es; [|easy]. specialize (Hnds section s Es).
  unfold parseSidebarModulesAdmin, serializeSidebarModulesAdmin.
  assert (Ht : truthy (trim (stringify (sidebar_json c))) = true) by apply nonblank_text.
  rewrite Ht, (json_parse_stringify _ Hw). cbn [negb entries sidebar_json own_entries].
  apply add_default_keeps. unfold switch. rewrite get_read_sections by exact Hnd.
  pose proof (sidebar_entries c section) as E. rewrite Es in E. unfold section_json in E at 1.
  rewrite E. cbn [option_map section_json jtruthy typeof_object andb].
  rewrite get_read_section by exact Hnds. cbn [own_entries jget section_json]. rewrite !section_entries.
  destruct (seqb_spec module "enabled") as [->|]; now rewrite Hb.
Qed.

(** a switch of the settings page means the same everywhere: once a configuration is
    saved, the sidebar shows an address, and the guard lets it through, exactly when its section
    and its module are on, and the page shows both switches as they were saved. *)
Theorem switches_agree c section module e b url stored status :
  wf_json (sidebar_json c) -> switch c section "enabled" = Some e -> switch c section module = Some b ->
  obj_get url URL_TO_CONFIG_MAP = Some (section, module) ->
  getCachedStatus stored = Some status ->
  jget "SidebarModulesAdmin" status = Some (JStr (serializeSidebarModulesAdmin c)) ->
  let text := serializeSidebarModulesAdmin c in
  isModuleEnabled url (parseSidebarConfig (Some text)) None = e && b
  /\ isSidebarModuleEnabled stored section module = e && b
  /\ switch (parseSidebarModulesAdmin text) section "enabled" = Some e
  /\ switch (parseSidebarModulesAdmin text) section module = Some b.
Proof.
  intros Hw He Hb Hurl Hst Hraw text.
  split; [|split; [|split; now apply page_reads]]; unfold switch in He, Hb;
    destruct (obj_get section c) as [s|] eqn:Es; try easy.
  - unfold isModuleEnabled. rewrite Hurl. unfold parseSidebarConfig, text, serializeSidebarModulesAdmin.
    assert (Ht : truthy (trim (stringify (sidebar_json c))) = true) by apply nonblank_text.
    rewrite Ht, (json_parse_stringify _ Hw). cbn [negb]. rewrite (admin_reads c section module s e b Hw Es He Hb).
    cbn. now destruct (e && b).
  - exact (route_guard_reads c stored status section module s e b Hw Es He Hb Hst Hraw).
Qed.

(** * The user's layer *)

(** The addresses that a list of items shows. *)
Definition shown (item : NavItem) : list jstr :=
  match item with
  | NavLink _ url _ => [url]
  | NavCollapsible _ items => map snd items
  | NavChatPresets _ => ["chat-presets"]
  end.

Lemma user_narrows url admin user : isModuleEnabled url admin user = true -> isModuleEnabled url admin None = true.
Proof. unfold isModuleEnabled. destruct (obj_get _ _) as [[section module]|]; [|easy]. now destruct (admin_allows _ _ _). Qed.

Lemma visible_narrows admin user item :
  isNavItemVisible admin user item = true -> isNavItemVisible admin None item = true.
Proof.
  destruct item as [title url urls|title items|title]; cbn [isNavItemVisible].
  - destruct (truthy url); [|easy]. intros (u & Hin & Hu)%existsb_exists. apply existsb_exists.
    exists u. split; [exact Hin|now apply (user_narrows u admin user)].
  - intros (u & Hin & Hu)%existsb_exists. apply existsb_exists.
    exists u. split; [exact Hin|now apply (user_narrows (snd u) admin user)].
  - now destruct (admin_allows _ _ _).
Qed.

(** the user's own switches only hide: every address the sidebar shows with them it shows
    without them, and none that the settings' layer has switched off is ever shown. *)
Theorem overlay_narrows items admin user :
  (forall url, In url (flat_map shown (filterNavItems items admin user)) ->
               In url (flat_map shown (filterNavItems items admin None)))
  /\ forall title subs url, In (NavCollapsible title subs) (filterNavItems items admin user) -> In url (map snd subs) ->
     match obj_get url URL_TO_CONFIG_MAP with
     | Some (section, module) => admin_allows admin section module = true
     | None => True
     end.
Proof.
  split.
  - intros url (item & Hitem & Hurl)%in_flat_map. unfold filterNavItems in Hitem.
    apply filter_In in Hitem as [(item0 & <- & Hin)%in_map_iff Hvis].
    apply in_flat_map. exists (filter_sub_items admin None item0).
    assert (Hincl : forall x, In x (shown (filter_sub_items admin user item0)) -> In x (shown (filter_sub_items admin None item0))).
    { intros x. destruct item0 as [|title items0|]; [easy| |easy]. cbn [filter_sub_items shown].
      intros (s & <- & [Hs Hu]%filter_In)%in_map_iff. apply in_map, filter_In. split; [exact Hs|].
      now apply (user_narrows (snd s) admin user). }
    split; [|now apply Hincl]. unfold filterNavItems. apply filter_In. split; [now apply in_map|].
    apply (visible_narrows admin user). destruct item0 as [title u us|title items0|title]; try exact Hvis.
    cbn [filter_sub_items isNavItemVisible shown] in *. apply existsb_exists in Hvis as (s & Hs & Hv).
    apply filter_In in Hs as [Hs Hu]. apply existsb_exists. exists s. split; [|exact Hv].
    apply filter_In. split; [exact Hs|now apply (user_narrows (snd s) admin user)].
  - intros title subs url Hin Hurl. unfold filterNavItems in Hin. apply filter_In in Hin as [(item0 & E & _)%in_map_iff _].
    destruct item0 as [|title0 items0|]; try easy. cbn [filter_sub_items] in E. injection E as <- <-.
    apply in_map_iff in Hurl as (s & <- & [_ Hs]%filter_In). unfold isModuleEnabled in Hs.
    destruct (obj_get (snd s) URL_TO_CONFIG_MAP) as [[section module]|]; [|exact I].
    now destruct (admin_allows admin section module).
Qed.

(** * The header's switches *)

Definition access_key (k : jstr) : bool := (k =s "pricing") || (k =s "rankings").

(** A complete configuration, with an access where there has to be one. *)
Record header_ok (c : HeaderNavModulesConfig) : Prop := {
  ho_ordered : keys_ordered (map fst c) = true;
  ho_typed : Forall (fun kv => match snd kv with HAccess _ => access_key (fst kv) = true | HBool _ => access_key (fst kv) = false end) c;
  ho_complete : forall k, In k (map fst HEADER_NAV_DEFAULT) -> In k (map fst c)
}.

Lemma default_header_ok : header_ok HEADER_NAV_DEFAULT.
Proof. split; [vm_compute; reflexivity|repeat constructor|easy]. Qed.

Lemma header_set k v c :
  match v with HAccess _ => access_key k = true | HBool _ => access_key k = false end ->
  header_ok c -> header_ok (obj_set k v c).
Proof.
  intros Hv [H1 H2 H3]. split; [now apply keys_ordered_set| |].
  - apply List.Forall_forall. intros kv [-> | H]%obj_set_In; [exact Hv|]. exact (proj1 (List.Forall_forall _ _) H2 _ H).
  - intros x Hx%H3. apply obj_set_keys. now right.
Qed.

Lemma read_entry_ok c kr : header_ok c -> header_ok (read_header_entry c kr).
Proof.
  intros H. destruct kr as [k raw]. unfold read_header_entry. fold (access_key k).
  destruct (access_key k) eqn:E; [now apply header_set|]. destruct raw; try exact H; now apply header_set.
Qed.

Lemma page_header_ok stored : header_ok (NavConfig.parseHeaderNavModules stored).
Proof.
  unfold NavConfig.parseHeaderNavModules. destruct (json_parse stored) as [v|]; [|apply default_header_ok].
  destruct (entries v) as [es|]; [|apply default_header_ok]. generalize HEADER_NAV_DEFAULT default_header_ok.
  induction es as [|e es IH]; intros c H; [exact H|]. apply IH. now apply read_entry_ok.
Qed.

Lemma payload_ok config v : header_ok config -> header_ok (header_payload config v).
Proof. intros H. unfold header_payload, obj_merge. cbn [fold_left fst snd]. repeat (apply header_set; [easy|]). exact H. Qed.

Lemma set_wf_keys {V} k (v : V) o : wf_str k -> Forall wf_str (map fst o) -> Forall wf_str (map fst (obj_set k v o)).
Proof.
  intros Hk Ho. apply List.Forall_forall. intros x [-> | Hx]%obj_set_keys; [exact Hk|].
  exact (proj1 (List.Forall_forall _ _) Ho x Hx).
Qed.

(** ** Reading a saved text *)

Section Reading.
Context (c : HeaderNavModulesConfig) (Hc : header_ok c).

Definition header_entries : list (jstr * json) := map (fun kv => (fst kv, header_json (snd kv))) c.

Lemma header_nodup : List.NoDup (map fst header_entries).
Proof using Hc.
  unfold header_entries. rewrite map_map. cbn. apply keys_ordered_NoDup, (ho_ordered c Hc).
Qed.

Lemma header_entry k : obj_get k header_entries = option_map header_json (obj_get k c).
Proof. apply (obj_get_map header_json). Qed.

Lemma header_typed k v : obj_get k c = Some v ->
  match v with HAccess _ => access_key k = true | HBool _ => access_key k = false end.
Proof using Hc. intros H%obj_get_In. exact (proj1 (List.Forall_forall _ _) (ho_typed c Hc) _ H). Qed.

(** What is not in the text has no default either. *)
Lemma header_absent k : obj_get k c = None -> obj_get k HEADER_NAV_DEFAULT = None.
Proof using Hc. intros H%obj_get_None. apply obj_get_None. intros Hin. now apply H, (ho_complete c Hc). Qed.

Lemma access_roundtrip a fallback : parseAccessModule (header_json (HAccess a)) fallback = a.
Proof. now destruct a. Qed.

Lemma page_header k : obj_get k (fold_left read_header_entry header_entries HEADER_NAV_DEFAULT) = obj_get k c.
Proof using Hc.
  rewrite (obj_get_fold _ (fun cur k raw =>
    if access_key k then Some (HAccess (parseAccessModule raw (access_of HEADER_NAV_DEFAULT k)))
    else match raw with
         | JBool b => Some (HBool b)
         | JStr _ | JNum _ => Some (HBool (toBoolean (Some raw) (default_on k)))
         | _ => cur
         end)).
  - rewrite header_entry. destruct (obj_get k c) as [v|] eqn:E; [|now apply header_absent]. cbn [option_map].
    pose proof (header_typed k v E) as Ht. destruct v as [b|a]; rewrite Ht; [easy|]. now rewrite access_roundtrip.
  - intros r k' raw x. cbn [read_header_entry]. fold (access_key k').
    destruct (access_key k'); [apply obj_get_set|].
    destruct raw; try apply obj_get_set; now destruct (seqb_spec x k') as [->|].
  - exact header_nodup.
Qed.

Lemma nav_header k : obj_get k (fold_left read_nav_entry header_entries HEADER_NAV_DEFAULT) = obj_get k c.
Proof using Hc.
  rewrite (obj_get_fold _ (fun cur k v =>
    if access_key k
    then Some (HAccess (parseAccess v (match cur with Some (HAccess a) => a | _ => open_access end)))
    else match cur, v with
         | Some (HBool fallback), _ => Some (HBool (parseHeaderNavBoolean (Some v) fallback))
         | _, (JBool _ | JNum _ | JStr _) => Some (HBool (parseHeaderNavBoolean (Some v) true))
         | _, _ => cur
         end)).
  - rewrite header_entry. destruct (obj_get k c) as [v|] eqn:E; [|now apply header_absent]. cbn [option_map].
    pose proof (header_typed k v E) as Ht. destruct v as [b|[en au]]; rewrite Ht; [|easy].
    now destruct (obj_get k HEADER_NAV_DEFAULT) as [[]|].
  - intros r k' v x. cbn [read_nav_entry]. fold (access_key k'). unfold access_of.
    destruct (access_key k'); [apply obj_get_set|].
    destruct (obj_get k' r) as [[]|] eqn:E, v; try apply obj_get_set;
      destruct (seqb_spec x k') as [->|]; congruence.
  - exact header_nodup.
Qed.

End Reading.

Lemma header_wf c : header_ok c -> Forall wf_str (map fst c) -> wf_json (JObj (header_entries c)).
Proof.
  intros H Hk. apply wf_json_obj. split.
  - unfold header_entries. rewrite map_map. apply (ho_ordered c H).
  - unfold header_entries. clear H. induction c as [|[k v] o IH]; [constructor|].
    apply Forall_cons_1 in Hk as [Hk Hks]. constructor; [|now apply IH]. split; [exact Hk|].
    destruct v as [|[]]; cbn; [easy|]. repeat split; repeat constructor.
Qed.

(** what the page of the header navigation saves is what the header shows and the guards of
    its routes read: every switch of the form, and every other entry as it was, in both
    readers. *)
Theorem header_saved stored v text :
  Forall wf_str (map fst (NavConfig.parseHeaderNavModules stored)) -> submit_header stored v = Some text ->
  forall k,
    obj_get k (parseHeaderNavModules (Some (JStr text))) = obj_get k (header_payload (NavConfig.parseHeaderNavModules stored) v)
    /\ obj_get k (NavConfig.parseHeaderNavModules text) = obj_get k (header_payload (NavConfig.parseHeaderNavModules stored) v).
Proof.
  intros Hk Hs k. unfold submit_header in Hs. set (config := NavConfig.parseHeaderNavModules stored) in *.
  set (c := header_payload config v) in *. destruct (_ =s _); [easy|]. injection Hs as <-.
  assert (Hc : header_ok c) by (apply payload_ok, page_header_ok).
  assert (Hw : wf_json (JObj (header_entries c))).
  { apply header_wf; [exact Hc|]. unfold c, header_payload, obj_merge. cbn [fold_left fst snd].
    repeat (apply set_wf_keys; [repeat constructor|]). exact Hk. }
  change (serializeHeaderNavModules c) with (stringify (JObj (header_entries c))).
  assert (Ht : truthy (trim (stringify (JObj (header_entries c)))) = true) by apply nonblank_text.
  split.
  - unfold parseHeaderNavModules, parseHeaderNavRecord. cbn [js_String typeof_object].
    rewrite Ht, (json_parse_stringify _ Hw). cbn [jtruthy negb orb own_entries]. now apply nav_header.
  - unfold NavConfig.parseHeaderNavModules. rewrite (json_parse_stringify _ Hw). cbn [entries own_entries].
    now apply page_header.
Qed.

(** * Concrete settings *)

Definition flag_texts : jstr :=
  stringify (JObj [("chat", JObj [("enabled", JStr "true"); ("playground", JStr "true")])])%js.

(** Flags that are texts: the page shows them on and saves nothing when it is submitted as it
    is, and the sidebar hides the address. *)
Lemma string_flag_disagrees :
  switch (parseSidebarModulesAdmin flag_texts) "chat" "playground" = Some true
  /\ submit_sidebar flag_texts (parseSidebarModulesAdmin flag_texts) = None
  /\ isModuleEnabled "/playground" (parseSidebarConfig (Some flag_texts)) None = false.
Proof. vm_compute. repeat split. Qed.

(** A number other than 0 and 1 is off for the page and the default for the header. *)
Lemma header_number_disagrees :
  let text := stringify (JObj [("home"%js, JNum (of_Z 2))]) in
  obj_get "home" (NavConfig.parseHeaderNavModules text) = Some (HBool false)
  /\ obj_get "home" (parseHeaderNavModules (Some (JStr text))) = Some (HBool true).
Proof. vm_compute. split; reflexivity. Qed.

Definition units_ok (s : jstr) : bool := forallb (fun c => (c <? 65536)%N) s.

Definition sidebar_wfb (c : SidebarModulesAdminConfig) : bool :=
  keys_ordered (map fst c)
  && forallb (fun sc => units_ok (fst sc) && (keys_ordered (map fst (snd sc)) && forallb (fun mb => units_ok (fst mb)) (snd sc))) c.

Lemma units_wf s : units_ok s = true -> wf_str s.
Proof. intros H. apply List.Forall_forall. intros c Hc. apply N.ltb_lt. exact (proj1 (forallb_forall _ _) H c Hc). Qed.

Lemma sidebar_wf c : sidebar_wfb c = true -> wf_json (sidebar_json c).
Proof.
  unfold sidebar_wfb. rewrite andb_true_iff, forallb_forall. intros [Hk Hs]. apply wf_json_obj.
  split; [now rewrite map_map|]. apply List.Forall_forall. intros kv (sc & <- & Hin)%in_map_iff.
  apply Hs in Hin. rewrite !andb_true_iff, forallb_forall in Hin. destruct Hin as (H1 & H2 & H3).
  split; [now apply units_wf|]. cbn [fst snd]. apply wf_json_obj. split; [now rewrite map_map|].
  apply List.Forall_forall. intros mv (mb & <- & Hmb)%in_map_iff. split; [now apply units_wf, H3|easy].
Qed.

Definition playground_off : SidebarModulesAdminConfig :=
  obj_set "chat" [("enabled", true); ("playground", false); ("images", true); ("chat", true)]%js SIDEBAR_MODULES_DEFAULT.

Definition stored_status : json :=
  JObj [("SidebarModulesAdmin"%js, JStr (serializeSidebarModulesAdmin playground_off))].

Lemma switches_agree_witness :
  let text := serializeSidebarModulesAdmin playground_off in
  isModuleEnabled "/playground" (parseSidebarConfig (Some text)) None = true && false
  /\ isSidebarModuleEnabled (Some (stringify stored_status)) "chat" "playground" = true && false
  /\ switch (parseSidebarModulesAdmin text) "chat" "enabled" = Some true
  /\ switch (parseSidebarModulesAdmin text) "chat" "playground" = Some false.
Proof.
  apply (switches_agree playground_off "chat" "playground" true false "/playground" (Some (stringify stored_status))
           stored_status).
  - apply sidebar_wf. vm_compute. reflexivity.
  - reflexivity.
  - reflexivity.
  - reflexivity.
  - vm_compute. reflexivity.
  - reflexivity.
Defined.

Definition pricing_private : HeaderNavFormValues :=
  {| hf_home := false; hf_console := true; hf_docs := true; hf_about := true;
     hf_pricing := {| ac_enabled := true; ac_requireAuth := true |}; hf_rankings := open_access |}.

Lemma header_saved_witness :
  exists text, submit_header [] pricing_private = Some text
    /\ access_of (parseHeaderNavModules (Some (JStr text))) "pricing" = {| ac_enabled := true; ac_requireAuth := true |}
    /\ obj_get "home" (parseHeaderNavModules (Some (JStr text))) = Some (HBool false).
Proof.
  eexists. split; [vm_compute; reflexivity|].
  split.
  - unfold access_of. rewrite (proj1 (header_saved [] pricing_private _ ltac:(repeat constructor) ltac:(vm_compute; reflexivity) "pricing"%js)).
    reflexivity.
  - rewrite (proj1 (header_saved [] pricing_private _ ltac:(repeat constructor) ltac:(vm_compute; reflexivity) "home"%js)).
    reflexivity.
Defined.
