(* ===== verification/TableUrl.v ===== *)
(** * Tables whose state is in the address

    [hooks/use-table-url-state.ts] keeps the page, the size of a page, the column filters
    and the search text of a table in the search parameters of the address;
    [components/data-table/toolbar.tsx] resets them; the tables of users and of channels
    ([features/users/components/users-table.tsx],
    [features/channels/components/channels-table.tsx]) add effects of their own.  The
    router is third-party code: [navigate] applies a function to the latest search
    parameters, and some time later the hook is rendered with them.  It hands over the same
    object when nothing in it has changed.  A search parameter that is [undefined] and one
    that is absent are read alike. *)

From S2P Require Import Prelude Json.
From stdpp Require Import options.

(** ** Search parameters

    The numbers are the page numbers and sizes, which are integers; [POther] stands for
    every other JSON value. *)

Inductive param :=
  | PNum (n : Z)
  | PStr (s : jstr)
  | PArr (l : list json)
  | POther (v : json).

Abbreviation SearchRecord := (list (jstr * option param)).

Definition sget (k : jstr) (s : SearchRecord) : option param :=
  match obj_get k s with Some v => v | None => None end.

#[export] Instance number_eq_dec : EqDecision Number.number.
Proof. solve_decision. Defined.
Fixpoint json_eq (a b : json) : {a = b} + {a <> b}.
Proof.
  destruct a as [|x|x|x|l|o], b as [|y|y|y|l'|o']; try (by right); try (by left).
  - destruct (Bool.bool_dec x y); [left|right]; congruence.
  - destruct (number_eq_dec x y); [left|right]; congruence.
  - destruct (List.list_eq_dec N.eq_dec x y); [left|right]; congruence.
  - destruct (List.list_eq_dec json_eq l l'); [left|right]; congruence.
  - assert (forall p q : jstr * json, {p = q} + {p <> q}) as D.
    { intros [k v] [k' v']. destruct (List.list_eq_dec N.eq_dec k k'); [|right; congruence].
      destruct (json_eq v v'); [left|right]; congruence. }
    destruct (List.list_eq_dec D o o'); [left|right]; congruence.
Defined.
#[export] Instance json_eq_dec : EqDecision json := json_eq.
#[export] Instance param_eq_dec : EqDecision param.
Proof. solve_decision. Defined.

(** The same parameters, in whatever order. *)
Definition same_search (s t : SearchRecord) : bool :=
  forallb (fun k => bool_decide (sget k s = sget k t)) (map fst s ++ map fst t).

Record ColumnFilter := { id : jstr; value : option param }.
Record PaginationState := { pageIndex : Z; pageSize : Z }.

Record ColumnFilterConfig := {
  columnId : jstr;
  searchKey : jstr;
  is_string : bool;
  cfg_serialize : option (option param -> option param);
  cfg_deserialize : option (option param -> option param);
}.

Record PaginationConfig := {
  cfg_pageKey : option jstr; cfg_pageSizeKey : option jstr;
  cfg_defaultPage : option Z; cfg_defaultPageSize : option Z;
}.

Record GlobalFilterConfig := {
  cfg_enabled : option bool; cfg_key : option jstr; cfg_trim : option bool;
}.

Record UseTableUrlStateParams := {
  paginationCfg : PaginationConfig;
  globalFilterCfg : GlobalFilterConfig;
  columnFiltersCfg : list ColumnFilterConfig;
}.

Definition orElse {A} (o : option A) (d : A) : A := match o with Some a => a | None => d end.

Inductive ResetTo := ToFirst | ToLast.

(** ** The hook *)

(** What the hook holds between two renders: the parameters it was rendered with, its
    two states, and the latest parameters of the router, which the next navigation
    starts from. *)
Record Table := {
  url : SearchRecord;
  seen : SearchRecord;
  columnFilters : list ColumnFilter;
  globalFilter : option jstr;
}.

Section Hook.
  Context (params : UseTableUrlStateParams).

Definition pageKey : jstr := orElse (cfg_pageKey (paginationCfg params)) "page".
Definition pageSizeKey : jstr := orElse (cfg_pageSizeKey (paginationCfg params)) "pageSize".
Definition defaultPage : Z := orElse (cfg_defaultPage (paginationCfg params)) 1%Z.
Definition defaultPageSize : Z := orElse (cfg_defaultPageSize (paginationCfg params)) 20%Z.
Definition globalFilterKey : jstr := orElse (cfg_key (globalFilterCfg params)) "filter".
Definition globalFilterEnabled : bool := orElse (cfg_enabled (globalFilterCfg params)) true.
Definition trimGlobal : bool := orElse (cfg_trim (globalFilterCfg params)) true.

Definition serialize (cfg : ColumnFilterConfig) : option param -> option param :=
  orElse (cfg_serialize cfg) (fun v => v).
Definition deserialize (cfg : ColumnFilterConfig) : option param -> option param :=
  orElse (cfg_deserialize cfg) (fun v => v).

(** A filter that is worth keeping: a text that is not blank, an array that is not
    empty. *)
Definition usable (cfg : ColumnFilterConfig) (v : option param) : bool :=
  match v with
  | Some (PStr s) => is_string cfg && truthy (trim s)
  | Some (PArr l) => negb (is_string cfg) && match l with [] => false | _ => true end
  | _ => false
  end.

Definition initialColumnFilters (search : SearchRecord) : list ColumnFilter :=
  omap (fun cfg =>
          let value := deserialize cfg (sget (searchKey cfg) search) in
          if usable cfg value then Some {| id := columnId cfg; value := value |} else None)
       (columnFiltersCfg params).

Definition numberParam (v : option param) (d : Z) : Z :=
  match v with Some (PNum n) => n | _ => d end.

Definition pagination (search : SearchRecord) : PaginationState :=
  {| pageIndex := Z.max 0 (numberParam (sget pageKey search) defaultPage - 1);
     pageSize := numberParam (sget pageSizeKey search) defaultPageSize |}.

Definition initialGlobalFilter (search : SearchRecord) : option jstr :=
  if globalFilterEnabled then
    Some match sget globalFilterKey search with Some (PStr raw) => raw | _ => [] end
  else None.

Definition mount (search : SearchRecord) : Table :=
  {| url := search; seen := search;
     columnFilters := initialColumnFilters search;
     globalFilter := initialGlobalFilter search |}.

Definition navigate (f : SearchRecord -> SearchRecord) (w : Table) : Table :=
  {| url := f (url w); seen := seen w;
     columnFilters := columnFilters w; globalFilter := globalFilter w |}.

(** The hook is rendered with search parameters; its effect depends on [search] and runs when
    they are not those of the render before. *)
Definition changed (search : SearchRecord) (w : Table) : bool := negb (same_search search (seen w)).
Definition arrive (search : SearchRecord) (w : Table) : Table :=
  {| url := url w; seen := search;
     columnFilters := if changed search w then initialColumnFilters search else columnFilters w;
     globalFilter := globalFilter w |}.

Definition page_patch (next : PaginationState) (prev : SearchRecord) : SearchRecord :=
  let nextPage := (pageIndex next + 1)%Z in
  obj_set pageSizeKey
    (if (pageSize next =? defaultPageSize)%Z then None else Some (PNum (pageSize next)))
    (obj_set pageKey (if (nextPage <=? defaultPage)%Z then None else Some (PNum nextPage)) prev).

Definition onPaginationChange (updater : PaginationState -> PaginationState) (w : Table) : Table :=
  navigate (page_patch (updater (pagination (seen w)))) w.

Definition onGlobalFilterChange (updater : jstr -> jstr) (w : Table) : Table :=
  if globalFilterEnabled then
    let next := updater (orElse (globalFilter w) []) in
    let value := if trimGlobal then trim next else next in
    navigate
      (fun prev => obj_set globalFilterKey (if truthy value then Some (PStr value) else None)
                     (obj_set pageKey None prev))
      {| url := url w; seen := seen w;
         columnFilters := columnFilters w; globalFilter := Some value |}
  else w.

Definition find_filter (k : jstr) (fs : list ColumnFilter) : option ColumnFilter :=
  List.find (fun f => id f =s k) fs.

Definition filter_param (next : list ColumnFilter) (cfg : ColumnFilterConfig) : option param :=
  match find_filter (columnId cfg) next with
  | Some found => if usable cfg (value found) then serialize cfg (value found) else None
  | None => None
  end.

Definition filters_patch (next : list ColumnFilter) : SearchRecord :=
  fold_left (fun patch cfg => obj_set (searchKey cfg) (filter_param next cfg) patch)
            (columnFiltersCfg params) [].

Definition onColumnFiltersChange (updater : list ColumnFilter -> list ColumnFilter) (w : Table) : Table :=
  let next := updater (columnFilters w) in
  navigate (fun prev => obj_merge (obj_set pageKey None prev) (filters_patch next))
    {| url := url w; seen := seen w; columnFilters := next; globalFilter := globalFilter w |}.

Definition ensurePageInRange (pageCount : Z) (resetTo : ResetTo) (w : Table) : Table :=
  let pageNum := numberParam (sget pageKey (seen w)) defaultPage in
  if ((0 <? pageCount) && (pageCount <? pageNum))%Z then
    navigate (obj_set pageKey match resetTo with ToLast => Some (PNum pageCount) | ToFirst => None end) w
  else w.

(** [toolbar.tsx]: the table library turns the two calls into these. *)
Definition handleReset (w : Table) : Table :=
  onGlobalFilterChange (fun _ => []) (onColumnFiltersChange (fun _ => []) w).

Inductive Event :=
  | EPage (updater : PaginationState -> PaginationState)
  | EGlobal (updater : jstr -> jstr)
  | EFilters (updater : list ColumnFilter -> list ColumnFilter)
  | EEnsure (pageCount : Z) (resetTo : ResetTo)
  | EReset.

Definition handle (e : Event) (w : Table) : Table :=
  match e with
  | EPage u => onPaginationChange u w
  | EGlobal u => onGlobalFilterChange u w
  | EFilters u => onColumnFiltersChange u w
  | EEnsure n r => ensurePageInRange n r w
  | EReset => handleReset w
  end.

(** ** The contract

    A table shows a page, a size, filters and a search text; the address holds the same, but
    for filters that it cannot hold. *)

Record View := {
  v_page : Z; v_size : Z; v_filters : list ColumnFilter; v_held : list ColumnFilter; v_global : option jstr;
}.

Definition shown (w : Table) : View :=
  {| v_page := pageIndex (pagination (seen w)); v_size := pageSize (pagination (seen w));
     v_filters := columnFilters w; v_held := initialColumnFilters (seen w); v_global := globalFilter w |}.

(** The filters that are kept: for each column of the configuration the first filter of
    that column, when it is usable. *)
Definition kept (next : list ColumnFilter) : list ColumnFilter :=
  omap (fun cfg =>
          match find_filter (columnId cfg) next with
          | Some f => if usable cfg (value f)
                      then Some {| id := columnId cfg; value := value f |} else None
          | None => None
          end) (columnFiltersCfg params).

(** What a handler asks the table to show, and what is kept of it. *)
Definition asked (e : Event) (v : View) : View :=
  match e with
  | EPage u =>
      let p := u {| pageIndex := v_page v; pageSize := v_size v |} in
      {| v_page := Z.max 0 (pageIndex p); v_size := pageSize p;
         v_filters := v_filters v; v_held := v_held v; v_global := v_global v |}
  | EGlobal u =>
      match v_global v with
      | Some g =>
          {| v_page := 0; v_size := v_size v; v_filters := v_filters v; v_held := v_held v;
             v_global := Some (if trimGlobal then trim (u g) else u g) |}
      | None => v
      end
  | EFilters u =>
      {| v_page := 0; v_size := v_size v; v_filters := u (v_filters v); v_held := kept (u (v_filters v));
         v_global := v_global v |}
  | EEnsure n r =>
      {| v_page := if ((0 <? n) && (n <=? v_page v))%Z
                   then match r with ToLast => n - 1 | ToFirst => 0 end else v_page v;
         v_size := v_size v; v_filters := v_filters v; v_held := v_held v; v_global := v_global v |}
  | EReset =>
      {| v_page := 0; v_size := v_size v; v_filters := []; v_held := [];
         v_global := match v_global v with Some _ => Some [] | None => None end |}
  end.

(** What is shown then: what is kept, when the address changes ([moved]), and else what was
    asked for. *)
Definition promise (moved : bool) (e : Event) (v : View) : View :=
  let v' := asked e v in
  {| v_page := v_page v'; v_size := v_size v'; v_filters := if moved then v_held v' else v_filters v';
     v_held := v_held v'; v_global := v_global v' |}.

(** The part of a view that the address holds. *)
Definition held (v : View) : Z * Z * list ColumnFilter * option jstr :=
  (v_page v, v_size v, v_held v, v_global v).

(** A sequence of handlers, each with whether the address changed: it does whenever what it
    holds does. *)
Inductive keeps_contract : list (Event * bool) -> View -> View -> Prop :=
  | keeps_nil v : keeps_contract [] v v
  | keeps_cons e moved es v v' :
      (held (asked e v) <> held v -> moved = true) ->
      keeps_contract es (promise moved e v) v' ->
      keeps_contract ((e, moved) :: es) v v'.

(** What the configurations of the tables satisfy: the keys differ, the pages start at
    one, and a value that is kept is read back from what is written for it. *)
Record lawful : Prop := {
  law_keys : List.NoDup (pageKey :: pageSizeKey :: globalFilterKey :: map searchKey (columnFiltersCfg params));
  law_page : defaultPage = 1%Z;
  law_values : forall cfg v, In cfg (columnFiltersCfg params) -> usable cfg v = true ->
    deserialize cfg (serialize cfg v) = v;
  law_absent : forall cfg, In cfg (columnFiltersCfg params) -> usable cfg (deserialize cfg None) = false;
}.

Definition same_reads (s t : SearchRecord) : Prop := forall k, sget k s = sget k t.

(** A round: a handler runs and the address it has asked for arrives; the list notes whether it
    is another one. *)
Inductive rounds : list (Event * bool) -> Table -> Table -> Prop :=
  | rounds_nil w : rounds [] w w
  | rounds_cons e es w s w' :
      same_reads s (url (handle e w)) -> rounds es (arrive s (handle e w)) w' ->
      rounds ((e, changed s (handle e w)) :: es) w w'.

(** The hook has seen the latest address, and its search text is that of the address. *)
Definition settled (w : Table) : Prop :=
  same_reads (seen w) (url w) /\ globalFilter w = initialGlobalFilter (seen w).

Lemma same_search_reads s t : same_search s t = true -> same_reads s t.
Proof.
  unfold same_search. intros H k. rewrite forallb_forall in H.
  destruct (in_dec (List.list_eq_dec N.eq_dec) k (map fst s ++ map fst t)) as [Hk|Hk].
  - apply H in Hk. by apply bool_decide_eq_true in Hk.
  - assert (forall o, ~ In k (map fst o) -> sget k o = None) as N.
    { clear. intros o. unfold sget. induction o as [|[k' v] o IH]; [done|]. cbn [map fst obj_get In].
      intros H. destruct (seqb_spec k k') as [->|]; [tauto|]. apply IH. tauto. }
    rewrite !N; [done| |]; intros Hn; apply Hk, in_app_iff; tauto.
Qed.

Lemma same_reads_search s t : same_reads s t -> same_search s t = true.
Proof. intros H. apply forallb_forall. intros k _. apply bool_decide_eq_true, H. Qed.

#[export] Instance same_reads_equiv : Equivalence same_reads.
Proof.
  split; [intros s k; reflexivity | intros s t H k; symmetry; apply H
         | intros s t u H H' k; etransitivity; [apply H | apply H']].
Qed.

#[export] Instance initialColumnFilters_proper : Proper (same_reads ==> eq) initialColumnFilters.
Proof.
  intros s t H. unfold initialColumnFilters. induction (columnFiltersCfg params) as [|c l IH]; [done|].
  cbn [omap list_omap]. rewrite (H (searchKey c)). by rewrite IH.
Qed.

#[export] Instance pagination_proper : Proper (same_reads ==> eq) pagination.
Proof. intros s t H. unfold pagination. by rewrite (H pageKey), (H pageSizeKey). Qed.

#[export] Instance initialGlobalFilter_proper : Proper (same_reads ==> eq) initialGlobalFilter.
Proof. intros s t H. unfold initialGlobalFilter. by rewrite (H globalFilterKey). Qed.

Lemma sget_set k k' v s : sget k (obj_set k' v s) = if k =s k' then v else sget k s.
Proof. unfold sget. rewrite obj_get_set. by destruct (k =s k'). Qed.

Lemma sget_merge k p s : List.NoDup (map fst p) ->
  sget k (obj_merge s p) = match obj_get k p with Some v => v | None => sget k s end.
Proof. intros H. unfold sget. rewrite (obj_get_merge k p s H). by destruct (obj_get k p). Qed.

Lemma fold_patch next cfgs : forall acc, List.NoDup (map searchKey cfgs) -> List.NoDup (map fst acc) ->
  let patch := fold_left (fun patch cfg => obj_set (searchKey cfg) (filter_param next cfg) patch) cfgs acc in
  List.NoDup (map fst patch) /\
  (forall cfg, In cfg cfgs -> obj_get (searchKey cfg) patch = Some (filter_param next cfg)) /\
  (forall k, ~ In k (map searchKey cfgs) -> obj_get k patch = obj_get k acc).
Proof.
  induction cfgs as [|c cfgs IH]; intros acc Hk Ha; cbn [fold_left map] in *; [done|].
  apply List.NoDup_cons_iff in Hk as [Hc Hk].
  destruct (IH (obj_set (searchKey c) (filter_param next c) acc) Hk (obj_set_NoDup _ _ _ Ha)) as (H1 & H2 & H3).
  split; [done|]. split.
  - intros cfg [->|Hin]; [|by apply H2]. rewrite H3, obj_get_set, seqb_refl by done. done.
  - intros k Hn. rewrite H3, obj_get_set by (intros ?; apply Hn; by right).
    destruct (seqb_spec k (searchKey c)) as [->|]; [|done]. destruct Hn. by left.
Qed.

Lemma filters_patched next s : lawful ->
  (forall cfg, In cfg (columnFiltersCfg params) ->
     sget (searchKey cfg) (obj_merge s (filters_patch next)) = filter_param next cfg) /\
  (forall k, ~ In k (map searchKey (columnFiltersCfg params)) ->
     sget k (obj_merge s (filters_patch next)) = sget k s).
Proof.
  intros L. pose proof (law_keys L) as Hk.
  do 3 (apply List.NoDup_cons_iff in Hk; destruct Hk as [_ Hk]).
  destruct (fold_patch next _ [] Hk (List.NoDup_nil _)) as (H1 & H2 & H3). fold (filters_patch next) in H1, H2, H3.
  split; [intros cfg Hin | intros k Hn]; rewrite sget_merge by done; [by rewrite H2 | by rewrite H3].
Qed.

(** Keys that a handler does not touch leave the filters as they are. *)
Lemma initial_ext s t : (forall cfg, In cfg (columnFiltersCfg params) -> sget (searchKey cfg) s = sget (searchKey cfg) t) ->
  initialColumnFilters s = initialColumnFilters t.
Proof.
  unfold initialColumnFilters. induction (columnFiltersCfg params) as [|c l IH]; [done|]. intros H.
  cbn [omap list_omap]. rewrite (H c (or_introl eq_refl)), IH; [done|]. intros. apply H. by right.
Qed.

Lemma initial_kept next s : lawful ->
  (forall cfg, In cfg (columnFiltersCfg params) -> sget (searchKey cfg) s = filter_param next cfg) ->
  initialColumnFilters s = kept next.
Proof.
  intros L. pose proof (law_values L) as Hv. pose proof (law_absent L) as Ha. clear L.
  unfold initialColumnFilters, kept. revert Hv Ha.
  induction (columnFiltersCfg params) as [|c l IH]; [done|]. intros Hv Ha H.
  cbn [omap list_omap]. rewrite (H c (or_introl eq_refl)).
  rewrite (IH (fun cfg v i => Hv cfg v (or_intror i)) (fun cfg i => Ha cfg (or_intror i)) (fun cfg i => H cfg (or_intror i))).
  unfold filter_param. destruct (find_filter (columnId c) next) as [f|].
  - destruct (usable c (value f)) eqn:E.
    + rewrite Hv, E by (first [by left | done]). done.
    + rewrite Ha by (by left). done.
  - rewrite Ha by (by left). done.
Qed.

(** The keys of the page, its size, the search text and the filters are apart. *)
Lemma keys_apart : lawful ->
  let fk := map searchKey (columnFiltersCfg params) in
  (pageKey =s pageSizeKey) = false /\ (pageSizeKey =s pageKey) = false /\
  (pageKey =s globalFilterKey) = false /\ (globalFilterKey =s pageKey) = false /\
  (pageSizeKey =s globalFilterKey) = false /\ (globalFilterKey =s pageSizeKey) = false /\
  ~ In pageKey fk /\ ~ In pageSizeKey fk /\ ~ In globalFilterKey fk.
Proof.
  intros L fk. pose proof (law_keys L) as Hk. fold fk in Hk.
  apply List.NoDup_cons_iff in Hk as [H1 Hk]. apply List.NoDup_cons_iff in Hk as [H2 Hk].
  apply List.NoDup_cons_iff in Hk as [H3 Hk]. rewrite !seqb_neq.
  cbn [In] in *. intuition congruence.
Qed.

(** A column's key is none of the others. *)
Lemma column_apart cfg : lawful -> In cfg (columnFiltersCfg params) ->
  (searchKey cfg =s pageKey) = false /\ (searchKey cfg =s pageSizeKey) = false /\
  (searchKey cfg =s globalFilterKey) = false.
Proof.
  intros L Hin. destruct (keys_apart L) as (_ & _ & _ & _ & _ & _ & H1 & H2 & H3).
  apply (in_map searchKey) in Hin. rewrite !seqb_neq. repeat split; intros E; rewrite E in Hin; done.
Qed.

(** What the address says after a handler. *)
Definition address_shows (s : SearchRecord) (v : View) : Prop :=
  pagination s = {| pageIndex := v_page v; pageSize := v_size v |} /\
  initialColumnFilters s = v_held v /\ initialGlobalFilter s = v_global v.

Lemma pagination_eta p : {| pageIndex := pageIndex p; pageSize := pageSize p |} = p.
Proof. by destruct p. Qed.

Lemma page_url u w : lawful -> settled w ->
  address_shows (url (onPaginationChange u w)) (asked (EPage u) (shown w)).
Proof.
  intros L (Hs & Hg). destruct (keys_apart L) as (E1 & E2 & E3 & E4 & E5 & E6 & _).
  unfold address_shows, onPaginationChange, page_patch. cbn [url navigate asked v_page v_size v_held v_global shown].
  rewrite pagination_eta. set (p := u _). rewrite Hg. rewrite Hs at 1 2. repeat split.
  - unfold pagination. rewrite !sget_set, E1, !seqb_refl, (law_page L).
    destruct p as [i z]; cbn [pageIndex pageSize]. f_equal.
    + destruct (Z.leb_spec (i + 1) 1); cbn; rewrite ?(law_page L); lia.
    + destruct (Z.eqb_spec z defaultPageSize); cbn; congruence.
  - apply initial_ext. intros cfg Hin. destruct (column_apart cfg L Hin) as (A & B & C).
    by rewrite !sget_set, A, B.
  - unfold initialGlobalFilter. by rewrite !sget_set, E4, E6.
Qed.

Lemma global_url u w : lawful -> settled w ->
  let w' := onGlobalFilterChange u w in
  address_shows (url w') (asked (EGlobal u) (shown w)) /\
  globalFilter w' = v_global (asked (EGlobal u) (shown w)).
Proof.
  intros L (Hs & Hg). destruct (keys_apart L) as (E1 & E2 & E3 & E4 & E5 & E6 & _).
  cbn zeta. unfold onGlobalFilterChange, address_shows, shown. cbn [asked v_global].
  assert (globalFilter w = if globalFilterEnabled then Some (orElse (globalFilter w) []) else None) as Hx.
  { rewrite Hg. unfold initialGlobalFilter. by destruct globalFilterEnabled. }
  destruct globalFilterEnabled eqn:En.
  - rewrite Hx. cbn [orElse url navigate globalFilter v_page v_size v_held v_global].
    set (g := orElse (globalFilter w) []).
    set (x := if trimGlobal then trim (u g) else u g). split; [|done].
    rewrite Hs. repeat split.
    + unfold pagination. rewrite !sget_set, E3, E2, E5, seqb_refl. cbn [numberParam].
      rewrite (law_page L). done.
    + apply initial_ext. intros cfg Hin. destruct (column_apart cfg L Hin) as (A & B & C).
      by rewrite !sget_set, C, A.
    + unfold initialGlobalFilter. rewrite En, sget_set, seqb_refl. by destruct x.
  - rewrite Hx. cbn. rewrite <- Hs. repeat split.
    rewrite <- Hg. exact Hx.
Qed.

Lemma filters_url u w : lawful -> settled w ->
  address_shows (url (onColumnFiltersChange u w)) (asked (EFilters u) (shown w)).
Proof.
  intros L (Hs & Hg). destruct (keys_apart L) as (E1 & E2 & E3 & E4 & E5 & E6 & K1 & K2 & K3).
  unfold address_shows, onColumnFiltersChange. cbn [url navigate asked v_page v_size v_filters v_held v_global shown].
  destruct (filters_patched (u (columnFilters w)) (obj_set pageKey None (url w)) L) as [HA HB].
  repeat split.
  - unfold pagination. rewrite !HB, !sget_set, E2, seqb_refl by done. cbn [numberParam pageSize].
    rewrite (law_page L). by rewrite <- (Hs pageSizeKey).
  - by apply initial_kept.
  - rewrite Hg. rewrite Hs. unfold initialGlobalFilter. by rewrite HB, sget_set, E4 by done.
Qed.

Lemma ensure_url n r w : lawful -> settled w ->
  address_shows (url (ensurePageInRange n r w)) (asked (EEnsure n r) (shown w)).
Proof.
  intros L (Hs & Hg). destruct (keys_apart L) as (E1 & E2 & E3 & E4 & E5 & E6 & _).
  unfold address_shows, ensurePageInRange. cbn [asked v_page v_size v_held v_global shown].
  unfold pagination at 2 3 4. cbn [pageIndex pageSize]. set (x := numberParam (sget pageKey (seen w)) defaultPage).
  assert (((0 <? n) && (n <? x))%Z = ((0 <? n) && (n <=? Z.max 0 (x - 1)))%Z) as -> by lia.
  rewrite Hg.
  destruct ((0 <? n) && (n <=? Z.max 0 (x - 1)))%Z eqn:E.
  - cbn [url navigate]. rewrite Hs at 2 3. repeat split.
    + unfold pagination. rewrite !sget_set, E2, seqb_refl. f_equal; [|by rewrite <- (Hs pageSizeKey)].
      destruct r; cbn; rewrite ?(law_page L); lia.
    + apply initial_ext. intros cfg Hin. destruct (column_apart cfg L Hin) as (A & B & C). by rewrite sget_set, A.
    + unfold initialGlobalFilter. by rewrite sget_set, E4.
  - rewrite <- Hs. repeat split.
Qed.

Lemma reset_url w : lawful -> settled w ->
  let w' := handleReset w in
  address_shows (url w') (asked EReset (shown w)) /\ globalFilter w' = v_global (asked EReset (shown w)).
Proof.
  intros L S. set (w0 := onColumnFiltersChange (fun _ => []) w).
  set (w1 := {| url := url w0; seen := url w0; columnFilters := []; globalFilter := globalFilter w |}).
  assert (address_shows (url w1) (asked (EFilters (fun _ => [])) (shown w))) as (A1 & A2 & A3) by by apply filters_url.
  assert (kept [] = []) as K.
  { unfold kept. induction (columnFiltersCfg params) as [|c l IH]; [done|]. cbn. exact IH. }
  assert (settled w1) as S1 by (repeat split; exact (eq_sym A3)).
  destruct (global_url (fun _ => []) w1 L S1) as ((B1 & B2 & B3) & B4).
  cbn [asked shown v_page v_size v_held v_global w1 columnFilters globalFilter seen url] in *.
  assert (url (handleReset w) = url (onGlobalFilterChange (fun _ => []) w1)) as ->.
  { unfold handleReset, onGlobalFilterChange. by destruct globalFilterEnabled. }
  assert (globalFilter (handleReset w) = globalFilter (onGlobalFilterChange (fun _ => []) w1)) as ->.
  { unfold handleReset, onGlobalFilterChange. by destruct globalFilterEnabled. }
  unfold address_shows. cbn [asked shown v_page v_size v_held v_global].
  assert ((if trimGlobal then trim [] else []) = ([] : jstr)) as T by by destruct trimGlobal.
  rewrite B1, B2, B3, B4, T. destruct (globalFilter w) as [g|] eqn:G;
    cbn [v_page v_size v_held v_global shown w1 seen url columnFilters globalFilter]; by rewrite ?A1, ?A2, ?K, ?G.
Qed.

Lemma handle_seen e w : seen (handle e w) = seen w.
Proof.
  destruct e; try done; cbn [handle].
  - unfold onGlobalFilterChange. by destruct globalFilterEnabled.
  - unfold ensurePageInRange. by destruct (_ && _).
  - unfold handleReset, onGlobalFilterChange. by destruct globalFilterEnabled.
Qed.

Lemma handle_filters e w : columnFilters (handle e w) = v_filters (asked e (shown w)).
Proof.
  destruct e; try done; cbn [handle asked].
  - unfold onGlobalFilterChange, shown. destruct globalFilterEnabled; by destruct (globalFilter w).
  - unfold ensurePageInRange. by destruct (_ && _).
  - unfold handleReset, onGlobalFilterChange. by destruct globalFilterEnabled.
Qed.

(** The address that a handler asks for holds what is asked, and so does the search text. *)
Lemma handle_url e w : lawful -> settled w ->
  address_shows (url (handle e w)) (asked e (shown w)) /\ globalFilter (handle e w) = v_global (asked e (shown w)).
Proof.
  intros L S. destruct e; cbn [handle]; [| apply global_url; done | | | apply reset_url; done].
  1: split; [by apply page_url | done]. 1: split; [by apply filters_url | done].
  split; [by apply ensure_url |]. unfold ensurePageInRange. by destruct (_ && _).
Qed.

(** One round: the table shows what its contract promises, and has seen its address. *)
Lemma round_shows e w s : lawful -> settled w -> same_reads s (url (handle e w)) ->
  let w' := arrive s (handle e w) in
  let moved := changed s (handle e w) in
  shown w' = promise moved e (shown w) /\ settled w' /\ (held (asked e (shown w)) <> held (shown w) -> moved = true).
Proof.
  intros L S Hs w' moved. destruct (handle_url e w L S) as ((A1 & A2 & A3) & A4).
  rewrite <- Hs in A1. rewrite <- (initialColumnFilters_proper _ _ Hs) in A2. rewrite <- (initialGlobalFilter_proper _ _ Hs) in A3.
  split; [|split].
  - unfold shown at 1, promise. cbn [w' arrive seen columnFilters globalFilter]. fold moved.
    rewrite A1, A2, A4, handle_filters. cbn [pageIndex pageSize]. done.
  - split; cbn [w' arrive seen url globalFilter]; [exact Hs|]. by rewrite A3.
  - intros Hd. unfold moved, changed. apply negb_true_iff. destruct (same_search _ _) eqn:E; [|done].
    exfalso. apply Hd. apply same_search_reads in E. rewrite handle_seen in E. rewrite E in A1.
    rewrite (initialColumnFilters_proper _ _ E) in A2. rewrite (initialGlobalFilter_proper _ _ E), <- (proj2 S) in A3.
    unfold held, shown. cbn [v_page v_size v_held v_global]. fold (shown w). rewrite A1, <- A3, A2. done.
Qed.

End Hook.

(** C32: A table of the address keeps its contract.  After any sequence of page changes, searches,
    filters, corrections of the page and resets, each followed by the arrival of the address it
    has asked for: page, size and search text are the ones asked for (a filter, a search and a
    reset show the first page); the address holds them with the filters that are kept, for each
    column the first usable one; and the table shows these filters whenever the address has
    changed, which it does whenever anything that it holds does.  When it has not changed, the
    effect that reads it does not run, and the table shows the filters just as they were set: a
    filter that the address cannot hold (a blank text, say) stays until the address changes.
    Opening the address anew shows the same page, size and search text, and the filters it
    holds. *)
Theorem table_follows_address params es w w' : lawful params -> settled params w -> rounds params es w w' ->
  keeps_contract params es (shown params w) (shown params w') /\
  let v := shown params w' in
  shown params (mount params (url w')) =
    {| v_page := v_page v; v_size := v_size v; v_filters := v_held v; v_held := v_held v; v_global := v_global v |}.
Proof.
  intros L S R. assert (settled params w' /\ keeps_contract params es (shown params w) (shown params w')) as [[A C] D].
  { induction R as [w|e es w s w' Hs R IH]; [by split; [|constructor]|].
    destruct (round_shows params e w s L S Hs) as (E & S' & Hm). destruct (IH S') as [H1 H2]. split; [done|].
    constructor; [exact Hm|]. by rewrite <- E. }
  split; [done|]. unfold shown. cbn [mount seen columnFilters globalFilter v_page v_size v_held v_global].
  rewrite C. by rewrite (pagination_proper params _ _ A), (initialColumnFilters_proper params _ _ A), (initialGlobalFilter_proper params _ _ A).
Qed.

(** Configurations without conversions are lawful when their keys differ. *)
Lemma plain_lawful params :
  List.NoDup (pageKey params :: pageSizeKey params :: globalFilterKey params :: map searchKey (columnFiltersCfg params)) ->
  defaultPage params = 1%Z ->
  Forall (fun cfg => cfg_serialize cfg = None /\ cfg_deserialize cfg = None) (columnFiltersCfg params) ->
  lawful params.
Proof.
  intros Hk Hp Hc. rewrite List.Forall_forall in Hc.
  split; [done | done | |]; intros cfg; [intros v|]; intros Hin; destruct (Hc cfg Hin) as [A B];
    unfold serialize, deserialize; by rewrite ?A, ?B.
Qed.

(** When the corrected address of a table has arrived, its page is one of the pages
    there are, and correcting it again changes nothing: the effect does not loop. *)
Theorem ensure_idle params n r w s : lawful params -> settled params w -> (0 < n)%Z ->
  same_reads s (url (ensurePageInRange params n r w)) ->
  let w' := arrive params s (ensurePageInRange params n r w) in
  (0 <= v_page (shown params w') < n)%Z /\ forall r', ensurePageInRange params n r' w' = w'.
Proof.
  intros L S Hn Hs w'. destruct (round_shows params (EEnsure n r) w s L S Hs) as [E _]. fold w' in E.
  change (handle params (EEnsure n r) w) with (ensurePageInRange params n r w) in E. fold w' in E.
  assert (0 <= v_page (shown params w') < n)%Z as B.
  { rewrite E. cbn [promise asked v_page shown pagination pageIndex].
    destruct (_ && _) eqn:C; [destruct r; lia | lia]. }
  split; [done|]. intros r'. cbn [shown v_page pagination pageIndex] in B.
  unfold ensurePageInRange. rewrite (law_page params L) in *.
  destruct ((0 <? n) && (n <? numberParam (sget (pageKey params) (seen w')) 1))%Z eqn:C; [lia | done].
Qed.

(** ** The table of users

    [users-table.tsx] adds an effect: while there is a search text, the page is set to the
    first.  It depends on [onPaginationChange], which is a new function in every render. *)

Definition plain_column (cid key : jstr) (is_str : bool) : ColumnFilterConfig :=
  {| columnId := cid; searchKey := key; is_string := is_str; cfg_serialize := None; cfg_deserialize := None |}.

Definition users_params (isMobile : bool) : UseTableUrlStateParams :=
  {| paginationCfg := {| cfg_pageKey := None; cfg_pageSizeKey := None; cfg_defaultPage := Some 1%Z;
                         cfg_defaultPageSize := Some (if isMobile then 10 else 20)%Z |};
     globalFilterCfg := {| cfg_enabled := Some true; cfg_key := Some "filter"; cfg_trim := None |};
     columnFiltersCfg := [plain_column "status" "status" false; plain_column "role" "role" false;
                          plain_column "group" "group" true] |}.

(** The effects of one render, in their order. *)
Definition users_effects (isMobile : bool) (pageCount : Z) (w : Table) : Table :=
  let w1 := if truthy (trim (orElse (globalFilter w) [])) then
              onPaginationChange (users_params isMobile)
                (fun current => if (pageIndex current =? 0)%Z then current
                                else {| pageIndex := 0; pageSize := pageSize current |}) w
            else w in
  ensurePageInRange (users_params isMobile) pageCount ToFirst w1.

(** What is asked of the server: the search text, when there is one, and the page. *)
Record UsersRequest := { ur_keyword : option jstr; ur_p : Z; ur_page_size : Z }.

Definition users_request (isMobile : bool) (w : Table) : UsersRequest :=
  let p := pagination (users_params isMobile) (seen w) in
  {| ur_keyword := match globalFilter w with
                   | Some g => if truthy (trim g) then Some g else None
                   | None => None end;
     ur_p := (pageIndex p + 1)%Z; ur_page_size := pageSize p |}.

Lemma users_lawful isMobile : lawful (users_params isMobile).
Proof.
  apply plain_lawful; [|done | by repeat constructor].
  cbn. repeat (apply List.NoDup_cons; [cbn [In]; intuition discriminate|]). apply List.NoDup_nil.
Qed.

(** Correcting the page of an address that shows the first one does not change it. *)
Lemma ensure_keeps_first params n b z : lawful params ->
  pagination params (url b) = {| pageIndex := 0; pageSize := z |} ->
  let b' := ensurePageInRange params n ToFirst b in
  pagination params (url b') = {| pageIndex := 0; pageSize := z |} /\
  initialGlobalFilter params (url b') = initialGlobalFilter params (url b) /\ globalFilter b' = globalFilter b.
Proof.
  intros L P. cbn zeta. unfold ensurePageInRange. destruct (_ && _); [|done].
  destruct (keys_apart params L) as (_ & E2 & _ & E4 & _). cbn [url navigate globalFilter].
  split; [|split; [|done]].
  - unfold pagination in *. injection P as _ P. rewrite !sget_set, seqb_refl, E2, P. cbn [numberParam].
    by rewrite (law_page params L).
  - unfold initialGlobalFilter. by rewrite sget_set, E4.
Qed.

(** While users are searched for, only the first page can be seen: whichever page is
    chosen, once the effects of the next render have run the table shows the first page
    again and asks the server for it. *)
Theorem users_search_first_page isMobile w p n s s' g :
  settled (users_params isMobile) w -> globalFilter w = Some g -> trim g <> [] ->
  let chosen := arrive (users_params isMobile) s (onPaginationChange (users_params isMobile) (fun _ => p) w) in
  same_reads s (url (onPaginationChange (users_params isMobile) (fun _ => p) w)) ->
  let corrected := arrive (users_params isMobile) s' (users_effects isMobile n chosen) in
  same_reads s' (url (users_effects isMobile n chosen)) ->
  users_request isMobile chosen = {| ur_keyword := Some g; ur_p := Z.max 0 (pageIndex p) + 1; ur_page_size := pageSize p |} /\
  users_request isMobile corrected = {| ur_keyword := Some g; ur_p := 1; ur_page_size := pageSize p |} /\
  settled (users_params isMobile) corrected.
Proof.
  intros S Hg Ht chosen Hs corrected Hs'. pose proof (users_lawful isMobile) as L.
  destruct (round_shows _ (EPage (fun _ => p)) w s L S Hs) as (E1 & S1 & _).
  change (handle _ (EPage (fun _ => p)) w) with (onPaginationChange (users_params isMobile) (fun _ => p) w) in E1, S1.
  fold chosen in E1, S1.
  assert (globalFilter chosen = Some g) as Hc by exact Hg. apply truthy_iff in Ht.
  set (u := fun current : PaginationState =>
    if (pageIndex current =? 0)%Z then current else {| pageIndex := 0; pageSize := pageSize current |}).
  set (back := onPaginationChange (users_params isMobile) u chosen).
  assert (users_effects isMobile n chosen = ensurePageInRange (users_params isMobile) n ToFirst back) as EQ.
  { unfold users_effects. by rewrite Hc; cbn [orElse]; rewrite Ht. }
  subst corrected. rewrite EQ in *. clear EQ.
  set (corrected := arrive _ s' _).
  destruct (page_url (users_params isMobile) u chosen L S1) as (A1 & A2 & A3). fold back in A1, A2, A3.
  assert (pagination (users_params isMobile) (url back) = {| pageIndex := 0; pageSize := pageSize p |}) as P.
  { rewrite A1, E1. cbn [promise asked v_page v_size shown]. unfold u. cbn [pageIndex].
    destruct (Z.eqb_spec (Z.max 0 (pageIndex p)) 0) as [Z0|]; cbn [pageIndex pageSize]; [by rewrite Z0 | done]. }
  destruct (ensure_keeps_first _ n back _ L P) as (B1 & B2 & B3).
  rewrite <- (pagination_proper _ _ _ Hs') in B1. rewrite <- (initialGlobalFilter_proper _ _ _ Hs'), A3 in B2.
  assert (globalFilter corrected = Some g) as Gc by (etransitivity; [exact B3 | exact Hg]).
  unfold users_request. rewrite Hc, Gc, Ht. change (seen corrected) with s'. rewrite B1. repeat split.
  - apply (f_equal v_page) in E1 as Ep. apply (f_equal v_size) in E1 as Ez.
    cbn [shown promise asked v_page v_size] in Ep, Ez. by rewrite Ep, Ez.
  - exact Hs'.
  - rewrite Gc, <- Hc. symmetry. exact B2.
Qed.

(** ** The table of channels

    [channels-table.tsx] filters by model through an input of its own, which follows the
    address and is written to it half a second after the last change
    ([hooks/use-debounce.ts]). *)

Definition channels_params (isMobile : bool) (DEFAULT_PAGE_SIZE : Z) : UseTableUrlStateParams :=
  {| paginationCfg := {| cfg_pageKey := None; cfg_pageSizeKey := None; cfg_defaultPage := Some 1%Z;
                         cfg_defaultPageSize := Some (if isMobile then 10 else DEFAULT_PAGE_SIZE)%Z |};
     globalFilterCfg := {| cfg_enabled := Some true; cfg_key := Some "filter"; cfg_trim := None |};
     columnFiltersCfg := [plain_column "status" "status" false; plain_column "type" "type" false;
                          plain_column "group" "group" false; plain_column "model" "model" true] |}.

(** The text of the model's filter; the column only ever holds texts. *)
Definition modelFilterOf (fs : list ColumnFilter) : jstr :=
  match find_filter "model" fs with
  | Some {| value := Some (PStr s) |} => s
  | _ => []
  end.

Record ChannelsTable := {
  table : Table;
  modelFilterInput : jstr;
  debouncedModelFilter : jstr;
  timer : option jstr;             (** the text the running timer will hand over *)
  lastInput : jstr;                (** what the effect of [useDebounce] last ran for *)
  lastModelFilterFromUrl : jstr;   (** what the effect that follows the address last ran for *)
}.

Section Channels.
  Context (isMobile : bool) (size : Z).
Let params := channels_params isMobile size.

Definition with_table (f : Table -> Table) (c : ChannelsTable) : ChannelsTable :=
  {| table := f (table c); modelFilterInput := modelFilterInput c; debouncedModelFilter := debouncedModelFilter c;
     timer := timer c; lastInput := lastInput c; lastModelFilterFromUrl := lastModelFilterFromUrl c |}.

Definition typeModel (s : jstr) (c : ChannelsTable) : ChannelsTable :=
  {| table := table c; modelFilterInput := s; debouncedModelFilter := debouncedModelFilter c;
     timer := timer c; lastInput := lastInput c; lastModelFilterFromUrl := lastModelFilterFromUrl c |}.

Definition put_model (debounced : jstr) (prev : list ColumnFilter) : list ColumnFilter :=
  let filtered := List.filter (fun f => negb (id f =s "model")) prev in
  if truthy debounced then filtered ++ [{| id := "model"; value := Some (PStr debounced) |}] else filtered.

(** One render and its effects: the hook's when new parameters have arrived, the
    debouncing's, the one that follows the address, the one that writes it. *)
Definition commit (arrival : option SearchRecord) (c : ChannelsTable) : ChannelsTable :=
  let fromUrl := modelFilterOf (columnFilters (table c)) in
  let synced := match arrival with Some s => arrive params s (table c) | None => table c end in
  let next := put_model (debouncedModelFilter c) (columnFilters (table c)) in
  {| table := if debouncedModelFilter c =s fromUrl then synced
              else onColumnFiltersChange params (fun _ => next) synced;
     modelFilterInput := if fromUrl =s lastModelFilterFromUrl c then modelFilterInput c else fromUrl;
     debouncedModelFilter := debouncedModelFilter c;
     timer := if modelFilterInput c =s lastInput c then timer c else Some (modelFilterInput c);
     lastInput := modelFilterInput c;
     lastModelFilterFromUrl := fromUrl |}.

(** Half a second without a change. *)
Definition elapse (c : ChannelsTable) : ChannelsTable :=
  match timer c with
  | Some s => {| table := table c; modelFilterInput := modelFilterInput c; debouncedModelFilter := s;
                 timer := None; lastInput := lastInput c; lastModelFilterFromUrl := lastModelFilterFromUrl c |}
  | None => c
  end.

(** A change of the sorting shows the first page. *)
Definition handleSortingChange (c : ChannelsTable) : ChannelsTable :=
  let p := pagination params (seen (table c)) in
  if (0 <? pageIndex p)%Z then
    with_table (onPaginationChange params (fun _ => {| pageIndex := 0; pageSize := pageSize p |})) c
  else c.

(** [first] or nothing: the selected value of a filter, unless everything is selected. *)
Definition selectedValue (k : jstr) (fs : list ColumnFilter) : option json :=
  match find_filter k fs with
  | Some {| value := Some (PArr (v :: l)) |} =>
      if existsb (fun x => is_str (Some x) "all") (v :: l) then None else Some v
  | _ => None
  end.

Record ChannelsRequest := {
  cr_search : bool; cr_keyword : option jstr; cr_model : jstr; cr_group : option json;
  cr_status : option json; cr_type : option Number.number; cr_p : Z; cr_page_size : Z;
}.

Definition channels_request (w : Table) : ChannelsRequest :=
  let model := modelFilterOf (columnFilters w) in
  let p := pagination params (seen w) in
  {| cr_search := truthy (trim (orElse (globalFilter w) [])) || truthy (trim model);
     cr_keyword := globalFilter w; cr_model := model;
     cr_group := selectedValue "group" (columnFilters w);
     cr_status := selectedValue "status" (columnFilters w);
     cr_type := option_map js_Number (selectedValue "type" (columnFilters w));
     cr_p := (pageIndex p + 1)%Z; cr_page_size := pageSize p |}.

(** Several commits, each perhaps with an arrival of the latest address. *)
Inductive commits : nat -> ChannelsTable -> ChannelsTable -> Prop :=
  | commits_O c : commits 0 c c
  | commits_quiet n c c' : commits n (commit None c) c' -> commits (S n) c c'
  | commits_arrival n s c c' :
      same_reads s (url (table c)) -> commits n (commit (Some s) c) c' -> commits (S n) c c'.

(** The filter of the table and that of the address are the text [m]. *)
Definition model_is (m : jstr) (w : Table) : Prop :=
  modelFilterOf (columnFilters w) = m /\ sget "model" (url w) = Some (PStr m).

Lemma channels_lawful : lawful params.
Proof.
  apply plain_lawful; [|done | by repeat constructor].
  cbn. repeat (apply List.NoDup_cons; [cbn [In]; intuition discriminate|]). apply List.NoDup_nil.
Qed.

Lemma find_put_model m prev : m <> [] ->
  find_filter "model" (put_model m prev) = Some {| id := "model"; value := Some (PStr m) |}.
Proof.
  intros H. unfold put_model. apply truthy_iff in H. rewrite H. unfold find_filter.
  induction prev as [|f l IH]; [done|]. cbn [List.filter].
  destruct (id f =s "model") eqn:E; cbn [negb]; [done|]. cbn [app List.find]. by rewrite E.
Qed.

(** Writing a text that is not blank puts it into the table and into the address. *)
Lemma write_model m prev w : trim m <> [] ->
  model_is m (onColumnFiltersChange params (fun _ => put_model m prev) w).
Proof.
  intros H. assert (m <> []) as Hm by (intros ->; by apply H).
  unfold model_is, onColumnFiltersChange. cbn [columnFilters url navigate].
  split; [by unfold modelFilterOf; rewrite find_put_model by done|].
  destruct (filters_patched params (put_model m prev) (obj_set (pageKey params) None (url w)) channels_lawful) as [A _].
  specialize (A (plain_column "model" "model" true)).
  cbn [searchKey plain_column] in A. rewrite A by (by do 3 right; left).
  unfold filter_param. cbn [columnId plain_column]. rewrite find_put_model by done.
  cbn [value usable is_string plain_column]. apply truthy_iff in H. by rewrite H.
Qed.

(** An arrival of an address with the text shows it. *)
Lemma arrive_model m s w : trim m <> [] -> same_reads s (url w) -> modelFilterOf (columnFilters w) = m ->
  sget "model" (url w) = Some (PStr m) ->
  model_is m (arrive params s w).
Proof.
  intros H Hs Hf Hu. split; [|done]. cbn [columnFilters arrive]. destruct (changed s w); [|done]. rewrite <- (Hs "model") in Hu.
  unfold initialColumnFilters, params, channels_params.
  cbn [columnFiltersCfg omap list_omap plain_column searchKey columnId deserialize cfg_deserialize orElse].
  cbv beta. rewrite Hu. cbn [usable is_string]. apply truthy_iff in H. rewrite H. cbn [andb].
  repeat (match goal with |- context [if ?b then Some _ else None] => destruct b end; try done).
Qed.

Lemma commit_debounced a c : debouncedModelFilter (commit a c) = debouncedModelFilter c.
Proof. done. Qed.

Lemma commit_writes m a c : debouncedModelFilter c = m -> trim m <> [] ->
  modelFilterOf (columnFilters (table c)) <> m -> model_is m (table (commit a c)).
Proof.
  intros Hd Ht Hn. unfold commit. cbn [table]. rewrite Hd.
  assert ((m =s modelFilterOf (columnFilters (table c))) = false) as -> by (apply seqb_neq; congruence).
  by apply write_model.
Qed.

Lemma commit_keeps m a c : debouncedModelFilter c = m -> trim m <> [] -> model_is m (table c) ->
  (forall s, a = Some s -> same_reads s (url (table c))) -> model_is m (table (commit a c)).
Proof.
  intros Hd Ht [Hf Hu] Ha. unfold commit. cbn [table]. rewrite Hd, Hf, seqb_refl.
  destruct a as [s|]; [|by split]. by apply arrive_model; [| apply Ha | |].
Qed.

Lemma commits_keep m n c c' : commits n c c' -> debouncedModelFilter c = m -> trim m <> [] ->
  model_is m (table c) -> model_is m (table c').
Proof.
  induction 1 as [c|n c c' _ IH|n s c c' Hs _ IH]; intros Hd Ht Hm; [done | |];
    (apply IH; [done | done |]); apply commit_keeps; try done. by intros ? [= <-].
Qed.

(** One commit is enough, whatever the filter was. *)
Lemma commits_keep_model m n c c' : commits (S n) c c' -> debouncedModelFilter c = m -> trim m <> [] ->
  (modelFilterOf (columnFilters (table c)) = m -> model_is m (table c)) -> model_is m (table c').
Proof.
  intros H Hd Ht Hm. inversion H as [|? ? ? H'|? s ? ? Hs H']; subst.
  all: apply (commits_keep _ _ _ _ H'); [done | done |].
  all: destruct (seqb_spec (modelFilterOf (columnFilters (table c))) (debouncedModelFilter c)) as [E|E].
  all: first [by apply commit_writes | apply commit_keeps; try done; try by apply Hm].
  by intros ? [= <-].
Qed.

Lemma commits_input m n c c' : commits n c c' -> debouncedModelFilter c = m -> trim m <> [] ->
  model_is m (table c) -> lastModelFilterFromUrl c = m -> modelFilterInput c = m -> modelFilterInput c' = m.
Proof.
  induction 1 as [c|n c c' _ IH|n s c c' Hs _ IH]; intros Hd Ht Hm Hl Hi; [done | |];
    (apply IH; [done | done | apply commit_keeps; try done; by intros ? [= <-] | by apply Hm |]);
    unfold commit; cbn [modelFilterInput]; destruct Hm as [Hm _]; by rewrite Hm, Hl, seqb_refl.
Qed.

(** The history of the browser hands over an earlier address. *)
Definition go (s : SearchRecord) (w : Table) : Table :=
  {| url := s; seen := seen w; columnFilters := columnFilters w; globalFilter := globalFilter w |}.

Lemma reset_model w : modelFilterOf (columnFilters (handleReset params w)) = [].
Proof. done. Qed.

Lemma modelFilterOf_arrive s w : sget "model" s = None -> sget "model" (seen w) <> None ->
  modelFilterOf (columnFilters (arrive params s w)) = [].
Proof.
  intros H Hn. cbn [columnFilters arrive].
  assert (changed s w = true) as ->.
  { unfold changed. destruct (same_search s (seen w)) eqn:E; [|done]. apply same_search_reads in E.
    destruct Hn. by rewrite <- (E "model"). } unfold initialColumnFilters, params, channels_params.
  cbn [columnFiltersCfg omap list_omap plain_column searchKey columnId deserialize cfg_deserialize orElse].
  cbv beta. rewrite H. cbn [usable is_string].
  repeat (match goal with |- context [if ?b then Some _ else None] => destruct b end; try done).
Qed.

End Channels.

(** A filter by model cannot be taken away but by emptying its input: resetting the
    toolbar, or going back from its address to one without it, is undone by the effect that writes
    the debounced text, and the input shows the text again. *)
Theorem model_filter_sticks isMobile size c m : debouncedModelFilter c = m -> trim m <> [] ->
  (forall n c', commits isMobile size (S n) (with_table (handleReset (channels_params isMobile size)) c) c' ->
     model_is m (table c') /\
     (lastModelFilterFromUrl c = m -> modelFilterInput c = m -> n <> 0 -> modelFilterInput c' = m)) /\
  (forall s s' n c', sget "model" s = None -> sget "model" (seen (table c)) <> None -> same_reads s' s ->
     commits isMobile size (S n) (commit isMobile size (Some s') (with_table (go s) c)) c' -> model_is m (table c')).
Proof.
  intros Hd Ht. assert ([] <> m) as Hm by (intros <-; by apply Ht). split.
  - intros n c' H. split; [by apply (commits_keep_model _ _ _ _ _ _ H)|]. intros Hl Hi Hn.
    set (r := with_table _ c) in H.
    assert (forall a, model_is m (table (commit isMobile size a r))) as H1 by (intros a; by apply commit_writes).
    assert (forall a b, (forall s, b = Some s -> same_reads s (url (table (commit isMobile size a r)))) ->
              forall k, commits isMobile size k (commit isMobile size b (commit isMobile size a r)) c' ->
              modelFilterInput c' = m) as K.
    { intros a b Hb k Hk. apply (commits_input _ _ _ _ _ _ Hk); [done | done | | |].
      - apply commit_keeps; [done | done | apply H1 | done].
      - exact (proj1 (H1 a)).
      - unfold commit at 1. cbn [modelFilterInput]. rewrite (proj1 (H1 a)).
        unfold commit at 1. cbn [lastModelFilterFromUrl]. unfold r. cbn [with_table table]. rewrite reset_model.
        assert ((m =s []) = false) as -> by (apply seqb_neq; congruence). done. }
    inversion H as [|? ? ? H'|? s ? ? Hs H']; subst;
      (destruct n as [|n]; [done|]; inversion H' as [|? ? ? H2|? s2 ? ? Hs2 H2]; subst);
      (eapply K; [|exact H2]); intros ? [= <-]; done.
  - intros s s' n c' Hs Hseen Hr H. apply (commits_keep_model _ _ _ _ _ _ H); [done | done |]. intros E. revert E.
    unfold commit. cbn [table with_table go columnFilters debouncedModelFilter]. rewrite Hd.
    destruct (seqb_spec m (modelFilterOf (columnFilters (table c)))) as [E|E].
    + intros E'. rewrite modelFilterOf_arrive in E' by first [by rewrite Hr | exact Hseen]. done.
    + intros _. by apply write_model.
Qed.

(** A new text reaches the filter half a second after the last key. *)
Lemma typed_model_applies isMobile size m c : trim m <> [] -> modelFilterOf (columnFilters (table c)) <> m ->
  modelFilterOf (columnFilters (table (commit isMobile size None (typeModel m c)))) <> m -> lastInput c <> m ->
  let c' := commit isMobile size None (elapse (commit isMobile size None (typeModel m c))) in
  model_is m (table c') /\ cr_model (channels_request isMobile size (table c')) = m.
Proof.
  intros Ht H1 H2 Hl c'. assert (model_is m (table c')) as H; [|split; [done | apply H]].
  assert (timer (commit isMobile size None (typeModel m c)) = Some m) as T.
  { unfold commit, typeModel. cbn [timer modelFilterInput lastInput].
    assert ((m =s lastInput c) = false) as -> by (apply seqb_neq; congruence). done. }
  apply commit_writes; [| done |]; unfold elapse; rewrite T; done.
Qed.

(** ** Witnesses *)

Definition sample_table : Table := mount (users_params false) [("page", Some (PNum 3))].
Definition status_1 : ColumnFilter := {| id := "status"; value := Some (PArr [JStr "1"]) |}.
Definition blank_group : ColumnFilter := {| id := "group"; value := Some (PStr " ") |}.

(** Handlers one after the other, the address arriving in between. *)
Fixpoint play (params : UseTableUrlStateParams) (es : list Event) (w : Table) : list (Event * bool) * Table :=
  match es with
  | [] => ([], w)
  | e :: es =>
      let h := handle params e w in
      let rest := play params es (arrive params (url h) h) in
      ((e, changed (url h) h) :: fst rest, snd rest)
  end.

Lemma play_rounds params es w : rounds params (fst (play params es w)) w (snd (play params es w)).
Proof. revert w. induction es as [|e es IH]; intros w; [constructor|]. by constructor. Qed.

(** The blank text is dropped when it comes with an address that changes, and stays when it
    comes alone, until a page change changes the address. *)
Definition sample_events : list Event :=
  [ EFilters (fun _ => [status_1; blank_group]); EFilters (fun prev => prev ++ [blank_group]) ].
Definition more_events : list Event :=
  [ EPage (fun p => {| pageIndex := pageIndex p + 4; pageSize := 50 |}); EEnsure 3 ToLast; EGlobal (fun _ => " bob ") ].

Lemma table_follows_address_witness :
  let params := users_params false in
  let r1 := play params sample_events sample_table in
  let r2 := play params more_events (snd r1) in
  map snd (fst r1) = [true; false] /\ columnFilters (snd r1) = [status_1; blank_group] /\
  v_filters (shown params (mount params (url (snd r1)))) = [status_1] /\
  keeps_contract params (fst r2) (shown params (snd r1)) (shown params (snd r2)) /\
  shown params (snd r2) =
    {| v_page := 0; v_size := 50; v_filters := [status_1]; v_held := [status_1]; v_global := Some "bob" |}.
Proof.
  cbv zeta. set (params := users_params false).
  assert (settled params sample_table) as S0 by (split; [intros k; reflexivity | vm_compute; reflexivity]).
  assert (settled params (snd (play params sample_events sample_table))) as S1
    by (split; [intros k; reflexivity | vm_compute; reflexivity]).
  split; [vm_compute; reflexivity|]. split; [vm_compute; reflexivity|].
  destruct (table_follows_address params _ _ _ (users_lawful false) S0 (play_rounds params sample_events sample_table)) as [_ B].
  split; [rewrite B; vm_compute; reflexivity|].
  destruct (table_follows_address params _ _ _ (users_lawful false) S1 (play_rounds params more_events _)) as [A _].
  split; [exact A | vm_compute; reflexivity].
Defined.

Lemma users_search_first_page_witness : exists w, globalFilter w = Some "bob" /\
  let chosen := arrive (users_params false) (url (onPaginationChange (users_params false) (fun _ => {| pageIndex := 2; pageSize := 20 |}) w))
                  (onPaginationChange (users_params false) (fun _ => {| pageIndex := 2; pageSize := 20 |}) w) in
  users_request false chosen = {| ur_keyword := Some "bob"; ur_p := 3; ur_page_size := 20 |} /\
  users_request false (arrive (users_params false) (url (users_effects false 9 chosen)) (users_effects false 9 chosen))
  = {| ur_keyword := Some "bob"; ur_p := 1; ur_page_size := 20 |}.
Proof.
  exists (mount (users_params false) [("filter", Some (PStr "bob"))]). split; [reflexivity|]. intros chosen.
  destruct (users_search_first_page false (mount (users_params false) [("filter", Some (PStr "bob"))])
              {| pageIndex := 2; pageSize := 20 |} 9
              (url (onPaginationChange (users_params false) (fun _ => {| pageIndex := 2; pageSize := 20 |})
                      (mount (users_params false) [("filter", Some (PStr "bob"))])))
              (url (users_effects false 9 chosen)) "bob") as (A & B & _);
    [repeat split; reflexivity | reflexivity | discriminate | intros k; reflexivity | intros k; reflexivity |].
  split; [exact A | exact B].
Defined.

Definition sample_channels : ChannelsTable :=
  {| table := mount (channels_params false 20) [("model", Some (PStr "gpt"))];
     modelFilterInput := "gpt"; debouncedModelFilter := "gpt"; timer := None;
     lastInput := "gpt"; lastModelFilterFromUrl := "gpt" |}.

Lemma model_filter_sticks_witness : exists c',
  commits false 20 3 (with_table (handleReset (channels_params false 20)) sample_channels) c' /\
  model_is "gpt" (table c') /\ modelFilterInput c' = "gpt".
Proof.
  eexists. split; [do 3 apply commits_quiet; apply commits_O|].
  destruct (model_filter_sticks false 20 sample_channels "gpt") as [A _]; [reflexivity | discriminate |].
  destruct (A 2 _ (commits_quiet _ _ _ _ _ (commits_quiet _ _ _ _ _ (commits_quiet _ _ _ _ _ (commits_O _ _ _))))) as [B C].
  split; [exact B | apply C; [reflexivity | reflexivity | discriminate]].
Defined.

Lemma ensure_idle_witness :
  let far := mount (users_params false) [("page", Some (PNum 9))] in
  let w' := arrive (users_params false) [("page", Some (PNum 4))] (ensurePageInRange (users_params false) 4 ToLast far) in
  v_page (shown (users_params false) far) = 8%Z /\ (v_page (shown (users_params false) w') < 4)%Z /\
  ensurePageInRange (users_params false) 4 ToFirst w' = w'.
Proof.
  cbv zeta. split; [reflexivity|].
  destruct (ensure_idle (users_params false) 4 ToLast (mount (users_params false) [("page", Some (PNum 9))])
              [("page", Some (PNum 4))]) as [[_ A] B];
    [apply users_lawful | repeat split; reflexivity | reflexivity | intros k; vm_compute; reflexivity |].
  split; [exact A | exact (B ToFirst)].
Defined.
