(* ===== verification/SettingsForm.v ===== *)
(** * The form of the system settings

    [features/system-settings/hooks/use-settings-form.ts]: options are named by paths with
    dots ([quota_setting.enable_free_model_pre_consume]); the form edits the nested object
    they stand for and sends the options that were changed.  The form library
    (react-hook-form) is third-party code: what it calls dirty is an argument.  A property
    that is [undefined] reads as one that is absent, and is left out of the objects. *)

From S2P Require Import Prelude Number Json.
From stdpp Require Import options.

Definition isPlainObject (value : json) : bool := match value with JObj _ => true | _ => false end.

(** [parentKey ? `${parentKey}.${key}` : key] *)
Definition nextKey (parentKey : option jstr) (key : jstr) : jstr :=
  match parentKey with
  | Some p => if truthy p then p ++ "." ++ key else key
  | None => key
  end.

(** ** Flattening and expanding *)

Fixpoint flattenValues (values : json) (parentKey : option jstr) (result : list (jstr * json)) : list (jstr * json) :=
  match values with
  | JObj entries =>
      (fix go entries result :=
         match entries with
         | [] => result
         | (key, value) :: rest => go rest (flattenValues value (Some (nextKey parentKey key)) result)
         end) entries result
  | _ => match parentKey with Some k => obj_set k values result | None => result end
  end.

Fixpoint set_path (segments : list jstr) (value : json) (current : list (jstr * json)) : list (jstr * json) :=
  match segments with
  | [] => current
  | [segment] => obj_set segment value current
  | segment :: rest =>
      let next := match obj_get segment current with Some (JObj o) => o | _ => [] end in
      obj_set segment (JObj (set_path rest value next)) current
  end.

Definition setDeepValue (target : list (jstr * json)) (path : jstr) (value : json) : list (jstr * json) :=
  set_path (splitc 46 path) value target.

Fixpoint expandDotPaths (values : json) : json :=
  match values with
  | JObj entries =>
      JObj ((fix go entries result :=
               match entries with
               | [] => result
               | (key, value) :: rest =>
                   go rest (if includes key "." then setDeepValue result key value
                            else obj_set key (expandDotPaths value) result)
               end) entries [])
  | _ => values
  end.

(** ** What was changed

    [dirtyFields]: a mark per field, grouped as the fields are. *)

Unset Elimination Schemes.
Inductive dirty :=
  | Dirty
  | Clean
  | DirtyFields (fields : list (jstr * dirty)).
Set Elimination Schemes.

(** [values && (isPlainObject(values) || Array.isArray(values)) ? values[key] : undefined] *)
Definition source_of (values : option json) (key : jstr) : option json :=
  match values with
  | Some (JObj o) => obj_get key o
  | Some (JArr l) => match array_index key with Some n => nth_error l (N.to_nat n) | None => None end
  | _ => None
  end.

Fixpoint collectDirtyValues (dirtyFields : dirty) (values : option json) (parentKey : option jstr)
    (result : list (jstr * option json)) : list (jstr * option json) :=
  match dirtyFields with
  | Dirty => match parentKey with Some k => obj_set k values result | None => result end
  | Clean => result
  | DirtyFields fields =>
      (fix go fields result :=
         match fields with
         | [] => result
         | (key, d) :: rest =>
             go rest (collectDirtyValues d (source_of values key) (Some (nextKey parentKey key)) result)
         end) fields result
  end.

(** Two arrays, and two objects, are compared by their texts. *)
Definition is_reference (v : json) : bool := match v with JArr _ | JObj _ => true | _ => false end.

Definition defaultCompare (a b : option json) : bool :=
  strict_eq a b ||
  match a, b with
  | Some x, Some y => is_reference x && is_reference y && (stringify x =s stringify y)
  | _, _ => false
  end.

(** ** The form *)

Record Form := {
  defaultValues : json;                    (** [defaultValuesRef] *)
  baseline : list (jstr * json);           (** [baselineRef] *)
  serializedDefaults : jstr;               (** [serializedDefaultsRef] *)
  form_values : json;                      (** what the form library holds *)
}.

Definition expandedDefaults (defaults : option json) : json :=
  match option_map expandDotPaths defaults with Some v => v | None => JObj [] end.

Definition mount (defaults : option json) : Form :=
  let v := expandedDefaults defaults in
  let b := flattenValues v None [] in
  {| defaultValues := v; baseline := b; serializedDefaults := stringify (JObj b); form_values := v |}.

(** The effect on new default values. *)
Definition sync (defaults : option json) (isDirty isSubmitting : bool) (f : Form) : Form :=
  match option_map expandDotPaths defaults with
  | Some v =>
      if isDirty || isSubmitting then f
      else
        let flattened := flattenValues v None [] in
        let serialized := stringify (JObj flattened) in
        if serialized =s serializedDefaults f then f
        else {| defaultValues := v; baseline := flattened; serializedDefaults := serialized; form_values := v |}
  | None => f
  end.

Section Submit.
  Context (compare : option json -> option json -> bool).

Definition changedEntries (dirtyFields : dirty) (data : json) (f : Form) : list (jstr * option json) :=
  List.filter (fun kv => negb (compare (snd kv) (obj_get (fst kv) (baseline f))))
              (collectDirtyValues dirtyFields (Some data) None []).

Definition changedFields (dirtyFields : dirty) (data : json) (f : Form) : list (jstr * option json) :=
  obj_of (changedEntries dirtyFields data f).

Definition saved (data : json) : Form :=
  let flattened := flattenValues data None [] in
  {| defaultValues := data; baseline := flattened;
     serializedDefaults := stringify (JObj flattened); form_values := data |}.

Inductive Outcome := NoChanges | Saved | SaveFailed.

(** [onSubmit] is given the changed fields and may throw; [server] is what it changes. *)
Definition handleSubmit {S} (onSubmit : list (jstr * option json) -> S -> S * bool)
    (dirtyFields : dirty) (data : json) (f : Form) (server : S) : Form * S * Outcome :=
  match changedEntries dirtyFields data f with
  | [] => (f, server, NoChanges)
  | _ =>
      let '(server', ok) := onSubmit (changedFields dirtyFields data f) server in
      if ok then (saved data, server', Saved) else (f, server', SaveFailed)
  end.

End Submit.

Definition handleReset (f : Form) : Form :=
  {| defaultValues := defaultValues f; baseline := baseline f;
     serializedDefaults := serializedDefaults f; form_values := defaultValues f |}.

(** ** What the pages send

    [quota-settings-section.tsx] sends every value as it is. *)

(** [pricing-section.tsx]: the value that is sent, if any is. *)
Definition pricing_value (value : option json) : option json :=
  match value with
  | None | Some (JNull | JArr _ | JObj _) => None
  | Some (JBool b) => Some (JStr (js_String (JBool b)))
  | Some (JNum n) => Some (JStr (if isFinite n then num_to_string n else "0"))
  | Some (JStr s) => Some (JStr s)
  end.

(** [system-info-section.tsx]: texts, the address of the server without the slashes at
    its end. *)
Definition normalizeValue (value : option json) : jstr :=
  match value with None | Some JNull => [] | Some v => js_String v end.

Definition strip_slashes (v : jstr) : jstr :=
  rev ((fix drop s := match s with c :: s' => if (c =? 47)%N then drop s' else s | [] => [] end) (rev v)).

Definition system_info_value (key : jstr) (value : option json) : json :=
  let v := normalizeValue value in JStr (if key =s "ServerAddress" then strip_slashes v else v).

Inductive SettingsPage := QuotaPage | PricingPage | SystemInfoPage.

(** [None]: the option is passed over. *)
Definition sent_value (page : SettingsPage) (key : jstr) (value : option json) : option (option json) :=
  match page with
  | QuotaPage => Some value
  | PricingPage => option_map Some (pricing_value value)
  | SystemInfoPage => Some (Some (system_info_value key value))
  end.

(** ** The server

    An option is stored as a text ([internal/adminops/app/options_shared.go],
    [internal/platform/encodingx/convert.go]). *)

(** [strconv.FormatFloat(x, 'f', -1, 64)]: the shortest digits, never with an exponent. *)
Definition FormatFloat (x : number) : jstr :=
  match x with
  | S754_finite s m e =>
    let '(num, den) := as_fraction m e in
    let bits := (Z.pos (digits2_pos m) + e)%Z in
    let body :=
      match shortest_go 17 1 (S754_finite false m e) num den (dec_exponent num den (bits * 30103 / 100000 + 1)) with
      | Some (n, k, x) =>
        let ds := digits n in
        if (k <=? x)%Z then ds ++ zeros (x - k)
        else if (0 <? x)%Z then take (Z.to_nat x) ds ++ "." ++ drop (Z.to_nat x) ds
        else "0." ++ zeros (- x) ++ ds
      | None => []
      end in
    if s then "-" ++ body else body
  | S754_zero s => if s then "-0" else "0"
  | S754_nan => "NaN"
  | S754_infinity s => if s then "-Inf" else "+Inf"
  end.

Section Server.
  (** [fmt.Sprintf] of an array or an object, which none of the pages has in its form. *)
  Context (Sprintf : json -> jstr).

(** [normalizeOptionValue] of the value in the request: what is [undefined] is absent there, NaN
    and the infinities are [null], and a zero has no sign. *)
Definition option_text (value : option json) : jstr :=
  match value with
  | None | Some JNull => "<nil>"
  | Some (JBool b) => if b then "true" else "false"
  | Some (JNum (S754_zero _)) => "0"
  | Some (JNum n) => if isFinite n then FormatFloat n else "<nil>"
  | Some (JStr s) => s
  | Some v => Sprintf v
  end.

(** [UpdateOption]: a value may be refused, or be stored and then fail to be applied; the
    request fails in both cases. *)
Inductive OptionAnswer := Applied | Refused | NotApplied.

Definition Options := jstr -> option jstr.
Definition store (key text : jstr) (options : Options) : Options :=
  fun k => if k =s key then Some text else options k.

(** The loop of the pages over the changed options: one request after the other, until one
    fails. *)
Fixpoint onSubmit (page : SettingsPage) (answer : jstr -> jstr -> OptionAnswer)
    (changed : list (jstr * option json)) (options : Options) : Options * bool :=
  match changed with
  | [] => (options, true)
  | (key, value) :: rest =>
      match sent_value page key value with
      | None => onSubmit page answer rest options
      | Some v =>
          let text := option_text v in
          match answer key text with
          | Applied => onSubmit page answer rest (store key text options)
          | Refused => (options, false)
          | NotApplied => (store key text options, false)
          end
      end
  end.

End Server.

(** ** Paths and leaves *)

Fixpoint pget (p : list jstr) (v : json) : option json :=
  match p with
  | [] => Some v
  | k :: q => match v with JObj o => match obj_get k o with Some x => pget q x | None => None end | _ => None end
  end.

Fixpoint leaves (v : json) : list (list jstr * json) :=
  match v with
  | JObj o =>
      (fix go o := match o with
                   | [] => []
                   | (k, x) :: rest => map (fun pv => (k :: fst pv, snd pv)) (leaves x) ++ go rest
                   end) o
  | _ => [([], v)]
  end.

(** A segment of a path: no dot in it, and not empty. *)
Definition segment_ok (s : jstr) : bool := truthy s && forallb (fun c => negb (c =? 46)%N) s.

(** Objects whose keys are segments, each once. *)
Fixpoint plain_tree (v : json) : Prop :=
  match v with
  | JObj o =>
      List.NoDup (map fst o) /\
      (fix go o := match o with [] => True | (k, x) :: rest => segment_ok k = true /\ plain_tree x /\ go rest end) o
  | _ => True
  end.

Lemma plain_obj o : plain_tree (JObj o) <->
  List.NoDup (map fst o) /\ Forall (fun kv => segment_ok (fst kv) = true /\ plain_tree (snd kv)) o.
Proof.
  cbn [plain_tree]. split; intros [H1 H]; (split; [done|]); clear H1.
  - induction o as [|[k x] o IH]; [done|]. destruct H as (A & B & C). constructor; [done | by apply IH].
  - induction H as [|[k x] o [A B] _ IH]; [done|]. done.
Qed.

Lemma leaves_obj o : leaves (JObj o) = concat (map (fun kx => map (fun pv => (fst kx :: fst pv, snd pv)) (leaves (snd kx))) o).
Proof. cbn [leaves]. induction o as [|[k x] o IH]; [done|]. cbn [map concat fst snd]. by rewrite <- IH. Qed.

(** A leaf is a value that is not an object, at its path. *)
Lemma In_leaves v : plain_tree v -> forall p x, In (p, x) (leaves v) <-> pget p v = Some x /\ isPlainObject x = false.
Proof.
  induction v as [| | | | |o IH] using json_ind; intros Hv p x.
  1-5: cbn [leaves In]; destruct p; cbn [pget];
       split; [intros [[= <-]|[]]; done | intros [[= <-] _]; by left | intros [[=]|[]] | intros [[=] _]].
  rewrite leaves_obj. apply plain_obj in Hv as [Hnd Ho]. rewrite in_concat. split.
  - intros (l & ([k v] & <- & Hin)%in_map_iff & Hl). apply in_map_iff in Hl as ([q y] & [= <- <-] & Hq).
    rewrite List.Forall_forall in IH, Ho. cbn [fst snd] in *.
    apply (IH (k, v) Hin (proj2 (Ho (k, v) Hin))) in Hq as [A B]. split; [|done]. cbn [pget].
    by rewrite (obj_get_NoDup k v o Hnd Hin).
  - intros [H Hx]. destruct p as [|k q]; cbn [pget] in H; [by injection H as <-|].
    destruct (obj_get k o) as [v|] eqn:E; [|done]. apply obj_get_In in E as Hin.
    exists (map (fun pv => (k :: fst pv, snd pv)) (leaves v)). split; [apply in_map_iff; by exists (k, v)|].
    apply in_map_iff. exists (q, x). split; [done|]. rewrite List.Forall_forall in IH, Ho.
    by apply (IH (k, v) Hin (proj2 (Ho (k, v) Hin))).
Qed.

Lemma leaves_NoDup v : plain_tree v -> List.NoDup (map fst (leaves v)).
Proof.
  induction v as [| | | | |o IH] using json_ind; intros Hv; [repeat constructor; easy ..|].
  rewrite leaves_obj. apply plain_obj in Hv as [Hnd Ho].
  induction o as [|[k x] o IHo]; [constructor|]. cbn [map concat fst snd].
  apply List.NoDup_cons_iff in Hnd as [Hk Hnd]. apply Forall_cons in IH as [Hx IH]. apply Forall_cons in Ho as [[Ho1 Ho2] Ho].
  rewrite map_app, map_map. apply List.NoDup_app; [| by apply IHo |].
  - cbn [fst]. rewrite <- (map_map fst (cons k)). rewrite <- NoDup_ListNoDup. apply NoDup_fmap_2; [intros ? ? [=]; done | by apply NoDup_ListNoDup, Hx].
  - intros p Hp Hq. apply in_map_iff in Hp as ([q y] & <- & _). cbn [fst] in Hq.
    apply in_map_iff in Hq as ([q' y'] & E & Hq). cbn [fst] in E. subst q'.
    apply in_concat in Hq as (l & ([k' v'] & <- & Hin)%in_map_iff & Hl). apply in_map_iff in Hl as (? & [= -> _ _] & _).
    apply (in_map fst) in Hin. by apply Hk.
Qed.

Definition path_name (parentKey : option jstr) (p : list jstr) : jstr :=
  match p with
  | [] => match parentKey with Some k => k | None => [] end
  | _ => nextKey parentKey (join "." p)
  end.

Lemma path_name_cons pk k p : k <> [] -> path_name pk (k :: p) = path_name (Some (nextKey pk k)) p.
Proof.
  intros Hk. assert (nextKey pk k <> []) as Hn.
  { destruct pk as [[|c pk]|]; cbn [nextKey truthy]; [done | | done]. by destruct pk. }
  destruct p as [|q p]; [done|]. cbn [path_name]. rewrite join_cons by done. apply truthy_iff in Hn.
  assert (forall s, nextKey (Some (nextKey pk k)) s = nextKey pk k ++ "." ++ s) as -> by (intros s; cbn [nextKey]; by rewrite Hn).
  destruct pk as [[|c pk]|]; cbn [nextKey truthy]; [done | | done]. by rewrite <- !app_assoc.
Qed.

(** Flattening sets the leaves in their order under the names of their paths. *)
Lemma flatten_leaves v : plain_tree v -> forall pk r, (pk <> None \/ isPlainObject v = true) ->
  flattenValues v pk r = obj_merge r (map (fun pv => (path_name pk (fst pv), snd pv)) (leaves v)).
Proof.
  induction v as [| | | | |o IH] using json_ind; intros Hv pk r Hpk;
    [destruct pk as [k|]; [done | by destruct Hpk] ..|].
  rewrite leaves_obj. apply plain_obj in Hv as [_ Ho]. cbn [flattenValues]. revert r.
  induction o as [|[k x] o IHo]; intros r; [done|]. cbn [map concat fst snd].
  apply Forall_cons in IH as [Hx IH]. apply Forall_cons in Ho as [[Ho1 Ho2] Ho]. cbn [snd fst] in *.
  rewrite (Hx Ho2) by (by left). rewrite (IHo IH Ho) by (by right).
  unfold obj_merge. rewrite map_app, fold_left_app. f_equal. rewrite map_map. f_equal.
  apply map_ext. intros [p y]. cbn [fst snd]. rewrite path_name_cons; [done|].
  unfold segment_ok in Ho1. by destruct k.
Qed.

Lemma leaf_paths v : plain_tree v -> forall p x, In (p, x) (leaves v) ->
  (isPlainObject v = true -> p <> []) /\ Forall (fun s => segment_ok s = true) p.
Proof.
  induction v as [| | | | |o IH] using json_ind; intros Hv p x Hin;
    [destruct Hin as [[= <- <-]|[]]; (split; [done | constructor]) ..|].
  rewrite leaves_obj in Hin. apply plain_obj in Hv as [_ Ho].
  apply in_concat in Hin as (l & ([k v] & <- & Hin)%in_map_iff & Hl). apply in_map_iff in Hl as ([q y] & [= <- <-] & Hq).
  split; [done|]. rewrite List.Forall_forall in IH, Ho. destruct (Ho _ Hin) as [A B].
  constructor; [exact A|]. apply (IH _ Hin B q y Hq).
Qed.

Lemma segment_no_dot s : segment_ok s = true -> Forall (fun c => c <> 46%N) s.
Proof.
  unfold segment_ok. intros [_ H]%andb_prop. rewrite forallb_forall in H. apply List.Forall_forall.
  intros c Hc. apply H in Hc. by apply negb_true_iff, N.eqb_neq in Hc.
Qed.

Lemma name_split p : p <> [] -> Forall (fun s => segment_ok s = true) p -> splitc 46 (path_name None p) = p.
Proof.
  intros Hne H. destruct p as [|s p]; [done|]. apply (splitc_join 46 (s :: p) Hne).
  apply (Forall_impl _ _ _ H). apply segment_no_dot.
Qed.

(** Reading a flattened object. *)
Lemma flatten_get o k x : plain_tree (JObj o) ->
  obj_get k (flattenValues (JObj o) None []) = Some x <-> In (splitc 46 k, x) (leaves (JObj o)).
Proof.
  intros Hv. rewrite flatten_leaves by (try done; by right).
  set (L := map _ (leaves (JObj o))).
  assert (forall p y, In (p, y) (leaves (JObj o)) -> splitc 46 (path_name None p) = p) as Hs.
  { intros p y Hin. destruct (leaf_paths _ Hv p y Hin) as [A B]. apply name_split; [by apply A | done]. }
  assert (List.NoDup (map fst L)) as Hnd.
  { unfold L. rewrite map_map. cbn [fst]. rewrite <- (map_map fst (path_name None)).
    apply NoDup_ListNoDup, NoDup_fmap_2_strong; [|by apply NoDup_ListNoDup, leaves_NoDup].
    intros p q Hp Hq E. apply list_elem_of_In, in_map_iff in Hp as ([p' y] & <- & Hp).
    apply list_elem_of_In, in_map_iff in Hq as ([q' z] & <- & Hq). cbn [fst] in *.
    by rewrite <- (Hs _ _ Hp), <- (Hs _ _ Hq), E. }
  rewrite obj_get_merge by done. cbn [obj_get]. split.
  - intros H. assert (obj_get k L = Some x) as HL by (by destruct (obj_get k L)).
    apply obj_get_In, in_map_iff in HL as ([p y] & [= <- <-] & Hin). cbn [fst snd] in *. by rewrite (Hs _ _ Hin).
  - intros Hin. assert (path_name None (splitc 46 k) = k) as Hk.
    { pose proof (splitc_nonempty 46 k) as Hne. pose proof (join_splitc 46 k) as J.
      destruct (splitc 46 k); [done|]. exact J. }
    rewrite (obj_get_NoDup k x L Hnd); [done|]. apply in_map_iff. exists (splitc 46 k, x). cbn [fst snd]. by rewrite Hk.
Qed.

(** ** Setting a path *)

Lemma obj_plain_set o k v : plain_tree (JObj o) -> segment_ok k = true -> plain_tree v ->
  plain_tree (JObj (obj_set k v o)).
Proof.
  intros [Hnd Ho]%plain_obj Hk Hv. apply plain_obj. split; [by apply obj_set_NoDup|].
  by apply obj_set_Forall.
Qed.

Lemma set_path_plain p x : forall o, plain_tree (JObj o) -> Forall (fun s => segment_ok s = true) p -> plain_tree x ->
  plain_tree (JObj (set_path p x o)).
Proof.
  induction p as [|s p IH]; intros o Ho Hp Hx; [done|]. apply Forall_cons in Hp as [Hs Hp].
  assert (forall o', plain_tree (JObj o') -> plain_tree (JObj (obj_set s (JObj (set_path p x o')) o))) as K.
  { intros o' Ho'. apply obj_plain_set; [done | done | by apply IH]. }
  destruct p as [|s' p]; [by apply obj_plain_set|]. cbn [set_path] in *. apply K.
  destruct (obj_get s o) as [[| | | | |o']|] eqn:E; try exact I; try (split; [constructor | done]).
  apply obj_get_In in E. apply plain_obj in Ho as [_ Ho]. rewrite List.Forall_forall in Ho. exact (proj2 (Ho _ E)).
Qed.

Lemma set_path_get p x : forall o, p <> [] -> pget p (JObj (set_path p x o)) = Some x.
Proof.
  induction p as [|s p IH]; intros o Hp; [done|]. destruct p as [|s' p].
  - cbn [set_path pget]. by rewrite obj_get_set, seqb_refl.
  - change (set_path (s :: s' :: p) x o) with
      (obj_set s (JObj (set_path (s' :: p) x (match obj_get s o with Some (JObj o') => o' | _ => [] end))) o).
    cbn [pget]. rewrite obj_get_set, seqb_refl. by apply IH.
Qed.

(** Paths of which none continues the other. *)
Fixpoint apart (p q : list jstr) : bool :=
  match p, q with
  | s :: p', t :: q' => if s =s t then apart p' q' else true
  | _, _ => false
  end.

Lemma set_path_other p x q : forall o, apart p q = true -> pget q (JObj (set_path p x o)) = pget q (JObj o).
Proof.
  revert q. induction p as [|s p IH]; intros [|t q] o H; try done. cbn [apart] in H.
  destruct p as [|s' p].
  - cbn [set_path pget]. rewrite obj_get_set, seqb_sym. destruct (s =s t); [by destruct q | done].
  - change (set_path (s :: s' :: p) x o) with
      (obj_set s (JObj (set_path (s' :: p) x (match obj_get s o with Some (JObj o') => o' | _ => [] end))) o).
    cbn [pget]. rewrite obj_get_set, seqb_sym. destruct (seqb_spec s t) as [->|]; [|done].
    rewrite IH by done. destruct q as [|u q]; [done|].
    destruct (obj_get t o) as [[| | | | |o']|]; done.
Qed.

(** No leaf is new but the one that was set. *)
Lemma set_path_leaf p x q y : forall o, isPlainObject y = false ->
  pget q (JObj (set_path p x o)) = Some y -> isPlainObject x = false -> q = p \/ pget q (JObj o) = Some y.
Proof.
  revert q. induction p as [|s p IH]; intros q o Hy H Hx; [by right|].
  destruct q as [|t q]; [cbn [pget] in H; injection H as <-; done|].
  destruct p as [|s' p].
  - cbn [set_path pget] in *. rewrite obj_get_set in H. destruct (seqb_spec t s) as [->|]; [|by right].
    left. destruct q as [|u q]; [done|]. cbn [pget] in H. by destruct x.
  - change (set_path (s :: s' :: p) x o) with
      (obj_set s (JObj (set_path (s' :: p) x (match obj_get s o with Some (JObj o') => o' | _ => [] end))) o) in H.
    cbn [pget] in *. rewrite obj_get_set in H. destruct (seqb_spec t s) as [->|]; [|by right].
    apply IH in H as [->|H]; [by left | | done | done]. right.
    destruct (obj_get s o) as [[| | | | |o']|]; try done; (destruct q; [by injection H as <- | done]).
Qed.

(** ** The names of the options *)

(** Names made of segments, none of which is the beginning of another. *)
Definition names_ok (ks : list jstr) : bool :=
  forallb (fun k => forallb segment_ok (splitc 46 k)) ks &&
  forallb (fun k => forallb (fun k' => (k =s k') || apart (splitc 46 k) (splitc 46 k')) ks) ks.

Definition options_ok (o : list (jstr * json)) : Prop :=
  List.NoDup (map fst o) /\ names_ok (map fst o) = true /\ Forall (fun kv => isPlainObject (snd kv) = false) o.

Definition expand_into (r o : list (jstr * json)) : list (jstr * json) :=
  fold_left (fun r kv => set_path (splitc 46 (fst kv)) (snd kv) r) o r.

Lemma no_dot_split k : includes k "." = false -> splitc 46 k = [k].
Proof.
  unfold includes. intros H. apply splitc_piece. destruct (indexOf "." k) eqn:E; [done|]. clear H.
  induction k as [|c k IH]; [constructor|]. cbn [indexOf] in E. destruct (startsWith (c :: k) ".") eqn:Es; [done|].
  destruct (indexOf "." k) eqn:E'; [done|]. constructor; [|by apply IH]. intros ->. by destruct k.
Qed.

Lemma expand_eq o : Forall (fun kv => isPlainObject (snd kv) = false) o ->
  expandDotPaths (JObj o) = JObj (expand_into [] o).
Proof.
  intros H. cbn [expandDotPaths]. f_equal. unfold expand_into. generalize (@nil (jstr * json)).
  induction H as [|[k v] o Hv _ IH]; intros r; [done|]. cbn [fold_left fst snd] in *. rewrite <- IH. f_equal.
  destruct (includes k ".") eqn:E; [done|]. rewrite (no_dot_split k E). cbn [set_path]. by destruct v.
Qed.

Lemma names_apart ks k k' : names_ok ks = true -> In k ks -> In k' ks -> k <> k' -> apart (splitc 46 k) (splitc 46 k') = true.
Proof.
  intros [_ H]%andb_prop Hk Hk' Hn. rewrite forallb_forall in H. specialize (H k Hk).
  rewrite forallb_forall in H. specialize (H k' Hk'). apply seqb_neq in Hn. by rewrite Hn in H.
Qed.

Lemma names_segments ks k : names_ok ks = true -> In k ks -> Forall (fun s => segment_ok s = true) (splitc 46 k).
Proof.
  intros [H _]%andb_prop Hk. rewrite forallb_forall in H. specialize (H k Hk). rewrite forallb_forall in H.
  by apply List.Forall_forall.
Qed.

(** The object that stands for the options: it has their values at their paths, and
    nothing else. *)
Lemma expand_spec o : options_ok o ->
  plain_tree (JObj (expand_into [] o)) /\
  (forall k v, In (k, v) o -> pget (splitc 46 k) (JObj (expand_into [] o)) = Some v) /\
  (forall q y, isPlainObject y = false -> pget q (JObj (expand_into [] o)) = Some y -> exists k, In (k, y) o /\ q = splitc 46 k).
Proof.
  intros (Hnd & Hn & Hv). unfold expand_into.
  enough (forall l r done_, o = done_ ++ l -> plain_tree (JObj r) ->
    (forall k v, In (k, v) done_ -> pget (splitc 46 k) (JObj r) = Some v) ->
    (forall q y, isPlainObject y = false -> pget q (JObj r) = Some y -> exists k, In (k, y) done_ /\ q = splitc 46 k) ->
    let r' := fold_left (fun r kv => set_path (splitc 46 (fst kv)) (snd kv) r) l r in
    plain_tree (JObj r') /\ (forall k v, In (k, v) o -> pget (splitc 46 k) (JObj r') = Some v) /\
    (forall q y, isPlainObject y = false -> pget q (JObj r') = Some y -> exists k, In (k, y) o /\ q = splitc 46 k)) as H.
  { apply (H o [] []); [done | by repeat constructor | easy |].
    intros q y Hy E. destruct q; [by injection E as <- | done]. }
  induction l as [|[k x] l IH]; intros r dn -> Hp H1 H2; cbn [fold_left fst snd].
  { rewrite app_nil_r in *. done. }
  rewrite map_app in Hnd, Hn. rewrite Forall_app in Hv. destruct Hv as [_ Hv]. apply Forall_cons in Hv as [Hx _].
  cbn [map fst snd] in *. assert (In k (map fst dn ++ k :: map fst l)) as Hk by (apply in_or_app; right; by left).
  pose proof (names_segments _ _ Hn Hk) as Hs.
  apply (IH _ (dn ++ [(k, x)])); [by rewrite <- app_assoc | | |].
  - apply set_path_plain; [done | done |]. by destruct x.
  - intros k' v' [Hin|[[= <- <-]|[]]]%in_app_or; [|by apply set_path_get, splitc_nonempty].
    rewrite set_path_other; [by apply H1|]. apply (in_map fst) in Hin as Hk'. cbn [fst] in Hk'.
    apply (names_apart _ _ _ Hn Hk); [apply in_or_app; by left|]. intros ->.
    apply List.NoDup_remove_2 in Hnd. apply Hnd, in_or_app. by left.
  - intros q y Hy E. destruct (set_path_leaf _ _ _ _ _ Hy E Hx) as [->|E'].
    + rewrite set_path_get in E by apply splitc_nonempty. injection E as <-. exists k. split; [|done].
      apply in_or_app. right. by left.
    + destruct (H2 q y Hy E') as (k' & Hin & ->). exists k'. split; [|done]. apply in_or_app. by left.
Qed.

(** The form's baseline is the options it was given: expanding their names into an
    object and flattening it again gives every option its value, and no other name. *)
Theorem flatten_expand o k : options_ok o ->
  obj_get k (flattenValues (expandDotPaths (JObj o)) None []) = obj_get k o.
Proof.
  intros H. pose proof H as (Hnd & Hn & Hv). rewrite expand_eq by done.
  destruct (expand_spec o H) as (Hp & H1 & H2).
  destruct (obj_get k o) as [v|] eqn:E.
  - apply obj_get_In in E. apply flatten_get, In_leaves; [done | done |]. split; [by apply H1|].
    rewrite List.Forall_forall in Hv. exact (Hv _ E).
  - destruct (obj_get k (flattenValues _ None [])) as [v|] eqn:F; [|done].
    apply flatten_get, In_leaves in F as [F Fv]; [|done | done].
    destruct (H2 _ _ Fv F) as (k' & Hin & Hk). apply (f_equal (join [46%N])) in Hk. rewrite !join_splitc in Hk. subst k'.
    apply (in_map fst) in Hin. by apply obj_get_None in E.
Qed.

(** ** Submitting *)

(** The paths of the fields that are marked. *)
Fixpoint marked (d : dirty) : list (list jstr) :=
  match d with
  | Dirty => [[]]
  | Clean => []
  | DirtyFields fields =>
      (fix go fields := match fields with
                        | [] => []
                        | (k, d') :: rest => map (cons k) (marked d') ++ go rest
                        end) fields
  end.

(** [values[p1][p2]...], as it is read for a mark. *)
Definition vget (p : list jstr) (values : option json) : option json := fold_left source_of p values.

Section DirtyInd.
Variable P : dirty -> Prop.
Hypothesis Hd : P Dirty.
Hypothesis Hc : P Clean.
Hypothesis Hf : forall fields, Forall (fun kd => P (snd kd)) fields -> P (DirtyFields fields).

Fixpoint dirty_ind (d : dirty) : P d :=
  match d with
  | Dirty => Hd
  | Clean => Hc
  | DirtyFields fields =>
    Hf fields ((fix go fields := match fields return Forall (fun kd => P (snd kd)) fields with
                                 | [] => Forall_nil_2 _
                                 | x :: rest => Forall_cons_2 _ _ _ (dirty_ind (snd x)) (go rest)
                                 end) fields)
  end.
End DirtyInd.

(** What is collected: the values of the marked fields, under the names of their paths. *)
Lemma collected d : forall values pk r, (pk <> None \/ ~ In [] (marked d)) ->
  Forall (Forall (fun s => segment_ok s = true)) (marked d) ->
  let c := collectDirtyValues d values pk r in
  (forall k v, In (k, v) c -> In (k, v) r \/ exists p, In p (marked d) /\ k = path_name pk p /\ v = vget p values) /\
  (forall k, In k (map fst r) -> In k (map fst c)) /\
  (forall p, In p (marked d) -> In (path_name pk p) (map fst c)) /\
  (List.NoDup (map fst r) -> List.NoDup (map fst c)).
Proof.
  induction d as [| |fields IH] using dirty_ind; intros values pk r Hpk Hs; cbn zeta.
  - destruct pk as [k0|]; [|destruct Hpk as [|H]; [done | destruct H; by left]]. cbn [collectDirtyValues marked].
    repeat split.
    + intros k v [[= -> ->]|Hin]%obj_set_In; [right; exists []; repeat split; by left | by left].
    + intros k Hin. apply obj_set_keys. by right.
    + intros p [<-|[]]. apply obj_set_keys. by left.
    + apply obj_set_NoDup.
  - cbn [collectDirtyValues marked]. repeat split; try done. by left.
  - clear Hpk. cbn [collectDirtyValues marked] in *. revert r.
    induction fields as [|[k0 d] fields IHf]; intros r; [repeat split; try done; by left|].
    apply Forall_cons in IH as [Hd IH]. apply Forall_app in Hs as [Hs1 Hs2]. cbn [snd] in Hd.
    assert (Forall (Forall (fun s => segment_ok s = true)) (marked d) /\ (marked d <> [] -> k0 <> [])) as [Hm Hk0].
    { rewrite List.Forall_forall in Hs1. rewrite List.Forall_forall. split.
      - intros p Hp. apply (in_map (cons k0)), Hs1 in Hp. by apply Forall_cons in Hp as [_ Hp].
      - intros Hne ->. destruct (marked d) as [|p l]; [done|].
        by specialize (Hs1 ([] :: p) (or_introl eq_refl)); apply Forall_cons in Hs1 as [H _]. }
    set (r1 := collectDirtyValues d (source_of values k0) (Some (nextKey pk k0)) r).
    assert (Some (nextKey pk k0) <> None \/ ~ In [] (marked d)) as H0 by (by left).
    destruct (Hd (source_of values k0) (Some (nextKey pk k0)) r H0 Hm) as (A1 & A2 & A3 & A4).
    fold r1 in A1, A2, A3, A4. destruct (IHf IH Hs2 r1) as (B1 & B2 & B3 & B4). repeat split.
    + intros k v Hin. apply B1 in Hin as [Hin|(p & Hp & -> & ->)];
        [|right; exists p; split; [apply in_or_app; by right | done]].
      apply A1 in Hin as [Hin|(p & Hp & -> & ->)]; [by left|]. right. exists (k0 :: p).
      split; [apply in_or_app; left; by apply in_map|]. split; [|done].
      rewrite path_name_cons; [done|]. apply Hk0. by destruct (marked d).
    + intros k Hin. by apply B2, A2.
    + intros p [(q & <- & Hq)%in_map_iff|Hp]%in_app_or; [|by apply B3].
      rewrite path_name_cons by (apply Hk0; by destruct (marked d)). by apply B2, A3.
    + intros Hr. by apply B4, A4.
Qed.

(** What the form library promises about its marks: they are on fields of the data, and
    every field that differs from the baseline has one. *)
Definition marks_ok (marks : dirty) (data : json) (f : Form) : Prop :=
  (forall p, In p (marked marks) -> exists x, In (p, x) (leaves data)) /\
  (forall k x, obj_get k (flattenValues data None []) = Some x ->
     defaultCompare (Some x) (obj_get k (baseline f)) = false -> In (splitc 46 k) (marked marks)).

(** The value of an option in the form's data is not that of the baseline. *)
Definition differs (f : Form) (data : json) (k : jstr) (x : json) : Prop :=
  obj_get k (flattenValues data None []) = Some x /\ defaultCompare (Some x) (obj_get k (baseline f)) = false.

(** Reading a path of a plain object. *)
Lemma vget_pget p : forall v x, pget p v = Some x -> vget p (Some v) = Some x.
Proof.
  induction p as [|k p IH]; intros v x H; [done|]. cbn [pget] in H. unfold vget. cbn [fold_left].
  destruct v as [| | | | |o]; try done. cbn [source_of]. destruct (obj_get k o) as [y|]; [|done]. by apply IH.
Qed.

(** The entries that are sent: the values of the data that differ from the baseline. *)
Lemma changed_spec marks o f : plain_tree (JObj o) -> marks_ok marks (JObj o) f ->
  let c := changedEntries defaultCompare marks (JObj o) f in
  List.NoDup (map fst c) /\
  forall k v, In (k, v) c <-> exists x, v = Some x /\ obj_get k (flattenValues (JObj o) None []) = Some x /\
                          defaultCompare (Some x) (obj_get k (baseline f)) = false.
Proof.
  intros Ho [M1 M2] c. assert (Forall (Forall (fun s => segment_ok s = true)) (marked marks)) as Hs.
  { apply List.Forall_forall. intros p Hp. destruct (M1 p Hp) as [x Hx]. apply (leaf_paths _ Ho p x Hx). }
  assert (~ In [] (marked marks)) as Hn.
  { intros Hin. destruct (M1 _ Hin) as [x Hx]. by destruct (leaf_paths _ Ho [] x Hx) as [H _]; apply H. }
  destruct (collected marks (Some (JObj o)) None [] (or_intror Hn) Hs) as (C1 & _ & C3 & C4).
  specialize (C4 (List.NoDup_nil _)).
  assert (forall k v, In (k, v) (collectDirtyValues marks (Some (JObj o)) None []) ->
            exists x, v = Some x /\ obj_get k (flattenValues (JObj o) None []) = Some x) as R.
  { intros k v Hin. apply C1 in Hin as [[]|(p & Hp & -> & ->)]. destruct (M1 p Hp) as [x Hx]. exists x.
    destruct (leaf_paths _ Ho p x Hx) as [A B].
    split; [apply In_leaves in Hx as [Hx _]; [by apply vget_pget | done]|].
    apply flatten_get; [done|]. rewrite name_split; [done | by apply A | done]. }
  split.
  - by apply obj_filter_NoDup.
  - intros k v. unfold c, changedEntries. rewrite filter_In, negb_true_iff. cbn [fst snd]. split.
    + intros [Hin Hc]. destruct (R k v Hin) as (x & -> & Hx). by exists x.
    + intros (x & -> & Hx & Hc). split; [|done]. pose proof (M2 k x Hx Hc) as Hp. apply C3 in Hp.
      assert (path_name None (splitc 46 k) = k) as Hk.
      { pose proof (join_splitc 46 k) as J. pose proof (splitc_nonempty 46 k). by destruct (splitc 46 k). }
      rewrite Hk in Hp. apply in_map_iff in Hp as ([k' v] & <- & Hin). cbn [fst] in *.
      destruct (R _ _ Hin) as (y & -> & Hy). rewrite Hx in Hy. by injection Hy as ->.
Qed.

Lemma obj_of_NoDup {V} (l : list (jstr * V)) : List.NoDup (map fst (obj_of l)).
Proof.
  unfold obj_of. assert (List.NoDup (map fst (@nil (jstr * V)))) as H by constructor. revert H.
  generalize (@nil (jstr * V)). induction l as [|[k v] l IH]; intros r H; [done|]. cbn [fold_left].
  by apply IH, obj_set_NoDup.
Qed.

(** The text a page has stored for a value, unless it passes it over. *)
Definition stored_text Sprintf (page : SettingsPage) (k : jstr) (v : option json) : option jstr :=
  option_map (option_text Sprintf) (sent_value page k v).

Lemma onSubmit_spec Sprintf page answer changed : forall options,
  let '(options', ok) := onSubmit Sprintf page answer changed options in
  (forall k, ~ In k (map fst changed) -> options' k = options k) /\
  (List.NoDup (map fst changed) -> forall k v, In (k, v) changed ->
     let text := stored_text Sprintf page k v in
     (ok = true \/ text = None -> options' k = match text with Some t => Some t | None => options k end) /\
     (options' k = options k \/ text <> None /\ options' k = text)) /\
  (ok = false -> exists k v t, In (k, v) changed /\ stored_text Sprintf page k v = Some t /\ answer k t <> Applied).
Proof.
  induction changed as [|[key value] rest IH]; intros options; cbn [onSubmit map fst]; [done|].
  assert (forall o', (let '(options', ok) := onSubmit Sprintf page answer rest o' in
     ok = false -> exists k v t, In (k, v) ((key, value) :: rest) /\ stored_text Sprintf page k v = Some t /\ answer k t <> Applied)) as Hf.
  { intros o'. specialize (IH o'). destruct (onSubmit _ _ _ rest o') as [o'' ok]. intros H.
    destruct IH as (_ & _ & C). destruct (C H) as (k & v & t & Hin & Ht). exists k, v, t. by split; [right|]. }
  assert (stored_text Sprintf page key value = option_map (option_text Sprintf) (sent_value page key value)) as T by done.
  destruct (sent_value page key value) as [v|]; cbn [option_map] in T.
  - destruct (answer key (option_text Sprintf v)) eqn:Ea.
    + set (o' := store _ _ _). specialize (IH o'). specialize (Hf o'). destruct (onSubmit _ _ _ rest o') as [options' ok].
      destruct IH as (A & B & _). split; [|split; [|exact Hf]].
      * intros k Hk. rewrite A by (intros ?; apply Hk; by right). unfold o', store.
        destruct (seqb_spec k key) as [->|]; [|done]. destruct Hk. by left.
      * intros [Hk Hnd]%List.NoDup_cons_iff k w [[= <- <-]|Hin].
        -- rewrite T, A by done. unfold o', store. rewrite seqb_refl. split; [done|]. right. done.
        -- destruct (B Hnd k w Hin) as [B1 B2]. assert (o' k = options k) as E; [|by rewrite E in *].
           unfold o', store. destruct (seqb_spec k key) as [->|]; [|done]. by apply (in_map fst) in Hin.
    + split; [done|]. split; [|intros _; exists key, value, (option_text Sprintf v); rewrite T, Ea; split; [by left | done]].
      intros _ k w Hin. split; [|by left]. intros [|E]; [done|]. by rewrite E.
    + split; [|split; [|intros _; exists key, value, (option_text Sprintf v); rewrite T, Ea; split; [by left | done]]].
      * intros k Hk. unfold store. destruct (seqb_spec k key) as [->|]; [|done]. destruct Hk. by left.
      * intros [Hk _]%List.NoDup_cons_iff k w [[= <- <-]|Hin].
        -- rewrite T. unfold store. rewrite seqb_refl. split; [done|]. right. done.
        -- unfold store. destruct (seqb_spec k key) as [->|]; [by apply (in_map fst) in Hin|].
           split; [|by left]. intros [|E]; [done|]. by rewrite E.
  - specialize (IH options). specialize (Hf options). destruct (onSubmit _ _ _ rest options) as [options' ok].
    destruct IH as (A & B & _). split; [|split; [|exact Hf]].
    + intros k Hk. apply A. intros ?. apply Hk. by right.
    + intros [Hk Hnd]%List.NoDup_cons_iff k w [[= <- <-]|Hin]; [|by apply B].
      rewrite T, A by done. split; [done | by left].
Qed.

Lemma changedFields_spec marks o f : plain_tree (JObj o) -> marks_ok marks (JObj o) f ->
  let c := changedFields defaultCompare marks (JObj o) f in
  List.NoDup (map fst c) /\
  (forall k x, differs f (JObj o) k x -> In (k, Some x) c) /\
  (forall k v, In (k, v) c -> exists x, v = Some x /\ differs f (JObj o) k x).
Proof.
  intros Ho M c. destruct (changed_spec marks o f Ho M) as [Hnd Hch].
  set (ch := changedEntries defaultCompare marks (JObj o) f) in *.
  assert (forall k, obj_get k c = obj_get k ch) as HL.
  { intros k. change c with (obj_merge [] ch). rewrite obj_get_merge by done. by destruct (obj_get k ch). }
  split; [apply obj_of_NoDup|]. split.
  - intros k x [Hx D]. apply obj_get_In. rewrite HL. apply obj_get_NoDup; [done|]. apply Hch. by exists x.
  - intros k v Hk. apply obj_get_NoDup in Hk; [|apply obj_of_NoDup]. rewrite HL in Hk.
    apply obj_get_In, Hch in Hk. exact Hk.
Qed.

(** With the data for a baseline nothing is left to send. *)
Lemma nothing_left marks o f : plain_tree (JObj o) -> marks_ok marks (JObj o) f ->
  (forall k x, obj_get k (flattenValues (JObj o) None []) = Some x ->
     defaultCompare (Some x) (obj_get k (baseline f)) = true) ->
  changedEntries defaultCompare marks (JObj o) f = [].
Proof.
  intros Ho M Heq. destruct (changed_spec marks o f Ho M) as [_ Hch].
  destruct (changedEntries _ marks _ f) as [|[k v] es]; [done|].
  destruct (proj1 (Hch k v) (or_introl eq_refl)) as (x & _ & Hx & D). by rewrite Heq in D.
Qed.

Section Written.
  Context (Sprintf : json -> jstr) (page : SettingsPage) (marks : dirty) (o : list (jstr * json)) (f : Form).
Let text := stored_text Sprintf page.

(** Some of what differs has been stored. *)
Definition partly_written (options options' : Options) : Prop :=
  forall k, options' k = options k \/ exists x t, differs f (JObj o) k x /\ text k (Some x) = Some t /\ options' k = Some t.

(** What differs has been stored, but for what the page passes over; nothing else has changed. *)
Record written (options options' : Options) : Prop := {
  w_stored : forall k x t, differs f (JObj o) k x -> text k (Some x) = Some t -> options' k = Some t;
  w_passed : forall k x, differs f (JObj o) k x -> text k (Some x) = None -> options' k = options k;
  w_others : forall k, (forall x, ~ differs f (JObj o) k x) -> options' k = options k;
}.

(** A submission takes up where one that failed has left off. *)
Lemma submit_writes answer options options1 : plain_tree (JObj o) -> marks_ok marks (JObj o) f ->
  partly_written options options1 ->
  let '(options', ok) := onSubmit Sprintf page answer (changedFields defaultCompare marks (JObj o) f) options1 in
  partly_written options options' /\
  if ok then written options options'
  else exists k x t, differs f (JObj o) k x /\ text k (Some x) = Some t /\ answer k t <> Applied.
Proof.
  intros Ho M P. destruct (changedFields_spec marks o f Ho M) as (HLn & HL1 & HL2).
  set (c := changedFields _ _ _ _) in *. pose proof (onSubmit_spec Sprintf page answer c options1) as U.
  destruct (onSubmit _ _ _ c options1) as [options' ok]. destruct U as (U1 & U2 & U3).
  assert (forall k, In k (map fst c) -> exists x, In (k, Some x) c /\ differs f (JObj o) k x) as K.
  { intros k ([k' v] & <- & Hin)%in_map_iff. destruct (HL2 _ _ Hin) as (x & -> & D). by exists x. }
  split; [|destruct ok].
  - intros k. destruct (in_dec (List.list_eq_dec N.eq_dec) k (map fst c)) as [Hk|Hk]; [|rewrite (U1 k Hk); apply P].
    destruct (K k Hk) as (x & Hin & D). destruct (U2 HLn k _ Hin) as [_ [E|[Hn E]]]; [rewrite E; apply P|]. right.
    destruct (stored_text Sprintf page k (Some x)) as [t|] eqn:T; [|done]. by exists x, t.
  - split.
    + intros k x t D T. destruct (U2 HLn k _ (HL1 _ _ D)) as [E _]. cbv zeta in E. unfold text in T. rewrite T in E.
      apply E. by left.
    + intros k x D T. destruct (U2 HLn k _ (HL1 _ _ D)) as [E _]. cbv zeta in E. unfold text in T. rewrite T in E.
      rewrite E by (by left). destruct (P k) as [|(y & t & D' & T' & _)]; [done|]. exfalso.
      destruct D as [D _], D' as [D' _]. rewrite D in D'. injection D' as <-. unfold text in T'. congruence.
    + intros k D. rewrite U1 by (intros (x & _ & D')%K; by apply (D x)).
      destruct (P k) as [|(x & t & D' & _)]; [done|]. by destruct (D x).
  - destruct (U3 eq_refl) as (k & v & t & Hin & T & A). destruct (HL2 _ _ Hin) as (x & -> & D). by exists k, x, t.
Qed.

End Written.

(** C31: Submitting the form of a settings page (of quotas, of prices, of the system's
    information).  When it succeeds, the server stores, for every option whose value in the form
    differs from the baseline, the text of what the page sends for it: the value itself
    (quotas), its text (prices), its text without the slashes at the end of the server's address
    (system information).  An option that the page passes over (on the page of prices a value that
    is [null] or an array) keeps its old text although the form takes it for saved, and no other
    option changes; nothing is left to send, if every value is equal to itself (it is not NaN).
    When there are no changes nothing is sent.  When a request fails, the form stays as it was;
    every option has its old text or the new one; and submitting again, once the server takes the
    values, ends as if the first submission had succeeded.  The data are objects of named fields
    without [undefined] values (an emptied rate is [cleared_rate_kept]), and the form library
    marks every field that differs from the baseline. *)
Theorem save_reaches_server Sprintf page answer marks o f options :
  plain_tree (JObj o) -> marks_ok marks (JObj o) f ->
  let '(f', options', out) := handleSubmit defaultCompare (onSubmit Sprintf page answer) marks (JObj o) f options in
  match out with
  | NoChanges => f' = f /\ options' = options /\ forall k x, ~ differs f (JObj o) k x
  | Saved =>
      f' = saved (JObj o) /\ written Sprintf page o f options options' /\
      (Forall (fun px => defaultCompare (Some (snd px)) (Some (snd px)) = true) (leaves (JObj o)) ->
       forall marks', marks_ok marks' (JObj o) f' -> changedEntries defaultCompare marks' (JObj o) f' = [])
  | SaveFailed =>
      f' = f /\ partly_written Sprintf page o f options options' /\
      (exists k x t, differs f (JObj o) k x /\ stored_text Sprintf page k (Some x) = Some t /\ answer k t <> Applied) /\
      forall answer2, (forall k t, answer2 k t = Applied) -> exists options2,
        handleSubmit defaultCompare (onSubmit Sprintf page answer2) marks (JObj o) f' options' = (saved (JObj o), options2, Saved) /\ written Sprintf page o f options options2
  end.
Proof.
  intros Ho M. unfold handleSubmit.
  pose proof (submit_writes Sprintf page marks o f answer options options Ho M) as W.
  destruct (changedEntries defaultCompare marks (JObj o) f) as [|e es] eqn:C.
  { split; [done|]. split; [done|]. intros k x [Hx D]. destruct (changed_spec marks o f Ho M) as [_ Hch].
    rewrite C in Hch. apply (proj2 (Hch k (Some x))). by exists x. }
  destruct (onSubmit Sprintf page answer _ options) as [options' ok]. destruct W as [P W]; [intros k; by left|].
  destruct ok; (split; [done|]); (split; [done|]).
  - intros Hr marks' M'. apply nothing_left; [done | done |]. intros k x Hx. cbn [baseline saved].
    rewrite Hx. apply flatten_get in Hx; [|done]. rewrite List.Forall_forall in Hr. exact (Hr _ Hx).
  - split; [exact W|]. intros answer2 Ha. rewrite C.
    pose proof (submit_writes Sprintf page marks o f answer2 options options' Ho M P) as W2.
    destruct (onSubmit Sprintf page answer2 _ options') as [options2 ok2]. destruct W2 as [_ W2].
    destruct ok2; [by exists options2|]. destruct W2 as (k & x & t & _ & _ & N). by destruct N.
Qed.

(** The page of prices takes a rate that was emptied for saved without sending it: the
    server keeps the old one. *)
Lemma cleared_rate_kept Sprintf data f options answer marks :
  changedFields defaultCompare marks data f = [("general_setting.custom_currency_exchange_rate", None)] ->
  handleSubmit defaultCompare (onSubmit Sprintf PricingPage answer) marks data f options
  = (saved data, options, Saved).
Proof.
  intros H. unfold handleSubmit. unfold changedFields in *.
  destruct (changedEntries defaultCompare marks data f) as [|e es]; [done|]. by rewrite H.
Qed.

(** ** Witnesses *)

Definition sample_options : list (jstr * json) :=
  [("TopUpLink", JStr "/topup"); ("general_setting.docs_link", JStr "/docs");
   ("quota_setting.enable_free_model_pre_consume", JBool false); ("QuotaForNewUser", JNum (of_Z 5))].

Lemma flatten_expand_witness : options_ok sample_options /\
  obj_get "general_setting.docs_link" (flattenValues (expandDotPaths (JObj sample_options)) None []) = Some (JStr "/docs").
Proof.
  assert (options_ok sample_options) as H.
  { split; [|split; [vm_compute; reflexivity | by repeat constructor]].
    cbn. repeat (apply List.NoDup_cons; [cbn [In]; intuition discriminate|]). apply List.NoDup_nil. }
  split; [exact H|]. rewrite (flatten_expand sample_options "general_setting.docs_link" H). reflexivity.
Defined.

Definition sample_data : list (jstr * json) :=
  [("TopUpLink", JStr "/topup"); ("general_setting", JObj [("docs_link", JStr "/guide")]);
   ("quota_setting", JObj [("enable_free_model_pre_consume", JBool true)]); ("QuotaForNewUser", JNum (of_Z 5))].

Definition sample_marks : dirty :=
  DirtyFields [("TopUpLink", Dirty); ("general_setting", DirtyFields [("docs_link", Dirty)]);
               ("quota_setting", DirtyFields [("enable_free_model_pre_consume", Dirty)])].

Definition sample_server (k : jstr) : option jstr :=
  option_map (fun v => option_text (fun _ => []) (Some v)) (obj_get k sample_options).

(** The second of the two updates fails. *)
Definition sample_answer (k _ : jstr) : OptionAnswer :=
  if k =s "quota_setting.enable_free_model_pre_consume" then Refused else Applied.

Lemma sample_lawful : plain_tree (JObj sample_data) /\
  marks_ok sample_marks (JObj sample_data) (mount (Some (JObj sample_options))).
Proof.
  assert (forall k x, obj_get k (flattenValues (JObj sample_data) None []) = Some x ->
    In (k, x) [("TopUpLink", JStr "/topup"); ("general_setting.docs_link", JStr "/guide");
               ("quota_setting.enable_free_model_pre_consume", JBool true); ("QuotaForNewUser", JNum (of_Z 5))]) as R.
  { intros k x H. apply obj_get_In in H. revert H. vm_compute. intuition congruence. }
  split; [|split].
  - cbn. repeat split; try done;
      repeat (apply List.NoDup_cons; [cbn [In]; intuition discriminate|]); apply List.NoDup_nil.
  - intros p Hp. cbn in Hp. destruct Hp as [<-|[<-|[<-|[]]]]; eexists; cbn;
      [by left | right; by left | right; right; by left].
  - intros k x H D. apply R in H as [[= <- <-]|[[= <- <-]|[[= <- <-]|[[= <- <-]|[]]]]]; vm_compute in D |- *; try discriminate D; auto.
Qed.

Definition sample_submit (answer : jstr -> jstr -> OptionAnswer) : Form * Options * Outcome :=
  handleSubmit defaultCompare (onSubmit (fun _ => []) QuotaPage answer) sample_marks (JObj sample_data)
    (mount (Some (JObj sample_options))) sample_server.

Lemma save_reaches_server_witness :
  (let '(_, options', out) := sample_submit (fun _ _ => Applied) in
   out = Saved /\ options' "general_setting.docs_link" = Some ("/guide" : jstr) /\
   options' "quota_setting.enable_free_model_pre_consume" = Some ("true" : jstr)) /\
  (let '(f', options', out) := sample_submit sample_answer in
   out = SaveFailed /\ f' = mount (Some (JObj sample_options)) /\
   options' "quota_setting.enable_free_model_pre_consume" = Some ("false" : jstr)).
Proof.
  destruct sample_lawful as [H1 H2]. split.
  - pose proof (save_reaches_server (fun _ => []) QuotaPage (fun _ _ => Applied) sample_marks sample_data _ sample_server H1 H2) as T.
    assert (snd (sample_submit (fun _ _ => Applied)) = Saved) as O by (vm_compute; reflexivity).
    unfold sample_submit in O |- *. set (r := handleSubmit _ _ _ _ _ _) in O, T |- *. clearbody r.
    destruct r as [[f' options'] out]. cbn [snd] in O. subst out.
    destruct T as (_ & W & _). split; [done|].
    split; [apply (w_stored _ _ _ _ _ _ W _ (JStr "/guide")) | apply (w_stored _ _ _ _ _ _ W _ (JBool true))];
      first [split; vm_compute; reflexivity | vm_compute; reflexivity].
  - pose proof (save_reaches_server (fun _ => []) QuotaPage sample_answer sample_marks sample_data _ sample_server H1 H2) as T.
    assert (snd (sample_submit sample_answer) = SaveFailed) as O by (vm_compute; reflexivity).
    assert (snd (fst (sample_submit sample_answer)) "quota_setting.enable_free_model_pre_consume" = Some ("false" : jstr)) as V
      by (vm_compute; reflexivity).
    unfold sample_submit in O, V |- *. set (r := handleSubmit _ _ _ _ _ _) in O, V, T |- *. clearbody r.
    destruct r as [[f' options'] out]. cbn [snd fst] in O, V. subst out.
    destruct T as (T & _). done.
Defined.
