(* ===== verification/Session.v ===== *)
(** * The client of the API and the session of the user

    [lib/api.ts]: concurrent identical reads share one request, the interceptors, and
    [getSelf], which asks who is signed in; [stores/auth-store.ts] holds the user;
    [features/auth/hooks/use-auth-redirect.ts], [components/sign-out-dialog.tsx],
    [features/auth/otp/components/otp-form.tsx] and the guards of
    [routes/_authenticated/route.tsx], [routes/(auth)/sign-in.tsx],
    [routes/desktop/authorize.tsx] and the wallet change it;
    [features/auth/lib/storage.ts] keeps where to go after a sign-in. *)

From S2P Require Import Prelude Number Json.
From stdpp Require Import options.

(** ** Shared reads *)

Record Config := {
  disableDuplicate : bool;
  params : option json;
  skipErrorHandler : bool;
  skipBusinessError : bool;
}.

Record Request := { r_id : nat; r_url : jstr; r_config : Config; r_key : option jstr }.

(** [inFlightGet] maps a key to a promise, which we name by the number of its request;
    [pending] are the requests that were sent and not answered. *)
Record Client := {
  language : jstr;
  inFlightGet : list (jstr * nat);
  pending : list Request;
  nextRequest : nat;
}.

Definition request_key (language url : jstr) (params : option json) : jstr :=
  str_or language "zh-TW" ++ ":" ++ url ++ "?" ++
  match params with Some p => if jtruthy p then stringify p else "{}" | None => "{}" end.

Definition send (url : jstr) (config : Config) (key : option jstr) (c : Client) : nat * Client :=
  (nextRequest c,
   {| language := language c;
      inFlightGet := match key with Some k => obj_set k (nextRequest c) (inFlightGet c) | None => inFlightGet c end;
      pending := {| r_id := nextRequest c; r_url := url; r_config := config; r_key := key |} :: pending c;
      nextRequest := S (nextRequest c) |}).

(** [api.get]: the promise that is returned, by its number. *)
Definition get (url : jstr) (config : Config) (c : Client) : nat * Client :=
  if disableDuplicate config then send url config None c
  else
    let key := request_key (language c) url (params config) in
    match obj_get key (inFlightGet c) with
    | Some req => (req, c)
    | None => send url config (Some key) c
    end.

(** A request is answered, or fails: [finally] deletes its key. *)
Definition answered (n : nat) (c : Client) : Client :=
  match List.find (fun r => r_id r =? n) (pending c) with
  | None => c
  | Some r =>
      {| language := language c;
         inFlightGet := match r_key r with Some k => obj_delete k (inFlightGet c) | None => inFlightGet c end;
         pending := List.filter (fun r => negb (r_id r =? n)) (pending c);
         nextRequest := nextRequest c |}
  end.

Definition changeLanguage (l : jstr) (c : Client) : Client :=
  {| language := l; inFlightGet := inFlightGet c; pending := pending c; nextRequest := nextRequest c |}.

Inductive ClientEvent := Get (url : jstr) (config : Config) | Answered (n : nat) | Language (l : jstr).

Definition client_step (e : ClientEvent) (c : Client) : Client :=
  match e with
  | Get url config => snd (get url config c)
  | Answered n => answered n c
  | Language l => changeLanguage l c
  end.

Definition client_init (l : jstr) : Client :=
  {| language := l; inFlightGet := []; pending := []; nextRequest := 0 |}.

(** The map holds, for each key, the one pending request that was sent under it. *)
Record client_ok (c : Client) : Prop := {
  ok_entry : forall k n, obj_get k (inFlightGet c) = Some n <->
    exists r, In r (pending c) /\ r_key r = Some k /\ r_id r = n;
  ok_ids : List.NoDup (map r_id (pending c));
  ok_below : Forall (fun r => r_id r < nextRequest c) (pending c);
  ok_fresh : forall r1 r2 k, In r1 (pending c) -> In r2 (pending c) -> r_key r1 = Some k -> r_key r2 = Some k -> r1 = r2;
}.


Lemma client_init_ok l : client_ok (client_init l).
Proof.
  split; cbn; [|constructor | constructor | easy]. intros k n. split; [done|]. by intros (r & [] & _).
Qed.

Lemma send_ok url config key c : client_ok c -> (forall k, key = Some k -> obj_get k (inFlightGet c) = None) ->
  client_ok (snd (send url config key c)).
Proof.
  intros [He Hi Hb Hf] Hk. set (r0 := {| r_id := nextRequest c; r_url := url; r_config := config; r_key := key |}).
  assert (forall r k, In r (pending c) -> r_key r = Some k -> key = Some k -> False) as Hnew.
  { intros r k Hr Hrk Hkk. assert (obj_get k (inFlightGet c) = Some (r_id r)) by (apply He; by exists r).
    by rewrite (Hk k Hkk) in H. }
  split; cbn [send snd inFlightGet pending nextRequest].
  - intros k n. destruct key as [k0|].
    + rewrite obj_get_set. destruct (seqb_spec k k0) as [->|Hne].
      * split; [intros [= <-]; exists r0; repeat split; by left|]. intros (r & [<-|Hr] & Hrk & <-); [done|].
        exfalso. eauto.
      * rewrite He. split; intros (r & Hr & Hrk & Hn); [exists r; split; [by right | done]|].
        destruct Hr as [<-|Hr]; [cbn in Hrk; congruence | by exists r].
    + rewrite He. split; intros (r & Hr & Hrk & Hn); [exists r; split; [by right | done]|].
      destruct Hr as [<-|Hr]; [done | by exists r].
  - cbn [map r_id]. constructor; [|done]. intros (r & E & Hr)%in_map_iff. rewrite List.Forall_forall in Hb.
    specialize (Hb r Hr). lia.
  - constructor; [cbn; lia|]. apply (Forall_impl _ _ _ Hb). cbn. lia.
  - intros r1 r2 k [<-|H1] [<-|H2] K1 K2; [done | exfalso; by eauto | exfalso; by eauto | by eauto].
Qed.

Lemma get_ok url config c : client_ok c -> client_ok (snd (get url config c)).
Proof.
  intros H. unfold get. destruct (disableDuplicate config); [by apply send_ok|].
  destruct (obj_get _ _) eqn:E; [done|]. apply send_ok; [done|]. by intros k [= <-].
Qed.

Lemma find_id n l r : List.find (fun r => r_id r =? n) l = Some r -> In r l /\ r_id r = n.
Proof. intros H. apply find_some in H as [H E]. by apply Nat.eqb_eq in E. Qed.

Lemma id_unique l r1 r2 : List.NoDup (map r_id l) -> In r1 l -> In r2 l -> r_id r1 = r_id r2 -> r1 = r2.
Proof.
  induction l as [|r l IH]; [done|]. cbn [map]. intros [Hr Hl]%List.NoDup_cons_iff.
  intros [->|H1] [->|H2] E; [done | | | by apply IH];
    exfalso; apply Hr; [rewrite E | rewrite <- E]; by apply in_map.
Qed.

Lemma answered_client_ok n c : client_ok c -> client_ok (answered n c).
Proof.
  intros H. unfold answered. destruct (List.find _ _) as [r|] eqn:E; [|done].
  apply find_id in E as [Hr En]. destruct H as [He Hi Hb Hf].
  assert (forall r', In r' (List.filter (fun r => negb (r_id r =? n)) (pending c)) <-> In r' (pending c) /\ r' <> r) as Hp.
  { intros r'. rewrite filter_In, negb_true_iff, Nat.eqb_neq. split; intros [A B]; (split; [done|]); [intros ->; congruence|].
    intros E. apply B, (id_unique (pending c)); [done | done | done | congruence]. }
  split; cbn [inFlightGet pending nextRequest].
  - intros k m. assert (obj_get k match r_key r with Some k => obj_delete k (inFlightGet c) | None => inFlightGet c end
                        = if match r_key r with Some k' => k =s k' | None => false end then None else obj_get k (inFlightGet c)) as ->.
    { destruct (r_key r); [apply obj_get_delete | done]. }
    destruct (r_key r) as [k0|] eqn:Ek; [destruct (seqb_spec k k0) as [->|Hne]|].
    + split; [done|]. intros (r' & [Hr' Hn]%Hp & Hk' & _). destruct Hn. by eapply Hf.
    + rewrite He. split; intros (r' & Hr' & Hk' & Hm).
      * exists r'. split; [apply Hp; split; [done | congruence] | done].
      * apply Hp in Hr' as [Hr' _]. by exists r'.
    + rewrite He. split; intros (r' & Hr' & Hk' & Hm).
      * exists r'. split; [apply Hp; split; [done | congruence] | done].
      * apply Hp in Hr' as [Hr' _]. by exists r'.
  - clear - Hi. induction (pending c) as [|x l IH]; [constructor|]. cbn [map List.filter] in *.
    apply List.NoDup_cons_iff in Hi as [Hx Hl]. destruct (negb (r_id x =? n)); [|by apply IH].
    cbn [map]. constructor; [|by apply IH]. intros (y & E & [Hy _]%filter_In)%in_map_iff. apply Hx. rewrite <- E. by apply in_map.
  - apply List.Forall_forall. intros r' [H _]%Hp. rewrite List.Forall_forall in Hb. by apply Hb.
  - intros r1 r2 k [H1 _]%Hp [H2 _]%Hp. by apply Hf.
Qed.

Lemma clients_ok es : forall c, client_ok c -> client_ok (fold_left (fun c e => client_step e c) es c).
Proof.
  induction es as [|e es IH]; intros c H; [done|]. cbn [fold_left]. apply IH.
  destruct e; cbn [client_step]; [by apply get_ok | by apply answered_client_ok | by destruct H].
Qed.

(** C5: Whatever was read, answered and switched before, a read that may be shared joins
    the pending request of its key, or is sent; its promise is that of a pending request
    with the same language, address and parameters, and no second one is pending. *)
Theorem reads_shared l es url config : disableDuplicate config = false ->
  let c := fold_left (fun c e => client_step e c) es (client_init l) in
  let '(n, c') := get url config c in
  let key := request_key (language c) url (params config) in
  (exists r, In r (pending c') /\ r_id r = n /\ r_key r = Some key /\
     forall r', In r' (pending c') -> r_key r' = Some key -> r' = r) /\
  (forall config', disableDuplicate config' = false -> params config' = params config -> get url config' c' = (n, c')) /\
  (forall r, In r (pending c) -> r_key r = Some key -> c' = c) /\
  get url config (answered n c') = (nextRequest c', snd (send url config (Some key) (answered n c'))).
Proof.
  intros Hd c. assert (client_ok c) as H by apply clients_ok, client_init_ok.
  pose proof (get_ok url config c H) as H'. destruct (get url config c) as [n c'] eqn:G. cbn [snd] in H'.
  set (key := request_key (language c) url (params config)).
  assert (obj_get key (inFlightGet c') = Some n /\ language c' = language c) as [Hk Hl].
  { unfold get in G. rewrite Hd in G. fold key in G. destruct (obj_get key (inFlightGet c)) eqn:E; injection G as <- <-; [done|].
    cbn [send inFlightGet language]. by rewrite obj_get_set, seqb_refl. }
  destruct (proj1 (ok_entry c' H' key n) Hk) as (r & Hr & Hrk & Hn).
  split; [|split; [|split]].
  - exists r. repeat split; try done. intros r' Hr' Hk'. by apply (ok_fresh c' H' r' r key).
  - intros config' Hd' Hp. unfold get. rewrite Hd', Hp, Hl. fold key. by rewrite Hk.
  - clear r Hr Hrk Hn. intros r Hrc Hrk. unfold get in G. rewrite Hd in G. fold key in G.
    assert (obj_get key (inFlightGet c) = Some (r_id r)) as E by (apply (ok_entry c H); by exists r).
    rewrite E in G. by injection G as _ <-.
  - unfold get. rewrite Hd. unfold answered.
    destruct (List.find (fun r => r_id r =? n) (pending c')) as [r'|] eqn:F.
    + apply find_id in F as [Hr' En]. assert (r' = r) as -> by (apply (id_unique _ _ _ (ok_ids c' H')); congruence).
      cbn [language inFlightGet]. rewrite Hrk, Hl. fold key. by rewrite obj_get_delete, seqb_refl.
    + exfalso. apply (find_none _ _ F) in Hr. by rewrite Hn, Nat.eqb_refl in Hr.
Qed.

(** A read that joins a request goes by that request's options: the caller's own wish to
    have its errors shown or kept quiet is not asked. *)
Lemma joined_options l url p :
  let quiet := {| disableDuplicate := false; params := p; skipErrorHandler := true; skipBusinessError := false |} in
  let loud := {| disableDuplicate := false; params := p; skipErrorHandler := false; skipBusinessError := false |} in
  let '(n, c) := get url quiet (client_init l) in
  let '(m, c') := get url loud c in
  m = n /\ c' = c /\ map r_config (pending c') = [quiet].
Proof.
  cbn [get disableDuplicate params client_init language inFlightGet obj_get send pending nextRequest].
  unfold get. cbn [disableDuplicate params language inFlightGet]. by rewrite obj_get_set, seqb_refl.
Qed.

(** ** Interceptors *)

Definition path_of (url : jstr) : jstr := hd [] (splitc 63 url).

Definition isSessionValidationRequest (url : option jstr) : bool :=
  match url with Some u => path_of u =s "/api/user/self" | None => false end.

Definition isAuthenticationRequest (url : option jstr) : bool :=
  match url with
  | Some u =>
      let path := path_of u in
      (path =s "/api/user/login") || (path =s "/api/user/login/2fa") || (path =s "/api/user/register") ||
      (path =s "/api/user/logout") || startsWith path "/api/oauth/"
  | None => false
  end.

(** The headers that are set on a request; [uid] is the stored identifier. *)
Definition request_headers (language : jstr) (uid : option jstr) (url : option jstr) : list (jstr * jstr) :=
  ("Accept-Language", if language =s "zh" then "zh-CN" else str_or language "zh-TW") ::
  if isAuthenticationRequest url then []
  else match uid with Some u => if truthy u then [("New-Api-User", u)] else [] | None => [] end.

Inductive Reaction := Nothing | Toast (message : jstr) | SessionExpired.

(** What a failed request shows; an expired session also clears the user. *)
Definition on_error (cancelled : bool) (config : Config) (url : option jstr) (status : option Z)
    (bodyMessage message : jstr) : Reaction :=
  if cancelled || skipErrorHandler config then Nothing
  else if match status with Some s => (s =? 401)%Z | None => false end && isSessionValidationRequest url
  then SessionExpired
  else Toast (str_or bodyMessage (str_or message "Request error")).

Definition on_response (config : Config) (success : option bool) (message : jstr) : Reaction :=
  match success with
  | Some false => if skipBusinessError config then Nothing else Toast (str_or message "Request failed")
  | _ => Nothing
  end.

(** ** Where to go after a sign-in *)

Definition local_path (s : jstr) : bool := startsWith s "/" && negb (startsWith s "//").

Definition normalizeAuthRedirect (redirectTo : option jstr) : jstr :=
  match redirectTo with
  | Some r => if local_path r then r else "/dashboard"
  | None => "/dashboard"
  end.

(** The session storage holds at most one such text. *)
Definition saveAuthRedirect (redirectTo : option jstr) (now : number) (stored : option jstr) : option jstr :=
  match redirectTo with
  | Some r => if local_path r then Some (stringify (JObj [("redirectTo", JStr r); ("createdAt", JNum now)])) else None
  | None => None
  end.

Definition ten_minutes : number := of_Z 600000.

Definition consumeAuthRedirect (now : number) (stored : option jstr) : option jstr * option jstr :=
  (match stored with
   | Some raw =>
       if truthy raw then
         match json_parse raw with
         | Some value =>
             match jget "redirectTo" value, jget "createdAt" value with
             | Some (JStr r), Some (JNum t) =>
                 if local_path r && negb (SFltb ten_minutes (nsub now t)) then Some r else None
             | _, _ => None
             end
         | None => None
         end
       else None
   | None => None
   end, None).

(** ** The user *)

(** What happens when [getSelf] comes back, by who has called it. *)
Inductive Purpose :=
  | ForLogin (transition : nat) (targetPath : jstr)   (** [handleLoginSuccess] *)
  | ForGuard (href : jstr)                            (** [_authenticated] *)
  | ForEntry (redirect : option jstr)                 (** [sign-in] *)
  | ForDesktop (href : jstr)                          (** [desktop/authorize] *)
  | ForWallet.                                        (** [fetchUser] *)

Record Call := { c_id : nat; c_generation : nat; c_purpose : Purpose }.

Inductive Place := Path (to : jstr) | SignIn (redirect : option jstr) | Assign (url : jstr) | Reload.

(** [user] is the store's, which keeps a copy in the local storage; [uid] is stored beside
    it; [places] are the navigations, the latest first. *)
Record Session := {
  user : option json;
  uid : option jstr;
  selfRequestGeneration : nat;
  calls : list Call;
  nextCall : nat;
  loginTransition : nat;
  sessionVerifiedUserID : option number;
  places : list Place;
}.

Definition setUser (u : option json) (s : Session) : Session :=
  {| user := u; uid := uid s; selfRequestGeneration := selfRequestGeneration s; calls := calls s;
     nextCall := nextCall s; loginTransition := loginTransition s;
     sessionVerifiedUserID := sessionVerifiedUserID s; places := places s |}.

Definition reset : Session -> Session := setUser None.

Definition setUid (u : option jstr) (s : Session) : Session :=
  {| user := user s; uid := u; selfRequestGeneration := selfRequestGeneration s; calls := calls s;
     nextCall := nextCall s; loginTransition := loginTransition s;
     sessionVerifiedUserID := sessionVerifiedUserID s; places := places s |}.

Definition setVerified (v : option number) (s : Session) : Session :=
  {| user := user s; uid := uid s; selfRequestGeneration := selfRequestGeneration s; calls := calls s;
     nextCall := nextCall s; loginTransition := loginTransition s; sessionVerifiedUserID := v; places := places s |}.

Definition navigateTo (p : Place) (s : Session) : Session :=
  {| user := user s; uid := uid s; selfRequestGeneration := selfRequestGeneration s; calls := calls s;
     nextCall := nextCall s; loginTransition := loginTransition s;
     sessionVerifiedUserID := sessionVerifiedUserID s; places := p :: places s |}.

(** Cancelling raises the generation.  The requests are aborted, but an answer that is
    already on its way to its caller is not stopped by that. *)
Definition cancelSelfRequests (s : Session) : Session :=
  {| user := user s; uid := uid s; selfRequestGeneration := S (selfRequestGeneration s); calls := calls s;
     nextCall := nextCall s; loginTransition := loginTransition s;
     sessionVerifiedUserID := sessionVerifiedUserID s; places := places s |}.

Definition getSelf (p : Purpose) (s : Session) : Session :=
  {| user := user s; uid := uid s; selfRequestGeneration := selfRequestGeneration s;
     calls := {| c_id := nextCall s; c_generation := selfRequestGeneration s; c_purpose := p |} :: calls s;
     nextCall := S (nextCall s); loginTransition := loginTransition s;
     sessionVerifiedUserID := sessionVerifiedUserID s; places := places s |}.

Definition nextTransition (s : Session) : Session :=
  {| user := user s; uid := uid s; selfRequestGeneration := selfRequestGeneration s; calls := calls s;
     nextCall := nextCall s; loginTransition := S (loginTransition s);
     sessionVerifiedUserID := sessionVerifiedUserID s; places := places s |}.

Definition drop_call (n : nat) (s : Session) : Session :=
  {| user := user s; uid := uid s; selfRequestGeneration := selfRequestGeneration s;
     calls := List.filter (fun c => negb (c_id c =? n)) (calls s);
     nextCall := nextCall s; loginTransition := loginTransition s;
     sessionVerifiedUserID := sessionVerifiedUserID s; places := places s |}.

Inductive Answer := Body (success : bool) (data : option json) | Rejected.

(** What the caller of [getSelf] gets: an answer of an older generation has no data. *)
Definition self_answer (c : Call) (s : Session) (a : Answer) : Answer :=
  match a with
  | Body _ _ => if c_generation c =? selfRequestGeneration s then a else Body false None
  | Rejected => Rejected
  end.

(** [self?.success && self.data] *)
Definition self_data (a : Answer) : option json :=
  match a with
  | Body true (Some d) => if jtruthy d then Some d else None
  | _ => None
  end.

Definition user_id (u : json) : option json := jget "id" u.

Definition id_text (v : option json) : option jstr :=
  match v with Some v => if jtruthy v then Some (js_String v) else None | None => None end.

Definition number_of (v : option json) : number :=
  match v with Some v => js_Number v | None => NaN end.

(** [loadActiveAuthSession] *)
Definition loadActiveAuthSession (a : Answer) : option json :=
  match a with
  | Body success data =>
      let userID := number_of (match data with Some d => user_id d | None => None end) in
      if success && isSafeInteger userID && SFltb zero userID then data else None
  | Rejected => None
  end.

(** The rest of each caller. *)
Definition continue (p : Purpose) (a : Answer) (s : Session) : Session :=
  match p with
  | ForLogin transition target =>
      match a with
      | Rejected => navigateTo (Path target) s
      | Body _ _ =>
          if negb (transition =? loginTransition s) then s
          else
            navigateTo (Path target)
              match self_data a with
              | Some u => match id_text (user_id u) with
                          | Some i => setUid (Some i) (setUser (Some u) s)
                          | None => setUser (Some u) s
                          end
              | None => s
              end
      end
  | ForGuard href =>
      match self_data a with
      | Some u => setVerified (Some (number_of (user_id u))) (setUser (Some u) s)
      | None => navigateTo (SignIn (Some href)) (setVerified None (reset s))
      end
  | ForEntry target =>
      match loadActiveAuthSession a with
      | Some u => navigateTo (Path (match target with Some t => str_or t "/dashboard" | None => "/dashboard" end))
                    (setUser (Some u) s)
      | None => reset s
      end
  | ForDesktop href =>
      match self_data a with
      | Some u => setUser (Some u) s
      | None => navigateTo (SignIn (Some href)) (reset s)
      end
  | ForWallet => match self_data a with Some u => setUser (Some u) s | None => s end
  end.

Definition settle (n : nat) (a : Answer) (s : Session) : Session :=
  match List.find (fun c => c_id c =? n) (calls s) with
  | Some c => continue (c_purpose c) (self_answer c s a) (drop_call n s)
  | None => s
  end.

(** [handleLoginSuccess] up to its [await]. *)
Definition handleLoginSuccess (userData : option json) (redirectTo : option jstr) (s : Session) : Session :=
  let s := setUser None (setUid None (cancelSelfRequests (nextTransition s))) in
  let s := match id_text (match userData with Some d => user_id d | None => None end) with
           | Some i => setUid (Some i) s | None => s end in
  let target := normalizeAuthRedirect redirectTo in
  if startsWith target "/api/" then navigateTo (Assign target) s
  else getSelf (ForLogin (loginTransition s) target) s.

(** [otp-form.tsx], after the second factor was accepted. *)
Definition otp_accepted (userData : json) (redirect : option jstr) (s : Session) : Session :=
  let s := setUser (Some userData) s in
  let s := match id_text (user_id userData) with Some i => setUid (Some i) s | None => s end in
  let path := normalizeAuthRedirect redirect in
  navigateTo (if startsWith path "/api/" then Assign path else Path path) s.

(** An identifier that was not read yet is [null], which is not [undefined]. *)
Definition same_id (v : option number) (u : json) : bool :=
  strict_eq (Some match v with Some n => JNum n | None => JNull end) (user_id u).

(** [beforeLoad] of the guards, up to their [await]. *)
Definition visit (href : jstr) (s : Session) : Session :=
  match user s with
  | None => navigateTo (SignIn (Some href)) s
  | Some u => if same_id (sessionVerifiedUserID s) u then s else getSelf (ForGuard href) s
  end.

Definition visit_signin (redirect : option jstr) (s : Session) : Session :=
  match user s with None => s | Some _ => getSelf (ForEntry redirect) s end.

Definition visit_desktop (href : jstr) (s : Session) : Session :=
  match user s with None => navigateTo (SignIn (Some href)) s | Some _ => getSelf (ForDesktop href) s end.

(** [handleSignOut] after the server's answer, whatever it was; the page is loaded anew:
    only what is stored remains. *)
Definition signed_out (s : Session) : Session :=
  {| user := None; uid := None; selfRequestGeneration := 0; calls := []; nextCall := 0; loginTransition := 0;
     sessionVerifiedUserID := None; places := [Reload] |}.

(** [main.tsx]: a query has failed with the status 401. *)
Definition query_unauthorized (href : jstr) (s : Session) : Session :=
  navigateTo (SignIn (Some href)) (reset s).

Inductive SessionEvent :=
  | Visit (href : jstr) | VisitSignIn (redirect : option jstr) | VisitDesktop (href : jstr)
  | FetchWallet
  | BeginLogin                          (** [login], [login2fa], [logout]: they cancel *)
  | BeginOAuth                          (** [resetSession] *)
  | LoggedIn (userData : option json) (redirectTo : option jstr)
  | OtpAccepted (userData : json) (redirect : option jstr)
  | Settle (n : nat) (a : Answer)
  | Unauthorized (href : jstr).

Definition session_step (e : SessionEvent) (s : Session) : Session :=
  match e with
  | Visit href => visit href s
  | VisitSignIn r => visit_signin r s
  | VisitDesktop href => visit_desktop href s
  | FetchWallet => getSelf ForWallet s
  | BeginLogin => cancelSelfRequests s
  | BeginOAuth => reset (cancelSelfRequests s)
  | LoggedIn d r => handleLoginSuccess d r s
  | OtpAccepted d r => otp_accepted d r s
  | Settle n a => settle n a s
  | Unauthorized href => query_unauthorized href s
  end.

Definition session_run (es : list SessionEvent) (s : Session) : Session :=
  fold_left (fun s e => session_step e s) es s.

(** The page is loaded with what is stored. *)
Definition session_init (u : option json) (i : option jstr) : Session :=
  {| user := u; uid := i; selfRequestGeneration := 0; calls := []; nextCall := 0; loginTransition := 0;
     sessionVerifiedUserID := None; places := [] |}.

(** The events that begin a change of the session. *)
Definition transition_event (e : SessionEvent) : bool :=
  match e with BeginLogin | BeginOAuth | LoggedIn _ _ => true | _ => false end.

(** ** Calls and generations *)

Record calls_ok (s : Session) : Prop := {
  calls_ids : List.NoDup (map c_id (calls s));
  calls_below : Forall (fun c => c_id c < nextCall s) (calls s);
  calls_gen : Forall (fun c => c_generation c <= selfRequestGeneration s) (calls s);
}.

(** The parts of the state that the rest of a caller leaves alone. *)
Definition same_calls (s s' : Session) : Prop :=
  calls s' = calls s /\ nextCall s' = nextCall s /\ selfRequestGeneration s' = selfRequestGeneration s /\
  loginTransition s' = loginTransition s.

Lemma continue_calls p a s : same_calls s (continue p a s).
Proof.
  unfold same_calls. destruct p, a; cbn [continue]; try done;
    repeat match goal with |- context [match ?x with _ => _ end] => destruct x end; done.
Qed.

(** What an event does to the calls: it may begin one, and a change of the session raises
    the generation. *)
Lemma step_calls e s : exists p,
  (calls (session_step e s) = calls s /\ nextCall (session_step e s) = nextCall s \/
   calls (session_step e s) = {| c_id := nextCall s; c_generation := selfRequestGeneration (session_step e s); c_purpose := p |} :: calls s /\
     nextCall (session_step e s) = S (nextCall s) \/
   (exists n a, e = Settle n a /\ calls (session_step e s) = List.filter (fun c => negb (c_id c =? n)) (calls s) /\
     nextCall (session_step e s) = nextCall s)) /\
  selfRequestGeneration (session_step e s) = (if transition_event e then S (selfRequestGeneration s) else selfRequestGeneration s) /\
  loginTransition (session_step e s) = match e with LoggedIn _ _ => S (loginTransition s) | _ => loginTransition s end.
Proof.
  destruct e as [href|r|href| | | |d r|d r|n a|href]; cbn [session_step transition_event].
  - unfold visit. destruct (user s) as [u|]; [destruct (same_id _ u)|]; exists (ForGuard href); (split; [|done]); auto.
  - unfold visit_signin. exists (ForEntry r). destruct (user s); (split; [|done]); auto.
  - unfold visit_desktop. exists (ForDesktop href). destruct (user s); (split; [|done]); auto.
  - exists ForWallet. split; [|done]. auto.
  - exists ForWallet. split; [|done]. auto.
  - exists ForWallet. split; [|done]. auto.
  - unfold handleLoginSuccess. exists (ForLogin (S (loginTransition s)) (normalizeAuthRedirect r)).
    destruct (id_text _), (startsWith (normalizeAuthRedirect r) "/api/"); (split; [|done]); auto.
  - exists ForWallet. unfold otp_accepted. destruct (id_text _); (split; [|done]); auto.
  - exists ForWallet. unfold settle. destruct (List.find _ _) as [c|] eqn:F.
    + destruct (continue_calls (c_purpose c) (self_answer c s a) (drop_call n s)) as (A & B & C & D).
      rewrite A, B, C, D. split; [|done]. right; right. by exists n, a.
    + split; [|done]. auto.
  - exists ForWallet. split; [|done]. auto.
Qed.

Lemma filter_calls_ok n l : List.NoDup (map c_id l) -> List.NoDup (map c_id (List.filter (fun c => negb (c_id c =? n)) l)).
Proof.
  induction l as [|c l IH]; [done|]. cbn [map List.filter]. intros [Hc Hl]%List.NoDup_cons_iff.
  destruct (negb (c_id c =? n)); [|by apply IH]. cbn [map]. constructor; [|by apply IH].
  intros (c' & E & [Hin _]%filter_In)%in_map_iff. apply Hc. rewrite <- E. by apply in_map.
Qed.

Lemma Forall_list_filter {A} (P : A -> Prop) f l : Forall P l -> Forall P (List.filter f l).
Proof. rewrite !List.Forall_forall. intros H x [Hx _]%filter_In. by apply H. Qed.

Lemma step_calls_ok e s : calls_ok s -> calls_ok (session_step e s).
Proof.
  intros [A B C]. destruct (step_calls e s) as (p & H & G & _).
  assert (Forall (fun c => c_generation c <= selfRequestGeneration (session_step e s)) (calls s)) as C'.
  { apply (Forall_impl _ _ _ C). intros c. rewrite G. destruct (transition_event e); lia. }
  set (s' := session_step e s) in *.
  destruct H as [[E1 E2]|[[E1 E2]|(n & a & _ & E1 & E2)]]; split; rewrite ?E1, ?E2; try done.
  - cbn [map c_id]. constructor; [|done]. intros (c & E & Hc)%in_map_iff. rewrite List.Forall_forall in B. specialize (B c Hc). lia.
  - constructor; [cbn; lia|]. apply (Forall_impl _ _ _ B). cbn. lia.
  - constructor; [cbn; lia | done].
  - by apply filter_calls_ok.
  - by apply Forall_list_filter.
  - by apply Forall_list_filter.
Qed.

Lemma run_app es es' s : session_run (es ++ es') s = session_run es' (session_run es s).
Proof. apply fold_left_app. Qed.

Lemma run_calls_ok es : forall s, calls_ok s -> calls_ok (session_run es s).
Proof. induction es as [|e es IH]; intros s H; [done|]. by apply IH, step_calls_ok. Qed.

Lemma init_calls_ok u i : calls_ok (session_init u i).
Proof. split; constructor. Qed.

(** The calls below [k] are of an older generation. *)
Definition stale_below (k : nat) (s : Session) : Prop :=
  k <= nextCall s /\ Forall (fun c => c_id c < k -> c_generation c < selfRequestGeneration s) (calls s).

Lemma stale_transition e s : calls_ok s -> transition_event e = true -> stale_below (nextCall s) (session_step e s).
Proof.
  intros [A B C] He. destruct (step_calls e s) as (p & H & G & _). rewrite He in G. unfold stale_below. rewrite G.
  assert (Forall (fun c => c_id c < nextCall s -> c_generation c < S (selfRequestGeneration s)) (calls s)) as C'.
  { apply (Forall_impl _ _ _ C). intros c. lia. }
  destruct H as [[-> ->]|[[-> ->]|(n & a & -> & _)]]; [done | | done].
  split; [lia|]. constructor; [cbn; lia | done].
Qed.

Lemma stale_step k e s : stale_below k s -> stale_below k (session_step e s).
Proof.
  intros [Hk H]. destruct (step_calls e s) as (p & D & G & _). unfold stale_below.
  assert (Forall (fun c => c_id c < k -> c_generation c < selfRequestGeneration (session_step e s)) (calls s)) as H'.
  { apply (Forall_impl _ _ _ H). intros c. rewrite G. destruct (transition_event e); lia. }
  destruct D as [[-> ->]|[[-> ->]|(n & a & _ & -> & ->)]]; [done | |].
  - split; [lia|]. constructor; [cbn; lia | done].
  - split; [done|]. by apply Forall_list_filter.
Qed.

Lemma stale_run k es : forall s, stale_below k s -> stale_below k (session_run es s).
Proof. induction es as [|e es IH]; intros s H; [done|]. by apply IH, stale_step. Qed.

(** An answer without data puts no one into the store. *)
Lemma continue_no_data p a s : self_data a = None -> loadActiveAuthSession a = None ->
  user (continue p a s) = user s \/ user (continue p a s) = None.
Proof.
  intros H1 H2. destruct p; cbn [continue]; rewrite ?H1, ?H2; auto.
  destruct a; [|auto]. destruct (negb _); auto.
Qed.

(** C3: An answer to who is signed in that was asked for before a sign-in, a sign-out or
    the way to a provider began puts no one into the store, however late it comes and
    whatever has happened in between. *)
Theorem late_answer_ignored u i es e es' k a :
  let s := session_run es (session_init u i) in
  k < nextCall s -> transition_event e = true ->
  let s' := session_run es' (session_step e s) in
  user (session_step (Settle k a) s') = user s' \/ user (session_step (Settle k a) s') = None.
Proof.
  intros s Hk He s'. assert (stale_below (nextCall s) s') as [_ H].
  { apply stale_run, stale_transition; [|done]. apply run_calls_ok, init_calls_ok. }
  cbn [session_step]. unfold settle. destruct (List.find _ _) as [c|] eqn:F; [|by left].
  apply find_some in F as [Hc Hn%Nat.eqb_eq]. rewrite List.Forall_forall in H. specialize (H c Hc).
  assert (c_generation c < selfRequestGeneration s') as G by (apply H; lia).
  change (user s') with (user (drop_call k s')).
  assert ((c_generation c =? selfRequestGeneration s') = false) as N by (apply Nat.eqb_neq; lia).
  apply continue_no_data; unfold self_answer; destruct a; rewrite ?N; reflexivity.
Qed.

Definition settles (k : nat) (e : SessionEvent) : bool := match e with Settle n _ => n =? k | _ => false end.

(** The call of a sign-in that no other change of the session has followed. *)
Definition login_call (k : nat) (target : jstr) (s : Session) : Prop :=
  In {| c_id := k; c_generation := selfRequestGeneration s; c_purpose := ForLogin (loginTransition s) target |} (calls s).

Lemma login_call_step k target e s : transition_event e = false -> settles k e = false ->
  login_call k target s -> login_call k target (session_step e s).
Proof.
  intros He Hs H. destruct (step_calls e s) as (p & D & G & L). unfold login_call. rewrite G, He.
  assert (loginTransition (session_step e s) = loginTransition s) as -> by (rewrite L; by destruct e).
  destruct D as [[-> _]|[[-> _]|(n & a & -> & -> & _)]]; [exact H | by right |].
  apply filter_In. split; [exact H|]. cbn [settles c_id] in *. by rewrite Nat.eqb_sym, Hs.
Qed.

Lemma login_call_run k target es : forall s, forallb (fun e => negb (transition_event e) && negb (settles k e)) es = true ->
  login_call k target s -> login_call k target (session_run es s).
Proof.
  induction es as [|e es IH]; intros s H L; [done|]. cbn [forallb] in H. apply andb_prop in H as [[H1 H2]%andb_prop H].
  apply IH; [done|]. apply login_call_step; [by apply negb_true_iff | by apply negb_true_iff | done].
Qed.

Lemma find_call s c : calls_ok s -> In c (calls s) -> List.find (fun c' => c_id c' =? c_id c) (calls s) = Some c.
Proof.
  intros [A _ _]. induction (calls s) as [|x l IH]; [done|]. cbn [map List.find] in *.
  apply List.NoDup_cons_iff in A as [Hx Hl]. intros [->|Hin]; [by rewrite Nat.eqb_refl|].
  destruct (Nat.eqb_spec (c_id x) (c_id c)) as [E|]; [|by apply IH].
  exfalso. apply Hx. rewrite E. by apply in_map.
Qed.

Lemma normalize_local r : local_path (normalizeAuthRedirect r) = true.
Proof. destruct r as [r|]; cbn; [destruct (local_path r) eqn:E; [exact E | done] | done]. Qed.

(** C4: A sign-in is completed by the answer to its own question, whatever else is asked
    and answered in the meantime: the user is the server's, its identifier is stored, and
    the page is the local one that was asked for. *)
Theorem login_completes u i es d r es' us :
  let s := session_run es (session_init u i) in
  let k := nextCall s in
  let target := normalizeAuthRedirect r in
  startsWith target "/api/" = false ->
  forallb (fun e => negb (transition_event e) && negb (settles k e)) es' = true -> jtruthy us = true ->
  let s' := session_step (Settle k (Body true (Some us))) (session_run es' (session_step (LoggedIn d r) s)) in
  user s' = Some us /\ hd_error (places s') = Some (Path target) /\ local_path target = true /\
  (forall n, id_text (user_id us) = Some n -> uid s' = Some n).
Proof.
  intros s k target Ht He Hus. set (s1 := session_run es' (session_step (LoggedIn d r) s)).
  assert (login_call k target s1 /\ calls_ok s1) as [L O].
  { split; [|apply run_calls_ok, step_calls_ok, run_calls_ok, init_calls_ok]. apply login_call_run; [done|].
    unfold login_call. cbn [session_step]. unfold handleLoginSuccess. fold target. rewrite Ht.
    destruct (id_text _); by left. }
  cbn [session_step]. unfold settle. pose proof (find_call s1 _ O L) as F. cbn [c_id] in F. rewrite F.
  cbn [c_purpose self_answer c_generation]. rewrite Nat.eqb_refl. cbn [continue].
  change (loginTransition (drop_call k s1)) with (loginTransition s1). rewrite Nat.eqb_refl. cbn [negb self_data].
  rewrite Hus. split; [by destruct (id_text _)|]. split; [by destruct (id_text _)|]. split; [apply normalize_local|].
  intros n Hn. by rewrite Hn.
Qed.

(** A sign-in that is overtaken by another still goes to its own page, before anyone is in
    the store: its question is aborted, which is treated like a failed one. *)
Lemma overtaken_login_navigates :
  let s := session_run [LoggedIn None (Some "/a"); LoggedIn None (Some "/b"); Settle 0 Rejected] (session_init None None) in
  places s = [Path "/a"] /\ user s = None.
Proof. by vm_compute. Qed.

(** A sign-in page that finds a session goes wherever its address says. *)
Lemma signin_redirect_unchecked us r : loadActiveAuthSession (Body true (Some us)) = Some us -> r <> [] ->
  let s := session_run [VisitSignIn (Some r); Settle 0 (Body true (Some us))] (session_init (Some us) None) in
  places s = [Path r].
Proof.
  intros H Hr. apply truthy_iff in Hr. cbn [session_run fold_left session_step visit_signin session_init user].
  unfold settle. cbn [getSelf calls List.find c_id nextCall session_init Nat.eqb c_purpose].
  cbn [continue self_answer c_generation selfRequestGeneration getSelf session_init Nat.eqb].
  rewrite H. unfold str_or. by rewrite Hr.
Qed.

(** ** The stored page *)

(** The page to go to after a sign-in is read back once, within ten minutes, and only
    if it is a path of this site; nothing else that the storage may hold is ever used. *)
Theorem redirect_roundtrip r created now stored :
  (wf_str r -> num_ok created -> local_path r = true -> SFltb ten_minutes (nsub now created) = false ->
   fst (consumeAuthRedirect now (saveAuthRedirect (Some r) created stored)) = Some r) /\
  (local_path r = false -> saveAuthRedirect (Some r) created stored = None) /\
  (forall x, fst (consumeAuthRedirect now stored) = Some x -> startsWith x "/" = true /\ startsWith x "//" = false) /\
  fst (consumeAuthRedirect now (snd (consumeAuthRedirect now stored))) = None.
Proof.
  split; [|split; [|split]].
  - intros Hr Hc Hl Ht. unfold saveAuthRedirect. rewrite Hl. unfold consumeAuthRedirect. cbn [fst].
    set (v := JObj _). assert (wf_json v) as Hw.
    { apply wf_json_obj. split; [reflexivity|].
      assert (forall k, forallb (fun c => (c <? 65536)%N) k = true -> wf_str k) as W.
      { intros k H. rewrite forallb_forall in H. apply List.Forall_forall. intros c Hin. by apply N.ltb_lt, H. }
      constructor; [split; [by apply W | exact Hr]|]. constructor; [split; [by apply W | exact Hc]|]. constructor. }
    rewrite json_parse_stringify by done. assert (truthy (stringify v) = true) as -> by done.
    assert (jget "redirectTo" v = Some (JStr r) /\ jget "createdAt" v = Some (JNum created)) as [-> ->] by done.
    by rewrite Hl, Ht.
  - intros H. unfold saveAuthRedirect. by rewrite H.
  - intros x. unfold consumeAuthRedirect. cbn [fst]. destruct stored as [raw|]; [|done].
    destruct (truthy raw); [|done]. destruct (json_parse raw) as [v|]; [|done].
    destruct (jget "redirectTo" v) as [[| | |y| |]|], (jget "createdAt" v) as [[| |t| | |]|]; try done.
    destruct (local_path y) eqn:E; [|done]. cbn [andb]. destruct (negb _); [|done]. intros [= <-].
    unfold local_path in E. apply andb_prop in E as [E1 E2%negb_true_iff]. done.
  - done.
Qed.

(** ** Browsers

    A browser takes a backslash of an address for a slash and drops tabs and line breaks,
    so that two of them at the beginning name another host. *)
Definition names_host (s : jstr) : bool :=
  match List.filter (fun c => negb ((c =? 9) || (c =? 10) || (c =? 13))%N) s with
  | a :: b :: _ => ((a =? 47) || (a =? 92))%N && ((b =? 47) || (b =? 92))%N
  | _ => false
  end.

(** Such addresses pass for paths of this site. *)
Lemma host_passes : forall host,
  normalizeAuthRedirect (Some (47%N :: 92%N :: host)) = 47%N :: 92%N :: host /\ names_host (47%N :: 92%N :: host) = true.
Proof. done. Qed.

(** ** Witnesses *)

Definition plain_config : Config :=
  {| disableDuplicate := false; params := None; skipErrorHandler := false; skipBusinessError := false |}.

Lemma reads_shared_witness :
  fst (get "/api/status" plain_config (client_step (Get "/api/status" plain_config) (client_init "en"))) = 0.
Proof.
  pose proof (reads_shared "en" [Get "/api/status" plain_config] "/api/status" plain_config eq_refl) as T. revert T.
  cbn [fold_left]. destruct (get "/api/status" plain_config _) as [n c'] eqn:E. intros ((r & Hr & <- & _) & _ & H & _).
  cbn [fst]. rewrite (H {| r_id := 0; r_url := "/api/status"; r_config := plain_config; r_key := Some "en:/api/status?{}" |}) in Hr;
    [|by left | reflexivity]. destruct Hr as [<-|[]]. reflexivity.
Defined.

Definition sample_user (n : Z) : json := JObj [("id", JNum (of_Z n))].

Lemma late_answer_ignored_witness :
  let s := session_run [Visit "/keys"; LoggedIn (Some (sample_user 2)) None] (session_init (Some (sample_user 1)) (Some "1")) in
  user (session_step (Settle 0 (Body true (Some (sample_user 1)))) s) = None.
Proof.
  destruct (late_answer_ignored (Some (sample_user 1)) (Some "1") [Visit "/keys"] (LoggedIn (Some (sample_user 2)) None)
              [] 0 (Body true (Some (sample_user 1)))) as [H|H]; [vm_compute; lia | reflexivity | exact H | exact H].
Defined.

Lemma login_completes_witness :
  let s := session_run [LoggedIn None (Some "/keys"); FetchWallet; Settle 1 Rejected; Settle 0 (Body true (Some (sample_user 2)))]
             (session_init None None) in
  user s = Some (sample_user 2) /\ uid s = Some "2".
Proof.
  destruct (login_completes None None [] None (Some "/keys") [FetchWallet; Settle 1 Rejected] (sample_user 2))
    as (A & _ & _ & B); [reflexivity | reflexivity | reflexivity |].
  split; [exact A | apply B; vm_compute; reflexivity].
Defined.

Lemma redirect_roundtrip_witness :
  fst (consumeAuthRedirect (of_Z 1000) (saveAuthRedirect (Some "/keys") (of_Z 400) None)) = Some "/keys".
Proof.
  destruct (redirect_roundtrip "/keys" (of_Z 400) (of_Z 1000) None) as [H _]. apply H.
  - repeat constructor.
  - split; [reflexivity|]. split; [vm_compute; reflexivity|]. split; [vm_compute; repeat constructor | discriminate].
  - reflexivity.
  - vm_compute. reflexivity.
Defined.
