(* ===== verification/RouteServer.v ===== *)
(** * Route pools: what the server keeps

    [internal/marketplace/app/route_pools.go], [auto_route_pool.go],
    [route_pool_pruning.go] and [multiplier_limit.go], for one user: a pool is an ordered
    list of groups with a strategy and limits; a change of a pool replaces its members and,
    when one is sent, its whole configuration.  The web client of [RoutePool.v] is written
    against the class [PoolApi] at the end, of which this server is an instance.

    The groups a user may route to, and the order in which the groups that are in no pool
    are listed, come from the database and its statistics and are part of the state.  The
    plan of automatic builds is not modelled; there are fewer than a thousand groups, the
    limit of the query. *)

From stdpp Require Import sorting.
From S2P Require Import Prelude Number.
From stdpp Require Import options.

(** ** Data *)

Record Weights := { w_multiplier : Z; w_success : Z; w_cache : Z; w_ttft : Z }.

Record PoolConfig := {
  strategy : jstr;
  max_attempts : Z;
  failure_cooldown_seconds : Z;
  max_multiplier : number;
  weights : Weights;
}.

(** What a client sends: a field that is left out is decoded as its zero. *)
Record ConfigPatch := {
  p_strategy : option jstr;
  p_max_attempts : option Z;
  p_failure_cooldown_seconds : option Z;
  p_max_multiplier : option number;
  p_weights : option Weights;
}.

Definition truthy_list {A} (l : list A) : bool := match l with [] => false | _ => true end.

Definition or_zero {A} (o : option A) (z : A) : A := match o with Some a => a | None => z end.

Definition decode_config (p : ConfigPatch) : PoolConfig :=
  {| strategy := or_zero (p_strategy p) [];
     max_attempts := or_zero (p_max_attempts p) 0%Z;
     failure_cooldown_seconds := or_zero (p_failure_cooldown_seconds p) 0%Z;
     max_multiplier := or_zero (p_max_multiplier p) zero;
     weights := or_zero (p_weights p) {| w_multiplier := 0; w_success := 0; w_cache := 0; w_ttft := 0 |} |}.

Definition default_weights : Weights := {| w_multiplier := 35; w_success := 25; w_cache := 15; w_ttft := 25 |}.

Definition default_config : PoolConfig :=
  {| strategy := "priority"; max_attempts := 3; failure_cooldown_seconds := 30;
     max_multiplier := zero; weights := default_weights |}.

(** 0.001 and 1e-9 *)
Definition smallest_ceiling : number := of_decimal false 1 (-3).
Definition tolerance : number := of_decimal false 1 (-9).

Definition STRATEGIES : list jstr := ["priority"%js; "score"%js; "cost"%js].

Definition normalize_ceiling (m : number) : number :=
  let m := if SFltb zero m && SFltb m smallest_ceiling then smallest_ceiling else m in
  if SFltb m zero then zero else m.

(** The sum of the weights is one of 64 bits. *)
Definition normalize_weights (w : Weights) : Weights :=
  let w := {| w_multiplier := Z.max 0 (w_multiplier w); w_success := Z.max 0 (w_success w);
              w_cache := Z.max 0 (w_cache w); w_ttft := Z.max 0 (w_ttft w) |} in
  if ((w_multiplier w + w_success w + w_cache w + w_ttft w) mod 2 ^ 64 =? 0)%Z then default_weights else w.

Definition normalizeAutoRoutePoolConfig (config : option PoolConfig) : PoolConfig :=
  let result := or_zero config default_config in
  {| strategy := if memb (strategy result) STRATEGIES then strategy result else "priority";
     max_attempts := if ((max_attempts result <? 1) || (5 <? max_attempts result))%Z
                     then 3 else max_attempts result;
     failure_cooldown_seconds :=
       if ((failure_cooldown_seconds result <? 5) || (3600 <? failure_cooldown_seconds result))%Z
       then 30 else failure_cooldown_seconds result;
     max_multiplier := normalize_ceiling (max_multiplier result);
     weights := normalize_weights (weights result) |}.

Definition MultiplierWithinLimit (multiplier limit : number) : bool :=
  SFleb limit zero || SFleb multiplier (nadd limit tolerance).

Record Group := { g_id : jstr; g_multiplier : number; g_models : list jstr }.

(** A row of the members' table. *)
Definition Rows : Type := list (jstr * Z).

Record Pool := {
  pool_id : jstr; pool_name : jstr;
  pool_strategy : jstr; pool_attempts : Z; pool_cooldown : Z; pool_ceiling : number;
  pool_members : Rows;
}.

Record Server := {
  existing : list jstr;        (** the groups of the marketplace, accessible or not *)
  accessible : list Group;     (** those the user may route to *)
  officials : list Group;
  rank : jstr -> Z;            (** the order of what is in no pool *)
  pools : list Pool;
  auto_members : Rows;
  auto_config : PoolConfig;
}.

Record Item := {
  group_id : jstr; i_official : bool; multiplier : number; i_models : list jstr;
  selected : bool; priority : Z;
}.

(** [items] of a fresh pool are null. *)
Record Detail := {
  d_id : jstr; d_name : jstr; d_selected_count : Z; d_items : option (list Item); d_config : PoolConfig;
}.

Record Summary := { s_id : jstr; s_name : jstr; s_member_count : Z }.

Inductive answer (A : Type) := Ok (a : A) | Err (message : jstr).
Arguments Ok {A} a.
Arguments Err {A} message.

(** ** Texts of Go *)

(** [unicode.IsSpace] *)
Definition go_space (c : N) : bool :=
  ((9 <=? c) && (c <=? 13) || (c =? 32) || (c =? 133) || (c =? 160) || (c =? 5760) ||
   (8192 <=? c) && (c <=? 8202) || (c =? 8232) || (c =? 8233) || (c =? 8239) || (c =? 8287) || (c =? 12288))%N.

Fixpoint drop_space (s : jstr) : jstr :=
  match s with c :: s' => if go_space c then drop_space s' else s | [] => [] end.

Definition TrimSpace (s : jstr) : jstr := rev (drop_space (rev (drop_space s))).

(** The runes of a text: a pair of surrogates is one. *)
Fixpoint rune_count (s : jstr) : nat :=
  match s with
  | [] => 0
  | h :: s' =>
      S match s' with
        | l :: s'' => if ((55296 <=? h) && (h <? 56320) && (56320 <=? l) && (l <? 57344))%N
                      then rune_count s'' else rune_count s'
        | [] => 0
        end
  end.

(** ** Members *)

Definition officialAutoRoutePrefix : jstr := "official:".
Definition maxAutoRoutePoolMembers : nat := 10.
Definition maxNamedRoutePools : nat := 20.

Definition is_official (id : jstr) : bool := startsWith id officialAutoRoutePrefix.

Definition normalizeAutoRouteGroupIDs (values : list jstr) : list jstr :=
  uniq (List.filter truthy (map TrimSpace values)).

(** The groups that a change may name. *)
Definition eligible (groupIDs : list jstr) (s : Server) : list jstr :=
  map g_id (List.filter (fun g => memb (g_id g) groupIDs) (accessible s)) ++
  (if existsb is_official groupIDs then map g_id (officials s) else []).

(** The rows that are written: priorities count from one. *)
Definition member_rows (ids : list jstr) : Rows := imap (fun i id => (id, Z.of_nat i + 1)%Z) ids.

Definition row_le (a b : jstr * Z) : bool := (snd a <=? snd b)%Z.

(** [Order("priority asc")], and a row without a priority takes its place. *)
Definition selection (rows : Rows) : Rows :=
  imap (fun i r => (fst r, if (snd r <=? 0)%Z then (Z.of_nat i + 1)%Z else snd r)) (stable_sort row_le rows).

(** Groups that are gone are removed from every pool. *)
Definition stale (sel : Rows) (s : Server) : list jstr :=
  List.filter (fun id => negb (is_official id) && negb (memb id (existing s))) (map fst sel).

Definition keep_rows (gone : list jstr) (rows : Rows) : Rows :=
  List.filter (fun r => negb (memb (fst r) gone)) rows.

Definition with_pools (ps : list Pool) (s : Server) : Server :=
  {| existing := existing s; accessible := accessible s; officials := officials s; rank := rank s;
     pools := ps; auto_members := auto_members s; auto_config := auto_config s |}.
Definition with_auto (rows : Rows) (c : PoolConfig) (s : Server) : Server :=
  {| existing := existing s; accessible := accessible s; officials := officials s; rank := rank s;
     pools := pools s; auto_members := rows; auto_config := c |}.
Definition with_members (rows : Rows) (p : Pool) : Pool :=
  {| pool_id := pool_id p; pool_name := pool_name p; pool_strategy := pool_strategy p;
     pool_attempts := pool_attempts p; pool_cooldown := pool_cooldown p; pool_ceiling := pool_ceiling p;
     pool_members := rows |}.

Definition pruneInactiveRoutePoolGroups (sel : Rows) (s : Server) : Server * Rows :=
  match stale sel s with
  | [] => (s, sel)
  | gone =>
      (with_auto (keep_rows gone (auto_members s)) (auto_config s)
         (with_pools (map (fun p => with_members (keep_rows gone (pool_members p)) p) (pools s)) s),
       keep_rows gone sel)
  end.

Definition find_pool (id : jstr) (s : Server) : option Pool := List.find (fun p => pool_id p =s id) (pools s).

Definition loadRoutePool (id : jstr) (s : Server) : Server * option (Pool * Rows) :=
  match find_pool (TrimSpace id) s with
  | None => (s, None)
  | Some p => let '(s', sel) := pruneInactiveRoutePoolGroups (selection (pool_members p)) s in (s', Some (p, sel))
  end.

Definition routePoolConfig (p : Pool) : PoolConfig :=
  normalizeAutoRoutePoolConfig
    (Some {| strategy := pool_strategy p; max_attempts := pool_attempts p;
             failure_cooldown_seconds := pool_cooldown p; max_multiplier := pool_ceiling p;
             weights := {| w_multiplier := 0; w_success := 0; w_cache := 0; w_ttft := 0 |} |}).

(** ** Lists *)

Definition priority_of (id : jstr) (sel : Rows) : option Z :=
  option_map snd (List.find (fun r => fst r =s id) sel).

Definition item (official : bool) (sel : Rows) (g : Group) : Item :=
  {| group_id := g_id g; i_official := official; multiplier := g_multiplier g; i_models := g_models g;
     selected := match priority_of (g_id g) sel with Some _ => true | None => false end;
     priority := or_zero (priority_of (g_id g) sel) 0%Z |}.

(** What is selected comes first, by its priority. *)
Definition item_le (rank : jstr -> Z) (a b : Item) : bool :=
  if Bool.eqb (selected a) (selected b) then
    if selected a && negb (priority a =? priority b)%Z then (priority a <=? priority b)%Z
    else (rank (group_id a) <=? rank (group_id b))%Z
  else selected a.

Definition within (c : PoolConfig) (g : Group) : bool :=
  negb (SFltb zero (max_multiplier c) && negb (MultiplierWithinLimit (g_multiplier g) (max_multiplier c))).

Definition buildRoutePoolItems (sel : Rows) (c : PoolConfig) (s : Server) : list Item :=
  stable_sort (item_le (rank s))
    (map (item false sel) (List.filter (within c) (accessible s)) ++ map (item true sel) (officials s)).

Definition not_found : jstr := "record not found".

Definition ListRoutePool (id : jstr) (s : Server) : Server * answer Detail :=
  let '(s, found) := loadRoutePool id s in
  match found with
  | None => (s, Err not_found)
  | Some (p, sel) =>
      (s, Ok {| d_id := pool_id p; d_name := pool_name p; d_selected_count := Z.of_nat (length sel);
                d_items := Some (buildRoutePoolItems sel (routePoolConfig p) s); d_config := routePoolConfig p |})
  end.

Definition ListRoutePools (s : Server) : Server * list Summary :=
  let '(s', _) := pruneInactiveRoutePoolGroups (concat (map pool_members (pools s))) s in
  (s', map (fun p => {| s_id := pool_id p; s_name := pool_name p;
                        s_member_count := Z.of_nat (length (pool_members p)) |}) (pools s')).

Definition ListAutoRoutePool (s : Server) : Server * Detail :=
  let '(s, sel) := pruneInactiveRoutePoolGroups (selection (auto_members s)) s in
  let items := stable_sort (item_le (rank s))
                 (map (item false sel) (accessible s) ++ map (item true sel) (officials s)) in
  (s, {| d_id := "auto"; d_name := [];
         d_selected_count := Z.of_nat (length (List.filter selected items));
         d_items := Some items; d_config := normalizeAutoRoutePoolConfig (Some (auto_config s)) |}).

(** ** Changes *)

Record Update := { u_id : jstr; u_name : option jstr; u_groupIds : list jstr; u_config : option ConfigPatch }.
Record Creation := { c_name : jstr; c_groupIds : list jstr; c_config : option ConfigPatch }.

Definition replace_pool (id : jstr) (q : Pool) (s : Server) : Server :=
  with_pools (map (fun p => if pool_id p =s id then q else p) (pools s)) s.

(** The name is unique; [uq_marketplace_route_pool_name]. *)
Definition name_taken (id name : jstr) (s : Server) : bool :=
  existsb (fun p => negb (pool_id p =s id) && (pool_name p =s name)) (pools s).

Definition UpdateRoutePool (u : Update) (s : Server) : Server * answer Detail :=
  let '(s, found) := loadRoutePool (u_id u) s in
  match found with
  | None => (s, Err not_found)
  | Some (p, _) =>
      let groupIDs := normalizeAutoRouteGroupIDs (u_groupIds u) in
      if maxAutoRoutePoolMembers <? length groupIDs then (s, Err "路由池最多可添加 10 个分组")
      else if negb (forallb (fun id => memb id (eligible groupIDs s)) groupIDs) then
        (s, Err "路由池包含不可用或无权访问的分组")
      else
        let config := match u_config u with
                      | Some c => normalizeAutoRoutePoolConfig (Some (decode_config c))
                      | None => routePoolConfig p
                      end in
        let name := TrimSpace (or_zero (u_name u) []) in
        if 64 <? rune_count name then (s, Err "路由池名称不能超过 64 个字符")
        else
          let name := if truthy name then name else pool_name p in
          if name_taken (pool_id p) name s then (s, Err "duplicate key value violates unique constraint")
          else
            ListRoutePool (pool_id p)
              (replace_pool (pool_id p)
                 {| pool_id := pool_id p; pool_name := name; pool_strategy := strategy config;
                    pool_attempts := max_attempts config; pool_cooldown := failure_cooldown_seconds config;
                    pool_ceiling := max_multiplier config; pool_members := member_rows groupIDs |} s)
  end.

(** [uuid] is the identifier that the server draws. *)
Definition CreateRoutePool (uuid : jstr) (c : Creation) (s : Server) : Server * answer Detail :=
  let name := TrimSpace (c_name c) in
  if negb (truthy name) || (64 <? rune_count name) then (s, Err "路由池名称需为 1-64 个字符")
  else
    let groupIDs := normalizeAutoRouteGroupIDs (c_groupIds c) in
    if maxAutoRoutePoolMembers <? length groupIDs then (s, Err "路由池最多可添加 10 个分组")
    else if maxNamedRoutePools <=? length (pools s) then (s, Err "每个用户最多创建 20 个路由池")
    else
      let config := normalizeAutoRoutePoolConfig (option_map decode_config (c_config c)) in
      let valid := List.filter (fun id => memb id (eligible groupIDs s)) groupIDs in
      if truthy_list groupIDs && negb (truthy_list valid) then (s, Err "没有可用的分组可加入路由池")
      else if name_taken uuid name s then (s, Err "路由池名称已存在，请使用其他名称")
      else
        (with_pools (pools s ++ [{| pool_id := uuid; pool_name := name; pool_strategy := strategy config;
                                    pool_attempts := max_attempts config;
                                    pool_cooldown := failure_cooldown_seconds config;
                                    pool_ceiling := max_multiplier config; pool_members := member_rows valid |}]) s,
         Ok {| d_id := uuid; d_name := name; d_selected_count := Z.of_nat (length valid);
               d_items := None; d_config := config |}).

Definition DeleteRoutePool (id : jstr) (s : Server) : Server * answer unit :=
  let '(s, found) := loadRoutePool id s in
  match found with
  | None => (s, Ok tt)
  | Some (p, _) => (with_pools (List.filter (fun q => negb (pool_id q =s pool_id p)) (pools s)) s, Ok tt)
  end.

Definition ReplaceAutoRoutePool (groupIds : list jstr) (config : option ConfigPatch) (s : Server) :
    Server * answer Detail :=
  let groupIDs := normalizeAutoRouteGroupIDs groupIds in
  if maxAutoRoutePoolMembers <? length groupIDs then (s, Err "全局 Auto 路由池最多可添加 10 个分组")
  else
    match List.find (fun id => negb (memb id (eligible groupIDs s))) groupIDs with
    | Some id => (s, Err ("路由池包含失效或无权访问的分组：" ++ id))
    | None =>
        let '(s, d) := ListAutoRoutePool
          (with_auto (member_rows groupIDs) (normalizeAutoRoutePoolConfig (option_map decode_config config)) s) in
        (s, Ok d)
    end.

(** ** What a client relies on *)

Class PoolApi (S : Type) := {
  api_list : S -> S * list Summary;
  api_detail : jstr -> S -> S * answer Detail;
  api_auto : S -> S * Detail;
  api_update : Update -> S -> S * answer Detail;
  api_create : jstr -> Creation -> S -> S * answer Detail;
  api_delete : jstr -> S -> S * answer unit;
  api_auto_update : list jstr -> option ConfigPatch -> S -> S * answer Detail;
}.

Definition has_unit (u : N) (s : jstr) : bool := existsb (N.eqb u) s.

(** Identifiers are not empty; those of groups have no comma and no space at an end, those
    of pools no colon and no space. *)
Definition group_id_ok (id : jstr) : bool := truthy id && negb (has_unit 44 id) && (TrimSpace id =s id).
Definition pool_id_ok (id : jstr) : bool := truthy id && negb (has_unit 58 id) && negb (existsb go_space id).

(** Configurations are answered as they are normalized. *)
Definition config_ok (c : PoolConfig) : Prop := normalizeAutoRoutePoolConfig (Some c) = c.

Definition detail_ok (d : Detail) : Prop :=
  pool_id_ok (d_id d) = true /\ config_ok (d_config d) /\
  match d_items d with
  | Some items => NoDup (map group_id items) /\ Forall (fun i => group_id_ok (group_id i) = true) items
  | None => True
  end.

Definition answer_ok (a : answer Detail) : Prop := match a with Ok d => detail_ok d | Err _ => True end.

Definition summary_ok (x : Summary) : Prop := pool_id_ok (s_id x) = true.

(** The server keeps an invariant of its own and lists every group once. *)
Class PoolApiLaws (S : Type) {A : PoolApi S} (ok : S -> Prop) : Prop := {
  law_list s : ok s -> ok (fst (api_list s)) /\ Forall summary_ok (snd (api_list s));
  law_detail id s : ok s -> ok (fst (api_detail id s)) /\ answer_ok (snd (api_detail id s));
  law_auto s : ok s -> ok (fst (api_auto s)) /\ detail_ok (snd (api_auto s));
  law_update u s : ok s -> ok (fst (api_update u s)) /\ answer_ok (snd (api_update u s));
  law_create uuid c s : ok s -> pool_id_ok uuid = true ->
    ok (fst (api_create uuid c s)) /\ answer_ok (snd (api_create uuid c s));
  law_delete id s : ok s -> ok (fst (api_delete id s));
  law_auto_update ids c s : ok s -> ok (fst (api_auto_update ids c s)) /\ answer_ok (snd (api_auto_update ids c s));
}.

#[export] Instance go_server : PoolApi Server := {
  api_list := ListRoutePools;
  api_detail := ListRoutePool;
  api_auto := ListAutoRoutePool;
  api_update := UpdateRoutePool;
  api_create := CreateRoutePool;
  api_delete := DeleteRoutePool;
  api_auto_update := ReplaceAutoRoutePool;
}.

(** The groups are listed once, the official ones apart, and those that may be routed to
    exist. *)
Record server_ok (s : Server) : Prop := {
  so_groups : NoDup (map g_id (accessible s ++ officials s));
  so_ids : Forall (fun g => group_id_ok (g_id g) = true) (accessible s ++ officials s);
  so_exist : Forall (fun g => In (g_id g) (existing s)) (accessible s);
  so_official : Forall (fun g => is_official (g_id g) = true) (officials s);
  so_pools : Forall (fun p => pool_id_ok (pool_id p) = true) (pools s);
}.

Lemma normalize_ceiling_idem m : normalize_ceiling (normalize_ceiling m) = normalize_ceiling m.
Proof.
  unfold normalize_ceiling at 2 3. destruct (SFltb zero m && SFltb m smallest_ceiling) eqn:E; [by vm_compute|].
  destruct (SFltb m zero) eqn:L; [by vm_compute|]. unfold normalize_ceiling. by rewrite E, L.
Qed.

Lemma normalize_weights_idem w : normalize_weights (normalize_weights w) = normalize_weights w.
Proof.
  unfold normalize_weights at 2 3. cbv zeta. destruct (_ =? 0)%Z eqn:E; [by vm_compute|].
  unfold normalize_weights. cbv zeta. cbn [w_multiplier w_success w_cache w_ttft] in *.
  rewrite !(Z.max_r 0 (Z.max 0 _)) by lia. by rewrite E.
Qed.

Lemma normalize_idem c : config_ok (normalizeAutoRoutePoolConfig c).
Proof.
  unfold config_ok, normalizeAutoRoutePoolConfig. cbn [or_zero strategy max_attempts failure_cooldown_seconds max_multiplier weights].
  rewrite normalize_ceiling_idem, normalize_weights_idem. f_equal.
  - destruct (memb (strategy (or_zero c default_config)) STRATEGIES) eqn:E; [by rewrite E | done].
  - destruct ((max_attempts _ <? 1) || _)%Z eqn:E; [done | by rewrite E].
  - destruct ((failure_cooldown_seconds _ <? 5) || _)%Z eqn:E; [done | by rewrite E].
Qed.

Lemma with_auto_ok rows c s : server_ok s -> server_ok (with_auto rows c s).
Proof. intros [A B C D E]. by split. Qed.

Lemma with_pools_ok ps s : server_ok s -> Forall (fun p => pool_id_ok (pool_id p) = true) ps ->
  server_ok (with_pools ps s).
Proof. intros [A B C D E] F. by split. Qed.

Lemma pruned_ok sel s : server_ok s -> server_ok (fst (pruneInactiveRoutePoolGroups sel s)).
Proof.
  intros H. unfold pruneInactiveRoutePoolGroups. destruct (stale sel s); [done|]. cbn [fst].
  apply with_auto_ok, with_pools_ok; [done|]. apply Forall_map. exact (so_pools _ H).
Qed.

Lemma find_pool_ok id s p : server_ok s -> find_pool id s = Some p -> pool_id_ok (pool_id p) = true.
Proof.
  intros H F. apply List.find_some in F as [Hin _]. pose proof (so_pools _ H) as Hp.
  rewrite List.Forall_forall in Hp. by apply Hp.
Qed.

Lemma loaded_ok id s : server_ok s ->
  server_ok (fst (loadRoutePool id s)) /\
  forall p sel, snd (loadRoutePool id s) = Some (p, sel) -> pool_id_ok (pool_id p) = true.
Proof.
  intros H. unfold loadRoutePool. destruct (find_pool (TrimSpace id) s) as [p|] eqn:F; [|done].
  pose proof (pruned_ok (selection (pool_members p)) s H) as P.
  destruct (pruneInactiveRoutePoolGroups _ s) as [s' sel']. split; [done|]. intros q sel [= -> ->].
  by apply (find_pool_ok (TrimSpace id) s).
Qed.

Lemma filter_map_sublist {A B} (f : A -> B) (P : A -> bool) l : sublist (map f (List.filter P l)) (map f l).
Proof.
  induction l as [|x l IH]; [constructor|]. cbn [List.filter map]. destruct (P x); [by apply sublist_skip | by apply sublist_cons].
Qed.

(** The lists name the groups of the server, each once. *)
Lemma items_ok le sel (P : Group -> bool) s : server_ok s ->
  let items := stable_sort le (map (item false sel) (List.filter P (accessible s)) ++ map (item true sel) (officials s)) in
  NoDup (map group_id items) /\ Forall (fun i => group_id_ok (group_id i) = true) items.
Proof.
  intros H items. pose proof (stable_sort_Permutation le (map (item false sel) (List.filter P (accessible s)) ++ map (item true sel) (officials s))) as Hp.
  fold items in Hp. split.
  - rewrite Hp, map_app, !map_map. cbn [group_id item]. pose proof (so_groups _ H) as N. rewrite map_app in N.
    apply NoDup_app in N as (N1 & N2 & N3). apply NoDup_app. split; [|split]; [| |done].
    + apply (sublist_NoDup _ _ N1), filter_map_sublist.
    + intros x Hx. apply N2. apply list_elem_of_In in Hx. apply list_elem_of_In.
      apply in_map_iff in Hx as (g & <- & Hg). apply filter_In in Hg as [Hg _]. by apply in_map.
  - rewrite Hp. pose proof (so_ids _ H) as I. apply Forall_app in I as [I1 I2]. apply Forall_app. split.
    + apply Forall_map. cbn [group_id item]. rewrite List.Forall_forall in I1 |- *. intros g Hg.
      apply filter_In in Hg as [Hg _]. by apply I1.
    + by apply Forall_map.
Qed.

Lemma ListRoutePool_ok id s : server_ok s ->
  server_ok (fst (ListRoutePool id s)) /\ answer_ok (snd (ListRoutePool id s)).
Proof.
  intros H. unfold ListRoutePool. pose proof (loaded_ok id s H) as [L1 L2].
  destruct (loadRoutePool id s) as [s' [[p sel]|]]; cbn [fst snd] in *; [|done].
  split; [done|]. split; [by apply (L2 p sel)|]. split; [apply normalize_idem|]. cbn [d_items]. by apply items_ok.
Qed.

Lemma listed_ok s : server_ok s ->
  server_ok (fst (ListRoutePools s)) /\ Forall summary_ok (snd (ListRoutePools s)).
Proof.
  intros H. unfold ListRoutePools. pose proof (pruned_ok (concat (map pool_members (pools s))) s H) as P.
  destruct (pruneInactiveRoutePoolGroups _ s) as [s' sel]. split; [done|]. apply Forall_map. exact (so_pools _ P).
Qed.

Lemma ListAuto_ok s : server_ok s -> server_ok (fst (ListAutoRoutePool s)) /\ detail_ok (snd (ListAutoRoutePool s)).
Proof.
  intros H. unfold ListAutoRoutePool. pose proof (pruned_ok (selection (auto_members s)) s H) as P.
  destruct (pruneInactiveRoutePoolGroups _ s) as [s' sel]. split; [done|]. split; [done|]. split; [apply normalize_idem|]. cbn [snd d_items].
  assert (map (item false sel) (accessible s') = map (item false sel) (List.filter (fun _ => true) (accessible s'))) as ->.
  { f_equal. induction (accessible s') as [|x l IH]; [done|]. cbn [List.filter]. by rewrite <- IH. }
  by apply items_ok.
Qed.

Lemma replaced_ok id q s : server_ok s -> pool_id_ok (pool_id q) = true -> server_ok (replace_pool id q s).
Proof.
  intros H Hq. apply with_pools_ok; [done|]. apply Forall_map. apply (Forall_impl _ _ _ (so_pools _ H)).
  intros p Hp. by destruct (pool_id p =s id).
Qed.

Lemma UpdateRoutePool_ok u s : server_ok s ->
  server_ok (fst (UpdateRoutePool u s)) /\ answer_ok (snd (UpdateRoutePool u s)).
Proof.
  intros H. unfold UpdateRoutePool. pose proof (loaded_ok (u_id u) s H) as [L1 L2].
  destruct (loadRoutePool (u_id u) s) as [s' [[p sel]|]]; cbn [fst snd] in *; [|done].
  destruct (_ <? _); [done|]. destruct (negb _); [done|]. destruct (64 <? _); [done|].
  destruct (name_taken _ _ _); [done|]. apply ListRoutePool_ok, replaced_ok; [done|]. by apply (L2 p sel).
Qed.

Lemma CreateRoutePool_ok uuid c s : server_ok s -> pool_id_ok uuid = true ->
  server_ok (fst (CreateRoutePool uuid c s)) /\ answer_ok (snd (CreateRoutePool uuid c s)).
Proof.
  intros H Hu. unfold CreateRoutePool. cbv zeta. destruct (_ || _); [done|]. destruct (_ <? _); [done|].
  destruct (_ <=? _); [done|]. destruct (_ && _); [done|]. destruct (name_taken _ _ _); [done|]. cbn [fst snd].
  split; [|by repeat split; [|apply normalize_idem]]. apply with_pools_ok; [done|]. apply Forall_app. split; [exact (so_pools _ H)|]. by constructor.
Qed.

Lemma DeleteRoutePool_ok id s : server_ok s -> server_ok (fst (DeleteRoutePool id s)).
Proof.
  intros H. unfold DeleteRoutePool. pose proof (loaded_ok id s H) as [L1 _].
  destruct (loadRoutePool id s) as [s' [[p sel]|]]; cbn [fst] in *; [|done].
  apply with_pools_ok; [done|]. pose proof (so_pools _ L1) as P. rewrite List.Forall_forall in P |- *.
  intros q Hq. apply filter_In in Hq as [Hq _]. by apply P.
Qed.

Lemma ReplaceAuto_ok ids c s : server_ok s ->
  server_ok (fst (ReplaceAutoRoutePool ids c s)) /\ answer_ok (snd (ReplaceAutoRoutePool ids c s)).
Proof.
  intros H. unfold ReplaceAutoRoutePool. cbv zeta. destruct (_ <? _); [done|]. destruct (List.find _ _); [done|].
  pose proof (ListAuto_ok (with_auto (member_rows (normalizeAutoRouteGroupIDs ids))
                             (normalizeAutoRoutePoolConfig (option_map decode_config c)) s) (with_auto_ok _ _ _ H)) as [A B].
  destruct (ListAutoRoutePool _) as [s' d]. done.
Qed.

(** The server keeps what the clients rely on. *)
#[export] Instance go_server_laws : PoolApiLaws Server server_ok.
Proof.
  split; cbn [go_server api_list api_detail api_auto api_update api_create api_delete api_auto_update];
    eauto using listed_ok, ListRoutePool_ok, ListAuto_ok, UpdateRoutePool_ok, CreateRoutePool_ok, DeleteRoutePool_ok, ReplaceAuto_ok.
Qed.

(** ** The order of the members *)

Definition prio_le (a b : Item) : bool := (priority a <=? priority b)%Z.

Definition row_lt (a b : jstr * Z) : Prop := (snd a < snd b)%Z.

(** Rows as they are written: every group once, the priorities strictly increasing. *)
Definition rows_ok (rows : Rows) : Prop :=
  NoDup (map fst rows) /\ StronglySorted row_lt rows /\ Forall (fun r => (0 < snd r)%Z) rows.

Lemma member_rows_from ids : forall k,
  let rows := imap (fun i id => (id, Z.of_nat (k + i) + 1)%Z) ids in
  map fst rows = ids /\ StronglySorted row_lt rows /\ Forall (fun r => (Z.of_nat k < snd r)%Z) rows.
Proof.
  induction ids as [|x ids IH]; intros k; [by repeat constructor|]. cbn [imap].
  assert (imap ((fun i id => (id, Z.of_nat (k + i) + 1)%Z) ∘ S) ids = imap (fun i id => (id, Z.of_nat (S k + i) + 1)%Z) ids) as ->.
  { apply imap_ext. intros i id _. unfold compose. by rewrite Nat.add_succ_r. }
  destruct (IH (S k)) as (A & B & C). cbn [map fst]. split; [by rewrite A|]. split.
  - constructor; [done|]. apply (Forall_impl _ _ _ C). intros r Hr. unfold row_lt. cbn [snd]. lia.
  - constructor; [cbn [snd]; lia|]. apply (Forall_impl _ _ _ C). intros r Hr. lia.
Qed.

Lemma member_rows_ids ids : map fst (member_rows ids) = ids.
Proof. exact (proj1 (member_rows_from ids 0)). Qed.

Lemma member_rows_ok ids : NoDup ids -> rows_ok (member_rows ids).
Proof.
  intros H. destruct (member_rows_from ids 0) as (A & B & C). split; [by rewrite member_rows_ids|]. by split.
Qed.

Lemma rows_sorted rows : rows_ok rows -> sorted_by row_le rows.
Proof.
  intros (_ & H & _). unfold sorted_by. induction H as [|r rows H IH F]; constructor; [done|].
  apply (Forall_impl _ _ _ F). unfold row_lt, row_le. intros; lia.
Qed.

Lemma selection_rows rows : rows_ok rows -> selection rows = rows.
Proof.
  intros H. unfold selection. rewrite stable_sort_id by by apply rows_sorted. destruct H as (_ & _ & P).
  assert (forall k, imap (fun i r => (fst r, if (snd r <=? 0)%Z then (Z.of_nat (k + i) + 1)%Z else snd r)) rows = rows) as G;
    [|exact (G 0)].
  induction P as [|[x z] rows Hz P IH]; intros k; [done|]. cbn [imap fst snd] in *.
  destruct (Z.leb_spec z 0); [lia|]. f_equal. rewrite <- (IH (S k)) at 2. apply imap_ext.
  intros i r _. unfold compose. by rewrite Nat.add_succ_r.
Qed.

Lemma keep_rows_ok gone rows : rows_ok rows -> rows_ok (keep_rows gone rows).
Proof.
  intros (A & B & C). unfold keep_rows. split; [|split].
  - exact (sublist_NoDup _ _ A (filter_map_sublist _ _ _)).
  - induction B as [|r rows B IH F]; [constructor|]. apply NoDup_cons in A as [_ A]. apply Forall_cons in C as [_ C].
    cbn [List.filter]. destruct (negb _); [|by apply IH]. constructor; [by apply IH|].
    rewrite List.Forall_forall in F |- *. intros q Hq. apply filter_In in Hq as [Hq _]. by apply F.
  - rewrite List.Forall_forall in C |- *. intros q Hq. apply filter_In in Hq as [Hq _]. by apply C.
Qed.

Lemma priority_of_In id z rows : NoDup (map fst rows) -> priority_of id rows = Some z <-> In (id, z) rows.
Proof.
  unfold priority_of. induction rows as [|[x y] rows IH]; cbn [map List.find In fst]; [done|].
  intros [Hx N]%NoDup_cons. destruct (seqb_spec x id) as [->|Hne].
  - cbn [option_map snd]. split; [intros [= ->]; by left|]. intros [[= ->]|Hin]; [done|].
    destruct Hx. apply list_elem_of_In, in_map_iff. by exists (id, z).
  - rewrite (IH N). split; [by right|]. by intros [[= -> _]|].
Qed.

Lemma row_same rows a b : StronglySorted row_lt rows -> In a rows -> In b rows -> snd a = snd b -> a = b.
Proof.
  induction 1 as [|r rows H IH F]; [done|]. rewrite List.Forall_forall in F. unfold row_lt in F.
  intros [->|Ha] [->|Hb] E; [done | apply F in Hb; lia | apply F in Ha; lia | by apply IH].
Qed.

(** The selected items of a list, by their priority, are the members that it names. *)
Lemma built_order le sel (P : Group -> bool) s : server_ok s -> rows_ok sel ->
  let items := stable_sort le (map (item false sel) (List.filter P (accessible s)) ++ map (item true sel) (officials s)) in
  map group_id (stable_sort prio_le (List.filter selected items)) =
  map fst (List.filter (fun r => memb (fst r) (map g_id (List.filter P (accessible s) ++ officials s))) sel).
Proof.
  intros H (N & S & _) items. set (vis := map g_id (List.filter P (accessible s) ++ officials s)).
  destruct (items_ok le sel P s H) as [Ni _]. fold items in Ni.
  set (L := stable_sort prio_le (List.filter selected items)).
  set (pair := fun i : Item => (group_id i, priority i)).
  assert (map group_id L = map fst (map pair L)) as -> by by rewrite map_map. f_equal.
  assert (forall r, In r (map pair L) <-> In r sel /\ memb (fst r) vis = true) as E.
  { intros [id z]. rewrite <- (priority_of_In id z sel N), memb_In. cbn [fst]. unfold L, pair, vis. split.
    - intros (i & [= <- <-] & Hi)%in_map_iff. apply stable_sort_In, filter_In in Hi as [Hi Hs].
      unfold items in Hi. apply stable_sort_In, in_app_iff in Hi.
      assert (exists b g, i = item b sel g /\ In g (List.filter P (accessible s) ++ officials s)) as (b & g & -> & Hg).
      { rewrite !in_map_iff in Hi. destruct Hi as [(g & <- & Hg)|(g & <- & Hg)];
          [exists false, g | exists true, g]; (split; [done|]); apply in_app_iff; [by left | by right]. }
      cbn [group_id selected priority item] in *. destruct (priority_of (g_id g) sel); [|done].
      split; [done|]. by apply in_map.
    - intros [E (g & <- & Hg)%in_map_iff]. apply in_app_iff in Hg.
      assert (exists b, In (item b sel g) items) as [b Hb].
      { unfold items. destruct Hg as [Hg|Hg]; [exists false | exists true]; apply stable_sort_In, in_app_iff;
          [left | right]; by apply in_map. }
      apply in_map_iff. exists (item b sel g). cbn [group_id priority item]. rewrite E. split; [done|].
      apply stable_sort_In, filter_In. cbn [selected item]. by rewrite E. }
  assert (forall r, In r (List.filter (fun r => memb (fst r) vis) sel) <-> In r sel /\ memb (fst r) vis = true) as E'
    by (intros r; apply filter_In).
  apply (StronglySorted_unique_strong (fun a b => snd a <= snd b)%Z).
  - intros a b Ha Hb H1 H2. apply list_elem_of_In, E in Ha as [Ha _]. apply list_elem_of_In, E' in Hb as [Hb _].
    apply (row_same sel); [done | done | done | lia].
  - pose proof (stable_sort_sorted prio_le ltac:(unfold prio_le; lia) ltac:(unfold prio_le; lia) (List.filter selected items)) as Hs.
    fold L in Hs. unfold sorted_by in Hs. clearbody L. clear -Hs. induction Hs as [|i L Hs IH F]; [constructor|].
    constructor; [done|]. apply Forall_map. apply (Forall_impl _ _ _ F). unfold prio_le. cbn [pair snd]. intros; lia.
  - clear -S. induction S as [|r rows S IH F]; [constructor|]. cbn [List.filter]. destruct (memb _ _); [|done].
    constructor; [done|]. rewrite List.Forall_forall in F |- *. intros q Hq. apply filter_In in Hq as [Hq _].
    apply F in Hq. unfold row_lt in Hq. lia.
  - apply NoDup_Permutation.
    + apply (NoDup_fmap_1 fst). change (fst <$> map pair L) with (map fst (map pair L)). rewrite map_map. cbn [pair fst].
      unfold L. rewrite stable_sort_Permutation. exact (sublist_NoDup _ _ Ni (filter_map_sublist _ _ _)).
    + apply (NoDup_fmap_1 fst). exact (sublist_NoDup _ _ N (filter_map_sublist _ _ _)).
    + intros r. by rewrite !list_elem_of_In, E, E'.
Qed.

(** ** Accepted and refused changes *)

Lemma TrimSpace_id s : existsb go_space s = false -> TrimSpace s = s.
Proof.
  intros H. assert (forall l, existsb go_space l = false -> drop_space l = l) as D.
  { intros l. destruct l as [|c l]; cbn [existsb drop_space]; [done|]. by intros [-> _]%orb_false_iff. }
  unfold TrimSpace. rewrite (D s H), D; [by apply rev_involutive|].
  rewrite <- not_true_iff_false, existsb_exists in H |- *. intros (c & Hc & E). apply H. exists c. by rewrite in_rev.
Qed.

Lemma drop_space_idem s : drop_space (drop_space s) = drop_space s.
Proof.
  induction s as [|c s IH]; [done|]. cbn [drop_space]. destruct (go_space c) eqn:E; [done|].
  cbn [drop_space]. by rewrite E.
Qed.

Lemma drop_space_app x y :
  drop_space (x ++ y) = match drop_space x with [] => drop_space y | z => z ++ y end.
Proof.
  induction x as [|c x IH]; [done|]. cbn [app drop_space]. by destruct (go_space c).
Qed.

(** A text that begins with something whose ends are no space still does when trimmed. *)
Lemma TrimSpace_prefix p s :
  drop_space (rev p) = rev p -> drop_space p = p -> p <> [] ->
  startsWith s p = true -> startsWith (TrimSpace s) p = true.
Proof.
  intros He Hs Hp [r ->]%startsWith_true. unfold TrimSpace. rewrite drop_space_app, Hs.
  destruct p as [|c p]; [done|]. rewrite rev_app_distr, drop_space_app.
  apply startsWith_true. exists (rev (drop_space (rev r))). rewrite He.
  destruct (drop_space (rev r)) as [|x l] eqn:E; [by rewrite rev_involutive, app_nil_r|].
  by rewrite rev_app_distr, rev_involutive.
Qed.

Lemma TrimSpace_idem s : TrimSpace (TrimSpace s) = TrimSpace s.
Proof.
  unfold TrimSpace. set (u := drop_space s).
  assert (drop_space (rev (drop_space (rev u))) = rev (drop_space (rev u))) as ->;
    [|by rewrite rev_involutive, drop_space_idem].
  assert (exists w, u = rev (drop_space (rev u)) ++ w) as [w Hw].
  { assert (forall t, exists v, t = v ++ drop_space t) as D.
    { induction t as [|c t [v IH]]; [by exists []|]. cbn [drop_space]. destruct (go_space c).
      - exists (c :: v). cbn [app]. by rewrite <- IH.
      - by exists []. }
    destruct (D (rev u)) as [v E]. exists (rev v). by rewrite <- rev_app_distr, <- E, rev_involutive. }
  destruct (rev (drop_space (rev u))) as [|c l]; [done|]. cbn [drop_space].
  destruct (go_space c) eqn:E; [|done]. exfalso.
  assert (drop_space u = u) as Hu by apply drop_space_idem. rewrite Hw in Hu. cbn [app drop_space] in Hu.
  rewrite E in Hu. assert (length (drop_space (l ++ w)) <= length (l ++ w)) as L.
  { clear. induction (l ++ w) as [|x y IH]; [done|]. cbn [drop_space]. destruct (go_space x); cbn; lia. }
  rewrite Hu in L. cbn in L. lia.
Qed.

Lemma pool_id_trimmed id : pool_id_ok id = true -> TrimSpace id = id.
Proof. unfold pool_id_ok. intros H. apply andb_prop in H as [_ H%negb_true_iff]. by apply TrimSpace_id. Qed.

Lemma find_replaced id p q s : find_pool id s = Some p -> pool_id q = id -> find_pool id (replace_pool id q s) = Some q.
Proof.
  unfold find_pool, replace_pool. cbn [pools with_pools]. intros F Hq.
  induction (pools s) as [|x ps IH]; [done|]. cbn [map List.find] in *.
  destruct (pool_id x =s id) eqn:E; [by rewrite Hq, seqb_refl | by rewrite E; apply IH].
Qed.

Lemma eligible_stale ids s : server_ok s -> forallb (fun id => memb id (eligible ids s)) ids = true ->
  NoDup ids -> stale (member_rows ids) s = [].
Proof.
  intros H F N. unfold stale. rewrite member_rows_ids.
  rewrite forallb_forall in F. pose proof (so_exist _ H) as X. pose proof (so_official _ H) as O.
  rewrite List.Forall_forall in X, O.
  destruct (List.filter _ ids) as [|id l] eqn:E; [done|].
  assert (In id (id :: l)) as Hin by by left. rewrite <- E in Hin. apply filter_In in Hin as [Hin Hb].
  apply F in Hin. apply memb_In in Hin. apply andb_prop in Hb as [B1%negb_true_iff B2%negb_true_iff].
  apply memb_not_In in B2. exfalso. unfold eligible in Hin. apply in_app_iff in Hin as [Hin|Hin].
  - apply in_map_iff in Hin as (g & <- & Hg). apply filter_In in Hg as [Hg _]. by apply B2, X.
  - destruct (existsb _ _); [|done]. apply in_map_iff in Hin as (g & <- & Hg). apply O in Hg. by rewrite Hg in B1.
Qed.

(** What an update writes over a pool. *)
Definition updated_pool (u : Update) (p : Pool) : Pool :=
  let config := match u_config u with
                | Some c => normalizeAutoRoutePoolConfig (Some (decode_config c))
                | None => routePoolConfig p end in
  let name := TrimSpace (or_zero (u_name u) []) in
  {| pool_id := pool_id p; pool_name := if truthy name then name else pool_name p;
     pool_strategy := strategy config; pool_attempts := max_attempts config;
     pool_cooldown := failure_cooldown_seconds config; pool_ceiling := max_multiplier config;
     pool_members := member_rows (normalizeAutoRouteGroupIDs (u_groupIds u)) |}.

Lemma normalized_NoDup ids : NoDup (normalizeAutoRouteGroupIDs ids).
Proof. apply NoDup_ListNoDup, uniq_NoDup. Qed.

Lemma find_pruned sel id s p : find_pool id s = Some p ->
  exists rows, find_pool id (fst (pruneInactiveRoutePoolGroups sel s)) = Some (with_members rows p).
Proof.
  intros F. unfold pruneInactiveRoutePoolGroups. destruct (stale sel s) as [|x gone]; cbn [fst].
  - exists (pool_members p). rewrite F. by destruct p.
  - unfold find_pool in *. cbn [pools with_auto with_pools]. induction (pools s) as [|y ps IH]; [done|].
    cbn [map List.find] in *. destruct (pool_id y =s id) eqn:E.
    + injection F as ->. cbn [with_members pool_id]. rewrite E. by eexists.
    + cbn [with_members pool_id]. rewrite E. by apply IH.
Qed.

Lemma routePoolConfig_members rows p : routePoolConfig (with_members rows p) = routePoolConfig p.
Proof. done. Qed.

(** An accepted update: the pool is the one that was asked for, and the answer shows it. *)
Lemma update_accepted u s s' d : server_ok s -> UpdateRoutePool u s = (s', Ok d) ->
  let ids := normalizeAutoRouteGroupIDs (u_groupIds u) in
  exists p, find_pool (TrimSpace (u_id u)) s = Some p /\
    let q := updated_pool u p in
    find_pool (pool_id p) s' = Some q /\
    accessible s' = accessible s /\ officials s' = officials s /\
    length ids <= maxAutoRoutePoolMembers /\
    d = {| d_id := pool_id p; d_name := pool_name q; d_selected_count := Z.of_nat (length ids);
           d_items := Some (buildRoutePoolItems (member_rows ids) (routePoolConfig q) s'); d_config := routePoolConfig q |}.
Proof.
  intros H E ids. unfold UpdateRoutePool, loadRoutePool in E.
  destruct (find_pool (TrimSpace (u_id u)) s) as [p|] eqn:F; [|by injection E].
  exists p. split; [done|]. cbv zeta.
  pose proof (find_pool_ok _ _ _ H F) as Hid. pose proof (pool_id_trimmed _ Hid) as Ht.
  assert (TrimSpace (u_id u) = pool_id p) as Ep.
  { apply List.find_some in F as [_ F]. by apply seqb_eq in F. }
  rewrite Ep in F. destruct (find_pruned (selection (pool_members p)) _ _ _ F) as [rows Fp].
  pose proof (pruned_ok (selection (pool_members p)) s H) as Hok.
  assert (accessible (fst (pruneInactiveRoutePoolGroups (selection (pool_members p)) s)) = accessible s /\
          officials (fst (pruneInactiveRoutePoolGroups (selection (pool_members p)) s)) = officials s) as [Ea Eo].
  { unfold pruneInactiveRoutePoolGroups. by destruct (stale _ s). }
  destruct (pruneInactiveRoutePoolGroups _ s) as [s1 sel]. cbn [fst] in *. fold ids in E.
  destruct (maxAutoRoutePoolMembers <? length ids) eqn:El; [done|]. apply Nat.ltb_ge in El.
  destruct (negb (forallb _ ids)) eqn:Ee; [done|]. apply negb_false_iff in Ee.
  destruct (64 <? _); [done|]. destruct (name_taken _ _ s1); [done|].
  change (Build_Pool _ _ _ _ _ _ _) with (updated_pool u p) in E.
  set (s2 := replace_pool (pool_id p) (updated_pool u p) s1) in E.
  assert (server_ok s2) as Hok2 by by apply replaced_ok.
  assert (find_pool (pool_id p) s2 = Some (updated_pool u p)) as F2 by by apply (find_replaced _ (with_members rows p)).
  unfold ListRoutePool, loadRoutePool in E. rewrite Ht, F2 in E. cbn [updated_pool pool_members] in E. fold ids in E.
  rewrite selection_rows in E by apply member_rows_ok, normalized_NoDup.
  unfold pruneInactiveRoutePoolGroups in E.
  rewrite (eligible_stale ids s2 Hok2) in E; [|exact Ee | apply normalized_NoDup].
  injection E as <- <-. split; [exact F2|]. split; [exact Ea|]. split; [exact Eo|]. split; [exact El|].
  f_equal. by rewrite <- (member_rows_ids ids) at 2; rewrite length_map.
Qed.
