(* ===== verification/RoutePool.v ===== *)
(** * Route pools: the workbench and the buttons that join a group

    [features/dawn/market/pool-workbench.tsx], the join buttons of
    [features/dawn/market/index.tsx] and [features/sidebar-group-status/index.tsx], and the
    hooks of [features/marketplace/hooks.ts] with their cache.  The server is any instance
    of [PoolApi]; the theorems of the last sections take the one of [RouteServer.v].

    The answers of queries arrive when they want (events [EList], [EAuto], [EDetail]); a
    change is sent and answered in one step, so that the buttons that are disabled while one
    is pending are not pressed.  Reloads of the list that follow a change are queries. *)

From stdpp Require Import gmap.
From S2P Require Import Prelude Number RouteServer.
From stdpp Require Import options.

Definition AUTO_ID : jstr := "auto".

(** [hooks.ts]: what the query client holds. *)
Record Cache := {
  pools_data : option (list Summary);
  auto_data : option Detail;
  details : gmap jstr Detail;
}.

Record Bench := { activePoolID : jstr; draft_key : jstr; draft_ids : list jstr }.

Definition with_details (f : gmap jstr Detail -> gmap jstr Detail) (c : Cache) : Cache :=
  {| pools_data := pools_data c; auto_data := auto_data c; details := f (details c) |}.
Definition with_list (l : option (list Summary)) (c : Cache) : Cache :=
  {| pools_data := l; auto_data := auto_data c; details := details c |}.
Definition with_auto_data (d : Detail) (c : Cache) : Cache :=
  {| pools_data := pools_data c; auto_data := Some d; details := details c |}.

Definition summary_of (pool : Detail) : Summary :=
  {| s_id := d_id pool; s_name := d_name pool; s_member_count := d_selected_count pool |}.

(** The summary reads the items of the pool before anything is written to the list. *)
Definition cacheUpdatedRoutePool (pool : Detail) (c : Cache) : exc Cache * Cache :=
  let c := with_details (insert (d_id pool) pool) c in
  match d_items pool with
  | None => (Throw, c)
  | Some _ =>
      let current := match pools_data c with Some l => l | None => [] end in
      let next := if existsb (fun x => s_id x =s d_id pool) current
                  then map (fun x => if s_id x =s d_id pool then summary_of pool else x) current
                  else current ++ [summary_of pool] in
      let c := with_list (Some next) c in (Ret c, c)
  end.

(** ** The workbench *)

Definition isAuto (active : jstr) : bool := active =s AUTO_ID.

(** The detail that is shown: none is asked for without a pool. *)
Definition poolDetail (active : jstr) (c : Cache) : option Detail :=
  if isAuto active then auto_data c
  else if truthy active then details c !! active else None.

Definition items_of (d : option Detail) : list Item :=
  match d with Some d => or_zero (d_items d) [] | None => [] end.

Definition persistedMemberIds (d : option Detail) : list jstr :=
  map group_id (stable_sort prio_le (List.filter selected (items_of d))).

Definition memberKey (active : jstr) (ids : list jstr) : jstr := active ++ ":" ++ join "," ids.

Record View := { v_active : jstr; v_detail : option Detail; v_draft_key : jstr; v_draft_ids : list jstr }.

Definition view (b : Bench) (c : Cache) : View :=
  {| v_active := activePoolID b; v_detail := poolDetail (activePoolID b) c;
     v_draft_key := draft_key b; v_draft_ids := draft_ids b |}.

Definition persistedMemberKey (v : View) : jstr := memberKey (v_active v) (persistedMemberIds (v_detail v)).

Definition draftMemberIds (v : View) : list jstr :=
  if v_draft_key v =s persistedMemberKey v then v_draft_ids v else persistedMemberIds (v_detail v).

(** [new Map(...)]: the last entry of an identifier. *)
Definition byId (items : list Item) (id : jstr) : option Item :=
  List.find (fun i => group_id i =s id) (rev (List.filter selected items)).

Definition members (v : View) : list Item := omap (byId (items_of (v_detail v))) (draftMemberIds v).

Definition currentConfig (d : option Detail) : option ConfigPatch :=
  option_map (fun d =>
    let config := d_config d in
    {| p_strategy := Some (strategy config); p_max_attempts := Some (max_attempts config);
       p_failure_cooldown_seconds := Some (failure_cooldown_seconds config);
       p_max_multiplier := Some (max_multiplier config); p_weights := None |}) d.

(** The configuration as it was answered. *)
Definition whole_config (d : option Detail) : option ConfigPatch :=
  option_map (fun d =>
    let config := d_config d in
    {| p_strategy := Some (strategy config); p_max_attempts := Some (max_attempts config);
       p_failure_cooldown_seconds := Some (failure_cooldown_seconds config);
       p_max_multiplier := Some (max_multiplier config); p_weights := Some (weights config) |}) d.

Definition isDirty (v : View) : bool :=
  negb (join "," (draftMemberIds v) =s join "," (persistedMemberIds (v_detail v))).

(** What a handler asks for. *)
Inductive Request :=
  | PutAuto (groupIds : list jstr) (config : option ConfigPatch)
  | PutPool (u : Update)
  | PostPool (uuid : jstr) (c : Creation)
  | DeletePool (id : jstr).

Definition put (v : View) (name : option jstr) (ids : list jstr) (config : option ConfigPatch) : Request :=
  if isAuto (v_active v) then PutAuto ids config
  else PutPool {| u_id := v_active v; u_name := name; u_groupIds := ids; u_config := config |}.

Definition saveMemberOrder (orderedIds : list jstr) (v : View) : Request :=
  put v None orderedIds (currentConfig (v_detail v)).

Definition setDraftMemberIds (ids : list jstr) (v : View) : Bench :=
  {| activePoolID := v_active v; draft_key := persistedMemberKey v; draft_ids := ids |}.

Definition swap (i j : nat) (l : list Item) : list Item :=
  match l !! i, l !! j with Some a, Some b => <[i := b]> (<[j := a]> l) | _, _ => l end.

Definition move (index : nat) (delta : Z) (v : View) : option Bench :=
  let next := members v in
  let target := (Z.of_nat index + delta)%Z in
  if ((target <? 0) || (Z.of_nat (length next) <=? target))%Z then None
  else Some (setDraftMemberIds (map group_id (swap index (Z.to_nat target) next)) v).

Definition remove (id : jstr) (v : View) : Bench :=
  setDraftMemberIds (map group_id (List.filter (fun m => negb (group_id m =s id)) (members v))) v.

Definition setStrategy (s : jstr) (v : View) : Request :=
  put v None (map group_id (members v))
    (Some {| p_strategy := Some s; p_max_attempts := None; p_failure_cooldown_seconds := None;
             p_max_multiplier := None; p_weights := None |}).

Definition rename (isPending : bool) (name : jstr) (v : View) : option Request :=
  let trimmedName := trim name in
  if isAuto (v_active v) || negb (truthy trimmedName) ||
     match v_detail v with Some d => trimmedName =s d_name d | None => false end || isPending
  then None
  else Some (put v (Some trimmedName) (map group_id (members v)) (currentConfig (v_detail v))).

Definition removePool (v : View) : option Request :=
  if isAuto (v_active v) then None else Some (DeletePool (v_active v)).

(** The options of the workbench, and its effect on the pool that is active. *)
Definition poolOptions (c : Cache) : list jstr :=
  match auto_data c with Some _ => [AUTO_ID] | None => [] end ++
  map s_id (match pools_data c with Some l => l | None => [] end).

Definition reconcile (authed pending : bool) (c : Cache) (active : jstr) : jstr :=
  if negb authed || pending then active
  else if truthy active && memb active (poolOptions c) then active
  else match poolOptions c with id :: _ => id | [] => [] end.

(** ** The buttons that join a group *)

Definition poolMemberIDs (v : View) : list jstr :=
  uniq (map group_id (List.filter selected (items_of (v_detail v)))).

Inductive Join := NotNow | Refused (message : jstr) | Asked (r : Request).

(** [market/index.tsx] *)
Definition joinPool (joining authed groupActive : bool) (group : jstr) (v : View) : Join :=
  if joining then NotNow
  else if negb authed || negb groupActive then Refused (if negb authed then "登录后才能添加到路由池" else "已暂停")
  else if negb (truthy (v_active v)) then Refused "先创建或选择一个路由池"
  else
    let currentIDs := poolMemberIDs v in
    if memb group currentIDs then NotNow
    else Asked (put v None (currentIDs ++ [group]) (whole_config (v_detail v))).

(** [sidebar-group-status/index.tsx] *)
Definition joinCurrentPool (authed : bool) (groupID : jstr) (v : View) : Join :=
  if negb authed then Refused "登录后才能添加到路由池"
  else if negb (truthy (v_active v)) then Refused "请先在分组市场创建路由池"
  else match v_detail v with
       | None => Refused "当前路由池仍在加载，请稍后重试"
       | Some _ =>
           if negb (truthy groupID) || memb groupID (poolMemberIDs v) then NotNow
           else Asked (put v None (poolMemberIDs v ++ [groupID]) (whole_config (v_detail v)))
       end.

(** ** The whole *)

Inductive Outcome := Done | Failed (message : jstr).

(** The cache after an answer, and what the one who asked is told.  A hook that throws
    makes the change a failed one. *)
Definition cannot_read : jstr := "Cannot read properties of null (reading 'filter')".

Section Client.
  Context {S : Type} {A : PoolApi S}.

Record World := { server : S; cache : Cache; bench : Bench }.

Definition see (w : World) : View := view (bench w) (cache w).

Definition written (a : answer Detail) (s : S) (w : World) : World * Outcome :=
  match a with
  | Err m => ({| server := s; cache := cache w; bench := bench w |}, Failed m)
  | Ok d =>
      let '(r, c) := cacheUpdatedRoutePool d (cache w) in
      ({| server := s; cache := c; bench := bench w |},
       match r with Ret _ => Done | Throw => Failed cannot_read end)
  end.

Definition perform (r : Request) (w : World) : World * Outcome :=
  match r with
  | PutAuto ids config =>
      let '(s, a) := api_auto_update ids config (server w) in
      match a with
      | Err m => ({| server := s; cache := cache w; bench := bench w |}, Failed m)
      | Ok d => ({| server := s; cache := with_auto_data d (cache w); bench := bench w |}, Done)
      end
  | PutPool u => let '(s, a) := api_update u (server w) in written a s w
  | PostPool uuid c => let '(s, a) := api_create uuid c (server w) in written a s w
  | DeletePool id =>
      let '(s, a) := api_delete id (server w) in
      match a with
      | Err m => ({| server := s; cache := cache w; bench := bench w |}, Failed m)
      | Ok _ => ({| server := s; cache := with_details (delete id) (cache w); bench := bench w |}, Done)
      end
  end.

Definition activate (id : jstr) (w : World) : World :=
  {| server := server w; cache := cache w;
     bench := {| activePoolID := id; draft_key := draft_key (bench w); draft_ids := draft_ids (bench w) |} |}.

(** [onCreate]: the pool is selected once the change has succeeded. *)
Definition create (uuid : jstr) (c : Creation) (w : World) : World * Outcome :=
  let '(w', o) := perform (PostPool uuid c) w in
  match o with Done => (activate uuid w', o) | Failed _ => (w', o) end.

Definition delete_active (w : World) : World :=
  match removePool (see w) with
  | None => w
  | Some r => let '(w', o) := perform r w in match o with Done => activate [] w' | Failed _ => w' end
  end.

Definition ask (r : option Request) (w : World) : World :=
  match r with Some r => fst (perform r w) | None => w end.

Definition ask_join (j : Join) (w : World) : World :=
  match j with Asked r => fst (perform r w) | _ => w end.

Definition with_bench (b : Bench) (w : World) : World := {| server := server w; cache := cache w; bench := b |}.
Definition with_cache (s : S) (c : Cache) (w : World) : World := {| server := s; cache := c; bench := bench w |}.

Inductive Event :=
  | EServer (s : S)                     (** other devices, other users *)
  | EList | EAuto | EDetail (id : jstr)
  | ESelect (id : jstr)
  | EReconcile (authed pending : bool)
  | EMove (index : nat) (delta : Z) | ERemove (id : jstr) | EReorder (ids : list jstr)
  | ESave | EStrategy (s : jstr) | ERename (name : jstr) | EDelete
  | ECreate (uuid : jstr) (c : Creation)
  | EJoin (authed groupActive : bool) (group : jstr)
  | EJoinStatus (authed : bool) (group : jstr).

Definition step (e : Event) (w : World) : World :=
  let v := see w in
  match e with
  | EServer s => with_cache s (cache w) w
  | EList => let '(s, l) := api_list (server w) in with_cache s (with_list (Some l) (cache w)) w
  | EAuto => let '(s, d) := api_auto (server w) in with_cache s (with_auto_data d (cache w)) w
  | EDetail id =>
      let '(s, a) := api_detail id (server w) in
      with_cache s match a with Ok d => with_details (insert id d) (cache w) | Err _ => cache w end w
  | ESelect id => activate id w
  | EReconcile authed pending => activate (reconcile authed pending (cache w) (activePoolID (bench w))) w
  | EMove i d => match move i d v with Some b => with_bench b w | None => w end
  | ERemove id => with_bench (remove id v) w
  | EReorder ids => with_bench (setDraftMemberIds ids v) w
  | ESave => fst (perform (saveMemberOrder (draftMemberIds v) v) w)
  | EStrategy s => fst (perform (setStrategy s v) w)
  | ERename name => ask (rename false name v) w
  | EDelete => delete_active w
  | ECreate uuid c => fst (create uuid c w)
  | EJoin authed groupActive g => ask_join (joinPool false authed groupActive g v) w
  | EJoinStatus authed g => ask_join (joinCurrentPool authed g v) w
  end.

(** What the pages offer: the list is dragged into another order, the pools of the options
    are selected, and the server stays one that keeps its promises. *)
Definition event_ok (ok : S -> Prop) (e : Event) (w : World) : Prop :=
  match e with
  | EServer s => ok s
  | EReorder ids => ids ≡ₚ draftMemberIds (see w)
  | ESelect id => In id (poolOptions (cache w))
  | ECreate uuid _ => pool_id_ok uuid = true
  | _ => True
  end.

(** The page opens with the pool that was stored. *)
Definition init (s : S) (stored : jstr) : World :=
  {| server := s;
     cache := {| pools_data := None; auto_data := None; details := ∅ |};
     bench := {| activePoolID := stored; draft_key := memberKey stored []; draft_ids := [] |} |}.

Inductive reachable (ok : S -> Prop) : World -> Prop :=
  | reach_init s stored : ok s -> has_unit 58 stored = false -> reachable ok (init s stored)
  | reach_step e w : reachable ok w -> event_ok ok e w -> reachable ok (step e w).

End Client.
Arguments World S : clear implicits.
Arguments Event S : clear implicits.

(** ** Keys *)

Lemma no_unit u s : has_unit u s = false -> Forall (fun c => c <> u) s.
Proof.
  unfold has_unit. intros H. apply List.Forall_forall. intros c Hc ->.
  assert (existsb (N.eqb u) s = true) as E by (apply existsb_exists; exists u; by rewrite N.eqb_refl). congruence.
Qed.

Definition ids_ok (ids : list jstr) : Prop := NoDup ids /\ Forall (fun id => group_id_ok id = true) ids.

Lemma join_inj ids ids' : Forall (fun id => group_id_ok id = true) ids -> Forall (fun id => group_id_ok id = true) ids' ->
  join "," ids = join "," ids' -> ids = ids'.
Proof.
  assert (forall l, Forall (fun id => group_id_ok id = true) l -> l <> [] ->
            splitc 44 (join "," l) = l /\ join "," l <> []) as K.
  { intros l H Hne. split.
    - apply (splitc_join 44); [done|]. apply (Forall_impl _ _ _ H). intros id Hid. unfold group_id_ok in Hid.
      bool_hyps. by apply no_unit.
    - destruct H as [|id l Hid H]; [done|]. destruct id as [|c id]; [done|]. by destruct l. }
  intros H H' E. destruct ids as [|x ids], ids' as [|x' ids']; [done | | |].
  - by destruct (K _ H' ltac:(done)) as [_ []].
  - by destruct (K _ H ltac:(done)) as [_ []].
  - destruct (K _ H ltac:(done)) as [E1 _], (K _ H' ltac:(done)) as [E2 _]. by rewrite <- E1, E, E2.
Qed.

Lemma key_inj a a' ids ids' : has_unit 58 a = false -> has_unit 58 a' = false ->
  Forall (fun id => group_id_ok id = true) ids -> Forall (fun id => group_id_ok id = true) ids' ->
  memberKey a ids = memberKey a' ids' -> a = a' /\ ids = ids'.
Proof.
  intros Ha Ha' H H' E. unfold memberKey in E.
  assert (a = a' /\ join "," ids = join "," ids') as [-> J].
  { apply no_unit in Ha, Ha'. clear -Ha Ha' E. revert a' Ha' E.
    induction Ha as [|c a Hc Ha IH]; intros [|c' a'] Ha' E; cbn [app] in E.
    - by injection E as ->.
    - injection E as <- _. by apply Forall_cons in Ha' as [? _].
    - injection E as -> _. done.
    - injection E as -> E. apply Forall_cons in Ha' as [_ Ha']. destruct (IH a' Ha' E) as [-> ->]. done. }
  split; [done|]. by apply join_inj.
Qed.

Lemma persisted_ok d : (forall x, d = Some x -> detail_ok x) -> ids_ok (persistedMemberIds d).
Proof.
  intros H. unfold persistedMemberIds, items_of. destruct d as [d|]; [|repeat constructor].
  destruct (H d eq_refl) as (_ & _ & Hi). destruct (d_items d) as [items|]; [|repeat constructor].
  destruct Hi as [N F]. cbn [or_zero]. split.
  - rewrite stable_sort_Permutation. apply (sublist_NoDup _ _ N), filter_map_sublist.
  - apply Forall_map. rewrite stable_sort_Permutation. rewrite List.Forall_forall in F |- *.
    intros i Hi. apply filter_In in Hi as [Hi _]. by apply F.
Qed.

(** Every member is found under its identifier. *)
Lemma byId_found d id : In id (persistedMemberIds d) ->
  exists i, byId (items_of d) id = Some i /\ group_id i = id.
Proof.
  intros H. unfold persistedMemberIds in H. apply in_map_iff in H as (i & <- & Hi). apply stable_sort_In in Hi.
  unfold byId. destruct (List.find _ _) as [j|] eqn:E.
  - apply List.find_some in E as [_ E]. apply seqb_eq in E. by exists j.
  - exfalso. apply in_rev in Hi. apply (List.find_none _ _ E) in Hi. by rewrite seqb_refl in Hi.
Qed.

(** ** The draft *)

Definition draft_ok (v : View) : Prop :=
  NoDup (draftMemberIds v) /\ incl (draftMemberIds v) (persistedMemberIds (v_detail v)).

Lemma members_ids v : incl (draftMemberIds v) (persistedMemberIds (v_detail v)) ->
  map group_id (members v) = draftMemberIds v.
Proof.
  unfold members. generalize (draftMemberIds v) as l. induction l as [|id l IH]; intros H; [done|].
  destruct (byId_found (v_detail v) id (H id (or_introl eq_refl))) as (i & E & <-).
  cbn [omap list_omap]. rewrite E. cbn [map]. f_equal. apply IH. intros x Hx. apply H. by right.
Qed.

Definition bench_ok (b : Bench) : Prop :=
  exists a ps, draft_key b = memberKey a ps /\ has_unit 58 a = false /\ ids_ok ps /\
    NoDup (draft_ids b) /\ incl (draft_ids b) ps.

Lemma view_draft_ok b c : bench_ok b -> has_unit 58 (activePoolID b) = false ->
  (forall d, poolDetail (activePoolID b) c = Some d -> detail_ok d) -> draft_ok (view b c).
Proof.
  intros (a & ps & Hk & Ha & Hps & Hn & Hi) Hactive Hd. destruct (persisted_ok _ Hd) as [P1 P2].
  unfold draft_ok, draftMemberIds. cbn [view v_draft_key v_detail v_draft_ids].
  destruct (seqb_spec (draft_key b) (persistedMemberKey (view b c))) as [E|]; [|split; [done | apply incl_refl]].
  rewrite Hk in E. unfold persistedMemberKey in E. cbn [view v_active v_detail] in E.
  destruct (key_inj _ _ _ _ Ha Hactive (proj2 Hps) P2 E) as [_ ->]. exact (conj Hn Hi).
Qed.

Lemma draft_set ids v : has_unit 58 (v_active v) = false -> ids_ok (persistedMemberIds (v_detail v)) ->
  NoDup ids -> incl ids (persistedMemberIds (v_detail v)) -> bench_ok (setDraftMemberIds ids v).
Proof. intros Ha Hp Hn Hi. exists (v_active v), (persistedMemberIds (v_detail v)). done. Qed.

Lemma swap_Permutation i j l : swap i j l ≡ₚ l.
Proof.
  unfold swap. destruct (l !! i) as [a|] eqn:Ei; [|done]. destruct (l !! j) as [b|] eqn:Ej; [|done].
  by apply Permutation_insert_swap.
Qed.

Section Invariant.
  Context {S : Type} {A : PoolApi S} (ok : S -> Prop) {L : PoolApiLaws S ok}.

Record cache_ok (c : Cache) : Prop := {
  co_list l : pools_data c = Some l -> Forall summary_ok l;
  co_auto d : auto_data c = Some d -> detail_ok d;
  co_details id d : details c !! id = Some d -> detail_ok d;
}.

Definition world_ok (w : World S) : Prop :=
  ok (server w) /\ cache_ok (cache w) /\ bench_ok (bench w) /\ has_unit 58 (activePoolID (bench w)) = false.

Lemma pool_id_colon id : pool_id_ok id = true -> has_unit 58 id = false.
Proof. unfold pool_id_ok. intros H. by bool_hyps. Qed.

Lemma poolDetail_ok a c d : cache_ok c -> poolDetail a c = Some d -> detail_ok d.
Proof.
  intros [C1 C2 C3] H. unfold poolDetail in H. destruct (isAuto a); [by apply C2|].
  destruct (truthy a); [by apply (C3 a)|done].
Qed.

Lemma view_ok w : world_ok w -> draft_ok (see w) /\ ids_ok (persistedMemberIds (v_detail (see w))).
Proof.
  intros (_ & C & B & Ha). split.
  - apply view_draft_ok; [done | done |]. intros d. by apply poolDetail_ok.
  - apply persisted_ok. intros d. by apply poolDetail_ok.
Qed.

Lemma poolOptions_colon c id : cache_ok c -> In id (poolOptions c) -> has_unit 58 id = false.
Proof.
  intros [C1 C2 C3] H. unfold poolOptions in H. apply in_app_iff in H as [H|H].
  - destruct (auto_data c); [|done]. by destruct H as [<-|[]].
  - destruct (pools_data c) as [l|]; [|done]. specialize (C1 l eq_refl). rewrite List.Forall_forall in C1.
    apply in_map_iff in H as (x & <- & Hx). by apply pool_id_colon, C1.
Qed.

Lemma reconcile_colon authed pending c a : cache_ok c -> has_unit 58 a = false ->
  has_unit 58 (reconcile authed pending c a) = false.
Proof.
  intros C H. unfold reconcile. destruct (_ || _); [done|]. destruct (_ && _); [done|].
  destruct (poolOptions c) as [|id l] eqn:E; [done|]. apply (poolOptions_colon c); [done|]. rewrite E. by left.
Qed.

Lemma with_auto_data_ok d c : cache_ok c -> detail_ok d -> cache_ok (with_auto_data d c).
Proof. intros [C1 C2 C3] H. constructor; [exact C1 | by intros x [= <-] | exact C3]. Qed.

Lemma with_list_ok l c : cache_ok c -> Forall summary_ok l -> cache_ok (with_list (Some l) c).
Proof. intros [C1 C2 C3] H. constructor; [by intros x [= <-] | exact C2 | exact C3]. Qed.

Lemma insert_detail_ok id d c : cache_ok c -> detail_ok d -> cache_ok (with_details (insert id d) c).
Proof.
  intros [C1 C2 C3] H. constructor; [exact C1 | exact C2 |]. intros i x Hx. cbn [details with_details] in Hx.
  apply lookup_insert_Some in Hx as [[_ <-]|[_ Hx]]; [done | by apply (C3 i)].
Qed.

Lemma delete_detail_ok id c : cache_ok c -> cache_ok (with_details (delete id) c).
Proof.
  intros [C1 C2 C3]. constructor; [exact C1 | exact C2 |]. intros i x Hx. cbn [details with_details] in Hx.
  apply lookup_delete_Some in Hx as [_ Hx]. by apply (C3 i).
Qed.

Lemma updated_cache_ok d c : cache_ok c -> detail_ok d -> cache_ok (snd (cacheUpdatedRoutePool d c)).
Proof.
  intros C Hd. unfold cacheUpdatedRoutePool. pose proof (insert_detail_ok (d_id d) d c C Hd) as D.
  destruct (d_items d) as [items|]; [|done]. cbn [snd]. apply with_list_ok; [done|].
  assert (Forall summary_ok match pools_data c with Some l => l | None => [] end) as F.
  { pose proof (co_list _ C) as C1. destruct (pools_data c) as [l|]; [by apply C1 | done]. }
  cbn [pools_data with_details]. destruct (existsb _ _).
  - apply Forall_map. apply (Forall_impl _ _ _ F). intros x Hx. destruct (s_id x =s d_id d); [exact (proj1 Hd) | done].
  - apply Forall_app. split; [done|]. constructor; [exact (proj1 Hd) | done].
Qed.

Lemma written_ok a s w : world_ok w -> ok s -> answer_ok a -> world_ok (fst (written a s w)).
Proof.
  intros (_ & C & B & Ha) Hs Hd. unfold written. destruct a as [d|m]; [|done].
  pose proof (updated_cache_ok d (cache w) C Hd) as U.
  destruct (cacheUpdatedRoutePool d (cache w)) as [r c]. done.
Qed.

Lemma perform_ok r w : world_ok w -> match r with PostPool uuid _ => pool_id_ok uuid = true | _ => True end ->
  world_ok (fst (perform r w)) /\ bench (fst (perform r w)) = bench w.
Proof using L.
  intros W Hr. pose proof W as (Ok & C & B & Ha). destruct r as [ids config|u|uuid c|id]; cbn [perform].
  - pose proof (law_auto_update ids config (server w) Ok) as [H1 H2].
    destruct (api_auto_update _ _ _) as [s [d|m]]; cbn [fst snd] in *; (split; [|done]); [|done].
    split; [done|]. split; [by apply with_auto_data_ok | done].
  - pose proof (law_update u (server w) Ok) as [H1 H2]. destruct (api_update _ _) as [s a]. split; [by apply written_ok|].
    unfold written. destruct a; [|done]. by destruct (cacheUpdatedRoutePool _ _).
  - pose proof (law_create uuid c (server w) Ok Hr) as [H1 H2]. destruct (api_create _ _ _) as [s a].
    split; [by apply written_ok|]. unfold written. destruct a; [|done]. by destruct (cacheUpdatedRoutePool _ _).
  - pose proof (law_delete id (server w) Ok) as H1. destruct (api_delete _ _) as [s [x|m]]; cbn [fst] in *; (split; [|done]); [|done].
    split; [done|]. split; [by apply delete_detail_ok | done].
Qed.

Lemma activate_ok id w : world_ok w -> has_unit 58 id = false -> world_ok (activate id w).
Proof. intros (Ok & C & B & Ha) H. done. Qed.

Lemma draft_from ids w : world_ok w -> NoDup ids -> incl ids (draftMemberIds (see w)) ->
  world_ok (with_bench (setDraftMemberIds ids (see w)) w).
Proof.
  intros W Hn Hi. pose proof (view_ok w W) as [[D1 D2] P]. destruct W as (Ok & C & B & Ha). split; [done|]. split; [done|].
  split; [|done]. apply draft_set; [done | done | done |]. by apply (incl_tran Hi).
Qed.

Lemma Permutation_incl {T} (l k : list T) : l ≡ₚ k -> incl l k.
Proof. intros H x Hx. by apply (Permutation_in x H). Qed.

Lemma step_world_ok e w : world_ok w -> event_ok ok e w -> world_ok (step e w).
Proof using L.
  intros W He. pose proof (view_ok w W) as [[D1 D2] P]. pose proof W as (Ok & C & B & Ha).
  pose proof (members_ids _ D2) as M.
  destruct e as [s| | |id|id|authed pending|i d|id|ids| |s|name| |uuid c|authed ga g|authed g]; cbn [step event_ok] in *.
  - done.
  - pose proof (law_list (server w) Ok) as [H1 H2]. destruct (api_list _) as [s l].
    split; [done|]. split; [by apply with_list_ok | done].
  - pose proof (law_auto (server w) Ok) as [H1 H2]. destruct (api_auto _) as [s d].
    split; [done|]. split; [by apply with_auto_data_ok | done].
  - pose proof (law_detail id (server w) Ok) as [H1 H2]. destruct (api_detail _ _) as [s [d|m]]; cbn [fst snd] in *; [|done].
    split; [done|]. split; [by apply insert_detail_ok | done].
  - apply activate_ok; [done|]. by apply (poolOptions_colon (cache w)).
  - by apply activate_ok, reconcile_colon.
  - unfold move. cbv zeta. destruct (_ || _); [done|]. pose proof (swap_Permutation i (Z.to_nat (Z.of_nat i + d)) (members (see w))) as Hp.
    apply (Permutation_map group_id) in Hp. rewrite M in Hp. apply draft_from; [done | by rewrite Hp | by apply Permutation_incl].
  - unfold remove. pose proof (filter_map_sublist group_id (fun m => negb (group_id m =s id)) (members (see w))) as Hs.
    rewrite M in Hs. apply draft_from; [done | by apply (sublist_NoDup _ _ D1 Hs) |].
    rewrite <- M. intros x Hx. apply in_map_iff in Hx as (m & <- & Hm). apply filter_In in Hm as [Hm _]. by apply in_map.
  - apply draft_from; [done | by rewrite He | by apply Permutation_incl].
  - unfold saveMemberOrder, put. destruct (isAuto _); by apply perform_ok.
  - unfold setStrategy, put. destruct (isAuto _); by apply perform_ok.
  - unfold rename, put. destruct (_ || _); [done|]. cbn [ask]. destruct (isAuto _); by apply perform_ok.
  - unfold delete_active, removePool. destruct (isAuto _); [done|].
    pose proof (perform_ok (DeletePool (v_active (see w))) w W I) as [H _]. destruct (perform _ w) as [w' [|m]]; [|done].
    by apply activate_ok.
  - unfold create. pose proof (perform_ok (PostPool uuid c) w W He) as [H _]. destruct (perform _ w) as [w' [|m]]; [|done].
    apply activate_ok; [done|]. by apply pool_id_colon.
  - unfold joinPool, put. cbv zeta. destruct (negb authed || negb ga); [done|].
    destruct (negb (truthy _)); [done|]. destruct (memb g _); [done|]. cbn [ask_join]. destruct (isAuto _); by apply perform_ok.
  - unfold joinCurrentPool, put. destruct (negb authed); [done|].
    destruct (negb (truthy (v_active _))); [done|]. destruct (v_detail _); [|done].
    destruct (_ || _); [done|]. cbn [ask_join]. destruct (isAuto _); by apply perform_ok.
Qed.

End Invariant.

Lemma init_world_ok {S} {A : PoolApi S} (ok : S -> Prop) s stored : ok s -> has_unit 58 stored = false -> world_ok ok (init s stored).
Proof.
  intros Hs Hc. split; [done|]. split; [by split|]. split; [|done].
  exists stored, []. split; [done|]. split; [done|]. split; [by repeat constructor|]. split; [exact NoDup_nil_2 | apply incl_nil_l].
Qed.

Lemma reachable_world_ok {S} {A : PoolApi S} (ok : S -> Prop) {L : PoolApiLaws S ok} w : reachable ok w -> world_ok ok w.
Proof. induction 1; [by apply init_world_ok | by apply step_world_ok]. Qed.

(** C22: Whatever happens on the page and on the server, the workbench shows members of the
    pool that is saved, each once, and all that the draft names; and it offers to save
    exactly when the draft differs from what is saved. *)
Theorem draft_invariant {S} {A : PoolApi S} (ok : S -> Prop) {L : PoolApiLaws S ok} w : reachable ok w ->
  let v := see w in
  NoDup (draftMemberIds v) /\ incl (draftMemberIds v) (persistedMemberIds (v_detail v)) /\
  map group_id (members v) = draftMemberIds v /\
  (isDirty v = false <-> draftMemberIds v = persistedMemberIds (v_detail v)).
Proof.
  intros R v. destruct (view_ok ok w (reachable_world_ok ok w R)) as [[D1 D2] [P1 P2]]. fold v in D1, D2, P1, P2.
  split; [done|]. split; [done|]. split; [by apply members_ids|]. unfold isDirty. rewrite negb_false_iff, seqb_eq.
  split; [|by intros ->]. apply join_inj; [|done]. rewrite List.Forall_forall in P2 |- *. auto.
Qed.

(** ** With the server *)

Lemma normalize_ids ids : ids_ok ids -> normalizeAutoRouteGroupIDs ids = ids.
Proof.
  intros [N F]. unfold normalizeAutoRouteGroupIDs.
  assert (List.filter truthy (map TrimSpace ids) = ids) as ->; [|by apply uniq_id, NoDup_ListNoDup].
  induction F as [|id ids Hid F IH]; [done|]. apply NoDup_cons in N as [_ N]. cbn [map List.filter].
  unfold group_id_ok in Hid. apply andb_prop in Hid as [[Ht _]%andb_prop E%seqb_eq]. rewrite E, Ht. by rewrite IH.
Qed.

Lemma ids_ok_incl ids ids' : NoDup ids -> incl ids ids' -> ids_ok ids' -> ids_ok ids.
Proof. intros N I [_ F]. split; [done|]. rewrite List.Forall_forall in F |- *. auto. Qed.

(** What is written of a configuration: the strategy and the limits are kept, the weights
    are the default ones. *)
Definition limits (c : PoolConfig) (w : Weights) : PoolConfig :=
  {| strategy := strategy c; max_attempts := max_attempts c; failure_cooldown_seconds := failure_cooldown_seconds c;
     max_multiplier := max_multiplier c; weights := w |}.

Lemma limits_kept c : config_ok c ->
  normalizeAutoRoutePoolConfig (Some (limits c {| w_multiplier := 0; w_success := 0; w_cache := 0; w_ttft := 0 |})) =
  limits c default_weights.
Proof.
  unfold config_ok. intros H.
  pose proof (f_equal strategy H) as H1. pose proof (f_equal max_attempts H) as H2.
  pose proof (f_equal failure_cooldown_seconds H) as H3. pose proof (f_equal max_multiplier H) as H4.
  unfold normalizeAutoRoutePoolConfig, limits in *.
  cbn [or_zero strategy max_attempts failure_cooldown_seconds max_multiplier] in *. by rewrite H1, H2, H3, H4.
Qed.

Lemma current_kept d : config_ok (d_config d) ->
  exists c, currentConfig (Some d) = Some c /\
    normalizeAutoRoutePoolConfig (Some (decode_config c)) = limits (d_config d) default_weights.
Proof. intros H. eexists. split; [reflexivity|]. exact (limits_kept _ H). Qed.

Lemma whole_kept d : config_ok (d_config d) ->
  exists c, whole_config (Some d) = Some c /\ normalizeAutoRoutePoolConfig (Some (decode_config c)) = d_config d.
Proof.
  intros H. eexists. split; [reflexivity|]. transitivity (normalizeAutoRoutePoolConfig (Some (d_config d))); [|exact H]. by destruct (d_config d).
Qed.

(** An update that is sent: it is refused and nothing that is shown changes, or the pool is
    written and the answer is what is shown of it. *)
Lemma put_done (u : Update) (w w' : World Server) o : server_ok (server w) -> perform (PutPool u) w = (w', o) ->
  let ids := normalizeAutoRouteGroupIDs (u_groupIds u) in
  bench w' = bench w /\
  match o with
  | Failed _ => cache w' = cache w
  | Done => exists p, find_pool (TrimSpace (u_id u)) (server w) = Some p /\ pool_id p = TrimSpace (u_id u) /\
      let q := updated_pool u p in
      find_pool (pool_id p) (server w') = Some q /\
      server_ok (server w') /\ accessible (server w') = accessible (server w) /\ officials (server w') = officials (server w) /\
      exists d, details (cache w') !! pool_id p = Some d /\ d_config d = routePoolConfig q /\
        d_items d = Some (buildRoutePoolItems (member_rows ids) (routePoolConfig q) (server w'))
  end.
Proof.
  intros H E ids. cbn [perform api_update go_server] in E.
  pose proof (UpdateRoutePool_ok u (server w) H) as [Hok _].
  destruct (UpdateRoutePool u (server w)) as [s [d|m]] eqn:Eu; cbn [written fst] in E, Hok; [|by injection E as <- <-].
  destruct (update_accepted u (server w) s d H Eu) as (p & F & Fq & Ea & Eo & El & Ed). cbv zeta in *. fold ids in Ed, El.
  assert (pool_id p = TrimSpace (u_id u)) as Ep by (apply List.find_some in F as [_ F]; by apply seqb_eq in F).
  unfold cacheUpdatedRoutePool in E. rewrite Ed in E. cbn [d_items d_id] in E. injection E as <- <-.
  split; [done|]. exists p. cbn [server]. repeat (split; [done|]).
  eexists. split; [apply lookup_insert_eq|]. done.
Qed.

Definition visible_ids (c : PoolConfig) (s : Server) : list jstr :=
  map g_id (List.filter (within c) (accessible s) ++ officials s).

(** What an answer shows of the members that were written. *)
Lemma shown_members d ids (c : PoolConfig) s : server_ok s -> NoDup ids ->
  d_items d = Some (buildRoutePoolItems (member_rows ids) c s) ->
  persistedMemberIds (Some d) = List.filter (fun id => memb id (visible_ids c s)) ids.
Proof.
  intros H N E. unfold persistedMemberIds. cbn [items_of]. rewrite E. cbn [or_zero]. unfold buildRoutePoolItems.
  rewrite (built_order _ _ _ _ H (member_rows_ok ids N)). fold (visible_ids c s).
  rewrite <- (member_rows_ids ids) at 2. clear E. induction (member_rows ids) as [|r rows IH]; [done|].
  cbn [List.filter map]. destruct (memb (fst r) _); [|exact IH]. cbn [map]. f_equal. exact IH.
Qed.

Lemma filter_id {T} (f : T -> bool) l : (forall x, In x l -> f x = true) -> List.filter f l = l.
Proof.
  induction l as [|x l IH]; intros H; [done|]. cbn [List.filter]. rewrite (H x (or_introl eq_refl)), IH; [done|].
  intros y Hy. apply H. by right.
Qed.

(** When the saved members are those of the draft, they are the draft. *)
Lemma settled_draft (w w' : World Server) : world_ok server_ok w -> bench w' = bench w ->
  persistedMemberIds (v_detail (see w')) = draftMemberIds (see w) ->
  draftMemberIds (see w') = draftMemberIds (see w) /\ isDirty (see w') = false.
Proof.
  intros W Eb Ep. destruct (view_ok server_ok w W) as [[D1 D2] P].
  assert (draftMemberIds (see w') = draftMemberIds (see w)) as E.
  { unfold draftMemberIds at 1. unfold persistedMemberKey. rewrite Ep. cbn [see view v_draft_key v_draft_ids v_active]. rewrite Eb.
    unfold draftMemberIds. cbn [see view v_draft_key v_draft_ids].
    destruct (seqb_spec (draft_key (bench w)) (persistedMemberKey (see w))) as [E|E]; [by destruct (_ =s _)|].
    destruct (seqb_spec (draft_key (bench w)) (memberKey (activePoolID (bench w)) (persistedMemberIds (v_detail (see w)))));
      [by destruct E | done]. }
  split; [done|]. unfold isDirty. by rewrite E, Ep, seqb_refl.
Qed.

Section Named.
  Context (w : World Server) (w' : World Server).
  Hypothesis R : reachable server_ok w.
  Hypothesis active_id : pool_id_ok (activePoolID (bench w)) = true.
  Hypothesis named : isAuto (activePoolID (bench w)) = false.

Lemma draft_normal : normalizeAutoRouteGroupIDs (draftMemberIds (see w)) = draftMemberIds (see w).
Proof using R.
  destruct (view_ok server_ok w (reachable_world_ok server_ok w R)) as [[D1 D2] P]. by apply normalize_ids, (ids_ok_incl _ _ D1 D2).
Qed.

Lemma named_put name ids c : put (see w) name ids c =
  PutPool {| u_id := activePoolID (bench w); u_name := name; u_groupIds := ids; u_config := c |}.
Proof using named. unfold put. cbn [see view v_active]. by rewrite named. Qed.

Lemma shown_detail d : details (cache w') !! activePoolID (bench w) = Some d -> bench w' = bench w ->
  v_detail (see w') = Some d.
Proof using active_id named.
  intros H E. unfold see, view, poolDetail. cbn [v_detail]. rewrite E, named, H.
  unfold pool_id_ok in active_id. destruct (truthy (activePoolID (bench w))); done.
Qed.

End Named.

(** C23: Saving a draft makes it the members of the pool, in its order, with the name, the
    strategy and the limits that are shown, and nothing more is left to save; what the
    server refuses leaves the draft as it was. *)
Theorem save_writes_draft (w w' : World Server) d o : reachable server_ok w ->
  pool_id_ok (activePoolID (bench w)) = true -> isAuto (activePoolID (bench w)) = false ->
  let v := see w in
  v_detail v = Some d -> perform (saveMemberOrder (draftMemberIds v) v) w = (w', o) ->
  match o with
  | Failed _ => see w' = v
  | Done => exists p, find_pool (activePoolID (bench w)) (server w) = Some p /\
      find_pool (activePoolID (bench w)) (server w') =
        Some {| pool_id := pool_id p; pool_name := pool_name p; pool_strategy := strategy (d_config d);
                pool_attempts := max_attempts (d_config d); pool_cooldown := failure_cooldown_seconds (d_config d);
                pool_ceiling := max_multiplier (d_config d); pool_members := member_rows (draftMemberIds v) |} /\
      (incl (draftMemberIds v) (visible_ids (d_config d) (server w)) ->
       draftMemberIds (see w') = draftMemberIds v /\ isDirty (see w') = false)
  end.
Proof.
  intros R Hid Hn v Hd E. pose proof (reachable_world_ok server_ok w R) as W.
  destruct (view_ok server_ok w W) as [[D1 D2] P]. fold v in D1, D2, P.
  unfold saveMemberOrder in E. unfold v in E. rewrite (named_put w Hn) in E. fold v in E.
  destruct (put_done _ w w' o (proj1 W) E) as [Eb H]. cbn [u_id u_groupIds] in H.
  destruct o as [|m]; [|by unfold v, see; rewrite Eb, H].
  rewrite (pool_id_trimmed _ Hid) in H. destruct H as (p & F & Ep & Fq & Ok' & Ea & Eo & d' & Hd' & Ec & Ei).
  exists p. split; [done|]. rewrite Ep in Fq, Hd'.
  assert (detail_ok d) as (_ & Hc & _) by (apply (poolDetail_ok (activePoolID (bench w)) (cache w)); [exact (proj1 (proj2 W)) | exact Hd]).
  destruct (current_kept d Hc) as (cp & Ecp & K). rewrite Hd, Ecp in Fq, Ei, Ec.
  unfold v in Ei, Fq. rewrite (draft_normal w R) in Ei. fold v in Ei.
  unfold updated_pool in Fq, Ec, Ei. cbn [u_config u_name u_groupIds or_zero] in *.
  rewrite !K in Fq, Ec, Ei. rewrite (draft_normal w R) in Fq. fold v in Fq.
  split; [exact Fq|]. intros Hv. apply settled_draft; [done | done |].
  rewrite (shown_detail w w' Hid Hn d' Hd' Eb). rewrite (shown_members d' (draftMemberIds v) _ (server w') Ok' D1 Ei).
  apply filter_id. intros id Hin. apply memb_In. apply Hv in Hin.
  unfold visible_ids in *. rewrite Ea, Eo. unfold routePoolConfig. cbn [pool_strategy pool_attempts pool_cooldown pool_ceiling].
  assert (forall c c', max_multiplier c = max_multiplier c' -> within c = within c') as X by (intros c c' Hm; unfold within; by rewrite Hm).
  rewrite (X _ (d_config d)); [done|]. exact (f_equal max_multiplier Hc).
Qed.

(** Choosing another strategy puts every limit of the pool back to its default: three
    attempts, thirty seconds, and no ceiling for the price; for the automatic pool the
    weights of the score as well. *)
Theorem strategy_resets_limits (w w' : World Server) s : reachable server_ok w ->
  In s STRATEGIES -> perform (setStrategy s (see w)) w = (w', Done) ->
  (isAuto (activePoolID (bench w)) = true ->
   auto_config (server w') =
   {| strategy := s; max_attempts := 3; failure_cooldown_seconds := 30; max_multiplier := zero; weights := default_weights |}) /\
  (isAuto (activePoolID (bench w)) = false -> pool_id_ok (activePoolID (bench w)) = true ->
   exists p, find_pool (activePoolID (bench w)) (server w) = Some p /\
     find_pool (activePoolID (bench w)) (server w') =
     Some {| pool_id := pool_id p; pool_name := pool_name p; pool_strategy := s; pool_attempts := 3;
             pool_cooldown := 30; pool_ceiling := zero; pool_members := member_rows (draftMemberIds (see w)) |}).
Proof.
  intros R Hs E. pose proof (reachable_world_ok server_ok w R) as W. destruct (view_ok server_ok w W) as [[D1 D2] P].
  unfold setStrategy in E. rewrite (members_ids _ D2) in E. apply memb_In in Hs.
  assert (forall c, c = {| p_strategy := Some s; p_max_attempts := None; p_failure_cooldown_seconds := None; p_max_multiplier := None; p_weights := None |} ->
    normalizeAutoRoutePoolConfig (Some (decode_config c)) =
    {| strategy := s; max_attempts := 3; failure_cooldown_seconds := 30; max_multiplier := zero; weights := default_weights |}) as N.
  { intros c ->. unfold normalizeAutoRoutePoolConfig, decode_config. cbn [or_zero p_strategy strategy]. by rewrite Hs. }
  split; intros Ha.
  - unfold put in E. cbn [see view v_active] in E. rewrite Ha in E. cbn [perform api_auto_update go_server] in E.
    unfold ReplaceAutoRoutePool in E. cbv zeta in E. destruct (_ <? _); [done|]. destruct (List.find _ _); [done|].
    cbn [option_map] in E. rewrite (N _ eq_refl) in E. unfold ListAutoRoutePool, pruneInactiveRoutePoolGroups in E.
    destruct (stale _ _); by injection E as <-.
  - intros Hid. rewrite (named_put w Ha) in E.
    destruct (put_done _ w w' Done (proj1 W) E) as [_ (p & F & Ep & Fq & _)]. cbn [u_id] in F, Ep.
    rewrite (pool_id_trimmed _ Hid) in F, Ep. exists p. split; [done|]. rewrite Ep in Fq. rewrite Fq.
    unfold updated_pool. cbn [u_config u_name u_groupIds or_zero]. rewrite (N _ eq_refl), (draft_normal w R). done.
Qed.

Lemma shown_ids_ok w : world_ok server_ok w -> ids_ok (poolMemberIDs (see w)).
Proof.
  intros (_ & C & _). unfold poolMemberIDs. split; [apply NoDup_ListNoDup, uniq_NoDup|]. apply uniq_Forall.
  destruct (v_detail (see w)) as [d|] eqn:E; [|constructor]. apply (poolDetail_ok _ _ _ C) in E as (_ & _ & H). unfold items_of.
  destruct (d_items d) as [items|]; [|constructor]. destruct H as [_ F]. cbn [or_zero]. apply Forall_map.
  rewrite List.Forall_forall in F |- *. intros i Hi. apply filter_In in Hi as [Hi _]. by apply F.
Qed.

(** A group that joins from the market is put behind the members that are shown, and
    the limits are kept; but while the pool is still loading none is shown, and the group
    replaces them all.  The page of the groups' status refuses then. *)
Theorem join_appends (w w' : World Server) g r : reachable server_ok w ->
  pool_id_ok (activePoolID (bench w)) = true -> isAuto (activePoolID (bench w)) = false -> group_id_ok g = true ->
  let v := see w in
  joinPool false true true g v = Asked r -> perform r w = (w', Done) ->
  exists p q, find_pool (activePoolID (bench w)) (server w) = Some p /\
    find_pool (activePoolID (bench w)) (server w') = Some q /\ pool_name q = pool_name p /\
    pool_members q = member_rows (poolMemberIDs v ++ [g]) /\
    match v_detail v with
    | Some d => routePoolConfig q = limits (d_config d) default_weights
    | None => pool_members q = member_rows [g] /\ exists m, joinCurrentPool true g v = Refused m
    end.
Proof.
  intros R Hid Hn Hg v J E. pose proof (reachable_world_ok server_ok w R) as W.
  unfold joinPool in J. cbn [negb orb] in J. destruct (negb (truthy (v_active v))) eqn:Ht; [done|].
  cbv zeta in J. destruct (memb g (poolMemberIDs v)) eqn:Hm; [done|]. injection J as <-.
  unfold v in E. rewrite (named_put w Hn) in E. fold v in E.
  destruct (put_done _ w w' Done (proj1 W) E) as [_ (p & F & Ep & Fq & _)]. cbn [u_id] in F, Ep.
  rewrite (pool_id_trimmed _ Hid) in F, Ep. rewrite Ep in Fq.
  assert (normalizeAutoRouteGroupIDs (poolMemberIDs v ++ [g]) = poolMemberIDs v ++ [g]) as Eg.
  { destruct (shown_ids_ok w W) as [N I]. fold v in N, I. apply normalize_ids. split.
    - apply NoDup_app. split; [done|]. split; [|apply NoDup_singleton]. intros x Hx Hx'. apply list_elem_of_singleton in Hx' as ->.
      apply memb_not_In in Hm. apply Hm. by apply list_elem_of_In.
    - apply Forall_app. split; [done|]. by constructor. }
  eexists p, _. split; [done|]. split; [exact Fq|]. unfold updated_pool. cbn [pool_name pool_members u_name u_groupIds u_config or_zero].
  split; [done|]. split; [by rewrite Eg|].
  change (poolDetail (activePoolID (bench w)) (cache w)) with (v_detail v). destruct (v_detail v) as [d|] eqn:Ed.
  - assert (detail_ok d) as (_ & Hc & _) by (apply (poolDetail_ok (activePoolID (bench w)) (cache w)); [exact (proj1 (proj2 W)) | exact Ed]).
    destruct (whole_kept d Hc) as (c & -> & ->). exact (limits_kept _ Hc).
  - split.
    + rewrite Eg. unfold poolMemberIDs. by rewrite Ed.
    + unfold joinCurrentPool. rewrite Ht, Ed. by eexists.
Qed.

Lemma taken_last id name ps p s : pool_id p <> id -> pool_name p = name ->
  name_taken id name (with_pools (ps ++ [p]) s) = true.
Proof.
  intros H <-. unfold name_taken. cbn [pools with_pools]. rewrite existsb_app. apply orb_true_iff. right.
  cbn [existsb]. rewrite seqb_refl. apply seqb_neq in H. by rewrite H.
Qed.

(** A pool that the server has created is reported as a failure: its answer has no
    items, which the hook reads.  The list, the pool that is selected and the panel stay as
    they were, and creating it again is refused. *)
Theorem created_pool_reported_failed uuid c (w : World Server) s d :
  CreateRoutePool uuid c (server w) = (s, Ok d) ->
  let '(w', o) := create uuid c w in
  o = Failed cannot_read /\ server w' = s /\ In uuid (map pool_id (pools s)) /\
  pools_data (cache w') = pools_data (cache w) /\ bench w' = bench w /\
  forall uuid', uuid' <> uuid -> exists m, snd (CreateRoutePool uuid' c s) = Err m.
Proof.
  intros E. unfold create. cbn [perform api_create go_server]. rewrite E.
  unfold CreateRoutePool in E. cbv zeta in E.
  destruct (negb (truthy (TrimSpace (c_name c))) || (64 <? rune_count (TrimSpace (c_name c)))) eqn:En; [done|].
  set (ids := normalizeAutoRouteGroupIDs (c_groupIds c)) in *.
  destruct (maxAutoRoutePoolMembers <? length ids) eqn:El; [done|].
  destruct (maxNamedRoutePools <=? length (pools (server w))); [done|].
  destruct (truthy_list ids && _) eqn:Ev; [done|]. destruct (name_taken _ _ _); [done|].
  injection E as <- <-. cbn [written cacheUpdatedRoutePool d_items d_id].
  split; [done|]. split; [done|]. split; [cbn [pools with_pools]; rewrite map_app; apply in_app_iff; right; by left|].
  split; [done|]. split; [done|]. intros uuid' Hne. unfold CreateRoutePool. cbv zeta. rewrite En. fold ids. rewrite El.
  destruct (maxNamedRoutePools <=? _); [by eexists|]. change (eligible ids (with_pools _ _)) with (eligible ids (server w)). rewrite Ev.
  destruct (name_taken _ _ _) eqn:Et; [by eexists|]. exfalso. revert Et. rewrite taken_last; [done | | done].
  cbn [pool_id]. congruence.
Qed.

(** ** Examples *)

Definition sample_group (id : jstr) (m : Z) : Group := {| g_id := id; g_multiplier := of_Z m; g_models := ["gpt"%js] |}.

Definition sample_server : Server :=
  {| existing := ["a"; "b"; "c"]%js; accessible := [sample_group "a" 1; sample_group "b" 2; sample_group "c" 3];
     officials := [sample_group "official:x" 1]; rank := fun _ => 0%Z;
     pools := [{| pool_id := "p"; pool_name := "Main"; pool_strategy := "cost"; pool_attempts := 5; pool_cooldown := 60;
                  pool_ceiling := of_Z 2; pool_members := member_rows ["a"; "b"]%js |}];
     auto_members := []; auto_config := default_config |}.

Lemma sample_server_ok : server_ok sample_server.
Proof.
  split.
  - apply (bool_decide_unpack _). vm_compute. exact I.
  - repeat constructor.
  - repeat constructor; cbn; tauto.
  - repeat constructor.
  - repeat constructor.
Qed.

(** The page opens, the list arrives, the pool is selected, and its members arrive. *)
Definition opened : World Server := step (EReconcile true false) (step EList (init sample_server [])).
Definition loaded : World Server := step (EDetail "p") opened.
Definition removed_b : World Server := step (ERemove "b") loaded.

Lemma opened_reachable : reachable server_ok opened.
Proof. repeat apply reach_step; [apply reach_init; [apply sample_server_ok | reflexivity] | exact I | exact I]. Qed.

Lemma loaded_reachable : reachable server_ok loaded.
Proof. apply reach_step; [apply opened_reachable | exact I]. Qed.

(** A group that was removed, and joins again, is missing from the workbench at once: the
    old draft has the key of the members that are saved now. *)
Lemma removed_then_rejoined :
  let w := step (EJoin true true "b") (step ESave removed_b) in
  option_map (fun p => map fst (pool_members p)) (find_pool "p" (server w)) = Some ["a"; "b"]%js /\
  draftMemberIds (see w) = ["a"%js] /\ isDirty (see w) = true.
Proof. vm_compute. repeat split. Qed.

(** A member above the ceiling is not shown, and any save removes it. *)
Lemma hidden_member_lost :
  let s := with_pools (map (with_members (member_rows ["a"; "c"]%js)) (pools sample_server)) sample_server in
  let w := step (EDetail "p") (with_cache s (cache opened) opened) in
  draftMemberIds (see w) = ["a"%js] /\ isDirty (see w) = false /\
  option_map (fun p => map fst (pool_members p)) (find_pool "p" (server (step (ERename "Other") w))) = Some ["a"%js].
Proof. vm_compute. repeat split. Qed.

(** ** Witnesses *)

Lemma draft_invariant_witness : draftMemberIds (see removed_b) = ["a"%js] /\ isDirty (see removed_b) = true /\
  map group_id (members (see removed_b)) = ["a"%js].
Proof.
  assert (reachable server_ok removed_b) as R by (apply reach_step; [apply loaded_reachable | exact I]).
  destruct (draft_invariant server_ok removed_b R) as (_ & _ & M & D). cbv zeta in *. rewrite M.
  split; [vm_compute; reflexivity|]. split; vm_compute; reflexivity.
Defined.

Lemma save_writes_draft_witness : let w' := fst (perform (saveMemberOrder (draftMemberIds (see removed_b)) (see removed_b)) removed_b) in
  draftMemberIds (see w') = ["a"%js] /\ isDirty (see w') = false.
Proof.
  assert (reachable server_ok removed_b) as R by (apply reach_step; [apply loaded_reachable | exact I]).
  assert (is_Some (v_detail (see removed_b))) as [d Ed] by (vm_compute; eauto).
  destruct (perform (saveMemberOrder (draftMemberIds (see removed_b)) (see removed_b)) removed_b) as [w' o] eqn:E.
  assert (o = Done) as -> by (change o with (snd (w', o)); rewrite <- E; vm_compute; reflexivity).
  destruct (save_writes_draft removed_b w' d Done R) as (p & _ & _ & H); [reflexivity | reflexivity | exact Ed | exact E |].
  destruct H as [H1 H2].
  - assert (option_map (fun d => visible_ids (d_config d) (server removed_b)) (v_detail (see removed_b)) =
            Some ["a"; "b"; "official:x"]%js) as V by (vm_compute; reflexivity).
    rewrite Ed in V. cbn [option_map] in V. apply (inj Some) in V. rewrite V.
    intros x Hx. vm_compute in Hx. cbn. tauto.
  - cbn [fst]. split; [|exact H2]. rewrite H1. vm_compute. reflexivity.
Defined.

Lemma strategy_resets_limits_witness :
  option_map pool_ceiling (find_pool "p" (server (step (EStrategy "score") loaded))) = Some zero.
Proof.
  destruct (perform (setStrategy "score" (see loaded)) loaded) as [w' o] eqn:E.
  assert (o = Done) as -> by (change o with (snd (w', o)); rewrite <- E; vm_compute; reflexivity).
  destruct (strategy_resets_limits loaded w' "score" loaded_reachable) as [_ H]; [right; left; reflexivity | exact E |].
  destruct (H eq_refl eq_refl) as (p & _ & F). cbn [step]. rewrite E. cbn [fst].
  change (activePoolID (bench loaded)) with ("p" : jstr) in F. rewrite F. reflexivity.
Defined.

Lemma join_appends_witness :
  option_map (fun p => map fst (pool_members p)) (find_pool "p" (server (step (EJoin true true "c") opened))) = Some ["c"%js].
Proof.
  set (r := put (see opened) None (poolMemberIDs (see opened) ++ ["c"%js]) (whole_config (v_detail (see opened)))).
  assert (joinPool false true true "c" (see opened) = Asked r) as J by (vm_compute; reflexivity).
  assert (snd (perform r opened) = Done) as E2 by (vm_compute; reflexivity).
  pose proof (surjective_pairing (perform r opened)) as E. rewrite E2 in E.
  destruct (join_appends opened _ "c" r opened_reachable eq_refl eq_refl eq_refl J E) as (p & q & _ & F & _ & M & _).
  cbn [step]. rewrite J. cbn [ask_join]. change (activePoolID (bench opened)) with ("p" : jstr) in F.
  rewrite F. cbn [option_map]. rewrite M. vm_compute. reflexivity.
Defined.

Lemma created_pool_reported_failed_witness :
  snd (create "q" {| c_name := "Spare"; c_groupIds := ["a"%js]; c_config := None |} loaded) = Failed cannot_read.
Proof.
  destruct (CreateRoutePool "q" {| c_name := "Spare"; c_groupIds := ["a"%js]; c_config := None |} (server loaded)) as [s [d|m]] eqn:E;
    [|vm_compute in E; discriminate].
  pose proof (created_pool_reported_failed "q" {| c_name := "Spare"; c_groupIds := ["a"%js]; c_config := None |} loaded s d E) as T.
  revert T. destruct (create _ _ _) as [w' o]. intros (H & _). exact H.
Defined.
