(* ===== verification/PoolBuild.v ===== *)
(** * Route pools: connectivity tests, automatic builds and names

    The panels of [features/dawn/market/pool-workbench.tsx] that test the members of a pool,
    pick models, and propose a pool from the statistics of the market.  [lower] is
    [toLowerCase]; [t_auto] is the translation of the default name. *)

From S2P Require Import Prelude Number RouteServer.
From stdpp Require Import options.

(** ** The name of a generated pool *)

Definition AUTO_NAME : jstr := "自动池".

Definition numbered (name : jstr) (suffix : N) : jstr := name ++ " " ++ digits suffix.

(** [while (existingNames.has(...)) suffix += 1] *)
Definition free_suffix (fuel : nat) (existingNames : list jstr) (name : jstr) : N -> option N :=
  first_free (numbered name) fuel existingNames.

Definition generatedName (t_auto name : jstr) (existingNames : list jstr) : option jstr :=
  let generatedName := str_or (trim name) t_auto in
  if (generatedName =s AUTO_NAME) && memb generatedName existingNames then
    option_map (numbered generatedName) (free_suffix (S (length existingNames)) existingNames generatedName 2%N)
  else Some generatedName.

(** ** Connectivity tests *)

Inductive TestStatus := Queued | Running | Passed | TestFailed.

Record TestItem := { t_group_id : jstr; t_status : TestStatus; quota_charged : number }.
Inductive BatchStatus := BatchQueued | BatchRunning | BatchCompleted | BatchFailed.
Record Batch := { b_id : jstr; b_status : BatchStatus; b_items : list TestItem }.

Definition slice {A} (from to : nat) (l : list A) : list A := firstn (to - from) (skipn from l).

(** [for (let offset = 0; offset < length; offset += 5)] *)
Fixpoint offsets (fuel offset len : nat) : list nat :=
  match fuel with
  | 0 => []
  | S fuel => if offset <? len then offset :: offsets fuel (offset + 5) len else []
  end.

Definition requests (memberIDs : list jstr) : list (list jstr) :=
  map (fun offset => slice offset (offset + 5) memberIDs) (offsets (length memberIDs) 0 (length memberIDs)).

(** The answer to each request; the panel may be gone before it is sent, or before it is
    answered. *)
Inductive Reply := Started (b : Batch) | Threw (message : jstr).

Record Sending := { sent : list (list jstr); started : list Batch; startError : jstr }.

Fixpoint send (mounted_before mounted_after : list jstr -> bool) (reply : list jstr -> Reply)
    (rest : list (list jstr)) (acc : Sending) : Sending :=
  match rest with
  | [] => acc
  | ids :: rest =>
      if negb (mounted_before ids) then acc
      else
        let acc := {| sent := sent acc ++ [ids]; started := started acc; startError := startError acc |} in
        match reply ids with
        | Threw message =>
            if mounted_after ids then {| sent := sent acc; started := started acc; startError := message |} else acc
        | Started batch =>
            if negb (mounted_after ids) then acc
            else send mounted_before mounted_after reply rest
                   {| sent := sent acc; started := started acc ++ [batch]; startError := startError acc |}
        end
  end.

Definition start (running : bool) (selectedModel : jstr) (billingConfirmed : bool)
    (mounted_before mounted_after : list jstr -> bool) (reply : list jstr -> Reply) (memberIDs : list jstr) : option Sending :=
  if running || negb (truthy selectedModel) || negb billingConfirmed || negb (truthy_list memberIDs) then None
  else Some (send mounted_before mounted_after reply (requests memberIDs) {| sent := []; started := []; startError := [] |}).

Definition batch_pending (b : Batch) : bool :=
  match b_status b with BatchQueued | BatchRunning => true | _ => false end.

(** [refetchInterval]: the results are asked for again while one is pending. *)
Definition refetchInterval (error : bool) (data : list Batch) : option Z :=
  if error then None else if existsb batch_pending data then Some 1500%Z else None.

(** [starting || testResults.some(...)] *)
Definition testing (starting : bool) (data : list Batch) : bool := starting || existsb batch_pending data.

Definition test_items (data : list Batch) : list TestItem := concat (map b_items data).
Definition completed (data : list Batch) : nat :=
  length (List.filter (fun i => match t_status i with Passed | TestFailed => true | _ => false end) (test_items data)).
Definition any_failed (startError : jstr) (data : list Batch) : bool :=
  truthy startError || existsb (fun b => match b_status b with BatchFailed => true | _ => false end) data ||
  existsb (fun i => match t_status i with TestFailed => true | _ => false end) (test_items data).

Section Models.
  Context (lower : jstr -> jstr).

Definition offers (models : list jstr) (candidate : jstr) : bool :=
  existsb (fun name => lower name =s lower candidate) models.

Definition commonModels (members : list Item) : list jstr :=
  let first := match members with m :: _ => i_models m | [] => [] end in
  List.filter (fun candidate => forallb (fun m => offers (i_models m) candidate) members) first.

Definition selectedModel (model : jstr) (members : list Item) : jstr :=
  let common := commonModels members in
  if memb model common then model else match common with m :: _ => m | [] => [] end.

(** [AutoBuildModelPicker] *)
Definition toggle (model : jstr) (selected : list jstr) : list jstr :=
  if memb (lower model) (map lower selected)
  then List.filter (fun item => negb (lower item =s lower model)) selected
  else selected ++ [model].

(** ** The proposed pool *)

Record MarketGroup := {
  id : jstr; source_type : jstr; credit_pack_supported : bool;
  request_count : number; lifecycle_status : jstr; verification_status : jstr; models : list jstr;
  avg_consumer_amount : number; avg_consumer_amount_by_model : list (jstr * number);
  success_rate : number; avg_ttft_ms : number; cache_hit_rate : number; observing : bool;
}.

Record BuildWeights := { consumer : number; success : number; ttft : number; cache : number }.

Definition nsum (l : list number) : number := fold_left nadd l zero.

Definition hundred : number := of_Z 100.
Definition infinity : number := S754_infinity false.

Definition positive (amount : number) : option number := if SFltb zero amount then Some amount else None.

Definition selectedAverageConsumerAmount (group : MarketGroup) (wanted : list jstr) : option number :=
  match wanted with
  | [] => positive (avg_consumer_amount group)
  | _ =>
      let amounts := omap (fun target =>
        match List.find (fun e => lower (fst e) =s lower target) (avg_consumer_amount_by_model group) with
        | Some e => positive (snd e)
        | None => None
        end) wanted in
      match amounts with
      | [] => None
      | _ => Some (ndiv (nsum amounts) (of_Z (Z.of_nat (length amounts))))
      end
  end.

Definition norm (value : number) (arr : list number) : number :=
  let min := fold_left nmin arr infinity in
  let max := fold_left nmax arr (nopp infinity) in
  if SFeqb max min then of_Z 1 else ndiv (nsub value min) (nsub max min).

(** What the two lists ask of a group. *)
Definition in_market (creditPackOnly : bool) (wanted : list jstr) (group : MarketGroup) : bool :=
  (source_type group =s "marketplace_user") && (negb creditPackOnly || credit_pack_supported group) &&
  memb (lifecycle_status group) ["active"; "degraded"]%js && (verification_status group =s "passed") &&
  truthy_list (models group) &&
  (negb (truthy_list wanted) || existsb (fun model => offers wanted model) (models group)).

Definition candidates (creditPackOnly : bool) (wanted : list jstr) (groups : list MarketGroup) : list MarketGroup :=
  List.filter (fun g => in_market creditPackOnly wanted g && SFltb zero (request_count g)) groups.

Definition exploration (creditPackOnly : bool) (wanted : list jstr) (groups : list MarketGroup) : list MarketGroup :=
  List.filter (fun g => in_market creditPackOnly wanted g && (observing g || SFeqb (request_count g) zero)) groups.

Definition total (w : BuildWeights) : number := num_or (nsum [consumer w; success w; ttft w; cache w]) (of_Z 1).

Definition percent (x : number) : number := nmul x hundred.

(** 0.05 and 0.95 *)
Definition floor_score : number := of_decimal false 5 (-2).
Definition score_range : number := of_decimal false 95 (-2).

Definition score (w : BuildWeights) (wanted : list jstr) (cs : list MarketGroup) (group : MarketGroup) : number :=
  let consumers := omap (fun g => selectedAverageConsumerAmount g wanted) cs in
  let consumerScore :=
    match selectedAverageConsumerAmount group wanted, consumers with
    | Some amount, _ :: _ => nadd floor_score (nmul score_range (nsub (of_Z 1) (norm amount consumers)))
    | _, _ => zero
    end in
  nmul (ndiv
    (nadd (nadd (nadd (nmul (consumer w) consumerScore)
      (nmul (success w) (norm (percent (success_rate group)) (map (fun g => percent (success_rate g)) cs))))
      (nmul (ttft w) (nsub (of_Z 1) (norm (avg_ttft_ms group) (map avg_ttft_ms cs)))))
      (nmul (cache w) (norm (percent (cache_hit_rate group)) (map (fun g => percent (cache_hit_rate g)) cs))))
    (total w)) hundred.

(** [sort((a, b) => b.score - a.score)] *)
Definition score_le (a b : MarketGroup * number) : bool := negb (SFltb zero (nsub (snd b) (snd a))).

Definition scored (w : BuildWeights) (creditPackOnly : bool) (wanted : list jstr) (groups : list MarketGroup) :
    list (MarketGroup * number) :=
  let cs := candidates creditPackOnly wanted groups in
  stable_sort score_le (map (fun g => (g, score w wanted cs g)) cs).

(** The fields for the numbers, and [slice(0, n)]. *)
Definition setSize (value : number) : number := nmax (of_Z 1) (nmin (of_Z 6) (num_or value (of_Z 1))).
Definition setExplore (value : number) : number := nmax (of_Z 1) (num_or value (of_Z 1)).

Definition slice_to {A} (n : number) (l : list A) : list A :=
  match n with
  | S754_infinity false => l
  | _ => match to_Z (nfloor n) with Some z => firstn (Z.to_nat z) l | None => [] end
  end.

Definition main (w : BuildWeights) (creditPackOnly : bool) (wanted : list jstr) (size : number) (groups : list MarketGroup) :
    list (MarketGroup * number) := slice_to (nmax (of_Z 1) size) (scored w creditPackOnly wanted groups).

Definition explorer (creditPackOnly : bool) (wanted : list jstr) (explore : number) (groups : list MarketGroup) :
    list MarketGroup := slice_to (nmax (of_Z 1) explore) (exploration creditPackOnly wanted groups).

Definition generated (t_auto : jstr) (w : BuildWeights) (creditPackOnly : bool) (wanted : list jstr)
    (size explore : number) (groups : list MarketGroup) (name : jstr) (existingNames : list jstr) : option Creation :=
  let m := main w creditPackOnly wanted size groups in
  let e := explorer creditPackOnly wanted explore groups in
  if truthy_list m || truthy_list e then
    option_map (fun n =>
      {| c_name := n; c_groupIds := map (fun x => id (fst x)) m ++ map id e;
         c_config := Some {| p_strategy := Some "priority"%js; p_max_attempts := None;
                             p_failure_cooldown_seconds := None; p_max_multiplier := None; p_weights := None |} |})
      (generatedName t_auto (str_or (trim name) t_auto) existingNames)
  else None.

End Models.

(** ** Names *)

Lemma numbered_inj name i j : numbered name i = numbered name j -> i = j.
Proof. unfold numbered. intros H. apply app_inv_head in H. injection H as H. by apply digits_inj. Qed.

(** The loop that looks for a free name ends: the default name gets the smallest free
    number from two on, within as many steps as there are names, and any other name is
    taken as it is. *)
Theorem generated_name_free t_auto name existing : exists g, generatedName t_auto name existing = Some g /\
  let base := str_or (trim name) t_auto in
  (base = AUTO_NAME -> ~ In g existing) /\
  (g <> base -> exists n, g = numbered base n /\ (2 <= n)%N /\ In base existing /\
     forall k, (2 <= k < n)%N -> In (numbered base k) existing).
Proof.
  unfold generatedName. cbv zeta. set (base := str_or (trim name) t_auto).
  destruct (seqb_spec base AUTO_NAME) as [E|E]; cbn [andb]; [|by exists base].
  destruct (memb base existing) eqn:M; [|exists base; split; [done|]; split; [intros _; by apply memb_not_In | done]].
  unfold free_suffix. destruct (first_free_ends _ (numbered_inj base) existing 2) as [n F]. rewrite F.
  destruct (first_free_found _ _ _ _ _ F) as (A & B & C). exists (numbered base n). split; [done|].
  split; [done|]. intros _. exists n. split; [done|]. split; [done|]. split; [by apply memb_In | done].
Qed.

(** In another language the default name is not recognized, and a second pool of that name
    is asked for. *)
Lemma translated_name_taken : generatedName "Auto pool" [] ["Auto pool"%js] = Some ("Auto pool"%js).
Proof. reflexivity. Qed.

(** ** Tests *)

Lemma offsets_cover {A} (l : list A) : forall fuel offset, offset + fuel >= length l ->
  concat (map (fun o => slice o (o + 5) l) (offsets fuel offset (length l))) = skipn offset l /\
  Forall (fun ids => 0 < length ids <= 5) (map (fun o => slice o (o + 5) l) (offsets fuel offset (length l))).
Proof.
  induction fuel as [|fuel IH]; intros offset Hf; cbn [offsets].
  - split; [by rewrite skipn_all2 by lia | constructor].
  - destruct (Nat.ltb_spec offset (length l)) as [Ho|Ho].
    + cbn [map concat]. destruct (IH (offset + 5) ltac:(lia)) as [A1 A2]. unfold slice at 1 3.
      replace (offset + 5 - offset) with 5 by lia. split.
      * rewrite A1, Nat.add_comm, <- skipn_skipn. apply firstn_skipn.
      * constructor; [|done]. rewrite length_firstn, length_skipn. lia.
    + split; [by rewrite skipn_all2 by lia | constructor].
Qed.

Lemma requests_cover ids : concat (requests ids) = ids /\ Forall (fun r => 0 < length r <= 5) (requests ids).
Proof. unfold requests. destruct (offsets_cover ids (length ids) 0 ltac:(lia)) as [A B]. done. Qed.

Definition all_started (reply : list jstr -> Reply) (l : list (list jstr)) (bs : list Batch) : Prop :=
  Forall2 (fun ids b => reply ids = Started b) l bs.

Lemma send_spec before after reply rest : forall acc done_,
  sent acc = done_ -> all_started reply done_ (started acc) -> startError acc = [] ->
  let r := send before after reply rest acc in
  exists more left, rest = more ++ left /\ sent r = done_ ++ more /\
    ((all_started reply (sent r) (started r) /\ startError r = []) \/
     (exists ids, sent r = removelast (sent r) ++ [ids] /\ all_started reply (removelast (sent r)) (started r) /\
        (startError r = [] \/ reply ids = Threw (startError r)))) /\
    ((forall ids, before ids = true /\ after ids = true) -> (forall ids, In ids rest -> exists b, reply ids = Started b) ->
     left = [] /\ all_started reply (sent r) (started r) /\ startError r = []).
Proof.
  induction rest as [|ids rest IH]; intros acc d Hs Ha He r.
  - exists [], []. subst r. cbn [send]. rewrite Hs. split; [done|]. split; [by rewrite app_nil_r|].
    split; [by left | done].
  - subst r. cbn [send]. destruct (before ids) eqn:Eb; cbn [negb].
    2: { exists [], (ids :: rest). rewrite Hs. split; [done|]. split; [by rewrite app_nil_r|]. split; [by left|].
         intros H. by destruct (H ids) as [? _]; congruence. }
    assert (removelast (d ++ [ids]) = d) as El by apply removelast_last.
    destruct (reply ids) as [b|m] eqn:Er.
    + destruct (after ids) eqn:Ea; cbn [negb sent started startError].
      * destruct (IH {| sent := sent acc ++ [ids]; started := started acc ++ [b]; startError := startError acc |} (d ++ [ids]))
          as (more & left & E1 & E2 & E3 & E4); [by cbn [sent]; rewrite Hs | cbn [started]; apply Forall2_app; [done | by constructor] | done |].
        exists (ids :: more), left. split; [by rewrite E1|]. split; [by rewrite E2, <- app_assoc|]. split; [exact E3|].
        intros H1 H2. apply E4; [done|]. intros x Hx. apply H2. by right.
      * exists [ids], rest. cbn [sent started startError]. rewrite Hs. split; [done|]. split; [done|]. split.
        -- right. exists ids. rewrite El. split; [done|]. split; [done|]. by left.
        -- intros H. by destruct (H ids) as [_ ?]; congruence.
    + exists [ids], rest. split; [done|]. destruct (after ids); cbn [sent started startError]; rewrite Hs; (split; [done|]); split.
      1, 3: right; exists ids; rewrite El; split; [done|]; split; [done|]; auto.
      all: intros _ H; destruct (H ids (or_introl eq_refl)) as [b Hb]; congruence.
Qed.

(** The test of a pool asks for its members in order, each in one request of at most
    five; the requests that were sent are the first ones, every one but the last has been
    started, and without a failure all are. *)
Theorem tests_cover running model confirmed before after reply ids r :
  start running model confirmed before after reply ids = Some r ->
  running = false /\ confirmed = true /\ model <> [] /\
  concat (requests ids) = ids /\ Forall (fun q => 0 < length q <= 5) (requests ids) /\
  (exists left, requests ids = sent r ++ left) /\
  length (started r) <= length (sent r) <= S (length (started r)) /\
  ((forall q, before q = true /\ after q = true) -> (forall q, In q (requests ids) -> exists b, reply q = Started b) ->
   all_started reply (requests ids) (started r) /\ startError r = []).
Proof.
  unfold start. destruct running; [done|]. destruct (truthy model) eqn:Em; [|done]. destruct confirmed; [|done].
  cbn [orb negb]. destruct (negb (truthy_list ids)); [done|]. intros [= <-].
  destruct (requests_cover ids) as [C1 C2].
  destruct (send_spec before after reply (requests ids) {| sent := []; started := []; startError := [] |} [])
    as (more & left & E1 & E2 & E3 & E4); [done | constructor | done |]. cbn [app] in E2.
  split; [done|]. split; [done|]. split; [by apply truthy_iff|]. split; [done|]. split; [done|].
  split; [exists left; by rewrite E2|]. split.
  - destruct E3 as [[E3 _]|(x & Ex & E3 & _)]; apply Forall2_length in E3; [lia|].
    rewrite Ex, length_app. cbn [length]. lia.
  - intros H1 H2. destruct (E4 H1 H2) as (-> & E5 & E6). rewrite app_nil_r in E1. rewrite E2, <- E1 in E5. done.
Qed.

(** ** Models *)

Section ModelProofs.
  Context (lower : jstr -> jstr).

(** A model of the first member is offered when every member has it. *)
Lemma commonModels_spec m ms x : In x (commonModels lower (m :: ms)) <->
  In x (i_models m) /\ forall k, In k (m :: ms) -> offers lower (i_models k) x = true.
Proof. unfold commonModels. rewrite filter_In, forallb_forall. done. Qed.

Lemma selectedModel_common model members : selectedModel lower model members <> [] ->
  In (selectedModel lower model members) (commonModels lower members).
Proof.
  unfold selectedModel. destruct (memb model (commonModels lower members)) eqn:E; [intros _; by apply memb_In|].
  destruct (commonModels lower members); [done | by left].
Qed.

(** Picking a model that was not picked, twice, changes nothing. *)
Lemma toggle_twice model selected : memb (lower model) (map lower selected) = false ->
  toggle lower model (toggle lower model selected) = selected.
Proof.
  intros H. unfold toggle at 2. rewrite H. unfold toggle.
  assert (memb (lower model) (map lower (selected ++ [model])) = true) as ->.
  { apply memb_In. rewrite map_app. apply in_app_iff. right. by left. }
  rewrite List.filter_app. cbn [List.filter]. rewrite seqb_refl. cbn [negb]. rewrite app_nil_r.
  apply memb_not_In in H. clear -H. induction selected as [|x l IH]; [done|]. cbn [List.filter map In] in *.
  destruct (seqb_spec (lower x) (lower model)) as [E|]; [destruct H; by left|]. cbn [negb]. f_equal. apply IH. tauto.
Qed.

Lemma slice_to_incl {A} n (l : list A) : incl (slice_to n l) l.
Proof.
  assert (forall k, incl (firstn k l) l) as F.
  { intros k x Hx. rewrite <- (firstn_skipn k l). apply in_app_iff. by left. }
  unfold slice_to. destruct n as [| [|] | |]; try (destruct (to_Z _); [apply F | apply incl_nil_l]). apply incl_refl.
Qed.

(** Every group that is proposed is one of the market that the user asked for; a group that
    is observed and has traffic may be proposed twice. *)
Lemma proposed_groups t_auto w only wanted size explore groups name existing c :
  generated lower t_auto w only wanted size explore groups name existing = Some c ->
  Forall (fun i => exists g, In g groups /\ id g = i /\ in_market lower only wanted g = true) (c_groupIds c).
Proof.
  unfold generated. cbv zeta. destruct (_ || _); [|done]. destruct (generatedName _ _ _); [|done]. intros [= <-]. cbn [c_groupIds].
  apply Forall_app. split; apply Forall_map, List.Forall_forall.
  - intros [g x] Hg. apply slice_to_incl in Hg. unfold scored in Hg. apply stable_sort_In, in_map_iff in Hg as (g' & [= <- _] & Hg).
    apply filter_In in Hg as [Hg Hm]. apply andb_prop in Hm as [Hm _]. by exists g'.
  - intros g Hg. apply slice_to_incl, filter_In in Hg as [Hg Hm]. apply andb_prop in Hm as [Hm _]. by exists g.
Qed.

End ModelProofs.

(** ** Examples *)

Definition sample_market (i : jstr) (watched : bool) : MarketGroup :=
  {| id := i; source_type := "marketplace_user"; credit_pack_supported := true; request_count := of_Z 4;
     lifecycle_status := "active"; verification_status := "passed"; models := ["gpt"%js];
     avg_consumer_amount := of_Z 7; avg_consumer_amount_by_model := []; success_rate := of_Z 1;
     avg_ttft_ms := of_Z 200; cache_hit_rate := zero; observing := watched |}.

Definition default_build : BuildWeights := {| consumer := of_Z 25; success := of_Z 35; ttft := of_Z 20; cache := of_Z 20 |}.

(** A group under observation is counted twice. *)
Lemma proposed_twice :
  option_map c_groupIds (generated toLower "Auto" default_build false [] (of_Z 3) (of_Z 1) [sample_market "a" true] [] []) =
  Some ["a"; "a"]%js.
Proof. vm_compute. reflexivity. Qed.

(** The field for the groups to explore has no upper bound, and the server refuses more than
    ten groups. *)
Lemma too_many_proposed :
  let groups := map (fun n => sample_market (digits n) (5 <=? n)%N) (map N.of_nat (seq 1 14)) in
  option_map (fun c => length (normalizeAutoRouteGroupIDs (c_groupIds c)))
    (generated toLower "Auto" default_build false [] (of_Z 3) (setExplore (of_Z 8)) groups [] []) = Some 11.
Proof. vm_compute. reflexivity. Qed.

(** ** Witnesses *)

Lemma tests_cover_witness :
  let ids := ["a"; "b"; "c"; "d"; "e"; "f"]%js in
  concat (requests ids) = ids /\ requests ids = [["a"; "b"; "c"; "d"; "e"]; ["f"]]%js.
Proof.
  destruct (start false "gpt" true (fun _ => true) (fun _ => true) (fun q => Threw "no") ["a"; "b"; "c"; "d"; "e"; "f"]%js) as [r|] eqn:E;
    [|vm_compute in E; discriminate].
  destruct (tests_cover _ _ _ _ _ _ _ r E) as (_ & _ & _ & H & _). split; [exact H | reflexivity].
Defined.
