(* ===== verification/ApiKeys.v ===== *)
(** * API keys: the form and the server

    [features/keys/lib/api-key-form.ts], [features/keys/components/use-api-key-group-options.ts]
    and [features/keys/lib/marketplace-group-options.ts], with the handler that stores what
    the form sends: [internal/identity/transport/http/token_handlers.go] ([UpdateToken]),
    [internal/identity/store/token_store.go] and [token_quota_store.go].

    The form shows the quota of a key as an amount of money ([Quota.v]).  The route pools of
    the user are those of [RouteServer.v].  A date is a whole number of milliseconds; the
    quotient of two such numbers by a thousand is far enough from the next integer for its
    [Math.floor] to be the integer quotient.  Texts are well formed. *)

From S2P Require Import Prelude Number Rounding Quota RouteServer.
From stdpp Require Import options.

(** * Data *)

(** What the server answers about a key. *)
Record ApiKey := {
  k_id : Z;
  k_name : jstr;
  k_status : Z;
  k_remain_quota : number;
  k_used_quota : number;
  k_unlimited_quota : bool;
  k_expired_time : Z;
  k_group : option jstr;
  k_cross_group_retry : bool;
  k_marketplace_multiplier_limit : number;
  k_model_limits_enabled : bool;
  k_model_limits : option jstr;
  k_allow_ips : option jstr;
}.

(** A [Date]: its milliseconds, none when it is invalid. *)
Definition Date : Type := option Z.
Definition new_Date (ms : Z) : Date := if (Z.abs ms <=? 8640000000000000)%Z then Some ms else None.

Record ApiKeyFormValues := {
  name : jstr;
  remain_quota_dollars : option number;
  expired_time : option Date;
  unlimited_quota : bool;
  model_limits : list jstr;
  allow_ips : option jstr;
  group : option jstr;
  cross_group_retry : option bool;
  marketplace_multiplier_limit : option number;
  tokenCount : option Z;
}.

Record ApiKeyFormData := {
  p_name : jstr;
  p_remain_quota : number;
  p_expired_time : Z;
  p_unlimited_quota : bool;
  p_model_limits_enabled : bool;
  p_model_limits : jstr;
  p_allow_ips : jstr;
  p_group : jstr;
  p_cross_group_retry : bool;
  p_marketplace_multiplier_limit : number;
}.


(** * The form *)

Definition DEFAULT_GROUP : jstr := [].

Definition z_optional {A} (ok : A -> bool) (v : option A) : bool :=
  match v with Some x => ok x | None => true end.

(** What the types of the record leave open: numbers are finite and dates valid. *)
Definition getApiKeyFormSchema (v : ApiKeyFormValues) : bool :=
  truthy (name v)
  && z_optional isFinite (remain_quota_dollars v)
  && z_optional (fun d : Date => match d with Some _ => true | None => false end) (expired_time v)
  && z_optional (fun x => isFinite x && (zero <=? x)%num && (x <=? of_Z 1000000)%num)
       (marketplace_multiplier_limit v)
  && z_optional (fun n => (1 <=? n)%Z) (tokenCount v)
  && (unlimited_quota v
      || match remain_quota_dollars v with Some d => negb (d <? zero)%num | None => false end).

Definition API_KEY_FORM_DEFAULT_VALUES : ApiKeyFormValues :=
  {| name := []; remain_quota_dollars := Some (of_Z 10); expired_time := None; unlimited_quota := true;
     model_limits := []; allow_ips := Some []; group := Some DEFAULT_GROUP; cross_group_retry := Some true;
     marketplace_multiplier_limit := Some zero; tokenCount := Some 1%Z |}.

Definition getApiKeyFormDefaultValues (defaultUseAutoGroup : bool) : ApiKeyFormValues :=
  {| name := []; remain_quota_dollars := Some (of_Z 10); expired_time := None; unlimited_quota := true;
     model_limits := []; allow_ips := Some [];
     group := Some (if defaultUseAutoGroup then "auto"%js else DEFAULT_GROUP);
     cross_group_retry := Some defaultUseAutoGroup;
     marketplace_multiplier_limit := Some zero; tokenCount := Some 1%Z |}.

Definition opt_or {A} (o : option A) (d : A) : A := match o with Some a => a | None => d end.

Definition is_group (g : option jstr) (s : jstr) : bool := match g with Some g => g =s s | None => false end.
Definition of_market (g : option jstr) : bool :=
  match g with Some g => startsWith g "market:" | None => false end.

(** [Math.floor(getTime() / 1000)]: an invalid date is none of the schema's. *)
Definition expiry_seconds (d : option Date) : Z :=
  match d with Some (Some ms) => (ms / 1000)%Z | _ => -1 end.

Definition transformFormDataToPayload (stored : option CurrencyConfig) (data : ApiKeyFormValues)
  : ApiKeyFormData :=
  {| p_name := name data;
     p_remain_quota := if unlimited_quota data then zero
                       else parseQuotaFromDollars stored (num_or (opt_or (remain_quota_dollars data) zero) zero);
     p_expired_time := expiry_seconds (expired_time data);
     p_unlimited_quota := unlimited_quota data;
     p_model_limits_enabled := negb (length (model_limits data) =? 0);
     p_model_limits := join "," (model_limits data);
     p_allow_ips := opt_or (allow_ips data) [];
     p_group := opt_or (group data) [];
     p_cross_group_retry := if is_group (group data) "auto" then true
                            else if of_market (group data) then false
                            else opt_or (cross_group_retry data) false;
     p_marketplace_multiplier_limit := num_or (opt_or (marketplace_multiplier_limit data) zero) zero |}.

Definition transformApiKeyToFormDefaults (stored : option CurrencyConfig) (apiKey : ApiKey)
  : ApiKeyFormValues :=
  {| name := k_name apiKey;
     remain_quota_dollars := Some (if k_unlimited_quota apiKey then zero
                                   else quotaUnitsToDollars stored (k_remain_quota apiKey));
     expired_time := if (0 <? k_expired_time apiKey)%Z then Some (new_Date (k_expired_time apiKey * 1000))
                     else None;
     unlimited_quota := k_unlimited_quota apiKey;
     model_limits := if truthy (opt_or (k_model_limits apiKey) [])
                     then List.filter truthy (splitc 44 (opt_or (k_model_limits apiKey) [])) else [];
     allow_ips := Some (opt_or (k_allow_ips apiKey) []);
     group := Some (opt_or (k_group apiKey) DEFAULT_GROUP);
     cross_group_retry := Some (k_cross_group_retry apiKey);
     marketplace_multiplier_limit := Some (num_or (k_marketplace_multiplier_limit apiKey) zero);
     tokenCount := Some 1%Z |}.

(** * The groups that are offered *)

Inductive GroupCategory := Marketplace | MarketplaceAuto | MarketplacePool | Official.

Record KeyGroupOptionResponse := { o_value : jstr; o_label : jstr; o_category : GroupCategory; o_models : list jstr }.
Record ApiKeyGroupOption := { value : jstr; label : jstr; category : GroupCategory; models : list jstr }.

Definition toApiKeyGroupOptions (options : list KeyGroupOptionResponse) : list ApiKeyGroupOption :=
  map (fun o => {| value := o_value o; label := o_label o; category := o_category o; models := o_models o |}) options.

(** [lower] is the lower-casing of the language; the names of the official groups are the
    keys of an object. *)
Section Groups.
Context (lower : jstr -> jstr).

Definition official_offered (key : jstr) : bool :=
  negb (lower (trim key) =s "auto") && negb (lower (trim key) =s "default").

Definition useApiKeyGroupOptions (official : list jstr) (marketplace : list KeyGroupOptionResponse)
  : list ApiKeyGroupOption :=
  toApiKeyGroupOptions marketplace
  ++ map (fun key => {| value := key; label := key; category := Official; models := [] |})
       (List.filter official_offered official).

Definition backendHasAuto (groups : list ApiKeyGroupOption) : bool :=
  existsb (fun g => value g =s "auto") groups.

(** Every option that the server lists begins with [market:]. *)
Lemma auto_never_offered (official : list jstr) (marketplace : list KeyGroupOptionResponse) :
  lower "auto" = "auto" -> Forall (fun o => startsWith (o_value o) "market:" = true) marketplace ->
  backendHasAuto (useApiKeyGroupOptions official marketplace) = false.
Proof.
  intros Hl Hm. unfold backendHasAuto, useApiKeyGroupOptions, toApiKeyGroupOptions.
  rewrite existsb_app. apply orb_false_iff. split.
  - induction Hm as [|o l Ho _ IH]; [easy|]. cbn [map existsb value]. rewrite IH, orb_false_r.
    destruct (seqb_spec (o_value o) "auto") as [E|]; [|easy]. now rewrite E in Ho.
  - induction official as [|k l IH]; [easy|]. cbn [List.filter]. destruct (official_offered k) eqn:E; [|easy].
    cbn [map existsb value]. rewrite IH, orb_false_r. destruct (seqb_spec k "auto") as [->|]; [|easy].
    unfold official_offered in E. change (trim "auto") with ("auto"%js : jstr) in E. now rewrite Hl in E.
Qed.

End Groups.

(** * The server *)

Definition TokenStatusEnabled : Z := 1.
Definition TokenStatusExpired : Z := 3.
Definition TokenStatusExhausted : Z := 4.

Record Token := {
  t_id : Z;
  t_name : jstr;
  t_status : Z;
  t_remain : Z;
  t_used : Z;
  t_unlimited : bool;
  t_expired : Z;
  t_group : jstr;
  t_cross : bool;
  t_multiplier : number;
  t_limits_enabled : bool;
  t_limits : jstr;
  t_ips : option jstr;
}.

(** The answer of [GetToken], less the masked key. *)
Definition key_of (t : Token) : ApiKey :=
  {| k_id := t_id t; k_name := t_name t; k_status := t_status t; k_remain_quota := of_Z (t_remain t);
     k_used_quota := of_Z (t_used t); k_unlimited_quota := t_unlimited t; k_expired_time := t_expired t;
     k_group := Some (t_group t); k_cross_group_retry := t_cross t;
     k_marketplace_multiplier_limit := t_multiplier t; k_model_limits_enabled := t_limits_enabled t;
     k_model_limits := Some (t_limits t); k_allow_ips := t_ips t |}.

(** A number that is decoded into an integer of 64 bits: what is not finite is sent as
    [null], which leaves the zero. *)
Definition decode_int (x : number) : option Z :=
  if isFinite x then
    match to_Z x with
    | Some z => if ((- 2 ^ 63 <=? z) && (z <? 2 ^ 63))%Z then Some z else None
    | None => None
    end
  else Some 0%Z.

(** [ShouldBindJSON]: what is not sent is zero. *)
Definition bind_form (id : Z) (p : ApiKeyFormData) : option Token :=
  match decode_int (p_remain_quota p) with
  | Some q =>
    Some {| t_id := id; t_name := p_name p; t_status := 0; t_remain := q; t_used := 0;
            t_unlimited := p_unlimited_quota p; t_expired := p_expired_time p; t_group := p_group p;
            t_cross := p_cross_group_retry p; t_multiplier := p_marketplace_multiplier_limit p;
            t_limits_enabled := p_model_limits_enabled p; t_limits := p_model_limits p;
            t_ips := Some (p_allow_ips p) |}
  | None => None
  end.

(** [len(token.Name)]: the bytes of UTF-8. *)
Fixpoint byte_length (s : jstr) : nat :=
  match s with
  | [] => 0
  | c :: s' =>
    (if (c <? 128)%N then 1 else if (c <? 2048)%N then 2
     else if ((55296 <=? c) && (c <? 57344))%N then 2 else 3) + byte_length s'
  end.

Definition MaxMarketplaceMultiplierLimit : Z := 1000000.
Definition ValidateMultiplierLimitValue (limit : number) : bool :=
  isFinite limit && negb (limit <? zero)%num && negb (of_Z MaxMarketplaceMultiplierLimit <? limit)%num.

Definition AutoGroupName : jstr := "auto".
Definition LegacyMonthlyPassGroup : jstr := "monthly-pass".
Definition ZeroHourGroup : jstr := "zero-hour".
Definition TokenGroupPrefix : jstr := "market:".
Definition TokenAutoGroupValue : jstr := TokenGroupPrefix ++ "auto".

Definition NormalizeTokenGroup (g : jstr) : jstr :=
  let g := TrimSpace g in if truthy g then g else AutoGroupName.

(** [strings.EqualFold], for a text of small Latin letters: the sign of the kelvin folds to
    the letter, as the capitals do. *)
Definition fold_unit (c : N) : N := if (c =? 8490)%N then 107%N else lower_unit c.
Definition EqualFold (s lowercase : jstr) : bool := map fold_unit s =s lowercase.

Definition IsMarketplaceTokenGroup (v : jstr) : bool := startsWith (TrimSpace v) TokenGroupPrefix.
Definition IsMarketplaceAutoTokenGroup (v : jstr) : bool := EqualFold (TrimSpace v) TokenAutoGroupValue.
Definition pool_prefix : jstr := TokenGroupPrefix ++ "pool:".
Definition IsMarketplaceRoutePoolTokenGroup (v : jstr) : bool := startsWith (TrimSpace v) pool_prefix.
Definition RoutePoolIDFromTokenGroup (v : jstr) : jstr :=
  TrimSpace (opt_or (strip_prefix pool_prefix (TrimSpace v)) (TrimSpace v)).

(** What the user may route to: cards that run, the route pools, and the error of binding a
    group, if it has one. *)
Record Rights := {
  r_card : bool;
  r_zero_hour : bool;
  r_pools : Server;
  r_binding : jstr -> option jstr;
}.

Definition HasRoutePool (s : Server) (poolID : jstr) : bool :=
  match snd (loadRoutePool poolID s) with Some _ => true | None => false end.

Definition normalizeTokenGroupSelection (r : Rights) (g : jstr) (crossGroupRetry : bool)
  : answer (jstr * bool) :=
  let g := NormalizeTokenGroup g in
  if (g =s LegacyMonthlyPassGroup) && negb (r_card r) then Err "倍率卡权益已结束或不可用，请选择其他分组"
  else if (g =s ZeroHourGroup) && negb (r_zero_hour r) then Err "0 倍率卡权益已结束或不可用，请选择其他分组"
  else if g =s AutoGroupName then Ok (g, true)
  else if IsMarketplaceAutoTokenGroup g then Ok (g, false)
  else if IsMarketplaceRoutePoolTokenGroup g then
    if HasRoutePool (r_pools r) (RoutePoolIDFromTokenGroup g) then Ok (g, false)
    else Err "路由池不存在或无权访问"
  else if negb (IsMarketplaceTokenGroup g) then Ok (g, crossGroupRetry)
  else match r_binding r g with Some e => Err e | None => Ok (g, false) end.

(** [int(1000000000 * QuotaPerUnit)] *)
Definition maxQuotaValue (QuotaPerUnit : number) : Z :=
  match to_Z (nfloor (of_Z 1000000000 * QuotaPerUnit)%num) with Some z => z | None => 0 end.

Definition UpdateToken (r : Rights) (QuotaPerUnit : number) (now : Z) (statusOnly : bool)
    (body : option Token) (db : Z -> option Token) : answer Token :=
  match body with
  | None => Err "bind"
  | Some token =>
    if 50 <? byte_length (t_name token) then Err "token.name_too_long"
    else if negb (t_unlimited token) && (t_remain token <? 0)%Z then Err "token.quota_negative"
    else if negb (t_unlimited token) && (maxQuotaValue QuotaPerUnit <? t_remain token)%Z
    then Err "token.quota_exceed_max"
    else if negb (ValidateMultiplierLimitValue (t_multiplier token)) then Err "第三方倍率上限必须在 0 到 1000000 之间，0 表示不限制"
    else match db (t_id token) with
    | None => Err not_found
    | Some clean =>
      if (t_status token =? TokenStatusEnabled)%Z && (t_status clean =? TokenStatusExpired)%Z
         && (t_expired clean <=? now)%Z && negb (t_expired clean =? -1)%Z
      then Err "token.expired_cannot_enable"
      else if (t_status token =? TokenStatusEnabled)%Z && (t_status clean =? TokenStatusExhausted)%Z
              && (t_remain clean <=? 0)%Z && negb (t_unlimited clean)
      then Err "token.exhausted_cannot_enable"
      else if statusOnly then
        Ok {| t_id := t_id clean; t_name := t_name clean; t_status := t_status token;
              t_remain := t_remain clean; t_used := t_used clean; t_unlimited := t_unlimited clean;
              t_expired := t_expired clean; t_group := t_group clean; t_cross := t_cross clean;
              t_multiplier := t_multiplier clean; t_limits_enabled := t_limits_enabled clean;
              t_limits := t_limits clean; t_ips := t_ips clean |}
      else match normalizeTokenGroupSelection r (t_group token) (t_cross token) with
      | Err e => Err e
      | Ok (g, cross) =>
        Ok {| t_id := t_id clean; t_name := t_name token; t_status := t_status clean;
              t_remain := t_remain token; t_used := t_used clean; t_unlimited := t_unlimited token;
              t_expired := t_expired token; t_group := NormalizeTokenGroup g; t_cross := cross;
              t_multiplier := t_multiplier token; t_limits_enabled := t_limits_enabled token;
              t_limits := t_limits token; t_ips := t_ips token |}
      end
    end
  end.

(** A request that costs [quota]: [decreaseTokenQuotaTx]. *)
Definition decreaseTokenQuota (quota : Z) (t : Token) : option Token :=
  if (0 <=? quota)%Z && (quota <=? t_remain t)%Z then
    Some {| t_id := t_id t; t_name := t_name t; t_status := t_status t; t_remain := t_remain t - quota;
            t_used := t_used t + quota; t_unlimited := t_unlimited t; t_expired := t_expired t;
            t_group := t_group t; t_cross := t_cross t; t_multiplier := t_multiplier t;
            t_limits_enabled := t_limits_enabled t; t_limits := t_limits t; t_ips := t_ips t |}
  else None.

(** [AdjustTokenQuota], for what a request costs: a key without a limit is left alone. *)
Definition AdjustTokenQuota (delta : Z) (t : Token) : option Token :=
  if t_unlimited t then Some t else decreaseTokenQuota delta t.

(** Whether a key is accepted: the reason that it is not. *)
Definition tokenInvalidReason (now : Z) (t : Token) : jstr :=
  if (t_status t =? TokenStatusExhausted)%Z then "exhausted"
  else if (t_status t =? TokenStatusExpired)%Z then "expired"
  else if negb (t_status t =? TokenStatusEnabled)%Z then "disabled"
  else if negb (t_expired t =? -1)%Z && (t_expired t <? now)%Z then "expired"
  else if negb (t_unlimited t) && (t_remain t <=? 0)%Z then "exhausted"
  else [].

(** Fields of records that are written out. *)
Ltac form_fields :=
  cbn [name remain_quota_dollars expired_time unlimited_quota model_limits allow_ips group cross_group_retry
       marketplace_multiplier_limit tokenCount k_id k_name k_remain_quota k_unlimited_quota k_expired_time
       k_group k_cross_group_retry k_marketplace_multiplier_limit k_model_limits k_allow_ips opt_or
       p_name p_remain_quota p_expired_time p_unlimited_quota p_model_limits_enabled p_model_limits
       p_allow_ips p_group p_cross_group_retry p_marketplace_multiplier_limit
       t_id t_name t_status t_remain t_used t_unlimited t_expired t_group t_cross t_multiplier
       t_limits_enabled t_limits t_ips].

(** * Opening a key and saving it *)

(** What the form and the server take of a stored key: a name, a quota that may be
    entered (when there is one), a date that [Date] can hold and a valid limit of the
    multiplier.  The group, the allowed models and the addresses are any. *)
Definition savable (QuotaPerUnit : number) (t : Token) : bool :=
  truthy (t_name t) && (byte_length (t_name t) <=? 50)
  && (t_unlimited t
      || (0 <=? t_remain t)%Z && (t_remain t <=? 900000000000000)%Z
         && (t_remain t <=? maxQuotaValue QuotaPerUnit)%Z)
  && (t_expired t <=? 8640000000000)%Z
  && ValidateMultiplierLimitValue (t_multiplier t).

(** The models that the form lists for a key. *)
Definition listed_models (t : Token) : list jstr := List.filter truthy (splitc 44 (t_limits t)).

(** The key that a save without an edit leaves, with [used] spent and the retry [cross]:
    a key without a limit loses its remaining quota, an expiry that is not positive
    becomes the mark of none, the group is trimmed (and [auto] when blank), empty
    names of models go, and the models are enforced exactly when there are some. *)
Definition unedited (used : Z) (cross : bool) (t : Token) : Token :=
  {| t_id := t_id t; t_name := t_name t; t_status := t_status t;
     t_remain := if t_unlimited t then 0 else t_remain t; t_used := used;
     t_unlimited := t_unlimited t; t_expired := if (0 <? t_expired t)%Z then t_expired t else -1;
     t_group := NormalizeTokenGroup (t_group t); t_cross := cross;
     t_multiplier := num_or (t_multiplier t) zero;
     t_limits_enabled := negb (length (listed_models t) =? 0);
     t_limits := join "," (listed_models t); t_ips := Some (opt_or (t_ips t) []) |}.

(** A key as a save of this form leaves it. *)
Definition saved_form (r : Rights) (t : Token) : bool :=
  (negb (t_unlimited t) || (t_remain t =? 0)%Z)
  && ((t_expired t =? -1)%Z || (0 <? t_expired t)%Z)
  && match normalizeTokenGroupSelection r (t_group t) (t_cross t) with
     | Ok (g, cross) => Bool.eqb cross (t_cross t)
     | Err _ => false
     end
  && (NormalizeTokenGroup (t_group t) =s t_group t)
  && match t_multiplier t with S754_zero true => false | _ => true end
  && (join "," (listed_models t) =s t_limits t)
  && Bool.eqb (t_limits_enabled t) (truthy (t_limits t))
  && match t_ips t with Some _ => true | None => false end.

(** The key with all its quota and another count of what was spent. *)
Definition with_used (used : Z) (t : Token) : Token :=
  {| t_id := t_id t; t_name := t_name t; t_status := t_status t; t_remain := t_remain t; t_used := used;
     t_unlimited := t_unlimited t; t_expired := t_expired t; t_group := t_group t; t_cross := t_cross t;
     t_multiplier := t_multiplier t; t_limits_enabled := t_limits_enabled t; t_limits := t_limits t;
     t_ips := t_ips t |}.

Lemma limits_shown s :
  (if truthy s then List.filter truthy (splitc 44 s) else []) = List.filter truthy (splitc 44 s).
Proof. now destruct s. Qed.

Lemma limits_join l : Forall (fun x => truthy x = true) l -> truthy (join "," l) = negb (length l =? 0).
Proof.
  destruct 1 as [|x l Hx _]; [easy|]. destruct l as [|y l]; cbn [join]; destruct x; easy.
Qed.

Lemma limits_enabled s :
  join "," (List.filter truthy (splitc 44 s)) = s ->
  negb (length (List.filter truthy (splitc 44 s)) =? 0) = truthy s.
Proof.
  intros H. rewrite <- limits_join, H; [easy|]. apply List.Forall_forall. now intros x [_ Hx]%filter_In.
Qed.

Lemma NormalizeTokenGroup_idem g : NormalizeTokenGroup (NormalizeTokenGroup g) = NormalizeTokenGroup g.
Proof.
  unfold NormalizeTokenGroup. cbv zeta. destruct (truthy (TrimSpace g)) eqn:E; [|reflexivity].
  now rewrite TrimSpace_idem, E.
Qed.

Lemma market_trimmed g : startsWith g "market:" = true -> startsWith (NormalizeTokenGroup g) "market:" = true.
Proof.
  intros H. unfold NormalizeTokenGroup. cbv zeta.
  assert (startsWith (TrimSpace g) "market:" = true) as H' by now apply TrimSpace_prefix.
  destruct (truthy (TrimSpace g)) eqn:E; [easy|]. now destruct (TrimSpace g).
Qed.

Lemma trimmed_group g : TrimSpace (NormalizeTokenGroup g) = NormalizeTokenGroup g.
Proof.
  unfold NormalizeTokenGroup. cbv zeta. destruct (truthy (TrimSpace g)) eqn:E; [|reflexivity].
  apply TrimSpace_idem.
Qed.

(** The mark of the retry that the form computes makes no difference to the server. *)
Lemma selection_sent r g cross :
  normalizeTokenGroupSelection r g
    (if is_group (Some g) "auto" then true else if of_market (Some g) then false else cross)
  = normalizeTokenGroupSelection r g cross.
Proof.
  unfold normalizeTokenGroupSelection. cbn [is_group of_market]. cbv zeta.
  destruct (_ && negb (r_card r)); [easy|]. destruct (_ && negb (r_zero_hour r)); [easy|].
  destruct (NormalizeTokenGroup g =s AutoGroupName) eqn:Ea; [easy|].
  destruct (seqb_spec g "auto") as [->|_]; [easy|].
  destruct (startsWith g "market:") eqn:Em; [|easy]. apply market_trimmed in Em.
  destruct (IsMarketplaceAutoTokenGroup _); [easy|]. destruct (IsMarketplaceRoutePoolTokenGroup _); [easy|].
  unfold IsMarketplaceTokenGroup. rewrite trimmed_group.
  change TokenGroupPrefix with ("market:"%js : jstr). now rewrite Em.
Qed.

(** The group that is kept is the trimmed one. *)
Lemma selection_group r g cross g' cross' :
  normalizeTokenGroupSelection r g cross = Ok (g', cross') -> g' = NormalizeTokenGroup g.
Proof.
  unfold normalizeTokenGroupSelection. cbv zeta. intros H.
  repeat match type of H with
  | (if ?c then _ else _) = _ => destruct c; try congruence
  | match ?c with Some _ => _ | None => _ end = _ => destruct c; try congruence
  end.
Qed.

(** On numbers the order is total. *)
Lemma compare_opp x y : SFcompare y x = option_map CompOpp (SFcompare x y).
Proof.
  destruct x as [[]|[]| |[] m e], y as [[]|[]| |[] n f]; try easy; cbn [SFcompare].
  all: rewrite (Z.compare_antisym e f); destruct (e ?= f)%Z; try easy.
  all: assert (Pos.compare_cont Eq n m = CompOpp (Pos.compare_cont Eq m n)) as -> by apply (Pos.compare_antisym m n).
  all: cbn [CompOpp option_map]; now destruct (Pos.compare_cont Eq m n).
Qed.

Lemma leb_of_ltb x y : isFinite x = true -> isFinite y = true -> (y <? x)%num = false -> (x <=? y)%num = true.
Proof.
  intros Fx Fy. unfold SFltb, SFleb. rewrite (compare_opp x y).
  assert (exists c, SFcompare x y = Some c) as [c ->].
  { destruct x as [|[]| |[]], y as [|[]| |[]]; try easy; cbn [SFcompare]; eauto.
    all: destruct (_ ?= _)%Z; eauto. all: destruct (_ ?= _)%positive; eauto. }
  now destruct c.
Qed.

Lemma multiplier_kept x :
  ValidateMultiplierLimitValue x = true ->
  num_or (num_or x zero) zero = num_or x zero
  /\ isFinite (num_or x zero) && (zero <=? num_or x zero)%num && (num_or x zero <=? of_Z 1000000)%num = true
  /\ ValidateMultiplierLimitValue (num_or x zero) = true.
Proof.
  intros V. pose proof V as H. unfold ValidateMultiplierLimitValue in H.
  change MaxMarketplaceMultiplierLimit with 1000000%Z in H.
  apply andb_true_iff in H as [[F L%negb_true_iff]%andb_true_iff H%negb_true_iff].
  assert (num_or x zero = x \/ num_or x zero = zero) as [E|E] by (destruct x as [[]|[]| |]; now (left + right)).
  - rewrite !E. split; [easy|]. split; [|easy]. now rewrite F, !leb_of_ltb.
  - now rewrite !E.
Qed.

Record savable_facts (QuotaPerUnit : number) (t : Token) : Prop := {
  sf_name : truthy (t_name t) = true /\ (50 <? byte_length (t_name t)) = false;
  sf_remain : t_unlimited t = false ->
    (0 <= t_remain t <= 900000000000000)%Z /\ (t_remain t <= maxQuotaValue QuotaPerUnit)%Z;
  sf_expired : (t_expired t <= 8640000000000)%Z;
  sf_multiplier : ValidateMultiplierLimitValue (t_multiplier t) = true;
}.

Lemma savable_ok u t : savable u t = true -> savable_facts u t.
Proof.
  unfold savable. intros H. bool_hyps. constructor; try easy.
  - split; [easy|]. now apply Nat.ltb_ge, Nat.leb_le.
  - intros E. rewrite E in *. cbn [orb] in *. bool_hyps. lia.
  - now apply Z.leb_le.
Qed.

(** A key in the form of a save stays what it is. *)
Lemma unedited_id r used t :
  ValidateMultiplierLimitValue (t_multiplier t) = true -> saved_form r t = true ->
  unedited used (t_cross t) t = with_used used t.
Proof.
  unfold saved_form. intros Hm H. bool_hyps. unfold unedited, with_used.
  assert ((if t_unlimited t then 0 else t_remain t)%Z = t_remain t) as ->
    by (destruct (t_unlimited t); [symmetry; now apply Z.eqb_eq|easy]).
  assert ((if 0 <? t_expired t then t_expired t else -1)%Z = t_expired t) as ->
    by (destruct (Z.ltb_spec 0 (t_expired t)); [easy|lia]).
  assert (num_or (t_multiplier t) zero = t_multiplier t) as -> by (destruct (t_multiplier t) as [[]|[]| |]; easy).
  assert (NormalizeTokenGroup (t_group t) = t_group t) as -> by easy.
  assert (E : join "," (listed_models t) = t_limits t) by easy.
  assert (negb (length (listed_models t) =? 0) = t_limits_enabled t) as ->.
  { unfold listed_models in *. rewrite limits_enabled by easy. symmetry. now apply Bool.eqb_prop. }
  rewrite E. now destruct (t_ips t).
Qed.

Lemma of_Z_finite q : (0 <= q < 2 ^ 53)%Z -> isFinite (of_Z q) = true.
Proof.
  intros Hq. destruct (of_Z_zero_cases q) as [->|H]; [lia|easy|].
  apply (normal_finite _ _ _ (of_Z_normal q ltac:(lia))).
Qed.

Lemma decode_units q : (0 <= q <= 900000000000000)%Z -> decode_int (of_Z q) = Some q.
Proof.
  intros Hq. unfold decode_int. rewrite of_Z_finite, to_Z_of_Z by lia.
  destruct (Z.ltb_spec q (2 ^ 63)); [|lia]. now destruct (Z.leb_spec (- 2 ^ 63) q); [|lia].
Qed.

(** What an unedited form sends. *)
Definition unedited_body (t : Token) : Token :=
  {| t_id := t_id t; t_name := t_name t; t_status := 0;
     t_remain := if t_unlimited t then 0 else t_remain t; t_used := 0;
     t_unlimited := t_unlimited t; t_expired := if (0 <? t_expired t)%Z then t_expired t else -1;
     t_group := t_group t;
     t_cross := if is_group (Some (t_group t)) "auto" then true
                else if of_market (Some (t_group t)) then false else t_cross t;
     t_multiplier := num_or (t_multiplier t) zero;
     t_limits_enabled := negb (length (listed_models t) =? 0);
     t_limits := join "," (listed_models t); t_ips := Some (opt_or (t_ips t) []) |}.

Lemma form_back (stored : option CurrencyConfig) u t :
  rates_ok stored = true -> savable_facts u t ->
  bind_form (t_id t) (transformFormDataToPayload stored (transformApiKeyToFormDefaults stored (key_of t)))
  = Some (unedited_body t).
Proof.
  intros Hr [_ Hq He Hm]. destruct (multiplier_kept _ Hm) as [Em _].
  assert (Eq : (if t_unlimited t then zero
                else parseQuotaFromDollars stored (num_or (if t_unlimited t then zero
                       else quotaUnitsToDollars stored (of_Z (t_remain t))) zero))
               = of_Z (if t_unlimited t then 0 else t_remain t)).
  { destruct (t_unlimited t); [easy|]. destruct (Hq eq_refl) as [Hq' _].
    destruct (shown_ok stored (t_remain t) Hr Hq') as (_ & _ & En). rewrite En. now apply units_back. }
  assert (Ee : expiry_seconds (if (0 <? t_expired t)%Z then Some (new_Date (t_expired t * 1000)) else None)
               = if (0 <? t_expired t)%Z then t_expired t else (-1)%Z).
  { unfold new_Date. destruct (Z.ltb_spec 0 (t_expired t)); [|easy].
    destruct (Z.leb_spec (Z.abs (t_expired t * 1000)) 8640000000000000); [|lia]. now apply Z.div_mul. }
  unfold bind_form, transformFormDataToPayload, transformApiKeyToFormDefaults, key_of, unedited_body. form_fields.
  rewrite Eq, Ee, Em, limits_shown, decode_units; [reflexivity|].
  destruct (t_unlimited t); [lia|]. now destruct (Hq eq_refl).
Qed.

Lemma form_valid (stored : option CurrencyConfig) u t :
  rates_ok stored = true -> savable_facts u t ->
  getApiKeyFormSchema (transformApiKeyToFormDefaults stored (key_of t)) = true.
Proof.
  intros Hr [[Hn _] Hq He Hm]. destruct (multiplier_kept _ Hm) as (Em & Ev & _).
  unfold getApiKeyFormSchema, transformApiKeyToFormDefaults, key_of. form_fields. cbn [z_optional].
  rewrite Hn, Ev. cbn [andb].
  assert (z_optional (fun d : Date => match d with Some _ => true | None => false end)
            (if (0 <? t_expired t)%Z then Some (new_Date (t_expired t * 1000)) else None) = true) as ->.
  { destruct (Z.ltb_spec 0 (t_expired t)); [|easy]. cbn [z_optional]. unfold new_Date.
    destruct (Z.leb_spec (Z.abs (t_expired t * 1000)) 8640000000000000); [easy|lia]. }
  destruct (t_unlimited t); [easy|]. destruct (Hq eq_refl) as [Hq' _].
  destruct (shown_ok stored (t_remain t) Hr Hq') as (Hf & Hp & _). cbn [orb andb]. now rewrite Hf, Hp.
Qed.

Lemma body_saved r u now t t' db :
  savable_facts u t -> db (t_id t) = Some t' -> t_id t' = t_id t -> t_status t' = t_status t ->
  UpdateToken r u now false (Some (unedited_body t)) db
  = match normalizeTokenGroupSelection r (t_group t) (t_cross t) with
    | Ok (_, cross) => Ok (unedited (t_used t') cross t)
    | Err e => Err e
    end.
Proof.
  intros [[_ Hn] Hq He Hm] Ht Ei Es. destruct (multiplier_kept _ Hm) as (_ & _ & Hm').
  unfold UpdateToken, unedited_body. form_fields. rewrite Hn, Hm', Ht.
  assert (negb (t_unlimited t) && ((if t_unlimited t then 0 else t_remain t) <? 0)%Z = false) as ->
    by (destruct (t_unlimited t); [easy|]; destruct (Hq eq_refl); cbn [negb andb]; apply Z.ltb_ge; lia).
  assert (negb (t_unlimited t) && (maxQuotaValue u <? (if t_unlimited t then 0 else t_remain t))%Z = false) as ->
    by (destruct (t_unlimited t); [easy|]; destruct (Hq eq_refl); cbn [negb andb]; apply Z.ltb_ge; lia).
  cbn [negb]. change (0 =? TokenStatusEnabled)%Z with false. cbn [andb]. rewrite selection_sent.
  destruct (normalizeTokenGroupSelection r (t_group t) (t_cross t)) as [[g cross]|e] eqn:E; [|easy].
  apply selection_group in E as ->. rewrite NormalizeTokenGroup_idem, Ei, Es. reflexivity.
Qed.

Lemma adjusted_token q t t' :
  AdjustTokenQuota q t = Some t' -> t_id t' = t_id t /\ t_status t' = t_status t.
Proof.
  unfold AdjustTokenQuota, decreaseTokenQuota. intros H. destruct (t_unlimited t); [now injection H as <-|].
  destruct (_ && _); [|easy]. now injection H as <-.
Qed.

(** C7: A key is opened, requests spend [q] of it, and it is saved without a change.  If it
    has a name of at most 50 bytes, a quota that may be entered (or none), an expiry that a
    date can hold and a valid limit of the multiplier, the form passes its schema.  The
    server refuses the save exactly when the group of the key may not be chosen any more.
    Otherwise the key it stores is [unedited]: every field as it was loaded, but for the
    remaining quota of a key without a limit, which becomes 0, an expiry that is not
    positive, which becomes -1, the group, which is trimmed, the retry across groups, which
    is what the server allows for the group, the limits of models, which lose empty names and
    are enforced exactly when one is left, and addresses that are absent, which become empty.
    So a key that is already in this form comes back as it was.  In both cases the quota is
    the one that was loaded: what was spent in between is given back to a key with a limit. *)
Theorem unedited_save (stored : option CurrencyConfig) (r : Rights) (QuotaPerUnit : number) (now q : Z)
    (t t' : Token) (db : Z -> option Token) :
  rates_ok stored = true -> savable QuotaPerUnit t = true ->
  AdjustTokenQuota q t = Some t' -> db (t_id t) = Some t' ->
  let form := transformApiKeyToFormDefaults stored (key_of t) in
  let answer := UpdateToken r QuotaPerUnit now false (bind_form (t_id t) (transformFormDataToPayload stored form)) db in
  getApiKeyFormSchema form = true
  /\ answer = match normalizeTokenGroupSelection r (t_group t) (t_cross t) with
              | Ok (_, cross) => Ok (unedited (t_used t') cross t)
              | Err e => Err e
              end
  /\ (saved_form r t = true -> answer = Ok (with_used (t_used t') t)).
Proof.
  intros Hr Hp%savable_ok Hd%adjusted_token Ht. destruct Hd as [Hi Hs]. cbn zeta.
  rewrite (form_back _ QuotaPerUnit), (body_saved _ _ _ _ t') by easy.
  split; [now apply (form_valid _ QuotaPerUnit)|]. split; [easy|]. intros Hf.
  rewrite <- (unedited_id r) by (easy || apply Hp). unfold saved_form in Hf. bool_hyps.
  destruct (normalizeTokenGroupSelection _ _ _) as [[g c]|]; [|easy].
  do 2 f_equal. now apply Bool.eqb_prop.
Qed.

Definition no_pools : Server :=
  {| accessible := []; existing := []; officials := []; rank := fun _ => 0%Z; auto_members := [];
     auto_config := default_config; pools := [] |}.
Definition some_rights : Rights :=
  {| r_card := false; r_zero_hour := false; r_pools := no_pools; r_binding := fun _ => None |}.

Definition market_token : Token :=
  {| t_id := 7; t_name := "build"; t_status := 1; t_remain := 1234567; t_used := 5; t_unlimited := false;
     t_expired := 1900000000; t_group := "market:g1"; t_cross := false; t_multiplier := Number_str "1.3";
     t_limits_enabled := true; t_limits := "gpt-4.1,claude-sonnet-4"; t_ips := Some "10.0.0.0/8" |}.

(** The key that the repository creates for a new user: no limit, and a quota. *)
Definition initial_token : Token :=
  {| t_id := 8; t_name := "ann的初始令牌"; t_status := 1; t_remain := 500000; t_used := 0; t_unlimited := true;
     t_expired := -1; t_group := []; t_cross := false; t_multiplier := zero;
     t_limits_enabled := false; t_limits := []; t_ips := None |}.

Definition reopened (t t' : Token) : answer Token :=
  UpdateToken some_rights (of_Z 500000) 0 false
    (bind_form (t_id t) (transformFormDataToPayload (Some cny_config)
       (transformApiKeyToFormDefaults (Some cny_config) (key_of t)))) (fun _ => Some t').

(** The first key after requests that cost 234567. *)
Definition market_spent : Token :=
  {| t_id := 7; t_name := "build"; t_status := 1; t_remain := 1000000; t_used := 234572; t_unlimited := false;
     t_expired := 1900000000; t_group := "market:g1"; t_cross := false; t_multiplier := Number_str "1.3";
     t_limits_enabled := true; t_limits := "gpt-4.1,claude-sonnet-4"; t_ips := Some "10.0.0.0/8" |}.

Lemma unedited_save_witness :
  AdjustTokenQuota 234567 market_token = Some market_spent
  /\ reopened market_token market_spent = Ok (with_used 234572 market_token)
  /\ reopened initial_token initial_token = Ok (unedited 0 true initial_token)
  /\ t_remain (unedited 0 true initial_token) = 0%Z.
Proof.
  split; [reflexivity|]. split; [|split; [|reflexivity]].
  - refine (proj2 (proj2 (unedited_save (Some cny_config) some_rights (of_Z 500000) 0 234567
      market_token market_spent (fun _ => Some market_spent) _ _ _ _)) _); vm_compute; reflexivity.
  - refine (proj1 (proj2 (unedited_save (Some cny_config) some_rights (of_Z 500000) 0 99
      initial_token initial_token (fun _ => Some initial_token) _ _ _ _))); vm_compute; reflexivity.
Defined.

(** What is saved in the form does not enable a key again: a key that ran out and is given
    quota stays refused. *)
Lemma topped_up_refused r u now token db t t' later :
  db (t_id token) = Some t -> t_status t = TokenStatusExhausted ->
  UpdateToken r u now false (Some token) db = Ok t' -> tokenInvalidReason later t' = "exhausted"%js.
Proof.
  intros Ht Hs H. unfold UpdateToken in H. rewrite Ht, Hs in H.
  assert (t_status t' = TokenStatusExhausted) as E.
  { repeat match type of H with
    | (if ?c then _ else _) = _ => destruct c; [easy|]
    | context [normalizeTokenGroupSelection ?a ?b ?c] => destruct (normalizeTokenGroupSelection a b c) as [[g cr]|]; [|easy]
    end.
    injection H as <-. reflexivity. }
  unfold tokenInvalidReason. now rewrite E.
Qed.
