(* ===== verification/KeyDrawer.v ===== *)
(** * The drawer of an API key

    [features/keys/components/api-keys-mutate-drawer.tsx], with the fields of
    [api-key-basic-section.tsx] and [api-key-access-sections.tsx].

    One drawer creates keys and edits one.  An edit waits for the details of its key, which
    the query library keeps only while the drawer shows them ([gcTime: 0]); one reading per
    key is under way at a time, and a drawer that is opened again joins it.  A creation is a
    loop of requests, one for each key, which waits for every answer.

    The form library tells whether the form was changed; it need not follow this before it is
    asked, so that its mark is part of every edit.  The answers of the server arrive when
    they want. *)

From S2P Require Import Prelude Number Quota ApiKeys.
From stdpp Require Import options.

(** ** The fields *)

Inductive Edit :=
| SetName (s : jstr)
| SetGroup (s : jstr)
| SetMultiplierLimit (text : jstr)
| SetExpiredTime (d : option Date)
| SetTokenCount (parsed : option Z)
| SetRemainQuota (text : jstr)
| SetUnlimited (b : bool)
| SetModelLimits (l : list jstr)
| SetAllowIps (s : jstr).

(** [parseInt(text, 10) || 1] of what was parsed. *)
Definition count_or_one (parsed : option Z) : Z :=
  match parsed with Some z => if (z =? 0)%Z then 1 else z | None => 1 end.

Definition edit (e : Edit) (v : ApiKeyFormValues) : ApiKeyFormValues :=
  {| name := match e with SetName s => s | _ => name v end;
     remain_quota_dollars :=
       match e with SetRemainQuota text => Some (num_or (parseFloat text) zero) | _ => remain_quota_dollars v end;
     expired_time := match e with SetExpiredTime d => d | _ => expired_time v end;
     unlimited_quota := match e with SetUnlimited b => b | _ => unlimited_quota v end;
     model_limits := match e with SetModelLimits l => l | _ => model_limits v end;
     allow_ips := match e with SetAllowIps s => Some s | _ => allow_ips v end;
     group := match e with SetGroup s => Some s | _ => group v end;
     cross_group_retry := cross_group_retry v;
     marketplace_multiplier_limit :=
       match e with
       | SetMultiplierLimit text => if truthy text then Some (Number_str text) else None
       | _ => marketplace_multiplier_limit v
       end;
     tokenCount := match e with SetTokenCount p => Some (count_or_one p) | _ => tokenCount v end |}.

(** ** The drawer *)

Inductive Mode := Closed | Creating | Updating (id : Z).
#[export] Instance mode_eq_dec : EqDecision Mode.
Proof. solve_decision. Defined.

Inductive Request := CreateRequest (payload : ApiKeyFormData) | UpdateRequest (id : Z) (payload : ApiKeyFormData).

(** What [onSubmit] waits for: the answer to an update, or the loop of a creation at its
    [i]-th key, with the keys that were created. *)
Inductive Task :=
| TUpdate
| TCreate (payload : ApiKeyFormData) (data_name : jstr) (count i successCount : Z).

Inductive Toast := Updated | Created (count : Z) | Failed.

Record World := {
  w_mode : Mode;
  w_form : ApiKeyFormValues;
  w_base : ApiKeyFormValues;          (** the default values of the form library *)
  w_dirty : bool;
  w_default_auto : bool;
  w_backend_auto : bool;
  w_data : option ApiKey;             (** the details of the key that is open *)
  w_error : bool;
  w_fetching : list Z;
  w_task : option Task;
  w_sent : list Request;
  w_toasts : list Toast;
}.

Definition with_mode (m : Mode) (w : World) : World :=
  {| w_mode := m; w_form := w_form w; w_base := w_base w; w_dirty := w_dirty w;
     w_default_auto := w_default_auto w; w_backend_auto := w_backend_auto w; w_data := None; w_error := false;
     w_fetching := w_fetching w; w_task := w_task w; w_sent := w_sent w; w_toasts := w_toasts w |}.
Definition with_form (f : ApiKeyFormValues) (dirty : bool) (w : World) : World :=
  {| w_mode := w_mode w; w_form := f; w_base := w_base w; w_dirty := dirty;
     w_default_auto := w_default_auto w; w_backend_auto := w_backend_auto w; w_data := w_data w; w_error := w_error w;
     w_fetching := w_fetching w; w_task := w_task w; w_sent := w_sent w; w_toasts := w_toasts w |}.
(** [form.reset(v)] *)
Definition reset (v : ApiKeyFormValues) (w : World) : World :=
  {| w_mode := w_mode w; w_form := v; w_base := v; w_dirty := false;
     w_default_auto := w_default_auto w; w_backend_auto := w_backend_auto w; w_data := w_data w; w_error := w_error w;
     w_fetching := w_fetching w; w_task := w_task w; w_sent := w_sent w; w_toasts := w_toasts w |}.
Definition with_status (default_auto backend_auto : bool) (w : World) : World :=
  {| w_mode := w_mode w; w_form := w_form w; w_base := w_base w; w_dirty := w_dirty w;
     w_default_auto := default_auto; w_backend_auto := backend_auto; w_data := w_data w; w_error := w_error w;
     w_fetching := w_fetching w; w_task := w_task w; w_sent := w_sent w; w_toasts := w_toasts w |}.
Definition with_query (data : option ApiKey) (error : bool) (fetching : list Z) (w : World) : World :=
  {| w_mode := w_mode w; w_form := w_form w; w_base := w_base w; w_dirty := w_dirty w;
     w_default_auto := w_default_auto w; w_backend_auto := w_backend_auto w; w_data := data; w_error := error;
     w_fetching := fetching; w_task := w_task w; w_sent := w_sent w; w_toasts := w_toasts w |}.
Definition with_task (t : option Task) (sent : list Request) (toasts : list Toast) (w : World) : World :=
  {| w_mode := w_mode w; w_form := w_form w; w_base := w_base w; w_dirty := w_dirty w;
     w_default_auto := w_default_auto w; w_backend_auto := w_backend_auto w; w_data := w_data w; w_error := w_error w;
     w_fetching := w_fetching w; w_task := t; w_sent := w_sent w ++ sent; w_toasts := w_toasts w ++ toasts |}.

Definition start (default_auto backend_auto : bool) : World :=
  {| w_mode := Closed; w_form := getApiKeyFormDefaultValues default_auto;
     w_base := getApiKeyFormDefaultValues default_auto; w_dirty := false;
     w_default_auto := default_auto; w_backend_auto := backend_auto; w_data := None; w_error := false;
     w_fetching := []; w_task := None; w_sent := []; w_toasts := [] |}.

Section Drawer.
Context (stored : option CurrencyConfig).

Definition isFetching (id : Z) (w : World) : bool := existsb (Z.eqb id) (w_fetching w).

Definition detailsReady (w : World) : bool :=
  match w_mode w with
  | Updating id =>
    match w_data w with Some _ => negb (isFetching id w) && negb (w_error w) | None => false end
  | _ => true
  end.

(** The effect that fills the form. *)
Definition effect (w : World) : World :=
  match w_mode w with
  | Closed => w
  | Updating id =>
    match w_data w with
    | Some k => if isFetching id w then w else reset (transformApiKeyToFormDefaults stored k) w
    | None => w
    end
  | Creating => if w_dirty w then w else reset (getApiKeyFormDefaultValues (w_default_auto w && w_backend_auto w)) w
  end.

Definition fetch (id : Z) (w : World) : World :=
  if isFetching id w then w else with_query (w_data w) (w_error w) (w_fetching w ++ [id]) w.

(** The name of the [i]-th key of a creation. *)
Definition created_name (data_name suffix : jstr) (i : Z) : jstr :=
  if (i =? 0)%Z && truthy data_name then data_name
  else str_or data_name "default" ++ "-" ++ suffix.

Definition renamed (n : jstr) (p : ApiKeyFormData) : ApiKeyFormData :=
  {| p_name := n; p_remain_quota := p_remain_quota p; p_expired_time := p_expired_time p;
     p_unlimited_quota := p_unlimited_quota p; p_model_limits_enabled := p_model_limits_enabled p;
     p_model_limits := p_model_limits p; p_allow_ips := p_allow_ips p; p_group := p_group p;
     p_cross_group_retry := p_cross_group_retry p;
     p_marketplace_multiplier_limit := p_marketplace_multiplier_limit p |}.

(** [onOpenChange(false)] of the parent: the form is not reset. *)
Definition leave (w : World) : World := with_mode Closed w.

(** The end of the loop. *)
Definition finish (successCount : Z) (w : World) : World :=
  let w := with_task None [] [] w in
  if (0 <? successCount)%Z then leave (with_task None [] [Created successCount] w) else w.

(** The head of the loop. *)
Definition create_next (payload : ApiKeyFormData) (data_name : jstr) (count i successCount : Z) (suffix : jstr)
    (w : World) : World :=
  if (i <? count)%Z then
    with_task (Some (TCreate payload data_name count i successCount))
      [CreateRequest (renamed (created_name data_name suffix i) payload)] [] w
  else finish successCount w.

Definition onSubmit (suffix : jstr) (w : World) : World :=
  let data := w_form w in
  let basePayload := transformFormDataToPayload stored data in
  match w_mode w with
  | Updating id => with_task (Some TUpdate) [UpdateRequest id basePayload] [] w
  | _ =>
    let count := match tokenCount data with Some n => if (n =? 0)%Z then 1 else n | None => 1 end%Z in
    create_next basePayload (name data) count 0 0 suffix w
  end.

Inductive Reply := Success | Refusal | Exception.

Definition answer (r : Reply) (suffix : jstr) (w : World) : option World :=
  match w_task w with
  | None => None
  | Some TUpdate =>
    Some (match r with
          | Success => leave (with_task None [] [Updated] w)
          | Refusal | Exception => with_task None [] [Failed] w
          end)
  | Some (TCreate payload data_name count i successCount) =>
    Some (match r with
          | Success => create_next payload data_name count (i + 1) (successCount + 1) suffix w
          | Refusal => finish successCount (with_task None [] [Failed] w)
          | Exception => with_task None [] [Failed] w
          end)
  end.

Inductive Event :=
| EOpenCreate
| EOpenUpdate (id : Z)
| EClose                                     (** by the frame of the drawer *)
| EStatus (default_auto backend_auto : bool) (** settings or groups arrive *)
| EDetails (id : Z) (r : option ApiKey)
| ERefetch                                   (** the retry button, or a connection that is back *)
| EEdit (e : Edit) (mark : bool)
| ESubmit (suffix : jstr)
| EAnswer (r : Reply) (suffix : jstr).

Definition is_open (w : World) : bool := match w_mode w with Closed => false | _ => true end.

(** [None]: it cannot happen now. *)
Definition step (w : World) (e : Event) : option World :=
  match e with
  | EOpenCreate => if is_open w then None else Some (effect (with_mode Creating w))
  | EOpenUpdate id => if is_open w then None else Some (effect (fetch id (with_mode (Updating id) w)))
  | EClose => if is_open w then Some (reset (w_base w) (leave w)) else None
  | EStatus d b => Some (if Bool.eqb d (w_default_auto w) && Bool.eqb b (w_backend_auto w) then w
                         else effect (with_status d b w))
  | EDetails id r =>
    if isFetching id w then
      let fetching := List.filter (fun i => negb (i =? id)%Z) (w_fetching w) in
      Some (if bool_decide (w_mode w = Updating id) then
              effect (match r with
                      | Some k => with_query (Some k) false fetching w
                      | None => with_query (w_data w) true fetching w
                      end)
            else with_query (w_data w) (w_error w) fetching w)
    else None
  | ERefetch => match w_mode w with
                | Updating id => if isFetching id w then None else Some (fetch id w)
                | _ => None
                end
  | EEdit e mark =>
    if is_open w && detailsReady w then Some (with_form (edit e (w_form w)) mark w) else None
  | ESubmit suffix =>
    if is_open w && detailsReady w && match w_task w with None => true | Some _ => false end
    then Some (if getApiKeyFormSchema (w_form w) then onSubmit suffix w else w)
    else None
  | EAnswer r suffix => answer r suffix w
  end.

Fixpoint steps (w : World) (es : list Event) : option World :=
  match es with
  | [] => Some w
  | e :: es => match step w e with Some w' => steps w' es | None => None end
  end.

(** * What is sent for a key was loaded from it *)

Definition edits (es : list Edit) (v : ApiKeyFormValues) : ApiKeyFormValues :=
  fold_left (fun v e => edit e v) es v.

Lemma edits_snoc es e v : edits (es ++ [e]) v = edit e (edits es v).
Proof. unfold edits. now rewrite fold_left_app. Qed.

Definition of_key (k : ApiKey) (v : ApiKeyFormValues) : Prop :=
  exists es, v = edits es (transformApiKeyToFormDefaults stored k).

Record own (past : list Event) (w : World) : Prop := {
  own_closed : w_mode w = Closed \/ w_mode w = Creating -> w_data w = None;
  own_data id k : w_mode w = Updating id -> w_data w = Some k -> In (EDetails id (Some k)) past;
  own_form id k : w_mode w = Updating id -> w_data w = Some k -> isFetching id w = true \/ of_key k (w_form w);
  own_sent id p : In (UpdateRequest id p) (w_sent w) ->
    exists k v, In (EDetails id (Some k)) past /\ of_key k v /\ getApiKeyFormSchema v = true
                /\ p = transformFormDataToPayload stored v;
}.

Lemma own_past past e w : own past w -> own (past ++ [e]) w.
Proof.
  intros [H1 H2 H3 H4]. constructor; [easy| |easy|].
  - intros id k Hm Hd. apply in_app_iff. left. eauto.
  - intros id p Hp. destruct (H4 id p Hp) as (k & v & Hk & H). exists k, v. split; [apply in_app_iff; now left|easy].
Qed.

(** What neither opens, fetches nor sends an update keeps it. *)
Lemma own_same past w w' :
  own past w -> w_mode w' = w_mode w -> w_data w' = w_data w ->
  (forall id, w_mode w = Updating id -> isFetching id w = true -> isFetching id w' = true) ->
  (forall k, of_key k (w_form w) -> of_key k (w_form w')) ->
  (forall id p, In (UpdateRequest id p) (w_sent w') -> In (UpdateRequest id p) (w_sent w)) -> own past w'.
Proof.
  intros [H1 H2 H3 H4] Em Ed Ef Hf Hs. constructor; rewrite ?Em, ?Ed; eauto.
  intros id k Hm Hd. destruct (H3 id k Hm Hd); auto.
Qed.

Lemma own_closed_keeps past w w' :
  own past w -> w_mode w' = Closed \/ w_mode w' = Creating -> w_data w' = None ->
  (forall id p, In (UpdateRequest id p) (w_sent w') -> In (UpdateRequest id p) (w_sent w)) -> own past w'.
Proof.
  intros [H1 H2 H3 H4] Hm Hd Hs. constructor; [easy| | |eauto].
  - intros id k E. destruct Hm; congruence.
  - intros id k E. destruct Hm; congruence.
Qed.

(** The effect may only make the form that of the key. *)
Lemma own_effect past w :
  (w_mode w = Closed \/ w_mode w = Creating -> w_data w = None) ->
  (forall id k, w_mode w = Updating id -> w_data w = Some k -> In (EDetails id (Some k)) past) ->
  (forall id p, In (UpdateRequest id p) (w_sent w) ->
    exists k v, In (EDetails id (Some k)) past /\ of_key k v /\ getApiKeyFormSchema v = true
                /\ p = transformFormDataToPayload stored v) ->
  own past (effect w).
Proof.
  intros H1 H2 H4. unfold effect. destruct (w_mode w) as [| |i] eqn:Em.
  - constructor; rewrite ?Em; intros; congruence || eauto.
  - destruct (w_dirty w); constructor; cbn [reset w_mode w_data w_sent]; rewrite ?Em; intros; congruence || eauto.
  - destruct (w_data w) as [k|] eqn:Ed.
    + destruct (isFetching i w) eqn:Ef; constructor; cbn [reset w_mode w_data w_sent w_form]; rewrite ?Em, ?Ed;
        intros; simplify_eq; try (destruct H as [?|?]; congruence); eauto.
      right. now exists [].
    + constructor; rewrite ?Em, ?Ed; intros; congruence || eauto.
Qed.

Lemma of_key_edit k e v : of_key k v -> of_key k (edit e v).
Proof. intros [es ->]. exists (es ++ [e]). now rewrite edits_snoc. Qed.

Lemma no_update_sent ls (sent : list Request) id p :
  (forall r, In r ls -> match r with UpdateRequest _ _ => False | CreateRequest _ => True end) ->
  In (UpdateRequest id p) (sent ++ ls) -> In (UpdateRequest id p) sent.
Proof. intros H [|Hr]%in_app_iff; [easy|]. now destruct (H _ Hr). Qed.

Lemma own_create past w payload nm n i k suffix :
  own past w -> own past (create_next payload nm n i k suffix w).
Proof.
  intros H. unfold create_next, finish. destruct (i <? n)%Z.
  - apply (own_same _ w); cbn [with_task w_mode w_data w_fetching w_form w_sent]; try easy.
    intros id p. apply no_update_sent. now intros r [<-|[]].
  - destruct (0 <? k)%Z.
    + apply (own_closed_keeps _ w); [easy|now left|easy|]. cbn. intros id p. now rewrite !app_nil_r.
    + apply (own_same _ w); cbn [with_task w_mode w_data w_fetching w_form w_sent]; try easy.
      intros id p. now rewrite app_nil_r.
Qed.

Lemma own_answer past w r suffix w' : own past w -> answer r suffix w = Some w' -> own past w'.
Proof.
  intros H E. unfold answer in E. destruct (w_task w) as [[|payload nm n i k]|]; [| |easy].
  - destruct r; injection E as <-.
    + apply (own_closed_keeps _ w); [easy|now left|easy|]. cbn. intros id p. now rewrite app_nil_r.
    + apply (own_same _ w); cbn [with_task w_mode w_data w_fetching w_form w_sent]; try easy.
      intros id p. now rewrite app_nil_r.
    + apply (own_same _ w); cbn [with_task w_mode w_data w_fetching w_form w_sent]; try easy.
      intros id p. now rewrite app_nil_r.
  - assert (Ht : own past (with_task None [] [Failed] w)).
    { apply (own_same _ w); cbn [with_task w_mode w_data w_fetching w_form w_sent]; try easy.
      intros id p. now rewrite app_nil_r. }
    destruct r; injection E as <-; [now apply own_create| |easy]. unfold finish. destruct (0 <? k)%Z.
    + apply (own_closed_keeps _ w); [easy|now left|easy|]. cbn. intros id p. now rewrite !app_nil_r.
    + apply (own_same _ (with_task None [] [Failed] w)); cbn [with_task w_mode w_data w_fetching w_form w_sent]; try easy.
      intros id p. now rewrite !app_nil_r.
Qed.

Lemma own_submit past w suffix :
  own past w -> detailsReady w = true -> getApiKeyFormSchema (w_form w) = true -> own past (onSubmit suffix w).
Proof.
  intros H Hr Hs. unfold onSubmit. destruct (w_mode w) as [| |id] eqn:Em; [now apply own_create..|].
  unfold detailsReady in Hr. rewrite Em in Hr. destruct (w_data w) as [k|] eqn:Ed; [|easy].
  apply andb_true_iff in Hr as [Hf%negb_true_iff _].
  destruct H as [H1 H2 H3 H4]. destruct (H3 id k Em Ed) as [?|Hk]; [congruence|].
  constructor; cbn [with_task w_mode w_data w_form w_sent]; rewrite ?Em, ?Ed; [now intros [|]|now rewrite <- Em, <- Ed|..].
  { intros i j _ [= <-]. now right. }
  intros id' p [Hp|[[= <- <-]|[]]]%in_app_iff; [now apply H4|]. exists k, (w_form w). eauto.
Qed.

Lemma own_step past w e w' : own past w -> step w e = Some w' -> own (past ++ [e]) w'.
Proof.
  intros H E. pose proof (own_past _ e _ H) as Hp. destruct H as [H1 H2 H3 H4]. unfold step in E. destruct e.
  - destruct (is_open w); [easy|]. injection E as <-. apply own_effect; [easy..|apply Hp].
  - destruct (is_open w); [easy|]. injection E as <-. unfold fetch. destruct (isFetching _ _).
    all: apply own_effect; [intros [|]; easy| |apply Hp]; intros ? ? _; easy.
  - destruct (is_open w); [|easy]. injection E as <-. apply (own_closed_keeps _ w); [easy|now left|easy..].
  - injection E as <-. destruct (_ && _); [easy|]. apply own_effect; apply Hp.
  - destruct (isFetching id w); [|easy]. injection E as <-. case_bool_decide as Em.
    + apply own_effect; destruct r as [k|]; cbn [with_query w_mode w_data w_sent]; try apply Hp.
      * rewrite Em. now intros [|].
      * intros i j Hi [= <-]. assert (i = id) as -> by congruence. apply in_app_iff. right. now left.
    + apply (own_same _ w); cbn [with_query w_mode w_data w_sent w_form]; try easy.
      intros i Hi Hf. unfold isFetching in *. cbn [with_query w_fetching].
      apply existsb_exists in Hf as (x & Hx & ->%Z.eqb_eq). apply existsb_exists. exists x. split; [|apply Z.eqb_refl].
      apply filter_In. split; [easy|]. apply negb_true_iff, Z.eqb_neq. congruence.
  - destruct (w_mode w) as [| |id] eqn:Em; try easy. destruct (isFetching id w) eqn:Ef; [easy|]. injection E as <-.
    unfold fetch. rewrite Ef. apply (own_same _ w); cbn [with_query w_mode w_data w_sent w_form]; try easy.
    intros i Hi Hf. unfold isFetching in *. cbn [with_query w_fetching]. now rewrite existsb_app, Hf.
  - destruct (is_open w && detailsReady w) eqn:Hr; [|easy]. injection E as <-. apply andb_true_iff in Hr as [_ Hr].
    apply (own_same _ w); cbn [with_form w_mode w_data w_sent w_form]; try easy. intros k. apply of_key_edit.
  - destruct (is_open w && detailsReady w && _) eqn:Hr; [|easy]. injection E as <-.
    apply andb_true_iff in Hr as [[_ Hr]%andb_true_iff _].
    destruct (getApiKeyFormSchema (w_form w)) eqn:Hs; [now apply own_submit|easy].
  - eauto using own_answer.
Qed.

Lemma own_steps es : forall past w w', own past w -> steps w es = Some w' -> own (past ++ es) w'.
Proof.
  induction es as [|e es IH]; intros past w w' H E; cbn [steps] in E.
  - injection E as <-. now rewrite app_nil_r.
  - destruct (step w e) as [w1|] eqn:E1; [|easy]. change (e :: es) with ([e] ++ es). rewrite app_assoc.
    apply (IH _ w1); [|easy]. now apply (own_step past w).
Qed.

Lemma own_start d b : own [] (start d b).
Proof. now constructor; cbn. Qed.

(** * The loop of a creation *)

Definition requests (payload : ApiKeyFormData) (nm : jstr) (suffixes : list jstr) : list Request :=
  imap (fun i s => CreateRequest (renamed (created_name nm s (Z.of_nat i)) payload)) suffixes.

Lemma requests_snoc payload nm l s :
  requests payload nm (l ++ [s])
  = requests payload nm l ++ [CreateRequest (renamed (created_name nm s (Z.of_nat (length l))) payload)].
Proof. unfold requests. rewrite imap_app. cbn. now rewrite Nat.add_0_r. Qed.

Definition answers (r : Reply) (suffixes : list jstr) : list Event := map (EAnswer r) suffixes.

Lemma steps_app w w' a b : steps w a = Some w' -> steps w (a ++ b) = steps w' b.
Proof.
  revert w. induction a as [|e a IH]; intros w H; cbn in *; [now injection H as ->|].
  destruct (step w e); [now apply IH|easy].
Qed.

(** Everything but the task and what was sent. *)
Definition waiting (payload : ApiKeyFormData) (nm : jstr) (n k : Z) (sent : list Request) (w : World) : World :=
  with_task (Some (TCreate payload nm n k k)) sent [] w.

Lemma waiting_more payload nm n k k' sent sent' w :
  waiting payload nm n k' sent' (waiting payload nm n k sent w) = waiting payload nm n k' (sent ++ sent') w.
Proof. unfold waiting, with_task. cbn. now rewrite !app_assoc, !app_nil_r. Qed.

Lemma loop_runs payload nm n w (suffixes : list jstr) : forall done,
  (Z.of_nat (length done + length suffixes) <= n)%Z -> done <> [] ->
  steps (waiting payload nm n (Z.of_nat (length done) - 1) (requests payload nm done) w) (answers Success suffixes)
  = Some (waiting payload nm n (Z.of_nat (length done + length suffixes) - 1)
            (requests payload nm (done ++ suffixes)) w).
Proof.
  induction suffixes as [|s l IH]; intros done Hn Hd; cbn [answers map steps].
  - now rewrite app_nil_r, Nat.add_0_r.
  - cbn [length] in Hn. cbn [step answer waiting with_task w_task]. unfold create_next.
    replace (Z.of_nat (length done) - 1 + 1)%Z with (Z.of_nat (length done)) by lia.
    destruct (Z.ltb_spec (Z.of_nat (length done)) n); [|lia].
    specialize (IH (done ++ [s])). rewrite length_app, Nat.add_1_r in IH.
    cbn [length]. replace (length done + S (length l)) with (S (length done) + length l) by lia.
    replace (done ++ s :: l) with ((done ++ [s]) ++ l) by now rewrite <- app_assoc.
    rewrite <- IH by (lia || (intros E; now apply app_eq_nil in E)).
    fold (answers Success l). f_equal.
    replace (Z.of_nat (S (length done)) - 1)%Z with (Z.of_nat (length done)) by lia.
    rewrite requests_snoc. apply waiting_more.
Qed.

(** A form that is valid has a count, if it has one, of at least one. *)
Definition key_count (v : ApiKeyFormValues) : Z := opt_or (tokenCount v) 1%Z.

Lemma valid_count v : getApiKeyFormSchema v = true -> (1 <= key_count v)%Z.
Proof.
  unfold getApiKeyFormSchema, key_count. intros H. bool_hyps. destruct (tokenCount v); cbn in *; lia.
Qed.

Lemma submit_creation w s :
  w_mode w = Creating -> w_task w = None -> getApiKeyFormSchema (w_form w) = true ->
  step w (ESubmit s)
  = Some (waiting (transformFormDataToPayload stored (w_form w)) (name (w_form w)) (key_count (w_form w)) 0
            (requests (transformFormDataToPayload stored (w_form w)) (name (w_form w)) [s]) w).
Proof.
  intros Hm Ht Hs. pose proof (valid_count _ Hs) as Hc. cbn [step]. unfold is_open, detailsReady.
  rewrite Hm, Ht, Hs. cbn [andb]. unfold onSubmit. rewrite Hm. unfold create_next.
  assert ((match tokenCount (w_form w) with Some n => if (n =? 0)%Z then 1 else n | None => 1 end)%Z
          = key_count (w_form w)) as ->.
  { unfold key_count in *. destruct (tokenCount (w_form w)); cbn in *; [|easy]. destruct (Z.eqb_spec z 0); lia. }
  destruct (Z.ltb_spec 0 (key_count (w_form w))); [easy|lia].
Qed.

(** A creation sends its requests one after the other, each after the answer to the one
    before, and ends with its count of keys or with the first answer that is not a success:
    the first key has the name that was typed, the others one with a suffix.  A refusal after
    some keys reports them and closes the drawer.  When an answer does not come, the drawer
    stays open with its form and nothing is said of the keys that were made. *)
Theorem batch_outcome (w : World) (s : jstr) (suffixes : list jstr) (r : Reply) (s' : jstr) :
  w_mode w = Creating -> w_task w = None -> getApiKeyFormSchema (w_form w) = true ->
  (Z.of_nat (length suffixes) < key_count (w_form w))%Z ->
  let payload := transformFormDataToPayload stored (w_form w) in
  let done := Z.of_nat (length suffixes) in
  exists w',
    steps w (ESubmit s :: answers Success suffixes ++ [EAnswer r s']) = Some w'
    /\ w_form w' = w_form w
    /\ w_sent w' = w_sent w ++ requests payload (name (w_form w))
         (s :: suffixes ++ match r with
                           | Success => if (done + 1 <? key_count (w_form w))%Z then [s'] else []
                           | _ => []
                           end)
    /\ w_toasts w' = w_toasts w ++ match r with
         | Success => if (done + 1 <? key_count (w_form w))%Z then [] else [Created (done + 1)]
         | Refusal => Failed :: (if (0 <? done)%Z then [Created done] else [])
         | Exception => [Failed]
         end
    /\ match r with
       | Success => if (done + 1 <? key_count (w_form w))%Z then w_task w' <> None
                    else w_task w' = None /\ w_mode w' = Closed
       | Refusal => w_task w' = None /\ w_mode w' = if (0 <? done)%Z then Closed else Creating
       | Exception => w_task w' = None /\ w_mode w' = Creating
       end.
Proof.
  intros Hm Ht Hs Hn payload done. cbn [steps]. rewrite submit_creation by easy. fold payload.
  rewrite (steps_app _ _ _ _ (loop_runs payload (name (w_form w)) (key_count (w_form w)) w suffixes [s]
             ltac:(cbn; lia) ltac:(easy))).
  cbn [steps step answer]. cbn [length app].
  replace (Z.of_nat (1 + length suffixes) - 1)%Z with done by (unfold done; lia).
  change (waiting payload (name (w_form w)) (key_count (w_form w)) done (requests payload (name (w_form w)) (s :: suffixes)) w)
    with (with_task (Some (TCreate payload (name (w_form w)) (key_count (w_form w)) done done))
            (requests payload (name (w_form w)) (s :: suffixes)) [] w).
  cbn [answer with_task w_task]. destruct r.
  - unfold create_next. destruct (Z.ltb_spec (done + 1) (key_count (w_form w))).
    + eexists. split; [reflexivity|]. cbn [with_task w_form w_sent w_toasts w_task]. rewrite !app_nil_r.
      repeat split; [|easy]. rewrite (app_comm_cons suffixes [s'] s), requests_snoc, <- app_assoc.
      cbn [length]. unfold done. repeat f_equal. lia.
    + unfold finish. destruct (Z.ltb_spec 0 (done + 1)); [|lia]. eexists. split; [reflexivity|].
      cbn. now rewrite !app_nil_r.
  - unfold finish. destruct (Z.ltb_spec 0 done); eexists; (split; [reflexivity|]); cbn; rewrite ?app_nil_r, <- ?app_assoc; easy.
  - eexists. split; [reflexivity|]. cbn. now rewrite !app_nil_r.
Qed.

Lemma created_after_save w id e mark s s' :
  w_mode w = Updating id -> detailsReady w = true -> w_task w = None ->
  getApiKeyFormSchema (edit e (w_form w)) = true ->
  exists w',
    steps w [EEdit e mark; ESubmit s; EAnswer Success s'; EOpenCreate] = Some w'
    /\ w_mode w' = Creating
    /\ w_form w' = (if mark then edit e (w_form w)
                    else getApiKeyFormDefaultValues (w_default_auto w && w_backend_auto w))
    /\ w_task w' = None.
Proof.
  intros Hm Hr Ht Hs. cbn [steps step].
  assert (is_open w = true) as -> by (unfold is_open; now rewrite Hm). rewrite Hr. cbn [andb].
  assert (is_open (with_form (edit e (w_form w)) mark w) = true) as -> by (unfold is_open; cbn; now rewrite Hm).
  change (detailsReady (with_form (edit e (w_form w)) mark w)) with (detailsReady w). rewrite Hr.
  cbn [with_form w_task w_form andb]. rewrite Ht, Hs. unfold onSubmit. cbn [with_form w_mode]. rewrite Hm.
  unfold answer. cbn [with_task w_task]. unfold effect.
  cbn [is_open leave with_mode with_task with_form w_mode w_dirty w_default_auto w_backend_auto].
  destruct mark; eexists; (split; [reflexivity|]); easy.
Qed.

(** * What the theorems say of the drawer *)

(** C6: Whatever happens, and in whatever order the answers come, what is sent for a key is a
    form that was loaded from an answer about that same key, with edits on top, and that the
    schema accepts: nothing of another key, of a creation or of the defaults is ever
    written to it. *)
Theorem update_of_own_key (default_auto backend_auto : bool) (es : list Event) (w : World) (id : Z)
    (p : ApiKeyFormData) :
  steps (start default_auto backend_auto) es = Some w -> In (UpdateRequest id p) (w_sent w) ->
  exists k v changes, In (EDetails id (Some k)) es
    /\ v = edits changes (transformApiKeyToFormDefaults stored k)
    /\ getApiKeyFormSchema v = true /\ p = transformFormDataToPayload stored v.
Proof.
  intros H Hp. pose proof (own_steps es [] _ _ (own_start _ _) H) as [_ _ _ Hs].
  destruct (Hs id p Hp) as (k & v & Hk & [changes E] & Hv & Ep). now exists k, v, changes.
Qed.

(** A save that succeeds does not reset the form.  If the form library has marked it as
    changed, the next creation shows the values of the key that was saved, and saving makes
    a second key with its name, quota, limits and group; if it has not, the creation starts
    from the defaults. *)
Theorem saved_values_in_creation (w : World) (id : Z) (e : Edit) (mark : bool) (s s' s'' : jstr) :
  w_mode w = Updating id -> detailsReady w = true -> w_task w = None ->
  getApiKeyFormSchema (edit e (w_form w)) = true ->
  let shown := if mark then edit e (w_form w)
               else getApiKeyFormDefaultValues (w_default_auto w && w_backend_auto w) in
  exists w',
    steps w [EEdit e mark; ESubmit s; EAnswer Success s'; EOpenCreate] = Some w'
    /\ w_mode w' = Creating /\ w_form w' = shown
    /\ (mark = true -> exists w'', step w' (ESubmit s'') = Some w''
        /\ In (CreateRequest (transformFormDataToPayload stored shown)) (w_sent w'')).
Proof.
  intros Hm Hr Ht Hs shown.
  destruct (created_after_save w id e mark s s' Hm Hr Ht Hs) as (w' & E & Hm' & Hf & Ht').
  exists w'. split; [easy|]. split; [easy|]. split; [easy|]. intros ->. subst shown.
  rewrite (submit_creation w' s'') by (easy || now rewrite Hf). eexists. split; [reflexivity|].
  cbn [waiting with_task w_sent]. rewrite Hf. apply in_app_iff. right. left. f_equal.
  unfold created_name. change (Z.of_nat 0 =? 0)%Z with true.
  unfold getApiKeyFormSchema in Hs. bool_hyps.
  match goal with H : truthy _ = true |- _ => rewrite H end. reflexivity.
Qed.

(** A second reading of the details, when the connection is back, throws the edits away. *)
Lemma refetch_discards w id e mark r k :
  w_mode w = Updating id -> w_data w = Some k -> detailsReady w = true ->
  exists w', steps w [EEdit e mark; ERefetch; EDetails id r] = Some w'
  /\ w_form w' = transformApiKeyToFormDefaults stored (opt_or r k).
Proof.
  intros Hm Hd Hr. pose proof Hr as Hr'. unfold detailsReady in Hr'. rewrite Hm, Hd in Hr'.
  apply andb_true_iff in Hr' as [Hf%negb_true_iff _].
  cbn [steps step]. unfold is_open. rewrite Hm, Hr. cbn [andb with_form w_mode]. rewrite Hm.
  change (isFetching id (with_form (edit e (w_form w)) mark w)) with (isFetching id w).
  unfold fetch. change (isFetching id (with_form (edit e (w_form w)) mark w)) with (isFetching id w).
  rewrite Hf. unfold isFetching at 1. cbn [with_query w_fetching with_form w_mode w_data].
  rewrite existsb_app. cbn [existsb]. rewrite Z.eqb_refl, orb_true_r. rewrite bool_decide_eq_true_2 by easy.
  assert (F : existsb (Z.eqb id) (List.filter (fun i => negb (i =? id)%Z) (w_fetching w ++ [id])) = false).
  { apply not_true_iff_false. intros (x & [_ Hx]%filter_In & ->%Z.eqb_eq)%existsb_exists.
    now rewrite Z.eqb_refl in Hx. }
  eexists. split; [reflexivity|]. unfold effect, isFetching.
  destruct r as [k'|]; cbn [with_query w_mode w_data w_fetching with_form]; rewrite Hm, ?Hd, F; easy.
Qed.

(** The answer to a save closes whatever is open when it comes. *)
Lemma key_late_success w id s s' :
  w_mode w = Updating id -> detailsReady w = true -> w_task w = None ->
  getApiKeyFormSchema (w_form w) = true ->
  exists w', steps w [ESubmit s; EClose; EOpenCreate; EAnswer Success s'] = Some w' /\ w_mode w' = Closed.
Proof.
  intros Hm Hr Ht Hs. cbn [steps step]. unfold is_open at 1. rewrite Hm, Hr, Ht, Hs. cbn [andb].
  unfold onSubmit. rewrite Hm. unfold is_open. cbn [with_task w_mode]. rewrite Hm.
  unfold effect. cbn. eexists. split; [reflexivity|]. easy.
Qed.

End Drawer.

Definition a_key : ApiKey := key_of market_token.

Definition an_edit : list Event :=
  [EOpenUpdate 7; EDetails 7 (Some a_key); EEdit (SetName "renamed") true; ESubmit []].

Lemma update_of_own_key_witness :
  exists w p, steps None (start false false) an_edit = Some w /\ In (UpdateRequest 7 p) (w_sent w)
  /\ exists k v changes, In (EDetails 7 (Some k)) an_edit
      /\ v = edits changes (transformApiKeyToFormDefaults None k)
      /\ getApiKeyFormSchema v = true /\ p = transformFormDataToPayload None v.
Proof.
  eexists. eexists. split; [vm_compute; reflexivity|]. split; [left; reflexivity|].
  eapply (update_of_own_key None false false an_edit); [vm_compute; reflexivity|left; reflexivity].
Defined.

(** A drawer that shows a key, and one that creates. *)
Definition shown_key : World :=
  opt_or (steps None (start false false) [EOpenUpdate 7; EDetails 7 (Some a_key)]) (start false false).
Definition new_keys : World :=
  opt_or (steps None (start false false)
    [EOpenCreate; EEdit (SetName "ci") true; EEdit (SetTokenCount (Some 3%Z)) true]) (start false false).

Lemma saved_values_in_creation_witness :
  exists w', steps None shown_key [EEdit (SetName "renamed") true; ESubmit []; EAnswer Success []; EOpenCreate] = Some w'
  /\ w_mode w' = Creating
  /\ w_form w' = edit (SetName "renamed") (w_form shown_key)
  /\ (true = true -> exists w'', step None w' (ESubmit []) = Some w''
      /\ In (CreateRequest (transformFormDataToPayload None (edit (SetName "renamed") (w_form shown_key)))) (w_sent w'')).
Proof.
  apply (saved_values_in_creation None shown_key 7 (SetName "renamed") true [] [] []); vm_compute; reflexivity.
Defined.

Lemma batch_outcome_witness :
  exists w', steps None new_keys (ESubmit [] :: answers Success ["a1b2c3"%js] ++ [EAnswer Refusal []]) = Some w'
  /\ w_toasts w' = [Failed; Created 1] /\ w_mode w' = Closed.
Proof.
  destruct (batch_outcome None new_keys [] ["a1b2c3"%js] Refusal []) as (w' & E & _ & _ & Ht & _ & Hm);
    [vm_compute; reflexivity..|].
  exists w'. split; [exact E|]. split; [exact Ht|exact Hm].
Defined.
