(* ===== verification/KeyList.v ===== *)
(** * The list of API keys

    [features/keys/components/api-keys-table.tsx], [api-keys-multi-delete-dialog.tsx],
    [data-table-bulk-actions.tsx], [api-keys-provider.tsx] and
    [features/keys/lib/normalize-full-api-key.ts]: what is listed, what an action on the
    chosen rows acts on, and the full keys that are asked for and kept.

    The table library knows a row by its place in the data when it is given no [getRowId],
    and reads the data by its [length]; both are documented.  The server side is
    [SearchTokens] and [GetAllTokens] ([token_handlers.go]) with [PageInfo]
    ([platform/pagination/page_info.go]). *)

From stdpp Require Import gmap.
From S2P Require Import Prelude Number Json.
From stdpp Require Import options.

(** * What is listed *)

(** [ApiSuccess(c, pageInfo)] *)
Definition page_answer (page pageSize total : Z) (items : list json) : json :=
  JObj [("success"%js, JBool true); ("message"%js, JStr []);
        ("data"%js, JObj [("page"%js, JNum (of_Z page)); ("page_size"%js, JNum (of_Z pageSize));
                          ("total"%js, JNum (of_Z total)); ("items"%js, JArr items)])].

Definition opt_truthy (v : option json) : bool := match v with Some v => jtruthy v | None => false end.
(** [v || d], where [v] may be missing *)
Definition jor (v : option json) (d : json) : json :=
  match v with Some x => if jtruthy x then x else d | None => d end.
(** [v?.length] *)
Definition jlength (v : option json) : option json :=
  match v with
  | Some (JArr l) => Some (JNum (of_Z (Z.of_nat (length l))))
  | Some (JStr s) => Some (JNum (of_Z (Z.of_nat (length s))))
  | Some (JObj o) => jget "length" (JObj o)
  | _ => None
  end.

Record Listed := { items : json; total : json }.

(** The query: the answer of the server, to a search or to a page, and whether it throws. *)
Definition queryFn (globalFilter : option jstr) (searchAnswer pageAnswer : json) : exc Listed :=
  if truthy (trim (match globalFilter with Some s => s | None => [] end)) then
    if negb (opt_truthy (jget "success" searchAnswer)) then Throw
    else Ret {| items := jor (jget "data" searchAnswer) (JArr []);
                total := jor (jlength (jget "data" searchAnswer)) (JNum zero) |}
  else
    if negb (opt_truthy (jget "success" pageAnswer)) then Throw
    else Ret {| items := jor (jget_opt "items" (jget "data" pageAnswer)) (JArr []);
                total := jor (jget_opt "total" (jget "data" pageAnswer)) (JNum zero) |}.

(** The rows of the table: data that is no array has no [length]. *)
Definition table_rows (data : json) : list json := match data with JArr l => l | _ => [] end.

(** * The rows that are chosen *)

Section Selection.
Context {Row : Type} (visible : Row -> bool).

(** The rows of the page, and the places that are ticked. *)
Record Table := { rows : list Row; rowSelection : list nat }.

Definition toggleSelected (i : nat) (t : Table) : Table :=
  {| rows := rows t;
     rowSelection := if existsb (Nat.eqb i) (rowSelection t)
                     then List.filter (fun j => negb (j =? i)) (rowSelection t)
                     else rowSelection t ++ [i] |}.
Definition load (r : list Row) (t : Table) : Table := {| rows := r; rowSelection := rowSelection t |}.
Definition resetRowSelection (t : Table) : Table := {| rows := rows t; rowSelection := [] |}.

(** [getFilteredSelectedRowModel().rows] *)
Definition selectedRows (t : Table) : list Row :=
  omap (fun x => x) (imap (fun i r => if existsb (Nat.eqb i) (rowSelection t) && visible r then Some r else None) (rows t)).

Inductive TableEvent := TToggle (i : nat) | TLoad (r : list Row) | TReset.

Definition table_step (e : TableEvent) (t : Table) : Table :=
  match e with TToggle i => toggleSelected i t | TLoad r => load r t | TReset => resetRowSelection t end.
Definition table_run (es : list TableEvent) (t : Table) : Table := fold_left (fun t e => table_step e t) es t.

End Selection.
Arguments Table Row : clear implicits.
Arguments TableEvent Row : clear implicits.

(** The dialog that deletes the chosen keys: what it asks for, and what the table is
    afterwards. *)
Definition handleDelete {Row} (visible : Row -> bool) (id : Row -> Z) (t : Table Row) : list Z :=
  map id (selectedRows visible t).
Definition deleted {Row} (success : bool) (t : Table Row) : Table Row :=
  if success then resetRowSelection t else t.

(** * Full keys *)

Definition normalizeFullApiKey (v : jstr) : jstr :=
  let trimmed := trim v in
  if negb (truthy trimmed) then []
  else if startsWith trimmed "sk-sk-" then drop 3 trimmed
  else if startsWith trimmed "sk-" then trimmed
  else "sk-" ++ trimmed.

Inductive KeyRequest := One (id : Z) | Batch (ids : list Z).

(** A batch that is under way: what it asked for, for whom, with the keys of its time. *)
Record BatchCall := { b_asked : list Z; b_ids : list Z; b_known : gmap Z jstr }.

(** What was answered to those who asked. *)
Inductive Given := GOne (id : Z) (key : option jstr) | GBatch (ids : list Z) (keys : gmap Z jstr).

Record Keys := {
  resolvedKeys : gmap Z jstr;
  pendingRequests : list Z;
  loadingKeys : list Z;
  batches : list BatchCall;
  asked : list KeyRequest;
  given : list Given;
}.

Definition no_keys : Keys :=
  {| resolvedKeys := ∅; pendingRequests := []; loadingKeys := []; batches := []; asked := []; given := [] |}.

Definition known (k : gmap Z jstr) (id : Z) : option jstr :=
  match k !! id with Some s => if truthy s then Some s else None | None => None end.
Definition is_known (k : gmap Z jstr) (id : Z) : bool := match known k id with Some _ => true | None => false end.
Definition add_id (id : Z) (l : list Z) : list Z := if existsb (Z.eqb id) l then l else l ++ [id].
Definition remove_id (id : Z) (l : list Z) : list Z := List.filter (fun i => negb (i =? id)%Z) l.

Definition resolveRealKey (id : Z) (s : Keys) : Keys :=
  match known (resolvedKeys s) id with
  | Some k =>
    {| resolvedKeys := resolvedKeys s; pendingRequests := pendingRequests s; loadingKeys := loadingKeys s;
       batches := batches s; asked := asked s; given := given s ++ [GOne id (Some k)] |}
  | None =>
    if existsb (Z.eqb id) (pendingRequests s) then s
    else {| resolvedKeys := resolvedKeys s; pendingRequests := pendingRequests s ++ [id];
            loadingKeys := add_id id (loadingKeys s); batches := batches s;
            asked := asked s ++ [One id]; given := given s |}
  end.

(** The answer: the key, missing when the server refuses, when it sends none, or when the
    request fails. *)
Definition key_arrives (id : Z) (key : option jstr) (s : Keys) : Keys :=
  let full := match key with
              | Some raw => if truthy raw then Some (normalizeFullApiKey raw) else None
              | None => None
              end in
  {| resolvedKeys := match full with Some k => <[id := k]> (resolvedKeys s) | None => resolvedKeys s end;
     pendingRequests := remove_id id (pendingRequests s); loadingKeys := remove_id id (loadingKeys s);
     batches := batches s; asked := asked s; given := given s ++ [GOne id full] |}.

(** The keys of [ids] that [k] knows. *)
Definition known_of (ids : list Z) (k : gmap Z jstr) (acc : gmap Z jstr) : gmap Z jstr :=
  fold_left (fun acc id => match known k id with Some s => <[id := s]> acc | None => acc end) ids acc.

Definition resolveRealKeysBatch (ids : list Z) (s : Keys) : Keys :=
  let uncachedIds := List.filter (fun id => negb (is_known (resolvedKeys s) id)) ids in
  match uncachedIds with
  | [] =>
    {| resolvedKeys := resolvedKeys s; pendingRequests := pendingRequests s; loadingKeys := loadingKeys s;
       batches := batches s; asked := asked s;
       given := given s ++ [GBatch ids (known_of ids (resolvedKeys s) ∅)] |}
  | _ =>
    {| resolvedKeys := resolvedKeys s; pendingRequests := pendingRequests s;
       loadingKeys := fold_left (fun l id => add_id id l) uncachedIds (loadingKeys s);
       batches := batches s ++ [{| b_asked := uncachedIds; b_ids := ids; b_known := resolvedKeys s |}];
       asked := asked s ++ [Batch uncachedIds]; given := given s |}
  end.

(** The answer to the [n]-th batch under way. *)
Definition batch_arrives (n : nat) (keys : option (list (Z * jstr))) (s : Keys) : option Keys :=
  match batches s !! n with
  | None => None
  | Some b =>
    let newKeys := match keys with
                   | Some l => fold_left (fun acc (kv : Z * jstr) => <[kv.1 := normalizeFullApiKey kv.2]> acc) l ∅
                   | None => ∅
                   end in
    Some {| resolvedKeys := newKeys ∪ resolvedKeys s;
            pendingRequests := pendingRequests s;
            loadingKeys := fold_left (fun l id => remove_id id l) (b_asked b) (loadingKeys s);
            batches := take n (batches s) ++ drop (S n) (batches s);
            asked := asked s;
            given := given s ++ [GBatch (b_ids b)
              (match keys with Some _ => known_of (b_ids b) (b_known b) newKeys | None => ∅ end)] |}
  end.

Inductive KeyEvent :=
| KResolve (id : Z)
| KBatch (ids : list Z)
| KArrives (id : Z) (key : option jstr)
| KBatchArrives (n : nat) (keys : option (list (Z * jstr))).

Definition key_step (s : Keys) (e : KeyEvent) : option Keys :=
  match e with
  | KResolve id => Some (resolveRealKey id s)
  | KBatch ids => Some (resolveRealKeysBatch ids s)
  | KArrives id key => if existsb (Z.eqb id) (pendingRequests s) then Some (key_arrives id key s) else None
  | KBatchArrives n keys => batch_arrives n keys s
  end.

Fixpoint key_steps (s : Keys) (es : list KeyEvent) : option Keys :=
  match es with
  | [] => Some s
  | e :: es => match key_step s e with Some s' => key_steps s' es | None => None end
  end.

(** [handleBatchCopy]: the lines that are copied. *)
Definition copied_lines (selected : list (Z * jstr)) (keysMap : gmap Z jstr) : list jstr :=
  omap (fun r : Z * jstr => match known keysMap (fst r) with
                            | Some k => Some (snd r ++ (9%N :: k))
                            | None => None
                            end) selected.

(** * A search lists nothing *)

Lemma page_listed (g : option jstr) (answer : json) p size n l :
  truthy (trim (match g with Some s => s | None => [] end)) = false ->
  exists x, queryFn g answer (page_answer p size n l) = Ret x /\ table_rows (items x) = l.
Proof. intros H. unfold queryFn. rewrite H. now eexists. Qed.

(** The server answers a search with a page, as it answers a list, but the client takes the
    answer itself for the list of keys: whatever matches, the table of a search has no row
    and its count is zero, while the same keys are listed without a search. *)
Theorem search_shows_nothing (keyword : jstr) (other : json) (p size n : Z) (found : list json) :
  truthy (trim keyword) = true ->
  (exists x, queryFn (Some keyword) (page_answer p size n found) other = Ret x
    /\ table_rows (items x) = [] /\ total x = JNum zero)
  /\ (exists x, queryFn (Some []) other (page_answer p size n found) = Ret x /\ table_rows (items x) = found).
Proof.
  intros H. split; [|now apply page_listed]. unfold queryFn. rewrite H. now eexists.
Qed.

Lemma search_shows_nothing_witness :
  exists x, queryFn (Some "build"%js) (page_answer 1 10 1 [JObj [("name"%js, JStr "build")]]) JNull = Ret x
    /\ table_rows (items x) = [] /\ total x = JNum zero.
Proof. apply (search_shows_nothing "build" JNull 1 10 1 [JObj [("name"%js, JStr "build")]]). reflexivity. Defined.

(** * What is deleted stands where was ticked *)

(** Whether a place was ticked an odd number of times since the last reset. *)
Fixpoint ticked {Row} (es : list (TableEvent Row)) (before : bool) (i : nat) : bool :=
  match es with
  | [] => before
  | TToggle j :: es => ticked es (if i =? j then negb before else before) i
  | TLoad _ :: es => ticked es before i
  | TReset :: es => ticked es false i
  end.

(** The rows that were loaded last. *)
Fixpoint last_loaded {Row} (es : list (TableEvent Row)) (r : list Row) : list Row :=
  match es with
  | [] => r
  | TLoad r' :: es => last_loaded es r'
  | _ :: es => last_loaded es r
  end.

Lemma run_rows {Row} (es : list (TableEvent Row)) : forall t, rows (table_run es t) = last_loaded es (rows t).
Proof. induction es as [|[] es IH]; intros t; [easy|..]; exact (IH _). Qed.

Lemma toggled {Row} (t : Table Row) i j :
  existsb (Nat.eqb i) (rowSelection (toggleSelected j t))
  = if i =? j then negb (existsb (Nat.eqb i) (rowSelection t)) else existsb (Nat.eqb i) (rowSelection t).
Proof.
  unfold toggleSelected. cbn [rowSelection]. destruct (Nat.eqb_spec i j) as [->|Hij].
  - destruct (existsb (Nat.eqb j) (rowSelection t)) eqn:E; cbn [negb].
    + apply not_true_iff_false. intros (x & [_ Hx]%filter_In & ->%Nat.eqb_eq)%existsb_exists.
      now rewrite Nat.eqb_refl in Hx.
    + now rewrite existsb_app, E; cbn; rewrite Nat.eqb_refl.
  - destruct (existsb (Nat.eqb j) (rowSelection t)).
    + apply eq_true_iff_eq. rewrite !existsb_exists. split; intros (x & Hx & E); exists x; (split; [|easy]).
      * now apply filter_In in Hx.
      * apply filter_In. split; [easy|]. apply Nat.eqb_eq in E as ->. now apply negb_true_iff, Nat.eqb_neq.
    + rewrite existsb_app. cbn [existsb]. destruct (Nat.eqb_spec i j); [easy|]. now rewrite !orb_false_r.
Qed.

Lemma run_ticked {Row} (es : list (TableEvent Row)) i : forall t,
  existsb (Nat.eqb i) (rowSelection (table_run es t)) = ticked es (existsb (Nat.eqb i) (rowSelection t)) i.
Proof.
  induction es as [|e es IH]; intros t; [easy|]. cbn [table_run fold_left]. fold (table_run es (table_step e t)).
  rewrite IH. destruct e; cbn [ticked table_step]; [now rewrite toggled|easy..].
Qed.

Lemma selected_places {Row} (visible : Row -> bool) (first : list Row) (es : list (TableEvent Row)) :
  selectedRows visible (table_run es {| rows := first; rowSelection := [] |})
  = omap (fun x => x)
      (imap (fun i r => if ticked es false i && visible r then Some r else None) (last_loaded es first)).
Proof.
  unfold selectedRows. f_equal. rewrite run_rows. cbn [rows].
  apply imap_ext. intros i r _. rewrite run_ticked. reflexivity.
Qed.

(** What is deleted are the rows that stand, when the deletion is confirmed, at the places
    that were ticked, whatever keys stood there then: a page that is turned or a list that is
    read again between the two makes the deletion act on keys that nobody ticked. *)
Theorem delete_by_place {Row} (visible : Row -> bool) (id : Row -> Z) (first : list Row)
    (es : list (TableEvent Row)) :
  handleDelete visible id (table_run es {| rows := first; rowSelection := [] |})
  = map id (omap (fun x => x)
      (imap (fun i r => if ticked es false i && visible r then Some r else None) (last_loaded es first))).
Proof.
  unfold handleDelete. now rewrite selected_places.
Qed.

(** The first key of one page is ticked, the page is turned, and the first key of the other is
    deleted. *)
Lemma page_turned {Row} (visible : Row -> bool) (id : Row -> Z) (a b : Row) (r r' : list Row) :
  visible b = true ->
  handleDelete visible id (table_run [TToggle 0; TLoad (b :: r')] {| rows := a :: r; rowSelection := [] |}) = [id b].
Proof.
  intros Hb. unfold handleDelete. rewrite selected_places. cbn [last_loaded imap omap]. cbn. rewrite Hb. cbn. f_equal.
  assert (forall l : list Row, omap (fun x : option Row => x) (imap (fun _ _ => None) l) = []) as H
    by (induction l as [|x l IH]; [easy|exact IH]).
  now rewrite (imap_ext _ (fun _ _ => None)), H.
Qed.

(** * Where the keys come from *)

Definition answered (past : list KeyEvent) (id : Z) (raw : jstr) : Prop :=
  In (KArrives id (Some raw)) past \/ exists n l, In (KBatchArrives n (Some l)) past /\ In (id, raw) l.

Definition from_server (past : list KeyEvent) (id : Z) (k : jstr) : Prop :=
  exists raw, answered past id raw /\ k = normalizeFullApiKey raw.

Definition all_from_server (past : list KeyEvent) (m : gmap Z jstr) : Prop :=
  forall id k, m !! id = Some k -> from_server past id k.

Record keys_ok (past : list KeyEvent) (s : Keys) : Prop := {
  ok_pending : List.NoDup (pendingRequests s);
  ok_resolved : all_from_server past (resolvedKeys s);
  ok_batches : Forall (fun b => all_from_server past (b_known b)) (batches s);
  ok_loading id : In id (loadingKeys s) ->
    In id (pendingRequests s) \/ exists b, In b (batches s) /\ In id (b_asked b);
  ok_given g : In g (given s) -> match g with
    | GOne id (Some k) => from_server past id k
    | GOne _ None => True
    | GBatch _ m => all_from_server past m
    end;
}.

Lemma from_server_past past e id k : from_server past id k -> from_server (past ++ [e]) id k.
Proof.
  intros (raw & [H|(n & l & H & Hl)] & E); exists raw; (split; [|easy]); [left|right; exists n, l];
    rewrite ?in_app_iff; auto.
Qed.

Lemma known_lookup m id k : known m id = Some k -> m !! id = Some k.
Proof. unfold known. destruct (m !! id) as [s|]; [|easy]. now destruct (truthy s). Qed.

Lemma known_of_ok past k ids : forall acc, all_from_server past k -> all_from_server past acc ->
  all_from_server past (known_of ids k acc).
Proof.
  induction ids as [|id ids IH]; intros acc Hk Ha; [easy|]. cbn [known_of fold_left]. apply IH; [easy|].
  destruct (known k id) as [s|] eqn:E; [|easy]. intros i x [[<- <-]|[_ Hx]]%lookup_insert_Some; [|eauto].
  apply known_lookup in E. eauto.
Qed.

Lemma new_keys_ok past n l : forall acc,
  (forall kv, In kv l -> exists l0, In (KBatchArrives n (Some l0)) past /\ In kv l0) ->
  all_from_server past acc ->
  all_from_server past (fold_left (fun acc (kv : Z * jstr) => <[kv.1 := normalizeFullApiKey kv.2]> acc) l acc).
Proof.
  induction l as [|[i raw] l IH]; intros acc Hl Ha; [easy|]. cbn [fold_left]. apply IH; [intros kv H; apply Hl; now right|].
  intros j x [[<- <-]|[_ Hx]]%lookup_insert_Some; [|eauto]. cbn [fst snd].
  destruct (Hl (i, raw) (or_introl eq_refl)) as (l0 & H0 & H1). exists raw. split; [|easy]. right. now exists n, l0.
Qed.

Lemma in_add_id x id l : In x (add_id id l) <-> In x l \/ x = id.
Proof.
  unfold add_id. destruct (existsb (Z.eqb id) l) eqn:E.
  - split; [auto|]. intros [H| ->]; [easy|]. apply existsb_exists in E as (y & Hy & ->%Z.eqb_eq). easy.
  - rewrite in_app_iff. cbn. intuition congruence.
Qed.

Lemma in_add_ids x ids : forall l, In x (fold_left (fun l id => add_id id l) ids l) <-> In x l \/ In x ids.
Proof.
  induction ids as [|i ids IH]; intros l; cbn [fold_left In]; [tauto|]. rewrite IH, in_add_id. intuition congruence.
Qed.

Lemma in_remove_id x id l : In x (remove_id id l) <-> In x l /\ x <> id.
Proof. unfold remove_id. rewrite filter_In, negb_true_iff, Z.eqb_neq. tauto. Qed.

Lemma in_remove_ids x ids : forall l, In x (fold_left (fun l id => remove_id id l) ids l) <-> In x l /\ ~ In x ids.
Proof.
  induction ids as [|i ids IH]; intros l; cbn [fold_left In]; [tauto|]. rewrite IH, in_remove_id. intuition congruence.
Qed.

Lemma removed {A} n (l : list A) x b : l !! n = Some b -> In x l -> x = b \/ In x (take n l ++ drop (S n) l).
Proof.
  intros Hn Hx. rewrite <- (take_drop_middle l n b Hn) in Hx. apply in_app_iff in Hx as [Hx|[Hx|Hx]]; [right|auto|right];
    apply in_app_iff; auto.
Qed.

Lemma keys_ok_past past e s : keys_ok past s -> keys_ok (past ++ [e]) s.
Proof.
  intros [H1 H2 H3 H4 H5]. pose proof (from_server_past past e) as F. constructor; [easy|..].
  - intros id k Hk. eauto.
  - eapply Forall_impl; [exact H3|]. intros b Hb id k Hk. eauto.
  - easy.
  - intros g Hg. specialize (H5 g Hg). destruct g as [id [k|]|ids m]; [eauto|easy|]. intros id k Hk. eauto.
Qed.

Lemma keys_ok_one past s id : keys_ok past s -> keys_ok past (resolveRealKey id s).
Proof.
  intros [H1 H2 H3 H4 H5]. unfold resolveRealKey. destruct (known (resolvedKeys s) id) as [k|] eqn:Ek.
  - constructor; try easy. cbn [given]. intros g [Hg|[<-|[]]]%in_app_iff; [now apply H5|].
    apply H2. now apply known_lookup.
  - destruct (existsb (Z.eqb id) (pendingRequests s)) eqn:Ep; [easy|]. constructor; try easy.
    + cbn. apply NoDup_ListNoDup. apply NoDup_app. split; [now apply NoDup_ListNoDup|]. split; [|apply NoDup_singleton].
      intros x Hx ->%list_elem_of_singleton. apply list_elem_of_In in Hx.
      enough (existsb (Z.eqb id) (pendingRequests s) = true) by congruence.
      apply existsb_exists. exists id. split; [easy|apply Z.eqb_refl].
    + cbn. intros x [Hx| ->]%in_add_id; [|left; apply in_app_iff; right; now left].
      destruct (H4 x Hx) as [?|?]; [left; apply in_app_iff; now left|now right].
Qed.

Lemma keys_ok_batch past s ids : keys_ok past s -> keys_ok past (resolveRealKeysBatch ids s).
Proof.
  intros [H1 H2 H3 H4 H5]. unfold resolveRealKeysBatch. destruct (List.filter _ ids) as [|i l] eqn:El.
  - constructor; try easy. cbn [given]. intros g [Hg|[<-|[]]]%in_app_iff; [now apply H5|].
    apply known_of_ok; [easy|]. intros id k Hk. now rewrite lookup_empty in Hk.
  - constructor; try easy.
    + cbn. apply Forall_app. split; [easy|]. now repeat constructor.
    + intros x. cbn [loadingKeys pendingRequests batches]. rewrite in_add_ids. intros [Hx|Hx].
      * destruct (H4 x Hx) as [?|(b & Hb & Hx')]; [now left|]. right. exists b. split; [|easy]. apply in_app_iff. now left.
      * right. eexists. split; [apply in_app_iff; right; now left|easy].
Qed.

Lemma keys_ok_arrives past s id key :
  keys_ok past s -> keys_ok (past ++ [KArrives id key]) (key_arrives id key s).
Proof.
  intros H. apply (keys_ok_past _ (KArrives id key)) in H as [H1 H2 H3 H4 H5]. unfold key_arrives.
  assert (F : forall k, match key with Some raw => if truthy raw then Some (normalizeFullApiKey raw) else None
                        | None => None end = Some k -> from_server (past ++ [KArrives id key]) id k).
  { destruct key as [raw|]; [|easy]. destruct (truthy raw); [|easy]. intros k [= <-]. exists raw. split; [|easy].
    left. apply in_app_iff. right. now left. }
  constructor; cbn [pendingRequests resolvedKeys batches loadingKeys given].
  - unfold remove_id. now apply List.NoDup_filter.
  - destruct (match key with Some _ => _ | None => _ end) as [k|]; [|easy].
    intros j x [[<- <-]|[_ Hx]]%lookup_insert_Some; eauto.
  - easy.
  - intros x [Hx Hn]%in_remove_id. destruct (H4 x Hx) as [Hp|?]; [left; now apply in_remove_id|now right].
  - intros g [Hg|[<-|[]]]%in_app_iff; [now apply H5|].
    destruct (match key with Some _ => _ | None => _ end) as [k|]; auto.
Qed.

Lemma keys_ok_batch_arrives past s n keys s' :
  keys_ok past s -> batch_arrives n keys s = Some s' -> keys_ok (past ++ [KBatchArrives n keys]) s'.
Proof.
  intros H E. apply (keys_ok_past _ (KBatchArrives n keys)) in H as [H1 H2 H3 H4 H5]. unfold batch_arrives in E.
  destruct (batches s !! n) as [b|] eqn:Eb; [|easy]. injection E as <-.
  assert (Hb : all_from_server (past ++ [KBatchArrives n keys]) (b_known b)).
  { apply (proj1 (List.Forall_forall _ _) H3). now apply list_elem_of_In, (list_elem_of_lookup_2 _ n). }
  assert (He : all_from_server (past ++ [KBatchArrives n keys]) ∅).
  { intros id k Hk. now rewrite lookup_empty in Hk. }
  assert (Hn : forall l, keys = Some l -> all_from_server (past ++ [KBatchArrives n keys])
    (fold_left (fun acc (kv : Z * jstr) => <[kv.1 := normalizeFullApiKey kv.2]> acc) l ∅)).
  { intros l ->. apply (new_keys_ok _ n); [|easy]. intros kv Hkv. exists l. split; [|easy]. apply in_app_iff. right. now left. }
  constructor; cbn [pendingRequests resolvedKeys batches loadingKeys given]; [easy|..].
  - intros id k [Hk|[_ Hk]]%lookup_union_Some_raw; [|eauto]. destruct keys as [l|]; [now apply (Hn l)|now apply He].
  - rewrite <- (take_drop_middle _ _ _ Eb) in H3. apply Forall_app in H3 as [? [? ?]%Forall_cons].
    now apply Forall_app.
  - intros x [Hx Hx']%in_remove_ids. destruct (H4 x Hx) as [?|(b' & Hb' & Hxb)]; [now left|right].
    destruct (removed n _ _ _ Eb Hb') as [->|?]; [easy|]. now exists b'.
  - intros g [Hg|[<-|[]]]%in_app_iff; [now apply H5|]. destruct keys as [l|]; [|easy]. apply known_of_ok; [easy|now apply Hn].
Qed.

Lemma keys_ok_steps es : forall past s s', keys_ok past s -> key_steps s es = Some s' -> keys_ok (past ++ es) s'.
Proof.
  induction es as [|e es IH]; intros past s s' H E; cbn [key_steps] in E.
  - injection E as <-. now rewrite app_nil_r.
  - destruct (key_step s e) as [s1|] eqn:E1; [|easy]. change (e :: es) with ([e] ++ es). rewrite app_assoc.
    apply (IH _ s1); [|easy]. destruct e; cbn [key_step] in E1.
    + injection E1 as <-. now apply keys_ok_past, keys_ok_one.
    + injection E1 as <-. now apply keys_ok_past, keys_ok_batch.
    + destruct (existsb _ _); [|easy]. injection E1 as <-. now apply keys_ok_arrives.
    + now apply (keys_ok_batch_arrives _ s).
Qed.

(** C26: Whoever asks for the key of a row gets the normal form of a key that the server answered
    for that very row, alone or in a batch, whatever the order of the requests and answers;
    one request for a single key is under way at a time, and what is shown as loading has a
    request under way. *)
Theorem keys_from_server (es : list KeyEvent) (s : Keys) :
  key_steps no_keys es = Some s ->
  (forall id k, In (GOne id (Some k)) (given s) -> from_server es id k)
  /\ (forall ids m id k, In (GBatch ids m) (given s) -> m !! id = Some k -> from_server es id k)
  /\ List.NoDup (pendingRequests s)
  /\ (forall id, In id (loadingKeys s) ->
        In id (pendingRequests s) \/ exists b, In b (batches s) /\ In id (b_asked b)).
Proof.
  intros H. assert (keys_ok [] no_keys) as H0.
  { constructor; cbn; [constructor|..|easy|easy]; [|constructor]. intros id k Hk. now rewrite lookup_empty in Hk. }
  destruct (keys_ok_steps es [] _ _ H0 H) as [H1 H2 H3 H4 H5]. split; [|split; [|easy]].
  - intros id k Hk. now apply (H5 (GOne id (Some k))).
  - intros ids m id k Hg Hk. exact (H5 (GBatch ids m) Hg id k Hk).
Qed.

Definition asking : list KeyEvent :=
  [KResolve 1; KBatch [1; 2]%Z; KResolve 1; KBatchArrives 0 (Some [(1%Z, "abc"%js); (2%Z, "sk-sk-def"%js)]);
   KArrives 1 (Some "sk-abc"%js); KResolve 2].

Lemma keys_from_server_witness :
  exists s, key_steps no_keys asking = Some s /\ In (GOne 2 (Some "sk-def"%js)) (given s)
  /\ from_server asking 2 "sk-def"%js.
Proof.
  eexists. split; [vm_compute; reflexivity|]. split; [right; right; left; reflexivity|].
  eapply (proj1 (keys_from_server asking _ ltac:(vm_compute; reflexivity))). right; right; left; reflexivity.
Defined.
