(* ===== verification/Redemptions.v ===== *)
(** * Redemption codes

    [features/redemption-codes/lib/redemption-form.ts], [lib/utils.ts] and [constants.ts], the
    form's part of [components/redemptions-mutate-drawer.tsx], the export of
    [components/data-table-bulk-actions.tsx], and the handler that stores what the form
    sends: [internal/adminops/app/redemptions.go] ([UpdateRedemption]).

    The drawer itself is in [EditDrawers.v].  The texts of translations, the label of the
    currency and the titles of plans are parameters. *)

From S2P Require Import Prelude Number Rounding Quota RouteServer ApiKeys.
From stdpp Require Import options.

(** * The form *)

Inductive RedemptionType := QUOTA | SUBSCRIPTION | BLIND_BOX.
#[export] Instance redemption_type_eq_dec : EqDecision RedemptionType.
Proof. solve_decision. Defined.

Definition type_text (t : RedemptionType) : jstr :=
  match t with QUOTA => "quota" | SUBSCRIPTION => "subscription" | BLIND_BOX => "blind_box" end.
Definition is_type (a b : RedemptionType) : bool := bool_decide (a = b).

Definition NAME_MAX_LENGTH : nat := 20.
Definition COUNT_MIN : Z := 1.
Definition COUNT_MAX : Z := 100.

Record RedemptionFormValues := {
  rf_name : jstr;
  rf_redeem_type : RedemptionType;
  rf_quota_dollars : option number;
  rf_plan_id : option Z;
  rf_blind_box_quantity : option Z;
  rf_expired_time : option Date;
  rf_count : option Z;
}.

(** The schema gives its defaults to what is missing; [None]: it refuses. *)
Definition getRedemptionFormSchema (v : RedemptionFormValues) : option RedemptionFormValues :=
  let quota := opt_or (rf_quota_dollars v) zero in
  let plan := opt_or (rf_plan_id v) 0%Z in
  let quantity := opt_or (rf_blind_box_quantity v) 1%Z in
  let count := opt_or (rf_count v) 1%Z in
  if (length (rf_name v) <=? NAME_MAX_LENGTH)
     && (isFinite quota && (zero <=? quota)%num) && (0 <=? plan)%Z && (0 <=? quantity)%Z
     && z_optional (fun d : Date => match d with Some _ => true | None => false end) (rf_expired_time v)
     && ((COUNT_MIN <=? count)%Z && (count <=? COUNT_MAX)%Z)
     && negb (is_type (rf_redeem_type v) QUOTA && (quota <=? zero)%num)
     && negb (is_type (rf_redeem_type v) SUBSCRIPTION && (plan <=? 0)%Z)
     && negb (is_type (rf_redeem_type v) BLIND_BOX && (quantity <=? 0)%Z)
  then Some {| rf_name := rf_name v; rf_redeem_type := rf_redeem_type v; rf_quota_dollars := Some quota;
               rf_plan_id := Some plan; rf_blind_box_quantity := Some quantity;
               rf_expired_time := rf_expired_time v; rf_count := Some count |}
  else None.

Definition REDEMPTION_FORM_DEFAULT_VALUES : RedemptionFormValues :=
  {| rf_name := []; rf_redeem_type := QUOTA; rf_quota_dollars := Some (of_Z 10); rf_plan_id := Some 0%Z;
     rf_blind_box_quantity := Some 1%Z; rf_expired_time := None; rf_count := Some 1%Z |}.

(** The type of a code that is chosen, and the fields that are cleared with it. *)
Definition choose_type (t : RedemptionType) (v : RedemptionFormValues) : RedemptionFormValues :=
  {| rf_name := rf_name v; rf_redeem_type := t;
     rf_quota_dollars := match t with QUOTA => rf_quota_dollars v | _ => Some zero end;
     rf_plan_id := match t with SUBSCRIPTION => rf_plan_id v | _ => Some 0%Z end;
     rf_blind_box_quantity := match t with BLIND_BOX => rf_blind_box_quantity v | _ => Some 1%Z end;
     rf_expired_time := rf_expired_time v; rf_count := rf_count v |}.

Record RedemptionFormData := {
  rp_name : jstr;
  rp_redeem_type : RedemptionType;
  rp_quota : number;
  rp_plan_id : Z;
  rp_blind_box_quantity : Z;
  rp_expired_time : Z;
  rp_count : Z;
}.

Definition z_or (z d : Z) : Z := if (z =? 0)%Z then d else z.

Definition transformFormDataToPayload (stored : option CurrencyConfig) (data : RedemptionFormValues)
  : RedemptionFormData :=
  let isSubscription := is_type (rf_redeem_type data) SUBSCRIPTION in
  let isBlindBox := is_type (rf_redeem_type data) BLIND_BOX in
  {| rp_name := rf_name data; rp_redeem_type := rf_redeem_type data;
     rp_quota := if isSubscription || isBlindBox then zero
                 else parseQuotaFromDollars stored (opt_or (rf_quota_dollars data) zero);
     rp_plan_id := if isSubscription then opt_or (rf_plan_id data) 0%Z else 0;
     rp_blind_box_quantity := if isBlindBox then opt_or (rf_blind_box_quantity data) 0%Z else 0;
     rp_expired_time := match rf_expired_time data with Some (Some ms) => ms / 1000 | _ => 0 end;
     rp_count := z_or (opt_or (rf_count data) 0%Z) 1 |}.

(** A code as the server answers it. *)
Record Redemption := {
  r_id : Z;
  r_name : jstr;
  r_status : Z;
  r_redeem_type : jstr;
  r_quota : Z;
  r_plan_id : Z;
  r_plan_title : jstr;
  r_blind_box_quantity : Z;
  r_expired_time : Z;
}.

Definition form_type (s : jstr) : RedemptionType :=
  if s =s type_text SUBSCRIPTION then SUBSCRIPTION else if s =s type_text BLIND_BOX then BLIND_BOX else QUOTA.

Definition transformRedemptionToFormDefaults (stored : option CurrencyConfig) (r : Redemption)
  : RedemptionFormValues :=
  {| rf_name := r_name r; rf_redeem_type := form_type (r_redeem_type r);
     rf_quota_dollars :=
       Some (if (r_redeem_type r =s type_text SUBSCRIPTION) || (r_redeem_type r =s type_text BLIND_BOX) then zero
             else quotaUnitsToDollars stored (of_Z (r_quota r)));
     rf_plan_id := Some (if (0 <? r_plan_id r)%Z then r_plan_id r else 0%Z);
     rf_blind_box_quantity := Some (if (0 <? r_blind_box_quantity r)%Z then r_blind_box_quantity r else 1%Z);
     rf_expired_time := if (0 <? r_expired_time r)%Z then Some (new_Date (r_expired_time r * 1000)) else None;
     rf_count := Some 1%Z |}.

(** ** The name of a code *)

Definition is_pair (h l : N) : bool := ((55296 <=? h) && (h <? 56320) && (56320 <=? l) && (l <? 57344))%N.

(** [Array.from(value).slice(0, n).join('')] *)
Fixpoint take_runes (n : nat) (s : jstr) : jstr :=
  match n, s with
  | 0, _ | _, [] => []
  | S n, h :: s' =>
    match s' with
    | l :: s'' => if is_pair h l then h :: l :: take_runes n s'' else h :: take_runes n s'
    | [] => [h]
    end
  end.
Definition trimToMaxRunes (v : jstr) : jstr := take_runes 20 v.

(** [replace(/0+$/, '')] and the like. *)
Fixpoint drop_units (c : N) (s : jstr) : jstr :=
  match s with x :: s' => if (x =? c)%N then drop_units c s' else s | [] => [] end.
Definition strip_trailing (c : N) (s : jstr) : jstr := rev (drop_units c (rev s)).
Definition strip_suffix (p s : jstr) : jstr :=
  match strip_prefix (rev p) (rev s) with Some r => rev r | None => s end.
(** [replace(/(\.\d)0$/, '$1')] *)
Definition strip_tenth_zero (s : jstr) : jstr :=
  match rev s with
  | z :: d :: p :: r => if ((z =? 48)%N && is_digit d && (p =? 46)%N)%bool then rev (d :: p :: r) else s
  | _ => s
  end.

Definition nabs (x : number) : number := if (x <? zero)%num then nopp x else x.

Definition formatCompactAmount (v : number) : jstr :=
  let abs := nabs v in
  if SFeqb abs zero then "0"
  else if (of_Z 100 <=? abs)%num then strip_suffix ".00" (toFixed (if isInteger v then 0 else 2) v)
  else if (of_Z 1 <=? abs)%num then strip_tenth_zero (strip_suffix ".00" (toFixed 2 v))
  else if (of_decimal false 1 (-2) <=? abs)%num then strip_suffix "." (strip_trailing 48 (toFixed 4 v))
  else strip_suffix "." (strip_trailing 48 (toFixed 6 v)).

Record Texts := {
  subscription_redemption : jstr;
  blind_box_times : Z -> jstr;
  universal_credit : jstr;
  currencyLabel : jstr;
  plan_title_of : Z -> option jstr;
}.

Definition resolveRedemptionName (t : Texts) (tokensOnly : bool) (data : RedemptionFormValues) : jstr :=
  let customName := trim (rf_name data) in
  if truthy customName then trimToMaxRunes customName
  else match rf_redeem_type data with
  | SUBSCRIPTION =>
    trimToMaxRunes (str_or (opt_or (plan_title_of t (opt_or (rf_plan_id data) 0%Z)) []) (subscription_redemption t))
  | BLIND_BOX => trimToMaxRunes (blind_box_times t (opt_or (rf_blind_box_quantity data) 0%Z))
  | QUOTA =>
    let amount := num_or (opt_or (rf_quota_dollars data) zero) zero in
    trimToMaxRunes (universal_credit t ++ " " ++
      if tokensOnly then num_to_string (nround amount) else currencyLabel t ++ formatCompactAmount amount)
  end.

(** What is sent of a form that the schema accepts. *)
Definition submitted (stored : option CurrencyConfig) (t : Texts) (v : RedemptionFormValues)
  : option RedemptionFormData :=
  option_map (fun data =>
    let tokensOnly := match snd (getCurrencyDisplay stored) with MTokens _ => true | _ => false end in
    transformFormDataToPayload stored
      {| rf_name := resolveRedemptionName t tokensOnly data; rf_redeem_type := rf_redeem_type data;
         rf_quota_dollars := rf_quota_dollars data; rf_plan_id := rf_plan_id data;
         rf_blind_box_quantity := rf_blind_box_quantity data; rf_expired_time := rf_expired_time data;
         rf_count := rf_count data |}) (getRedemptionFormSchema v).

(** * The server *)

Definition validateRedemptionName (n : jstr) : bool :=
  let trimmed := TrimSpace n in negb (rune_count trimmed =? 0) && (rune_count trimmed <=? 20).
Definition validateExpiredTime (now expired : Z) : bool := (expired =? 0)%Z || negb (expired <? now)%Z.

Definition NormalizeRedemptionType (v : jstr) : jstr :=
  let v := TrimSpace v in
  if v =s type_text SUBSCRIPTION then type_text SUBSCRIPTION
  else if v =s type_text BLIND_BOX then type_text BLIND_BOX else type_text QUOTA.

(** The wallet of a code is the same for all. *)
Definition prepareRedemptionForWrite (plans : Z -> option jstr) (r : Redemption) : answer Redemption :=
  let n := TrimSpace (r_name r) in
  let t := NormalizeRedemptionType (r_redeem_type r) in
  let write quota plan title quantity :=
    {| r_id := r_id r; r_name := n; r_status := r_status r; r_redeem_type := t; r_quota := quota;
       r_plan_id := plan; r_plan_title := title; r_blind_box_quantity := quantity;
       r_expired_time := r_expired_time r |} in
  if t =s type_text SUBSCRIPTION then
    if (r_plan_id r <=? 0)%Z then Err "plan"
    else match plans (r_plan_id r) with
         | Some title => Ok (write 0%Z (r_plan_id r) title 0%Z)
         | None => Err "plan missing"
         end
  else if t =s type_text BLIND_BOX then
    if (r_blind_box_quantity r <=? 0)%Z then Err "quantity"
    else Ok (write 0%Z 0%Z [] (r_blind_box_quantity r))
  else if (r_quota r <=? 0)%Z then Err "quota"
  else Ok (write (r_quota r) 0%Z [] 0%Z).

Definition UpdateRedemption (plans : Z -> option jstr) (now : Z) (db : Z -> option Redemption) (id : Z)
    (p : RedemptionFormData) : answer Redemption :=
  match decode_int (rp_quota p) with
  | None => Err "bind"
  | Some quota =>
    match db id with
    | None => Err not_found
    | Some clean =>
      if negb (validateRedemptionName (rp_name p)) then Err "name"
      else if negb (validateExpiredTime now (rp_expired_time p)) then Err "expired"
      else prepareRedemptionForWrite plans
        {| r_id := r_id clean; r_name := TrimSpace (rp_name p); r_status := r_status clean;
           r_redeem_type := type_text (rp_redeem_type p); r_quota := quota; r_plan_id := rp_plan_id p;
           r_plan_title := r_plan_title clean; r_blind_box_quantity := rp_blind_box_quantity p;
           r_expired_time := rp_expired_time p |}
    end
  end.

(** * Opening a code and saving it *)

(** What the form may hold of a code: a name of at most 20 units of UTF-16 without a space at
    its ends, an expiry that a date can hold (0 is none), and what the type asks for: a
    quota that is not 0, a plan, or a quantity.  The server gives no other code, but for
    names of 20 characters that take more units. *)
Definition enterable (r : Redemption) : bool :=
  truthy (r_name r) && (trim (r_name r) =s r_name r) && (TrimSpace (r_name r) =s r_name r)
  && (length (r_name r) <=? 20)
  && (0 <=? r_expired_time r)%Z && (r_expired_time r <=? 8640000000000)%Z
  && match form_type (r_redeem_type r) with
     | QUOTA => (0 <? r_quota r)%Z && (r_quota r <=? 900000000000000)%Z
     | SUBSCRIPTION => (0 <? r_plan_id r)%Z
     | BLIND_BOX => (0 <? r_blind_box_quantity r)%Z
     end.

Definition code_expired (now : Z) (r : Redemption) : bool := (0 <? r_expired_time r)%Z && (r_expired_time r <? now)%Z.

(** A code with what its type needs, and nothing else, under the title its plan has. *)
Definition rewritten (title : jstr) (r : Redemption) : Redemption :=
  let ty := form_type (r_redeem_type r) in
  {| r_id := r_id r; r_name := r_name r; r_status := r_status r; r_redeem_type := type_text ty;
     r_quota := if is_type ty QUOTA then r_quota r else 0;
     r_plan_id := if is_type ty SUBSCRIPTION then r_plan_id r else 0;
     r_plan_title := if is_type ty SUBSCRIPTION then title else [];
     r_blind_box_quantity := if is_type ty BLIND_BOX then r_blind_box_quantity r else 0;
     r_expired_time := r_expired_time r |}.

(** What a save without an edit is answered. *)
Definition unedited_code (plans : Z -> option jstr) (now : Z) (r : Redemption) : answer Redemption :=
  if code_expired now r then Err "expired"
  else if is_type (form_type (r_redeem_type r)) SUBSCRIPTION then
    match plans (r_plan_id r) with
    | Some title => Ok (rewritten title r)
    | None => Err "plan missing"
    end
  else Ok (rewritten [] r).

(** A code as the server wrote it, whose plan is there and has kept its title. *)
Definition as_written (plans : Z -> option jstr) (r : Redemption) : bool :=
  (r_redeem_type r =s type_text (form_type (r_redeem_type r)))
  && match form_type (r_redeem_type r) with
     | QUOTA => (r_plan_id r =? 0)%Z && (r_plan_title r =s []) && (r_blind_box_quantity r =? 0)%Z
     | SUBSCRIPTION => (r_quota r =? 0)%Z && (r_blind_box_quantity r =? 0)%Z
                       && match plans (r_plan_id r) with Some t => t =s r_plan_title r | None => false end
     | BLIND_BOX => (r_quota r =? 0)%Z && (r_plan_id r =? 0)%Z && (r_plan_title r =s [])
     end.

Definition plain_redemption (plans : Z -> option jstr) (now : Z) (r : Redemption) : bool :=
  enterable r && negb (code_expired now r) && as_written plans r.

Lemma rune_count_cons h l s :
  rune_count (h :: l :: s) = S (if is_pair h l then rune_count s else rune_count (l :: s)).
Proof. reflexivity. Qed.

Lemma runes_kept n : forall s, rune_count s <= n -> take_runes n s = s.
Proof.
  induction n as [n IH] using lt_wf_ind. intros [|h [|l s]] Hs; [now destruct n| |].
  - now destruct n; [cbn in Hs; lia|].
  - rewrite rune_count_cons in Hs. destruct n as [|n]; [lia|]. cbn [take_runes].
    destruct (is_pair h l); rewrite IH by lia; easy.
Qed.

Lemma rune_count_length s : rune_count s <= length s.
Proof.
  remember (length s) as k eqn:Hk. revert s Hk. induction k as [k IH] using lt_wf_ind. intros [|h [|l s]] ->; [easy|cbn; lia|].
  rewrite rune_count_cons. pose proof (IH (length s) ltac:(cbn; lia) s eq_refl).
  pose proof (IH (length (l :: s)) ltac:(cbn; lia) (l :: s) eq_refl). cbn [length] in *.
  destruct (is_pair h l); lia.
Qed.

Lemma rune_count_truthy s : truthy s = true -> rune_count s <> 0.
Proof. now destruct s. Qed.

Record code_facts (r : Redemption) : Prop := {
  cf_truthy : truthy (r_name r) = true;
  cf_trim : trim (r_name r) = r_name r;
  cf_space : TrimSpace (r_name r) = r_name r;
  cf_length : length (r_name r) <= 20;
  cf_expired : (0 <= r_expired_time r <= 8640000000000)%Z;
  cf_kind : match form_type (r_redeem_type r) with
            | QUOTA => (0 < r_quota r <= 900000000000000)%Z
            | SUBSCRIPTION => (0 < r_plan_id r)%Z
            | BLIND_BOX => (0 < r_blind_box_quantity r)%Z
            end;
}.

Lemma is_type_refl t : is_type t t = true.
Proof. now destruct t. Qed.

Lemma enterable_ok r : enterable r = true -> code_facts r.
Proof.
  unfold enterable. intros H. bool_hyps. constructor; try easy; [now apply Nat.leb_le|lia|].
  destruct (form_type (r_redeem_type r)); bool_hyps; lia.
Qed.

Lemma type_tests s :
  (s =s type_text SUBSCRIPTION) = is_type (form_type s) SUBSCRIPTION
  /\ (s =s type_text BLIND_BOX) = is_type (form_type s) BLIND_BOX.
Proof.
  unfold form_type. destruct (seqb_spec s (type_text SUBSCRIPTION)) as [->|]; [easy|].
  now destruct (seqb_spec s (type_text BLIND_BOX)) as [->|].
Qed.

Lemma name_kept t b data r :
  code_facts r -> rf_name data = r_name r -> resolveRedemptionName t b data = r_name r.
Proof.
  intros HP E. unfold resolveRedemptionName. rewrite E, (cf_trim _ HP), (cf_truthy _ HP). apply runes_kept.
  pose proof (rune_count_length (r_name r)). pose proof (cf_length _ HP). lia.
Qed.

Lemma expiry_kept r :
  code_facts r ->
  match (if (0 <? r_expired_time r)%Z then Some (new_Date (r_expired_time r * 1000)) else None) with
  | Some (Some ms) => (ms / 1000)%Z | _ => 0%Z end = r_expired_time r
  /\ z_optional (fun d : Date => match d with Some _ => true | None => false end)
       (if (0 <? r_expired_time r)%Z then Some (new_Date (r_expired_time r * 1000)) else None) = true.
Proof.
  intros HP. pose proof (cf_expired _ HP). unfold new_Date.
  destruct (Z.ltb_spec 0 (r_expired_time r)); [|split; [lia|easy]].
  destruct (Z.leb_spec (Z.abs (r_expired_time r * 1000)) 8640000000000000); [|lia].
  split; [now apply Z.div_mul|easy].
Qed.

Lemma expiry_valid now r :
  code_facts r -> validateExpiredTime now (r_expired_time r) = negb (code_expired now r).
Proof.
  intros HP. pose proof (cf_expired _ HP). unfold validateExpiredTime, code_expired.
  destruct (Z.eqb_spec (r_expired_time r) 0) as [->|]; [easy|].
  now destruct (Z.ltb_spec 0 (r_expired_time r)); [|lia].
Qed.

Lemma name_valid r : code_facts r -> validateRedemptionName (r_name r) = true.
Proof.
  intros HP. unfold validateRedemptionName. rewrite (cf_space _ HP). pose proof (cf_length _ HP).
  pose proof (rune_count_length (r_name r)). pose proof (rune_count_truthy _ (cf_truthy _ HP)).
  destruct (Nat.eqb_spec (rune_count (r_name r)) 0); [easy|]. apply Nat.leb_le. lia.
Qed.

(** The amount of a code of a plain type. *)
Lemma amount_kept (stored : option CurrencyConfig) q :
  rates_ok stored = true -> (0 < q <= 900000000000000)%Z ->
  let x := quotaUnitsToDollars stored (of_Z q) in
  isFinite x && (zero <=? x)%num = true /\ (x <=? zero)%num = false
  /\ parseQuotaFromDollars stored x = of_Z q.
Proof.
  intros Hr Hq x. destruct (shown_ok stored q Hr ltac:(lia)) as (Hf & Hn & _). fold x in Hf, Hn.
  pose proof (shown_positive stored q Hr Hq) as Hp. fold x in Hp.
  rewrite Hf, (leb_of_ltb zero x) by easy. split; [easy|]. split; [|apply units_back; lia || easy].
  unfold SFltb, SFleb in *. rewrite (compare_opp zero x). now destruct (SFcompare zero x) as [[]|].
Qed.

Lemma form_accepted (stored : option CurrencyConfig) r :
  rates_ok stored = true -> code_facts r ->
  getRedemptionFormSchema (transformRedemptionToFormDefaults stored r)
  = Some (transformRedemptionToFormDefaults stored r).
Proof.
  intros Hr HP. destruct (expiry_kept _ HP) as (_ & Hv). pose proof (cf_length _ HP) as Hl%Nat.leb_le.
  pose proof (cf_kind _ HP) as HK. destruct (type_tests (r_redeem_type r)) as [T1 T2].
  unfold getRedemptionFormSchema. cbn [transformRedemptionToFormDefaults rf_name rf_redeem_type
    rf_quota_dollars rf_plan_id rf_blind_box_quantity rf_expired_time rf_count opt_or].
  change NAME_MAX_LENGTH with 20. rewrite Hl, Hv, T1, T2.
  unfold transformRedemptionToFormDefaults. rewrite T1, T2.
  assert (forall z d, (0 <= d)%Z -> (0 <=? (if (0 <? z)%Z then z else d))%Z = true) as Hz
    by (intros z d Hd; destruct (Z.ltb_spec 0 z); apply Z.leb_le; lia).
  rewrite !Hz by lia. destruct (form_type (r_redeem_type r)).
  - destruct (amount_kept stored (r_quota r) Hr ltac:(easy)) as (A1 & A2 & _).
    change (is_type QUOTA SUBSCRIPTION || is_type QUOTA BLIND_BOX) with false. cbv iota. rewrite A1, A2. reflexivity.
  - rewrite (proj2 (Z.ltb_lt 0 (r_plan_id r)) HK), (proj2 (Z.leb_gt (r_plan_id r) 0) HK). reflexivity.
  - rewrite (proj2 (Z.ltb_lt 0 (r_blind_box_quantity r)) HK), (proj2 (Z.leb_gt (r_blind_box_quantity r) 0) HK).
    reflexivity.
Qed.

(** The values of [r] written over the code [c]. *)
Definition over (c r : Redemption) : Redemption :=
  {| r_id := r_id c; r_name := r_name r; r_status := r_status c; r_redeem_type := r_redeem_type r;
     r_quota := r_quota r; r_plan_id := r_plan_id r; r_plan_title := r_plan_title r;
     r_blind_box_quantity := r_blind_box_quantity r; r_expired_time := r_expired_time r |}.

Definition answer_map {A B} (f : A -> B) (a : answer A) : answer B :=
  match a with Ok x => Ok (f x) | Err e => Err e end.

(** What the form of a code sends. *)
Lemma sent_of stored t r :
  rates_ok stored = true -> code_facts r ->
  exists p, submitted stored t (transformRedemptionToFormDefaults stored r) = Some p
    /\ rp_name p = r_name r /\ rp_expired_time p = r_expired_time r
    /\ decode_int (rp_quota p) = Some (r_quota (rewritten [] r))
    /\ rp_redeem_type p = form_type (r_redeem_type r)
    /\ rp_plan_id p = r_plan_id (rewritten [] r)
    /\ rp_blind_box_quantity p = r_blind_box_quantity (rewritten [] r).
Proof.
  intros Hr HP. destruct (expiry_kept _ HP) as (He & _). pose proof (cf_kind _ HP) as HK.
  unfold submitted. rewrite form_accepted by easy. eexists. split; [reflexivity|]. cbv zeta.
  split; [now apply (name_kept _ _ _ r)|]. split; [exact He|].
  destruct (type_tests (r_redeem_type r)) as [T1 T2].
  unfold transformFormDataToPayload, transformRedemptionToFormDefaults, rewritten.
  cbn [rp_quota rf_redeem_type rf_quota_dollars rf_plan_id rf_blind_box_quantity opt_or rp_redeem_type
       rp_plan_id rp_blind_box_quantity r_quota r_plan_id r_blind_box_quantity]. rewrite T1, T2.
  destruct (form_type (r_redeem_type r)).
  - destruct (amount_kept stored _ Hr HK) as (_ & _ & A3).
    change (is_type QUOTA SUBSCRIPTION || is_type QUOTA BLIND_BOX) with false. cbv iota. rewrite A3.
    rewrite is_type_refl. split; [apply decode_units; lia|easy].
  - repeat split; try reflexivity. rewrite ?is_type_refl.
    now rewrite (proj2 (Z.ltb_lt _ _) HK).
  - repeat split; try reflexivity. rewrite ?is_type_refl.
    now rewrite (proj2 (Z.ltb_lt _ _) HK).
Qed.

(** The form of one code, saved to whatever code. *)
Lemma saved_code stored t plans now db r c :
  rates_ok stored = true -> enterable r = true -> db (r_id c) = Some c ->
  exists p, submitted stored t (transformRedemptionToFormDefaults stored r) = Some p
    /\ UpdateRedemption plans now db (r_id c) p = answer_map (over c) (unedited_code plans now r).
Proof.
  intros Hr HP%enterable_ok Hd. destruct (sent_of stored t r Hr HP) as (p & Es & E1 & E2 & E3 & E4 & E5 & E6).
  exists p. split; [easy|]. pose proof (cf_kind _ HP) as HK.
  unfold UpdateRedemption. rewrite E3, Hd, E1, E2, (name_valid _ HP), (expiry_valid now _ HP), E4, E5, E6.
  cbn [negb]. unfold unedited_code. destruct (code_expired now r); [easy|]. cbn [negb].
  unfold prepareRedemptionForWrite. cbn [r_name r_redeem_type r_plan_id r_blind_box_quantity r_quota r_plan_title
    r_id r_status r_expired_time]. rewrite !(cf_space _ HP). unfold rewritten, over.
  cbn [r_name r_redeem_type r_plan_id r_blind_box_quantity r_quota r_plan_title r_id r_status r_expired_time].
  destruct (form_type (r_redeem_type r)); cbn.
  - now rewrite is_type_refl, (proj2 (Z.leb_gt (r_quota r) 0)) by lia.
  - rewrite !is_type_refl, (proj2 (Z.leb_gt (r_plan_id r) 0)) by lia. now destruct (plans (r_plan_id r)).
  - now rewrite is_type_refl, (proj2 (Z.leb_gt (r_blind_box_quantity r) 0)) by lia.
Qed.

(** A code that the server wrote and that has not expired is saved as it is. *)
Lemma as_written_kept plans now r :
  code_expired now r = false -> as_written plans r = true -> unedited_code plans now r = Ok r.
Proof.
  intros He Hw. unfold unedited_code. rewrite He. unfold as_written in Hw. apply andb_prop in Hw as [Hy%seqb_eq Hk].
  destruct r as [id n st ty q pl ti bb ex]. cbn [r_redeem_type r_quota r_plan_id r_plan_title r_blind_box_quantity] in *.
  unfold rewritten. cbn [r_redeem_type r_quota r_plan_id r_plan_title r_blind_box_quantity r_id r_name r_status
    r_expired_time]. rewrite <- Hy.
  destruct (form_type ty); [|destruct (plans pl) as [x|]; [|now rewrite andb_false_r in Hk]|];
    bool_hyps; subst; try easy.
Qed.

Lemma saved_over stored t plans now db r c :
  rates_ok stored = true -> plain_redemption plans now r = true -> db (r_id c) = Some c ->
  exists p, submitted stored t (transformRedemptionToFormDefaults stored r) = Some p
    /\ UpdateRedemption plans now db (r_id c) p = Ok (over c r).
Proof.
  intros Hr Hp Hd. unfold plain_redemption in Hp. bool_hyps.
  destruct (saved_code stored t plans now db r c) as (p & Es & Eu); [easy..|]. exists p. split; [easy|].
  rewrite Eu, as_written_kept by easy. reflexivity.
Qed.

(** C9: A redemption code of any of the three types is opened and saved without a change.  If its
    name has at most 20 units of UTF-16 and no space at its ends, its expiry is one that a date
    can hold, and it has the quota, plan or quantity of its type, then the schema accepts the
    form and it is sent, for every rate of the currency.  The server refuses it when the code
    has expired, and when its plan is gone; otherwise it stores the same name, expiry and quota,
    plan or quantity, and the title that the plan has now.  So a code that the server wrote,
    that has not expired and whose plan has kept its title comes back as it was. *)
Theorem redemption_unedited (stored : option CurrencyConfig) (t : Texts) (plans : Z -> option jstr) (now : Z)
    (db : Z -> option Redemption) (r : Redemption) :
  rates_ok stored = true -> enterable r = true -> db (r_id r) = Some r ->
  exists p, submitted stored t (transformRedemptionToFormDefaults stored r) = Some p
    /\ UpdateRedemption plans now db (r_id r) p = unedited_code plans now r
    /\ (code_expired now r = false -> as_written plans r = true ->
        UpdateRedemption plans now db (r_id r) p = Ok r).
Proof.
  intros Hr Hp Hd. destruct (saved_code stored t plans now db r r Hr Hp Hd) as (p & H & E).
  assert (UpdateRedemption plans now db (r_id r) p = unedited_code plans now r) as E'.
  { rewrite E. unfold unedited_code, rewritten, over. now repeat case_goal. }
  exists p. split; [easy|]. split; [easy|]. intros. rewrite E'. now apply as_written_kept.
Qed.

Definition no_texts : Texts :=
  {| subscription_redemption := "Subscription Redemption"; blind_box_times := fun _ => "Blind Box";
     universal_credit := "Universal Credit"; currencyLabel := "credits"; plan_title_of := fun _ => None |}.

Definition quota_code : Redemption :=
  {| r_id := 3; r_name := "gift"; r_status := 1; r_redeem_type := "quota"; r_quota := 1234567; r_plan_id := 0;
     r_plan_title := []; r_blind_box_quantity := 0; r_expired_time := 1900000000 |}.

(** At a time before its expiry, and after it. *)
Lemma redemption_unedited_witness :
  (exists p, submitted (Some cny_config) no_texts (transformRedemptionToFormDefaults (Some cny_config) quota_code) = Some p
    /\ UpdateRedemption (fun _ => None) 1800000000 (fun _ => Some quota_code) 3 p = Ok quota_code)
  /\ (exists p, submitted (Some cny_config) no_texts (transformRedemptionToFormDefaults (Some cny_config) quota_code) = Some p
    /\ UpdateRedemption (fun _ => None) 2000000000 (fun _ => Some quota_code) 3 p = Err "expired").
Proof.
  split.
  - destruct (redemption_unedited (Some cny_config) no_texts (fun _ => None) 1800000000 (fun _ => Some quota_code)
      quota_code) as (p & H & _ & E); [vm_compute; reflexivity..|]. exists p. split; [exact H|].
    apply E; reflexivity.
  - destruct (redemption_unedited (Some cny_config) no_texts (fun _ => None) 2000000000 (fun _ => Some quota_code)
      quota_code) as (p & H & E & _); [vm_compute; reflexivity..|]. exists p. split; [exact H|]. exact E.
Defined.

(** * The export of what a search finds *)

Section Paging.
Context {Row : Type}.

(** One loop of [fetchAllRowsForCurrentFilter] per page: the answer to the request of a page,
    missing when the server refuses. *)
Fixpoint fetchAll (answers : nat -> option (list Row * Z)) (fuel page : nat) (items : list Row)
  : option (list Row) :=
  match fuel with
  | 0 => None
  | S fuel =>
    let batch := match answers page with Some (b, _) => b | None => [] end in
    let total := match answers page with
                 | Some (b, t) => if (t =? 0)%Z then Z.of_nat (length b) else t
                 | None => 0%Z
                 end in
    let items := items ++ batch in
    if (Z.of_nat (length items) <? total)%Z then fetchAll answers fuel (S page) items else Some items
  end.

Definition fetchAllRowsForCurrentFilter (answers : nat -> option (list Row * Z)) (fuel : nat) : option (list Row) :=
  fetchAll answers fuel 1 [].

(** The server gives at most a hundred rows, whatever is asked.  It reads the table twice for
    a page: [counts p] is how many codes its [Count] finds, [rows p] what its [Find] would
    give without a limit, and anything may happen between the two. *)
Definition maxItemsPerPage : nat := 100.
Definition searchRedemptionRecords (count : nat) (found : list Row) (offset limit : nat) : list Row * Z :=
  (take limit (drop offset found), Z.of_nat count).
Definition paged (counts : nat -> nat) (rows : nat -> list Row) (page : nat) : option (list Row * Z) :=
  Some (searchRedemptionRecords (counts page) (rows page) ((page - 1) * maxItemsPerPage) maxItemsPerPage).

Lemma page_length (rows : nat -> list Row) page :
  length (take maxItemsPerPage (drop ((page - 1) * maxItemsPerPage) (rows page)))
  = Nat.min maxItemsPerPage (length (rows page) - (page - 1) * maxItemsPerPage).
Proof. now rewrite length_take, length_drop. Qed.

(** The loop ends, whatever changes, when the finds are bounded and no page counts more than
    it finds. *)
Lemma fetch_ends (counts : nat -> nat) (rows : nat -> list Row) bound :
  (forall p, length (rows p) <= bound) -> (forall p, counts p <= length (rows p)) ->
  forall fuel page items, 1 <= page -> length items = (page - 1) * maxItemsPerPage ->
  bound < (page - 1 + fuel) * maxItemsPerPage -> (page - 1) * maxItemsPerPage <= bound + maxItemsPerPage ->
  fuel <> 0 -> exists l, fetchAll (paged counts rows) fuel page items = Some l.
Proof.
  intros Hb Hc. induction fuel as [|fuel IH]; intros page items Hp Hi Hf Hm H0; [easy|].
  cbn [fetchAll paged searchRedemptionRecords].
  set (batch := take _ _). pose proof (page_length rows page) as Hl. fold batch in Hl.
  pose proof (Hb page) as Hbp. pose proof (Hc page) as Hcp. rewrite length_app, Hi.
  destruct (Z.ltb_spec (Z.of_nat ((page - 1) * maxItemsPerPage + length batch))
    (if (Z.of_nat (counts page) =? 0)%Z then Z.of_nat (length batch) else Z.of_nat (counts page)))
    as [Hlt|]; [|now eexists].
  destruct (Z.eqb_spec (Z.of_nat (counts page)) 0); [lia|].
  unfold maxItemsPerPage in *. apply IH; [lia|rewrite length_app; lia|lia|lia|lia].
Qed.

Lemma fetch_ext (a b : nat -> option (list Row * Z)) : (forall p, a p = b p) ->
  forall fuel page items, fetchAll a fuel page items = fetchAll b fuel page items.
Proof.
  intros H. induction fuel as [|fuel IH]; intros page items; [easy|]. cbn [fetchAll]. rewrite H.
  now destruct (_ <? _)%Z.
Qed.

Lemma next_page (all : list Row) page : 1 <= page ->
  take ((page - 1) * maxItemsPerPage) all ++ take maxItemsPerPage (drop ((page - 1) * maxItemsPerPage) all)
  = take ((S page - 1) * maxItemsPerPage) all.
Proof.
  intros Hp. replace ((S page - 1) * maxItemsPerPage) with ((page - 1) * maxItemsPerPage + maxItemsPerPage)
    by (unfold maxItemsPerPage; lia).
  now rewrite take_take_drop.
Qed.

(** What the search finds when nothing changes. *)
Definition still (all : list Row) (page : nat) : option (list Row * Z) :=
  paged (fun _ => length all) (fun _ => all) page.

(** When the finds stay, the loop collects them. *)
Lemma fetch_collects (all : list Row) fuel : forall page items l, 1 <= page ->
  items = take ((page - 1) * maxItemsPerPage) all ->
  fetchAll (still all) fuel page items = Some l -> l = all.
Proof.
  induction fuel as [|fuel IH]; intros page items l Hp -> H; [easy|].
  cbn [fetchAll still paged searchRedemptionRecords] in H.
  rewrite next_page in H by easy.
  destruct (_ <? _)%Z eqn:Hlt in H; [now apply (IH (S page) _ l ltac:(lia) eq_refl)|].
  injection H as <-. apply Z.ltb_ge in Hlt. rewrite !length_take in Hlt. apply take_ge.
  destruct (Z.eqb_spec (Z.of_nat (length all)) 0); lia.
Qed.

(** A page that is refused is the last. *)
Lemma fetch_refused (all : list Row) (answers : nat -> option (list Row * Z)) n :
  n * maxItemsPerPage < length all -> answers (S n) = None ->
  (forall p, 1 <= p <= n -> answers p = still all p) ->
  forall fuel page items, 1 <= page <= S n -> items = take ((page - 1) * maxItemsPerPage) all -> S n - page < fuel ->
  fetchAll answers fuel page items = Some (take (n * maxItemsPerPage) all).
Proof.
  intros Hn Hr Ha. induction fuel as [|fuel IH]; intros page items Hp -> Hf; [lia|]. cbn [fetchAll].
  destruct (Nat.eq_dec page (S n)) as [->|Hne].
  - rewrite Hr, app_nil_r. replace (S n - 1) with n by lia.
    now destruct (Z.ltb_spec (Z.of_nat (length (take (n * maxItemsPerPage) all))) 0); [lia|].
  - rewrite Ha by lia. cbn [still paged searchRedemptionRecords]. rewrite next_page by lia.
    destruct (Z.eqb_spec (Z.of_nat (length all)) 0); [lia|]. rewrite length_take.
    assert ((S page - 1) * maxItemsPerPage < length all) by (unfold maxItemsPerPage in *; nia).
    destruct (Z.ltb_spec (Z.of_nat (Nat.min ((S page - 1) * maxItemsPerPage) (length all))) (Z.of_nat (length all)));
      [|lia].
    apply IH; [lia|easy|lia].
Qed.

(** Beyond the end there is nothing, and the loop goes on asking. *)
Lemma fetch_stuck (count : nat) (found : list Row) (answers : nat -> option (list Row * Z)) fuel : forall page items,
  (forall p, page <= p -> answers p = paged (fun _ => count) (fun _ => found) p) ->
  length found <= (page - 1) * maxItemsPerPage -> 1 <= page -> length items < count ->
  fetchAll answers fuel page items = None.
Proof.
  induction fuel as [|fuel IH]; intros page items Ha Hl Hp Hi; [easy|]. cbn [fetchAll].
  rewrite Ha by lia. cbn [paged searchRedemptionRecords]. rewrite drop_ge, take_nil, app_nil_r by easy.
  destruct (Z.eqb_spec (Z.of_nat count) 0); [lia|].
  destruct (Z.ltb_spec (Z.of_nat (length items)) (Z.of_nat count)); [|lia].
  apply IH; [|unfold maxItemsPerPage in *; lia|lia|easy]. intros p Hq. apply Ha. lia.
Qed.

(** C27: The export of a search, for a server that counts and reads the codes of a page in two
    queries, between which anything may change.  If no page counts more codes than it then
    finds, the export ends, after at most two requests more than there are full pages of the
    most that is ever found; and if nothing changes at all it has every code that the search
    finds, once and in order.  A page that the server refuses ends it as if it were the last,
    whichever it is: the file has the codes of the pages before it, and counts them as all.
    But when codes go between the two queries of one page (here the first page counts 150
    codes and finds 50, and every query after it sees 150), the export asks for pages for
    ever, though nothing changes any more. *)
Theorem export_ends (x : Row) :
  (forall (counts : nat -> nat) (rows : nat -> list Row) (bound : nat),
     (forall p, length (rows p) <= bound) -> (forall p, counts p <= length (rows p)) ->
     exists l, fetchAllRowsForCurrentFilter (paged counts rows) (bound / maxItemsPerPage + 2) = Some l
       /\ ((forall p, rows p = rows 1 /\ counts p = length (rows 1)) -> l = rows 1))
  /\ (forall (all : list Row) (answers : nat -> option (list Row * Z)) (n fuel : nat),
        n * maxItemsPerPage < length all -> n < fuel ->
        (forall p, 1 <= p <= n -> answers p = paged (fun _ => length all) (fun _ => all) p) ->
        answers (S n) = None ->
        fetchAllRowsForCurrentFilter answers fuel = Some (take (n * maxItemsPerPage) all))
  /\ (forall fuel, fetchAllRowsForCurrentFilter
        (paged (fun _ => 150) (fun p => repeat x (if p =? 1 then 50 else 150))) fuel = None).
Proof.
  split; [|split].
  - intros counts rows bound Hb Hc.
    destruct (fetch_ends counts rows bound Hb Hc (bound / maxItemsPerPage + 2) 1 []) as [l Hl]; try easy; try (cbn; lia).
    { pose proof (Nat.mul_succ_div_gt bound maxItemsPerPage ltac:(easy)). unfold maxItemsPerPage in *. lia. }
    exists l. split; [easy|]. intros Hs. apply (fetch_collects (rows 1) (bound / maxItemsPerPage + 2) 1 [] l); [easy..|].
    rewrite <- Hl. apply fetch_ext. intros p. unfold still, paged. destruct (Hs p) as [-> ->]. reflexivity.
  - intros all answers n fuel Hlen Hf Ha Hr. apply fetch_refused; [easy|easy|exact Ha|lia|easy|lia].
  - intros [|[|fuel]]; [easy..|]. unfold fetchAllRowsForCurrentFilter. cbn.
    apply (fetch_stuck 150 (repeat x 150)); [|rewrite repeat_length; cbn; lia|lia|cbn; lia].
    intros p Hp. unfold paged. now rewrite (proj2 (Nat.eqb_neq p 1)) by lia.
Qed.

End Paging.

(** 250 codes that stay, and the same with a third page that is refused. *)
Lemma export_ends_witness :
  (exists l, fetchAllRowsForCurrentFilter (paged (fun _ => 250) (fun _ => seq 0 250)) (250 / maxItemsPerPage + 2) = Some l
    /\ ((forall p : nat, seq 0 250 = seq 0 250 /\ 250 = length (seq 0 250)) -> l = seq 0 250))
  /\ fetchAllRowsForCurrentFilter
       (fun p => if p =? 3 then None else paged (fun _ => length (seq 0 250)) (fun _ => seq 0 250) p) 5
     = Some (take (2 * maxItemsPerPage) (seq 0 250)).
Proof.
  split.
  - apply (proj1 (export_ends 0) (fun _ => 250) (fun _ => seq 0 250) 250); intros p; rewrite length_seq; lia.
  - apply (proj1 (proj2 (export_ends 0)) (seq 0 250)); [rewrite length_seq; cbn; lia|lia| |reflexivity].
    intros p Hp. now rewrite (proj2 (Nat.eqb_neq p 3)) by lia.
Defined.
