(* ===== verification/EditDrawers.v ===== *)
(** * Drawers that do not wait for their record

    [features/redemption-codes/components/redemptions-mutate-drawer.tsx] and
    [features/users/components/users-mutate-drawer.tsx] with [lib/user-form.ts] and
    [user-quota-dialog.tsx].

    Unlike the drawer of keys ([KeyDrawer.v]), these two show their form at once and read the
    record in an effect.  A reading is a promise that nothing cancels: its answer resets the
    form whatever is open when it comes.  The two drawers are one state machine, given the
    form and what is sent of it. *)

From S2P Require Import Prelude Number Quota RouteServer ApiKeys Redemptions.
From stdpp Require Import options.

(** * The drawer *)

Inductive Mode := Closed | Creating | Updating (id : Z).

Section Drawer.
Context {Row Form Payload : Type}.
Context (defaults : Form) (load : Row -> Form).
(** The form after the frame was used to close it, given the last reset; and what is sent of
    a form, for a row or for a new one, if its schema accepts it. *)
Context (closing : Form -> Form) (submit : option Z -> Form -> option Payload).

Record World := {
  d_mode : Mode;
  d_form : Form;
  d_base : Form;                     (** what the form library resets to *)
  d_reads : list Z;                  (** the readings under way *)
  d_busy : bool;
  d_sent : list (option Z * Payload);
}.

Definition start : World :=
  {| d_mode := Closed; d_form := defaults; d_base := defaults; d_reads := []; d_busy := false; d_sent := [] |}.

Definition with_mode (m : Mode) (w : World) : World :=
  {| d_mode := m; d_form := d_form w; d_base := d_base w; d_reads := d_reads w; d_busy := d_busy w; d_sent := d_sent w |}.
Definition with_form (f base : Form) (w : World) : World :=
  {| d_mode := d_mode w; d_form := f; d_base := base; d_reads := d_reads w; d_busy := d_busy w; d_sent := d_sent w |}.
Definition with_reads (r : list Z) (w : World) : World :=
  {| d_mode := d_mode w; d_form := d_form w; d_base := d_base w; d_reads := r; d_busy := d_busy w; d_sent := d_sent w |}.
Definition with_busy (b : bool) (sent : list (option Z * Payload)) (w : World) : World :=
  {| d_mode := d_mode w; d_form := d_form w; d_base := d_base w; d_reads := d_reads w; d_busy := b;
     d_sent := d_sent w ++ sent |}.

Definition reset (f : Form) (w : World) : World := with_form f f w.

Definition target (w : World) : option Z := match d_mode w with Updating id => Some id | _ => None end.

Inductive Event :=
| EOpenCreate
| EOpenUpdate (id : Z)
| EClose                              (** by the frame *)
| EEdit (f : Form)
| ERead (n : nat) (r : option Row)    (** the [n]-th reading under way is answered *)
| ERefresh                            (** [refreshUserData]: the open row is read again *)
| ESubmit
| EAnswer (success : bool).

(** [None]: it cannot happen now. *)
Definition step (w : World) (e : Event) : option World :=
  match e, d_mode w with
  | EOpenCreate, Closed => Some (reset defaults (with_mode Creating w))
  | EOpenUpdate id, Closed => Some (with_reads (d_reads w ++ [id]) (with_mode (Updating id) w))
  | EClose, Closed | EEdit _, Closed | ESubmit, Closed => None
  | EClose, _ => Some (reset (closing (d_base w)) (with_mode Closed w))
  | EEdit f, _ => Some (with_form f (d_base w) w)
  | ERead n r, _ =>
    match d_reads w !! n with
    | Some _ =>
      let w := with_reads (take n (d_reads w) ++ drop (S n) (d_reads w)) w in
      Some (match r with Some row => reset (load row) w | None => w end)
    | None => None
    end
  | ERefresh, Updating id => Some (with_reads (d_reads w ++ [id]) w)
  | ESubmit, _ =>
    if d_busy w then None
    else Some (match submit (target w) (d_form w) with
               | Some p => with_busy true [(target w, p)] w
               | None => w
               end)
  | EAnswer success, _ =>
    if d_busy w then
      let w := with_busy false [] w in
      Some (if success then with_mode Closed w else w)
    else None
  | _, _ => None
  end.

Fixpoint steps (w : World) (es : list Event) : option World :=
  match es with
  | [] => Some w
  | e :: es => match step w e with Some w' => steps w' es | None => None end
  end.

(** Two rows are opened one after the other, and the readings are answered in the order in
    which they were made, or in the other one. *)
Definition open_two (a b : Z) (ra rb : Row) (in_order : bool) : list Event :=
  [EOpenUpdate a; EClose; EOpenUpdate b]
  ++ (if in_order then [ERead 0 (Some ra); ERead 0 (Some rb)] else [ERead 1 (Some rb); ERead 0 (Some ra)])
  ++ [ESubmit].

Lemma two_rows (w : World) a b ra rb (in_order : bool) p :
  d_mode w = Closed -> d_reads w = [] -> d_busy w = false ->
  submit (Some b) (load (if in_order then rb else ra)) = Some p ->
  exists w', steps w (open_two a b ra rb in_order) = Some w' /\ d_sent w' = d_sent w ++ [(Some b, p)].
Proof.
  destruct w as [m f base reads busy sent]. cbn [d_mode d_reads d_busy d_sent]. intros -> -> -> Hs.
  destruct in_order; cbn; unfold target; cbn; rewrite Hs; eexists; (split; [reflexivity|]); easy.
Qed.

(** A row that is saved before its reading is answered, or after it failed, gets what the form
    had from the creation before. *)
Lemma unread_row (w : World) f b p q :
  d_mode w = Closed -> d_reads w = [] -> d_busy w = false ->
  submit None f = Some p -> submit (Some b) f = Some q ->
  exists w', steps w [EOpenCreate; EEdit f; ESubmit; EAnswer true; EOpenUpdate b; ERead 0 None; ESubmit] = Some w'
    /\ d_sent w' = d_sent w ++ [(None, p); (Some b, q)].
Proof.
  destruct w as [m f0 base reads busy sent]. cbn [d_mode d_reads d_busy d_sent]. intros -> -> -> Hp Hq.
  cbn. unfold target. cbn. rewrite Hp. cbn. rewrite Hq. eexists. split; [reflexivity|]. cbn.
  now rewrite app_nil_r, <- app_assoc.
Qed.

(** Reading the open row again throws away what was typed. *)
Lemma refresh_discards (w : World) id f r :
  d_mode w = Updating id -> d_reads w = [] ->
  exists w', steps w [EEdit f; ERefresh; ERead 0 (Some r)] = Some w' /\ d_form w' = load r.
Proof.
  destruct w as [m f0 base reads busy sent]. cbn [d_mode d_reads]. intros -> ->. cbn. now eexists.
Qed.

(** A row that is opened, read and then saved gets what was read. *)
Lemma read_row (w : World) b r p :
  d_mode w = Closed -> d_reads w = [] -> d_busy w = false -> submit (Some b) (load r) = Some p ->
  exists w', steps w [EOpenUpdate b; ERead 0 (Some r); ESubmit] = Some w' /\ d_sent w' = d_sent w ++ [(Some b, p)].
Proof.
  destruct w as [m f base reads busy sent]. cbn [d_mode d_reads d_busy d_sent]. intros -> -> -> Hs.
  cbn. unfold target. cbn. rewrite Hs. now eexists.
Qed.

End Drawer.
Arguments World Form Payload : clear implicits.

(** * Redemption codes *)

(** The frame resets the form to the defaults. *)
Definition redemption_closing (base : RedemptionFormValues) : RedemptionFormValues := REDEMPTION_FORM_DEFAULT_VALUES.
Definition redemption_submit (stored : option CurrencyConfig) (t : Texts) (id : option Z)
    (v : RedemptionFormValues) : option RedemptionFormData := submitted stored t v.

Definition redemption_steps (stored : option CurrencyConfig) (t : Texts) :=
  steps REDEMPTION_FORM_DEFAULT_VALUES (transformRedemptionToFormDefaults stored) redemption_closing
    (redemption_submit stored t).

(** When one code is opened, closed, and another opened before the first was read, the
    answers decide what is saved: if they come in the order of the readings, the second code
    keeps its values; if the first comes last, the form of the second shows the first, and
    saving it writes its name, type, amount and expiry over the second. *)
Theorem late_read_saved (stored : option CurrencyConfig) (t : Texts) (plans : Z -> option jstr) (now : Z)
    (db : Z -> option Redemption) (w : World RedemptionFormValues RedemptionFormData) (a b : Redemption)
    (in_order : bool) :
  rates_ok stored = true -> plain_redemption plans now a = true -> plain_redemption plans now b = true ->
  db (r_id b) = Some b -> d_mode w = Closed -> d_reads w = [] -> d_busy w = false ->
  exists w' p, redemption_steps stored t w (open_two (r_id a) (r_id b) a b in_order) = Some w'
    /\ d_sent w' = d_sent w ++ [(Some (r_id b), p)]
    /\ UpdateRedemption plans now db (r_id b) p = Ok (over b (if in_order then b else a)).
Proof.
  intros Hr Ha Hb Hd Hm Hn Hf.
  assert (plain_redemption plans now (if in_order then b else a) = true) as Hp by now destruct in_order.
  destruct (saved_over stored t plans now db _ b Hr Hp Hd) as (p & Es & Eu).
  destruct (two_rows REDEMPTION_FORM_DEFAULT_VALUES (transformRedemptionToFormDefaults stored) redemption_closing
              (redemption_submit stored t) w (r_id a) (r_id b) a b in_order p) as (w' & E & Hs); [easy..|].
  now exists w', p.
Qed.

Definition box_code : Redemption :=
  {| r_id := 4; r_name := "box"; r_status := 1; r_redeem_type := "blind_box"; r_quota := 0; r_plan_id := 0;
     r_plan_title := []; r_blind_box_quantity := 2; r_expired_time := 0 |}.

Lemma late_read_saved_witness :
  exists w' p, redemption_steps (Some cny_config) no_texts (start REDEMPTION_FORM_DEFAULT_VALUES)
      (open_two 3 4 quota_code box_code false) = Some w'
    /\ d_sent w' = [(Some 4%Z, p)]
    /\ UpdateRedemption (fun _ => None) 1800000000 (fun _ => Some box_code) 4 p = Ok (over box_code quota_code).
Proof.
  apply (late_read_saved (Some cny_config) no_texts (fun _ => None) 1800000000 (fun _ => Some box_code)
           (start REDEMPTION_FORM_DEFAULT_VALUES) quota_code box_code false); vm_compute; reflexivity.
Defined.

(** * Users *)

Record User := {
  u_id : Z;
  u_username : jstr;
  u_display_name : jstr;
  u_role : number;
  u_quota : number;
  u_group : jstr;
  u_remark : option jstr;
}.

Record UserFormValues := {
  uf_username : jstr;
  uf_display_name : option jstr;
  uf_password : option jstr;
  uf_role : option number;
  uf_quota_dollars : option number;
  uf_group : option jstr;
  uf_remark : option jstr;
}.

Definition userFormSchema (v : UserFormValues) : bool :=
  truthy (uf_username v) && z_optional isFinite (uf_role v)
  && z_optional (fun q => isFinite q && (zero <=? q)%num) (uf_quota_dollars v).

(** [DEFAULT_GROUP] of [features/users/constants.ts] *)
Definition USER_DEFAULT_GROUP : jstr := "default".

Definition USER_FORM_DEFAULT_VALUES : UserFormValues :=
  {| uf_username := []; uf_display_name := Some []; uf_password := Some []; uf_role := Some (of_Z 1);
     uf_quota_dollars := Some zero; uf_group := Some USER_DEFAULT_GROUP; uf_remark := Some [] |}.

(** A field that is [None] is not sent. *)
Record UserFormData := {
  up_id : option Z;
  up_username : jstr;
  up_display_name : jstr;
  up_password : option jstr;
  up_role : option number;
  up_group : option jstr;
  up_remark : option jstr;
}.

Definition or_undefined (v : option jstr) : option jstr :=
  match v with Some s => if truthy s then Some s else None | None => None end.

Definition user_payload (data : UserFormValues) (userId : option Z) : UserFormData :=
  {| up_id := userId; up_username := uf_username data;
     up_display_name := str_or (opt_or (uf_display_name data) []) (uf_username data);
     up_password := or_undefined (uf_password data);
     up_role := match userId with
                | None => Some (num_or (opt_or (uf_role data) zero) (of_Z 1))
                | Some _ => None
                end;
     up_group := match userId with None => None | Some _ => uf_group data end;
     up_remark := match userId with None => None | Some _ => or_undefined (uf_remark data) end |}.

Definition transformUserToFormDefaults (stored : option CurrencyConfig) (u : User) : UserFormValues :=
  {| uf_username := u_username u; uf_display_name := Some (u_display_name u); uf_password := Some [];
     uf_role := Some (u_role u); uf_quota_dollars := Some (quotaUnitsToDollars stored (u_quota u));
     uf_group := Some (str_or (u_group u) USER_DEFAULT_GROUP); uf_remark := Some (opt_or (u_remark u) []) |}.

(** The frame resets the form to what it was last reset to. *)
Definition user_closing (base : UserFormValues) : UserFormValues := base.
Definition user_submit (id : option Z) (v : UserFormValues) : option UserFormData :=
  if userFormSchema v then Some (user_payload v id) else None.

Definition user_steps (stored : option CurrencyConfig) :=
  steps USER_FORM_DEFAULT_VALUES (transformUserToFormDefaults stored) user_closing user_submit.

(** What the server stores of an update ([UpdateAdminUser], [EditUser]): what is not sent is
    blank, and a blank password is left alone.  Its checks of the role of the caller and of
    the lengths are not modelled, nor that names are unique. *)
Record Account := { a_username : jstr; a_display_name : jstr; a_group : jstr; a_remark : jstr; a_password : jstr }.

Definition EditUser (p : UserFormData) (a : Account) : Account :=
  {| a_username := up_username p; a_display_name := up_display_name p; a_group := opt_or (up_group p) [];
     a_remark := opt_or (up_remark p) [];
     a_password := match up_password p with Some s => s | None => a_password a end |}.

(** Saving what was read changes nothing, once the name that is shown and the group are set. *)
Lemma user_unedited (stored : option CurrencyConfig) (w : World UserFormValues UserFormData) (u : User) (a : Account) :
  d_mode w = Closed -> d_reads w = [] -> d_busy w = false ->
  userFormSchema (transformUserToFormDefaults stored u) = true ->
  a_username a = u_username u -> a_display_name a = u_display_name u -> a_group a = u_group u ->
  a_remark a = opt_or (u_remark u) [] -> truthy (u_display_name u) = true -> truthy (u_group u) = true ->
  exists w' p, user_steps stored w [EOpenUpdate (u_id u); ERead 0 (Some u); ESubmit] = Some w'
    /\ d_sent w' = d_sent w ++ [(Some (u_id u), p)] /\ EditUser p a = a.
Proof.
  intros Hm Hr Hb Hs E1 E2 E3 E4 Hd Hg.
  destruct (read_row USER_FORM_DEFAULT_VALUES (transformUserToFormDefaults stored) user_closing user_submit w (u_id u) u
              (user_payload (transformUserToFormDefaults stored u) (Some (u_id u)))) as (w' & E & H); try easy.
  { unfold user_submit. now rewrite Hs. }
  exists w', (user_payload (transformUserToFormDefaults stored u) (Some (u_id u))). split; [easy|]. split; [easy|].
  destruct a as [un dn g rm pw]. cbn in E1, E2, E3, E4. subst. unfold EditUser, user_payload, str_or. cbn.
  unfold str_or. rewrite Hd, Hg. f_equal. now destruct (u_remark u) as [[|]|].
Qed.

(** A user whose quota is below zero cannot be saved, though the quota is not sent. *)
Lemma negative_quota_refused (stored : option CurrencyConfig) u id :
  (quotaUnitsToDollars stored (u_quota u) <? zero)%num = true ->
  user_submit (Some id) (transformUserToFormDefaults stored u) = None.
Proof.
  intros H. unfold user_submit, userFormSchema, transformUserToFormDefaults.
  cbn [uf_username uf_role uf_quota_dollars z_optional].
  assert ((zero <=? quotaUnitsToDollars stored (u_quota u))%num = false) as ->.
  { unfold SFltb, SFleb in *. rewrite (compare_opp (quotaUnitsToDollars stored (u_quota u)) zero).
    now destruct (SFcompare _ zero) as [[]|]. }
  now rewrite !andb_false_r.
Qed.

(** * The quota of a user *)

Inductive QuotaAdjustMode := Add | Subtract | Override.
#[export] Instance adjust_mode_eq_dec : EqDecision QuotaAdjustMode.
Proof. solve_decision. Defined.

Record QuotaDialog := {
  q_open : bool;
  q_mode : QuotaAdjustMode;
  q_amount : jstr;
  q_loading : bool;
  q_waiting : list (QuotaAdjustMode * number);
  q_sent : list (QuotaAdjustMode * number);
}.

Definition opened_dialog : QuotaDialog :=
  {| q_open := true; q_mode := Add; q_amount := []; q_loading := false; q_waiting := []; q_sent := [] |}.

Section Quota.
Context (stored : option CurrencyConfig).

Definition amountValue (d : QuotaDialog) : number := num_or (parseFloat (q_amount d)) zero.
Definition quotaValue (d : QuotaDialog) : number := parseQuotaFromDollars stored (nabs (amountValue d)).

Definition handleConfirm (d : QuotaDialog) : QuotaDialog :=
  let override := bool_decide (q_mode d = Override) in
  if negb (truthy (q_amount d)) && negb override then d
  else if (quotaValue d <=? zero)%num && negb override then d
  else
    let value := if override then parseQuotaFromDollars stored (amountValue d) else nabs (quotaValue d) in
    {| q_open := q_open d; q_mode := q_mode d; q_amount := q_amount d; q_loading := true;
       q_waiting := q_waiting d ++ [(q_mode d, value)]; q_sent := q_sent d ++ [(q_mode d, value)] |}.

Inductive QuotaEvent :=
| QMode (m : QuotaAdjustMode)
| QType (s : jstr)
| QPress                            (** the button, which is disabled while it waits *)
| QEnter                            (** the key, in the field of the amount *)
| QAnswer (success : bool)          (** to the oldest request *)
| QCancel.

Definition quota_step (d : QuotaDialog) (e : QuotaEvent) : option QuotaDialog :=
  match e with
  | QAnswer success =>
    match q_waiting d with
    | [] => None
    | _ :: l =>
      Some (if success
            then {| q_open := false; q_mode := Add; q_amount := []; q_loading := false; q_waiting := l; q_sent := q_sent d |}
            else {| q_open := q_open d; q_mode := q_mode d; q_amount := q_amount d; q_loading := false;
                    q_waiting := l; q_sent := q_sent d |})
    end
  | _ =>
    if q_open d then
      match e with
      | QMode m => Some {| q_open := true; q_mode := m; q_amount := []; q_loading := q_loading d;
                           q_waiting := q_waiting d; q_sent := q_sent d |}
      | QType s => Some {| q_open := true; q_mode := q_mode d; q_amount := s; q_loading := q_loading d;
                           q_waiting := q_waiting d; q_sent := q_sent d |}
      | QPress => if q_loading d then None else Some (handleConfirm d)
      | QEnter => Some (handleConfirm d)
      | QCancel => Some {| q_open := false; q_mode := Add; q_amount := []; q_loading := q_loading d;
                           q_waiting := q_waiting d; q_sent := q_sent d |}
      | QAnswer _ => None
      end
    else None
  end.

Fixpoint quota_steps (d : QuotaDialog) (es : list QuotaEvent) : option QuotaDialog :=
  match es with
  | [] => Some d
  | e :: es => match quota_step d e with Some d' => quota_steps d' es | None => None end
  end.

(** [applyAdminQuotaChange], on a quota of a wallet. *)
Definition applyAdminQuotaChange (mode : QuotaAdjustMode) (value quota : Z) : option Z :=
  match mode with
  | Add => if (value <=? 0)%Z then None else Some (quota + value)%Z
  | Subtract => if (value <=? 0)%Z then None else Some (quota - value)%Z
  | Override => if (value =? 0)%Z then None else Some value
  end.

(** Pressing Enter again while the first request is under way sends it twice; the button does
    not. *)
Lemma enter_twice d s v :
  d = opened_dialog -> truthy s = true -> num_or (parseFloat s) zero = v ->
  (parseQuotaFromDollars stored (nabs v) <=? zero)%num = false ->
  let sent := (Add, nabs (parseQuotaFromDollars stored (nabs v))) in
  (exists d', quota_steps d [QType s; QEnter; QEnter] = Some d' /\ q_sent d' = [sent; sent])
  /\ quota_steps d [QType s; QPress; QPress] = None.
Proof.
  intros -> Hs Hv Hq sent. cbn. unfold handleConfirm. cbn.
  change (bool_decide (Add = Override)) with false. cbv iota. rewrite Hs. cbn [negb andb].
  unfold quotaValue, amountValue. cbn [q_amount]. rewrite Hv, Hq. cbn [andb q_loading].
  split; [|easy]. cbn. change (bool_decide (Add = Override)) with false. cbv iota. rewrite Hs. cbn [negb andb].
  unfold quotaValue, amountValue. cbn [q_amount]. rewrite Hv, Hq. now eexists.
Qed.

End Quota.
