(* ===== verification/GroupRatios.v ===== *)
(** * The editor of group ratios

    [features/system-settings/models/group-ratio-visual-editor.tsx], the visual editor of
    five settings that are JSON texts: the ratio of every group and the groups that users
    may select ([GroupPricingTable]), the ratios of top-ups, the ratios that override others
    for one group of users, and the order of automatic groups.  Every edit writes the texts
    of the form again.

    The texts are those of objects (of an array, for the automatic groups); what the handlers
    do with other JSON values is outside, and is [None].  A name that objects inherit from
    [Object.prototype] reads as present; what is then written to it is outside too. *)

From stdpp Require Import gmap.
From S2P Require Import Prelude Number Json IntText PricingTable.
From stdpp Require Import options.

(** ** Objects and finite maps

    An object read as a finite map: the order of its properties is forgotten. *)

Definition reads {V} (o : list (jstr * V)) (m : gmap jstr V) : Prop := forall k, obj_get k o = m !! k.

Lemma reads_nil {V} : reads ([] : list (jstr * V)) ∅.
Proof. intros k. by rewrite lookup_empty. Qed.

Lemma reads_set {V} k (v : V) o m : reads o m -> reads (obj_set k v o) (<[k := v]> m).
Proof.
  intros H k'. rewrite obj_get_set. destruct (seqb_spec k' k) as [->|N]; [by rewrite lookup_insert_eq|].
  rewrite lookup_insert_ne by congruence. apply H.
Qed.

Lemma reads_delete {V} k (o : list (jstr * V)) m : reads o m -> reads (obj_delete k o) (delete k m).
Proof.
  intros H k'. rewrite obj_get_delete. destruct (seqb_spec k' k) as [->|N]; [by rewrite lookup_delete_eq|].
  rewrite lookup_delete_ne by congruence. apply H.
Qed.

(** The names of the properties that every object inherits. *)
Definition inherited (k : jstr) : bool :=
  memb k ["constructor"; "__defineGetter__"; "__defineSetter__"; "hasOwnProperty"; "__lookupGetter__";
          "__lookupSetter__"; "isPrototypeOf"; "propertyIsEnumerable"; "toString"; "valueOf"; "__proto__";
          "toLocaleString"]%js.

Definition own {V} (k : jstr) (o : list (jstr * V)) : bool :=
  match obj_get k o with Some _ => true | None => false end.

(** [o[k] = v] for a [v] that is not an object: the setter of [__proto__] ignores it. *)
Definition assign {V} (k : jstr) (v : V) (o : list (jstr * V)) : list (jstr * V) :=
  if (k =s "__proto__") && negb (own k o) then o else obj_set k v o.

(** The fields of the form that the editor reads and writes. *)
Record GroupForm := {
  GroupRatio : jstr;
  TopupGroupRatio : jstr;
  UserUsableGroups : jstr;
  GroupGroupRatio : jstr;
  AutoGroups : jstr;
  DefaultUseAutoGroup : bool;
  GroupSpecialUsableGroup : jstr;
  SubscriptionGroupPolicy : jstr;
}.

(** [onChange(field, value)], for the texts. *)
Inductive Field := FGroupRatio | FTopup | FUsable | FGroupGroup | FAuto | FSpecial | FPolicy.

#[export] Instance Field_eq_dec : EqDecision Field.
Proof. solve_decision. Defined.

Definition text_of (f : Field) (d : GroupForm) : jstr :=
  match f with
  | FGroupRatio => GroupRatio d | FTopup => TopupGroupRatio d | FUsable => UserUsableGroups d
  | FGroupGroup => GroupGroupRatio d | FAuto => AutoGroups d | FSpecial => GroupSpecialUsableGroup d
  | FPolicy => SubscriptionGroupPolicy d
  end.

Definition onChange (f : Field) (value : jstr) (d : GroupForm) : GroupForm :=
  let set g := match f, g with
               | FGroupRatio, FGroupRatio | FTopup, FTopup | FUsable, FUsable | FGroupGroup, FGroupGroup
               | FAuto, FAuto | FSpecial, FSpecial | FPolicy, FPolicy => value
               | _, _ => text_of g d
               end in
  {| GroupRatio := set FGroupRatio; TopupGroupRatio := set FTopup; UserUsableGroups := set FUsable;
     GroupGroupRatio := set FGroupGroup; AutoGroups := set FAuto; DefaultUseAutoGroup := DefaultUseAutoGroup d;
     GroupSpecialUsableGroup := set FSpecial; SubscriptionGroupPolicy := set FPolicy |}.

(** ** The table of pricing groups *)

Record GroupPricingRow := {
  g_id : nat;
  g_name : jstr;
  g_ratio : number;
  g_selectable : bool;
  g_description : jstr;
}.

(** [normalizeRatio(value)], of [Number(value)]. *)
Definition normalizeRatio (parsed : number) : number := if isFinite parsed then parsed else of_Z 1.

(** [String(value ?? '')] *)
Definition text_or_empty (v : option json) : jstr :=
  match v with None | Some JNull => [] | Some v => js_String v end.

Definition js_Number_opt (v : option json) : number := match v with Some v => js_Number v | None => NaN end.

(** Each row takes the next identifier of [createGroupPricingId]. *)
Fixpoint number_rows (next : nat) (ratioMap usableMap : table) (names : list jstr) : list GroupPricingRow :=
  match names with
  | [] => []
  | name :: names =>
    {| g_id := next; g_name := name; g_ratio := normalizeRatio (js_Number_opt (obj_get name ratioMap));
       g_selectable := own name usableMap; g_description := text_or_empty (obj_get name usableMap) |}
    :: number_rows (S next) ratioMap usableMap names
  end.

Definition row_names (ratioMap usableMap : table) : list jstr := uniq (map fst ratioMap ++ map fst usableMap).

Definition buildGroupPricingRows (next : nat) (groupRatio userUsableGroups : jstr) : option (list GroupPricingRow) :=
  match parse_map groupRatio, parse_map userUsableGroups with
  | Some ratioMap, Some usableMap => Some (number_rows next ratioMap usableMap (row_names ratioMap usableMap))
  | _, _ => None
  end.

Definition serialize_row (acc : table * table) (row : GroupPricingRow) : table * table :=
  let name := trim (g_name row) in
  if truthy name then
    (assign name (JNum (normalizeRatio (g_ratio row))) (fst acc),
     if g_selectable row then assign name (JStr (g_description row)) (snd acc) else snd acc)
  else acc.

Definition row_tables (rows : list GroupPricingRow) : table * table := fold_left serialize_row rows ([], []).

Definition serializeGroupPricingRows (rows : list GroupPricingRow) : jstr * jstr :=
  let '(groupRatio, userUsableGroups) := row_tables rows in (print_map groupRatio, print_map userUsableGroups).

Definition sourceGroupPricingSignature (groupRatio userUsableGroups : jstr) : jstr :=
  stringify (JObj [("groupRatio"%js, safeJsonParse groupRatio (JObj []));
                   ("userUsableGroups"%js, safeJsonParse userUsableGroups (JObj []))]).

Definition groupPricingSignature (rows : list GroupPricingRow) : jstr :=
  let '(groupRatio, userUsableGroups) := serializeGroupPricingRows rows in
  sourceGroupPricingSignature groupRatio userUsableGroups.

(** The rows with the texts of the form, which are the component's props, and the counter
    of identifiers. *)
Record Pricing := { p_next : nat; p_rows : list GroupPricingRow; p_form : GroupForm }.

(** The effect, after a render with other texts. *)
Definition sync_rows (s : Pricing) : option Pricing :=
  if groupPricingSignature (p_rows s) =s sourceGroupPricingSignature (GroupRatio (p_form s)) (UserUsableGroups (p_form s))
  then Some s
  else match buildGroupPricingRows (p_next s) (GroupRatio (p_form s)) (UserUsableGroups (p_form s)) with
       | Some rows => Some {| p_next := p_next s + length rows; p_rows := rows; p_form := p_form s |}
       | None => None
       end.

(** The first render, with its effect. *)
Definition open_table (next : nat) (d : GroupForm) : option Pricing :=
  match buildGroupPricingRows next (GroupRatio d) (UserUsableGroups d) with
  | Some rows => sync_rows {| p_next := next + length rows; p_rows := rows; p_form := d |}
  | None => None
  end.

(** The form's texts are replaced from outside: the effect runs if they are other texts. *)
Definition form_changed (d : GroupForm) (s : Pricing) : option Pricing :=
  let s' := {| p_next := p_next s; p_rows := p_rows s; p_form := d |} in
  if (GroupRatio d =s GroupRatio (p_form s)) && (UserUsableGroups d =s UserUsableGroups (p_form s))
  then Some s' else sync_rows s'.

(** The rows are set and the two texts written in one event, then the effect runs. *)
Definition emitRows (next : nat) (nextRows : list GroupPricingRow) (s : Pricing) : option Pricing :=
  let '(groupRatio, userUsableGroups) := serializeGroupPricingRows nextRows in
  form_changed (onChange FUsable userUsableGroups (onChange FGroupRatio groupRatio (p_form s)))
    {| p_next := next; p_rows := nextRows; p_form := p_form s |}.

Inductive RowField := RName (name : jstr) | RRatio (text : jstr) | RSelectable (checked : bool) | RDescription (text : jstr).

Definition set_field (f : RowField) (r : GroupPricingRow) : GroupPricingRow :=
  {| g_id := g_id r;
     g_name := match f with RName n => n | _ => g_name r end;
     g_ratio := match f with RRatio text => normalizeRatio (Number_str text) | _ => g_ratio r end;
     g_selectable := match f with RSelectable b => b | _ => g_selectable r end;
     g_description := match f with RDescription d => d | _ => g_description r end |}.

Definition updateRow (id : nat) (f : RowField) (s : Pricing) : option Pricing :=
  emitRows (p_next s) (map (fun row => if g_id row =? id then set_field f row else row) (p_rows s)) s.

Definition group_name (index : N) : jstr := "group_" ++ digits index.

Definition new_row (id : nat) (name : jstr) : GroupPricingRow :=
  {| g_id := id; g_name := name; g_ratio := of_Z 1; g_selectable := true; g_description := [] |}.

(** [None] as well when the loop does not end within its steps: it always does. *)
Definition addRow (s : Pricing) : option Pricing :=
  match first_free group_name (S (length (p_rows s))) (map g_name (p_rows s)) 1%N with
  | Some index => emitRows (S (p_next s)) (p_rows s ++ [new_row (p_next s) (group_name index)]) s
  | None => None
  end.

Definition removeRow (id : nat) (s : Pricing) : option Pricing :=
  emitRows (p_next s) (List.filter (fun row => negb (g_id row =? id)) (p_rows s)) s.

(** The names that more than one row has. *)
Definition duplicateNames (rows : list GroupPricingRow) : list jstr :=
  let names := List.filter truthy (map (fun row => trim (g_name row)) rows) in
  List.filter (fun name => 1 <? length (List.filter (seqb name) names)) (uniq names).

(** ** The ratios of top-ups *)

Definition topupRatioList (d : GroupForm) : option (list (jstr * jstr)) :=
  option_map (map (fun kv => (fst kv, js_String (snd kv)))) (parse_map (TopupGroupRatio d)).

(** The dialog: [simpleDialogType], of which only the top-ups are opened, and
    [simpleEditData]. *)
Definition simple_field (topup : bool) : Field := if topup then FTopup else FGroupRatio.

Definition handleSimpleSave (topup : bool) (simpleEditData : option jstr) (name value : jstr) (d : GroupForm)
  : option GroupForm :=
  match parse_map (text_of (simple_field topup) d) with
  | None => None
  | Some o =>
    let o := match simpleEditData with
             | Some old => if old =s name then o else obj_delete old o
             | None => o
             end in
    Some (onChange (simple_field topup) (print_map (assign name (JNum (parseFloat value)) o)) d)
  end.

Definition handleSimpleDelete (topup : bool) (name : jstr) (d : GroupForm) : option GroupForm :=
  match parse_map (text_of (simple_field topup) d) with
  | None => None
  | Some o => Some (onChange (simple_field topup) (print_map (obj_delete name o)) d)
  end.

(** What may be typed as a ratio, and what the dialog saves. *)
Definition ratio_typed (val : jstr) : bool := negb (truthy val) || negb (isNaN (parseFloat val)).

Definition simple_save (name value : jstr) : option (jstr * jstr) :=
  if negb (truthy (trim name)) || negb (truthy (trim value)) then None else Some (trim name, trim value).

(** ** Automatic groups *)

Definition autoGroupsList (d : GroupForm) : option (list json) :=
  match safeJsonParse (AutoGroups d) (JArr []) with JArr l => Some l | _ => None end.

Definition print_list (l : list json) : jstr := stringify_indent 2 [] (JArr l).

Definition handleAutoGroupSave (autoGroupInput : jstr) (d : GroupForm) : option GroupForm :=
  if negb (truthy (trim autoGroupInput)) then Some d
  else option_map (fun l => onChange FAuto (print_list (l ++ [JStr (trim autoGroupInput)])) d) (autoGroupsList d).

Definition handleAutoGroupDelete (index : nat) (d : GroupForm) : option GroupForm :=
  option_map (fun l => onChange FAuto (print_list (take index l ++ drop (S index) l)) d) (autoGroupsList d).

(** The buttons give places of the list. *)
Definition swap {A} (i j : nat) (l : list A) : list A :=
  match l !! i, l !! j with
  | Some a, Some b => <[j := a]> (<[i := b]> l)
  | _, _ => l
  end.

Definition handleAutoGroupMove (index : nat) (up : bool) (d : GroupForm) : option GroupForm :=
  option_map (fun l =>
    let newIndex := (if up then Z.of_nat index - 1 else Z.of_nat index + 1)%Z in
    if (newIndex <? 0)%Z || (Z.of_nat (length l) <=? newIndex)%Z then d
    else onChange FAuto (print_list (swap index (Z.to_nat newIndex) l)) d) (autoGroupsList d).

(** ** Ratios that override others *)

(** The inner object of a user group, [{}] where it is missing or falsy. *)
Definition inner_of (userGroup : jstr) (o : table) : option table :=
  match obj_get userGroup o with
  | Some (JObj i) => Some i
  | Some v => if jtruthy v then None else Some []
  | None => if inherited userGroup then None else Some []
  end.

Definition groupGroupRatioList (d : GroupForm) : option (list (jstr * table)) :=
  match parse_map (GroupGroupRatio d) with
  | Some o => mapM (fun kv => match snd kv with JObj i => Some (fst kv, i) | _ => None end) o
  | None => None
  end.

Definition handleUserGroupSave (userGroupInput : jstr) (d : GroupForm) : option GroupForm :=
  let name := trim userGroupInput in
  if negb (truthy name) then Some d
  else option_map (fun o =>
    let present := match obj_get name o with Some v => jtruthy v | None => inherited name end in
    onChange FGroupGroup (print_map (if present then o else obj_set name (JObj []) o)) d)
    (parse_map (GroupGroupRatio d)).

Definition handleUserGroupDelete (userGroup : jstr) (d : GroupForm) : option GroupForm :=
  option_map (fun o => onChange FGroupGroup (print_map (obj_delete userGroup o)) d) (parse_map (GroupGroupRatio d)).

(** [onSave(targetGroup.trim(), parseFloat(ratio), editData?.targetGroup)] *)
Definition override_save (targetGroup ratio : jstr) : option (jstr * number) :=
  if negb (truthy (trim targetGroup)) || negb (truthy (trim ratio)) then None
  else if isNaN (parseFloat ratio) then None else Some (trim targetGroup, parseFloat ratio).

Definition handleOverrideSave (userGroup targetGroup : jstr) (ratio : number) (oldTargetGroup : option jstr)
    (d : GroupForm) : option GroupForm :=
  if negb (truthy userGroup) then Some d
  else match parse_map (GroupGroupRatio d) with
  | None => None
  | Some o =>
    match inner_of userGroup o with
    | None => None
    | Some i =>
      let i := match oldTargetGroup with
               | Some old => if truthy old && negb (old =s targetGroup) then obj_delete old i else i
               | None => i
               end in
      Some (onChange FGroupGroup (print_map (obj_set userGroup (JObj (assign targetGroup (JNum ratio) i)) o)) d)
    end
  end.

Definition handleOverrideDelete (userGroup targetGroup : jstr) (d : GroupForm) : option GroupForm :=
  match parse_map (GroupGroupRatio d) with
  | None => None
  | Some o =>
    match obj_get userGroup o with
    | Some (JObj i) =>
      let i := obj_delete targetGroup i in
      Some (onChange FGroupGroup
              (print_map (match i with [] => obj_delete userGroup o | _ => obj_set userGroup (JObj i) o end)) d)
    | Some v => if jtruthy v then None else Some (onChange FGroupGroup (print_map o) d)
    | None => if inherited userGroup then None else Some (onChange FGroupGroup (print_map o) d)
    end
  end.

(** ** The abstract view of the pricing groups

    A finite map from names to the ratio, whether users may select the group, and its
    description. *)

Abbreviation group := (number * bool * jstr)%type.

Definition content (r : GroupPricingRow) : group := (g_ratio r, g_selectable r, g_description r).
Definition view (rows : list GroupPricingRow) : gmap jstr group :=
  list_to_map (map (fun r => (g_name r, content r)) rows).

(** What the two settings say of a map of groups. *)
Definition ratios (m : gmap jstr group) : gmap jstr json := (fun c : group => JNum (fst (fst c))) <$> m.
Definition usable (m : gmap jstr group) : gmap jstr json :=
  omap (fun c : group => if snd (fst c) then Some (JStr (snd c)) else None) m.

(** Names that are kept as they are. *)
Definition name_ok (n : jstr) : bool := (trim n =s n) && truthy n && negb (n =s "__proto__") && str_ok n.
Definition row_ok (r : GroupPricingRow) : bool := name_ok (g_name r) && num_okb (g_ratio r) && str_ok (g_description r).

Lemma num_okb_finite n : num_okb n = true -> normalizeRatio n = n.
Proof. intros H%num_okb_ok. unfold normalizeRatio. by rewrite (proj1 H). Qed.

Lemma name_ok_parts n : name_ok n = true -> trim n = n /\ n <> [] /\ n <> "__proto__"%js /\ wf_str n.
Proof. unfold name_ok. intros H. bool_hyps. split; [easy|]. split; [by apply truthy_iff|]. auto using str_ok_wf. Qed.

Lemma assign_plain {V} k (v : V) o : k <> "__proto__"%js -> assign k v o = obj_set k v o.
Proof. intros H. unfold assign. by rewrite (proj2 (seqb_neq k _) H). Qed.

(** What is written for any rows: the last row of a name gives its ratio, and the last one
    that is selectable its description. *)
Definition last_named (f : GroupPricingRow -> bool) (n : jstr) (rows : list GroupPricingRow) : option GroupPricingRow :=
  List.find (fun r => (trim (g_name r) =s n) && f r) (rev rows).

Lemma written_last rows n : n <> [] -> n <> "__proto__"%js ->
  obj_get n (fst (row_tables rows))
  = option_map (fun r => JNum (normalizeRatio (g_ratio r))) (last_named (fun _ => true) n rows)
  /\ obj_get n (snd (row_tables rows)) = option_map (fun r => JStr (g_description r)) (last_named g_selectable n rows).
Proof.
  intros Hn Hp. unfold row_tables, last_named. induction rows as [|r rows IH] using rev_ind; [easy|].
  rewrite fold_left_app, rev_app_distr. cbn [fold_left rev app List.find]. unfold serialize_row at 1 3.
  set (acc := fold_left serialize_row rows ([], [])) in *. destruct IH as [IH1 IH2].
  destruct (seqb_spec (trim (g_name r)) n) as [->|Hne].
  - rewrite (proj2 (truthy_iff n) Hn), !(assign_plain n) by easy. cbn [fst snd andb].
    rewrite obj_get_set, seqb_refl. split; [easy|].
    destruct (g_selectable r); [by rewrite obj_get_set, seqb_refl | easy].
  - cbn [andb]. destruct (truthy (trim (g_name r))); [|easy]. cbn [fst snd]. unfold assign.
    split; [|destruct (g_selectable r); [|easy]]; destruct (_ && _); try easy; rewrite obj_get_set;
      by destruct (seqb_spec n (trim (g_name r))).
Qed.

Lemma view_snoc rows r : ~ In (g_name r) (map g_name rows) ->
  view (rows ++ [r]) = <[g_name r := content r]> (view rows).
Proof.
  intros H. unfold view. rewrite map_app. cbn [map]. apply list_to_map_snoc. intros Hin. apply H.
  apply list_elem_of_In in Hin. by rewrite map_map in Hin.
Qed.

Lemma rows_written rows : forallb row_ok rows = true -> List.NoDup (map g_name rows) ->
  let '(G, U) := row_tables rows in
  reads G (ratios (view rows)) /\ reads U (usable (view rows)) /\ wf_obj G /\ wf_obj U.
Proof.
  induction rows as [|r rows IH] using rev_ind; intros Hok Hnd.
  { cbn. unfold ratios, usable, view. cbn. rewrite fmap_empty, omap_empty. by repeat split; try apply reads_nil. }
  rewrite forallb_app in Hok. cbn [forallb] in Hok. rewrite andb_true_r in Hok. apply andb_true_iff in Hok as [Hok Hr].
  rewrite map_app in Hnd. cbn [map] in Hnd.
  assert (~ In (g_name r) (map g_name rows)) as Hf
    by (apply List.NoDup_remove_2 in Hnd; by rewrite app_nil_r in Hnd).
  apply List.NoDup_app_remove_r in Hnd. specialize (IH Hok Hnd). unfold row_tables in *. rewrite fold_left_app. cbn [fold_left].
  destruct (fold_left serialize_row rows ([], [])) as [G U]. destruct IH as (HG & HU & WG & WU).
  unfold row_ok in Hr. bool_hyps. destruct (name_ok_parts (g_name r)) as (Ht & Hn & Hp & Hw); [easy|].
  unfold serialize_row. rewrite Ht, (proj2 (truthy_iff _) Hn), !assign_plain, num_okb_finite, view_snoc by easy.
  cbn [fst snd]. unfold ratios, usable. rewrite fmap_insert. cbn [content fst snd].
  split; [by apply reads_set|]. split; [|split].
  - destruct (g_selectable r) eqn:Es.
    + rewrite (omap_insert_Some _ _ _ _ (JStr (g_description r))) by (cbn; by rewrite Es). by apply reads_set.
    + rewrite omap_insert_None by (cbn; by rewrite Es). rewrite delete_id; [easy|].
      rewrite lookup_omap. unfold view. rewrite not_elem_of_list_to_map_1; [easy|].
      intros Hin. apply Hf. apply list_elem_of_In in Hin. by rewrite map_map in Hin.
  - apply wf_obj_set; [easy|easy|]. by apply num_okb_ok.
  - destruct (g_selectable r); [|easy]. apply wf_obj_set; [easy|easy|]. by apply str_ok_wf.
Qed.

(** *** Edits by name, and what they mean *)

Inductive Act := AEdit (name : jstr) (f : RowField) | AAdd | ARemove (name : jstr).

Definition row_named (name : jstr) (s : Pricing) : option GroupPricingRow :=
  List.find (fun r => g_name r =s name) (p_rows s).

Definition perform (a : Act) (s : Pricing) : option Pricing :=
  match a with
  | AEdit name f => match row_named name s with Some r => updateRow (g_id r) f s | None => None end
  | AAdd => addRow s
  | ARemove name => match row_named name s with Some r => removeRow (g_id r) s | None => None end
  end.

Fixpoint performs (acts : list Act) (s : Pricing) : option Pricing :=
  match acts with
  | [] => Some s
  | a :: acts => match perform a s with Some s' => performs acts s' | None => None end
  end.

Definition names (m : gmap jstr group) : list jstr := map fst (map_to_list m).

(** [None] for a new name that is taken or not kept as it is. *)
Definition spec (a : Act) (m : gmap jstr group) : option (gmap jstr group) :=
  match a with
  | AEdit name f =>
    match m !! name with
    | None => None
    | Some (ratio, selectable, description) =>
      match f with
      | RName name' =>
        if name_ok name' && bool_decide (delete name m !! name' = None)
        then Some (<[name' := (ratio, selectable, description)]> (delete name m)) else None
      | RRatio text =>
        let ratio := normalizeRatio (Number_str text) in
        if num_okb ratio then Some (<[name := (ratio, selectable, description)]> m) else None
      | RSelectable b => Some (<[name := (ratio, b, description)]> m)
      | RDescription d => if str_ok d then Some (<[name := (ratio, selectable, d)]> m) else None
      end
    end
  | AAdd =>
    match first_free group_name (S (size m)) (names m) 1%N with
    | Some index => Some (<[group_name index := (of_Z 1, true, [])]> m)
    | None => None
    end
  | ARemove name => match m !! name with Some _ => Some (delete name m) | None => None end
  end.

Fixpoint specs (acts : list Act) (m : gmap jstr group) : option (gmap jstr group) :=
  match acts with
  | [] => Some m
  | a :: acts => match spec a m with Some m' => specs acts m' | None => None end
  end.

(** The groups of two settings: one that only the second names has the ratio 1. *)
Definition open_group (ratio usable : option json) : option group :=
  match ratio, usable with
  | None, None => None
  | r, u => Some (normalizeRatio (js_Number_opt r), match u with Some _ => true | None => false end, text_or_empty u)
  end.

Definition opened (G U : table) : gmap jstr group := merge open_group (list_to_map G) (list_to_map U).

(** *** Lists of rows as maps *)

Lemma view_find rows n : view rows !! n = option_map content (List.find (fun r => g_name r =s n) rows).
Proof.
  unfold view. induction rows as [|r rows IH]; [apply lookup_empty|]. cbn [map list_to_map List.find foldr].
  destruct (seqb_spec (g_name r) n) as [->|Hne]; [by rewrite lookup_insert_eq|].
  rewrite lookup_insert_ne by easy. exact IH.
Qed.

Lemma view_None rows n : view rows !! n = None <-> ~ In n (map g_name rows).
Proof.
  rewrite view_find. split.
  - intros H Hin. apply in_map_iff in Hin as (r & <- & Hr).
    destruct (List.find _ rows) eqn:E; [easy|]. apply (List.find_none _ _ E) in Hr. by rewrite seqb_refl in Hr.
  - intros H. destruct (List.find _ rows) as [r|] eqn:E; [|easy]. apply List.find_some in E as [Hr E].
    apply seqb_eq in E. subst n. exfalso. apply H. by apply in_map.
Qed.

Lemma view_app a b : view (a ++ b) = view a ∪ view b.
Proof. unfold view. by rewrite map_app, list_to_map_app. Qed.

Lemma view_put a r b : ~ In (g_name r) (map g_name a) ->
  view (a ++ r :: b) = <[g_name r := content r]> (view (a ++ b)).
Proof.
  intros H%view_None. rewrite !view_app. change (view (r :: b)) with (<[g_name r := content r]> (view b)).
  by rewrite insert_union_r.
Qed.

Lemma middle_name a r b : List.NoDup (map g_name (a ++ r :: b)) ->
  ~ In (g_name r) (map g_name (a ++ b)) /\ List.NoDup (map g_name (a ++ b)).
Proof.
  rewrite !map_app. cbn [map]. intros H. split; [exact (List.NoDup_remove_2 _ _ _ H) | exact (List.NoDup_remove_1 _ _ _ H)].
Qed.

Lemma view_removed a r b : List.NoDup (map g_name (a ++ r :: b)) -> view (a ++ b) = delete (g_name r) (view (a ++ r :: b)).
Proof.
  intros [H _]%middle_name. rewrite view_put by (intros Hin; apply H; rewrite map_app; apply in_or_app; by left).
  rewrite delete_insert_id; [easy|]. by apply view_None.
Qed.

Lemma other_ids (l : list GroupPricingRow) id : ~ In id (map g_id l) ->
  (forall f, map (fun row => if g_id row =? id then set_field f row else row) l = l)
  /\ List.filter (fun row => negb (g_id row =? id)) l = l.
Proof.
  induction l as [|r l IH]; intros H; [easy|]. cbn in H.
  destruct (IH (fun Hin => H (or_intror Hin))) as [H1 H2]. cbn [map List.filter].
  destruct (Nat.eqb_spec (g_id r) id) as [E|]; [by destruct H; left|]. cbn [negb]. rewrite H2.
  split; [|easy]. intros f. by rewrite H1.
Qed.

(** What an edit of one row does to the list. *)
Lemma row_at rows r : In r rows -> List.NoDup (map g_id rows) ->
  exists a b, rows = a ++ r :: b
    /\ (forall f, map (fun row => if g_id row =? g_id r then set_field f row else row) rows = a ++ set_field f r :: b)
    /\ List.filter (fun row => negb (g_id row =? g_id r)) rows = a ++ b.
Proof.
  intros (a & b & ->)%List.in_split H. exists a, b. split; [easy|].
  rewrite map_app in H. cbn [map] in H. apply List.NoDup_remove_2 in H.
  destruct (other_ids a (g_id r)) as [A1 A2]; [by intros ?; apply H, in_or_app; left|].
  destruct (other_ids b (g_id r)) as [B1 B2]; [by intros ?; apply H, in_or_app; right|].
  split.
  - intros f. rewrite map_app. cbn [map]. by rewrite A1, B1, Nat.eqb_refl.
  - rewrite List.filter_app. cbn [List.filter]. by rewrite A2, B2, Nat.eqb_refl.
Qed.

(** *** The invariant *)

Record shown (m : gmap jstr group) (s : Pricing) : Prop := {
  sh_rows : forallb row_ok (p_rows s) = true;
  sh_names : List.NoDup (map g_name (p_rows s));
  sh_ids : List.NoDup (map g_id (p_rows s));
  sh_next : Forall (fun r => g_id r < p_next s) (p_rows s);
  sh_view : view (p_rows s) = m;
}.

(** The texts of two settings say what the groups are. *)
Definition says (m : gmap jstr group) (d : GroupForm) : Prop :=
  exists G U, parse_map (GroupRatio d) = Some G /\ parse_map (UserUsableGroups d) = Some U
    /\ reads G (ratios m) /\ reads U (usable m).

(** The other settings are left as they are. *)
Definition others_kept (fields : list Field) (d d' : GroupForm) : Prop :=
  DefaultUseAutoGroup d' = DefaultUseAutoGroup d /\ forall f, ~ In f fields -> text_of f d' = text_of f d.

Lemma others_kept_trans fields d1 d2 d3 : others_kept fields d1 d2 -> others_kept fields d2 d3 -> others_kept fields d1 d3.
Proof. intros [A B] [C D]. split; [congruence|]. intros f Hf. rewrite D by easy. auto. Qed.

Lemma text_onChange f g v d : text_of g (onChange f v d) = if decide (f = g) then v else text_of g d.
Proof. by destruct f, g. Qed.

Lemma others_onChange fields f v d d' : In f fields -> others_kept fields d d' -> others_kept fields d (onChange f v d').
Proof.
  intros Hf [A B]. split; [easy|]. intros g Hg. rewrite text_onChange. destruct (decide (f = g)) as [->|]; [easy|auto].
Qed.

Lemma others_refl fields d : others_kept fields d d.
Proof. easy. Qed.

(** An edit keeps the rows on screen, whatever they are: the effect finds the texts it was
    given to be those of the rows. *)
Lemma emit_keeps next rows s :
  emitRows next rows s
  = Some {| p_next := next; p_rows := rows;
            p_form := onChange FUsable (snd (serializeGroupPricingRows rows))
                        (onChange FGroupRatio (fst (serializeGroupPricingRows rows)) (p_form s)) |}.
Proof.
  unfold emitRows, form_changed, sync_rows, groupPricingSignature. cbn [p_rows p_form p_next].
  destruct (serializeGroupPricingRows rows) as [g u]. cbn [fst snd].
  change (GroupRatio (onChange FUsable u (onChange FGroupRatio g (p_form s)))) with g.
  change (UserUsableGroups (onChange FUsable u (onChange FGroupRatio g (p_form s)))) with u.
  rewrite seqb_refl. by destruct (_ && _).
Qed.

(** The two settings the table writes. *)
Abbreviation pricing_fields := [FGroupRatio; FUsable].

Lemma emit_shown next rows s m :
  forallb row_ok rows = true -> List.NoDup (map g_name rows) -> List.NoDup (map g_id rows) ->
  Forall (fun r => g_id r < next) rows -> view rows = m ->
  exists s', emitRows next rows s = Some s' /\ shown m s' /\ says m (p_form s') /\ others_kept pricing_fields (p_form s) (p_form s').
Proof.
  intros Hok Hnd Hid Hnx <-. eexists. split; [apply emit_keeps|]. split; [by constructor|]. cbn [p_form].
  pose proof (rows_written rows Hok Hnd) as H. unfold serializeGroupPricingRows.
  destruct (row_tables rows) as [G U]. destruct H as (HG & HU & WG & WU). cbn [fst snd]. split.
  - exists G, U. split; [by apply (parse_print G)|]. split; [by apply (parse_print U)|easy].
  - apply others_onChange; [cbn; tauto|]. apply others_onChange; [cbn; tauto|]. apply others_refl.
Qed.

Lemma row_named_view m s name : shown m s ->
  match row_named name s with
  | Some r => In r (p_rows s) /\ g_name r = name /\ m !! name = Some (content r)
  | None => m !! name = None
  end.
Proof.
  intros H. unfold row_named. rewrite <- (sh_view _ _ H), view_find.
  destruct (List.find _ _) as [r|] eqn:E; [|easy]. apply List.find_some in E as [Hr E]. by apply seqb_eq in E.
Qed.

(** The list with one row replaced. *)
Lemma replaced_row m s r r' : shown m s -> In r (p_rows s) -> g_id r' = g_id r -> row_ok r' = true ->
  delete (g_name r) m !! g_name r' = None ->
  forall a b, p_rows s = a ++ r :: b ->
  forallb row_ok (a ++ r' :: b) = true /\ List.NoDup (map g_name (a ++ r' :: b))
  /\ List.NoDup (map g_id (a ++ r' :: b)) /\ Forall (fun x => g_id x < p_next s) (a ++ r' :: b)
  /\ view (a ++ r' :: b) = <[g_name r' := content r']> (delete (g_name r) m).
Proof.
  intros [Hok Hnd Hid Hnx <-] _ Ei Hr' Hf a b E. rewrite E in *.
  rewrite forallb_app in *. cbn [forallb] in *. bool_hyps.
  destruct (middle_name _ _ _ Hnd) as [_ Hab]. rewrite <- view_removed in Hf |- * by easy.
  apply view_None in Hf. split; [|split; [|split; [|split]]].
  - now rewrite H, Hr', H1.
  - rewrite map_app in *. cbn [map]. apply NoDup_ListNoDup.
    rewrite <- Permutation_middle. constructor; [|by apply NoDup_ListNoDup]. intros Hin. by apply Hf, list_elem_of_In.
  - rewrite map_app in *. cbn [map] in *. by rewrite Ei.
  - apply Forall_app in Hnx as [A B]. apply Forall_app. split; [easy|]. inversion B; subst. constructor; [by rewrite Ei|easy].
  - apply view_put. intros Hin. apply Hf. rewrite map_app. apply in_or_app. by left.
Qed.

Lemma update_row m s r f : shown m s -> In r (p_rows s) -> row_ok (set_field f r) = true ->
  delete (g_name r) m !! g_name (set_field f r) = None ->
  exists s', updateRow (g_id r) f s = Some s'
    /\ shown (<[g_name (set_field f r) := content (set_field f r)]> (delete (g_name r) m)) s'
    /\ says (<[g_name (set_field f r) := content (set_field f r)]> (delete (g_name r) m)) (p_form s')
    /\ others_kept pricing_fields (p_form s) (p_form s').
Proof.
  intros H Hr Hok Hf. destruct (row_at _ _ Hr (sh_ids _ _ H)) as (a & b & E & Em & _).
  unfold updateRow. rewrite Em.
  destruct (replaced_row m s r (set_field f r) H Hr eq_refl Hok Hf a b E) as (A & B & C & D & V).
  by apply emit_shown.
Qed.

Lemma names_of m s : shown m s -> length (names m) = length (p_rows s) /\ forall x, memb x (names m) = memb x (map g_name (p_rows s)).
Proof.
  intros [_ Hnd _ _ <-]. unfold names, view.
  assert (NoDup (map (fun r => (g_name r, content r)) (p_rows s)).*1) as N.
  { apply NoDup_ListNoDup. change (List.NoDup (map fst (map (fun r => (g_name r, content r)) (p_rows s)))). by rewrite map_map. }
  pose proof (map_to_list_to_map _ N) as P. split.
  - rewrite length_map. rewrite (Permutation_length P). by rewrite length_map.
  - intros x. apply eq_true_iff_eq. rewrite !memb_In. rewrite P, map_map. reflexivity.
Qed.

Lemma first_free_ext f l l' : (forall x, memb x l = memb x l') -> forall fuel i, first_free f fuel l i = first_free f fuel l' i.
Proof. intros H. induction fuel as [|fuel IH]; intros i; [easy|]. cbn [first_free]. by rewrite H, IH. Qed.

Lemma group_name_inj i j : group_name i = group_name j -> i = j.
Proof. unfold group_name. intros H%app_inv_head. by apply digits_inj. Qed.

Lemma group_name_ok i : name_ok (group_name i) = true.
Proof.
  unfold name_ok. assert (trim (group_name i) = group_name i) as ->.
  { apply edges_trim. unfold group_name. change ("group_" ++ digits i) with ("g" ++ "roup_" ++ digits i).
    apply edges_ok_app; [easy|apply digits_edges_ok|easy|apply digits_nonempty]. }
  rewrite seqb_refl. unfold group_name, str_ok. change (truthy ("group_" ++ digits i)) with true.
  change ("group_" ++ digits i =s "__proto__") with false. cbn [negb andb].
  rewrite forallb_app. cbn [forallb andb]. apply forallb_forall. intros c Hc.
  pose proof (digits_all i) as D. rewrite List.Forall_forall in D. apply N.ltb_lt.
  specialize (D c Hc). apply is_digit_iff in D. lia.
Qed.

(** A step of the table that means the step from [m] to [m']. *)
Definition step_shown (m' : gmap jstr group) (s : Pricing) (step : option Pricing) : Prop :=
  exists s', step = Some s' /\ shown m' s' /\ says m' (p_form s') /\ others_kept pricing_fields (p_form s) (p_form s').

Lemma update_same_name m s r f : shown m s -> In r (p_rows s) -> row_ok (set_field f r) = true ->
  g_name (set_field f r) = g_name r ->
  step_shown (<[g_name r := content (set_field f r)]> m) s (updateRow (g_id r) f s).
Proof.
  intros H Hr Hok E. rewrite <- (insert_delete_eq m (g_name r)), <- E at 1. apply update_row; try easy.
  rewrite E. apply lookup_delete_eq.
Qed.

Lemma field_shown m s name f m' : shown m s -> spec (AEdit name f) m = Some m' ->
  step_shown m' s (perform (AEdit name f) s).
Proof.
  intros H. cbn [spec perform]. pose proof (row_named_view m s name H) as Hr.
  destruct (row_named name s) as [r|]; [|by rewrite Hr]. destruct Hr as (Hin & <- & ->). cbn [content].
  assert (row_ok r = true) as Hok by (pose proof (sh_rows _ _ H) as A; rewrite forallb_forall in A; auto).
  unfold row_ok in Hok. bool_hyps. cbv zeta.
  destruct f as [n|t|b|d]; intros E; repeat case_hyp E; try easy; injection E as <-; bool_hyps.
  - apply update_row; [easy|easy| |by apply bool_decide_eq_true in H4].
    unfold row_ok. cbn [set_field g_name g_ratio g_description]. by rewrite H3, H2, H1.
  - apply (update_same_name m s r (RRatio t) H Hin); [|easy]. unfold row_ok. cbn [set_field g_name g_ratio g_description].
    by rewrite H0, Heqb, H1.
  - apply (update_same_name m s r (RSelectable b) H Hin); [|easy]. unfold row_ok. cbn [set_field g_name g_ratio g_description].
    by rewrite H0, H2, H1.
  - apply (update_same_name m s r (RDescription d) H Hin); [|easy]. unfold row_ok. cbn [set_field g_name g_ratio g_description].
    by rewrite H0, H2, Heqb.
Qed.

Lemma snoc_NoDup {A} (l : list A) x : List.NoDup l -> ~ In x l -> List.NoDup (l ++ [x]).
Proof.
  intros H Hx. apply NoDup_ListNoDup. rewrite <- Permutation_cons_append. constructor; [by rewrite list_elem_of_In|].
  by apply NoDup_ListNoDup.
Qed.

Lemma add_shown m s m' : shown m s -> spec AAdd m = Some m' -> step_shown m' s (addRow s).
Proof.
  intros H. cbn [spec]. unfold addRow. destruct (names_of m s H) as [HL HM].
  assert (size m = length (p_rows s)) as -> by (rewrite <- HL; unfold names; by rewrite length_map, length_map_to_list).
  rewrite (first_free_ext _ _ _ HM). destruct (first_free _ _ _ _) as [i|] eqn:E; [|easy]. intros [= <-].
  destruct (first_free_found _ _ _ _ _ E) as (_ & Hf & _). destruct H as [Hok Hnd Hid Hnx <-].
  apply emit_shown.
  - rewrite forallb_app, Hok. cbn [forallb]. rewrite andb_true_r. unfold row_ok. cbn [new_row g_name g_ratio g_description].
    by rewrite group_name_ok.
  - rewrite map_app. by apply snoc_NoDup.
  - rewrite map_app. apply snoc_NoDup; [easy|]. intros (r & Er & Hr)%in_map_iff. rewrite List.Forall_forall in Hnx.
    specialize (Hnx r Hr). cbn in Er. lia.
  - apply Forall_app. split; [eapply Forall_impl; [exact Hnx|]; cbn; lia|]. constructor; [cbn; lia|constructor].
  - by apply view_snoc.
Qed.

Lemma remove_shown m s name m' : shown m s -> spec (ARemove name) m = Some m' ->
  step_shown m' s (perform (ARemove name) s).
Proof.
  intros H. cbn [spec perform]. pose proof (row_named_view m s name H) as Hr.
  destruct (row_named name s) as [r|]; [|by rewrite Hr]. destruct Hr as (Hin & <- & ->). intros [= <-].
  destruct (row_at _ _ Hin (sh_ids _ _ H)) as (a & b & E & _ & Ef). unfold removeRow. rewrite Ef.
  destruct H as [Hok Hnd Hid Hnx <-]. rewrite E in *. rewrite forallb_app in Hok. cbn [forallb] in Hok. bool_hyps.
  apply emit_shown; [by rewrite forallb_app, H, H1|by apply (middle_name a r b)| | |by apply view_removed].
  - rewrite map_app in *. cbn [map] in Hid. exact (List.NoDup_remove_1 _ _ _ Hid).
  - apply Forall_app in Hnx as [A B]. inversion B; subst. by apply Forall_app.
Qed.

Lemma edit_shown m s a m' : shown m s -> spec a m = Some m' -> step_shown m' s (perform a s).
Proof. destruct a; [apply field_shown | apply add_shown | apply remove_shown]. Qed.

(** *** Opening *)

Lemma reads_list {V} (o : list (jstr * V)) : reads o (list_to_map o).
Proof.
  intros k. induction o as [|[k' v] o IH]; [symmetry; apply lookup_empty|]. cbn [obj_get list_to_map foldr fst snd].
  destruct (seqb_spec k k') as [->|N]; [by rewrite lookup_insert_eq|]. by rewrite lookup_insert_ne.
Qed.

Lemma opened_lookup G U n : opened G U !! n = open_group (obj_get n G) (obj_get n U).
Proof.
  unfold opened. rewrite lookup_merge, <- !reads_list. unfold diag_None. by destruct (obj_get n G), (obj_get n U).
Qed.

Definition tables_ok (G U : table) : bool :=
  forallb name_ok (row_names G U) && forallb (fun kv => num_okb (normalizeRatio (js_Number (snd kv)))) G
  && forallb (fun kv => str_ok (text_or_empty (Some (snd kv)))) U.

Lemma number_names next G U ns : map g_name (number_rows next G U ns) = ns.
Proof. revert next. induction ns as [|n ns IH]; intros next; [easy|]. cbn. by rewrite IH. Qed.

Lemma number_ids next G U ns : map g_id (number_rows next G U ns) = seq next (length ns).
Proof. revert next. induction ns as [|n ns IH]; intros next; [easy|]. cbn. by rewrite IH. Qed.

Lemma number_length next G U ns : length (number_rows next G U ns) = length ns.
Proof. rewrite <- (number_names next G U ns) at 2. by rewrite length_map. Qed.

Lemma In_row_names n G U : In n (row_names G U) <-> obj_get n G <> None \/ obj_get n U <> None.
Proof. unfold row_names. rewrite uniq_In, in_app_iff, <- !obj_get_keys. reflexivity. Qed.

Lemma number_view next G U ns n : view (number_rows next G U ns) !! n
  = if memb n ns then Some (normalizeRatio (js_Number_opt (obj_get n G)), own n U, text_or_empty (obj_get n U)) else None.
Proof.
  rewrite view_find. revert next. induction ns as [|x ns IH]; intros next; [easy|].
  cbn [number_rows List.find g_name memb existsb]. rewrite (seqb_sym n x). by destruct (seqb_spec x n) as [->|]; cbn.
Qed.

Lemma number_ok next G U ns : tables_ok G U = true -> (forall n, In n ns -> In n (row_names G U)) ->
  forallb row_ok (number_rows next G U ns) = true.
Proof.
  unfold tables_ok. intros H. bool_hyps. rewrite forallb_forall in H, H0, H1. intros Hs.
  revert next. induction ns as [|n ns IH]; intros next; [easy|]. cbn [number_rows forallb].
  rewrite IH by (intros x Hx; apply Hs; by right). rewrite andb_true_r. unfold row_ok. cbn [g_name g_ratio g_description].
  rewrite (H n) by (apply Hs; by left). cbn [andb]. apply andb_true_iff. split.
  - destruct (obj_get n G) as [v|] eqn:E; [|by vm_compute]. apply obj_get_In in E. exact (H1 _ E).
  - destruct (obj_get n U) as [v|] eqn:E; [|easy]. apply obj_get_In in E. exact (H0 _ E).
Qed.

Lemma number_shown next G U d : tables_ok G U = true ->
  shown (opened G U) {| p_next := next + length (row_names G U); p_rows := number_rows next G U (row_names G U); p_form := d |}.
Proof.
  intros H. constructor; cbn [p_rows p_next].
  - by apply number_ok.
  - rewrite number_names. apply uniq_NoDup.
  - rewrite number_ids. apply seq_NoDup.
  - apply List.Forall_forall. intros r Hr. apply (in_map g_id) in Hr. rewrite number_ids in Hr. apply in_seq in Hr. lia.
  - apply map_eq. intros n. rewrite number_view, opened_lookup.
    assert (memb n (row_names G U) = true <-> obj_get n G <> None \/ obj_get n U <> None) as E by (by rewrite memb_In, In_row_names).
    unfold own. destruct (memb n (row_names G U)), (obj_get n G), (obj_get n U); cbn [open_group js_Number_opt]; try easy;
      destruct E as [E1 E2]; try (destruct E1; easy); exfalso; try (by discriminate E2; left); try (by discriminate E2; right).
Qed.

Lemma open_shown next d G U : parse_map (GroupRatio d) = Some G -> parse_map (UserUsableGroups d) = Some U ->
  tables_ok G U = true -> exists s, open_table next d = Some s /\ p_form s = d /\ shown (opened G U) s.
Proof.
  intros HG HU Hok. unfold open_table, sync_rows, buildGroupPricingRows. cbn [p_rows p_form p_next]. rewrite HG, HU.
  rewrite number_length. destruct (_ =s _); eexists; (split; [reflexivity|]; split; [easy|]).
  - by apply number_shown.
  - rewrite number_length. by apply number_shown.
Qed.

Lemma edits_shown acts : forall m s m', shown m s -> specs acts m = Some m' ->
  exists s', performs acts s = Some s' /\ shown m' s' /\ others_kept pricing_fields (p_form s) (p_form s')
    /\ (acts <> [] \/ says m (p_form s) -> says m' (p_form s')).
Proof.
  induction acts as [|a acts IH]; intros m s m' H E; cbn [specs performs] in *.
  - injection E as <-. exists s. split; [easy|]. split; [easy|]. split; [easy|]. by intros [?|?].
  - destruct (spec a m) as [m1|] eqn:E1; [|easy]. destruct (edit_shown m s a m1 H E1) as (s1 & -> & H1 & S1 & K1).
    destruct (IH _ _ _ H1 E) as (s' & -> & H' & K' & S'). exists s'. split; [easy|]. split; [easy|].
    split; [by eapply others_kept_trans|]. intros _. apply S'. by right.
Qed.

(** C13: The table of pricing groups edits a map of groups.  Whatever is edited, added or
    removed, name by name, the rows on screen are those of the map that the edits mean, and
    the two texts of the form say it: no other group changes, and no other setting.  A group
    that only the second text names is in that map with the ratio 1. *)
Theorem pricing_edits (next : nat) (d : GroupForm) (G U : table) (acts : list Act) (m : gmap jstr group) :
  parse_map (GroupRatio d) = Some G -> parse_map (UserUsableGroups d) = Some U -> tables_ok G U = true ->
  specs acts (opened G U) = Some m ->
  exists s0 s, open_table next d = Some s0 /\ performs acts s0 = Some s
    /\ view (p_rows s) = m /\ (acts <> [] -> says m (p_form s)) /\ others_kept pricing_fields d (p_form s).
Proof.
  intros HG HU Hok E. destruct (open_shown next d G U HG HU Hok) as (s0 & E0 & <- & H0).
  destruct (edits_shown acts _ _ _ H0 E) as (s & Es & H & K & S). exists s0, s. split; [easy|]. split; [easy|].
  split; [exact (sh_view _ _ H)|]. split; [|easy]. intros Ha. apply S. by left.
Qed.

Definition sample_ratios : table := [("default"%js, JNum (of_Z 1)); ("vip"%js, JNum (parseFloat "0.5"))].
Definition sample_usable : table := [("default"%js, JStr "Standard"); ("plus"%js, JStr "Plus")].
Definition sample_overrides : table := [("vip"%js, JObj [("default"%js, JNum (parseFloat "0.9"))])].

Definition sample_form : GroupForm :=
  {| GroupRatio := print_map sample_ratios; TopupGroupRatio := print_map sample_ratios;
     UserUsableGroups := print_map sample_usable; GroupGroupRatio := print_map sample_overrides;
     AutoGroups := print_list [JStr "default"; JStr "vip"]; DefaultUseAutoGroup := false;
     GroupSpecialUsableGroup := "{}"; SubscriptionGroupPolicy := "{}" |}.

Lemma pricing_edits_witness :
  exists s0 s, open_table 1 sample_form = Some s0
    /\ performs [AEdit "vip" (RRatio "0.25"); AAdd; AEdit "group_1" (RName "svip"); ARemove "default"] s0 = Some s
    /\ view (p_rows s) = <["svip"%js := (of_Z 1, true, [])]>
         (delete "default"%js (<["vip"%js := (parseFloat "0.25", false, [])]> (opened sample_ratios sample_usable)))
    /\ says (view (p_rows s)) (p_form s).
Proof.
  destruct (pricing_edits 1 sample_form sample_ratios sample_usable
              [AEdit "vip" (RRatio "0.25"); AAdd; AEdit "group_1" (RName "svip"); ARemove "default"]
              (<["svip"%js := (of_Z 1, true, [])]>
                 (delete "default"%js (<["vip"%js := (parseFloat "0.25", false, [])]> (opened sample_ratios sample_usable)))))
    as (s0 & s & H0 & H & V & S & _); [vm_compute; reflexivity..|].
  exists s0, s. split; [exact H0|]. split; [exact H|]. split; [exact V|]. rewrite V. apply S. discriminate.
Defined.

(** The group that is only selectable gets a ratio as soon as another one is edited. *)
Lemma selectable_gets_ratio :
  match open_table 1 sample_form with
  | Some s0 => option_map (fun s => parse_map (GroupRatio (p_form s))) (perform (AEdit "vip" (RSelectable true)) s0)
  | None => None
  end = Some (Some [("default"%js, JNum (of_Z 1)); ("vip"%js, JNum (parseFloat "0.5")); ("plus"%js, JNum (of_Z 1))]).
Proof. vm_compute. reflexivity. Qed.

(** A second row of a name takes over both its ratio and its choice: the first one's ratio is
    no longer in the text, while the table goes on showing it and only warns. *)
Lemma duplicate_loses_ratio :
  match open_table 1 sample_form with
  | Some s0 => option_map (fun s => (map g_ratio (p_rows s), duplicateNames (p_rows s), parse_map (GroupRatio (p_form s))))
                 (perform (AEdit "vip" (RName "default")) s0)
  | None => None
  end = Some ([of_Z 1; parseFloat "0.5"; of_Z 1], ["default"%js],
              Some [("default"%js, JNum (parseFloat "0.5")); ("plus"%js, JNum (of_Z 1))]).
Proof. vm_compute. reflexivity. Qed.

(** ** Overrides *)

Definition override_in (o : table) (userGroup targetGroup : jstr) : option json :=
  match obj_get userGroup o with Some (JObj i) => obj_get targetGroup i | _ => None end.

Lemma override_set o u i u' t : override_in (obj_set u (JObj i) o) u' t = if u' =s u then obj_get t i else override_in o u' t.
Proof. unfold override_in. rewrite obj_get_set. by destruct (u' =s u). Qed.

Lemma inner_wf o u i : wf_obj o -> inner_of u o = Some i -> wf_obj i /\ forall t, override_in o u t = obj_get t i.
Proof.
  unfold inner_of, override_in. intros Ho H. destruct (obj_get u o) as [v|] eqn:E.
  - apply obj_get_In in E. destruct Ho as [_ Hv]. destruct v; repeat case_hyp H; try easy; injection H as <-; try easy.
    split; [|easy]. apply wf_json_obj. rewrite List.Forall_forall in Hv. by apply (Hv _ E).
  - destruct (inherited u); [easy|]. by injection H as <-.
Qed.

(** What is written; the name of an edited override is kept, since its field cannot be
    changed. *)
Definition override_put (u t : jstr) (r : number) (i o : table) : table := obj_set u (JObj (obj_set t (JNum r) i)) o.

Lemma override_text d o u t r i edited : parse_map (GroupGroupRatio d) = Some o -> u <> [] -> t <> "__proto__"%js ->
  inner_of u o = Some i ->
  handleOverrideSave u t r (if edited : bool then Some t else None) d
  = Some (onChange FGroupGroup (print_map (override_put u t r i o)) d).
Proof.
  intros Hp Hu Ht Ei. unfold handleOverrideSave. rewrite (proj2 (truthy_iff u) Hu), Hp, Ei. cbn [negb].
  assert (match (if edited then Some t else None) with
          | Some old => if truthy old && negb (old =s t) then obj_delete old i else i
          | None => i
          end = i) as -> by (destruct edited; [|easy]; rewrite seqb_refl; by destruct (truthy t)).
  by rewrite assign_plain.
Qed.

Lemma override_put_wf u t r i o : wf_obj o -> wf_obj i -> wf_str u -> wf_str t -> num_ok r -> wf_obj (override_put u t r i o).
Proof. intros Wo Wi Wu Wt Hr. apply wf_obj_set; [easy|easy|]. apply wf_json_obj, wf_obj_set; easy. Qed.

(** Saving an override sets that pair and no other. *)
Lemma override_put_get u t r i o u' t' : wf_obj o -> inner_of u o = Some i ->
  override_in (override_put u t r i o) u' t' = if (u' =s u) && (t' =s t) then Some (JNum r) else override_in o u' t'.
Proof.
  intros Wo Ei. destruct (inner_wf o u i Wo Ei) as [_ Hget]. unfold override_put. rewrite override_set, obj_get_set.
  destruct (seqb_spec u' u) as [->|]; [|easy]. cbn [andb]. by destruct (seqb_spec t' t).
Qed.

(** Deleting the last override of a user group deletes the group. *)
Lemma override_deleted d o u t i : parse_map (GroupGroupRatio d) = Some o -> wf_obj o -> obj_get u o = Some (JObj i) ->
  exists d' o', handleOverrideDelete u t d = Some d' /\ parse_map (GroupGroupRatio d') = Some o' /\ wf_obj o'
    /\ others_kept [FGroupGroup] d d'
    /\ (obj_get u o' <> None <-> obj_delete t i <> [])
    /\ forall u' t', override_in o' u' t' = if (u' =s u) && (t' =s t) then None else override_in o u' t'.
Proof.
  intros Hp Ho Hi. unfold handleOverrideDelete. rewrite Hp, Hi.
  assert (inner_of u o = Some i) as Ei by (unfold inner_of; by rewrite Hi).
  destruct (inner_wf o u i Ho Ei) as [Wi Hget]. set (i' := obj_delete t i).
  set (o' := match i' with [] => obj_delete u o | _ => obj_set u (JObj i') o end).
  assert (wf_str u) as Wu by (apply obj_get_In in Hi; destruct Ho as [_ Hv]; rewrite List.Forall_forall in Hv; by apply (Hv _ Hi)).
  assert (wf_obj o') as Wo.
  { unfold o'. destruct i' eqn:Ei'; [by apply wf_obj_delete|]. apply wf_obj_set; [easy|easy|]. apply wf_json_obj.
    rewrite <- Ei'. by apply wf_obj_delete. }
  eexists _, o'. split; [reflexivity|]. split; [exact (parse_print o' Wo)|]. split; [easy|].
  split; [apply others_onChange; [by left|apply others_refl]|].
  assert (forall t', obj_get t' i' = if t' =s t then None else obj_get t' i) as Hi' by (intros t'; apply obj_get_delete).
  unfold o'. destruct i' as [|kv r] eqn:Ei'.
  - split; [rewrite obj_get_delete, seqb_refl; easy|]. intros u' t'. unfold override_in. rewrite obj_get_delete.
    destruct (seqb_spec u' u) as [->|]; [|easy]. cbn [andb]. rewrite Hi, <- Hi'. easy.
  - split; [rewrite obj_get_set, seqb_refl; easy|]. intros u' t'. rewrite override_set, Hi'.
    destruct (seqb_spec u' u) as [->|]; [|easy]. cbn [andb]. by rewrite Hget.
Qed.

(** ** The other lists *)

(** A user group with the name of an inherited property is not added. *)
Lemma inherited_not_added :
  option_map GroupGroupRatio (handleUserGroupSave " constructor " sample_form) = Some (GroupGroupRatio sample_form).
Proof. reflexivity. Qed.

(** A ratio that overflows is written as [null]. *)
Lemma overflowing_ratio_null :
  ratio_typed "1e999" = true /\ simple_save "svip" "1e999" = Some ("svip"%js, "1e999"%js)
  /\ option_map (fun d => safeJsonParse (TopupGroupRatio d) JNull) (handleSimpleSave true None "svip" "1e999" sample_form)
     = Some (JObj (sample_ratios ++ [("svip"%js, JNull)])).
Proof. vm_compute. repeat split. Qed.

(** Two neighbours that are swapped twice are in their first order, and the list is never
    longer or shorter. *)
Lemma swapped_Permutation {A} (l : list A) i j : swap i j l ≡ₚ l.
Proof.
  unfold swap. destruct (l !! i) as [a|] eqn:Ei, (l !! j) as [b|] eqn:Ej; try easy.
  destruct (decide (i = j)) as [->|Hn].
  { by rewrite list_insert_insert_eq, list_insert_id by congruence. }
  apply Permutation_inj. split; [by rewrite !length_insert|].
  pose proof (lookup_lt_Some _ _ _ Ei). pose proof (lookup_lt_Some _ _ _ Ej).
  exists (fun k => if decide (k = i) then j else if decide (k = j) then i else k). split.
  - intros x y. repeat destruct (decide _); congruence.
  - intros k. destruct (decide (k = i)) as [->|Ki]; [|destruct (decide (k = j)) as [->|Kj]].
    + rewrite list_lookup_insert_ne by congruence. by rewrite list_lookup_insert_eq.
    + by rewrite list_lookup_insert_eq by (by rewrite length_insert).
    + by rewrite !list_lookup_insert_ne by congruence.
Qed.
