(* ===== verification/GroupRules.v ===== *)
(** * Special groups, subscription policies, and the server's groups

    [features/system-settings/models/group-special-usable-editor.tsx], the rules that give
    groups to the users of one group or take them away;
    [subscription-group-policy-editor.tsx], whether a group may be paid by a subscription
    and at what multiplier; and what the Go server makes of these settings and of those of
    [GroupRatios]: [internal/gateway/routing/app/group_policy.go],
    [internal/gateway/store/ratio_group.go] and [subscription_group_policy.go].

    The server's [json.Unmarshal] of a text that the console wrote is the reading of
    [JSON.parse]; names with unpaired surrogates, which Go replaces, are outside. *)

From stdpp Require Import gmap.
From S2P Require Import Prelude Number Json IntText RouteServer PricingTable GroupRatios.
From stdpp Require Import options.

(** ** Rules *)

Inductive OpType := OP_ADD | OP_REMOVE | OP_APPEND.

#[export] Instance OpType_eq_dec : EqDecision OpType.
Proof. solve_decision. Defined.

Record Rule := { u_id : nat; userGroup : jstr; op : OpType; targetGroup : jstr; description : jstr }.

Definition parsePrefix (rawKey : jstr) : OpType * jstr :=
  if startsWith rawKey "+:" then (OP_ADD, drop 2 rawKey)
  else if startsWith rawKey "-:" then (OP_REMOVE, drop 2 rawKey)
  else (OP_APPEND, rawKey).

Definition toRawKey (o : OpType) (groupName : jstr) : jstr :=
  match o with OP_ADD => "+:" ++ groupName | OP_REMOVE => "-:" ++ groupName | OP_APPEND => groupName end.

(** Texts that are not an object are outside. *)
Definition safeParseJson (str : jstr) : option table :=
  if negb (truthy str) || negb (truthy (trim str)) then Some []
  else match json_parse str with Some (JObj o) => Some o | Some _ => None | None => Some [] end.

Definition rule_of (id : nat) (group : jstr) (kv : jstr * json) : Rule :=
  let '(o, groupName) := parsePrefix (fst kv) in
  {| u_id := id; userGroup := group; op := o; targetGroup := groupName;
     description := match o with
                    | OP_REMOVE => "remove"
                    | _ => match snd kv with JStr s => s | _ => [] end
                    end |}.

(** The inner values that [Object.entries] lists; an array is listed by its indices. *)
Definition inner_entries (inner : json) : table :=
  match inner with
  | JObj i => i
  | JArr l => imap (fun k v => (digits (N.of_nat k), v)) l
  | _ => []
  end.

Fixpoint number_rules (next : nat) (entries : list (jstr * (jstr * json))) : list Rule :=
  match entries with
  | [] => []
  | (group, kv) :: entries => rule_of next group kv :: number_rules (S next) entries
  end.

Definition rule_entries (nested : table) : list (jstr * (jstr * json)) :=
  concat (map (fun gi => map (fun kv => (fst gi, kv)) (inner_entries (snd gi))) nested).

Definition flattenRules (next : nat) (nested : table) : list Rule := number_rules next (rule_entries nested).

(** A group named like an inherited property writes to that property: nothing of it is in
    the result. *)
Definition nest_rule (result : list (jstr * table)) (r : Rule) : list (jstr * table) :=
  let put i := obj_set (userGroup r) (assign (toRawKey (op r) (targetGroup r)) (JStr (description r)) i) result in
  if negb (truthy (userGroup r)) || negb (truthy (targetGroup r)) then result
  else match obj_get (userGroup r) result with
       | Some i => put i
       | None => if inherited (userGroup r) then result else put []
       end.

Definition nestRules (rules : list Rule) : list (jstr * table) := fold_left nest_rule rules [].

Definition nested_object (nested : list (jstr * table)) : table := map (fun gi => (fst gi, JObj (snd gi))) nested.

Definition serializeRules (rules : list Rule) : jstr :=
  match nestRules rules with [] => "{}" | nested => print_map (nested_object nested) end.

(** The rules are read from the form once, when the editor appears. *)
Record Rules := { ru_next : nat; ru_rules : list Rule; newGroupName : jstr; ru_form : GroupForm }.

Definition open_rules (next : nat) (d : GroupForm) : option Rules :=
  option_map (fun nested =>
    let rules := flattenRules next nested in
    {| ru_next := next + length rules; ru_rules := rules; newGroupName := []; ru_form := d |})
    (safeParseJson (GroupSpecialUsableGroup d)).

Definition emitChange (next : nat) (newRules : list Rule) (newName : jstr) (s : Rules) : Rules :=
  {| ru_next := next; ru_rules := newRules; newGroupName := newName;
     ru_form := onChange FSpecial (serializeRules newRules) (ru_form s) |}.

Inductive RuleField := ROp (o : OpType) | RTarget (name : jstr) | RDesc (text : jstr).

Definition set_rule_field (f : RuleField) (r : Rule) : Rule :=
  {| u_id := u_id r; userGroup := userGroup r;
     op := match f with ROp o => o | _ => op r end;
     targetGroup := match f with RTarget n => n | _ => targetGroup r end;
     description := match f with
                    | ROp OP_REMOVE => "remove"
                    | ROp _ => if bool_decide (op r = OP_REMOVE) && (description r =s "remove") then [] else description r
                    | RDesc d => d
                    | RTarget _ => description r
                    end |}.

Definition updateRule (id : nat) (f : RuleField) (s : Rules) : Rules :=
  emitChange (ru_next s) (map (fun r => if u_id r =? id then set_rule_field f r else r) (ru_rules s)) (newGroupName s) s.

Definition removeRule (id : nat) (s : Rules) : Rules :=
  emitChange (ru_next s) (List.filter (fun r => negb (u_id r =? id)) (ru_rules s)) (newGroupName s) s.

Definition removeGroup (groupName : jstr) (s : Rules) : Rules :=
  emitChange (ru_next s) (List.filter (fun r => negb (userGroup r =s groupName)) (ru_rules s)) (newGroupName s) s.

Definition empty_rule (id : nat) (groupName : jstr) : Rule :=
  {| u_id := id; userGroup := groupName; op := OP_APPEND; targetGroup := []; description := [] |}.

Definition addRuleToGroup (groupName : jstr) (s : Rules) : Rules :=
  emitChange (S (ru_next s)) (ru_rules s ++ [empty_rule (ru_next s) groupName]) (newGroupName s) s.

Definition setNewGroupName (text : jstr) (s : Rules) : Rules :=
  {| ru_next := ru_next s; ru_rules := ru_rules s; newGroupName := text; ru_form := ru_form s |}.

Definition addNewGroup (s : Rules) : Rules :=
  let name := trim (newGroupName s) in
  if negb (truthy name) then s
  else emitChange (S (ru_next s)) (ru_rules s ++ [empty_rule (ru_next s) name]) [] s.

(** The sections on screen.  The one of a group named like an inherited property has no list
    to push to: the component throws. *)
Definition group_step (acc : exc (list (jstr * list Rule))) (r : Rule) : exc (list (jstr * list Rule)) :=
  match acc with
  | Throw => Throw
  | Ret l =>
    if negb (truthy (userGroup r)) then Ret l
    else if inherited (userGroup r) then Throw
    else if existsb (fun gi => fst gi =s userGroup r) l
    then Ret (map (fun gi => if fst gi =s userGroup r then (fst gi, snd gi ++ [r]) else gi) l)
    else Ret (l ++ [(userGroup r, [r])])
  end.

Definition grouped (rules : list Rule) : exc (list (jstr * list Rule)) := fold_left group_step rules (Ret []).

(** ** Subscription policies *)

Record Policy := { enabled : bool; multiplier : number }.

Definition normalizePolicy (value : option json) : Policy :=
  let multiplier := js_Number_opt (jget_opt "multiplier" value) in
  {| enabled := is_bool (jget_opt "enabled" value) true;
     multiplier := if isFinite multiplier && (zero <? multiplier)%num then multiplier else of_Z 1 |}.

Definition policy_json (p : Policy) : json :=
  JObj [("enabled"%js, JBool (enabled p)); ("multiplier"%js, JNum (multiplier p))].

Definition policy_groups (d : GroupForm) : option (list jstr) := option_map (map fst) (parse_map (GroupRatio d)).

Inductive Patch := PEnabled (checked : bool) | PMultiplier (valueAsNumber : number).

Definition patched (p : Policy) (c : Patch) : Policy :=
  match c with
  | PEnabled b => {| enabled := b; multiplier := multiplier p |}
  | PMultiplier n => {| enabled := enabled p;
                        multiplier := multiplier (normalizePolicy (Some (JObj [("multiplier"%js, JNum n)]))) |}
  end.

Definition updatePolicy (group : jstr) (c : Patch) (d : GroupForm) : option GroupForm :=
  match policy_groups d, parse_map (SubscriptionGroupPolicy d) with
  | Some groups, Some policies =>
    let next := obj_of (map (fun name => (name, policy_json (normalizePolicy (obj_get name policies)))) groups) in
    let next := obj_set group (policy_json (patched (normalizePolicy (obj_get group next)) c)) next in
    Some (onChange FPolicy (print_map next) d)
  | _, _ => None
  end.

(** ** The server

    The maps of the Go server, as [json.Unmarshal] makes them: [null] is the zero value. *)

Definition decode_map {V} (f : json -> option V) (o : table) : option (gmap jstr V) :=
  foldr (fun kv acc => match f (snd kv), acc with Some x, Some m => Some (<[fst kv := x]> m) | _, _ => None end)
    (Some ∅) o.

Definition decode_object {V} (f : json -> option V) (v : json) : option (gmap jstr V) :=
  match v with JObj o => decode_map f o | JNull => Some ∅ | _ => None end.

Definition decode_number (v : json) : option number :=
  match v with JNum n => if isFinite n then Some n else None | JNull => Some zero | _ => None end.
Definition decode_string (v : json) : option jstr :=
  match v with JStr s => Some s | JNull => Some [] | _ => None end.
Definition decode_bool (v : json) : option bool :=
  match v with JBool b => Some b | JNull => Some false | _ => None end.

Definition decode_policy (v : json) : option Policy :=
  match v with
  | JNull => Some {| enabled := false; multiplier := zero |}
  | JObj o =>
    match decode_bool (default JNull (obj_get "enabled" o)), decode_number (default JNull (obj_get "multiplier" o)) with
    | Some b, Some n => Some {| enabled := b; multiplier := n |}
    | _, _ => None
    end
  | _ => None
  end.

Record Server := {
  groupRatioMap : gmap jstr number;
  topupGroupRatio : gmap jstr number;
  groupGroupRatioMap : gmap jstr (gmap jstr number);
  userUsableGroups : gmap jstr jstr;
  autoGroups : list jstr;
  groupSpecialUsableGroup : gmap jstr (gmap jstr jstr);
  subscriptionGroupPolicies : gmap jstr Policy;
}.

Definition CheckGroupRatio (m : gmap jstr number) : bool :=
  forallb (fun kv : jstr * number => negb (snd kv <? zero)%num) (map_to_list m).

Definition parseSubscriptionGroupPolicies (v : json) : option (gmap jstr Policy) :=
  match decode_object decode_policy v with
  | Some m =>
    if forallb (fun kv : jstr * Policy =>
         truthy (TrimSpace (fst kv)) && (zero <? multiplier (snd kv))%num && isFinite (multiplier (snd kv))) (map_to_list m)
    then Some m else None
  | None => None
  end.

(** An option of the console arrives with its text; [None]: it is refused.  What a refusal
    leaves behind is outside. *)
Definition apply_option (f : Field) (value : jstr) (sv : Server) : option Server :=
  let '(Build_Server a b c d e g h) := sv in
  match json_parse value with
  | None => None
  | Some v =>
    match f with
    | FGroupRatio => match decode_object decode_number v with
                     | Some m => if CheckGroupRatio m then Some (Build_Server m b c d e g h) else None
                     | None => None
                     end
    | FTopup => option_map (fun m => Build_Server a m c d e g h) (decode_object decode_number v)
    | FGroupGroup => option_map (fun m => Build_Server a b m d e g h) (decode_object (decode_object decode_number) v)
    | FUsable => option_map (fun m => Build_Server a b c m e g h) (decode_object decode_string v)
    | FAuto => match v with
               | JArr l => option_map (fun l => Build_Server a b c d l g h) (mapM decode_string l)
               | JNull => Some (Build_Server a b c d [] g h)
               | _ => None
               end
    | FSpecial => option_map (fun m => Build_Server a b c d e m h) (decode_object (decode_object decode_string) v)
    | FPolicy => option_map (fun m => Build_Server a b c d e g m) (parseSubscriptionGroupPolicies v)
    end
  end.

Definition ContainsGroupRatio (name : jstr) (sv : Server) : bool :=
  match groupRatioMap sv !! name with Some _ => true | None => false end.

Definition GetGroupRatio (name : jstr) (sv : Server) : number := default (of_Z 1) (groupRatioMap sv !! name).

Definition GetGroupGroupRatio (userGroup usingGroup : jstr) (sv : Server) : option number :=
  groupGroupRatioMap sv !! userGroup ≫= (fun gp => gp !! usingGroup).

Definition GetUserGroupRatio (userGroup group : jstr) (sv : Server) : number :=
  match GetGroupGroupRatio userGroup group sv with Some ratio => ratio | None => GetGroupRatio group sv end.

(** One rule of the group's map. *)
Definition special_step (groupsCopy : gmap jstr jstr) (rule : jstr * jstr) : gmap jstr jstr :=
  let '(specialGroup, desc) := rule in
  if startsWith specialGroup "-:" then delete (drop 2 specialGroup) groupsCopy
  else if startsWith specialGroup "+:" then <[drop 2 specialGroup := desc]> groupsCopy
  else <[specialGroup := desc]> groupsCopy.

(** Go visits the rules in an order of its own, [order]. *)
Definition GetUserUsableGroups (group : jstr) (order : list (jstr * jstr)) (sv : Server) : gmap jstr jstr :=
  let groupsCopy := userUsableGroups sv in
  let groupsCopy :=
    if truthy group then
      let special := match groupSpecialUsableGroup sv !! group with
                     | Some _ => fold_left special_step order groupsCopy
                     | None => groupsCopy
                     end in
      match special !! group with Some _ => special | None => <[group := "用户分组"%js]> special end
    else groupsCopy in
  if existsb (fun g => bool_decide (is_Some (groupsCopy !! g))) (autoGroups sv)
  then <["auto"%js := "自动分组"%js]> groupsCopy else groupsCopy.

Definition GroupInUserUsableGroups (group name : jstr) (order : list (jstr * jstr)) (sv : Server) : bool :=
  bool_decide (is_Some (GetUserUsableGroups group order sv !! name)).

Definition GetUserAutoGroup (group : jstr) (order : list (jstr * jstr)) (sv : Server) : list jstr :=
  List.filter (fun g => bool_decide (is_Some (GetUserUsableGroups group order sv !! g))) (autoGroups sv).

(** The orders of the rules that Go may take. *)
Definition visits (group : jstr) (order : list (jstr * jstr)) (sv : Server) : Prop :=
  order ≡ₚ map_to_list (default ∅ (groupSpecialUsableGroup sv !! group)).

Definition GetSubscriptionGroupPolicy (group : jstr) (sv : Server) : Policy :=
  let group := TrimSpace group in
  let group := if truthy group then group else "default"%js in
  default {| enabled := false; multiplier := of_Z 1 |} (subscriptionGroupPolicies sv !! group).

(** * What the rules do *)

(** ** Decoding *)

Lemma decode_lookup {V} (f : json -> option V) o : forall m, decode_map f o = Some m ->
  forall k, m !! k = obj_get k o ≫= f.
Proof.
  induction o as [|[k' v] o IH]; intros m H k; cbn [decode_map foldr fst snd] in H.
  - injection H as <-. apply lookup_empty.
  - change (foldr _ _ o) with (decode_map f o) in H. destruct (f v) as [x|] eqn:Ef; [|easy].
    destruct (decode_map f o) as [m'|]; [|easy]. injection H as <-. cbn [obj_get].
    destruct (seqb_spec k k') as [->|N]; [by rewrite lookup_insert_eq|]. rewrite lookup_insert_ne by easy. by apply IH.
Qed.

Lemma decode_total {V} (f : json -> option V) o :
  (exists m, decode_map f o = Some m) <-> Forall (fun kv => is_Some (f (snd kv))) o.
Proof.
  induction o as [|[k v] o IH]; cbn [decode_map foldr fst snd]; [split; [constructor|by eexists]|].
  change (foldr _ _ o) with (decode_map f o). rewrite Forall_cons, <- IH. cbn [snd]. split.
  - intros [m H]. destruct (f v); [|easy]. destruct (decode_map f o); [|easy]. split; [easy|by eexists].
  - intros [[x ->] [m ->]]. by eexists.
Qed.

Lemma decode_set {V} (f : json -> option V) o m k v x : decode_map f o = Some m -> f v = Some x ->
  decode_map f (obj_set k v o) = Some (<[k := x]> m).
Proof.
  intros H Hv. assert (exists m', decode_map f (obj_set k v o) = Some m') as [m' E].
  { apply decode_total. apply obj_set_Forall; [by eexists|]. apply decode_total. by eexists. }
  rewrite E. f_equal. apply map_eq. intros k'. rewrite (decode_lookup _ _ _ E), obj_get_set.
  destruct (seqb_spec k' k) as [->|N]; [by rewrite lookup_insert_eq|].
  rewrite lookup_insert_ne by easy. symmetry. by apply decode_lookup.
Qed.

(** ** The rules as an object *)

Definition complete (r : Rule) : bool := truthy (userGroup r) && truthy (targetGroup r).
Definition raw (r : Rule) : jstr := toRawKey (op r) (targetGroup r).

(** Rules that the object can hold and that read back as themselves. *)
Definition rule_ok (r : Rule) : bool :=
  negb (complete r)
  || (negb (inherited (userGroup r)) && negb (raw r =s "__proto__")
      && bool_decide (parsePrefix (raw r) = (op r, targetGroup r))
      && str_ok (userGroup r) && str_ok (raw r) && str_ok (description r)).

Definition rule_at (rules : list Rule) (U k : jstr) : option Rule :=
  List.find (fun r => complete r && (userGroup r =s U) && (raw r =s k)) (rev rules).

Lemma nest_rule_get acc r U k : rule_ok r = true ->
  (obj_get U (nest_rule acc r) ≫= obj_get k)
  = if complete r && (userGroup r =s U) && (raw r =s k) then Some (JStr (description r)) else obj_get U acc ≫= obj_get k.
Proof.
  unfold rule_ok, nest_rule, complete, raw. cbv zeta. intros H.
  destruct (truthy (userGroup r)), (truthy (targetGroup r)); cbn [negb andb orb] in *; try easy. bool_hyps.
  match goal with E : inherited _ = false |- _ => rewrite E end.
  assert (forall i, (obj_get U (obj_set (userGroup r) (obj_set (toRawKey (op r) (targetGroup r)) (JStr (description r)) i) acc)
                     ≫= obj_get k)
    = if (userGroup r =s U) && (toRawKey (op r) (targetGroup r) =s k) then Some (JStr (description r))
      else if userGroup r =s U then obj_get k i else obj_get U acc ≫= obj_get k) as E.
  { intros i. rewrite obj_get_set, (seqb_sym U). destruct (userGroup r =s U); [|easy]. cbn [mbind option_bind andb].
    by rewrite obj_get_set, (seqb_sym k). }
  destruct (obj_get (userGroup r) acc) as [i|] eqn:G; rewrite assign_plain, E by easy; destruct (seqb_spec (userGroup r) U) as [Eu|];
    try easy; subst U; rewrite G; cbn [andb mbind option_bind]; by destruct (_ =s k).
Qed.

Lemma nest_get rules U k : forallb rule_ok rules = true ->
  (obj_get U (nestRules rules) ≫= obj_get k) = option_map (fun r => JStr (description r)) (rule_at rules U k).
Proof.
  unfold nestRules, rule_at. induction rules as [|r rules IH] using rev_ind; intros H; [easy|].
  rewrite forallb_app in H. cbn [forallb] in H. bool_hyps. rewrite fold_left_app, rev_app_distr. cbn [fold_left rev app List.find].
  rewrite nest_rule_get by easy. destruct (_ && _ && _); [easy|by apply IH].
Qed.

(** The object is one the server can read. *)
Definition nested_ok (acc : list (jstr * table)) : Prop :=
  keys_ordered (map fst acc) = true
  /\ Forall (fun gi => wf_str (fst gi) /\ wf_obj (snd gi) /\ Forall (fun kv => exists s, snd kv = JStr s) (snd gi)) acc.

Lemma nest_rule_ok acc r : rule_ok r = true -> nested_ok acc -> nested_ok (nest_rule acc r).
Proof.
  unfold rule_ok, nest_rule, complete, raw. cbv zeta. intros H [Hk Ha].
  destruct (truthy (userGroup r)), (truthy (targetGroup r)); cbn [negb andb orb] in *; try easy. bool_hyps.
  assert (forall i, wf_obj i -> Forall (fun kv => exists s, snd kv = JStr s) i ->
    nested_ok (obj_set (userGroup r) (assign (toRawKey (op r) (targetGroup r)) (JStr (description r)) i) acc)) as E.
  { intros i Wi Si. rewrite assign_plain by easy. split; [by apply keys_ordered_set|]. apply obj_set_Forall; [|easy].
    cbn [fst snd]. split; [by apply str_ok_wf|]. split.
    - apply wf_obj_set; [easy|by apply str_ok_wf|]. by apply str_ok_wf.
    - apply obj_set_Forall; [by eexists|easy]. }
  destruct (obj_get (userGroup r) acc) as [i|] eqn:G.
  - apply obj_get_In in G. rewrite List.Forall_forall in Ha. destruct (Ha _ G) as (_ & Wi & Si). by apply E.
  - match goal with E : inherited _ = false |- _ => rewrite E end. apply E; [by split|constructor].
Qed.

Lemma nest_ok rules : forallb rule_ok rules = true -> nested_ok (nestRules rules).
Proof.
  unfold nestRules. induction rules as [|r rules IH] using rev_ind; intros H; [by split|].
  rewrite forallb_app in H. cbn [forallb] in H. bool_hyps. rewrite fold_left_app. cbn [fold_left].
  apply nest_rule_ok; auto.
Qed.

Lemma nested_wf acc : nested_ok acc -> wf_obj (nested_object acc).
Proof.
  intros [Hk Ha]. split; [unfold nested_object; by rewrite map_map|]. unfold nested_object. apply List.Forall_map.
  rewrite List.Forall_forall in *. intros gi Hg. destruct (Ha gi Hg) as (A & B & _). cbn [fst snd]. split; [easy|]. by apply wf_json_obj.
Qed.

Lemma serialized_text rules : forallb rule_ok rules = true ->
  json_parse (serializeRules rules) = Some (JObj (nested_object (nestRules rules))).
Proof.
  intros H. pose proof (nested_wf _ (nest_ok _ H)) as W. unfold serializeRules.
  destruct (nestRules rules) eqn:E; [reflexivity|]. rewrite <- E in *. apply json_parse_indent. by apply wf_json_obj.
Qed.

Lemma nested_get acc U : obj_get U (nested_object acc) = option_map JObj (obj_get U acc).
Proof. induction acc as [|[k i] acc IH]; [easy|]. cbn. by destruct (U =s k). Qed.

Lemma decoded_inner (i : table) : Forall (fun kv => exists s, snd kv = JStr s) i -> is_Some (decode_map decode_string i).
Proof.
  intros H. apply (proj2 (decode_total decode_string i)). eapply Forall_impl; [exact H|]. intros [k v] [s ->]. by eexists.
Qed.

(** The server takes the text and has, for each group of users and each key, the
    description of the last rule with them. *)
Lemma rules_applied rules sv : forallb rule_ok rules = true ->
  exists sv', apply_option FSpecial (serializeRules rules) sv = Some sv'
    /\ userUsableGroups sv' = userUsableGroups sv /\ autoGroups sv' = autoGroups sv
    /\ forall U k, (groupSpecialUsableGroup sv' !! U ≫= fun i => i !! k)
                   = option_map description (rule_at rules U k).
Proof.
  intros H. destruct (nest_ok rules H) as [Hk Ha]. set (acc := nestRules rules) in *.
  assert (Forall (fun kv => is_Some (decode_object decode_string (snd kv))) (nested_object acc)) as T.
  { unfold nested_object. apply List.Forall_map. eapply List.Forall_impl; [|exact Ha]. intros gi (_ & _ & S). cbn [snd].
    by apply decoded_inner. }
  apply (proj2 (decode_total _ _)) in T as [M E]. unfold apply_option. rewrite serialized_text by easy. fold acc.
  destruct sv as [a b c d e g h]. cbn [decode_object]. rewrite E. eexists. split; [reflexivity|]. split; [easy|]. split; [easy|].
  intros U k. cbn [groupSpecialUsableGroup]. rewrite (decode_lookup _ _ _ E), nested_get.
  pose proof (nest_get rules U k H) as N. fold acc in N. destruct (obj_get U acc) as [i|] eqn:G; cbn [option_map mbind option_bind] in *.
  - apply obj_get_In in G. rewrite List.Forall_forall in Ha. destruct (Ha _ G) as (_ & _ & S). cbn [snd] in S.
    destruct (decoded_inner i S) as [mi Ei]. cbn [decode_object]. rewrite Ei. cbn [mbind option_bind].
    rewrite (decode_lookup _ _ _ Ei), N. by destruct (rule_at rules U k).
  - by destruct (rule_at rules U k).
Qed.

(** ** The order of Go *)

Definition gives (k g : jstr) : Prop := parsePrefix k = (OP_ADD, g) \/ parsePrefix k = (OP_APPEND, g).
Definition takes (k g : jstr) : Prop := parsePrefix k = (OP_REMOVE, g).

Lemma special_step_prefix m k d :
  special_step m (k, d) = match parsePrefix k with (OP_REMOVE, g) => delete g m | (_, g) => <[g := d]> m end.
Proof.
  unfold special_step, parsePrefix. destruct (startsWith k "-:") eqn:E; [|by destruct (startsWith k "+:")].
  apply startsWith_true in E as [r ->]. reflexivity.
Qed.

Definition some_entry (P : jstr -> Prop) (order : list (jstr * jstr)) : Prop := exists kd, In kd order /\ P (fst kd).

Lemma some_entry_cons P kd order : some_entry P (kd :: order) <-> P (fst kd) \/ some_entry P order.
Proof.
  unfold some_entry. split.
  - intros (x & [<-|Hx] & H); [by left|right; by exists x].
  - intros [H|(x & Hx & H)]; [exists kd; split; [by left|easy]|exists x; split; [by right|easy]].
Qed.

(** Without both a rule that gives a group and one that takes it, every order ends alike. *)
Lemma fold_special g order : ~ (some_entry (fun k => gives k g) order /\ some_entry (fun k => takes k g) order) ->
  forall m, is_Some (fold_left special_step order m !! g)
    <-> some_entry (fun k => gives k g) order \/ (is_Some (m !! g) /\ ~ some_entry (fun k => takes k g) order).
Proof.
  induction order as [|[k d] order IH]; intros H m; cbn [fold_left].
  { unfold some_entry. split; [intros Hm; right; split; [easy|by intros (? & ? & _)]|]. by intros [(? & ? & _)|[? _]]. }
  rewrite !some_entry_cons in *. cbn [fst] in *. rewrite IH by tauto. rewrite special_step_prefix.
  unfold gives, takes in *. destruct (parsePrefix k) as [o x].
  assert (forall v, is_Some (<[x := v]> m !! g) <-> x = g \/ is_Some (m !! g)) as I.
  { intros v. destruct (decide (x = g)) as [->|N]; [rewrite lookup_insert_eq; split; [by left|by eexists]|].
    rewrite lookup_insert_ne by easy. tauto. }
  assert (is_Some (delete x m !! g) <-> x <> g /\ is_Some (m !! g)) as D.
  { destruct (decide (x = g)) as [->|N]; [rewrite lookup_delete_eq; split; [by intros [? ?]|tauto]|].
    rewrite lookup_delete_ne by easy. tauto. }
  destruct o; rewrite ?I, ?D; split; intros A;
    repeat match goal with
    | H : _ \/ _ |- _ => destruct H | H : _ /\ _ |- _ => destruct H | H : (_, _) = (_, _) |- _ => injection H as ?; subst
    end; try discriminate; intuition congruence.
Qed.

(** ** What users may select *)

Definition rule_for (rules : list Rule) (U g : jstr) (remove : bool) : bool :=
  existsb (fun r => complete r && (userGroup r =s U) && Bool.eqb (bool_decide (op r = OP_REMOVE)) remove
                    && (targetGroup r =s g)) rules.

(** No rule of a group of users takes what another gives. *)
Definition consistent (rules : list Rule) (U : jstr) : bool :=
  forallb (fun r => negb (rule_for rules U (targetGroup r) false && rule_for rules U (targetGroup r) true)) rules.

Definition granted (base : gmap jstr jstr) (rules : list Rule) (U g : jstr) : bool :=
  rule_for rules U g false || (bool_decide (is_Some (base !! g)) && negb (rule_for rules U g true)) || (U =s g).

Lemma rule_for_iff rules U g remove : rule_for rules U g remove = true
  <-> exists r, In r rules /\ complete r = true /\ userGroup r = U /\ targetGroup r = g
                /\ (if remove then op r = OP_REMOVE else op r <> OP_REMOVE).
Proof.
  unfold rule_for. rewrite existsb_exists. split.
  - intros (r & Hr & H). exists r. bool_hyps. repeat split; try easy.
    match goal with E : Bool.eqb _ _ = true |- _ => apply eqb_prop in E; subst remove end.
    by destruct (decide (op r = OP_REMOVE)) as [E|E]; [rewrite bool_decide_eq_true_2|rewrite bool_decide_eq_false_2].
  - intros (r & Hr & C & <- & <- & O). exists r. split; [easy|]. rewrite C, !seqb_refl, andb_true_r. cbn [andb].
    destruct remove; [by rewrite bool_decide_eq_true_2|by rewrite bool_decide_eq_false_2].
Qed.

Lemma consistent_all rules U g : consistent rules U = true -> ~ (rule_for rules U g false = true /\ rule_for rules U g true = true).
Proof.
  unfold consistent. rewrite forallb_forall. intros H [A B]. pose proof A as A'.
  apply rule_for_iff in A as (r & Hr & _ & _ & <- & _). specialize (H r Hr). by rewrite A', B in H.
Qed.

(** The entries the server reads are those of the complete rules. *)
Lemma entry_rules (rules : list Rule) (U : jstr) (inner : gmap jstr jstr) (order : list (jstr * jstr)) (g : jstr) : forallb rule_ok rules = true ->
  (forall k, inner !! k = option_map description (rule_at rules U k)) -> order ≡ₚ map_to_list inner ->
  (some_entry (fun k => gives k g) order <-> rule_for rules U g false = true)
  /\ (some_entry (fun k => takes k g) order <-> rule_for rules U g true = true).
Proof.
  intros Hok Hi Ho. rewrite forallb_forall in Hok.
  assert (forall (P : jstr -> Prop), some_entry P order
    <-> exists r, In r rules /\ complete r = true /\ userGroup r = U /\ P (raw r)) as S.
  { intros P. split.
    - intros ([k d] & Hin & HP). cbn [fst] in HP. apply list_elem_of_In in Hin. rewrite Ho in Hin.
      apply elem_of_map_to_list in Hin. rewrite Hi in Hin. unfold rule_at in Hin.
      destruct (List.find _ _) as [r|] eqn:F; [|easy]. apply List.find_some in F as [Hr F]. bool_hyps. subst.
      exists r. split; [by apply in_rev|]. easy.
    - intros (r & Hr & C & <- & HP). destruct (rule_at rules (userGroup r) (raw r)) as [r'|] eqn:F.
      + exists (raw r, description r'). split; [|easy]. apply list_elem_of_In. rewrite Ho. apply elem_of_map_to_list.
        by rewrite Hi, F.
      + apply (List.find_none _ _ F) in Hr as E || (rewrite in_rev in Hr; apply (List.find_none _ _ F) in Hr as E).
        by rewrite C, !seqb_refl in E. }
  rewrite !S, !rule_for_iff. unfold gives, takes.
  split; (split; [intros (r & Hr & C & E & P)|intros (r & Hr & C & E & T & O)]); exists r; specialize (Hok r Hr);
    unfold rule_ok in Hok; rewrite C in Hok; cbn [negb orb] in Hok; bool_hyps;
    match goal with K : bool_decide (parsePrefix _ = _) = true |- _ => apply bool_decide_eq_true in K; rewrite K in * end;
    repeat split; try easy; try (destruct P as [P|P]); try (injection P as P1 P2); try congruence.
  - rewrite T. destruct (op r); tauto.
Qed.

Lemma existsb_agree {A} (f g : A -> bool) l : (forall x, f x = g x) -> existsb f l = existsb g l.
Proof. intros H. induction l as [|x l IH]; [easy|]. cbn. by rewrite H, IH. Qed.

Lemma with_own_group {V} (m : gmap jstr V) U v g :
  is_Some (match m !! U with Some _ => m | None => <[U := v]> m end !! g) <-> is_Some (m !! g) \/ U = g.
Proof.
  destruct (decide (U = g)) as [->|N].
  - destruct (m !! g) eqn:E; [rewrite E; split; [by left|by eexists]|]. rewrite lookup_insert_eq. split; [by right|by eexists].
  - destruct (m !! U); [|rewrite lookup_insert_ne by easy]; tauto.
Qed.

Lemma granted_iff base rules U g : granted base rules U g = true
  <-> (rule_for rules U g false = true \/ (is_Some (base !! g) /\ rule_for rules U g true <> true)) \/ U = g.
Proof.
  unfold granted. rewrite !orb_true_iff, andb_true_iff, negb_true_iff, <- not_true_iff_false, seqb_eq.
  by rewrite bool_decide_eq_true.
Qed.

(** C14: Whatever the rules on screen, the server takes their text, and then the users of a
    group may select a group just when a rule gives it to them, when everybody may and no rule
    takes it from them, or when it is their own; and automatic routing, when it knows one of
    these.  That holds in whatever order the server visits the rules, as long as no rule takes
    what another gives. *)
Theorem rules_grant (rules : list Rule) (sv : Server) (U : jstr) :
  forallb rule_ok rules = true -> consistent rules U = true -> U <> [] ->
  exists sv', apply_option FSpecial (serializeRules rules) sv = Some sv'
    /\ forall order, visits U order sv' -> forall g,
       GroupInUserUsableGroups U g order sv'
       = granted (userUsableGroups sv) rules U g
         || ((g =s "auto") && existsb (granted (userUsableGroups sv) rules U) (autoGroups sv)).
Proof.
  intros Hok Hc HU. destruct (rules_applied rules sv Hok) as (sv' & E & Eu & Ea & Hs). exists sv'. split; [easy|].
  intros order Ho. unfold visits in Ho.
  set (inner := default ∅ (groupSpecialUsableGroup sv' !! U)) in *.
  assert (forall k, inner !! k = option_map description (rule_at rules U k)) as Hi.
  { intros k. rewrite <- Hs. unfold inner. by destruct (groupSpecialUsableGroup sv' !! U). }
  set (base := userUsableGroups sv) in *.
  set (copy := fold_left special_step order base).
  assert (forall g, is_Some (copy !! g) <-> rule_for rules U g false = true \/ (is_Some (base !! g) /\ rule_for rules U g true <> true)) as Hcopy.
  { intros g. destruct (entry_rules rules U inner order g Hok Hi Ho) as [A B]. unfold copy. rewrite fold_special, A, B; [easy|].
    rewrite A, B. by apply consistent_all. }
  assert (match groupSpecialUsableGroup sv' !! U with Some _ => copy | None => base end = copy) as Ecopy.
  { unfold copy, inner in *. destruct (groupSpecialUsableGroup sv' !! U); [easy|]. cbn [default] in Ho.
    rewrite map_to_list_empty in Ho. apply Permutation_nil_r in Ho. by subst order. }
  unfold GroupInUserUsableGroups, GetUserUsableGroups. rewrite Eu, Ea, (proj2 (truthy_iff U) HU). fold base copy. rewrite Ecopy.
  set (m := match copy !! U with Some _ => copy | None => _ end).
  assert (forall g, bool_decide (is_Some (m !! g)) = granted base rules U g) as Hm.
  { intros g. apply eq_true_iff_eq. rewrite bool_decide_eq_true, granted_iff. unfold m. by rewrite with_own_group, Hcopy. }
  intros g. rewrite <- (Hm g). replace (existsb (granted base rules U) (autoGroups sv))
    with (existsb (fun g => bool_decide (is_Some (m !! g))) (autoGroups sv)) by (apply existsb_agree; exact Hm).
  destruct (existsb _ _); [|by rewrite andb_false_r, orb_false_r]. rewrite andb_true_r.
  destruct (seqb_spec g "auto") as [->|N]; [rewrite lookup_insert_eq, orb_true_r|rewrite lookup_insert_ne, orb_false_r by easy]; easy.
Qed.

(** *** Rules that clash

    A rule that adds a group and one that removes it can stand side by side: the keys differ.
    What the server then lets users select depends on the order in which Go visits its map. *)

Definition no_server : Server :=
  {| groupRatioMap := ∅; topupGroupRatio := ∅; groupGroupRatioMap := ∅; userUsableGroups := ∅; autoGroups := [];
     groupSpecialUsableGroup := ∅; subscriptionGroupPolicies := ∅ |}.

Definition a_rule (o : OpType) (U g d : jstr) : Rule :=
  {| u_id := 0; userGroup := U; op := o; targetGroup := g; description := d |}.

Definition clashing : list Rule := [a_rule OP_ADD "vip" "pro" "Pro"; a_rule OP_REMOVE "vip" "pro" "remove"].

Lemma clashing_rules_random : exists sv', apply_option FSpecial (serializeRules clashing) no_server = Some sv'
  /\ exists order order', visits "vip" order sv' /\ visits "vip" order' sv'
     /\ GroupInUserUsableGroups "vip" "pro" order sv' = true /\ GroupInUserUsableGroups "vip" "pro" order' sv' = false.
Proof.
  eexists. split; [vm_compute; reflexivity|].
  exists [("-:pro", "remove"); ("+:pro", "Pro")]%js, [("+:pro", "Pro"); ("-:pro", "remove")]%js.
  split; [|split; [|split; vm_compute; reflexivity]]; unfold visits.
  - match goal with |- _ ≡ₚ ?l => let x := eval vm_compute in l in change l with x end. apply perm_swap || reflexivity.
  - match goal with |- _ ≡ₚ ?l => let x := eval vm_compute in l in change l with x end. apply perm_swap || reflexivity.
Qed.

(** *** Reading the rules again *)

Lemma raw_parsed k : (let '(o, g) := parsePrefix k in toRawKey o g) = k.
Proof.
  unfold parsePrefix. destruct (startsWith k "+:") eqn:E; [by apply startsWith_true in E as [r ->]|].
  destruct (startsWith k "-:") eqn:E'; [by apply startsWith_true in E' as [r ->]|easy].
Qed.

Lemma In_number_rules next E r : In r (number_rules next E) -> exists id g kv, In (g, kv) E /\ r = rule_of id g kv.
Proof.
  revert next. induction E as [|[g kv] E IH]; intros next H; [easy|]. destruct H as [<-|H].
  - exists next, g, kv. split; [by left|easy].
  - destruct (IH _ H) as (id & g' & kv' & Hin & ->). exists id, g', kv'. split; [by right|easy].
Qed.

Lemma number_rules_In next E g kv : In (g, kv) E -> exists id, In (rule_of id g kv) (number_rules next E).
Proof.
  revert next. induction E as [|[g' kv'] E IH]; intros next H; [easy|]. destruct H as [[= -> ->]|H].
  - exists next. by left.
  - destruct (IH (S next) H) as [id Hi]. exists id. by right.
Qed.

Lemma In_entries N g kv : In (g, kv) (rule_entries N) <-> exists v, In (g, v) N /\ In kv (inner_entries v).
Proof.
  unfold rule_entries. rewrite in_concat. split.
  - intros (l & Hl & H). apply in_map_iff in Hl as ([g' v] & <- & Hin). apply in_map_iff in H as (kv' & [= -> ->] & Hk).
    by exists v.
  - intros (v & Hin & Hk). exists (map (fun kv => (g, kv)) (inner_entries v)). split; [|by apply in_map].
    apply in_map_iff. by exists (g, v).
Qed.

Lemma rule_of_raw id g kv : raw (rule_of id g kv) = fst kv.
Proof. unfold raw, rule_of. pose proof (raw_parsed (fst kv)) as R. by destruct (parsePrefix (fst kv)). Qed.

(** An entry that is opened in the editor is written back as it was, its text apart: a rule
    that takes a group gets the text of one. *)
Lemma rules_reopened next N U i k v : List.NoDup (map fst N) -> List.NoDup (map fst i) ->
  obj_get U N = Some (JObj i) -> obj_get k i = Some v ->
  forallb rule_ok (flattenRules next N) = true -> complete (rule_of 0 U (k, v)) = true ->
  (obj_get U (nestRules (flattenRules next N)) ≫= obj_get k) = Some (JStr (description (rule_of 0 U (k, v)))).
Proof.
  intros HN Hi HU Hk Hok Hc. rewrite nest_get by easy. unfold rule_at.
  assert (exists id, In (rule_of id U (k, v)) (flattenRules next N)) as [id Hin].
  { apply number_rules_In, In_entries. exists (JObj i). split; [by apply obj_get_In|]. by apply obj_get_In. }
  destruct (List.find _ _) as [r|] eqn:F.
  - apply List.find_some in F as [Hr F]. rewrite <- in_rev in Hr. bool_hyps.
    destruct (In_number_rules _ _ _ Hr) as (id' & g & [k' v'] & He & ->). rewrite rule_of_raw in *. cbn [fst] in *. subst k'.
    apply In_entries in He as (w & Hw & Hv).
    assert (g = U) as -> by (unfold rule_of in *; by destruct (parsePrefix (fst (k, v'))); cbn in * ).
    apply (obj_get_NoDup _ _ _ HN) in Hw. rewrite HU in Hw. injection Hw as <-. cbn [inner_entries] in Hv.
    apply (obj_get_NoDup _ _ _ Hi) in Hv. rewrite Hk in Hv. injection Hv as <-.
    unfold rule_of. cbn [fst]. by destruct (parsePrefix k).
  - exfalso. rewrite in_rev in Hin. apply (List.find_none _ _ F) in Hin. rewrite rule_of_raw in Hin. cbn [fst] in Hin.
    rewrite seqb_refl, andb_true_r in Hin. unfold complete, rule_of in *. cbn [fst] in *.
    destruct (parsePrefix k); cbn in *. by rewrite seqb_refl, Hc in Hin.
Qed.

(** ** Policies *)

Definition policy_ok (p : Policy) : bool := num_okb (multiplier p) && (zero <? multiplier p)%num.

Lemma decode_policy_json p : policy_ok p = true -> decode_policy (policy_json p) = Some p.
Proof.
  unfold policy_ok. intros H. bool_hyps. apply num_okb_ok in H. destruct p as [b n]. unfold decode_policy, policy_json. cbn in H |- *.
  by rewrite (proj1 H).
Qed.

Lemma normalize_json p : policy_ok p = true -> normalizePolicy (Some (policy_json p)) = p.
Proof.
  unfold policy_ok. intros H. bool_hyps. destruct p as [b n]. unfold normalizePolicy, policy_json. cbn [jget_opt jget obj_get].
  cbn in H, H0 |- *. apply num_okb_ok in H. rewrite H0, (proj1 H). by destruct b.
Qed.

(** The policy of every group of the ratios, and the edit. *)
Definition edited_policy (P : table) (group : jstr) (c : Patch) (name : jstr) : Policy :=
  let p := normalizePolicy (obj_get name P) in if name =s group then patched p c else p.

Definition policies_ok (G P : table) (group : jstr) (c : Patch) : bool :=
  keys_ordered (map fst G) && memb group (map fst G)
  && forallb (fun name => str_ok name && truthy (TrimSpace name) && policy_ok (normalizePolicy (obj_get name P))
                          && policy_ok (edited_policy P group c name)) (map fst G).

Definition policy_list (f : jstr -> Policy) (ns : list jstr) : table := map (fun name => (name, policy_json (f name))) ns.

Lemma policy_list_get f ns n : obj_get n (policy_list f ns) = if memb n ns then Some (policy_json (f n)) else None.
Proof.
  induction ns as [|x ns IH]; [easy|]. cbn [policy_list map obj_get memb existsb]. rewrite (seqb_sym n x).
  destruct (seqb_spec x n) as [->|]; cbn [orb]; [easy|]. exact IH.
Qed.

Lemma policy_wf name p : str_ok name = true -> policy_ok p = true -> wf_str name /\ wf_json (policy_json p).
Proof.
  unfold policy_ok. intros Hn H. bool_hyps. split; [by apply str_ok_wf|]. destruct p as [b n]. cbn in *.
  split; [reflexivity|]. split; [split; [apply str_ok_wf; reflexivity|easy]|]. split; [|easy].
  split; [apply str_ok_wf; reflexivity|]. by apply num_okb_ok.
Qed.

Lemma policy_list_wf f ns : keys_ordered ns = true ->
  forallb (fun n => str_ok n && policy_ok (f n)) ns = true -> wf_obj (policy_list f ns).
Proof.
  intros Hk H. unfold policy_list. split; [by rewrite map_map, map_id|]. apply List.Forall_map, List.Forall_forall.
  rewrite forallb_forall in H. intros n Hn. specialize (H n Hn). bool_hyps. cbn [fst snd]. by apply policy_wf.
Qed.

(** The server's reading of an object of valid policies. *)
Lemma policies_read (o : table) (f : jstr -> Policy) (ns : list jstr) :
  (forall n, obj_get n o = if memb n ns then Some (policy_json (f n)) else None) ->
  (forall n, In n ns -> truthy (TrimSpace n) = true /\ policy_ok (f n) = true) ->
  List.NoDup (map fst o) ->
  exists m, parseSubscriptionGroupPolicies (JObj o) = Some m
    /\ forall n, m !! n = if memb n ns then Some (f n) else None.
Proof.
  intros Ho Hn Hd. assert (is_Some (decode_map decode_policy o)) as [m E].
  { apply (proj2 (decode_total decode_policy o)), List.Forall_forall. intros [k v] Hin.
    apply (obj_get_NoDup _ _ _ Hd) in Hin. rewrite Ho in Hin. destruct (memb k ns) eqn:M; [|easy]. injection Hin as <-.
    apply memb_In in M. cbn [snd]. rewrite decode_policy_json by apply Hn, M. by eexists. }
  assert (forall n, m !! n = if memb n ns then Some (f n) else None) as Hm.
  { intros n. rewrite (decode_lookup _ _ _ E), Ho. destruct (memb n ns) eqn:M; [|easy]. cbn [mbind option_bind].
    by apply decode_policy_json, Hn, memb_In. }
  exists m. split; [|easy]. unfold parseSubscriptionGroupPolicies. cbn [decode_object]. rewrite E.
  assert (forallb (fun kv : jstr * Policy => truthy (TrimSpace (fst kv)) && (zero <? multiplier (snd kv))%num
            && isFinite (multiplier (snd kv))) (map_to_list m) = true) as ->; [|easy].
  apply forallb_forall. intros [k p] Hin. apply list_elem_of_In, elem_of_map_to_list in Hin. rewrite Hm in Hin.
  destruct (memb k ns) eqn:M; [|easy]. injection Hin as <-. apply memb_In in M. destruct (Hn k M) as [T P].
  unfold policy_ok in P. bool_hyps. cbn [fst snd]. rewrite T, H0. by apply num_okb_ok in H as [-> _].
Qed.

(** Every edit of a policy writes a text that the server accepts, with one policy for each
    group that has a ratio: the edited one, and the others as they were shown.  The policies
    of other groups are no longer in it. *)
Theorem policies_accepted (d : GroupForm) (G P : table) (group : jstr) (c : Patch) (sv : Server) :
  parse_map (GroupRatio d) = Some G -> parse_map (SubscriptionGroupPolicy d) = Some P ->
  policies_ok G P group c = true ->
  exists d' sv', updatePolicy group c d = Some d' /\ others_kept [FPolicy] d d'
    /\ apply_option FPolicy (SubscriptionGroupPolicy d') sv = Some sv'
    /\ forall name, subscriptionGroupPolicies sv' !! name
         = if memb name (map fst G) then Some (edited_policy P group c name) else None.
Proof.
  intros HG HP Hok. unfold policies_ok in Hok. bool_hyps. rename H into Hk, H1 into Hg, H0 into Hf.
  rewrite forallb_forall in Hf.
  set (f := fun name => normalizePolicy (obj_get name P)). set (ns := map fst G) in *.
  assert (forall n, In n ns -> str_ok n = true /\ truthy (TrimSpace n) = true /\ policy_ok (f n) = true
            /\ policy_ok (edited_policy P group c n) = true) as Hn.
  { intros n Hn. specialize (Hf n Hn). bool_hyps. easy. }
  assert (wf_obj (policy_list f ns)) as Wl.
  { apply policy_list_wf; [easy|]. apply forallb_forall. intros n (A & _ & B & _)%Hn. by rewrite A, B. }
  set (next := obj_set group (policy_json (patched (normalizePolicy (obj_get group (policy_list f ns))) c)) (policy_list f ns)).
  assert (edited_policy P group c group = patched (normalizePolicy (obj_get group (policy_list f ns))) c) as Eg.
  { unfold edited_policy. cbv zeta. rewrite policy_list_get, Hg, seqb_refl. fold (f group).
    rewrite normalize_json; [easy|]. apply memb_In, Hn in Hg. easy. }
  assert (wf_obj next) as Wn.
  { apply memb_In, Hn in Hg. destruct Hg as (A & _ & _ & B). rewrite Eg in B.
    destruct (policy_wf _ _ A B). by apply wf_obj_set. }
  assert (forall n, obj_get n next = if memb n ns then Some (policy_json (edited_policy P group c n)) else None) as Hget.
  { intros n. unfold next. rewrite obj_get_set. destruct (seqb_spec n group) as [->|N]; [by rewrite Hg, Eg|].
    rewrite policy_list_get. unfold edited_policy. cbv zeta. by rewrite (proj2 (seqb_neq n group) N). }
  destruct (policies_read next (edited_policy P group c) ns Hget) as (m & Em & Hm).
  { intros n (_ & A & _ & B)%Hn. easy. }
  { apply keys_ordered_NoDup. apply Wn. }
  exists (onChange FPolicy (print_map next) d). destruct sv as [a b e g h i j].
  exists (Build_Server a b e g h i m). split; [|split; [|split]].
  - unfold updatePolicy, policy_groups. rewrite HG, HP. cbn [option_map]. fold ns.
    change (map (fun name => (name, policy_json (normalizePolicy (obj_get name P)))) ns) with (policy_list f ns).
    rewrite obj_of_ordered by apply Wl. reflexivity.
  - apply others_onChange; [by left|apply others_refl].
  - unfold apply_option. change (SubscriptionGroupPolicy (onChange FPolicy (print_map next) d)) with (print_map next).
    unfold print_map. rewrite json_parse_indent by (by apply wf_json_obj). by rewrite Em.
  - exact Hm.
Qed.

(** ** Witnesses and corners *)

Definition sample_rules : list Rule :=
  [a_rule OP_ADD "vip" "pro" "Pro"; a_rule OP_REMOVE "vip" "default" "remove"; a_rule OP_APPEND "vip" "lab" "Lab";
   a_rule OP_APPEND "vip" "" ""; a_rule OP_REMOVE "svip" "pro" "remove"].

Definition sample_server : Server :=
  {| groupRatioMap := ∅; topupGroupRatio := ∅; groupGroupRatioMap := ∅;
     userUsableGroups := <["default"%js := "Standard"%js]> ∅; autoGroups := ["pro"%js];
     groupSpecialUsableGroup := ∅; subscriptionGroupPolicies := ∅ |}.

Lemma rules_grant_witness :
  exists sv', apply_option FSpecial (serializeRules sample_rules) sample_server = Some sv'
    /\ forall order, visits "vip" order sv' ->
       map (fun g => GroupInUserUsableGroups "vip" g order sv') ["default"; "pro"; "lab"; "vip"; "auto"; "svip"]%js
       = [false; true; true; true; true; false].
Proof.
  destruct (rules_grant sample_rules sample_server "vip") as (sv' & E & H); [reflexivity|reflexivity|easy|].
  exists sv'. split; [exact E|]. intros order Ho. cbn [map]. rewrite !(H order Ho). vm_compute. reflexivity.
Defined.

Definition sample_policies : table := [("vip"%js, policy_json {| enabled := true; multiplier := parseFloat "0.8" |});
                                       ("gone"%js, policy_json {| enabled := true; multiplier := of_Z 2 |})].

Definition policy_form : GroupForm := onChange FPolicy (print_map sample_policies) sample_form.

Lemma policies_accepted_witness :
  exists d' sv', updatePolicy "default" (PEnabled true) policy_form = Some d'
    /\ apply_option FPolicy (SubscriptionGroupPolicy d') no_server = Some sv'
    /\ map (fun g => GetSubscriptionGroupPolicy g sv') ["default"; "vip"; "gone"]%js
       = [{| enabled := true; multiplier := of_Z 1 |}; {| enabled := true; multiplier := parseFloat "0.8" |};
          {| enabled := false; multiplier := of_Z 1 |}].
Proof.
  destruct (policies_accepted policy_form sample_ratios sample_policies "default" (PEnabled true) no_server)
    as (d' & sv' & E & _ & A & H); [vm_compute; reflexivity..|].
  exists d', sv'. split; [exact E|]. split; [exact A|]. unfold GetSubscriptionGroupPolicy. cbn [map].
  change (let group := TrimSpace "default" in if truthy group then group else "default"%js) with "default"%js.
  change (let group := TrimSpace "vip" in if truthy group then group else "default"%js) with "vip"%js.
  change (let group := TrimSpace "gone" in if truthy group then group else "default"%js) with "gone"%js.
  rewrite !H. vm_compute. reflexivity.
Defined.

(** A group of users named like an inherited property: the page throws when its section is
    shown, and nothing of it is in the text. *)
Lemma inherited_group_throws :
  option_map (fun s => let s := addNewGroup (setNewGroupName " constructor" s) in
                       (grouped (ru_rules s), GroupSpecialUsableGroup (ru_form s))) (open_rules 1 sample_form)
  = Some (Throw, "{}"%js).
Proof. vm_compute. reflexivity. Qed.

(** The editor does not read the form again: when the form takes other rules, from the server,
    the next edit writes the old ones over them. *)
Definition form_refreshed (d : GroupForm) (s : Rules) : Rules :=
  {| ru_next := ru_next s; ru_rules := ru_rules s; newGroupName := newGroupName s; ru_form := d |}.

Lemma refreshed_rules_lost d s id f :
  GroupSpecialUsableGroup (ru_form (updateRule id f (form_refreshed d s)))
  = GroupSpecialUsableGroup (ru_form (updateRule id f s)).
Proof. reflexivity. Qed.
