(* ===== verification/GroupSettings.v ===== *)
(** * Saving the group settings

    [features/system-settings/models/ratio-settings-card.tsx], for its form of groups, with
    the texts of [utils.ts] and the change of fields of [group-ratio-form.tsx]: what is sent of
    a form, what is kept as sent, and how the form follows the settings that the server
    reports.  At the end, an override of a ratio from the dialog that sets it to the ratio
    that the server charges.

    The form library's mark of a changed form is an argument; the schema of the form is
    modelled, the texts of the engine's messages are not. *)

From stdpp Require Import gmap.
From S2P Require Import Prelude Number Json IntText PricingTable GroupRatios GroupRules.
From stdpp Require Import options.

(** ** Texts *)

Definition formatJsonForTextarea (value : jstr) : jstr :=
  if negb (truthy value) || negb (truthy (trim value)) then []
  else match json_parse value with Some v => stringify_indent 2 [] v | None => value end.

Definition normalizeJsonString (value : jstr) : jstr :=
  let trimmed := trim value in
  if negb (truthy trimmed) then []
  else match json_parse trimmed with Some v => stringify v | None => trimmed end.

(** Whether [validateJsonString] finds a text valid, with its predicate. *)
Definition validateJsonString (predicate : json -> bool) (value : jstr) : bool :=
  let trimmed := trim value in
  if negb (truthy trimmed) then true
  else match json_parse trimmed with Some v => predicate v | None => false end.

Definition is_string (v : json) : bool := match v with JStr _ => true | _ => false end.

Definition auto_predicate (v : json) : bool := match v with JArr l => forallb is_string l | _ => false end.

Definition policy_predicate (v : json) : bool :=
  match v with
  | JObj o =>
    forallb (fun kv => match snd kv with
                       | JObj p => match obj_get "enabled" p, obj_get "multiplier" p with
                                   | Some (JBool _), Some (JNum n) => isFinite n && (zero <? n)%num
                                   | _, _ => false
                                   end
                       | _ => false
                       end) o
  | _ => false
  end.

Definition field_predicate (f : Field) : json -> bool :=
  match f with FAuto => auto_predicate | FPolicy => policy_predicate | _ => fun _ => true end.

Definition all_fields : list Field := [FGroupRatio; FTopup; FUsable; FGroupGroup; FAuto; FSpecial; FPolicy].

Definition groupSchema (d : GroupForm) : bool :=
  forallb (fun f => validateJsonString (field_predicate f) (text_of f d)) all_fields.

Definition map_texts (h : jstr -> jstr) (d : GroupForm) : GroupForm :=
  {| GroupRatio := h (GroupRatio d); TopupGroupRatio := h (TopupGroupRatio d); UserUsableGroups := h (UserUsableGroups d);
     GroupGroupRatio := h (GroupGroupRatio d); AutoGroups := h (AutoGroups d); DefaultUseAutoGroup := DefaultUseAutoGroup d;
     GroupSpecialUsableGroup := h (GroupSpecialUsableGroup d); SubscriptionGroupPolicy := h (SubscriptionGroupPolicy d) |}.

Definition normalized : GroupForm -> GroupForm := map_texts normalizeJsonString.
Definition formatted : GroupForm -> GroupForm := map_texts formatJsonForTextarea.

(** ** The card *)

(** The keys of the form, in the order of [normalized]; [None] is [DefaultUseAutoGroup]. *)
Abbreviation key := (option Field).
Abbreviation value := (jstr + bool)%type.

Definition form_keys : list key :=
  [Some FGroupRatio; Some FTopup; Some FUsable; Some FGroupGroup; Some FAuto; None; Some FSpecial; Some FPolicy].

Definition value_of (k : key) (d : GroupForm) : value :=
  match k with Some f => inl (text_of f d) | None => inr (DefaultUseAutoGroup d) end.

(** The name of the option, [apiKeyMap[key] || key]. *)
Definition apiKey (k : key) : jstr :=
  match k with
  | Some FGroupRatio => "GroupRatio" | Some FTopup => "TopupGroupRatio" | Some FUsable => "UserUsableGroups"
  | Some FGroupGroup => "GroupGroupRatio" | Some FAuto => "AutoGroups" | None => "DefaultUseAutoGroup"
  | Some FSpecial => "group_ratio_setting.group_special_usable_group" | Some FPolicy => "SubscriptionGroupPolicy"
  end.

Record Card := {
  groupNormalizedDefaults : GroupForm;
  groupForm : GroupForm;
}.

Definition mount (groupDefaults : GroupForm) : Card :=
  {| groupNormalizedDefaults := normalized groupDefaults; groupForm := formatted groupDefaults |}.

(** The effect. *)
Definition follow (groupDefaults : GroupForm) (isDirty isSubmitting : bool) (c : Card) : Card :=
  if isDirty || isSubmitting then c else mount groupDefaults.

(** [handleFieldChange] *)
Definition handleFieldChange (f : Field) (text : jstr) (c : Card) : Card :=
  {| groupNormalizedDefaults := groupNormalizedDefaults c; groupForm := onChange f text (groupForm c) |}.

Definition updates (values : GroupForm) (c : Card) : list key :=
  List.filter (fun k => negb (bool_decide (value_of k (normalized values) = value_of k (groupNormalizedDefaults c)))) form_keys.

Section Saving.
Context {S : Type} (send : jstr -> value -> S -> S * bool).

(** One request after the other; the first refusal throws. *)
Fixpoint send_all (values : GroupForm) (keys : list key) (server : S) : S * bool :=
  match keys with
  | [] => (server, true)
  | k :: keys =>
    let '(server, ok) := send (apiKey k) (value_of k values) server in
    if ok then send_all values keys server else (server, false)
  end.

(** [values] are those of the submission; what was typed since is in the card. *)
Definition saveGroupRatios (values : GroupForm) (c : Card) (server : S) : Card * S * bool :=
  let '(server, ok) := send_all (normalized values) (updates values c) server in
  if ok then ({| groupNormalizedDefaults := normalized values; groupForm := values |}, server, true)
  else (c, server, false).

(** [form.handleSubmit(onSave)]: nothing is sent of a form that the schema refuses. *)
Definition submit (c : Card) (server : S) : option (Card * S * bool) :=
  if groupSchema (groupForm c) then Some (saveGroupRatios (groupForm c) c server) else None.

End Saving.

(** The server of [GroupRules] behind the requests of the card; a refusal leaves it as it
    was here, since nothing is said of it then. *)
Definition field_named (name : jstr) : option Field := List.find (fun f => apiKey (Some f) =s name) all_fields.

Definition go_send (name : jstr) (v : value) (sv : Server) : Server * bool :=
  match field_named name, v with
  | Some f, inl text => match apply_option f text sv with Some sv' => (sv', true) | None => (sv, false) end
  | _, _ => (sv, true)
  end.

(** A store of options that accepts some of them. *)
Definition store (accept : jstr -> value -> bool) (k : jstr) (v : value) (options : jstr -> value)
  : (jstr -> value) * bool :=
  if accept k v then (fun x => if x =s k then v else options x, true) else (options, false).

(** * What is saved *)

Lemma apiKey_inj k k' : apiKey k = apiKey k' -> k = k'.
Proof. destruct k as [[]|], k' as [[]|]; easy. Qed.

Lemma all_keys k : In k form_keys.
Proof. destruct k as [[]|]; cbn; tauto. Qed.

Lemma In_updates k values c : In k (updates values c) <-> value_of k (normalized values) <> value_of k (groupNormalizedDefaults c).
Proof.
  unfold updates. rewrite filter_In. split.
  - intros [_ H]. bool_hyps. by apply bool_decide_eq_false in H.
  - intros H. split; [apply all_keys|]. by rewrite bool_decide_eq_false_2.
Qed.

Lemma form_keys_NoDup : List.NoDup form_keys.
Proof. unfold form_keys. repeat (constructor; [cbn; intuition discriminate|]). constructor. Qed.

Lemma stored_all accept values keys : List.NoDup keys -> forall s,
  let '(s', ok) := send_all (store accept) values keys s in
  (forall x, ~ In x (map apiKey keys) -> s' x = s x)
  /\ if ok : bool then forall k, In k keys -> s' (apiKey k) = value_of k values
     else exists k, In k keys /\ accept (apiKey k) (value_of k values) = false.
Proof.
  induction keys as [|k keys IH]; intros Hd s; cbn [send_all]; [easy|]. inversion Hd as [|? ? Hk Hd']; subst.
  unfold store at 1. destruct (accept (apiKey k) (value_of k values)) eqn:E.
  - specialize (IH Hd' (fun x => if x =s apiKey k then value_of k values else s x)).
    destruct (send_all _ _ _ _) as [s' ok]. destruct IH as [A B]. split.
    + intros x Hx. cbn in Hx. rewrite A by tauto. destruct (seqb_spec x (apiKey k)) as [->|]; [tauto|easy].
    + destruct ok.
      * intros k' [<-|Hk']; [|by apply B]. rewrite A; [by rewrite seqb_refl|].
        intros (k2 & E2 & Hk2)%in_map_iff. apply apiKey_inj in E2. by subst.
      * destruct B as (k' & Hk' & Ha). exists k'. split; [by right|easy].
  - split; [easy|]. exists k. split; [by left|easy].
Qed.

(** A save sends what differs from what was last sent, key by key.  If the server takes all
    of it, it then has the form, nothing is left to send, and the form is what was submitted,
    whatever was typed in the meantime. *)
Lemma card_saved accept values c s : (forall k, s (apiKey k) = value_of k (groupNormalizedDefaults c)) ->
  let '(c', s', ok) := saveGroupRatios (store accept) values c s in
  (forall x, ~ In x (map apiKey form_keys) -> s' x = s x)
  /\ if ok : bool then groupForm c' = values /\ updates values c' = [] /\ forall k, s' (apiKey k) = value_of k (normalized values)
     else c' = c /\ exists k, In k (updates values c) /\ accept (apiKey k) (value_of k (normalized values)) = false.
Proof.
  intros Hs. unfold saveGroupRatios.
  assert (List.NoDup (updates values c)) as Hd by (apply List.NoDup_filter, form_keys_NoDup).
  pose proof (stored_all accept (normalized values) _ Hd s) as H. destruct (send_all _ _ _ _) as [s' ok].
  destruct H as [A B]. destruct ok; (split; [intros x Hx; apply A; intros (k & <- & _)%in_map_iff; apply Hx, in_map, all_keys|]).
  - split; [easy|]. split.
    + set (c' := {| groupNormalizedDefaults := normalized values; groupForm := values |}).
      destruct (updates values c') as [|k l] eqn:E; [easy|]. exfalso.
      assert (In k (updates values c')) as Hk by (rewrite E; by left). apply In_updates in Hk. by apply Hk.
    + intros k. destruct (decide (value_of k (normalized values) = value_of k (groupNormalizedDefaults c))) as [Ek|Ek].
      * rewrite A; [congruence|]. intros (k2 & E2 & Hk2)%in_map_iff. apply apiKey_inj in E2. subst k2.
        by apply In_updates in Hk2.
      * apply B. by apply In_updates.
  - easy.
Qed.

(** ** From the dialog to the charge *)

Lemma normalize_printed o : wf_obj o -> normalizeJsonString (print_map o) = stringify (JObj o).
Proof.
  intros H. unfold normalizeJsonString. rewrite print_edges.
  replace (truthy (print_map o)) with true by (symmetry; apply truthy_iff; unfold print_map; cbn; by destruct (map _ o)).
  cbn [negb]. unfold print_map. rewrite json_parse_indent by (by apply wf_json_obj). easy.
Qed.

(** What is sent after an edit that wrote one field. *)
Lemma one_field_sent f d d' c : groupNormalizedDefaults c = normalized d -> others_kept [f] d d' ->
  updates d' c = if bool_decide (normalizeJsonString (text_of f d') = normalizeJsonString (text_of f d)) then [] else [Some f].
Proof.
  intros Hc [Hb Hk]. unfold updates. rewrite Hc.
  set (same := bool_decide (normalizeJsonString (text_of f d') = normalizeJsonString (text_of f d))).
  rewrite (List.filter_ext _ (fun k => bool_decide (k = Some f) && negb same)).
  { destruct same; destruct f; reflexivity. }
  intros k. destruct (decide (k = Some f)) as [->|N].
  - rewrite (bool_decide_eq_true_2 (Some f = Some f)) by easy. cbn [andb]. f_equal. unfold same. apply bool_decide_ext.
    destruct f; cbn; split; congruence.
  - rewrite (bool_decide_eq_false_2 (k = Some f)), bool_decide_eq_true_2; [easy| |easy].
    destruct k as [g|]; [|cbn; by rewrite Hb].
    assert (text_of g d' = text_of g d) as E by (apply Hk; intros [->|[]]; by apply N).
    destruct g; cbn in *; by rewrite E.
Qed.

Lemma inner_decoded o m u : decode_map (decode_object decode_number) o = Some m -> inherited u = false ->
  exists i mi, inner_of u o = Some i /\ decode_map decode_number i = Some mi /\ mi = default ∅ (m !! u).
Proof.
  intros E Hu. unfold inner_of. rewrite (decode_lookup _ _ _ E), Hu.
  destruct (obj_get u o) as [v|] eqn:G; [|by exists [], ∅]. cbn [mbind option_bind].
  assert (is_Some (decode_object decode_number v)) as [mi Ei].
  { pose proof (proj1 (decode_total _ _) (ex_intro _ m E)) as H. rewrite List.Forall_forall in H. apply obj_get_In in G. exact (H _ G). }
  rewrite Ei. destruct v; try easy; [injection Ei as <-; by exists [], ∅|]. by exists o0, mi.
Qed.

Lemma override_decoded o m u t r i mi : decode_map (decode_object decode_number) o = Some m ->
  decode_map decode_number i = Some mi -> isFinite r = true ->
  decode_map (decode_object decode_number) (override_put u t r i o) = Some (<[u := <[t := r]> mi]> m).
Proof. intros Ho Hi Hr. apply decode_set; [easy|]. cbn [decode_object]. apply decode_set; [easy|]. cbn. by rewrite Hr. Qed.

Lemma charge_changed sv sv' u t r mi :
  groupGroupRatioMap sv' = <[u := <[t := r]> mi]> (groupGroupRatioMap sv) -> groupRatioMap sv' = groupRatioMap sv ->
  mi = default ∅ (groupGroupRatioMap sv !! u) ->
  forall u' g, GetUserGroupRatio u' g sv' = if (u' =s u) && (g =s t) then r else GetUserGroupRatio u' g sv.
Proof.
  intros E1 E2 -> u' g. unfold GetUserGroupRatio, GetGroupGroupRatio, GetGroupRatio. rewrite E1, E2.
  destruct (seqb_spec u' u) as [->|N]; [rewrite lookup_insert_eq|by rewrite lookup_insert_ne]. cbn [mbind option_bind andb].
  destruct (seqb_spec g t) as [->|N]; [by rewrite lookup_insert_eq|]. rewrite lookup_insert_ne by easy.
  by destruct (groupGroupRatioMap sv !! u).
Qed.

(** C12: An override of a ratio that is typed in its dialog and saved is what the server then
    charges that group of users for that group, and no other charge changes. *)
Theorem override_charged (c : Card) (o : table) (sv : Server) (u t text t' : jstr) (r : number) (edited : bool) :
  groupNormalizedDefaults c = normalized (groupForm c) ->
  parse_map (GroupGroupRatio (groupForm c)) = Some o -> GroupGroupRatio (groupForm c) = print_map o -> wf_obj o ->
  decode_map (decode_object decode_number) o = Some (groupGroupRatioMap sv) ->
  override_save t text = Some (t', r) -> num_okb r = true -> name_ok t' = true -> name_ok u = true -> inherited u = false ->
  exists d' c' sv', handleOverrideSave u t' r (if edited then Some t' else None) (groupForm c) = Some d'
    /\ saveGroupRatios go_send d' c sv = (c', sv', true) /\ groupForm c' = d'
    /\ forall u' g, GetUserGroupRatio u' g sv' = if (u' =s u) && (g =s t') then r else GetUserGroupRatio u' g sv.
Proof.
  intros Hc Hp Ht Wo Hd _ Hr (_ & _ & Pt & Wt)%name_ok_parts (_ & Nu & _ & Wu)%name_ok_parts Hu.
  destruct (inner_decoded o _ u Hd Hu) as (i & mi & Ei & Emi & Emu).
  destruct (inner_wf o u i Wo Ei) as [Wi _]. set (o' := override_put u t' r i o).
  pose proof (override_put_wf u t' r i o Wo Wi Wu Wt (num_okb_ok _ Hr)) as Wo'. fold o' in Wo'.
  set (d' := onChange FGroupGroup (print_map o') (groupForm c)).
  pose proof (override_decoded o _ u t' r i mi Hd Emi (proj1 (num_okb_ok _ Hr))) as Hd'. fold o' in Hd'.
  assert (others_kept [FGroupGroup] (groupForm c) d') as K by (apply others_onChange; [by left|apply others_refl]).
  assert (normalizeJsonString (text_of FGroupGroup d') = stringify (JObj o')) as E1 by (apply (normalize_printed o' Wo')).
  assert (normalizeJsonString (text_of FGroupGroup (groupForm c)) = stringify (JObj o)) as E2
    by (cbn [text_of]; rewrite Ht; by apply normalize_printed).
  exists d'. unfold saveGroupRatios. rewrite (one_field_sent FGroupGroup (groupForm c) d' c Hc K), E1, E2.
  destruct (bool_decide _) eqn:E; cbn [send_all].
  - apply bool_decide_eq_true in E. eexists _, sv. split; [by apply override_text|]. split; [reflexivity|]. split; [easy|].
    apply (charge_changed sv sv u t' r mi); [|easy|easy]. assert (Some (JObj o') = Some (JObj o)) as [= Eo]
      by (rewrite <- !json_parse_stringify by (by apply wf_json_obj); by rewrite E).
    rewrite Eo, Hd in Hd'. by injection Hd'.
  - unfold go_send. change (field_named (apiKey (Some FGroupGroup))) with (Some FGroupGroup).
    change (value_of (Some FGroupGroup) (normalized d')) with (inl (A := jstr) (B := bool) (normalizeJsonString (text_of FGroupGroup d'))).
    rewrite E1. destruct sv as [a b e g h x y]. cbn [apply_option]. rewrite json_parse_stringify by (by apply wf_json_obj).
    cbn [decode_object]. rewrite Hd'. cbn [option_map]. eexists _, _. split; [by apply override_text|].
    split; [reflexivity|]. split; [easy|]. by apply (charge_changed _ _ u t' r mi).
Qed.

Definition sample_charges : Server :=
  {| groupRatioMap := <["default"%js := of_Z 1]> (<["vip"%js := parseFloat "0.5"]> ∅); topupGroupRatio := ∅;
     groupGroupRatioMap := <["vip"%js := <["default"%js := parseFloat "0.9"]> ∅]> ∅; userUsableGroups := ∅; autoGroups := [];
     groupSpecialUsableGroup := ∅; subscriptionGroupPolicies := ∅ |}.

Lemma override_charged_witness :
  exists d' c' sv', handleOverrideSave "vip" "pro" (parseFloat "0.75") None (groupForm (mount sample_form)) = Some d'
    /\ saveGroupRatios go_send d' (mount sample_form) sample_charges = (c', sv', true)
    /\ map (fun ug => GetUserGroupRatio (fst ug) (snd ug) sv') [("vip", "pro"); ("vip", "default"); ("default", "vip")]%js
       = [parseFloat "0.75"; parseFloat "0.9"; parseFloat "0.5"].
Proof.
  assert (wf_obj sample_overrides) as W.
  { apply wf_json_obj. cbn. repeat split; try (apply str_ok_wf; reflexivity); apply num_okb_ok; vm_compute; reflexivity. }
  destruct (override_charged (mount sample_form) sample_overrides sample_charges "vip" " pro " "0.75" "pro" (parseFloat "0.75") false)
    as (d' & c' & sv' & E & S & _ & H);
    [vm_compute; reflexivity|vm_compute; reflexivity|vm_compute; reflexivity|exact W|vm_compute; reflexivity..|].
  exists d', c', sv'. split; [exact E|]. split; [exact S|]. cbn [map fst snd]. rewrite !H. vm_compute. reflexivity.
Defined.

(** ** Corners *)

(** A first save that is refused at its second key leaves the first key with the server.  When
    that change is then taken back in the form and the rest corrected, the second save sends
    only the rest: it succeeds with the old ratios in the form, and the server keeps the new. *)
Definition refuses_lists (k : jstr) (v : value) : bool := negb ((k =s "GroupGroupRatio") && bool_decide (v = inl "[]"%js)).
Definition first_try : GroupForm := onChange FGroupGroup "[]" (onChange FGroupRatio "{}" (formatted sample_form)).
Definition second_try : GroupForm := onChange FGroupGroup "{}" (formatted sample_form).
Definition reported (k : jstr) : value :=
  match List.find (fun x => apiKey x =s k) form_keys with
  | Some x => value_of x (normalized sample_form)
  | None => inr false
  end.

Lemma reverted_change_stays :
  let '(c1, s1, ok1) := saveGroupRatios (store refuses_lists) first_try (mount sample_form) reported in
  let '(c2, s2, ok2) := saveGroupRatios (store refuses_lists) second_try c1 s1 in
  ok1 = false /\ ok2 = true /\ s2 "GroupRatio"%js = inl "{}"%js
  /\ GroupRatio (groupForm c2) = GroupRatio (formatted sample_form) /\ GroupRatio (formatted sample_form) <> "{}"%js.
Proof. vm_compute. repeat split. discriminate. Qed.

(** The schema takes an empty text; the server takes none for any of the settings. *)
Lemma empty_text_refused sv f :
  groupSchema (map_texts (fun _ => []) sample_form) = true /\ apply_option f [] sv = None.
Proof. split; [reflexivity|]. by destruct sv. Qed.

(** A negative override passes: the dialog, the schema and the server only refuse one of the
    ratios themselves. *)
Lemma negative_override_taken sv :
  override_save "pro" "-2" = Some ("pro"%js, parseFloat "-2")
  /\ apply_option FGroupRatio (stringify (JObj [("pro"%js, JNum (parseFloat "-2"))])) sv = None
  /\ exists sv', apply_option FGroupGroup (stringify (JObj [("vip"%js, JObj [("pro"%js, JNum (parseFloat "-2"))])])) sv = Some sv'
     /\ GetUserGroupRatio "vip" "pro" sv' = parseFloat "-2".
Proof.
  destruct sv as [a b e g h x y]. split; [reflexivity|]. split; [vm_compute; reflexivity|].
  eexists. split; [vm_compute; reflexivity|]. vm_compute. reflexivity.
Qed.
