(* ===== verification/PaymentSettings.v ===== *)
(** * The settings of payments

    [features/system-settings/integrations/payment-settings-section.tsx], with the texts of
    [utils.ts]: one form of thirty-four fields in six sections, each with a button that saves
    it, and a button that saves the whole.  What is sent of a section, what is kept as sent,
    and what happens to the other fields while a save is under way and when the settings are
    read again.

    The form library's mark of a changed form is an argument, with its promise: a form with a
    field that differs from its default is marked.  [toLowerCase] is an argument.  The
    schema is modelled as the set of values it accepts for the fields it can refuse; the
    dialog of the compliance terms and the markup are not modelled. *)

From S2P Require Import Prelude Number Json SettingsForm.
From stdpp Require Import options.

(** ** Texts *)

(** [trimmed.replace(/\/+$/, '')], as [strip_slashes]. *)
Definition removeTrailingSlash (value : jstr) : jstr :=
  let trimmed := trim value in if truthy trimmed then strip_slashes trimmed else [].

Definition formatJsonForEditor (value : jstr) : jstr :=
  let trimmed := trim value in
  if truthy trimmed then match json_parse trimmed with Some v => stringify_indent 2 [] v | None => trimmed end else [].

Definition normalizeJsonForComparison (value : jstr) : jstr :=
  let trimmed := trim value in
  if truthy trimmed then match json_parse trimmed with Some v => stringify v | None => trimmed end else [].

(** [getJsonError(value, predicate)] is an error. *)
Definition getJsonError (predicate : json -> bool) (value : jstr) : bool :=
  let trimmed := trim value in
  if truthy trimmed then match json_parse trimmed with Some v => negb (predicate v) | None => true end else false.

(** ** Fields *)

Inductive PField :=
| PayAddress | EpayId | EpayKey | Price | MinTopUp | CustomCallbackAddress | PayMethods | AmountOptions | AmountDiscount
| StripeApiSecret | StripeWebhookSecret | StripePriceId | StripeCNYUnitPrice | StripeHKDUnitPrice | StripeUSDUnitPrice
| StripeUnitPrice | StripeMinTopUp | StripePromotionCodesEnabled
| CreemApiKey | CreemWebhookSecret | CreemTestMode | CreemProducts
| XunhuEnabled | XunhuAppID | XunhuSecret | XunhuGateway | XunhuMinTopUp
| NowPaymentsEnabled | NowPaymentsApiKey | NowPaymentsIPNSecret | NowPaymentsPaymentCurrency | NowPaymentsPayCurrency
| NowPaymentsQuotaPerUSDT | NowPaymentsMinTopUp.

#[export] Instance PField_eq_dec : EqDecision PField.
Proof. solve_decision. Defined.

Inductive pvalue := VText (s : jstr) | VNum (n : number) | VBool (b : bool).

Abbreviation Values := (PField -> pvalue).

(** The key of a field's option. *)
Definition option_key (f : PField) : jstr :=
  match f with
  | PayAddress => "PayAddress" | EpayId => "EpayId" | EpayKey => "EpayKey" | Price => "Price" | MinTopUp => "MinTopUp"
  | CustomCallbackAddress => "CustomCallbackAddress" | PayMethods => "PayMethods"
  | AmountOptions => "payment_setting.amount_options" | AmountDiscount => "payment_setting.amount_discount"
  | StripeApiSecret => "StripeApiSecret" | StripeWebhookSecret => "StripeWebhookSecret" | StripePriceId => "StripePriceId"
  | StripeCNYUnitPrice => "StripeCNYUnitPrice" | StripeHKDUnitPrice => "StripeHKDUnitPrice"
  | StripeUSDUnitPrice => "StripeUSDUnitPrice" | StripeUnitPrice => "StripeUnitPrice" | StripeMinTopUp => "StripeMinTopUp"
  | StripePromotionCodesEnabled => "StripePromotionCodesEnabled"
  | CreemApiKey => "CreemApiKey" | CreemWebhookSecret => "CreemWebhookSecret" | CreemTestMode => "CreemTestMode"
  | CreemProducts => "CreemProducts"
  | XunhuEnabled => "XunhuEnabled" | XunhuAppID => "XunhuAppID" | XunhuSecret => "XunhuSecret"
  | XunhuGateway => "XunhuGateway" | XunhuMinTopUp => "XunhuMinTopUp"
  | NowPaymentsEnabled => "NowPaymentsEnabled" | NowPaymentsApiKey => "NowPaymentsApiKey"
  | NowPaymentsIPNSecret => "NowPaymentsIPNSecret" | NowPaymentsPaymentCurrency => "NowPaymentsPaymentCurrency"
  | NowPaymentsPayCurrency => "NowPaymentsPayCurrency" | NowPaymentsQuotaPerUSDT => "NowPaymentsQuotaPerUSDT"
  | NowPaymentsMinTopUp => "NowPaymentsMinTopUp"
  end.

(** Secrets are sent when they are typed, never to be emptied. *)
Definition is_secret (f : PField) : bool :=
  match f with
  | EpayKey | StripeApiSecret | StripeWebhookSecret | CreemApiKey | CreemWebhookSecret | XunhuSecret
  | NowPaymentsApiKey | NowPaymentsIPNSecret => true
  | _ => false
  end.

Definition is_json (f : PField) : bool :=
  match f with PayMethods | AmountOptions | AmountDiscount | CreemProducts => true | _ => false end.

Inductive Section_ := General | Epay | Stripe | Creem | Xunhu | NowPayments | All.

(** The fields of each save, in the order of its updates. *)
Definition general_fields : list PField := [Price; MinTopUp; PayMethods; AmountOptions; AmountDiscount].
Definition epay_fields : list PField := [PayAddress; EpayId; EpayKey; CustomCallbackAddress].
Definition stripe_fields : list PField :=
  [StripeApiSecret; StripeWebhookSecret; StripePriceId; StripeCNYUnitPrice; StripeHKDUnitPrice; StripeUSDUnitPrice;
   StripeUnitPrice; StripeMinTopUp; StripePromotionCodesEnabled].
Definition xunhu_fields : list PField := [XunhuEnabled; XunhuAppID; XunhuSecret; XunhuGateway; XunhuMinTopUp].
Definition nowpayments_fields : list PField :=
  [NowPaymentsEnabled; NowPaymentsApiKey; NowPaymentsIPNSecret; NowPaymentsPaymentCurrency; NowPaymentsPayCurrency;
   NowPaymentsQuotaPerUSDT; NowPaymentsMinTopUp].
Definition creem_fields : list PField := [CreemApiKey; CreemWebhookSecret; CreemTestMode; CreemProducts].

Definition fields_of (s : Section_) : list PField :=
  match s with
  | General => general_fields
  | Epay => epay_fields
  | Stripe => stripe_fields
  | Creem => creem_fields
  | Xunhu => xunhu_fields
  | NowPayments => nowpayments_fields
  | All => nowpayments_fields
           ++ [PayAddress; EpayId; EpayKey; Price; MinTopUp; CustomCallbackAddress; PayMethods; AmountOptions; AmountDiscount]
           ++ stripe_fields ++ xunhu_fields
  end.

(** Whether a save without updates ends before it keeps anything as sent. *)
Definition returns_early (s : Section_) : bool :=
  match s with General | Epay | Stripe | Creem => true | _ => false end.

(** [===] *)
Definition pvalue_eq (a b : pvalue) : bool :=
  match a, b with
  | VText x, VText y => x =s y
  | VNum x, VNum y => (x =? y)%num
  | VBool x, VBool y => Bool.eqb x y
  | _, _ => false
  end.

Definition truthy_text (v : pvalue) : bool := match v with VText s => truthy s | _ => true end.

Section Page.
Context (toLowerCase : jstr -> jstr).

Definition sanitize (f : PField) (v : pvalue) : pvalue :=
  match v with
  | VText s =>
    VText (match f with
           | PayAddress | CustomCallbackAddress | XunhuGateway => removeTrailingSlash s
           | NowPaymentsPaymentCurrency | NowPaymentsPayCurrency => toLowerCase (trim s)
           | _ => trim s
           end)
  | v => v
  end.

(** The texts of objects and lists are compared by what they say. *)
Definition same (f : PField) (a b : pvalue) : bool :=
  match a, b with
  | VText x, VText y =>
    if is_json f then normalizeJsonForComparison x =s normalizeJsonForComparison y else x =s y
  | _, _ => pvalue_eq a b
  end.

Definition changed (values initial : Values) (f : PField) : bool :=
  let sanitized := sanitize f (values f) in
  negb (same f sanitized (sanitize f (initial f))) && (negb (is_secret f) || truthy_text sanitized).

Definition updates (s : Section_) (values initial : Values) : list (PField * pvalue) :=
  map (fun f => (f, sanitize f (values f))) (List.filter (changed values initial) (fields_of s)).

(** ** The page *)

Record Page := {
  initial : Values;                (** [initialRef] *)
  defaults : Values;               (** the form library's default values *)
  form : Values;
  saving : option (Section_ * Values);  (** the save that is under way, with the values it read *)
}.

(** [{ ...parsedDefaults, PayMethods: formatJsonForEditor(...), ... }] *)
Definition shown_defaults (d : Values) : Values :=
  fun f => match d f with VText s => VText (if is_json f then formatJsonForEditor s else s) | v => v end.

Definition mount (d : Values) : Page :=
  {| initial := d; defaults := shown_defaults d; form := shown_defaults d; saving := None |}.

Context (isDirty : Page -> bool).

(** The effect, with the settings that the server reports. *)
Definition follow (d : Values) (p : Page) : Page :=
  match saving p with
  | Some _ => p
  | None => if isDirty p then p else mount d
  end.

Definition set_field (f : PField) (v : pvalue) (p : Page) : Page :=
  {| initial := initial p; defaults := defaults p; form := fun g => if decide (g = f) then v else form p g; saving := saving p |}.

Definition with_saving (s : option (Section_ * Values)) (p : Page) : Page :=
  {| initial := initial p; defaults := defaults p; form := form p; saving := s |}.

Definition in_section (s : Section_) (f : PField) : bool := bool_decide (f ∈ fields_of s).

(** What a save that was taken leaves: [initialRef] and [form.resetField]. *)
Definition kept (s : Section_) (values : Values) (p : Page) : Page :=
  if returns_early s && match updates s values (initial p) with [] => true | _ => false end
  then with_saving None p
  else {| initial := fun f => if in_section s f then sanitize f (values f) else initial p f;
          defaults := fun f => if in_section s f then values f else defaults p f;
          form := fun f => if in_section s f then values f else form p f;
          saving := None |}.

(** [await updateOption.mutateAsync(update)], one after the other. *)
Fixpoint send_all {S} (send : jstr -> pvalue -> S -> S * bool) (us : list (PField * pvalue)) (server : S) : S * bool :=
  match us with
  | [] => (server, true)
  | (f, v) :: us => let '(server, ok) := send (option_key f) v server in
                    if ok then send_all send us server else (server, false)
  end.

(** The answer to the last request of a save, or to the one that is refused. *)
Definition save_ended {S} (send : jstr -> pvalue -> S -> S * bool) (p : Page) (server : S) : Page * S * bool :=
  match saving p with
  | None => (p, server, true)
  | Some (s, values) =>
    let '(server, ok) := send_all send (updates s values (initial p)) server in
    (if ok then kept s values p else with_saving None p, server, ok)
  end.

(** What the schema refuses, of the values that are refused at all: the button of the whole
    form goes through it, those of the sections do not. *)
Definition is_array (v : json) : bool := match v with JArr _ => true | _ => false end.
Definition http_url (s : jstr) : bool :=
  let trimmed := trim s in negb (truthy trimmed) || startsWith trimmed "http://" || startsWith trimmed "https://".

Definition schema (v : Values) : bool :=
  let text f (c : jstr -> bool) := match v f with VText s => c s | _ => false end in
  let num f (c : number -> bool) := match v f with VNum n => isFinite n && c n | _ => false end in
  text PayAddress http_url && text CustomCallbackAddress http_url
  && text PayMethods (fun s => negb (getJsonError (fun _ => true) s))
  && text AmountOptions (fun s => negb (getJsonError is_array s))
  && text AmountDiscount (fun s => negb (getJsonError isPlainObject s))
  && text CreemProducts (fun s => negb (getJsonError is_array s))
  && num Price (fun n => zero <=? n)%num && num MinTopUp (fun n => zero <=? n)%num
  && num StripeCNYUnitPrice (fun n => zero <? n)%num && num StripeHKDUnitPrice (fun n => zero <? n)%num
  && num StripeUSDUnitPrice (fun n => zero <? n)%num && num StripeUnitPrice (fun n => zero <=? n)%num
  && num StripeMinTopUp (fun n => isSafeInteger n && (of_Z 5 <=? n)%num)
  && num XunhuMinTopUp (fun n => zero <=? n)%num
  && text NowPaymentsPaymentCurrency (fun s => toLowerCase (trim s) =s "usdt")
  && text NowPaymentsPayCurrency truthy
  && num NowPaymentsQuotaPerUSDT (fun n => zero <? n)%num
  && num NowPaymentsMinTopUp (fun n => isSafeInteger n && (of_Z 1 <=? n)%num).

(** A button: disabled while a save is under way. *)
Definition press (s : Section_) (p : Page) : option Page :=
  match saving p with
  | Some _ => None
  | None => match s with
            | All => if schema (form p) then Some (with_saving (Some (All, form p)) p) else Some p
            | _ => Some (with_saving (Some (s, form p)) p)
            end
  end.

Inductive Event :=
| EEdit (f : PField) (v : pvalue)
| EPress (s : Section_)
| EEnded                        (** the save has ended *)
| EReported (d : Values).       (** the effect runs, with the settings read last *)

Definition step {S} (send : jstr -> pvalue -> S -> S * bool) (w : Page * S) (e : Event) : option (Page * S) :=
  let '(p, server) := w in
  match e with
  | EEdit f v => Some (set_field f v p, server)
  | EPress s => option_map (fun p => (p, server)) (press s p)
  | EEnded => match saving p with
              | Some _ => let '(p, server, _) := save_ended send p server in Some (p, server)
              | None => None
              end
  | EReported d => Some (follow d p, server)
  end.

Fixpoint steps {S} (send : jstr -> pvalue -> S -> S * bool) (w : Page * S) (es : list Event) : option (Page * S) :=
  match es with
  | [] => Some w
  | e :: es => match step send w e with Some w' => steps send w' es | None => None end
  end.

End Page.

(** A store of options that takes some of them. *)
Definition store (accept : jstr -> pvalue -> bool) (k : jstr) (v : pvalue) (options : jstr -> pvalue)
  : (jstr -> pvalue) * bool :=
  if accept k v then (fun x => if x =s k then v else options x, true) else (options, false).

(** * What a save does *)

Lemma payment_key_inj f g : option_key f = option_key g -> f = g.
Proof. destruct f, g; easy. Qed.

Lemma in_section_iff s f : in_section s f = true <-> f ∈ fields_of s.
Proof. apply bool_decide_eq_true. Qed.

Lemma section_fields_NoDup s : NoDup (fields_of s).
Proof. apply (bool_decide_unpack _). by destruct s. Qed.

Lemma send_frame accept us : forall options,
  forall x, ~ In x (map (fun u => option_key (fst u)) us) -> fst (send_all (store accept) us options) x = options x.
Proof.
  induction us as [|[f v] us IH]; intros options x Hx; [easy|]. cbn [send_all]. unfold store at 1. cbn in Hx.
  destruct (accept (option_key f) v); [|easy]. rewrite IH by tauto. destruct (seqb_spec x (option_key f)) as [->|]; [tauto|easy].
Qed.

Lemma send_stores accept us : NoDup (map fst us) -> forall options, snd (send_all (store accept) us options) = true ->
  forall f v, In (f, v) us -> fst (send_all (store accept) us options) (option_key f) = v.
Proof.
  induction us as [|[g x] us IH]; intros Hd options Hs f v Hin; [easy|]. inversion Hd as [|? ? Hg Hd']; subst. cbn [send_all] in *.
  unfold store at 1. unfold store at 1 in Hs. destruct (accept (option_key g) x); [|easy]. destruct Hin as [[= -> ->]|Hin]; [|by apply IH].
  rewrite send_frame; [by rewrite seqb_refl|]. intros ((h & w) & E & Hw)%in_map_iff. apply payment_key_inj in E. cbn in E. subst h.
  apply Hg. apply list_elem_of_In. by apply (in_map fst) in Hw.
Qed.

Section Saving.
Context (toLowerCase : jstr -> jstr).

Lemma payment_updates_In s values initial f v : In (f, v) (updates toLowerCase s values initial)
  <-> f ∈ fields_of s /\ changed toLowerCase values initial f = true /\ v = sanitize toLowerCase f (values f).
Proof.
  unfold updates. rewrite in_map_iff. split.
  - intros (g & [= -> <-] & [Hg Hc]%filter_In). by rewrite list_elem_of_In.
  - intros (Hf & Hc & ->). exists f. split; [easy|]. apply filter_In. by rewrite <- list_elem_of_In.
Qed.

Lemma updates_NoDup s values initial : NoDup (map fst (updates toLowerCase s values initial)).
Proof.
  unfold updates. rewrite map_map, map_id. apply NoDup_ListNoDup, List.NoDup_filter, NoDup_ListNoDup, section_fields_NoDup.
Qed.

(** A save that is taken writes the options of its section that changed, and no other; the
    fields of the other sections are not touched, nor is what they were compared with. *)
Lemma section_saved accept p options s values : saving p = Some (s, values) ->
  let '(p', options', ok) := save_ended toLowerCase (store accept) p options in
  (forall f, f ∉ fields_of s \/ changed toLowerCase values (initial p) f = false ->
     options' (option_key f) = options (option_key f))
  /\ (forall f, f ∉ fields_of s -> form p' f = form p f /\ initial p' f = initial p f /\ defaults p' f = defaults p f)
  /\ (ok = true -> forall f, f ∈ fields_of s -> changed toLowerCase values (initial p) f = true ->
        options' (option_key f) = sanitize toLowerCase f (values f)).
Proof.
  intros Hs. unfold save_ended. rewrite Hs. set (us := updates toLowerCase s values (initial p)).
  pose proof (send_frame accept us options) as Hfr. pose proof (send_stores accept us (updates_NoDup _ _ _) options) as Hst.
  destruct (send_all (store accept) us options) as [options' ok]. cbn [fst snd] in *. split; [|split].
  - intros f Hf. apply Hfr. intros ((g & v) & E & Hin)%in_map_iff. apply payment_key_inj in E. cbn in E. subst g.
    apply payment_updates_In in Hin as (A & B & _). destruct Hf; [done|congruence].
  - intros f Hf. assert (in_section s f = false) as Hi by (apply not_true_iff_false; by rewrite in_section_iff).
    destruct ok; [|easy]. unfold kept. destruct (_ && _); [easy|]. cbn. by rewrite Hi.
  - intros -> f Hf Hc. apply Hst; [easy|]. by apply payment_updates_In.
Qed.

Context (isDirty : Page -> bool).
Hypothesis dirty_marked : forall p f, form p f <> defaults p f -> isDirty p = true.

(** An event that is not about a field: another is edited, another section is saved. *)
Definition spares (f : PField) (e : Event) : Prop :=
  match e with EEdit g _ => g <> f | EPress s => f ∉ fields_of s | _ => True end.

Definition idle_for (f : PField) (p : Page) : Prop :=
  match saving p with Some (s, _) => f ∉ fields_of s | None => True end.

Definition unsaved (f : PField) (v : pvalue) (p : Page) : Prop := form p f = v /\ v <> defaults p f /\ idle_for f p.

Lemma step_spares accept f v e p options p' options' : unsaved f v p -> spares f e ->
  step toLowerCase isDirty (store accept) (p, options) e = Some (p', options') ->
  unsaved f v p' /\ options' (option_key f) = options (option_key f).
Proof using dirty_marked.
  intros (Hf & Hd & Hi) Hs H. unfold idle_for in Hi. destruct e as [g x|s| |d]; cbn [step] in H; cbn [spares] in Hs.
  - injection H as <- <-. split; [|easy]. unfold unsaved, idle_for. cbn. by destruct (decide (f = g)) as [->|].
  - unfold press in H. destruct (saving p) as [[]|] eqn:E; [easy|].
    destruct s; try (injection H as <- <-; by repeat split).
    destruct (schema _ _) in H; injection H as <- <-; repeat split; try easy. unfold idle_for. by rewrite E.
  - destruct (saving p) as [[s values]|] eqn:E; [|easy]. pose proof (section_saved accept p options s values E) as S.
    assert (saving (fst (fst (save_ended toLowerCase (store accept) p options))) = None) as Hn.
    { unfold save_ended. rewrite E. destruct (send_all _ _ _) as [? []]; [|easy]. cbn. unfold kept. by destruct (_ && _). }
    destruct (save_ended _ _ p options) as [[p2 o2] ok]. injection H as <- <-. destruct S as (A & B & _).
    destruct (B f Hi) as (B1 & _ & B3). split; [|apply A; by left]. unfold unsaved, idle_for. cbn in Hn. by rewrite B1, B3, Hn.
  - injection H as <- <-. split; [|easy]. unfold follow. destruct (saving p) as [[s values]|] eqn:E.
    + unfold unsaved, idle_for. by rewrite E.
    + rewrite (dirty_marked p f) by congruence. unfold unsaved, idle_for. by rewrite E.
Qed.

(** What was typed in one section and not saved stays in its field, and is not sent,
    whatever is saved of the other sections, whatever of it the server refuses, and whenever
    the settings are read again. *)
Theorem edits_survive accept f v es p options p' options' :
  form p f = v -> v <> defaults p f -> idle_for f p -> Forall (spares f) es ->
  steps toLowerCase isDirty (store accept) (p, options) es = Some (p', options') ->
  form p' f = v /\ v <> defaults p' f /\ options' (option_key f) = options (option_key f).
Proof using dirty_marked.
  intros Hf Hd Hi. assert (unsaved f v p) as U by easy. clear Hf Hd Hi.
  revert p options U. induction es as [|e es IH]; intros p options U Hs H; cbn [steps] in H.
  - injection H as <- <-. by destruct U as (? & ? & _).
  - inversion Hs; subst. destruct (step _ _ _ _ _) as [[p1 o1]|] eqn:E; [|easy].
    destruct (step_spares accept f v e p options p1 o1) as [U1 E1]; [easy..|].
    destruct (IH p1 o1 U1) as (A & B & C); [easy..|]. split; [easy|]. split; [easy|]. congruence.
Qed.

(** The button of the whole form spares the section of Creem: what is typed there is neither
    sent nor kept as sent. *)
Lemma all_spares_creem f : f ∈ fields_of Creem -> spares f (EPress All).
Proof. intros H. cbn [spares]. apply (bool_decide_unpack _). destruct f; try reflexivity; exfalso; revert H; apply (bool_decide_unpack _); reflexivity. Qed.

(** What is typed in a section while it is being saved is discarded when it has been. *)
Lemma typed_while_saving p s f v : saving p = Some (s, form p) -> f ∈ fields_of s ->
  updates toLowerCase s (form p) (initial p) <> [] ->
  form (fst (fst (save_ended toLowerCase (store (fun _ _ => true)) (set_field f v p) (fun _ => VBool true)))) f = form p f.
Proof.
  intros Hs Hf Hu. unfold save_ended. cbn [set_field saving initial]. rewrite Hs.
  assert (forall us o, snd (send_all (store (fun _ _ => true)) us o) = true) as Hok.
  { induction us as [|[g x] us IH]; intros o; [easy|]. cbn. apply IH. }
  specialize (Hok (updates toLowerCase s (form p) (initial p)) (fun _ => VBool true)).
  destruct (send_all _ _ _) as [o ok]. cbn in Hok. subst ok. cbn [fst]. unfold kept. cbn [initial set_field].
  destruct (updates _ _ _ _); [easy|]. rewrite andb_false_r. cbn. by rewrite (proj2 (in_section_iff s f) Hf).
Qed.

(** The button of a section does not ask the schema: an emptied price is sent as NaN, that is
    as [null], and is sent again by every later save. *)
Lemma unchecked_price values initial : values Price = VNum NaN -> In (Price, VNum NaN) (updates toLowerCase General values initial).
Proof.
  intros H. apply payment_updates_In. split; [by left|]. unfold changed. rewrite H. cbn [sanitize is_secret negb orb andb].
  split; [|easy]. by destruct (initial Price).
Qed.

End Saving.

(** The keys of Epay are typed, the prices are saved and refused in part, and the settings are
    read again: the key is still there and was not sent. *)
Lemma edits_survive_witness :
  let shown : Values := fun f => match f with Price => VNum (of_Z 7) | _ => VText [] end in
  let accept k (_ : pvalue) := negb (k =s "PayMethods") in
  let edited := set_field EpayKey (VText "secret") (mount shown) in
  exists p' options',
    steps (fun s => s) (fun _ => true) (store accept) (edited, fun _ => VText [])
      [EEdit Price (VNum (of_Z 8)); EEdit PayMethods (VText "[]"); EPress General; EReported shown; EEnded; EReported shown]
      = Some (p', options')
    /\ pvalue_eq (options' "Price") (VNum (of_Z 8)) = true
    /\ form p' EpayKey = VText "secret" /\ VText "secret" <> defaults p' EpayKey /\ options' "EpayKey" = VText [].
Proof.
  cbv zeta. match goal with |- context [steps ?a ?b ?c ?w ?es] => set (w0 := w); set (l := es); set (r := steps a b c w0 l) end.
  assert (match r with Some (_, o) => pvalue_eq (o "Price") (VNum (of_Z 8)) | None => false end = true) as C
    by (vm_compute; reflexivity).
  destruct r as [[p' o']|] eqn:E; [|discriminate C]. exists p', o'. split; [easy|]. split; [exact C|].
  unshelve eapply (edits_survive (fun s => s) (fun _ => true) _ _ EpayKey _ l _ _ p' o' _ _ _ _ E); try easy.
  unfold l. repeat constructor; cbn [spares]; try easy; apply (bool_decide_unpack _); reflexivity.
Defined.
