(* ===== verification/PaymentLists.v ===== *)
(** * The lists of the payment settings

    The visual editors of four of the texts of [PaymentSettings], in
    [features/system-settings/integrations]: the amounts offered
    ([amount-options-visual-editor.tsx]), the discounts by amount
    ([amount-discount-visual-editor.tsx] with its dialog), the products of Creem and the
    payment methods ([creem-products-visual-editor.tsx],
    [payment-methods-visual-editor.tsx] with their dialogs).  Each reads the text of its
    field whenever it is rendered and gives the new text to [onChange].

    Number inputs hold the number their text stands for.  The searches, the markup and the
    messages are not modelled. *)

From stdpp Require Import gmap.
From S2P Require Import Prelude Number Rounding Json IntText PricingTable.
From stdpp Require Import options.

(** ** Reading a text *)

Definition isArray (data : json) : bool := match data with JArr _ => true | _ => false end.
Definition isObjectRecord (data : json) : bool := match data with JObj _ => true | _ => false end.

Definition safeJsonParseWithValidation (value : jstr) (fallback : json) (validator : json -> bool) : json :=
  let parsed := safeJsonParse value fallback in if validator parsed then parsed else fallback.

Definition read_array (value : jstr) : list json :=
  match safeJsonParseWithValidation value (JArr []) isArray with JArr l => l | _ => [] end.

Definition read_object (value : jstr) : table :=
  match safeJsonParseWithValidation value (JObj []) isObjectRecord with JObj o => o | _ => [] end.

Definition print_array (l : list json) : jstr := stringify_indent 2 [] (JArr l).

(** [sort((a, b) => a - b)]: a difference that is not a number counts as zero. *)
Definition by_difference (a b : number) : bool := let d := nsub a b in isNaN d || (d <=? zero)%num.

(** * The amounts offered *)

Section AmountOptions.

Definition is_amount (item : json) : bool :=
  match item with JNum _ => true | _ => negb (isNaN (js_Number item)) end.

Definition amounts (value : jstr) : list number :=
  stable_sort by_difference (map js_Number (List.filter is_amount (read_array value))).

(** [filter((v, i, a) => a.indexOf(v) === i)] *)
Fixpoint dedupe (seen l : list number) : list number :=
  match l with
  | [] => []
  | x :: l => let rest := dedupe (x :: seen) l in
              if isNaN x || existsb (fun y => (y =? x)%num) seen then rest else x :: rest
  end.

Definition handleAddAmount (newAmount value : jstr) : option jstr :=
  let amount := parseFloat newAmount in
  if isNaN amount || (amount <=? zero)%num then None
  else Some (print_array (map JNum (stable_sort by_difference (dedupe [] (amounts value ++ [amount]))))).

Definition handleRemoveAmount (amount : number) (value : jstr) : jstr :=
  print_array (map JNum (List.filter (fun a => negb (a =? amount)%num) (amounts value))).

End AmountOptions.

(** * Discounts by amount *)

Record Tier := { t_amount : number; t_rate : number }.

Definition rate_of (rate : json) : number := match rate with JNum n => n | _ => parseFloat (js_String rate) end.

Definition tier_le (a b : Tier) : bool := by_difference (t_amount a) (t_amount b).

Definition tier_of (kv : jstr * json) : Tier := {| t_amount := parseInt (fst kv); t_rate := rate_of (snd kv) |}.

Definition discounts (value : jstr) : list Tier :=
  stable_sort tier_le
    (List.filter (fun t => negb (isNaN (t_amount t)) && negb (isNaN (t_rate t))) (map tier_of (read_object value))).

(** The editor with its dialog, and the text of its field. *)
Record Discounts := { d_value : jstr; d_edit : option Tier; d_open : bool; d_form : Tier }.

Definition new_discount : Tier := {| t_amount := zero; t_rate := of_Z 1 |}.

(** The effect of the dialog, after a change of [editData] or [open]. *)
Definition shown_dialog (value : jstr) (edit : option Tier) (open : bool) : Discounts :=
  {| d_value := value; d_edit := edit; d_open := open; d_form := default new_discount edit |}.

Definition handleSaveTier (data : Tier) (e : Discounts) : jstr :=
  let o := read_object (d_value e) in
  let o := match d_edit e with
           | Some t => if negb (t_amount t =? t_amount data)%num then obj_delete (num_to_string (t_amount t)) o else o
           | None => o
           end in
  print_map (obj_set (num_to_string (t_amount data)) (JNum (t_rate data)) o).

Definition handleDeleteTier (amount : number) (e : Discounts) : Discounts :=
  {| d_value := print_map (obj_delete (num_to_string amount) (read_object (d_value e)));
     d_edit := d_edit e; d_open := d_open e; d_form := d_form e |}.

Definition handleEditTier (t : Tier) (e : Discounts) : Discounts := shown_dialog (d_value e) (Some t) true.
Definition handleAddDiscount (e : Discounts) : Discounts := shown_dialog (d_value e) None true.
Definition closeTier (e : Discounts) : Discounts := shown_dialog (d_value e) (d_edit e) false.

(** The inputs of the dialog; the amount of a tier that is edited is locked. *)
Definition amount_typed (text : jstr) : number := num_or (parseInt text) zero.
Definition rate_typed (text : jstr) : number := num_or (parseFloat text) zero.

Definition typeAmount (text : jstr) (e : Discounts) : Discounts :=
  match d_edit e with
  | Some _ => e
  | None => {| d_value := d_value e; d_edit := None; d_open := d_open e;
               d_form := {| t_amount := amount_typed text; t_rate := t_rate (d_form e) |} |}
  end.

Definition typeRate (text : jstr) (e : Discounts) : Discounts :=
  {| d_value := d_value e; d_edit := d_edit e; d_open := d_open e;
     d_form := {| t_amount := t_amount (d_form e); t_rate := rate_typed text |} |}.

Definition rate_ok (r : number) : bool := isFinite r && (zero <? r)%num && (r <=? of_Z 1)%num.

Definition amountDiscountDialogSchema (t : Tier) : bool :=
  isSafeInteger (t_amount t) && (zero <? t_amount t)%num && rate_ok (t_rate t).

(** The submission: refused by the schema it leaves the dialog open. *)
Definition submitTier (e : Discounts) : Discounts :=
  if amountDiscountDialogSchema (d_form e) then shown_dialog (handleSaveTier (d_form e) e) (d_edit e) false else e.

(** What an administrator does with the editor: an amount is typed in decimal digits, the
    other buttons are those of a row that is shown. *)
Inductive DiscountOp :=
| TAdd (amount : Z) (rate : jstr)
| TEdit (amount : Z) (rate : jstr)
| TDelete (amount : Z).

Definition row_of (amount : Z) (e : Discounts) : option Tier :=
  List.find (fun t => (t_amount t =? of_Z amount)%num) (discounts (d_value e)).

Definition run_tier (op : DiscountOp) (e : Discounts) : Discounts :=
  match op with
  | TAdd a r => submitTier (typeRate r (typeAmount (digits (Z.to_N a)) (handleAddDiscount e)))
  | TEdit a r => match row_of a e with Some t => submitTier (typeRate r (handleEditTier t e)) | None => e end
  | TDelete a => match row_of a e with Some t => handleDeleteTier (t_amount t) e | None => e end
  end.

(** * The products of Creem *)

Record Product := { p_name : jstr; p_id : jstr; p_price : number; p_quota : number; p_currency : jstr }.

Definition is_text (v : option json) : bool := match v with Some (JStr _) => true | _ => false end.
Definition is_num (v : option json) : bool := match v with Some (JNum _) => true | _ => false end.

Definition known_currency (v : option json) : bool := is_str v "USD" || is_str v "EUR".

(** The items that are shown, as they are. *)
Definition is_product (item : json) : bool :=
  is_text (jget "name" item) && is_text (jget "productId" item) && is_num (jget "price" item) && is_num (jget "quota" item)
  && known_currency (jget "currency" item).

Definition products (value : jstr) : list json := List.filter is_product (read_array value).

Definition product_json (p : Product) : json :=
  JObj [("name"%js, JStr (p_name p)); ("productId"%js, JStr (p_id p)); ("price"%js, JNum (p_price p));
        ("quota"%js, JNum (p_quota p)); ("currency"%js, JStr (p_currency p))].

Definition creemProductDialogSchema (p : Product) : bool :=
  truthy (p_name p) && truthy (p_id p) && isFinite (p_price p) && (parseFloat "0.01" <=? p_price p)%num
  && isFinite (p_quota p) && (of_Z 1 <=? p_quota p)%num && ((p_currency p =s "USD") || (p_currency p =s "EUR")).

(** [updatedArray.findIndex(p)], and the element there replaced, or the data put at the end. *)
Definition replace_or_push (p : json -> bool) (data : json) (l : list json) : list json :=
  match list_find (fun x => p x = true) l with
  | Some (i, _) => <[i := data]> l
  | None => l ++ [data]
  end.

Definition same_id (id : option json) (item : json) : bool :=
  typeof_object item && match jget "productId" item with Some v => strict_eq (Some v) id | None => false end.

Definition handleSaveProduct (edit : option json) (data : json) (value : jstr) : jstr :=
  let parsed := read_array value in
  print_array (match edit with
               | Some e => replace_or_push (same_id (jget "productId" e)) data parsed
               | None => parsed ++ [data]
               end).

Definition handleDeleteProduct (product : json) (value : jstr) : jstr :=
  print_array (List.filter (fun item => negb (same_id (jget "productId" product) item)) (read_array value)).

(** * Payment methods *)

Record Method := { m_name : jstr; m_type : jstr; m_color : jstr; m_min : option jstr }.

Definition is_method (item : json) : bool :=
  is_text (jget "name" item) && is_text (jget "type" item) && is_text (jget "color" item).

Definition paymentMethods (value : jstr) : list json := List.filter is_method (read_array value).

Definition method_json (m : Method) : json :=
  JObj ([("name"%js, JStr (m_name m)); ("type"%js, JStr (m_type m)); ("color"%js, JStr (m_color m))]
        ++ match m_min m with Some s => [("min_topup"%js, JStr s)] | None => [] end).

(** [handleSubmit] of the dialog. *)
Definition submitMethod (name type color min : jstr) : option Method :=
  if truthy name && truthy type && truthy color
  then Some {| m_name := name; m_type := type; m_color := color; m_min := if truthy (trim min) then Some min else None |}
  else None.

Definition same_method (name type : option json) (item : json) : bool :=
  typeof_object item
  && match jget "name" item, jget "type" item with
     | Some n, Some t => strict_eq (Some n) name && strict_eq (Some t) type
     | _, _ => false
     end.

Definition method_like (m : json) : json -> bool := same_method (jget "name" m) (jget "type" m).

Definition handleSaveMethod (edit : option json) (data : json) (value : jstr) : jstr :=
  let parsed := read_array value in
  print_array (match edit with
               | Some e => replace_or_push (method_like e) data parsed
               | None => parsed ++ [data]
               end).

Definition handleDeleteMethod (method : json) (value : jstr) : jstr :=
  print_array (List.filter (fun item => negb (method_like method item)) (read_array value)).

Definition template (color name type : jstr) (min : option jstr) : json :=
  JObj ([("color"%js, JStr color)] ++ match min with Some s => [("min_topup"%js, JStr s)] | None => [] end
        ++ [("name"%js, JStr name); ("type"%js, JStr type)]).

Definition PAYMENT_TEMPLATES : list json :=
  [template "rgba(var(--semi-blue-5), 1)" [25903; 20184; 23453]%N "alipay" None;
   template "rgba(var(--semi-orange-5), 1)" "WeChat Pay" "wxpay" None;
   template "rgba(var(--semi-orange-5), 1)" "WeChat Pay (XunhuPay)" "xunhu" None;
   template "rgba(var(--semi-green-5), 1)" "Stripe" "stripe" None;
   template "black" [33258; 23450; 20041; 49]%N "custom1" (Some "50"%js)].

Definition handleInsertTemplate (t : json) (value : jstr) : option jstr :=
  let parsed := read_array value in
  if existsb (method_like t) parsed then None else Some (print_array (parsed ++ [t])).

(** * The discounts are a map

    After any use of the editor its text is the one of the map that the edits mean. *)

Definition amount_ok (a : Z) : Prop := (0 <= a < 10 ^ 15)%Z.
Definition key_of (a : Z) : jstr := digits (Z.to_N a).

Record means (o : table) (m : gmap Z number) : Prop := {
  m_wf : wf_obj o;
  m_get : forall a, amount_ok a -> obj_get (key_of a) o = JNum <$> m !! a;
  m_keys : forall k, In k (map fst o) -> exists a, amount_ok a /\ k = key_of a;
  m_range : forall a, is_Some (m !! a) -> amount_ok a;
}.

Definition spec_tier (op : DiscountOp) (m : gmap Z number) : gmap Z number :=
  match op with
  | TAdd a r => if (0 <? a)%Z && rate_ok (rate_typed r) then <[a := rate_typed r]> m else m
  | TEdit a r => if (0 <? a)%Z && rate_ok (rate_typed r) && bool_decide (is_Some (m !! a)) then <[a := rate_typed r]> m else m
  | TDelete a => delete a m
  end.

Definition op_ok (op : DiscountOp) : Prop :=
  match op with TAdd a r | TEdit a r => amount_ok a /\ num_okb (rate_typed r) = true | TDelete a => amount_ok a end.

Lemma discount_key_inj a b : amount_ok a -> amount_ok b -> key_of a = key_of b -> a = b.
Proof. unfold amount_ok, key_of. intros Ha Hb H%digits_inj. lia. Qed.

Lemma parse_key a : amount_ok a -> parseInt (key_of a) = of_Z a.
Proof. apply parseInt_digits. Qed.

Lemma key_wf a : wf_str (key_of a).
Proof.
  eapply Forall_impl; [apply digits_all|]. cbn. intros c Hc%is_digit_iff. lia.
Qed.

Lemma means_set o m a r : means o m -> amount_ok a -> num_okb r = true ->
  means (obj_set (key_of a) (JNum r) o) (<[a := r]> m).
Proof.
  intros [W G K R] Ha Hr. split.
  - apply wf_obj_set; [easy|apply key_wf|]. by apply num_okb_ok.
  - intros b Hb. rewrite obj_get_set. destruct (seqb_spec (key_of b) (key_of a)) as [E|N].
    + apply discount_key_inj in E; [|easy..]. subst b. by rewrite lookup_insert_eq.
    + rewrite lookup_insert_ne by congruence. auto.
  - intros k [->|H]%obj_set_keys; eauto.
  - intros b [->|[_ H]]%lookup_insert_is_Some; eauto.
Qed.

Lemma means_delete o m a : means o m -> amount_ok a -> means (obj_delete (key_of a) o) (delete a m).
Proof.
  intros [W G K R] Ha. split.
  - by apply wf_obj_delete.
  - intros b Hb. rewrite obj_get_delete. destruct (seqb_spec (key_of b) (key_of a)) as [E|N].
    + apply discount_key_inj in E; [|easy..]. subst b. by rewrite lookup_delete_eq.
    + rewrite lookup_delete_ne by congruence. auto.
  - intros k Hk. rewrite obj_delete_keys in Hk. apply filter_In in Hk as [Hk _]. eauto.
  - intros b [_ H]%lookup_delete_is_Some. eauto.
Qed.

Lemma read_printed o : wf_obj o -> read_object (print_map o) = o.
Proof.
  intros W. pose proof (parse_print o W) as P. unfold parse_map in P. unfold read_object, safeJsonParseWithValidation.
  destruct (safeJsonParse (print_map o) (JObj [])); try easy. cbn. congruence.
Qed.

Definition tier_at (ar : Z * number) : Tier := {| t_amount := of_Z (fst ar); t_rate := snd ar |}.

Lemma of_Z_amount a b : amount_ok a -> amount_ok b -> of_Z a = of_Z b -> a = b.
Proof.
  unfold amount_ok. intros Ha Hb E. assert (10 ^ 15 < 2 ^ 53)%Z by (by apply Z.ltb_lt).
  pose proof (to_Z_of_Z a ltac:(lia)) as A. rewrite E, to_Z_of_Z in A by lia. congruence.
Qed.

Lemma of_Z_eqb_iff a b : amount_ok a -> amount_ok b -> (of_Z a =? of_Z b)%num = (a =? b)%Z.
Proof.
  unfold amount_ok. intros Ha Hb. assert (10 ^ 15 < 2 ^ 53)%Z by (by apply Z.ltb_lt).
  destruct (Z.eqb_spec a b) as [->|N].
  - destruct (Z.eq_dec b 0%Z) as [->|]; [easy|]. destruct (of_Z_normal b ltac:(lia)) as (m & e & -> & _).
    unfold SFeqb, SFcompare. rewrite Z.compare_refl. change (Pos.compare_cont Eq m m) with (Pos.compare m m). by rewrite Pos.compare_refl.
  - apply not_true_iff_false. intros E. destruct (Z.eq_dec a 0%Z) as [->|Ha0]; [|destruct (Z.eq_dec b 0%Z) as [->|Hb0]].
    + destruct (of_Z_normal b ltac:(lia)) as (m & e & Em & _). by rewrite Em in E.
    + destruct (of_Z_normal a ltac:(lia)) as (m & e & Em & _). by rewrite Em in E.
    + apply of_Z_eqb in E; lia.
Qed.

Lemma means_In o m t : means o m ->
  In t (map tier_of o) <-> exists ar, In ar (map_to_list m) /\ t = tier_at ar.
Proof.
  intros [W G K R]. pose proof (keys_ordered_NoDup _ (proj1 W)) as Hd. rewrite in_map_iff. split.
  - intros ([k v] & <- & Hin). destruct (K k) as (a & Ha & ->); [by apply (in_map fst) in Hin|].
    apply (obj_get_NoDup _ _ _ Hd) in Hin. rewrite G in Hin by easy. destruct (m !! a) as [r|] eqn:E; [|easy].
    injection Hin as <-. exists (a, r). rewrite <- list_elem_of_In, elem_of_map_to_list. split; [easy|].
    unfold tier_of, tier_at. cbn [fst snd rate_of]. by rewrite parse_key.
  - intros ([a r] & Hin & ->). apply list_elem_of_In, elem_of_map_to_list in Hin.
    assert (amount_ok a) as Ha by (apply R; eauto). exists (key_of a, JNum r). split.
    + unfold tier_of, tier_at. cbn [fst snd rate_of]. by rewrite parse_key.
    + apply obj_get_In. rewrite G by easy. by rewrite Hin.
Qed.

Lemma map_NoDup {A B} (f : A -> B) l : (forall x y, In x l -> In y l -> f x = f y -> x = y) -> List.NoDup l -> List.NoDup (map f l).
Proof.
  intros Hf. induction 1 as [|x l Hx Hl IH]; cbn; constructor.
  - intros (y & E & Hy)%in_map_iff. apply Hf in E; [by subst|by right|by left].
  - apply IH. intros; apply Hf; auto using in_cons.
Qed.

(** The table shows the tiers of the map, each once. *)
Lemma discounts_shown o m : means o m -> discounts (print_map o) ≡ₚ map tier_at (map_to_list m).
Proof.
  intros Hm. pose proof Hm as [W G K R]. unfold discounts. rewrite read_printed by easy. rewrite stable_sort_Permutation.
  assert (List.filter (fun t => negb (isNaN (t_amount t)) && negb (isNaN (t_rate t))) (map tier_of o) = map tier_of o) as ->.
  { apply List.forallb_filter_id, forallb_forall. intros t Ht. pose proof Ht as (ar & Hin & ->)%(means_In o m t Hm).
    apply in_map_iff in Ht as ([k v] & E & Hkv). destruct ar as [a r]. apply list_elem_of_In, elem_of_map_to_list in Hin.
    assert (amount_ok a) as Ha by (apply R; eauto). cbn [tier_at t_amount t_rate fst snd].
    assert (num_ok r) as [Fr _].
    { destruct W as [_ W]. rewrite List.Forall_forall in W. specialize (G a Ha). rewrite Hin in G. apply obj_get_In, W in G. exact (proj2 G). }
    destruct (num_ok_int a Ha) as [Fa _]. by destruct (of_Z a), r. }
  apply NoDup_Permutation; [apply NoDup_ListNoDup, map_NoDup|apply NoDup_ListNoDup, map_NoDup|].
  - intros [k v] [k' v'] Hk Hk' E. destruct (K k) as (a & Ha & ->); [by apply (in_map fst) in Hk|].
    destruct (K k') as (b & Hb & ->); [by apply (in_map fst) in Hk'|]. unfold tier_of in E. injection E as E _. cbn [fst] in E.
    rewrite !parse_key in E by easy. apply of_Z_amount in E; [|easy..]. subst b.
    pose proof (keys_ordered_NoDup _ (proj1 W)) as Hd. apply (obj_get_NoDup _ _ _ Hd) in Hk, Hk'. congruence.
  - apply NoDup_map_inv with (f := fst), keys_ordered_NoDup, W.
  - intros [a r] [b r'] Ha Hb [= E ->]. apply list_elem_of_In, elem_of_map_to_list in Ha, Hb.
    apply of_Z_amount in E; [by subst|apply R; eauto..].
  - apply NoDup_ListNoDup, NoDup_map_to_list.
  - intros t. rewrite !list_elem_of_In, (means_In o m t Hm), in_map_iff. split; intros (ar & A & B); exists ar; by split.
Qed.

Lemma row_found e o m a : means o m -> d_value e = print_map o -> amount_ok a ->
  row_of a e = option_map (fun r => tier_at (a, r)) (m !! a).
Proof.
  intros Hm He Ha. unfold row_of. rewrite He. pose proof (discounts_shown o m Hm) as P. pose proof Hm as [_ _ _ R].
  assert (forall t, In t (discounts (print_map o)) -> (t_amount t =? of_Z a)%num = true -> exists r, m !! a = Some r /\ t = tier_at (a, r)) as Hin.
  { intros t Ht E. rewrite <- list_elem_of_In, P, list_elem_of_In, in_map_iff in Ht. destruct Ht as ([b r] & <- & Hb).
    apply list_elem_of_In, elem_of_map_to_list in Hb. cbn [tier_at t_amount fst snd] in E. assert (amount_ok b) by (apply R; eauto).
    rewrite of_Z_eqb_iff in E by easy. apply Z.eqb_eq in E. subst b. by exists r. }
  destruct (List.find _ _) as [t|] eqn:F.
  - apply List.find_some in F as [F1 F2]. destruct (Hin t F1 F2) as (r & -> & ->). easy.
  - destruct (m !! a) as [r|] eqn:E; [exfalso|easy].
    assert (In (tier_at (a, r)) (discounts (print_map o))) as Ht.
    { rewrite <- list_elem_of_In, P, list_elem_of_In. apply in_map, list_elem_of_In. by apply elem_of_map_to_list. }
    apply (List.find_none _ _ F) in Ht. cbn [tier_at t_amount fst] in Ht. rewrite of_Z_eqb_iff, Z.eqb_refl in Ht by easy. easy.
Qed.

Lemma print_amount a : amount_ok a -> num_to_string (of_Z a) = key_of a.
Proof. apply num_to_string_int. Qed.

Lemma schema_amount a r : amount_ok a ->
  amountDiscountDialogSchema {| t_amount := of_Z a; t_rate := r |} = (0 <? a)%Z && rate_ok r.
Proof.
  unfold amount_ok, amountDiscountDialogSchema, isSafeInteger. intros Ha. cbn [t_amount t_rate].
  assert (10 ^ 15 < max_safe)%Z by (by apply Z.ltb_lt). rewrite to_Z_of_Z by (unfold max_safe in *; lia).
  rewrite (proj2 (Z.leb_le _ _)) by lia. cbn [andb]. f_equal. destruct (Z.ltb_spec 0 a) as [Hp|Hp].
  - destruct (of_Z_normal a) as (m & e & -> & _); [unfold max_safe in *; lia|easy].
  - by assert (a = 0%Z) as -> by lia.
Qed.

Lemma amount_digits a : amount_ok a -> amount_typed (key_of a) = of_Z a.
Proof.
  intros Ha. unfold amount_typed. rewrite parse_key by easy. destruct (Z.eq_dec a 0%Z) as [->|Hn]; [easy|].
  unfold amount_ok in Ha. destruct (of_Z_parts a ltac:(lia)) as (m & e & num & den & -> & _). easy.
Qed.

Lemma tier_step op e o m : means o m -> d_value e = print_map o -> op_ok op ->
  exists o', means o' (spec_tier op m) /\ d_value (run_tier op e) = print_map o'.
Proof.
  intros Hm He Hop. pose proof (m_wf _ _ Hm) as W. destruct op as [a r|a r|a]; cbn [op_ok] in Hop; cbn [run_tier spec_tier].
  - destruct Hop as [Ha Hr]. unfold submitTier, handleAddDiscount, shown_dialog, typeAmount, typeRate. cbn [d_edit d_value d_open d_form t_amount t_rate from_option id default].
    change (digits (Z.to_N a)) with (key_of a). rewrite amount_digits, schema_amount by easy.
    destruct (_ && _) eqn:S; [|by exists o]. exists (obj_set (key_of a) (JNum (rate_typed r)) o). split; [by apply means_set|].
    unfold handleSaveTier. cbn [d_value d_edit t_amount t_rate]. by rewrite He, read_printed, print_amount.
  - destruct Hop as [Ha Hr]. rewrite (row_found e o m a) by easy. destruct (m !! a) as [r0|] eqn:E; cbn [option_map]; [|].
    + unfold submitTier, handleEditTier, shown_dialog, typeRate, tier_at. cbn [d_edit d_value d_open d_form t_amount t_rate from_option id default fst snd].
      rewrite schema_amount by easy. rewrite (bool_decide_eq_true_2 (is_Some (Some r0))) by eauto. rewrite andb_true_r.
      destruct (_ && _) eqn:S; [|by exists o]. exists (obj_set (key_of a) (JNum (rate_typed r)) o). split; [by apply means_set|].
      unfold handleSaveTier. cbn [d_value d_edit t_amount t_rate]. rewrite of_Z_eqb_iff, Z.eqb_refl by easy. cbn [negb].
      by rewrite He, read_printed, print_amount.
    + rewrite (bool_decide_eq_false_2 (is_Some (@None number))) by (by intros []). rewrite andb_false_r. by exists o.
  - rewrite (row_found e o m a) by easy. destruct (m !! a) as [r0|] eqn:E; cbn [option_map].
    + exists (obj_delete (key_of a) o). split; [by apply means_delete|]. unfold handleDeleteTier, tier_at. cbn [d_value t_amount fst].
      by rewrite He, read_printed, print_amount.
    + exists o. by rewrite delete_id.
Qed.

Lemma tiers_run ops : forall e o m, means o m -> d_value e = print_map o -> Forall op_ok ops ->
  exists o', means o' (fold_left (fun m op => spec_tier op m) ops m)
    /\ d_value (fold_left (fun e op => run_tier op e) ops e) = print_map o'.
Proof.
  induction ops as [|op ops IH]; intros e o m Hm He Hops; [by exists o|]. inversion Hops; subst.
  destruct (tier_step op e o m) as (o1 & Hm1 & He1); [easy..|]. cbn [fold_left]. by apply (IH _ o1).
Qed.

(** * The other lists *)

Lemma wf_json_arr l : wf_json (JArr l) <-> Forall wf_json l.
Proof. cbn. induction l as [|x l IH]; cbn; [by split|]. rewrite IH, Forall_cons. tauto. Qed.

Lemma print_array_edges l : trim (print_array l) = print_array l /\ print_array l <> [].
Proof.
  unfold print_array. cbn [stringify_indent app]. destruct (map _ l) as [|x xs]; [by split; [apply edges_trim|]|].
  split; [|easy]. apply edges_trim. match goal with |- edges_ok (_ :: _ :: ?a ++ ?b ++ _) = _ =>
    change (edges_ok ("[" ++ [lf] ++ a ++ b ++ [lf] ++ "]") = true);
    replace ("[" ++ [lf] ++ a ++ b ++ [lf] ++ "]") with ("[" ++ ([lf] ++ a ++ b ++ [lf]) ++ "]")
      by now rewrite <- !app_assoc
  end.
  by apply edges_ok_app.
Qed.

Lemma read_printed_array l : Forall wf_json l -> read_array (print_array l) = l.
Proof.
  intros W. destruct (print_array_edges l) as [E N]. unfold read_array, safeJsonParseWithValidation, safeJsonParse.
  assert (json_parse (print_array l) = Some (JArr l)) as P by (by apply json_parse_indent, wf_json_arr).
  by rewrite E, (proj2 (truthy_iff _) N), P.
Qed.

Lemma map_num_wf l : Forall num_ok l -> Forall wf_json (map JNum l).
Proof. induction 1; cbn; by constructor. Qed.

(** The amounts that are written are those shown next, in order. *)
Lemma amounts_shown l : Forall num_ok l -> amounts (print_array (map JNum l)) = stable_sort by_difference l.
Proof.
  intros W. unfold amounts. rewrite read_printed_array by (by apply map_num_wf). f_equal.
  clear W. induction l as [|x l IH]; cbn; [easy|]. by rewrite IH.
Qed.


(** An edit replaces the first item it is about, in place. *)
Lemma replace_first p data l1 x l2 : p x = true -> forallb (fun y => negb (p y)) l1 = true ->
  replace_or_push p data (l1 ++ x :: l2) = l1 ++ data :: l2.
Proof.
  intros Hx Hl. unfold replace_or_push. rewrite forallb_forall in Hl.
  assert (list_find (fun x => p x = true) (l1 ++ x :: l2) = Some (length l1, x)) as ->.
  { apply list_find_Some. split; [by apply list_lookup_middle|]. split; [easy|]. intros j y Hj Hlt Hy.
    rewrite lookup_app_l in Hj by easy. apply list_elem_of_lookup_2, list_elem_of_In, Hl in Hj. by rewrite Hy in Hj. }
  by rewrite insert_app_r_alt, Nat.sub_diag by lia.
Qed.

Lemma none_pushed p data l : forallb (fun y => negb (p y)) l = true -> replace_or_push p data l = l ++ [data].
Proof.
  intros Hl. unfold replace_or_push. rewrite forallb_forall in Hl.
  destruct (list_find _ l) as [[i y]|] eqn:E; [exfalso|easy]. apply list_find_Some in E as (A & B & _).
  apply list_elem_of_lookup_2, list_elem_of_In, Hl in A. by rewrite B in A.
Qed.

Lemma filter_others (p : json -> bool) l1 x l2 : p x = true -> forallb (fun y => negb (p y)) (l1 ++ l2) = true ->
  List.filter (fun y => negb (p y)) (l1 ++ x :: l2) = l1 ++ l2.
Proof.
  intros Hx Hl. rewrite forallb_app in Hl. apply andb_true_iff in Hl as [H1 H2]. rewrite List.filter_app. cbn. rewrite Hx. cbn.
  by rewrite !forallb_filter_id.
Qed.

Section OneItem.
Context (l1 l2 : list json) (x data : json).
Hypothesis wf : Forall wf_json (l1 ++ x :: l2).

Lemma wf_replaced : wf_json data -> Forall wf_json (l1 ++ data :: l2) /\ Forall wf_json (l1 ++ l2).
Proof using wf.
  intros Hd. apply Forall_app in wf as [A B]. apply Forall_cons_1 in B as [_ B]. rewrite !Forall_app, Forall_cons. auto.
Qed.

(** A product of an identifier of its own is saved in its place, and deleted alone. *)
Lemma product_edited : same_id (jget "productId" x) x = true ->
  forallb (fun y => negb (same_id (jget "productId" x) y)) (l1 ++ l2) = true -> wf_json data ->
  let value := print_array (l1 ++ x :: l2) in
  read_array (handleSaveProduct (Some x) data value) = l1 ++ data :: l2
  /\ read_array (handleDeleteProduct x value) = l1 ++ l2.
Proof using wf.
  intros Hx Ho Hd value. destruct (wf_replaced Hd) as [W1 W2]. unfold handleSaveProduct, handleDeleteProduct, value.
  rewrite !(read_printed_array _ wf). split; [|by rewrite filter_others, read_printed_array].
  rewrite forallb_app in Ho. apply andb_true_iff in Ho as [Ho _]. by rewrite replace_first, read_printed_array.
Qed.

Lemma method_edited : method_like x x = true -> forallb (fun y => negb (method_like x y)) (l1 ++ l2) = true -> wf_json data ->
  let value := print_array (l1 ++ x :: l2) in
  read_array (handleSaveMethod (Some x) data value) = l1 ++ data :: l2
  /\ read_array (handleDeleteMethod x value) = l1 ++ l2.
Proof using wf.
  intros Hx Ho Hd value. destruct (wf_replaced Hd) as [W1 W2]. unfold handleSaveMethod, handleDeleteMethod, value.
  rewrite !(read_printed_array _ wf). split; [|by rewrite filter_others, read_printed_array].
  rewrite forallb_app in Ho. apply andb_true_iff in Ho as [Ho _]. by rewrite replace_first, read_printed_array.
Qed.
End OneItem.

(** * What the editors mishandle *)

(** An amount that is infinite passes the check and is written as [null], which is shown as 0. *)
Lemma infinite_amount_zero : option_map amounts (handleAddAmount "1e999" "[]") = Some [zero].
Proof. by vm_compute. Qed.

(** A key that is not an integer is shown cut, and the row can neither be deleted nor edited:
    an edit adds another entry. *)
Lemma fraction_key_stuck :
  let e := shown_dialog (print_map [("10.5"%js, JNum (parseFloat "0.9"))]) None false in
  discounts (d_value e) = [{| t_amount := of_Z 10; t_rate := parseFloat "0.9" |}]
  /\ d_value (run_tier (TDelete 10) e) = d_value e
  /\ map fst (read_object (d_value (run_tier (TEdit 10 "0.8") e))) = ["10"; "10.5"]%js.
Proof. by vm_compute. Qed.

(** A product can be added under an identifier that another has: an edit of the second one
    changes the first, and deleting one deletes both. *)
Lemma duplicate_product :
  let p name := {| p_name := name; p_id := "prod_1"; p_price := of_Z 5; p_quota := of_Z 100; p_currency := "USD" |} in
  let value := handleSaveProduct None (product_json (p "b")) (handleSaveProduct None (product_json (p "a")) "[]") in
  let names v := map (fun x => jget "name" x) (products v) in
  creemProductDialogSchema (p "b") = true
  /\ names (handleSaveProduct (Some (product_json (p "b"))) (product_json (p "c")) value) = [Some (JStr "c"); Some (JStr "b")]
  /\ products (handleDeleteProduct (product_json (p "b")) value) = [].
Proof. by vm_compute. Qed.
