(* ===== verification/PaymentServer.v ===== *)
(** * The payment settings on the server

    What the server makes of the options that [PaymentSettings] sends
    ([internal/adminops/app/options_shared.go] and [internal/platform/store/option_runtime.go],
    with [setting/config/config.go] for the discounts), and which discount a top-up gets
    ([internal/commerce/app/payment_support.go]).

    [strings.ToLower] is an argument.  The list of amounts offered is decoded into the memory
    of the list before it and is not modelled; nor is the storage of the texts.  The members
    of an object are visited in the order of their properties, which is that of any text the
    page prints. *)

From stdpp Require Import gmap.
From S2P Require Import Prelude Number Rounding Json IntText SettingsForm RouteServer PricingTable PaymentSettings PaymentLists.
From stdpp Require Import options.

(** ** [strconv] *)

Definition scan_int (s : jstr) : option Z :=
  let '(neg, u) := opt_sign s in
  match u with
  | [] => None
  | _ => if forallb is_digit u then Some (if neg then - Z.of_N (undigits u) else Z.of_N (undigits u))%Z else None
  end.

Definition int64_min : Z := - 2 ^ 63.
Definition int64_max : Z := 2 ^ 63 - 1.

Definition ParseInt (s : jstr) : option Z :=
  match scan_int s with Some z => if (int64_min <=? z)%Z && (z <=? int64_max)%Z then Some z else None | None => None end.

(** [n, _ = strconv.Atoi(s)]: the error is not looked at. *)
Definition Atoi (s : jstr) : Z :=
  match scan_int s with Some z => Z.max int64_min (Z.min int64_max z) | None => 0%Z end.

(** [f, _ = strconv.ParseFloat(s, 64)] of a number that was printed. *)
Definition ParseFloat (s : jstr) : number :=
  let '(neg, u) := opt_sign s in match decimal_literal neg u with Some n => n | None => zero end.

(** [normalizeOptionValue] of the value in the request: NaN and the infinities are [null] there. *)
Definition normalizeOptionValue (v : pvalue) : jstr :=
  match v with
  | VText s => s
  | VBool b => if b then "true" else "false"
  | VNum n => if isFinite n then FormatFloat n else "<nil>"
  end.

(** ** Maps and lists of [json.Unmarshal] *)

(** [map[int]float64], made afresh; an error leaves the one before. *)
Definition discount_entry (acc : option (gmap Z number)) (kv : jstr * json) : option (gmap Z number) :=
  match acc, ParseInt (fst kv), snd kv with
  | Some m, Some a, JNum n => if isFinite n then Some (<[a := n]> m) else None
  | Some m, Some a, JNull => Some (<[a := zero]> m)
  | _, _, _ => None
  end.

Definition decode_discounts (v : json) : option (gmap Z number) :=
  match v with
  | JObj o => fold_left discount_entry o (Some ∅)
  | JNull => Some ∅
  | _ => None
  end.

(** [[]map[string]string]: what is of another type is left empty, with an error at the end. *)
Definition decode_text (v : json) : jstr * bool :=
  match v with JStr s => (s, true) | JNull => ([], true) | _ => ([], false) end.

Definition decode_method (v : json) : gmap jstr jstr * bool :=
  match v with
  | JObj o => fold_left (fun acc kv => let '(s, ok) := decode_text (snd kv) in (<[fst kv := s]> (fst acc), snd acc && ok)) o (∅, true)
  | JNull => (∅, true)
  | _ => (∅, false)
  end.

Definition UpdatePayMethodsByJsonString (value : jstr) : list (gmap jstr jstr) * bool :=
  match json_parse value with
  | Some (JArr l) => (map (fun v => fst (decode_method v)) l, forallb (fun v => snd (decode_method v)) l)
  | Some JNull => ([], true)
  | _ => ([], false)
  end.

(** ** The settings *)

Record PayServer := {
  sv_text : PField -> jstr;
  sv_flag : PField -> bool;
  sv_float : PField -> number;
  sv_int : PField -> Z;
  sv_methods : list (gmap jstr jstr);
  sv_discount : gmap Z number;
}.

Definition put {A} (f : PField) (x : A) (g : PField -> A) : PField -> A := fun h => if decide (h = f) then x else g h.

Inductive Kind := KText | KLower | KFlag | KFloat | KInt | KMethods | KOptions | KDiscount.

Definition kind_of (f : PField) : Kind :=
  match f with
  | NowPaymentsPaymentCurrency | NowPaymentsPayCurrency => KLower
  | StripePromotionCodesEnabled | CreemTestMode | XunhuEnabled | NowPaymentsEnabled => KFlag
  | Price | StripeCNYUnitPrice | StripeHKDUnitPrice | StripeUSDUnitPrice | StripeUnitPrice | NowPaymentsQuotaPerUSDT => KFloat
  | MinTopUp | StripeMinTopUp | XunhuMinTopUp | NowPaymentsMinTopUp => KInt
  | PayMethods => KMethods
  | AmountOptions => KOptions
  | AmountDiscount => KDiscount
  | _ => KText
  end.

Section Server.
Context (ToLower : jstr -> jstr).

(** [applyOptionValue], with whether it reports no error. *)
Definition applyOptionValue (f : PField) (value : jstr) (sv : PayServer) : PayServer * bool :=
  let '(Build_PayServer a b c d e g) := sv in
  match kind_of f with
  | KText => (Build_PayServer (put f value a) b c d e g, true)
  | KLower => (Build_PayServer (put f (ToLower (TrimSpace value)) a) b c d e g, true)
  | KFlag => (Build_PayServer a (put f (value =s "true") b) c d e g, true)
  | KFloat => (Build_PayServer a b (put f (ParseFloat value) c) d e g, true)
  | KInt => (Build_PayServer a b c (put f (Atoi value) d) e g, true)
  | KMethods => let '(l, ok) := UpdatePayMethodsByJsonString value in (Build_PayServer a b c d l g, ok)
  | KOptions => (sv, true)
  | KDiscount => (Build_PayServer a b c d e match json_parse value ≫= decode_discounts with Some m => m | None => g end, true)
  end.

Definition all_fields : list PField := fields_of All ++ creem_fields.

Definition field_named (k : jstr) : option PField := List.find (fun f => option_key f =s k) all_fields.

Definition UpdateOption (k : jstr) (v : pvalue) (sv : PayServer) : PayServer * bool :=
  match field_named k with Some f => applyOptionValue f (normalizeOptionValue v) sv | None => (sv, true) end.

End Server.

(** The factor of a top-up of an amount, in [GetPayMoney]. *)
Definition discount_at (amount : Z) (sv : PayServer) : number :=
  match sv_discount sv !! amount with
  | Some ds => if (zero <? ds)%num then ds else of_Z 1
  | None => of_Z 1
  end.

(** * The discounts that are charged *)

Lemma scan_digits n : scan_int (digits n) = Some (Z.of_N n).
Proof.
  unfold scan_int. pose proof (opt_sign_digits (Z.of_N n)) as S. rewrite N2Z.id in S. rewrite S.
  destruct (digits n) eqn:E; [by apply digits_nonempty in E|]. rewrite <- E.
  rewrite (proj2 (forallb_forall _ _)); [by rewrite undigits_digits|]. apply List.Forall_forall, digits_all.
Qed.

Lemma ParseInt_key a : amount_ok a -> ParseInt (key_of a) = Some a.
Proof.
  unfold amount_ok, ParseInt, key_of. intros Ha. rewrite scan_digits, Z2N.id by lia.
  assert (10 ^ 15 < int64_max)%Z by (by apply Z.ltb_lt). assert (int64_min < 0)%Z by (by apply Z.ltb_lt).
  by rewrite !(proj2 (Z.leb_le _ _)) by lia.
Qed.

Lemma entries_decoded o : forall acc m,
  (forall k v, In (k, v) o -> exists a r, k = key_of a /\ amount_ok a /\ v = JNum r /\ isFinite r = true) ->
  List.NoDup (map fst o) -> acc = Some m ->
  exists m', fold_left discount_entry o acc = Some m'
    /\ forall a, m' !! a = if decide (amount_ok a) then match obj_get (key_of a) o with Some (JNum r) => Some r | _ => m !! a end else m !! a.
Proof.
  induction o as [|[k v] o IH]; intros acc m Ho Hd ->; cbn [fold_left].
  - exists m. split; [easy|]. intros a. by destruct (decide _).
  - inversion Hd as [|? ? Hk Hd']; subst. destruct (Ho k v) as (a & r & -> & Ha & -> & Hr); [by left|].
    destruct (IH (Some (<[a := r]> m)) (<[a := r]> m)) as (m' & E & Hm'); [|easy..|].
    { intros k' v' Hin. apply Ho. by right. }
    exists m'. unfold discount_entry at 2. cbn [fst snd]. rewrite ParseInt_key, Hr by easy. split; [easy|].
    intros b. rewrite Hm'. destruct (decide (amount_ok b)) as [Hb|Hb]; [|by rewrite lookup_insert_ne by (intros E2; subst; by apply Hb)].
    cbn [obj_get]. destruct (seqb_spec (key_of b) (key_of a)) as [E2|N].
    + apply discount_key_inj in E2; [|easy..]. subst b. rewrite lookup_insert_eq. destruct (obj_get (key_of a) o) as [w|] eqn:G; [|easy].
      apply obj_get_In, (in_map fst) in G. done.
    + rewrite lookup_insert_ne by congruence. easy.
Qed.

#[export] Instance amount_ok_dec a : Decision (amount_ok a).
Proof. unfold amount_ok. solve_decision. Defined.

(** The server reads the text of a map of discounts as this map. *)
Lemma decode_means o m : means o m -> decode_discounts (JObj o) = Some m.
Proof.
  intros Hm. pose proof Hm as [W G K R]. cbn [decode_discounts]. pose proof (keys_ordered_NoDup _ (proj1 W)) as Hd.
  destruct (entries_decoded o (Some ∅) ∅) as (m' & E & Hm'); [|easy..|].
  - intros k v Hin. destruct (K k) as (a & Ha & ->); [by apply (in_map fst) in Hin|]. pose proof Hin as Hin2.
    apply (obj_get_NoDup _ _ _ Hd) in Hin. rewrite G in Hin by easy. destruct (m !! a) as [r|]; [|easy]. injection Hin as <-.
    exists a, r. do 3 (split; [easy|]). destruct W as [_ W]. rewrite List.Forall_forall in W. apply W in Hin2. exact (proj1 (proj2 Hin2)).
  - rewrite E. f_equal. apply map_eq. intros a. rewrite Hm', lookup_empty. destruct (decide (amount_ok a)) as [Ha|Ha].
    + rewrite G by easy. by destruct (m !! a).
    + destruct (m !! a) eqn:F; [|easy]. exfalso. apply Ha, R. eauto.
Qed.

Lemma means_unique o m1 m2 : means o m1 -> means o m2 -> m1 = m2.
Proof. intros H1%decode_means H2%decode_means. congruence. Qed.

Section Saved.
Context (toLowerCase ToLower : jstr -> jstr).

Lemma send_app {S} (send : jstr -> pvalue -> S -> S * bool) us1 us2 : forall server,
  send_all send (us1 ++ us2) server
  = let '(server1, ok) := send_all send us1 server in if ok then send_all send us2 server1 else (server1, false).
Proof.
  induction us1 as [|[f v] us1 IH]; intros server; cbn [app send_all]; [by destruct (send_all send us2 server)|].
  destruct (send (option_key f) v server) as [server1 []]; [apply IH|easy].
Qed.

Lemma field_key f : field_named (option_key f) = Some f.
Proof. by destruct f. Qed.

Lemma other_field f v sv : f <> AmountDiscount -> sv_discount (fst (UpdateOption ToLower (option_key f) v sv)) = sv_discount sv.
Proof.
  intros Hf. unfold UpdateOption. rewrite field_key. destruct sv as [a b c d e g]. unfold applyOptionValue.
  destruct (kind_of f) eqn:E; try easy; [by destruct (UpdatePayMethodsByJsonString _)|by destruct f].
Qed.

Lemma others_sent us : forall sv, Forall (fun u => fst u <> AmountDiscount) us ->
  sv_discount (fst (send_all (UpdateOption ToLower) us sv)) = sv_discount sv.
Proof.
  induction us as [|[f v] us IH]; intros sv Hus; [easy|]. inversion Hus; subst. cbn [send_all].
  pose proof (other_field f v sv) as Hf. destruct (UpdateOption ToLower (option_key f) v sv) as [sv1 []]; cbn [fst] in *; [rewrite IH by easy|]; auto.
Qed.

Lemma general_updates values initial :
  exists us, updates toLowerCase General values initial
    = us ++ (if changed toLowerCase values initial AmountDiscount then [(AmountDiscount, sanitize toLowerCase AmountDiscount (values AmountDiscount))] else [])
    /\ Forall (fun u => fst u <> AmountDiscount) us.
Proof.
  exists (map (fun f => (f, sanitize toLowerCase f (values f)))
            (List.filter (changed toLowerCase values initial) [Price; MinTopUp; PayMethods; AmountOptions])).
  split.
  - unfold updates. change (fields_of General) with ([Price; MinTopUp; PayMethods; AmountOptions] ++ [AmountDiscount]).
    rewrite List.filter_app, map_app. f_equal. cbn [List.filter]. by destruct (changed _ _ _ AmountDiscount).
  - apply List.Forall_map, List.Forall_forall. intros f [Hf _]%filter_In. cbn in *. by destruct Hf as [<-|[<-|[<-|[<-|[]]]]].
Qed.

Lemma normalized_map o : wf_obj o -> normalizeJsonForComparison (print_map o) = stringify (JObj o).
Proof.
  intros W. pose proof (parse_print o W) as P. unfold parse_map, safeJsonParse in P. unfold normalizeJsonForComparison.
  rewrite print_edges in *. assert (json_parse (print_map o) = Some (JObj o)) as -> by (by apply json_parse_indent, wf_json_obj).
  destruct (truthy (print_map o)) eqn:T; [easy|]. unfold print_map in T. cbn [stringify_indent] in T. by destruct (map _ o).
Qed.

(** C11: The discounts that are added, edited and deleted in the editor, and saved with the
    section, are those of the server from then on, exactly: a top-up of any amount gets the
    factor the edits mean.  When the server refuses another setting of the section, none of
    them is sent. *)
Theorem discounts_saved (ops : list DiscountOp) (p : PaymentSettings.Page) (e : Discounts) (o : table) (sv : PayServer) :
  saving p = None -> initial p AmountDiscount = VText (print_map o) -> d_value e = print_map o ->
  means o (sv_discount sv) -> Forall op_ok ops ->
  let m := fold_left (fun m op => spec_tier op m) ops (sv_discount sv) in
  let text := d_value (fold_left (fun e op => run_tier op e) ops e) in
  discounts text ≡ₚ map tier_at (map_to_list m)
  /\ exists p1, press toLowerCase General (set_field AmountDiscount (VText text) p) = Some p1
       /\ let '(p2, sv', ok) := save_ended toLowerCase (UpdateOption ToLower) p1 sv in
          sv_discount sv' = (if ok then m else sv_discount sv)
          /\ form p2 AmountDiscount = VText text
          /\ (ok = true -> forall a, discount_at a sv' = match m !! a with
                                                      | Some r => if (zero <? r)%num then r else of_Z 1
                                                      | None => of_Z 1
                                                      end).
Proof.
  intros Hs Hi He Hm Hops m text. destruct (tiers_run ops e o (sv_discount sv) Hm He Hops) as (o' & Hm' & Ht).
  fold m in Hm'. fold text in Ht. split; [rewrite Ht; by apply discounts_shown|].
  unfold press. cbn [set_field saving]. rewrite Hs. eexists. split; [reflexivity|].
  unfold save_ended. cbn [with_saving saving initial set_field]. set (values := form (set_field AmountDiscount (VText text) p)).
  change (fun g : PField => if decide (g = AmountDiscount) then VText text else form p g) with values.
  assert (values AmountDiscount = VText text) as Hv by easy.
  destruct (general_updates values (initial p)) as (us & Eu & Hus). rewrite Eu, send_app.
  pose proof (others_sent us sv Hus) as Ho. destruct (send_all (UpdateOption ToLower) us sv) as [sv1 ok1]. cbn [fst] in Ho.
  assert (changed toLowerCase values (initial p) AmountDiscount = negb (stringify (JObj o') =s stringify (JObj o))) as Ec.
  { unfold changed. rewrite Hv, Hi, Ht. cbn [sanitize is_secret same is_json negb orb]. rewrite andb_true_r, !print_edges.
    by rewrite !normalized_map by (by eapply m_wf). }
  assert (forall sv2, sv_discount sv2 = m -> forall a, discount_at a sv2 = match m !! a with
            Some r => if (zero <? r)%num then r else of_Z 1 | None => of_Z 1 end) as Hd by (intros sv2 <- a; reflexivity).
  assert (forall b : bool, form (if b then kept toLowerCase General values (with_saving (Some (General, values)) (set_field AmountDiscount (VText text) p))
            else with_saving None (with_saving (Some (General, values)) (set_field AmountDiscount (VText text) p))) AmountDiscount = VText text) as Hform.
  { intros []; [|easy]. unfold kept. by destruct (_ && _). }
  destruct ok1; [|by split; [|split; [apply (Hform false)|]]].
  rewrite Ec. destruct (seqb_spec (stringify (JObj o')) (stringify (JObj o))) as [E|E]; cbn [negb send_all].
  - assert (m = sv_discount sv) as Em.
    { assert (Some (JObj o') = Some (JObj o)) as [= ->]
        by (rewrite <- !json_parse_stringify by (apply wf_json_obj; by eapply m_wf); by rewrite E).
      by apply (means_unique o). }
    split; [by rewrite Em|]. split; [apply (Hform true)|]. intros _. apply Hd. by rewrite Em.
  - unfold UpdateOption. rewrite field_key. rewrite Hv, Ht. cbn [sanitize normalizeOptionValue]. rewrite print_edges.
    destruct sv1 as [a b c d f g]. unfold applyOptionValue. cbn [kind_of].
    assert (json_parse (print_map o') = Some (JObj o')) as -> by (apply json_parse_indent, wf_json_obj; by eapply m_wf).
    cbn [mbind option_bind]. rewrite (decode_means o' m Hm'). split; [easy|]. split; [rewrite <- Ht; apply (Hform true)|].
    intros _. by apply Hd.
Qed.
End Saved.

Lemma means_empty : means [] ∅.
Proof. split; [by split|easy|easy|]. intros a [x H]. by rewrite lookup_empty in H. Qed.

Definition sample_page : PaymentSettings.Page :=
  mount (fun f => match f with
                  | AmountDiscount => VText (print_map [("20"%js, JNum (parseFloat "0.8"))])
                  | Price => VNum (of_Z 7)
                  | PayMethods => VText "[]"
                  | _ => VText []
                  end).

Definition sample_server : PayServer :=
  {| sv_text := fun _ => []; sv_flag := fun _ => false; sv_float := fun _ => zero; sv_int := fun _ => 0%Z; sv_methods := [];
     sv_discount := {[ 20%Z := parseFloat "0.8" ]} |}.

Lemma discounts_saved_witness :
  let e := shown_dialog (print_map [("20"%js, JNum (parseFloat "0.8"))]) None false in
  let ops := [TAdd 100 "0.95"; TAdd 50 "1.5"; TEdit 100 "0.9"; TDelete 20] in
  let text := d_value (fold_left (fun e op => run_tier op e) ops e) in
  exists p1, press (fun s => s) General (set_field AmountDiscount (VText text) sample_page) = Some p1
    /\ let '(p2, sv', ok) := save_ended (fun s => s) (UpdateOption (fun s => s)) p1 sample_server in
       ok = true /\ map (fun a => discount_at a sv') [100; 50; 20]%Z = [parseFloat "0.9"; of_Z 1; of_Z 1].
Proof.
  intros e ops text.
  destruct (discounts_saved (fun s => s) (fun s => s) ops sample_page e [("20"%js, JNum (parseFloat "0.8"))] sample_server)
    as (_ & p1 & Ep & H).
  - reflexivity.
  - vm_compute. reflexivity.
  - reflexivity.
  - exact (means_set [] ∅ 20 (parseFloat "0.8") means_empty ltac:(by split; vm_compute) ltac:(by vm_compute)).
  - repeat constructor; vm_compute; reflexivity || easy.
  - exists p1. split; [exact Ep|].
    assert (match press (fun s => s) General (set_field AmountDiscount (VText text) sample_page) with
            | Some p1 => snd (save_ended (fun s => s) (UpdateOption (fun s => s)) p1 sample_server) | None => false end = true) as Hok
      by (vm_compute; reflexivity).
    fold ops e text in Ep. rewrite Ep in Hok. destruct (save_ended _ _ p1 sample_server) as [[p2 sv'] ok]. cbn [snd] in Hok. subst ok.
    split; [easy|]. destruct H as (_ & _ & H). cbn [map]. rewrite !(H eq_refl). vm_compute. reflexivity.
Defined.

(** * What the page and the server disagree on *)

(** A text of discounts that is emptied passes the schema, and the request succeeds, but the
    server keeps the discounts it had. *)
Lemma cleared_discounts_kept :
  let '(sv, ok) := UpdateOption (fun s => s) (option_key AmountDiscount) (VText []) sample_server in
  getJsonError isPlainObject [] = false /\ ok = true /\ discount_at 20 sv = parseFloat "0.8".
Proof. vm_compute. by repeat split. Qed.

(** One key that is not an integer and the whole map is dropped, silently. *)
Lemma fraction_key_dropped :
  let text := print_map [("10.5"%js, JNum (parseFloat "0.9")); ("50"%js, JNum (parseFloat "0.7"))] in
  let '(sv, ok) := UpdateOption (fun s => s) (option_key AmountDiscount) (VText text) sample_server in
  getJsonError isPlainObject text = false /\ ok = true /\ map (fun a => discount_at a sv) [20; 50]%Z = [parseFloat "0.8"; of_Z 1].
Proof. vm_compute. by repeat split. Qed.

(** The smallest amount may have cents in the form; the server's is an integer and becomes 0. *)
Lemma fraction_minimum_zero :
  let values f := match f with
                  | MinTopUp => VNum (parseFloat "0.5") | Price | XunhuMinTopUp | StripeUnitPrice => VNum (of_Z 1)
                  | StripeCNYUnitPrice | StripeHKDUnitPrice | StripeUSDUnitPrice | NowPaymentsQuotaPerUSDT | NowPaymentsMinTopUp => VNum (of_Z 1)
                  | StripeMinTopUp => VNum (of_Z 5)
                  | NowPaymentsPaymentCurrency | NowPaymentsPayCurrency => VText "usdt"
                  | StripePromotionCodesEnabled | CreemTestMode | XunhuEnabled | NowPaymentsEnabled => VBool false
                  | _ => VText []
                  end in
  schema (fun s => s) values = true
  /\ sv_int (fst (UpdateOption (fun s => s) (option_key MinTopUp) (values MinTopUp) sample_server)) MinTopUp = 0%Z.
Proof. vm_compute. by repeat split. Qed.

(** An emptied price is stored as 0. *)
Lemma emptied_price_zero :
  let '(sv, ok) := UpdateOption (fun s => s) (option_key Price) (VNum NaN) sample_server in ok = true /\ sv_float sv Price = zero.
Proof. vm_compute. by split. Qed.

(** An empty text of payment methods passes the schema and is refused, after the list in
    force has been emptied. *)
Lemma empty_methods_refused :
  let sv := {| sv_text := sv_text sample_server; sv_flag := sv_flag sample_server; sv_float := sv_float sample_server;
               sv_int := sv_int sample_server; sv_methods := [{[ "type"%js := "alipay"%js ]}]; sv_discount := ∅ |} in
  let '(sv', ok) := UpdateOption (fun s => s) (option_key PayMethods) (VText []) sv in
  getJsonError (fun _ => true) [] = false /\ ok = false /\ sv_methods sv' = [].
Proof. vm_compute. by repeat split. Qed.

(** A number keeps its value on the way, and an integer is read as it is. *)
Lemma numbers_kept : forallb (fun t => bool_decide (ParseFloat (FormatFloat (parseFloat t)) = parseFloat t))
    ["7.3"; "0.000001"; "0.0000001234"; "123456789.25"; "1e22"; "100"]%js = true
  /\ map (fun z => Atoi (FormatFloat (of_Z z))) [0; 5; 1000; 99999999]%Z = [0; 5; 1000; 99999999]%Z.
Proof. by vm_compute. Qed.
