(* ===== verification/Recharge.v ===== *)
(** * Topping up the wallet

    [features/wallet]: what the wallet reads of the server's settings
    ([hooks/use-topup-info.ts], [lib/payment.ts], [lib/format.ts]), the quotes and orders of
    [hooks/use-payment.ts] and [hooks/use-waffo-pancake-payment.ts], and the selection of an
    amount and a method, with the confirmation, in [hooks/use-wallet-workspace.ts] and
    [components/recharge-form-card.tsx].

    What runs between two [await]s is one step, followed by the effects of the renders it
    causes.  A payment method is an object: where the code compares references the model
    compares the number of the load and the place in its list.  The products of Creem, the
    buttons of Waffo, the profile and the messages are not modelled. *)

From S2P Require Import Prelude Number Json IntText PaymentLists.
From stdpp Require Import options.

(** ** The settings the server reports *)

Record PaymentMethod := {
  pm_ref : nat * nat;   (** which object it is *)
  pm_name : jstr;
  pm_type : jstr;
  pm_color : option jstr;
  pm_currency : option jstr;
  pm_min : number;
}.

(** [response.data], with its lists as they come. *)
Record Response := {
  enable_online_topup : bool;
  enable_stripe_topup : bool;
  enable_waffo_topup : bool;
  enable_waffo_pancake_topup : bool;
  enable_nowpayments_topup : bool;
  min_topup : number;
  stripe_min_topup : number;
  waffo_min_topup : option number;
  waffo_pancake_min_topup : option number;
  nowpayments_min_topup : option number;
  raw_pay_methods : json;
  raw_amount_options : json;
  raw_discount : json;
}.

Record TopupInfo := {
  response : Response;
  pay_methods : list PaymentMethod;
  amount_options : list number;
  discount : list (jstr * number);
}.

Record PresetAmount := { ps_value : number; ps_discount : option number }.

Definition parseJsonArray (data : json) : list json :=
  match data with
  | JArr l => l
  | JStr s => match json_parse s with Some (JArr l) => l | _ => [] end
  | _ => []
  end.

(** [!!item && typeof item === 'object'] *)
Definition is_object (item : json) : bool := match item with JArr _ | JObj _ => true | _ => false end.

Definition text_or (v : option json) (d : jstr) : jstr := match v with Some (JStr s) => s | _ => d end.
Definition text_opt (v : option json) : option jstr := match v with Some (JStr s) => Some s | _ => None end.
Definition js_Number_opt (v : option json) : number := match v with Some v => js_Number v | None => NaN end.

Definition payment_method (stripeMinTopup : number) (ref : nat * nat) (item : json) : PaymentMethod :=
  let rawMinTopup := js_Number_opt (jget "min_topup" item) in
  let normalizedMinTopup := if isFinite rawMinTopup then rawMinTopup else zero in
  let type := text_or (jget "type" item) [] in
  {| pm_ref := ref; pm_name := text_or (jget "name" item) []; pm_type := type;
     pm_color := text_opt (jget "color" item); pm_currency := text_opt (jget "currency" item);
     pm_min := if (type =s "stripe") && (normalizedMinTopup <=? zero)%num then stripeMinTopup else normalizedMinTopup |}.

Fixpoint number_items {A} (load i : nat) (l : list A) : list ((nat * nat) * A) :=
  match l with [] => [] | x :: l => ((load, i), x) :: number_items load (S i) l end.

Definition parsePaymentMethods (load : nat) (data : json) (stripeMinTopup : number) : list PaymentMethod :=
  List.filter (fun m => truthy (pm_name m) && truthy (pm_type m) && negb (pm_type m =s "waffo"))
    (map (fun ri => payment_method stripeMinTopup (fst ri) (snd ri))
       (number_items load 0 (List.filter is_object (parseJsonArray data)))).

Definition creem_product (item : json) : Product :=
  {| p_name := text_or (jget "name" item) []; p_id := text_or (jget "productId" item) [];
     p_price := num_or (js_Number_opt (jget "price" item)) zero; p_quota := num_or (js_Number_opt (jget "quota" item)) zero;
     p_currency := if is_str (jget "currency" item) "EUR" then "EUR" else "USD" |}.

Definition parseCreemProducts (data : json) : list Product :=
  List.filter (fun p => truthy (p_name p) && truthy (p_id p)) (map creem_product (List.filter is_object (parseJsonArray data))).

Record WaffoPayMethod := { w_name : jstr; w_icon : option jstr; w_payMethodType : option jstr; w_payMethodName : option jstr }.

Definition parseWaffoPayMethods (data : json) : list WaffoPayMethod :=
  List.filter (fun m => truthy (w_name m))
    (map (fun item => {| w_name := text_or (jget "name" item) []; w_icon := text_opt (jget "icon" item);
                         w_payMethodType := text_opt (jget "payMethodType" item);
                         w_payMethodName := text_opt (jget "payMethodName" item) |})
       (List.filter is_object (parseJsonArray data))).

Definition parseAmountOptions (data : json) : list number :=
  List.filter (fun n => isFinite n && (zero <? n)%num) (map js_Number (parseJsonArray data)).

(** [result[numericKey] = numericValue]: the key is the number's text. *)
Definition discount_read (result : list (jstr * number)) (kv : jstr * json) : list (jstr * number) :=
  let key := Number_str (fst kv) in
  let value := js_Number (snd kv) in
  if isFinite key && isFinite value then obj_set (num_to_string key) value result else result.

Definition parseDiscountMap (data : json) : list (jstr * number) :=
  let parsed := match data with JStr s => if truthy s then json_parse s else None | _ => Some data end in
  match parsed with Some (JObj o) => fold_left discount_read o [] | _ => [] end.

Definition processed (load : nat) (r : Response) : TopupInfo :=
  {| response := r;
     pay_methods := parsePaymentMethods load (raw_pay_methods r) (stripe_min_topup r);
     amount_options := parseAmountOptions (raw_amount_options r);
     discount := parseDiscountMap (raw_discount r) |}.

(** ** [lib/payment.ts] and [lib/format.ts] *)

Definition isStripePayment (t : jstr) : bool := (t =s "stripe") || (t =s "stripe_cny").
Definition isWaffoPancakePayment (t : jstr) : bool := t =s "waffo_pancake".
Definition isNowPaymentsPayment (t : jstr) : bool := t =s "nowpayments".

Definition getDefaultPaymentType (i : TopupInfo) : jstr :=
  match pay_methods i with
  | m :: _ => pm_type m
  | [] => if enable_stripe_topup (response i) then "stripe"
          else if enable_waffo_topup (response i) then "waffo"
          else if enable_waffo_pancake_topup (response i) then "waffo_pancake"
          else if enable_nowpayments_topup (response i) then "nowpayments"
          else "alipay"
  end.

Definition min_or (n : option number) : number := match n with Some n => num_or n (of_Z 1) | None => of_Z 1 end.

Definition getMinTopupAmount (i : option TopupInfo) : number :=
  match i with
  | None => of_Z 1
  | Some i => let r := response i in
              if enable_online_topup r then min_topup r
              else if enable_stripe_topup r then stripe_min_topup r
              else if enable_waffo_topup r then min_or (waffo_min_topup r)
              else if enable_waffo_pancake_topup r then min_or (waffo_pancake_min_topup r)
              else if enable_nowpayments_topup r then min_or (nowpayments_min_topup r)
              else of_Z 1
  end.

Definition DEFAULT_PRESET_MULTIPLIERS : list number := map of_Z [1; 5; 10; 30; 50; 100; 300; 500]%Z.

Definition generatePresetAmounts (minAmount : number) : list PresetAmount :=
  map (fun m => {| ps_value := nmul minAmount m; ps_discount := None |}) DEFAULT_PRESET_MULTIPLIERS.

Definition mergePresetAmounts (amountOptions : list number) (discounts : list (jstr * number)) : list PresetAmount :=
  map (fun a => {| ps_value := a;
                   ps_discount := Some (match obj_get (num_to_string a) discounts with Some d => num_or d (of_Z 1) | None => of_Z 1 end) |})
    amountOptions.

Definition presets_of (i : TopupInfo) : list PresetAmount :=
  match amount_options i with
  | [] => generatePresetAmounts (getMinTopupAmount (Some i))
  | l => mergePresetAmounts l (discount i)
  end.

Record Pricing := { displayValue : number; originalPrice : number; actualPrice : number; savedAmount : number; hasDiscount : bool }.

Definition calculatePresetPricing (presetValue priceRatio discount usdExchangeRate : number) : Pricing :=
  let originalPrice := nmul presetValue priceRatio in
  let actualPrice := nmul originalPrice discount in
  {| displayValue := nmul presetValue usdExchangeRate; originalPrice := originalPrice; actualPrice := actualPrice;
     savedAmount := nsub originalPrice actualPrice; hasDiscount := (discount <? of_Z 1)%num |}.

Definition getDiscountRate : number := of_Z 1.

(** What the button of a preset shows. *)
Definition preset_button (p : PresetAmount) (stripeSelected : bool) (stripeUnitPrice usdExchangeRate : number) : Pricing :=
  calculatePresetPricing (ps_value p) (if stripeSelected then stripeUnitPrice else of_Z 1) getDiscountRate usdExchangeRate.

(** ** Quotes and orders *)

Record Selection := { s_amount : number; s_type : jstr; s_currency : jstr }.

(** [JSON.stringify([topupAmount, paymentType, currency])] *)
Definition quote_key (s : Selection) : jstr := stringify (JArr [JNum (s_amount s); JStr (s_type s); JStr (s_currency s)]).

(** An answer of the server, or none that can be read. *)
Record QuoteAnswer := { a_success : bool; a_message : jstr; a_data : jstr }.

Definition isApiSuccess (success : bool) (message : jstr) : bool := success || (message =s "success").

Definition quoted (a : option QuoteAnswer) : number :=
  match a with
  | Some a => if isApiSuccess (a_success a) (a_message a) && truthy (a_data a) then parseFloat (a_data a) else zero
  | None => zero
  end.

(** Where a quote is asked for, and where an order goes. *)
Inductive Gateway := GStripe | GNowPayments | GPancake | GEpay.

Definition gateway_of (t : jstr) : Gateway :=
  if isStripePayment t then GStripe else if isNowPaymentsPayment t then GNowPayments
  else if isWaffoPancakePayment t then GPancake else GEpay.

Record Order := {
  o_gateway : Gateway;
  o_amount : number;      (** [Math.floor(topupAmount)] *)
  o_method : jstr;        (** [payment_method], of the generic gateway *)
  o_currency : jstr;      (** of Stripe *)
  o_shown : number;       (** what the dialog showed when it was confirmed *)
  o_selection : Selection;
  o_asked : nat;          (** how many quotes had been asked for *)
}.

(** The workspace with its hooks, the card's input, and the requests that were made. *)
Record Wallet := {
  info : option TopupInfo;
  presets : list PresetAmount;
  loads : nat;
  topupAmount : number;
  selectedPreset : option number;
  method : option PaymentMethod;
  stripeCurrency : jstr;
  confirmOpen : bool;
  localAmount : jstr;
  quoteSequence : nat;
  q_amount : number;
  quoteKey : jstr;
  q_calculating : bool;
  processing : bool;
  asked : list (nat * Selection);            (** quotes that were asked for, the latest first *)
  answered : list (nat * option QuoteAnswer);
  orders : list Order;
}.

Definition selection (w : Wallet) : Selection :=
  {| s_amount := topupAmount w; s_type := match method w with Some m => pm_type m | None => [] end; s_currency := stripeCurrency w |}.

(** What [usePayment] returns. *)
Definition shown_amount (w : Wallet) : number := if quoteKey w =s quote_key (selection w) then q_amount w else zero.
Definition calculating (w : Wallet) : bool :=
  q_calculating w || ((zero <? topupAmount w)%num && negb (quoteKey w =s quote_key (selection w))).

Definition open_wallet (language : jstr) : Wallet :=
  {| info := None; presets := []; loads := 0; topupAmount := zero; selectedPreset := None; method := None; stripeCurrency := language;
     confirmOpen := false; localAmount := "0"; quoteSequence := 0; q_amount := zero; quoteKey := []; q_calculating := false;
     processing := false; asked := []; answered := []; orders := [] |}.

(** [calculatePaymentAmount], up to its first [await]. *)
Definition calculatePaymentAmount (s : Selection) (w : Wallet) : Wallet :=
  let '(Build_Wallet i p l a sp m c co la q qa qk qc pr ask ans ord) := w in
  Build_Wallet i p l a sp m c co la (S q) qa qk true pr ((S q, s) :: ask) ans ord.

Definition set_choice (a : number) (m : option PaymentMethod) (w : Wallet) : Wallet :=
  let '(Build_Wallet i p l _ sp _ c co la q qa qk qc pr ask ans ord) := w in
  Build_Wallet i p l a sp m c co la q qa qk qc pr ask ans ord.

Definition with_local (t : jstr) (w : Wallet) : Wallet :=
  let '(Build_Wallet i p l a sp m c co _ q qa qk qc pr ask ans ord) := w in
  Build_Wallet i p l a sp m c co t q qa qk qc pr ask ans ord.

#[export] Instance PaymentMethod_eq_dec : EqDecision PaymentMethod.
Proof. solve_decision. Defined.

(** ** The effects

    One renders the new amount into the input, one chooses an amount and a method when there
    is none, one asks for a quote; each runs when one of its dependencies is another value. *)

Definition default_type (i : TopupInfo) (w : Wallet) : jstr :=
  if negb (stripeCurrency w =s "CNY") && enable_stripe_topup (response i) then "stripe" else getDefaultPaymentType i.

Definition chosen (w : Wallet) : number * option PaymentMethod :=
  match info w with
  | Some i => if (topupAmount w =? zero)%num
              then (getMinTopupAmount (Some i), List.find (fun m => pm_type m =s default_type i w) (pay_methods i))
              else (topupAmount w, method w)
  | None => (topupAmount w, method w)
  end.

Definition amount_changed (prev w : Wallet) : bool := negb (bool_decide (topupAmount prev = topupAmount w)).
Definition choice_due (prev w : Wallet) : bool :=
  negb (loads prev =? loads w) || amount_changed prev w || negb (stripeCurrency prev =s stripeCurrency w).
Definition quote_due (prev w : Wallet) : bool :=
  negb (bool_decide (method prev = method w)) || negb (stripeCurrency prev =s stripeCurrency w) || amount_changed prev w.

Definition quotable (w : Wallet) : bool :=
  (zero <? topupAmount w)%num && match method w with Some _ => true | None => false end.

(** The effects after a render: [w] is what was rendered, [prev] what had been. *)
Definition effects (prev w : Wallet) : Wallet :=
  let w0 := if amount_changed prev w then with_local (num_to_string (topupAmount w)) w else w in
  let w1 := if choice_due prev w then set_choice (fst (chosen w)) (snd (chosen w)) w0 else w0 in
  if quote_due prev w && quotable w then calculatePaymentAmount (selection w) w1 else w1.

(** The renders after a change; there is never a third. *)
Definition settle (prev w : Wallet) : Wallet := effects w (effects prev w).

(** ** What happens *)

Inductive Event :=
| ELoaded (r : Response)
| ELanguage (currency : jstr)
| EPreset (p : PresetAmount)
| EType (text : jstr)
| EMethod (m : PaymentMethod)
| EPricing (type : jstr)
| ECancel
| EConfirm
| EQuoted (n : nat) (a : option QuoteAnswer)
| EPaid (redirected : bool).

Definition loaded (r : Response) (w : Wallet) : Wallet :=
  let '(Build_Wallet _ _ l a sp m c co la q qa qk qc pr ask ans ord) := w in
  let i := processed (S l) r in
  Build_Wallet (Some i) (presets_of i) (S l) a sp m c co la q qa qk qc pr ask ans ord.

Definition with_currency (c : jstr) (w : Wallet) : Wallet :=
  let '(Build_Wallet i p l a sp m _ co la q qa qk qc pr ask ans ord) := w in
  Build_Wallet i p l a sp m c co la q qa qk qc pr ask ans ord.

Definition with_preset (sp : option number) (w : Wallet) : Wallet :=
  let '(Build_Wallet i p l a _ m c co la q qa qk qc pr ask ans ord) := w in
  Build_Wallet i p l a sp m c co la q qa qk qc pr ask ans ord.

Definition with_confirm (co : bool) (w : Wallet) : Wallet :=
  let '(Build_Wallet i p l a sp m c _ la q qa qk qc pr ask ans ord) := w in
  Build_Wallet i p l a sp m c co la q qa qk qc pr ask ans ord.

Definition handleSelectPreset (p : PresetAmount) (w : Wallet) : Wallet :=
  with_preset (Some (ps_value p)) (set_choice (ps_value p) (method w) w).

Definition handleAmountChange (value : jstr) (w : Wallet) : Wallet :=
  let w := with_local value w in
  let numValue := Number_str value in
  if isInteger numValue && (getMinTopupAmount (info w) <=? numValue)%num
  then with_preset None (set_choice numValue (method w) w) else w.

Definition amountValid (w : Wallet) : bool :=
  isInteger (Number_str (localAmount w)) && (getMinTopupAmount (info w) <=? Number_str (localAmount w))%num.

(** The button of a method. *)
Definition method_disabled (m : PaymentMethod) (w : Wallet) : bool :=
  negb (amountValid w) || (topupAmount w <? num_or (pm_min m) (getMinTopupAmount (info w)))%num.

Definition handlePaymentMethodSelect (m : PaymentMethod) (w : Wallet) : Wallet :=
  if (topupAmount w <? num_or (pm_min m) (getMinTopupAmount (info w)))%num then w
  else with_confirm true (set_choice (topupAmount w) (Some m) w).

Definition handlePricingMethodChange (type : jstr) (w : Wallet) : Wallet :=
  match info w with
  | Some i => match List.find (fun m => pm_type m =s type) (pay_methods i) with
              | Some m => set_choice (topupAmount w) (Some m) w
              | None => w
              end
  | None => w
  end.

(** The button of the dialog, and its handler up to the request. *)
Definition confirm_disabled (w : Wallet) : bool := processing w || calculating w || (shown_amount w <=? zero)%num.

Definition handlePaymentConfirm (w : Wallet) : Wallet :=
  match method w with
  | None => w
  | Some m =>
    if calculating w || (shown_amount w <=? zero)%num || processing w then w
    else
      let order := {| o_gateway := gateway_of (pm_type m); o_amount := nfloor (topupAmount w); o_method := pm_type m;
                      o_currency := stripeCurrency w; o_shown := shown_amount w; o_selection := selection w; o_asked := quoteSequence w |} in
      let '(Build_Wallet i p l a sp m c co la q qa qk qc _ ask ans ord) := w in
      Build_Wallet i p l a sp m c co la q qa qk qc true ask ans (order :: ord)
  end.

(** The rest of [calculatePaymentAmount]: an answer that is not the latest's is dropped. *)
Definition quote_answered (n : nat) (s : Selection) (a : option QuoteAnswer) (w : Wallet) : Wallet :=
  let '(Build_Wallet i p l am sp m c co la q qa qk qc pr ask ans ord) := w in
  if n =? q then Build_Wallet i p l am sp m c co la q (quoted a) (quote_key s) false pr ask ((n, a) :: ans) ord
  else Build_Wallet i p l am sp m c co la q qa qk qc pr ask ((n, a) :: ans) ord.

(** The end of an order: with a redirection the dialog is closed. *)
Definition paid (redirected : bool) (w : Wallet) : Wallet :=
  let '(Build_Wallet i p l a sp m c co la q qa qk qc _ ask ans ord) := w in
  Build_Wallet i p l a sp m c (co && negb redirected) la q qa qk qc false ask ans ord.

Fixpoint asked_for (n : nat) (l : list (nat * Selection)) : option Selection :=
  match l with [] => None | (k, s) :: l => if k =? n then Some s else asked_for n l end.

(** The dialog is modal: while it is open the card cannot be reached. *)
Definition react (w : Wallet) (e : Event) : option Wallet :=
  match e with
  | ELoaded r => Some (loaded r w)
  | ELanguage c => Some (with_currency c w)
  | EPreset p => if confirmOpen w then None else Some (handleSelectPreset p w)
  | EType t => if confirmOpen w then None else Some (handleAmountChange t w)
  | EMethod m => if confirmOpen w || method_disabled m w then None else Some (handlePaymentMethodSelect m w)
  | EPricing t => if confirmOpen w then None else Some (handlePricingMethodChange t w)
  | ECancel => if confirmOpen w && negb (processing w) then Some (with_confirm false w) else None
  | EConfirm => if confirmOpen w && negb (confirm_disabled w) then Some (handlePaymentConfirm w) else None
  | EQuoted n a => match asked_for n (asked w) with
                   | Some s => if existsb (fun x => fst x =? n) (answered w) then None else Some (quote_answered n s a w)
                   | None => None
                   end
  | EPaid r => if processing w then Some (paid r w) else None
  end.

Definition step (w : Wallet) (e : Event) : option Wallet := option_map (settle w) (react w e).

Fixpoint run (w : Wallet) (es : list Event) : option Wallet :=
  match es with [] => Some w | e :: es => match step w e with Some w' => run w' es | None => None end end.

(** * The effects settle *)

Lemma effects_fields prev w : let w' := effects prev w in
  info w' = info w /\ loads w' = loads w /\ stripeCurrency w' = stripeCurrency w
  /\ (topupAmount w', method w') = (if choice_due prev w then chosen w else (topupAmount w, method w))
  /\ answered w' = answered w /\ orders w' = orders w /\ q_amount w' = q_amount w /\ quoteKey w' = quoteKey w
  /\ (if quote_due prev w && quotable w
      then asked w' = (S (quoteSequence w), selection w) :: asked w /\ quoteSequence w' = S (quoteSequence w) /\ q_calculating w' = true
      else asked w' = asked w /\ quoteSequence w' = quoteSequence w /\ q_calculating w' = q_calculating w).
Proof.
  cbv zeta. unfold effects. destruct w. destruct (choice_due _ _), (amount_changed _ _), (quote_due _ _ && quotable _); cbn;
    repeat split; try easy; by destruct (chosen _).
Qed.

Lemma chosen_again w w' : info w' = info w -> stripeCurrency w' = stripeCurrency w ->
  (topupAmount w', method w') = chosen w -> amount_changed w w' = true -> chosen w' = chosen w.
Proof.
  intros Hi Hc Hw Ha. rewrite <- Hw. unfold chosen in *. rewrite Hi. destruct (info w) as [i|] eqn:E.
  - destruct (topupAmount w =? zero)%num eqn:Z.
    + apply pair_equal_spec in Hw as [Hw1 Hw2]. rewrite <- Hw1. destruct (topupAmount w' =? zero)%num; [|easy].
      rewrite Hw2. unfold default_type. by rewrite Hc.
    + injection Hw as Hw1 _. unfold amount_changed in Ha. rewrite Hw1, bool_decide_eq_true_2 in Ha by easy. easy.
  - easy.
Qed.

(** A second render never changes the amount, the method or the currency again. *)
Lemma second_render prev w : let w1 := effects prev w in let w2 := effects w w1 in
  topupAmount w2 = topupAmount w1 /\ method w2 = method w1 /\ stripeCurrency w2 = stripeCurrency w1 /\ loads w2 = loads w1.
Proof.
  cbv zeta. destruct (effects_fields prev w) as (I1 & L1 & C1 & S1 & _). set (w1 := effects prev w) in *.
  destruct (effects_fields w w1) as (I2 & L2 & C2 & S2 & _). set (w2 := effects w w1) in *.
  assert ((topupAmount w2, method w2) = (topupAmount w1, method w1)) as [= -> ->]; [|easy].
  rewrite S2. unfold choice_due at 1. rewrite L1, C1, Nat.eqb_refl, seqb_refl. cbn [negb orb]. rewrite orb_false_r.
  destruct (amount_changed w w1) eqn:A; [|easy]. destruct (choice_due prev w) eqn:D.
  - by rewrite (chosen_again w w1) by easy.
  - injection S1 as S1 _. unfold amount_changed in A. rewrite S1, bool_decide_eq_true_2 in A by easy. easy.
Qed.

(** The renders end: a third has nothing to do. *)
Lemma renders_end prev w : let w1 := effects prev w in let w2 := effects w w1 in effects w1 w2 = w2.
Proof.
  cbv zeta. destruct (second_render prev w) as (A & B & C & D). set (w1 := effects prev w) in *. set (w2 := effects w w1) in *.
  unfold effects at 1. unfold choice_due, quote_due, amount_changed. rewrite A, B, C, D, Nat.eqb_refl, seqb_refl, !bool_decide_eq_true_2 by easy.
  easy.
Qed.

(** * What is ordered was quoted *)

(** The latest quote asked for is that of the selection of [c]. *)
Definition latest (c w : Wallet) : Prop :=
  quotable c = true -> exists rest, asked w = (quoteSequence w, selection c) :: rest.

Definition order_quoted (w : Wallet) (o : Order) : Prop :=
  exists s a, In (o_asked o, s) (asked w) /\ In (o_asked o, a) (answered w)
    /\ quote_key s = quote_key (o_selection o) /\ ((zero <? s_amount (o_selection o))%num = true -> s = o_selection o)
    /\ o_shown o = quoted a /\ (o_shown o <=? zero)%num = false
    /\ o_gateway o = gateway_of (s_type (o_selection o)) /\ o_amount o = nfloor (s_amount (o_selection o))
    /\ o_method o = s_type (o_selection o) /\ o_currency o = s_currency (o_selection o).

Record inv (w : Wallet) : Prop := {
  i_head : asked w = [] \/ exists s rest, asked w = (quoteSequence w, s) :: rest;
  i_quote : q_calculating w = false -> quoteKey w = []
    \/ exists s rest a, asked w = (quoteSequence w, s) :: rest /\ quoteKey w = quote_key s
         /\ In (quoteSequence w, a) (answered w) /\ q_amount w = quoted a;
  i_orders : Forall (order_quoted w) (orders w);
}.

Lemma order_kept w w' o : incl (asked w) (asked w') -> incl (answered w) (answered w') -> order_quoted w o -> order_quoted w' o.
Proof. intros Ha Hn (s & a & H1 & H2 & H). exists s, a. by repeat split; [apply Ha|apply Hn|..]; destruct_and?. Qed.

(** What the invariant speaks of. *)
Definition core (w : Wallet) := (quoteSequence w, q_amount w, quoteKey w, q_calculating w, asked w, answered w, orders w).

Lemma inv_core w w' : core w' = core w -> inv w -> inv w'.
Proof.
  unfold core. intros [= E1 E2 E3 E4 E5 E6 E7] [H Q O]. split; rewrite ?E1, ?E2, ?E3, ?E4, ?E5, ?E6, ?E7; try easy.
  eapply Forall_impl; [exact O|]. intros o. apply order_kept; [rewrite E5|rewrite E6]; apply incl_refl.
Qed.

Lemma effects_inv prev w : inv w -> inv (effects prev w).
Proof.
  intros Hi. destruct (effects_fields prev w) as (_ & _ & _ & _ & En & Eo & Eq & Ek & H).
  destruct (quote_due prev w && quotable w); destruct H as (Ha & Hs & Hc).
  - destruct Hi as [H Q O]. split; rewrite ?Hs, ?Hc, ?Ha; [right; eauto|easy|]. rewrite Eo. eapply Forall_impl; [exact O|].
    intros o. apply order_kept; [rewrite Ha; apply incl_tl, incl_refl|rewrite En; apply incl_refl].
  - eapply inv_core; [|exact Hi]. unfold core. congruence.
Qed.

Lemma latest_effects prev w : latest prev w -> latest w (effects prev w).
Proof.
  intros Hl Hq. destruct (effects_fields prev w) as (_ & _ & _ & _ & _ & _ & _ & _ & H). rewrite Hq, andb_true_r in H.
  destruct (quote_due prev w) eqn:D; destruct H as (-> & -> & _); [eauto|].
  unfold quote_due in D. apply orb_false_iff in D as [D Da]. apply orb_false_iff in D as [Dm Dc].
  apply negb_false_iff in Dm, Dc. apply bool_decide_eq_true in Dm. destruct (seqb_spec (stripeCurrency prev) (stripeCurrency w)) as [Ec|]; [|easy].
  unfold amount_changed in Da. apply negb_false_iff, bool_decide_eq_true in Da.
  unfold latest, quotable in Hl, Hq. unfold selection in *. rewrite Dm, Ec, Da in Hl. by apply Hl.
Qed.

Lemma settle_ok prev w : inv w -> latest prev w -> inv (settle prev w) /\ latest (settle prev w) (settle prev w).
Proof.
  intros Hi Hl. split; [by apply effects_inv, effects_inv|].
  pose proof (latest_effects _ _ (latest_effects _ _ Hl)) as L. destruct (second_render prev w) as (A & B & C & _).
  unfold settle. revert L. unfold latest, quotable, selection. rewrite A, B, C. easy.
Qed.

Lemma choice_core a m w : core (set_choice a m w) = core w.
Proof. by destruct w. Qed.
Lemma local_core t w : core (with_local t w) = core w.
Proof. by destruct w. Qed.
Lemma preset_core t w : core (with_preset t w) = core w.
Proof. by destruct w. Qed.
Lemma confirm_core t w : core (with_confirm t w) = core w.
Proof. by destruct w. Qed.

Lemma quote_key_nonempty s : quote_key s <> [].
Proof. easy. Qed.

Lemma latest_core c w w' : core w' = core w -> latest c w -> latest c w'.
Proof. unfold core, latest. intros [= -> _ _ _ -> _ _]. easy. Qed.

Lemma confirm_inv w : inv w -> latest w w -> confirm_disabled w = false ->
  inv (handlePaymentConfirm w) /\ latest w (handlePaymentConfirm w).
Proof.
  intros Hi Hl Hd. unfold handlePaymentConfirm. destruct (method w) as [m|] eqn:M; [|easy].
  destruct (_ || _ || _) eqn:D; [easy|]. apply orb_false_iff in D as [D _]. apply orb_false_iff in D as [Dc Da].
  unfold calculating in Dc. apply orb_false_iff in Dc as [Dc _].
  assert (s_type (selection w) = pm_type m) as Et by (unfold selection; by rewrite M).
  destruct Hi as [H Q O]. destruct (Q Dc) as [K|(s & rest & a & Ha & Hk & Hn & Hq)].
  { exfalso. unfold shown_amount in Da. rewrite K in Da. destruct (seqb_spec [] (quote_key (selection w))); [easy|]. easy. }
  assert (quote_key s = quote_key (selection w) /\ shown_amount w = quoted a) as [Ek Es].
  { unfold shown_amount in *. rewrite Hk, Hq in *. destruct (seqb_spec (quote_key s) (quote_key (selection w))) as [E|]; [done|easy]. }
  assert ((zero <? topupAmount w)%num = true -> s = selection w) as Hs.
  { intros Hp. destruct (Hl ltac:(unfold quotable; by rewrite Hp, M)) as [r Hr]. congruence. }
  destruct w as [i p l am sp m0 c co la q qa qk qc pr ask ans ord]. cbn in *. split; [|exact Hl]. split; cbn.
  - exact H.
  - exact Q.
  - constructor; [|exact O]. exists s, a. cbn. rewrite Ha. split; [by left|]. split; [exact Hn|]. split; [exact Ek|]. split; [exact Hs|].
    split; [exact Es|]. split; [exact Da|]. rewrite Et. by repeat split.
Qed.

Lemma asked_head n q s0 rest s : asked_for n ((q, s0) :: rest) = Some s -> n = q -> s = s0.
Proof. cbn. intros H ->. rewrite Nat.eqb_refl in H. congruence. Qed.

Lemma answer_inv n s a w : inv w -> asked_for n (asked w) = Some s -> inv (quote_answered n s a w).
Proof.
  intros [H Q O] Hs. destruct w as [i p l am sp m c co la q qa qk qc pr ask ans ord]. cbn in *.
  assert (Forall (order_quoted (quote_answered n s a (Build_Wallet i p l am sp m c co la q qa qk qc pr ask ans ord))) ord) as O'.
  { eapply Forall_impl; [exact O|]. intros o. apply order_kept; cbn; destruct (n =? q); cbn; auto using incl_refl, incl_tl. }
  cbn [quote_answered] in *. destruct (Nat.eqb_spec n q) as [->|Hn]; (split; cbn; [exact H| |exact O']).
  - intros _. right. destruct H as [->|(s0 & rest & ->)]; [easy|]. exists s0, rest, a.
    rewrite (asked_head _ _ _ _ _ Hs eq_refl). repeat split; by left.
  - intros Hc. destruct (Q Hc) as [K|(s1 & rest & b & A & B & C & D)]; [by left|]. right. exists s1, rest, b.
    split; [exact A|]. split; [exact B|]. split; [by right|exact D].
Qed.

Lemma paid_inv r w : inv w -> inv (paid r w).
Proof. apply inv_core. by destruct w. Qed.

Lemma react_ok w e w' : inv w -> latest w w -> react w e = Some w' -> inv w' /\ latest w w'.
Proof.
  intros Hi Hl H. assert (core w' = core w -> inv w' /\ latest w w') as Hcore
    by (intros E; split; [by apply (inv_core w)|by apply (latest_core w w)]).
  destruct e; cbn [react] in H.
  - injection H as <-. apply Hcore. by destruct w.
  - injection H as <-. apply Hcore. by destruct w.
  - destruct (confirmOpen w); [easy|]. injection H as <-. apply Hcore. unfold handleSelectPreset. by rewrite preset_core, choice_core.
  - destruct (confirmOpen w); [easy|]. injection H as <-. apply Hcore. unfold handleAmountChange.
    destruct (_ && _); by rewrite ?preset_core, ?choice_core, local_core.
  - destruct (_ || _); [easy|]. injection H as <-. apply Hcore. unfold handlePaymentMethodSelect.
    destruct (_ <? _)%num; [easy|]. by rewrite confirm_core, choice_core.
  - destruct (confirmOpen w); [easy|]. injection H as <-. apply Hcore. unfold handlePricingMethodChange.
    destruct (info w) as [i|]; [|easy]. destruct (List.find _ _); [|easy]. by rewrite choice_core.
  - destruct (_ && _); [|easy]. injection H as <-. apply Hcore, confirm_core.
  - destruct (confirmOpen w && _) eqn:E; [|easy]. injection H as <-. apply andb_true_iff in E as [_ E]. apply negb_true_iff in E.
    by apply confirm_inv.
  - destruct (asked_for n (asked w)) as [s|] eqn:E; [|easy]. destruct (existsb _ _); [easy|]. injection H as <-.
    split; [by apply answer_inv|]. unfold latest, quote_answered in *. destruct w. cbn in *. by destruct (n =? _).
  - destruct (processing w); [|easy]. injection H as <-. apply Hcore. by destruct w.
Qed.

Lemma wallet_run_ok es : forall w w', inv w -> latest w w -> run w es = Some w' -> inv w' /\ latest w' w'.
Proof.
  induction es as [|e es IH]; intros w w' Hi Hl H; cbn [run] in H; [by injection H as <-|].
  unfold step in H. destruct (react w e) as [w1|] eqn:E; [|easy]. cbn [option_map] in H.
  destruct (react_ok w e w1) as [H1 H2]; [easy..|]. destruct (settle_ok w w1) as [H3 H4]; [easy..|]. by apply (IH (settle w w1)).
Qed.

(** C10: Whatever is chosen, typed and loaded, and in whatever order the quotes are answered:
    an order is for the amount, method and currency of the last quote that was asked for,
    this quote has been answered, with what the dialog showed when it was confirmed, and it
    was more than nothing. *)
Theorem orders_quoted language es w : run (open_wallet language) es = Some w ->
  Forall (order_quoted w) (orders w).
Proof.
  intros H. destruct (wallet_run_ok es (open_wallet language) w) as [[_ _ O] _]; [|easy|exact H|exact O].
  split; [by left|by left|constructor].
Qed.

(** A selection that can be quoted has been asked for, and its answer is what is shown. *)
Lemma quote_shown language es w a w' : run (open_wallet language) es = Some w -> quotable w = true ->
  step w (EQuoted (quoteSequence w) a) = Some w' -> shown_amount w' = quoted a /\ calculating w' = false.
Proof.
  intros H Hq Hs. destruct (wallet_run_ok es (open_wallet language) w) as [_ Hl]; [|easy|exact H|].
  { split; [by left|by left|constructor]. }
  destruct (Hl Hq) as [rest Ha]. unfold step in Hs. cbn [react] in Hs. rewrite Ha in Hs. cbn [asked_for] in Hs. rewrite Nat.eqb_refl in Hs.
  destruct (existsb _ _); [easy|]. cbn [option_map] in Hs. injection Hs as <-. set (w1 := quote_answered _ _ _ _).
  assert (topupAmount w1 = topupAmount w /\ method w1 = method w /\ stripeCurrency w1 = stripeCurrency w /\ loads w1 = loads w
    /\ quoteKey w1 = quote_key (selection w) /\ q_amount w1 = quoted a /\ q_calculating w1 = false) as (A & B & C & D & E & F & G).
  { unfold w1, quote_answered. destruct w. cbn. rewrite Nat.eqb_refl. by repeat split. }
  assert (effects w w1 = w1) as E1.
  { unfold effects, choice_due, quote_due, amount_changed. by rewrite A, B, C, D, Nat.eqb_refl, seqb_refl, !bool_decide_eq_true_2. }
  assert (effects w1 w1 = w1) as E2.
  { unfold effects, choice_due, quote_due, amount_changed. by rewrite Nat.eqb_refl, seqb_refl, !bool_decide_eq_true_2. }
  unfold settle. rewrite E1, E2. assert (selection w1 = selection w) as Es by (unfold selection; by rewrite A, B, C).
  unfold shown_amount, calculating. by rewrite Es, E, F, G, seqb_refl, andb_false_r.
Qed.

Lemma positive_kept c x : (zero <? c)%num = true -> (c <=? x)%num = true -> num_or x zero = x.
Proof. intros Hc H. destruct x as [s| | |]; try easy; exfalso; [destruct s|]; by destruct c as [[]|[]| |[]]. Qed.

(** A product added in the settings is the last that the wallet offers, as it was typed. *)
Lemma product_offered l p : Forall wf_json l -> creemProductDialogSchema p = true -> wf_json (product_json p) ->
  parseCreemProducts (JStr (handleSaveProduct None (product_json p) (print_array l)))
  = parseCreemProducts (JStr (print_array l)) ++ [p].
Proof.
  intros Wl Hp Wp. assert (forall l, Forall wf_json l -> parseJsonArray (JStr (print_array l)) = l) as E.
  { intros l' W. cbn [parseJsonArray]. unfold print_array. by rewrite json_parse_indent by (by apply wf_json_arr). }
  unfold handleSaveProduct. rewrite read_printed_array by easy. unfold parseCreemProducts.
  rewrite (E l Wl), E by (apply Forall_app; split; [easy|by constructor]).
  rewrite List.filter_app, map_app, List.filter_app. f_equal. cbn [List.filter product_json is_object map].
  assert (creem_product (product_json p) = p) as ->.
  { unfold creemProductDialogSchema in Hp. repeat rewrite andb_true_iff in Hp. destruct Hp as [[[[[[Hn Hi] Fp] Hprice] Fq] Hq] Hc].
    destruct p as [n i pr q c]. cbn [p_name p_id p_price p_quota p_currency] in *. unfold creem_product, product_json. cbn.
    rewrite (positive_kept (parseFloat "0.01") pr), (positive_kept (of_Z 1) q) by easy.
    f_equal. destruct (seqb_spec c "USD") as [->|]; [easy|]. destruct (seqb_spec c "EUR") as [->|]; [easy|]. easy. }
  unfold creemProductDialogSchema in Hp. repeat rewrite andb_true_iff in Hp. destruct Hp as [[[[[[-> ->] _] _] _] _] _]. easy.
Qed.

(** ** A run *)

Definition sample_response : Response :=
  {| enable_online_topup := true; enable_stripe_topup := false; enable_waffo_topup := false; enable_waffo_pancake_topup := false;
     enable_nowpayments_topup := false; min_topup := of_Z 1; stripe_min_topup := of_Z 5; waffo_min_topup := None;
     waffo_pancake_min_topup := None; nowpayments_min_topup := None;
     raw_pay_methods := JArr [JObj [("name"%js, JStr "Alipay"); ("type"%js, JStr "alipay")]];
     raw_amount_options := JArr [JNum (of_Z 10); JNum (of_Z 100)];
     raw_discount := JObj [("100"%js, JNum (parseFloat "0.5"))] |}.

Definition sample_answer (t : jstr) : option QuoteAnswer := Some {| a_success := true; a_message := []; a_data := t |}.

Definition sample_method : PaymentMethod :=
  {| pm_ref := (1, 0); pm_name := "Alipay"; pm_type := "alipay"; pm_color := None; pm_currency := None; pm_min := zero |}.

(** The first quote is answered after the second. *)
Definition sample_run : list Event :=
  [ELoaded sample_response; EType "10"; EQuoted 2 (sample_answer "73.00"); EQuoted 1 (sample_answer "7.30"); EMethod sample_method; EConfirm].

Lemma orders_quoted_witness : exists w, run (open_wallet "CNY") sample_run = Some w
  /\ map (fun o => (o_amount o, o_shown o)) (orders w) = [(of_Z 10, parseFloat "73")] /\ Forall (order_quoted w) (orders w).
Proof.
  destruct (run (open_wallet "CNY") sample_run) as [w|] eqn:E; [|vm_compute in E; discriminate E].
  exists w. split; [reflexivity|]. split; [|exact (orders_quoted "CNY" sample_run w E)].
  vm_compute in E. injection E as <-. vm_compute. reflexivity.
Defined.

(** ** What the card mishandles *)

(** The discounts reach the presets, but no button shows them: the factor of every price is
    one, whatever the server charges. *)
Lemma preset_ignores_discount :
  let ps := presets_of (processed 1 sample_response) in
  map ps_discount ps = [Some (of_Z 1); Some (parseFloat "0.5")]
  /\ map (fun p => actualPrice (preset_button p false (of_Z 1) (of_Z 1))) ps = [of_Z 10; of_Z 100]
  /\ map (fun p => hasDiscount (preset_button p false (of_Z 1) (of_Z 1))) ps = [false; false].
Proof. vm_compute. by repeat split. Qed.

(** After an amount that is not allowed, the preset of the amount that was kept does not bring
    its text back, and every method stays disabled. *)
Lemma preset_text_stuck :
  option_map (fun w => (selectedPreset w, topupAmount w, localAmount w, method_disabled sample_method w))
    (run (open_wallet "CNY") [ELoaded sample_response; EType "10"; EType "0.5"; EPreset {| ps_value := of_Z 10; ps_discount := None |}])
  = Some (Some (of_Z 10), of_Z 10, "0.5"%js, true).
Proof. vm_compute. reflexivity. Qed.
