(* ===== verification/WalletTransfer.v ===== *)
(** Model of [web/default/src/features/wallet/wallet-transfer-intent.ts]: a transfer
    between wallets is submitted under a request identifier that is stored before
    the request is sent, and that only a matching completed receipt releases.

    The server ([createWalletTransfer], [getWalletTransferReceipt]) is outside: its
    answers are the arguments of the operations.  The browser's session storage is
    a finite map whose operations may be denied. *)

From S2P Require Import Prelude Number Json.
From stdpp Require Import gmap options.

(** * Storage *)

Record Storage := {
  entries : gmap jstr jstr;
  deny_get : bool;
  deny_set : bool;
  deny_remove : bool
}.

Definition set_entries (st : Storage) (m : gmap jstr jstr) : Storage :=
  {| entries := m; deny_get := deny_get st; deny_set := deny_set st;
     deny_remove := deny_remove st |}.

Definition getItem (st : Storage) (k : jstr) : exc (option jstr) :=
  if deny_get st then Throw else Ret (entries st !! k).
Definition setItem (st : Storage) (k v : jstr) : exc Storage :=
  if deny_set st then Throw else Ret (set_entries st (<[k:=v]> (entries st))).
Definition removeItem (st : Storage) (k : jstr) : exc Storage :=
  if deny_remove st then Throw else Ret (set_entries st (delete k (entries st))).

(** User identifiers are positive integers, printed in decimal. *)
Definition storageKey (userId : N) : jstr := "wallet-transfer-pending:" ++ digits userId.

(** * Intents

    An intent is the JSON object the source declares: [requestId], [recipient],
    [amountQuota], [feeQuota], [quotaPerUSD]. *)

Definition requestId (intent : json) : option json := jget "requestId" intent.
Definition external_id (intent : json) : option json :=
  jget_opt "external_id" (jget "recipient" intent).
Definition display_name_masked (intent : json) : option json :=
  jget_opt "display_name_masked" (jget "recipient" intent).

(** A field declared as a number ([NaN] when it is not one: every use is guarded by
    [isSafeInteger] or [isFinite]). *)
Definition num_field (v : option json) : number := match v with Some (JNum n) => n | _ => NaN end.
Definition amountQuota (intent : json) : number := num_field (jget "amountQuota" intent).
Definition feeQuota (intent : json) : number := num_field (jget "feeQuota" intent).
Definition quotaPerUSD (intent : json) : number := num_field (jget "quotaPerUSD" intent).

Definition valid_intent (intent : json) : bool :=
  jtruthy intent
  && typeof_string (requestId intent) && negb (is_str (requestId intent) [])
  && typeof_string (external_id intent) && typeof_string (display_name_masked intent)
  && isSafeInteger (amountQuota intent) && (amountQuota intent >? zero)%num
  && isSafeInteger (feeQuota intent) && negb (feeQuota intent <? zero)%num
  && isFinite (quotaPerUSD intent) && (quotaPerUSD intent >? zero)%num.

Definition restoreWalletTransferIntent (userId : N) (st : Storage) : exc (option json) :=
  saved <-! getItem st (storageKey userId);
  match saved with
  | None | Some [] => Ret None
  | Some text =>
    intent <-! exc_of_option (json_parse text);
    if valid_intent intent then Ret (Some intent) else Throw
  end.

(** * Results *)

Inductive TransferResult :=
| TCompleted (transfer : json) (storageError : bool)
| TRejected (message : json) (intent : json)
| TProcessing (intent : json)
| TUnknown (intent : json) (code message : option json).

Definition unknown (intent : json) : TransferResult := TUnknown intent None None.

Definition clearWalletTransferIntent (userId : N) (intent : json) (st : Storage) : exc Storage :=
  saved <-! restoreWalletTransferIntent userId st;
  if strict_eq (jget_opt "requestId" saved) (requestId intent)
  then removeItem st (storageKey userId)
  else Ret st.

(** The conditions on a receipt that ends the transfer. *)
Definition matching_receipt (intent response : json) (receipt : option json) : bool :=
  is_bool (jget "success" response) true
  && strict_eq (jget_opt "request_id" receipt) (requestId intent)
  && is_str (jget_opt "direction" receipt) "outgoing"
  && is_str (jget_opt "status" receipt) "completed"
  && strict_eq (jget_opt "amount_quota" receipt) (jget "amountQuota" intent)
  && strict_eq (jget_opt "fee_quota" receipt) (jget "feeQuota" intent)
  && isSafeInteger (amountQuota intent + feeQuota intent)%num
  && strict_eq (jget_opt "total_debit_quota" receipt)
       (Some (JNum (amountQuota intent + feeQuota intent)%num))
  && strict_eq (jget_opt "counterparty_external_id" receipt) (external_id intent)
  && isSafeInteger (num_field (jget_opt "balance_after" receipt))
  && (num_field (jget_opt "balance_after" receipt) >=? zero)%num.

Definition or_empty_json (v : option json) : json :=
  match v with Some v => if jtruthy v then v else JStr [] | None => JStr [] end.

Definition resolveWalletTransferResponse (userId : N) (intent : json) (response : option json)
    (st : Storage) (aborted : bool) : TransferResult * Storage :=
  match response with
  | None => (unknown intent, st)
  | Some response =>
    if aborted || negb (jtruthy response) || negb (typeof_object response)
    then (unknown intent, st)
    else
      let receipt := jget "data" response in
      if matching_receipt intent response receipt then
        let transfer := match receipt with Some r => r | None => JNull end in
        match clearWalletTransferIntent userId intent st with
        | Ret st' => (TCompleted transfer false, st')
        | Throw => (TCompleted transfer true, st)
        end
      else if is_bool (jget "success" response) true
              && is_str (jget "code" response) "TRANSFER_PROCESSING"
              && strict_eq (jget_opt "request_id" receipt) (requestId intent)
              && is_str (jget_opt "status" receipt) "processing"
      then (TProcessing intent, st)
      else if is_bool (jget "success" response) false
      then (TRejected (or_empty_json (jget "message" response)) intent, st)
      else (unknown intent, st)
  end.

(** * Submitting *)

(** What the server call ends with. *)
Inductive Outcome :=
| Answer (response : option json)
| AxiosFailure (status : option Z) (failure : option json)
| OtherFailure.

Definition status_is (status : option Z) (z : Z) : bool :=
  match status with Some s => (s =? z)%Z | None => false end.

Record TransferBody := {
  b_recipient_external_id : option json;
  b_amount_quota : option json;
  b_payment_password : jstr;
  b_request_id : option json
}.

Definition body_of (intent : json) (paymentPassword : jstr) : TransferBody :=
  {| b_recipient_external_id := external_id intent;
     b_amount_quota := jget "amountQuota" intent;
     b_payment_password := paymentPassword;
     b_request_id := requestId intent |}.

(** Up to the call of the server: the storage and the intent that is sent. *)
Definition submit_begin (userId : N) (draft : json) (st : Storage) : exc (Storage * json) :=
  pending <-! restoreWalletTransferIntent userId st;
  let intent := match pending with Some p => p | None => draft end in
  st' <-! setItem st (storageKey userId) (stringify intent);
  Ret (st', intent).

(** After the call. *)
Definition submit_finish (userId : N) (intent : json) (o : Outcome) (aborted : bool)
    (st : Storage) : TransferResult * Storage :=
  match o with
  | Answer response => resolveWalletTransferResponse userId intent response st aborted
  | AxiosFailure status failure =>
    let code := jget_opt "code" failure in
    let knownFailure :=
      (status_is status 503 && is_str code "TRANSFER_UNCONFIRMED")
      || (status_is status 429
          && (is_str code "PAYMENT_PASSWORD_LOCKED" || is_str code "TRANSFER_BUSY")) in
    let message := jget_opt "message" failure in
    if knownFailure && is_bool (jget_opt "success" failure) false && typeof_string message
    then (TUnknown intent code message, st)
    else (unknown intent, st)
  | OtherFailure => (unknown intent, st)
  end.

(** The whole operation, when nothing else touches the storage during the call. *)
Definition submitWalletTransferIntent (userId : N) (draft : json) (paymentPassword : jstr)
    (st : Storage) (server : TransferBody -> Outcome) (aborted : bool)
  : exc (TransferResult * Storage) :=
  si <-! submit_begin userId draft st;
  Ret (submit_finish userId (snd si) (server (body_of (snd si) paymentPassword)) aborted (fst si)).

(** * Reading a receipt *)

Definition rejected_receipt (intent response : json) : bool :=
  (is_str (jget "code" response) "TRANSFER_REJECTED"
   || is_str (jget "code" response) "PAYMENT_PASSWORD_LOCKED")
  && strict_eq (jget_opt "request_id" (jget "data" response)) (requestId intent)
  && is_str (jget_opt "status" (jget "data" response)) "rejected".

Definition readWalletTransferIntent (userId : N) (intent : json) (o : Outcome) (aborted : bool)
    (st : Storage) : TransferResult * Storage :=
  match o with
  | Answer (Some response) =>
    if is_bool (jget "success" response) false && negb (rejected_receipt intent response)
    then (unknown intent, st)
    else resolveWalletTransferResponse userId intent (Some response) st aborted
  | Answer None => (unknown intent, st)          (* the access to [success] throws *)
  | AxiosFailure status failure =>
    if status_is status 503 && is_bool (jget_opt "success" failure) false
       && is_str (jget_opt "code" failure) "TRANSFER_UNCONFIRMED"
       && typeof_string (jget_opt "message" failure)
    then (TUnknown intent (jget_opt "code" failure) (jget_opt "message" failure), st)
    else (unknown intent, st)
  | OtherFailure => (unknown intent, st)
  end.

(** * Polling *)

(** What one round of the loop observes: the abort signal and the clock (in
    milliseconds) at the test and at the call, the answer, the signal when the
    answer is resolved and after it, the clock after it. *)
Record Round := {
  rd_aborted : bool;
  rd_now : Z;
  rd_now_call : Z;
  rd_outcome : Outcome;
  rd_resolve_aborted : bool;
  rd_aborted_after : bool;
  rd_now_after : Z
}.

Inductive PollEvent :=
| PRead (timeout : Z)
| PResult (r : TransferResult)
| PWait (ms : Z).

Definition terminal (r : TransferResult) : bool :=
  match r with TCompleted _ _ | TRejected _ _ => true | _ => false end.

(** The loop over the rounds the environment gives: its events and the storage. *)
Fixpoint poll_loop (userId : N) (intent : json) (deadline : Z) (st : Storage)
    (rounds : list Round) : list PollEvent * Storage :=
  match rounds with
  | [] => ([], st)
  | r :: rest =>
    if rd_aborted r || (deadline <=? rd_now r)%Z then ([], st)
    else
      let timeout := Z.max 1 (Z.min 10000 (deadline - rd_now_call r)) in
      let '(result, st1) :=
        readWalletTransferIntent userId intent (rd_outcome r) (rd_resolve_aborted r) st in
      if rd_aborted_after r then ([PRead timeout], st1)
      else if terminal result then ([PRead timeout; PResult result], st1)
      else
        let remaining := (deadline - rd_now_after r)%Z in
        if (remaining <=? 0)%Z then ([PRead timeout; PResult result], st1)
        else
          let '(events, st2) := poll_loop userId intent deadline st1 rest in
          (PRead timeout :: PResult result :: PWait (Z.min 2000 remaining) :: events, st2)
  end.

Definition pollWalletTransferIntent (userId : N) (intent : json) (now : Z) (st : Storage)
    (rounds : list Round) : list PollEvent * Storage :=
  poll_loop userId intent (now + 180000) st rounds.

(** * Storage lemmas *)

Lemma storageKey_inj u v : storageKey u = storageKey v -> u = v.
Proof. unfold storageKey. intros H%app_inv_head. now apply digits_inj. Qed.

(** What is stored for a user, the denials apart. *)
Definition pending (userId : N) (st : Storage) : exc (option json) :=
  match entries st !! storageKey userId with
  | None | Some [] => Ret None
  | Some text =>
    intent <-! exc_of_option (json_parse text);
    if valid_intent intent then Ret (Some intent) else Throw
  end.

Lemma restore_pending u st :
  restoreWalletTransferIntent u st = if deny_get st then Throw else pending u st.
Proof. unfold restoreWalletTransferIntent, getItem, pending. now destruct (deny_get st). Qed.

Lemma restore_Ret u st r : restoreWalletTransferIntent u st = Ret r -> pending u st = Ret r.
Proof. rewrite restore_pending. now destruct (deny_get st). Qed.

Lemma pending_other u v st m :
  u <> v -> (forall k, k <> storageKey v -> m !! k = entries st !! k) ->
  pending u (set_entries st m) = pending u st.
Proof.
  intros Hne H. unfold pending. cbn [entries set_entries]. rewrite H; [easy|].
  now intros E%storageKey_inj.
Qed.

Lemma pending_valid u st i : pending u st = Ret (Some i) -> valid_intent i = true.
Proof.
  unfold pending. destruct (entries st !! storageKey u) as [[|c t]|]; try discriminate.
  cbn. destruct (json_parse (c :: t)) as [v|]; [|discriminate]. cbn.
  destruct (valid_intent v) eqn:E; [|discriminate]. now intros [= <-].
Qed.

Lemma valid_requestId i : valid_intent i = true -> typeof_string (requestId i) = true.
Proof. unfold valid_intent. intros H. now bool_hyps. Qed.

Lemma stringify_nonempty v : valid_intent v = true -> stringify v <> [].
Proof.
  intros H%valid_requestId. now destruct v.
Qed.

Lemma setItem_Ret st k v st' : setItem st k v = Ret st' -> st' = set_entries st (<[k:=v]> (entries st)).
Proof. unfold setItem. destruct (deny_set st); [discriminate|]. now intros [= <-]. Qed.

(** What the operation stores is what it would restore. *)
Lemma pending_stored u st i :
  valid_intent i = true -> wf_json i ->
  pending u (set_entries st (<[storageKey u := stringify i]> (entries st))) = Ret (Some i).
Proof.
  intros Hv Hwf. unfold pending. cbn [entries set_entries]. rewrite lookup_insert_eq.
  destruct (stringify i) as [|c t] eqn:E; [now apply stringify_nonempty in E|].
  rewrite <- E, (read_print (print := stringify)) by easy. cbn. now rewrite Hv.
Qed.

Lemma submit_begin_inv u draft st st' i :
  submit_begin u draft st = Ret (st', i) ->
  st' = set_entries st (<[storageKey u := stringify i]> (entries st))
  /\ exists p, pending u st = Ret p /\ i = match p with Some p => p | None => draft end.
Proof.
  unfold submit_begin. destruct (restoreWalletTransferIntent u st) as [p|] eqn:E; [|discriminate].
  cbn. destruct (setItem _ _ _) as [s|] eqn:Es; [|discriminate]. cbn. intros [= <- <-].
  split; [now apply setItem_Ret|]. exists p. split; [now apply restore_Ret|easy].
Qed.

Lemma removeItem_Ret st k st' :
  removeItem st k = Ret st' -> st' = set_entries st (delete k (entries st)).
Proof. unfold removeItem. destruct (deny_remove st); [discriminate|]. now intros [= <-]. Qed.

(** Clearing removes at most the user's own entry, and only if it holds the same
    request. *)
Lemma clear_inv u i st st' :
  clearWalletTransferIntent u i st = Ret st' ->
  st' = st
  \/ (st' = set_entries st (delete (storageKey u) (entries st))
      /\ exists p, pending u st = Ret p /\ strict_eq (jget_opt "requestId" p) (requestId i) = true).
Proof.
  unfold clearWalletTransferIntent.
  destruct (restoreWalletTransferIntent u st) as [p|] eqn:E; [|discriminate]. cbn.
  destruct (strict_eq _ _) eqn:Eq; [|intros [= <-]; now left].
  intros H%removeItem_Ret. right. split; [easy|]. exists p. split; [now apply restore_Ret|easy].
Qed.

Definition completed (r : TransferResult) : bool :=
  match r with TCompleted _ _ => true | _ => false end.

Lemma resolve_inv u i resp st a r st' :
  resolveWalletTransferResponse u i resp st a = (r, st') ->
  if completed r then
    a = false /\ (exists response, resp = Some response /\ jtruthy response = true
      /\ matching_receipt i response (jget "data" response) = true)
    /\ (st' = st \/ clearWalletTransferIntent u i st = Ret st')
  else st' = st.
Proof.
  unfold resolveWalletTransferResponse. destruct resp as [response|]; [|now intros [= <- <-]].
  destruct a; [now intros [= <- <-]|]. cbn [orb].
  destruct (negb (jtruthy response) || negb (typeof_object response)) eqn:Et;
    [now intros [= <- <-]|].
  destruct (matching_receipt _ _ _) eqn:Em.
  - apply orb_false_iff in Et as [Et%negb_false_iff _].
    destruct (clearWalletTransferIntent u i st) as [s|] eqn:Ec; intros [= <- <-]; cbn;
      (split; [easy|]; split; [now exists response|auto]).
  - repeat case_goal; now intros [= <- <-].
Qed.

Lemma finish_inv u i o a st r st' :
  submit_finish u i o a st = (r, st') ->
  if completed r then
    a = false /\ (exists response, o = Answer (Some response) /\ jtruthy response = true
      /\ matching_receipt i response (jget "data" response) = true)
    /\ (st' = st \/ clearWalletTransferIntent u i st = Ret st')
  else st' = st.
Proof.
  destruct o as [resp|s f|]; cbn [submit_finish].
  - intros H%resolve_inv. destruct (completed r); [|easy].
    destruct H as (Ha & (x & -> & Hx) & Hs). split; [easy|]. split; [now exists x|easy].
  - case_goal; now intros [= <- <-].
  - now intros [= <- <-].
Qed.

Lemma read_inv u i o a st r st' :
  readWalletTransferIntent u i o a st = (r, st') ->
  if completed r then
    a = false /\ (exists response, o = Answer (Some response) /\ jtruthy response = true
      /\ matching_receipt i response (jget "data" response) = true)
    /\ (st' = st \/ clearWalletTransferIntent u i st = Ret st')
  else st' = st.
Proof.
  destruct o as [[response|]|s f|]; cbn [readWalletTransferIntent].
  - case_goal; [now intros [= <- <-]|]. intros H%resolve_inv. destruct (completed r); [|easy].
    destruct H as (Ha & (x & [= <-] & Hx) & Hs). split; [easy|]. split; [now exists response|easy].
  - now intros [= <- <-].
  - case_goal; now intros [= <- <-].
  - now intros [= <- <-].
Qed.

(** * The system

    Several operations may overlap: the storage, the intents the page holds (read from
    the storage, sent, or drawn up and not sent), the requests that wait for an
    answer, and two logs kept by no part of the program: the bodies sent to the
    server, and what came back for a user (with the signal at that moment), as it
    came back.  A read uses an intent the page holds.  The identifier of a draft is
    drawn at random ([buildWalletTransferRequestId]): it is not the pending one. *)

Record World := {
  w_storage : Storage;
  w_known : list (N * json);
  w_inflight : list (N * json);
  w_sent : list (N * TransferBody);
  w_answers : list (N * Outcome * bool)
}.

Inductive step : World -> World -> Prop :=
| StepRestore w u i :
    restoreWalletTransferIntent u (w_storage w) = Ret (Some i) ->
    step w {| w_storage := w_storage w; w_known := (u, i) :: w_known w;
              w_inflight := w_inflight w; w_sent := w_sent w; w_answers := w_answers w |}
| StepDraft w u draft :
    (forall p, pending u (w_storage w) = Ret (Some p) -> requestId draft <> requestId p) ->
    step w {| w_storage := w_storage w; w_known := (u, draft) :: w_known w;
              w_inflight := w_inflight w; w_sent := w_sent w; w_answers := w_answers w |}
| StepSubmit w u draft pw st' i :
    submit_begin u draft (w_storage w) = Ret (st', i) ->
    step w {| w_storage := st'; w_known := (u, i) :: w_known w;
              w_inflight := (u, i) :: w_inflight w;
              w_sent := (u, body_of i pw) :: w_sent w; w_answers := w_answers w |}
| StepReply w u i o a r st' l1 l2 :
    w_inflight w = l1 ++ (u, i) :: l2 ->
    submit_finish u i o a (w_storage w) = (r, st') ->
    step w {| w_storage := st'; w_known := w_known w; w_inflight := l1 ++ l2;
              w_sent := w_sent w; w_answers := (u, o, a) :: w_answers w |}
| StepRead w u i o a r st' :
    In (u, i) (w_known w) ->
    readWalletTransferIntent u i o a (w_storage w) = (r, st') ->
    step w {| w_storage := st'; w_known := w_known w; w_inflight := w_inflight w;
              w_sent := w_sent w; w_answers := (u, o, a) :: w_answers w |}
| StepDeny w g s d :
    step w {| w_storage := {| entries := entries (w_storage w); deny_get := g; deny_set := s;
                              deny_remove := d |};
              w_known := w_known w; w_inflight := w_inflight w; w_sent := w_sent w;
              w_answers := w_answers w |}.

Inductive steps : World -> World -> Prop :=
| steps_refl w : steps w w
| steps_next w w1 w2 : steps w w1 -> step w1 w2 -> steps w w2.

(** The page just opened, over whatever the storage holds. *)
Definition opened (st : Storage) : World :=
  {| w_storage := st; w_known := []; w_inflight := []; w_sent := []; w_answers := [] |}.

(** ** What a receipt of a transfer is

    Stated on the answer itself: a successful answer whose data name this request,
    an outgoing completed transfer, the amount, the fee and their sum, the recipient
    and a balance that is a safe integer. *)
Record receipt_of (i response : json) : Prop := {
  ro_success : jget "success" response = Some (JBool true);
  ro_receipt : exists receipt, jget "data" response = Some receipt
    /\ jget "request_id" receipt = requestId i
    /\ jget "direction" receipt = Some (JStr "outgoing")
    /\ jget "status" receipt = Some (JStr "completed")
    /\ (exists x, jget "amount_quota" receipt = Some (JNum x) /\ SFeqb x (amountQuota i) = true)
    /\ (exists x, jget "fee_quota" receipt = Some (JNum x) /\ SFeqb x (feeQuota i) = true)
    /\ (exists x, jget "total_debit_quota" receipt = Some (JNum x)
          /\ SFeqb x (amountQuota i + feeQuota i)%num = true)
    /\ jget "counterparty_external_id" receipt = external_id i
    /\ (exists b, jget "balance_after" receipt = Some (JNum b) /\ isSafeInteger b = true
          /\ (b >=? zero)%num = true)
}.

(** Such a receipt was received for the user, and its call was not aborted. *)
Definition receipted (u : N) (i : json) (w : World) : Prop :=
  exists response, In (u, Answer (Some response), false) (w_answers w) /\ receipt_of i response.

Lemma strict_eq_str a b :
  strict_eq a b = true -> typeof_string a = true -> b = a.
Proof.
  destruct a as [[| | |s| |]|]; try discriminate. cbn.
  destruct b as [[| | |t| |]|]; try discriminate. now intros ->%seqb_eq.
Qed.

Lemma strict_eq_str_r a b :
  strict_eq a b = true -> typeof_string b = true -> a = b.
Proof.
  destruct b as [[| | |s| |]|]; try discriminate. cbn.
  destruct a as [[| | |t| |]|]; try discriminate. cbn. now intros ->%seqb_eq.
Qed.

Lemma strict_eq_bool a b : is_bool a b = true -> a = Some (JBool b).
Proof.
  unfold is_bool. destruct a as [[|x| | | |]|]; try discriminate. cbn.
  now intros ->%Bool.eqb_prop.
Qed.

Lemma strict_eq_num a x :
  strict_eq a (Some (JNum x)) = true -> exists y, a = Some (JNum y) /\ SFeqb y x = true.
Proof. destruct a as [[| |y| | |]|]; try discriminate. cbn. eauto. Qed.

(** A number field that is a safe integer is a number. *)
Lemma safe_field v : isSafeInteger (num_field v) = true -> v = Some (JNum (num_field v)).
Proof. now destruct v as [[]|]. Qed.

Lemma valid_fields i :
  valid_intent i = true ->
  typeof_string (requestId i) = true /\ typeof_string (external_id i) = true
  /\ jget "amountQuota" i = Some (JNum (amountQuota i))
  /\ jget "feeQuota" i = Some (JNum (feeQuota i)).
Proof.
  unfold valid_intent. intros H. bool_hyps. repeat split; try easy; now apply safe_field.
Qed.

(** The conditions of the code on a receipt are those of the specification. *)
Lemma matching_receipt_of i response :
  valid_intent i = true -> matching_receipt i response (jget "data" response) = true ->
  receipt_of i response.
Proof.
  intros (Hr & He & Ha & Hf)%valid_fields Hm. unfold matching_receipt in Hm. bool_hyps.
  rewrite Ha in *. rewrite Hf in *.
  repeat match goal with
    | H : is_bool _ _ = true |- _ => apply strict_eq_bool in H
    | H : is_str _ _ = true |- _ => apply strict_eq_str_r in H; [|reflexivity]
    | H : strict_eq _ (requestId _) = true |- _ => apply strict_eq_str_r in H; [|exact Hr]
    | H : strict_eq _ (external_id _) = true |- _ => apply strict_eq_str_r in H; [|exact He]
    | H : strict_eq _ (Some (JNum _)) = true |- _ => apply strict_eq_num in H
    | H : isSafeInteger (num_field _) = true |- _ => apply safe_field in H as Hb; revert H
    end. intros.
  destruct (jget "data" response) as [receipt|] eqn:E; cbn [jget_opt] in *; [|discriminate].
  split; [easy|]. exists receipt. rewrite E. repeat split; eauto.
Qed.

(** ** The invariant

    The intent [i] of user [u] is pending; every request of [u] that was sent or is
    waited for carries it, and the other intents the page holds have other
    identifiers. *)
Record held (u : N) (i : json) (w : World) : Prop := {
  held_pending : pending u (w_storage w) = Ret (Some i);
  held_known : forall j, In (u, j) (w_known w) -> j = i \/ requestId j <> requestId i;
  held_inflight : forall j, In (u, j) (w_inflight w) -> j = i;
  held_sent : Forall (fun ub => fst ub = u ->
                exists pw, snd ub = body_of i pw) (w_sent w)
}.

Lemma opened_held u i st : pending u st = Ret (Some i) -> held u i (opened st).
Proof. intros H. split; [easy|easy|easy|constructor]. Qed.

(** What an answer may do to the pending intent [i]: nothing, unless it is an
    unaborted receipt of [i] (the intent [j] of the call is [i] or has another
    identifier). *)
Lemma answered_pending u i v j o a r st st' :
  pending u st = Ret (Some i) ->
  (v = u -> j = i \/ requestId j <> requestId i) ->
  submit_finish v j o a st = (r, st') \/ readWalletTransferIntent v j o a st = (r, st') ->
  pending u st' = Ret (Some i)
  \/ (v = u /\ a = false /\ exists response, o = Answer (Some response) /\ receipt_of i response).
Proof.
  intros Hp Hj H.
  assert (Hi : if completed r then
    a = false /\ (exists response, o = Answer (Some response) /\ jtruthy response = true
      /\ matching_receipt j response (jget "data" response) = true)
    /\ (st' = st \/ clearWalletTransferIntent v j st = Ret st')
    else st' = st) by (destruct H as [H|H]; [now apply finish_inv in H|now apply read_inv in H]).
  destruct (completed r); [|left; now subst].
  destruct Hi as (-> & (x & -> & _ & Hx) & [->|Hc]); [now left|].
  apply clear_inv in Hc as [->|(-> & p & Ep & Eq)]; [now left|].
  destruct (N.eq_dec v u) as [->|Hne].
  - rewrite Hp in Ep. injection Ep as <-. cbn [jget_opt] in Eq. fold (requestId i) in Eq.
    pose proof (pending_valid u st i Hp) as Hv.
    apply strict_eq_str in Eq; [|now apply valid_requestId].
    right. destruct (Hj eq_refl) as [->|Hd]; [|contradiction].
    split; [easy|]. split; [easy|]. exists x. split; [easy|]. now apply matching_receipt_of.
  - left. rewrite <- Hp. apply (pending_other u v); [easy|]. intros k Hk. now rewrite lookup_delete_ne.
Qed.

Lemma submit_held u i v draft pw st' j w :
  wf_json i -> submit_begin v draft (w_storage w) = Ret (st', j) -> held u i w ->
  held u i {| w_storage := st'; w_known := (v, j) :: w_known w;
              w_inflight := (v, j) :: w_inflight w;
              w_sent := (v, body_of j pw) :: w_sent w; w_answers := w_answers w |}.
Proof.
  intros Hwf (-> & p & Ep & ->)%submit_begin_inv [Hp Hk Hf Hs].
  destruct (N.eq_dec v u) as [->|Hne].
  - rewrite Hp in Ep. injection Ep as <-. split; cbn.
    + now apply pending_stored; [apply (pending_valid u (w_storage w))|].
    + intros k [[= <-]|H]; auto.
    + intros k [[= <-]|H]; auto.
    + constructor; [|easy]. cbn. eauto.
  - split; cbn.
    + rewrite <- Hp. apply (pending_other u v); [easy|]. intros k Hk'. now rewrite lookup_insert_ne.
    + intros k [[= -> _]|H]; [easy|auto].
    + intros k [[= -> _]|H]; [easy|auto].
    + constructor; [|easy]. cbn. congruence.
Qed.

Lemma step_held u i w w' :
  wf_json i -> step w w' -> held u i w -> held u i w' \/ receipted u i w'.
Proof.
  intros Hwf Hs Hh. destruct Hs as [w v j Hr|w v d Hd|w v d pw st' j Hb|w v j o a r st' l1 l2 Hf Hr
    |w v j o a r st' Hin Hr|w g s d]; destruct Hh as [Hp Hk Hi Hsent].
  - left. split; try easy. cbn. intros k [[= -> <-]|H]; [|auto].
    apply restore_Ret in Hr. left. congruence.
  - left. split; try easy. cbn. intros k [[= -> <-]|H]; [|auto]. right. now apply Hd.
  - left. now apply (submit_held u i v d).
  - rewrite Hf in Hi. destruct (answered_pending u i v j o a r (w_storage w) st' Hp) as [H|H]; auto.
    { intros ->. left. apply Hi, in_app_iff. right. now left. }
    + left. split; try easy. cbn. intros k Hk'. apply Hi, in_app_iff.
      apply in_app_iff in Hk' as [?|?]; [now left|right; now right].
    + right. destruct H as (-> & -> & x & -> & Hx). exists x. cbn. auto.
  - destruct (answered_pending u i v j o a r (w_storage w) st' Hp) as [H|H]; auto.
    { intros ->. now apply Hk. }
    + left. now split.
    + right. destruct H as (-> & -> & x & -> & Hx). exists x. cbn. auto.
  - left. now split.
Qed.

Lemma step_receipted u i w w' : step w w' -> receipted u i w -> receipted u i w'.
Proof. intros Hs (x & Hin & Hx). exists x. split; [|easy]. destruct Hs; cbn; auto. Qed.

(** * Properties *)

(** C1: a page opens on a storage that holds a pending transfer.  Whatever drafts are
    drawn up and submitted, whatever the server answers, in whatever order, and
    whatever the storage refuses: the transfer stays pending, and every request of
    its user carries its identifier, amount and recipient, until an answer that was
    not aborted is a receipt of that very transfer: successful, naming its request
    identifier, outgoing, completed, with its amount, its fee, their total, its
    recipient and a balance. *)
Theorem pending_until_completed (u : N) (i : json) (st : Storage) (w : World) :
  wf_json i -> pending u st = Ret (Some i) -> steps (opened st) w ->
  receipted u i w
  \/ (pending u (w_storage w) = Ret (Some i)
      /\ Forall (fun ub => fst ub = u -> exists pw, snd ub = body_of i pw) (w_sent w)).
Proof.
  intros Hwf Hp Hs.
  assert (H : held u i w \/ receipted u i w).
  { remember (opened st) as w0 eqn:E. induction Hs as [w|w w1 w2 _ IH Hstep]; subst.
    - left. now apply opened_held.
    - destruct (IH eq_refl) as [Hh|Hr]; [now apply (step_held u i w1)|].
      right. now apply (step_receipted u i w1). }
  destruct H as [[]|]; auto.
Qed.

Definition sample_intent : json :=
  JObj [("requestId", JStr "r1");
        ("recipient", JObj [("external_id", JStr "ABC"); ("display_name_masked", JStr "A***")]);
        ("amountQuota", JNum (of_Z 500000)); ("feeQuota", JNum (of_Z 5000));
        ("quotaPerUSD", JNum (of_Z 500000))].

Definition sample_storage : Storage :=
  {| entries := {[ storageKey 1 := stringify sample_intent ]};
     deny_get := false; deny_set := false; deny_remove := false |}.

(** The same transfer under another identifier, and a completed receipt of it. *)
Definition other_intent : json :=
  JObj [("requestId", JStr "r0");
        ("recipient", JObj [("external_id", JStr "ABC"); ("display_name_masked", JStr "A***")]);
        ("amountQuota", JNum (of_Z 500000)); ("feeQuota", JNum (of_Z 5000));
        ("quotaPerUSD", JNum (of_Z 500000))].

Definition other_receipt : json :=
  JObj [("success", JBool true);
        ("data", JObj [("request_id", JStr "r0"); ("direction", JStr "outgoing");
           ("status", JStr "completed"); ("amount_quota", JNum (of_Z 500000));
           ("fee_quota", JNum (of_Z 5000)); ("total_debit_quota", JNum (of_Z 505000));
           ("counterparty_external_id", JStr "ABC"); ("balance_after", JNum (of_Z 7))])].

Lemma sample_num z : (0 <= z)%Z -> z = 500000%Z \/ z = 5000%Z -> num_ok (of_Z z).
Proof. intros _ [->| ->]; vm_compute; repeat constructor; easy. Qed.

Lemma sample_wf : wf_json sample_intent.
Proof.
  assert (Hs : forall s, forallb (fun c => (c <? 65536)%N) s = true -> wf_str s).
  { intros s H. apply List.Forall_forall. intros c Hc. apply N.ltb_lt.
    exact (proj1 (forallb_forall _ _) H c Hc). }
  split; [vm_compute; reflexivity|]. cbn [fold_right fst snd].
  repeat split; try (now apply Hs); apply sample_num; auto; lia.
Qed.

(** A run: the page draws up a transfer [r0] and submits it, and [r1], which is
    pending, is what is sent; the answer is the receipt of [r0]. *)
Definition sample_run : World :=
  {| w_storage := sample_storage; w_known := [(1%N, sample_intent)]; w_inflight := [];
     w_sent := [(1%N, body_of sample_intent "pw")];
     w_answers := [(1%N, Answer (Some other_receipt), false)] |}.

Lemma sample_steps : steps (opened sample_storage) sample_run.
Proof.
  eapply (steps_next _
    {| w_storage := sample_storage; w_known := [(1%N, sample_intent)];
       w_inflight := [(1%N, sample_intent)]; w_sent := [(1%N, body_of sample_intent "pw")];
       w_answers := [] |}).
  - eapply (steps_next _ (opened sample_storage)); [constructor|].
    apply (StepSubmit (opened sample_storage) 1 other_intent "pw" sample_storage sample_intent). vm_compute. reflexivity.
  - apply (StepReply {| w_storage := sample_storage; w_known := [(1%N, sample_intent)];
             w_inflight := [(1%N, sample_intent)]; w_sent := [(1%N, body_of sample_intent "pw")];
             w_answers := [] |} 1 sample_intent (Answer (Some other_receipt)) false
             (unknown sample_intent) sample_storage [] []); vm_compute; reflexivity.
Qed.

Lemma pending_until_completed_witness :
  receipted 1 sample_intent sample_run
  \/ (pending 1 (w_storage sample_run) = Ret (Some sample_intent)
      /\ Forall (fun ub => fst ub = 1%N -> exists pw, snd ub = body_of sample_intent pw)
           (w_sent sample_run)).
Proof.
  apply (pending_until_completed 1 sample_intent sample_storage sample_run).
  - exact sample_wf.
  - vm_compute. reflexivity.
  - exact sample_steps.
Defined.

(** The receipt of the other transfer is none of this one. *)
Lemma sample_not_receipted : ~ receipted 1 sample_intent sample_run.
Proof.
  intros (x & [[= <-]|[]] & _ & r & E & Hr & _). vm_compute in E. injection E as <-.
  vm_compute in Hr. discriminate.
Qed.

(** C2: when a request is about to be sent, what was stored before is exactly the
    intent that is sent: the pending one if there was one, the draft otherwise;
    nothing stored for another user changes. *)
Theorem persisted_before_send (u : N) (draft i : json) (st st' : Storage) :
  submit_begin u draft st = Ret (st', i) -> valid_intent draft = true -> wf_json i ->
  pending u st' = Ret (Some i)
  /\ (pending u st = Ret (Some i) \/ (pending u st = Ret None /\ i = draft))
  /\ (forall v, v <> u -> pending v st' = pending v st).
Proof.
  intros (-> & p & Ep & Ei)%submit_begin_inv Hd Hwf. split; [|split].
  - apply pending_stored; [|easy]. destruct p as [p|]; subst; [|easy].
    now apply (pending_valid u st).
  - destruct p as [p|]; subst; auto.
  - intros v Hv. apply (pending_other v u); [easy|]. intros k Hk. now rewrite lookup_insert_ne.
Qed.

Lemma persisted_before_send_witness :
  exists st', submit_begin 2 sample_intent sample_storage = Ret (st', sample_intent)
  /\ pending 2 st' = Ret (Some sample_intent)
  /\ (pending 2 sample_storage = Ret (Some sample_intent)
      \/ (pending 2 sample_storage = Ret None /\ sample_intent = sample_intent))
  /\ (forall v, v <> 2%N -> pending v st' = pending v sample_storage).
Proof.
  eexists. split; [vm_compute; reflexivity|].
  apply (persisted_before_send 2 sample_intent sample_intent sample_storage).
  - vm_compute. reflexivity.
  - vm_compute. reflexivity.
  - exact sample_wf.
Defined.

(** an answer changes the storage only if it completes the transfer, and then
    only the user's own entry; a transfer is completed only by an answer that was
    not aborted and whose receipt matches the request, the amounts, their total
    and the recipient. *)
Theorem completion_sound (u : N) (i : json) (o : Outcome) (a : bool) (st st' : Storage)
    (r : TransferResult) :
  submit_finish u i o a st = (r, st') \/ readWalletTransferIntent u i o a st = (r, st') ->
  (completed r = false -> st' = st)
  /\ (completed r = true ->
      a = false
      /\ exists response, o = Answer (Some response)
         /\ matching_receipt i response (jget "data" response) = true)
  /\ (forall v, v <> u -> pending v st' = pending v st).
Proof.
  intros H.
  assert (Hi : if completed r then
    a = false /\ (exists response, o = Answer (Some response) /\ jtruthy response = true
      /\ matching_receipt i response (jget "data" response) = true)
    /\ (st' = st \/ clearWalletTransferIntent u i st = Ret st')
    else st' = st) by (destruct H as [H|H]; [now apply finish_inv|now apply read_inv]).
  destruct (completed r); [|now subst].
  destruct Hi as (-> & (x & -> & _ & Hx) & Hs). split; [easy|]. split; [eauto|].
  intros v Hv. destruct Hs as [->|[->|(-> & _)]%clear_inv]; [easy..|].
  apply (pending_other v u); [easy|]. intros k Hk. now rewrite lookup_delete_ne.
Qed.

Lemma completion_sound_witness :
  let r := (TUnknown sample_intent None None, sample_storage) in
  (completed (fst r) = false -> snd r = sample_storage)
  /\ (completed (fst r) = true ->
      false = false
      /\ exists response, OtherFailure = Answer (Some response)
         /\ matching_receipt sample_intent response (jget "data" response) = true)
  /\ (forall v, v <> 1%N -> pending v (snd r) = pending v sample_storage).
Proof. apply (completion_sound 1 sample_intent OtherFailure false). left. reflexivity. Defined.

(** polling issues reads with a timeout between 1 ms and 10 s and waits at most
    2 s between them, and stops after the first completed or rejected result. *)
Theorem poll_protocol (u : N) (i : json) (now : Z) (st : Storage) (rounds : list Round) :
  let events := fst (pollWalletTransferIntent u i now st rounds) in
  Forall (fun e => match e with
                   | PRead t => (1 <= t <= 10000)%Z
                   | PWait ms => (1 <= ms <= 2000)%Z
                   | PResult _ => True
                   end) events
  /\ (forall before r after, events = before ++ PResult r :: after -> terminal r = true -> after = []).
Proof.
  unfold pollWalletTransferIntent. generalize (now + 180000)%Z as deadline. intros deadline.
  revert st; induction rounds as [|r rounds IH]; intros st; cbn [poll_loop].
  - split; [constructor|]. now intros [|? ?] x after.
  - destruct (_ || _); [split; [constructor|now intros [|? ?] x after]|].
    destruct (readWalletTransferIntent u i (rd_outcome r) (rd_resolve_aborted r) st) as [res st1].
    assert (Ht : (1 <= Z.max 1 (Z.min 10000 (deadline - rd_now_call r)) <= 10000)%Z) by lia.
    destruct (rd_aborted_after r).
    { split; [now constructor|]. now intros [|? [|? ?]] x after. }
    destruct (terminal res) eqn:Et.
    { split; [now repeat constructor|]. intros [|? [|? [|? ?]]] x after; try easy. now intros [= _ _ <-]. }
    destruct (Z.leb_spec (deadline - rd_now_after r) 0).
    { split; [now repeat constructor|]. intros [|? [|? [|? ?]]] x after; try easy. now intros [= _ _ <-]. }
    specialize (IH st1). destruct (poll_loop u i deadline st1 rounds) as [events st2].
    cbn [fst] in *. destruct IH as [IH1 IH2]. split; [repeat constructor; [lia..|easy]|].
    intros [|? [|? [|? before]]] x after; try easy.
    + intros [= _ <- _]. congruence.
    + intros [= _ _ _ E]. now apply (IH2 before x).
Qed.
