(* ===== verification/BlindBoxPayment.v ===== *)
(** Model of the payment of blind boxes: [web/default/src/features/wallet/components/
    use-blind-box-payment.ts], with its data in [blind-box-dialog-data.ts] and the dialog
    that calls its handlers, [blind-box-payment-dialog.tsx].

    The hook is a transition system.  Between two [await]s nothing interleaves, so a step is
    a user action, the answer to a request in flight, the interval timer, a retry timeout, or
    a render; every interleaving is a list of steps.  A render runs the effect that polls a
    pending order again (its dependencies changed); the pause between a render and its
    effects is not modelled.  The handlers of the dialog read the state of the last render,
    and the dialog offers them only while it is open.  The translation, the clock and the
    server's answers are arguments. *)

From S2P Require Import Prelude Number Json.
From stdpp Require Import options.

(** * Data *)

Inductive PaymentStage := Idle | Pending | Success | Failed.

#[export] Instance payment_stage_eq_dec : EqDecision PaymentStage.
Proof. solve_decision. Defined.

Record RetryPayload := { rp_quantity : number; rp_paymentMethod : jstr }.

Record BlindBoxPaymentState := {
  bp_open : bool;
  bp_stage : PaymentStage;
  bp_orderId : jstr;
  bp_amountDue : number;
  bp_methodLabel : jstr;
  bp_payUrl : jstr;
  bp_qrCodeUrl : jstr;
  bp_formUrl : jstr;
  bp_formFields : option (list (jstr * json));
  bp_quantity : number;
  bp_message : jstr;
  bp_pollingStartTime : option number;
  bp_retryPayload : option RetryPayload
}.

Definition EMPTY_PAYMENT_STATE : BlindBoxPaymentState :=
  {| bp_open := false; bp_stage := Idle; bp_orderId := []; bp_amountDue := zero; bp_methodLabel := [];
     bp_payUrl := []; bp_qrCodeUrl := []; bp_formUrl := []; bp_formFields := None; bp_quantity := zero;
     bp_message := []; bp_pollingStartTime := None; bp_retryPayload := None |}.

Record PaymentMethod := { pm_name : jstr; pm_type : jstr }.

(** The answer to a payment request; an absent message is the empty one. *)
Record PaymentResponse := {
  py_success : bool;
  py_message : jstr;
  py_url : option json;
  py_data : option json
}.

Definition isApiSuccess (success : bool) (message : jstr) : bool := success || (message =s "success").

Section Payment.
Context (t : jstr -> jstr).

Definition getBlindBoxMethodLabel (method : option PaymentMethod) : jstr :=
  match method with
  | None => t "未选择"
  | Some m => if pm_type m =s "xunhu" then t "微信支付（XunhuPay）"
              else str_or (pm_name m) (str_or (pm_type m) (t "在线支付"))
  end.

Definition friendlyPaymentError (message : jstr) : jstr :=
  if includes message "余额不足" || includes message "insufficient" then t "余额不足，请先充值"
  else if includes message "超时" || includes message "timeout" then t "网络超时，请检查网络连接后重试"
  else if includes message "限额" || includes message "limit" then t "已达到购买限额，请稍后再试"
  else message.

(** * Paying *)

(** The options of the hook that paying reads, and what it has checked of them. *)
Record PayOptions := {
  po_amountDue : option number;
  po_selectedPaymentMethod : option PaymentMethod;
  po_selectedQuantity : number
}.

Record PayCall := { pc_amountDue : number; pc_method : PaymentMethod; pc_quantity : number }.

(** The checks before the request; [None] is a message and no request. *)
Definition start_pay (o : PayOptions) : option PayCall :=
  match po_amountDue o, po_selectedPaymentMethod o with
  | Some amountDue, Some method =>
    Some {| pc_amountDue := amountDue; pc_method := method; pc_quantity := po_selectedQuantity o |}
  | _, _ => None
  end.

Definition isRecord (v : option json) : option (list (jstr * json)) :=
  match v with Some (JObj o) => Some o | _ => None end.

(** [String(v || '')] and [Number(v || d)] *)
Definition text_or_empty (v : option json) : jstr :=
  match v with Some v => if jtruthy v then js_String v else [] | None => [] end.

Definition number_or (v : option json) (d : number) : number :=
  match v with Some v => if jtruthy v then js_Number v else d | None => d end.

Definition retry_of (c : PayCall) : RetryPayload :=
  {| rp_quantity := pc_quantity c; rp_paymentMethod := pm_type (pc_method c) |}.

(** The page that is opened. *)
Inductive Opened := SubmitForm (url : jstr) (fields : list (jstr * json)) | OpenWindow (url : jstr).

(** The pending state of an order, or the error that is thrown. *)
Definition pay_result (now : number) (c : PayCall) (r : PaymentResponse) : BlindBoxPaymentState * Opened + jstr :=
  if negb (isApiSuccess (py_success r) (py_message r)) then
    inr (friendlyPaymentError (str_or (py_message r) (t "发起支付失败")))
  else
    let payload := match isRecord (py_data r) with Some o => o | None => [] end in
    let formFields := isRecord (obj_get "form" payload) in
    let payUrl := text_or_empty (obj_get "pay_url" payload) in
    let formUrl := match formFields with Some _ => text_or_empty (py_url r) | None => [] end in
    let page := match formFields with
                | Some fields => if truthy formUrl then Some (SubmitForm formUrl fields) else None
                | None => None
                end in
    match page, truthy payUrl with
    | None, false => inr (t "支付网关未返回可打开的支付页面")
    | _, _ =>
      inl ({| bp_open := false; bp_stage := Pending; bp_orderId := text_or_empty (obj_get "order_id" payload);
              bp_amountDue := number_or (obj_get "amount_due" payload) (pc_amountDue c);
              bp_methodLabel := getBlindBoxMethodLabel (Some (pc_method c)); bp_payUrl := payUrl;
              bp_qrCodeUrl := text_or_empty (obj_get "qrcode_url" payload); bp_formUrl := formUrl;
              bp_formFields := formFields; bp_quantity := number_or (obj_get "quantity" payload) (pc_quantity c);
              bp_message := t "支付页已打开，付款完成后结果会自动同步。"; bp_pollingStartTime := Some now;
              bp_retryPayload := Some (retry_of c) |},
           match page with Some p => p | None => OpenWindow payUrl end)
    end.

Definition failed_payment (c : PayCall) (message : jstr) : BlindBoxPaymentState :=
  {| bp_open := true; bp_stage := Failed; bp_orderId := []; bp_amountDue := pc_amountDue c;
     bp_methodLabel := getBlindBoxMethodLabel (Some (pc_method c)); bp_payUrl := []; bp_qrCodeUrl := [];
     bp_formUrl := []; bp_formFields := None; bp_quantity := pc_quantity c; bp_message := message;
     bp_pollingStartTime := None; bp_retryPayload := Some (retry_of c) |}.

(** A request that throws has the message of its [Error], or none. *)
Inductive PayAnswer := PayAnswered (r : PaymentResponse) | PayThrew (message : option jstr).

Definition pay_answered (now : number) (c : PayCall) (a : PayAnswer) : BlindBoxPaymentState * option Opened :=
  match a with
  | PayThrew (Some message) => (failed_payment c message, None)
  | PayThrew None => (failed_payment c (t "发起支付失败"), None)
  | PayAnswered r => match pay_result now c r with
                     | inl (s, page) => (s, Some page)
                     | inr message => (failed_payment c message, None)
                     end
  end.

(** * The machine *)

Definition with_open (open : bool) (s : BlindBoxPaymentState) : BlindBoxPaymentState :=
  {| bp_open := open; bp_stage := bp_stage s; bp_orderId := bp_orderId s; bp_amountDue := bp_amountDue s;
     bp_methodLabel := bp_methodLabel s; bp_payUrl := bp_payUrl s; bp_qrCodeUrl := bp_qrCodeUrl s;
     bp_formUrl := bp_formUrl s; bp_formFields := bp_formFields s; bp_quantity := bp_quantity s;
     bp_message := bp_message s; bp_pollingStartTime := bp_pollingStartTime s;
     bp_retryPayload := bp_retryPayload s |}.

(** [{ ...current, stage: 'failed', message }] *)
Definition fail_with (message : jstr) (s : BlindBoxPaymentState) : BlindBoxPaymentState :=
  {| bp_open := bp_open s; bp_stage := Failed; bp_orderId := bp_orderId s; bp_amountDue := bp_amountDue s;
     bp_methodLabel := bp_methodLabel s; bp_payUrl := bp_payUrl s; bp_qrCodeUrl := bp_qrCodeUrl s;
     bp_formUrl := bp_formUrl s; bp_formFields := bp_formFields s; bp_quantity := bp_quantity s;
     bp_message := message; bp_pollingStartTime := bp_pollingStartTime s; bp_retryPayload := bp_retryPayload s |}.

(** What a poll waits for. *)
Inductive PollAt := AtStatus | AtSelf | AtRefresh | AtExpiredRefresh.

(** A poll in flight: the effect that started it and the state that effect was made from. *)
Record Poll := { pl_effect : nat; pl_state : BlindBoxPaymentState; pl_at : PollAt }.

Inductive Request :=
| ReqPay (quantity : number) (paymentMethod : jstr)
| ReqStatus (orderId : jstr)
| ReqSelf
| ReqCancel (orderId : jstr).

(** A cancellation in flight: its request, or the refresh after it. *)
Inductive CancelAt := CancelSent (orderId : jstr) | CancelRefreshing.

Record Machine := {
  mc_state : BlindBoxPaymentState;              (* the state that is set *)
  mc_rendered : BlindBoxPaymentState;           (* the state of the last render *)
  mc_effect : option nat;                       (* the polling effect that is mounted *)
  mc_effects : nat;                             (* how many have been *)
  mc_polls : list Poll;
  mc_paying : bool;
  mc_pays : list PayCall;                       (* payment requests in flight *)
  mc_retries : list PayOptions;                 (* timeouts of a retry *)
  mc_exitConfirm : bool;
  mc_cancels : list CancelAt;
  mc_requests : list Request;                   (* everything sent, the last first *)
  mc_opened : list Opened
}.

Definition init : Machine :=
  {| mc_state := EMPTY_PAYMENT_STATE; mc_rendered := EMPTY_PAYMENT_STATE; mc_effect := None; mc_effects := 0;
     mc_polls := []; mc_paying := false; mc_pays := []; mc_retries := []; mc_exitConfirm := false;
     mc_cancels := []; mc_requests := []; mc_opened := [] |}.

Definition set_state (s : BlindBoxPaymentState) (m : Machine) : Machine :=
  {| mc_state := s; mc_rendered := mc_rendered m; mc_effect := mc_effect m; mc_effects := mc_effects m;
     mc_polls := mc_polls m; mc_paying := mc_paying m; mc_pays := mc_pays m; mc_retries := mc_retries m;
     mc_exitConfirm := mc_exitConfirm m; mc_cancels := mc_cancels m; mc_requests := mc_requests m;
     mc_opened := mc_opened m |}.

Definition with_polls (ps : list Poll) (rs : list Request) (m : Machine) : Machine :=
  {| mc_state := mc_state m; mc_rendered := mc_rendered m; mc_effect := mc_effect m; mc_effects := mc_effects m;
     mc_polls := ps; mc_paying := mc_paying m; mc_pays := mc_pays m; mc_retries := mc_retries m;
     mc_exitConfirm := mc_exitConfirm m; mc_cancels := mc_cancels m; mc_requests := rs ++ mc_requests m;
     mc_opened := mc_opened m |}.

Definition with_pays (paying : bool) (ps : list PayCall) (rs : list Request) (opened : list Opened) (m : Machine) : Machine :=
  {| mc_state := mc_state m; mc_rendered := mc_rendered m; mc_effect := mc_effect m; mc_effects := mc_effects m;
     mc_polls := mc_polls m; mc_paying := paying; mc_pays := ps; mc_retries := mc_retries m;
     mc_exitConfirm := mc_exitConfirm m; mc_cancels := mc_cancels m; mc_requests := rs ++ mc_requests m;
     mc_opened := opened ++ mc_opened m |}.

Definition with_dialog (exitConfirm : bool) (cancels : list CancelAt) (rs : list Request) (opened : list Opened)
  (m : Machine) : Machine :=
  {| mc_state := mc_state m; mc_rendered := mc_rendered m; mc_effect := mc_effect m; mc_effects := mc_effects m;
     mc_polls := mc_polls m; mc_paying := mc_paying m; mc_pays := mc_pays m; mc_retries := mc_retries m;
     mc_exitConfirm := exitConfirm; mc_cancels := cancels; mc_requests := rs ++ mc_requests m;
     mc_opened := opened ++ mc_opened m |}.

Definition with_retries (rs : list PayOptions) (m : Machine) : Machine :=
  {| mc_state := mc_state m; mc_rendered := mc_rendered m; mc_effect := mc_effect m; mc_effects := mc_effects m;
     mc_polls := mc_polls m; mc_paying := mc_paying m; mc_pays := mc_pays m; mc_retries := rs;
     mc_exitConfirm := mc_exitConfirm m; mc_cancels := mc_cancels m; mc_requests := mc_requests m;
     mc_opened := mc_opened m |}.

(** ** Polling *)

(** Does the effect poll? *)
Definition polls (s : BlindBoxPaymentState) : bool := bool_decide (bp_stage s = Pending) && truthy (bp_orderId s).

(** [pollOrder] of the effect [e], made from the state [s]. *)
Definition pollOrder (e : nat) (s : BlindBoxPaymentState) (m : Machine) : Machine :=
  with_polls (mc_polls m ++ [{| pl_effect := e; pl_state := s; pl_at := AtStatus |}]) [ReqStatus (bp_orderId s)] m.

(** A render: the effect is cleaned up and runs again with the new state, and polls at once. *)
Definition render (m : Machine) : Machine :=
  let s := mc_state m in
  let e := mc_effects m in
  let m' := {| mc_state := s; mc_rendered := s; mc_effect := if polls s then Some e else None;
               mc_effects := S e; mc_polls := mc_polls m; mc_paying := mc_paying m; mc_pays := mc_pays m;
               mc_retries := mc_retries m; mc_exitConfirm := mc_exitConfirm m; mc_cancels := mc_cancels m;
               mc_requests := mc_requests m; mc_opened := mc_opened m |} in
  if polls s then pollOrder e s m' else m'.

(** The interval timer of the mounted effect. *)
Definition tick (m : Machine) : Machine :=
  match mc_effect m with Some e => pollOrder e (mc_rendered m) m | None => m end.

(** What a poll is answered: the status of the order ([None]: no success or no data), or the
    outcome of the reading of the data and of the two refreshes. *)
Inductive PollAnswer :=
| PaStatus (status : option jstr)
| PaDone (success : bool)
| PaThrew (message : option jstr).

Definition poll_failed (message : option jstr) (m : Machine) : Machine :=
  let message := match message with Some s => s | None => [] end in
  if includes message "timeout" || includes message "超时"
  then set_state (fail_with (t "支付超时，请检查网络连接后重试") (mc_state m)) m
  else m.

(** The poll goes on at [at_]. *)
Definition goes_on (k : nat) (p : Poll) (at_ : PollAt) (rs : list Request) (m : Machine) : Machine :=
  with_polls (<[k := {| pl_effect := pl_effect p; pl_state := pl_state p; pl_at := at_ |}]> (mc_polls m)) rs m.

(** [active] of the effect of a poll *)
Definition active (p : Poll) (m : Machine) : bool := bool_decide (mc_effect m = Some (pl_effect p)).

Definition poll_answered (k : nat) (a : PollAnswer) (m : Machine) : Machine :=
  match mc_polls m !! k with
  | None => m
  | Some p =>
    let ended := with_polls (base.delete k (mc_polls m)) [] m in
    match a, pl_at p with
    | PaThrew message, _ => poll_failed message ended
    | PaStatus status, AtStatus =>
      match status with
      | None => ended
      | Some status =>
        if negb (active p m) then ended
        else if status =s "success" then goes_on k p AtSelf [ReqSelf] m
        else if status =s "expired" then
          if bp_open (pl_state p)
          then set_state (fail_with (t "订单已过期或支付未完成，请重新发起购买。") (mc_state m)) ended
          else set_state EMPTY_PAYMENT_STATE (goes_on k p AtExpiredRefresh [] m)
        else ended
      end
    | PaDone _, AtSelf => goes_on k p AtRefresh [] m
    | PaDone _, AtRefresh => set_state EMPTY_PAYMENT_STATE ended
    | PaDone _, AtExpiredRefresh => ended
    | _, _ => m
    end
  end.

(** ** Paying and retrying *)

Definition handlePay (o : PayOptions) (m : Machine) : Machine :=
  match start_pay o with
  | None => m
  | Some c => with_pays true (mc_pays m ++ [c]) [ReqPay (pc_quantity c) (pm_type (pc_method c))] [] m
  end.

Definition pay_returns (now : number) (k : nat) (a : PayAnswer) (m : Machine) : Machine :=
  match mc_pays m !! k with
  | None => m
  | Some c =>
    let '(s, page) := pay_answered now c a in
    set_state s (with_pays false (base.delete k (mc_pays m)) [] (match page with Some p => [p] | None => [] end) m)
  end.

(** The handlers of the dialog read the rendered state.  The retry pays with the options of
    that render once its timeout has run. *)
Definition handleRetryPayment (payMethods : list PaymentMethod) (o : PayOptions) (m : Machine) : Machine :=
  match bp_retryPayload (mc_rendered m) with
  | None => m
  | Some r =>
    match List.find (fun p => pm_type p =s rp_paymentMethod r) payMethods with
    | None => set_state EMPTY_PAYMENT_STATE m
    | Some _ => with_retries (mc_retries m ++ [o]) (set_state EMPTY_PAYMENT_STATE m)
    end
  end.

Definition retry_fires (k : nat) (m : Machine) : Machine :=
  match mc_retries m !! k with
  | None => m
  | Some o => handlePay o (with_retries (base.delete k (mc_retries m)) m)
  end.

Definition handleOpenExternal (m : Machine) : Machine :=
  let s := mc_rendered m in
  match bp_formFields s with
  | Some fields => if truthy (bp_formUrl s) then with_dialog (mc_exitConfirm m) (mc_cancels m) [] [SubmitForm (bp_formUrl s) fields] m
                   else if truthy (bp_payUrl s) then with_dialog (mc_exitConfirm m) (mc_cancels m) [] [OpenWindow (bp_payUrl s)] m
                   else m
  | None => if truthy (bp_payUrl s) then with_dialog (mc_exitConfirm m) (mc_cancels m) [] [OpenWindow (bp_payUrl s)] m else m
  end.

(** ** Leaving *)

Definition handleCloseAttempt (m : Machine) : Machine :=
  if bool_decide (bp_stage (mc_rendered m) = Pending) then with_dialog true (mc_cancels m) [] [] m
  else set_state EMPTY_PAYMENT_STATE m.

(** [handleConfirmExit] of the dialog, which awaits [handleCancelPayment]. *)
Definition handleCancelPayment (m : Machine) : Machine :=
  let s := mc_rendered m in
  if polls s
  then with_dialog (mc_exitConfirm m) (mc_cancels m ++ [CancelSent (bp_orderId s)]) [ReqCancel (bp_orderId s)] [] m
  else set_state EMPTY_PAYMENT_STATE (with_dialog false (mc_cancels m) [] [] m).

Definition cancel_returns (k : nat) (ok : bool) (m : Machine) : Machine :=
  let removed := base.delete k (mc_cancels m) in
  match mc_cancels m !! k with
  | None => m
  | Some (CancelSent _) =>
    if ok then set_state EMPTY_PAYMENT_STATE
                 (with_dialog (mc_exitConfirm m) (<[k := CancelRefreshing]> (mc_cancels m)) [] [] m)
    else with_dialog (mc_exitConfirm m) removed [] [] m
  | Some CancelRefreshing => with_dialog (if ok then false else mc_exitConfirm m) removed [] [] m
  end.

Definition handleContinuePaymentInBackground (m : Machine) : Machine :=
  let m := with_dialog false (mc_cancels m) [] [] m in set_state (with_open false (mc_state m)) m.

(** ** Steps *)

Inductive Event :=
| EvRender
| EvTick
| EvPollAnswer (k : nat) (a : PollAnswer)
| EvPay (o : PayOptions)
| EvPayAnswer (now : number) (k : nat) (a : PayAnswer)
| EvRetryFires (k : nat)
| EvOpenExternal
| EvCloseAttempt
| EvConfirmExit
| EvBackToPayment
| EvContinueInBackground
| EvRetry (payMethods : list PaymentMethod) (o : PayOptions)
| EvCancelAnswer (k : nat) (ok : bool).

(** The content of the dialog: the details of the payment, or the question on leaving. *)
Definition shows_payment (m : Machine) : bool := bp_open (mc_rendered m) && negb (mc_exitConfirm m).

(** Its buttons are disabled while an order is being cancelled. *)
Definition shows_exit (m : Machine) : bool :=
  bp_open (mc_rendered m) && mc_exitConfirm m && match mc_cancels m with [] => true | _ => false end.

Definition when (b : bool) (f : Machine -> Machine) (m : Machine) : Machine := if b then f m else m.

Definition step (m : Machine) (ev : Event) : Machine :=
  match ev with
  | EvRender => render m
  | EvTick => tick m
  | EvPollAnswer k a => poll_answered k a m
  | EvPay o => handlePay o m
  | EvPayAnswer now k a => pay_returns now k a m
  | EvRetryFires k => retry_fires k m
  | EvOpenExternal => when (shows_payment m && bool_decide (bp_stage (mc_rendered m) = Pending)) handleOpenExternal m
  | EvCloseAttempt => when (bp_open (mc_rendered m)) handleCloseAttempt m
  | EvConfirmExit => when (shows_exit m) handleCancelPayment m
  | EvBackToPayment => when (shows_exit m) (with_dialog false (mc_cancels m) [] []) m
  | EvContinueInBackground => when (shows_exit m) handleContinuePaymentInBackground m
  | EvRetry methods o => when (shows_payment m && bool_decide (bp_stage (mc_rendered m) = Failed)) (handleRetryPayment methods o) m
  | EvCancelAnswer k ok => cancel_returns k ok m
  end.

Definition run (es : list Event) (m : Machine) : Machine := fold_left step es m.

(** * Invariants *)

(** The orders that the server has returned are those that satisfy [known]. *)
Section Reachable.
Context (known : jstr -> Prop).

Definition order_of (r : PaymentResponse) : jstr :=
  match isRecord (py_data r) with Some o => text_or_empty (obj_get "order_id" o) | None => [] end.

Definition event_known (ev : Event) : Prop :=
  match ev with EvPayAnswer _ _ (PayAnswered r) => known (order_of r) | _ => True end.

(** A pending payment has no dialog, and its order is known. *)
Record state_ok (s : BlindBoxPaymentState) : Prop := {
  so_closed : bp_stage s = Pending -> bp_open s = false;
  so_known : bp_orderId s = [] \/ known (bp_orderId s)
}.

Definition request_ok (r : Request) : Prop :=
  match r with ReqStatus id => known id | ReqCancel _ => False | _ => True end.

Record machine_ok (m : Machine) : Prop := {
  mo_state : state_ok (mc_state m);
  mo_rendered : state_ok (mc_rendered m);
  mo_effect : polls (mc_rendered m) = bool_decide (mc_effect m <> None);
  mo_number : forall e, mc_effect m = Some e -> e < mc_effects m;
  mo_polls : Forall (fun p => state_ok (pl_state p) /\ pl_effect p < mc_effects m) (mc_polls m);
  mo_exit : mc_exitConfirm m = false;
  mo_cancels : mc_cancels m = [];
  mo_requests : Forall request_ok (mc_requests m)
}.

Lemma empty_ok : state_ok EMPTY_PAYMENT_STATE.
Proof. split; [easy|now left]. Qed.

Lemma fail_ok message s : state_ok s -> state_ok (fail_with message s).
Proof. intros [H1 H2]. now split. Qed.

Lemma failed_ok c message : state_ok (failed_payment c message).
Proof. split; [easy|now left]. Qed.

Lemma init_ok : machine_ok init.
Proof. split; cbn; auto using empty_ok. easy. Qed.

Lemma polls_known s : state_ok s -> polls s = true -> known (bp_orderId s).
Proof. intros [_ [H|H]] Hp; [|easy]. unfold polls in Hp. rewrite H, andb_false_r in Hp. easy. Qed.

Lemma set_state_ok s m : state_ok s -> machine_ok m -> machine_ok (set_state s m).
Proof. intros Hs []. now split. Qed.

Lemma with_polls_ok ps rs m :
  Forall (fun p => state_ok (pl_state p) /\ pl_effect p < mc_effects m) ps -> Forall request_ok rs ->
  machine_ok m -> machine_ok (with_polls ps rs m).
Proof. intros Hp Hr []. split; cbn; try easy. now apply Forall_app_2. Qed.

Lemma with_pays_ok b ps rs opened m :
  Forall request_ok rs -> machine_ok m -> machine_ok (with_pays b ps rs opened m).
Proof. intros Hr []. split; cbn; try easy. now apply Forall_app_2. Qed.

Lemma with_retries_ok rs m : machine_ok m -> machine_ok (with_retries rs m).
Proof. intros []. now split. Qed.

Lemma pollOrder_ok e s m :
  state_ok s -> polls s = true -> e < mc_effects m -> machine_ok m -> machine_ok (pollOrder e s m).
Proof.
  intros Hs Hp He H. apply with_polls_ok; [|apply Forall_singleton; now apply polls_known|exact H].
  apply Forall_app_2; [apply H|]. now apply Forall_singleton.
Qed.

Lemma render_ok m : machine_ok m -> machine_ok (render m).
Proof.
  intros H. unfold render. set (m' := Build_Machine _ _ _ _ _ _ _ _ _ _ _ _).
  assert (Hm : machine_ok m').
  { destruct H. split; cbn; try easy;
      [now destruct (polls (mc_state m))|destruct (polls (mc_state m)); intros e [=]; lia|].
    eapply Forall_impl; [eassumption|]. cbn. intros p [? ?]. split; [easy|lia]. }
  destruct (polls (mc_state m)) eqn:E; [|exact Hm]. apply pollOrder_ok; [apply H|exact E| |exact Hm]. cbn. lia.
Qed.

Lemma tick_ok m : machine_ok m -> machine_ok (tick m).
Proof.
  intros H. unfold tick. destruct (mc_effect m) as [e|] eqn:E; [|exact H].
  apply pollOrder_ok; [apply H|rewrite (mo_effect m H), E; easy|now apply (mo_number m H)|exact H].
Qed.

Lemma ended_ok k m : machine_ok m -> machine_ok (with_polls (base.delete k (mc_polls m)) [] m).
Proof. intros H. apply with_polls_ok; [apply Forall_delete, H|constructor|exact H]. Qed.

Lemma goes_on_ok k p at_ rs m :
  mc_polls m !! k = Some p -> Forall request_ok rs -> machine_ok m -> machine_ok (goes_on k p at_ rs m).
Proof.
  intros E Hr H. apply with_polls_ok; [|exact Hr|exact H]. apply Forall_insert; [apply H|].
  exact (Forall_lookup_1 _ _ _ _ (mo_polls m H) E).
Qed.

Lemma poll_failed_ok message m : machine_ok m -> machine_ok (poll_failed message m).
Proof. intros H. unfold poll_failed. destruct (_ || _); [|exact H]. apply set_state_ok; [apply fail_ok, H|exact H]. Qed.

Lemma poll_answered_ok k a m : machine_ok m -> machine_ok (poll_answered k a m).
Proof.
  intros H. unfold poll_answered. destruct (mc_polls m !! k) as [p|] eqn:E; [|exact H].
  pose proof (ended_ok k m H) as He.
  assert (Hg : forall at_ rs, Forall request_ok rs -> machine_ok (goes_on k p at_ rs m)) by (intros; now apply goes_on_ok).
  destruct a as [[status|]|ok|message], (pl_at p);
    repeat case_match; auto using set_state_ok, poll_failed_ok, empty_ok, Forall_singleton, Forall_nil_2.
  - apply Hg. now apply Forall_singleton.
  - apply set_state_ok; [apply fail_ok, H|exact He].
Qed.

Lemma handlePay_ok o m : machine_ok m -> machine_ok (handlePay o m).
Proof.
  intros H. unfold handlePay. destruct (start_pay o); [|exact H]. apply with_pays_ok; [now apply Forall_singleton|exact H].
Qed.

Lemma answered_ok now c a : event_known (EvPayAnswer now 0 a) -> state_ok (fst (pay_answered now c a)).
Proof.
  destruct a as [r|[message|]]; cbn [pay_answered fst event_known]; intros Hk; [|apply failed_ok|apply failed_ok].
  unfold pay_result. destruct (negb _); [apply failed_ok|].
  set (payload := match isRecord (py_data r) with Some o => o | None => [] end).
  assert (Ho : text_or_empty (obj_get "order_id" payload) = order_of r).
  { unfold payload, order_of. now destruct (isRecord (py_data r)). }
  rewrite Ho. case_match; repeat case_match; simplify_eq; cbn [fst]; try apply failed_ok; (split; [easy|now right]).
Qed.

Lemma pay_returns_ok now k a m :
  event_known (EvPayAnswer now k a) -> machine_ok m -> machine_ok (pay_returns now k a m).
Proof.
  intros Hk H. unfold pay_returns. destruct (mc_pays m !! k) as [c|]; [|exact H].
  pose proof (answered_ok now c a Hk) as Hs. destruct (pay_answered now c a) as [s page].
  apply set_state_ok; [exact Hs|]. now apply with_pays_ok.
Qed.

Lemma retry_fires_ok k m : machine_ok m -> machine_ok (retry_fires k m).
Proof.
  intros H. unfold retry_fires. destruct (_ !! k); [|exact H]. now apply handlePay_ok, with_retries_ok.
Qed.

Lemma cancel_returns_ok k ok m : machine_ok m -> machine_ok (cancel_returns k ok m).
Proof. intros H. unfold cancel_returns. now rewrite (mo_cancels m H). Qed.

Lemma opened_ok opened m : machine_ok m -> machine_ok (with_dialog (mc_exitConfirm m) (mc_cancels m) [] opened m).
Proof. intros []. now split. Qed.

(** The question on leaving is never asked: a pending payment has no dialog. *)
Lemma close_ok m : machine_ok m -> bp_open (mc_rendered m) = true -> machine_ok (handleCloseAttempt m).
Proof.
  intros H Ho. unfold handleCloseAttempt. case_bool_decide as E; [|now apply set_state_ok; [apply empty_ok|]].
  now rewrite (so_closed _ (mo_rendered m H) E) in Ho.
Qed.

Lemma step_ok m ev : event_known ev -> machine_ok m -> machine_ok (step m ev).
Proof.
  intros Hk H. assert (Hexit : shows_exit m = false).
  { unfold shows_exit. now rewrite (mo_exit m H), andb_false_r. }
  destruct ev; cbn [step]; unfold when; rewrite ?Hexit;
    auto using render_ok, tick_ok, poll_answered_ok, handlePay_ok, retry_fires_ok, cancel_returns_ok.
  - now apply pay_returns_ok.
  - destruct (_ && _); [|exact H]. unfold handleOpenExternal. repeat case_match; auto using opened_ok.
  - destruct (bp_open _) eqn:E; [now apply close_ok|exact H].
  - destruct (_ && _); [|exact H]. unfold handleRetryPayment.
    repeat case_match; auto using with_retries_ok, set_state_ok, empty_ok.
Qed.

Lemma run_ok es : forall m, Forall event_known es -> machine_ok m -> machine_ok (run es m).
Proof.
  induction es as [|ev es IH]; intros m Hk H; [exact H|]. apply Forall_cons_1 in Hk as [Hk Hks].
  apply (IH (step m ev) Hks). now apply step_ok.
Qed.

End Reachable.

(** The states of the hook. *)
Definition reachable (m : Machine) : Prop := exists es, m = run es init.

Lemma reachable_ok m : reachable m -> machine_ok (fun _ => True) m.
Proof.
  intros [es ->]. apply run_ok; [|apply init_ok]. apply List.Forall_forall. intros ev _.
  destruct ev as [| | | |now k [r|message]| | | | | | | |]; exact I.
Qed.

(** C20: while an order is pending its dialog is closed, so the question on leaving is never
    shown and no order is ever cancelled, whatever the user and the server do. *)
Theorem pending_dialog_closed es :
  let m := run es init in
  (bp_stage (mc_state m) = Pending -> bp_open (mc_state m) = false)
  /\ mc_exitConfirm m = false /\ forall id, ~ In (ReqCancel id) (mc_requests m).
Proof.
  assert (H : machine_ok (fun _ => True) (run es init)) by (apply reachable_ok; now exists es).
  split; [apply (mo_state _ _ H)|]. split; [apply (mo_exit _ _ H)|]. intros id Hin.
  exact (proj1 (List.Forall_forall _ _) (mo_requests _ _ H) _ Hin).
Qed.

(** only orders that the server has returned for a payment are polled, and none is
    cancelled. *)
Theorem polls_own_orders known es :
  Forall (event_known known) es -> Forall (request_ok known) (mc_requests (run es init)).
Proof. intros H. apply mo_requests, run_ok; [exact H|apply init_ok]. Qed.

(** ** An order that is paid *)

Lemma delete_inserted {A} (l : list A) : forall i x, base.delete i (<[i := x]> l) = base.delete i l.
Proof. induction l as [|y l IH]; intros [|i] x; [easy..|]. cbn. f_equal. apply IH. Qed.

Lemma poll_paid k p m :
  mc_polls m !! k = Some p -> pl_at p = AtStatus -> active p m = true ->
  poll_answered k (PaStatus (Some "success"%js)) m = goes_on k p AtSelf [ReqSelf] m.
Proof. intros E Ha Hact. unfold poll_answered. now rewrite E, Ha, Hact. Qed.

Lemma poll_read k p ok m :
  mc_polls m !! k = Some p -> pl_at p = AtSelf -> poll_answered k (PaDone ok) m = goes_on k p AtRefresh [] m.
Proof. intros E Ha. unfold poll_answered. now rewrite E, Ha. Qed.

Lemma poll_refreshed k p ok m :
  mc_polls m !! k = Some p -> pl_at p = AtRefresh ->
  poll_answered k (PaDone ok) m = set_state EMPTY_PAYMENT_STATE (with_polls (base.delete k (mc_polls m)) [] m).
Proof. intros E Ha. unfold poll_answered. now rewrite E, Ha. Qed.

(** The answers that bring a paid order to rest, for the poll number [k]. *)
Definition settled (k : nat) (m : Machine) : Machine :=
  poll_answered k (PaDone true) (poll_answered k (PaDone true) (poll_answered k (PaStatus (Some "success"%js)) m)).

Lemma settled_poll k p m :
  mc_polls m !! k = Some p -> pl_at p = AtStatus -> active p m = true ->
  mc_state (settled k m) = EMPTY_PAYMENT_STATE /\ mc_polls (settled k m) = base.delete k (mc_polls m)
  /\ mc_requests (settled k m) = ReqSelf :: mc_requests m.
Proof.
  intros E Ha Hact. unfold settled. rewrite (poll_paid k p m E Ha Hact).
  assert (Hk : k < length (mc_polls m)) by now apply lookup_lt_Some in E.
  set (p1 := {| pl_effect := pl_effect p; pl_state := pl_state p; pl_at := AtSelf |}).
  rewrite (poll_read k p1 true (goes_on k p AtSelf [ReqSelf] m)); [|cbn; now apply list_lookup_insert_eq|easy].
  set (p2 := {| pl_effect := pl_effect p1; pl_state := pl_state p1; pl_at := AtRefresh |}).
  rewrite (poll_refreshed k p2); [|cbn; apply list_lookup_insert_eq; now rewrite length_insert|easy].
  cbn [mc_state mc_polls mc_requests set_state with_polls goes_on app].
  split; [easy|]. split; [|easy]. now rewrite !delete_inserted.
Qed.

(** every pending order with a number can come to rest: the next render asks for its
    status, and when the server then reports success, the data is read again and the payment
    is empty, with every other request still in flight. *)
Theorem order_settles m :
  polls (mc_state m) = true ->
  let m' := settled (length (mc_polls m)) (render m) in
  mc_state m' = EMPTY_PAYMENT_STATE /\ mc_polls m' = mc_polls m
  /\ mc_requests m' = ReqSelf :: ReqStatus (bp_orderId (mc_state m)) :: mc_requests m.
Proof.
  intros Hp. set (p := {| pl_effect := mc_effects m; pl_state := mc_state m; pl_at := AtStatus |}).
  assert (E : mc_polls (render m) = mc_polls m ++ [p] /\ mc_effect (render m) = Some (mc_effects m)
    /\ mc_requests (render m) = ReqStatus (bp_orderId (mc_state m)) :: mc_requests m).
  { unfold render. rewrite Hp. repeat split. }
  destruct E as (Eps & Eeff & Ereq).
  destruct (settled_poll (length (mc_polls m)) p (render m)) as (H1 & H2 & H3).
  - rewrite Eps. now apply list_lookup_middle.
  - easy.
  - unfold active. rewrite Eeff. now apply bool_decide_eq_true_2.
  - split; [exact H1|]. rewrite H2, H3, Eps, Ereq. split; [|easy].
    rewrite delete_middle. apply app_nil_r.
Qed.

End Payment.

(** * Concrete runs *)

Definition wechat : PaymentMethod := {| pm_name := "WeChat"; pm_type := "xunhu" |}.

Definition pay_once : PayOptions :=
  {| po_amountDue := Some (of_Z 10); po_selectedPaymentMethod := Some wechat; po_selectedQuantity := of_Z 1 |}.

(** The server's answer to a payment, with the number of the order. *)
Definition ordered (id : jstr) : PayAnswer :=
  PayAnswered {| py_success := true; py_message := []; py_url := None;
                 py_data := Some (JObj [("pay_url"%js, JStr "https://pay"); ("order_id"%js, JStr id)]) |}.

(** An order is made and rendered. *)
Definition order (id : jstr) : list Event := [EvPay pay_once; EvPayAnswer zero 0 (ordered id); EvRender].

Definition after (es : list Event) : Machine := run id es init.

Lemma order_settles_witness :
  let m := after [EvPay pay_once; EvPayAnswer zero 0 (ordered "A")] in
  let m' := settled id (length (mc_polls m)) (render m) in
  mc_state m' = EMPTY_PAYMENT_STATE /\ mc_polls m' = mc_polls m
  /\ mc_requests m' = ReqSelf :: ReqStatus (bp_orderId (mc_state m)) :: mc_requests m.
Proof. apply order_settles. vm_compute. reflexivity. Defined.

Lemma polls_own_orders_witness :
  Forall (request_ok (fun i => i = "A"%js)) (mc_requests (after (order "A" ++ [EvTick])))
  /\ mc_requests (after (order "A" ++ [EvTick]))
     = [ReqStatus "A"; ReqStatus "A"; ReqPay (of_Z 1) "xunhu"]%js.
Proof.
  split; [|vm_compute; reflexivity].
  apply (polls_own_orders id (fun i => i = "A"%js) (order "A" ++ [EvTick])). repeat constructor.
Defined.

(** The first order is reported as paid, and while its data is read a second one is made: the
    end of the first poll empties the second order's state, and it is not polled any more. *)
Lemma newer_order_dropped :
  let m := after (order "A" ++ [EvPollAnswer 0 (PaStatus (Some "success"%js))] ++ order "B"
                  ++ [EvPollAnswer 0 (PaDone true); EvPollAnswer 0 (PaDone true)]) in
  In (ReqStatus "B"%js) (mc_requests m) /\ mc_state m = EMPTY_PAYMENT_STATE
  /\ mc_requests (step id (step id m EvRender) EvTick) = mc_requests m.
Proof. vm_compute. split; [tauto|easy]. Qed.

(** A poll that times out ends the polling of an order that may still be paid, and shows
    nothing: the dialog is closed. *)
Lemma timeout_ends_polling :
  let m := after (order "A" ++ [EvPollAnswer 0 (PaThrew (Some "timeout of 10000ms exceeded"%js)); EvRender]) in
  bp_stage (mc_state m) = Failed /\ bp_open (mc_state m) = false
  /\ mc_requests (step id m EvTick) = mc_requests m.
Proof. vm_compute. repeat split. Qed.

(** An order without a number stays pending, and nothing is asked of it. *)
Lemma order_without_number :
  let m := after (order []) in
  bp_stage (mc_state m) = Pending /\ mc_effect m = None
  /\ mc_requests (run id [EvRender; EvTick; EvTick] m) = mc_requests m.
Proof. vm_compute. repeat split. Qed.
