(* ===== verification/BlindBoxPanel.v ===== *)
(** Model of the blind boxes outside the cash payment: the panel that buys, opens and gives
    away boxes ([web/default/src/features/wallet/components/balance-blind-box-state.ts],
    [balance-blind-box-actions.ts], [balance-blind-box-controls.tsx]), the simulator
    ([use-balance-blind-box-simulator.ts]), the data shown ([blind-box-dialog-data.ts],
    [lib/blind-box-rarity.ts], [lib/blind-box-guarantee.ts], [blind-box-reel-data.ts]) and
    [web/default/src/lib/blind-box-economics.ts].

    The panel and the simulator are transition systems: a step is a user action, an answer of
    the server, or a change of the properties.  Numbers of boxes are integers ([Z]); money and
    probabilities are binary64 numbers.  A button that is disabled makes no step. *)

From S2P Require Import Prelude Number Json BlindBoxPayment.
From stdpp Require Import options.

(** * Quoting, labels and tones *)

(** What the quote reads of the data: [enabled], [pay_methods] and the inventory's [enabled]
    and [remaining_purchase_limit]. *)
Record BlindBoxSelf := {
  bs_enabled : bool;
  bs_pay_methods : list PaymentMethod;
  bs_inventory : option (bool * Z)
}.

Definition canQuoteBlindBoxAmount (data : option BlindBoxSelf) (quantity : number) (method : option PaymentMethod)
  (ready : bool) : bool :=
  match data, method with
  | Some d, Some m =>
    match bs_inventory d with
    | Some (enabled, remaining) =>
      ready && bs_enabled d && enabled && existsb (fun p => pm_type p =s pm_type m) (bs_pay_methods d)
      && match to_Z quantity with Some q => (0 <? q)%Z && (q <=? remaining)%Z | None => false end
    | None => false
    end
  | _, _ => false
  end.

Record BlindBoxRecord := {
  br_reward_type : jstr;
  br_credit_amount : number;
  br_reward_tier : jstr;
  br_is_pity : bool
}.

Section Texts.
Context (t : jstr -> jstr).
(** [interfaceI18n.t(key, { param0 })] and the formatting of a quota. *)
Context (t1 : jstr -> jstr -> jstr) (formatQuota : number -> jstr).

Definition count_text (n : nat) : jstr := digits (N.of_nat n).

Definition summarizeOpenResult (records : list BlindBoxRecord) : jstr :=
  let of_type ty := length (List.filter (fun r => br_reward_type r =s ty) records) in
  let creditRecords := List.filter (fun r => memb (br_reward_type r) ["quota"; "claude_quota"]%js) records in
  let creditTotal := fold_left (fun sum r => nadd sum (num_or (br_credit_amount r) zero)) creditRecords zero in
  let parts :=
    (if of_type "subscription"%js =? 0 then [] else [t1 "{{param0}} 个套餐" (count_text (of_type "subscription"%js))])
    ++ match creditRecords with [] => [] | _ => [t1 "{{param0}} 通用额度" (formatQuota creditTotal)] end
    ++ (if of_type "prop"%js =? 0 then [] else [t1 "{{param0}} 个道具" (count_text (of_type "prop"%js))]) in
  match parts with
  | [] => t1 "获得 {{param0}} 项奖励" (count_text (length records))
  | _ => t1 "获得 {{param0}}" (join "、" parts)
  end.

Inductive RewardTone := TonePrimary | ToneViolet | ToneSky | ToneEmerald.

Definition resolveRewardTone (r : BlindBoxRecord) : RewardTone :=
  if (br_reward_type r =s "subscription") || br_is_pity r then TonePrimary
  else if br_reward_type r =s "claude_quota" then ToneViolet
  else if br_reward_type r =s "prop" then ToneSky
  else ToneEmerald.

Definition blindBoxGuaranteeLabel (r : BlindBoxRecord) : option jstr :=
  if negb (br_is_pity r) then None
  else Some (if startsWith (br_reward_tier r) "首购" then t "首抽保底"
             else if startsWith (br_reward_tier r) "小保底" then t "小保底"
             else if startsWith (br_reward_tier r) "大保底" then t "大保底"
             else t "保底").

Record BlindBoxTier := {
  bt_name : jstr;
  bt_min_usd : number;
  bt_max_usd : number;
  bt_probability : number;
  bt_reward_type : jstr;
  bt_wallet_type : jstr
}.

Inductive RewardRarity := Legendary | Epic | Common.

(** [lower] is [toLowerCase]. *)
Definition resolveTierRewardType (lower : jstr -> jstr) (tier : BlindBoxTier) : jstr :=
  if truthy (bt_reward_type tier) then bt_reward_type tier
  else if SFeqb (bt_min_usd tier) zero && SFeqb (bt_max_usd tier) zero then "prop"
  else if (bt_wallet_type tier =s "claude") || includes (lower (bt_name tier)) "claude" then "claude_quota"
  else "quota".

Definition classifyTier (lower : jstr -> jstr) (tier : BlindBoxTier) : RewardRarity :=
  let rewardType := resolveTierRewardType lower tier in
  if rewardType =s "subscription" then Legendary
  else if memb rewardType ["claude_quota"; "quota"]%js then
    if SFleb (of_Z 2) (bt_max_usd tier) then Epic else Common
  else Common.

Definition formatTierAmount (lower : jstr -> jstr) (tier : BlindBoxTier) : jstr :=
  if memb (resolveTierRewardType lower tier) ["prop"; "subscription"]%js then bt_name tier
  else
    t1 "{{param0}} 通用额度"
      (if SFeqb (bt_min_usd tier) (bt_max_usd tier) then num_to_string (bt_min_usd tier) ++ " credits"
       else num_to_string (bt_min_usd tier) ++ " - " ++ num_to_string (bt_max_usd tier) ++ " credits").

Definition groupTiersByRewardType (lower : jstr -> jstr) (tiers : list BlindBoxTier) :
  list BlindBoxTier * list BlindBoxTier :=
  (List.filter (fun tier => memb (resolveTierRewardType lower tier) ["quota"; "claude_quota"]%js) tiers,
   List.filter (fun tier => resolveTierRewardType lower tier =s "prop") tiers).

(** ** The reel *)

Record ReelTier := { rt_name : jstr; rt_min : option number; rt_max : option number; rt_prob : number }.
Record ReelItem := { ri_key : jstr; ri_label : jstr; ri_tag : option jstr; ri_strong : bool }.

Definition resolveTierTag (legendary rare : bool) : option jstr :=
  if legendary then Some (t "稀有") else if rare then Some (t "精品") else None.

Definition reel_item (index : nat) (tier : ReelTier) : ReelItem :=
  let probability := num_or (rt_prob tier) zero in
  let below x := SFltb zero probability && SFltb probability (Number_str x) in
  {| ri_key := str_or (rt_name tier) ("tier-" ++ count_text index);
     ri_label := match rt_min tier, rt_max tier with
                 | Some lo, Some hi => "$" ++ num_to_string lo ++ " - $" ++ num_to_string hi
                 | _, _ => str_or (rt_name tier) (t1 "奖励 {{param0}}" (count_text (S index)))
                 end;
     ri_tag := resolveTierTag (below "0.002"%js) (below "0.02"%js);
     ri_strong := below "0.002"%js |}.

Definition tiersToReelItems (tiers : list ReelTier) : list ReelItem := imap reel_item tiers.

End Texts.

(** ** Economics *)

Definition calculateAccountYieldRate (initialBalance balance : number) : number :=
  if SFleb initialBalance zero then zero
  else nmul (ndiv (nsub balance initialBalance) initialBalance) (of_Z 100).

Record Economics := {
  ec_probability : number;
  ec_quotaReward : number;
  ec_extraDraw : number;
  ec_profit : number;
  ec_maxReward : number
}.

Definition add_tier (priceUSD : number) (e : Economics) (tier : BlindBoxTier) : Economics :=
  let probability := nadd (ec_probability e) (bt_probability tier) in
  if bt_reward_type tier =s "prop" then
    {| ec_probability := probability; ec_quotaReward := ec_quotaReward e;
       ec_extraDraw := if trim (bt_name tier) =s "再来一抽" then nadd (ec_extraDraw e) (bt_probability tier)
                       else ec_extraDraw e;
       ec_profit := ec_profit e; ec_maxReward := ec_maxReward e |}
  else
    {| ec_probability := probability;
       ec_quotaReward := nadd (ec_quotaReward e)
         (nmul (ndiv (nadd (bt_min_usd tier) (bt_max_usd tier)) (of_Z 2)) (bt_probability tier));
       ec_extraDraw := ec_extraDraw e;
       ec_profit := if SFleb priceUSD (bt_min_usd tier) && SFltb priceUSD (bt_max_usd tier)
                    then nadd (ec_profit e) (bt_probability tier) else ec_profit e;
       ec_maxReward := nmax (ec_maxReward e) (bt_max_usd tier) |}.

Record BlindBoxEconomics := {
  be_probability : number;
  be_expectedRewardUSD : number;
  be_immediateProfitProbability : number;
  be_maxRewardUSD : number
}.

Definition calculateBlindBoxEconomics (tiers : list BlindBoxTier) (priceUSD : number) : BlindBoxEconomics :=
  let e := fold_left (add_tier priceUSD) tiers
             {| ec_probability := zero; ec_quotaReward := zero; ec_extraDraw := zero; ec_profit := zero;
                ec_maxReward := zero |} in
  {| be_probability := ec_probability e;
     be_expectedRewardUSD := if SFltb (ec_extraDraw e) (of_Z 1)
                             then ndiv (ec_quotaReward e) (nsub (of_Z 1) (ec_extraDraw e)) else zero;
     be_immediateProfitProbability := ec_profit e;
     be_maxRewardUSD := ec_maxReward e |}.

(** * The panel *)

(** ** Quantities *)

Open Scope Z_scope.

(** The presets that are offered. *)
Definition quantity_presets (max : Z) : list Z := List.filter (fun v => v <=? max) [1; 5; 10; 20; 50; 100].

(** [Math.min(max, Math.max(1, Math.floor(Number(text) || 1)))] *)
Definition typed_quantity (max : Z) (text : jstr) : Z :=
  let x := nfloor (num_or (Number_str text) (of_Z 1)) in
  match to_Z x with
  | Some z => Z.min max (Z.max 1 z)
  | None => if SFltb zero x then max else Z.min max 1
  end.

Record BalanceBlindBoxOverview := {
  ov_enabled : bool;
  ov_price_usd : number;
  ov_balance_usd : number;
  ov_inventory_count : Z;
  ov_remaining_purchase_limit : Z
}.

Inductive ActionMode := ModePurchase | ModeOpen | ModeGift | ModePity.

Record WalletTransferRecipient := { wr_external_id : jstr; wr_display_name_masked : jstr }.

Definition canPurchaseBalanceBoxes (balance : option BalanceBlindBoxOverview) (count : Z) (loading busy : bool) : bool :=
  match balance with
  | None => false
  | Some b => ov_enabled b && negb loading && negb busy && (count <=? ov_remaining_purchase_limit b)
              && SFleb (nmul (ov_price_usd b) (of_Z count)) (ov_balance_usd b)
  end.

Definition canUseBalanceBoxInventory (balance : option BalanceBlindBoxOverview) (count : Z) (loading busy : bool) : bool :=
  match balance with
  | None => false
  | Some b => ov_enabled b && negb loading && negb busy && (count <=? ov_inventory_count b)
  end.

(** [x?.field || 1] *)
Definition or_one (x : option Z) : Z := match x with Some z => if z =? 0 then 1 else z | None => 1 end.

Record DerivedState := {
  ds_purchaseMaxCount : Z;
  ds_inventoryMaxCount : Z;
  ds_purchaseCount : Z;
  ds_inventoryActionCount : Z;
  ds_canPurchase : bool;
  ds_canUseInventory : bool
}.

Definition deriveBalanceBoxState (balance : option BalanceBlindBoxOverview) (purchaseCount inventoryActionCount : Z)
  (loading busy : bool) : DerivedState :=
  let purchaseMaxCount := Z.max 1 (or_one (option_map ov_remaining_purchase_limit balance)) in
  let inventoryMaxCount := Z.max 1 (Z.min 100 (or_one (option_map ov_inventory_count balance))) in
  let safePurchaseCount := Z.min (Z.max 1 purchaseCount) purchaseMaxCount in
  let safeInventoryActionCount := Z.min (Z.max 1 inventoryActionCount) inventoryMaxCount in
  {| ds_purchaseMaxCount := purchaseMaxCount; ds_inventoryMaxCount := inventoryMaxCount;
     ds_purchaseCount := safePurchaseCount; ds_inventoryActionCount := safeInventoryActionCount;
     ds_canPurchase := canPurchaseBalanceBoxes balance safePurchaseCount loading busy;
     ds_canUseInventory := canUseBalanceBoxInventory balance safeInventoryActionCount loading busy |}.

(** ** The state *)

Inductive BoxRequest :=
| RPurchase (count : Z)
| ROpen (count : Z)
| RLookup (externalId : jstr)
| RGift (externalId : jstr) (count : Z).

(** An action in flight: its request, or the refresh after it. *)
Inductive Flight := Sent (r : BoxRequest) | Refreshing (r : BoxRequest).

Record Panel := {
  pn_balance : option BalanceBlindBoxOverview;
  pn_loading : bool;
  pn_cashPaying : bool;
  pn_mode : ActionMode;
  pn_purchaseCount : Z;
  pn_inventoryActionCount : Z;
  pn_busy : bool;
  pn_recipientId : jstr;
  pn_recipient : option WalletTransferRecipient;
  pn_confirmGift : bool;
  pn_flights : list Flight;
  pn_requests : list (BoxRequest * option BalanceBlindBoxOverview)  (* sent, with what was shown *)
}.

Definition panel_init : Panel :=
  {| pn_balance := None; pn_loading := true; pn_cashPaying := false; pn_mode := ModePurchase; pn_purchaseCount := 1;
     pn_inventoryActionCount := 1; pn_busy := false; pn_recipientId := []; pn_recipient := None;
     pn_confirmGift := false; pn_flights := []; pn_requests := [] |}.

Definition derived (p : Panel) : DerivedState :=
  deriveBalanceBoxState (pn_balance p) (pn_purchaseCount p) (pn_inventoryActionCount p) (pn_loading p)
    (pn_busy p || pn_cashPaying p).

Definition with_props (balance : option BalanceBlindBoxOverview) (loading cashPaying : bool) (p : Panel) : Panel :=
  {| pn_balance := balance; pn_loading := loading; pn_cashPaying := cashPaying; pn_mode := pn_mode p;
     pn_purchaseCount := pn_purchaseCount p; pn_inventoryActionCount := pn_inventoryActionCount p;
     pn_busy := pn_busy p; pn_recipientId := pn_recipientId p; pn_recipient := pn_recipient p;
     pn_confirmGift := pn_confirmGift p; pn_flights := pn_flights p; pn_requests := pn_requests p |}.

Definition with_counts (mode : ActionMode) (purchaseCount inventoryActionCount : Z) (p : Panel) : Panel :=
  {| pn_balance := pn_balance p; pn_loading := pn_loading p; pn_cashPaying := pn_cashPaying p; pn_mode := mode;
     pn_purchaseCount := purchaseCount; pn_inventoryActionCount := inventoryActionCount;
     pn_busy := pn_busy p; pn_recipientId := pn_recipientId p; pn_recipient := pn_recipient p;
     pn_confirmGift := pn_confirmGift p; pn_flights := pn_flights p; pn_requests := pn_requests p |}.

Definition with_recipient (id : jstr) (r : option WalletTransferRecipient) (p : Panel) : Panel :=
  {| pn_balance := pn_balance p; pn_loading := pn_loading p; pn_cashPaying := pn_cashPaying p; pn_mode := pn_mode p;
     pn_purchaseCount := pn_purchaseCount p; pn_inventoryActionCount := pn_inventoryActionCount p;
     pn_busy := pn_busy p; pn_recipientId := id; pn_recipient := r;
     pn_confirmGift := pn_confirmGift p; pn_flights := pn_flights p; pn_requests := pn_requests p |}.

Definition with_confirm (open : bool) (p : Panel) : Panel :=
  {| pn_balance := pn_balance p; pn_loading := pn_loading p; pn_cashPaying := pn_cashPaying p; pn_mode := pn_mode p;
     pn_purchaseCount := pn_purchaseCount p; pn_inventoryActionCount := pn_inventoryActionCount p;
     pn_busy := pn_busy p; pn_recipientId := pn_recipientId p; pn_recipient := pn_recipient p;
     pn_confirmGift := open; pn_flights := pn_flights p; pn_requests := pn_requests p |}.

Definition with_flights (busy : bool) (fs : list Flight) (rs : list (BoxRequest * option BalanceBlindBoxOverview))
  (p : Panel) : Panel :=
  {| pn_balance := pn_balance p; pn_loading := pn_loading p; pn_cashPaying := pn_cashPaying p; pn_mode := pn_mode p;
     pn_purchaseCount := pn_purchaseCount p; pn_inventoryActionCount := pn_inventoryActionCount p;
     pn_busy := busy; pn_recipientId := pn_recipientId p; pn_recipient := pn_recipient p;
     pn_confirmGift := pn_confirmGift p; pn_flights := fs; pn_requests := rs |}.

(** [setBusy(true)] and the request. *)
Definition begin (r : BoxRequest) (p : Panel) : Panel :=
  with_flights true (pn_flights p ++ [Sent r]) ((r, pn_balance p) :: pn_requests p) p.

(** The [finally] of an action. *)
Definition finish (k : nat) (p : Panel) : Panel := with_flights false (base.delete k (pn_flights p)) (pn_requests p) p.

Definition await_refresh (k : nat) (r : BoxRequest) (p : Panel) : Panel :=
  with_flights (pn_busy p) (<[k := Refreshing r]> (pn_flights p)) (pn_requests p) p.

(** ** The actions *)

Definition purchaseBalanceBoxInventory (p : Panel) : Panel :=
  if ds_canPurchase (derived p) then begin (RPurchase (ds_purchaseCount (derived p))) p else p.

Definition openBalanceBoxInventory (count : Z) (p : Panel) : Panel :=
  if ds_canUseInventory (derived p) then begin (ROpen count) p else p.

(** [/^[A-Z0-9]{6}$/] *)
Definition public_id (s : jstr) : bool :=
  (length s =? 6)%nat && forallb (fun c => is_digit c || ((65 <=? c) && (c <=? 90))%N) s.

(** [upper] is [toUpperCase]. *)
Definition lookupBalanceBoxRecipient (upper : jstr -> jstr) (p : Panel) : Panel :=
  let externalId := upper (trim (pn_recipientId p)) in
  let p := with_recipient (pn_recipientId p) None p in
  if public_id externalId then begin (RLookup externalId) p else p.

Definition giftBalanceBoxInventory (p : Panel) : Panel :=
  match pn_recipient p with
  | Some r => if ds_canUseInventory (derived p)
              then begin (RGift (wr_external_id r) (ds_inventoryActionCount (derived p))) p else p
  | None => p
  end.

(** What the server answers; [BaFailed] also stands for a refresh that throws. *)
Inductive BoxAnswer := BaDone | BaRecipient (r : WalletTransferRecipient) | BaFailed.

Definition box_answered (k : nat) (a : BoxAnswer) (p : Panel) : Panel :=
  match pn_flights p !! k with
  | None => p
  | Some (Sent r) =>
    match r, a with
    | RPurchase _, BaDone => await_refresh k r p
    | RGift _ _, BaDone => await_refresh k r (with_recipient [] None p)
    | RGift _ _, _ => with_confirm false (finish k p)
    | RLookup _, BaRecipient w => finish k (with_recipient (wr_external_id w) (Some w) p)
    | _, _ => finish k p
    end
  | Some (Refreshing (RGift _ _)) => with_confirm false (finish k p)
  | Some (Refreshing _) => finish k p
  end.

Inductive PanelEvent :=
| PvProps (balance : option BalanceBlindBoxOverview) (loading cashPaying : bool)
| PvMode (mode : ActionMode)
| PvCount (count : Z)
| PvInventoryCount (count : Z)
| PvRecipientId (id : jstr)
| PvPurchase
| PvOpen
| PvOpenCount (count : Z)
| PvLookup
| PvGift
| PvConfirmGift (open : bool)
| PvAnswer (k : nat) (a : BoxAnswer).

Definition panel_step (upper : jstr -> jstr) (p : Panel) (ev : PanelEvent) : Panel :=
  match ev with
  | PvProps balance loading cashPaying => with_props balance loading cashPaying p
  | PvMode mode => with_counts mode (pn_purchaseCount p) (pn_inventoryActionCount p) p
  | PvCount count => with_counts (pn_mode p) count (pn_inventoryActionCount p) p
  | PvInventoryCount count => with_counts (pn_mode p) (pn_purchaseCount p) count p
  | PvRecipientId id => with_recipient id None p
  | PvPurchase => with_counts ModePurchase (pn_purchaseCount p) (pn_inventoryActionCount p) (purchaseBalanceBoxInventory p)
  | PvOpen => openBalanceBoxInventory (ds_inventoryActionCount (derived p)) p
  | PvOpenCount count =>
    let safeCount := Z.min (Z.max 1 count) (ds_inventoryMaxCount (derived p)) in
    with_counts ModeOpen (pn_purchaseCount p) (pn_inventoryActionCount p) (openBalanceBoxInventory safeCount p)
  | PvLookup => if pn_busy p || pn_cashPaying p then p else lookupBalanceBoxRecipient upper p
  | PvGift => giftBalanceBoxInventory p
  | PvConfirmGift open => with_confirm open p
  | PvAnswer k a => box_answered k a p
  end.

Definition panel_run (upper : jstr -> jstr) (es : list PanelEvent) : Panel :=
  fold_left (panel_step upper) es panel_init.

(** ** What is sent *)

Lemma purchase_allowed b pc ic loading busy :
  let d := deriveBalanceBoxState b pc ic loading busy in
  ds_canPurchase d = true ->
  busy = false /\ exists ov, b = Some ov /\ ov_enabled ov = true
    /\ 1 <= ds_purchaseCount d <= ov_remaining_purchase_limit ov
    /\ SFleb (nmul (ov_price_usd ov) (of_Z (ds_purchaseCount d))) (ov_balance_usd ov) = true.
Proof.
  unfold deriveBalanceBoxState, canPurchaseBalanceBoxes. cbn [ds_canPurchase ds_purchaseCount].
  destruct b as [ov|]; [|easy]. intros H. bool_hyps. split; [now destruct busy|]. exists ov. repeat split; try easy; lia.
Qed.

Lemma inventory_allowed b pc ic loading busy :
  let d := deriveBalanceBoxState b pc ic loading busy in
  ds_canUseInventory d = true ->
  busy = false /\ exists ov, b = Some ov /\ ov_enabled ov = true
    /\ 1 <= ds_inventoryActionCount d <= ds_inventoryMaxCount d /\ ds_inventoryMaxCount d <= 100
    /\ ds_inventoryMaxCount d <= ov_inventory_count ov.
Proof.
  unfold deriveBalanceBoxState, canUseBalanceBoxInventory.
  cbn [ds_canUseInventory ds_inventoryActionCount ds_inventoryMaxCount].
  destruct b as [ov|]; [|easy]. cbn [option_map or_one]. intros H. bool_hyps. split; [now destruct busy|]. exists ov.
  destruct (Z.eqb_spec (ov_inventory_count ov) 0); repeat split; try easy; lia.
Qed.

Section Sending.
Context (upper : jstr -> jstr) (known : jstr -> Prop).

(** The server's answers name users that exist. *)
Definition answer_known (ev : PanelEvent) : Prop :=
  match ev with PvAnswer _ (BaRecipient w) => known (wr_external_id w) | _ => True end.

(** What a request may ask for, given the overview that was shown. *)
Definition box_request_ok (ro : BoxRequest * option BalanceBlindBoxOverview) : Prop :=
  match ro with
  | (RPurchase n, Some ov) =>
    ov_enabled ov = true /\ 1 <= n <= ov_remaining_purchase_limit ov
    /\ SFleb (nmul (ov_price_usd ov) (of_Z n)) (ov_balance_usd ov) = true
  | (ROpen n, Some ov) => ov_enabled ov = true /\ 1 <= n <= 100 /\ n <= ov_inventory_count ov
  | (RGift id n, Some ov) => ov_enabled ov = true /\ 1 <= n <= 100 /\ n <= ov_inventory_count ov /\ known id
  | (RLookup id, _) => public_id id = true
  | _ => False
  end.

Record panel_ok (p : Panel) : Prop := {
  pk_requests : Forall box_request_ok (pn_requests p);
  pk_flights : if pn_busy p then length (pn_flights p) = 1%nat else pn_flights p = [];
  pk_recipient : forall w, pn_recipient p = Some w -> known (wr_external_id w) /\ pn_recipientId p = wr_external_id w
}.

Lemma begin_ok r p :
  box_request_ok (r, pn_balance p) -> pn_busy p = false -> panel_ok p -> panel_ok (begin r p).
Proof.
  intros Hr Hb [H1 H2 H3]. rewrite Hb in H2. split; [now constructor| |exact H3]. cbn. now rewrite H2.
Qed.

Lemma finish_ok k p : is_Some (pn_flights p !! k) -> panel_ok p -> panel_ok (finish k p).
Proof.
  intros [f Hf] [H1 H2 H3]. split; [exact H1| |exact H3]. cbn. destruct (pn_busy p); [|now rewrite H2 in *].
  destruct (pn_flights p) as [|f0 [|f1 fs]]; try easy. destruct k as [|k]; [easy|]. now destruct k.
Qed.

Lemma await_ok k r p : is_Some (pn_flights p !! k) -> panel_ok p -> panel_ok (await_refresh k r p).
Proof.
  intros Hf [H1 H2 H3]. split; [exact H1| |exact H3]. cbn. rewrite length_insert.
  destruct (pn_busy p); [exact H2|]. rewrite H2 in *. now destruct Hf.
Qed.

Lemma with_recipient_ok id r p :
  (forall w, r = Some w -> known (wr_external_id w) /\ id = wr_external_id w) -> panel_ok p ->
  panel_ok (with_recipient id r p).
Proof. intros Hr []. now split. Qed.

Lemma with_confirm_ok open p : panel_ok p -> panel_ok (with_confirm open p).
Proof. intros []. now split. Qed.

Lemma with_counts_ok mode pc ic p : panel_ok p -> panel_ok (with_counts mode pc ic p).
Proof. intros []. now split. Qed.

Lemma purchase_ok p : panel_ok p -> panel_ok (purchaseBalanceBoxInventory p).
Proof.
  intros H. unfold purchaseBalanceBoxInventory. destruct (ds_canPurchase _) eqn:E; [|exact H].
  apply purchase_allowed in E as [Hb (ov & Eov & Hov)]. apply begin_ok; [|now destruct (pn_busy p)|exact H].
  now rewrite Eov.
Qed.

Lemma open_ok count p :
  (1 <= count <= ds_inventoryMaxCount (derived p)) -> panel_ok p -> panel_ok (openBalanceBoxInventory count p).
Proof.
  intros Hc H. unfold openBalanceBoxInventory. destruct (ds_canUseInventory _) eqn:E; [|exact H].
  apply inventory_allowed in E as [Hb (ov & Eov & Hen & _ & H100 & Hmax)].
  apply begin_ok; [|now destruct (pn_busy p)|exact H]. rewrite Eov. unfold derived in Hc. cbn [box_request_ok].
  split; [exact Hen|]. cbn zeta in *. lia.
Qed.

Lemma gift_ok p : panel_ok p -> panel_ok (giftBalanceBoxInventory p).
Proof.
  intros H. unfold giftBalanceBoxInventory. destruct (pn_recipient p) as [w|] eqn:Ew; [|exact H].
  destruct (ds_canUseInventory _) eqn:E; [|exact H].
  apply inventory_allowed in E as [Hb (ov & Eov & Hen & Hc & H100 & Hmax)].
  apply begin_ok; [|now destruct (pn_busy p)|exact H]. rewrite Eov. unfold derived. cbn [box_request_ok].
  split; [exact Hen|]. split; [|split; [|now apply (pk_recipient p H)]]; cbn zeta in *; lia.
Qed.

Lemma inventory_count_bounds p : 1 <= ds_inventoryActionCount (derived p) <= ds_inventoryMaxCount (derived p).
Proof. unfold derived, deriveBalanceBoxState. cbn [ds_inventoryActionCount ds_inventoryMaxCount]. lia. Qed.

Lemma inventory_max_pos p : 1 <= ds_inventoryMaxCount (derived p).
Proof. pose proof (inventory_count_bounds p). lia. Qed.

Lemma answered_panel_ok k a p : answer_known (PvAnswer k a) -> panel_ok p -> panel_ok (box_answered k a p).
Proof.
  intros Ha H. unfold box_answered. destruct (pn_flights p !! k) as [f|] eqn:E; [|exact H].
  assert (Hs : is_Some (pn_flights p !! k)) by now rewrite E.
  destruct f as [r|r], r, a; auto using finish_ok, await_ok, with_confirm_ok.
  - apply finish_ok; [exact Hs|]. apply with_recipient_ok; [|exact H]. now intros w [= <-].
  - apply await_ok; [exact Hs|]. now apply with_recipient_ok.
Qed.

Lemma panel_step_ok p ev : answer_known ev -> panel_ok p -> panel_ok (panel_step upper p ev).
Proof.
  intros Ha H. destruct ev; cbn [panel_step];
    auto using with_counts_ok, with_confirm_ok, purchase_ok, gift_ok, answered_panel_ok, open_ok, inventory_count_bounds.
  - destruct H. now split.
  - now apply with_recipient_ok.
  - apply with_counts_ok, open_ok; [|exact H]. pose proof (inventory_max_pos p). lia.
  - destruct (pn_busy p || _) eqn:Hb; [exact H|]. unfold lookupBalanceBoxRecipient.
    assert (H' : panel_ok (with_recipient (pn_recipientId p) None p)) by now apply with_recipient_ok.
    destruct (public_id _) eqn:E; [|exact H']. apply begin_ok; [exact E| |exact H'].
    now apply orb_false_iff in Hb.
Qed.

Lemma panel_run_ok es : Forall answer_known es -> panel_ok (panel_run upper es).
Proof.
  assert (H0 : panel_ok panel_init) by now split. unfold panel_run. revert H0. generalize panel_init.
  induction es as [|ev es IH]; intros p H Hes; [exact H|]. apply Forall_cons_1 in Hes as [He Hes].
  cbn [fold_left]. apply IH; [now apply panel_step_ok|exact Hes].
Qed.

End Sending.

(** C21: whatever is typed and clicked and however the server answers, the panel never has two
    requests in flight; a purchase asks for at least one box, within the daily limit and the
    balance shown; opening and giving away ask for one to a hundred boxes of those shown; and a
    gift goes to a user the server has found. *)
Theorem panel_requests upper known es :
  Forall (answer_known known) es ->
  Forall (box_request_ok known) (pn_requests (panel_run upper es)) /\ (length (pn_flights (panel_run upper es)) <= 1)%nat.
Proof.
  intros H. pose proof (panel_run_ok upper known es H) as [H1 H2 _]. split; [exact H1|].
  destruct (pn_busy _); [now rewrite H2|now rewrite H2; cbn; lia].
Qed.

(** a typed quantity is always one of the quantities that are offered. *)
Theorem typed_quantity_bounds max text : 1 <= max -> 1 <= typed_quantity max text <= max.
Proof.
  intros H. unfold typed_quantity. destruct (to_Z _); [lia|]. destruct (SFltb _ _); lia.
Qed.

(** * The simulator *)

(** A draw of the server, with the number it is listed under. *)
Record SimulationHistoryItem := { sh_draw : json; sh_id : Z }.

Record SimulationSession := {
  ss_initialQuota : number;
  ss_balanceQuota : number;
  ss_spentQuota : number;
  ss_rewardQuota : number;
  ss_drawCount : Z;
  ss_history : list SimulationHistoryItem;
  ss_smallPityProgress : Z;
  ss_pityProgress : Z;
  ss_firstDrawEligible : bool
}.

Record SimulationResult := {
  sr_cost_quota : number;
  sr_reward_quota : number;
  sr_balance_after : number;
  sr_draws : list json;
  sr_small_pity_progress : Z;
  sr_pity_progress : Z;
  sr_first_draw_eligible : bool
}.

Record Simulator := {
  sm_initialAmount : jstr;
  sm_count : number;
  sm_busy : bool;
  sm_session : option SimulationSession;
  sm_flights : list SimulationSession      (* the sessions that draws in flight have captured *)
}.

Definition sim_init : Simulator :=
  {| sm_initialAmount := "100"; sm_count := of_Z 1; sm_busy := false; sm_session := None; sm_flights := [] |}.

Section Simulation.
(** [parseQuotaFromDollars], and the price of a box. *)
Context (parseQuota : number -> number) (priceUSD : number).

Definition sim_maxCount (s : Simulator) : number :=
  match sm_session s with
  | Some ss => nmin (of_Z 100) (nfloor (ndiv (ss_balanceQuota ss) (parseQuota priceUSD)))
  | None => of_Z 1
  end.

Definition sim_safeCount (s : Simulator) : number :=
  nmax (of_Z 1) (nmin (sm_count s) (nmax (of_Z 1) (sim_maxCount s))).

(** [Number(initialAmount || 0)] *)
Definition amount_or_zero (text : jstr) : number := if truthy text then Number_str text else zero.

Definition canStart (s : Simulator) : bool :=
  SFleb priceUSD (Number_str (sm_initialAmount s)) && SFleb (Number_str (sm_initialAmount s)) (of_Z 1000000).

Definition canDraw (s : Simulator) : bool :=
  match sm_session s with Some _ => SFltb zero (sim_maxCount s) && negb (sm_busy s) | None => false end.

Definition sim_start (s : Simulator) : Simulator :=
  if canStart s then
    let q := parseQuota (amount_or_zero (sm_initialAmount s)) in
    {| sm_initialAmount := sm_initialAmount s; sm_count := of_Z 1; sm_busy := sm_busy s;
       sm_session := Some {| ss_initialQuota := q; ss_balanceQuota := q; ss_spentQuota := zero; ss_rewardQuota := zero;
                             ss_drawCount := 0; ss_history := []; ss_smallPityProgress := 0; ss_pityProgress := 0;
                             ss_firstDrawEligible := true |};
       sm_flights := sm_flights s |}
  else s.

(** The session after a draw. *)
Definition drawn (ss : SimulationSession) (r : SimulationResult) : SimulationSession :=
  {| ss_initialQuota := ss_initialQuota ss; ss_balanceQuota := sr_balance_after r;
     ss_spentQuota := nadd (ss_spentQuota ss) (sr_cost_quota r);
     ss_rewardQuota := nadd (ss_rewardQuota ss) (sr_reward_quota r);
     ss_drawCount := ss_drawCount ss + Z.of_nat (length (sr_draws r));
     ss_history := firstn 40 (imap (fun i d => {| sh_draw := d; sh_id := ss_drawCount ss + Z.of_nat i + 1 |}) (sr_draws r)
                              ++ ss_history ss);
     ss_smallPityProgress := sr_small_pity_progress r; ss_pityProgress := sr_pity_progress r;
     ss_firstDrawEligible := sr_first_draw_eligible r |}.

Definition with_sim (busy : bool) (session : option SimulationSession) (fs : list SimulationSession) (s : Simulator) :=
  {| sm_initialAmount := sm_initialAmount s; sm_count := sm_count s; sm_busy := busy; sm_session := session;
     sm_flights := fs |}.

Definition sim_draw (s : Simulator) : Simulator :=
  match sm_session s with
  | Some ss => if canDraw s then with_sim true (Some ss) (sm_flights s ++ [ss]) s else s
  | None => s
  end.

(** The answer to a draw; [None] is a failure. *)
Definition sim_answered (k : nat) (r : option SimulationResult) (s : Simulator) : Simulator :=
  match sm_flights s !! k with
  | None => s
  | Some ss =>
    with_sim false (match r with Some r => Some (drawn ss r) | None => sm_session s end)
      (base.delete k (sm_flights s)) s
  end.

Inductive SimEvent :=
| SvAmount (text : jstr)
| SvCount (count : number)
| SvStart
| SvReset
| SvDraw
| SvAnswer (k : nat) (r : option SimulationResult).

Definition sim_step (s : Simulator) (ev : SimEvent) : Simulator :=
  match ev with
  | SvAmount text => {| sm_initialAmount := text; sm_count := sm_count s; sm_busy := sm_busy s;
                        sm_session := sm_session s; sm_flights := sm_flights s |}
  | SvCount count => {| sm_initialAmount := sm_initialAmount s; sm_count := count; sm_busy := sm_busy s;
                        sm_session := sm_session s; sm_flights := sm_flights s |}
  | SvStart => sim_start s
  | SvReset => with_sim (sm_busy s) None (sm_flights s) s
  | SvDraw => sim_draw s
  | SvAnswer k r => sim_answered k r s
  end.

Definition sim_run (es : list SimEvent) : Simulator := fold_left sim_step es sim_init.

(** The draws are numbered from 1, each number is listed once, and at most forty are. *)
Record session_ok (ss : SimulationSession) : Prop := {
  sk_count : 0 <= ss_drawCount ss;
  sk_ids : Forall (fun h => 1 <= sh_id h <= ss_drawCount ss) (ss_history ss);
  sk_unique : List.NoDup (map sh_id (ss_history ss));
  sk_length : (length (ss_history ss) <= 40)%nat
}.

Definition sim_ok (s : Simulator) : Prop :=
  (forall ss, sm_session s = Some ss -> session_ok ss) /\ Forall session_ok (sm_flights s).

Lemma NoDup_firstn {A} n (l : list A) : List.NoDup l -> List.NoDup (firstn n l).
Proof. intros H. rewrite <- (firstn_skipn n l) in H. now apply List.NoDup_app_remove_r in H. Qed.

Lemma new_ids base ds :
  map sh_id (imap (fun i d => {| sh_draw := d; sh_id := base + Z.of_nat i + 1 |}) ds)
  = map (fun i => base + Z.of_nat i + 1) (seq 0 (length ds)).
Proof.
  revert base. induction ds as [|d ds IH]; intros base; [easy|]. cbn [imap map length seq sh_id]. f_equal.
  rewrite <- seq_shift, map_map. specialize (IH (base + 1)). rewrite <- (map_ext (fun i => base + 1 + Z.of_nat i + 1)) by lia.
  rewrite <- IH. f_equal. apply imap_ext. intros i d' _. cbn. f_equal. lia.
Qed.

Lemma drawn_ok ss r : session_ok ss -> session_ok (drawn ss r).
Proof.
  intros [Hc Hi Hu Hl]. set (new := imap (fun i d => {| sh_draw := d; sh_id := ss_drawCount ss + Z.of_nat i + 1 |}) (sr_draws r)).
  assert (Hnew : forall x, In x (map sh_id new) -> ss_drawCount ss < x <= ss_drawCount ss + Z.of_nat (length (sr_draws r))).
  { unfold new. rewrite new_ids. intros x (i & <- & Hin)%in_map_iff. apply in_seq in Hin. lia. }
  assert (Hold : forall x, In x (map sh_id (ss_history ss)) -> 1 <= x <= ss_drawCount ss).
  { intros x (h & <- & Hin)%in_map_iff. exact (proj1 (List.Forall_forall _ _) Hi _ Hin). }
  split; cbn [drawn ss_drawCount ss_history]; fold new.
  - lia.
  - apply Forall_take, List.Forall_forall. intros h Hin. apply (in_map sh_id) in Hin. rewrite map_app in Hin.
    apply in_app_or in Hin as [Hin%Hnew|Hin%Hold]; lia.
  - rewrite <- firstn_map. apply NoDup_firstn. rewrite map_app. apply List.NoDup_app.
    + unfold new. rewrite new_ids. apply NoDup_map_NoDup_ForallPairs; [intros i j _ _; lia|apply seq_NoDup].
    + exact Hu.
    + intros x Hx%Hnew Hy%Hold. lia.
  - rewrite length_firstn. lia.
Qed.

Lemma sim_step_ok s ev : sim_ok s -> sim_ok (sim_step s ev).
Proof.
  intros [H1 H2]. destruct ev as [| | | | |k r]; cbn [sim_step]; try (now split).
  - unfold sim_start. destruct (canStart s); [|now split]. split; [|exact H2]. intros ss [= <-].
    split; cbn; [lia|constructor|constructor|lia].
  - unfold sim_draw. destruct (sm_session s) as [ss|] eqn:E; [|split; [now rewrite E|exact H2]].
    destruct (canDraw s); [|split; [now rewrite E|exact H2]]. split; cbn; [exact H1|].
    apply Forall_app_2; [exact H2|]. apply Forall_singleton. now apply H1.
  - unfold sim_answered. destruct (sm_flights s !! k) as [ss|] eqn:E; [|now split].
    split; cbn; [|now apply Forall_delete]. destruct r as [r|]; [|exact H1]. intros ss' [= <-].
    apply drawn_ok. exact (Forall_lookup_1 _ _ _ _ H2 E).
Qed.

Lemma sim_run_ok es : sim_ok (sim_run es).
Proof.
  unfold sim_run. assert (H : sim_ok sim_init) by (split; [easy|constructor]). revert H. generalize sim_init.
  induction es as [|ev es IH]; intros s H; [exact H|]. cbn [fold_left]. apply IH. now apply sim_step_ok.
Qed.

(** the history of a simulation lists each draw at most once, under its number, and never
    more than forty of them. *)
Theorem simulation_history es ss :
  sm_session (sim_run es) = Some ss ->
  List.NoDup (map sh_id (ss_history ss)) /\ (length (ss_history ss) <= 40)%nat
  /\ Forall (fun h => 1 <= sh_id h <= ss_drawCount ss) (ss_history ss).
Proof. intros H. apply (proj1 (sim_run_ok es)) in H as []. now repeat split. Qed.

End Simulation.

(** * Concrete runs *)

Definition stocked : BalanceBlindBoxOverview :=
  {| ov_enabled := true; ov_price_usd := Number_str "2.5"; ov_balance_usd := of_Z 20; ov_inventory_count := 3;
     ov_remaining_purchase_limit := 9 |}.

Definition friend : WalletTransferRecipient := {| wr_external_id := "ABC123"; wr_display_name_masked := "a*" |}.

(** Boxes are bought, some are opened, and one is given away. *)
Definition panel_actions : list PanelEvent :=
  [PvProps (Some stocked) false false; PvCount 40; PvPurchase; PvCount 8; PvPurchase; PvPurchase; PvAnswer 0 BaDone;
   PvAnswer 0 BaDone; PvOpenCount 100; PvAnswer 0 BaDone; PvRecipientId " abc123"; PvLookup; PvAnswer 0 (BaRecipient friend);
   PvConfirmGift true; PvGift].

(** Nine boxes are more than the balance is worth. *)
Lemma panel_requests_witness :
  map fst (pn_requests (panel_run toUpper panel_actions))
  = [RGift "ABC123" 1; RLookup "ABC123"; ROpen 3; RPurchase 8]%js
  /\ Forall (box_request_ok (fun i => i = "ABC123"%js)) (pn_requests (panel_run toUpper panel_actions))
  /\ (length (pn_flights (panel_run toUpper panel_actions)) <= 1)%nat.
Proof.
  split; [vm_compute; reflexivity|].
  apply (panel_requests toUpper (fun i => i = "ABC123"%js) panel_actions). repeat constructor.
Defined.

Lemma typed_quantity_bounds_witness :
  1 <= typed_quantity 9 "12.7" <= 9 /\ typed_quantity 9 "12.7" = 9 /\ typed_quantity 9 "abc" = 1.
Proof. split; [apply typed_quantity_bounds; lia|split; vm_compute; reflexivity]. Defined.

Definition two_draws : SimulationResult :=
  {| sr_cost_quota := of_Z 5; sr_reward_quota := of_Z 1; sr_balance_after := of_Z 96; sr_draws := [JNull; JNull];
     sr_small_pity_progress := 2; sr_pity_progress := 2; sr_first_draw_eligible := false |}.

Definition simulated (es : list SimEvent) : Simulator := sim_run id (Number_str "2.5") es.

Lemma simulation_history_witness :
  exists ss, sm_session (simulated [SvStart; SvDraw; SvAnswer 0 (Some two_draws); SvDraw; SvAnswer 0 (Some two_draws)]) = Some ss
    /\ map sh_id (ss_history ss) = [3; 4; 1; 2]
    /\ List.NoDup (map sh_id (ss_history ss)) /\ (length (ss_history ss) <= 40)%nat
    /\ Forall (fun h => 1 <= sh_id h <= ss_drawCount ss) (ss_history ss).
Proof.
  eexists. split; [vm_compute; reflexivity|]. split; [reflexivity|].
  apply (simulation_history id (Number_str "2.5")
           [SvStart; SvDraw; SvAnswer 0 (Some two_draws); SvDraw; SvAnswer 0 (Some two_draws)]).
  vm_compute. reflexivity.
Defined.

(** A simulation that is given up while a draw is in flight comes back with its answer. *)
Lemma reset_undone :
  sm_session (simulated [SvStart; SvDraw; SvReset]) = None
  /\ sm_session (simulated [SvStart; SvDraw; SvReset; SvAnswer 0 (Some two_draws)]) <> None.
Proof. split; [reflexivity|vm_compute; easy]. Qed.

(** An extra draw counts as its chance of another box. *)
Definition sample_pool : list BlindBoxTier :=
  [{| bt_name := "small"; bt_min_usd := of_Z 1; bt_max_usd := of_Z 3; bt_probability := Number_str "0.5";
      bt_reward_type := "quota"; bt_wallet_type := [] |};
   {| bt_name := "再来一抽"; bt_min_usd := zero; bt_max_usd := zero; bt_probability := Number_str "0.5";
      bt_reward_type := "prop"; bt_wallet_type := [] |}]%js.

Lemma pool_economics :
  calculateBlindBoxEconomics sample_pool (of_Z 2)
  = {| be_probability := of_Z 1; be_expectedRewardUSD := of_Z 2; be_immediateProfitProbability := zero;
       be_maxRewardUSD := of_Z 3 |}.
Proof. vm_compute. reflexivity. Qed.
