(* ===== verification/ChannelUtils.v ===== *)
(** Model of [web/default/src/features/channels/lib/channel-utils.ts] with the tables
    of [web/default/src/features/channels/constants.ts] it reads: display of channels
    and keys, parsing of lists and settings, attention, aggregation by tag,
    deduplication of keys.

    Identifiers, statuses, types, priorities and weights are integers; quotas,
    times and balances are JavaScript numbers.  [null] and [undefined] of a nullable
    field are both [None]. *)

From S2P Require Import Prelude Number Json.
From stdpp Require Import options.

(** * Tables *)

Definition CHANNEL_TYPES : list (Z * jstr) :=
  [ (0, "Unknown"); (1, "OpenAI"); (3, "Azure"); (4, "Ollama"); (6, "OpenAIMax");
    (7, "OhMyGPT"); (8, "Custom"); (9, "AILS"); (10, "AI Proxy"); (11, "PaLM");
    (12, "API2GPT"); (13, "AIGC2D"); (14, "Anthropic"); (15, "Baidu"); (16, "Zhipu");
    (17, "Ali"); (18, "Xunfei"); (19, "360"); (20, "OpenRouter"); (21, "AI Proxy Library");
    (22, "FastGPT"); (23, "Tencent"); (24, "Gemini"); (25, "Moonshot"); (26, "Zhipu V4");
    (27, "Perplexity"); (31, "LingYiWanWu"); (33, "AWS"); (34, "Cohere"); (35, "MiniMax");
    (36, "SunoAPI"); (37, "Dify"); (38, "Jina"); (39, "Cloudflare"); (40, "SiliconFlow");
    (41, "Vertex AI"); (42, "Mistral"); (43, "DeepSeek"); (44, "MokaAI"); (45, "VolcEngine");
    (46, "Baidu V2"); (47, "Xinference"); (48, "xAI"); (49, "Coze"); (50, "Kling");
    (51, "Jimeng"); (52, "Vidu"); (53, "Submodel"); (54, "DoubaoVideo"); (56, "Replicate");
    (57, "Codex") ]%Z.

Definition TYPE_TO_ICON : list (Z * jstr) :=
  [ (1, "OpenAI"); (6, "OpenAI"); (7, "OpenAI"); (8, "OpenAI"); (3, "Azure"); (14, "Claude");
    (24, "Gemini"); (11, "Google"); (41, "Gemini"); (33, "Aws"); (39, "Cloudflare");
    (15, "Baidu"); (46, "Baidu"); (16, "Zhipu"); (26, "Zhipu"); (17, "Qwen"); (18, "Spark");
    (23, "Hunyuan"); (19, "Ai360"); (25, "Moonshot"); (31, "Yi"); (35, "Minimax");
    (45, "Volcengine"); (4, "Ollama"); (27, "Perplexity"); (34, "Cohere"); (42, "Mistral");
    (43, "DeepSeek"); (48, "XAI"); (49, "Coze"); (40, "SiliconCloud"); (44, "OpenAI");
    (20, "OpenRouter"); (50, "Kling"); (51, "Jimeng"); (52, "Vidu"); (36, "Suno");
    (54, "Doubao"); (56, "Replicate"); (37, "Dify"); (38, "Jina"); (22, "FastGPT");
    (47, "Xinference"); (53, "OpenAI"); (10, "OpenAI"); (21, "OpenAI"); (12, "OpenAI");
    (13, "OpenAI"); (9, "OpenAI") ]%Z.

Definition TYPE_TO_KEY_PROMPT : list (Z * jstr) :=
  [ (15, "Format: APIKey|SecretKey"); (18, "Format: APPID|APISecret|APIKey");
    (22, "Format: APIKey-AppId, e.g., fastgpt-0sp2gtvfdgyi4k30jwlgwf1i-64f335d84283f05518e9e041");
    (23, "Format: AppId|SecretId|SecretKey"); (33, "Format: Ak|Sk|Region");
    (50, "Format: AccessKey|SecretKey (or just ApiKey if upstream is New API)");
    (51, "Format: Access Key ID|Secret Access Key");
    (57, "Paste Codex OAuth JSON credential (access_token / refresh_token / account_id)") ]%Z.

Fixpoint table_get {V} (k : Z) (t : list (Z * V)) : option V :=
  match t with
  | [] => None
  | (k', v) :: t' => if (k =? k')%Z then Some v else table_get k t'
  end.

Definition table_or {V} (k : Z) (t : list (Z * V)) (d : V) : V :=
  match table_get k t with Some v => v | None => d end.

Definition getChannelTypeLabel (type : Z) : jstr := table_or type CHANNEL_TYPES "Unknown".
Definition getChannelTypeIcon (type : Z) : jstr := table_or type TYPE_TO_ICON "OpenAI".
Definition getKeyPromptForType (type : Z) : jstr :=
  table_or type TYPE_TO_KEY_PROMPT "Enter API key for this channel".

Inductive Variant := VSuccess | VInfo | VWarning | VDanger | VNeutral.

Record Badge := { bd_variant : Variant; bd_label : jstr; bd_showDot : bool }.

Definition badge (v : Variant) (l : jstr) (dot : bool) : Badge :=
  {| bd_variant := v; bd_label := l; bd_showDot := dot |}.

Definition UNKNOWN : Z := 0.
Definition ENABLED : Z := 1.
Definition MANUAL_DISABLED : Z := 2.
Definition AUTO_DISABLED : Z := 3.

Definition CHANNEL_STATUS_CONFIG : list (Z * Badge) :=
  [ (UNKNOWN, badge VNeutral "Unknown" true); (ENABLED, badge VSuccess "Enabled" true);
    (MANUAL_DISABLED, badge VNeutral "Disabled" true);
    (AUTO_DISABLED, badge VDanger "Auto Disabled" true) ].

(** These entries have no [showDot]. *)
Definition MULTI_KEY_STATUS_CONFIG : list (Z * Badge) :=
  [ (ENABLED, badge VSuccess "Enabled" false);
    (MANUAL_DISABLED, badge VNeutral "Manual Disabled" false);
    (AUTO_DISABLED, badge VDanger "Auto Disabled" false) ].

Definition getChannelStatusBadge (status : Z) : Badge :=
  table_or status CHANNEL_STATUS_CONFIG (badge VNeutral "Unknown" true).
Definition getMultiKeyStatusBadge (status : Z) : Badge :=
  table_or status MULTI_KEY_STATUS_CONFIG (badge VSuccess "Enabled" false).

(** * Channels *)

Record ChannelInfo := {
  is_multi_key : bool;
  multi_key_size : Z;
  multi_key_status_list : option (list (jstr * Z))
}.

(** [ch_rest]: the fields that the operations only copy. *)
Record Channel := {
  ch_id : Z;
  ch_type : Z;
  ch_key : jstr;
  ch_status : Z;
  ch_name : jstr;
  ch_weight : option Z;
  ch_created_time : number;
  ch_test_time : number;
  ch_response_time : number;
  ch_balance : number;
  ch_balance_updated_time : number;
  ch_models : jstr;
  ch_group : jstr;
  ch_used_quota : number;
  ch_priority : option Z;
  ch_tag : option jstr;
  ch_channel_info : option ChannelInfo;
  ch_rest : list (jstr * json)
}.

Definition isChannelEnabled (channel : Channel) : bool := (ch_status channel =? 1)%Z.

Definition isMultiKeyChannel (channel : Channel) : bool :=
  match ch_channel_info channel with Some i => is_multi_key i | None => false end.

(** * Keys *)

(** [s.slice(0, n)] and [s.slice(-n)] *)
Definition slice_first (n : nat) (s : jstr) : jstr := take n s.
Definition slice_last (n : nat) (s : jstr) : jstr := drop (length s - n) s.

Definition key_lines (key : jstr) : list jstr :=
  List.filter (fun k => truthy (trim k)) (splitc lf key).

Definition formatChannelKey (key : jstr) (isMultiKey : bool) : jstr :=
  if negb (truthy key) then []
  else if isMultiKey then digits (N.of_nat (length (key_lines key))) ++ " keys"
  else if length key <=? 16 then slice_first 4 key ++ "..." ++ slice_last 4 key
  else slice_first 8 key ++ "..." ++ slice_last 8 key.

Definition formatKeyPreview (key : jstr) (maxLength : nat) : jstr :=
  if negb (truthy key) then []
  else if length key <=? maxLength then key
  else slice_first maxLength key ++ "...".

Definition countKeys (key : jstr) : nat :=
  if negb (truthy key) then 0 else length (key_lines key).

(** * Lists and settings *)

Definition parseModelsList (models : jstr) : list jstr :=
  if negb (truthy models) then []
  else List.filter truthy (map trim (splitc 44 models)).

(** [a.localeCompare(b) <= 0] is given by the browser's collation. *)
Definition group_le (locale_le : jstr -> jstr -> bool) (a b : jstr) : bool :=
  if a =s "default" then true else if b =s "default" then false else locale_le a b.

Definition parseGroupsList (locale_le : jstr -> jstr -> bool) (groups : jstr) : list jstr :=
  if negb (truthy groups) then []
  else stable_sort (group_le locale_le) (List.filter truthy (map trim (splitc 44 groups))).

Definition formatModelsString (models : list jstr) : jstr := join "," models.
Definition formatGroupsString (groups : list jstr) : jstr := join "," groups.

Definition parseChannelSettings (settingStr : option jstr) : json :=
  match settingStr with
  | None | Some [] => JObj []
  | Some s => match json_parse s with Some v => v | None => JObj [] end
  end.

Definition parseChannelOtherSettings (settingsStr : option jstr) : json :=
  match settingsStr with
  | None | Some [] => JObj []
  | Some s => if s =s "{}" then JObj []
              else match json_parse s with Some v => v | None => JObj [] end
  end.

Definition validateChannelSettings (settings : jstr) : bool :=
  if negb (truthy settings) || (trim settings =s []) then true
  else match json_parse settings with Some _ => true | None => false end.

(** * Display *)

Definition getBalanceVariant (balance : number) : Variant :=
  if (balance =? zero)%num then VNeutral
  else if (balance <? of_Z 1)%num then VDanger
  else if (balance <? of_Z 10)%num then VWarning
  else VSuccess.

(** Without a translation function. *)
Definition formatResponseTime (timeMs : number) : jstr :=
  if (timeMs =? zero)%num then "Not tested"
  else if (timeMs <? of_Z 1000)%num then num_to_string timeMs ++ "ms"
  else toFixed 2 (timeMs / of_Z 1000)%num ++ "s".

Definition RT_EXCELLENT : Badge := badge VSuccess "Excellent" false.
Definition RT_GOOD : Badge := badge VInfo "Good" false.
Definition RT_FAIR : Badge := badge VWarning "Fair" false.
Definition RT_POOR : Badge := badge VDanger "Poor" false.
Definition RT_UNKNOWN : Badge := badge VNeutral "Not tested" false.

Definition getResponseTimeConfig (timeMs : number) : Badge :=
  if (timeMs =? zero)%num then RT_UNKNOWN
  else if (timeMs <=? of_Z 500)%num then RT_EXCELLENT
  else if (timeMs <=? of_Z 1000)%num then RT_GOOD
  else if (timeMs <=? of_Z 2000)%num then RT_FAIR
  else if (timeMs <=? of_Z 5000)%num then RT_POOR
  else RT_POOR.

(** [String] of an integer. *)
Definition int_to_string (z : Z) : jstr :=
  if (z <? 0)%Z then "-" ++ digits (Z.to_N (- z)) else digits (Z.to_N z).

Definition getPriorityDisplay (priority : option Z) : jstr :=
  match priority with None => "0" | Some p => int_to_string p end.
Definition getWeightDisplay (weight : option Z) : jstr :=
  match weight with None => "0" | Some w => int_to_string w end.

(** * Validation and attention *)

Definition validateChannelName (name : jstr) : bool := truthy (trim name).
Definition validateApiKey (key : jstr) : bool := truthy (trim key).
Definition validateModels (models : jstr) : bool := 0 <? length (parseModelsList models).
Definition validateGroups (locale_le : jstr -> jstr -> bool) (groups : jstr) : bool :=
  0 <? length (parseGroupsList locale_le groups).

Definition all_keys_disabled (channel : Channel) : bool :=
  match ch_channel_info channel with
  | Some i =>
    is_multi_key i
    && match multi_key_status_list i with
       | Some l => (multi_key_size i <=? Z.of_nat (length l))%Z
       | None => false
       end
  | None => false
  end.

Definition low_balance (channel : Channel) : bool :=
  (ch_balance channel >? zero)%num && (ch_balance channel <? of_Z 1)%num.

Definition channelNeedsAttention (channel : Channel) : bool :=
  if (ch_status channel =? 3)%Z then true
  else if low_balance channel then true
  else if all_keys_disabled channel then true
  else false.

Definition getAttentionReason (channel : Channel) : option jstr :=
  if (ch_status channel =? 3)%Z then Some "Auto-disabled"
  else if low_balance channel then Some "Low balance"
  else if all_keys_disabled channel then Some "All keys disabled"
  else None.

(** * Aggregation by tag *)

(** A tag row: the fields of a channel, with the tag as its identifier, a status
    that may be undefined, and the children. *)
Record TagRow := {
  tr_key : jstr;
  tr_id : jstr;
  tr_tag : jstr;
  tr_name : jstr;
  tr_type : Z;
  tr_status : option Z;
  tr_group : jstr;
  tr_used_quota : number;
  tr_response_time : number;
  tr_priority : option Z;
  tr_weight : option Z;
  tr_balance : number;
  tr_test_time : number;
  tr_created_time : number;
  tr_balance_updated_time : number;
  tr_models : jstr;
  tr_channel_info : option ChannelInfo;
  tr_rest : list (jstr * json);
  tr_children : list Channel
}.

(** The row created for the first channel of a tag. *)
Definition new_tag_row (tag : jstr) (channel : Channel) : TagRow :=
  {| tr_key := tag; tr_id := tag; tr_tag := tag; tr_name := tag; tr_type := 0;
     tr_status := None; tr_group := []; tr_used_quota := zero; tr_response_time := zero;
     tr_priority := Some (-1)%Z; tr_weight := Some (-1)%Z; tr_balance := zero;
     tr_test_time := zero; tr_created_time := zero; tr_balance_updated_time := zero;
     tr_models := []; tr_channel_info := ch_channel_info channel; tr_rest := ch_rest channel;
     tr_children := [] |}.

Definition opt_Z_eqb (a b : option Z) : bool :=
  match a, b with
  | Some x, Some y => (x =? y)%Z
  | None, None => true
  | _, _ => false
  end.

(** Same value, or [null] when they differ; -1 stands for "not set yet". *)
Definition merge_same (row child : option Z) : option Z :=
  if opt_Z_eqb row (Some (-1)%Z) then child
  else if negb (opt_Z_eqb row child) then None
  else row.

Definition groups_of (s : jstr) : list jstr := List.filter truthy (splitc 44 s).

(** [existingGroups] is computed once, before the loop over the new groups. *)
Definition merge_group (row child : jstr) : jstr :=
  match row with
  | [] => child
  | _ =>
    let existingGroups := groups_of row in
    fold_left (fun acc g => if memb g existingGroups then acc else acc ++ "," ++ g)
      (groups_of child) row
  end.

Definition merge_status (row : option Z) (child : Z) : option Z :=
  if (child =? 1)%Z then Some 1%Z
  else match row with None => Some child | Some _ => row end.

Definition merge_response_time (row child : number) (childCount : nat) : number :=
  ((row * of_Z (Z.of_nat childCount - 1) + child) / of_Z (Z.of_nat childCount))%num.

(** The updates of a tag row for one more child. *)
Definition add_child (channel : Channel) (r : TagRow) : TagRow :=
  let children := tr_children r ++ [channel] in
  {| tr_key := tr_key r; tr_id := tr_id r; tr_tag := tr_tag r; tr_name := tr_name r;
     tr_type := tr_type r;
     tr_status := merge_status (tr_status r) (ch_status channel);
     tr_group := merge_group (tr_group r) (ch_group channel);
     tr_used_quota := (tr_used_quota r + ch_used_quota channel)%num;
     tr_response_time :=
       merge_response_time (tr_response_time r) (ch_response_time channel) (length children);
     tr_priority := merge_same (tr_priority r) (ch_priority channel);
     tr_weight := merge_same (tr_weight r) (ch_weight channel);
     tr_balance := tr_balance r; tr_test_time := tr_test_time r;
     tr_created_time := tr_created_time r; tr_balance_updated_time := tr_balance_updated_time r;
     tr_models := tr_models r; tr_channel_info := tr_channel_info r; tr_rest := tr_rest r;
     tr_children := children |}.

Definition channel_tag (channel : Channel) : jstr :=
  match ch_tag channel with Some t => t | None => [] end.

(** [tagMap] and [result] hold the same row objects, in the same order: one list of
    rows, each found by its tag. *)
Fixpoint update_row (tag : jstr) (channel : Channel) (rows : list TagRow) : list TagRow :=
  match rows with
  | [] => [add_child channel (new_tag_row tag channel)]
  | r :: rows' =>
    if tag =s tr_tag r then add_child channel r :: rows' else r :: update_row tag channel rows'
  end.

Definition aggregateChannelsByTag (channels : list Channel) : list TagRow :=
  fold_left (fun rows channel => update_row (channel_tag channel) channel rows) channels [].

(** * Deduplication of keys *)

Record DedupResult := {
  deduplicatedText : jstr;
  beforeCount : nat;
  afterCount : nat;
  removedCount : nat
}.

Definition deduplicateKeys (keysText : jstr) : DedupResult :=
  if negb (truthy keysText) || (trim keysText =s []) then
    {| deduplicatedText := []; beforeCount := 0; afterCount := 0; removedCount := 0 |}
  else
    let keyLines := splitc lf keysText in
    let deduplicatedKeys := uniq (List.filter truthy (map trim keyLines)) in
    {| deduplicatedText := join [lf] deduplicatedKeys; beforeCount := length keyLines;
       afterCount := length deduplicatedKeys;
       removedCount := length keyLines - length deduplicatedKeys |}.

(** * Lemmas: lists of tags *)

Lemma splitc_app_gen sep a b : splitc sep (a ++ sep :: b) = splitc sep a ++ splitc sep b.
Proof.
  induction a as [|c a IH]; cbn; [now rewrite N.eqb_refl|].
  destruct (c =? sep)%N; [now rewrite IH|]. rewrite IH.
  pose proof (splitc_nonempty sep a). now destruct (splitc sep a).
Qed.

Lemma groups_of_snoc a g :
  g <> [] -> Forall (fun c => c <> 44%N) g -> groups_of (a ++ "," ++ g) = groups_of a ++ [g].
Proof.
  intros Hne Hg. unfold groups_of. change ("," ++ g) with (44%N :: g).
  rewrite splitc_app_gen, List.filter_app, (splitc_piece 44 g Hg). cbn. now destruct g.
Qed.

Lemma groups_clean s g :
  In g (groups_of s) -> g <> [] /\ Forall (fun c => c <> 44%N) g.
Proof.
  intros [Hg Ht]%filter_In. split; [now destruct g|].
  exact (proj1 (List.Forall_forall _ _) (splitc_no_sep 44 s) g Hg).
Qed.

Lemma merge_group_In row child g :
  In g (groups_of (merge_group row child)) <-> In g (groups_of row) \/ In g (groups_of child).
Proof.
  unfold merge_group. destruct row as [|c row]; [cbn; tauto|].
  assert (H : forall new acc, (forall x, In x new -> x <> [] /\ Forall (fun c => c <> 44%N) x) ->
    (In g (groups_of (fold_left (fun acc g => if memb g (groups_of (c :: row)) then acc
                                              else acc ++ "," ++ g) new acc))
     <-> In g (groups_of acc) \/ (In g new /\ ~ In g (groups_of (c :: row))))).
  { induction new as [|x new IH]; intros acc Hn; cbn [fold_left]; [cbn; tauto|].
    rewrite IH by (intros; apply Hn; now right). destruct (memb x _) eqn:E.
    - apply memb_In in E. cbn [In]. split; [tauto|]. intros [?|[[<-|?] ?]]; tauto.
    - apply memb_not_In in E. destruct (Hn x) as [Hx1 Hx2]; [now left|].
      rewrite groups_of_snoc, in_app_iff by easy. cbn [In].
      split; [intros [[?|[<-|[]]]|?]; tauto|]. intros [?|[[<-|?] ?]]; tauto. }
  rewrite H by apply groups_clean. split; [tauto|]. intros [?|?]; [now left|].
  pose proof (memb_In g (groups_of (c :: row))) as Hm.
  destruct (memb g (groups_of (c :: row))); [tauto|]. right. split; [easy|]. intros H'%Hm. easy.
Qed.

Lemma opt_Z_eqb_spec a b : reflect (a = b) (opt_Z_eqb a b).
Proof.
  destruct a as [x|], b as [y|]; cbn; try (constructor; congruence).
  destruct (Z.eqb_spec x y); constructor; congruence.
Qed.

(** * Lemmas: rows *)

Definition children_of (tag : jstr) (cs : list Channel) : list Channel :=
  List.filter (fun c => tag =s channel_tag c) cs.

(** The row of a tag, from the channels that have it. *)
Definition row_of (tag : jstr) (cs : list Channel) : TagRow :=
  match cs with
  | [] => new_tag_row tag
            {| ch_id := 0; ch_type := 0; ch_key := []; ch_status := 0; ch_name := [];
               ch_weight := None; ch_created_time := zero; ch_test_time := zero;
               ch_response_time := zero; ch_balance := zero; ch_balance_updated_time := zero;
               ch_models := []; ch_group := []; ch_used_quota := zero; ch_priority := None;
               ch_tag := None; ch_channel_info := None; ch_rest := [] |}
  | c :: _ => fold_left (fun r x => add_child x r) cs (new_tag_row tag c)
  end.

Lemma row_of_snoc tag cs c :
  row_of tag (cs ++ [c])
  = add_child c (match cs with [] => new_tag_row tag c | _ => row_of tag cs end).
Proof. destruct cs as [|x cs]; [easy|]. cbn [app row_of]. now rewrite app_comm_cons, fold_left_app. Qed.

Lemma row_of_tag tag cs : tr_tag (row_of tag cs) = tag.
Proof.
  induction cs as [|c cs IH] using rev_ind; [easy|]. rewrite row_of_snoc. cbn.
  now destruct cs.
Qed.

Lemma update_row_map f ts tag c :
  (forall t, tr_tag (f t) = t) -> List.NoDup ts ->
  update_row tag c (map f ts)
  = if memb tag ts then map (fun t => if tag =s t then add_child c (f t) else f t) ts
    else map f ts ++ [add_child c (new_tag_row tag c)].
Proof.
  intros Hf Hnd. induction Hnd as [|t ts Ht Hnd IH]; [easy|]. cbn [map update_row memb existsb].
  rewrite Hf. destruct (seqb_spec tag t) as [->|Hne]; cbn [orb].
  - f_equal. apply map_ext_in. intros x Hx. destruct (seqb_spec t x) as [->|]; easy.
  - rewrite IH. fold (memb tag ts). now destruct (memb tag ts).
Qed.

Lemma uniq_go_snoc seen l x :
  uniq_go seen (l ++ [x])
  = if memb x seen || memb x l then uniq_go seen l else uniq_go seen l ++ [x].
Proof.
  revert seen; induction l as [|y l IH]; intros seen; cbn [uniq_go app memb existsb].
  - fold (memb x seen). rewrite orb_false_r. now destruct (memb x seen).
  - destruct (memb y seen) eqn:Ey.
    + rewrite IH. fold (memb x l). destruct (seqb_spec x y) as [->|]; [now rewrite Ey|easy].
    + rewrite IH. cbn [memb existsb]. fold (memb x seen) (memb x l).
      destruct (x =s y), (memb x seen), (memb x l); easy.
Qed.

Lemma uniq_snoc l x : uniq (l ++ [x]) = if memb x l then uniq l else uniq l ++ [x].
Proof. apply uniq_go_snoc. Qed.

Lemma children_of_nonempty tag cs : In tag (map channel_tag cs) -> children_of tag cs <> [].
Proof.
  unfold children_of. intros (c & <- & Hc)%in_map_iff E.
  assert (H : In c []) by (rewrite <- E; apply filter_In; now rewrite seqb_refl). easy.
Qed.

Lemma children_of_fresh tag cs : ~ In tag (map channel_tag cs) -> children_of tag cs = [].
Proof.
  unfold children_of. induction cs as [|c cs IH]; cbn; [easy|]. intros H.
  destruct (seqb_spec tag (channel_tag c)) as [->|]; [tauto|]. apply IH. tauto.
Qed.

Lemma memb_uniq x l : memb x (uniq l) = memb x l.
Proof.
  destruct (memb x l) eqn:E.
  - now apply memb_In, uniq_In, memb_In.
  - apply memb_not_In. rewrite uniq_In. now apply memb_not_In.
Qed.

(** One pass over the channels computes the grouping by tag. *)
Lemma aggregate_rows cs :
  aggregateChannelsByTag cs
  = map (fun t => row_of t (children_of t cs)) (uniq (map channel_tag cs)).
Proof.
  induction cs as [|c cs IH] using rev_ind; [easy|]. unfold aggregateChannelsByTag in *.
  rewrite fold_left_app, map_app, IH. cbn [fold_left map]. rewrite uniq_snoc.
  rewrite update_row_map by (auto using uniq_NoDup; intros; apply row_of_tag).
  rewrite memb_uniq. unfold children_of. destruct (memb (channel_tag c) (map channel_tag cs)) eqn:E.
  - apply map_ext_in. intros t Ht. rewrite List.filter_app. cbn. rewrite (seqb_sym t).
    destruct (seqb_spec (channel_tag c) t) as [<-|]; [|now rewrite app_nil_r].
    rewrite row_of_snoc. apply (proj1 (uniq_In _ _)), children_of_nonempty in Ht.
    unfold children_of in Ht. now destruct (List.filter _ cs).
  - rewrite map_app. f_equal.
    + apply map_ext_in. intros t Ht%(proj1 (uniq_In _ _)). rewrite List.filter_app. cbn.
      destruct (seqb_spec t (channel_tag c)) as [->|]; [|now rewrite app_nil_r].
      now apply memb_not_In in E.
    + cbn. rewrite List.filter_app. cbn. rewrite seqb_refl.
      apply memb_not_In, children_of_fresh in E. unfold children_of in E. now rewrite E.
Qed.

(** What a row holds, from its children. *)
Lemma row_children tag cs : tr_children (row_of tag cs) = cs.
Proof.
  induction cs as [|c cs IH] using rev_ind; [easy|]. rewrite row_of_snoc. cbn.
  destruct cs; [easy|]. now rewrite IH.
Qed.

Lemma row_status tag cs :
  tr_status (row_of tag cs)
  = match cs with
    | [] => None
    | c :: _ => if existsb isChannelEnabled cs then Some 1%Z else Some (ch_status c)
    end.
Proof.
  induction cs as [|c cs IH] using rev_ind; [easy|]. rewrite row_of_snoc. cbn [tr_status add_child].
  unfold merge_status. fold (isChannelEnabled c). destruct cs as [|x cs].
  - cbn. now destruct (isChannelEnabled c).
  - rewrite IH. cbn [app]. rewrite app_comm_cons, existsb_app. cbn [existsb].
    destruct (isChannelEnabled c); cbn [orb]; rewrite ?orb_true_r, ?orb_false_r; [easy|].
    now destruct (_ || _).
Qed.

Lemma row_groups tag cs g :
  In g (groups_of (tr_group (row_of tag cs))) <-> exists c, In c cs /\ In g (groups_of (ch_group c)).
Proof.
  induction cs as [|c cs IH] using rev_ind.
  { cbn. split; [easy|]. now intros (c & [] & _). }
  rewrite row_of_snoc. cbn [tr_group add_child]. rewrite merge_group_In.
  assert (E : In g (groups_of (tr_group (match cs with [] => new_tag_row tag c | _ => row_of tag cs end)))
              <-> exists c, In c cs /\ In g (groups_of (ch_group c))).
  { destruct cs; [|easy]. cbn. split; [easy|]. now intros (y & [] & _). }
  rewrite E. setoid_rewrite in_app_iff. cbn. split.
  - intros [(y & Hy & Hg)|Hg]; eauto.
  - intros (y & [Hy|[<-|[]]] & Hg); eauto.
Qed.

(** The first value when all the others are the same, [null] otherwise. *)
Definition common (l : list (option Z)) : option Z :=
  match l with
  | [] => Some (-1)%Z
  | p :: l' => if forallb (opt_Z_eqb p) l' then p else None
  end.

Lemma common_snoc p l q :
  p <> Some (-1)%Z -> common ((p :: l) ++ [q]) = merge_same (common (p :: l)) q.
Proof.
  intros Hp. cbn [common app]. rewrite forallb_app. cbn [forallb]. rewrite andb_true_r.
  unfold merge_same. destruct (forallb (opt_Z_eqb p) l); cbn [andb].
  - destruct (opt_Z_eqb_spec p (Some (-1)%Z)); [easy|]. now destruct (opt_Z_eqb p q).
  - cbn. now destruct q.
Qed.

Lemma row_common tag cs :
  (Forall (fun c => ch_priority c <> Some (-1)%Z) cs ->
   tr_priority (row_of tag cs) = common (map ch_priority cs))
  /\ (Forall (fun c => ch_weight c <> Some (-1)%Z) cs ->
      tr_weight (row_of tag cs) = common (map ch_weight cs)).
Proof.
  induction cs as [|c cs [IHp IHw]] using rev_ind; [easy|]. rewrite row_of_snoc, !map_app.
  cbn [tr_priority tr_weight add_child map]. destruct cs as [|x cs]; [easy|].
  split; intros [H _]%Forall_app; [rewrite IHp by easy|rewrite IHw by easy]; cbn [map];
    rewrite common_snoc; try easy; now apply Forall_cons_1 in H.
Qed.

(** * Properties *)

(** the aggregation groups the channels by tag: one row per tag, in the order
    of first appearance, whose children are exactly the channels of the tag, in
    order. *)
Theorem aggregate_groups (cs : list Channel) :
  map tr_tag (aggregateChannelsByTag cs) = uniq (map channel_tag cs)
  /\ Forall (fun r => tr_children r = children_of (tr_tag r) cs /\ tr_children r <> [])
       (aggregateChannelsByTag cs).
Proof.
  rewrite aggregate_rows. split.
  - rewrite map_map. rewrite <- (map_id (uniq _)) at 2. apply map_ext. intros. apply row_of_tag.
  - apply Forall_map, List.Forall_forall. intros t Ht%(proj1 (uniq_In _ _)).
    rewrite row_of_tag, row_children. split; [easy|]. now apply children_of_nonempty.
Qed.

(** a tag row is enabled as soon as one child is (otherwise it has the first
    child's status), its groups are those of its children, and its priority and
    weight are the common value of the children or [null], for channels whose
    values are not the sentinel -1. *)
Theorem aggregate_fields (cs : list Channel) (r : TagRow) :
  In r (aggregateChannelsByTag cs) ->
  let children := children_of (tr_tag r) cs in
  tr_status r = (if existsb isChannelEnabled children then Some 1%Z
                 else option_map ch_status (head children))
  /\ (forall g, In g (groups_of (tr_group r))
                <-> exists c, In c children /\ In g (groups_of (ch_group c)))
  /\ (Forall (fun c => ch_priority c <> Some (-1)%Z) children ->
      tr_priority r = common (map ch_priority children))
  /\ (Forall (fun c => ch_weight c <> Some (-1)%Z) children ->
      tr_weight r = common (map ch_weight children)).
Proof.
  rewrite aggregate_rows. intros (t & <- & Ht)%in_map_iff. cbn zeta. rewrite row_of_tag.
  split; [|split; [apply row_groups|apply row_common]].
  rewrite row_status. now destruct (children_of t cs).
Qed.

Definition sample_channel (tag : jstr) (status : Z) (group : jstr) (priority : option Z) : Channel :=
  {| ch_id := 1; ch_type := 1; ch_key := []; ch_status := status; ch_name := "c";
     ch_weight := Some 0%Z; ch_created_time := zero; ch_test_time := zero;
     ch_response_time := zero; ch_balance := zero; ch_balance_updated_time := zero;
     ch_models := []; ch_group := group; ch_used_quota := zero; ch_priority := priority;
     ch_tag := Some tag; ch_channel_info := None; ch_rest := [] |}.

Definition sample_channels : list Channel :=
  [sample_channel "a" 2 "default" (Some 1%Z); sample_channel "b" 1 "vip" None;
   sample_channel "a" 1 "vip,default" (Some 2%Z)].

Lemma aggregate_fields_witness :
  let r := row_of "a" (children_of "a" sample_channels) in
  let children := children_of (tr_tag r) sample_channels in
  tr_status r = (if existsb isChannelEnabled children then Some 1%Z
                 else option_map ch_status (head children))
  /\ (forall g, In g (groups_of (tr_group r))
                <-> exists c, In c children /\ In g (groups_of (ch_group c)))
  /\ (Forall (fun c => ch_priority c <> Some (-1)%Z) children ->
      tr_priority r = common (map ch_priority children))
  /\ (Forall (fun c => ch_weight c <> Some (-1)%Z) children ->
      tr_weight r = common (map ch_weight children)).
Proof. apply aggregate_fields. left. vm_compute. reflexivity. Defined.

(** The sentinel is visible: a channel of priority -1 does not count. *)
Example sentinel_priority :
  map tr_priority (aggregateChannelsByTag
    [sample_channel "a" 1 "g" (Some (-1)%Z); sample_channel "a" 1 "g" (Some 5%Z)]) = [Some 5%Z].
Proof. reflexivity. Qed.

(** ** Deduplicated keys *)

(** The lines that are kept. *)
Definition kept_lines (text : jstr) : list jstr :=
  uniq (List.filter truthy (map trim (splitc lf text))).

Definition clean_line (x : jstr) : Prop :=
  edges_ok x = true /\ x <> [] /\ Forall (fun c => c <> lf) x.

Lemma kept_lines_clean text : Forall clean_line (kept_lines text).
Proof.
  apply uniq_Forall, List.Forall_forall. intros x [(p & <- & Hp)%in_map_iff Ht]%filter_In.
  split; [apply trim_edges|]. split; [now apply truthy_iff|]. apply trim_units.
  exact (proj1 (List.Forall_forall _ _) (splitc_no_sep lf text) p Hp).
Qed.

Lemma clean_lines_id K :
  Forall clean_line K ->
  List.filter truthy (map trim K) = K /\ List.filter (fun k => truthy (trim k)) K = K.
Proof.
  induction 1 as [|x K (He & Hne & _) _ [IH1 IH2]]; [easy|]. cbn.
  rewrite edges_trim by easy. apply truthy_iff in Hne as ->. now rewrite IH1, IH2.
Qed.

Lemma clean_lines_join K :
  Forall clean_line K -> K <> [] ->
  splitc lf (join [lf] K) = K /\ join [lf] K <> [] /\ trim (join [lf] K) = join [lf] K.
Proof.
  intros HK Hne. split; [|split].
  - apply splitc_join; [easy|]. apply (Forall_impl _ _ _ HK). now intros x (_ & _ & ?).
  - apply join_app_nonempty; [easy|]. apply (Forall_impl _ _ _ HK). now intros x (_ & ? & _).
  - apply edges_trim, join_edges_ok, (Forall_impl _ _ _ HK). now intros x (? & ? & _).
Qed.

Lemma kept_lines_nonempty text : trim text <> [] -> kept_lines text <> [].
Proof.
  intros Ht E. apply Ht, trim_nil_iff. rewrite <- (join_splitc lf text).
  apply join_units; [now repeat constructor|]. apply List.Forall_forall. intros p Hp.
  apply trim_nil_iff. destruct (trim p) as [|c q] eqn:Ep; [easy|]. exfalso.
  assert (Hin : In (c :: q) (kept_lines text)).
  { apply uniq_In, filter_In. split; [|easy]. rewrite <- Ep. now apply in_map. }
  now rewrite E in Hin.
Qed.

Lemma dedup_lines s :
  trim s <> [] ->
  deduplicateKeys s =
  {| deduplicatedText := join [lf] (kept_lines s); beforeCount := length (splitc lf s);
     afterCount := length (kept_lines s);
     removedCount := length (splitc lf s) - length (kept_lines s) |}.
Proof.
  intros Hs. unfold deduplicateKeys. destruct s as [|c s]; [easy|]. cbn [truthy negb orb].
  now destruct (seqb_spec (trim (c :: s)) []).
Qed.

(** deduplication keeps each non-blank line once, trimmed and in order; its
    counts add up, and doing it again changes nothing. *)
Theorem dedup_keys (text : jstr) :
  let r := deduplicateKeys text in
  (trim text <> [] ->
   splitc lf (deduplicatedText r) = uniq (List.filter truthy (map trim (splitc lf text))))
  /\ afterCount r + removedCount r = beforeCount r
  /\ deduplicatedText (deduplicateKeys (deduplicatedText r)) = deduplicatedText r
  /\ (trim text <> [] -> countKeys (deduplicatedText r) = afterCount r).
Proof.
  destruct (seqb_spec (trim text) []) as [E|Hne].
  { assert (E0 : deduplicateKeys text = {| deduplicatedText := []; beforeCount := 0;
      afterCount := 0; removedCount := 0 |}).
    { unfold deduplicateKeys. rewrite E. now rewrite orb_true_r. }
    cbn zeta. rewrite !E0. easy. }
  pose proof (kept_lines_clean text) as HK. pose proof (clean_lines_id _ HK) as [Hf1 Hf2].
  destruct (clean_lines_join _ HK (kept_lines_nonempty text Hne)) as (Hs & Hj1 & Hj2).
  cbn zeta. rewrite (dedup_lines text Hne). cbn [deduplicatedText beforeCount afterCount removedCount].
  repeat split.
  - easy.
  - assert (length (kept_lines text) <= length (splitc lf text)); [|lia]. unfold kept_lines.
    etransitivity; [apply uniq_length|]. etransitivity; [apply List.filter_length_le|].
    now rewrite length_map.
  - rewrite dedup_lines by congruence. cbn [deduplicatedText]. unfold kept_lines at 1.
    rewrite Hs, Hf1. now rewrite uniq_id by apply uniq_NoDup.
  - intros _. unfold countKeys, key_lines. rewrite Hs, Hf2. now destruct (join [lf] (kept_lines text)).
Qed.

Lemma slices (n : nat) (a m b : jstr) :
  length a = n -> length b = n ->
  slice_first n (a ++ m ++ b) = a /\ slice_last n (a ++ m ++ b) = b.
Proof.
  intros <- Hb. unfold slice_first, slice_last. split; [apply take_app_length|].
  rewrite app_assoc, (length_app (a ++ m)), Hb, Nat.add_sub. apply drop_app_length.
Qed.

(** the mask of a key of 9 to 16 units shows its first and last four units, and
    that of a longer key its first and last eight, nothing of the middle. *)
Theorem key_mask (n : nat) (a m b : jstr) :
  length a = n -> length b = n -> m <> [] ->
  (n = 4 /\ length m <= 8) \/ n = 8 ->
  formatChannelKey (a ++ m ++ b) false = a ++ "..." ++ b.
Proof.
  intros Ha Hb Hm Hn. unfold formatChannelKey.
  assert (Hl : length (a ++ m ++ b) = n + length m + n) by (rewrite !length_app; lia).
  assert (H0 : 0 < length m) by (destruct m; [easy|cbn; lia]).
  destruct (slices n a m b Ha Hb) as [Ef El].
  destruct (a ++ m ++ b) as [|c k] eqn:E; [cbn in Hl; lia|]. cbn [truthy negb].
  destruct Hn as [[-> Hm8]| ->]; destruct (Nat.leb_spec (length (c :: k)) 16); try lia;
    now rewrite Ef, El.
Qed.

Lemma key_mask_witness :
  formatChannelKey ("sk-12345" ++ "secret" ++ "abcdefgh") false = "sk-12345...abcdefgh".
Proof. apply (key_mask 8); [reflexivity|reflexivity|easy|now right]. Defined.

(** a key of at most eight units is not masked: what is displayed determines it. *)
Theorem short_key_revealed (k k' : jstr) :
  length k = length k' -> length k <= 8 ->
  formatChannelKey k false = formatChannelKey k' false -> k = k'.
Proof.
  intros Hl H8. destruct k as [|c k], k' as [|c' k']; try easy.
  unfold formatChannelKey. cbn [truthy negb]. rewrite <- Hl.
  destruct (Nat.leb_spec (length (c :: k)) 16); [|lia].
  set (a := c :: k) in *. set (b := c' :: k') in *. unfold slice_first, slice_last. rewrite <- Hl.
  intros E. apply app_inj_1 in E as [Et Ed]; [|rewrite !length_take; lia].
  apply app_inv_head in Ed.
  rewrite <- (take_drop 4 a), <- (take_drop 4 b), Et. f_equal.
  destruct (Nat.le_gt_cases (length a) 4).
  - rewrite !drop_ge by lia. easy.
  - replace 4 with ((length a - 4) + (8 - length a)) by lia.
    now rewrite <- !drop_drop, Ed.
Qed.

Lemma short_key_revealed_witness : "abcdefgh" = "abcdefgh" :> jstr.
Proof. apply (short_key_revealed "abcdefgh" "abcdefgh"); [reflexivity|cbn; lia|reflexivity]. Defined.

Section Groups.
Context (locale_le : jstr -> jstr -> bool).
Hypothesis locale_total : forall a b, locale_le a b = false -> locale_le b a = true.
Hypothesis locale_trans : forall a b c,
  locale_le a b = true -> locale_le b c = true -> locale_le a c = true.

(** The groups of a text are its non-blank pieces, trimmed; [default] comes
    first if it is one of them, the others follow in the locale's order. *)
Theorem groups_sorted (s : jstr) :
  parseGroupsList locale_le s ≡ₚ List.filter truthy (map trim (splitc 44 s))
  /\ sorted_by (group_le locale_le) (parseGroupsList locale_le s)
  /\ (In "default" (parseGroupsList locale_le s) ->
      head (parseGroupsList locale_le s) = Some "default").
Proof using locale_total locale_trans.
  assert (Hs : forall l, sorted_by (group_le locale_le) (stable_sort (group_le locale_le) l)).
  { intros l. apply stable_sort_sorted; unfold group_le.
    - intros x y. destruct (x =s "default"); [easy|]. destruct (y =s "default"); [easy|]. apply locale_total.
    - intros x y z. destruct (x =s "default"); [easy|]. destruct (y =s "default"); [easy|].
      destruct (z =s "default"); [easy|]. apply locale_trans. }
  unfold parseGroupsList. destruct s as [|c s]; [repeat constructor; easy|]. cbn [truthy negb].
  split; [apply stable_sort_Permutation|]. split; [apply Hs|].
  specialize (Hs (List.filter truthy (map trim (splitc 44 (c :: s))))).
  destruct Hs as [|x l Hl Hx]; [easy|]. cbn. intros [->|Hin]; [easy|].
  pose proof (proj1 (List.Forall_forall _ _) Hx _ Hin) as Hd. unfold group_le in Hd.
  destruct (seqb_spec x "default") as [->|]; [easy|]. now rewrite seqb_refl in Hd.
Qed.
End Groups.

Lemma groups_sorted_witness :
  parseGroupsList str_leb "vip, default ,svip"
    ≡ₚ List.filter truthy (map trim (splitc 44 "vip, default ,svip"))
  /\ sorted_by (group_le str_leb) (parseGroupsList str_leb "vip, default ,svip")
  /\ (In "default" (parseGroupsList str_leb "vip, default ,svip") ->
      head (parseGroupsList str_leb "vip, default ,svip") = Some "default").
Proof. apply (groups_sorted str_leb str_leb_total str_leb_trans). Defined.
