(* ===== verification/ChannelForm.v ===== *)
(** Model of [web/default/src/features/channels/lib/channel-form.ts]: the form of a
    channel, the reading of a channel into it and the payloads that are sent.

    Form values that are read from the channel's JSON texts without a check keep any
    JSON value ([json]); [None] is [undefined].  The integers of the API (types,
    statuses, priorities) are in [Z].  A payload is an object: the list of its
    properties.  What throws is in [exc]. *)

From S2P Require Import Prelude Number Json ModelMapping.
From stdpp Require Import options.

(** * Data *)

Record ChannelFormValues := {
  f_name : jstr;
  f_type : Z;
  f_base_url : option jstr;
  f_key : jstr;
  f_openai_organization : option jstr;
  f_models : jstr;
  f_group : list jstr;
  f_model_mapping : option jstr;
  f_priority : option Z;
  f_weight : option Z;
  f_test_model : option jstr;
  f_auto_ban : option Z;
  f_status : Z;
  f_status_code_mapping : option jstr;
  f_tag : option jstr;
  f_remark : option jstr;
  f_setting : option jstr;
  f_param_override : option jstr;
  f_header_override : option jstr;
  f_settings : option jstr;
  f_sensitive_word_interception_enabled : bool;
  f_multiplier_card_user_enabled : bool;
  f_other : option jstr;
  f_multi_key_mode : option jstr;
  f_multi_key_type : option jstr;
  f_batch_add_set_key_prefix_2_name : option bool;
  f_key_mode : option jstr;
  (* stored in the [setting] JSON *)
  f_force_format : option json;
  f_thinking_to_content : option json;
  f_proxy : option json;
  f_pass_through_body_enabled : option json;
  f_system_prompt : option json;
  f_system_prompt_override : option json;
  (* stored in the [settings] JSON *)
  f_is_enterprise_account : option bool;
  f_vertex_key_type : option json;
  f_aws_key_type : option json;
  f_azure_responses_version : option json;
  f_allow_service_tier : option bool;
  f_disable_store : option bool;
  f_allow_safety_identifier : option bool;
  f_allow_include_obfuscation : option bool;
  f_allow_inference_geo : option bool;
  f_allow_speed : option bool;
  f_claude_beta_query : option bool;
  f_upstream_model_update_check_enabled : option bool;
  f_upstream_model_update_auto_sync_enabled : option bool;
  f_upstream_model_update_ignored_models : option jstr
}.

(** The fields of a channel that the form reads. *)
Record Channel := {
  c_name : jstr;
  c_type : Z;
  c_base_url : option jstr;
  c_openai_organization : option jstr;
  c_models : jstr;
  c_group : jstr;
  c_model_mapping : option jstr;
  c_priority : option Z;
  c_weight : option Z;
  c_test_model : option jstr;
  c_auto_ban : option Z;
  c_status : Z;
  c_status_code_mapping : option jstr;
  c_tag : option jstr;
  c_remark : jstr;
  c_setting : option jstr;
  c_param_override : option jstr;
  c_header_override : option jstr;
  c_settings : jstr;
  c_sensitive_word_interception_enabled : option bool;
  c_multiplier_card_user_enabled : option bool;
  c_other : jstr;
  c_multi_key_mode : jstr
}.

Definition CHANNEL_FORM_DEFAULT_VALUES : ChannelFormValues :=
  {| f_name := []; f_type := 1; f_base_url := Some []; f_key := []; f_openai_organization := Some [];
     f_models := []; f_group := ["default"]; f_model_mapping := Some []; f_priority := Some 0%Z;
     f_weight := Some 0%Z; f_test_model := Some []; f_auto_ban := Some 1%Z; f_status := 1 (* CHANNEL_STATUS.ENABLED *);
     f_status_code_mapping := Some []; f_tag := Some []; f_remark := Some []; f_setting := Some [];
     f_param_override := Some []; f_header_override := Some []; f_settings := Some ("{}" : jstr);
     f_sensitive_word_interception_enabled := true; f_multiplier_card_user_enabled := false;
     f_other := Some []; f_multi_key_mode := Some ("single" : jstr);
     f_multi_key_type := Some ("random" : jstr); f_batch_add_set_key_prefix_2_name := Some false;
     f_key_mode := Some ("append" : jstr);
     f_force_format := Some (JBool false); f_thinking_to_content := Some (JBool false);
     f_proxy := Some (JStr []); f_pass_through_body_enabled := Some (JBool false);
     f_system_prompt := Some (JStr []); f_system_prompt_override := Some (JBool false);
     f_is_enterprise_account := Some false; f_vertex_key_type := Some (JStr "json");
     f_aws_key_type := Some (JStr "ak_sk"); f_azure_responses_version := Some (JStr []);
     f_allow_service_tier := Some false; f_disable_store := Some false;
     f_allow_safety_identifier := Some false; f_allow_include_obfuscation := Some false;
     f_allow_inference_geo := Some false; f_allow_speed := Some false;
     f_claude_beta_query := Some false; f_upstream_model_update_check_enabled := Some false;
     f_upstream_model_update_auto_sync_enabled := Some false;
     f_upstream_model_update_ignored_models := Some [] |}.

Definition MODEL_FETCHABLE_TYPES : list Z :=
  [1; 4; 14; 17; 20; 23; 24; 25; 26; 27; 31; 34; 35; 40; 42; 43; 47; 48]%Z.

(** * Operators *)

(** [v || d] and [v ?? d] *)
Definition json_or (v : option json) (d : json) : json :=
  match v with Some x => if jtruthy x then x else d | None => d end.
Definition text_or (v : option jstr) (d : jstr) : jstr :=
  match v with Some s => str_or s d | None => d end.
Definition nullish {A} (v : option A) (d : A) : A := match v with Some x => x | None => d end.

(** [v || null] *)
Definition text_or_null (v : option jstr) : json :=
  match v with Some s => if truthy s then JStr s else JNull | None => JNull end.
Definition num_or_null (v : option Z) : json :=
  match v with Some z => if (z =? 0)%Z then JNull else JNum (of_Z z) | None => JNull end.

(** [v === true] *)
Definition on (v : option bool) : bool := match v with Some b => b | None => false end.

Definition parseModels (models : jstr) : list jstr :=
  if negb (truthy models) then []
  else List.filter truthy (map trim (splitc 44 models)).

Definition parseGroups (groups : jstr) : list jstr :=
  if negb (truthy groups) then []
  else List.filter truthy (map trim (splitc 44 groups)).

Definition formatModels (models : list jstr) : jstr := join "," models.
Definition formatGroups (groups : list jstr) : jstr := join "," groups.

Definition validateJSON (value : jstr) : bool :=
  if negb (truthy value) || (trim value =s []) then true
  else match json_parse value with Some _ => true | None => false end.

Definition validateModelMapping (value : jstr) : bool :=
  if negb (truthy value) || (trim value =s []) then true else validateJSON value.

(** * From a channel to the form *)

(** The parsed text; [None] when it is missing or is not JSON. *)
Definition parsed_text (text : jstr) : option json := if truthy text then json_parse text else None.

Definition transformChannelToFormDefaults (channel : Channel) : ChannelFormValues :=
  let extra k := jget_opt k (parsed_text (text_or (c_setting channel) [])) in
  let own k := jget_opt k (parsed_text (c_settings channel)) in
  let flag k := is_bool (own k) true in
  {| f_name := c_name channel;
     f_type := c_type channel;
     f_base_url := Some (text_or (c_base_url channel) []);
     f_key := [];
     f_openai_organization := Some (text_or (c_openai_organization channel) []);
     f_models := c_models channel;
     f_group := parseGroups (str_or (c_group channel) "default");
     f_model_mapping := Some (text_or (c_model_mapping channel) []);
     f_priority := Some (nullish (c_priority channel) 0%Z);
     f_weight := Some (nullish (c_weight channel) 0%Z);
     f_test_model := Some (text_or (c_test_model channel) []);
     f_auto_ban := Some (nullish (c_auto_ban channel) 1%Z);
     f_status := c_status channel;
     f_status_code_mapping := Some (text_or (c_status_code_mapping channel) []);
     f_tag := Some (text_or (c_tag channel) []);
     f_remark := Some (c_remark channel);
     f_setting := Some (text_or (c_setting channel) []);
     f_param_override := Some (text_or (c_param_override channel) []);
     f_header_override := Some (text_or (c_header_override channel) []);
     f_settings := Some (str_or (c_settings channel) "{}");
     f_sensitive_word_interception_enabled :=
       nullish (c_sensitive_word_interception_enabled channel) true;
     f_multiplier_card_user_enabled := nullish (c_multiplier_card_user_enabled channel) false;
     f_other := Some (c_other channel);
     f_multi_key_mode := Some ("single" : jstr);
     f_multi_key_type := Some (str_or (c_multi_key_mode channel) "random");
     f_batch_add_set_key_prefix_2_name := Some false;
     f_key_mode := Some ("append" : jstr);
     f_force_format := Some (json_or (extra "force_format") (JBool false));
     f_thinking_to_content := Some (json_or (extra "thinking_to_content") (JBool false));
     f_proxy := Some (json_or (extra "proxy") (JStr []));
     f_pass_through_body_enabled :=
       Some (json_or (extra "pass_through_body_enabled") (JBool false));
     f_system_prompt := Some (json_or (extra "system_prompt") (JStr []));
     f_system_prompt_override := Some (json_or (extra "system_prompt_override") (JBool false));
     f_is_enterprise_account := Some (flag "openrouter_enterprise");
     f_vertex_key_type := Some (json_or (own "vertex_key_type") (JStr "json"));
     f_aws_key_type := Some (json_or (own "aws_key_type") (JStr "ak_sk"));
     f_azure_responses_version := Some (json_or (own "azure_responses_version") (JStr []));
     f_allow_service_tier := Some (flag "allow_service_tier");
     f_disable_store := Some (flag "disable_store");
     f_allow_safety_identifier := Some (flag "allow_safety_identifier");
     f_allow_include_obfuscation := Some (flag "allow_include_obfuscation");
     f_allow_inference_geo := Some (flag "allow_inference_geo");
     f_allow_speed := Some (flag "allow_speed");
     f_claude_beta_query := Some (flag "claude_beta_query");
     f_upstream_model_update_check_enabled := Some (flag "upstream_model_update_check_enabled");
     f_upstream_model_update_auto_sync_enabled :=
       Some (flag "upstream_model_update_auto_sync_enabled");
     f_upstream_model_update_ignored_models :=
       Some (match own "upstream_model_update_ignored_models" with
             | Some (JArr l) => js_String (JArr l)
             | _ => []
             end) |}.

(** * From the form to a payload *)

Definition buildSettingJSON (formData : ChannelFormValues) : jstr :=
  stringify (JObj
    [ ("force_format", json_or (f_force_format formData) (JBool false));
      ("thinking_to_content", json_or (f_thinking_to_content formData) (JBool false));
      ("proxy", json_or (f_proxy formData) (JStr []));
      ("pass_through_body_enabled", json_or (f_pass_through_body_enabled formData) (JBool false));
      ("system_prompt", json_or (f_system_prompt formData) (JStr []));
      ("system_prompt_override", json_or (f_system_prompt_override formData) (JBool false)) ]).

(** [if (b) o.k = v else if (k in o) delete o.k] *)
Definition set_or_delete (b : bool) (k : jstr) (v : json) (o : list (jstr * json))
  : list (jstr * json) :=
  if b then obj_set k v o else obj_delete k o.

Definition is_array (v : option json) : bool := match v with Some (JArr _) => true | _ => false end.
Definition is_number (v : option json) : bool := match v with Some (JNum _) => true | _ => false end.

Definition ignored_models (formData : ChannelFormValues) : list jstr :=
  uniq (List.filter truthy
          (map trim (splitc 44 (text_or (f_upstream_model_update_ignored_models formData) [])))).

(** The upstream model update settings. *)
Definition upstream_settings (formData : ChannelFormValues) (o : list (jstr * json))
  : list (jstr * json) :=
  let check := on (f_upstream_model_update_check_enabled formData) in
  let o := obj_set "upstream_model_update_check_enabled" (JBool check) o in
  let o := obj_set "upstream_model_update_auto_sync_enabled"
             (JBool (check && on (f_upstream_model_update_auto_sync_enabled formData))) o in
  let o := obj_set "upstream_model_update_ignored_models"
             (JArr (map JStr (ignored_models formData))) o in
  let o := if negb (is_array (obj_get "upstream_model_update_last_detected_models" o)) || negb check
           then obj_set "upstream_model_update_last_detected_models" (JArr []) o else o in
  if negb (is_number (obj_get "upstream_model_update_last_check_time" o))
  then obj_set "upstream_model_update_last_check_time" (JNum zero) o else o.

(** The settings of one type of channel, up to the service tier. *)
Definition type_settings (formData : ChannelFormValues) (o : list (jstr * json))
  : list (jstr * json) :=
  let typed n := (f_type formData =? n)%Z in
  let azure := json_or (f_azure_responses_version formData) (JStr []) in
  let o := set_or_delete (typed 41%Z) "vertex_key_type"
             (json_or (f_vertex_key_type formData) (JStr "json")) o in
  let o := set_or_delete (typed 3%Z && jtruthy azure) "azure_responses_version" azure o in
  let o := set_or_delete (typed 20%Z) "openrouter_enterprise"
             (JBool (on (f_is_enterprise_account formData))) o in
  let o := set_or_delete (typed 33%Z) "aws_key_type"
             (json_or (f_aws_key_type formData) (JStr "ak_sk")) o in
  set_or_delete (typed 1%Z || typed 14%Z) "allow_service_tier"
    (JBool (on (f_allow_service_tier formData))) o.

(** The field passthrough controls of OpenAI (1) and Anthropic (14). *)
Definition passthrough_settings (formData : ChannelFormValues) (o : list (jstr * json))
  : list (jstr * json) :=
  let typed n := (f_type formData =? n)%Z in
  let o :=
    if typed 1%Z then
      obj_set "allow_inference_geo" (JBool (on (f_allow_inference_geo formData)))
        (obj_set "allow_include_obfuscation" (JBool (on (f_allow_include_obfuscation formData)))
          (obj_set "allow_safety_identifier" (JBool (on (f_allow_safety_identifier formData)))
            (obj_set "disable_store" (JBool (on (f_disable_store formData))) o)))
    else
      let o := obj_delete "allow_include_obfuscation"
                 (obj_delete "allow_safety_identifier" (obj_delete "disable_store" o)) in
      if negb (typed 14%Z) then obj_delete "allow_inference_geo" o else o in
  if typed 14%Z then
    obj_set "claude_beta_query" (JBool (on (f_claude_beta_query formData)))
      (obj_set "allow_speed" (JBool (on (f_allow_speed formData)))
        (obj_set "allow_inference_geo" (JBool (on (f_allow_inference_geo formData))) o))
  else obj_delete "claude_beta_query" (obj_delete "allow_speed" o).

(** The settings object, from the one that is parsed. *)
Definition settings_object (formData : ChannelFormValues) (o : list (jstr * json))
  : list (jstr * json) :=
  let o := passthrough_settings formData (type_settings formData o) in
  if existsb (Z.eqb (f_type formData)) MODEL_FETCHABLE_TYPES then upstream_settings formData o else o.

(** The parsed value may be an array, whose properties are not printed, or a value
    without properties: the first access or assignment then throws. *)
Definition buildSettingsJSON (formData : ChannelFormValues) : exc jstr :=
  let text := text_or (f_settings formData) [] in
  let parsed := if truthy text && negb (text =s "{}") then
                  match json_parse text with Some v => v | None => JObj [] end
                else JObj [] in
  match parsed with
  | JObj o => Ret (stringify (JObj (settings_object formData o)))
  | JArr l => Ret (stringify (JArr l))
  | _ => Throw
  end.

(** The properties shared by the two payloads, with what the priority and the weight
    become. *)
Definition channel_fields (formData : ChannelFormValues) (settings : jstr) (priority weight : json)
    (first : list (jstr * json)) (key : list (jstr * json)) : list (jstr * json) :=
  first ++
  [ ("name", JStr (f_name formData));
    ("type", JNum (of_Z (f_type formData)));
    ("base_url", text_or_null (f_base_url formData)) ] ++ key ++
  [ ("openai_organization", text_or_null (f_openai_organization formData));
    ("models", JStr (f_models formData));
    ("group", JStr (formatGroups (f_group formData)));
    ("model_mapping", text_or_null (f_model_mapping formData));
    ("priority", priority);
    ("weight", weight);
    ("test_model", text_or_null (f_test_model formData));
    ("auto_ban", JNum (of_Z (nullish (f_auto_ban formData) 1%Z)));
    ("status", JNum (of_Z (f_status formData)));
    ("status_code_mapping", text_or_null (f_status_code_mapping formData));
    ("tag", text_or_null (f_tag formData));
    ("remark", JStr (text_or (f_remark formData) []));
    ("setting", JStr (buildSettingJSON formData));
    ("param_override", text_or_null (f_param_override formData));
    ("header_override", text_or_null (f_header_override formData));
    ("settings", JStr settings);
    ("sensitive_word_interception_enabled",
     JBool (f_sensitive_word_interception_enabled formData));
    ("multiplier_card_supported", JBool (f_multiplier_card_user_enabled formData));
    ("multiplier_card_user_enabled", JBool (f_multiplier_card_user_enabled formData));
    ("other", JStr (text_or (f_other formData) [])) ].

(** The empty strings become [null]. *)
Definition clean_empty (o : list (jstr * json)) : list (jstr * json) :=
  map (fun kv => (fst kv, if is_str (Some (snd kv)) [] then JNull else snd kv)) o.

Record CreatePayload := {
  cp_mode : jstr;
  cp_multi_key_mode : option jstr;
  cp_batch_add_set_key_prefix_2_name : option bool;
  cp_channel : list (jstr * json)
}.

Definition transformFormDataToCreatePayload (formData : ChannelFormValues) : exc CreatePayload :=
  let mode := text_or (f_multi_key_mode formData) "single" in
  match buildSettingsJSON formData with
  | Throw => Throw
  | Ret settings =>
    Ret {| cp_mode := mode;
           cp_multi_key_mode := if mode =s "multi_to_single" then f_multi_key_type formData else None;
           cp_batch_add_set_key_prefix_2_name :=
             if mode =s "batch" then f_batch_add_set_key_prefix_2_name formData else None;
           cp_channel :=
             clean_empty (channel_fields formData settings (num_or_null (f_priority formData))
               (num_or_null (f_weight formData)) [] [ ("key", JStr (f_key formData)) ]) |}
  end.

(** The fields that are sent as explicit empty strings, in the order they are set. *)
Definition clearable (formData : ChannelFormValues) : list (jstr * json) :=
  [ ("base_url", JStr (text_or (f_base_url formData) []));
    ("openai_organization", JStr (text_or (f_openai_organization formData) []));
    ("test_model", JStr (text_or (f_test_model formData) []));
    ("tag", JStr (text_or (f_tag formData) []));
    ("remark", JStr (text_or (f_remark formData) []));
    ("model_mapping", JStr (text_or (f_model_mapping formData) []));
    ("status_code_mapping", JStr (text_or (f_status_code_mapping formData) []));
    ("param_override", JStr (text_or (f_param_override formData) []));
    ("header_override", JStr (text_or (f_header_override formData) [])) ].

Definition transformFormDataToUpdatePayload (formData : ChannelFormValues) (channelId : Z)
  : exc (list (jstr * json)) :=
  match buildSettingsJSON formData with
  | Throw => Throw
  | Ret settings =>
    let payload := channel_fields formData settings
                     (JNum (of_Z (nullish (f_priority formData) 0%Z)))
                     (JNum (of_Z (nullish (f_weight formData) 0%Z)))
                     [ ("id", JNum (of_Z channelId)) ] [] in
    let payload := if truthy (trim (f_key formData))
                   then obj_set "key" (JStr (f_key formData)) payload else payload in
    Ret (fold_left (fun acc kv => obj_set (fst kv) (snd kv) acc) (clearable formData)
           (clean_empty payload))
  end.

(** * Theorems *)

(** ** The settings object *)

Lemma obj_get_set_or_delete k b k' v o :
  obj_get k (set_or_delete b k' v o)
  = if k =s k' then if b then Some v else None else obj_get k o.
Proof.
  unfold set_or_delete. destruct b; [apply obj_get_set|apply obj_get_delete].
Qed.

Lemma obj_get_set_if k (b : bool) k' (v : json) o :
  obj_get k (if b then obj_set k' v o else o)
  = if b && (k =s k') then Some v else obj_get k o.
Proof. destruct b; [apply obj_get_set|easy]. Qed.

(** The value of a property of the settings that are saved, for the settings [o] of the
    form: the properties of a type are those of the form, and are removed for the other
    types; those of the upstream updates are set for the types whose models can be
    fetched; all the others are kept. *)
Definition setting_value (f : ChannelFormValues) (o : list (jstr * json)) (k : jstr) : option json :=
  let for_types types v := if existsb (Z.eqb (f_type f)) types then Some v else None in
  let flag types v := for_types types (JBool (on v)) in
  let fetchable v := if existsb (Z.eqb (f_type f)) MODEL_FETCHABLE_TYPES then v else obj_get k o in
  let check := on (f_upstream_model_update_check_enabled f) in
  let azure := json_or (f_azure_responses_version f) (JStr []) in
  if k =s "vertex_key_type" then
    for_types [41%Z] (json_or (f_vertex_key_type f) (JStr "json"))
  else if k =s "azure_responses_version" then if jtruthy azure then for_types [3%Z] azure else None
  else if k =s "openrouter_enterprise" then flag [20%Z] (f_is_enterprise_account f)
  else if k =s "aws_key_type" then for_types [33%Z] (json_or (f_aws_key_type f) (JStr "ak_sk"))
  else if k =s "allow_service_tier" then flag [1; 14]%Z (f_allow_service_tier f)
  else if k =s "disable_store" then flag [1%Z] (f_disable_store f)
  else if k =s "allow_safety_identifier" then flag [1%Z] (f_allow_safety_identifier f)
  else if k =s "allow_include_obfuscation" then flag [1%Z] (f_allow_include_obfuscation f)
  else if k =s "allow_inference_geo" then flag [1; 14]%Z (f_allow_inference_geo f)
  else if k =s "allow_speed" then flag [14%Z] (f_allow_speed f)
  else if k =s "claude_beta_query" then flag [14%Z] (f_claude_beta_query f)
  else if k =s "upstream_model_update_check_enabled" then fetchable (Some (JBool check))
  else if k =s "upstream_model_update_auto_sync_enabled" then
    fetchable (Some (JBool (check && on (f_upstream_model_update_auto_sync_enabled f))))
  else if k =s "upstream_model_update_ignored_models" then
    fetchable (Some (JArr (map JStr (ignored_models f))))
  else if k =s "upstream_model_update_last_detected_models" then
    fetchable (if is_array (obj_get k o) && check then obj_get k o else Some (JArr []))
  else if k =s "upstream_model_update_last_check_time" then
    fetchable (if is_number (obj_get k o) then obj_get k o else Some (JNum zero))
  else obj_get k o.

(** The keys are compared with a literal, then computed. *)
Ltac by_key :=
  repeat match goal with
  | |- context [?k =s ?l] =>
    is_var k; destruct (seqb_spec k l) as [->|]; [cbn -[obj_get]; try reflexivity|]
  end.

Lemma upstream_get f o k :
  obj_get k (upstream_settings f o)
  = (let check := on (f_upstream_model_update_check_enabled f) in
     if k =s "upstream_model_update_check_enabled" then Some (JBool check)
     else if k =s "upstream_model_update_auto_sync_enabled" then
       Some (JBool (check && on (f_upstream_model_update_auto_sync_enabled f)))
     else if k =s "upstream_model_update_ignored_models" then
       Some (JArr (map JStr (ignored_models f)))
     else if k =s "upstream_model_update_last_detected_models" then
       if is_array (obj_get k o) && check then obj_get k o else Some (JArr [])
     else if k =s "upstream_model_update_last_check_time" then
       if is_number (obj_get k o) then obj_get k o else Some (JNum zero)
     else obj_get k o).
Proof.
  unfold upstream_settings. cbv zeta. set (check := on _). set (auto := on _).
  set (ignored := JArr _). clearbody check auto ignored.
  rewrite !obj_get_set_if, !obj_get_set. by_key; cbn -[obj_get]; rewrite ?andb_false_r; try easy.
  - now destruct (is_number (obj_get _ o)).
  - now destruct (is_array (obj_get _ o)), check.
Qed.

Lemma passthrough_get f o k :
  obj_get k (passthrough_settings f o)
  = (let typed n := (f_type f =? n)%Z in
     let flag (b : bool) v := if b then Some (JBool (on v)) else None in
     if k =s "disable_store" then flag (typed 1%Z) (f_disable_store f)
     else if k =s "allow_safety_identifier" then flag (typed 1%Z) (f_allow_safety_identifier f)
     else if k =s "allow_include_obfuscation" then flag (typed 1%Z) (f_allow_include_obfuscation f)
     else if k =s "allow_inference_geo" then flag (typed 1 || typed 14)%Z (f_allow_inference_geo f)
     else if k =s "allow_speed" then flag (typed 14%Z) (f_allow_speed f)
     else if k =s "claude_beta_query" then flag (typed 14%Z) (f_claude_beta_query f)
     else obj_get k o).
Proof.
  unfold passthrough_settings. cbv zeta.
  destruct (f_type f =? 1)%Z, (f_type f =? 14)%Z; cbn [negb orb];
    rewrite ?obj_get_set, ?obj_get_delete, ?obj_get_set; by_key; easy.
Qed.

Lemma type_get f o k :
  obj_get k (type_settings f o)
  = (let typed n := (f_type f =? n)%Z in
     let azure := json_or (f_azure_responses_version f) (JStr []) in
     let flag (b : bool) v := if b then Some v else None in
     if k =s "vertex_key_type" then flag (typed 41%Z) (json_or (f_vertex_key_type f) (JStr "json"))
     else if k =s "azure_responses_version" then flag (typed 3%Z && jtruthy azure) azure
     else if k =s "openrouter_enterprise" then
       flag (typed 20%Z) (JBool (on (f_is_enterprise_account f)))
     else if k =s "aws_key_type" then flag (typed 33%Z) (json_or (f_aws_key_type f) (JStr "ak_sk"))
     else if k =s "allow_service_tier" then
       flag (typed 1 || typed 14)%Z (JBool (on (f_allow_service_tier f)))
     else obj_get k o).
Proof.
  unfold type_settings. cbv zeta. set (azure := json_or _ _).
  rewrite !obj_get_set_or_delete. by_key; easy.
Qed.

(** the settings that are saved: those of the channel's type are the form's, those
    of the other types are gone, and everything else is what it was. *)
Theorem settings_fields (f : ChannelFormValues) (o : list (jstr * json)) (k : jstr) :
  obj_get k (settings_object f o) = setting_value f o k.
Proof.
  assert (E : obj_get k (settings_object f o)
    = if existsb (Z.eqb (f_type f)) MODEL_FETCHABLE_TYPES
      then obj_get k (upstream_settings f (passthrough_settings f (type_settings f o)))
      else obj_get k (passthrough_settings f (type_settings f o))).
  { unfold settings_object. cbv zeta. now destruct (existsb _ _). }
  rewrite E, upstream_get, !passthrough_get, !type_get. unfold setting_value. cbv zeta.
  set (fetch := existsb _ MODEL_FETCHABLE_TYPES). cbn [existsb]. rewrite !orb_false_r.
  set (azure := json_or (f_azure_responses_version f) _). set (ignored := JArr _).
  clearbody azure fetch ignored.
  by_key; cbn -[obj_get Z.eqb]; destruct fetch; try reflexivity;
    now destruct (f_type f =? 3)%Z, (jtruthy azure).
Qed.

(** ** Reading the saved settings again *)

(** What the form shows of the settings, for a type of channel. *)
Definition settings_view (type : Z) (f : ChannelFormValues) : list (jstr * json) :=
  let shown types k v := if existsb (Z.eqb type) types then [(k, v)] else [] in
  let flag v := JBool (on v) in
  let check := on (f_upstream_model_update_check_enabled f) in
  shown [41%Z] "vertex_key_type" (json_or (f_vertex_key_type f) (JStr "json"))
  ++ shown [3%Z] "azure_responses_version" (json_or (f_azure_responses_version f) (JStr []))
  ++ shown [20%Z] "openrouter_enterprise" (flag (f_is_enterprise_account f))
  ++ shown [33%Z] "aws_key_type" (json_or (f_aws_key_type f) (JStr "ak_sk"))
  ++ shown [1; 14]%Z "allow_service_tier" (flag (f_allow_service_tier f))
  ++ shown [1; 14]%Z "allow_inference_geo" (flag (f_allow_inference_geo f))
  ++ shown [1%Z] "disable_store" (flag (f_disable_store f))
  ++ shown [1%Z] "allow_safety_identifier" (flag (f_allow_safety_identifier f))
  ++ shown [1%Z] "allow_include_obfuscation" (flag (f_allow_include_obfuscation f))
  ++ shown [14%Z] "allow_speed" (flag (f_allow_speed f))
  ++ shown [14%Z] "claude_beta_query" (flag (f_claude_beta_query f))
  ++ shown MODEL_FETCHABLE_TYPES "upstream_model_update_check_enabled" (JBool check)
  ++ shown MODEL_FETCHABLE_TYPES "upstream_model_update_auto_sync_enabled"
       (JBool (check && on (f_upstream_model_update_auto_sync_enabled f)))
  ++ shown MODEL_FETCHABLE_TYPES "upstream_model_update_ignored_models"
       (JArr (map JStr (ignored_models f))).

Lemma json_or_again v d : json_or (Some (json_or v d)) d = json_or v d.
Proof.
  destruct v as [v|]; cbn; [|now destruct (jtruthy d)]. destruct (jtruthy v) eqn:E; cbn; rewrite ?E; [easy|].
  now destruct (jtruthy d).
Qed.

Lemma ignored_models_parse f :
  ignored_models f
  = uniq (parseModelsString (text_or (f_upstream_model_update_ignored_models f) [])).
Proof. unfold ignored_models, parseModelsString. now destruct (text_or _ _). Qed.

Lemma join_strings l : js_String (JArr (map JStr l)) = join "," l.
Proof. cbn. rewrite map_map. f_equal. now apply map_id. Qed.

Lemma shown_app (b : bool) (k : jstr) (x y : json) (l l' : list (jstr * json)) :
  (b = true -> x = y) -> l = l' ->
  (if b then [(k, x)] else []) ++ l = (if b then [(k, y)] else []) ++ l'.
Proof. intros H ->. destruct b; [now rewrite H|easy]. Qed.

Lemma azure_again v :
  let azure := json_or v (JStr []) in
  json_or (if jtruthy azure then Some azure else None) (JStr []) = azure.
Proof.
  destruct v as [v|]; [|easy]. cbn. destruct (jtruthy v) eqn:E; cbn; rewrite ?E; [|easy].
  cbn. now rewrite E.
Qed.

(** what the form shows of the settings of its type is what is saved: reading the
    saved text again shows the same values. *)
Theorem settings_reopen (f : ChannelFormValues) (o : list (jstr * json)) (ch : Channel) :
  wf_json (JObj (settings_object f o)) ->
  c_settings ch = stringify (JObj (settings_object f o)) ->
  settings_view (f_type f) (transformChannelToFormDefaults ch) = settings_view (f_type f) f.
Proof.
  intros Hwf Es. set (r := settings_object f o) in *.
  assert (Ep : parsed_text (c_settings ch) = Some (JObj r)).
  { unfold parsed_text. rewrite Es. change (truthy (stringify (JObj r))) with true. cbv iota.
    now apply (read_print (print := stringify)). }
  assert (Eg : forall k, jget_opt k (parsed_text (c_settings ch)) = setting_value f o k).
  { intros k. rewrite Ep. cbn [jget_opt jget]. apply settings_fields. }
  unfold settings_view. cbv zeta.
  unfold ignored_models at 1.
  cbn [transformChannelToFormDefaults f_vertex_key_type f_azure_responses_version
    f_is_enterprise_account f_aws_key_type f_allow_service_tier f_allow_inference_geo f_disable_store
    f_allow_safety_identifier f_allow_include_obfuscation f_allow_speed f_claude_beta_query
    f_upstream_model_update_check_enabled f_upstream_model_update_auto_sync_enabled
    f_upstream_model_update_ignored_models on text_or].
  rewrite !Eg. clear Eg Ep Es Hwf.
  repeat (apply shown_app; [intros Ht; unfold setting_value; cbn -[existsb obj_get json_or];
    rewrite ?Ht, ?json_or_again; cbn -[existsb obj_get json_or]; try reflexivity; try apply azure_again;
    try (now destruct (on _)); try (now destruct (on (f_upstream_model_update_check_enabled f)), (on _))|]).
  destruct (existsb (Z.eqb (f_type f)) MODEL_FETCHABLE_TYPES) eqn:Ht; [|easy].
  unfold setting_value. cbn -[existsb obj_get js_String MODEL_FETCHABLE_TYPES]. rewrite Ht, join_strings.
  do 3 f_equal.
  assert (Hc : Forall name_clean (ignored_models f)).
  { rewrite ignored_models_parse. apply uniq_Forall, parse_clean. }
  assert (Hu : uniq (ignored_models f) = ignored_models f).
  { rewrite ignored_models_parse. apply uniq_idem. }
  revert Hc Hu. generalize (ignored_models f) as l. intros l Hc Hu.
  pose proof (parse_join l Hc) as Hj. unfold parseModelsString in Hj.
  destruct (join "," l) as [|c t] eqn:Ej.
  - now rewrite <- Hj.
  - cbn [str_or truthy]. now rewrite Hj, Hu.
Qed.

Definition sample_channel_form : ChannelFormValues :=
  transformChannelToFormDefaults
    {| c_name := "azure"; c_type := 3; c_base_url := None; c_openai_organization := None;
       c_models := "gpt-4o"; c_group := "default"; c_model_mapping := None; c_priority := None;
       c_weight := None; c_test_model := None; c_auto_ban := None; c_status := 1;
       c_status_code_mapping := None; c_tag := None; c_remark := []; c_setting := None;
       c_param_override := None; c_header_override := None;
       c_settings := stringify (JObj [("azure_responses_version", JStr "v1"); ("custom", JBool true)]);
       c_sensitive_word_interception_enabled := None; c_multiplier_card_user_enabled := None;
       c_other := []; c_multi_key_mode := [] |}.

Definition channel_with_settings (settings : jstr) : Channel :=
  {| c_name := "azure"; c_type := 3; c_base_url := None; c_openai_organization := None;
     c_models := "gpt-4o"; c_group := "default"; c_model_mapping := None; c_priority := None;
     c_weight := None; c_test_model := None; c_auto_ban := None; c_status := 1;
     c_status_code_mapping := None; c_tag := None; c_remark := []; c_setting := None;
     c_param_override := None; c_header_override := None; c_settings := settings;
     c_sensitive_word_interception_enabled := None; c_multiplier_card_user_enabled := None;
     c_other := []; c_multi_key_mode := [] |}.

Lemma settings_reopen_witness :
  settings_view 3
    (transformChannelToFormDefaults
       (channel_with_settings
          (stringify (JObj (settings_object sample_channel_form [("custom", JBool true)])))))
  = [("azure_responses_version", JStr "v1")].
Proof.
  etransitivity; [apply (settings_reopen sample_channel_form [("custom", JBool true)])|reflexivity].
  - split; [reflexivity|]. repeat split; repeat constructor.
  - reflexivity.
Defined.

(** ** Updating without an edit *)

(** The properties of the update of a form that was not edited, but for its two JSON
    texts. *)
Definition unedited (ch : Channel) (id : Z) : list (jstr * json) :=
  let cleaned s := if truthy s then JStr s else JNull in
  [ ("id", JNum (of_Z id));
    ("name", cleaned (c_name ch));
    ("type", JNum (of_Z (c_type ch)));
    ("base_url", JStr (text_or (c_base_url ch) []));
    ("openai_organization", JStr (text_or (c_openai_organization ch) []));
    ("models", cleaned (c_models ch));
    ("group", cleaned (formatGroups (parseGroups (str_or (c_group ch) "default"))));
    ("model_mapping", JStr (text_or (c_model_mapping ch) []));
    ("priority", JNum (of_Z (nullish (c_priority ch) 0%Z)));
    ("weight", JNum (of_Z (nullish (c_weight ch) 0%Z)));
    ("test_model", JStr (text_or (c_test_model ch) []));
    ("auto_ban", JNum (of_Z (nullish (c_auto_ban ch) 1%Z)));
    ("status", JNum (of_Z (c_status ch)));
    ("status_code_mapping", JStr (text_or (c_status_code_mapping ch) []));
    ("tag", JStr (text_or (c_tag ch) []));
    ("remark", JStr (c_remark ch));
    ("param_override", JStr (text_or (c_param_override ch) []));
    ("header_override", JStr (text_or (c_header_override ch) []));
    ("sensitive_word_interception_enabled",
     JBool (nullish (c_sensitive_word_interception_enabled ch) true));
    ("multiplier_card_supported", JBool (nullish (c_multiplier_card_user_enabled ch) false));
    ("multiplier_card_user_enabled", JBool (nullish (c_multiplier_card_user_enabled ch) false));
    ("other", cleaned (c_other ch)) ].

(** The settings text of the form is an object, an array, blank or not JSON. *)
Definition settings_usable (text : jstr) : bool :=
  match parsed_text text with
  | Some (JObj _) | Some (JArr _) | None => true
  | Some _ => false
  end.

Lemma text_or_blank s : text_or (Some s) [] = s.
Proof. now destruct s. Qed.

Lemma settings_usable_spec f settings :
  f_settings f = Some (str_or settings "{}") ->
  match buildSettingsJSON f with
  | Ret _ => settings_usable settings = true
  | Throw => settings_usable settings = false
  end.
Proof.
  intros E. unfold buildSettingsJSON, settings_usable, parsed_text. rewrite E, text_or_blank.
  destruct settings as [|c s]; [easy|]. cbn [str_or truthy].
  destruct (seqb_spec (c :: s) "{}") as [->|]; cbn [negb andb]; [easy|].
  now destruct (json_parse (c :: s)) as [[]|].
Qed.

(** updating a channel whose form was not edited sends its own fields and never a
    key; when the settings text is the JSON of a value without properties (null, a
    number), building the payload throws instead. *)
Theorem update_unedited (ch : Channel) (id : Z) :
  match transformFormDataToUpdatePayload (transformChannelToFormDefaults ch) id with
  | Ret payload =>
    settings_usable (c_settings ch) = true /\ obj_get "key" payload = None
    /\ Forall (fun kv => obj_get (fst kv) payload = Some (snd kv)) (unedited ch id)
  | Throw => settings_usable (c_settings ch) = false
  end.
Proof.
  unfold transformFormDataToUpdatePayload.
  pose proof (settings_usable_spec (transformChannelToFormDefaults ch) (c_settings ch) eq_refl) as Hu.
  destruct (buildSettingsJSON _) as [settings|]; [|exact Hu]. split; [exact Hu|].
  unfold unedited. generalize (of_Z id) as i. intros i.
  destruct ch. cbn -[of_Z buildSettingJSON text_or str_or nullish formatGroups parseGroups].
  split; [reflexivity|]. rewrite !text_or_blank.
  assert (Ec : forall s : jstr, (if s =s [] then JNull else JStr s) = if truthy s then JStr s else JNull)
    by now intros [].
  rewrite !Ec. repeat (constructor; [reflexivity|]). constructor.
Qed.
