(* ===== verification/ChannelDrawer.v ===== *)
(** * The drawer of a channel

    [features/channels/components/drawers/channel-mutate-drawer.tsx], with the schema of its
    form ([channel-form.ts]), its two dialogs and [hooks/use-hidden-click-unlock.ts].

    A submission that asks before it sends is a program ([Prog]) that waits for an answer and
    goes on with the references of that time.  The drawer itself is a state ([World]) with a
    step function: the answers of the server arrive when they want, and the client keeps the
    details of channels for thirty seconds, as the query library does.  Dialogs are modal:
    nothing else is pressed while one asks.  What the form library shows of errors, and the
    two-factor dialog around the reading of a key, are not modelled. *)

From stdpp Require Import gmap.
From S2P Require Import Prelude Number Json StatusCodes ModelMapping ChannelUtils ChannelForm.
From stdpp Require Import options.

(** * The schema *)

Definition optional {A} (ok : A -> bool) (v : option A) : bool :=
  match v with Some x => ok x | None => true end.
Definition z_boolean (v : json) : bool := match v with JBool _ => true | _ => false end.
Definition z_string (v : json) : bool := match v with JStr _ => true | _ => false end.
Definition z_enum (options : list jstr) (s : jstr) : bool := memb s options.
Definition z_enum_json (options : list jstr) (v : json) : bool :=
  match v with JStr s => memb s options | _ => false end.

(** What the types of the record leave open. *)
Definition channelFormSchema (v : ChannelFormValues) : bool :=
  truthy (f_name v)
  && (0 <=? f_type v)%Z
  && truthy (f_models v)
  && negb (length (f_group v) =? 0)
  && optional (fun s => length s <=? 255) (f_remark v)
  && optional (z_enum ["single"; "batch"; "multi_to_single"]) (f_multi_key_mode v)
  && optional (z_enum ["random"; "polling"]) (f_multi_key_type v)
  && optional (z_enum ["append"; "replace"]) (f_key_mode v)
  && optional z_boolean (f_force_format v)
  && optional z_boolean (f_thinking_to_content v)
  && optional z_string (f_proxy v)
  && optional z_boolean (f_pass_through_body_enabled v)
  && optional z_string (f_system_prompt v)
  && optional z_boolean (f_system_prompt_override v)
  && optional (z_enum_json ["json"; "api_key"]) (f_vertex_key_type v)
  && optional (z_enum_json ["ak_sk"; "api_key"]) (f_aws_key_type v)
  && optional z_string (f_azure_responses_version v).

(** * Helpers of the form *)

(** A form with other texts in the fields that the handlers write. *)
Definition with_texts (key models : jstr) (base_url other : option jstr)
    (v : ChannelFormValues) : ChannelFormValues :=
  {| f_name := f_name v; f_type := f_type v; f_base_url := base_url; f_key := key;
     f_openai_organization := f_openai_organization v; f_models := models;
     f_group := f_group v; f_model_mapping := f_model_mapping v; f_priority := f_priority v;
     f_weight := f_weight v; f_test_model := f_test_model v; f_auto_ban := f_auto_ban v;
     f_status := f_status v; f_status_code_mapping := f_status_code_mapping v;
     f_tag := f_tag v; f_remark := f_remark v; f_setting := f_setting v;
     f_param_override := f_param_override v; f_header_override := f_header_override v;
     f_settings := f_settings v;
     f_sensitive_word_interception_enabled := f_sensitive_word_interception_enabled v;
     f_multiplier_card_user_enabled := f_multiplier_card_user_enabled v; f_other := other;
     f_multi_key_mode := f_multi_key_mode v; f_multi_key_type := f_multi_key_type v;
     f_batch_add_set_key_prefix_2_name := f_batch_add_set_key_prefix_2_name v;
     f_key_mode := f_key_mode v; f_force_format := f_force_format v;
     f_thinking_to_content := f_thinking_to_content v; f_proxy := f_proxy v;
     f_pass_through_body_enabled := f_pass_through_body_enabled v;
     f_system_prompt := f_system_prompt v;
     f_system_prompt_override := f_system_prompt_override v;
     f_is_enterprise_account := f_is_enterprise_account v;
     f_vertex_key_type := f_vertex_key_type v; f_aws_key_type := f_aws_key_type v;
     f_azure_responses_version := f_azure_responses_version v;
     f_allow_service_tier := f_allow_service_tier v; f_disable_store := f_disable_store v;
     f_allow_safety_identifier := f_allow_safety_identifier v;
     f_allow_include_obfuscation := f_allow_include_obfuscation v;
     f_allow_inference_geo := f_allow_inference_geo v; f_allow_speed := f_allow_speed v;
     f_claude_beta_query := f_claude_beta_query v;
     f_upstream_model_update_check_enabled := f_upstream_model_update_check_enabled v;
     f_upstream_model_update_auto_sync_enabled := f_upstream_model_update_auto_sync_enabled v;
     f_upstream_model_update_ignored_models := f_upstream_model_update_ignored_models v |}.

Definition set_models (m : jstr) (v : ChannelFormValues) : ChannelFormValues :=
  with_texts (f_key v) m (f_base_url v) (f_other v) v.
Definition set_key (k : jstr) (v : ChannelFormValues) : ChannelFormValues :=
  with_texts k (f_models v) (f_base_url v) (f_other v) v.
Definition set_base_url (u : jstr) (v : ChannelFormValues) : ChannelFormValues :=
  with_texts (f_key v) (f_models v) (Some u) (f_other v) v.
Definition set_other (o : jstr) (v : ChannelFormValues) : ChannelFormValues :=
  with_texts (f_key v) (f_models v) (f_base_url v) (Some o) v.

(** [v?.trim()] as a condition: what is neither missing nor a text has no [trim]. *)
Definition blank_text (v : option jstr) : bool := negb (truthy (trim (text_or v []))).
Definition trim_truthy (v : option json) : exc bool :=
  match v with
  | None | Some JNull => Ret false
  | Some (JStr s) => Ret (truthy (trim s))
  | Some _ => Throw
  end.

(** [a || b] *)
Definition or_else (a b : exc bool) : exc bool :=
  match a with Ret false => b | _ => a end.

Definition hasAdvancedSettingsValues (values : ChannelFormValues) : exc bool :=
  let text v := negb (blank_text v) in
  let num v := negb (nullish v 0 =? 0)%Z in
  let js v := match v with Some x => jtruthy x | None => false end in
  or_else (Ret (text (f_model_mapping values) || text (f_param_override values)
                || text (f_header_override values) || text (f_status_code_mapping values)
                || text (f_tag values) || text (f_remark values)
                || num (f_priority values) || num (f_weight values)))
  (or_else (trim_truthy (f_proxy values))
  (or_else (trim_truthy (f_system_prompt values))
  (Ret (js (f_force_format values) || js (f_thinking_to_content values)
        || js (f_pass_through_body_enabled values) || js (f_system_prompt_override values)
        || on (f_claude_beta_query values)
        || on (f_upstream_model_update_check_enabled values)
        || on (f_upstream_model_update_auto_sync_enabled values)
        || text (f_upstream_model_update_ignored_models values))))).

Definition parseSettingsRecord (settings : option jstr) : list (jstr * json) :=
  if blank_text settings then []
  else match json_parse (text_or settings []) with Some (JObj o) => o | _ => [] end.

(** ** What the drawer shows of the form *)

Record Guardrail := {
  invalidJson : bool;
  entries : list (jstr * jstr);
  missingSourceModels : list jstr;
  exposedTargetModels : list jstr;
}.

Definition createEmptyModelMappingGuardrail : Guardrail :=
  {| invalidJson := false; entries := []; missingSourceModels := []; exposedTargetModels := [] |}.

(** [String(rawTarget ?? '')] *)
Definition shown_target (v : json) : jstr := match v with JNull => [] | _ => js_String v end.

(** One pass of the [reduce]. *)
Definition guardrail_entry (e : jstr * json) : option (jstr * jstr) :=
  let source := trim (fst e) in
  let target := trim (shown_target (snd e)) in
  if negb (truthy source) || negb (truthy target) then None else Some (source, target).

Definition modelMappingGuardrail (mapping : option jstr) (currentModels : list jstr) : Guardrail :=
  if blank_text mapping then createEmptyModelMappingGuardrail
  else match json_parse (text_or mapping []) with
       | Some (JObj parsed) =>
         let entries := omap guardrail_entry parsed in
         {| invalidJson := false;
            entries := entries;
            missingSourceModels :=
              uniq (List.filter (fun s => truthy s && negb (memb s currentModels)) (map fst entries));
            exposedTargetModels :=
              uniq (List.filter (fun t => truthy t && memb t currentModels) (map snd entries)) |}
       | _ => {| invalidJson := true; entries := []; missingSourceModels := [];
                 exposedTargetModels := [] |}
       end.

Definition MODEL_MAPPING_PREVIEW_FALLBACK : list (jstr * jstr) := [("client-model", "upstream-model")].
Definition mappingPreviewPairs (g : Guardrail) : list (jstr * jstr) :=
  match entries g with [] => MODEL_MAPPING_PREVIEW_FALLBACK | l => take 3 l end.
Definition remainingMappingCount (g : Guardrail) : nat := length (entries g) - 3.

Definition UPSTREAM_DETECTED_MODEL_PREVIEW_LIMIT : nat := 8.

Definition detectedModels (settings : option jstr) : list jstr :=
  match obj_get "upstream_model_update_last_detected_models" (parseSettingsRecord settings) with
  | Some (JArr l) =>
    uniq (List.filter truthy (map (fun m => trim (js_String (if jtruthy m then m else JStr []))) l))
  | _ => []
  end.
Definition upstreamDetectedModelsPreview (settings : option jstr) : list jstr :=
  take UPSTREAM_DETECTED_MODEL_PREVIEW_LIMIT (detectedModels settings).
Definition upstreamDetectedModelsOmittedCount (settings : option jstr) : nat :=
  length (detectedModels settings) - length (upstreamDetectedModelsPreview settings).

Definition basicModels (allModelsList : list jstr) (currentType : Z) : list jstr :=
  if (currentType =? 1)%Z
  then List.filter (fun m => startsWith m "gpt-" || startsWith m "text-") allModelsList
  else allModelsList.
Definition groupOptions (groups : option (list jstr)) (current : list jstr) : list jstr :=
  match groups with None => [] | Some g => uniq (g ++ current) end.
Definition modelOptions (allModelsList currentModels : list jstr) : list jstr :=
  uniq (allModelsList ++ currentModels).

(** ** What its buttons write *)

(** The effect on the type of a new channel. *)
Definition type_defaults (v : ChannelFormValues) : ChannelFormValues :=
  if (f_type v =? 45)%Z && negb (truthy (text_or (f_base_url v) []))
  then set_base_url "https://ark.cn-beijing.volces.com" v
  else if (f_type v =? 18)%Z && negb (truthy (text_or (f_other v) []))
  then set_other "v2.1" v
  else v.

Definition handleDeduplicateKeys (v : ChannelFormValues) : ChannelFormValues :=
  if negb (truthy (f_key v)) || (trim (f_key v) =s []) then v
  else let result := deduplicateKeys (f_key v) in
       if removedCount result =? 0 then v else set_key (deduplicatedText result) v.

Definition updateModels (newModels : list jstr) (merge : bool) (v : ChannelFormValues)
  : ChannelFormValues :=
  set_models (if merge then formatModelsArray (parseModelsString (f_models v) ++ newModels)
              else formatModelsArray newModels) v.

Definition handleAddCustomModels (customModel : jstr) (v : ChannelFormValues) : ChannelFormValues :=
  if negb (truthy (trim customModel)) then v
  else updateModels (parseModelsString customModel) true v.

(** "Fill related models" and "Fill all models" *)
Definition fill_models (models : list jstr) (v : ChannelFormValues) : ChannelFormValues :=
  match models with [] => v | _ => updateModels models false v end.

(** What "Fetch models" answers instead of opening its dialog. *)
Definition handleFetchModels (isEditing : bool) (v : ChannelFormValues) : option jstr :=
  if negb (existsb (Z.eqb (f_type v)) MODEL_FETCHABLE_TYPES)
  then Some "This channel type does not support fetching models"
  else if negb isEditing && negb (truthy (trim (f_key v)))
  then Some "Please enter API key first"
  else None.

Definition handleClearModels (v : ChannelFormValues) : ChannelFormValues := set_models [] v.

(** The items of a group are a list, or the text of one. *)
Definition group_items (items : list json + jstr) : option (list json) :=
  match items with
  | inl l => Some l
  | inr text => match json_parse text with Some (JArr l) => Some l | _ => None end
  end.
(** [new Set(...)] of values of any kind, and [join] of them. *)
Fixpoint uniq_strict (seen l : list json) : list json :=
  match l with
  | [] => []
  | x :: l' => if existsb (fun y => strict_eq (Some x) (Some y)) seen then uniq_strict seen l'
               else x :: uniq_strict (x :: seen) l'
  end.
Definition join_items (l : list json) : jstr := js_String (JArr (uniq_strict [] l)).
Definition handleAddPrefillGroup (items : list json + jstr) (v : ChannelFormValues)
  : ChannelFormValues :=
  match group_items items with
  | Some l => set_models (join_items (map JStr (parseModelsString (f_models v)) ++ l)) v
  | None => v
  end.

Definition handleModelsChange (selected : list jstr) (v : ChannelFormValues) : ChannelFormValues :=
  set_models (join "," selected) v.

(** The dialog of the models, in the form's mode. *)
Definition onModelsSelected (models : list jstr) (v : ChannelFormValues) : ChannelFormValues :=
  set_models (formatModelsArray models) v.

Definition isBatchMode (v : ChannelFormValues) : bool :=
  match f_multi_key_mode v with
  | Some m => (m =s "batch") || (m =s "multi_to_single")
  | None => false
  end.

(** Key files: each is the value of its text, or not JSON. *)
Definition upload_keys (files : list (option json)) (v : ChannelFormValues) : ChannelFormValues :=
  match mapM (M := option) (fun f => f) files with
  | Some (k :: keys) =>
    set_key (stringify (if isBatchMode v then JArr (k :: keys) else k)) v
  | _ => v
  end.

(** The button that formats the header override. *)
Definition format_headers (value : option jstr) : option jstr :=
  match json_parse (str_or (text_or value []) "{}") with
  | Some parsed => Some (stringify_indent 2 [] parsed)
  | None => value
  end.

(** ** [use-hidden-click-unlock.ts] *)

Record Clicks := { clickCount : nat; unlocked : bool }.
Definition reset_clicks : Clicks := {| clickCount := 0; unlocked := false |}.
Definition handleClick (disabled : bool) (requiredClicks : nat) (c : Clicks) : Clicks :=
  if disabled || unlocked c then c
  else let next := S (clickCount c) in
       if requiredClicks <=? next then {| clickCount := 0; unlocked := true |}
       else {| clickCount := next; unlocked := false |}.

(** * The submission *)

(** What the form was loaded with. *)
Record Refs := { r_models : list jstr; r_mapping : jstr; r_status : jstr }.
Definition no_refs : Refs := {| r_models := []; r_mapping := []; r_status := [] |}.
Definition refs_of (c : Channel) : Refs :=
  {| r_models := parseModelsString (c_models c);
     r_mapping := text_or (c_model_mapping c) [];
     r_status := text_or (c_status_code_mapping c) [] |}.

Inductive MissingModelsAction := ActCancel | ActSubmit | ActAdd.

Inductive Prog :=
| Stop (message : jstr)
| AskRisk (items : list jstr) (resolve : bool -> Refs -> Prog)
| AskMissing (missing : list jstr) (resolve : MissingModelsAction -> Refs -> Prog)
| SetModels (models : jstr) (next : Prog)
| Send (data : ChannelFormValues).

Definition mapping_text (d : ChannelFormValues) : jstr := text_or (f_model_mapping d) [].
Definition status_text (d : ChannelFormValues) : jstr := text_or (f_status_code_mapping d) [].
Definition hasModelMapping (d : ChannelFormValues) : bool := truthy (trim (mapping_text d)).

Definition check_missing (data : ChannelFormValues) (refs : Refs) : Prog :=
  let normalizedModels := parseModelsString (f_models data) in
  if hasModelMapping data then
    let missingModels := findMissingModelsInMapping (mapping_text data) normalizedModels in
    if negb (length missingModels =? 0)
       && hasModelConfigChanged normalizedModels (mapping_text data) (r_models refs) (r_mapping refs)
    then AskMissing missingModels (fun action _ =>
           match action with
           | ActCancel => Stop []
           | ActAdd => let models := formatModelsArray (uniq (normalizedModels ++ missingModels)) in
                       SetModels models (Send (set_models models data))
           | ActSubmit => Send data
           end)
    else Send data
  else Send data.

Definition check_mapping (data : ChannelFormValues) (refs : Refs) : Prog :=
  if hasModelMapping data then
    match validateModelMappingJson (mapping_text data) with
    | MappingInvalid error => Stop (str_or error "Invalid model mapping")
    | MappingValid => check_missing data refs
    end
  else check_missing data refs.

Definition onSubmit (isEditing : bool) (refs : Refs) (data : ChannelFormValues) : Prog :=
  if negb isEditing && negb (truthy (trim (f_key data))) then Stop "API key is required"
  else if truthy (trim (status_text data)) then
    match collectInvalidStatusCodeEntries (status_text data) with
    | (_ :: _) as invalidEntries =>
      Stop ("Invalid status code mapping entries: " ++ join ", " invalidEntries)
    | [] =>
      match collectNewDisallowedStatusCodeRedirects (r_status refs) (status_text data) with
      | [] => check_mapping data refs
      | riskyRedirects =>
        AskRisk riskyRedirects (fun confirmed refs =>
          if negb confirmed then Stop [] else check_mapping data refs)
      end
    end
  else check_mapping data refs.

(** The request of a form that passed. *)
Inductive Request :=
| UpdateRequest (id : Z) (body : list (jstr * json))
| CreateRequest (body : CreatePayload).

Definition request (editing : option Z) (isMultiKeyChannel : bool) (data : ChannelFormValues)
  : exc Request :=
  match editing with
  | Some id =>
    payload <-! transformFormDataToUpdatePayload data id;
    Ret (UpdateRequest id
      (match f_key_mode data with
       | Some mode => if isMultiKeyChannel && truthy mode
                      then obj_set "key_mode" (JStr mode) payload else payload
       | None => payload
       end))
  | None => payload <-! transformFormDataToCreatePayload data; Ret (CreateRequest payload)
  end.

(** ** The dialog of the risks *)

Record RiskDialog := { checkedItems : list nat; confirmText : jstr }.
Definition fresh_risk : RiskDialog := {| checkedItems := []; confirmText := [] |}.
Definition CHECKLIST_COUNT : nat := 4.
Definition toggleCheck (i : nat) (d : RiskDialog) : RiskDialog :=
  {| checkedItems := if existsb (Nat.eqb i) (checkedItems d)
                     then List.filter (fun j => negb (j =? i)) (checkedItems d)
                     else checkedItems d ++ [i];
     confirmText := confirmText d |}.
Definition setConfirmText (t : jstr) (d : RiskDialog) : RiskDialog :=
  {| checkedItems := checkedItems d; confirmText := t |}.
Definition canConfirm (requiredText : jstr) (d : RiskDialog) : bool :=
  (length (checkedItems d) =? CHECKLIST_COUNT) && (trim (confirmText d) =s trim requiredText).

Inductive RiskEvent := RToggle (i : nat) | RType (t : jstr) | RConfirm | RCancel | REscape.

(** The answer that is given, if one is: leaving the dialog by its frame answers without
    clearing it. *)
Definition risk_step (requiredText : jstr) (d : RiskDialog) (e : RiskEvent)
  : RiskDialog * option bool :=
  match e with
  | RToggle i => (if i <? CHECKLIST_COUNT then toggleCheck i d else d, None)
  | RType t => (setConfirmText t d, None)
  | RConfirm => if canConfirm requiredText d then (fresh_risk, Some true) else (d, None)
  | RCancel => (fresh_risk, Some false)
  | REscape => (d, Some false)
  end.

(** * The drawer in time *)

(** What the query of a channel answers: the channel (missing when the server refuses), the
    flag of multi-key channels, and what the form does not read. *)
Record Detail := { d_data : option Channel; d_multi : bool; d_rest : jstr }.
#[export] Instance channel_eq_dec : EqDecision Channel.
Proof. solve_decision. Defined.
#[export] Instance detail_eq_dec : EqDecision Detail.
Proof. solve_decision. Defined.

(** An answer that is kept, since when, and whether it was declared out of date. *)
Record Cached := { k_detail : Detail; k_at : N; k_invalid : bool }.

(** [main.tsx]: in milliseconds. *)
Definition staleTime : N := 30 * 1000.
Definition stale (now : N) (k : Cached) : bool := k_invalid k || (k_at k + staleTime <=? now)%N.

Inductive Drawer := Closed | Creating | Editing (id : Z).
#[export] Instance drawer_eq_dec : EqDecision Drawer.
Proof. solve_decision. Defined.

Record View := {
  v_drawer : Drawer;
  v_form : ChannelFormValues;
  v_refs : Refs;
  v_advanced : bool;
  v_key : option jstr;
  v_crashed : bool;
}.

Record Net := {
  n_cache : gmap Z Cached;
  n_fetching : list Z;
  n_keys : list Z;
  n_inflight : option Request;
  n_sent : list Request;
}.

(** A submission belongs to the row of its time. *)
Record Submission := { s_editing : option Z; s_multi : bool; s_prog : Prog }.

Record World := {
  w_now : N;
  w_pref : bool;
  w_view : View;
  w_net : Net;
  w_ask : option Submission;
}.

Definition with_view (v : View) (w : World) : World :=
  {| w_now := w_now w; w_pref := w_pref w; w_view := v; w_net := w_net w; w_ask := w_ask w |}.
Definition with_net (n : Net) (w : World) : World :=
  {| w_now := w_now w; w_pref := w_pref w; w_view := w_view w; w_net := n; w_ask := w_ask w |}.
Definition with_ask (a : option Submission) (w : World) : World :=
  {| w_now := w_now w; w_pref := w_pref w; w_view := w_view w; w_net := w_net w; w_ask := a |}.
Definition with_form (f : ChannelFormValues) (v : View) : View :=
  {| v_drawer := v_drawer v; v_form := f; v_refs := v_refs v; v_advanced := v_advanced v;
     v_key := v_key v; v_crashed := v_crashed v |}.
Definition with_key (k : option jstr) (v : View) : View :=
  {| v_drawer := v_drawer v; v_form := v_form v; v_refs := v_refs v; v_advanced := v_advanced v;
     v_key := k; v_crashed := v_crashed v |}.
Definition with_advanced (b : bool) (v : View) : View :=
  {| v_drawer := v_drawer v; v_form := v_form v; v_refs := v_refs v; v_advanced := b;
     v_key := v_key v; v_crashed := v_crashed v |}.
Definition with_drawer (d : Drawer) (v : View) : View :=
  {| v_drawer := d; v_form := v_form v; v_refs := v_refs v; v_advanced := v_advanced v;
     v_key := v_key v; v_crashed := v_crashed v |}.
Definition with_cache (c : gmap Z Cached) (n : Net) : Net :=
  {| n_cache := c; n_fetching := n_fetching n; n_keys := n_keys n; n_inflight := n_inflight n;
     n_sent := n_sent n |}.
Definition with_fetching (l : list Z) (n : Net) : Net :=
  {| n_cache := n_cache n; n_fetching := l; n_keys := n_keys n; n_inflight := n_inflight n;
     n_sent := n_sent n |}.
Definition with_keys (l : list Z) (n : Net) : Net :=
  {| n_cache := n_cache n; n_fetching := n_fetching n; n_keys := l; n_inflight := n_inflight n;
     n_sent := n_sent n |}.
Definition with_inflight (r : option Request) (n : Net) : Net :=
  {| n_cache := n_cache n; n_fetching := n_fetching n; n_keys := n_keys n; n_inflight := r;
     n_sent := n_sent n ++ match r with Some r => [r] | None => [] end |}.

Definition closed_view : View :=
  {| v_drawer := Closed; v_form := CHANNEL_FORM_DEFAULT_VALUES; v_refs := no_refs;
     v_advanced := false; v_key := None; v_crashed := false |}.
Definition start (now : N) (pref : bool) : World :=
  {| w_now := now; w_pref := pref; w_view := closed_view;
     w_net := {| n_cache := ∅; n_fetching := []; n_keys := []; n_inflight := None; n_sent := [] |};
     w_ask := None |}.

(** The effect that loads a channel into the form. *)
Definition load (pref : bool) (c : Channel) (v : View) : View :=
  let defaults := transformChannelToFormDefaults c in
  match (if pref then Ret true else hasAdvancedSettingsValues defaults) with
  | Ret b => {| v_drawer := v_drawer v; v_form := defaults; v_refs := refs_of c;
                v_advanced := b; v_key := v_key v; v_crashed := v_crashed v |}
  | Throw => {| v_drawer := v_drawer v; v_form := defaults; v_refs := v_refs v;
                v_advanced := v_advanced v; v_key := v_key v; v_crashed := true |}
  end.
Definition show (pref : bool) (d : Detail) (v : View) : View :=
  match d_data d with Some c => load pref c v | None => v end.

(** The same effect when no row is edited any more. *)
Definition unload (v : View) : View :=
  {| v_drawer := v_drawer v; v_form := CHANNEL_FORM_DEFAULT_VALUES; v_refs := no_refs;
     v_advanced := false; v_key := v_key v; v_crashed := v_crashed v |}.

(** [setOpen(null)]: without a row the form is reset only if there was one. *)
Definition leave (v : View) : View :=
  let v' := with_key None (with_drawer Closed v) in
  match v_drawer v with Editing _ => unload v' | Creating => v' | Closed => v end.

(** [handleOpenChange(false)] *)
Definition handleClose (v : View) : View :=
  leave (with_advanced false (with_form CHANNEL_FORM_DEFAULT_VALUES v)).

Definition fetch_if (b : bool) (id : Z) (n : Net) : Net :=
  if b && negb (existsb (Z.eqb id) (n_fetching n)) then with_fetching (n_fetching n ++ [id]) n else n.

Definition open_update (id : Z) (w : World) : World :=
  let v := with_key None (with_drawer (Editing id) (w_view w)) in
  match n_cache (w_net w) !! id with
  | Some k => with_view (show (w_pref w) (k_detail k) v)
                (with_net (fetch_if (stale (w_now w) k) id (w_net w)) w)
  | None => with_view v (with_net (fetch_if true id (w_net w)) w)
  end.

(** A detail arrives; an answer that equals the one that is kept is the same object. *)
Definition detail_arrives (id : Z) (r : option Detail) (w : World) : World :=
  let n := with_fetching (List.filter (fun i => negb (i =? id)%Z) (n_fetching (w_net w))) (w_net w) in
  match r with
  | None => with_net n w
  | Some d =>
    let same := match n_cache n !! id with
                | Some k => bool_decide (k_detail k = d)
                | None => false
                end in
    let n := with_cache (<[id := {| k_detail := d; k_at := w_now w; k_invalid := false |}]> (n_cache n)) n in
    let v := w_view w in
    with_view (if bool_decide (v_drawer v = Editing id) && negb same then show (w_pref w) d v else v)
      (with_net n w)
  end.

Definition invalidate (id : Z) (w : World) : World :=
  match n_cache (w_net w) !! id with
  | None => w
  | Some k =>
    let n := with_cache (<[id := {| k_detail := k_detail k; k_at := k_at k; k_invalid := true |}]>
                           (n_cache (w_net w))) (w_net w) in
    with_net (fetch_if (bool_decide (v_drawer (w_view w) = Editing id)) id n) w
  end.

Definition editing (v : View) : option Z := match v_drawer v with Editing id => Some id | _ => None end.
Definition isEditing (v : View) : bool := match v_drawer v with Editing _ => true | _ => false end.
Definition multi_key (w : World) : bool :=
  match editing (w_view w) with
  | Some id => match n_cache (w_net w) !! id with
               | Some k => match d_data (k_detail k) with Some _ => d_multi (k_detail k) | None => false end
               | None => false
               end
  | None => false
  end.

(** A submission runs until it asks, stops or sends. *)
Fixpoint go (row : option Z) (multi : bool) (p : Prog) (w : World) : World :=
  match p with
  | Stop _ => with_ask None w
  | AskRisk _ _ | AskMissing _ _ =>
    with_ask (Some {| s_editing := row; s_multi := multi; s_prog := p |}) w
  | SetModels m next => go row multi next (with_view (with_form (set_models m (v_form (w_view w))) (w_view w)) w)
  | Send data =>
    let w := with_ask None w in
    match request row multi data with
    | Ret r => with_net (with_inflight (Some r) (w_net w)) w
    | Throw => w
    end
  end.

Definition edit (f : ChannelFormValues) (v : View) : View :=
  with_form (if negb (isEditing v) && negb (f_type f =? f_type (v_form v))%Z
             then type_defaults f else f) v.

Inductive Event :=
| EOpenCreate
| EOpenUpdate (id : Z)
| EClose
| EEdit (f : ChannelFormValues)
| ESubmit
| ERisk (confirmed : bool)
| EMissing (action : MissingModelsAction)
| EAnswer (success : bool)
| EDetail (id : Z) (r : option Detail)
| EInvalidate (id : Z)
| EEvict (id : Z)
| EReveal
| EKey (id : Z) (key : option jstr)
| EAdvanced (open : bool)
| EWait (ms : N).

(** [None]: it cannot happen now. *)
Definition step (w : World) (e : Event) : option World :=
  let v := w_view w in
  let n := w_net w in
  let is_open := bool_decide (v_drawer v <> Closed) in
  let idle := match w_ask w with None => true | Some _ => false end in
  if v_crashed v then None
  else match e with
  | EOpenCreate => if is_open then None else Some (with_view (with_drawer Creating v) w)
  | EOpenUpdate id => if is_open then None else Some (open_update id w)
  | EClose => if is_open && idle then Some (with_view (handleClose v) w) else None
  | EEdit f => if is_open && idle then Some (with_view (edit f v) w) else None
  | ESubmit =>
    if is_open && idle && match n_inflight n with None => true | Some _ => false end
    then Some (if channelFormSchema (v_form v)
               then go (editing v) (multi_key w) (onSubmit (isEditing v) (v_refs v) (v_form v)) w
               else w)
    else None
  | ERisk b =>
    match w_ask w with
    | Some {| s_editing := row; s_multi := multi; s_prog := AskRisk _ k |} =>
      Some (go row multi (k b (v_refs v)) w)
    | _ => None
    end
  | EMissing a =>
    match w_ask w with
    | Some {| s_editing := row; s_multi := multi; s_prog := AskMissing _ k |} =>
      Some (go row multi (k a (v_refs v)) w)
    | _ => None
    end
  | EAnswer success =>
    match n_inflight n with
    | Some _ =>
      let w := with_net (with_inflight None n) w in
      Some (if success then with_view (leave v) w else w)
    | None => None
    end
  | EDetail id r => if existsb (Z.eqb id) (n_fetching n) then Some (detail_arrives id r w) else None
  | EInvalidate id => Some (invalidate id w)
  | EEvict id => if bool_decide (v_drawer v = Editing id) then None
                 else Some (with_net (with_cache (delete id (n_cache n)) n) w)
  | EReveal => match editing v with
               | Some id => Some (with_net (with_keys (n_keys n ++ [id]) n) w)
               | None => None
               end
  | EKey id key =>
    if existsb (Z.eqb id) (n_keys n) then
      let w := with_net (with_keys (List.filter (fun i => negb (i =? id)%Z) (n_keys n)) n) w in
      Some (match key with Some k => with_view (with_key (Some k) v) w | None => w end)
    else None
  | EAdvanced b =>
    if is_open && idle
    then Some (with_view (with_advanced b v)
      {| w_now := w_now w; w_pref := b; w_view := v; w_net := n; w_ask := w_ask w |})
    else None
  | EWait ms =>
    Some {| w_now := w_now w + ms; w_pref := w_pref w; w_view := v; w_net := n; w_ask := w_ask w |}
  end.

Fixpoint steps (w : World) (es : list Event) : option World :=
  match es with
  | [] => Some w
  | e :: es => match step w e with Some w' => steps w' es | None => None end
  end.

Inductive reachable : World -> Prop :=
| reach_start now pref : reachable (start now pref)
| reach_step w e w' : reachable w -> step w e = Some w' -> reachable w'.

(** * What is sent was checked *)

Inductive Answer := Risk (confirmed : bool) | Missing (action : MissingModelsAction).

(** [sends p answers data]: with these answers, each given with the references of its time,
    the program comes to send [data]. *)
Inductive sends : Prog -> list (Answer * Refs) -> ChannelFormValues -> Prop :=
| sends_now d : sends (Send d) [] d
| sends_set m p l d : sends p l d -> sends (SetModels m p) l d
| sends_risk items k b refs l d : sends (k b refs) l d -> sends (AskRisk items k) ((Risk b, refs) :: l) d
| sends_missing ms k a refs l d : sends (k a refs) l d -> sends (AskMissing ms k) ((Missing a, refs) :: l) d.

#[export] Hint Constructors sends : js.

Lemma set_models_same d : set_models (f_models d) d = d.
Proof. now destruct d. Qed.

Lemma set_models_fields m d :
  f_models (set_models m d) = m /\ f_key (set_models m d) = f_key d
  /\ mapping_text (set_models m d) = mapping_text d /\ status_text (set_models m d) = status_text d.
Proof. easy. Qed.

(** A name that a list of models can hold. *)
Definition listable (m : jstr) : Prop := Forall (fun c => c <> 44%N) m.

Lemma missing_clean text models m :
  In m (findMissingModelsInMapping text models) -> edges_ok m = true /\ m <> [].
Proof.
  unfold findMissingModelsInMapping. destruct (_ || _); [easy|].
  destruct (mapping_object text) as [o|]; [|easy]. intros [H Hm]%uniq_In%filter_In. bool_hyps.
  apply in_map_iff in H as (k & <- & _). split; [apply trim_edges|]. now apply truthy_iff.
Qed.

Lemma filter_none {A} (f : A -> bool) l : (forall x, In x l -> f x = false) -> List.filter f l = [].
Proof.
  induction l as [|x l IH]; intros H; [easy|]. cbn. rewrite (H x) by now left. apply IH.
  intros y Hy. apply H. now right.
Qed.

(** Adding what is missing leaves nothing missing. *)
Lemma add_missing text s :
  let ms := findMissingModelsInMapping text (parseModelsString s) in
  Forall listable ms ->
  findMissingModelsInMapping text
    (parseModelsString (formatModelsArray (uniq (parseModelsString s ++ ms)))) = [].
Proof.
  intros ms Hl. unfold formatModelsArray. rewrite uniq_idem.
  assert (Hc : Forall name_clean (uniq (parseModelsString s ++ ms))).
  { apply uniq_Forall, Forall_app. split; [apply parse_clean|]. apply List.Forall_forall.
    intros m Hm. destruct (missing_clean _ _ _ Hm). split; [easy|]. split; [easy|].
    exact (proj1 (List.Forall_forall _ _) Hl m Hm). }
  rewrite parse_join by easy. subst ms. clear Hl Hc.
  unfold findMissingModelsInMapping. destruct (_ || _); [easy|].
  destruct (mapping_object text) as [o|]; [|easy].
  set (K := map normalizeModelName (map fst o)). set (L := parseModelsString s).
  set (f := fun key => truthy key && negb (memb key (map normalizeModelName L))).
  rewrite filter_none; [easy|]. intros x Hx. rewrite andb_false_iff.
  destruct (truthy x) eqn:Et; [right|now left]. apply negb_false_iff, memb_In, in_map_iff.
  destruct (memb x (map normalizeModelName L)) eqn:E.
  - apply memb_In, in_map_iff in E as (y & E & Hy). exists y. split; [easy|]. apply uniq_In, in_app_iff.
    now left.
  - exists x. split.
    + apply in_map_iff in Hx as (k & <- & _). apply trim_idem.
    + apply uniq_In, in_app_iff. right. apply uniq_In, filter_In. split; [easy|].
      unfold f. now rewrite Et, E.
Qed.

Lemma check_missing_sends data refs answers d :
  sends (check_missing data refs) answers d ->
  d = data
  /\ (hasModelMapping data = false
      \/ findMissingModelsInMapping (mapping_text data) (parseModelsString (f_models data)) = []
      \/ hasModelConfigChanged (parseModelsString (f_models data)) (mapping_text data)
           (r_models refs) (r_mapping refs) = false
      \/ In (Missing ActSubmit) (map fst answers))
  \/ In (Missing ActAdd) (map fst answers)
     /\ d = set_models (formatModelsArray (uniq (parseModelsString (f_models data)
              ++ findMissingModelsInMapping (mapping_text data) (parseModelsString (f_models data))))) data.
Proof.
  unfold check_missing. destruct (hasModelMapping data); [|now inversion 1; auto].
  set (ms := findMissingModelsInMapping _ _). destruct (Nat.eqb_spec (length ms) 0) as [E|_]; cbn [negb andb].
  { apply length_zero_iff_nil in E. inversion 1; subst; auto. }
  destruct (hasModelConfigChanged _ _ _ _) eqn:Ec; [|inversion 1; subst; auto 6].
  inversion 1 as [| | |? ? a ? l ? H0]; subst. destruct a; [now inversion H0| |right].
  - inversion H0; subst. left. split; [easy|]. do 3 right. now left.
  - inversion H0 as [|? ? ? ? H1| |]; subst. inversion H1; subst. split; [now left|easy].
Qed.

Lemma check_mapping_sends data refs answers d :
  sends (check_mapping data refs) answers d ->
  sends (check_missing data refs) answers d
  /\ (hasModelMapping data = false \/ exists o, mapping_object (mapping_text data) = Some o).
Proof.
  unfold check_mapping. destruct (hasModelMapping data) eqn:Em; [|auto].
  unfold validateModelMappingJson, mapping_object. unfold hasModelMapping in Em.
  destruct (mapping_text data) as [|c t] eqn:E; [easy|]. cbn [truthy negb orb].
  destruct (seqb_spec (trim (c :: t)) []) as [E0|_]; [now rewrite E0 in Em|].
  destruct (json_parse (c :: t)) as [[]|]; try now inversion 1.
  intros H. split; [easy|]. right. now eexists.
Qed.

(** The references that the mapping is compared with: those of the time when the risk was
    confirmed, if it was asked about. *)
Definition mapping_refs (refs : Refs) (answers : list (Answer * Refs)) : Refs :=
  match answers with (Risk _, refs') :: _ => refs' | _ => refs end.

Lemma check_mapping_refs data refs answers d :
  sends (check_mapping data refs) answers d -> mapping_refs refs answers = refs.
Proof.
  intros [H _]%check_mapping_sends. revert H. unfold check_missing.
  destruct (hasModelMapping data); [|now inversion 1]. destruct (_ && _); now inversion 1.
Qed.

(** What was checked of the values [d] that are sent for the form [data]. *)
Record checked (isEditing : bool) (refs : Refs) (data : ChannelFormValues) (answers : list (Answer * Refs))
    (d : ChannelFormValues) : Prop := {
  ck_form : d = set_models (f_models d) data;
  ck_models : f_models d = f_models data \/ In (Missing ActAdd) (map fst answers);
  ck_key : isEditing = true \/ trim (f_key d) <> [];
  ck_status : trim (status_text d) = []
    \/ collectInvalidStatusCodeEntries (status_text d) = []
       /\ (collectNewDisallowedStatusCodeRedirects (r_status refs) (status_text d) = []
           \/ In (Risk true) (map fst answers));
  ck_mapping : trim (mapping_text d) = []
    \/ (exists o, mapping_object (mapping_text d) = Some o)
       /\ (Forall listable (findMissingModelsInMapping (mapping_text d) (parseModelsString (f_models data))) ->
           findMissingModelsInMapping (mapping_text d) (parseModelsString (f_models d)) = []
           \/ In (Missing ActSubmit) (map fst answers)
           \/ let refs' := mapping_refs refs answers in
              hasModelConfigChanged (parseModelsString (f_models d)) (mapping_text d)
                (r_models refs') (r_mapping refs') = false)
}.

Lemma onSubmit_sends isEditing refs data answers d :
  sends (onSubmit isEditing refs data) answers d ->
  (isEditing = true \/ trim (f_key data) <> [])
  /\ (trim (status_text data) = []
      \/ collectInvalidStatusCodeEntries (status_text data) = []
        /\ (collectNewDisallowedStatusCodeRedirects (r_status refs) (status_text data) = []
            \/ In (Risk true) (map fst answers)))
  /\ exists l, incl l answers /\ sends (check_mapping data (mapping_refs refs answers)) l d.
Proof.
  unfold onSubmit.
  assert (Hk : negb isEditing && negb (truthy (trim (f_key data))) = false ->
               isEditing = true \/ trim (f_key data) <> []).
  { rewrite andb_false_iff, !negb_false_iff, truthy_iff. tauto. }
  destruct (negb isEditing && _); [now inversion 1|]. specialize (Hk eq_refl).
  destruct (trim (status_text data)) as [|c t]; cbn [truthy].
  { intros H. repeat split; auto. exists answers. rewrite (check_mapping_refs data refs answers d H). now split. }
  destruct (collectInvalidStatusCodeEntries _); [|now inversion 1].
  destruct (collectNewDisallowedStatusCodeRedirects _ _).
  { intros H. repeat split; auto. exists answers. rewrite (check_mapping_refs data refs answers d H). now split. }
  inversion 1 as [| |? ? b refs' l1 ? H0|]; subst. destruct b; [|now inversion H0]. cbn in H0.
  repeat split; auto; [right; split; [easy|right; now left]|]. exists l1. split; [now apply incl_tl|easy].
Qed.

(** Whatever is answered, and whatever the references are when it is. *)
Lemma sends_checked isEditing refs data answers d :
  sends (onSubmit isEditing refs data) answers d -> checked isEditing refs data answers d.
Proof.
  intros (Hk & Hs & l & Hl & [Hm Ho]%check_mapping_sends)%onSubmit_sends.
  assert (Hi : incl (map fst l) (map fst answers)) by now apply incl_map.
  apply check_missing_sends in Hm as Hd.
  assert (E : d = set_models (f_models d) data
              /\ (f_models d = f_models data \/ In (Missing ActAdd) (map fst answers))).
  { destruct Hd as [[-> _]|[Ha ->]]; [now rewrite set_models_same; auto|]. auto. }
  destruct E as [E Ea]. destruct (set_models_fields (f_models d) data) as (_ & Ek & Em & Es).
  rewrite <- E in Ek, Em, Es. split; rewrite ?Ek, ?Em, ?Es; try easy.
  destruct Ho as [Ho|Ho]; [left|right; split; [easy|]].
  { unfold hasModelMapping in Ho. destruct (trim (mapping_text data)); [easy|discriminate]. }
  intros Hlist. destruct Hd as [[-> [Hn|[Hn|[Hn|Hn]]]]|[_ ->]]; auto.
  - left. unfold hasModelMapping in Hn. unfold findMissingModelsInMapping.
    destruct (mapping_text data) as [|c t]; [easy|]. cbn [truthy negb orb].
    now destruct (trim (c :: t)).
  - left. now apply add_missing.
Qed.

(** A channel with these models, this mapping and these redirects. *)
Definition drawer_channel (name models mapping status : jstr) : Channel :=
  {| c_name := name; c_type := 1; c_base_url := None; c_openai_organization := None;
     c_models := models; c_group := "default"; c_model_mapping := Some mapping;
     c_priority := Some 0%Z; c_weight := Some 0%Z; c_test_model := None; c_auto_ban := Some 1%Z;
     c_status := 1; c_status_code_mapping := Some status; c_tag := None; c_remark := [];
     c_setting := None; c_param_override := None; c_header_override := None; c_settings := [];
     c_sensitive_word_interception_enabled := None; c_multiplier_card_user_enabled := None;
     c_other := []; c_multi_key_mode := [] |}.
Definition drawer_form (name models mapping status : jstr) : ChannelFormValues :=
  transformChannelToFormDefaults (drawer_channel name models mapping status).

(** * The state over time *)

(** What the form is compared with when it is sent: the channel that is kept, and nothing
    when none is edited. *)
Definition refs_ok (w : World) : Prop :=
  let v := w_view w in
  v_crashed v = true
  \/ match v_drawer v with
     | Editing id => forall k c, n_cache (w_net w) !! id = Some k -> d_data (k_detail k) = Some c ->
                       v_refs v = refs_of c
     | _ => v_refs v = no_refs
     end.

Lemma show_drawer pref d v : v_drawer (show pref d v) = v_drawer v.
Proof. unfold show, load. now repeat case_goal. Qed.

Lemma show_refs pref d v c :
  d_data d = Some c -> v_crashed (show pref d v) = true \/ v_refs (show pref d v) = refs_of c.
Proof. intros E. unfold show, load. rewrite E. case_goal; auto. Qed.

Lemma leave_refs v :
  v_drawer (leave v) = Closed /\ (v_refs v = no_refs \/ isEditing v = true -> v_refs (leave v) = no_refs).
Proof.
  unfold leave, isEditing. destruct (v_drawer v) eqn:E; cbn; (split; [easy|]); intuition discriminate.
Qed.

(** A step that keeps the drawer and its references, and the data of the kept details. *)
Lemma refs_keep w w' :
  refs_ok w -> v_crashed (w_view w) = false ->
  v_drawer (w_view w') = v_drawer (w_view w) -> v_refs (w_view w') = v_refs (w_view w) ->
  (forall id k, v_drawer (w_view w) = Editing id -> n_cache (w_net w') !! id = Some k ->
     exists k', n_cache (w_net w) !! id = Some k' /\ d_data (k_detail k') = d_data (k_detail k)) ->
  refs_ok w'.
Proof.
  intros [H|H] Hc Ed Er Hk; [congruence|]. right. rewrite Ed, Er.
  destruct (v_drawer (w_view w)) as [| |id] eqn:E; [easy|easy|]. intros k c Ek Ec.
  destruct (Hk id k eq_refl Ek) as (k' & Ek' & E'). apply (H k'); congruence.
Qed.

Lemma refs_same w w' :
  refs_ok w -> v_crashed (w_view w) = false ->
  v_drawer (w_view w') = v_drawer (w_view w) -> v_refs (w_view w') = v_refs (w_view w) ->
  n_cache (w_net w') = n_cache (w_net w) -> refs_ok w'.
Proof. intros H Hc Ed Er En. apply (refs_keep w); auto. rewrite En. eauto. Qed.

Lemma refs_leave w v w' :
  refs_ok w -> v_crashed (w_view w) = false ->
  v_drawer v = v_drawer (w_view w) -> v_refs v = v_refs (w_view w) -> w_view w' = leave v ->
  refs_ok w'.
Proof.
  intros [H|H] Hc Ed Er E; [congruence|]. right. rewrite E. destruct (leave_refs v) as [-> Hl].
  apply Hl. unfold isEditing. rewrite Ed, Er. destruct (v_drawer (w_view w)); auto.
Qed.

Lemma go_view row multi p w :
  exists f, w_view (go row multi p w) = with_form f (w_view w) /\ n_cache (w_net (go row multi p w)) = n_cache (w_net w).
Proof.
  assert (E : forall v, v = with_form (v_form v) v) by now intros [].
  revert w. induction p as [m| | |m p IH|d]; intros w; cbn.
  1-3: now eexists.
  - destruct (IH (with_view (with_form (set_models m (v_form (w_view w))) (w_view w)) w)) as (f & H1 & H2).
    exists f. rewrite H1, H2. easy.
  - eexists. destruct (request row multi d); cbn; split; try apply E; easy.
Qed.

Lemma refs_go row multi p w :
  refs_ok w -> v_crashed (w_view w) = false -> refs_ok (go row multi p w).
Proof.
  intros H Hc. destruct (go_view row multi p w) as (f & Ev & En).
  apply (refs_same w); rewrite ?Ev, ?En; auto.
Qed.

Lemma refs_open id w : v_crashed (w_view w) = false -> refs_ok (open_update id w).
Proof.
  intros Hc. unfold open_update. destruct (n_cache (w_net w) !! id) as [k|] eqn:Ek.
  - destruct (v_crashed (show (w_pref w) (k_detail k)
      (with_key None (with_drawer (Editing id) (w_view w))))) eqn:E; [now left|]. right. cbn.
    rewrite show_drawer. cbn. intros k' c Ek' Ec.
    replace (n_cache _) with (n_cache (w_net w)) in Ek' by (unfold fetch_if; now case_goal).
    simplify_eq. destruct (show_refs (w_pref w) (k_detail k) (with_key None
      (with_drawer (Editing id) (w_view w))) c Ec); congruence.
  - right. cbn. intros k c Ek'.
    replace (n_cache _) with (n_cache (w_net w)) in Ek' by (unfold fetch_if; now case_goal). congruence.
Qed.

Lemma refs_arrive id r w :
  refs_ok w -> v_crashed (w_view w) = false -> refs_ok (detail_arrives id r w).
Proof.
  intros H Hc. unfold detail_arrives. destruct r as [d|]; [|now apply (refs_same w)].
  set (n := with_fetching _ _). change (n_cache n) with (n_cache (w_net w)).
  set (k0 := {| k_detail := d; k_at := w_now w; k_invalid := false |}).
  destruct (decide (v_drawer (w_view w) = Editing id)) as [Ed|Ed].
  - rewrite bool_decide_eq_true_2 by easy. cbn [andb].
    destruct (n_cache (w_net w) !! id) as [k|] eqn:Ek; [destruct (decide (k_detail k = d)) as [<-|Hd]|].
    + rewrite bool_decide_eq_true_2 by easy. apply (refs_keep w); auto. cbn.
      intros id' k' E'. rewrite Ed in E'. injection E' as <-. rewrite lookup_insert_eq.
      intros [= <-]. now exists k.
    + rewrite bool_decide_eq_false_2 by easy. cbn.
      destruct (v_crashed (show (w_pref w) d (w_view w))) eqn:E; [now left|]. right. cbn.
      rewrite show_drawer, Ed, lookup_insert_eq. intros k' c [= <-] Ec. cbn in Ec.
      destruct (show_refs (w_pref w) d (w_view w) c Ec); congruence.
    + cbn. destruct (v_crashed (show (w_pref w) d (w_view w))) eqn:E; [now left|]. right. cbn.
      rewrite show_drawer, Ed, lookup_insert_eq. intros k' c [= <-] Ec. cbn in Ec.
      destruct (show_refs (w_pref w) d (w_view w) c Ec); congruence.
  - rewrite bool_decide_eq_false_2 by easy. cbn [andb]. apply (refs_keep w); auto. cbn.
    intros id' k' E'. rewrite lookup_insert_ne by congruence. eauto.
Qed.

Lemma refs_invalidate id w :
  refs_ok w -> v_crashed (w_view w) = false -> refs_ok (invalidate id w).
Proof.
  intros H Hc. unfold invalidate. destruct (n_cache (w_net w) !! id) as [k|] eqn:Ek; [|easy].
  apply (refs_keep w); auto. intros id' k' _. cbn.
  replace (n_cache (fetch_if _ _ _)) with (<[id := {| k_detail := k_detail k; k_at := k_at k;
    k_invalid := true |}]> (n_cache (w_net w))) by (unfold fetch_if; now case_goal).
  destruct (decide (id' = id)) as [->|Hne].
  - rewrite lookup_insert_eq. intros [= <-]. eauto.
  - rewrite lookup_insert_ne by congruence. eauto.
Qed.

(** Whatever happens, the references that a submission is compared with are those of the
    channel that the drawer holds, and empty when it edits none: also when answers are late,
    repeated or fail, and when channels are opened again. *)
Theorem refs_invariant (w : World) : reachable w -> refs_ok w.
Proof.
  induction 1 as [now pref|w e w' _ IH E]; [now right|].
  unfold step in E. destruct (v_crashed (w_view w)) eqn:Hc; [discriminate|].
  destruct e; repeat (case_hyp E; try discriminate); simplify_eq;
    eauto using refs_go, refs_open, refs_arrive, refs_invalidate;
    try (now apply (refs_same w)).
  - apply bool_decide_eq_false, dec_stable in Heqb. destruct IH as [H|H]; [congruence|].
    right. cbn. now rewrite Heqb in H.
  - eapply (refs_leave w _ _ IH Hc); [| |reflexivity]; reflexivity.
  - eapply (refs_leave w _ _ IH Hc); [| |reflexivity]; reflexivity.
  - apply (refs_keep w); auto. intros id' k Ed. apply bool_decide_eq_false in Heqb. cbn.
    rewrite lookup_delete_ne by congruence. eauto.
Qed.

Lemma steps_reachable es : forall w w', reachable w -> steps w es = Some w' -> reachable w'.
Proof.
  induction es as [|e es IH]; cbn; intros w w' Hw E; [now simplify_eq|].
  destruct (step w e) as [w1|] eqn:E1; [|discriminate]. eauto using reach_step.
Qed.

(** ** What was sent *)

(** A state in which a submission begins. *)
Record submission (w0 : World) : Prop := {
  sb_reachable : reachable w0;
  sb_live : v_crashed (w_view w0) = false;
  sb_open : v_drawer (w_view w0) <> Closed;
  sb_schema : channelFormSchema (v_form (w_view w0)) = true
}.

Definition submit_prog (w0 : World) : Prog :=
  onSubmit (isEditing (w_view w0)) (v_refs (w_view w0)) (v_form (w_view w0)).

(** The answers were given in states of the same drawer, with their references. *)
Definition answered_in (w0 : World) (l : list (Answer * Refs)) : Prop :=
  Forall (fun ar => exists w1, reachable w1 /\ v_crashed (w_view w1) = false
            /\ v_drawer (w_view w1) = v_drawer (w_view w0) /\ snd ar = v_refs (w_view w1)) l.

(** The submission that asks, and the requests that were sent, come from such states. *)
Record history_ok (w : World) : Prop := {
  ho_ask : forall s, w_ask w = Some s ->
    n_inflight (w_net w) = None
    /\ exists w0 l, submission w0 /\ answered_in w0 l /\ s_editing s = editing (w_view w0)
       /\ v_drawer (w_view w) = v_drawer (w_view w0)
       /\ (forall l' d, sends (s_prog s) l' d -> sends (submit_prog w0) (l ++ l') d);
  ho_sent : forall r, In r (n_sent (w_net w)) ->
    exists w0 l d multi, submission w0 /\ answered_in w0 l /\ sends (submit_prog w0) l d
      /\ request (editing (w_view w0)) multi d = Ret r
}.

Lemma go_outcome row multi p w :
  let w' := go row multi p w in
  (w_ask w' = None
   \/ exists q, w_ask w' = Some {| s_editing := row; s_multi := multi; s_prog := q |}
      /\ n_inflight (w_net w') = n_inflight (w_net w) /\ (forall l d, sends q l d -> sends p l d))
  /\ (n_sent (w_net w') = n_sent (w_net w)
      \/ exists d r, n_sent (w_net w') = n_sent (w_net w) ++ [r] /\ request row multi d = Ret r /\ sends p [] d).
Proof.
  revert w. induction p as [m|items k _|ms k _|m p IH|d]; intros w; cbn [go].
  - split; now left.
  - split; [right; eexists; now split|now left].
  - split; [right; eexists; now split|now left].
  - destruct (IH (with_view (with_form (set_models m (v_form (w_view w))) (w_view w)) w)) as [H1 H2]. split.
    + destruct H1 as [H1|(q & Eq & En & Hq)]; [now left|right]. exists q. repeat split; auto with js.
    + destruct H2 as [H2|(d & r & E & Er & Hs)]; [now left|right]. exists d, r. repeat split; auto with js.
  - destruct (request row multi d) as [r|] eqn:E; (split; [now left|]); [right|now left].
    exists d, r. repeat split; auto with js.
Qed.

Lemma history_go w w0 l row multi p :
  history_ok w -> submission w0 -> answered_in w0 l -> row = editing (w_view w0) ->
  v_drawer (w_view w) = v_drawer (w_view w0) -> n_inflight (w_net w) = None ->
  (forall l' d, sends p l' d -> sends (submit_prog w0) (l ++ l') d) ->
  history_ok (go row multi p w).
Proof.
  intros Hh H0 Hl Hr Hd Hn Hp. destruct (go_outcome row multi p w) as [Ha Hs]. cbv zeta in *.
  destruct (go_view row multi p w) as (f & Ev & _). split.
  - intros s Es. destruct Ha as [Ha|(q & Eq & En & Hq)]; [congruence|]. split; [congruence|].
    rewrite Eq in Es. injection Es as <-. exists w0, l. rewrite Ev. cbn. split; [easy|]. split; [easy|].
    split; [easy|]. split; [easy|]. intros l' d H. now apply Hp, Hq.
  - intros r Hin. destruct Hs as [E|(d & r' & E & Er & Hd')]; rewrite E in Hin; [now apply (ho_sent w Hh)|].
    apply in_app_iff in Hin as [Hin|[<-|[]]]; [now apply (ho_sent w Hh)|].
    exists w0, l, d, multi. subst row. split; [easy|]. split; [easy|]. split; [|easy].
    rewrite <- (app_nil_r l). now apply Hp.
Qed.

Lemma history_keep w w' :
  history_ok w -> w_ask w' = w_ask w -> n_sent (w_net w') = n_sent (w_net w) ->
  (w_ask w <> None -> n_inflight (w_net w) = None -> v_drawer (w_view w) <> Closed ->
     n_inflight (w_net w') = None /\ v_drawer (w_view w') = v_drawer (w_view w)) ->
  history_ok w'.
Proof.
  intros [Ha Hs] Ea En Hk. split.
  - intros s E. rewrite Ea in E. destruct (Ha s E) as (Hn & w0 & l & H0 & Hl & He & Hd & Hp).
    destruct Hk as [Hn' Hd']; [congruence|easy|rewrite Hd; apply H0|]. split; [easy|].
    exists w0, l. rewrite Hd'. now do 4 (split; [assumption|]).
  - intros r Hr. apply Hs. congruence.
Qed.

Lemma answer_history w s b k l0 :
  reachable w -> history_ok w -> v_crashed (w_view w) = false -> w_ask w = Some s ->
  (forall l' d, sends (k (v_refs (w_view w))) l' d -> sends (s_prog s) ((b, v_refs (w_view w)) :: l') d) ->
  l0 = s_multi s -> history_ok (go (s_editing s) l0 (k (v_refs (w_view w))) w).
Proof.
  intros Hw Hh Hc Ea Hk ->. destruct (ho_ask w Hh s Ea) as (Hn & w0 & l & H0 & Hl & He & Hd & Hp).
  apply (history_go w w0 (l ++ [(b, v_refs (w_view w))])); auto.
  - apply Forall_app. split; [easy|]. constructor; [|constructor]. now exists w.
  - intros l' d H. rewrite <- app_assoc. now apply Hp, Hk.
Qed.

(** What neither asks, nor answers, nor sends. *)
Lemma fetch_if_quiet b id n :
  n_inflight (fetch_if b id n) = n_inflight n /\ n_sent (fetch_if b id n) = n_sent n.
Proof. unfold fetch_if. now case_goal. Qed.

Lemma open_quiet id w : w_ask (open_update id w) = w_ask w /\ n_sent (w_net (open_update id w)) = n_sent (w_net w).
Proof.
  unfold open_update. split; case_goal; cbn; try easy; now apply fetch_if_quiet.
Qed.

Lemma arrive_quiet id r w :
  let w' := detail_arrives id r w in
  w_ask w' = w_ask w /\ n_sent (w_net w') = n_sent (w_net w) /\ n_inflight (w_net w') = n_inflight (w_net w)
  /\ v_drawer (w_view w') = v_drawer (w_view w).
Proof.
  unfold detail_arrives. destruct r as [d|]; [|easy]. cbn. repeat split. case_goal; [apply show_drawer|easy].
Qed.

Lemma invalidate_quiet id w :
  let w' := invalidate id w in
  w_ask w' = w_ask w /\ n_sent (w_net w') = n_sent (w_net w) /\ n_inflight (w_net w') = n_inflight (w_net w)
  /\ v_drawer (w_view w') = v_drawer (w_view w).
Proof.
  unfold invalidate. case_goal; [|easy]. cbn. split; [easy|]. rewrite !(proj1 (fetch_if_quiet _ _ _)).
  now rewrite (proj2 (fetch_if_quiet _ _ _)).
Qed.

Lemma reachable_history w : reachable w -> history_ok w.
Proof.
  induction 1 as [now pref|w e w' Hw IH E]; [now split|].
  unfold step in E. destruct (v_crashed (w_view w)) eqn:Hc; [discriminate|].
  destruct e.
  6: { destruct (w_ask w) as [[row multi []]|] eqn:Ea; try discriminate. injection E as <-.
       apply (answer_history w _ (Risk confirmed) (resolve confirmed) _ Hw IH Hc Ea); [|easy].
       intros l' d H. now constructor. }
  6: { destruct (w_ask w) as [[row multi []]|] eqn:Ea; try discriminate. injection E as <-.
       apply (answer_history w _ (Missing action) (resolve action) _ Hw IH Hc Ea); [|easy].
       intros l' d H. now constructor. }
  5: { destruct (bool_decide (v_drawer (w_view w) <> Closed)) eqn:Ho; [|discriminate].
       apply bool_decide_eq_true in Ho. destruct (w_ask w) eqn:Ea; [discriminate|].
       destruct (n_inflight (w_net w)) eqn:En; [discriminate|].
       destruct (channelFormSchema _) eqn:Ev; injection E as <-; [|easy].
       apply (history_go w w []); try easy. constructor. }
  all: repeat (case_hyp E; try discriminate); simplify_eq; apply (history_keep w); auto; cbn; try easy;
    try (intros; congruence); try apply app_nil_r; try apply open_quiet; try apply arrive_quiet;
    try apply invalidate_quiet; intros Ha Hn Ho.
  1-2: now apply bool_decide_eq_false in Heqb.
  - apply andb_prop in Heqb as [_ Heqb]. now destruct (w_ask w).
  - destruct (arrive_quiet id r w) as (_ & _ & -> & ->). easy.
  - destruct (invalidate_quiet id w) as (_ & _ & -> & ->). easy.
Qed.

(** A channel as the server has it. *)
Definition detail_of (c : Channel) : Detail := {| d_data := Some c; d_multi := false; d_rest := [] |}.
Definition old_channel : Channel := drawer_channel "old" "m" [] [].
Definition open_events : list Event := [EOpenUpdate 7; EDetail 7 (Some (detail_of old_channel))].
Definition opened : World := match steps (start 0 true) open_events with Some w => w | None => start 0 true end.

Lemma refs_invariant_witness : v_refs (w_view opened) = refs_of old_channel.
Proof.
  destruct (refs_invariant opened) as [H|H].
  - apply (steps_reachable open_events (start 0 true)); [apply reach_start|reflexivity].
  - discriminate H.
  - exact (H {| k_detail := detail_of old_channel; k_at := 0; k_invalid := false |} old_channel
             eq_refl eq_refl).
Defined.


(** A channel is opened, given a mapping whose source is not listed and a redirect of a timeout,
    and submitted; the risk is confirmed and the missing model added. *)
Definition risky_form : ChannelFormValues :=
  drawer_form "c" "m" ("{" ++ quote "a" ++ ":" ++ quote "m" ++ "}")
    ("{" ++ quote "504" ++ ":" ++ quote "500" ++ "}").
Definition risky_events : list Event := open_events ++ [EEdit risky_form; ESubmit; ERisk true; EMissing ActAdd].
Definition risky_world : World :=
  match steps (start 0 true) risky_events with Some w => w | None => start 0 true end.
Definition risky_request : Request :=
  match n_inflight (w_net risky_world) with
  | Some r => r
  | None => CreateRequest {| cp_mode := []; cp_multi_key_mode := None;
                             cp_batch_add_set_key_prefix_2_name := None; cp_channel := [] |}
  end.


Lemma step_answered w r :
  v_crashed (w_view w) = false -> n_inflight (w_net w) = Some r ->
  step w (EAnswer true) = Some (with_view (leave (w_view w)) (with_net (with_inflight None (w_net w)) w)).
Proof. intros Hc Hr. unfold step. now rewrite Hc, Hr. Qed.

Lemma step_open w id :
  v_crashed (w_view w) = false -> v_drawer (w_view w) = Closed ->
  step w (EOpenUpdate id) = Some (open_update id w).
Proof. intros Hc Hd. unfold step. now rewrite Hc, Hd. Qed.

Lemma leave_crashed v : v_crashed (leave v) = v_crashed v.
Proof. unfold leave. now destruct (v_drawer v). Qed.

(** A channel whose values load: with the preference for the advanced settings the values are
    not looked at; without it (as it is at first) a proxy or a system prompt that is not a
    text throws. *)
Definition loadable (pref : bool) (c : Channel) : Prop :=
  pref = true \/ hasAdvancedSettingsValues (transformChannelToFormDefaults c) <> Throw.

Lemma load_values pref c v :
  loadable pref c -> v_crashed v = false ->
  let v' := load pref c v in
  v_crashed v' = false /\ v_drawer v' = v_drawer v
  /\ v_form v' = transformChannelToFormDefaults c /\ v_refs v' = refs_of c.
Proof.
  intros Hl Hc. unfold load. destruct pref; [easy|]. destruct Hl as [|Hl]; [easy|].
  now destruct (hasAdvancedSettingsValues _).
Qed.

(** A channel whose redirects and mapping are accepted is sent as it was loaded: nothing is
    asked. *)
Definition acceptable (f : ChannelFormValues) : Prop :=
  channelFormSchema f = true
  /\ (trim (status_text f) = [] \/ collectInvalidStatusCodeEntries (status_text f) = [])
  /\ (hasModelMapping f = false \/ validateModelMappingJson (mapping_text f) = MappingValid).

Lemma nothing_new s : collectNewDisallowedStatusCodeRedirects s s = [].
Proof.
  unfold collectNewDisallowedStatusCodeRedirects.
  destruct (collectDisallowedStatusCodeRedirects s) as [|x l]; [easy|]. apply filter_none.
  intros y Hy. now apply negb_false_iff, memb_In.
Qed.

Lemma models_unchanged models text :
  truthy text = true -> hasModelConfigChanged models text models text = false.
Proof.
  intros Ht. unfold hasModelConfigChanged. rewrite Ht, andb_false_r, Nat.eqb_refl. cbn [negb].
  assert (forall l, same_models l l = true) as ->; [|cbn [negb]; now rewrite seqb_refl].
  induction l as [|x l IH]; [easy|]. cbn [same_models]. now rewrite seqb_refl, IH.
Qed.

Lemma loaded_sent c :
  let f := transformChannelToFormDefaults c in acceptable f -> onSubmit true (refs_of c) f = Send f.
Proof.
  cbv zeta. set (f := transformChannelToFormDefaults c). intros (_ & Hs & Hm).
  assert (Et : status_text f = r_status (refs_of c)) by (unfold status_text, f; cbn; now destruct (c_status_code_mapping c) as [[]|]).
  assert (Em : mapping_text f = r_mapping (refs_of c)) by (unfold mapping_text, f; cbn; now destruct (c_model_mapping c) as [[]|]).
  assert (Hc : check_missing f (refs_of c) = Send f).
  { unfold check_missing. destruct (hasModelMapping f) eqn:E; [|easy]. rewrite Em.
    change (r_models (refs_of c)) with (parseModelsString (f_models f)).
    rewrite models_unchanged; [now rewrite andb_false_r|]. unfold hasModelMapping in E. rewrite <- Em.
    now destruct (mapping_text f). }
  assert (Hp : check_mapping f (refs_of c) = Send f).
  { unfold check_mapping. destruct (hasModelMapping f); [|easy]. destruct Hm as [|Hm]; [easy|]. now rewrite Hm. }
  unfold onSubmit. cbn [negb andb]. destruct (truthy (trim (status_text f))) eqn:E; [|easy].
  destruct Hs as [Hs|Hs]; [apply truthy_iff in E; congruence|]. rewrite Hs, Et, nothing_new. exact Hp.
Qed.

(** Closing by a successful save and opening the same row while its detail is kept. *)
Lemma reopened (w : World) (id : Z) (k : Cached) (c : Channel) (r : Request) (ms : N) :
  v_crashed (w_view w) = false -> v_drawer (w_view w) = Editing id -> w_ask w = None ->
  n_inflight (w_net w) = Some r ->
  n_cache (w_net w) !! id = Some k -> d_data (k_detail k) = Some c -> k_invalid k = false ->
  (w_now w + ms < k_at k + staleTime)%N -> loadable (w_pref w) c ->
  exists w', steps w [EAnswer true; EWait ms; EOpenUpdate id] = Some w'
    /\ v_crashed (w_view w') = false /\ v_drawer (w_view w') = Editing id
    /\ v_form (w_view w') = transformChannelToFormDefaults c /\ v_refs (w_view w') = refs_of c
    /\ w_ask w' = None /\ w_net w' = with_inflight None (w_net w).
Proof.
  intros Hc Hd Ha Hr Hk Hdata Hi Hms Hp. cbn [steps]. rewrite (step_answered w r) by easy.
  destruct (leave_refs (w_view w)) as [Hl _].
  unfold step at 1. cbn [w_view with_view with_net]. rewrite leave_crashed, Hc. cbn [steps].
  rewrite step_open by (cbn; now rewrite ?leave_crashed). eexists. split; [reflexivity|].
  unfold open_update. cbn. rewrite Hk. cbn. unfold show. rewrite Hdata.
  assert (Hf : fetch_if (stale (w_now w + ms) k) id (with_inflight None (w_net w)) = with_inflight None (w_net w)).
  { unfold fetch_if, stale. rewrite Hi. cbn [orb].
    now destruct (N.leb_spec (k_at k + staleTime) (w_now w + ms)); [lia|]. }
  rewrite Hf. set (v := with_key None _).
  destruct (load_values (w_pref w) c v Hp) as (H1 & H2 & H3 & H4); [unfold v; cbn; now rewrite leave_crashed|].
  now rewrite H1, H2, H3, H4.
Qed.

(** C25: A channel is loaded, edited and saved; within thirty seconds of the loading it is opened
    again.  The drawer shows what the channel was when it was loaded, whatever was saved, and
    asks the server for nothing (if the loading does not throw: the advanced settings are
    preferred, or the stored proxy and system prompt are texts).  If these old values are
    acceptable (the schema holds, the redirects are valid and the mapping is an object) the next
    save asks nothing either and sends the old values: what was saved before is undone. *)
Theorem reopen_stale (w : World) (id : Z) (k : Cached) (c : Channel) (r : Request) (ms : N) :
  v_crashed (w_view w) = false -> v_drawer (w_view w) = Editing id -> w_ask w = None ->
  n_inflight (w_net w) = Some r ->
  n_cache (w_net w) !! id = Some k -> d_data (k_detail k) = Some c -> k_invalid k = false ->
  (w_now w + ms < k_at k + staleTime)%N -> loadable (w_pref w) c ->
  let old := transformChannelToFormDefaults c in
  exists w', steps w [EAnswer true; EWait ms; EOpenUpdate id] = Some w'
    /\ v_form (w_view w') = old /\ v_refs (w_view w') = refs_of c
    /\ n_fetching (w_net w') = n_fetching (w_net w) /\ n_sent (w_net w') = n_sent (w_net w)
    /\ forall r', acceptable old -> request (Some id) (d_multi (k_detail k)) old = Ret r' ->
       exists w'', step w' ESubmit = Some w'' /\ n_sent (w_net w'') = n_sent (w_net w) ++ [r'].
Proof.
  intros Hc Hd Ha Hr Hk Hdata Hi Hms Hp old.
  destruct (reopened w id k c r ms) as (w' & E & Ec & Ed & Ef & Er & Ea & En); [easy..|].
  exists w'. split; [exact E|]. rewrite En. split; [easy|]. split; [easy|]. split; [easy|].
  split; [apply app_nil_r|]. intros r' Hok Hreq. pose proof (loaded_sent c Hok) as Hsend.
  unfold step. rewrite Ec, Ea, En. rewrite bool_decide_eq_true_2 by now rewrite Ed. cbn [andb n_inflight with_inflight].
  rewrite Ef. fold old in Hsend |- *. destruct Hok as [Hv _]. rewrite Hv.
  unfold isEditing, editing, multi_key. rewrite Er. unfold editing. rewrite Ed, En.
  change (n_cache (with_inflight None (w_net w))) with (n_cache (w_net w)). rewrite Hk, Hdata, Hsend.
  eexists. split; [reflexivity|]. cbn [go]. rewrite Hreq. cbn [w_net with_net with_ask]. rewrite En. cbn.
  now rewrite app_nil_r.
Qed.

(** The channel is loaded, renamed and saved; ten seconds later it is opened and saved again. *)
Definition renamed : ChannelFormValues := drawer_form "new" "m" [] [].
Definition saving : World :=
  match steps opened [EEdit renamed; ESubmit] with Some w => w | None => opened end.
Definition sent_name (r : Request) : option json :=
  match r with UpdateRequest _ body => obj_get "name" body | CreateRequest p => obj_get "name" (cp_channel p) end.

(** The preference is off, as at first. *)
Definition unpreferred : World :=
  match steps (start 0 false) (open_events ++ [EEdit renamed; ESubmit]) with Some w => w | None => start 0 false end.

Definition old_request : Request :=
  match request (Some 7%Z) false (transformChannelToFormDefaults old_channel) with
  | Ret r => r | Throw => CreateRequest {| cp_mode := []; cp_multi_key_mode := None; cp_batch_add_set_key_prefix_2_name := None; cp_channel := [] |}
  end.

Lemma reopen_stale_witness :
  exists w', steps unpreferred [EAnswer true; EWait 10000; EOpenUpdate 7] = Some w'
    /\ f_name (v_form (w_view w')) = "old"
    /\ exists w'', step w' ESubmit = Some w''
       /\ n_sent (w_net w'') = n_sent (w_net unpreferred) ++ [old_request]
       /\ map sent_name (n_sent (w_net unpreferred) ++ [old_request]) = [Some (JStr "new"); Some (JStr "old")].
Proof.
  destruct (n_inflight (w_net unpreferred)) as [r|] eqn:Er; [|vm_compute in Er; discriminate].
  destruct (reopen_stale unpreferred 7 {| k_detail := detail_of old_channel; k_at := 0; k_invalid := false |}
    old_channel r 10000) as (w' & E & Ef & _ & _ & _ & Hs); try easy.
  { right. vm_compute. discriminate. }
  exists w'. split; [exact E|]. split; [now rewrite Ef|].
  destruct (Hs old_request) as (w'' & Es & En).
  - split; [reflexivity|]. split; left; reflexivity.
  - vm_compute. reflexivity.
  - exists w''. split; [exact Es|]. split; [exact En|]. vm_compute. reflexivity.
Defined.

Lemma onSubmit_plain b refs data :
  b = true \/ trim (f_key data) <> [] -> trim (status_text data) = [] -> hasModelMapping data = false ->
  onSubmit b refs data = Send data.
Proof.
  intros Hk Hs Hm. unfold onSubmit, check_mapping, check_missing. rewrite Hs, Hm. cbn.
  destruct b; cbn; [easy|]. destruct Hk as [|Hk]; [easy|]. apply truthy_iff in Hk. now rewrite Hk.
Qed.

(** A form without redirects and mapping is sent as it is. *)
Lemma step_plain w :
  let v := w_view w in
  v_crashed v = false -> v_drawer v <> Closed -> w_ask w = None -> n_inflight (w_net w) = None ->
  channelFormSchema (v_form v) = true -> trim (status_text (v_form v)) = [] ->
  hasModelMapping (v_form v) = false -> isEditing v = true \/ trim (f_key (v_form v)) <> [] ->
  step w ESubmit = Some (go (editing v) (multi_key w) (Send (v_form v)) w).
Proof.
  intros v Hc Hd Ha Hi Hv Hs Hm Hk. unfold step. fold v. rewrite Hc, Ha, Hi, Hv.
  rewrite bool_decide_eq_true_2 by easy. cbn [andb]. now rewrite onSubmit_plain.
Qed.

Lemma fetch_if_same b id n :
  n_cache (fetch_if b id n) = n_cache n /\ n_inflight (fetch_if b id n) = n_inflight n
  /\ n_sent (fetch_if b id n) = n_sent n.
Proof. unfold fetch_if. now case_goal. Qed.

(** After a channel was created the form keeps its values, key included: a channel that is
    opened for the first time shows them until its own arrive, and is overwritten with them if
    it is saved before. *)
Theorem created_form_overwrites (w : World) (id : Z) (r : Request) (P : list (jstr * json)) :
  let f := v_form (w_view w) in
  v_crashed (w_view w) = false -> v_drawer (w_view w) = Creating -> w_ask w = None ->
  n_inflight (w_net w) = Some r -> n_cache (w_net w) !! id = None ->
  channelFormSchema f = true -> trim (status_text f) = [] -> hasModelMapping f = false ->
  transformFormDataToUpdatePayload f id = Ret P ->
  exists w', steps w [EAnswer true; EOpenUpdate id; ESubmit] = Some w'
    /\ n_sent (w_net w') = n_sent (w_net w) ++ [UpdateRequest id P].
Proof.
  intros f Hc Hd Ha Hr Hk Hv Hs Hm HP. cbn [steps]. rewrite (step_answered w r) by easy.
  rewrite step_open by (cbn; unfold leave; now rewrite Hd).
  unfold open_update. cbn [w_net with_view with_net n_cache with_inflight w_view]. rewrite Hk.
  unfold leave. rewrite Hd.
  destruct (fetch_if_same true id (with_inflight None (w_net w))) as (En & Ei & Es).
  rewrite step_plain; cbn [w_view w_ask w_net with_view with_net]; rewrite ?Ei; auto.
  eexists. split; [reflexivity|]. cbn [go editing with_key with_drawer v_drawer v_form w_view with_view].
  unfold multi_key. cbn [editing w_view with_view with_key with_drawer v_drawer w_net with_net].
  rewrite En. cbn [n_cache with_inflight]. rewrite Hk. unfold request. fold f. rewrite HP.
  cbn. rewrite Es. cbn. rewrite app_nil_r. now destruct (f_key_mode f).
Qed.

(** A channel is created with a key; then another one is opened and saved at once. *)
Definition creation : ChannelFormValues := set_key "secret" renamed.
Definition creating : World :=
  match steps (start 0 true) [EOpenCreate; EEdit creation; ESubmit] with Some w => w | None => start 0 true end.
Definition payload_of (f : ChannelFormValues) (id : Z) : list (jstr * json) :=
  match transformFormDataToUpdatePayload f id with Ret p => p | Throw => [] end.

Lemma created_form_overwrites_witness :
  obj_get "key" (payload_of creation 9) = Some (JStr "secret")
  /\ exists w', steps creating [EAnswer true; EOpenUpdate 9; ESubmit] = Some w'
       /\ n_sent (w_net w') = n_sent (w_net creating) ++ [UpdateRequest 9 (payload_of creation 9)].
Proof.
  split; [reflexivity|]. destruct (n_inflight (w_net creating)) as [r|] eqn:Er; [|vm_compute in Er; discriminate].
  apply (created_form_overwrites creating 9 r (payload_of creation 9)); try easy; reflexivity.
Defined.

(** A detail that arrives late, and differs in something the form does not show, resets what
    was typed. *)
Lemma late_detail_resets (w : World) (id : Z) (k : Cached) (c : Channel) (d : Detail) :
  v_crashed (w_view w) = false -> v_drawer (w_view w) = Editing id -> w_pref w = true ->
  In id (n_fetching (w_net w)) -> n_cache (w_net w) !! id = Some k -> k_detail k <> d ->
  d_data d = Some c ->
  exists w', step w (EDetail id (Some d)) = Some w'
    /\ v_form (w_view w') = transformChannelToFormDefaults c.
Proof.
  intros Hc Hd Hp Hi Hk Hne Ec. unfold step. rewrite Hc.
  assert (E : existsb (Z.eqb id) (n_fetching (w_net w)) = true).
  { apply existsb_exists. exists id. split; [easy|apply Z.eqb_refl]. }
  rewrite E. eexists. split; [reflexivity|]. unfold detail_arrives.
  change (n_cache (with_fetching ?l ?n)) with (n_cache n). rewrite Hk, Hd.
  rewrite bool_decide_eq_true_2, bool_decide_eq_false_2 by easy. cbn.
  unfold show, load. now rewrite Ec, Hp.
Qed.

(** The answer to a save closes whatever drawer is open then, with what was typed in it. *)
Example late_success_closes :
  option_map (fun w => (v_drawer (w_view w), f_name (v_form (w_view w))))
    (steps saving [EClose; EOpenUpdate 8; EDetail 8 (Some (detail_of old_channel)); EEdit renamed; EAnswer true])
  = Some (Closed, []).
Proof. vm_compute. reflexivity. Qed.

(** The key of one channel is shown for another one that was opened meanwhile. *)
Example key_of_another :
  option_map (fun w => (v_drawer (w_view w), v_key (w_view w)))
    (steps opened [EReveal; EClose; EOpenUpdate 8; EKey 7 (Some ("sk-7" : jstr))])
  = Some (Editing 8, Some ("sk-7" : jstr)).
Proof. vm_compute. reflexivity. Qed.

(** A proxy that is not a text makes the load throw, unless the preference is to show the
    advanced settings. *)
Definition proxy_channel : Channel :=
  let c := old_channel in
  {| c_name := c_name c; c_type := c_type c; c_base_url := c_base_url c;
     c_openai_organization := c_openai_organization c; c_models := c_models c; c_group := c_group c;
     c_model_mapping := c_model_mapping c; c_priority := c_priority c; c_weight := c_weight c;
     c_test_model := c_test_model c; c_auto_ban := c_auto_ban c; c_status := c_status c;
     c_status_code_mapping := c_status_code_mapping c; c_tag := c_tag c; c_remark := c_remark c;
     c_setting := Some ("{" ++ quote "proxy" ++ ":true}"); c_param_override := c_param_override c;
     c_header_override := c_header_override c; c_settings := c_settings c;
     c_sensitive_word_interception_enabled := c_sensitive_word_interception_enabled c;
     c_multiplier_card_user_enabled := c_multiplier_card_user_enabled c; c_other := c_other c;
     c_multi_key_mode := c_multi_key_mode c |}.
Example proxy_crashes :
  hasAdvancedSettingsValues (transformChannelToFormDefaults proxy_channel) = Throw.
Proof. vm_compute. reflexivity. Qed.

(** ** The dialog of the risks *)

Fixpoint risk_steps (requiredText : jstr) (d : RiskDialog) (es : list RiskEvent) : RiskDialog :=
  match es with
  | [] => d
  | e :: es => risk_steps requiredText (fst (risk_step requiredText d e)) es
  end.

Lemma toggle_items i d :
  i < CHECKLIST_COUNT -> List.NoDup (checkedItems d) /\ Forall (fun j => j < CHECKLIST_COUNT) (checkedItems d) ->
  List.NoDup (checkedItems (toggleCheck i d))
  /\ Forall (fun j => j < CHECKLIST_COUNT) (checkedItems (toggleCheck i d)).
Proof.
  intros Hi [Hn Hf]. unfold toggleCheck. cbn. destruct (existsb (Nat.eqb i) (checkedItems d)) eqn:E.
  - split; [now apply List.NoDup_filter|]. apply List.Forall_forall. intros j [Hj _]%filter_In.
    exact (proj1 (List.Forall_forall _ _) Hf j Hj).
  - split.
    + apply NoDup_ListNoDup, NoDup_app. split_and!; [now apply NoDup_ListNoDup| |apply NoDup_singleton].
      intros j Hj ->%list_elem_of_singleton. apply list_elem_of_In in Hj.
      assert (existsb (Nat.eqb i) (checkedItems d) = true); [|congruence].
      apply existsb_exists. exists i. now rewrite Nat.eqb_refl.
    + apply Forall_app. repeat split; auto.
Qed.

(** The risk is accepted only with every item ticked and the text typed; but ticks and text
    survive a dialog that was left by its frame, and then one press accepts another risk. *)
Theorem risk_accepted (requiredText : jstr) (es : list RiskEvent) :
  let d := risk_steps requiredText fresh_risk es in
  (snd (risk_step requiredText d RConfirm) = Some true ->
     (forall i, i < CHECKLIST_COUNT -> In i (checkedItems d))
     /\ trim (confirmText d) = trim requiredText)
  /\ (canConfirm requiredText d = true ->
      snd (risk_step requiredText (risk_steps requiredText d [REscape]) RConfirm) = Some true).
Proof.
  set (inv := fun d => List.NoDup (checkedItems d) /\ Forall (fun j => j < CHECKLIST_COUNT) (checkedItems d)).
  assert (H : forall es d, inv d -> inv (risk_steps requiredText d es)).
  { clear es. induction es as [|e es IH]; intros d Hd; [easy|]. cbn [risk_steps]. apply IH.
    destruct e; cbn [risk_step fst]; try easy.
    - destruct (Nat.ltb_spec i CHECKLIST_COUNT); [now apply toggle_items|easy].
    - case_goal; [split; constructor|easy].
    - split; constructor. }
  cbv zeta. destruct (H es fresh_risk) as [Hn Hf]; [split; constructor|].
  set (d := risk_steps requiredText fresh_risk es) in *. cbn. split.
  - destruct (canConfirm requiredText d) eqn:E; [|easy]. intros _. unfold canConfirm in E.
    apply andb_true_iff in E as [El%Nat.eqb_eq Et%seqb_eq]. split; [|easy]. intros i Hi.
    apply (List.NoDup_length_incl (l := checkedItems d) (l' := seq 0 CHECKLIST_COUNT)).
    + easy.
    + now rewrite length_seq, El.
    + intros j Hj. apply in_seq. pose proof (proj1 (List.Forall_forall _ _) Hf j Hj) as Hj'. cbn in Hj'. lia.
    + apply in_seq. lia.
  - now intros ->.
Qed.

(** ** Warnings and gestures *)

(** The sources that the drawer warns of are those that the save asks about, but for the ones
    that have no target. *)
Theorem guardrail_missing (text : jstr) (o : list (jstr * json)) (models : list jstr) (m : jstr) :
  trim text <> [] -> json_parse text = Some (JObj o) -> Forall name_clean models ->
  In m (missingSourceModels (modelMappingGuardrail (Some text) models))
  <-> In m (findMissingModelsInMapping text models)
      /\ exists k v, In (k, v) o /\ m = trim k
           /\ trim (shown_target v) <> [].
Proof.
  intros Ht E Hm. destruct (missing_models text o models Ht E) as [_ ->].
  unfold modelMappingGuardrail, blank_text. cbn [text_or str_or].
  replace (str_or text []) with text by now destruct text.
  apply truthy_iff in Ht as Ht'. rewrite Ht', E. cbn [negb missingSourceModels].
  rewrite uniq_In, filter_In, andb_true_iff, negb_true_iff, memb_not_In, truthy_iff.
  assert (Em : map trim models = models).
  { clear -Hm. induction Hm as [|x l (He & _) _ IH]; [easy|]. cbn. now rewrite IH, edges_trim. }
  rewrite Em. split.
  - intros [((s & t) & <- & ((k & v) & Hkv & Hg)%omap_In)%in_map_iff [Hne Hx]].
    unfold guardrail_entry in Hg. cbn [fst snd] in Hg.
    destruct (truthy (trim k)) eqn:Ek; [|discriminate]. cbn [negb orb] in Hg.
    destruct (truthy (trim (shown_target v))) eqn:Et; [|discriminate]. injection Hg as <- <-.
    apply truthy_iff in Et. split; [split; [easy|split; [now exists k, v|easy]]|].
    exists k, v. split; [easy|]. split; [easy|exact Et].
  - intros [(Hne & _ & Hx) (k & v & Hkv & -> & Hv)]. split; [|easy]. apply in_map_iff.
    eexists (trim k, _). split; [reflexivity|]. apply omap_In. exists (k, v). split; [easy|].
    unfold guardrail_entry. cbn [fst snd]. apply truthy_iff in Hne as ->. apply truthy_iff in Hv.
    now rewrite Hv.
Qed.

(** The hidden gesture unlocks at the required click and not before. *)
Theorem unlock_after (n k : nat) :
  unlocked (Nat.iter k (handleClick false n) reset_clicks) = (1 <=? k) && (n <=? k).
Proof.
  assert (H : (1 <= k /\ n <= k ->
      Nat.iter k (handleClick false n) reset_clicks = {| clickCount := 0; unlocked := true |})
    /\ (~ (1 <= k /\ n <= k) ->
      Nat.iter k (handleClick false n) reset_clicks = {| clickCount := k; unlocked := false |})).
  { induction k as [|k [IH1 IH2]]; [split; [lia|easy]|]. rewrite Nat.iter_succ.
    destruct (decide (1 <= k /\ n <= k)) as [Hk|Hk].
    - rewrite IH1 by easy. split; [easy|lia].
    - rewrite IH2 by easy. unfold handleClick. cbn [orb unlocked clickCount].
      destruct (Nat.leb_spec n (S k)); (split; [easy || lia|easy || lia]). }
  destruct (decide (1 <= k /\ n <= k)) as [Hk|Hk].
  - rewrite (proj1 H Hk). cbn [unlocked]. symmetry. apply andb_true_iff. now rewrite !Nat.leb_le.
  - rewrite (proj2 H Hk). cbn [unlocked]. symmetry. apply andb_false_iff. rewrite !Nat.leb_gt. lia.
Qed.
