(* ===== verification/FetchModels.v ===== *)
(** * The dialog of the models that a channel's provider lists

    [features/channels/components/dialogs/fetch-models-dialog.tsx]: alone, where it saves the
    models of a row, and in the drawer of a channel ([ChannelDrawer.v]), whose form it fills.
    The component stays mounted, so that its state outlives a dialog that was closed; each
    reading of the list ends when it wants, with the models of its time.

    [toLowerCase] is the one of the language, a parameter. *)

From S2P Require Import Prelude ModelMapping.
From stdpp Require Import options.

Definition normalizeModelNameList (models : list jstr) : list jstr :=
  uniq (List.filter truthy (map normalizeModelName models)).

(** What the dialog is given: a row, its models (or those of the form), the targets and the
    sources of its mapping, whether the form reads the list itself, and whether it takes the
    models that are chosen. *)
Record Props := {
  p_row : option Z;
  p_existing : list jstr;
  p_redirects : list jstr;
  p_sources : list jstr;
  p_custom : bool;
  p_filling : bool;
}.

Inductive Out := Filled (models : list jstr) | Updated (id : Z) (models : jstr).

Record State := {
  d_props : Props;
  d_open : bool;
  d_fetching : bool;
  d_saving : bool;
  d_fetched : list jstr;
  d_selected : list jstr;
  d_keyword : jstr;
  d_pending : list (list jstr);   (* readings under way: the models of their time *)
  d_out : list Out;
}.

Section Dialog.
Variable toLowerCase : jstr -> jstr.

(** * What is shown *)

Definition removedModels (s : State) : list jstr :=
  let kw := trim (toLowerCase (d_keyword s)) in
  let fetched := normalizeModelNameList (d_fetched s) in
  let sources := normalizeModelNameList (p_sources (d_props s)) in
  List.filter (fun model =>
    if memb model fetched then false
    else if memb model sources then false
    else if negb (truthy kw) then true
    else includes (toLowerCase model) kw) (normalizeModelNameList (d_selected s)).

Definition filteredModels (s : State) : list jstr :=
  if negb (truthy (d_keyword s)) then d_fetched s
  else List.filter (fun m => includes (toLowerCase m) (toLowerCase (d_keyword s))) (d_fetched s).

Definition isExistingModel (s : State) (model : jstr) : bool :=
  memb (normalizeModelName model)
    (classificationSet (categorizeModelsWithRedirect (p_existing (d_props s)) (p_redirects (d_props s)))).
Definition newModels (s : State) : list jstr :=
  List.filter (fun m => negb (isExistingModel s m)) (filteredModels s).
Definition existingFilteredModels (s : State) : list jstr :=
  List.filter (isExistingModel s) (filteredModels s).

Definition category_of (model : jstr) : jstr :=
  let has k := includes (toLowerCase model) k in
  if has "gpt" || has "o1" || has "o3" then "OpenAI"
  else if has "claude" then "Anthropic"
  else if has "gemini" then "Gemini"
  else if has "qwen" then "Qwen"
  else if has "deepseek" then "DeepSeek"
  else if has "glm" then "Zhipu"
  else if has "llama" then "Meta"
  else if has "mistral" then "Mistral"
  else "Other".

(** The object of the categories, in the order of their first models. *)
Fixpoint push_category (c m : jstr) (cs : list (jstr * list jstr)) : list (jstr * list jstr) :=
  match cs with
  | [] => [(c, [m])]
  | (c', ms) :: cs => if c' =s c then (c', ms ++ [m]) :: cs else (c', ms) :: push_category c m cs
  end.
Definition categorizeModels (models : list jstr) : list (jstr * list jstr) :=
  fold_left (fun cs m => push_category (category_of m) m cs) models [].

(** The names of the categories are Latin letters: their order is the alphabet's. *)
Definition category_le (a b : jstr * list jstr) : bool :=
  if fst a =s "Other" then fst b =s "Other"
  else if fst b =s "Other" then true
  else str_leb (toLower (fst a)) (toLower (fst b)).
Definition getSortedCategoryEntries (cs : list (jstr * list jstr)) : list (jstr * list jstr) :=
  stable_sort category_le cs.

Definition isCategorySelected (s : State) (categoryModels : list jstr) : bool :=
  forallb (fun m => memb m (d_selected s)) categoryModels.

(** * What is chosen *)

Definition toggleModel (model : jstr) (prev : list jstr) : list jstr :=
  if memb model prev then List.filter (fun m => negb (m =s model)) prev else prev ++ [model].
Definition push_new (selected : list jstr) (model : jstr) : list jstr :=
  if memb model selected then selected else selected ++ [model].
Definition toggleCategory (categoryModels : list jstr) (isChecked : bool) (prev : list jstr)
  : list jstr :=
  if isChecked then fold_left push_new categoryModels prev
  else List.filter (fun m => negb (memb m categoryModels)) prev.

(** * The steps *)

Definition with_selected (l : list jstr) (s : State) : State :=
  {| d_props := d_props s; d_open := d_open s; d_fetching := d_fetching s; d_saving := d_saving s;
     d_fetched := d_fetched s; d_selected := l; d_keyword := d_keyword s; d_pending := d_pending s;
     d_out := d_out s |}.
Definition with_keyword (k : jstr) (s : State) : State :=
  {| d_props := d_props s; d_open := d_open s; d_fetching := d_fetching s; d_saving := d_saving s;
     d_fetched := d_fetched s; d_selected := d_selected s; d_keyword := k; d_pending := d_pending s;
     d_out := d_out s |}.
Definition with_fetched (l : list jstr) (s : State) : State :=
  {| d_props := d_props s; d_open := d_open s; d_fetching := false; d_saving := d_saving s;
     d_fetched := l; d_selected := d_selected s; d_keyword := d_keyword s; d_pending := d_pending s;
     d_out := d_out s |}.
Definition with_pending (l : list (list jstr)) (fetching : bool) (s : State) : State :=
  {| d_props := d_props s; d_open := d_open s; d_fetching := fetching; d_saving := d_saving s;
     d_fetched := d_fetched s; d_selected := d_selected s; d_keyword := d_keyword s; d_pending := l;
     d_out := d_out s |}.
Definition with_open (p : Props) (b : bool) (s : State) : State :=
  {| d_props := p; d_open := b; d_fetching := d_fetching s; d_saving := d_saving s;
     d_fetched := d_fetched s; d_selected := d_selected s; d_keyword := d_keyword s;
     d_pending := d_pending s; d_out := d_out s |}.
Definition with_out (saving : bool) (o : Out) (s : State) : State :=
  {| d_props := d_props s; d_open := d_open s; d_fetching := d_fetching s; d_saving := saving;
     d_fetched := d_fetched s; d_selected := d_selected s; d_keyword := d_keyword s;
     d_pending := d_pending s; d_out := d_out s ++ [o] |}.
Definition saved (s : State) : State :=
  {| d_props := d_props s; d_open := d_open s; d_fetching := d_fetching s; d_saving := false;
     d_fetched := d_fetched s; d_selected := d_selected s; d_keyword := d_keyword s;
     d_pending := d_pending s; d_out := d_out s |}.

Definition can_fetch (p : Props) : bool := match p_row p with Some _ => true | None => p_custom p end.

Definition handleFetchModels (s : State) : State :=
  if can_fetch (d_props s)
  then with_pending (d_pending s ++ [p_existing (d_props s)]) true s
  else s.

(** The list arrives, or the reading fails. *)
Definition arrive (i : nat) (r : option (list jstr)) (s : State) : option State :=
  match d_pending s !! i with
  | None => None
  | Some existing =>
    let s := with_pending (delete i (d_pending s)) false s in
    Some (match r with
          | Some list => with_selected existing (with_fetched list s)
          | None => with_fetched [] s
          end)
  end.

Definition handleClose (s : State) : State :=
  {| d_props := d_props s; d_open := false; d_fetching := d_fetching s; d_saving := d_saving s;
     d_fetched := []; d_selected := []; d_keyword := []; d_pending := d_pending s;
     d_out := d_out s |}.

Definition handleSave (s : State) : State :=
  if p_filling (d_props s)
  then with_open (d_props s) false (with_out (d_saving s) (Filled (d_selected s)) s)
  else match p_row (d_props s) with
       | None => s
       | Some id => with_out true (Updated id (join "," (d_selected s))) s
       end.

(** The list with its buttons is there. *)
Definition listed (s : State) : bool :=
  d_open s && can_fetch (d_props s) && negb (d_fetching s)
  && negb ((length (d_fetched s) =? 0) && (length (removedModels s) =? 0)).
Inductive Event :=
| DOpen (p : Props)
| DProps (p : Props)
| DFetch
| DArrive (i : nat) (r : option (list jstr))
| DKeyword (k : jstr)
| DToggle (model : jstr)
| DCategory (models : list jstr) (isChecked : bool)
| DClose
| DSave
| DSaved (success : bool).

(** [None]: it cannot happen now.  The props of a closed dialog follow the page; those of an
    open one may follow the form, but not its row. *)
Definition step (s : State) (e : Event) : option State :=
  match e with
  | DOpen p => if d_open s then None else Some (handleFetchModels (with_open p true s))
  | DProps p => if d_open s && negb (bool_decide (p_row p = p_row (d_props s))) then None
                else Some (with_open p (d_open s) s)
  | DFetch => if d_open s && negb (d_fetching s) then Some (handleFetchModels s) else None
  | DArrive i r => arrive i r s
  | DKeyword k => if listed s then Some (with_keyword k s) else None
  | DToggle m =>
    if listed s && (memb m (filteredModels s) || memb m (removedModels s))
    then Some (with_selected (toggleModel m (d_selected s)) s) else None
  | DCategory ms b =>
    if listed s && forallb (fun m => memb m (filteredModels s) || memb m (removedModels s)) ms
    then Some (with_selected (toggleCategory ms b (d_selected s)) s) else None
  | DClose => if d_open s then Some (handleClose s) else None
  | DSave => if listed s && negb (d_saving s) then Some (handleSave s) else None
  | DSaved success =>
    if d_saving s then Some (if success then with_open (d_props s) false (saved s) else saved s)
    else None
  end.

Fixpoint steps (s : State) (es : list Event) : option State :=
  match es with
  | [] => Some s
  | e :: es => match step s e with Some s' => steps s' es | None => None end
  end.

Definition start (p : Props) : State :=
  {| d_props := p; d_open := false; d_fetching := false; d_saving := false; d_fetched := [];
     d_selected := []; d_keyword := []; d_pending := []; d_out := [] |}.

End Dialog.

(** * What is chosen is what was ticked *)

Lemma push_news_In ms prev m : In m (fold_left push_new ms prev) <-> In m prev \/ In m ms.
Proof.
  revert prev. induction ms as [|x ms IH]; intros prev; cbn [fold_left]; [cbn; tauto|].
  rewrite IH. unfold push_new. destruct (memb x prev) eqn:E.
  - apply memb_In in E. cbn. split; [tauto|]. intros [H|[->|H]]; auto.
  - rewrite in_app_iff. cbn. tauto.
Qed.

Lemma push_news_NoDup ms prev : List.NoDup prev -> List.NoDup (fold_left push_new ms prev).
Proof.
  revert prev. induction ms as [|x ms IH]; intros prev H; cbn [fold_left]; [easy|]. apply IH.
  unfold push_new. destruct (memb x prev) eqn:E; [easy|]. apply memb_not_In in E.
  apply NoDup_ListNoDup, NoDup_app. split_and!; [now apply NoDup_ListNoDup| |apply NoDup_singleton].
  intros y Hy ->%list_elem_of_singleton. now apply list_elem_of_In in Hy.
Qed.

Lemma push_news_prefix ms prev : exists l, fold_left push_new ms prev = prev ++ l.
Proof.
  revert prev. induction ms as [|x ms IH]; intros prev; cbn [fold_left]; [exists []; now rewrite app_nil_r|].
  unfold push_new at 2. destruct (memb x prev); [apply IH|].
  destruct (IH (prev ++ [x])) as [l ->]. exists (x :: l). now rewrite <- app_assoc.
Qed.

(** A category that is ticked is chosen whole behind what was chosen, and one that is unticked
    is gone with nothing else; each model stays chosen once, and the box of the category shows
    what was pressed. *)
Theorem toggle_category (s : State) (ms : list jstr) (b : bool) (m : jstr) :
  let s' := with_selected (toggleCategory ms b (d_selected s)) s in
  (In m (d_selected s') <-> if b then In m (d_selected s) \/ In m ms
                            else In m (d_selected s) /\ ~ In m ms)
  /\ (List.NoDup (d_selected s) -> List.NoDup (d_selected s'))
  /\ (b = true -> exists l, d_selected s' = d_selected s ++ l)
  /\ (ms <> [] -> isCategorySelected s' ms = b).
Proof.
  cbn. unfold toggleCategory. destruct b.
  - split; [apply push_news_In|]. split; [apply push_news_NoDup|]. split; [intros _; apply push_news_prefix|].
    intros _. unfold isCategorySelected. cbn. apply forallb_forall. intros x Hx.
    apply memb_In, push_news_In. now right.
  - rewrite filter_In, negb_true_iff, memb_not_In. split; [easy|].
    split; [apply List.NoDup_filter|]. split; [easy|]. intros Hne.
    destruct ms as [|x ms]; [easy|]. unfold isCategorySelected. cbn [forallb d_selected with_selected].
    apply andb_false_iff. left. apply memb_not_In. rewrite filter_In, negb_true_iff, memb_not_In.
    intros [_ H]. apply H. now left.
Qed.

(** Ticking a model twice changes nothing but its place. *)
Lemma toggle_model_twice (m : jstr) (l : list jstr) (x : jstr) :
  In x (toggleModel m (toggleModel m l)) <-> In x l.
Proof.
  assert (H : forall l, In x (toggleModel m l) <-> (x <> m /\ In x l) \/ (x = m /\ ~ In m l)).
  { clear l. intros l. unfold toggleModel. destruct (memb m l) eqn:E.
    - apply memb_In in E. rewrite filter_In, negb_true_iff, seqb_neq. intuition congruence.
    - apply memb_not_In in E. rewrite in_app_iff. cbn.
      destruct (seqb_spec x m) as [->|]; intuition congruence. }
  assert (Hm : In m (toggleModel m l) <-> ~ In m l).
  { unfold toggleModel. destruct (memb m l) eqn:E.
    - apply memb_In in E. rewrite filter_In, negb_true_iff, seqb_neq. intuition.
    - apply memb_not_In in E. rewrite in_app_iff. cbn. tauto. }
  rewrite H, H, Hm. assert (Hd : In m l \/ ~ In m l).
  { destruct (memb m l) eqn:E; [left; now apply memb_In|right; now apply memb_not_In]. }
  destruct (seqb_spec x m) as [->|]; tauto.
Qed.

(** ** Categories *)

Definition members (c : jstr) (cs : list (jstr * list jstr)) : list jstr :=
  concat (map snd (List.filter (fun e => fst e =s c) cs)).

Lemma push_category_spec c m cs c' :
  List.NoDup (map fst cs) ->
  List.NoDup (map fst (push_category c m cs))
  /\ (forall k, In k (map fst (push_category c m cs)) <-> k = c \/ In k (map fst cs))
  /\ members c' (push_category c m cs) = members c' cs ++ (if c =s c' then [m] else []).
Proof.
  unfold members. induction cs as [|[k ms] cs IH]; intros Hn.
  - cbn. split; [repeat constructor; easy|]. split; [intuition|]. now destruct (c =s c').
  - inversion Hn as [|? ? Hk Hn']; subst. cbn [push_category map fst].
    destruct (seqb_spec k c) as [->|Hne].
    + split; [now constructor|]. split; [intros x; cbn; intuition|].
      cbn [List.filter fst]. destruct (seqb_spec c c') as [->|]; cbn [map snd concat]; [|now rewrite app_nil_r].
      replace (List.filter _ cs) with (@nil (jstr * list jstr)); [cbn; now rewrite !app_nil_r|].
      symmetry. clear -Hk. induction cs as [|[k l] cs IH]; [easy|]. cbn in *.
      destruct (seqb_spec k c') as [->|]; [tauto|]. apply IH. tauto.
    + destruct (IH Hn') as (H1 & H2 & H3). split; [|split].
      * constructor; [|easy]. rewrite H2. intuition congruence.
      * intros x. cbn. rewrite H2. intuition.
      * cbn [List.filter fst]. destruct (k =s c'); cbn [map snd concat]; rewrite H3; [|easy].
        now rewrite app_assoc.
Qed.

Section Categories.
Variable toLowerCase : jstr -> jstr.

(** Each category holds the models of its name, all of them and in order, and there is one
    entry for it. *)
Theorem categories_partition (models : list jstr) (c : jstr) :
  List.NoDup (map fst (categorizeModels toLowerCase models))
  /\ members c (categorizeModels toLowerCase models) = List.filter (fun m => category_of toLowerCase m =s c) models
  /\ (In c (map fst (categorizeModels toLowerCase models)) <-> exists m, In m models /\ category_of toLowerCase m = c).
Proof.
  unfold categorizeModels.
  induction models as [|m models IH] using rev_ind.
  { cbn. split; [constructor|]. split; [easy|]. split; [easy|]. now intros (m & [] & _). }
  rewrite fold_left_app. cbn [fold_left]. destruct IH as (H1 & H2 & H3).
  destruct (push_category_spec (category_of toLowerCase m) m _ c H1) as (G1 & G2 & G3).
  split; [easy|]. split.
  - rewrite G3, H2, List.filter_app. cbn. now destruct (_ =s _).
  - rewrite G2, H3. split.
    + intros [->|(x & Hx & <-)]; eexists; rewrite in_app_iff; cbn; eauto.
    + intros (x & [Hx|[<-|[]]]%in_app_iff & E); eauto.
Qed.
End Categories.

(** * Saving *)

Section Saving.
Variable toLowerCase : jstr -> jstr.

Lemma listed_intro s :
  d_open s = true -> can_fetch (d_props s) = true -> d_fetching s = false ->
  d_fetched s <> [] \/ removedModels toLowerCase s <> [] -> listed toLowerCase s = true.
Proof.
  intros Ho Hc Hf H. unfold listed. rewrite Ho, Hc, Hf. cbn [negb andb].
  apply negb_true_iff, andb_false_iff. rewrite !Nat.eqb_neq.
  destruct H as [H|H]; [left|right]; intros E%length_zero_iff_nil; now apply H.
Qed.

(** The list that arrives changes nothing by itself: a dialog in which nothing is ticked saves
    the models that the row had when it was opened, and whatever the provider no longer lists
    is kept. *)
Theorem untouched_save (s : State) (p : Props) (id : Z) (list : list jstr) :
  d_open s = false -> d_pending s = [] -> d_saving s = false ->
  p_row p = Some id -> p_filling p = false -> list <> [] ->
  exists s', steps toLowerCase s [DOpen p; DArrive 0 (Some list); DSave] = Some s'
    /\ d_out s' = d_out s ++ [Updated id (join "," (p_existing p))].
Proof.
  intros Ho Hp Hs Hr Hf Hl. cbn [steps step]. rewrite Ho.
  unfold handleFetchModels at 1. cbn [d_props with_open]. unfold can_fetch. rewrite Hr.
  cbn [step]. unfold arrive. cbn [with_pending with_open d_pending]. rewrite Hp. cbn [app lookup list_lookup].
  cbn [step]. rewrite listed_intro; cbn; [|easy|now unfold can_fetch; rewrite Hr|easy|now left].
  rewrite Hs. cbn [negb]. unfold handleSave. cbn. rewrite Hf, Hr. eexists. now split.
Qed.

(** A save closes the dialog with what was chosen left in it.  If the list of the next row
    cannot be read, the models of the last one are shown as its own, and saving writes them to
    it. *)
Theorem leftover_saved (s : State) (p : Props) (id : Z) :
  toLowerCase [] = [] ->
  d_open s = true -> d_saving s = true -> d_pending s = [] ->
  p_row p = Some id -> p_filling p = false -> d_keyword s = [] ->
  (exists m, In m (normalizeModelNameList (d_selected s))
             /\ ~ In m (normalizeModelNameList (p_sources p))) ->
  exists s', steps toLowerCase s [DSaved true; DOpen p; DArrive 0 None; DSave] = Some s'
    /\ d_out s' = d_out s ++ [Updated id (join "," (d_selected s))].
Proof.
  intros Hlow Ho Hs Hp Hr Hf Hk (m & Hm & Hsrc). cbn [steps step]. rewrite Hs. cbn [step d_open with_open].
  unfold handleFetchModels at 1. cbn [d_props with_open]. unfold can_fetch. rewrite Hr.
  cbn [step]. unfold arrive. cbn [with_pending with_open saved d_pending]. rewrite Hp. cbn [app lookup list_lookup].
  cbn [step]. rewrite listed_intro; cbn; [|easy|now unfold can_fetch; rewrite Hr|easy|].
  - unfold handleSave. cbn. rewrite Hf, Hr. eexists. now split.
  - right. unfold removedModels. cbn. rewrite Hk, Hlow.
    destruct (List.filter _ _) as [|x l] eqn:E; [|easy]. exfalso.
    assert (Hin : In m []); [|easy]. rewrite <- E. apply filter_In. split; [easy|].
    now rewrite (proj2 (memb_not_In _ _) Hsrc).
Qed.
End Saving.

(** Row 1 is saved; the list of row 2 cannot be read. *)
Definition row_props (id : Z) (models : list jstr) : Props :=
  {| p_row := Some id; p_existing := models; p_redirects := []; p_sources := []; p_custom := false;
     p_filling := false |}.
Definition saving_first : State :=
  match steps toLower (start (row_props 1 ["a"; "b"]))
    [DOpen (row_props 1 ["a"; "b"]); DArrive 0 (Some ["a"; "b"; "c"] : option (list jstr)); DToggle "c"; DSave] with
  | Some s => s
  | None => start (row_props 1 [])
  end.

Lemma untouched_save_witness :
  exists s', steps toLower (start (row_props 1 ["a"; "gone"]))
      [DOpen (row_props 1 ["a"; "gone"]); DArrive 0 (Some ["a"; "c"] : option (list jstr)); DSave] = Some s'
    /\ d_out s' = [Updated 1 "a,gone"].
Proof. apply (untouched_save toLower (start (row_props 1 ["a"; "gone"])) (row_props 1 ["a"; "gone"]) 1 ["a"; "c"]); easy. Defined.

Lemma leftover_saved_witness :
  exists s', steps toLower saving_first [DSaved true; DOpen (row_props 2 ["x"]); DArrive 0 None; DSave] = Some s'
    /\ d_out s' = [Updated 1 "a,b,c"; Updated 2 "a,b,c"].
Proof.
  apply (leftover_saved toLower saving_first (row_props 2 ["x"]) 2); try easy.
  exists "a". split; [vm_compute; now left|vm_compute; easy].
Defined.

(** A list that was asked for one row and arrives when another one is open selects the models of
    the first, which are then saved to the second. *)
Example late_list_saved :
  option_map d_out (steps toLower (start (row_props 1 ["a"]))
    [DOpen (row_props 1 ["a"]); DClose; DOpen (row_props 2 ["x"]);
     DArrive 0 (Some ["a"; "b"] : option (list jstr)); DSave])
  = Some [Updated 2 "a"].
Proof. vm_compute. reflexivity. Qed.

(** In the drawer of an existing channel the dialog starts from the models that were saved, and
    fills the form with them: what was typed there is lost. *)
Definition drawer_props (id : Z) (saved : list jstr) : Props :=
  {| p_row := Some id; p_existing := saved; p_redirects := []; p_sources := []; p_custom := false;
     p_filling := true |}.
Example typed_models_lost :
  option_map (fun s => map (fun o => match o with Filled l => Some l | Updated _ _ => None end) (d_out s))
    (steps toLower (start (drawer_props 1 ["a"]))
       [DOpen (drawer_props 1 ["a"]); DArrive 0 (Some ["a"; "b"] : option (list jstr)); DSave])
  = Some [Some (["a"] : list jstr)].
Proof. vm_compute. reflexivity. Qed.
