(* ===== verification/Messages.v ===== *)
(** Model of [web/default/src/features/playground/lib/message-utils.ts] and
    [payload-builder.ts]: the messages of a playground session, the parser of
    [<think>] tags, the updates a streamed answer makes, the repair of stored
    messages and the request payload. *)

From S2P Require Import Prelude Number Json.
From stdpp Require Import options.

(** * Data *)

Inductive MessageRole := User | Assistant | System.
Inductive MessageStatus := Loading | Streaming | Complete | Failed | Cancelled.

#[export] Instance role_eq_dec : EqDecision MessageRole.
Proof. solve_decision. Defined.
#[export] Instance status_eq_dec : EqDecision MessageStatus.
Proof. solve_decision. Defined.

Record MessageVersion := { v_id : jstr; v_content : jstr }.
Record Reasoning := { r_content : jstr; r_duration : number }.

Record ToolCall := {
  tl_index : option nat;
  tl_id : option jstr;
  tl_type : option jstr;
  tl_name : option jstr;           (* [function?.name] *)
  tl_arguments : option jstr       (* [function?.arguments] *)
}.

(** [None] is an absent ([undefined]) field; [usage] and [sources] are carried as
    they are received.  The array of tool calls may have holes. *)
#[warnings="-register-all"]
Inductive Message := mkMessage {
  m_key : jstr;
  m_from : MessageRole;
  m_versions : list MessageVersion;
  m_sources : option json;
  m_reasoning : option Reasoning;
  m_isReasoningStreaming : option bool;
  m_isReasoningComplete : option bool;
  m_isContentComplete : option bool;
  m_status : option MessageStatus;
  m_errorCode : option jstr;
  m_model : option jstr;
  m_group : option jstr;
  m_requestId : option jstr;
  m_usage : option json;
  m_toolCalls : option (list (option ToolCall));
  m_attempts : option (list Message);
  m_errorMessage : option jstr
}.

Definition status_is (s : MessageStatus) (m : Message) : bool := bool_decide (m_status m = Some s).
Definition from_is (r : MessageRole) (m : Message) : bool := bool_decide (m_from m = r).

(** The object spreads [{ ...message, field: v }] of the sources. *)
Definition set_versions (vs : list MessageVersion) (m : Message) : Message :=
  mkMessage (m_key m) (m_from m) vs (m_sources m) (m_reasoning m) (m_isReasoningStreaming m)
    (m_isReasoningComplete m) (m_isContentComplete m) (m_status m) (m_errorCode m) (m_model m)
    (m_group m) (m_requestId m) (m_usage m) (m_toolCalls m) (m_attempts m) (m_errorMessage m).

Definition set_reasoning (r : option Reasoning) (streaming : bool) (m : Message) : Message :=
  mkMessage (m_key m) (m_from m) (m_versions m) (m_sources m) r (Some streaming)
    (m_isReasoningComplete m) (m_isContentComplete m) (m_status m) (m_errorCode m) (m_model m)
    (m_group m) (m_requestId m) (m_usage m) (m_toolCalls m) (m_attempts m) (m_errorMessage m).

Definition set_status (s : MessageStatus) (m : Message) : Message :=
  mkMessage (m_key m) (m_from m) (m_versions m) (m_sources m) (m_reasoning m)
    (m_isReasoningStreaming m) (m_isReasoningComplete m) (m_isContentComplete m) (Some s)
    (m_errorCode m) (m_model m) (m_group m) (m_requestId m) (m_usage m) (m_toolCalls m)
    (m_attempts m) (m_errorMessage m).

Definition set_error (errorMessage : jstr) (errorCode : option jstr) (m : Message) : Message :=
  mkMessage (m_key m) (m_from m) (m_versions m) (m_sources m) (m_reasoning m) (Some false)
    (m_isReasoningComplete m) (m_isContentComplete m) (Some Failed) errorCode (m_model m)
    (m_group m) (m_requestId m) (m_usage m) (m_toolCalls m) (m_attempts m) (Some errorMessage).

Definition set_metadata (requestId model : option jstr) (usage : option json)
    (toolCalls : option (list (option ToolCall))) (m : Message) : Message :=
  mkMessage (m_key m) (m_from m) (m_versions m) (m_sources m) (m_reasoning m)
    (m_isReasoningStreaming m) (m_isReasoningComplete m) (m_isContentComplete m) (m_status m)
    (m_errorCode m) model (m_group m) requestId usage toolCalls (m_attempts m)
    (m_errorMessage m).

Definition set_request (model group : jstr) (attempts : option (list Message)) (m : Message)
  : Message :=
  mkMessage (m_key m) (m_from m) (m_versions m) (m_sources m) (m_reasoning m)
    (m_isReasoningStreaming m) (m_isReasoningComplete m) (m_isContentComplete m) (m_status m)
    (m_errorCode m) (Some model) (Some group) (m_requestId m) (m_usage m) (m_toolCalls m) attempts
    (m_errorMessage m).

Definition set_request_attempts (attempts : option (list Message)) (m : Message) : Message :=
  mkMessage (m_key m) (m_from m) (m_versions m) (m_sources m) (m_reasoning m)
    (m_isReasoningStreaming m) (m_isReasoningComplete m) (m_isContentComplete m) (m_status m)
    (m_errorCode m) (m_model m) (m_group m) (m_requestId m) (m_usage m) (m_toolCalls m) attempts
    (m_errorMessage m).

(** * Versions *)

Definition getCurrentVersion (message : Message) : MessageVersion :=
  match m_versions message with
  | v :: _ => v
  | [] => {| v_id := "default"; v_content := [] |}
  end.

Definition content_of (message : Message) : jstr := v_content (getCurrentVersion message).

Definition updateCurrentVersionContent (message : Message) (content : jstr) : Message :=
  set_versions [ {| v_id := v_id (getCurrentVersion message); v_content := content |} ] message.

(** [nanoid()] answers the [n]-th identifier; the count is threaded. *)
Section Create.
Context (nanoid : nat -> jstr).

Definition blank_message (key : jstr) (from : MessageRole) (vs : list MessageVersion) : Message :=
  mkMessage key from vs None None None None None None None None None None None None None None.

Definition createMessageVersion (content : jstr) (n : nat) : MessageVersion * nat :=
  ({| v_id := nanoid n; v_content := content |}, S n).

Definition createUserMessage (content : jstr) (n : nat) : Message * nat :=
  let key := nanoid n in
  let '(v, n) := createMessageVersion content (S n) in
  (blank_message key User [v], n).

Definition createLoadingAssistantMessage (n : nat) : Message * nat :=
  let key := nanoid n in
  let '(v, n) := createMessageVersion [] (S n) in
  (mkMessage key Assistant [v] None None (Some false) (Some false) (Some false) (Some Loading)
     None None None None None None None None, n).
End Create.

(** * Message content *)

Inductive ContentPart := TextPart (text : jstr) | ImagePart (url : jstr).
Inductive Content := ContentText (s : jstr) | ContentParts (l : list ContentPart).

Definition buildMessageContent (text : jstr) (imageUrls : list jstr) : Content :=
  match List.filter (fun url => truthy (trim url)) imageUrls with
  | [] => ContentText text
  | validImages => ContentParts (TextPart text :: map (fun url => ImagePart (trim url)) validImages)
  end.

Definition getTextContent (content : Content) : jstr :=
  match content with
  | ContentText s => s
  | ContentParts l =>
    match List.find (fun p => match p with TextPart _ => true | ImagePart _ => false end) l with
    | Some (TextPart t) => t
    | _ => []
    end
  end.

(** * Think tags *)

Definition open_tag : jstr := "<think>".
Definition close_tag : jstr := "</think>".

Record Parsed := { visibleContent : jstr; reasoningText : jstr; hasUnclosedTag : bool }.

(** The [while (true)] loop: [rest] is [content.substring(currentPos)], [None] an
    exhausted fuel. *)
Fixpoint think_loop (fuel : nat) (rest : jstr) (visibleParts reasoningParts : list jstr)
  : option (list jstr * list jstr * bool) :=
  match fuel with
  | 0 => None
  | S f =>
    match indexOf open_tag rest with
    | None =>
      Some (if truthy rest then visibleParts ++ [rest] else visibleParts, reasoningParts, false)
    | Some openPos =>
      let visibleParts :=
        if 0 <? openPos then visibleParts ++ [take openPos rest] else visibleParts in
      let after := drop (openPos + 7) rest in
      match indexOf close_tag after with
      | None => Some (visibleParts, reasoningParts ++ [after], true)
      | Some closePos =>
        think_loop f (drop (closePos + 8) after) visibleParts
          (reasoningParts ++ [take closePos after])
      end
    end
  end.

Definition parseThinkTags (content : jstr) : Parsed :=
  if negb (includes content open_tag) then
    {| visibleContent := content; reasoningText := []; hasUnclosedTag := false |}
  else
    match think_loop (S (length content)) content [] [] with
    | Some (visibleParts, reasoningParts, unclosed) =>
      {| visibleContent := trim (join [] visibleParts);
         reasoningText := trim (join [10%N; 10%N] reasoningParts);
         hasUnclosedTag := unclosed |}
    | None => {| visibleContent := []; reasoningText := []; hasUnclosedTag := false |}
    end.

(** * Updates of the last message *)

Definition updateLastAssistantMessage (messages : list Message) (updater : Message -> Message)
  : list Message :=
  match rev messages with
  | last :: before =>
    if from_is Assistant last then rev before ++ [updater last] else messages
  | [] => messages
  end.

Definition updateAssistantMessageWithError (messages : list Message) (errorMessage : jstr)
    (errorCode : option jstr) : list Message :=
  updateLastAssistantMessage messages
    (set_error errorMessage
       (match errorCode with Some c => if truthy c then Some c else None | None => None end)).

Definition reasoning_text (m : Message) : jstr :=
  match m_reasoning m with Some r => r_content r | None => [] end.

Definition processStreamingContent (message : Message) (contentChunk : jstr) : Message :=
  let fullContent :=
    if truthy contentChunk then content_of message ++ contentChunk else content_of message in
  let parsed := parseThinkTags fullContent in
  let finalReasoning :=
    if truthy (reasoningText parsed)
    then Some {| r_content := reasoningText parsed; r_duration := zero |}
    else m_reasoning message in
  set_reasoning finalReasoning (hasUnclosedTag parsed)
    (updateCurrentVersionContent message fullContent).

(** [None] and an empty text of the answer are both falsy. *)
Definition finalizeMessage (message : Message) (apiReasoningContent : option jstr) : Message :=
  let parsed := parseThinkTags (content_of message) in
  let api := match apiReasoningContent with Some s => s | None => [] end in
  let finalReasoning := str_or api (str_or (reasoning_text message) (reasoningText parsed)) in
  let duration := match m_reasoning message with
                  | Some r => num_or (r_duration r) zero
                  | None => zero
                  end in
  set_reasoning
    (if truthy finalReasoning
     then Some {| r_content := finalReasoning; r_duration := duration |} else None)
    false (updateCurrentVersionContent message (visibleContent parsed)).

(** * Stored messages *)

Definition live (m : Message) : bool :=
  from_is Assistant m && (status_is Loading m || status_is Streaming m).

(** The downward [for] loop: the last index whose message is live. *)
Definition last_live (messages : list Message) : option nat :=
  match findIndex live (rev messages) with
  | Some i => Some (length messages - 1 - i)
  | None => None
  end.

Definition interrupted_text : jstr := "Request error occurred: Generation was interrupted".

Definition sanitize_message (message : Message) : Message :=
  let finalized := finalizeMessage message None in
  if truthy (trim (content_of finalized)) || truthy (trim (reasoning_text finalized))
  then set_reasoning (m_reasoning finalized) false (set_status Cancelled finalized)
  else set_reasoning (m_reasoning finalized) false
         (set_status Failed (updateCurrentVersionContent finalized interrupted_text)).

Definition sanitizeMessagesOnLoad (messages : list Message) : list Message :=
  match last_live messages with
  | None => messages
  | Some targetIndex =>
    match messages !! targetIndex with
    | Some m => <[targetIndex := sanitize_message m]> messages
    | None => messages
    end
  end.

(** * The request *)

Definition role_text (r : MessageRole) : jstr :=
  match r with User => "user" | Assistant => "assistant" | System => "system" end.

Definition isValidMessage (message : Message) : bool :=
  match m_versions message with
  | [] => false
  | v :: _ =>
    if from_is Assistant message && status_is Failed message then false
    else negb (from_is Assistant message && negb (truthy (trim (v_content v))))
  end.

Record ChatMessage := { role : MessageRole; content : jstr }.

Definition formatMessageForAPI (message : Message) : ChatMessage :=
  {| role := m_from message; content := content_of message |}.

Definition chat_json (m : ChatMessage) : json :=
  JObj [("role", JStr (role_text (role m))); ("content", JStr (content m))].

Record PlaygroundConfig := {
  pg_model : jstr;
  pg_group : jstr;
  pg_temperature : number;
  pg_top_p : number;
  pg_max_tokens : number;
  pg_frequency_penalty : number;
  pg_presence_penalty : number;
  pg_seed : option number;
  pg_stream : bool;
  pg_systemPrompt : option jstr
}.

Record ParameterEnabled := {
  on_temperature : bool;
  on_top_p : bool;
  on_max_tokens : bool;
  on_frequency_penalty : bool;
  on_presence_penalty : bool;
  on_seed : bool
}.

Definition processed_messages (messages : list Message) (config : PlaygroundConfig)
  : list ChatMessage :=
  let processed := map formatMessageForAPI (List.filter isValidMessage messages) in
  match pg_systemPrompt config with
  | Some p => if truthy (trim p) then {| role := System; content := p |} :: processed
              else processed
  | None => processed
  end.

(** The parameters in the order of [parameterKeys], with their switches. *)
Definition parameters (config : PlaygroundConfig) (enabled : ParameterEnabled)
  : list (jstr * (bool * option number)) :=
  [ ("temperature", (on_temperature enabled, Some (pg_temperature config)));
    ("top_p", (on_top_p enabled, Some (pg_top_p config)));
    ("max_tokens", (on_max_tokens enabled, Some (pg_max_tokens config)));
    ("frequency_penalty", (on_frequency_penalty enabled, Some (pg_frequency_penalty config)));
    ("presence_penalty", (on_presence_penalty enabled, Some (pg_presence_penalty config)));
    ("seed", (on_seed enabled, pg_seed config)) ].

Definition parameter_fields (config : PlaygroundConfig) (enabled : ParameterEnabled)
  : list (jstr * json) :=
  omap (fun kv => match snd kv with
                  | (true, Some v) => Some (fst kv, JNum v)
                  | _ => None
                  end) (parameters config enabled).

Definition buildChatCompletionPayload (messages : list Message) (config : PlaygroundConfig)
    (enabled : ParameterEnabled) : list (jstr * json) :=
  [ ("model", JStr (pg_model config)); ("group", JStr (pg_group config));
    ("messages", JArr (map chat_json (processed_messages messages config)));
    ("stream", JBool (pg_stream config)) ]
  ++ (if pg_stream config then [("stream_options", JObj [("include_usage", JBool true)])] else [])
  ++ parameter_fields config enabled.

(** * Theorems *)

(** ** The grammar of the tags *)

(** A content as the parser reads it: visible text and thoughts in turn, the last
    thought possibly without its closing tag. *)
Inductive thinking :=
| ThinkEnd (v : jstr)
| ThinkOpen (v r : jstr)
| ThinkBlock (v r : jstr) (rest : thinking).

Fixpoint written (t : thinking) : jstr :=
  match t with
  | ThinkEnd v => v
  | ThinkOpen v r => v ++ open_tag ++ r
  | ThinkBlock v r rest => v ++ open_tag ++ r ++ close_tag ++ written rest
  end.

(** Visible text opens no tag and a thought closes none. *)
Fixpoint well_tagged (t : thinking) : Prop :=
  match t with
  | ThinkEnd v => indexOf open_tag v = None
  | ThinkOpen v r => indexOf open_tag v = None /\ indexOf close_tag r = None
  | ThinkBlock v r rest =>
    indexOf open_tag v = None /\ indexOf close_tag r = None /\ well_tagged rest
  end.

Definition some_text (v : jstr) : list jstr := if truthy v then [v] else [].

Fixpoint visible_parts (t : thinking) : list jstr :=
  match t with
  | ThinkEnd v | ThinkOpen v _ => some_text v
  | ThinkBlock v _ rest => some_text v ++ visible_parts rest
  end.

Fixpoint thoughts (t : thinking) : list jstr :=
  match t with
  | ThinkEnd _ => []
  | ThinkOpen _ r => [r]
  | ThinkBlock _ r rest => r :: thoughts rest
  end.

Fixpoint unclosed (t : thinking) : bool :=
  match t with ThinkEnd _ => false | ThinkOpen _ _ => true | ThinkBlock _ _ rest => unclosed rest end.

(** What the parser answers for a content read as [t]. *)
Definition parsed_of (t : thinking) : Parsed :=
  match t with
  | ThinkEnd v => {| visibleContent := v; reasoningText := []; hasUnclosedTag := false |}
  | _ => {| visibleContent := trim (join [] (visible_parts t));
            reasoningText := trim (join [10%N; 10%N] (thoughts t));
            hasUnclosedTag := unclosed t |}
  end.

Lemma open_tag_first v s :
  indexOf open_tag v = None -> indexOf open_tag (v ++ open_tag ++ s) = Some (length v).
Proof. intros H. apply indexOf_app_first; [|exact H]. cbn. intuition congruence. Qed.

Lemma close_tag_first r s :
  indexOf close_tag r = None -> indexOf close_tag (r ++ close_tag ++ s) = Some (length r).
Proof. intros H. apply indexOf_app_first; [|exact H]. cbn. intuition congruence. Qed.

(** Cut a text at a tag that was found in it. *)
Lemma cut_tag p s i :
  p <> [] -> indexOf p s = Some i ->
  exists v, length v = i /\ s = v ++ p ++ drop (i + length p) s /\ indexOf p v = None.
Proof.
  intros Hp H. pose proof (indexOf_Some _ _ _ H) as E.
  pose proof (indexOf_bound _ _ _ H) as Hl.
  exists (take i s). split; [rewrite length_take; lia|]. split; [exact E|].
  destruct (indexOf p (take i s)) as [j|] eqn:Ej; [|easy]. exfalso.
  pose proof (indexOf_Some _ _ _ Ej) as Ej'.
  pose proof (indexOf_bound _ _ _ Ej) as Hj. rewrite length_take in Hj.
  destruct (decide (j < i)) as [Hlt|].
  - pose proof (indexOf_first _ _ _ H j Hlt) as F. enough (startsWith (drop j s) p = true) by congruence. apply startsWith_true.
    exists (drop (j + length p) (take i s) ++ p ++ drop (i + length p) s).
    rewrite E at 1. rewrite Ej' at 1. rewrite <- !app_assoc.
    apply drop_app_length'. rewrite !length_take. lia.
  - destruct p; [easy|cbn [length] in Hj; lia].
Qed.

(** Every content has one reading. *)
Lemma reading_exists content : exists t, well_tagged t /\ written t = content.
Proof.
  induction content as [content IH] using (well_founded_ind (well_founded_ltof _ (@length N))).
  destruct (indexOf open_tag content) as [i|] eqn:E; [|now exists (ThinkEnd content)].
  destruct (cut_tag open_tag _ _ ltac:(easy) E) as (v & Hi & Hs & Hv). revert Hs.
  set (after := drop (i + length open_tag) content). intros Hs.
  destruct (indexOf close_tag after) as [j|] eqn:E2.
  - destruct (cut_tag close_tag _ _ ltac:(easy) E2) as (r & Hj & Hr & Hn).
    destruct (IH (drop (j + length close_tag) after)) as (t & Ht & Hw).
    { unfold ltof. apply (f_equal length) in Hs, Hr. rewrite !length_app in Hs, Hr.
      cbn [length open_tag close_tag] in Hs, Hr |- *. rewrite length_drop. lia. }
    exists (ThinkBlock v r t). split; [easy|]. cbn [written]. now rewrite Hw, <- Hr, <- Hs.
  - exists (ThinkOpen v after). split; [easy|]. cbn [written]. now rewrite <- Hs.
Qed.

Lemma after_open v s : drop (length v + 7) (v ++ open_tag ++ s) = s.
Proof. rewrite app_assoc. apply drop_app_length'. rewrite length_app. cbn. lia. Qed.

Lemma after_close r s : drop (length r + 8) (r ++ close_tag ++ s) = s.
Proof. rewrite app_assoc. apply drop_app_length'. rewrite length_app. cbn. lia. Qed.

Lemma some_pushed V v : (if 0 <? length v then V ++ [v] else V) = V ++ some_text v.
Proof. destruct v; cbn; [now rewrite app_nil_r|easy]. Qed.

Lemma think_loop_written t f visibleParts reasoningParts :
  well_tagged t -> length (written t) < f ->
  think_loop f (written t) visibleParts reasoningParts =
    Some (visibleParts ++ visible_parts t, reasoningParts ++ thoughts t, unclosed t).
Proof.
  revert f visibleParts reasoningParts.
  induction t as [v|v r|v r t IH]; intros [|f] V R Ht Hf; try lia; cbn [think_loop written].
  - cbn in Ht. rewrite Ht, app_nil_r. cbn. unfold some_text.
    destruct (truthy v); [easy|now rewrite app_nil_r].
  - destruct Ht as [Hv Hr]. rewrite open_tag_first by easy. rewrite after_open, take_app_length, Hr.
    now rewrite some_pushed.
  - destruct Ht as (Hv & Hr & Ht). rewrite open_tag_first by easy.
    rewrite after_open, take_app_length, close_tag_first by easy.
    rewrite after_close, take_app_length, IH; [|easy|].
    + cbn [visible_parts thoughts unclosed]. now rewrite some_pushed, <- !app_assoc.
    + cbn [written] in Hf. rewrite !length_app in Hf. cbn in Hf |- *. lia.
Qed.

(** The [while (true)] loop of [parseThinkTags] ends on every content, after at
    most one round more than the content has units, and its answer does not depend on
    how many rounds are granted beyond that. *)
Theorem think_loop_ends content f :
  length content < f ->
  exists r, think_loop f content [] [] = Some r /\ think_loop (S (length content)) content [] [] = Some r.
Proof.
  intros Hf. destruct (reading_exists content) as (t & Ht & <-).
  eexists. now rewrite !think_loop_written by (easy || lia).
Qed.

Lemma parse_written t : well_tagged t -> parseThinkTags (written t) = parsed_of t.
Proof.
  intros Ht. unfold parseThinkTags, includes. destruct t as [v|v r|v r t].
  - cbn in Ht |- *. now rewrite Ht.
  - rewrite think_loop_written by (easy || lia). cbn [written]. destruct Ht as [Hv _].
    now rewrite open_tag_first.
  - rewrite think_loop_written by (easy || lia). cbn [written]. destruct Ht as [Hv _].
    now rewrite open_tag_first.
Qed.

Lemma reading_unique t t' :
  well_tagged t -> well_tagged t' -> written t = written t' -> t = t'.
Proof.
  assert (Hopen : forall v v' s s', indexOf open_tag v = None -> indexOf open_tag v' = None ->
            v ++ open_tag ++ s = v' ++ open_tag ++ s' -> v = v' /\ s = s').
  { intros v v' s s' Hv Hv' E. apply app_inj_1 in E as [-> E]; [now apply app_inv_head in E|].
    apply (open_tag_first v s) in Hv. apply (open_tag_first v' s') in Hv'. rewrite E in Hv. congruence. }
  assert (Hclose : forall r r' s s', indexOf close_tag r = None -> indexOf close_tag r' = None ->
            r ++ close_tag ++ s = r' ++ close_tag ++ s' -> r = r' /\ s = s').
  { intros r r' s s' Hr Hr' E. apply app_inj_1 in E as [-> E]; [now apply app_inv_head in E|].
    apply (close_tag_first r s) in Hr. apply (close_tag_first r' s') in Hr'. rewrite E in Hr. congruence. }
  revert t'; induction t as [v|v r|v r t IH]; intros [v'|v' r'|v' r' t']; cbn [written well_tagged];
    intros Ht Ht' E.
  - congruence.
  - destruct Ht' as [Hv' _]. apply (open_tag_first _ r') in Hv'. congruence.
  - destruct Ht' as [Hv' _]. subst v. rewrite open_tag_first in Ht by easy. congruence.
  - destruct Ht as [Hv _]. subst v'. rewrite open_tag_first in Ht' by easy. congruence.
  - apply Hopen in E as [-> ->]; easy.
  - apply Hopen in E as [-> E]; [|easy..]. destruct Ht as [_ Hr]. subst r.
    rewrite close_tag_first in Hr by easy. congruence.
  - destruct Ht as [Hv _]. subst v'. rewrite open_tag_first in Ht' by easy. congruence.
  - apply Hopen in E as [-> E]; [|easy..]. destruct Ht' as [_ Hr]. subst r'.
    rewrite close_tag_first in Hr by easy. congruence.
  - apply Hopen in E as [-> E]; [|easy..]. apply Hclose in E as [-> E]; [|easy..].
    f_equal. now apply IH.
Qed.

(** C19: [parseThinkTags] is the parser of the grammar of tagged texts: every content
    has exactly one reading as visible text and thoughts, and the answer is made of
    the parts of that reading. *)
Theorem think_grammar :
  (forall content, exists t, well_tagged t /\ written t = content) /\
  (forall t t', well_tagged t -> well_tagged t' -> written t = written t' -> t = t') /\
  (forall t, well_tagged t -> parseThinkTags (written t) = parsed_of t).
Proof. split; [exact reading_exists|]. split; [exact reading_unique|exact parse_written]. Qed.

(** ** Streaming *)

(** The chunks of a streamed answer, one after the other. *)
Definition stream_chunks (message : Message) (chunks : list jstr) : Message :=
  fold_left processStreamingContent chunks message.

Lemma content_of_reasoning R b m : content_of (set_reasoning R b m) = content_of m.
Proof. reflexivity. Qed.

Lemma content_of_update m s : content_of (updateCurrentVersionContent m s) = s.
Proof. reflexivity. Qed.

Lemma process_full message c :
  processStreamingContent message c =
    let full := content_of message ++ c in
    let parsed := parseThinkTags full in
    set_reasoning
      (if truthy (reasoningText parsed)
       then Some {| r_content := reasoningText parsed; r_duration := zero |}
       else m_reasoning message)
      (hasUnclosedTag parsed) (updateCurrentVersionContent message full).
Proof.
  unfold processStreamingContent. destruct c as [|x c]; [|easy]. cbn. now rewrite app_nil_r.
Qed.

Lemma content_process message c :
  content_of (processStreamingContent message c) = content_of message ++ c.
Proof. rewrite process_full. reflexivity. Qed.

Lemma content_stream message chunks :
  content_of (stream_chunks message chunks) = content_of message ++ List.concat chunks.
Proof.
  revert message; induction chunks as [|c cs IH]; intros m; cbn [stream_chunks fold_left List.concat].
  - now rewrite app_nil_r.
  - unfold stream_chunks in IH. now rewrite IH, content_process, app_assoc.
Qed.

Lemma untagged_reasoning s : indexOf open_tag s = None -> reasoningText (parseThinkTags s) = [].
Proof. intros H. exact (f_equal reasoningText (parse_written (ThinkEnd s) H)). Qed.

Lemma indexOf_prefix p a b : indexOf p (a ++ b) = None -> indexOf p a = None.
Proof.
  intros H. destruct (indexOf p a) as [i|] eqn:E; [|easy]. exfalso.
  pose proof (indexOf_None _ _ H i) as F. rewrite (indexOf_Some _ _ _ E), <- !app_assoc in F.
  rewrite drop_app_length' in F; [now rewrite startsWith_app in F|].
  apply indexOf_bound in E. rewrite length_take. lia.
Qed.

(** A streamed message holds the whole text; its reasoning is that of the whole text
    if there is any, and what the message had before when no tag was opened. *)
Lemma stream_shape message chunks :
  chunks <> [] ->
  let full := content_of message ++ List.concat chunks in
  exists R,
    stream_chunks message chunks =
      set_reasoning R (hasUnclosedTag (parseThinkTags full)) (updateCurrentVersionContent message full)
    /\ (truthy (reasoningText (parseThinkTags full)) = true ->
        R = Some {| r_content := reasoningText (parseThinkTags full); r_duration := zero |})
    /\ (indexOf open_tag full = None -> R = m_reasoning message).
Proof.
  induction chunks as [|c cs IH] using rev_ind; [easy|]. intros _. cbv zeta.
  unfold stream_chunks. rewrite fold_left_app, concat_app. cbn [fold_left List.concat].
  rewrite app_nil_r, process_full. fold (stream_chunks message cs).
  rewrite content_stream, <- app_assoc. cbv zeta.
  set (full := content_of message ++ List.concat cs ++ c).
  eexists. split; [|split].
  - destruct cs as [|c0 cs].
    + reflexivity.
    + destruct (IH ltac:(easy)) as (R & -> & _). reflexivity.
  - now intros ->.
  - intros Hn. rewrite (untagged_reasoning _ Hn). cbn [truthy].
    destruct cs as [|c0 cs]; [reflexivity|]. destruct (IH ltac:(easy)) as (R & -> & _ & HR).
    apply HR. subst full. rewrite app_assoc in Hn. now apply indexOf_prefix in Hn.
Qed.

(** A streamed answer is shown as if it had come in one piece, however it is cut
    into chunks: the message after the last chunk is the one that processing their
    concatenation gives, provided the whole text has some reasoning or opens no tag
    at all. *)
Theorem stream_batch message chunks :
  let full := content_of message ++ List.concat chunks in
  chunks <> [] ->
  reasoningText (parseThinkTags full) <> [] \/ includes full open_tag = false ->
  stream_chunks message chunks = processStreamingContent message (List.concat chunks).
Proof.
  intros full Hc H. destruct (stream_shape message chunks Hc) as (R & -> & HS & HR).
  fold full in HS, HR |- *. rewrite process_full. cbv zeta. fold full.
  destruct (truthy (reasoningText (parseThinkTags full))) eqn:E; [now rewrite HS|].
  destruct H as [H|H]; [now apply truthy_iff in H; congruence|].
  rewrite HR; [easy|]. unfold includes in H. now destruct (indexOf open_tag full).
Qed.

Lemma stream_batch_witness :
  exists m chunks, List.concat chunks = "<think>a</think>b"
    /\ stream_chunks m chunks = processStreamingContent m (List.concat chunks).
Proof.
  exists (blank_message [] Assistant []), ["<thi"; "nk>a</th"; "ink>b"%js]. split; [reflexivity|].
  apply stream_batch; [easy|]. left. vm_compute. discriminate.
Defined.

(** An answer whose thought is blank, as models send it when thinking is off, is
    shown with a piece of the closing tag as its reasoning when a chunk ends inside
    the closing tag; received in one piece it has no reasoning. *)
Theorem closing_tag_shown message body :
  content_of message = [] -> m_reasoning message = None -> indexOf open_tag body = None ->
  let whole := open_tag ++ [10%N; 10%N] ++ close_tag ++ body in
  let chunks := [open_tag ++ [10%N; 10%N] ++ "</think"; ">" ++ body] in
  List.concat chunks = whole /\
  reasoning_text (finalizeMessage (stream_chunks message chunks) None) = "</think" /\
  m_reasoning (finalizeMessage (processStreamingContent message whole) None) = None.
Proof.
  intros Hc Hr Hb whole chunks.
  assert (Hw : parseThinkTags whole = parsed_of (ThinkBlock [] [10%N; 10%N] (ThinkEnd body)))
    by (apply (parse_written (ThinkBlock [] [10%N; 10%N] (ThinkEnd body))); easy).
  split; [|split].
  - cbn. now rewrite app_nil_r.
  - assert (Hj : content_of message ++ List.concat chunks = whole)
      by (rewrite Hc; cbn; now rewrite app_nil_r).
    unfold stream_chunks, chunks. cbn [fold_left].
    rewrite (process_full message), Hc, process_full, content_of_reasoning. cbv zeta.
    change ([] ++ ?x) with x. rewrite content_of_update.
    replace ((open_tag ++ [10%N; 10%N] ++ "</think") ++ ">" ++ body) with whole by reflexivity.
    rewrite Hw. reflexivity.
  - rewrite process_full, Hc. cbv zeta. cbn [app]. rewrite Hw. unfold finalizeMessage.
    rewrite content_of_reasoning, content_of_update, Hw. cbn. now rewrite Hr.
Qed.

Lemma closing_tag_shown_witness :
  content_of (blank_message [] Assistant []) = [] /\
  reasoning_text (finalizeMessage (stream_chunks (blank_message [] Assistant [])
    [open_tag ++ [10%N; 10%N] ++ "</think"; ">" ++ "Hello"]) None) = "</think".
Proof.
  split; [reflexivity|]. now apply (closing_tag_shown (blank_message [] Assistant []) "Hello").
Defined.

(** ** Stored messages *)

Lemma forallb_rev {A} (f : A -> bool) l : forallb f (rev l) = forallb f l.
Proof.
  induction l as [|x l IH]; [easy|]. cbn. rewrite forallb_app, IH. cbn.
  now rewrite andb_true_r, andb_comm.
Qed.

Definition none_live (messages : list Message) : bool := forallb (fun m => negb (live m)) messages.

Lemma last_live_spec messages :
  match last_live messages with
  | Some i => exists before m after, messages = before ++ m :: after /\ length before = i
              /\ live m = true /\ none_live after = true
  | None => none_live messages = true
  end.
Proof.
  unfold last_live, none_live. pose proof (findIndex_spec live (rev messages)) as H.
  destruct (findIndex live (rev messages)) as [i|].
  - destruct H as (pre & m & post & E & <- & Hm & Hp). exists (rev post), m, (rev pre).
    assert (Em : messages = rev post ++ m :: rev pre).
    { rewrite <- (rev_involutive messages), E, rev_app_distr. cbn. now rewrite <- app_assoc. }
    split; [easy|]. split.
    + apply (f_equal length) in Em. rewrite length_app in Em. cbn in Em.
      pose proof (length_rev post). pose proof (length_rev pre). lia.
    + split; [easy|]. now rewrite forallb_rev.
  - now rewrite forallb_rev in H.
Qed.

Lemma last_live_at before m after :
  live m = true -> none_live after = true ->
  last_live (before ++ m :: after) = Some (length before).
Proof.
  intros Hm Ha. pose proof (last_live_spec (before ++ m :: after)) as H.
  destruct (last_live _) as [i|].
  - destruct H as (b & m' & a & E & <- & Hm' & Ha'). do 2 f_equal.
    assert (Hin : forall x l, live x = true -> In x l -> none_live l = true -> False).
    { intros x l Hx Hl Hn. unfold none_live in Hn. rewrite forallb_forall in Hn.
      specialize (Hn x Hl). now rewrite Hx in Hn. }
    apply app_eq_inv in E as [(k & -> & E)|(k & -> & E)]; destruct k as [|y k].
    + now rewrite app_nil_r.
    + injection E as -> ->. exfalso. apply (Hin m (k ++ m :: after)); [easy| |easy].
      apply in_app_iff. right. now left.
    + now rewrite app_nil_r.
    + injection E as -> ->. exfalso. apply (Hin m' (k ++ m' :: a)); [easy| |easy].
      apply in_app_iff. right. now left.
  - unfold none_live in H. rewrite forallb_app in H. cbn in H. rewrite Hm in H.
    now rewrite andb_false_r in H.
Qed.

Lemma live_status s m : live (set_status s m) = true -> s = Loading \/ s = Streaming.
Proof.
  unfold live, status_is. cbn. intros H. apply andb_true_iff in H as [_ H].
  apply orb_true_iff in H as [H|H]; apply bool_decide_eq_true in H; injection H as ->; auto.
Qed.

Lemma sanitize_not_live m : live (sanitize_message m) = false.
Proof.
  apply not_true_is_false. unfold sanitize_message.
  destruct (_ || _); unfold live, status_is; cbn; rewrite !bool_decide_eq_false_2 by easy;
    cbn; now rewrite andb_false_r.
Qed.

Lemma sanitize_at before m after :
  live m = true -> none_live after = true ->
  sanitizeMessagesOnLoad (before ++ m :: after) = before ++ sanitize_message m :: after.
Proof.
  intros Hm Ha. unfold sanitizeMessagesOnLoad. rewrite (last_live_at _ _ _ Hm Ha).
  rewrite list_lookup_middle by easy. now rewrite insert_app_r_alt, Nat.sub_diag by lia.
Qed.

Lemma sanitize_none messages : none_live messages = true -> sanitizeMessagesOnLoad messages = messages.
Proof.
  intros H. unfold sanitizeMessagesOnLoad. pose proof (last_live_spec messages) as S.
  destruct (last_live messages) as [i|]; [|easy]. destruct S as (b & m & a & -> & _ & Hm & _).
  unfold none_live in H. rewrite forallb_app in H. cbn in H. rewrite Hm in H.
  now rewrite andb_false_r in H.
Qed.

(** ** The request *)

Lemma loading_not_sent nanoid n : isValidMessage (fst (createLoadingAssistantMessage nanoid n)) = false.
Proof. reflexivity. Qed.

Lemma processed_app l1 l2 config :
  processed_messages (l1 ++ l2) config =
    processed_messages l1 config ++ map formatMessageForAPI (List.filter isValidMessage l2).
Proof.
  unfold processed_messages. rewrite List.filter_app, map_app.
  destruct (pg_systemPrompt config) as [p|]; [destruct (truthy (trim p))|]; easy.
Qed.

Lemma think_grammar_witness :
  well_tagged (ThinkBlock "a" "b" (ThinkEnd "c")) /\
  parseThinkTags "a<think>b</think>c" =
    {| visibleContent := "ac"; reasoningText := "b"; hasUnclosedTag := false |}.
Proof.
  split; [now vm_compute|].
  exact (proj2 (proj2 think_grammar) (ThinkBlock "a" "b" (ThinkEnd "c")) ltac:(now vm_compute)).
Defined.

Lemma think_loop_ends_witness :
  length ("<think>b" : jstr) < 9 /\
  exists r, think_loop 9 "<think>b" [] [] = Some r /\ think_loop 9 "<think>b" [] [] = Some r.
Proof. split; [cbn; lia|]. apply (think_loop_ends "<think>b" 9). cbn. lia. Defined.
