(* ===== verification/Chat.v ===== *)
(** Model of the chat of the playground:
    [web/default/src/features/playground/hooks/use-stream-request.ts] (the event
    stream of an answer), [hooks/use-chat-handler.ts] (the requests and their
    cancellation) and the message handlers of [index.tsx].

    The network and the user act in any order: a state lists the calls that have not
    returned yet, aborted ones included, and a step is one user action or one event of
    one call.  What a call does between two [await]s runs without interruption, so it
    is one step.  Toasts, the success and failure counters and the sign-out on status
    401 are not modelled. *)

From S2P Require Import Prelude Number Regex Json Messages.
From stdpp Require Import options.

(** * The event stream *)

Record Metadata := {
  md_requestId : option jstr;
  md_model : option jstr;
  md_usage : option json;
  md_toolCalls : option (list ToolCall)
}.

(** The calls [processEvent] makes to [onUpdate] and [onMetadata]. *)
Inductive Update :=
| OnReasoning (chunk : jstr)
| OnContent (chunk : jstr)
| OnMetadata (md : Metadata).

(** What an event does: the calls in order, whether it is [[DONE]], whether it ends
    the answer, and the exception that leaves the loop. *)
Record EventResult := {
  ev_updates : list Update;
  ev_done : bool;
  ev_terminal : bool;
  ev_throw : option jstr
}.

Definition ev_of (updates : list Update) (terminal : bool) (throw : option jstr) : EventResult :=
  {| ev_updates := updates; ev_done := false; ev_terminal := terminal; ev_throw := throw |}.

Definition ev_nothing : EventResult := ev_of [] false None.
Definition ev_finished : EventResult :=
  {| ev_updates := []; ev_done := true; ev_terminal := false; ev_throw := None |}.

Definition crlf_re : re := ROpt (RChr (fun c => c =? 13)%N) @; RLit [10%N].
Definition boundary_re : re := crlf_re @; crlf_re.

Definition truthy_field (k : jstr) (v : json) : option json :=
  match jget k v with Some x => if jtruthy x then Some x else None | None => None end.

Definition text_field (k : jstr) (v : json) : option jstr := option_map js_String (truthy_field k v).

(** [v?.k] and [l?.[0]]; indexing anything but an array or an object finds nothing. *)
Definition index0 (v : json) : option json :=
  match v with
  | JArr (x :: _) => Some x
  | JObj o => obj_get "0" o
  | _ => None
  end.

Definition non_null (v : option json) : option json :=
  match v with Some JNull => None | _ => v end.

(** A tool call of the answer, read as the declared [ToolCall]. *)
Definition tool_call_of (v : json) : ToolCall :=
  let fn := non_null (jget "function" v) in
  let str k o := match jget_opt k o with Some (JStr s) => Some s | _ => None end in
  {| tl_index := match jget "index" v with
                 | Some (JNum n) => option_map Z.to_nat (to_Z n)
                 | _ => None
                 end;
     tl_id := str "id" (Some v); tl_type := str "type" (Some v);
     tl_name := str "name" fn; tl_arguments := str "arguments" fn |}.

Definition tool_calls_of (v : json) : list ToolCall :=
  match v with JArr l => map tool_call_of l | _ => [] end.

Section Stream.
(** The texts of the engine's own exceptions: a JSON text that does not parse, and a
    property or a method of a value that has none. *)
Context (syntax_error : jstr -> jstr) (type_error : jstr).

(** [chunk.choices?.some((choice) => choice.finish_reason)] *)
Definition some_finished (choices : option json) : exc bool :=
  match non_null choices with
  | None => Ret false
  | Some (JArr l) =>
    (fix go l := match l with
                 | [] => Ret false
                 | JNull :: _ => Throw
                 | c :: l' => match truthy_field "finish_reason" c with
                              | Some _ => Ret true
                              | None => go l'
                              end
                 end) l
  | Some _ => Throw
  end.

Definition chunk_metadata (chunk : json) : list Update :=
  let id := text_field "id" chunk in
  let model := text_field "model" chunk in
  let usage := truthy_field "usage" chunk in
  match id, model, usage with
  | None, None, None => []
  | _, _, _ => [OnMetadata {| md_requestId := id; md_model := model; md_usage := usage;
                              md_toolCalls := None |}]
  end.

Definition delta_updates (delta : option json) : list Update :=
  match non_null delta with
  | None => []
  | Some d =>
    match text_field "reasoning_content" d with Some s => [OnReasoning s] | None => [] end
    ++ match text_field "content" d with Some s => [OnContent s] | None => [] end
    ++ match truthy_field "tool_calls" d with
       | Some l => [OnMetadata {| md_requestId := None; md_model := None; md_usage := None;
                                  md_toolCalls := Some (tool_calls_of l) |}]
       | None => []
       end
  end.

Definition event_data (event : jstr) : jstr :=
  join [10%N] (map (fun line => trimStart (drop 5 line))
    (List.filter (fun line => startsWith line "data:") (re_split crlf_re event))).

Definition first_delta (chunk : json) : option json :=
  match non_null (jget "choices" chunk) with
  | Some choices => jget_opt "delta" (non_null (index0 choices))
  | None => None
  end.

Definition process_chunk (chunk : json) : EventResult :=
  match chunk with
  | JNull => ev_of [] false (Some type_error)
  | _ =>
    match truthy_field "error" chunk with
    | Some e => ev_of [] false (Some (match text_field "message" e with
                                      | Some m => m
                                      | None => "Request error occurred"
                                      end))
    | None =>
      let ended := match truthy_field "usage" chunk with
                   | Some _ => Ret true
                   | None => some_finished (jget "choices" chunk)
                   end in
      match ended with
      | Throw => ev_of (chunk_metadata chunk) false (Some type_error)
      | Ret terminal =>
        ev_of (chunk_metadata chunk ++ delta_updates (first_delta chunk)) terminal None
      end
    end
  end.

Definition processEvent (event : jstr) : EventResult :=
  let data := event_data event in
  if negb (truthy data) then ev_nothing
  else if data =s "[DONE]" then ev_finished
  else match json_parse data with
       | None => ev_of [] false (Some (syntax_error data))
       | Some chunk => process_chunk chunk
       end.

(** ** Framing *)

(** The inner [while]: the events of the buffer up to the last blank line. *)
Fixpoint drain (fuel : nat) (buffer : jstr) : list jstr * jstr :=
  match fuel with
  | 0 => ([], buffer)
  | S f =>
    match exec boundary_re buffer with
    | None => ([], buffer)
    | Some h => let '(events, rest) := drain f (hit_rest h) in (hit_before h :: events, rest)
    end
  end.

Definition frames (buffer : jstr) : list jstr * jstr := drain (S (length buffer)) buffer.

Record StreamState := { sb_buffer : jstr; sb_finished : bool; sb_terminalChunk : bool }.

Definition stream_start : StreamState :=
  {| sb_buffer := []; sb_finished := false; sb_terminalChunk := false |}.

(** The events in order, up to the first exception: the calls made, the two flags. *)
Fixpoint process_events (events : list jstr) (finished terminal : bool)
  : list Update * bool * bool * option jstr :=
  match events with
  | [] => ([], finished, terminal, None)
  | e :: rest =>
    let r := processEvent e in
    let finished := finished || ev_done r in
    let terminal := terminal || ev_terminal r in
    match ev_throw r with
    | Some m => (ev_updates r, finished, terminal, Some m)
    | None =>
      let '(us, f, t, th) := process_events rest finished terminal in
      (ev_updates r ++ us, f, t, th)
    end
  end.

(** How the reading goes on after one [reader.read()]. *)
Inductive Reading := ReadMore (st : StreamState) | ReadComplete | ReadThrow (message : jstr).

(** One round of [while (!finished)]: [text] is the decoded chunk. *)
Definition read_chunk (text : jstr) (done : bool) (st : StreamState) : list Update * Reading :=
  let '(events, buffer) := frames (sb_buffer st ++ text) in
  let '(us, finished, terminal, throw) :=
    process_events events (sb_finished st) (sb_terminalChunk st) in
  match throw with
  | Some m => (us, ReadThrow m)
  | None =>
    if done then
      let '(us2, finished, terminal, throw) :=
        process_events (if truthy (trim buffer) then [buffer] else []) finished terminal in
      match throw with
      | Some m => (us ++ us2, ReadThrow m)
      | None =>
        (us ++ us2, if negb finished && negb terminal
                    then ReadThrow "Generation was interrupted" else ReadComplete)
      end
    else if finished then (us, ReadComplete)
    else (us, ReadMore {| sb_buffer := buffer; sb_finished := finished;
                          sb_terminalChunk := terminal |})
  end.

(** A whole answer: its chunks, then the end of the stream. *)
Fixpoint read_all (chunks : list jstr) (st : StreamState) : list Update * Reading :=
  match chunks with
  | [] => read_chunk [] true st
  | c :: rest =>
    match read_chunk c false st with
    | (us, ReadMore st') => let '(us', r) := read_all rest st' in (us ++ us', r)
    | r => r
    end
  end.
End Stream.

(** * The requests *)

Definition or_undefined {A} (x d : option A) : option A :=
  match x with Some _ => x | None => d end.

(** [{ ...current, ...update, function: ... }] *)
Definition merge_call (current : option ToolCall) (update : ToolCall) : ToolCall :=
  let field {A} (f : ToolCall -> option A) :=
    or_undefined (f update) (match current with Some c => f c | None => None end) in
  let text (f : ToolCall -> option jstr) c := match c with
    | Some c => match f c with Some s => s | None => [] end
    | None => []
    end in
  {| tl_index := field tl_index; tl_id := field tl_id; tl_type := field tl_type;
     tl_name := if truthy (text tl_name (Some update)) then tl_name update
                else match current with Some c => tl_name c | None => None end;
     tl_arguments := Some (text tl_arguments current ++ text tl_arguments (Some update)) |}.

(** [calls[index] = x]: writing past the end leaves holes. *)
Fixpoint set_at {A} (i : nat) (x : A) (l : list (option A)) : list (option A) :=
  match i, l with
  | 0, [] => [Some x]
  | 0, _ :: l' => Some x :: l'
  | S i', [] => None :: set_at i' x []
  | S i', y :: l' => y :: set_at i' x l'
  end.

Definition mergeToolCalls (previous : list (option ToolCall)) (updates : list ToolCall)
  : list (option ToolCall) :=
  fold_left (fun calls update =>
    let index := match tl_index update with Some i => i | None => 0 end in
    let current := match calls !! index with Some c => c | None => None end in
    set_at index (merge_call current update) calls) updates previous.

Definition apply_metadata (md : Metadata) (message : Message) : Message :=
  set_metadata
    (or_undefined (md_requestId md) (m_requestId message))
    (or_undefined (md_model md) (m_model message))
    (or_undefined (md_usage md) (m_usage message))
    (match md_toolCalls md with
     | Some l => Some (mergeToolCalls (match m_toolCalls message with Some p => p | None => [] end) l)
     | None => m_toolCalls message
     end) message.

Definition apply_update (u : Update) (message : Message) : Message :=
  match u with
  | OnReasoning chunk =>
    set_status Streaming
      (set_reasoning (Some {| r_content := reasoning_text message ++ chunk; r_duration := zero |})
         true message)
  | OnContent chunk => set_status Streaming (processStreamingContent message chunk)
  | OnMetadata md => apply_metadata md message
  end.

Definition apply_updates (us : list Update) (messages : list Message) : list Message :=
  fold_left (fun ms u => updateLastAssistantMessage ms (apply_update u)) us messages.

Definition complete_message (message : Message) : Message :=
  set_status Complete (finalizeMessage message None).

Definition cancel_message (message : Message) : Message :=
  if status_is Loading message || status_is Streaming message
  then set_status Cancelled (finalizeMessage message None) else message.

(** [Closing]: the answer was read and [reader.cancel()] is awaited. *)
Inductive CallMode := AwaitResponse | ReadingBody (st : StreamState) | Closing | PlainCall.

(** A call of [sendChat] that has not returned: its generation, how far it is, whether
    its controller was aborted, and the request it sent. *)
Record Call := {
  call_id : nat;
  call_mode : CallMode;
  call_aborted : bool;
  call_payload : list (jstr * json)
}.

Definition set_mode (mode : CallMode) (c : Call) : Call :=
  {| call_id := call_id c; call_mode := mode; call_aborted := call_aborted c;
     call_payload := call_payload c |}.

Definition abort (c : Call) : Call :=
  {| call_id := call_id c; call_mode := call_mode c; call_aborted := true;
     call_payload := call_payload c |}.

(** [requestGeneration], [busyRef], [controllerRef] and [requestRef] (by the generation
    of the call they belong to), the two state flags and the identifiers drawn so far. *)
Record Chat := {
  ch_messages : list Message;
  ch_busy : bool;
  ch_generation : nat;
  ch_controller : option nat;
  ch_request : option nat;
  ch_isStreaming : bool;
  ch_isRequesting : bool;
  ch_calls : list Call;
  ch_ids : nat
}.

Definition start_chat (messages : list Message) : Chat :=
  {| ch_messages := messages; ch_busy := false; ch_generation := 0; ch_controller := None;
     ch_request := None; ch_isStreaming := false; ch_isRequesting := false; ch_calls := [];
     ch_ids := 0 |}.

Definition isGenerating (s : Chat) : bool := ch_isStreaming s || ch_isRequesting s.

Definition set_messages (ms : list Message) (s : Chat) : Chat :=
  {| ch_messages := ms; ch_busy := ch_busy s; ch_generation := ch_generation s;
     ch_controller := ch_controller s; ch_request := ch_request s;
     ch_isStreaming := ch_isStreaming s; ch_isRequesting := ch_isRequesting s;
     ch_calls := ch_calls s; ch_ids := ch_ids s |}.

Definition set_ids (n : nat) (s : Chat) : Chat :=
  {| ch_messages := ch_messages s; ch_busy := ch_busy s; ch_generation := ch_generation s;
     ch_controller := ch_controller s; ch_request := ch_request s;
     ch_isStreaming := ch_isStreaming s; ch_isRequesting := ch_isRequesting s;
     ch_calls := ch_calls s; ch_ids := n |}.

Definition set_calls (cs : list Call) (s : Chat) : Chat :=
  {| ch_messages := ch_messages s; ch_busy := ch_busy s; ch_generation := ch_generation s;
     ch_controller := ch_controller s; ch_request := ch_request s;
     ch_isStreaming := ch_isStreaming s; ch_isRequesting := ch_isRequesting s;
     ch_calls := cs; ch_ids := ch_ids s |}.

Definition update_last (f : Message -> Message) (s : Chat) : Chat :=
  set_messages (updateLastAssistantMessage (ch_messages s) f) s.

Definition has_call (k : nat) (c : Call) : bool := call_id c =? k.

Definition map_call (k : nat) (f : Call -> Call) (cs : list Call) : list Call :=
  map (fun c => if has_call k c then f c else c) cs.

(** [ref.current?.abort()] *)
Definition abort_ref (ref : option nat) (cs : list Call) : list Call :=
  match ref with Some k => map_call k abort cs | None => cs end.

(** What the composer shows: the settings and whether the chosen model is listed. *)
Record Composer := {
  co_config : PlaygroundConfig;
  co_enabled : ParameterEnabled;
  co_available : bool
}.

(** [sendChat] up to its first [await]. *)
Definition sendChat (co : Composer) (messages : list Message) (s : Chat) : Chat :=
  if ch_busy s then s
  else
    let generation := S (ch_generation s) in
    let payload := buildChatCompletionPayload messages (co_config co) (co_enabled co) in
    let stream := pg_stream (co_config co) in
    let call := {| call_id := generation;
                   call_mode := if stream then AwaitResponse else PlainCall;
                   call_aborted := false; call_payload := payload |} in
    {| ch_messages := ch_messages s; ch_busy := true; ch_generation := generation;
       ch_controller := if stream then Some generation else ch_controller s;
       ch_request := if stream then ch_request s else Some generation;
       ch_isStreaming := if stream then true else ch_isStreaming s;
       ch_isRequesting := if stream then ch_isRequesting s else true;
       ch_calls := (if stream then abort_ref (ch_controller s) (ch_calls s) else ch_calls s)
                   ++ [call];
       ch_ids := ch_ids s |}.

(** The two [finally] blocks of a call that returns. *)
Definition finish_call (k : nat) (s : Chat) : Chat :=
  let mine (ref : option nat) := bool_decide (ref = Some k) in
  {| ch_messages := ch_messages s;
     ch_busy := if ch_generation s =? k then false else ch_busy s;
     ch_generation := ch_generation s;
     ch_controller := if mine (ch_controller s) then None else ch_controller s;
     ch_request := if mine (ch_request s) then None else ch_request s;
     ch_isStreaming := if mine (ch_controller s) then false else ch_isStreaming s;
     ch_isRequesting := if mine (ch_request s) then false else ch_isRequesting s;
     ch_calls := List.filter (fun c => negb (has_call k c)) (ch_calls s);
     ch_ids := ch_ids s |}.

Definition stopGeneration (s : Chat) : Chat :=
  {| ch_messages := updateLastAssistantMessage (ch_messages s) cancel_message;
     ch_busy := false; ch_generation := S (ch_generation s);
     ch_controller := None; ch_request := None;
     ch_isStreaming := false; ch_isRequesting := false;
     ch_calls := abort_ref (ch_request s) (abort_ref (ch_controller s) (ch_calls s));
     ch_ids := ch_ids s |}.

Section Handlers.
Context (nanoid : nat -> jstr) (t : jstr -> jstr)
        (syntax_error : jstr -> jstr) (type_error : jstr).

(** ** The message handlers *)

Definition startRequest (co : Composer) (nextMessages : list Message)
    (attempts : option (list Message)) (s : Chat) : Chat :=
  if isGenerating s || negb (co_available co) then s
  else
    let '(m, n) := createLoadingAssistantMessage nanoid (ch_ids s) in
    let response := set_request (pg_model (co_config co)) (pg_group (co_config co)) attempts m in
    let next := nextMessages ++ [response] in
    sendChat co next (set_ids n (set_messages next s)).

(** [PlaygroundInput.send] and [sendMessage]. *)
Definition sendMessage (co : Composer) (text : jstr) (s : Chat) : Chat :=
  if negb (truthy (trim text)) || negb (co_available co) || isGenerating s then s
  else
    let '(m, n) := createUserMessage nanoid text (ch_ids s) in
    startRequest co (ch_messages s ++ [m]) None (set_ids n s).

Definition has_key (key : jstr) (m : Message) : bool := m_key m =s key.

Definition regenerate (co : Composer) (key : jstr) (s : Chat) : Chat :=
  match findIndex (has_key key) (ch_messages s) with
  | None => s
  | Some index =>
    match ch_messages s !! index with
    | None => s
    | Some m =>
      let before := match m_attempts m with Some l => l | None => [] end in
      startRequest co (take index (ch_messages s))
        (Some (before ++ [set_request_attempts None m])) s
    end
  end.

Definition edit_content (content : jstr) (m : Message) : Message :=
  updateCurrentVersionContent m content.

Definition applyEdit (co : Composer) (editingKey content : jstr) (submit : bool) (s : Chat) : Chat :=
  match findIndex (has_key editingKey) (ch_messages s) with
  | None => s
  | Some index =>
    if isGenerating s then s
    else
      let edited := map (fun m => if has_key editingKey m then edit_content content m else m)
                      (ch_messages s) in
      if submit && match edited !! index with Some m => from_is User m | None => false end
      then startRequest co (take (index + 1) edited) None s
      else set_messages edited s
  end.

Definition deleteMessage (key : jstr) (s : Chat) : Chat :=
  if isGenerating s then s
  else set_messages (List.filter (fun m => negb (has_key key m)) (ch_messages s)) s.

(** ** The events of a call *)

Definition onError (error : jstr) (code : option jstr) (s : Chat) : Chat :=
  set_messages (updateAssistantMessageWithError (ch_messages s) (t error) code) s.

Definition onComplete (s : Chat) : Chat := update_last complete_message s.

(** The message and the code of a refused request. *)
Definition http_error (status : N) (body : jstr) : jstr * option jstr :=
  let message := "HTTP " ++ digits status in
  match json_parse body with
  | None | Some JNull => (str_or body message, None)
  | Some data =>
    let error := non_null (jget "error" data) in
    let first o d := match o with Some s => s | None => d end in
    (first (match error with Some e => text_field "message" e | None => None end)
       (first (text_field "message" data) message),
     match error with Some e => option_map js_String (jget "code" e) | None => None end)
  end.

(** The plain answer: [None] when it has no choice or reading it throws. *)
Definition plain_choice (response : json) : option json :=
  match response with
  | JNull => None
  | _ => match non_null (jget "choices" response) with
         | Some choices => match index0 choices with
                           | Some c => if jtruthy c then Some c else None
                           | None => None
                           end
         | None => None
         end
  end.

Definition complete_plain (response choice : json) (message : Message) : Message :=
  let m := non_null (jget "message" choice) in
  let text k := match m with Some m => text_field k m | None => None end in
  let answered := updateCurrentVersionContent message
                    (match text "content" with Some s => s | None => [] end) in
  let final := set_status Complete (finalizeMessage answered (text "reasoning_content")) in
  set_metadata (option_map js_String (jget "id" response))
    (or_undefined (text_field "model" response) (m_model message))
    (jget "usage" response)
    (match m with
     | Some m => option_map (fun l => map Some (tool_calls_of l)) (non_null (jget "tool_calls" m))
     | None => None
     end) final.

(** What the network answers to a call. *)
Inductive CallEvent :=
| Refused (status : N) (body : jstr)              (* [!response.ok] *)
| Accepted (requestId : option jstr) (has_body : bool)
| Chunk (text : jstr) (done : bool)
| Closed                                          (* [reader.cancel()] resolves *)
| NetworkError (message : jstr)                   (* [fetch], [read] or [cancel] rejects *)
| Answered (response : json)                      (* the plain request *)
| PlainFailure (message : jstr) (code : option jstr).

Definition call_event (k : nat) (e : CallEvent) (s : Chat) : Chat :=
  match List.find (has_call k) (ch_calls s) with
  | None => s
  | Some c =>
    let unless_aborted (f : Chat -> Chat) (s : Chat) := if call_aborted c then s else f s in
    match call_mode c, e with
    | AwaitResponse, Refused status body =>
      let '(message, code) := http_error status body in
      finish_call k (unless_aborted (onError message code) s)
    (* [onMetadata] has no test of its own here: a [fetch] that was aborted rejects, and so no
       response is accepted after that. *)
    | AwaitResponse, Accepted requestId has_body =>
      let s := unless_aborted (fun s =>
        match requestId with
        | Some (_ :: _) =>
          update_last (apply_metadata {| md_requestId := requestId; md_model := None;
                                         md_usage := None; md_toolCalls := None |}) s
        | _ => s
        end) s in
      if has_body then set_calls (map_call k (set_mode (ReadingBody stream_start)) (ch_calls s)) s
      else finish_call k (unless_aborted (onError "Connection closed" None) s)
    | AwaitResponse, NetworkError message | ReadingBody _, NetworkError message
    | Closing, NetworkError message =>
      finish_call k (unless_aborted (onError message None) s)
    | ReadingBody st, Chunk text done =>
      if call_aborted c then finish_call k s
      else
        let '(us, r) := read_chunk syntax_error type_error text done st in
        let s := set_messages (apply_updates us (ch_messages s)) s in
        match r with
        | ReadMore st' => set_calls (map_call k (set_mode (ReadingBody st')) (ch_calls s)) s
        | ReadComplete => set_calls (map_call k (set_mode Closing) (ch_calls s)) s
        | ReadThrow message => finish_call k (onError message None s)
        end
    | Closing, Closed => finish_call k (unless_aborted onComplete s)
    | PlainCall, Answered response =>
      finish_call k (unless_aborted (fun s =>
        match plain_choice response with
        | Some choice => update_last (complete_plain response choice) s
        | None => onError (match response with
                           | JNull => type_error
                           | _ => "Error parsing response data"
                           end) None s
        end) s)
    | PlainCall, PlainFailure message code =>
      finish_call k (unless_aborted (onError (str_or message "Request error occurred") code) s)
    | _, _ => s
    end
  end.

Inductive Action :=
| Send (co : Composer) (text : jstr)
| Regenerate (co : Composer) (key : jstr)
| ApplyEdit (co : Composer) (key content : jstr) (submit : bool)
| Delete (key : jstr)
| Stop
| Event (k : nat) (e : CallEvent).

Definition step (a : Action) (s : Chat) : Chat :=
  match a with
  | Send co text => sendMessage co text s
  | Regenerate co key => regenerate co key s
  | ApplyEdit co key content submit => applyEdit co key content submit s
  | Delete key => deleteMessage key s
  | Stop => stopGeneration s
  | Event k e => call_event k e s
  end.

Definition run (actions : list Action) (s : Chat) : Chat := fold_left (fun s a => step a s) actions s.
End Handlers.

(** * Theorems *)

(** ** The last message *)

Lemma update_last_at before m f :
  from_is Assistant m = true ->
  updateLastAssistantMessage (before ++ [m]) f = before ++ [f m].
Proof.
  intros H. unfold updateLastAssistantMessage. rewrite rev_app_distr. cbn. rewrite H.
  now rewrite rev_involutive.
Qed.

Lemma live_from m : live m = true -> from_is Assistant m = true.
Proof. unfold live. now intros [H _]%andb_true_iff. Qed.

Lemma apply_update_live u m : live m = true -> live (apply_update u m) = true.
Proof.
  intros H. pose proof (live_from _ H) as Ha. unfold live in *. rewrite Ha in H.
  destruct u; cbn [apply_update]; [| |exact (eq_ind _ (fun b => b && _ = true) H _ (eq_sym Ha))].
  - apply andb_true_iff. split; [exact Ha|]. apply orb_true_iff. right. now apply bool_decide_eq_true.
  - apply andb_true_iff. split; [exact Ha|]. apply orb_true_iff. right. now apply bool_decide_eq_true.
Qed.

Lemma apply_updates_live us before m :
  live m = true -> exists m', live m' = true /\ apply_updates us (before ++ [m]) = before ++ [m'].
Proof.
  revert m; induction us as [|u us IH]; intros m H; [now exists m|].
  cbn [apply_updates fold_left]. rewrite update_last_at by now apply live_from.
  apply IH. now apply apply_update_live.
Qed.

Lemma none_live_app a b : none_live (a ++ b) = none_live a && none_live b.
Proof. apply forallb_app. Qed.

(** A final status ends the life of the last message. *)
Lemma ended_not_live before m s :
  none_live before = true -> s <> Loading -> s <> Streaming -> m_status m = Some s ->
  none_live (before ++ [m]) = true.
Proof.
  intros Hb H1 H2 Hs. rewrite none_live_app, Hb. cbn. unfold live, status_is. rewrite Hs.
  rewrite !bool_decide_eq_false_2 by congruence. cbn. now rewrite andb_false_r.
Qed.

(** ** Framing *)

(** One line end, and a blank line. *)
Definition crlf (s : jstr) : option jstr :=
  match s with
  | x :: s' => if (x =? 10)%N then Some s'
               else if (x =? 13)%N then match s' with
                                        | y :: s'' => if (y =? 10)%N then Some s'' else None
                                        | [] => None
                                        end
               else None
  | [] => None
  end.

Definition blank_line (s : jstr) : option jstr :=
  match crlf s with Some r => crlf r | None => None end.

(** What stands before and behind the first blank line. *)
Fixpoint boundary (s : jstr) : option (jstr * jstr) :=
  match blank_line s, s with
  | Some r, _ => Some ([], r)
  | None, [] => None
  | None, c :: s' => match boundary s' with Some (e, r) => Some (c :: e, r) | None => None end
  end.

Lemma mt_crlf {A} p s c (k : cont (A := A)) :
  mt crlf_re p s c k = match crlf s with Some r => k (Some 10%N) r c | None => None end.
Proof.
  destruct s as [|x s]; [easy|]. unfold crlf_re. cbn -[N.eqb]. rewrite (N.eqb_sym 10 x).
  destruct (N.eqb_spec x 10) as [->|].
  - reflexivity.
  - destruct (x =? 13)%N; [|easy]. cbn -[N.eqb]. destruct s as [|y s]; [easy|].
    rewrite (N.eqb_sym 10 y). destruct (y =? 10)%N; [|easy].
    cbn -[N.eqb]. unfold or_else. now destruct (k _ _ _).
Qed.

Lemma boundary_exec_from p before s :
  match exec_from boundary_re p before s with
  | Some h => exists e, boundary s = Some (e, hit_rest h) /\ hit_before h = rev before ++ e
  | None => boundary s = None
  end.
Proof.
  revert p before; induction s as [|x s IH]; intros p before.
  - reflexivity.
  - cbn [exec_from boundary]. unfold match_at, boundary_re. cbn [mt]. rewrite mt_crlf.
    unfold blank_line. destruct (crlf (x :: s)) as [r|] eqn:E.
    + rewrite mt_crlf. destruct (crlf r) as [r'|] eqn:E2.
      * exists []. cbn. now rewrite app_nil_r.
      * specialize (IH (Some x) (x :: before)). destruct (exec_from _ _ _ s).
        -- destruct IH as (e & -> & ->). exists (x :: e). cbn. now rewrite <- app_assoc.
        -- now rewrite IH.
    + specialize (IH (Some x) (x :: before)). destruct (exec_from _ _ _ s).
      -- destruct IH as (e & -> & ->). exists (x :: e). cbn. now rewrite <- app_assoc.
      -- now rewrite IH.
Qed.

Lemma boundary_exec s :
  boundary s = match exec boundary_re s with
               | Some h => Some (hit_before h, hit_rest h)
               | None => None
               end.
Proof.
  pose proof (boundary_exec_from None [] s) as H. unfold exec.
  destruct (exec_from _ _ _ s); [|easy]. now destruct H as (e & -> & ->).
Qed.

(** Text that comes later does not move the first blank line. *)
Lemma blank_line_app a b r : blank_line a = Some r -> blank_line (a ++ b) = Some (r ++ b).
Proof.
  unfold blank_line. destruct a as [|x [|y [|z [|w a]]]]; cbn -[N.eqb];
    repeat (match goal with |- context [(?x =? ?n)%N] => destruct (x =? n)%N end; cbn -[N.eqb]);
    try easy; now intros [= <-].
Qed.

Lemma blank_line_late a b : blank_line a = None -> blank_line (a ++ b) <> None -> boundary a = None.
Proof.
  unfold blank_line. destruct a as [|x [|y [|z [|w a]]]]; cbn -[N.eqb]; unfold blank_line; cbn -[N.eqb];
    repeat (match goal with |- context [(?x =? ?n)%N] => destruct (x =? n)%N end; cbn -[N.eqb]); easy.
Qed.

Lemma boundary_app a b e r : boundary a = Some (e, r) -> boundary (a ++ b) = Some (e, r ++ b).
Proof.
  revert e; induction a as [|c a IH]; intros e H; [easy|].
  pose proof H as H0. cbn [boundary] in H. cbn [app boundary].
  destruct (blank_line (c :: a)) as [r'|] eqn:E.
  - injection H as <- <-. apply (blank_line_app _ b) in E. cbn [app] in E. now rewrite E.
  - destruct (boundary a) as [[e' r']|] eqn:Ea; [|easy]. injection H as <- <-.
    rewrite (IH e' eq_refl). destruct (blank_line (c :: a ++ b)) eqn:E2; [|easy].
    rewrite (blank_line_late (c :: a) b E) in H0; [easy|]. cbn [app]. congruence.
Qed.

Lemma crlf_length s r : crlf s = Some r -> length r < length s.
Proof.
  destruct s as [|x s]; cbn; [easy|]. destruct (x =? 10)%N; [intros [= ->]; lia|].
  destruct (x =? 13)%N; [|easy]. destruct s as [|y s]; [easy|].
  destruct (y =? 10)%N; [|easy]. intros [= ->]. cbn. lia.
Qed.

Lemma boundary_length s e r : boundary s = Some (e, r) -> length r < length s.
Proof.
  revert e; induction s as [|x s IH]; intros e; [easy|].
  cbn [boundary]. destruct (blank_line (x :: s)) as [r'|] eqn:E.
  - intros [= _ <-]. revert E. unfold blank_line. destruct (crlf (x :: s)) as [q|] eqn:E; [|easy].
    intros E2. apply crlf_length in E, E2. lia.
  - destruct (boundary s) as [[e' r']|]; [|easy]. intros [= <- <-]. cbn. specialize (IH e' eq_refl). lia.
Qed.

(** The events of a text, and what is left of it. *)
Inductive framed : jstr -> list jstr -> jstr -> Prop :=
| FrEnd s : boundary s = None -> framed s [] s
| FrNext s e r es rest : boundary s = Some (e, r) -> framed r es rest -> framed s (e :: es) rest.

Lemma drain_framed f s : length s < f -> framed s (fst (drain f s)) (snd (drain f s)).
Proof.
  revert s; induction f as [|f IH]; intros s Hf; [lia|]. cbn [drain].
  pose proof (boundary_exec s) as Hb. destruct (exec boundary_re s) as [h|]; [|now apply FrEnd].
  pose proof (boundary_length _ _ _ Hb) as Hl. specialize (IH (hit_rest h) ltac:(lia)).
  destruct (drain f (hit_rest h)) as [es rest]. now apply (FrNext _ _ (hit_rest h)).
Qed.

Lemma framed_frames s es rest : framed s es rest -> frames s = (es, rest).
Proof.
  pose proof (drain_framed (S (length s)) s ltac:(lia)) as H. fold (frames s) in H.
  destruct (frames s) as [es' rest']. cbn in H. intros F. revert es rest F.
  induction H as [s Hs|s e r es' rest' Hs _ IH]; intros es rest F; inversion F; subst; try congruence.
  rewrite H in Hs. injection Hs as -> ->. apply IH in H0. congruence.
Qed.

Lemma frames_framed s : framed s (fst (frames s)) (snd (frames s)).
Proof. apply drain_framed. lia. Qed.

(** Events are cut the same way however the text arrives. *)
Lemma frames_app a b :
  frames (a ++ b) = (fst (frames a) ++ fst (frames (snd (frames a) ++ b)),
                     snd (frames (snd (frames a) ++ b))).
Proof.
  apply framed_frames. pose proof (frames_framed a) as H. revert H.
  generalize (fst (frames a)) (snd (frames a)). intros es rest H.
  induction H as [s Hs|s e r es rest Hs _ IH]; [apply frames_framed|].
  cbn [app]. apply (FrNext _ e (r ++ b)); [now apply boundary_app|exact IH].
Qed.

Section Framing.
Context (syntax_error : jstr -> jstr) (type_error : jstr).

Abbreviation process := (process_events syntax_error type_error).
Abbreviation result := (processEvent syntax_error type_error).

(** The events of a whole answer: those its blank lines end, and a last one when
    something is left at the end of the stream. *)
Definition all_events (text : jstr) : list jstr :=
  let '(events, rest) := frames text in
  events ++ (if truthy (trim rest) then [rest] else []).

(** What an answer does, read in one piece. *)
Definition answer_of (events : list jstr) (terminal : bool) : list Update * Reading :=
  match process events false terminal with
  | (us, _, _, Some m) => (us, ReadThrow m)
  | (us, finished, terminal, None) =>
    (us, if negb finished && negb terminal then ReadThrow "Generation was interrupted"
         else ReadComplete)
  end.

(** Nothing follows the [DONE] event. *)
Definition done_last (events : list jstr) : Prop :=
  forall pre e post, events = pre ++ e :: post -> ev_done (result e) = true -> post = [].

Lemma process_app a b f t :
  process (a ++ b) f t =
    match process a f t with
    | (us, f', t', Some m) => (us, f', t', Some m)
    | (us, f', t', None) =>
      let '(us', f'', t'', th) := process b f' t' in (us ++ us', f'', t'', th)
    end.
Proof.
  revert f t; induction a as [|e a IH]; intros f t; cbn [app process_events].
  - now destruct (process b f t) as [[[? ?] ?] ?].
  - destruct (ev_throw (result e)); [easy|]. rewrite IH.
    destruct (process a _ _) as [[[us f'] t'] [m|]]; [easy|].
    destruct (process b f' t') as [[[us' f''] t''] th]. now rewrite app_assoc.
Qed.

Lemma process_finished a t us t' th :
  process a false t = (us, true, t', th) -> exists pre e post, a = pre ++ e :: post /\ ev_done (result e) = true.
Proof.
  revert t us t'; induction a as [|e a IH]; intros t us t'; cbn [process_events]; [easy|].
  cbn [orb]. destruct (ev_done (result e)) eqn:Ed; [intros _; now exists [], e, a|].
  destruct (ev_throw (result e)); [easy|].
  destruct (process a false _) as [[[us' f'] t''] th'] eqn:E. intros [= _ -> _ ->].
  destruct (IH _ _ _ E) as (pre & e' & post & -> & He). now exists (e :: pre), e', post.
Qed.

Lemma done_last_app a b t us t' th :
  done_last (a ++ b) -> process a false t = (us, true, t', th) -> b = [].
Proof.
  intros H E. apply process_finished in E as (pre & e & post & -> & He).
  assert (Hp : post ++ b = []) by (apply (H pre e); [now rewrite <- app_assoc|easy]).
  now apply app_eq_nil in Hp.
Qed.

Lemma read_all_from chunks buffer terminal :
  done_last (all_events (buffer ++ List.concat chunks)) ->
  read_all syntax_error type_error chunks
    {| sb_buffer := buffer; sb_finished := false; sb_terminalChunk := terminal |} =
  answer_of (all_events (buffer ++ List.concat chunks)) terminal.
Proof.
  revert buffer terminal; induction chunks as [|c cs IH]; intros buffer terminal Hd.
  - cbn [List.concat read_all] in *. unfold read_chunk, answer_of, all_events. cbn [sb_buffer sb_finished sb_terminalChunk].
    destruct (frames (buffer ++ [])) as [es rest]. rewrite process_app.
    destruct (process es false terminal) as [[[us f] t] [m|]]; [easy|].
    now destruct (process _ f t) as [[[us' f'] t'] [m|]].
  - cbn [List.concat read_all] in *. unfold read_chunk. cbn [sb_buffer sb_finished sb_terminalChunk].
    assert (Ha : all_events (buffer ++ c ++ List.concat cs) =
      fst (frames (buffer ++ c)) ++ all_events (snd (frames (buffer ++ c)) ++ List.concat cs)).
    { unfold all_events. rewrite app_assoc, frames_app.
      destruct (frames (snd (frames (buffer ++ c)) ++ List.concat cs)). now rewrite <- app_assoc. }
    rewrite Ha in Hd |- *. destruct (frames (buffer ++ c)) as [es rest]. cbn [fst snd] in *.
    unfold answer_of. rewrite process_app.
    destruct (process es false terminal) as [[[us f] t] [m|]] eqn:E; [easy|].
    destruct f.
    + rewrite (done_last_app _ _ _ _ _ _ Hd E). cbn. now rewrite app_nil_r.
    + rewrite IH.
      * unfold answer_of. destruct (process (all_events _) false t) as [[[us' f'] t'] [m|]]; easy.
      * intros pre e post Ee. apply (Hd (es ++ pre)). now rewrite Ee, <- app_assoc.
Qed.

(** C18: An answer has the same effect however the network cuts it into chunks: for
    every list of chunks the calls to the message handlers, and the way the answer
    ends, are those of processing the events of the whole text in order - as long as
    nothing is sent after the [[DONE]] event. *)
Theorem stream_framing chunks :
  done_last (all_events (List.concat chunks)) ->
  read_all syntax_error type_error chunks stream_start =
    answer_of (all_events (List.concat chunks)) false.
Proof. apply (read_all_from chunks [] false). Qed.
End Framing.

(** ** The invariant *)

(** The calls that were aborted still wait for their next event. *)
Definition aborted_below (g : nat) (cs : list Call) : Prop :=
  Forall (fun c => call_aborted c = true /\ call_id c < g) cs.

(** The references and the flags of a call in flight. *)
Definition refs_of (s : Chat) (mode : CallMode) : Prop :=
  match mode with
  | PlainCall => ch_controller s = None /\ ch_request s = Some (ch_generation s)
                 /\ ch_isStreaming s = false /\ ch_isRequesting s = true
  | _ => ch_controller s = Some (ch_generation s) /\ ch_request s = None
         /\ ch_isStreaming s = true /\ ch_isRequesting s = false
  end.

(** No call is in flight: those that have not returned were aborted. *)
Record Idle (s : Chat) : Prop := {
  idle_busy : ch_busy s = false;
  idle_controller : ch_controller s = None;
  idle_request : ch_request s = None;
  idle_streaming : ch_isStreaming s = false;
  idle_requesting : ch_isRequesting s = false;
  idle_calls : aborted_below (S (ch_generation s)) (ch_calls s);
  idle_messages : none_live (ch_messages s) = true
}.

(** Either no call is in flight, and then no message waits for one; or exactly one is,
    of the current generation, and the last message is the one that waits for it. *)
Inductive ChatInv (s : Chat) : Prop :=
| ChatIdle : Idle s -> ChatInv s
| ChatActive old c before m :
    ch_busy s = true -> ch_calls s = old ++ [c] -> aborted_below (ch_generation s) old ->
    call_id c = ch_generation s -> call_aborted c = false -> refs_of s (call_mode c) ->
    ch_messages s = before ++ [m] -> live m = true -> none_live before = true ->
    ChatInv s.

Lemma aborted_weaken g h cs : g <= h -> aborted_below g cs -> aborted_below h cs.
Proof. intros Hl H. eapply Forall_impl; [exact H|]. intros c [? ?]. split; [easy|lia]. Qed.

Lemma aborted_map g k f cs :
  (forall c, call_aborted c = true -> call_aborted (f c) = true) ->
  (forall c, call_id (f c) = call_id c) ->
  aborted_below g cs -> aborted_below g (map_call k f cs).
Proof.
  intros Ha Hi H. unfold map_call, aborted_below. apply Forall_map. eapply Forall_impl; [exact H|].
  intros c [? ?]. cbn. destruct (has_call k c); [rewrite Hi|]; auto.
Qed.

Lemma aborted_filter g f cs : aborted_below g cs -> aborted_below g (List.filter f cs).
Proof.
  intros H. apply List.Forall_forall. intros c [Hc _]%filter_In.
  unfold aborted_below in H. rewrite List.Forall_forall in H. now apply H.
Qed.

Lemma below_no_call g cs : aborted_below g cs -> forall f, map_call g f cs = cs
  /\ List.filter (fun c => negb (has_call g c)) cs = cs.
Proof.
  unfold map_call. induction 1 as [|c cs [_ Hc] _ IH]; intros f; [easy|].
  destruct (IH f) as [E1 E2]. cbn [map List.filter].
  replace (has_call g c) with false by (symmetry; apply Nat.eqb_neq; lia).
  cbn [negb]. now rewrite E1, E2.
Qed.

Lemma ref_not_mine k s : ChatInv s -> k <> ch_generation s ->
  bool_decide (ch_controller s = Some k) = false /\ bool_decide (ch_request s = Some k) = false.
Proof.
  intros [[? Hc Hr]|old c before m _ _ _ _ _ Hr] Hk.
  - now rewrite Hc, Hr.
  - destruct (call_mode c); destruct Hr as (-> & -> & _); split;
      rewrite bool_decide_eq_false; congruence.
Qed.

Lemma finish_idle k s : Idle s -> Idle (finish_call k s).
Proof.
  intros [Hb Hc Hr H1 H2 Hold Hm]. constructor; cbn; rewrite ?Hc, ?Hr, ?Hb, ?H1, ?H2; try easy.
  - now destruct (_ =? _).
  - now apply aborted_filter.
Qed.

(** The call in flight returns, its message ended. *)
Lemma finish_current s old c :
  ch_calls s = old ++ [c] -> aborted_below (ch_generation s) old ->
  call_id c = ch_generation s -> refs_of s (call_mode c) -> none_live (ch_messages s) = true ->
  Idle (finish_call (ch_generation s) s).
Proof.
  intros Hcs Hold Hid Hrefs Hm.
  assert (Hf : List.filter (fun x => negb (has_call (ch_generation s) x)) (ch_calls s) = old).
  { rewrite Hcs, List.filter_app. destruct (below_no_call _ _ Hold (fun x => x)) as [_ ->].
    cbn. unfold has_call. now rewrite Hid, Nat.eqb_refl, app_nil_r. }
  constructor; cbn; rewrite ?Nat.eqb_refl, ?Hf; try easy.
  - destruct (call_mode c); destruct Hrefs as (-> & ? & _); [| | |easy];
      now rewrite bool_decide_eq_true_2.
  - destruct (call_mode c); destruct Hrefs as (? & -> & _); [easy|easy|easy|];
      now rewrite bool_decide_eq_true_2.
  - destruct (call_mode c); destruct Hrefs as (-> & ? & -> & _); [| | |easy];
      now rewrite bool_decide_eq_true_2.
  - destruct (call_mode c); destruct Hrefs as (? & -> & ? & ->); [easy|easy|easy|];
      now rewrite bool_decide_eq_true_2.
  - eapply aborted_weaken; [|exact Hold]. lia.
Qed.

Lemma aborted_old s c :
  ChatInv s -> In c (ch_calls s) -> call_aborted c = true -> 
  (exists old c0, ch_calls s = old ++ [c0] /\ call_id c0 = ch_generation s
     /\ aborted_below (ch_generation s) old /\ call_id c < ch_generation s)
  \/ ch_busy s = false.
Proof.
  intros [[]|old c0 before m _ Hcs Hold Hid Ha _ _ _ _] Hin Hc; [now right|left].
  exists old, c0. split; [easy|]. split; [easy|]. split; [easy|].
  rewrite Hcs in Hin. apply in_app_iff in Hin as [Hin|[->|[]]]; [|congruence].
  unfold aborted_below in Hold. rewrite List.Forall_forall in Hold. now apply Hold in Hin.
Qed.

(** An aborted call that returns leaves the others alone. *)
Lemma finish_aborted s c :
  ChatInv s -> In c (ch_calls s) -> call_aborted c = true -> ChatInv (finish_call (call_id c) s).
Proof.
  intros Hinv Hin Hc. destruct (aborted_old s c Hinv Hin Hc) as [(old' & c' & Hcs' & _ & _ & Hlt)|Hb].
  - destruct (ref_not_mine (call_id c) s Hinv) as [R1 R2]; [lia|].
    destruct Hinv as [Hi|old c0 before m Hb Hcs Hold Hid Ha Hrefs Hms Hl Hbf].
    { now apply ChatIdle, finish_idle. }
    apply (ChatActive _ (List.filter (fun x => negb (has_call (call_id c) x)) old) c0 before m);
      cbn; try easy.
    + replace (ch_generation s =? call_id c) with false by (symmetry; apply Nat.eqb_neq; lia). easy.
    + rewrite Hcs, List.filter_app. cbn. unfold has_call at 2. rewrite Hid.
      replace (ch_generation s =? call_id c) with false by (symmetry; apply Nat.eqb_neq; lia). easy.
    + now apply aborted_filter.
    + unfold refs_of in *. cbn. now rewrite R1, R2.
  - destruct Hinv as [Hi|]; [now apply ChatIdle, finish_idle|congruence].
Qed.

Lemma remode_idle s k mode : Idle s -> Idle (set_calls (map_call k (set_mode mode) (ch_calls s)) s).
Proof. intros []. constructor; try easy. now apply aborted_map. Qed.

Lemma remode_aborted s c mode :
  ChatInv s -> In c (ch_calls s) -> call_aborted c = true ->
  ChatInv (set_calls (map_call (call_id c) (set_mode mode) (ch_calls s)) s).
Proof.
  intros Hinv Hin Hc. pose proof (aborted_old s c Hinv Hin Hc) as Hold'.
  destruct Hinv as [Hi|old c0 before m Hb Hcs Hold Hid Ha Hrefs Hms Hl Hbf].
  - now apply ChatIdle, remode_idle.
  - destruct Hold' as [(_ & _ & _ & _ & _ & Hlt)|]; [|congruence].
    apply (ChatActive _ (map_call (call_id c) (set_mode mode) old) c0 before m); cbn; try easy.
    + rewrite Hcs. unfold map_call. rewrite map_app. cbn. unfold has_call at 2. rewrite Hid.
      now replace (ch_generation s =? call_id c) with false by (symmetry; apply Nat.eqb_neq; lia).
    + now apply aborted_map.
Qed.

Section Events.
Context (nanoid : nat -> jstr) (t : jstr -> jstr)
        (syntax_error : jstr -> jstr) (type_error : jstr).

Abbreviation event := (call_event t syntax_error type_error).

(** The call in flight and the message it writes to. *)
Record Active (s : Chat) (old : list Call) (c : Call) (before : list Message) (m : Message) : Prop := {
  ac_busy : ch_busy s = true;
  ac_calls : ch_calls s = old ++ [c];
  ac_old : aborted_below (ch_generation s) old;
  ac_id : call_id c = ch_generation s;
  ac_running : call_aborted c = false;
  ac_refs : refs_of s (call_mode c);
  ac_messages : ch_messages s = before ++ [m];
  ac_live : live m = true;
  ac_before : none_live before = true
}.

Lemma active_inv s old c before m : Active s old c before m -> ChatInv s.
Proof. intros []. econstructor 2; eassumption. Qed.

(** The last message is rewritten and still waits. *)
Lemma active_written s old c before m m' :
  Active s old c before m -> live m' = true -> Active (set_messages (before ++ [m']) s) old c before m'.
Proof. intros [] Hl. now constructor. Qed.

Lemma active_remode s old c before m mode :
  Active s old c before m -> refs_of s mode ->
  Active (set_calls (map_call (call_id c) (set_mode mode) (ch_calls s)) s) old (set_mode mode c) before m.
Proof.
  intros [] Hr. constructor; try easy. cbn. rewrite ac_calls0, ac_id0.
  unfold map_call at 1. rewrite map_app. fold (map_call (ch_generation s) (set_mode mode) old).
  destruct (below_no_call _ _ ac_old0 (set_mode mode)) as [-> _]. cbn. unfold has_call.
  now rewrite ac_id0, Nat.eqb_refl.
Qed.

(** The last message gets a final status and the call returns. *)
Lemma active_ended s old c before m m' :
  Active s old c before m -> 
  (exists st, m_status m' = Some st /\ st <> Loading /\ st <> Streaming) ->
  ChatInv (finish_call (call_id c) (set_messages (before ++ [m']) s)).
Proof.
  intros [] (st & Hs & H1 & H2). rewrite ac_id0.
  apply ChatIdle, (finish_current (set_messages (before ++ [m']) s) old c); try easy.
  now apply (ended_not_live before m' st).
Qed.

Lemma active_error s old c before m e code :
  Active s old c before m -> ChatInv (finish_call (call_id c) (onError t e code s)).
Proof.
  intros Ha. pose proof Ha as []. unfold onError, updateAssistantMessageWithError.
  rewrite ac_messages0, update_last_at by now apply live_from.
  apply (active_ended s old c before m _ Ha). now exists Failed.
Qed.

Lemma active_update s old c before m f :
  Active s old c before m -> update_last f s = set_messages (before ++ [f m]) s.
Proof.
  intros []. unfold update_last. now rewrite ac_messages0, update_last_at by now apply live_from.
Qed.

Lemma active_complete s old c before m f :
  Active s old c before m -> m_status (f m) = Some Complete ->
  ChatInv (finish_call (call_id c) (update_last f s)).
Proof.
  intros Ha Hf. rewrite (active_update _ _ _ _ _ f Ha). apply (active_ended s old c before m _ Ha).
  now exists Complete.
Qed.

Lemma find_last old c g :
  aborted_below g old -> call_id c = g -> List.find (has_call g) (old ++ [c]) = Some c.
Proof.
  induction 1 as [|x old [_ Hx] _ IH]; intros Hc; cbn; unfold has_call.
  - now rewrite Hc, Nat.eqb_refl.
  - replace (call_id x =? g) with false by (symmetry; apply Nat.eqb_neq; lia). now apply IH.
Qed.

(** Whatever the network answers to the call in flight. *)
Lemma active_event s old c before m e :
  Active s old c before m -> ChatInv (event (call_id c) e s).
Proof.
  intros Ha. pose proof Ha as []. unfold call_event.
  rewrite ac_calls0, ac_id0, (find_last old c _ ac_old0 ac_id0), ac_running0. rewrite <- ac_id0.
  destruct (call_mode c) as [|st| |] eqn:Em; destruct e as [status body|id has|text done| |msg|resp|msg code];
    try exact (active_inv _ _ _ _ _ Ha); try (eapply active_error; eassumption).
  - destruct (http_error status body) as [msg code]. (eapply active_error; eassumption).
  - assert (Hacc : exists m', Active (match id with
        | Some (_ :: _) => update_last (apply_metadata {| md_requestId := id; md_model := None;
                                         md_usage := None; md_toolCalls := None |}) s
        | _ => s end) old c before m').
    { destruct id as [[|x id]|]; [now exists m| |now exists m]. rewrite (active_update _ _ _ _ _ _ Ha).
      eexists. apply (active_written _ _ _ _ _ _ Ha). exact (apply_update_live (OnMetadata _) m ac_live0). }
    destruct Hacc as [m' Ha']. destruct has; [|(eapply active_error; eassumption)].
    pose proof (ac_refs _ _ _ _ _ Ha') as Hr. rewrite Em in Hr.
    eapply active_inv, active_remode; [exact Ha'|exact Hr].
  - destruct (read_chunk syntax_error type_error text done st) as [us r] eqn:Er.
    destruct (apply_updates_live us before m ac_live0) as (m' & Hl & Hu).
    rewrite ac_messages0, Hu. pose proof (active_written _ _ _ _ _ m' Ha Hl) as Ha'.
    destruct r as [st'| |message].
    + eapply active_inv, active_remode; [exact Ha'|]. cbn in ac_refs0 |- *. exact ac_refs0.
    + eapply active_inv, active_remode; [exact Ha'|]. cbn in ac_refs0 |- *. exact ac_refs0.
    + (eapply active_error; eassumption).
  - eapply active_complete; [exact Ha|reflexivity].
  - destruct (plain_choice resp) as [choice|]; [|(eapply active_error; eassumption)].
    eapply active_complete; [exact Ha|reflexivity].
Qed.

(** Whatever is answered to an aborted call, the messages stay. *)
Lemma aborted_event s c e :
  List.find (has_call (call_id c)) (ch_calls s) = Some c -> call_aborted c = true ->
  ch_messages (event (call_id c) e s) = ch_messages s /\
  (Idle s -> Idle (event (call_id c) e s)) /\
  (ChatInv s -> ChatInv (event (call_id c) e s)).
Proof.
  intros Hf Hc. pose proof (find_some _ _ Hf) as [Hin _]. unfold call_event. rewrite Hf, Hc.
  destruct (call_mode c), e; try (now split);
    try (split; [reflexivity|split; [apply finish_idle|intros Hi; now apply finish_aborted]]).
  - destruct (http_error _ _).
    split; [reflexivity|split; [apply finish_idle|intros Hi; now apply finish_aborted]].
  - destruct has_body.
    + split; [reflexivity|]. split; [apply remode_idle|intros Hi; now apply remode_aborted].
    + split; [reflexivity|split; [apply finish_idle|intros Hi; now apply finish_aborted]].
Qed.

Lemma event_inv s k e : ChatInv s -> ChatInv (event k e s).
Proof.
  intros Hinv. destruct (List.find (has_call k) (ch_calls s)) as [c|] eqn:Ef.
  - pose proof (find_some _ _ Ef) as [Hin Hk]. apply Nat.eqb_eq in Hk. subst k.
    destruct (call_aborted c) eqn:Ea; [now apply (aborted_event s c e Ef Ea)|].
    destruct Hinv as [[_ _ _ _ _ Hall _]|old c0 before m Hb Hcs Hold Hid Ha Hrefs Hms Hl Hbf].
    + unfold aborted_below in Hall. rewrite List.Forall_forall in Hall. apply Hall in Hin as [? _].
      congruence.
    + assert (c = c0) as ->.
      { rewrite Hcs in Hin. apply in_app_iff in Hin as [Hin|[->|[]]]; [|easy].
        unfold aborted_below in Hold. rewrite List.Forall_forall in Hold.
        apply Hold in Hin as [? _]. congruence. }
      now apply (active_event s old c0 before m).
  - unfold call_event. now rewrite Ef.
Qed.

Lemma idle_event s k e :
  Idle s -> Idle (event k e s) /\ ch_messages (event k e s) = ch_messages s.
Proof.
  intros Hi. destruct (List.find (has_call k) (ch_calls s)) as [c|] eqn:Ef.
  - pose proof (find_some _ _ Ef) as [Hin Hk]. apply Nat.eqb_eq in Hk. subst k.
    pose proof (idle_calls s Hi) as Hall. unfold aborted_below in Hall.
    rewrite List.Forall_forall in Hall. apply Hall in Hin as [Ha _].
    destruct (aborted_event s c e Ef Ha) as (Em & H & _). now split; [apply H|].
  - unfold call_event. now rewrite Ef.
Qed.

Lemma stop_idle s : ChatInv s -> Idle (stopGeneration s).
Proof.
  intros Hinv. assert (Hcalls : aborted_below (S (S (ch_generation s)))
      (abort_ref (ch_request s) (abort_ref (ch_controller s) (ch_calls s)))
    /\ none_live (updateLastAssistantMessage (ch_messages s) cancel_message) = true).
  { destruct Hinv as [[_ Hc Hr _ _ Hall Hm]|old c before m Hb Hcs Hold Hid Ha Hrefs Hms Hl Hbf].
    - rewrite Hc, Hr. split; [eapply aborted_weaken; [|exact Hall]; lia|].
      unfold updateLastAssistantMessage. destruct (rev (ch_messages s)) as [|m b] eqn:E; [easy|].
      assert (Em : ch_messages s = rev b ++ [m]) by (rewrite <- (rev_involutive (ch_messages s)), E; easy).
      rewrite Em in Hm. rewrite none_live_app in Hm. bool_hyps.
      destruct (from_is Assistant m) eqn:Ef; [|now rewrite Em, none_live_app; bool_hyps; rewrite H].
      assert (Hlm : live m = false) by (unfold none_live in H0; cbn in H0; now destruct (live m)).
      unfold cancel_message. unfold live in Hlm. rewrite Ef in Hlm. cbn in Hlm. rewrite Hlm.
      now rewrite none_live_app, H, H0.
    - rewrite Hms, update_last_at by now apply live_from. split.
      + assert (Habort : abort_ref (ch_request s) (abort_ref (ch_controller s) (ch_calls s))
                         = old ++ [abort c]).
        { destruct (below_no_call _ _ Hold abort) as [E _]. rewrite Hcs.
          destruct (call_mode c); destruct Hrefs as (-> & -> & _); cbn;
            unfold map_call in *; rewrite map_app, E; cbn; unfold has_call;
            now rewrite Hid, Nat.eqb_refl. }
        rewrite Habort. apply Forall_app. split; [eapply aborted_weaken; [|exact Hold]; lia|].
        constructor; [|constructor]. cbn. split; [easy|lia].
      + apply (ended_not_live _ _ Cancelled); try easy. unfold cancel_message.
        unfold live in Hl. apply andb_true_iff in Hl as [_ ->]. easy. }
  destruct Hcalls. now constructor.
Qed.

(** ** The user's actions *)

Abbreviation act := (step nanoid t syntax_error type_error).
Abbreviation acts := (run nanoid t syntax_error type_error).

Lemma generating_idle s : ChatInv s -> isGenerating s = false -> Idle s.
Proof.
  intros [Hi|old c before m _ _ _ _ _ Hr _ _ _] Hg; [easy|]. unfold isGenerating in Hg.
  destruct (call_mode c); destruct Hr as (_ & _ & Hs & Hq); rewrite Hs, Hq in Hg; easy.
Qed.

Lemma idle_generating s : Idle s -> isGenerating s = false.
Proof. intros []. unfold isGenerating. now rewrite idle_streaming0, idle_requesting0. Qed.

(** A request that starts is the only call in flight, and its message is the last. *)
Lemma start_started co next attempts s :
  Idle s -> co_available co = true ->
  exists c m,
    let s' := startRequest nanoid co next attempts s in
    ch_calls s' = ch_calls s ++ [c] /\ ch_messages s' = next ++ [m] /\
    live m = true /\ isValidMessage m = false /\
    call_payload c = buildChatCompletionPayload (next ++ [m]) (co_config co) (co_enabled co) /\
    (none_live next = true -> ChatInv s').
Proof.
  intros [Hb Hc Hr H1 H2 Hold Hm] Hav. unfold startRequest, isGenerating. rewrite H1, H2, Hav.
  cbn [orb negb]. destruct (createLoadingAssistantMessage nanoid (ch_ids s)) as [m n] eqn:Em.
  injection Em as <- _. unfold sendChat. cbn [ch_busy set_ids set_messages]. rewrite Hb.
  cbn -[buildChatCompletionPayload]. rewrite Hc, Hr. cbn -[buildChatCompletionPayload].
  match goal with |- context [buildChatCompletionPayload ?a ?b ?d] =>
    pose (c := {| call_id := S (ch_generation s);
                  call_mode := if pg_stream (co_config co) then AwaitResponse else PlainCall;
                  call_aborted := false;
                  call_payload := buildChatCompletionPayload a b d |}) end.
  exists c. eexists.
  split; [destruct (pg_stream (co_config co)); reflexivity|].
  split; [reflexivity|]. split; [reflexivity|]. split; [reflexivity|]. split; [reflexivity|].
  intros Hn. eapply (ChatActive _ (ch_calls s) c); cbn -[buildChatCompletionPayload].
  - reflexivity.
  - destruct (pg_stream (co_config co)); reflexivity.
  - eapply aborted_weaken; [|exact Hold]. lia.
  - reflexivity.
  - reflexivity.
  - unfold refs_of. cbn. destruct (pg_stream (co_config co)); cbn; now rewrite ?H1, ?H2.
  - reflexivity.
  - reflexivity.
  - exact Hn.
Qed.

Lemma start_inv co next attempts s :
  ChatInv s -> none_live next = true -> ChatInv (startRequest nanoid co next attempts s).
Proof.
  intros Hinv Hn. destruct (isGenerating s) eqn:Hg; [unfold startRequest; now rewrite Hg|].
  destruct (co_available co) eqn:Hav.
  - destruct (start_started co next attempts s (generating_idle s Hinv Hg) Hav)
      as (c & m & _ & _ & _ & _ & _ & H). now apply H.
  - unfold startRequest. now rewrite Hg, Hav.
Qed.

Lemma none_live_Forall ms : none_live ms = true <-> Forall (fun m => live m = false) ms.
Proof.
  unfold none_live. rewrite forallb_forall, List.Forall_forall.
  split; intros H m Hin; specialize (H m Hin); now destruct (live m).
Qed.

Lemma none_live_take n ms : none_live ms = true -> none_live (take n ms) = true.
Proof. rewrite !none_live_Forall. apply Forall_take. Qed.

Lemma none_live_edit key content ms :
  none_live ms = true ->
  none_live (map (fun m => if has_key key m then edit_content content m else m) ms) = true.
Proof.
  rewrite !none_live_Forall. intros H. apply Forall_map. eapply Forall_impl; [exact H|].
  intros m Hm. cbn. now destruct (has_key key m).
Qed.

Lemma none_live_filter f ms : none_live ms = true -> none_live (List.filter f ms) = true.
Proof.
  rewrite !none_live_Forall, !List.Forall_forall. intros H m [Hin _]%filter_In. now apply H.
Qed.

Lemma set_messages_idle ms s : Idle s -> none_live ms = true -> Idle (set_messages ms s).
Proof. intros [] H. now constructor. Qed.

Lemma chat_step_inv a s : ChatInv s -> ChatInv (act a s).
Proof.
  intros Hinv. destruct a as [co text|co key|co key content submit|key| |k e]; cbn [step].
  - unfold sendMessage. destruct (_ || isGenerating s) eqn:Hg; [easy|].
    apply orb_false_iff in Hg as [_ Hg]. pose proof (generating_idle s Hinv Hg) as Hi.
    destruct (createUserMessage nanoid text (ch_ids s)) as [m n] eqn:Em. injection Em as <- _.
    apply start_inv.
    + apply ChatIdle. destruct Hi. now constructor.
    + rewrite none_live_app, (idle_messages s Hi). reflexivity.
  - unfold regenerate. destruct (findIndex _ _) as [i|]; [|easy].
    destruct (ch_messages s !! i) as [m|]; [|easy].
    destruct (isGenerating s) eqn:Hg; [unfold startRequest; now rewrite Hg|].
    apply start_inv; [easy|]. apply none_live_take.
    exact (idle_messages s (generating_idle s Hinv Hg)).
  - unfold applyEdit. destruct (findIndex _ _) as [i|]; [|easy].
    destruct (isGenerating s) eqn:Hg; [easy|]. pose proof (generating_idle s Hinv Hg) as Hi.
    pose proof (none_live_edit key content _ (idle_messages s Hi)) as He.
    destruct (submit && _).
    + apply start_inv; [easy|]. now apply none_live_take.
    + now apply ChatIdle, set_messages_idle.
  - unfold deleteMessage. destruct (isGenerating s) eqn:Hg; [easy|].
    pose proof (generating_idle s Hinv Hg) as Hi.
    apply ChatIdle, set_messages_idle; [easy|]. apply none_live_filter, Hi.
  - now apply ChatIdle, stop_idle.
  - now apply event_inv.
Qed.

Lemma run_inv actions s : ChatInv s -> ChatInv (acts actions s).
Proof. revert s; induction actions as [|a l IH]; intros s H; [easy|]. now apply IH, chat_step_inv. Qed.

Lemma start_idle ms : none_live ms = true -> Idle (start_chat ms).
Proof. intros H. constructor; try easy. constructor. Qed.

(** The states the chat can be in, from a stored session. *)
Definition reachable (s : Chat) : Prop :=
  exists ms actions, none_live ms = true /\ s = acts actions (start_chat ms).

Lemma reachable_inv s : reachable s -> ChatInv s.
Proof. intros (ms & l & H & ->). now apply run_inv, ChatIdle, start_idle. Qed.

(** ** Properties *)

(** C15: In every state the user and the network can bring the chat to, at most one
    call is in flight: it is the last one, of the current generation, it holds the
    busy mark and the one controller that can abort it, and the last message is the
    only one that waits for an answer.  When none is in flight nothing is marked busy
    and no message waits. *)
Theorem chat_invariant s : reachable s -> ChatInv s.
Proof. apply reachable_inv. Qed.

Definition is_event (a : Action) : Prop := match a with Event _ _ => True | _ => False end.

Lemma idle_events events s :
  Forall is_event events -> Idle s ->
  Idle (acts events s) /\ ch_messages (acts events s) = ch_messages s.
Proof.
  intros H; revert s; induction H as [|a l Ha _ IH]; intros s Hi; [easy|].
  destruct a as [| | | | |k e]; try easy.
  destruct (idle_event s k e Hi) as [Hi' Hm]. cbn [run fold_left step].
  destruct (IH _ Hi') as [H1 H2]. split; [exact H1|]. exact (eq_trans H2 Hm).
Qed.

(** C16: After the user stops the answer, nothing the network still delivers changes a
    message or revives a request: what was shown when the button was pressed stays,
    in whatever order the late events of any aborted call come. *)
Theorem stop_final s events :
  reachable s -> Forall is_event events ->
  let stopped := act Stop s in
  ch_messages (acts events stopped) = ch_messages stopped /\
  isGenerating (acts events stopped) = false /\
  none_live (ch_messages (acts events stopped)) = true.
Proof.
  intros Hs He stopped. destruct (idle_events events stopped He) as [Hi Hm].
  - apply stop_idle. now apply reachable_inv.
  - split; [exact Hm|]. split; [now apply idle_generating|apply Hi].
Qed.

(** The event that ends a call in the stage where it is. *)
Definition ends (mode : CallMode) (e : CallEvent) : bool :=
  match mode, e with
  | AwaitResponse, (Refused _ _ | Accepted _ false | NetworkError _) => true
  | ReadingBody _, NetworkError _ => true
  | Closing, (Closed | NetworkError _) => true
  | PlainCall, (Answered _ | PlainFailure _ _) => true
  | _, _ => false
  end.

(** Every call that has not returned gets, at some moment, an event that ends it in the
    stage it has reached by then. *)
Definition fair (events : list Action) (s : Chat) : Prop :=
  forall c, In c (ch_calls s) ->
    exists e1 e e2, events = e1 ++ Event (call_id c) e :: e2 /\
      forall c', List.find (has_call (call_id c)) (ch_calls (acts e1 s)) = Some c' ->
        ends (call_mode c') e = true.

Definition ids (s : Chat) : list nat := map call_id (ch_calls s).

Lemma ids_finish k s x : In x (ids (finish_call k s)) -> In x (ids s) /\ x <> k.
Proof.
  unfold ids. cbn. rewrite !in_map_iff. intros (c & <- & [Hin Hk]%filter_In).
  split; [now exists c|]. intros <-. unfold has_call in Hk. now rewrite Nat.eqb_refl in Hk.
Qed.

Lemma ids_remode k mode s : ids (set_calls (map_call k (set_mode mode) (ch_calls s)) s) = ids s.
Proof.
  unfold ids, map_call. cbn. rewrite map_map. apply map_ext. intros c. now destruct (has_call k c).
Qed.

(** What an event does to the list of calls. *)
Lemma event_shape k e s :
  exists s', ch_calls s' = ch_calls s /\
    (event k e s = finish_call k s' \/
     ((event k e s = s' \/
       exists mode, event k e s = set_calls (map_call k (set_mode mode) (ch_calls s')) s') /\
      forall c, List.find (has_call k) (ch_calls s) = Some c -> ends (call_mode c) e = false)).
Proof.
  unfold call_event. destruct (List.find _ _) as [c|]; [|exists s; split; [easy|right]; split; [now left|easy]].
  destruct (call_mode c) as [|st| |] eqn:Em; destruct e as [status body|id has|text done| |msg|resp|msg code];
    try (exists s; split; [easy|right; split; [now left|]; intros c' [= <-]; now rewrite Em]).
  - destruct (http_error status body) as [m code]. eexists. split; [|left; reflexivity].
    now destruct (call_aborted c).
  - destruct has.
    + eexists. split; [|right; split; [right; eexists; reflexivity|]; intros c' [= <-]; now rewrite Em].
      destruct (call_aborted c), id as [[|]|]; easy.
    + eexists. split; [|left; reflexivity]. destruct (call_aborted c), id as [[|]|]; easy.
  - eexists. split; [|left; reflexivity]. now destruct (call_aborted c).
  - destruct (call_aborted c); [now exists s; split; [|left]|].
    destruct (read_chunk syntax_error type_error text done st) as [us [st'| |m]] eqn:Er.
    + eexists. split; [|right; split; [right; eexists; reflexivity|]; intros c' [= <-]; now rewrite Em].
      reflexivity.
    + eexists. split; [|right; split; [right; eexists; reflexivity|]; intros c' [= <-]; now rewrite Em].
      reflexivity.
    + eexists. split; [|left; reflexivity]. easy.
  - eexists. split; [|left; reflexivity]. now destruct (call_aborted c).
  - eexists. split; [|left; reflexivity]. now destruct (call_aborted c).
  - eexists. split; [|left; reflexivity]. now destruct (call_aborted c).
  - eexists. split; [|left; reflexivity]. destruct (call_aborted c), (plain_choice resp); easy.
  - eexists. split; [|left; reflexivity]. now destruct (call_aborted c).
Qed.

Lemma ids_event k e s x : In x (ids (event k e s)) -> In x (ids s).
Proof.
  destruct (event_shape k e s) as (s' & Hc & [->|[[->|[mode ->]] _]]).
  - intros [H _]%ids_finish. unfold ids in *. now rewrite <- Hc.
  - unfold ids. now rewrite Hc.
  - rewrite ids_remode. unfold ids. now rewrite Hc.
Qed.

Lemma ids_events events s x : Forall is_event events -> In x (ids (acts events s)) -> In x (ids s).
Proof.
  intros H; revert s; induction H as [|a l Ha _ IH]; intros s Hx; [easy|].
  destruct a as [| | | | |k e]; try easy. apply IH in Hx. now apply ids_event in Hx.
Qed.

(** A call that gets its last event is gone, and stays so. *)
Lemma event_ends k e s :
  (forall c, List.find (has_call k) (ch_calls s) = Some c -> ends (call_mode c) e = true) ->
  ~ In k (ids (event k e s)).
Proof.
  intros He Hin. destruct (List.find (has_call k) (ch_calls s)) as [c|] eqn:Ef.
  - specialize (He c eq_refl).
    destruct (event_shape k e s) as (s' & Hc & [E|[_ Hn]]); [|specialize (Hn c Ef); congruence].
    rewrite E in Hin. apply ids_finish in Hin. easy.
  - apply ids_event in Hin. unfold ids in Hin. apply in_map_iff in Hin as (c & <- & Hin).
    pose proof (find_none _ _ Ef c Hin) as H. unfold has_call in H. now rewrite Nat.eqb_refl in H.
Qed.

(** C17: The chat always comes to rest: once every call that has not returned gets an
    event that ends it, in any order and among any other events, no call is left, the
    composer is free again and no message waits for an answer. *)
Theorem generation_ends s events :
  reachable s -> Forall is_event events -> fair events s ->
  let s' := acts events s in
  ch_calls s' = [] /\ isGenerating s' = false /\ ch_busy s' = false /\
  none_live (ch_messages s') = true.
Proof.
  intros Hs He Hf s'.
  assert (Hnone : ch_calls s' = []).
  { destruct (ch_calls s') as [|c l] eqn:E; [easy|exfalso].
    assert (Hc : In (call_id c) (ids s')) by (unfold ids; rewrite E; now left).
    pose proof (ids_events events s _ He Hc) as Hin. unfold ids in Hin.
    apply in_map_iff in Hin as (c0 & Hid & Hin). destruct (Hf c0 Hin) as (e1 & e & e2 & -> & Hends).
    apply Forall_app in He as [_ He2]. apply Forall_cons_1 in He2 as [_ He2].
    unfold s', run in Hc. rewrite fold_left_app in Hc. cbn [fold_left step] in Hc.
    apply ids_events in Hc; [|exact He2]. rewrite <- Hid in Hc.
    revert Hc. now apply event_ends. }
  destruct (run_inv events s (reachable_inv s Hs)) as [Hi|old c before m _ Hcs _ _ _ _ _ _ _].
  - fold s' in Hi. split; [easy|]. split; [now apply idle_generating|]. split; apply Hi.
  - fold s' in Hcs. rewrite Hnone in Hcs. now destruct old.
Qed.

(** Sending a text adds it and one waiting answer to the messages and starts exactly
    one request, whose messages are the system prompt, the valid earlier messages and
    the new text last: the placeholder is never sent. *)
Theorem send_request s co text :
  reachable s -> isGenerating s = false -> co_available co = true -> trim text <> [] ->
  exists c u m,
    let s' := act (Send co text) s in
    ch_calls s' = ch_calls s ++ [c] /\ ch_messages s' = ch_messages s ++ [u; m] /\
    m_from u = User /\ content_of u = text /\ live m = true /\
    obj_get "messages" (call_payload c) =
      Some (JArr (map chat_json (processed_messages (ch_messages s) (co_config co)
                                 ++ [{| role := User; content := text |}]))).
Proof.
  intros Hs Hg Hav Ht. pose proof (generating_idle s (reachable_inv s Hs) Hg) as Hi.
  cbn [step]. unfold sendMessage. apply truthy_iff in Ht. rewrite Ht, Hav, Hg. cbn [orb negb].
  destruct (createUserMessage nanoid text (ch_ids s)) as [u n] eqn:Eu. injection Eu as <- _.
  set (u := blank_message _ _ _). 
  destruct (start_started co (ch_messages s ++ [u]) None (set_ids n s)) as (c & m & Hc & Hm & Hl & Hv & Hp & _);
    [now destruct Hi|easy|].
  exists c, u, m. split; [exact Hc|]. split; [rewrite Hm, <- app_assoc; reflexivity|].
  split; [reflexivity|]. split; [reflexivity|]. split; [exact Hl|].
  rewrite Hp. rewrite <- app_assoc. unfold buildChatCompletionPayload. cbn [app obj_get].
  rewrite processed_app. cbn [List.filter]. rewrite Hv. reflexivity.
Qed.

(** A session that is stored at any moment, even while an answer arrives, is opened
    again with no message that waits: only its last message is touched. *)
Theorem reload_safe s :
  reachable s ->
  let opened := sanitizeMessagesOnLoad (ch_messages s) in
  none_live opened = true /\
  (opened = ch_messages s \/
   exists before m, ch_messages s = before ++ [m] /\ opened = before ++ [sanitize_message m]).
Proof.
  intros Hs. destruct (reachable_inv s Hs) as [Hi|old c before m _ _ _ _ _ _ Hms Hl Hb].
  - rewrite sanitize_none by apply Hi. split; [apply Hi|now left].
  - rewrite Hms, sanitize_at by easy. split.
    + rewrite none_live_app, Hb. cbn. now rewrite sanitize_not_live.
    + right. now exists before, m.
Qed.
End Events.

(** ** Witnesses *)

Definition demo_nanoid (n : nat) : jstr := digits (N.of_nat n).
Definition demo_t (s : jstr) : jstr := s.

Definition demo_composer : Composer :=
  {| co_config := {| pg_model := "gpt-4o"; pg_group := "auto"; pg_temperature := zero;
                     pg_top_p := of_Z 1; pg_max_tokens := of_Z 4096; pg_frequency_penalty := zero;
                     pg_presence_penalty := zero; pg_seed := None; pg_stream := true;
                     pg_systemPrompt := None |};
     co_enabled := {| on_temperature := true; on_top_p := true; on_max_tokens := false;
                      on_frequency_penalty := true; on_presence_penalty := true;
                      on_seed := false |};
     co_available := true |}.

Abbreviation demo_step := (step demo_nanoid demo_t demo_t "TypeError").
Abbreviation demo_reachable := (reachable demo_nanoid demo_t demo_t "TypeError").

(** A text was sent and half of the answer has arrived. *)
Definition demo_actions : list Action :=
  [ Send demo_composer "Hi"; Event 1 (Accepted None true);
    Event 1 (Chunk ("data: {" ++ quote "choices" ++ ":[{" ++ quote "delta" ++ ":{" ++ quote "content"
                    ++ ":" ++ quote "Hel" ++ "}}]}" ++ [10%N; 10%N]) false) ].

Definition demo_state : Chat := run demo_nanoid demo_t demo_t "TypeError" demo_actions (start_chat []).

Lemma demo_is_reachable : demo_reachable demo_state.
Proof. exists [], demo_actions. now split. Qed.

Example demo_answer : map content_of (ch_messages demo_state) = ["Hi"; "Hel"%js].
Proof. vm_compute. reflexivity. Qed.

Lemma chat_invariant_witness : demo_reachable demo_state /\ ChatInv demo_state.
Proof.
  split; [exact demo_is_reachable|].
  exact (chat_invariant demo_nanoid demo_t demo_t "TypeError" demo_state demo_is_reachable).
Defined.

Lemma stop_final_witness :
  exists late, Forall is_event late /\
    ch_messages (run demo_nanoid demo_t demo_t "TypeError" late (demo_step Stop demo_state)) =
      ch_messages (demo_step Stop demo_state).
Proof.
  exists [Event 1 (Chunk "data: [DONE]" true)]. split; [repeat constructor|].
  apply (stop_final demo_nanoid demo_t demo_t "TypeError" demo_state); [exact demo_is_reachable|].
  repeat constructor.
Defined.

Lemma generation_ends_witness :
  exists events, Forall is_event events /\
    isGenerating (run demo_nanoid demo_t demo_t "TypeError" events demo_state) = false.
Proof.
  exists [Event 1 (NetworkError "lost")]. split; [repeat constructor|].
  apply (generation_ends demo_nanoid demo_t demo_t "TypeError" demo_state);
    [exact demo_is_reachable|repeat constructor|].
  intros c [<-|[]]. exists [], (NetworkError "lost"), []. split; [reflexivity|].
  intros c' [= <-]. reflexivity.
Defined.

Lemma send_request_witness :
  demo_reachable (start_chat []) /\
  exists c u m, let s' := demo_step (Send demo_composer "Hi") (start_chat []) in
    ch_calls s' = [c] /\ ch_messages s' = [u; m] /\ content_of u = "Hi" /\
    obj_get "messages" (call_payload c) = Some (JArr [chat_json {| role := User; content := "Hi" |}]).
Proof.
  assert (Hr : demo_reachable (start_chat [])) by (now exists [], []).
  split; [exact Hr|].
  destruct (send_request demo_nanoid demo_t demo_t "TypeError" (start_chat []) demo_composer "Hi")
    as (c & u & m & Hc & Hm & _ & Hu & _ & Hp); [exact Hr|reflexivity|reflexivity|easy|].
  exists c, u, m. now repeat split.
Defined.

Lemma reload_safe_witness :
  demo_reachable demo_state /\ none_live (sanitizeMessagesOnLoad (ch_messages demo_state)) = true.
Proof.
  split; [exact demo_is_reachable|].
  now apply (reload_safe demo_nanoid demo_t demo_t "TypeError" demo_state demo_is_reachable).
Defined.

Lemma stream_framing_witness :
  exists chunks, List.concat chunks = "data: [DONE]" ++ [13; 10; 13; 10]%N /\
    read_all demo_t "TypeError" chunks stream_start = ([], ReadComplete).
Proof.
  exists ["data: [DO"; "NE]" ++ [13%N]; [10; 13]%N; [10%N]]. split; [reflexivity|].
  rewrite (stream_framing demo_t "TypeError"); [vm_compute; reflexivity|].
  intros [|x [|y pre]] e post E _; vm_compute in E; [|easy|easy]. now injection E.
Defined.
