(* ===== verification/ParamOverride.v ===== *)
(** Model of the parameter override editor,
    [web/default/src/features/channels/components/dialogs/param-override-editor-dialog.tsx]:
    its tables and templates, the reading of a stored override into operations, the
    drafts of the structured values, the validation and the JSON it saves.

    Values of type [unknown] are [option json] ([None] is [undefined]); what throws
    is in [exc].  Local identifiers are drawn from the module's counter: [clock k] is
    the value of [Date.now()] when identifier [k] is drawn.  [toUpperCase] and
    [toLowerCase] are only compared with ASCII words that no other letter maps to,
    so that the ASCII mapping is exact. *)

From S2P Require Import Prelude Number Json.
From stdpp Require Import options.

(** * Tables *)

Definition OPERATION_MODE_OPTIONS : list (jstr * jstr) :=   (* label, value *)
  [ ("Set Field", "set"); ("Delete Field", "delete"); ("Append to End", "append");
    ("Prepend to Start", "prepend"); ("Copy Field", "copy"); ("Move Field", "move");
    ("String Replace", "replace"); ("Regex Replace", "regex_replace");
    ("Trim Prefix", "trim_prefix"); ("Trim Suffix", "trim_suffix");
    ("Ensure Prefix", "ensure_prefix"); ("Ensure Suffix", "ensure_suffix");
    ("Trim Space", "trim_space"); ("To Lowercase", "to_lower"); ("To Uppercase", "to_upper");
    ("Return Custom Error", "return_error"); ("Prune Object Items", "prune_objects");
    ("Pass Through Headers", "pass_headers"); ("Sync Fields", "sync_fields");
    ("Set Request Header", "set_header"); ("Delete Request Header", "delete_header");
    ("Copy Request Header", "copy_header"); ("Move Request Header", "move_header") ].

Definition OPERATION_MODE_VALUES : list jstr := map snd OPERATION_MODE_OPTIONS.

Definition OPERATION_MODE_LABEL_MAP : list (jstr * jstr) :=
  fold_left (fun acc item => obj_set (snd item) (fst item) acc) OPERATION_MODE_OPTIONS [].

Definition CONDITION_MODE_OPTIONS : list (jstr * jstr) :=
  [ ("Exact Match", "full"); ("Prefix", "prefix"); ("Suffix", "suffix");
    ("Contains", "contains"); ("Greater Than", "gt"); ("Greater Than or Equal", "gte");
    ("Less Than", "lt"); ("Less Than or Equal", "lte") ].

Definition CONDITION_MODE_VALUES : list jstr := map snd CONDITION_MODE_OPTIONS.

(** Which fields a mode has. *)
Record ModeMeta := {
  m_path : bool;
  m_pathOptional : bool;
  m_value : bool;
  m_from : bool;
  m_to : bool;
  m_keepOrigin : bool;
  m_pathAlias : bool
}.

Inductive MetaField := MPath | MPathOptional | MValue | MFrom | MTo | MKeepOrigin | MPathAlias.

#[export] Instance MetaField_eq_dec : EqDecision MetaField.
Proof. solve_decision. Defined.

Definition meta (l : list MetaField) : ModeMeta :=
  let has f := bool_decide (f ∈ l) in
  {| m_path := has MPath; m_pathOptional := has MPathOptional; m_value := has MValue;
     m_from := has MFrom; m_to := has MTo; m_keepOrigin := has MKeepOrigin;
     m_pathAlias := has MPathAlias |}.

Definition MODE_META : list (jstr * ModeMeta) :=
  [ ("delete", meta [MPath]);
    ("set", meta [MPath; MValue; MKeepOrigin]);
    ("append", meta [MPath; MValue; MKeepOrigin]);
    ("prepend", meta [MPath; MValue; MKeepOrigin]);
    ("copy", meta [MFrom; MTo]);
    ("move", meta [MFrom; MTo]);
    ("replace", meta [MPath; MFrom]);
    ("regex_replace", meta [MPath; MFrom]);
    ("trim_prefix", meta [MPath; MValue]);
    ("trim_suffix", meta [MPath; MValue]);
    ("ensure_prefix", meta [MPath; MValue]);
    ("ensure_suffix", meta [MPath; MValue]);
    ("trim_space", meta [MPath]);
    ("to_lower", meta [MPath]);
    ("to_upper", meta [MPath]);
    ("return_error", meta [MValue]);
    ("prune_objects", meta [MPathOptional; MValue]);
    ("pass_headers", meta [MValue; MKeepOrigin]);
    ("sync_fields", meta [MFrom; MTo]);
    ("set_header", meta [MPath; MValue; MKeepOrigin]);
    ("delete_header", meta [MPath]);
    ("copy_header", meta [MFrom; MTo; MKeepOrigin; MPathAlias]);
    ("move_header", meta [MFrom; MTo; MKeepOrigin; MPathAlias]) ].

Definition SET_META : ModeMeta := meta [MPath; MValue; MKeepOrigin].

(** [MODE_META[mode] || MODE_META.set] *)
Definition meta_of (mode : jstr) : ModeMeta :=
  match obj_get mode MODE_META with Some m => m | None => SET_META end.

Definition VALUE_REQUIRED_MODES : list jstr :=
  [ "trim_prefix"; "trim_suffix"; "ensure_prefix"; "ensure_suffix"; "set_header";
    "return_error"; "prune_objects"; "pass_headers" ].

Definition FROM_REQUIRED_MODES : list jstr :=
  [ "copy"; "move"; "replace"; "regex_replace"; "copy_header"; "move_header"; "sync_fields" ].

Definition TO_REQUIRED_MODES : list jstr :=
  [ "copy"; "move"; "copy_header"; "move_header"; "sync_fields" ].

Definition MODE_DESCRIPTIONS : list (jstr * jstr) :=
  [ ("set",
     "Write value to the target field");
    ("delete",
     "Remove the target field");
    ("append",
     "Append value to array / string / object end");
    ("prepend",
     "Prepend value to array / string / object start");
    ("copy",
     "Copy source field to target field");
    ("move",
     "Move source field to target field");
    ("replace",
     "Do string replacement in the target field");
    ("regex_replace",
     "Do regex replacement in the target field");
    ("trim_prefix",
     "Remove string prefix");
    ("trim_suffix",
     "Remove string suffix");
    ("ensure_prefix",
     "Ensure the string has a specified prefix");
    ("ensure_suffix",
     "Ensure the string has a specified suffix");
    ("trim_space",
     "Trim leading/trailing whitespace");
    ("to_lower",
     "Convert string to lowercase");
    ("to_upper",
     "Convert string to uppercase");
    ("return_error",
     "Return a custom error immediately");
    ("prune_objects",
     "Prune object items by conditions");
    ("pass_headers",
     "Pass specified request headers to upstream");
    ("sync_fields",
     "Auto-fill when one field exists and another is missing");
    ("set_header",
     "Set runtime request header: override entire value, or manipulate comma-separated tokens");
    ("delete_header",
     "Delete a runtime request header");
    ("copy_header",
     "Copy a request header");
    ("move_header",
     "Move a request header") ].

Definition SYNC_TARGET_TYPE_OPTIONS : list (jstr * jstr) :=
  [ ("Request Body Field", "json"); ("Request Header Field", "header") ].

(** * Templates *)

Definition LEGACY_TEMPLATE : json :=
  JObj [ ("temperature", JNum zero); ("max_tokens", JNum (of_Z 1000)) ].

Definition operations_of (l : list json) : json := JObj [ ("operations", JArr l) ].

Definition OPERATION_TEMPLATE : json :=
  operations_of
    [ JObj [ ("description", JStr "Set default temperature for openai/* models.");
             ("path", JStr "temperature"); ("mode", JStr "set");
             ("value", JNum (Number_str "0.7"));
             ("conditions", JArr [ JObj [ ("path", JStr "model"); ("mode", JStr "prefix");
                                          ("value", JStr "openai/") ] ]);
             ("logic", JStr "AND") ] ].

Definition HEADER_PASSTHROUGH_TEMPLATE : json :=
  operations_of
    [ JObj [ ("description", JStr "Pass through X-Request-Id header to upstream.");
             ("mode", JStr "pass_headers"); ("value", JArr [ JStr "X-Request-Id" ]);
             ("keep_origin", JBool true) ] ].

Definition model_condition (mode value : jstr) : json :=
  JObj [ ("path", JStr "original_model"); ("mode", JStr mode); ("value", JStr value) ].

Definition GEMINI_IMAGE_4K_TEMPLATE : json :=
  operations_of
    [ JObj [ ("description",
              JStr "Set imageSize to 4K when model contains gemini/image and ends with 4k.");
             ("mode", JStr "set"); ("path", JStr "generationConfig.imageConfig.imageSize");
             ("value", JStr "4K");
             ("conditions", JArr [ model_condition "contains" "gemini";
                                   model_condition "contains" "image";
                                   model_condition "suffix" "4k" ]);
             ("logic", JStr "AND") ] ].

Definition CODEX_CLI_HEADER_PASSTHROUGH_HEADERS : list jstr :=
  [ "Originator"; "Session_id"; "User-Agent"; "X-Codex-Beta-Features"; "X-Codex-Turn-Metadata" ].

Definition CLAUDE_CLI_HEADER_PASSTHROUGH_HEADERS : list jstr :=
  [ "X-Stainless-Arch"; "X-Stainless-Lang"; "X-Stainless-Os"; "X-Stainless-Package-Version";
    "X-Stainless-Retry-Count"; "X-Stainless-Runtime"; "X-Stainless-Runtime-Version";
    "X-Stainless-Timeout"; "User-Agent"; "X-App"; "Anthropic-Beta";
    "Anthropic-Dangerous-Direct-Browser-Access"; "Anthropic-Version" ].

Definition buildPassHeadersTemplate (headers : list jstr) : json :=
  operations_of
    [ JObj [ ("mode", JStr "pass_headers"); ("value", JArr (map JStr headers));
             ("keep_origin", JBool true) ] ].

Definition CODEX_CLI_HEADER_PASSTHROUGH_TEMPLATE : json :=
  buildPassHeadersTemplate CODEX_CLI_HEADER_PASSTHROUGH_HEADERS.
Definition CLAUDE_CLI_HEADER_PASSTHROUGH_TEMPLATE : json :=
  buildPassHeadersTemplate CLAUDE_CLI_HEADER_PASSTHROUGH_HEADERS.

Definition AWS_BEDROCK_ANTHROPIC_COMPAT_TEMPLATE : json :=
  operations_of
    [ JObj [ ("description",
              JStr "Normalize anthropic-beta header tokens for Bedrock compatibility.");
             ("mode", JStr "set_header"); ("path", JStr "anthropic-beta");
             ("value", JObj
               [ ("advanced-tool-use-2025-11-20", JStr "tool-search-tool-2025-10-19");
                 ("bash_20241022", JNull);
                 ("bash_20250124", JNull);
                 ("code-execution-2025-08-25", JNull);
                 ("compact-2026-01-12", JStr "compact-2026-01-12");
                 ("computer-use-2025-01-24", JStr "computer-use-2025-01-24");
                 ("computer-use-2025-11-24", JStr "computer-use-2025-11-24");
                 ("context-1m-2025-08-07", JStr "context-1m-2025-08-07");
                 ("context-management-2025-06-27", JStr "context-management-2025-06-27");
                 ("effort-2025-11-24", JNull);
                 ("fast-mode-2026-02-01", JNull);
                 ("files-api-2025-04-14", JNull);
                 ("fine-grained-tool-streaming-2025-05-14", JNull);
                 ("interleaved-thinking-2025-05-14", JStr "interleaved-thinking-2025-05-14");
                 ("mcp-client-2025-11-20", JNull);
                 ("mcp-client-2025-04-04", JNull);
                 ("mcp-servers-2025-12-04", JNull);
                 ("output-128k-2025-02-19", JNull);
                 ("structured-output-2024-03-01", JNull);
                 ("prompt-caching-scope-2026-01-05", JNull);
                 ("skills-2025-10-02", JNull);
                 ("structured-outputs-2025-11-13", JNull);
                 ("text_editor_20241022", JNull);
                 ("text_editor_20250124", JNull);
                 ("token-efficient-tools-2025-02-19", JNull);
                 ("tool-search-tool-2025-10-19", JStr "tool-search-tool-2025-10-19");
                 ("web-fetch-2025-09-10", JNull);
                 ("web-search-2025-03-05", JNull);
                 ("oauth-2025-04-20", JNull) ]) ];
      JObj [ ("description",
              JStr "Remove all tools[*].custom.input_examples before upstream relay.");
             ("mode", JStr "delete"); ("path", JStr "tools.*.custom.input_examples") ] ].

Inductive PresetKind := KindOperations | KindLegacy.

Record TemplatePresetConfig := {
  tp_label : jstr;
  tp_kind : PresetKind;
  tp_payload : json
}.

Definition preset (l : jstr) (k : PresetKind) (p : json) : TemplatePresetConfig :=
  {| tp_label := l; tp_kind := k; tp_payload := p |}.

Definition DEFAULT_PRESET : TemplatePresetConfig :=
  preset "New Format Template" KindOperations OPERATION_TEMPLATE.

Definition TEMPLATE_PRESET_CONFIG : list (jstr * TemplatePresetConfig) :=
  [ ("operations_default", DEFAULT_PRESET);
    ("legacy_default", preset "Legacy Format Template" KindLegacy LEGACY_TEMPLATE);
    ("pass_headers_auth",
     preset "Header Passthrough (X-Request-Id)" KindOperations HEADER_PASSTHROUGH_TEMPLATE);
    ("gemini_image_4k", preset "Gemini Image 4K" KindOperations GEMINI_IMAGE_4K_TEMPLATE);
    ("claude_cli_headers_passthrough",
     preset "Claude CLI Header Passthrough" KindOperations
       CLAUDE_CLI_HEADER_PASSTHROUGH_TEMPLATE);
    ("codex_cli_headers_passthrough",
     preset "Codex CLI Header Passthrough" KindOperations
       CODEX_CLI_HEADER_PASSTHROUGH_TEMPLATE);
    ("aws_bedrock_anthropic_beta_override",
     preset "AWS Bedrock Claude Compat" KindOperations AWS_BEDROCK_ANTHROPIC_COMPAT_TEMPLATE) ].

(** * Values *)

Definition toValueText (value : option json) : jstr :=
  match value with
  | None => []
  | Some (JStr s) => s
  | Some v => stringify v
  end.

Definition parseLooseValue (valueText : jstr) : json :=
  let raw := trim valueText in
  match raw with
  | [] => JStr []
  | _ => match json_parse raw with Some v => v | None => JStr raw end
  end.

Definition verifyJSON (text : jstr) : bool :=
  match json_parse text with Some _ => true | None => false end.

(** [typeof v === 'string' ? v : '']; [v === true] *)
Definition str_field (v : option json) : jstr := match v with Some (JStr s) => s | _ => [] end.
Definition is_true (v : option json) : bool := is_bool v true.

(** [set.has(v as string) ? v : d] *)
Definition member_or (values : list jstr) (v : option json) (d : jstr) : jstr :=
  match v with
  | Some (JStr s) => if memb s values then s else d
  | _ => d
  end.

(** [v || d] on unknown values, then [String]. *)
Definition String_or (v : option json) (d : jstr) : jstr :=
  match v with Some v => if jtruthy v then js_String v else d | None => d end.

(** * Operations *)

Record ParamOverrideCondition := {
  c_id : jstr;
  c_path : jstr;
  c_mode : jstr;
  c_value_text : jstr;
  c_invert : bool;
  c_pass_missing_key : bool
}.

Record ParamOverrideOperation := {
  op_id : jstr;
  op_description : jstr;
  op_path : jstr;
  op_mode : jstr;
  op_from : jstr;
  op_to : jstr;
  op_value_text : jstr;
  op_keep_origin : bool;
  op_logic : jstr;
  op_conditions : list ParamOverrideCondition
}.

(** [return_error] *)
Record ReturnErrorDraft := {
  re_message : jstr;
  re_statusCode : number;
  re_code : jstr;
  re_type : jstr;
  re_skipRetry : bool;
  re_simpleMode : bool
}.

(** [prune_objects] *)
Record PruneRule := {
  pr_id : jstr;
  pr_path : jstr;
  pr_mode : jstr;
  pr_value_text : jstr;
  pr_invert : bool;
  pr_pass_missing_key : bool
}.

Record PruneObjectsDraft := {
  pd_simpleMode : bool;
  pd_typeText : jstr;
  pd_logic : jstr;
  pd_recursive : bool;
  pd_rules : list PruneRule
}.

(** Computations that draw identifiers (the counter [localIdSeed]) and may throw. *)
Definition M (A : Type) : Type := N -> exc (A * N).
Definition ret {A} (a : A) : M A := fun seed => Ret (a, seed).
Definition bindM {A B} (m : M A) (f : A -> M B) : M B :=
  fun seed => match m seed with Ret (a, seed') => f a seed' | Throw => Throw end.
Notation "x <-' m ; k" := (bindM m (fun x => k))
  (at level 100, m at next level, right associativity) : js_scope.

(** [l.map(f)] *)
Fixpoint mapM {A B} (f : A -> M B) (l : list A) : M (list B) :=
  match l with
  | [] => ret []
  | x :: l' => y <-' f x; ys <-' mapM f l'; ret (y :: ys)
  end.

Section Ids.
Context (clock : N -> N).

Definition local_id (k : N) : jstr := "po_" ++ digits (clock k) ++ "_" ++ digits k.

Definition nextLocalId : M jstr := fun seed => Ret (local_id seed, (seed + 1)%N).

(** The access to a property of [null] throws. *)
Definition normalizeCondition (condition : json) : M ParamOverrideCondition :=
  id <-' nextLocalId;
  match condition with
  | JNull => fun _ => Throw
  | _ =>
    ret {| c_id := id;
           c_path := str_field (jget "path" condition);
           c_mode := member_or CONDITION_MODE_VALUES (jget "mode" condition) "full";
           c_value_text := toValueText (jget "value" condition);
           c_invert := is_true (jget "invert" condition);
           c_pass_missing_key := is_true (jget "pass_missing_key" condition) |}
  end.

Definition createDefaultCondition : M ParamOverrideCondition := normalizeCondition (JObj []).

Definition normalize_logic (logic : option json) : jstr :=
  if toUpper (String_or logic "OR") =s "AND" then "AND" else "OR".

Definition normalizeOperation (operation : json) : M ParamOverrideOperation :=
  id <-' nextLocalId;
  match operation with
  | JNull => fun _ => Throw
  | _ =>
    conditions <-' match jget "conditions" operation with
                   | Some (JArr l) => mapM normalizeCondition l
                   | _ => ret []
                   end;
    ret {| op_id := id;
           op_description := str_field (jget "description" operation);
           op_path := str_field (jget "path" operation);
           op_mode := member_or OPERATION_MODE_VALUES (jget "mode" operation) "set";
           op_value_text := toValueText (jget "value" operation);
           op_keep_origin := is_true (jget "keep_origin" operation);
           op_from := str_field (jget "from" operation);
           op_to := str_field (jget "to" operation);
           op_logic := normalize_logic (jget "logic" operation);
           op_conditions := conditions |}
  end.

Definition createDefaultOperation : M ParamOverrideOperation :=
  normalizeOperation (JObj [ ("mode", JStr "set") ]).

(** * Pruning drafts *)

Definition normalizePruneRule (rule : json) : M PruneRule :=
  id <-' nextLocalId;
  match rule with
  | JNull => fun _ => Throw
  | _ =>
    ret {| pr_id := id;
           pr_path := str_field (jget "path" rule);
           pr_mode := member_or CONDITION_MODE_VALUES (jget "mode" rule) "full";
           pr_value_text := toValueText (jget "value" rule);
           pr_invert := is_true (jget "invert" rule);
           pr_pass_missing_key := is_true (jget "pass_missing_key" rule) |}
  end.

(** One rule per entry of an object. *)
Definition entry_rules (o : list (jstr * json)) : M (list PruneRule) :=
  mapM (fun kv => normalizePruneRule
                    (JObj [ ("path", JStr (fst kv)); ("mode", JStr "full"); ("value", snd kv) ])) o.

Definition prune_default (typeText : jstr) : PruneObjectsDraft :=
  {| pd_simpleMode := true; pd_typeText := typeText; pd_logic := "AND"; pd_recursive := true;
     pd_rules := [] |}.

Definition defined (v : option json) : bool := match v with Some _ => true | None => false end.

Definition is_object (v : json) : bool := match v with JArr _ | JObj _ => true | _ => false end.

Definition parsePruneObjectsDraft (valueText : jstr) : M PruneObjectsDraft :=
  let raw := trim valueText in
  match raw with
  | [] => ret (prune_default [])
  | _ =>
    match json_parse raw with
    | None => ret (prune_default raw)
    | Some (JStr s) => ret (prune_default (trim s))
    | Some (JObj o as parsed) =>
      where_rules <-' match jget "where" parsed with
                      | Some (JObj w) => entry_rules w
                      | _ => ret []
                      end;
      condition_rules <-' match jget "conditions" parsed with
                          | Some (JArr items) =>
                            mapM normalizePruneRule (List.filter is_object items)
                          | Some (JObj c) => entry_rules c
                          | _ => ret []
                          end;
      ret {| pd_simpleMode := negb (defined (jget "logic" parsed)
                                    || defined (jget "recursive" parsed)
                                    || defined (jget "where" parsed)
                                    || defined (jget "conditions" parsed));
             pd_typeText := match jget "type" parsed with
                            | None => []
                            | Some v => trim (js_String v)
                            end;
             pd_logic := if toUpper (String_or (jget "logic" parsed) "AND") =s "OR"
                         then "OR" else "AND";
             pd_recursive := negb (is_bool (jget "recursive" parsed) false);
             pd_rules := where_rules ++ condition_rules |}
    | Some JNull => ret (prune_default [])
    | Some v => ret (prune_default (trim (js_String v)))
    end
  end.
End Ids.

Definition add_if {V} (b : bool) (k : jstr) (v : V) (o : list (jstr * V)) : list (jstr * V) :=
  if b then obj_set k v o else o.

Definition prune_condition (rule : PruneRule) : json :=
  let o := [ ("path", JStr (trim (pr_path rule)));
             ("mode", JStr (if memb (pr_mode rule) CONDITION_MODE_VALUES
                            then pr_mode rule else "full")) ] in
  let valueRaw := trim (pr_value_text rule) in
  let o := add_if (truthy valueRaw) "value" (parseLooseValue valueRaw) o in
  let o := add_if (pr_invert rule) "invert" (JBool true) o in
  JObj (add_if (pr_pass_missing_key rule) "pass_missing_key" (JBool true) o).

Definition buildPruneObjectsValueText (draft : PruneObjectsDraft) : jstr :=
  let typeText := trim (pd_typeText draft) in
  if pd_simpleMode draft then typeText
  else
    let o := add_if (truthy typeText) "type" (JStr typeText) [] in
    let o := add_if (toUpper (str_or (pd_logic draft) "AND") =s "OR") "logic" (JStr "OR") o in
    let o := add_if (negb (pd_recursive draft)) "recursive" (JBool false) o in
    let conditions :=
      map prune_condition (List.filter (fun r => truthy (trim (pr_path r))) (pd_rules draft)) in
    let has_conditions := 0 <? length conditions in
    let o := add_if has_conditions "conditions" (JArr conditions) o in
    if negb (truthy typeText) && negb has_conditions
    then stringify (JObj [ ("logic", JStr "AND") ])
    else stringify (JObj o).

(** * Drafts of a returned error *)

Definition http_status (x : number) : bool :=
  isInteger x && (x >=? of_Z 100)%num && (x <=? of_Z 599)%num.

Definition error_default (message : jstr) : ReturnErrorDraft :=
  {| re_message := message; re_statusCode := of_Z 400; re_code := []; re_type := [];
     re_skipRetry := true; re_simpleMode := true |}.

Definition Number_opt (v : option json) : number :=
  match v with Some v => js_Number v | None => NaN end.

Definition parseReturnErrorDraft (valueText : jstr) : ReturnErrorDraft :=
  let raw := trim valueText in
  match raw with
  | [] => error_default []
  | _ =>
    match json_parse raw with
    | Some (JObj o as parsed) =>
      let statusRaw := if defined (jget "status_code" parsed) then jget "status_code" parsed
                       else jget "status" parsed in
      let statusValue := Number_opt statusRaw in
      let message := jget "message" parsed in
      {| re_message := trim (match message with
                             | Some m => if jtruthy m then js_String m
                                         else String_or (jget "msg" parsed) []
                             | None => String_or (jget "msg" parsed) []
                             end);
         re_statusCode := if http_status statusValue then statusValue else of_Z 400;
         re_code := trim (String_or (jget "code" parsed) []);
         re_type := trim (String_or (jget "type" parsed) []);
         re_skipRetry := negb (is_bool (jget "skip_retry" parsed) false);
         re_simpleMode := false |}
    | _ => error_default raw
    end
  end.

Definition buildReturnErrorValueText (draft : ReturnErrorDraft) : jstr :=
  let message := trim (re_message draft) in
  if re_simpleMode draft then message
  else
    let statusCode := re_statusCode draft in
    let code := trim (re_code draft) in
    let type := trim (re_type draft) in
    let o := [ ("message", JStr message);
               ("status_code", JNum (if http_status statusCode then statusCode else of_Z 400)) ] in
    let o := add_if (truthy code) "code" (JStr code) o in
    let o := add_if (truthy type) "type" (JStr type) o in
    stringify (JObj (add_if (negb (re_skipRetry draft)) "skip_retry" (JBool false) o)).

(** * Headers and synchronised fields *)

Definition String_nullish (v : json) : jstr := match v with JNull => [] | _ => js_String v end.

Definition parsePassHeaderNames (rawValue : json) : list jstr :=
  let names l := List.filter truthy (map (fun i => trim (String_nullish i)) l) in
  match rawValue with
  | JArr l => names l
  | JObj _ =>
    match jget "headers" rawValue with
    | Some (JArr l) => names l
    | _ =>
      match jget "header" rawValue with
      | Some h => names [h]
      | None => []
      end
    end
  | JStr s => List.filter truthy (map trim (splitc 44 s))
  | _ => []
  end.

Inductive SyncType := SyncJson | SyncHeader.

Definition sync_name (t : SyncType) : jstr :=
  match t with SyncJson => "json" | SyncHeader => "header" end.

Definition parseSyncTargetSpec (spec : jstr) : SyncType * jstr :=
  let raw := trim spec in
  match raw with
  | [] => (SyncJson, [])
  | _ =>
    match indexOf ":" raw with
    | None => (SyncJson, raw)
    | Some idx =>
      let prefix := toLower (trim (take idx raw)) in
      let key := trim (drop (idx + 1) raw) in
      if prefix =s "header" then (SyncHeader, key) else (SyncJson, key)
    end
  end.

Definition buildSyncTargetSpec (type key : jstr) : jstr :=
  let normalizedType := if type =s "header" then SyncHeader else SyncJson in
  let normalizedKey := trim key in
  if negb (truthy normalizedKey) then []
  else sync_name normalizedType ++ ":" ++ normalizedKey.

(** * Lists of operations *)

Inductive DropPosition := Before | After.

Definition has_id (id : jstr) (o : ParamOverrideOperation) : bool := op_id o =s id.

(** [next.splice(i, 0, x)] *)
Definition insert_at {A} (i : nat) (x : A) (l : list A) : list A := take i l ++ x :: drop i l.

Definition reorderOperations (ops : list ParamOverrideOperation) (sourceId targetId : jstr)
    (position : DropPosition) : list ParamOverrideOperation :=
  if negb (truthy sourceId) || negb (truthy targetId) || (sourceId =s targetId) then ops
  else
    match findIndex (has_id sourceId) ops with
    | None => ops
    | Some srcIdx =>
      let next := take srcIdx ops ++ drop (S srcIdx) ops in
      match findIndex (has_id targetId) next, ops !! srcIdx with
      | Some insertIdx, Some moved =>
        insert_at (match position with After => insertIdx + 1 | Before => insertIdx end) moved next
      | _, _ => ops
      end
    end.

Definition condition_used (c : ParamOverrideCondition) : bool :=
  truthy (trim (c_path c)) || truthy (trim (c_value_text c)) || negb (c_mode c =s "full")
  || c_invert c || c_pass_missing_key c.

Definition isOperationBlank (operation : ParamOverrideOperation) : bool :=
  (op_mode operation =s "set") && negb (truthy (trim (op_path operation)))
  && negb (truthy (trim (op_from operation))) && negb (truthy (trim (op_to operation)))
  && (trim (op_value_text operation) =s []) && negb (op_keep_origin operation)
  && negb (existsb condition_used (op_conditions operation)).

Definition mode_label (mode : jstr) : jstr :=
  match obj_get mode OPERATION_MODE_LABEL_MAP with Some l => str_or l mode | None => mode end.

Definition getOperationSummary (operation : ParamOverrideOperation) (index : nat) : jstr :=
  let mode := str_or (op_mode operation) "set" in
  let line := digits (N.of_nat index + 1) ++ ". " ++ mode_label mode ++ " · " in
  let path := trim (op_path operation) in
  let from := trim (op_from operation) in
  let to := trim (op_to operation) in
  if mode =s "sync_fields" then line ++ str_or from (str_or to "-")
  else line ++ str_or path (str_or from (str_or to "-")).

(** * Labels *)

Definition is_one (mode : jstr) (l : list jstr) : bool := memb mode l.

Definition getModeTagTailwind (mode : jstr) : jstr :=
  if includes mode "header" then
    "bg-cyan-500/15 text-cyan-700 dark:text-cyan-300 border-cyan-500/20"
  else if includes mode "replace" || includes mode "trim" then
    "bg-violet-500/15 text-violet-700 dark:text-violet-300 border-violet-500/20"
  else if includes mode "copy" || includes mode "move" then
    "bg-blue-500/15 text-blue-700 dark:text-blue-300 border-blue-500/20"
  else if includes mode "error" || includes mode "prune" then
    "bg-red-500/15 text-red-700 dark:text-red-300 border-red-500/20"
  else if includes mode "sync" then
    "bg-green-500/15 text-green-700 dark:text-green-300 border-green-500/20"
  else "bg-muted text-muted-foreground".

Definition getModePathLabel (mode : jstr) : jstr :=
  if is_one mode ["set_header"; "delete_header"] then "Header Name"
  else if mode =s "prune_objects" then "Target Path (optional)"
  else "Target Field Path".

Definition getModePathPlaceholder (mode : jstr) : jstr :=
  if mode =s "set_header" then "Authorization"
  else if mode =s "delete_header" then "X-Debug-Mode"
  else if mode =s "prune_objects" then "messages"
  else "temperature".

Definition getModeFromLabel (mode : jstr) : jstr :=
  if mode =s "replace" then "Match Text"
  else if mode =s "regex_replace" then "Regex Pattern"
  else if is_one mode ["copy_header"; "move_header"] then "Source Header"
  else "Source Field".

Definition getModeFromPlaceholder (mode : jstr) : jstr :=
  if mode =s "replace" then "openai/"
  else if mode =s "regex_replace" then "^gpt-"
  else if is_one mode ["copy_header"; "move_header"] then "Authorization"
  else "model".

Definition getModeToLabel (mode : jstr) : jstr :=
  if is_one mode ["replace"; "regex_replace"] then "Replace With"
  else if is_one mode ["copy_header"; "move_header"] then "Target Header"
  else "Target Field".

Definition getModeToPlaceholder (mode : jstr) : jstr :=
  if mode =s "replace" then "(leave empty to delete)"
  else if mode =s "regex_replace" then "openai/gpt-"
  else if is_one mode ["copy_header"; "move_header"] then "X-Upstream-Auth"
  else "original_model".

Definition affix_modes : list jstr := ["trim_prefix"; "trim_suffix"; "ensure_prefix"; "ensure_suffix"].

Definition getModeValueLabel (mode : jstr) : jstr :=
  if mode =s "set_header" then "Header Value (supports string or JSON mapping)"
  else if mode =s "pass_headers" then "Pass-through Headers (comma-separated or JSON array)"
  else if is_one mode affix_modes then "Prefix/Suffix Text"
  else if mode =s "prune_objects" then "Prune Rule (string or JSON object)"
  else "Value (supports JSON or plain text)".

Definition getModeValuePlaceholder (mode : jstr) : jstr :=
  if mode =s "set_header" then "Bearer sk-xxx"
  else if mode =s "pass_headers" then "Authorization, X-Request-Id"
  else if is_one mode affix_modes then "openai/"
  else if mode =s "prune_objects" then
    "{" ++ quote "type" ++ ":" ++ quote "redacted_thinking" ++ "}"
  else "0.7".

(** * Validation *)

(** The key of a message for the translation function, and its line number. *)
Definition Message : Type := (jstr * nat).

Definition validate_return_error (raw : jstr) (line : nat) : option Message :=
  if negb (truthy raw) then Some ("Rule {{line}} is missing value", line)
  else match json_parse raw with
       | Some (JObj o as parsed) =>
         if negb (truthy (trim (String_or (jget "message" parsed) [])))
         then Some ("Rule {{line}} return_error requires a message field", line)
         else None
       | _ => None
       end.

Definition validate_prune_objects (raw : jstr) (line : nat) : option Message :=
  if negb (truthy raw) then Some ("Rule {{line}} prune_objects is missing conditions", line)
  else None.

Definition validate_pass_headers (raw : jstr) (line : nat) : option Message :=
  if negb (truthy raw) then Some ("Rule {{line}} pass_headers is missing header names", line)
  else match parsePassHeaderNames (parseLooseValue raw) with
       | [] => Some ("Rule {{line}} pass_headers format is invalid", line)
       | _ => None
       end.

(** The body of the loop: the first message for one operation. *)
Definition validate_operation (op : ParamOverrideOperation) (line : nat) : option Message :=
  let mode := str_or (op_mode op) "set" in
  let meta := meta_of mode in
  let pathValue := trim (op_path op) in
  let fromValue := trim (op_from op) in
  let toValue := trim (op_to op) in
  let raw := trim (op_value_text op) in
  let alias := m_pathAlias meta && truthy pathValue in
  if m_path meta && negb (truthy pathValue) then
    Some ("Rule {{line}} is missing target path", line)
  else if memb mode FROM_REQUIRED_MODES && negb (truthy fromValue) && negb alias then
    Some ("Rule {{line}} is missing source field", line)
  else if memb mode TO_REQUIRED_MODES && negb (truthy toValue) && negb alias then
    Some ("Rule {{line}} is missing target field", line)
  else if memb mode VALUE_REQUIRED_MODES && (raw =s []) then
    Some ("Rule {{line}} is missing value", line)
  else if mode =s "return_error" then validate_return_error raw line
  else if mode =s "prune_objects" then validate_prune_objects raw line
  else if mode =s "pass_headers" then validate_pass_headers raw line
  else None.

Fixpoint validate_from (line : nat) (operations : list ParamOverrideOperation) : option Message :=
  match operations with
  | [] => None
  | op :: rest =>
    match validate_operation op line with
    | Some m => Some m
    | None => validate_from (S line) rest
    end
  end.

(** [None] is the empty string: no error. *)
Definition validateOperations (operations : list ParamOverrideOperation) : option Message :=
  validate_from 1 operations.

(** * Saving *)

Definition buildConditionPayload (condition : ParamOverrideCondition) : option json :=
  let path := trim (c_path condition) in
  if negb (truthy path) then None
  else
    let o := [ ("path", JStr path); ("mode", JStr (str_or (c_mode condition) "full"));
               ("value", parseLooseValue (c_value_text condition)) ] in
    let o := add_if (c_invert condition) "invert" (JBool true) o in
    Some (JObj (add_if (c_pass_missing_key condition) "pass_missing_key" (JBool true) o)).

(** [!payload[k]] *)
Definition field_falsy (k : jstr) (o : list (jstr * json)) : bool :=
  match obj_get k o with Some v => negb (jtruthy v) | None => true end.

Definition operation_payload (operation : ParamOverrideOperation) : json :=
  let mode := str_or (op_mode operation) "set" in
  let meta := meta_of mode in
  let descriptionValue := trim (op_description operation) in
  let pathValue := trim (op_path operation) in
  let fromValue := trim (op_from operation) in
  let toValue := trim (op_to operation) in
  let o := [ ("mode", JStr mode) ] in
  let o := add_if (truthy descriptionValue) "description" (JStr descriptionValue) o in
  let o := add_if (m_path meta) "path" (JStr pathValue) o in
  let o := add_if (m_pathOptional meta && truthy pathValue) "path" (JStr pathValue) o in
  let o := add_if (m_value meta) "value" (parseLooseValue (op_value_text operation)) o in
  let o := add_if (m_keepOrigin meta && op_keep_origin operation) "keep_origin" (JBool true) o in
  let o := add_if (m_from meta) "from" (JStr fromValue) o in
  let o := add_if (negb (m_to meta) && truthy toValue) "to" (JStr toValue) o in
  let o := add_if (m_to meta) "to" (JStr toValue) o in
  let o := add_if (m_pathAlias meta && field_falsy "from" o && truthy pathValue)
             "from" (JStr pathValue) o in
  let o := add_if (m_pathAlias meta && field_falsy "to" o && truthy pathValue)
             "to" (JStr pathValue) o in
  let conditions := omap buildConditionPayload (op_conditions operation) in
  match conditions with
  | [] => JObj o
  | _ => JObj (obj_set "logic" (JStr (if op_logic operation =s "AND" then "AND" else "OR"))
                 (obj_set "conditions" (JArr conditions) o))
  end.

Definition pretty (v : json) : jstr := stringify_indent 2 [] v.

#[export] Instance pretty_format : Format pretty json_parse wf_json.
Proof. exact (indent_format 2). Qed.

(** [inl] is the thrown message. *)
Definition buildOperationsJson (sourceOperations : list ParamOverrideOperation) (validate : bool)
  : Message + jstr :=
  let filteredOps := List.filter (fun o => negb (isOperationBlank o)) sourceOperations in
  match filteredOps with
  | [] => inr []
  | _ =>
    match (if validate then validateOperations filteredOps else None) with
    | Some message => inl message
    | None => inr (pretty (JObj [ ("operations", JArr (map operation_payload filteredOps)) ]))
    end
  end.

(** * Opening *)

Inductive EditMode := Visual | JsonMode.
Inductive VisualMode := Operations | Legacy.

Record EditorState := {
  es_editMode : EditMode;
  es_visualMode : VisualMode;
  es_legacyValue : jstr;
  es_operations : list ParamOverrideOperation;
  es_jsonText : jstr;
  es_jsonError : jstr
}.

(** The operations of a parsed override: [Some l] when it has an array of them. *)
Definition operations_field (parsed : json) : option (list json) :=
  match jget "operations" parsed with Some (JArr l) => Some l | _ => None end.

Section Opening.
Context (clock : N -> N).

Definition default_operations : M (list ParamOverrideOperation) :=
  op <-' createDefaultOperation clock; ret [op].

(** [l.length > 0 ? l.map(normalizeOperation) : [createDefaultOperation()]] *)
Definition load_operations (l : list json) : M (list ParamOverrideOperation) :=
  match l with
  | [] => default_operations
  | _ => mapM (normalizeOperation clock) l
  end.

Definition parseInitialState (rawValue : jstr) : M EditorState :=
  let trimmed := trim rawValue in
  match trimmed with
  | [] =>
    ops <-' default_operations;
    ret {| es_editMode := Visual; es_visualMode := Operations; es_legacyValue := [];
           es_operations := ops; es_jsonText := []; es_jsonError := [] |}
  | _ =>
    match json_parse trimmed with
    | None =>
      ops <-' default_operations;
      ret {| es_editMode := JsonMode; es_visualMode := Operations; es_legacyValue := [];
             es_operations := ops; es_jsonText := rawValue;
             es_jsonError := "Invalid JSON format" |}
    | Some parsed =>
      match parsed, operations_field parsed with
      | JObj _, Some l =>
        ops <-' load_operations l;
        ret {| es_editMode := Visual; es_visualMode := Operations; es_legacyValue := [];
               es_operations := ops; es_jsonText := pretty parsed; es_jsonError := [] |}
      | JObj _, None =>
        ops <-' default_operations;
        ret {| es_editMode := Visual; es_visualMode := Legacy; es_legacyValue := pretty parsed;
               es_operations := ops; es_jsonText := pretty parsed; es_jsonError := [] |}
      | _, _ =>
        ops <-' default_operations;
        ret {| es_editMode := JsonMode; es_visualMode := Operations; es_legacyValue := [];
               es_operations := ops; es_jsonText := pretty parsed; es_jsonError := [] |}
      end
    end
  end.
End Opening.

(** * Theorems *)

(** ** The order of the operations *)

(** The operations without the first one of an identifier. *)
Fixpoint without (id : jstr) (ops : list ParamOverrideOperation) : list ParamOverrideOperation :=
  match ops with
  | [] => []
  | op :: rest => if has_id id op then rest else op :: without id rest
  end.

Lemma without_split id pre op post :
  forallb (fun y => negb (has_id id y)) pre = true -> has_id id op = true ->
  without id (pre ++ op :: post) = pre ++ post.
Proof.
  intros Hp Ho. induction pre as [|x pre IH]; cbn in *; [now rewrite Ho|].
  apply andb_true_iff in Hp as [Hx Hp]. destruct (has_id id x); [easy|]. now rewrite IH.
Qed.

Lemma existsb_not {A} (f : A -> bool) l :
  forallb (fun y => negb (f y)) l = negb (existsb f l).
Proof. induction l as [|x l IH]; cbn; [easy|]. rewrite IH. now destruct (f x). Qed.

Lemma has_id_other s t op : s <> t -> has_id s op = true -> has_id t op = false.
Proof. unfold has_id. intros Hn ->%seqb_eq. now apply seqb_neq. Qed.

Lemma without_keeps s t ops :
  s <> t -> existsb (has_id t) (without s ops) = existsb (has_id t) ops.
Proof.
  intros Hn. induction ops as [|op ops IH]; cbn; [easy|]. destruct (has_id s op) eqn:E; cbn.
  - now rewrite (has_id_other s t op Hn E).
  - now rewrite IH.
Qed.

(** What [reorderOperations] computes when it moves an operation, and when it does not. *)
Lemma reorder_split ops s t position :
  let result := reorderOperations ops s t position in
  (result = ops /\ (s = [] \/ t = [] \/ s = t \/ existsb (has_id s) ops = false
                    \/ existsb (has_id t) ops = false)) \/
  exists moved pre target post,
    has_id s moved = true /\ has_id t target = true
    /\ without s ops = pre ++ target :: post /\ Permutation ops (moved :: without s ops)
    /\ result = pre ++ match position with Before => [moved; target] | After => [target; moved] end
                ++ post.
Proof.
  cbv zeta. unfold reorderOperations.
  destruct s as [|c s0]; [left; tauto|]. destruct t as [|d t0]; [left; tauto|]. cbn [truthy negb orb].
  destruct (seqb_spec (c :: s0) (d :: t0)) as [E|Hn]; [left; tauto|].
  set (s := c :: s0) in *. set (t := d :: t0) in *.
  pose proof (findIndex_spec (has_id s) ops) as Hs. destruct (findIndex (has_id s) ops) as [i|].
  2: { rewrite existsb_not, negb_true_iff in Hs. left. tauto. }
  destruct Hs as (pre1 & moved & post1 & -> & <- & Hm & Hp1).
  rewrite take_app_length, list_lookup_middle by easy.
  replace (drop (S (length pre1)) (pre1 ++ moved :: post1)) with post1
    by now rewrite <- (Nat.add_1_r (length pre1)), <- drop_drop, drop_app_length.
  pose proof (without_keeps s t (pre1 ++ moved :: post1) Hn) as Hk.
  rewrite without_split in * by easy.
  pose proof (findIndex_spec (has_id t) (pre1 ++ post1)) as Ht.
  destruct (findIndex (has_id t) (pre1 ++ post1)) as [j|].
  2: { rewrite existsb_not, negb_true_iff in Ht. rewrite Ht in Hk. symmetry in Hk. left. tauto. }
  destruct Ht as (pre & target & post & E & <- & Ht & Hp). right.
  exists moved, pre, target, post. repeat (split; [easy|]).
  split; [symmetry; apply Permutation_middle|]. rewrite E. unfold insert_at. destruct position.
  - now rewrite take_app_length, drop_app_length.
  - rewrite (cons_middle target pre post), app_assoc.
    replace (length pre + 1) with (length (pre ++ [target])) by now rewrite length_app.
    rewrite take_app_length, drop_app_length. now rewrite <- app_assoc.
Qed.

Lemma reorder_permutation ops s t position :
  Permutation (reorderOperations ops s t position) ops.
Proof.
  pose proof (reorder_split ops s t position) as H. cbv zeta in H.
  destruct H as [[-> _]|(m & pre & tg & post & _ & _ & E & P & ->)]; [easy|].
  rewrite P, E. destruct position; cbn; [symmetry; apply Permutation_middle|].
  rewrite (Permutation_middle pre (tg :: post) m). apply Permutation_app_head, perm_swap.
Qed.

(** dragging an operation over another reorders the list and loses nothing: the
    result is a permutation, and when both are in the list the dragged operation is
    right before or after the other and the rest keeps its order. *)
Theorem reorder_moves (ops : list ParamOverrideOperation) (s t : jstr) (position : DropPosition) :
  Permutation (reorderOperations ops s t position) ops
  /\ (s <> [] -> t <> [] -> s <> t ->
      existsb (has_id s) ops = true -> existsb (has_id t) ops = true ->
      exists moved pre target post,
        has_id s moved = true /\ has_id t target = true
        /\ without s ops = pre ++ target :: post
        /\ reorderOperations ops s t position
           = pre ++ match position with Before => [moved; target] | After => [target; moved] end
             ++ post).
Proof.
  split; [apply reorder_permutation|]. intros.
  pose proof (reorder_split ops s t position) as Hr. cbv zeta in Hr.
  destruct Hr as [[_ Hr]|(m & pre & tg & post & Hm & Ht & E & _ & E')]; [intuition congruence|].
  now exists m, pre, tg, post.
Qed.

Definition sample_operation (id : jstr) : ParamOverrideOperation :=
  {| op_id := id; op_description := []; op_path := id; op_mode := "set"; op_from := []; op_to := [];
     op_value_text := "1"; op_keep_origin := false; op_logic := "OR"; op_conditions := [] |}.

Lemma reorder_moves_witness :
  exists moved pre target post,
    has_id "a" moved = true /\ has_id "c" target = true
    /\ without "a" (map sample_operation ["a"; "b"; "c"]) = pre ++ target :: post
    /\ reorderOperations (map sample_operation ["a"; "b"; "c"]) "a" "c" After
       = pre ++ [target; moved] ++ post.
Proof.
  apply (proj2 (reorder_moves (map sample_operation ["a"; "b"; "c"]) "a" "c" After));
    try discriminate; reflexivity.
Defined.

(** ** Synchronised fields *)

(** a synchronisation target that is built is read back as its type and its
    trimmed key; without a key it is the empty specification. *)
Theorem sync_roundtrip (type : SyncType) (key : jstr) :
  parseSyncTargetSpec (buildSyncTargetSpec (sync_name type) key)
  = (if truthy (trim key) then type else SyncJson, trim key).
Proof.
  unfold buildSyncTargetSpec. replace (if _ =s "header" then _ else _) with type by now destruct type.
  pose proof (trim_edges key) as He. pose proof (trim_idem key) as Hi. revert He Hi.
  generalize (trim key) as k. intros [|c k] He Hi; [easy|]. cbn [truthy negb].
  unfold parseSyncTargetSpec.
  rewrite (edges_trim (sync_name type ++ ":" ++ c :: k))
    by (now apply edges_ok_app; destruct type).
  assert (E : indexOf ":" (sync_name type ++ ":" ++ c :: k) = Some (length (sync_name type)))
    by now destruct type.
  rewrite E. destruct type; cbn [sync_name app length take drop Nat.add]; cbn -[trim toLower];
    now rewrite Hi.
Qed.

(** ** Drafts of a returned error *)

(** The normal form of a draft: trimmed texts, and 400 for a code that is not one. *)
Definition normal_error (d : ReturnErrorDraft) : ReturnErrorDraft :=
  {| re_message := trim (re_message d);
     re_statusCode := if http_status (re_statusCode d) then re_statusCode d else of_Z 400;
     re_code := trim (re_code d); re_type := trim (re_type d);
     re_skipRetry := re_skipRetry d; re_simpleMode := false |}.

Lemma stringify_obj_edges o : edges_ok (stringify (JObj o)) = true /\ stringify (JObj o) <> [].
Proof. split; [now apply (edges_ok_app "{" _ "}")|easy]. Qed.

Lemma trim_wf s : wf_str s -> wf_str (trim s).
Proof. apply trim_units. Qed.

Lemma num_ok_400 : num_ok (of_Z 400).
Proof.
  split; [reflexivity|]. split; [reflexivity|]. split; [|vm_compute; discriminate].
  repeat constructor.
Qed.

(** a structured error draft is read back from the text it builds, up to the
    trimming of its texts and the default code. *)
Theorem error_draft_roundtrip (d : ReturnErrorDraft) :
  re_simpleMode d = false -> wf_str (re_message d) -> wf_str (re_code d) -> wf_str (re_type d) ->
  num_ok (re_statusCode d) ->
  parseReturnErrorDraft (buildReturnErrorValueText d) = normal_error d.
Proof.
  intros Hs Hm%trim_wf Hc%trim_wf Ht%trim_wf Hn. unfold buildReturnErrorValueText. rewrite Hs. cbv zeta.
  set (status := if http_status (re_statusCode d) then re_statusCode d else of_Z 400).
  set (o := add_if (negb _) _ _ _).
  assert (Hstatus : num_ok status).
  { subst status. destruct (http_status _); [easy|apply num_ok_400]. }
  assert (Hv : http_status status = true).
  { subst status. destruct (http_status (re_statusCode d)) eqn:E; [easy|reflexivity]. }
  assert (Hwf : wf_json (JObj o)).
  { subst o. destruct (truthy (trim (re_code d))), (truthy (trim (re_type d))), (re_skipRetry d);
      (split; [reflexivity|]); cbn -[num_ok wf_str trim]; repeat apply conj;
      try assumption; try apply Hstatus; repeat constructor. }
  unfold parseReturnErrorDraft. destruct (stringify_obj_edges o) as [He Hne]. rewrite (edges_trim _ He).
  rewrite (read_print (print := stringify) _ Hwf). destruct (stringify (JObj o)) as [|c text]; [easy|].
  assert (E : jget "status_code" (JObj o) = Some (JNum status)
              /\ jget "message" (JObj o) = Some (JStr (trim (re_message d)))
              /\ String_or (jget "code" (JObj o)) [] = trim (re_code d)
              /\ String_or (jget "type" (JObj o)) [] = trim (re_type d)
              /\ is_bool (jget "skip_retry" (JObj o)) false = negb (re_skipRetry d)
              /\ jget "msg" (JObj o) = None).
  { subst o. clearbody status. clear. generalize (trim (re_message d)) as m.
    destruct (trim (re_code d)), (trim (re_type d)), (re_skipRetry d); repeat split. }
  destruct E as (E1 & E2 & E3 & E4 & E5 & E6). rewrite E1, E2, E3, E4, E5, E6.
  cbn [defined Number_opt js_Number]. rewrite Hv, !trim_idem, negb_involutive. unfold normal_error.
  fold status. f_equal. cbn [jtruthy js_String]. destruct (truthy (trim (re_message d))) eqn:Em.
  - now rewrite trim_idem.
  - now destruct (trim (re_message d)).
Qed.

Definition sample_draft : ReturnErrorDraft :=
  {| re_message := " quota "; re_statusCode := of_Z 429; re_code := "busy"; re_type := [];
     re_skipRetry := false; re_simpleMode := false |}.

Lemma error_draft_roundtrip_witness :
  parseReturnErrorDraft (buildReturnErrorValueText sample_draft) = normal_error sample_draft
  /\ re_statusCode (normal_error sample_draft) = of_Z 429.
Proof.
  split; [|reflexivity].
  apply error_draft_roundtrip; [reflexivity|repeat constructor..].
  vm_compute. discriminate.
Defined.

(** ** Reading a stored override *)

(** a stored string whose text is itself a JSON text does not survive editing: it
    is shown without its quotes and saved as that JSON value. *)
Theorem string_value_retyped (clock : N -> N) (seed : N) (path s : jstr) (v : json) :
  json_parse (trim s) = Some v -> trim s <> [] ->
  exists op seed',
    normalizeOperation clock
      (JObj [("mode", JStr "set"); ("path", JStr path); ("value", JStr s)]) seed = Ret (op, seed')
    /\ jget "value" (operation_payload op) = Some v.
Proof.
  intros Hp Hne. eexists _, _. split; [reflexivity|]. unfold operation_payload, parseLooseValue.
  cbn -[trim json_parse]. destruct (trim s) as [|c t]; [easy|]. rewrite Hp. reflexivity.
Qed.

Lemma string_value_retyped_witness :
  exists op seed',
    normalizeOperation (fun _ => 0%N)
      (JObj [("mode", JStr "set"); ("path", JStr "user"); ("value", JStr "5")]) 0%N = Ret (op, seed')
    /\ jget "value" (operation_payload op) = Some (JNum (of_Z 5)).
Proof. apply string_value_retyped; [reflexivity|discriminate]. Defined.

Lemma mapM_throws clock l seed :
  In JNull l -> mapM (normalizeOperation clock) l seed = Throw.
Proof.
  revert seed; induction l as [|v l IH]; intros seed; [easy|]. intros [->|Hin]; [easy|].
  cbn [mapM]. unfold bindM at 1. destruct (normalizeOperation clock v seed) as [[op s']|]; [|easy].
  unfold bindM. now rewrite IH.
Qed.

(** an override whose list of operations holds a [null] cannot be opened: reading
    it throws, inside the effect that opens the dialog. *)
Theorem null_operation_throws (clock : N -> N) (seed : N) (rawValue : jstr) (l : list json) :
  json_parse (trim rawValue) = Some (operations_of l) -> In JNull l ->
  parseInitialState clock rawValue seed = Throw.
Proof.
  intros Hp Hin. unfold parseInitialState. destruct (trim rawValue) as [|c t]; [discriminate|].
  rewrite Hp. cbv beta iota delta [operations_of]. destruct l as [|v l]; [easy|].
  match goal with |- context [operations_field ?x] =>
    change (operations_field x) with (Some (v :: l)) end.
  cbv beta iota delta [load_operations bindM]. now rewrite mapM_throws.
Qed.

Lemma null_operation_throws_witness :
  parseInitialState (fun _ => 0%N) (stringify (operations_of [JObj []; JNull])) 0%N = Throw.
Proof.
  apply (null_operation_throws _ _ _ [JObj []; JNull]); [reflexivity|right; now left].
Defined.
