(* ===== verification/ParamPayload.v ===== *)
(** The JSON payload of one operation of [ParamOverride], for every mode: what it
    holds, and that reading it and building it again gives the same payload. *)

From S2P Require Import Prelude Number Json ParamOverride.
From stdpp Require Import options.

(** * The payload of an operation *)

(** The fields of [operation_payload] before its conditions, on the values it reads. *)
Definition payload_fields (meta : ModeMeta) (mode d p : jstr) (v : json) (keep : bool) (f t : jstr)
  : list (jstr * json) :=
  let o := [ ("mode", JStr mode) ] in
  let o := add_if (truthy d) "description" (JStr d) o in
  let o := add_if (m_path meta) "path" (JStr p) o in
  let o := add_if (m_pathOptional meta && truthy p) "path" (JStr p) o in
  let o := add_if (m_value meta) "value" v o in
  let o := add_if (m_keepOrigin meta && keep) "keep_origin" (JBool true) o in
  let o := add_if (m_from meta) "from" (JStr f) o in
  let o := add_if (negb (m_to meta) && truthy t) "to" (JStr t) o in
  let o := add_if (m_to meta) "to" (JStr t) o in
  let o := add_if (m_pathAlias meta && field_falsy "from" o && truthy p) "from" (JStr p) o in
  add_if (m_pathAlias meta && field_falsy "to" o && truthy p) "to" (JStr p) o.

Definition with_conditions (cs : list json) (lg : jstr) (o : list (jstr * json))
  : list (jstr * json) :=
  match cs with
  | [] => o
  | _ => obj_set "logic" (JStr lg) (obj_set "conditions" (JArr cs) o)
  end.

Definition payload_core (mode d p : jstr) (v : json) (keep : bool) (f t : jstr) (cs : list json)
    (lg : jstr) : list (jstr * json) :=
  with_conditions cs lg (payload_fields (meta_of mode) mode d p v keep f t).

Lemma operation_payload_core op :
  operation_payload op
  = JObj (payload_core (str_or (op_mode op) "set") (trim (op_description op)) (trim (op_path op))
            (parseLooseValue (op_value_text op)) (op_keep_origin op) (trim (op_from op))
            (trim (op_to op)) (omap buildConditionPayload (op_conditions op))
            (if op_logic op =s "AND" then "AND" else "OR")).
Proof.
  unfold operation_payload, payload_core, payload_fields, with_conditions. now destruct (omap _ _).
Qed.

(** The string fields that reopening reads from a payload. *)
Definition sf (k : jstr) (o : list (jstr * json)) : jstr := str_field (obj_get k o).

#[export] Instance ModeMeta_eq_dec : EqDecision ModeMeta.
Proof. solve_decision. Defined.

(** The combinations of fields of the table. *)
Definition METAS : list ModeMeta := remove_dups (map snd MODE_META).

Lemma meta_of_in mode : In (meta_of mode) METAS.
Proof.
  apply list_elem_of_In, elem_of_remove_dups, list_elem_of_In. unfold meta_of.
  destruct (obj_get mode MODE_META) as [m|] eqn:E; [|vm_compute; tauto].
  apply obj_get_In in E. exact (in_map snd _ _ E).
Qed.

(** What the fields of a payload hold, with the values they are read again as. *)
Record fields_spec (mm : ModeMeta) (mode d p : jstr) (v : json) (keep : bool) (f t : jstr)
    (o : list (jstr * json)) : Prop := {
  fields_mode : obj_get "mode" o = Some (JStr mode);
  fields_value : obj_get "value" o = if m_value mm then Some v else None;
  fields_conditions : obj_get "conditions" o = None;
  fields_logic : obj_get "logic" o = None;
  fields_path : m_path mm = true -> sf "path" o = p;
  fields_from : m_from mm = true -> (m_pathAlias mm = true /\ p <> []) \/ f <> [] -> sf "from" o <> [];
  fields_to : m_to mm = true -> (m_pathAlias mm = true /\ p <> []) \/ t <> [] -> sf "to" o <> [];
  fields_again : forall v', (m_value mm = true -> v' = v) ->
    payload_fields mm mode (sf "description" o) (sf "path" o) v' (is_true (obj_get "keep_origin" o))
      (sf "from" o) (sf "to" o) = o
}.

(** Every case of the strings the fields depend on. *)
Ltac fields_case :=
  match goal with |- fields_spec _ _ ?d ?p _ ?k ?f ?t _ =>
    destruct d, p, k, f, t; constructor;
    try reflexivity; try (intros; easy); try (intros ? [[]|]; easy);
    let v' := fresh in let Hv := fresh in
    intros v' Hv; try (rewrite (Hv eq_refl); clear v' Hv); reflexivity
  end.

Lemma fields_ok mm mode d p v keep f t :
  In mm METAS -> fields_spec mm mode d p v keep f t (payload_fields mm mode d p v keep f t).
Proof.
  intros H. let x := eval vm_compute in METAS in change METAS with x in H.
  repeat (destruct H as [<-|H]; [fields_case|]). easy.
Qed.

(** The string fields of a payload are trimmed. *)
Definition TEXT_FIELDS : list jstr := ["description"; "path"; "from"; "to"].

Definition trimmed_fields (o : list (jstr * json)) : Prop :=
  forall k s, In k TEXT_FIELDS -> obj_get k o = Some (JStr s) -> trim s = s.

Lemma set_trimmed k v o :
  trimmed_fields o -> (forall s, v = JStr s -> trim s = s) \/ memb k TEXT_FIELDS = false ->
  trimmed_fields (obj_set k v o).
Proof.
  intros Ho Hk k' s Hin. rewrite obj_get_set. destruct (seqb_spec k' k) as [->|]; [|now apply Ho].
  intros [= ->]. destruct Hk as [Hk|Hk]; [now apply Hk|]. apply memb_In in Hin. congruence.
Qed.

Lemma add_trimmed b k v o :
  trimmed_fields o -> (forall s, v = JStr s -> trim s = s) \/ memb k TEXT_FIELDS = false ->
  trimmed_fields (add_if b k v o).
Proof. intros Ho Hk. destruct b; [now apply set_trimmed|easy]. Qed.

Lemma fields_trimmed mm mode d p v keep f t :
  trim d = d -> trim p = p -> trim f = f -> trim t = t ->
  trimmed_fields (payload_fields mm mode d p v keep f t).
Proof.
  intros Hd Hp Hf Ht. unfold payload_fields. cbv zeta.
  repeat (apply add_trimmed; [|(left; intros ? E; (injection E as <-; easy) || discriminate)
                               || (right; reflexivity)]).
  intros k s Hin. cbn [obj_get]. destruct (seqb_spec k "mode") as [->|]; [|easy].
  now repeat (destruct Hin as [Hin|Hin]; [discriminate|]).
Qed.

Lemma sf_trimmed k o : trimmed_fields o -> In k TEXT_FIELDS -> trim (sf k o) = sf k o.
Proof.
  intros Ho Hk. unfold sf. destruct (obj_get k o) as [[| | |s| |]|] eqn:E; try easy.
  now apply (Ho k).
Qed.

(** The fields of a payload with its conditions. *)
Lemma with_conditions_get k cs lg o :
  k <> "conditions" -> k <> "logic" -> obj_get k (with_conditions cs lg o) = obj_get k o.
Proof.
  intros Hc Hl. destruct cs; [easy|]. unfold with_conditions. rewrite !obj_get_set.
  destruct (seqb_spec k "logic"); [easy|]. now destruct (seqb_spec k "conditions").
Qed.

Lemma with_conditions_conditions cs lg o :
  obj_get "conditions" o = None ->
  obj_get "conditions" (with_conditions cs lg o) = match cs with [] => None | _ => Some (JArr cs) end.
Proof. intros H. destruct cs; [easy|]. unfold with_conditions. now rewrite !obj_get_set. Qed.

Lemma with_conditions_logic cs lg o :
  obj_get "logic" o = None ->
  obj_get "logic" (with_conditions cs lg o) = match cs with [] => None | _ => Some (JStr lg) end.
Proof. intros H. destruct cs; [easy|]. unfold with_conditions. now rewrite !obj_get_set. Qed.
