(* ===== verification/ParamOverrideProofs.v ===== *)
(** Theorems on [ParamOverride]: saving and reopening an override, validation, the
    drafts of structured values, the order of the operations. *)

From S2P Require Import Prelude Number Json ParamOverride ParamPayload.
From stdpp Require Import options.

(** * Operations as the editor holds them *)

Record condition_wf (c : ParamOverrideCondition) : Prop := {
  cw_mode : In (c_mode c) CONDITION_MODE_VALUES
}.

Record operation_wf (op : ParamOverrideOperation) : Prop := {
  ow_mode : In (op_mode op) OPERATION_MODE_VALUES;
  ow_logic : In (op_logic op) ["AND"; "OR"];
  ow_conditions : Forall condition_wf (op_conditions op)
}.

(** The text that is shown for the value of a text once it was saved. *)
Definition shown (text : jstr) : jstr := toValueText (Some (parseLooseValue text)).

(** A text whose value is shown as a text of the same value.  It is not so for the
    JSON text of a string that is itself a JSON text. *)
Definition stable (text : jstr) : Prop := parseLooseValue (shown text) = parseLooseValue text.

Record operation_stable (op : ParamOverrideOperation) : Prop := {
  os_value : m_value (meta_of (op_mode op)) = true -> stable (op_value_text op);
  (* not so for the JSON text of an empty string *)
  os_shown : memb (op_mode op) VALUE_REQUIRED_MODES = true -> trim (shown (op_value_text op)) <> [];
  os_conditions : Forall (fun c => trim (c_path c) <> [] -> stable (c_value_text c)) (op_conditions op)
}.

Lemma mode_nonempty mode : In mode OPERATION_MODE_VALUES -> str_or mode "set" = mode.
Proof. intros H. repeat (destruct H as [<-|H]; [easy|]). easy. Qed.

Lemma cond_mode_nonempty mode : In mode CONDITION_MODE_VALUES -> str_or mode "full" = mode.
Proof. intros H. repeat (destruct H as [<-|H]; [easy|]). easy. Qed.

Lemma member_or_in values s d : In s values -> member_or values (Some (JStr s)) d = s.
Proof. intros H. cbn. now apply memb_In in H as ->. Qed.

(** * What validation promises *)

Definition implies (a b : bool) : bool := negb a || b.

Definition error_message_ok (raw : jstr) : bool :=
  match json_parse raw with
  | Some (JObj _ as o) => truthy (trim (String_or (jget "message" o) []))
  | _ => true
  end.

Definition has_names (v : json) : bool :=
  match parsePassHeaderNames v with [] => false | _ => true end.

(** An operation has what its mode needs. *)
Definition complete (op : ParamOverrideOperation) : bool :=
  let mode := str_or (op_mode op) "set" in
  let meta := meta_of mode in
  let path := truthy (trim (op_path op)) in
  let raw := trim (op_value_text op) in
  implies (m_path meta) path
  && implies (memb mode FROM_REQUIRED_MODES) (truthy (trim (op_from op)) || m_pathAlias meta && path)
  && implies (memb mode TO_REQUIRED_MODES) (truthy (trim (op_to op)) || m_pathAlias meta && path)
  && implies (memb mode VALUE_REQUIRED_MODES) (truthy raw)
  && implies (mode =s "return_error") (error_message_ok raw)
  && implies (mode =s "pass_headers") (has_names (parseLooseValue raw)).

Lemma value_complete mode raw (line : nat) :
  match
    (if memb mode VALUE_REQUIRED_MODES && (raw =s []) then Some ("Rule {{line}} is missing value" : jstr, line)
     else if mode =s "return_error" then validate_return_error raw line
     else if mode =s "prune_objects" then validate_prune_objects raw line
     else if mode =s "pass_headers" then validate_pass_headers raw line
     else None)
  with
  | None =>
    implies (memb mode VALUE_REQUIRED_MODES) (truthy raw)
    && implies (mode =s "return_error") (error_message_ok raw)
    && implies (mode =s "pass_headers") (has_names (parseLooseValue raw)) = true
  | Some (_, n) =>
    implies (memb mode VALUE_REQUIRED_MODES) (truthy raw)
    && implies (mode =s "return_error") (error_message_ok raw)
    && implies (mode =s "pass_headers") (has_names (parseLooseValue raw)) = false /\ n = line
  end.
Proof.
  replace (raw =s []) with (negb (truthy raw)) by now destruct raw.
  destruct (seqb_spec mode "return_error") as [->|N1].
  { cbn -[json_parse]. destruct raw as [|c raw]; [easy|]. cbn -[json_parse]. unfold error_message_ok.
    destruct (json_parse (c :: raw)) as [[]|]; try easy. now destruct (truthy _). }
  destruct (seqb_spec mode "prune_objects") as [->|N2]; [now destruct raw|].
  destruct (seqb_spec mode "pass_headers") as [->|N3].
  { cbn -[parsePassHeaderNames parseLooseValue]. destruct raw as [|c raw]; [easy|].
    cbn -[parsePassHeaderNames parseLooseValue]. unfold has_names. now destruct (parsePassHeaderNames _). }
  destruct (memb mode VALUE_REQUIRED_MODES), (truthy raw); easy.
Qed.

Lemma validate_complete op line :
  match validate_operation op line with
  | None => complete op = true
  | Some (_, n) => complete op = false /\ n = line
  end.
Proof.
  unfold validate_operation, complete. cbv zeta. set (mode := str_or (op_mode op) "set").
  set (raw := trim (op_value_text op)). pose proof (value_complete mode raw line) as Hv.
  destruct (m_path (meta_of mode)), (truthy (trim (op_path op)));
    cbn [andb negb implies orb]; try easy;
    rewrite ?andb_true_r, ?andb_false_r, ?orb_false_r;
    destruct (memb mode FROM_REQUIRED_MODES), (truthy (trim (op_from op))),
      (m_pathAlias (meta_of mode)); cbn [andb negb implies orb]; try easy;
    destruct (memb mode TO_REQUIRED_MODES), (truthy (trim (op_to op)));
    cbn [andb negb implies orb]; easy.
Qed.

(** The modes that require a field have it. *)
Lemma required_fields mode :
  In mode OPERATION_MODE_VALUES ->
  implies (memb mode FROM_REQUIRED_MODES) (m_from (meta_of mode))
  && implies (memb mode TO_REQUIRED_MODES) (m_to (meta_of mode))
  && implies (memb mode VALUE_REQUIRED_MODES) (m_value (meta_of mode))
  && implies (mode =s "pass_headers") (m_value (meta_of mode)) = true.
Proof. intros H. repeat (destruct H as [<-|H]; [reflexivity|]). easy. Qed.

Lemma implies_true a b : implies a b = true <-> (a = true -> b = true).
Proof. destruct a, b; cbn; intuition congruence. Qed.

(** A complete operation is not blank. *)
Lemma complete_not_blank op : complete op = true -> isOperationBlank op = false.
Proof.
  unfold complete, isOperationBlank. destruct (seqb_spec (op_mode op) "set") as [->|]; [|easy].
  cbn [str_or truthy]. change (m_path (meta_of "set")) with true. cbn [implies negb orb].
  destruct (truthy (trim (op_path op))); easy.
Qed.

(** The message of an error depends on the value only. *)
Lemma error_message_value a b :
  parseLooseValue a = parseLooseValue b -> error_message_ok (trim a) = error_message_ok (trim b).
Proof.
  assert (H : forall x, error_message_ok (trim x)
                        = match parseLooseValue x with
                          | JObj _ as o => truthy (trim (String_or (jget "message" o) []))
                          | _ => true end).
  { intros x. unfold error_message_ok, parseLooseValue. destruct (trim x) as [|c r]; [reflexivity|].
    now destruct (json_parse (c :: r)) as [[]|]. }
  intros E. now rewrite !H, E.
Qed.

Lemma names_trim a : parseLooseValue (trim a) = parseLooseValue a.
Proof. unfold parseLooseValue. now rewrite trim_idem. Qed.

(** * Reopening *)

Section Reopen.
Context (clock : N -> N).

(** Reading a condition that was built gives a condition that is built alike. *)
Lemma condition_again c v seed :
  condition_wf c -> (trim (c_path c) <> [] -> stable (c_value_text c)) ->
  buildConditionPayload c = Some v ->
  exists c', normalizeCondition clock v seed = Ret (c', (seed + 1)%N)
             /\ condition_wf c' /\ buildConditionPayload c' = Some v.
Proof.
  intros [Hm] Hs. unfold buildConditionPayload. destruct (truthy (trim (c_path c))) eqn:Ep; [|easy].
  cbn [negb]. apply truthy_iff in Ep. specialize (Hs Ep). unfold stable, shown in Hs. rewrite (cond_mode_nonempty _ Hm).
  intros [= <-]. set (o := add_if (c_pass_missing_key c) _ _ _).
  assert (E : jget "path" (JObj o) = Some (JStr (trim (c_path c)))
              /\ jget "mode" (JObj o) = Some (JStr (c_mode c))
              /\ jget "value" (JObj o) = Some (parseLooseValue (c_value_text c))
              /\ is_true (jget "invert" (JObj o)) = c_invert c
              /\ is_true (jget "pass_missing_key" (JObj o)) = c_pass_missing_key c).
  { subst o. destruct (c_invert c), (c_pass_missing_key c); repeat split. }
  destruct E as (E1 & E2 & E3 & E4 & E5).
  eexists. split; [reflexivity|]. rewrite E1, E2, E3, E4, E5, (member_or_in _ _ _ Hm).
  split; [now constructor|]. unfold buildConditionPayload. cbn [c_path c_mode c_value_text c_invert
    c_pass_missing_key str_field]. rewrite trim_idem. apply truthy_iff in Ep as ->.
  cbn [negb]. now rewrite (cond_mode_nonempty _ Hm), Hs.
Qed.

Lemma conditions_again cs seed :
  Forall condition_wf cs -> Forall (fun c => trim (c_path c) <> [] -> stable (c_value_text c)) cs ->
  exists cs' seed', mapM (normalizeCondition clock) (omap buildConditionPayload cs) seed = Ret (cs', seed')
    /\ Forall condition_wf cs'
    /\ omap buildConditionPayload cs' = omap buildConditionPayload cs.
Proof.
  intros Hw; revert seed; induction Hw as [|c cs Hc _ IH]; intros seed Hs.
  - exists [], seed. repeat split; constructor.
  - apply Forall_cons_1 in Hs as [Hsc Hs]. cbn. destruct (buildConditionPayload c) as [v|] eqn:E.
    + destruct (condition_again c v seed Hc Hsc E) as (c' & E1 & Hw' & E2).
      destruct (IH (seed + 1)%N Hs) as (cs' & seed' & E3 & Hws & E4).
      exists (c' :: cs'), seed'. cbn [mapM]. unfold bindM at 1. rewrite E1. unfold bindM.
      rewrite E3. repeat split; [now constructor|]. cbn. now rewrite E2, E4.
    + destruct (IH seed Hs) as (cs' & seed' & E3 & Hws & E4). exists cs', seed'. easy.
Qed.

(** An operation that was built and read again is complete. *)
Lemma reread_complete op op' (o : list (jstr * json)) :
  operation_wf op -> operation_stable op ->
  fields_spec (meta_of (op_mode op)) (op_mode op) (trim (op_description op)) (trim (op_path op))
    (parseLooseValue (op_value_text op)) (op_keep_origin op) (trim (op_from op)) (trim (op_to op)) o ->
  trimmed_fields o -> op_mode op' = op_mode op -> op_path op' = sf "path" o ->
  op_from op' = sf "from" o -> op_to op' = sf "to" o ->
  op_value_text op' = toValueText (obj_get "value" o) ->
  complete op = true -> complete op' = true.
Proof.
  intros [Hm _ _] [Hv Hb _] [_ Ev _ _ Ep Ef Et _] Ht E1 E2 E3 E4 E5. unfold complete.
  rewrite E1, E2, E3, E4, E5, (mode_nonempty _ Hm), Ev. cbv zeta.
  rewrite !(sf_trimmed _ o Ht) by (cbn; tauto). pose proof (required_fields _ Hm) as Hr.
  rewrite !andb_true_iff, !implies_true in *. rewrite !orb_true_iff, !andb_true_iff, !truthy_iff in *.
  destruct Hr as (((R1 & R2) & R3) & R4). intros (((((C1 & C2) & C3) & C4) & C5) & C6).
  assert (Rerr : op_mode op = "return_error" -> m_value (meta_of (op_mode op)) = true)
    by (now intros ->).
  repeat split.
  - intros H. rewrite (Ep H). auto.
  - intros H. left. apply Ef; tauto.
  - intros H. left. apply Et; tauto.
  - intros H. rewrite (R3 H). now apply Hb.
  - intros H. pose proof H as H'%seqb_eq%Rerr. rewrite H'. rewrite <- (C5 H).
    apply error_message_value. now apply Hv.
  - intros H. rewrite (R4 H). specialize (C6 H). rewrite names_trim in *. rewrite <- C6. f_equal.
    apply (Hv (R4 H)).
Qed.

(** Reading an operation that was built gives an operation that is built alike. *)
Lemma operation_again op seed :
  operation_wf op -> operation_stable op ->
  exists op' seed', normalizeOperation clock (operation_payload op) seed = Ret (op', seed')
    /\ operation_wf op' /\ operation_payload op' = operation_payload op
    /\ (complete op = true -> complete op' = true).
Proof.
  intros Hw Hst. destruct Hw as [Hm Hl Hc] eqn:Ew, Hst as [Hv Hb Hs] eqn:Est. clear Ew Est.
  rewrite (operation_payload_core op), mode_nonempty by easy.
  set (cs := omap buildConditionPayload (op_conditions op)).
  set (lg := if op_logic op =s "AND" then "AND" else "OR").
  pose proof (fields_ok (meta_of (op_mode op)) (op_mode op) (trim (op_description op))
    (trim (op_path op)) (parseLooseValue (op_value_text op)) (op_keep_origin op)
    (trim (op_from op)) (trim (op_to op)) (meta_of_in _)) as Ho.
  unfold payload_core at 1 2. set (o := payload_fields _ _ _ _ _ _ _ _) in *.
  pose proof Ho as [Em Ev Ec El _ _ _ Ea].
  assert (Ht : trimmed_fields o) by (apply fields_trimmed; apply trim_idem).
  destruct (conditions_again (op_conditions op) (seed + 1)%N Hc Hs) as (cs' & seed' & E3 & Hws & E4).
  fold cs in E3, E4.
  set (op' := {| op_id := local_id clock seed;
                 op_description := sf "description" o; op_path := sf "path" o;
                 op_mode := op_mode op; op_value_text := toValueText (obj_get "value" o);
                 op_keep_origin := is_true (obj_get "keep_origin" o);
                 op_from := sf "from" o; op_to := sf "to" o;
                 op_logic := normalize_logic (obj_get "logic" (with_conditions cs lg o));
                 op_conditions := cs' |}).
  exists op', seed'. split; [|split; [|split]].
  - unfold normalizeOperation, bindM at 1. cbn [nextLocalId jget].
    rewrite with_conditions_conditions by easy.
    rewrite !(fun k => with_conditions_get k cs lg o) by easy. rewrite Em, (member_or_in _ _ _ Hm).
    destruct cs as [|x cs0]; unfold bindM.
    + cbn in E3. injection E3 as <- <-. easy.
    + rewrite E3. easy.
  - split; [easy| |easy]. cbn [op_logic op']. unfold normalize_logic.
    destruct (toUpper _ =s "AND"); cbn; tauto.
  - rewrite (operation_payload_core op').
    cbn [op_mode op_description op_path op_value_text op_keep_origin op_from op_to op_logic
         op_conditions op'].
    rewrite mode_nonempty, E4 by easy.
    rewrite !(sf_trimmed _ o Ht) by (cbn; tauto). f_equal.
    rewrite with_conditions_logic by easy. unfold payload_core. rewrite Ea.
    + destruct cs; [easy|]. cbn [with_conditions]. do 2 f_equal. subst lg.
      destruct Hl as [<-|[<-|[]]]; reflexivity.
    + intros Hv'. rewrite Ev, Hv'. now apply Hv.
  - now apply (reread_complete op op' o).
Qed.

Lemma operations_again ops seed :
  Forall operation_wf ops -> Forall operation_stable ops ->
  exists ops' seed', mapM (normalizeOperation clock) (map operation_payload ops) seed = Ret (ops', seed')
    /\ Forall operation_wf ops'
    /\ map operation_payload ops' = map operation_payload ops
    /\ (forallb complete ops = true -> forallb complete ops' = true).
Proof.
  intros Hw; revert seed; induction Hw as [|op ops Hop _ IH]; intros seed Hs.
  - exists [], seed. repeat split; auto.
  - apply Forall_cons_1 in Hs as [Hso Hs].
    destruct (operation_again op seed Hop Hso) as (op' & s1 & E1 & Hw1 & E2 & Hc1).
    destruct (IH s1 Hs) as (ops' & s2 & E3 & Hw2 & E4 & Hc2).
    exists (op' :: ops'), s2. cbn [map mapM]. unfold bindM at 1. rewrite E1. unfold bindM.
    rewrite E3. split; [easy|]. split; [now constructor|]. split; [cbn; now rewrite E2, E4|].
    cbn. rewrite !andb_true_iff. tauto.
Qed.
End Reopen.

Lemma validate_from_spec ops line :
  match validate_from line ops with
  | None => forall i op, ops !! i = Some op -> validate_operation op (line + i) = None
  | Some m => exists pre op post, ops = pre ++ op :: post
      /\ validate_operation op (line + length pre) = Some m
      /\ forall i x, pre !! i = Some x -> validate_operation x (line + i) = None
  end.
Proof.
  revert line; induction ops as [|op ops IH]; intros line; cbn [validate_from]; [easy|].
  destruct (validate_operation op line) as [m|] eqn:E.
  - exists [], op, ops. rewrite Nat.add_0_r. split; [easy|]. split; [easy|]. intros i x Hx.
    now rewrite lookup_nil in Hx.
  - specialize (IH (S line)). destruct (validate_from (S line) ops) as [m|].
    + destruct IH as (pre & o & post & -> & Ho & Hpre). exists (op :: pre), o, post.
      split; [easy|]. split; [cbn [length]; now rewrite Nat.add_succ_r|].
      intros [|i] x Hx; cbn in Hx.
      * injection Hx as <-. now rewrite Nat.add_0_r.
      * rewrite Nat.add_succ_r. now apply (Hpre i).
    + intros [|i] x Hx; cbn in Hx.
      * injection Hx as <-. now rewrite Nat.add_0_r.
      * rewrite Nat.add_succ_r. now apply (IH i).
Qed.

Lemma validated ops :
  match validateOperations ops with
  | None => forallb complete ops = true
  | Some _ => forallb complete ops = false
  end.
Proof.
  pose proof (validate_from_spec ops 1) as H. unfold validateOperations.
  destruct (validate_from 1 ops) as [m|].
  - destruct H as (pre & op & post & -> & Ho & _). rewrite forallb_app. cbn.
    pose proof (validate_complete op (1 + length pre)) as Hc. rewrite Ho in Hc. destruct m as [key line].
    destruct Hc as [-> _]. now rewrite andb_false_r.
  - apply forallb_forall. intros op [i Hi]%list_elem_of_In%list_elem_of_lookup.
    pose proof (validate_complete op (1 + i)) as Hc. now rewrite (H i op Hi) in Hc.
Qed.

Lemma filter_all {A} (f : A -> bool) l : Forall (fun x => f x = true) l -> List.filter f l = l.
Proof. induction 1 as [|x l Hx _ IH]; [easy|]. cbn. now rewrite Hx, IH. Qed.

Lemma pretty_edges k v : edges_ok (pretty (JObj [(k, v)])) = true /\ pretty (JObj [(k, v)]) <> [].
Proof.
  set (m := quote k ++ ": " ++ stringify_indent 2 (repeat 32%N 2) v).
  assert (E : pretty (JObj [(k, v)]) = "{" ++ ([lf] ++ repeat 32%N 2 ++ m ++ [lf]) ++ "}").
  { change (pretty (JObj [(k, v)])) with ("{" ++ [lf] ++ repeat 32%N 2 ++ m ++ [lf] ++ "}").
    now rewrite <- !app_assoc. }
  rewrite E. split; [now apply (edges_ok_app "{" _ "}")|easy].
Qed.

(** Opening the text of a list of operations. *)
Lemma open_operations clock seed l ops' seed' :
  let payload := operations_of l in
  json_parse (pretty payload) = Some payload -> l <> [] ->
  mapM (normalizeOperation clock) l seed = Ret (ops', seed') ->
  parseInitialState clock (pretty payload) seed
  = Ret ({| es_editMode := Visual; es_visualMode := Operations; es_legacyValue := [];
            es_operations := ops'; es_jsonText := pretty payload; es_jsonError := [] |}, seed').
Proof.
  intros payload Hp Hl E. destruct (pretty_edges "operations" (JArr l)) as [He Hne].
  change (JObj _) with payload in He, Hne. unfold parseInitialState. rewrite (edges_trim _ He).
  destruct (pretty payload) as [|c text] eqn:Et; [easy|]. rewrite Hp. subst payload.
  rewrite <- Et. destruct l as [|j l]; [easy|]. unfold operations_of at 1. cbv iota.
  match goal with |- context [operations_field ?x] =>
    change (operations_field x) with (Some (j :: l)) end.
  cbv beta iota delta [load_operations bindM]. now rewrite E.
Qed.

(** Complete operations are all saved. *)
Lemma build_complete ops :
  forallb complete ops = true -> ops <> [] ->
  buildOperationsJson ops true = inr (pretty (operations_of (map operation_payload ops))).
Proof.
  intros Hc Hn. unfold buildOperationsJson.
  rewrite filter_all by
    (apply List.Forall_forall; intros op Hop; rewrite complete_not_blank; [easy|];
     exact (proj1 (forallb_forall _ _) Hc op Hop)).
  pose proof (validated ops) as Hv. destruct ops; [easy|].
  destruct (validateOperations _); [congruence|easy].
Qed.

(** Complete operations that are saved and read again save alike. *)
Lemma kept_again clock kept seed :
  Forall operation_wf kept -> Forall operation_stable kept -> forallb complete kept = true ->
  kept <> [] ->
  exists ops' seed', mapM (normalizeOperation clock) (map operation_payload kept) seed = Ret (ops', seed')
    /\ Forall operation_wf ops'
    /\ buildOperationsJson ops' true = inr (pretty (operations_of (map operation_payload kept))).
Proof.
  intros Hw Hs Hc Hk. destruct (operations_again clock kept seed Hw Hs) as (ops' & seed' & E1 & Hw' & E2 & Hc').
  exists ops', seed'. repeat (split; [easy|]). rewrite <- E2. apply build_complete; [auto|].
  intros ->. now destruct kept.
Qed.

(** The text that is built from valid operations. *)
Lemma built_text ops text :
  Forall (fun op => wf_json (operation_payload op)) ops ->
  buildOperationsJson ops true = inr text -> text <> [] ->
  exists kept, (forall op, In op kept -> In op ops) /\ kept <> []
    /\ forallb complete kept = true
    /\ text = pretty (operations_of (map operation_payload kept))
    /\ json_parse text = Some (operations_of (map operation_payload kept)).
Proof.
  intros Hj. unfold buildOperationsJson.
  assert (Hin : forall op, In op (List.filter (fun o => negb (isOperationBlank o)) ops) -> In op ops)
    by (intros op [Ho _]%List.filter_In; exact Ho).
  revert Hin. generalize (List.filter (fun o => negb (isOperationBlank o)) ops) as kept.
  intros [|op1 kept1] Hin; [now intros [= <-]|]. set (kept := op1 :: kept1) in *.
  pose proof (validated kept) as Hv. destruct (validateOperations kept) as [m|]; [discriminate|].
  intros [= <-] _. exists kept. repeat (split; [easy|]).
  apply (read_print (print := pretty)).
  split; [easy|]. split; [|easy]. split; [now repeat constructor|].
  apply fold_wf_Forall, Forall_map, List.Forall_forall. intros op Hop.
  exact (proj1 (List.Forall_forall _ _) Hj op (Hin op Hop)).
Qed.

(** ** Saved operations *)

(** A saved operation, as the gateway reads it, has the fields of its mode. *)
Definition payload_complete (v : json) : bool :=
  let text k := str_field (jget k v) in
  let mode := text "mode" in
  memb mode OPERATION_MODE_VALUES
  && implies (m_path (meta_of mode)) (truthy (text "path"))
  && implies (memb mode FROM_REQUIRED_MODES) (truthy (text "from"))
  && implies (memb mode TO_REQUIRED_MODES) (truthy (text "to"))
  && implies (memb mode VALUE_REQUIRED_MODES) (defined (jget "value" v))
  && implies (mode =s "pass_headers")
       (match jget "value" v with Some names => has_names names | None => false end).

Lemma saved_fields op :
  operation_wf op -> complete op = true -> payload_complete (operation_payload op) = true.
Proof.
  intros [Hm _ _]. unfold complete. rewrite operation_payload_core, (mode_nonempty _ Hm). cbv zeta.
  pose proof (required_fields _ Hm) as Hr.
  pose proof (fields_ok (meta_of (op_mode op)) (op_mode op) (trim (op_description op))
    (trim (op_path op)) (parseLooseValue (op_value_text op)) (op_keep_origin op)
    (trim (op_from op)) (trim (op_to op)) (meta_of_in _)) as [Em Ev _ _ Ep Ef Et _].
  unfold payload_complete, payload_core, sf in *. cbn [jget].
  rewrite !with_conditions_get by easy. rewrite Em. cbn [str_field].
  rewrite Ev, (proj2 (memb_In _ _) Hm). rewrite !andb_true_iff, !implies_true in *.
  rewrite !orb_true_iff, !andb_true_iff, !truthy_iff in *.
  destruct Hr as (((R1 & R2) & R3) & R4). intros (((((C1 & C2) & C3) & C4) & C5) & C6).
  repeat split; [intros H; now rewrite Ep; [apply C1|]|intros H; apply Ef; tauto
    |intros H; apply Et; tauto|intros H; now rewrite R3|].
  intros H. rewrite (R4 H). specialize (C6 H). unfold parseLooseValue in *. now rewrite trim_idem in C6.
Qed.

(** * Properties *)

(** C37: saving is stable: what was saved from valid operations, reopened, gives as
    many operations that save as the same text, whatever the modes, provided the
    value texts are stable. *)
Theorem reopen_save (clock : N -> N) (seed : N) (ops : list ParamOverrideOperation) (text : jstr) :
  Forall operation_wf ops -> Forall operation_stable ops ->
  Forall (fun op => wf_json (operation_payload op)) ops ->
  buildOperationsJson ops true = inr text -> text <> [] ->
  exists st seed', parseInitialState clock text seed = Ret (st, seed')
    /\ es_editMode st = Visual /\ es_visualMode st = Operations
    /\ Forall operation_wf (es_operations st)
    /\ buildOperationsJson (es_operations st) true = inr text.
Proof.
  intros Hw Hs Hj E Hne. destruct (built_text _ _ Hj E Hne) as (kept & Hin & Hk & Ev & -> & Hp).
  assert (Hkeep : forall P, Forall P ops -> Forall P kept).
  { intros P HP. apply List.Forall_forall. intros o Ho.
    exact (proj1 (List.Forall_forall _ _) HP o (Hin o Ho)). }
  apply Hkeep in Hw, Hs. set (payload := operations_of (map operation_payload kept)) in *.
  destruct (kept_again clock kept seed Hw Hs Ev Hk) as (ops' & seed' & E1 & Hw' & E2).
  eexists _, _. split; [apply open_operations; [exact Hp|now destruct kept|exact E1]|].
  now repeat split.
Qed.

Definition sample_condition : ParamOverrideCondition :=
  {| c_id := "c"; c_path := "model"; c_mode := "prefix"; c_value_text := "openai/";
     c_invert := false; c_pass_missing_key := true |}.

Definition sample_set : ParamOverrideOperation :=
  {| op_id := "o"; op_description := []; op_path := " temperature"; op_mode := "set"; op_from := [];
     op_to := "x"; op_value_text := "1"; op_keep_origin := false; op_logic := "AND";
     op_conditions := [sample_condition] |}.

Lemma sample_set_wf : Forall operation_wf [sample_set].
Proof. repeat constructor; cbn; tauto. Defined.

Lemma sample_set_stable : Forall operation_stable [sample_set].
Proof. constructor; [|constructor]. split; [easy|discriminate|repeat constructor]. Defined.

Lemma sample_set_json : Forall (fun op => wf_json (operation_payload op)) [sample_set].
Proof. repeat constructor. discriminate. Defined.

Lemma reopen_save_witness :
  exists text st seed',
    buildOperationsJson [sample_set] true = inr text
    /\ parseInitialState (fun _ => 0%N) text 0%N = Ret (st, seed')
    /\ buildOperationsJson (es_operations st) true = inr text.
Proof.
  destruct (reopen_save (fun _ => 0%N) 0%N [sample_set] _ sample_set_wf
              sample_set_stable sample_set_json eq_refl ltac:(discriminate))
    as (st & seed' & H1 & _ & _ & _ & H2).
  eexists _, st, seed'. split; [reflexivity|]. exact (conj H1 H2).
Defined.

(** validation reports the first operation that lacks what its mode needs, with
    its line, and nothing exactly when every operation has it. *)
Theorem validate_first (ops : list ParamOverrideOperation) :
  match validateOperations ops with
  | None => forallb complete ops = true
  | Some (_, line) =>
    exists pre op post, ops = pre ++ op :: post /\ line = S (length pre)
      /\ forallb complete pre = true /\ complete op = false
  end.
Proof.
  assert (Hall : forall pre, (forall i x, pre !! i = Some x -> validate_operation x (1 + i) = None) ->
                   forallb complete pre = true).
  { intros pre H. apply forallb_forall. intros x Hx.
    apply list_elem_of_In, list_elem_of_lookup in Hx as [i Hi].
    pose proof (validate_complete x (1 + i)) as Hv. now rewrite (H i x Hi) in Hv. }
  pose proof (validate_from_spec ops 1) as H. unfold validateOperations.
  destruct (validate_from 1 ops) as [[key line]|]; [|now apply Hall].
  destruct H as (pre & op & post & -> & Ho & Hpre). exists pre, op, post.
  pose proof (validate_complete op (1 + length pre)) as Hv. rewrite Ho in Hv.
  destruct Hv as [Hc ->]. repeat (split; [easy|]). split; [now apply Hall|easy].
Qed.

(** what is saved from edited operations is a list of operations that each have
    the fields their mode needs: a path, a source, a target, a value, header names. *)
Theorem saved_complete (ops : list ParamOverrideOperation) (text : jstr) :
  Forall operation_wf ops -> Forall (fun op => wf_json (operation_payload op)) ops ->
  buildOperationsJson ops true = inr text -> text <> [] ->
  exists l, json_parse text = Some (operations_of l) /\ l <> [] /\ forallb payload_complete l = true.
Proof.
  intros Hw Hj E Hne. destruct (built_text _ _ Hj E Hne) as (kept & Hin & Hk & Ev & -> & Hp).
  exists (map operation_payload kept). split; [easy|]. split; [now destruct kept|].
  apply forallb_forall. intros v (op & <- & Hop)%in_map_iff. apply saved_fields.
  - exact (proj1 (List.Forall_forall _ _) Hw op (Hin op Hop)).
  - exact (proj1 (forallb_forall _ _) Ev op Hop).
Qed.

Lemma saved_complete_witness :
  exists text l, buildOperationsJson [sample_set] true = inr text
    /\ json_parse text = Some (operations_of l) /\ l <> []
    /\ forallb payload_complete l = true.
Proof.
  destruct (saved_complete [sample_set] _ sample_set_wf sample_set_json eq_refl ltac:(discriminate))
    as (l & H1 & H2 & H3).
  eexists _, l. split; [reflexivity|]. exact (conj H1 (conj H2 H3)).
Defined.
