(* ===== verification/ParamEditor.v ===== *)
(** Model of the component [ParamOverrideEditorDialog] of
    [web/default/src/features/channels/components/dialogs/param-override-editor-dialog.tsx]:
    its state, its handlers and what it saves.

    A handler takes the state of the last render and gives the next one with its
    effects (a toast, the call of [onSave], the closing of the dialog); it may throw,
    and then no state is set.  Translation is the parameter [t]; the identifiers are
    drawn as in [ParamOverride]. *)

From S2P Require Import Prelude Number Json ParamOverride ParamPayload ParamOverrideProofs.
From stdpp Require Import options.

(** * State *)

Record Editor := {
  ed_editMode : EditMode;
  ed_visualMode : VisualMode;
  ed_legacyValue : jstr;
  ed_operations : list ParamOverrideOperation;
  ed_jsonText : jstr;
  ed_jsonError : jstr;
  ed_operationSearch : jstr;
  ed_selectedOperationId : jstr;
  ed_expandedConditions : list (jstr * bool);
  ed_draggedOperationId : jstr;
  ed_dragOverOperationId : jstr;
  ed_dragOverPosition : DropPosition;
  ed_templatePresetKey : jstr
}.

Inductive Effect :=
| ToastError (message : jstr)
| OnSave (value : jstr)
| Close.

(** ** The setters *)

Definition setEditMode v e :=
  {| ed_editMode := v; ed_visualMode := ed_visualMode e; ed_legacyValue := ed_legacyValue e;
     ed_operations := ed_operations e; ed_jsonText := ed_jsonText e; ed_jsonError := ed_jsonError e;
     ed_operationSearch := ed_operationSearch e; ed_selectedOperationId := ed_selectedOperationId e;
     ed_expandedConditions := ed_expandedConditions e;
     ed_draggedOperationId := ed_draggedOperationId e;
     ed_dragOverOperationId := ed_dragOverOperationId e;
     ed_dragOverPosition := ed_dragOverPosition e; ed_templatePresetKey := ed_templatePresetKey e |}.
Definition setVisualMode v e :=
  {| ed_editMode := ed_editMode e; ed_visualMode := v; ed_legacyValue := ed_legacyValue e;
     ed_operations := ed_operations e; ed_jsonText := ed_jsonText e; ed_jsonError := ed_jsonError e;
     ed_operationSearch := ed_operationSearch e; ed_selectedOperationId := ed_selectedOperationId e;
     ed_expandedConditions := ed_expandedConditions e;
     ed_draggedOperationId := ed_draggedOperationId e;
     ed_dragOverOperationId := ed_dragOverOperationId e;
     ed_dragOverPosition := ed_dragOverPosition e; ed_templatePresetKey := ed_templatePresetKey e |}.
Definition setLegacyValue v e :=
  {| ed_editMode := ed_editMode e; ed_visualMode := ed_visualMode e; ed_legacyValue := v;
     ed_operations := ed_operations e; ed_jsonText := ed_jsonText e; ed_jsonError := ed_jsonError e;
     ed_operationSearch := ed_operationSearch e; ed_selectedOperationId := ed_selectedOperationId e;
     ed_expandedConditions := ed_expandedConditions e;
     ed_draggedOperationId := ed_draggedOperationId e;
     ed_dragOverOperationId := ed_dragOverOperationId e;
     ed_dragOverPosition := ed_dragOverPosition e; ed_templatePresetKey := ed_templatePresetKey e |}.
Definition setOperations v e :=
  {| ed_editMode := ed_editMode e; ed_visualMode := ed_visualMode e;
     ed_legacyValue := ed_legacyValue e;
     ed_operations := v; ed_jsonText := ed_jsonText e; ed_jsonError := ed_jsonError e;
     ed_operationSearch := ed_operationSearch e; ed_selectedOperationId := ed_selectedOperationId e;
     ed_expandedConditions := ed_expandedConditions e;
     ed_draggedOperationId := ed_draggedOperationId e;
     ed_dragOverOperationId := ed_dragOverOperationId e;
     ed_dragOverPosition := ed_dragOverPosition e; ed_templatePresetKey := ed_templatePresetKey e |}.
Definition setJsonText v e :=
  {| ed_editMode := ed_editMode e; ed_visualMode := ed_visualMode e;
     ed_legacyValue := ed_legacyValue e;
     ed_operations := ed_operations e; ed_jsonText := v; ed_jsonError := ed_jsonError e;
     ed_operationSearch := ed_operationSearch e; ed_selectedOperationId := ed_selectedOperationId e;
     ed_expandedConditions := ed_expandedConditions e;
     ed_draggedOperationId := ed_draggedOperationId e;
     ed_dragOverOperationId := ed_dragOverOperationId e;
     ed_dragOverPosition := ed_dragOverPosition e; ed_templatePresetKey := ed_templatePresetKey e |}.
Definition setJsonError v e :=
  {| ed_editMode := ed_editMode e; ed_visualMode := ed_visualMode e;
     ed_legacyValue := ed_legacyValue e;
     ed_operations := ed_operations e; ed_jsonText := ed_jsonText e; ed_jsonError := v;
     ed_operationSearch := ed_operationSearch e; ed_selectedOperationId := ed_selectedOperationId e;
     ed_expandedConditions := ed_expandedConditions e;
     ed_draggedOperationId := ed_draggedOperationId e;
     ed_dragOverOperationId := ed_dragOverOperationId e;
     ed_dragOverPosition := ed_dragOverPosition e; ed_templatePresetKey := ed_templatePresetKey e |}.
Definition setOperationSearch v e :=
  {| ed_editMode := ed_editMode e; ed_visualMode := ed_visualMode e;
     ed_legacyValue := ed_legacyValue e;
     ed_operations := ed_operations e; ed_jsonText := ed_jsonText e; ed_jsonError := ed_jsonError e;
     ed_operationSearch := v; ed_selectedOperationId := ed_selectedOperationId e;
     ed_expandedConditions := ed_expandedConditions e;
     ed_draggedOperationId := ed_draggedOperationId e;
     ed_dragOverOperationId := ed_dragOverOperationId e;
     ed_dragOverPosition := ed_dragOverPosition e; ed_templatePresetKey := ed_templatePresetKey e |}.
Definition setSelectedOperationId v e :=
  {| ed_editMode := ed_editMode e; ed_visualMode := ed_visualMode e;
     ed_legacyValue := ed_legacyValue e;
     ed_operations := ed_operations e; ed_jsonText := ed_jsonText e; ed_jsonError := ed_jsonError e;
     ed_operationSearch := ed_operationSearch e; ed_selectedOperationId := v;
     ed_expandedConditions := ed_expandedConditions e;
     ed_draggedOperationId := ed_draggedOperationId e;
     ed_dragOverOperationId := ed_dragOverOperationId e;
     ed_dragOverPosition := ed_dragOverPosition e; ed_templatePresetKey := ed_templatePresetKey e |}.
Definition setExpandedConditions v e :=
  {| ed_editMode := ed_editMode e; ed_visualMode := ed_visualMode e;
     ed_legacyValue := ed_legacyValue e;
     ed_operations := ed_operations e; ed_jsonText := ed_jsonText e; ed_jsonError := ed_jsonError e;
     ed_operationSearch := ed_operationSearch e; ed_selectedOperationId := ed_selectedOperationId e;
     ed_expandedConditions := v;
     ed_draggedOperationId := ed_draggedOperationId e;
     ed_dragOverOperationId := ed_dragOverOperationId e;
     ed_dragOverPosition := ed_dragOverPosition e; ed_templatePresetKey := ed_templatePresetKey e |}.
Definition setDrag dragged over position e :=
  {| ed_editMode := ed_editMode e; ed_visualMode := ed_visualMode e;
     ed_legacyValue := ed_legacyValue e;
     ed_operations := ed_operations e; ed_jsonText := ed_jsonText e; ed_jsonError := ed_jsonError e;
     ed_operationSearch := ed_operationSearch e; ed_selectedOperationId := ed_selectedOperationId e;
     ed_expandedConditions := ed_expandedConditions e;
     ed_draggedOperationId := dragged; ed_dragOverOperationId := over;
     ed_dragOverPosition := position; ed_templatePresetKey := ed_templatePresetKey e |}.
Definition setTemplatePresetKey v e :=
  {| ed_editMode := ed_editMode e; ed_visualMode := ed_visualMode e;
     ed_legacyValue := ed_legacyValue e;
     ed_operations := ed_operations e; ed_jsonText := ed_jsonText e; ed_jsonError := ed_jsonError e;
     ed_operationSearch := ed_operationSearch e; ed_selectedOperationId := ed_selectedOperationId e;
     ed_expandedConditions := ed_expandedConditions e;
     ed_draggedOperationId := ed_draggedOperationId e;
     ed_dragOverOperationId := ed_dragOverOperationId e;
     ed_dragOverPosition := ed_dragOverPosition e; ed_templatePresetKey := v |}.

(** ** Patches ([Partial<...>] without the identifier, which no caller gives) *)

Definition or_else {A} (v : option A) (d : A) : A := match v with Some x => x | None => d end.

Record OperationPatch := {
  p_description : option jstr; p_path : option jstr; p_mode : option jstr; p_from : option jstr;
  p_to : option jstr; p_value_text : option jstr; p_keep_origin : option bool; p_logic : option jstr
}.

(** [{ ...o, ...patch }] *)
Definition patch_operation (p : OperationPatch) (o : ParamOverrideOperation)
  : ParamOverrideOperation :=
  {| op_id := op_id o; op_description := or_else (p_description p) (op_description o);
     op_path := or_else (p_path p) (op_path o); op_mode := or_else (p_mode p) (op_mode o);
     op_from := or_else (p_from p) (op_from o); op_to := or_else (p_to p) (op_to o);
     op_value_text := or_else (p_value_text p) (op_value_text o);
     op_keep_origin := or_else (p_keep_origin p) (op_keep_origin o);
     op_logic := or_else (p_logic p) (op_logic o); op_conditions := op_conditions o |}.

(** [{ ...op, conditions }] and [{ ...op, value_text }] *)
Definition set_conditions (cs : list ParamOverrideCondition) (o : ParamOverrideOperation)
  : ParamOverrideOperation :=
  {| op_id := op_id o; op_description := op_description o; op_path := op_path o;
     op_mode := op_mode o; op_from := op_from o; op_to := op_to o;
     op_value_text := op_value_text o; op_keep_origin := op_keep_origin o;
     op_logic := op_logic o; op_conditions := cs |}.

Definition set_value_text (v : jstr) (o : ParamOverrideOperation) : ParamOverrideOperation :=
  {| op_id := op_id o; op_description := op_description o; op_path := op_path o;
     op_mode := op_mode o; op_from := op_from o; op_to := op_to o;
     op_value_text := v; op_keep_origin := op_keep_origin o;
     op_logic := op_logic o; op_conditions := op_conditions o |}.

(** The fields that conditions and pruning rules share. *)
Record RulePatch := {
  rp_path : option jstr; rp_mode : option jstr; rp_value_text : option jstr;
  rp_invert : option bool; rp_pass_missing_key : option bool
}.

Definition patch_condition (p : RulePatch) (c : ParamOverrideCondition) : ParamOverrideCondition :=
  {| c_id := c_id c; c_path := or_else (rp_path p) (c_path c);
     c_mode := or_else (rp_mode p) (c_mode c);
     c_value_text := or_else (rp_value_text p) (c_value_text c);
     c_invert := or_else (rp_invert p) (c_invert c);
     c_pass_missing_key := or_else (rp_pass_missing_key p) (c_pass_missing_key c) |}.

Definition patch_rule (p : RulePatch) (r : PruneRule) : PruneRule :=
  {| pr_id := pr_id r; pr_path := or_else (rp_path p) (pr_path r);
     pr_mode := or_else (rp_mode p) (pr_mode r);
     pr_value_text := or_else (rp_value_text p) (pr_value_text r);
     pr_invert := or_else (rp_invert p) (pr_invert r);
     pr_pass_missing_key := or_else (rp_pass_missing_key p) (pr_pass_missing_key r) |}.

Record ErrorPatch := {
  ep_message : option jstr; ep_statusCode : option number; ep_code : option jstr;
  ep_type : option jstr; ep_skipRetry : option bool; ep_simpleMode : option bool
}.

Definition patch_error (p : ErrorPatch) (d : ReturnErrorDraft) : ReturnErrorDraft :=
  {| re_message := or_else (ep_message p) (re_message d);
     re_statusCode := or_else (ep_statusCode p) (re_statusCode d);
     re_code := or_else (ep_code p) (re_code d); re_type := or_else (ep_type p) (re_type d);
     re_skipRetry := or_else (ep_skipRetry p) (re_skipRetry d);
     re_simpleMode := or_else (ep_simpleMode p) (re_simpleMode d) |}.

Record PrunePatch := {
  pp_simpleMode : option bool; pp_typeText : option jstr; pp_logic : option jstr;
  pp_recursive : option bool
}.

Definition patch_prune (p : PrunePatch) (d : PruneObjectsDraft) : PruneObjectsDraft :=
  {| pd_simpleMode := or_else (pp_simpleMode p) (pd_simpleMode d);
     pd_typeText := or_else (pp_typeText p) (pd_typeText d);
     pd_logic := or_else (pp_logic p) (pd_logic d);
     pd_recursive := or_else (pp_recursive p) (pd_recursive d); pd_rules := pd_rules d |}.

Definition set_rules (simple : bool) (rules : list PruneRule) (d : PruneObjectsDraft)
  : PruneObjectsDraft :=
  {| pd_simpleMode := simple; pd_typeText := pd_typeText d; pd_logic := pd_logic d;
     pd_recursive := pd_recursive d; pd_rules := rules |}.

(** * Derived values *)

(** [operations[0]?.id || ''] *)
Definition first_id (ops : list ParamOverrideOperation) : jstr :=
  match ops with op :: _ => op_id op | [] => [] end.

(** The effect that keeps the selection valid, after each commit. *)
Definition settle (e : Editor) : Editor :=
  match ed_operations e with
  | [] => setSelectedOperationId [] e
  | _ =>
    if existsb (has_id (ed_selectedOperationId e)) (ed_operations e) then e
    else setSelectedOperationId (first_id (ed_operations e)) e
  end.

Definition operationCount (e : Editor) : nat :=
  length (List.filter (fun o => negb (isOperationBlank o)) (ed_operations e)).

Section Search.
(** [String.prototype.toLowerCase], whose tables are those of Unicode. *)
Context (toLowerCase : jstr -> jstr).

Definition searchable_text (op : ParamOverrideOperation) : jstr :=
  toLowerCase (join " " (List.filter truthy [op_description op; op_mode op; op_path op; op_from op;
                                             op_to op; op_value_text op])).

Definition filteredOperations (e : Editor) : list ParamOverrideOperation :=
  let keyword := toLowerCase (trim (ed_operationSearch e)) in
  if negb (truthy keyword) then ed_operations e
  else List.filter (fun op => includes (searchable_text op) keyword) (ed_operations e).
End Search.

Definition selectedOperation (e : Editor) : option ParamOverrideOperation :=
  List.find (has_id (ed_selectedOperationId e)) (ed_operations e).

Definition selectedOperationIndex (e : Editor) : option nat :=
  findIndex (has_id (ed_selectedOperationId e)) (ed_operations e).

Definition returnErrorDraft (e : Editor) : option ReturnErrorDraft :=
  match selectedOperation e with
  | Some op => if op_mode op =s "return_error" then Some (parseReturnErrorDraft (op_value_text op))
               else None
  | None => None
  end.

Definition topOperationModes (e : Editor) : list (jstr * nat) :=
  let count counts op :=
    let mode := str_or (op_mode op) "set" in
    obj_set mode (S (or_else (obj_get mode counts) 0)) counts in
  take 4 (stable_sort (fun a b => snd b <=? snd a) (fold_left count (ed_operations e) [])).

(** [{ ...a, ...b }] for a parsed [b]: the indices of an array or a string are keys. *)
Definition spread (a : list (jstr * json)) (b : json) : list (jstr * json) :=
  let set_all l := fold_left (fun acc kv => obj_set (fst kv) (snd kv) acc) l a in
  let indexed (l : list json) := combine (map (fun i => digits (N.of_nat i)) (seq 0 (length l))) l in
  match b with
  | JObj o => set_all o
  | JArr l => set_all (indexed l)
  | JStr s => set_all (indexed (map (fun c => JStr [c]) s))
  | _ => a
  end.

(** * Handlers *)

Section Handlers.
Context (clock : N -> N) (t : Message -> jstr).

(** The translation of a text without parameter. *)
Definition t0 (key : jstr) : jstr := t (key, 0).

(** The next state and the effects of a handler. *)
Definition Next : Type := Editor * list Effect.
Definition quiet (e : Editor) : M Next := ret (e, []).
Definition toast (m : jstr) (e : Editor) : M Next := ret (e, [ToastError m]).

(** The list of operations with one identifier changed: [prev.map(o => ...)]. *)
Definition map_id (id : jstr) (f : ParamOverrideOperation -> ParamOverrideOperation)
    (ops : list ParamOverrideOperation) : list ParamOverrideOperation :=
  map (fun o => if has_id id o then f o else o) ops.

(** The dialog is opened on a value. *)
Definition openDialog (value : jstr) (e : Editor) : M Next :=
  state <-' parseInitialState clock value;
  quiet {| ed_editMode := es_editMode state; ed_visualMode := es_visualMode state;
           ed_legacyValue := es_legacyValue state; ed_operations := es_operations state;
           ed_jsonText := es_jsonText state; ed_jsonError := es_jsonError state;
           ed_operationSearch := []; ed_selectedOperationId := first_id (es_operations state);
           ed_expandedConditions := []; ed_draggedOperationId := []; ed_dragOverOperationId := [];
           ed_dragOverPosition := Before;
           ed_templatePresetKey := match es_visualMode state with
                                   | Legacy => "legacy_default"
                                   | Operations => "operations_default"
                                   end |}.

(** The values of [useState] at the first render. *)
Definition initialEditor : M Editor :=
  op <-' createDefaultOperation clock;
  ret {| ed_editMode := Visual; ed_visualMode := Operations; ed_legacyValue := [];
         ed_operations := [op]; ed_jsonText := []; ed_jsonError := []; ed_operationSearch := [];
         ed_selectedOperationId := []; ed_expandedConditions := []; ed_draggedOperationId := [];
         ed_dragOverOperationId := []; ed_dragOverPosition := Before;
         ed_templatePresetKey := "operations_default" |}.

Definition updateOperation (id : jstr) (patch : OperationPatch) (e : Editor) : M Next :=
  quiet (setOperations (map_id id (patch_operation patch) (ed_operations e)) e).

Definition addOperation (e : Editor) : M Next :=
  created <-' createDefaultOperation clock;
  quiet (setSelectedOperationId (op_id created) (setOperations (ed_operations e ++ [created]) e)).

(** What [duplicateOperation] gives to [normalizeOperation]. *)
Definition copy_condition (c : ParamOverrideCondition) : json :=
  JObj [ ("path", JStr (c_path c)); ("mode", JStr (c_mode c));
         ("value", parseLooseValue (c_value_text c)); ("invert", JBool (c_invert c));
         ("pass_missing_key", JBool (c_pass_missing_key c)) ].

Definition copy_operation (o : ParamOverrideOperation) : json :=
  JObj [ ("description", JStr (op_description o)); ("path", JStr (op_path o));
         ("mode", JStr (op_mode o)); ("value", parseLooseValue (op_value_text o));
         ("keep_origin", JBool (op_keep_origin o)); ("from", JStr (op_from o));
         ("to", JStr (op_to o)); ("logic", JStr (op_logic o));
         ("conditions", JArr (map copy_condition (op_conditions o))) ].

(** [eager]: the updater given to [setOperations] is run by the call, and not later by
    the next render; the selection follows the copy only then. *)
Definition duplicateOperation (eager : bool) (id : jstr) (e : Editor) : M Next :=
  match findIndex (has_id id) (ed_operations e) with
  | None => quiet e
  | Some idx =>
    match ed_operations e !! idx with
    | None => quiet e
    | Some source =>
      cloned <-' normalizeOperation clock (copy_operation source);
      let e' := setOperations (insert_at (idx + 1) cloned (ed_operations e)) e in
      quiet (if eager then setSelectedOperationId (op_id cloned) e' else e')
    end
  end.

Definition removeOperation (id : jstr) (e : Editor) : M Next :=
  if length (ed_operations e) <=? 1 then
    op <-' createDefaultOperation clock; quiet (setOperations [op] e)
  else quiet (setOperations (List.filter (fun o => negb (has_id id o)) (ed_operations e)) e).

Definition addCondition (id : jstr) (e : Editor) : M Next :=
  created <-' createDefaultCondition clock;
  quiet (setExpandedConditions (obj_set (c_id created) true (ed_expandedConditions e))
    (setOperations (map_id id (fun o => set_conditions (op_conditions o ++ [created]) o)
                      (ed_operations e)) e)).

Definition updateCondition (id cid : jstr) (patch : RulePatch) (e : Editor) : M Next :=
  quiet (setOperations (map_id id (fun o =>
    set_conditions (map (fun c => if c_id c =s cid then patch_condition patch c else c)
                      (op_conditions o)) o) (ed_operations e)) e).

Definition removeCondition (id cid : jstr) (e : Editor) : M Next :=
  quiet (setOperations (map_id id (fun o =>
    set_conditions (List.filter (fun c => negb (c_id c =s cid)) (op_conditions o)) o)
      (ed_operations e)) e).

(** ** Structured values *)

Definition updateReturnErrorDraft (id : jstr) (patch : ErrorPatch) (e : Editor) : M Next :=
  quiet (setOperations (map_id id (fun o =>
    set_value_text (buildReturnErrorValueText
                      (patch_error patch (parseReturnErrorDraft (op_value_text o)))) o)
      (ed_operations e)) e).

(** Each update reads the draft again: its rules get new identifiers. *)
Definition update_prune_text (updater : PruneObjectsDraft -> M PruneObjectsDraft)
    (o : ParamOverrideOperation) : M ParamOverrideOperation :=
  draft <-' parsePruneObjectsDraft clock (op_value_text o);
  nextDraft <-' updater draft;
  ret (set_value_text (buildPruneObjectsValueText nextDraft) o).

Definition updatePruneObjectsDraft (id : jstr) (updater : PruneObjectsDraft -> M PruneObjectsDraft)
    (e : Editor) : M Next :=
  ops <-' mapM (fun o => if has_id id o then update_prune_text updater o else ret o)
            (ed_operations e);
  quiet (setOperations ops e).

Definition patchPruneDraft (id : jstr) (patch : PrunePatch) : Editor -> M Next :=
  updatePruneObjectsDraft id (fun d => ret (patch_prune patch d)).

(** The updaters of the rules. *)
Definition add_rule (d : PruneObjectsDraft) : M PruneObjectsDraft :=
  rule <-' normalizePruneRule clock (JObj []);
  ret (set_rules false (pd_rules d ++ [rule]) d).

Definition edit_rule (rid : jstr) (patch : RulePatch) (d : PruneObjectsDraft)
  : PruneObjectsDraft :=
  set_rules (pd_simpleMode d)
    (map (fun r => if pr_id r =s rid then patch_rule patch r else r) (pd_rules d)) d.

Definition drop_rule (rid : jstr) (d : PruneObjectsDraft) : PruneObjectsDraft :=
  set_rules (pd_simpleMode d) (List.filter (fun r => negb (pr_id r =s rid)) (pd_rules d)) d.

Definition addPruneRule (id : jstr) : Editor -> M Next := updatePruneObjectsDraft id add_rule.

Definition updatePruneRule (id rid : jstr) (patch : RulePatch) : Editor -> M Next :=
  updatePruneObjectsDraft id (fun d => ret (edit_rule rid patch d)).

Definition removePruneRule (id rid : jstr) : Editor -> M Next :=
  updatePruneObjectsDraft id (fun d => ret (drop_rule rid d)).

(** The draft that the rule editor displays; its rules are drawn at each render. *)
Definition pruneObjectsDraft (e : Editor) : M (option PruneObjectsDraft) :=
  match selectedOperation e with
  | Some op =>
    if op_mode op =s "prune_objects" then
      d <-' parsePruneObjectsDraft clock (op_value_text op); ret (Some d)
    else ret None
  | None => ret None
  end.

(** ** Drag and drop *)

Definition resetDragState (e : Editor) : Editor := setDrag [] [] Before e.

Definition handleDragStart (id : jstr) (e : Editor) : M Next :=
  quiet (setSelectedOperationId id
           (setDrag id (ed_dragOverOperationId e) (ed_dragOverPosition e) e)).

(** [lower]: the pointer is in the lower half of the operation. *)
Definition handleDragOver (lower : bool) (id : jstr) (e : Editor) : M Next :=
  if negb (truthy (ed_draggedOperationId e)) || (ed_draggedOperationId e =s id) then quiet e
  else quiet (setDrag (ed_draggedOperationId e) id (if lower then After else Before) e).

(** [data]: the text of the drag data store. *)
Definition handleDrop (data id : jstr) (e : Editor) : M Next :=
  let sourceId := str_or (ed_draggedOperationId e) data in
  let position := if ed_dragOverOperationId e =s id then ed_dragOverPosition e else Before in
  let e' :=
    if truthy sourceId && truthy id && negb (sourceId =s id) then
      setSelectedOperationId sourceId
        (setOperations (reorderOperations (ed_operations e) sourceId id position) e)
    else e in
  quiet (resetDragState e').

(** ** Modes and templates *)

(** [inl] is the message of the error that is thrown. *)
Definition build_text (ops : list ParamOverrideOperation) (validate : bool) : jstr + jstr :=
  match buildOperationsJson ops validate with
  | inl m => inl (t m)
  | inr text => inr text
  end.

Definition buildVisualJson (e : Editor) : jstr + jstr :=
  match ed_visualMode e with
  | Legacy =>
    let trimmed := trim (ed_legacyValue e) in
    match trimmed with
    | [] => inr []
    | _ =>
      match json_parse trimmed with
      | None => inl (t0 "Parameter override must be valid JSON format")
      | Some (JObj o) => inr (pretty (JObj o))
      | Some _ => inl (t0 "Legacy format must be a JSON object")
      end
    end
  | Operations => build_text (ed_operations e) true
  end.

Definition switchToJsonMode (e : Editor) : M Next :=
  match ed_editMode e with
  | JsonMode => quiet e
  | Visual =>
    match buildVisualJson e with
    | inr text => quiet (setEditMode JsonMode (setJsonError [] (setJsonText text e)))
    | inl message =>
      let text := match ed_visualMode e with
                  | Legacy => ed_legacyValue e
                  | Operations => match build_text (ed_operations e) false with
                                  | inl _ => []   (* without validation nothing is thrown *)
                                  | inr text => text
                                  end
                  end in
      toast message
        (setEditMode JsonMode
           (setJsonError (str_or message (t0 "Parameter configuration error"))
              (setJsonText text e)))
    end
  end.

(** The visual editor on a list of operations. *)
Definition show_operations (ops : list ParamOverrideOperation) (e : Editor) : Editor :=
  setEditMode Visual (setJsonError []
    (setSelectedOperationId (first_id ops) (setOperations ops (setVisualMode Operations e)))).

Definition switchToVisualMode (e : Editor) : M Next :=
  match ed_editMode e with
  | Visual => quiet e
  | JsonMode =>
    let trimmed := trim (ed_jsonText e) in
    match trimmed with
    | [] =>
      fallback <-' createDefaultOperation clock;
      quiet (setLegacyValue [] (show_operations [fallback] e))
    | _ =>
      match json_parse trimmed with
      | None => toast (t0 "Parameter override must be valid JSON format") e
      | Some parsed =>
        match parsed, operations_field parsed with
        | JObj _, Some l =>
          nextOps <-' load_operations clock l;
          quiet (setTemplatePresetKey "operations_default"
                   (setLegacyValue [] (show_operations nextOps e)))
        | JObj _, None =>
          fallback <-' createDefaultOperation clock;
          quiet (setTemplatePresetKey "legacy_default"
                   (setLegacyValue (pretty parsed)
                      (setVisualMode Legacy (show_operations [fallback] e))))
        | _, _ => toast (t0 "Parameter override must be a valid JSON object") e
        end
      end
    end
  end.

Inductive FillMode := Fill | Append.

Definition preset_of (key : jstr) : TemplatePresetConfig :=
  or_else (obj_get key TEMPLATE_PRESET_CONFIG) DEFAULT_PRESET.

(** The legacy editor on a text. *)
Definition show_legacy (text : jstr) (e : Editor) : M Next :=
  op <-' createDefaultOperation clock;
  quiet (setEditMode Visual (setJsonError [] (setJsonText text
    (setOperations [op] (setLegacyValue text (setVisualMode Legacy e)))))).

Definition fill_legacy (mode : FillMode) (payload : json) (e : Editor) : M Next :=
  match mode, ed_visualMode e with
  | Append, Legacy =>
    let trimmed := trim (ed_legacyValue e) in
    let merged v := pretty (JObj (spread (spread [] payload) v)) in
    match trimmed with
    | [] => show_legacy (merged (JObj [])) e
    | _ =>
      match json_parse trimmed with
      | None => toast (t0 "Current legacy JSON is invalid, cannot append") e
      | Some parsedCurrent => show_legacy (merged parsedCurrent) e
      end
    end
  | _, _ => show_legacy (pretty payload) e
  end.

Definition fill_operations (mode : FillMode) (operationsPayload : list json) (e : Editor) : M Next :=
  match mode with
  | Append =>
    appended <-' mapM (normalizeOperation clock) operationsPayload;
    let existing := match ed_visualMode e with
                    | Operations => List.filter (fun o => negb (isOperationBlank o)) (ed_operations e)
                    | Legacy => []
                    end in
    quiet (setJsonText [] (setLegacyValue [] (show_operations (existing ++ appended) e)))
  | Fill =>
    finalOps <-' load_operations clock operationsPayload;
    quiet (setJsonText (pretty (operations_of operationsPayload)) (show_operations finalOps e))
  end.

Definition fillTemplate (mode : FillMode) (e : Editor) : M Next :=
  let preset := preset_of (ed_templatePresetKey e) in
  match tp_kind preset with
  | KindLegacy => fill_legacy mode (tp_payload preset) e
  | KindOperations => fill_operations mode (or_else (operations_field (tp_payload preset)) []) e
  end.

Definition resetEditorState (e : Editor) : M Next :=
  fallback <-' createDefaultOperation clock;
  quiet (setTemplatePresetKey "operations_default" (setJsonText []
    (setLegacyValue [] (show_operations [fallback] e)))).

(** ** JSON text and saving *)

Definition handleJsonChange (nextValue : jstr) (e : Editor) : M Next :=
  let error := match trim nextValue with
               | [] => []
               | trimmed => if verifyJSON trimmed then [] else t0 "JSON format error"
               end in
  quiet (setJsonError error (setJsonText nextValue e)).

Definition formatJson (e : Editor) : M Next :=
  match trim (ed_jsonText e) with
  | [] => quiet e
  | trimmed =>
    match json_parse trimmed with
    | None => toast (t0 "Parameter override must be valid JSON format") e
    | Some v => quiet (setJsonError [] (setJsonText (pretty v) e))
    end
  end.

Definition visualValidationError (e : Editor) : jstr :=
  match ed_editMode e with
  | JsonMode => []
  | Visual => match buildVisualJson e with
              | inr _ => []
              | inl message => str_or message (t0 "Parameter configuration error")
              end
  end.

(** What is saved, or the message of the error. *)
Definition save_result (e : Editor) : jstr + jstr :=
  match ed_editMode e with
  | JsonMode =>
    match trim (ed_jsonText e) with
    | [] => inr []
    | trimmed => match json_parse trimmed with
                 | None => inl (t0 "Parameter override must be valid JSON format")
                 | Some v => inr (pretty v)
                 end
    end
  | Visual => buildVisualJson e
  end.

Definition handleSave (e : Editor) : M Next :=
  match save_result e with
  | inr result => ret (e, [OnSave result; Close])
  | inl message => toast message e
  end.

(** [expandAllConditions] and [collapseAllConditions] *)
Definition setAllConditions (b : bool) (e : Editor) : M Next :=
  match selectedOperation e with
  | None => quiet e
  | Some op =>
    quiet (setExpandedConditions
      (fold_left (fun acc c => obj_set (c_id c) b acc) (op_conditions op) (ed_expandedConditions e)) e)
  end.
End Handlers.

(** * Identifiers *)

Lemma first_sep {A} (c : A) x y r r' :
  Forall (fun d => d <> c) x -> Forall (fun d => d <> c) y -> x ++ c :: r = y ++ c :: r' -> x = y.
Proof.
  revert y; induction x as [|d x IH]; intros [|e y] Hx Hy E; [easy| | |].
  - injection E as <- _. now inversion Hy.
  - injection E as -> _. now inversion Hx.
  - injection E as <- E. inversion Hx; inversion Hy; subst. f_equal. now apply IH.
Qed.

Lemma last_sep {A} (c : A) x y r r' :
  Forall (fun d => d <> c) x -> Forall (fun d => d <> c) y -> r ++ c :: x = r' ++ c :: y -> x = y.
Proof.
  intros Hx Hy E. apply (f_equal (@rev A)) in E. rewrite !rev_app_distr in E. cbn in E.
  rewrite <- !app_assoc in E. cbn in E. rewrite <- (rev_involutive x), <- (rev_involutive y). f_equal.
  apply (first_sep c _ _ (rev r) (rev r')); [now apply Forall_rev..|exact E].
Qed.

Section Fresh.
Context (clock : N -> N).

Lemma local_id_inj j k : local_id clock j = local_id clock k -> j = k.
Proof.
  unfold local_id. intros E.
  assert (Hd : forall n, Forall (fun d => d <> 95%N) (digits n)).
  { intros n. apply (Forall_impl _ _ _ (digits_all n)). intros c Hc ->. discriminate. }
  rewrite !app_assoc in E. rewrite <- !(app_assoc _ "_") in E.
  apply (last_sep 95%N) in E; [|apply Hd..].
  now rewrite <- (undigits_digits j), E, undigits_digits.
Qed.

(** The identifiers drawn from [s] to [s']. *)
Definition drawn (s s' : N) (id : jstr) : Prop :=
  exists k, (s <= k)%N /\ (k < s')%N /\ id = local_id clock k.

Lemma drawn_weaken s1 s2 s3 s4 id :
  (s3 <= s1)%N -> (s2 <= s4)%N -> drawn s1 s2 id -> drawn s3 s4 id.
Proof. intros H1 H2 (k & H3 & H4 & ->). exists k. repeat split; lia. Qed.

Lemma drawn_disjoint s1 s2 s3 id id' : drawn s1 s2 id -> drawn s2 s3 id' -> id <> id'.
Proof. intros (k & _ & H & ->) (j & H' & _ & ->) E%local_id_inj. lia. Qed.

Lemma drawn_NoDup s1 s2 s3 l l' :
  NoDup l -> NoDup l' -> Forall (drawn s1 s2) l -> Forall (drawn s2 s3) l' -> NoDup (l ++ l').
Proof.
  intros Hl Hl' H H'. apply NoDup_app. split; [easy|]. split; [|easy].
  intros id Hi Hi'. rewrite Forall_forall in H, H'.
  now apply (drawn_disjoint s1 s2 s3 id id (H _ Hi) (H' _ Hi')).
Qed.

(** What holds after a computation that returns. *)
Definition spec {A} (m : M A) (s : N) (Q : A -> N -> Prop) : Prop :=
  forall a s', m s = Ret (a, s') -> (s <= s')%N /\ Q a s'.

Lemma spec_ret {A} (a : A) s (Q : A -> N -> Prop) : Q a s -> spec (ret a) s Q.
Proof. intros H a' s' [= <- <-]. split; [lia|easy]. Qed.

Lemma spec_bind {A B} (m : M A) (f : A -> M B) s (Q : B -> N -> Prop) :
  spec m s (fun a s' => (s <= s')%N -> spec (f a) s' Q) -> spec (bindM m f) s Q.
Proof.
  intros H b s'. unfold bindM. destruct (m s) as [[a s1]|] eqn:E; [|easy].
  destruct (H a s1 E) as [H1 H2]. intros Eb. destruct (H2 H1 b s' Eb). split; [lia|easy].
Qed.

Lemma spec_conseq {A} (m : M A) s (P Q : A -> N -> Prop) :
  spec m s P -> (forall a s', (s <= s')%N -> P a s' -> Q a s') -> spec m s Q.
Proof. intros H HPQ a s' E. destruct (H a s' E). split; [easy|]. now apply HPQ. Qed.

Lemma spec_throw {A} s (Q : A -> N -> Prop) : spec (fun _ => Throw) s Q.
Proof. easy. Qed.

(** A list of things that each draw their identifier. *)
Lemma spec_mapM {A B} (f : A -> M B) (idof : B -> jstr) (P : N -> N -> B -> Prop) l s :
  (forall s1 s2 s3 s4 b, (s3 <= s1)%N -> (s2 <= s4)%N -> P s1 s2 b -> P s3 s4 b) ->
  (forall x s1, spec (f x) s1 (fun b s2 => drawn s1 s2 (idof b) /\ P s1 s2 b)) ->
  spec (mapM f l) s (fun bs s' => length bs = length l /\ NoDup (map idof bs)
    /\ Forall (drawn s s') (map idof bs) /\ Forall (P s s') bs).
Proof.
  intros HP Hf. revert s; induction l as [|x l IH]; intros s; cbn [mapM].
  - apply spec_ret. repeat split; constructor.
  - apply spec_bind, (spec_conseq _ _ _ _ (Hf x s)). intros b s1 Hs1 [Hb HPb] _.
    apply spec_bind, (spec_conseq _ _ _ _ (IH s1)). intros bs s2 Hs2 (Hl & Hn & Hd & HPs) _.
    apply spec_ret. split; [cbn; now rewrite Hl|].
    assert (Hb1 : Forall (drawn s s1) [idof b]) by now repeat constructor.
    split; [apply (drawn_NoDup s s1 s2 [idof b]); try easy; apply NoDup_singleton|]. split.
    + constructor; [|apply (Forall_impl _ _ _ Hd); intros id Hi].
      * apply (drawn_weaken s s1); easy || lia.
      * apply (drawn_weaken s1 s2); easy || lia.
    + constructor; [|apply (Forall_impl _ _ _ HPs); intros c Hc].
      * apply (HP s s1); easy || lia.
      * apply (HP s1 s2); easy || lia.
Qed.
End Fresh.

(** * The invariant of the operations *)

Lemma member_or_member values o d : In d values -> In (member_or values o d) values.
Proof.
  intros Hd. destruct o as [[| | |m| |]|]; try exact Hd. unfold member_or.
  destruct (memb m values) eqn:E; [now apply memb_In|exact Hd].
Qed.

Section Invariant.
Context (clock : N -> N).

(** Conditions with distinct identifiers, drawn from [s] to [s']. *)
Definition conditions_ok (s s' : N) (cs : list ParamOverrideCondition) : Prop :=
  Forall condition_wf cs /\ NoDup (map c_id cs) /\ Forall (drawn clock s s') (map c_id cs).

Definition operation_ok (s s' : N) (op : ParamOverrideOperation) : Prop :=
  In (op_mode op) OPERATION_MODE_VALUES /\ In (op_logic op) ["AND"; "OR"]
  /\ conditions_ok s s' (op_conditions op).

Definition operations_ok (s s' : N) (ops : list ParamOverrideOperation) : Prop :=
  NoDup (map op_id ops) /\ Forall (drawn clock s s') (map op_id ops)
  /\ Forall (operation_ok s s') ops.

Lemma conditions_ok_weaken s1 s2 s3 s4 cs :
  (s3 <= s1)%N -> (s2 <= s4)%N -> conditions_ok s1 s2 cs -> conditions_ok s3 s4 cs.
Proof.
  intros H1 H2 (Hw & Hn & Hd). repeat (split; [easy|]). apply (Forall_impl _ _ _ Hd). intros id.
  now apply drawn_weaken.
Qed.

Lemma operation_ok_weaken s1 s2 s3 s4 op :
  (s3 <= s1)%N -> (s2 <= s4)%N -> operation_ok s1 s2 op -> operation_ok s3 s4 op.
Proof.
  intros H1 H2 (Hm & Hl & Hc). repeat (split; [easy|]). now apply (conditions_ok_weaken s1 s2).
Qed.

Lemma operations_ok_weaken s1 s2 s3 s4 ops :
  (s3 <= s1)%N -> (s2 <= s4)%N -> operations_ok s1 s2 ops -> operations_ok s3 s4 ops.
Proof.
  intros H1 H2 (Hn & Hd & Ho). split; [easy|]. split.
  - apply (Forall_impl _ _ _ Hd). intros id. now apply drawn_weaken.
  - apply (Forall_impl _ _ _ Ho). intros op. now apply operation_ok_weaken.
Qed.

Lemma operations_ok_app s1 s2 s3 a b :
  (s1 <= s2)%N -> (s2 <= s3)%N -> operations_ok s1 s2 a -> operations_ok s2 s3 b ->
  operations_ok s1 s3 (a ++ b).
Proof.
  intros H1 H2 (Hn & Hd & Ho) (Hn' & Hd' & Ho'). unfold operations_ok. rewrite !map_app.
  split; [now apply (drawn_NoDup clock s1 s2 s3)|]. rewrite !Forall_app. repeat split.
  - apply (Forall_impl _ _ _ Hd). intros id. now apply drawn_weaken.
  - apply (Forall_impl _ _ _ Hd'). intros id. now apply drawn_weaken.
  - apply (Forall_impl _ _ _ Ho). intros op. now apply operation_ok_weaken.
  - apply (Forall_impl _ _ _ Ho'). intros op. now apply operation_ok_weaken.
Qed.

(** Only the members of the list matter. *)
Lemma operations_ok_Permutation s s' a b :
  Permutation a b -> operations_ok s s' a -> operations_ok s s' b.
Proof.
  intros P (Hn & Hd & Ho). unfold operations_ok. now rewrite <- P.
Qed.

Lemma operations_ok_filter s s' f ops :
  operations_ok s s' ops -> operations_ok s s' (List.filter f ops).
Proof.
  intros (Hn & Hd & Ho). induction ops as [|op ops IH]; [easy|]. cbn in *.
  apply NoDup_cons in Hn as [Hi Hn]. apply Forall_cons_1 in Hd as [Hd1 Hd], Ho as [Ho1 Ho].
  destruct (IH Hn Hd Ho) as (Hn' & Hd' & Ho'). destruct (f op); [|easy]. split; [|split; now constructor].
  apply NoDup_cons. split; [|easy]. intros H. apply Hi.
  apply list_elem_of_In, in_map_iff in H as (x & E & [Hx _]%List.filter_In). rewrite <- E.
  apply list_elem_of_In. now apply in_map.
Qed.

Lemma operations_ok_map s s' f ops :
  (forall op, op_id (f op) = op_id op) ->
  (forall op, operation_ok s s' op -> operation_ok s s' (f op)) ->
  operations_ok s s' ops -> operations_ok s s' (map f ops).
Proof.
  intros Hid Hf (Hn & Hd & Ho). unfold operations_ok.
  assert (E : map op_id (map f ops) = map op_id ops) by (rewrite map_map; now apply map_ext).
  rewrite E. repeat (split; [easy|]). apply Forall_map, (Forall_impl _ _ _ Ho), Hf.
Qed.

Lemma operations_ok_map_id s s' id f ops :
  (forall op, op_id (f op) = op_id op) ->
  (forall op, operation_ok s s' op -> operation_ok s s' (f op)) ->
  operations_ok s s' ops -> operations_ok s s' (map_id id f ops).
Proof.
  intros Hid Hf. apply operations_ok_map; intros op; destruct (has_id id op); auto.
Qed.

(** ** What is drawn *)

Lemma normalizeCondition_drawn v s :
  spec (normalizeCondition clock v) s (fun c s' => drawn clock s s' (c_id c) /\ condition_wf c).
Proof.
  intros c s'. unfold normalizeCondition, bindM, nextLocalId.
  assert (Hd : drawn clock s (s + 1) (local_id clock s)) by (exists s; repeat split; lia).
  destruct v; try discriminate; intros [= <- <-];
    (split; [lia|]; split; [exact Hd|]; constructor; cbn [c_mode]; (apply member_or_member; left; reflexivity) || (left; reflexivity)).
Qed.

Lemma conditions_drawn l s :
  spec (mapM (normalizeCondition clock) l) s (fun cs s' => conditions_ok s s' cs).
Proof.
  eapply spec_conseq.
  - apply (spec_mapM clock _ c_id (fun _ _ => condition_wf)); [easy|]. apply normalizeCondition_drawn.
  - now intros cs s' _ (_ & Hn & Hd & Hw).
Qed.

Lemma normalizeOperation_drawn v s :
  spec (normalizeOperation clock v) s (fun op s' => drawn clock s s' (op_id op) /\ operation_ok s s' op).
Proof.
  assert (Hl : forall o, In (normalize_logic o) ["AND"; "OR"]).
  { intros o. unfold normalize_logic. destruct (_ =s _); cbn; tauto. }
  unfold normalizeOperation. apply spec_bind. intros id s1 [= <- <-]. split; [lia|]. intros _.
  set (id := local_id clock s).
  assert (H : spec match jget "conditions" v with
                   | Some (JArr l) => mapM (normalizeCondition clock) l
                   | _ => ret []
                   end (s + 1)%N (fun cs s' => conditions_ok (s + 1)%N s' cs)).
  { destruct (jget "conditions" v) as [[]|]; try (apply conditions_drawn);
      apply spec_ret; repeat split; constructor. }
  destruct v; try apply spec_throw;
    (apply spec_bind, (spec_conseq _ _ _ _ H); intros cs s2 Hs Hc _; apply spec_ret;
     split; [exists s; repeat split; lia|]; split; [apply member_or_member; now left|]; split; [apply Hl|];
     apply (conditions_ok_weaken (s + 1) s2); easy || lia).
Qed.

Lemma operations_drawn l s :
  spec (mapM (normalizeOperation clock) l) s
    (fun ops s' => operations_ok s s' ops /\ length ops = length l).
Proof.
  eapply spec_conseq.
  - apply (spec_mapM clock _ op_id operation_ok); [apply operation_ok_weaken|].
    apply normalizeOperation_drawn.
  - now intros ops s' _ (Hl & Hn & Hd & Ho).
Qed.

Lemma created_drawn s :
  spec (createDefaultOperation clock) s (fun op s' => operations_ok s s' [op]).
Proof.
  eapply spec_conseq; [apply normalizeOperation_drawn|]. intros op s' _ [Hd Ho].
  split; [apply NoDup_singleton|]. split; (constructor; [easy|constructor]).
Qed.

Lemma load_drawn l s :
  spec (load_operations clock l) s (fun ops s' => operations_ok s s' ops /\ ops <> []).
Proof.
  destruct l as [|v l]; cbn [load_operations].
  - apply spec_bind, (spec_conseq _ _ _ _ (created_drawn s)). intros op s' Hs Ho _.
    now apply spec_ret.
  - eapply spec_conseq; [apply operations_drawn|]. intros ops s' _ [Ho Hl]. split; [easy|].
    now destruct ops.
Qed.
End Invariant.

(** ** Pruning rules *)

Section Pruning.
Context (clock : N -> N).

Lemma rules_drawn l s :
  spec (mapM (normalizePruneRule clock) l) s (fun rs s' => Forall (drawn clock s s') (map pr_id rs)).
Proof.
  eapply spec_conseq.
  - apply (spec_mapM clock _ pr_id (fun _ _ _ => True)); [easy|]. intros v s1 r s2.
    unfold normalizePruneRule, bindM, nextLocalId.
    assert (Hd : drawn clock s1 (s1 + 1) (local_id clock s1)) by (exists s1; repeat split; lia).
    destruct v; try discriminate; intros [= <- <-]; (split; [lia|now split]).
  - now intros rs s' _ (_ & _ & Hd & _).
Qed.

Lemma entry_rules_drawn o s :
  spec (entry_rules clock o) s (fun rs s' => Forall (drawn clock s s') (map pr_id rs)).
Proof.
  set (f := fun kv : jstr * json =>
              JObj [("path", JStr (fst kv)); ("mode", JStr "full"); ("value", snd kv)]).
  change (entry_rules clock o) with (mapM (fun kv => normalizePruneRule clock (f kv)) o).
  assert (E : forall l s, mapM (fun kv => normalizePruneRule clock (f kv)) l s
                          = mapM (normalizePruneRule clock) (map f l) s).
  { clear o s. induction l as [|kv l IH]; intros s; [easy|]. cbn [mapM map]. unfold bindM.
    destruct (normalizePruneRule clock (f kv) s) as [[r s1]|]; [|easy]. now rewrite IH. }
  intros rs s'. rewrite E. apply rules_drawn.
Qed.

(** The rules of a draft are drawn when it is read. *)
Lemma draft_drawn text s :
  spec (parsePruneObjectsDraft clock text) s
    (fun d s' => Forall (drawn clock s s') (map pr_id (pd_rules d))).
Proof.
  unfold parsePruneObjectsDraft. destruct (trim text) as [|c raw]; [now apply spec_ret|].
  destruct (json_parse (c :: raw)) as [v|]; [|now apply spec_ret].
  destruct v as [| | | | |o]; try (now apply spec_ret).
  assert (Hr : forall (m : M (list PruneRule)) s1, m = ret [] \/ (exists w, m = entry_rules clock w)
                 \/ (exists l, m = mapM (normalizePruneRule clock) l) ->
               spec m s1 (fun rs s' => Forall (drawn clock s1 s') (map pr_id rs))).
  { intros m s1 [->|[[w ->]|[l ->]]];
      [now apply spec_ret|apply entry_rules_drawn|apply rules_drawn]. }
  apply spec_bind. eapply spec_conseq; [apply Hr; destruct (jget "where" _) as [[]|]; eauto|].
  intros a s1 Hs1 Ha _. apply spec_bind. eapply spec_conseq.
  { apply Hr. destruct (jget "conditions" _) as [[]|]; eauto. }
  intros b s2 Hs2 Hb _. apply spec_ret. cbn [pd_rules]. rewrite map_app. apply Forall_app. split.
  - apply (Forall_impl _ _ _ Ha). intros id Hi. apply (drawn_weaken clock s s1); easy || lia.
  - apply (Forall_impl _ _ _ Hb). intros id Hi. apply (drawn_weaken clock s1 s2); easy || lia.
Qed.

(** An operation whose value only may differ. *)
Definition same_shape (y x : ParamOverrideOperation) : Prop :=
  op_id y = op_id x /\ op_mode y = op_mode x /\ op_logic y = op_logic x
  /\ op_conditions y = op_conditions x.

Lemma spec_mapM_each {A B} (f : A -> M B) (R : B -> A -> Prop) l s :
  (forall x s1, spec (f x) s1 (fun y _ => R y x)) ->
  spec (mapM f l) s (fun ys _ => Forall2 R ys l).
Proof.
  intros Hf. revert s; induction l as [|x l IH]; intros s; cbn [mapM]; [now apply spec_ret|].
  apply spec_bind, (spec_conseq _ _ _ _ (Hf x s)). intros y s1 _ Hy _.
  apply spec_bind, (spec_conseq _ _ _ _ (IH s1)). intros ys s2 _ Hys _. apply spec_ret.
  now constructor.
Qed.

Lemma same_shape_ok s s' ys xs :
  Forall2 same_shape ys xs -> operations_ok clock s s' xs -> operations_ok clock s s' ys.
Proof.
  intros H (Hn & Hd & Ho). assert (E : map op_id ys = map op_id xs).
  { clear -H. induction H as [|y x ys xs (Hi & _) _ IH]; [easy|]. cbn. now rewrite Hi, IH. }
  unfold operations_ok. rewrite E. repeat (split; [easy|]). clear Hn Hd E.
  induction H as [|y x ys xs (_ & Hm & Hl & Hc) _ IH]; [constructor|].
  apply Forall_cons_1 in Ho as [Hx Ho]. constructor; [|now apply IH].
  unfold operation_ok. now rewrite Hm, Hl, Hc.
Qed.

(** The updaters that only draw identifiers. *)
Definition drawing {A B} (f : A -> M B) : Prop := forall x s, spec (f x) s (fun _ _ => True).

Lemma update_prune_shape updater id ops s :
  drawing updater ->
  spec (mapM (fun o => if has_id id o then update_prune_text clock updater o else ret o) ops) s
    (fun ys _ => Forall2 same_shape ys ops).
Proof.
  intros Hu. apply spec_mapM_each. intros o s1. destruct (has_id id o); [|now apply spec_ret].
  unfold update_prune_text. apply spec_bind, (spec_conseq _ _ _ _ (draft_drawn _ _)).
  intros d s2 _ _ _. apply spec_bind, (spec_conseq _ _ _ _ (Hu d s2)). intros d' s3 _ _ _.
  now apply spec_ret.
Qed.
End Pruning.

(** * Steps *)

Inductive Action :=
| AOpen (value : jstr)
| ASearch (text : jstr)
| ASelect (id : jstr)
| ALegacyChange (text : jstr)
| APreset (key : jstr)
| AUpdate (id : jstr) (patch : OperationPatch)
| AAdd
| ADuplicate (eager : bool) (id : jstr)
| ARemove (id : jstr)
| AAddCondition (id : jstr)
| AUpdateCondition (id cid : jstr) (patch : RulePatch)
| ARemoveCondition (id cid : jstr)
| AToggleCondition (cid : jstr) (b : bool)
| AAllConditions (b : bool)
| AError (id : jstr) (patch : ErrorPatch)
| APrune (id : jstr) (patch : PrunePatch)
| AAddRule (id : jstr)
| AUpdateRule (id rid : jstr) (patch : RulePatch)
| ARemoveRule (id rid : jstr)
| ADragStart (id : jstr)
| ADragOver (lower : bool) (id : jstr)
| ADrop (data id : jstr)
| ADragEnd
| AToJson
| AToVisual
| AFill (mode : FillMode)
| AReset
| AJsonChange (text : jstr)
| AFormat
| ASave.

Section Steps.
Context (clock : N -> N) (t : Message -> jstr).

Definition step (a : Action) : Editor -> M Next :=
  match a with
  | AOpen value => openDialog clock value
  | ASearch text => fun e => quiet (setOperationSearch text e)
  | ASelect id => fun e => quiet (setSelectedOperationId id e)
  | ALegacyChange text => fun e => quiet (setLegacyValue text e)
  | APreset key => fun e => quiet (setTemplatePresetKey (str_or key "operations_default") e)
  | AUpdate id patch => updateOperation id patch
  | AAdd => addOperation clock
  | ADuplicate eager id => duplicateOperation clock eager id
  | ARemove id => removeOperation clock id
  | AAddCondition id => addCondition clock id
  | AUpdateCondition id cid patch => updateCondition id cid patch
  | ARemoveCondition id cid => removeCondition id cid
  | AToggleCondition cid b =>
    fun e => quiet (setExpandedConditions (obj_set cid b (ed_expandedConditions e)) e)
  | AAllConditions b => setAllConditions b
  | AError id patch => updateReturnErrorDraft id patch
  | APrune id patch => patchPruneDraft clock id patch
  | AAddRule id => addPruneRule clock id
  | AUpdateRule id rid patch => updatePruneRule clock id rid patch
  | ARemoveRule id rid => removePruneRule clock id rid
  | ADragStart id => handleDragStart id
  | ADragOver lower id => handleDragOver lower id
  | ADrop data id => handleDrop data id
  | ADragEnd => fun e => quiet (resetDragState e)
  | AToJson => switchToJsonMode t
  | AToVisual => switchToVisualMode clock t
  | AFill mode => fillTemplate clock t mode
  | AReset => resetEditorState clock
  | AJsonChange text => handleJsonChange t text
  | AFormat => formatJson t
  | ASave => handleSave t
  end.

Definition opt_in (values : list jstr) (v : option jstr) : Prop :=
  match v with Some m => In m values | None => True end.

(** The selects of the editor only offer the values of their tables. *)
Definition action_ok (a : Action) : Prop :=
  match a with
  | AUpdate _ patch =>
    opt_in OPERATION_MODE_VALUES (p_mode patch) /\ opt_in ["AND"; "OR"] (p_logic patch)
  | AUpdateCondition _ _ patch => opt_in CONDITION_MODE_VALUES (rp_mode patch)
  | _ => True
  end.

(** The states of the dialog after a commit, with the counter of identifiers: a
    handler runs, the effect on the selection follows, and the renders in between
    draw identifiers for the rules they display.  A handler that throws changes
    nothing but the counter. *)
Inductive reachable : Editor -> N -> Prop :=
| reach_init s e s' s'' :
    initialEditor clock s = Ret (e, s') -> (s' <= s'')%N -> reachable (settle e) s''
| reach_step a e s e' fx s' s'' :
    reachable e s -> action_ok a -> step a e s = Ret (e', fx, s') -> (s' <= s'')%N ->
    reachable (settle e') s''
| reach_throw a e s s' :
    reachable e s -> step a e s = Throw -> (s <= s')%N -> reachable e s'.

(** The operations of a state: at least one, with distinct identifiers drawn so far. *)
Definition Inv (e : Editor) (s : N) : Prop :=
  operations_ok clock 0 s (ed_operations e) /\ ed_operations e <> [].

(** The operation of the right panel is one of the list. *)
Definition selection_ok (e : Editor) : Prop := is_Some (selectedOperation e).
End Steps.

Section Preservation.
Context (clock : N -> N) (t : Message -> jstr).

Abbreviation Inv := (Inv clock).

Lemma Inv_weaken e s s' : (s <= s')%N -> Inv e s -> Inv e s'.
Proof. intros H [Ho Hn]. split; [|easy]. apply (operations_ok_weaken clock 0 s); easy || lia. Qed.

Lemma Inv_same e e' s : ed_operations e' = ed_operations e -> Inv e s -> Inv e' s.
Proof. unfold ParamEditor.Inv. now intros ->. Qed.

Lemma settle_operations e : ed_operations (settle e) = ed_operations e.
Proof. unfold settle. destruct (ed_operations e) eqn:E; [easy|]. now destruct (existsb _ _). Qed.

Lemma settle_selection e : ed_operations e <> [] -> selection_ok (settle e).
Proof.
  intros Hn. unfold selection_ok, selectedOperation. rewrite settle_operations. unfold settle.
  destruct (ed_operations e) as [|op ops] eqn:E; [easy|]. rewrite <- E in *.
  destruct (existsb _ _) eqn:Ee.
  - apply existsb_exists in Ee as (x & Hx & Hi). destruct (find _ _) eqn:Ef; [now eexists|].
    now rewrite (find_none _ _ Ef x Hx) in Hi.
  - cbn [ed_selectedOperationId setSelectedOperationId]. rewrite E. cbn [first_id find].
    unfold has_id at 1. rewrite seqb_refl. now eexists.
Qed.

(** A handler that only maps the operations. *)
Lemma mapped_inv e s id f e' :
  ed_operations e' = map_id id f (ed_operations e) ->
  (forall op, op_id (f op) = op_id op) ->
  (forall s s' op, operation_ok clock s s' op -> operation_ok clock s s' (f op)) ->
  Inv e s -> Inv e' s.
Proof.
  intros E Hid Hf [Ho Hn]. split; rewrite E; [apply operations_ok_map_id; auto|].
  now destruct (ed_operations e).
Qed.

Lemma conditions_map_ok s s' f cs :
  (forall c, c_id (f c) = c_id c) -> (forall c, condition_wf c -> condition_wf (f c)) ->
  conditions_ok clock s s' cs -> conditions_ok clock s s' (map f cs).
Proof.
  intros Hid Hf (Hw & Hn & Hd). unfold conditions_ok.
  assert (E : map c_id (map f cs) = map c_id cs) by (rewrite map_map; now apply map_ext).
  rewrite E. repeat split; try easy. apply Forall_map, (Forall_impl _ _ _ Hw), Hf.
Qed.

Lemma conditions_filter_ok s s' f cs :
  conditions_ok clock s s' cs -> conditions_ok clock s s' (List.filter f cs).
Proof.
  intros (Hw & Hn & Hd). induction cs as [|c cs IH]; [easy|]. cbn in *.
  apply NoDup_cons in Hn as [Hi Hn]. apply Forall_cons_1 in Hd as [Hd1 Hd], Hw as [Hw1 Hw].
  destruct (IH Hw Hn Hd) as (Hw' & Hn' & Hd'). destruct (f c); [|easy].
  split; [now constructor|]. split; [|now constructor]. apply NoDup_cons. split; [|easy].
  intros H. apply Hi. apply list_elem_of_In, in_map_iff in H as (x & E & [Hx _]%List.filter_In).
  rewrite <- E. apply list_elem_of_In. now apply in_map.
Qed.

Lemma show_operations_ops ops e : ed_operations (show_operations ops e) = ops.
Proof. easy. Qed.

(** Replacing the operations by drawn ones. *)
Lemma replaced_inv s0 s ops e' :
  operations_ok clock s0 s ops -> ops <> [] -> ed_operations e' = ops -> Inv e' s.
Proof.
  intros Ho Hn E. split; rewrite E; [|easy]. apply (operations_ok_weaken clock s0 s); easy || lia.
Qed.

Lemma default_inv s (k : ParamOverrideOperation -> M Next) :
  (forall op s', exists e' fx, k op s' = Ret (e', fx, s') /\ ed_operations e' = [op]) ->
  spec (bindM (createDefaultOperation clock) k) s (fun r s' => Inv (fst r) s').
Proof.
  intros Hk. apply spec_bind, (spec_conseq _ _ _ _ (created_drawn clock s)).
  intros op s1 Hs Ho _ [e2 fx2] s2 E. destruct (Hk op s1) as (e' & fx & Ek & Ee).
  rewrite Ek in E. injection E as <- <- <-. split; [lia|]. now apply (replaced_inv s s1 [op]).
Qed.

(** Removing one of two operations or more leaves one. *)
Lemma removed_nonempty id ops :
  NoDup (map op_id ops) -> 1 < length ops -> List.filter (fun o => negb (has_id id o)) ops <> [].
Proof.
  intros Hn Hl. destruct ops as [|a [|b ops]]; cbn in Hl; try lia. cbn. unfold has_id.
  destruct (seqb_spec (op_id a) id) as [Ea|]; [|easy]. destruct (seqb_spec (op_id b) id) as [Eb|]; [|easy].
  exfalso. cbn in Hn. apply NoDup_cons in Hn as [Hn _]. apply Hn. rewrite Ea, Eb. left.
Qed.

(** Every template of operations has some. *)
Lemma preset_operations key :
  match tp_kind (preset_of key) with
  | KindOperations => exists l, operations_field (tp_payload (preset_of key)) = Some l /\ l <> []
  | KindLegacy => True
  end.
Proof.
  assert (H : Forall (fun kp => match tp_kind (snd kp) with
    | KindOperations => exists l, operations_field (tp_payload (snd kp)) = Some l /\ l <> []
    | KindLegacy => True end) TEMPLATE_PRESET_CONFIG).
  { repeat constructor; now eexists. }
  unfold preset_of. destruct (obj_get key TEMPLATE_PRESET_CONFIG) as [p|] eqn:E; cbn [or_else].
  - apply obj_get_In in E. exact (proj1 (List.Forall_forall _ _) H _ E).
  - now eexists.
Qed.

Lemma quiet_spec e s (Q : Editor -> N -> Prop) :
  Q e s -> spec (quiet e) s (fun r s' => Q (fst r) s').
Proof. intros H. now apply spec_ret. Qed.

Lemma toast_spec m e s (Q : Editor -> N -> Prop) :
  Q e s -> spec (toast m e) s (fun r s' => Q (fst r) s').
Proof. intros H. now apply spec_ret. Qed.

Abbreviation keeps m s := (spec m s (fun r s' => Inv (fst r) s')).

Lemma update_inv id patch e s :
  Inv e s -> action_ok (AUpdate id patch) -> keeps (updateOperation id patch e) s.
Proof.
  intros Hi [Hm Hl]. apply quiet_spec. apply (mapped_inv e s id (patch_operation patch)); try easy.
  intros s1 s2 op (Om & Ol & Oc). split; [|split; [|exact Oc]].
  - cbn. now destruct (p_mode patch).
  - cbn -[In]. now destruct (p_logic patch).
Qed.

Lemma add_inv e s : Inv e s -> keeps (addOperation clock e) s.
Proof.
  intros [Ho Hn]. apply spec_bind, (spec_conseq _ _ _ _ (created_drawn clock s)).
  intros op s1 Hs Hop _. apply quiet_spec. split.
  - apply (operations_ok_app clock 0 s s1); easy || lia.
  - cbn. now destruct (ed_operations e).
Qed.

Lemma duplicate_inv eager id e s : Inv e s -> keeps (duplicateOperation clock eager id e) s.
Proof.
  intros Hi. pose proof Hi as [Ho Hn]. unfold duplicateOperation.
  destruct (findIndex _ _) as [idx|]; [|now apply quiet_spec].
  destruct (_ !! idx) as [src|]; [|now apply quiet_spec].
  apply spec_bind, (spec_conseq _ _ _ _ (normalizeOperation_drawn clock _ s)).
  intros op s1 Hs [Hd Hop] _. set (e' := setOperations _ e).
  assert (He : Inv e' s1).
  { split; [|cbn; unfold insert_at; now destruct (take _ _)].
    apply (operations_ok_Permutation clock 0 s1 (ed_operations e ++ [op])).
    - cbn. unfold insert_at. rewrite <- (take_drop (idx + 1) (ed_operations e)) at 1.
      rewrite <- app_assoc. apply Permutation_app_head. symmetry. apply Permutation_cons_append.
    - apply (operations_ok_app clock 0 s s1); try easy; [lia|]. split; [apply NoDup_singleton|].
      split; (constructor; [easy|constructor]). }
  now destruct eager; apply quiet_spec.
Qed.

Lemma remove_inv id e s : Inv e s -> keeps (removeOperation clock id e) s.
Proof.
  intros [Ho Hn]. unfold removeOperation. destruct (Nat.leb_spec (length (ed_operations e)) 1).
  - apply default_inv. intros op s'. now eexists _, _.
  - apply quiet_spec. split; [now apply operations_ok_filter|]. now apply removed_nonempty; [apply Ho|].
Qed.

Lemma add_condition_inv id e s : Inv e s -> keeps (addCondition clock id e) s.
Proof.
  intros [Ho Hn]. apply spec_bind, (spec_conseq _ _ _ _ (normalizeCondition_drawn clock (JObj []) s)).
  intros c s1 Hs [Hd Hc] _. apply quiet_spec. split.
  - cbn. destruct Ho as (Hnd & Hdr & Hop). unfold operations_ok, map_id.
    assert (E : map op_id (map (fun o => if has_id id o then set_conditions (op_conditions o ++ [c]) o
                                         else o) (ed_operations e)) = map op_id (ed_operations e)).
    { rewrite map_map. apply map_ext. intros o. now destruct (has_id id o). }
    rewrite E. split; [easy|]. split.
    + apply (Forall_impl _ _ _ Hdr). intros i Hi. apply (drawn_weaken clock 0 s); easy || lia.
    + apply Forall_map, (Forall_impl _ _ _ Hop). intros o Hoo.
      destruct (has_id id o); [|apply (operation_ok_weaken clock 0 s); easy || lia].
      destruct Hoo as (Om & Ol & Ow & On & Od). split; [exact Om|]. split; [exact Ol|]. cbn [op_conditions set_conditions].
      split; [|split].
      * apply Forall_app. split; [easy|]. constructor; [easy|constructor].
      * rewrite map_app. apply (drawn_NoDup clock 0 s s1); try easy; [apply NoDup_singleton|].
        constructor; [easy|constructor].
      * rewrite map_app. apply Forall_app. split.
        -- apply (Forall_impl _ _ _ Od). intros i Hi. apply (drawn_weaken clock 0 s); easy || lia.
        -- constructor; [|constructor]. apply (drawn_weaken clock s s1); easy || lia.
  - cbn. now destruct (ed_operations e).
Qed.

Lemma update_condition_inv id cid patch e s :
  Inv e s -> action_ok (AUpdateCondition id cid patch) -> keeps (updateCondition id cid patch e) s.
Proof.
  intros Hi Hm. apply quiet_spec. eapply mapped_inv; [reflexivity|easy| |exact Hi].
  intros s1 s2 op (Om & Ol & Oc). repeat (split; [easy|]). apply conditions_map_ok; [| |exact Oc].
  - intros c. now destruct (c_id c =s cid).
  - intros c [Hc]. destruct (c_id c =s cid); [|easy]. split. cbn in *. now destruct (rp_mode patch).
Qed.

Lemma remove_condition_inv id cid e s : Inv e s -> keeps (removeCondition id cid e) s.
Proof.
  intros Hi. apply quiet_spec. eapply mapped_inv; [reflexivity|easy| |exact Hi].
  intros s1 s2 op (Om & Ol & Oc). repeat (split; [easy|]). now apply conditions_filter_ok.
Qed.

Lemma prune_inv id updater e s :
  drawing updater -> Inv e s -> keeps (updatePruneObjectsDraft clock id updater e) s.
Proof.
  intros Hu [Ho Hn].
  apply spec_bind, (spec_conseq _ _ _ _ (update_prune_shape clock updater id _ s Hu)).
  intros ops s1 Hs H2 _. apply quiet_spec. split.
  - apply (operations_ok_weaken clock 0 s); [lia..|]. now apply (same_shape_ok clock 0 s _ _ H2).
  - cbn. intros ->. now apply Forall2_nil_inv_l in H2.
Qed.

Lemma drop_inv data id e s : Inv e s -> keeps (handleDrop data id e) s.
Proof.
  intros Hi. apply quiet_spec. destruct (_ && _ && _); [|exact Hi]. destruct Hi as [Ho Hn].
  set (src := str_or (ed_draggedOperationId e) data). split.
  - apply (operations_ok_Permutation clock 0 s (ed_operations e)); [|easy]. cbn.
    symmetry. apply reorder_permutation.
  - intros E. apply Hn, Permutation_nil. cbn in E. rewrite <- E. apply reorder_permutation.
Qed.

Lemma visual_inv e s : Inv e s -> keeps (switchToVisualMode clock t e) s.
Proof.
  intros Hi. unfold switchToVisualMode. destruct (ed_editMode e); [now apply quiet_spec|].
  destruct (trim (ed_jsonText e)) as [|c text].
  { apply default_inv. intros op s'. now eexists _, _. }
  destruct (json_parse (c :: text)) as [v|]; [|now apply toast_spec].
  destruct v as [| | | | |o]; try (now apply toast_spec).
  destruct (operations_field (JObj o)) as [l|].
  - apply spec_bind, (spec_conseq _ _ _ _ (load_drawn clock l s)). intros ops s1 Hs [Hops Hne] _.
    apply quiet_spec. now apply (replaced_inv s s1 ops).
  - apply default_inv. intros op s'. now eexists _, _.
Qed.

Lemma show_legacy_inv text e s : keeps (show_legacy clock text e) s.
Proof. apply default_inv. intros op s'. now eexists _, _. Qed.

Lemma fill_inv mode e s : Inv e s -> keeps (fillTemplate clock t mode e) s.
Proof.
  intros Hi. unfold fillTemplate. pose proof (preset_operations (ed_templatePresetKey e)) as Hp.
  destruct (tp_kind _).
  - (* operations *)
    destruct Hp as (l & -> & Hl). cbn [or_else]. destruct mode; cbn [fill_operations].
    + apply spec_bind, (spec_conseq _ _ _ _ (load_drawn clock l s)). intros ops s1 Hs [Hops Hne] _.
      apply quiet_spec. now apply (replaced_inv s s1 ops).
    + apply spec_bind, (spec_conseq _ _ _ _ (operations_drawn clock l s)).
      intros ops s1 Hs [Hops Hlen] _. apply quiet_spec. cbv zeta.
      match goal with |- context [?x ++ ops] => set (existing := x) end.
      apply (replaced_inv 0 s1 (existing ++ ops)); [| |easy].
      * apply (operations_ok_app clock 0 s s1); try easy; [lia|]. subst existing. destruct Hi as [Ho _].
        destruct (ed_visualMode e); [now apply operations_ok_filter|]. repeat split; constructor.
      * intros [_ ->]%app_eq_nil. now destruct l.
  - destruct mode; cbn [fill_legacy]; [apply show_legacy_inv|].
    destruct (ed_visualMode e); [apply show_legacy_inv|].
    destruct (trim (ed_legacyValue e)); [apply show_legacy_inv|].
    destruct (json_parse _); [apply show_legacy_inv|now apply toast_spec].
Qed.

Lemma same_inv e e' s :
  ed_operations e' = ed_operations e -> Inv e s -> keeps (quiet e') s.
Proof. intros E Hi. now apply quiet_spec, (Inv_same e). Qed.

Lemma unchanged_inv e s (m : M Next) :
  Inv e s -> (forall r s', m s = Ret (r, s') -> s' = s /\ ed_operations (fst r) = ed_operations e) ->
  keeps m s.
Proof.
  intros Hi H r s' E. destruct (H r s' E) as [-> Ho]. split; [lia|]. now apply (Inv_same e).
Qed.

Lemma opened_drawn value s :
  spec (parseInitialState clock value) s
    (fun st s' => operations_ok clock s s' (es_operations st) /\ es_operations st <> []).
Proof.
  assert (Hl : forall l (k : list ParamOverrideOperation -> EditorState),
    (forall ops, es_operations (k ops) = ops) ->
    spec (bindM (load_operations clock l) (fun ops => ret (k ops))) s
      (fun st s' => operations_ok clock s s' (es_operations st) /\ es_operations st <> [])).
  { intros l k Hk. apply spec_bind, (spec_conseq _ _ _ _ (load_drawn clock l s)).
    intros ops s1 _ Ho _. apply spec_ret. now rewrite Hk. }
  unfold parseInitialState. destruct (trim value) as [|c text]; [now apply (Hl [])|].
  destruct (json_parse (c :: text)) as [v|]; [|now apply (Hl [])].
  destruct v as [| | | | |o]; try (now apply (Hl [])).
  destruct (operations_field (JObj o)); [now apply Hl|now apply (Hl [])].
Qed.

Lemma open_inv value e s : keeps (openDialog clock value e) s.
Proof.
  apply spec_bind, (spec_conseq _ _ _ _ (opened_drawn value s)). intros st s1 Hs [Ho Hn] _.
  apply quiet_spec. now apply (replaced_inv s s1 (es_operations st)).
Qed.

Lemma step_inv a e s : Inv e s -> action_ok a -> keeps (step clock t a e) s.
Proof.
  intros Hi Ha. destruct a; cbn [step]; try (now apply same_inv with e).
  - now apply open_inv.
  - now apply update_inv.
  - now apply add_inv.
  - now apply duplicate_inv.
  - now apply remove_inv.
  - now apply add_condition_inv.
  - now apply update_condition_inv.
  - now apply remove_condition_inv.
  - unfold setAllConditions. destruct (selectedOperation e); now apply same_inv with e.
  - apply quiet_spec. now apply (mapped_inv e s id (fun o => set_value_text (buildReturnErrorValueText
      (patch_error patch (parseReturnErrorDraft (op_value_text o)))) o)).
  - apply prune_inv; [|easy]. intros d s1. now apply spec_ret.
  - apply prune_inv; [|easy]. intros d s1. apply spec_bind. intros r s2 [= <- <-].
    split; [lia|]. intros _. now apply spec_ret.
  - apply prune_inv; [|easy]. intros d s1. now apply spec_ret.
  - apply prune_inv; [|easy]. intros d s1. now apply spec_ret.
  - unfold handleDragOver. destruct (_ || _); now apply same_inv with e.
  - now apply drop_inv.
  - unfold switchToJsonMode. destruct (ed_editMode e); [|now apply same_inv with e].
    destruct (buildVisualJson t e); [now apply toast_spec, (Inv_same e)|now apply same_inv with e].
  - now apply visual_inv.
  - now apply fill_inv.
  - apply default_inv. intros op s'. now eexists _, _.
  - unfold formatJson. destruct (trim (ed_jsonText e)) as [|c text]; [now apply same_inv with e|].
    destruct (json_parse _); [now apply same_inv with e|now apply toast_spec].
  - unfold handleSave. destruct (save_result t e); [now apply toast_spec|].
    intros r s' [= <- <-]. now split.
Qed.
End Preservation.

(** * Properties *)

(** C38: in every reachable state of the dialog there is at least one operation, the
    operations have distinct identifiers and known modes, their conditions too, and
    the operation of the right panel is one of them. *)
Theorem editor_invariant (clock : N -> N) (t : Message -> jstr) (e : Editor) (s : N) :
  reachable clock t e s -> Inv clock e s /\ selection_ok e.
Proof.
  assert (Hs : forall e s s', Inv clock e s -> (s <= s')%N ->
                 Inv clock (settle e) s' /\ selection_ok (settle e)).
  { intros e0 s0 s1 Hi Hle. split; [|now apply settle_selection, Hi].
    apply (Inv_same clock e0); [apply settle_operations|]. now apply (Inv_weaken clock e0 s0). }
  induction 1 as [s0 e0 s1 s2 E Hle|a e0 s0 e1 fx s1 s2 _ [IH _] Ha E Hle|a e0 s0 s1 _ [IH Hsel] _ Hle].
  - apply (Hs e0 s1); [|easy]. revert E. apply spec_bind, (spec_conseq _ _ _ _ (created_drawn clock s0)).
    intros op s3 Hs3 Hop _. apply spec_ret. now apply (replaced_inv clock s0 s3 [op]).
  - apply (Hs e1 s1); [|easy]. now apply (step_inv clock t a e0 s0 IH Ha (e1, fx) s1).
  - split; [now apply (Inv_weaken clock e0 s0)|easy].
Qed.

Lemma editor_invariant_witness :
  exists e s, length (ed_operations e) = 2
    /\ Inv (fun _ => 0%N) e s /\ selection_ok e.
Proof.
  assert (H : exists e s, reachable (fun _ => 0%N) fst e s /\ length (ed_operations e) = 2).
  { eexists _, _. split.
    - eapply (reach_step _ _ AAdd); [|exact I|reflexivity|apply N.le_refl].
      apply (reach_init _ _ 0%N _ _ _ eq_refl (N.le_refl _)).
    - reflexivity. }
  destruct H as (e & s & Hr & Hl). exists e, s. split; [exact Hl|].
  exact (editor_invariant _ _ e s Hr).
Defined.
