(* ===== verification/ParamEditorProofs.v ===== *)
(** Theorems on [ParamEditor]: what the dialog saves, the switch between its modes,
    the copy of an operation, the templates, and the rules of the pruning editor. *)

From S2P Require Import Prelude Number Json ParamOverride ParamPayload ParamOverrideProofs ParamEditor.
From stdpp Require Import options.

(** * What is saved *)

(** The values that the dialog may save in a state. *)
Inductive saved (e : Editor) : jstr -> Prop :=
| saved_blank_json :
    ed_editMode e = JsonMode -> trim (ed_jsonText e) = [] -> saved e []
| saved_json v :
    ed_editMode e = JsonMode -> json_parse (trim (ed_jsonText e)) = Some v ->
    trim (ed_jsonText e) <> [] -> saved e (pretty v)
| saved_blank_legacy :
    ed_editMode e = Visual -> ed_visualMode e = Legacy -> trim (ed_legacyValue e) = [] -> saved e []
| saved_legacy o :
    ed_editMode e = Visual -> ed_visualMode e = Legacy -> trim (ed_legacyValue e) <> [] ->
    json_parse (trim (ed_legacyValue e)) = Some (JObj o) -> saved e (pretty (JObj o))
| saved_no_operation :
    ed_editMode e = Visual -> ed_visualMode e = Operations ->
    forallb isOperationBlank (ed_operations e) = true -> saved e []
| saved_operations kept :
    ed_editMode e = Visual -> ed_visualMode e = Operations ->
    kept = List.filter (fun o => negb (isOperationBlank o)) (ed_operations e) -> kept <> [] ->
    forallb complete kept = true -> saved e (pretty (operations_of (map operation_payload kept))).

Lemma filter_blank ops :
  List.filter (fun o => negb (isOperationBlank o)) ops = []
  <-> forallb isOperationBlank ops = true.
Proof.
  induction ops as [|op ops IH]; [easy|]. cbn. destruct (isOperationBlank op); cbn; [exact IH|easy].
Qed.

Lemma save_result_saved t e :
  match save_result t e with
  | inr text => saved e text
  | inl _ => ~ exists text, saved e text
  end.
Proof.
  unfold save_result. destruct (ed_editMode e) eqn:Em.
  - unfold buildVisualJson. destruct (ed_visualMode e) eqn:Ev.
    + unfold build_text, buildOperationsJson.
      set (kept := List.filter (fun o => negb (isOperationBlank o)) (ed_operations e)).
      pose proof (validated kept) as Hv. destruct kept as [|op kept'] eqn:Ek.
      { apply saved_no_operation; try easy. now apply filter_blank. }
      rewrite <- Ek in *. destruct (validateOperations kept).
      * intros [text H]. destruct H; try congruence.
        -- apply filter_blank in H1. subst kept. congruence.
        -- subst kept0. fold kept in H3. congruence.
      * apply saved_operations; try easy. now rewrite Ek.
    + destruct (trim (ed_legacyValue e)) as [|c text] eqn:Et; [now apply saved_blank_legacy|].
      destruct (json_parse (c :: text)) as [v|] eqn:Ep.
      2: { intros [text' H]. destruct H; congruence. }
      destruct v as [| | | | |o]; try (intros [text' H]; destruct H; congruence).
      apply saved_legacy; congruence.
  - destruct (trim (ed_jsonText e)) as [|c text] eqn:Et; [now apply saved_blank_json|].
    destruct (json_parse (c :: text)) as [v|] eqn:Ep.
    + apply saved_json; congruence.
    + intros [text' H]. destruct H; congruence.
Qed.

(** C39: pressing save either hands over one of the values the state allows and closes
    the dialog, or, when there is none, only shows a message; it never throws and
    never changes the state. *)
Theorem save_sound (t : Message -> jstr) (e : Editor) (s : N) :
  (exists text, saved e text /\ handleSave t e s = Ret (e, [OnSave text; Close], s))
  \/ (exists m, (~ exists text, saved e text) /\ handleSave t e s = Ret (e, [ToastError m], s)).
Proof.
  pose proof (save_result_saved t e) as H. unfold handleSave.
  destruct (save_result t e) as [m|text]; [right; now exists m|left; now exists text].
Qed.

(** * The two modes *)

(** The passage to the visual mode on the text of a list of operations. *)
Lemma shown_again clock t e l ops' s s' :
  ed_editMode e = JsonMode -> ed_jsonText e = pretty (operations_of l) ->
  json_parse (pretty (operations_of l)) = Some (operations_of l) -> l <> [] ->
  mapM (normalizeOperation clock) l s = Ret (ops', s') ->
  switchToVisualMode clock t e s
  = Ret (setTemplatePresetKey "operations_default" (setLegacyValue [] (show_operations ops' e)), [], s').
Proof.
  intros Em Et Hp Hl E. unfold switchToVisualMode. rewrite Em, Et.
  destruct (pretty_edges "operations" (JArr l)) as [He Hne].
  change (JObj [("operations", JArr l)]) with (operations_of l) in He, Hne. rewrite (edges_trim _ He).
  destruct (pretty (operations_of l)) as [|c text] eqn:Ep; [easy|]. rewrite Hp.
  destruct l as [|v l]; [easy|]. unfold operations_of. cbv iota.
  match goal with |- context [operations_field ?x] =>
    change (operations_field x) with (Some (v :: l)) end.
  cbv beta iota delta [load_operations bindM]. now rewrite E.
Qed.

(** The visual editor of operations is shown. *)
Definition shows_operations (e : Editor) : Prop :=
  ed_editMode e = Visual /\ ed_visualMode e = Operations.

(** an operation list that can be saved survives the passage to the JSON text and
    back: the visual editor then saves the same text. *)
Theorem modes_roundtrip (clock : N -> N) (t : Message -> jstr) (e : Editor) (s : N) (text : jstr) :
  shows_operations e ->
  Forall operation_wf (ed_operations e) -> Forall operation_stable (ed_operations e) ->
  Forall (fun op => wf_json (operation_payload op)) (ed_operations e) ->
  save_result t e = inr text -> text <> [] ->
  exists e1 e2 s', switchToJsonMode t e s = Ret (e1, [], s)
    /\ switchToVisualMode clock t e1 s = Ret (e2, [], s')
    /\ shows_operations e2 /\ save_result t e2 = inr text.
Proof.
  intros [Em Ev] Hw Hst Hj E Hne. unfold save_result in E. rewrite Em in E.
  set (e1 := setEditMode JsonMode (setJsonError [] (setJsonText text e))).
  assert (E1 : switchToJsonMode t e s = Ret (e1, [], s)) by (unfold switchToJsonMode; now rewrite Em, E).
  unfold buildVisualJson, build_text in E. rewrite Ev in E.
  destruct (buildOperationsJson (ed_operations e) true) as [m|text'] eqn:Eb; [discriminate|].
  injection E as ->. destruct (built_text _ _ Hj Eb Hne) as (kept & Hin & Hk & Hv & -> & Hp).
  assert (Hkeep : forall P, Forall P (ed_operations e) -> Forall P kept).
  { intros P HP. apply List.Forall_forall. intros o Ho.
    exact (proj1 (List.Forall_forall _ _) HP o (Hin o Ho)). }
  apply Hkeep in Hw, Hst. destruct (kept_again clock kept s Hw Hst Hv Hk) as (ops' & s' & E2 & _ & E3).
  set (l := map operation_payload kept) in *.
  exists e1, (setTemplatePresetKey "operations_default" (setLegacyValue [] (show_operations ops' e1))), s'.
  split; [exact E1|]. split; [apply shown_again with l; try easy; now destruct kept|].
  repeat (split; [easy|]). unfold save_result, buildVisualJson, build_text. cbn. now rewrite E3.
Qed.

Definition sample_editor : Editor :=
  {| ed_editMode := Visual; ed_visualMode := Operations; ed_legacyValue := [];
     ed_operations := [sample_set]; ed_jsonText := []; ed_jsonError := []; ed_operationSearch := [];
     ed_selectedOperationId := "o"; ed_expandedConditions := []; ed_draggedOperationId := [];
     ed_dragOverOperationId := []; ed_dragOverPosition := Before;
     ed_templatePresetKey := "operations_default" |}.

Lemma modes_roundtrip_witness :
  exists text e1 e2 s', switchToJsonMode fst sample_editor 0%N = Ret (e1, [], 0%N)
    /\ switchToVisualMode (fun _ => 0%N) fst e1 0%N = Ret (e2, [], s')
    /\ shows_operations e2 /\ save_result fst e2 = inr text.
Proof.
  eexists. apply (modes_roundtrip (fun _ => 0%N) fst sample_editor 0%N _ (conj eq_refl eq_refl) sample_set_wf
                    sample_set_stable sample_set_json eq_refl). discriminate.
Defined.

(** * Copies *)

Lemma copied_condition clock c s :
  condition_wf c -> (trim (c_path c) <> [] -> stable (c_value_text c)) ->
  exists c', normalizeCondition clock (copy_condition c) s = Ret (c', (s + 1)%N)
    /\ buildConditionPayload c' = buildConditionPayload c.
Proof.
  intros [Hm] Hs. eexists. split; [reflexivity|].
  unfold buildConditionPayload. cbn [c_path c_mode c_value_text c_invert c_pass_missing_key].
  change (str_field (jget "path" (copy_condition c))) with (c_path c).
  destruct (truthy (trim (c_path c))) eqn:Ep; [|easy]. apply truthy_iff in Ep. cbn [negb].
  change (jget "mode" (copy_condition c)) with (Some (JStr (c_mode c))).
  change (jget "value" (copy_condition c)) with (Some (parseLooseValue (c_value_text c))).
  rewrite (member_or_in _ _ _ Hm). specialize (Hs Ep). unfold stable, shown in Hs. rewrite Hs.
  replace (is_true (jget "invert" (copy_condition c))) with (c_invert c) by now destruct (c_invert c) eqn:E; cbn; rewrite ?E.
  replace (is_true (jget "pass_missing_key" (copy_condition c))) with (c_pass_missing_key c)
    by now destruct (c_pass_missing_key c) eqn:E; cbn; rewrite ?E.
  easy.
Qed.

Lemma copied_conditions clock cs s :
  Forall condition_wf cs -> Forall (fun c => trim (c_path c) <> [] -> stable (c_value_text c)) cs ->
  exists cs' s', mapM (normalizeCondition clock) (map copy_condition cs) s = Ret (cs', s')
    /\ omap buildConditionPayload cs' = omap buildConditionPayload cs.
Proof.
  intros Hw; revert s; induction Hw as [|c cs Hc _ IH]; intros s Hs.
  - now exists [], s.
  - apply Forall_cons_1 in Hs as [Hsc Hs]. destruct (copied_condition clock c s Hc Hsc) as (c' & E & Ec).
    destruct (IH (s + 1)%N Hs) as (cs' & s' & E' & Eo).
    exists (c' :: cs'), s'. cbn [map mapM]. unfold bindM at 1. rewrite E. unfold bindM. rewrite E'.
    split; [easy|]. cbn. now rewrite Ec, Eo.
Qed.

Lemma fields_value_eq mm mode d p v v' keep f t :
  (m_value mm = true -> v = v') ->
  payload_fields mm mode d p v keep f t = payload_fields mm mode d p v' keep f t.
Proof. intros H. unfold payload_fields. destruct (m_value mm); [now rewrite H|easy]. Qed.

Lemma copied_operation clock op s :
  operation_wf op -> operation_stable op ->
  exists op' s', normalizeOperation clock (copy_operation op) s = Ret (op', s')
    /\ op_id op' = local_id clock s /\ operation_payload op' = operation_payload op.
Proof.
  intros [Hm Hl Hc] [Hv _ Hs].
  destruct (copied_conditions clock (op_conditions op) (s + 1)%N Hc Hs) as (cs' & s' & E & Ec).
  eexists _, s'. split; [unfold normalizeOperation, bindM; cbn [nextLocalId];
    change (jget "conditions" (copy_operation op)) with (Some (JArr (map copy_condition (op_conditions op))));
    cbv iota; unfold copy_operation at 1; rewrite E; reflexivity|].
  split; [reflexivity|]. rewrite !operation_payload_core.
  cbn [op_mode op_description op_path op_value_text op_keep_origin op_from op_to op_logic op_conditions].
  change (jget "mode" (copy_operation op)) with (Some (JStr (op_mode op))).
  rewrite (member_or_in _ _ _ Hm), Ec, (mode_nonempty _ Hm). f_equal. unfold payload_core.
  change (jget "value" (copy_operation op)) with (Some (parseLooseValue (op_value_text op))).
  fold (shown (op_value_text op)).
  rewrite (fields_value_eq _ _ _ _ (parseLooseValue (shown (op_value_text op)))
             (parseLooseValue (op_value_text op))) by exact Hv.
  replace (is_true (jget "keep_origin" (copy_operation op))) with (op_keep_origin op)
    by now destruct (op_keep_origin op) eqn:Ek; cbn; rewrite ?Ek.
  replace (normalize_logic (jget "logic" (copy_operation op))) with (op_logic op).
  2: { change (jget "logic" (copy_operation op)) with (Some (JStr (op_logic op))).
       now destruct Hl as [<-|[<-|[]]]. }
  reflexivity.
Qed.

(** Two operations that are saved as the same value. *)
Definition saved_alike (a b : ParamOverrideOperation) : Prop :=
  operation_payload a = operation_payload b.

(** a duplicated operation is inserted right after its source, under a new
    identifier, and is saved as the source is; the other operations stay. *)
Theorem duplicate_payload (clock : N -> N) (eager : bool) (e : Editor) (s : N) (id : jstr)
    (pre post : list ParamOverrideOperation) (op : ParamOverrideOperation) :
  Inv clock e s -> ed_operations e = pre ++ op :: post -> op_id op = id -> operation_stable op ->
  exists e' s' copy, duplicateOperation clock eager id e s = Ret (e', [], s')
    /\ ed_operations e' = pre ++ op :: copy :: post
    /\ saved_alike copy op
    /\ ~ In (op_id copy) (map op_id (ed_operations e))
    /\ (eager = true -> ed_selectedOperationId e' = op_id copy).
Proof.
  intros [(Hn & Hd & Ho) _] E Eid Hs. rewrite E in Hn, Hd, Ho.
  assert (Hw : operation_wf op).
  { apply Forall_app in Ho as [_ Ho]. apply Forall_cons_1 in Ho as [(Hm & Hl & Hc & _) _]. now split. }
  destruct (copied_operation clock op s Hw Hs) as (copy & s' & Ec & Ei & Ep).
  assert (Ef : findIndex (has_id id) (pre ++ op :: post) = Some (length pre)).
  { rewrite map_app in Hn. apply NoDup_app in Hn as (_ & Hn & _). clear -Hn Eid.
    induction pre as [|x pre IH]; cbn.
    - unfold has_id. now rewrite Eid, seqb_refl.
    - rewrite IH by (intros y Hy; apply Hn; cbn; now right). unfold has_id.
      destruct (seqb_spec (op_id x) id) as [Ex|]; [|easy]. exfalso. apply (Hn (op_id x)); [left|].
      rewrite Ex, <- Eid. cbn. left. }
  unfold duplicateOperation. rewrite E, Ef, list_lookup_middle by easy. unfold bindM. rewrite Ec.
  eexists _, s', copy. split; [reflexivity|].
  assert (Ei' : insert_at (length pre + 1) copy (pre ++ op :: post) = pre ++ op :: copy :: post).
  { unfold insert_at. rewrite (cons_middle op pre post), app_assoc.
    replace (length pre + 1) with (length (pre ++ [op])) by now rewrite length_app.
    rewrite take_app_length, drop_app_length. now rewrite <- app_assoc. }
  split; [destruct eager; exact Ei'|]. split; [easy|]. split; [|now intros ->].
  rewrite Ei. intros Hin%list_elem_of_In. rewrite Forall_forall in Hd.
  apply Hd in Hin as (k & _ & Hk & Ek%local_id_inj). lia.
Qed.

Lemma duplicate_payload_witness :
  exists e' s' copy, duplicateOperation (fun _ => 0%N) true
      (local_id (fun _ => 0%N) 0)
      (setOperations [sample_operation (local_id (fun _ => 0%N) 0)] sample_editor) 1%N
      = Ret (e', [], s')
    /\ length (ed_operations e') = 2 /\ ed_selectedOperationId e' = op_id copy.
Proof.
  assert (Hi : Inv (fun _ => 0%N)
      (setOperations [sample_operation (local_id (fun _ => 0%N) 0)] sample_editor) 1%N).
  { split; [|discriminate]. split; [apply NoDup_singleton|]. split.
    - constructor; [|constructor]. exists 0%N. repeat split; lia.
    - constructor; [|constructor]. split; [now left|]. split; [right; now left|].
      repeat split; constructor. }
  destruct (duplicate_payload _ true _ 1%N (op_id (sample_operation (local_id (fun _ => 0%N) 0)))
              [] [] (sample_operation (local_id (fun _ => 0%N) 0)) Hi eq_refl eq_refl)
    as (e' & s' & copy & H1 & H2 & _ & _ & H3).
  { split; [easy|discriminate|constructor]. }
  exists e', s', copy. split; [exact H1|]. split; [now rewrite H2|now apply H3].
Defined.

(** * Templates *)

(** A value with the keys of its objects sorted. *)
Fixpoint canon (v : json) : json :=
  match v with
  | JArr l => JArr (map canon l)
  | JObj o =>
    JObj (stable_sort (fun a b => str_leb (fst a) (fst b)) (map (fun kv => (fst kv, canon (snd kv))) o))
  | _ => v
  end.

(** ** Operations up to their identifiers *)

Definition erase_condition (c : ParamOverrideCondition) : ParamOverrideCondition :=
  {| c_id := []; c_path := c_path c; c_mode := c_mode c; c_value_text := c_value_text c;
     c_invert := c_invert c; c_pass_missing_key := c_pass_missing_key c |}.

Definition erase (o : ParamOverrideOperation) : ParamOverrideOperation :=
  {| op_id := []; op_description := op_description o; op_path := op_path o; op_mode := op_mode o;
     op_from := op_from o; op_to := op_to o; op_value_text := op_value_text o;
     op_keep_origin := op_keep_origin o; op_logic := op_logic o;
     op_conditions := map erase_condition (op_conditions o) |}.

(** The value a computation returns. *)
Definition result {A B} (f : A -> B) (r : exc (A * N)) : option B :=
  match r with Ret (a, _) => Some (f a) | Throw => None end.

Lemma erase_payload o : operation_payload (erase o) = operation_payload o.
Proof.
  assert (E : omap buildConditionPayload (map erase_condition (op_conditions o))
              = omap buildConditionPayload (op_conditions o)).
  { induction (op_conditions o) as [|c cs IH]; [easy|]. cbn. rewrite IH. easy. }
  unfold operation_payload. cbn [op_mode op_description op_path op_value_text op_keep_origin op_from
    op_to op_logic op_conditions erase]. now rewrite E.
Qed.

Lemma erased_mapM {A B} (e : B -> B) (f g : A -> M B) l s s' :
  (forall x s s', result e (f x s) = result e (g x s')) ->
  result (map e) (mapM f l s) = result (map e) (mapM g l s').
Proof.
  intros H. revert s s'; induction l as [|x l IH]; intros s s'; [easy|]. cbn [mapM]. unfold bindM.
  specialize (H x s s'). destruct (f x s) as [[b s1]|], (g x s') as [[c s2]|]; try easy.
  specialize (IH s1 s2). destruct (mapM f l s1) as [[bs s3]|], (mapM g l s2) as [[cs s4]|]; try easy.
  cbn in *. congruence.
Qed.

(** Reading an operation does not depend on the identifiers it draws. *)
Lemma erased_operation clock clock' v s s' :
  result erase (normalizeOperation clock v s) = result erase (normalizeOperation clock' v s').
Proof.
  assert (Hc : forall l s s', result (map erase_condition) (mapM (normalizeCondition clock) l s)
                              = result (map erase_condition) (mapM (normalizeCondition clock') l s')).
  { intros l s1 s2. apply erased_mapM. intros x s3 s4. now destruct x. }
  unfold normalizeOperation, bindM. cbn [nextLocalId].
  specialize (Hc (match jget "conditions" v with Some (JArr l) => l | _ => [] end) (s + 1)%N (s' + 1)%N).
  assert (E : forall clock, match jget "conditions" v with
                            | Some (JArr l) => mapM (normalizeCondition clock) l
                            | _ => ret [] end
              = mapM (normalizeCondition clock)
                  (match jget "conditions" v with Some (JArr l) => l | _ => [] end)).
  { intros k. now destruct (jget "conditions" v) as [[]|]. }
  rewrite !E. destruct v; try easy;
    destruct (mapM (normalizeCondition clock) _ _) as [[cs s1]|],
      (mapM (normalizeCondition clock') _ _) as [[cs' s2]|]; try easy; cbn in *;
    injection Hc as Hc; unfold erase; cbn; now rewrite Hc.
Qed.

Lemma erased_operations clock clock' l s s' :
  result (map erase) (mapM (normalizeOperation clock) l s)
  = result (map erase) (mapM (normalizeOperation clock') l s').
Proof. apply erased_mapM. intros v s1 s2. apply erased_operation. Qed.

(** Two operations that differ by identifiers only: what is saved, what is complete and
    what is blank do not see the difference. *)
#[export] Instance operation_equiv : Equiv ParamOverrideOperation := fun a b => erase a = erase b.

#[export] Instance operation_equivalence : Equivalence (≡@{ParamOverrideOperation}).
Proof.
  split; unfold equiv, operation_equiv; [easy|now intros a b ->|intros a b c E1 E2; congruence].
Qed.

#[export] Instance operation_payload_proper : Proper ((≡) ==> (=)) operation_payload.
Proof. intros a b E. now rewrite <- (erase_payload a), E, erase_payload. Qed.

#[export] Instance complete_proper : Proper ((≡) ==> (=)) complete.
Proof. intros a b E. change (complete (erase a) = complete (erase b)). now rewrite E. Qed.

Lemma equiv_map_payload (a b : list ParamOverrideOperation) :
  a ≡ b -> map operation_payload a = map operation_payload b.
Proof. induction 1 as [|x y a b E _ IH]; [easy|]. cbn. now rewrite E, IH. Qed.

Lemma equiv_complete (a b : list ParamOverrideOperation) :
  a ≡ b -> forallb complete a = forallb complete b.
Proof. induction 1 as [|x y a b E _ IH]; [easy|]. cbn [forallb]. now rewrite E, IH. Qed.

(** Reading a list again, at other identifiers, gives an equivalent list. *)
Lemma operations_equiv clock clock' l s s' L s1 :
  mapM (normalizeOperation clock') l s' = Ret (L, s1) ->
  exists ops s2, mapM (normalizeOperation clock) l s = Ret (ops, s2) /\ ops ≡ L.
Proof.
  intros E. pose proof (erased_operations clock clock' l s s') as H. rewrite E in H.
  destruct (mapM (normalizeOperation clock) l s) as [[ops s2]|]; [|easy]. exists ops, s2.
  split; [easy|]. injection H as H. clear E. revert L H.
  induction ops as [|op ops IH]; intros [|o L] H; cbn [map] in H; try easy.
  constructor;
    [exact (f_equal (hd (erase op)) H)|apply IH; exact (f_equal (@List.tl _) H)].
Qed.

(** A template of operations that reads as complete operations with its own payload. *)
Lemma template_fill clock t e s l L s0 :
  mapM (normalizeOperation (fun _ => 0%N)) l 0%N = Ret (L, s0) -> L <> [] ->
  forallb complete L = true ->
  exists e' s', fill_operations clock Fill l e s = Ret (e', [], s')
    /\ save_result t e' = inr (pretty (operations_of (map operation_payload L))).
Proof.
  intros H Hn Hc. destruct (operations_equiv clock _ l s _ L s0 H) as (ops & s' & E & Heq).
  assert (Hl : l <> []) by (intros ->; injection H as <- <-; easy).
  eexists _, s'. split.
  { unfold fill_operations, bindM. destruct l as [|v l]; [easy|]. cbn [load_operations]. rewrite E.
    reflexivity. }
  unfold save_result, buildVisualJson, build_text.
  cbn [ed_editMode ed_visualMode ed_operations setJsonText setEditMode setJsonError
       setSelectedOperationId setOperations setVisualMode show_operations].
  rewrite (build_complete ops).
  - now rewrite (equiv_map_payload ops L Heq).
  - now rewrite (equiv_complete ops L Heq).
  - intros ->. inversion Heq. congruence.
Qed.

Lemma template_legacy clock t e s payload o :
  json_parse (trim (pretty payload)) = Some (JObj o) -> trim (pretty payload) <> [] ->
  JObj o = payload ->
  exists e' s', fill_legacy clock t Fill payload e s = Ret (e', [], s')
    /\ save_result t e' = inr (pretty payload).
Proof.
  intros Hp Hn Ho. eexists _, _. split; [reflexivity|]. unfold save_result, buildVisualJson.
  cbn [ed_editMode ed_visualMode ed_legacyValue setJsonText setEditMode setJsonError
       setOperations setVisualMode setLegacyValue].
  destruct (trim (pretty payload)); [easy|]. now rewrite Hp, Ho.
Qed.

(** One template, by computation. *)
Ltac template_case :=
  let e' := fresh "e" in let s' := fresh "s" in
  let E1 := fresh "E" in let E2 := fresh "E" in
  lazymatch goal with |- context [preset_of ?k] =>
    let kind := eval vm_compute in (tp_kind (preset_of k)) in
    change (tp_kind (preset_of k)) with kind; cbv iota;
    lazymatch kind with
    | KindLegacy =>
      match goal with |- context [fill_legacy ?clock ?t _ _ ?e ?s] =>
        destruct (template_legacy clock t e s (tp_payload (preset_of k)) _
                    ltac:(vm_compute; reflexivity) ltac:(vm_compute; discriminate)
                    ltac:(vm_compute; reflexivity)) as (e' & s' & E1 & E2)
      end;
      exists e', s', (tp_payload (preset_of k));
      split; [exact E1|]; split; [exact E2|reflexivity]
    | KindOperations =>
      let l := eval vm_compute in (or_else (operations_field (tp_payload (preset_of k))) []) in
      let r := eval vm_compute in (mapM (normalizeOperation (fun _ => 0%N)) l 0%N) in
      lazymatch r with Ret (?L, ?s0) =>
        match goal with |- context [fill_operations ?clock _ _ ?e ?s] =>
        match goal with |- context [save_result ?t _] =>
          destruct (template_fill clock t e s l L s0 ltac:(vm_compute; reflexivity) ltac:(discriminate)
                      ltac:(vm_compute; reflexivity)) as (e' & s' & E1 & E2)
        end end;
        exists e', s', (operations_of (map operation_payload L));
        split; [exact E1|]; split; [exact E2|vm_compute; reflexivity]
      end
    end
  end.

(** every template, once filled in, is saved as it is written, up to the order of
    the keys: none is refused by the validation, none loses a field. *)
Theorem template_saved (clock : N -> N) (t : Message -> jstr) (key : jstr) (e : Editor) (s : N) :
  In key (map fst TEMPLATE_PRESET_CONFIG) ->
  exists e' s' v, fillTemplate clock t Fill (setTemplatePresetKey key e) s = Ret (e', [], s')
    /\ save_result t e' = inr (pretty v)
    /\ canon v = canon (tp_payload (preset_of key)).
Proof.
  assert (Hp : forall key', ed_templatePresetKey (setTemplatePresetKey key' e) = key') by easy.
  intros H. repeat (destruct H as [<-|H];
    [unfold fillTemplate; rewrite Hp; template_case|]). easy.
Qed.

Lemma template_saved_witness :
  exists e' s' v,
    fillTemplate (fun _ => 0%N) fst Fill (setTemplatePresetKey "gemini_image_4k" sample_editor) 0%N
    = Ret (e', [], s')
    /\ save_result fst e' = inr (pretty v)
    /\ canon v = canon GEMINI_IMAGE_4K_TEMPLATE.
Proof. apply (template_saved (fun _ => 0%N) fst "gemini_image_4k"). cbn. tauto. Defined.

(** * Rules of the pruning editor *)

Definition no_patch : PrunePatch :=
  {| pp_simpleMode := None; pp_typeText := None; pp_logic := None; pp_recursive := None |}.

Definition advanced_patch : PrunePatch :=
  {| pp_simpleMode := Some false; pp_typeText := None; pp_logic := None; pp_recursive := None |}.

Lemma patch_none d : patch_prune no_patch d = d.
Proof. now destruct d. Qed.

(** An identifier drawn before the rules changes none of them. *)
Lemma rules_apart clock s s' rid (f : PruneRule -> PruneRule) rules :
  (exists k, (k < s)%N /\ rid = local_id clock k) -> Forall (drawn clock s s') (map pr_id rules) ->
  map (fun r => if pr_id r =s rid then f r else r) rules = rules
  /\ List.filter (fun r => negb (pr_id r =s rid)) rules = rules.
Proof.
  intros (k & Hk & ->) H. induction rules as [|r rules IH]; [easy|].
  cbn [map List.filter] in *.
  apply Forall_cons_1 in H as [(j & Hj & _ & Ej) H]. destruct (IH H) as [E1 E2]. rewrite E1, E2.
  destruct (seqb_spec (pr_id r) (local_id clock k)) as [E|]; [|easy].
  rewrite Ej in E. apply local_id_inj in E. lia.
Qed.

(** Updates that agree on every draft that is read from now on. *)
Lemma updates_agree clock id f g e s :
  (forall d s1 s2, (s <= s1)%N -> Forall (drawn clock s1 s2) (map pr_id (pd_rules d)) -> f d = g d) ->
  updatePruneObjectsDraft clock id (fun d => ret (f d)) e s
  = updatePruneObjectsDraft clock id (fun d => ret (g d)) e s.
Proof.
  intros H. unfold updatePruneObjectsDraft.
  assert (E : forall ops s1, (s <= s1)%N ->
    mapM (fun o => if has_id id o then update_prune_text clock (fun d => ret (f d)) o else ret o) ops s1
    = mapM (fun o => if has_id id o then update_prune_text clock (fun d => ret (g d)) o else ret o) ops s1).
  { induction ops as [|op ops IH]; intros s1 Hs; [easy|]. cbn [mapM]. unfold bindM.
    destruct (has_id id op); [|cbn [ret]; now rewrite IH].
    unfold update_prune_text, bindM. pose proof (draft_drawn clock (op_value_text op) s1) as Hd.
    destruct (parsePruneObjectsDraft clock (op_value_text op) s1) as [[d s2]|] eqn:Ed; [|easy].
    destruct (Hd d s2 Ed) as [Hle Hdr]. cbn [ret]. rewrite (H d s1 s2 Hs Hdr).
    rewrite IH by lia. reflexivity. }
  unfold bindM at 1. rewrite (E (ed_operations e) s) by lia. reflexivity.
Qed.

(** editing or removing a rule of the pruning editor has no effect: the handlers
    compare the identifier of the displayed rule with those of the rules they read
    again, which are new.  The result is that of an empty patch of the draft. *)
Theorem prune_rule_edit_lost (clock : N -> N) (e : Editor) (s0 s1 s : N) (d : PruneObjectsDraft)
    (r : PruneRule) (id : jstr) (patch : RulePatch) :
  pruneObjectsDraft clock e s0 = Ret (Some d, s1) -> In r (pd_rules d) -> (s1 <= s)%N ->
  updatePruneRule clock id (pr_id r) patch e s = patchPruneDraft clock id no_patch e s
  /\ removePruneRule clock id (pr_id r) e s = patchPruneDraft clock id no_patch e s.
Proof.
  intros Hd Hr Hs.
  assert (Hid : exists k, (k < s)%N /\ pr_id r = local_id clock k).
  { unfold pruneObjectsDraft in Hd. destruct (selectedOperation e) as [op|]; [|discriminate].
    destruct (op_mode op =s "prune_objects"); [|discriminate]. unfold bindM in Hd.
    pose proof (draft_drawn clock (op_value_text op) s0) as H.
    destruct (parsePruneObjectsDraft _ _ _) as [[d' s']|] eqn:Ed; [|discriminate].
    injection Hd as -> ->. destruct (H d s1 Ed) as [_ Hdr]. rewrite Forall_forall in Hdr.
    destruct (Hdr (pr_id r)) as (k & _ & Hk & E).
    - apply list_elem_of_In. now apply in_map.
    - exists k. split; [lia|easy]. }
  assert (Hold : forall s2, (s <= s2)%N -> exists k, (k < s2)%N /\ pr_id r = local_id clock k).
  { intros s2 Hle. destruct Hid as (k & Hk & E). exists k. split; [lia|easy]. }
  split; apply updates_agree; intros d' s2 s3 Hle Hdr; rewrite patch_none;
    destruct (rules_apart clock s2 s3 (pr_id r) (patch_rule patch) (pd_rules d') (Hold s2 Hle) Hdr)
      as [E1 E2].
  - unfold edit_rule. rewrite E1. now destruct d'.
  - unfold drop_rule. rewrite E2. now destruct d'.
Qed.

Definition sample_prune : Editor :=
  setOperations
    [set_value_text (stringify (JObj [("conditions", JArr [JObj [("path", JStr "type"); ("value", JStr "x")]])]))
       (patch_operation {| p_description := None; p_path := None; p_mode := Some ("prune_objects" : jstr);
                           p_from := None; p_to := None; p_value_text := None; p_keep_origin := None;
                           p_logic := None |} (sample_operation "o"))] sample_editor.

Lemma prune_rule_edit_lost_witness :
  exists d s1 r, pruneObjectsDraft (fun _ => 0%N) sample_prune 0%N = Ret (Some d, s1)
    /\ In r (pd_rules d) /\ pr_path r = "type"
    /\ removePruneRule (fun _ => 0%N) "o" (pr_id r) sample_prune s1
       = patchPruneDraft (fun _ => 0%N) "o" no_patch sample_prune s1.
Proof.
  eexists _, _, _. split; [reflexivity|]. split; [now left|]. split; [reflexivity|].
  eapply (fun H1 H2 H3 => proj2 (prune_rule_edit_lost (fun _ => 0%N) sample_prune 0%N _ _ _ _ "o"
            {| rp_path := None; rp_mode := None; rp_value_text := None; rp_invert := None;
               rp_pass_missing_key := None |} H1 H2 H3)); [reflexivity|now left|apply N.le_refl].
Defined.

(** a rule cannot be added in the pruning editor: the new rule has no path, so that
    the text that is built drops it, and adding it is only leaving the simple mode. *)
Theorem prune_rule_never_added (clock : N -> N) (op : ParamOverrideOperation) (s : N) :
  result (fun o => o) (update_prune_text clock (add_rule clock) op s)
  = result (fun o => o) (update_prune_text clock (fun d => ret (patch_prune advanced_patch d)) op s).
Proof.
  unfold update_prune_text, bindM.
  destruct (parsePruneObjectsDraft clock (op_value_text op) s) as [[d s1]|]; [|easy].
  unfold add_rule, bindM, normalizePruneRule. cbn [nextLocalId bindM ret result]. unfold bindM. cbn [nextLocalId ret result].
  do 2 f_equal. unfold buildPruneObjectsValueText. cbn [pd_simpleMode set_rules patch_prune or_else
    advanced_patch pp_simpleMode pp_typeText pp_logic pp_recursive pd_typeText pd_logic pd_recursive pd_rules].
  rewrite List.filter_app. cbn -[trim]. now rewrite app_nil_r.
Qed.

(** the advanced mode of the pruning editor cannot be entered once a type is given:
    the text it builds then has none of the keys that the reader takes for that mode. *)
Theorem prune_advanced_lost (clock : N -> N) (op : ParamOverrideOperation) (s : N) :
  trim (op_value_text op) <> [] -> json_parse (trim (op_value_text op)) = None ->
  wf_str (op_value_text op) ->
  exists op' s', update_prune_text clock (fun d => ret (patch_prune advanced_patch d)) op s = Ret (op', s')
    /\ exists d s'', parsePruneObjectsDraft clock (op_value_text op') s' = Ret (d, s'')
       /\ pd_simpleMode d = true /\ pd_typeText d = trim (op_value_text op).
Proof.
  intros Hn Hp Hw%trim_wf. unfold update_prune_text, bindM.
  assert (Ed : parsePruneObjectsDraft clock (op_value_text op) s
               = Ret (prune_default (trim (op_value_text op)), s)).
  { unfold parsePruneObjectsDraft. destruct (trim (op_value_text op)) as [|c r]; [easy|]. now rewrite Hp. }
  rewrite Ed. cbn [ret]. eexists _, _. split; [reflexivity|].
  set (T := trim (op_value_text op)) in *.
  assert (Hb : buildPruneObjectsValueText (patch_prune advanced_patch (prune_default T))
               = stringify (JObj [("type", JStr T)])).
  { unfold buildPruneObjectsValueText. cbn [pd_simpleMode patch_prune or_else advanced_patch pp_simpleMode
      pp_typeText pp_logic pp_recursive pd_typeText pd_logic pd_recursive pd_rules prune_default].
    unfold T. rewrite trim_idem. fold T. apply truthy_iff in Hn. now rewrite Hn. }
  cbn [op_value_text set_value_text]. rewrite Hb. unfold parsePruneObjectsDraft.
  destruct (stringify_obj_edges [("type", JStr T)]) as [He Hne]. rewrite (edges_trim _ He).
  rewrite (read_print (print := stringify) (JObj [("type", JStr T)])).
  2: { split; [reflexivity|]. cbn. repeat split; [repeat constructor|exact Hw]. }
  destruct (stringify _); [easy|]. eexists _, _. split; [reflexivity|]. split; [reflexivity|].
  unfold T. cbn. apply trim_idem.
Qed.

Lemma prune_advanced_lost_witness :
  exists op' s', update_prune_text (fun _ => 0%N) (fun d => ret (patch_prune advanced_patch d))
      (set_value_text "redacted_thinking" (sample_operation "o")) 0%N = Ret (op', s')
    /\ exists d s'', parsePruneObjectsDraft (fun _ => 0%N) (op_value_text op') s' = Ret (d, s'')
       /\ pd_simpleMode d = true /\ pd_typeText d = "redacted_thinking".
Proof.
  apply (prune_advanced_lost (fun _ => 0%N) (set_value_text "redacted_thinking" (sample_operation "o")) 0%N);
    [discriminate|reflexivity|repeat constructor].
Defined.
